(* ===== verification/_CoqProject ===== *)
-Q . S2P
Prelude.v
VPic.v
VPit.v
VRtc.v
VDma.v
VKbd.v
Pc.v
Guest.v
Umb.v
Xms.v
Ems.v
Block.v
Overlay.v
Cache.v
Partition.v
Ext4.v
Journal.v
JournalCodec.v
JournalFacts.v
JournalCrash.v
JournalSafe.v
Extents.v
ExtentsFacts.v
ExtentsEdit.v
ExtentsSpec.v
DirEdit.v
DirFacts.v
DirSpec.v
Alloc.v
AllocFacts.v
AllocSpec.v
AllocInode.v
Heap.v
Pipe.v
KPipe.v
Frame.v
Phys.v
Paging.v
PagingFacts.v
PagingSteps.v
PagingSpaces.v
PagingFork.v
PagingSafety.v
Ldt.v
Mcb.v
Exe.v
Path.v
Effect.v
Vfs.v
VfsInv.v
VfsFacts.v
Fd.v
Thread.v
ThreadInv.v
ThreadFacts.v
Elf.v
ElfFacts.v
ElfSpec.v
ElfSym.v
ElfExec.v
ElfStack.v
ElfStart.v
