(* ===== verification/Prelude.v ===== *)
(** * RetroOS: a verified model of the kernel's core

    RetroOS is an x86 operating system in Rust that runs DOS, DPMI, Linux,
    OS/2 and Win32 programs over one kernel, on the real CPU (arch-metal) or
    in a host process (arch-interp).  A DOS program sees a virtual PC; the
    kernel owns the devices of that PC, the memory managers it offers, the
    block layer the filesystems stand on, and its own heap and pipes.  This
    library models those parts and proves what makes them correct.

    Paths below are relative to src/.

    ** The files

    - Prelude: machine integers as Z with explicit wrap-around, bit lemmas,
      little-endian bytes, automation (databases [bits], [fits]; tactics
      [solve_fits], [pow2], [bool_prop]) and the invariant rule for
      reachable states.
    - VPic: kernel/src/kernel/dos/machine/vpic.rs.  Module Pic8259 is one
      interrupt controller, Module VirtualPic the cascaded pair.  The
      step relation of a guest (raise, mask, deliver, end of interrupt) gives
      the reachable states.
    - VPit: machine/vpit.rs.  VirtualPitChannel is one counter, VirtualPit
      the timer over nanosecond host time.
    - VRtc: machine/vrtc.rs, the clock with its periodic interrupt.
    - VDma: machine/vdma.rs, both DMA controllers and the decoding of a
      programmed channel.
    - VKbd: machine/vkbd.rs, the keyboard controller and its scancode ring.
    - Pc: machine/mod.rs, the chipset that composes them: port reads and
      writes, the timer poll, the queueing of host interrupts, the choice of
      the vector to deliver, the flags images a guest sees; and the gate of
      lib/sound/src/speaker.rs that port 61h drives.
    - Guest: the register file (arch-abi/src/lib.rs, Regs) and the guest
      memory the DOS drivers use.
    - Umb and Xms: kernel/src/kernel/dos/xms.rs, upper memory blocks and the
      XMS driver with its move function.
    - Ems: kernel/src/kernel/dos/ems.rs, the expanded memory driver, whose
      windows are mapped by swapping page table entries.
    - Block, Overlay, Cache, Partition: kernel/src/kernel/block/.  The Disk
      trait is the class [Disk], its contract the class [DiskLaws]; volumes,
      the RAM overlay and the page cache are proved to keep the contract over
      any disk that does, so a mounted stack keeps it by composition.
    - Ext4: the reading side of the ext4 engine, ext4/src/lib.rs, ondisk.rs
      and storage.rs, with the lemmas that it never panics.
    - Journal: ext4/src/journal.rs, recovery and commit, over a device that
      keeps durable and pending writes apart.  JournalCodec has the round
      trips of its blocks, JournalFacts the scan of a log and the phases of a
      commit, JournalCrash and JournalSafe the theorems.
    - Extents: ext4/src/extent_tree.rs, the extent tree of an inode in memory
      with its decoding and encoding.  ExtentsFacts has records as a sorted
      mapping and insertion, ExtentsEdit the other edits and sequences of
      them, ExtentsSpec the theorems.
    - DirEdit: the directory entries of ext4/src/transaction.rs, from the
      records of a block to a linear directory that grows.  DirFacts has
      blocks as lists of records, DirSpec directories as maps and the
      theorems.
    - Alloc: the allocator of ext4/src/transaction.rs, the bitmaps and counters
      of blocks and inodes.  AllocFacts has bitmaps as sets of bits and the
      fields of descriptors, AllocSpec the theorems on blocks, AllocInode that
      on inodes.
    - Heap: lib/src/heap.rs, the kernel allocator, at the level of the list
      headers it threads through free memory.
    - Frame: kernel/src/kernel/fs/hostfs/frame.rs, the framing of the host
      filesystem protocol over a serial line.
    - Phys: arch-metal/src/phys_mm.rs, the physical page allocator with its
      reference counts, contiguous runs and DMA buffers, and the order in
      which kernel/src/arch/boot.rs sets it up.
    - Paging: arch-interp/src/paging.rs with the frames of phys.rs, the guest
      memory access of vcpu.rs and the fault dispatch of cpu.rs: the address
      spaces of the interpreter.  PagingFacts has the structure of the tables
      in physical memory and the counting of mappings, PagingSteps the
      operations on one page, PagingSpaces ranges, cleaning and new spaces,
      PagingFork the fork, PagingSafety the step relation of a run and the
      theorems.
    - Ldt: kernel/src/kernel/dos/dpmi/descriptors.rs and functions 0000h to
      000Ch of INT 31h in dpmi/mod.rs, the descriptor table of a
      protected-mode client.
    - Mcb: the memory blocks of kernel/src/kernel/dos/mod.rs with the chain of
      headers they leave in guest memory, functions 48h, 49h, 4Ah and 52h of
      INT 21h (dos/dos.rs) and 0100h to 0102h of INT 31h (dos/dpmi/mod.rs).
    - Exe: the program prefix, the environment block, the COM, MZ and
      overlay loaders and the handle table of dos/dos.rs, over Mcb.
    - Pipe and KPipe: lib/src/pipe.rs and kernel/src/kernel/kpipe.rs, ring
      buffers and the pool of pipes behind the pipe system calls.
    - Path: the path strings of kernel/src/kernel/vfs.rs (joining,
      normalising, the case-folded keys) and of the Linux calls.
    - Effect: the state monad with [Panic] and [Diverge] outcomes in which
      the VFS, the descriptors and the threads are written.
    - Vfs, VfsInv, VfsFacts: kernel/src/kernel/vfs.rs and the write grants of
      kernel/src/kernel/fs/grant.rs.  Vfs has the tables (mounts, open files,
      directory handles, union directories, case map) and one definition per
      operation; VfsInv the invariant of the tables and its preservation;
      VfsFacts the theorems.
    - Fd: the descriptor tables of kernel/src/kernel/thread.rs and the system
      calls of kernel/src/kernel/linux/mod.rs that change them (open, close,
      pipe, dup2, fcntl).
    - Thread, ThreadInv, ThreadFacts: kernel/src/kernel/thread.rs, sched.rs
      and exec_ctx.rs, with fork, wait, exit and the resumption of blocked
      reads in linux/mod.rs and of child programs in dos/mod.rs.  Thread has
      the table and its operations; ThreadInv the turns of the event loop and
      the invariant they keep; ThreadFacts the theorems.
    - Elf: the parser of lib/src/elf.rs and the loader of
      kernel/src/kernel/elf.rs.  ElfFacts has a reference encoder of program
      images and what the parser reads of its files, ElfSpec the theorem on the
      loader, ElfSym the symbol table.  ElfExec is [setup_user_stack],
      [read_c_argv] and [exec_elf_into] of linux/mod.rs, ElfStack the contents
      of the stack, ElfStart the theorem on starting a program.

    ** What the theorems show

    - Interrupts (VPic, Pc): the controller offers the highest-priority
      deliverable line and nothing else; in every reachable state a delivery
      outranks every running handler and an end of interrupt retires exactly
      the innermost one; the vector given to a guest respects its virtual
      interrupt flag and no other flag changes; during INT 9, port 60h keeps
      the byte the interrupt was raised for whatever else happens.
    - Time (VPit, VRtc): interrupt counts of a periodic timer do not depend on
      when it is polled, within the range of the clock; loops terminate; programmed counts and latches read back.
    - DMA and keyboard: a driver's programming sequence decodes to the buffer
      meant; the keyboard is a lossless paced queue; the queued stream is the
      raw one without fake shifts.
    - Memory managers: XMS blocks stay disjoint and inside their pool, moves
      stay inside their blocks, UMBs take only free pages, EMS mapping
      preserves every logical page's contents in a well-formed driver state.
    - DOS memory and programs: blocks with their headers stay disjoint under
      the allocation functions, the chain a program walks describes exactly them, allocation is first fit
      and refusals name the largest block; a loaded program is the relocated
      image behind its prefix, touches no live block, and inherits its
      parent's environment.
    - Physical memory: no page is given out while it has a holder or lies in a
      contiguous run a driver holds, exhaustion is reported only when real, DMA buffers are aligned, disjoint and low.
    - Address spaces: whatever the other spaces do, a space reads what it read
      before; a forked child reads what its parent read; a fault on a
      copy-on-write or absent page is resolved and the retried store is read
      back.
    - Storage: volumes confine, the overlay never writes to its device, the
      cache is transparent, bounded and resists scans, and the mounted stack
      reads back what was written; partition scanning stays in the device
      and reads back a written table.
    - ext4: wherever a commit is cut off and whatever part of its pending
      writes survives, the filesystem mounts and shows the state before the
      transaction or after it; a commit that ends leaves the journal ready
      for the next; no image makes mounting or reading panic.  Every sequence
      of edits of an extent tree refines a mapping of blocks, and loses no block
      and gives none back twice when the inserted blocks are new; every sequence of edits of a directory refines
      a map of names, and the reader lists what they wrote; blocks and inodes
      are allocated once, only blocks in use are given back, and bitmaps,
      counters and checksums agree afterwards.
    - Protection and transport: a DPMI client can never put a ring 0 or
      system descriptor in its table, fields read back, allocation is fresh;
      a frame survives any noise before it and bad CRCs are never accepted.
    - Heap and pipes: live blocks are disjoint and in the window under any
      client behaviour, null means the window is used up; pipes refine byte
      queues up to 4 GB of traffic.
    - Files (Vfs): two handles opened by one path never hold overlapping
      locks, only queries, creations and removals of unknown names reach a
      mount without a write grant, every operation ends, a path goes to the
      mount of the longest matching prefix, listings name each entry once,
      what is written to the RAM overlay below 2 GB reads back, bad handles
      are errors.
    - Programs (Elf): the loader puts every byte of an image in its place with
      the permissions of its parts, and a started program finds its arguments,
      environment and auxiliary vector on its stack; a symbol lookup finds the
      best candidate.
    - Threads: over the turns of the event loop that load no program, the
      thread table is well formed, every open file and pipe end is counted
      once per descriptor that names it, and saved registers are those that
      were saved; the scheduler finds a runnable thread when there is one; wait
      reports and reaps the right child, exit wakes the waiting parent; a
      switch away and back restores the registers.

    Theorems named after a defect ([cascade_request_starves],
    [umb_free_takes_neighbour], [xms_empty_block_overlaps],
    [xms_move_bound_wraps], the four of Ems, [scan_small_stride_panics],
    [heap_padding_misaligns], [pipe_read_stalls_after_wrap],
    [kpipe_write_overruns], [union_drops_newest], [ram_write_wrap_panics],
    [delete_keeps_mode], [dir_handle_count_wraps], the [full_table_] lemmas
    of the VFS, [schedule_starves], [dup2_dir_dangles],
    [pending_read_no_eof], [resume_forgets_status],
    [blocked_wait_reports_twice], [resident_block_overlaps],
    [com_without_memory_panics], [com_overruns_block],
    [large_image_small_block], [reloc_outside_image],
    [large_environment_unterminated], [empty_config_environment],
    [own_table_frees_program], [alloc_contig_wraps], [share_254_panics],
    [inline_directory_read_panics], [truncate_overfills_root],
    [odd_block_size_reads_no_nodes], [kernel_write_leaks],
    [set_writable_leaks], [fork_drops_traps], [long_name_shortened],
    [wrong_count_loses_bitmap], [offset_wraps_panics],
    [table_wraps_reads_outside], [truncated_file_loads],
    [section_table_wraps], [lookup_includes_end]) show concrete inputs on which the code does not
    do what its documentation or its callers expect; the positive theorems
    carry the hypothesis that excludes them.

    ** Choices

    - The kernel is built without overflow checks: arithmetic wraps at its
      width.  [usize] has 32 bits on the i686 target; where the 64-bit hosted
      build differs, the width is an argument (XMS moves, the ELF files).
    - A panic (an index out of range) is [None], or [Panic] in the monad of
      Effect, where [Diverge] is a loop that outlives its fuel.  The VFS
      loops over the batches a filesystem lists; [operations_end] shows that
      fuel above the number of batches, with the source's own limit of 40 on
      symbolic links, is never used up.
    - Reference counts are 16-bit: 1023 threads of 64 descriptors at most,
      with the few the kernel holds, stay below 65535, so no count wraps.
    - The filesystems under the VFS, the address spaces of the CPU backend,
      the DOS personality's own part of a thread, the program loads of the
      event loop, the file an interpreter path names and sockets are arguments
      of the definitions that use them.  The turns of [ThreadInv] leave the
      program loads out ([op_ok]).
    - Loops are structural where the source's bound is explicit.  The others
      take fuel that is proved enough: the cache's read loop has one step per
      byte left, the heap's list walks two more than there are headers in
      memory, the timer's catch-up loop is shown to need no more than the
      elapsed periods.
    - Disks below the block layer, the host CMOS and segment bases are
      arguments.  [DiskLaws] promises nothing about the data of a failed
      transfer; [MemDisk] is an instance.
    - The ext4 engine allocates its buffers fallibly and passes on errors of
      the storage; both end an operation where they occur and are left out
      (a commit that stops at a failed write is a prefix of its writes, which
      the crash theorem covers).  A write of a block is atomic: it survives
      whole or not at all.  The CRC of the [crc] package is the class [Crc];
      loops over a node, a log or a descriptor take its length as fuel, which
      the no-panic lemmas show is enough.  An edit of an extent tree that
      fails ends the operation with the tree dropped, so it is an error
      without a tree.
    - The processor under the interpreter is the Unicorn package: of it the
      model has the store of a byte, which the tables allow or not.  The steps
      of [PagingSafety] leave out what shares frames between spaces on purpose
      or by defect: physical ranges mapped directly, device aliases, pages
      made writable again, and kernel writes to copy-on-write pages; exchanged
      ranges lie in different 4 MB regions.
    - Logging, statistics counters of the I/O layer and the lock of the pipe
      pool (every operation holds it throughout) are left out.

    ** Not modelled

    Device drivers, VGA and sound synthesis, BIOS and the file and console
    services of INT 21h, the rest of the DPMI host, the LX and PE loaders and
    the choice of a format, the event loop's own part of a program load, the OS/2 and Win32 personalities, the Linux calls on memory,
    signals and sockets, the other filesystem backends, extended attributes
    and the operations of ext4 transactions on files, the metal CPU backend, and of the
    interpreter the CPU core, the devices and the host file access.
    Next in order: the operations of ext4 transactions, the tar and
    command line readers, DOS path names, the DPMI virtual interrupt flag,
    the HostFS requests, ISO 9660 and FAT12. *)

From Stdlib Require Import ZArith Lia Bool.
From stdpp Require Import base option list numbers relations.

(** * Machine integers

    A Rust unsigned integer of width [w] is a [Z] in [0, 2^w).  The kernel
    is built with [-c opt] (no overflow checks), so [+], [-] and [*] wrap
    and an [as] cast to a narrower type truncates: both are [wrap].  The
    explicit [saturating_*] methods are the [sat_*] functions. *)

Declare Scope machine_scope.
Delimit Scope machine_scope with M.
Open Scope Z_scope.

Definition wrap (w x : Z) : Z := x mod 2 ^ w.
Abbreviation u8 := (wrap 8).
Abbreviation u16 := (wrap 16).
Abbreviation u32 := (wrap 32).
Abbreviation u64 := (wrap 64).

(** [x] fits the unsigned type of width [w]. *)
Definition fits (w x : Z) : Prop := 0 <= x < 2 ^ w.

Definition U64_MAX : Z := 2 ^ 64 - 1.
Definition U32_MAX : Z := 2 ^ 32 - 1.
Definition U16_MAX : Z := 2 ^ 16 - 1.

(** [saturating_add], [saturating_mul] at a given maximum and
    [saturating_sub], which is the same at every unsigned width. *)
Definition sat_add (max x y : Z) : Z := Z.min (x + y) max.
Definition sat_mul (max x y : Z) : Z := Z.min (x * y) max.
Definition sat_sub (x y : Z) : Z := Z.max 0 (x - y).

(** [x.div_ceil(y)] for a positive divisor. *)
Definition div_ceil (x y : Z) : Z := (x + y - 1) / y.

(** [1 << k] and [!x] at width [w]. *)
Definition bit (k : Z) : Z := Z.shiftl 1 k.
Definition bnot (w x : Z) : Z := Z.lxor x (Z.ones w).

Notation "x .& y" := (Z.land x y) (at level 40, left associativity) : machine_scope.
Notation "x .| y" := (Z.lor x y) (at level 50, left associativity) : machine_scope.

Notation "b 'has' i" := (Z.testbit b i) (at level 70, i at level 40, only parsing) : machine_scope.
Open Scope machine_scope.

(** Bit operations on open terms never unfold. *)
#[global] Arguments Z.testbit : simpl never.
#[global] Arguments Z.land : simpl never.
#[global] Arguments Z.lor : simpl never.
#[global] Arguments Z.lxor : simpl never.
#[global] Arguments Z.shiftl : simpl never.
#[global] Arguments Z.shiftr : simpl never.
#[global] Arguments Z.modulo : simpl never.
#[global] Arguments Z.div : simpl never.
#[global] Arguments wrap : simpl never.
#[global] Arguments bit : simpl never.
#[global] Arguments bnot : simpl never.

(** * Ranges *)

Lemma pow2_pos w : 0 <= w -> 0 < 2 ^ w.
Proof. intros; apply Z.pow_pos_nonneg; lia. Qed.

Lemma wrap_fits w x : 0 <= w -> fits w (wrap w x).
Proof. intros Hw; apply Z.mod_pos_bound, pow2_pos, Hw. Qed.

Lemma wrap_small w x : fits w x -> wrap w x = x.
Proof. intros H; apply Z.mod_small, H. Qed.

Lemma fits_testbit w x :
  0 <= w -> (fits w x <-> 0 <= x /\ forall i, w <= i -> Z.testbit x i = false).
Proof.
  intros Hw; split.
  - intros [H0 H1]; split; [done|]; intros i Hi.
    rewrite <- (Z.mod_small x (2 ^ w)) by done.
    apply Z.mod_pow2_bits_high; lia.
  - intros [H0 Hhi]; split; [done|].
    destruct (Z.eq_dec x 0) as [->|Hne]; [by apply pow2_pos|].
    apply Z.log2_lt_pow2; [lia|].
    destruct (Z.lt_ge_cases (Z.log2 x) w) as [|Hge]; [done|].
    specialize (Hhi _ Hge). rewrite Z.bit_log2 in Hhi by lia. done.
Qed.

Lemma fits_high w x i : 0 <= w -> fits w x -> w <= i -> Z.testbit x i = false.
Proof. intros Hw H Hi. by apply fits_testbit in H as [_ H]; [apply H|]. Qed.

(** Two [w]-bit integers with the same bits are equal. *)
Lemma fits_bits_eq w x y :
  0 <= w -> fits w x -> fits w y ->
  (forall i, 0 <= i < w -> Z.testbit x i = Z.testbit y i) -> x = y.
Proof.
  intros Hw Hx Hy Heq. apply Z.bits_inj'; intros i Hi.
  destruct (Z.lt_ge_cases i w); [apply Heq; lia|].
  by rewrite !(fits_high w) by done.
Qed.

Lemma fits_land w x y : 0 <= w -> fits w x -> 0 <= y -> fits w (x .& y).
Proof.
  intros Hw Hx Hy. apply fits_testbit; [done|]. split.
  - apply Z.land_nonneg; destruct Hx; lia.
  - intros i Hi. rewrite Z.land_spec, (fits_high w x) by done. done.
Qed.

Lemma fits_lor w x y : 0 <= w -> fits w x -> fits w y -> fits w (x .| y).
Proof.
  intros Hw Hx Hy. apply fits_testbit; [done|]. split.
  - apply Z.lor_nonneg; split; [apply Hx|apply Hy].
  - intros i Hi. rewrite Z.lor_spec, !(fits_high w) by done. done.
Qed.

(** * Single bits *)

Lemma testbit_bit k i : 0 <= k -> Z.testbit (bit k) i = bool_decide (i = k).
Proof.
  intros Hk. unfold bit. destruct (Z.lt_ge_cases i 0).
  - rewrite Z.testbit_neg_r by done. by rewrite bool_decide_eq_false_2 by lia.
  - rewrite Z.shiftl_spec by done. case_bool_decide as E.
    + subst. by rewrite Z.sub_diag.
    + destruct (Z.lt_ge_cases i k).
      * by rewrite Z.testbit_neg_r by lia.
      * apply (fits_high 1); [lia|split; lia|lia].
Qed.

Lemma bit_nonneg k : 0 <= bit k.
Proof. unfold bit. by apply Z.shiftl_nonneg. Qed.

Lemma fits_bit w k : 0 <= k < w -> fits w (bit k).
Proof.
  intros Hk. apply fits_testbit; [lia|]. split; [apply bit_nonneg|].
  intros i Hi. rewrite testbit_bit by lia. by apply bool_decide_eq_false_2; lia.
Qed.

Lemma testbit_bnot w x i :
  0 <= i < w -> Z.testbit (bnot w x) i = negb (Z.testbit x i).
Proof.
  intros Hi. unfold bnot. rewrite Z.lxor_spec, Z.ones_spec_low by lia.
  by destruct (Z.testbit x i).
Qed.

Lemma bnot_nonneg w x : 0 <= w -> 0 <= x -> 0 <= bnot w x.
Proof.
  intros Hw Hx. unfold bnot. apply Z.lxor_nonneg. rewrite Z.ones_equiv.
  pose proof (pow2_pos w Hw). lia.
Qed.

Lemma fits_bnot w x : 0 <= w -> fits w x -> fits w (bnot w x).
Proof.
  intros Hw Hx. apply fits_testbit; [done|]. split; [apply bnot_nonneg; [done|apply Hx]|].
  intros i Hi. unfold bnot.
  by rewrite Z.lxor_spec, Z.ones_spec_high, (fits_high w x) by (done || lia).
Qed.

(** [x | 1 << k] and [x & !(1 << k)], read bit by bit. *)
Lemma testbit_set x k i :
  0 <= k -> Z.testbit (x .| bit k) i = Z.testbit x i || bool_decide (i = k).
Proof. intros. by rewrite Z.lor_spec, testbit_bit. Qed.

Lemma testbit_clear w x k i :
  0 <= k < w -> fits w x ->
  Z.testbit (x .& bnot w (bit k)) i = Z.testbit x i && negb (bool_decide (i = k)).
Proof.
  intros Hk Hx. rewrite Z.land_spec.
  destruct (Z.lt_ge_cases i 0); [by rewrite !(Z.testbit_neg_r _ i)|].
  destruct (Z.lt_ge_cases i w).
  - by rewrite testbit_bnot, testbit_bit by lia.
  - by rewrite (fits_high w x) by (done || lia).
Qed.

(** [x & (1 << k) != 0] *)
Lemma land_bit_eqb x k : 0 <= k -> negb ((x .& bit k) =? 0) = Z.testbit x k.
Proof.
  intros Hk. destruct (Z.testbit x k) eqn:E.
  - apply negb_true_iff, Z.eqb_neq. intros H.
    assert (Z.testbit (x .& bit k) k = false) as F by (rewrite H; apply Z.testbit_0_l).
    rewrite Z.land_spec, E, testbit_bit, bool_decide_eq_true_2 in F by done. done.
  - apply negb_false_iff, Z.eqb_eq, Z.bits_inj'; intros i Hi.
    rewrite Z.land_spec, testbit_bit, Z.testbit_0_l by done.
    case_bool_decide; [subst; by rewrite E|by rewrite andb_false_r].
Qed.

(** [(hi << w) | lo] for a [w]-bit [lo]. *)
Lemma lor_shiftl w lo hi : 0 <= w -> fits w lo -> (hi ≪ w) .| lo = hi * 2 ^ w + lo.
Proof.
  intros Hw Hlo. rewrite <- (Z.shiftl_mul_pow2 hi w), <- Z.add_lor_land by done.
  enough (Z.land (hi ≪ w) lo = 0) by lia.
  apply Z.bits_inj'; intros i Hi. rewrite Z.land_spec, Z.testbit_0_l.
  destruct (Z.lt_ge_cases i w).
  - by rewrite Z.shiftl_spec_low.
  - by rewrite (fits_high w lo), andb_false_r by done.
Qed.

(** * Lowest set bit *)

(** [x.trailing_zeros()] at width [w]: the index of the lowest set bit, or
    [w] when [x] is zero. *)
Fixpoint first_bit (n : nat) (i x : Z) : Z :=
  match n with
  | O => i
  | S n => if Z.testbit x i then i else first_bit n (i + 1) x
  end.
Definition trailing_zeros (w x : Z) : Z := first_bit (Z.to_nat w) 0 x.

Lemma first_bit_spec n i x :
  let r := first_bit n i x in
  i <= r <= i + Z.of_nat n /\
  (forall j, i <= j < r -> Z.testbit x j = false) /\
  (r < i + Z.of_nat n -> Z.testbit x r = true).
Proof.
  revert i; induction n as [|n IH]; intros i; simpl.
  - split_and!; lia.
  - destruct (Z.testbit x i) eqn:E.
    + split_and!; try lia. done.
    + destruct (IH (i + 1)) as (H1 & H2 & H3). split_and!; try lia.
      * intros j Hj. destruct (Z.eq_dec j i) as [->|]; [done|]. apply H2; lia.
      * intros Hr. apply H3; lia.
Qed.

(** * Hint databases of the development

    [bits] rewrites a test of a bit of a composed mask into a boolean
    expression over the tests of the parts; [fits] proves width facts. *)
Create Rewrite HintDb bits.
#[export] Hint Rewrite Z.land_spec Z.lor_spec : bits.

(** [x & !m] keeps the width of [x]. *)
Lemma fits_clear w x m : 0 <= w -> fits w x -> 0 <= m -> fits w (x .& bnot w m).
Proof. intros. apply fits_land; [done..|]. by apply bnot_nonneg. Qed.

Lemma fits_nonneg w x : fits w x -> 0 <= x.
Proof. by intros [? _]. Qed.

(** Prove that an integer built from masks fits its width; [fits_hook] is
    extended by the components with the projections of their invariants. *)
Ltac fits_hook := fail.
Ltac solve_fits :=
  repeat first
    [ assumption
    | fits_hook
    | apply bit_nonneg
    | apply fits_clear; [lia| |]
    | apply fits_lor; [lia| |]
    | apply fits_bit; lia
    | apply wrap_fits; lia
    | apply fits_bnot; [lia|]
    | apply fits_land; [lia| |]
    | eapply fits_nonneg; eassumption
    | (unfold fits; lia) ].

(** Unfold concrete powers of two so that [lia] sees numerals. *)
Ltac pow2 :=
  unfold fits, wrap, U64_MAX, U32_MAX, U16_MAX in *;
  change (2 ^ 8) with 256 in *; change (2 ^ 16) with 65536 in *;
  change (2 ^ 32) with 4294967296 in *;
  change (2 ^ 64) with 18446744073709551616 in *.

(** Split every boolean comparison of a hypothesis or the goal into its
    proposition. *)
Ltac bool_prop :=
  repeat match goal with
  | H : context [Z.eqb ?a ?b] |- _ => destruct (Z.eqb_spec a b)
  | H : context [Z.ltb ?a ?b] |- _ => destruct (Z.ltb_spec a b)
  | H : context [Z.leb ?a ?b] |- _ => destruct (Z.leb_spec a b)
  | |- context [Z.eqb ?a ?b] => destruct (Z.eqb_spec a b)
  | |- context [Z.ltb ?a ?b] => destruct (Z.ltb_spec a b)
  | |- context [Z.leb ?a ?b] => destruct (Z.leb_spec a b)
  end.

(** * Lists as arrays *)

(** Updating one element in range: [a[i].f = ..] reads the element once. *)
Lemma alter_total {A} `{!Inhabited A} (f : A -> A) (i : nat) (l : list A) :
  (i < length l)%nat -> alter f i l = <[i := f (l !!! i)]> l.
Proof.
  intros Hi. apply list_eq; intros j. destruct (decide (i = j)) as [<-|Hne].
  - rewrite list_lookup_alter_eq, list_lookup_insert_eq by done.
    by rewrite (list_lookup_lookup_total_lt _ _ Hi).
  - by rewrite list_lookup_alter_ne, list_lookup_insert_ne by done.
Qed.

(** * Reachability *)

(** An invariant of the steps of a system holds in every state it reaches. *)
Lemma rtc_invariant {A} (R : relation A) (I : A -> Prop) x y :
  rtc R x y -> I x -> (forall a b, R a b -> I a -> I b) -> I y.
Proof. induction 1; eauto. Qed.

(** * Little-endian bytes *)

(** [uN::from_le_bytes] and [x.to_le_bytes()] at [n] bytes.  The array of the
    source is one of [u8], so a byte is taken modulo 256. *)
Fixpoint from_le_bytes (l : list Z) : Z :=
  match l with
  | [] => 0
  | b :: l => u8 b + 256 * from_le_bytes l
  end.

Fixpoint to_le_bytes (n : nat) (x : Z) : list Z :=
  match n with
  | O => []
  | S n => u8 x :: to_le_bytes n (x / 256)
  end.

Lemma length_to_le_bytes n x : length (to_le_bytes n x) = n.
Proof. revert x; induction n as [|n IH]; intros x; [done|]. cbn [to_le_bytes length]. by rewrite IH. Qed.

Lemma from_le_bytes_range l : 0 <= from_le_bytes l < 256 ^ Z.of_nat (length l).
Proof.
  induction l as [|b l IH]; [done|]. cbn [from_le_bytes length].
  rewrite Nat2Z.inj_succ, Z.pow_succ_r by lia.
  pose proof (wrap_fits 8 b ltac:(lia)) as Hb. pow2. lia.
Qed.

Lemma from_to_le_bytes n x : 0 <= x < 256 ^ Z.of_nat n -> from_le_bytes (to_le_bytes n x) = x.
Proof.
  revert x; induction n as [|n IH]; intros x Hx; [cbn in *; lia|].
  cbn [from_le_bytes to_le_bytes]. rewrite Nat2Z.inj_succ, Z.pow_succ_r in Hx by lia.
  pose proof (Z.div_mod x 256 ltac:(lia)). pose proof (Z.mod_pos_bound x 256 ltac:(lia)).
  rewrite IH; [|split; [apply Z.div_pos; lia|apply Z.div_lt_upper_bound; lia]].
  pow2. rewrite Z.mod_mod by lia. lia.
Qed.
