(* ===== verification/VPic.v ===== *)
(** The virtual cascaded 8259 interrupt controller
    (kernel/src/kernel/dos/machine/vpic.rs).

    [Pic8259] is one chip, [VirtualPic] the master/slave pair; their
    operations have the names of the Rust methods.  The theorems relate the
    register-level [peek] to the priority order the module documents, and
    show by induction over the guest's interleavings of requests, masks,
    deliveries and end-of-interrupt commands that the in-service registers
    always encode the stack of interrupt handlers being run. *)

From Stdlib Require Import ZArith Lia Bool Sorted.
From stdpp Require Import base option list numbers relations.
From S2P Require Import Prelude.

(** [lowest_set]: index of the lowest set bit of a byte. *)
Definition lowest_set (bits : Z) : option Z :=
  if negb (bits =? 0) then Some (trailing_zeros 8 bits) else None.

Module Pic8259.

Record Pic8259 := mk { irr : Z; isr : Z; imr : Z; vector_base : Z }.

Definition new (vector_base : Z) : Pic8259 := mk 0 0 0 vector_base.

Definition set_irr (p : Pic8259) (v : Z) := mk v (isr p) (imr p) (vector_base p).
Definition set_isr (p : Pic8259) (v : Z) := mk (irr p) v (imr p) (vector_base p).
Definition set_imr (p : Pic8259) (v : Z) := mk (irr p) (isr p) v (vector_base p).

Definition peek (p : Pic8259) : option Z :=
  match lowest_set (irr p .& bnot 8 (imr p)) with
  | None => None
  | Some win =>
      match lowest_set (isr p) with
      | Some svc => if svc <=? win then None else Some win
      | None => Some win
      end
  end.

(** The new chip and the line retired by an end of interrupt. *)
Definition write_ocw2 (p : Pic8259) (val : Z) : Pic8259 * option Z :=
  let cmd := val .& 0xE0 in
  if (cmd =? 0x20) || (cmd =? 0xA0) then
    match lowest_set (isr p) with
    | None => (p, None)
    | Some line => (set_isr p (isr p .& bnot 8 (bit line)), Some line)
    end
  else if (cmd =? 0x60) || (cmd =? 0xE0) then
    let line := val .& 0x07 in
    let was_in_service := negb ((isr p .& bit line) =? 0) in
    (set_isr p (isr p .& bnot 8 (bit line)),
     if was_in_service then Some line else None)
  else (p, None).

(** The registers are bytes. *)
Definition wf (p : Pic8259) : Prop :=
  fits 8 (irr p) /\ fits 8 (isr p) /\ fits 8 (imr p).

End Pic8259.

Definition CASCADE_LINE : Z := 2.

Module VirtualPic.

Record VirtualPic := mk { master : Pic8259.Pic8259; slave : Pic8259.Pic8259 }.

Definition new : VirtualPic := mk (Pic8259.new 0x08) (Pic8259.new 0x70).

Definition set_master (p : VirtualPic) m := mk m (slave p).
Definition set_slave (p : VirtualPic) s := mk (master p) s.

Definition raise (p : VirtualPic) (irq : Z) : VirtualPic :=
  if irq <? 8 then
    set_master p (Pic8259.set_irr (master p) (Pic8259.irr (master p) .| bit irq))
  else if irq <? 16 then
    set_slave p (Pic8259.set_irr (slave p) (Pic8259.irr (slave p) .| bit (irq - 8)))
  else p.

Definition clear_request (p : VirtualPic) (irq : Z) : VirtualPic :=
  if irq <? 8 then
    set_master p (Pic8259.set_irr (master p) (Pic8259.irr (master p) .& bnot 8 (bit irq)))
  else if irq <? 16 then
    set_slave p (Pic8259.set_irr (slave p) (Pic8259.irr (slave p) .& bnot 8 (bit (irq - 8))))
  else p.

Definition is_requested (p : VirtualPic) (irq : Z) : bool :=
  if irq <? 8 then negb ((Pic8259.irr (master p) .& bit irq) =? 0)
  else if irq <? 16 then negb ((Pic8259.irr (slave p) .& bit (irq - 8)) =? 0)
  else false.

Definition in_service (p : VirtualPic) (irq : Z) : bool :=
  if irq <? 8 then negb ((Pic8259.isr (master p) .& bit irq) =? 0)
  else if irq <? 16 then negb ((Pic8259.isr (slave p) .& bit (irq - 8)) =? 0)
  else false.

Definition peek (p : VirtualPic) : option Z :=
  let cascade := match Pic8259.peek (slave p) with Some _ => bit CASCADE_LINE | None => 0 end in
  let candidates := (Pic8259.irr (master p) .| cascade) .& bnot 8 (Pic8259.imr (master p)) in
  match lowest_set candidates with
  | None => None
  | Some win =>
      let blocked :=
        match lowest_set (Pic8259.isr (master p)) with
        | Some svc => svc <=? win
        | None => false
        end in
      if blocked then None
      else if win =? CASCADE_LINE then
        match Pic8259.peek (slave p) with Some s => Some (8 + s) | None => None end
      else Some win
  end.

Definition has_deliverable (p : VirtualPic) : bool :=
  match peek p with Some _ => true | None => false end.

Definition ack (p : VirtualPic) (irq : Z) : VirtualPic :=
  if irq <? 8 then
    let m := Pic8259.set_irr (master p) (Pic8259.irr (master p) .& bnot 8 (bit irq)) in
    set_master p (Pic8259.set_isr m (Pic8259.isr m .| bit irq))
  else if irq <? 16 then
    let s := Pic8259.set_irr (slave p) (Pic8259.irr (slave p) .& bnot 8 (bit (irq - 8))) in
    let s := Pic8259.set_isr s (Pic8259.isr s .| bit (irq - 8)) in
    mk (Pic8259.set_isr (master p) (Pic8259.isr (master p) .| bit CASCADE_LINE)) s
  else p.

Definition master_ocw2 (p : VirtualPic) (val : Z) : VirtualPic * option Z :=
  let '(m, r) := Pic8259.write_ocw2 (master p) val in (set_master p m, r).

Definition slave_ocw2 (p : VirtualPic) (val : Z) : VirtualPic * option Z :=
  let '(s, r) := Pic8259.write_ocw2 (slave p) val in
  (set_slave p s, match r with Some line => Some (8 + line) | None => None end).

Definition set_master_imr (p : VirtualPic) (v : Z) : VirtualPic :=
  set_master p (Pic8259.set_imr (master p) v).
Definition set_slave_imr (p : VirtualPic) (v : Z) : VirtualPic :=
  set_slave p (Pic8259.set_imr (slave p) v).

Definition master_isr (p : VirtualPic) : Z := Pic8259.isr (master p).
Definition master_imr (p : VirtualPic) : Z := Pic8259.imr (master p).
Definition slave_isr (p : VirtualPic) : Z := Pic8259.isr (slave p).
Definition slave_imr (p : VirtualPic) : Z := Pic8259.imr (slave p).

Definition debug_state (p : VirtualPic) : Z * Z * Z * Z * Z * Z :=
  (Pic8259.irr (master p), Pic8259.isr (master p), Pic8259.imr (master p),
   Pic8259.irr (slave p), Pic8259.isr (slave p), Pic8259.imr (slave p)).

(** ** Specification

    The cascade as the module documents it: the lines in priority order are
    IRQ0, IRQ1, IRQ8..IRQ15, IRQ3..IRQ7, which [rank] numbers from 0. *)
Definition rank (irq : Z) : Z :=
  if irq <? 2 then irq else if 8 <=? irq then irq - 6 else irq + 7.

(** A line of a device: IR2 of the master is the cascade input. *)
Definition device_line (irq : Z) : Prop := 0 <= irq < 16 /\ irq <> CASCADE_LINE.

(** The master input a line arrives on. *)
Definition master_line (irq : Z) : Z := if irq <? 8 then irq else CASCADE_LINE.

(** A line may be delivered: requested, unmasked on its own chip and, for a
    slave line, at the cascade input, and of strictly higher priority than
    whatever its chips have in service. *)
Definition deliverable (p : VirtualPic) (irq : Z) : Prop :=
  device_line irq /\
  is_requested p irq = true /\
  Z.testbit (Pic8259.imr (master p)) (master_line irq) = false /\
  (8 <= irq -> Z.testbit (Pic8259.imr (slave p)) (irq - 8) = false) /\
  (forall j, Z.testbit (Pic8259.isr (master p)) j = true -> master_line irq < j) /\
  (8 <= irq -> forall j, Z.testbit (Pic8259.isr (slave p)) j = true -> irq - 8 < j).

(** The registers are bytes and no device requests the cascade input. *)
Definition wf (p : VirtualPic) : Prop :=
  Pic8259.wf (master p) /\ Pic8259.wf (slave p) /\
  Z.testbit (Pic8259.irr (master p)) CASCADE_LINE = false.

(** ** The guest's interrupt handlers

    [pic_step] is one step of the world around the controller, with the
    stack of handlers being run as a ghost list (innermost first): devices
    raise and drop requests, the guest writes the masks, the kernel delivers
    what [peek] selects, and the innermost handler ends with the
    non-specific end of interrupt its line needs (the slave first, then the
    master, for a slave line). *)
Definition EOI : Z := 0x20.

Definition end_handler (p : VirtualPic) (irq : Z) : VirtualPic * option Z :=
  if irq <? 8 then master_ocw2 p EOI
  else let '(p1, r) := slave_ocw2 p EOI in (fst (master_ocw2 p1 EOI), r).

Inductive pic_step : VirtualPic * list Z -> VirtualPic * list Z -> Prop :=
| step_raise p st irq : device_line irq -> pic_step (p, st) (raise p irq, st)
| step_clear p st irq : device_line irq -> pic_step (p, st) (clear_request p irq, st)
| step_master_imr p st v : fits 8 v -> pic_step (p, st) (set_master_imr p v, st)
| step_slave_imr p st v : fits 8 v -> pic_step (p, st) (set_slave_imr p v, st)
| step_deliver p st irq : peek p = Some irq -> pic_step (p, st) (ack p irq, irq :: st)
| step_eoi p st irq : pic_step (p, irq :: st) (fst (end_handler p irq), st).

Definition reachable (p : VirtualPic) (st : list Z) : Prop :=
  rtc pic_step (new, []) (p, st).

(** The in-service registers encode exactly the handler stack, whose lines
    are strictly ordered on the master. *)
Definition nested (p : VirtualPic) (st : list Z) : Prop :=
  Forall device_line st /\
  StronglySorted Z.lt (map master_line st) /\
  (forall j, Z.testbit (Pic8259.isr (master p)) j = true <-> j ∈ map master_line st) /\
  (forall j, Z.testbit (Pic8259.isr (slave p)) j = true <-> 8 <= 8 + j /\ 8 + j ∈ st).

End VirtualPic.

(** * Lemmas on one chip *)

Lemma lowest_set_None b : fits 8 b -> lowest_set b = None <-> b = 0.
Proof. intros Hb. unfold lowest_set. destruct (Z.eqb_spec b 0); naive_solver. Qed.

Lemma lowest_set_Some b i :
  fits 8 b ->
  lowest_set b = Some i <->
  Z.testbit b i = true /\ forall j, j < i -> Z.testbit b j = false.
Proof.
  intros Hb. unfold lowest_set, trailing_zeros.
  pose proof (first_bit_spec (Z.to_nat 8) 0 b) as (H1 & H2 & H3).
  set (r := first_bit (Z.to_nat 8) 0 b) in *. change (0 + Z.of_nat (Z.to_nat 8)) with 8 in *.
  assert (Hlow : forall j, j < r -> Z.testbit b j = false).
  { intros j Hj. destruct (Z.lt_ge_cases j 0); [by apply Z.testbit_neg_r|]. apply H2; lia. }
  destruct (Z.eqb_spec b 0) as [->|Hne]; simpl.
  { setoid_rewrite Z.testbit_0_l. naive_solver. }
  assert (Hr : Z.testbit b r = true).
  { apply H3. destruct (Z.lt_ge_cases r 8); [done|]. exfalso. apply Hne.
    apply (fits_bits_eq 8); [lia|done|split; lia|].
    intros i' Hi'. rewrite Hlow by lia. by rewrite Z.testbit_0_l. }
  split; [naive_solver|]. intros [Hi Hlt]. f_equal.
  destruct (Z.lt_trichotomy i r) as [Hc|[Hc|Hc]]; [|done|].
  - rewrite Hlow in Hi by done. done.
  - rewrite Hlt in Hr by done. done.
Qed.

(** Case analysis on the lowest set bit of a byte. *)
Lemma lowest_set_cases b :
  fits 8 b ->
  (lowest_set b = None /\ forall j, Z.testbit b j = false) \/
  (exists i, lowest_set b = Some i /\ 0 <= i < 8 /\ Z.testbit b i = true /\
             forall j, j < i -> Z.testbit b j = false).
Proof.
  intros Hb. destruct (lowest_set b) as [i|] eqn:E.
  - right. exists i. pose proof E as [Hi Hl]%lowest_set_Some; [|done].
    split_and!; try done.
    + destruct (Z.lt_ge_cases i 0); [|done]. by rewrite Z.testbit_neg_r in Hi.
    + destruct (Z.lt_ge_cases i 8); [done|]. by rewrite (fits_high 8 b) in Hi by (done || lia).
  - left. split; [done|]. apply lowest_set_None in E as ->; [|done].
    intros j. apply Z.testbit_0_l.
Qed.

Lemma testbit_unmasked irr imr i :
  fits 8 irr ->
  Z.testbit (irr .& bnot 8 imr) i = Z.testbit irr i && negb (Z.testbit imr i).
Proof.
  intros Hi. rewrite Z.land_spec.
  destruct (Z.lt_ge_cases i 0); [by rewrite !(Z.testbit_neg_r _ i)|].
  destruct (Z.lt_ge_cases i 8); [by rewrite testbit_bnot by lia|].
  by rewrite (fits_high 8 irr) by (done || lia).
Qed.

Lemma fits_unmasked irr imr : fits 8 irr -> fits 8 imr -> fits 8 (irr .& bnot 8 imr).
Proof. intros. apply fits_land; [lia|done|]. apply bnot_nonneg; [lia|]. apply H0. Qed.

(** One chip selects its highest-priority requested, unmasked line, unless
    something of equal or higher priority is in service. *)
Lemma Pic8259_peek_spec p :
  Pic8259.wf p ->
  (forall i, Pic8259.peek p = Some i <->
     Z.testbit (Pic8259.irr p) i = true /\ Z.testbit (Pic8259.imr p) i = false /\
     (forall j, Z.testbit (Pic8259.isr p) j = true -> i < j) /\
     (forall j, j < i -> Z.testbit (Pic8259.irr p) j && negb (Z.testbit (Pic8259.imr p) j) = false)).
Proof.
  intros (Hr & Hs & Hm) i. unfold Pic8259.peek.
  destruct (lowest_set_cases (Pic8259.irr p .& bnot 8 (Pic8259.imr p)))
    as [[-> Hnone]|(w & -> & Hw & Hbit & Hlow)]; [by apply fits_unmasked| |].
  - split; [done|]. intros (H1 & H2 & _). specialize (Hnone i).
    rewrite testbit_unmasked, H1, H2 in Hnone by done. done.
  - rewrite testbit_unmasked in Hbit by done. apply andb_true_iff in Hbit as [Hb1 Hb2].
    apply negb_true_iff in Hb2.
    assert (Huniq : Z.testbit (Pic8259.irr p) i = true -> Z.testbit (Pic8259.imr p) i = false ->
      (forall j, j < i -> Z.testbit (Pic8259.irr p) j && negb (Z.testbit (Pic8259.imr p) j) = false) ->
      i = w).
    { intros H1 H2 H3. destruct (Z.lt_trichotomy i w) as [Hc|[|Hc]]; [|done|].
      - specialize (Hlow i Hc). rewrite testbit_unmasked, H1, H2 in Hlow by done. done.
      - specialize (H3 w Hc). by rewrite Hb1, Hb2 in H3. }
    assert (Hlow' : forall j, j < w -> Z.testbit (Pic8259.irr p) j && negb (Z.testbit (Pic8259.imr p) j) = false).
    { intros j Hj. rewrite <- testbit_unmasked by done. by apply Hlow. }
    destruct (lowest_set_cases (Pic8259.isr p)) as [[-> Hsn]|(s & -> & Hsr & Hsb & Hsl)]; [done| |].
    + split.
      * intros [= <-]. split_and!; try done. intros j. rewrite Hsn. done.
      * intros (H1 & H2 & _ & H4). f_equal. symmetry. by apply Huniq.
    + destruct (Z.leb_spec s w).
      * split; [done|]. intros (H1 & H2 & H3 & H4). specialize (Huniq H1 H2 H4).
        specialize (H3 s Hsb). lia.
      * split.
        -- intros [= <-]. split_and!; try done. intros j Hj.
           destruct (Z.lt_ge_cases j s) as [Hc|]; [by rewrite Hsl in Hj|lia].
        -- intros (H1 & H2 & _ & H4). f_equal. symmetry. by apply Huniq.
Qed.

(** * Lemmas on the cascade *)

Lemma is_requested_master p i :
  0 <= i < 8 -> VirtualPic.is_requested p i = Z.testbit (Pic8259.irr (VirtualPic.master p)) i.
Proof.
  intros Hi. unfold VirtualPic.is_requested. destruct (Z.ltb_spec i 8); [|lia].
  apply land_bit_eqb; lia.
Qed.

Lemma is_requested_slave p i :
  8 <= i < 16 -> VirtualPic.is_requested p i = Z.testbit (Pic8259.irr (VirtualPic.slave p)) (i - 8).
Proof.
  intros Hi. unfold VirtualPic.is_requested.
  destruct (Z.ltb_spec i 8); [lia|]. destruct (Z.ltb_spec i 16); [|lia].
  apply land_bit_eqb; lia.
Qed.

Lemma in_service_master p i :
  0 <= i < 8 -> VirtualPic.in_service p i = Z.testbit (Pic8259.isr (VirtualPic.master p)) i.
Proof.
  intros Hi. unfold VirtualPic.in_service. destruct (Z.ltb_spec i 8); [|lia].
  apply land_bit_eqb; lia.
Qed.

Lemma in_service_slave p i :
  8 <= i < 16 -> VirtualPic.in_service p i = Z.testbit (Pic8259.isr (VirtualPic.slave p)) (i - 8).
Proof.
  intros Hi. unfold VirtualPic.in_service.
  destruct (Z.ltb_spec i 8); [lia|]. destruct (Z.ltb_spec i 16); [|lia].
  apply land_bit_eqb; lia.
Qed.

(** A deliverable slave line exists exactly when the slave's own resolver
    drives its INT output and the master lets the cascade input through. *)
Lemma deliverable_master p i :
  VirtualPic.wf p -> 0 <= i < 8 ->
  VirtualPic.deliverable p i <->
  i <> CASCADE_LINE /\ Z.testbit (Pic8259.irr (VirtualPic.master p)) i = true /\
  Z.testbit (Pic8259.imr (VirtualPic.master p)) i = false /\
  (forall j, Z.testbit (Pic8259.isr (VirtualPic.master p)) j = true -> i < j).
Proof.
  intros Hwf Hi. unfold VirtualPic.deliverable, VirtualPic.device_line, VirtualPic.master_line.
  rewrite is_requested_master by done. destruct (Z.ltb_spec i 8); [|lia].
  split; [naive_solver|]. intros (?&?&?&?). split_and!; try done; lia.
Qed.

Lemma deliverable_slave p s :
  VirtualPic.wf p -> 0 <= s < 8 ->
  VirtualPic.deliverable p (8 + s) <->
  Z.testbit (Pic8259.irr (VirtualPic.slave p)) s = true /\
  Z.testbit (Pic8259.imr (VirtualPic.slave p)) s = false /\
  (forall j, Z.testbit (Pic8259.isr (VirtualPic.slave p)) j = true -> s < j) /\
  Z.testbit (Pic8259.imr (VirtualPic.master p)) CASCADE_LINE = false /\
  (forall j, Z.testbit (Pic8259.isr (VirtualPic.master p)) j = true -> CASCADE_LINE < j).
Proof.
  intros Hwf Hs. unfold VirtualPic.deliverable, VirtualPic.device_line, VirtualPic.master_line.
  rewrite is_requested_slave by lia. destruct (Z.ltb_spec (8 + s) 8); [lia|].
  replace (8 + s - 8) with s by lia. unfold CASCADE_LINE in *.
  split.
  - intros (H1&H2&H3&H4&H5&H6). split_and!; auto with lia.
  - intros (H1&H2&H3&H4&H5). split_and!; auto with lia.
Qed.

Lemma Pic8259_peek_range p i : Pic8259.wf p -> Pic8259.peek p = Some i -> 0 <= i < 8.
Proof.
  intros Hp. rewrite Pic8259_peek_spec by done. intros (H & _).
  destruct Hp as [Hr _].
  destruct (Z.lt_ge_cases i 0); [by rewrite Z.testbit_neg_r in H|].
  destruct (Z.lt_ge_cases i 8); [done|].
  by rewrite (fits_high 8) in H by (done || lia).
Qed.

(** A slave line that passes the slave's gate makes the slave drive INT. *)
Lemma slave_peek_exists p s :
  Pic8259.wf p ->
  Z.testbit (Pic8259.irr p) s = true -> Z.testbit (Pic8259.imr p) s = false ->
  (forall j, Z.testbit (Pic8259.isr p) j = true -> s < j) ->
  exists s', Pic8259.peek p = Some s' /\ s' <= s.
Proof.
  intros Hp H1 H2 H3. pose proof Hp as (Hr & Hs & Hm).
  destruct (lowest_set_cases (Pic8259.irr p .& bnot 8 (Pic8259.imr p)))
    as [[_ Hn]|(w & _ & Hw & Hb & Hl)]; [by apply fits_unmasked| |].
  - specialize (Hn s). rewrite testbit_unmasked, H1, H2 in Hn by done. done.
  - assert (w <= s) as Hws.
    { destruct (Z.le_gt_cases w s) as [|Hc]; [done|]. specialize (Hl s Hc).
      rewrite testbit_unmasked, H1, H2 in Hl by done. done. }
    exists w. split; [|done]. apply Pic8259_peek_spec; [done|].
    rewrite testbit_unmasked in Hb by done. apply andb_true_iff in Hb as [Hb1 Hb2].
    split_and!; [done|by apply negb_true_iff| |].
    + intros j Hj. specialize (H3 j Hj). lia.
    + intros j Hj. rewrite <- testbit_unmasked by done. by apply Hl.
Qed.

(** The master's candidate inputs: its own unmasked requests and the
    cascade input while the slave drives INT. *)
Lemma testbit_candidates p j :
  VirtualPic.wf p ->
  Z.testbit ((Pic8259.irr (VirtualPic.master p) .|
      match Pic8259.peek (VirtualPic.slave p) with Some _ => bit CASCADE_LINE | None => 0 end)
     .& bnot 8 (Pic8259.imr (VirtualPic.master p))) j =
  (Z.testbit (Pic8259.irr (VirtualPic.master p)) j
   || bool_decide (is_Some (Pic8259.peek (VirtualPic.slave p)) /\ j = CASCADE_LINE))
  && negb (Z.testbit (Pic8259.imr (VirtualPic.master p)) j).
Proof.
  intros ((Hr & _ & Hm) & _ & _).
  rewrite testbit_unmasked.
  - rewrite Z.lor_spec. f_equal. f_equal. destruct (Pic8259.peek _).
    + rewrite testbit_bit by (unfold CASCADE_LINE; lia).
      apply bool_decide_ext. split; [eauto|naive_solver].
    + rewrite Z.testbit_0_l. symmetry. apply bool_decide_eq_false_2. intros [[? [=]] _].
  - apply fits_lor; [lia|done|]. destruct (Pic8259.peek _); [|split; lia].
    apply fits_bit. unfold CASCADE_LINE; lia.
Qed.

Lemma fits_candidates p :
  VirtualPic.wf p ->
  fits 8 ((Pic8259.irr (VirtualPic.master p) .|
      match Pic8259.peek (VirtualPic.slave p) with Some _ => bit CASCADE_LINE | None => 0 end)
     .& bnot 8 (Pic8259.imr (VirtualPic.master p))).
Proof.
  intros ((Hr & _ & Hm) & _ & _). apply fits_unmasked; [|done].
  apply fits_lor; [lia|done|]. destruct (Pic8259.peek _); [|split; lia].
  apply fits_bit. unfold CASCADE_LINE; lia.
Qed.

(** The master's view of a deliverable line: it is a candidate input below
    everything in service. *)
Definition master_ready (p : VirtualPic.VirtualPic) (w : Z) : Prop :=
  Z.testbit ((Pic8259.irr (VirtualPic.master p) .|
      match Pic8259.peek (VirtualPic.slave p) with Some _ => bit CASCADE_LINE | None => 0 end)
     .& bnot 8 (Pic8259.imr (VirtualPic.master p))) w = true /\
  (forall j, Z.testbit (Pic8259.isr (VirtualPic.master p)) j = true -> w < j).

Lemma deliverable_ready p i :
  VirtualPic.wf p -> VirtualPic.deliverable p i -> master_ready p (VirtualPic.master_line i).
Proof.
  intros Hwf Hd. pose proof Hd as [[Hi Hne] _]. unfold VirtualPic.master_line, master_ready.
  rewrite testbit_candidates by done.
  destruct (Z.ltb_spec i 8).
  - apply deliverable_master in Hd as (_ & -> & -> & Hs); [|done|lia]. done.
  - replace i with (8 + (i - 8)) in Hd by lia.
    apply deliverable_slave in Hd as (H1 & H2 & H3 & -> & H5); [|done|lia].
    destruct (slave_peek_exists (VirtualPic.slave p) (i - 8)) as (s' & -> & _); try done.
    { apply Hwf. }
    split; [|done]. rewrite bool_decide_eq_true_2 by eauto. by rewrite orb_true_r.
Qed.

(** [peek], by the master input it resolves to. *)
Lemma vpic_peek_cases p :
  VirtualPic.wf p ->
  (VirtualPic.peek p = None /\ forall w, ~ master_ready p w) \/
  (exists w, master_ready p w /\ (forall w', master_ready p w' -> w <= w') /\ 0 <= w < 8 /\
     VirtualPic.peek p =
       if w =? CASCADE_LINE
       then match Pic8259.peek (VirtualPic.slave p) with Some s => Some (8 + s) | None => None end
       else Some w).
Proof.
  intros Hwf. unfold VirtualPic.peek, master_ready. cbv zeta.
  destruct (lowest_set_cases _ (fits_candidates p Hwf)) as [[-> Hn]|(w & -> & Hw & Hb & Hl)].
  - left. split; [done|]. intros w [H _]. by rewrite Hn in H.
  - pose proof Hwf as ((_ & Hs & _) & _).
    destruct (lowest_set_cases _ Hs) as [[-> Hsn]|(s & -> & Hsr & Hsb & Hsl)].
    + right. exists w. split_and!; try done; try lia.
      * intros j Hj. by rewrite Hsn in Hj.
      * intros w' [H _]. destruct (Z.le_gt_cases w w') as [|Hc]; [done|]. by rewrite Hl in H.
    + destruct (Z.leb_spec s w).
      * left. split; [done|]. intros w' [H1 H2]. specialize (H2 s Hsb).
        rewrite Hl in H1 by lia. done.
      * right. exists w. split_and!; try done; try lia.
        -- intros j Hj. destruct (Z.lt_ge_cases j s) as [Hc|]; [by rewrite Hsl in Hj|lia].
        -- intros w' [H1 _]. destruct (Z.le_gt_cases w w') as [|Hc]; [done|]. by rewrite Hl in H1.
Qed.

Lemma rank_master_line i j :
  VirtualPic.device_line i -> VirtualPic.device_line j ->
  VirtualPic.master_line i < VirtualPic.master_line j -> VirtualPic.rank i < VirtualPic.rank j.
Proof.
  unfold VirtualPic.device_line, VirtualPic.master_line, VirtualPic.rank, CASCADE_LINE.
  intros ? ?. bool_prop; lia.
Qed.

Lemma rank_inj_slave i j :
  VirtualPic.device_line i -> VirtualPic.device_line j ->
  VirtualPic.master_line i = VirtualPic.master_line j ->
  i = j \/ (8 <= i /\ 8 <= j).
Proof.
  unfold VirtualPic.device_line, VirtualPic.master_line, CASCADE_LINE.
  intros ? ?. bool_prop; lia.
Qed.

Lemma rank_slave i j : 8 <= i <= j -> VirtualPic.rank i <= VirtualPic.rank j.
Proof. unfold VirtualPic.rank. bool_prop; lia. Qed.

(** What [peek] selects is deliverable. *)
Lemma vpic_peek_deliverable p i :
  VirtualPic.wf p -> VirtualPic.peek p = Some i -> VirtualPic.deliverable p i.
Proof.
  intros Hwf Hp. destruct (vpic_peek_cases p Hwf) as [[E _]|(w & [Hb Hs] & _ & Hw & E)]; [congruence|].
  rewrite E in Hp. rewrite testbit_candidates in Hb by done.
  apply andb_true_iff in Hb as [Hb Hm]. apply negb_true_iff in Hm.
  destruct (Z.eqb_spec w CASCADE_LINE) as [Hc|Hne].
  - subst w. destruct (Pic8259.peek (VirtualPic.slave p)) as [s|] eqn:Es; [|done]. injection Hp as <-.
    assert (Pic8259.wf (VirtualPic.slave p)) as Hwfs by apply Hwf.
    pose proof (Pic8259_peek_range _ _ Hwfs Es) as Hsr.
    apply Pic8259_peek_spec in Es as (H1 & H2 & H3 & _); [|done].
    by apply deliverable_slave.
  - injection Hp as <-. apply deliverable_master; [done|done|].
    split_and!; try done. apply orb_true_iff in Hb as [Hb|Hb]; [done|].
    by apply bool_decide_eq_true in Hb as [_ ?].
Qed.

(** What [peek] selects. *)
Lemma vpic_peek_spec p :
  VirtualPic.wf p ->
  match VirtualPic.peek p with
  | Some i => VirtualPic.deliverable p i /\
      forall j, VirtualPic.deliverable p j -> VirtualPic.rank i <= VirtualPic.rank j
  | None => forall j, ~ VirtualPic.deliverable p j
  end.
Proof.
  intros Hwf. destruct (VirtualPic.peek p) as [i|] eqn:Hp.
  - pose proof (vpic_peek_deliverable p i Hwf Hp) as Hd. split; [done|]. intros j Hj.
    destruct (vpic_peek_cases p Hwf) as [[E _]|(w & Hr & Hmin & Hw & E)]; [congruence|].
    pose proof (deliverable_ready p j Hwf Hj) as Hrj. specialize (Hmin _ Hrj).
    assert (Hwi : VirtualPic.master_line i = w).
    { rewrite Hp in E. unfold VirtualPic.master_line.
      destruct (Z.eqb_spec w CASCADE_LINE) as [Hc|].
      - subst w. destruct (Pic8259.peek (VirtualPic.slave p)) as [s|] eqn:Es; [|done]. injection E as ->.
        apply Pic8259_peek_range in Es; [|apply Hwf]. destruct (Z.ltb_spec (8 + s) 8); [lia|done].
      - injection E as ->. destruct (Z.ltb_spec w 8); [done|lia]. }
    destruct (Z.eq_dec (VirtualPic.master_line i) (VirtualPic.master_line j)) as [He|Hne].
    + destruct (rank_inj_slave i j) as [->|[H8 H8']]; [apply Hd|apply Hj|done|lia|].
      apply rank_slave. split; [done|].
      rewrite Hp in E. unfold VirtualPic.master_line in Hwi.
      destruct (Z.ltb_spec i 8); [lia|]. subst w. rewrite Z.eqb_refl in E.
      destruct (Pic8259.peek (VirtualPic.slave p)) as [s|] eqn:Es; [|done]. injection E as ->.
      replace j with (8 + (j - 8)) in Hj by lia.
      pose proof Hj as [[? _] _].
      apply deliverable_slave in Hj as (H1 & H2 & H3 & _); [|done|lia].
      destruct (slave_peek_exists (VirtualPic.slave p) (j - 8)) as (s' & Es' & ?); try done; [apply Hwf|].
      rewrite Es in Es'. injection Es' as <-. lia.
    + apply Z.lt_le_incl, rank_master_line; [apply Hd|apply Hj|lia].
  - intros j Hj. pose proof (deliverable_ready p j Hwf Hj) as Hrj.
    destruct (vpic_peek_cases p Hwf) as [[_ Hn]|(w & [Hb _] & Hmin & Hw & E)]; [by eapply Hn|].
    rewrite Hp in E. destruct (Z.eqb_spec w CASCADE_LINE) as [Hc|]; [|done].
    subst w. rewrite testbit_candidates in Hb by done.
    destruct (Pic8259.peek (VirtualPic.slave p)) eqn:Es; [done|].
    destruct Hwf as (_ & _ & H2). rewrite H2 in Hb.
    rewrite bool_decide_eq_false_2 in Hb; [done|]. intros [[? [=]] _].
Qed.

(** [VirtualPic::peek] returns the deliverable line of highest priority
    in the documented order IRQ0 > IRQ1 > IRQ8..IRQ15 > IRQ3 > .. > IRQ7, and
    returns nothing only when no line is deliverable: masks on both chips,
    the cascade mask, in-service blocking on each chip and the
    non-special-fully-nested rule included. *)
Theorem peek_highest_priority p :
  VirtualPic.wf p ->
  match VirtualPic.peek p with
  | Some i => VirtualPic.deliverable p i /\
      forall j, VirtualPic.deliverable p j -> VirtualPic.rank i <= VirtualPic.rank j
  | None => forall j, ~ VirtualPic.deliverable p j
  end.
Proof. apply vpic_peek_spec. Qed.

Lemma vpic_new_wf : VirtualPic.wf VirtualPic.new.
Proof. split_and!; try (split; simpl; lia); done. Qed.

(** ** Well-formedness is kept by every operation *)

Lemma Pic8259_wf_set_irr p v : Pic8259.wf p -> fits 8 v -> Pic8259.wf (Pic8259.set_irr p v).
Proof. intros (?&?&?) ?. by split_and!. Qed.
Lemma Pic8259_wf_set_isr p v : Pic8259.wf p -> fits 8 v -> Pic8259.wf (Pic8259.set_isr p v).
Proof. intros (?&?&?) ?. by split_and!. Qed.
Lemma Pic8259_wf_set_imr p v : Pic8259.wf p -> fits 8 v -> Pic8259.wf (Pic8259.set_imr p v).
Proof. intros (?&?&?) ?. by split_and!. Qed.
#[local] Ltac fits_hook ::=
  match goal with
  | |- fits 8 (bit CASCADE_LINE) => apply fits_bit; done
  | |- Pic8259.wf (Pic8259.set_irr _ _) => apply Pic8259_wf_set_irr
  | |- Pic8259.wf (Pic8259.set_isr _ _) => apply Pic8259_wf_set_isr
  | |- Pic8259.wf (Pic8259.set_imr _ _) => apply Pic8259_wf_set_imr
  end.

Lemma Pic8259_wf_ocw2 p v : Pic8259.wf p -> Pic8259.wf (fst (Pic8259.write_ocw2 p v)).
Proof.
  intros Hp. pose proof Hp as (?&?&?). unfold Pic8259.write_ocw2.
  destruct (_ || _); [destruct (lowest_set _); simpl; solve_fits|].
  destruct (_ || _); simpl; solve_fits.
Qed.

Lemma Pic8259_ocw2_irr p v : Pic8259.irr (fst (Pic8259.write_ocw2 p v)) = Pic8259.irr p.
Proof.
  unfold Pic8259.write_ocw2. destruct (_ || _); [by destruct (lowest_set _)|].
  by destruct (_ || _).
Qed.

Lemma vpic_wf_master_ocw2 p v : VirtualPic.wf p -> VirtualPic.wf (fst (VirtualPic.master_ocw2 p v)).
Proof.
  intros (Hm & Hs & H2). unfold VirtualPic.master_ocw2.
  pose proof (Pic8259_wf_ocw2 _ v Hm). pose proof (Pic8259_ocw2_irr (VirtualPic.master p) v) as E.
  destruct (Pic8259.write_ocw2 _ _) as [m r]; simpl in *. split_and!; simpl; try done. by rewrite E.
Qed.

Lemma vpic_wf_slave_ocw2 p v : VirtualPic.wf p -> VirtualPic.wf (fst (VirtualPic.slave_ocw2 p v)).
Proof.
  intros (Hm & Hs & H2). unfold VirtualPic.slave_ocw2.
  pose proof (Pic8259_wf_ocw2 _ v Hs). destruct (Pic8259.write_ocw2 _ _) as [s r]; by split_and!.
Qed.

Lemma vpic_wf_raise p i : VirtualPic.device_line i -> VirtualPic.wf p -> VirtualPic.wf (VirtualPic.raise p i).
Proof.
  intros [Hi Hne] (Hm & Hs & H2). pose proof Hm as (?&?&?). pose proof Hs as (?&?&?).
  unfold VirtualPic.raise. bool_prop; [| |done]; split_and!; simpl; solve_fits.
  rewrite testbit_set, H2 by lia. by apply bool_decide_eq_false_2.
Qed.

Lemma vpic_wf_clear p i : VirtualPic.device_line i -> VirtualPic.wf p -> VirtualPic.wf (VirtualPic.clear_request p i).
Proof.
  intros [Hi Hne] (Hm & Hs & H2). pose proof Hm as (?&?&?). pose proof Hs as (?&?&?).
  unfold VirtualPic.clear_request. bool_prop; [| |done]; split_and!; simpl; solve_fits.
  by rewrite testbit_clear, H2 by (done || lia).
Qed.

Lemma vpic_wf_ack p i : VirtualPic.device_line i -> VirtualPic.wf p -> VirtualPic.wf (VirtualPic.ack p i).
Proof.
  intros [Hi Hne] (Hm & Hs & H2). pose proof Hm as (?&?&?). pose proof Hs as (?&?&?).
  unfold VirtualPic.ack. bool_prop; [| |done]; split_and!; simpl; solve_fits.
  by rewrite testbit_clear, H2 by (done || lia).
Qed.

Lemma vpic_wf_end_handler p i : VirtualPic.wf p -> VirtualPic.wf (fst (VirtualPic.end_handler p i)).
Proof.
  intros Hp. unfold VirtualPic.end_handler. destruct (i <? 8); [by apply vpic_wf_master_ocw2|].
  pose proof (vpic_wf_slave_ocw2 p VirtualPic.EOI Hp) as H.
  destruct (VirtualPic.slave_ocw2 _ _); simpl in *. by apply vpic_wf_master_ocw2.
Qed.

Lemma vpic_wf_step p st p' st' :
  VirtualPic.pic_step (p, st) (p', st') -> VirtualPic.wf p -> VirtualPic.wf p'.
Proof.
  inversion 1; subst; intros Hwf.
  - by apply vpic_wf_raise.
  - by apply vpic_wf_clear.
  - destruct Hwf as (Hm & Hs & H2). split_and!; simpl; solve_fits.
  - destruct Hwf as (Hm & Hs & H2). split_and!; simpl; solve_fits.
  - apply vpic_wf_ack; [|done]. by eapply vpic_peek_deliverable.
  - by apply vpic_wf_end_handler.
Qed.

(** ** The handler stack *)

Lemma nested_same_isr p p' st :
  Pic8259.isr (VirtualPic.master p') = Pic8259.isr (VirtualPic.master p) ->
  Pic8259.isr (VirtualPic.slave p') = Pic8259.isr (VirtualPic.slave p) ->
  VirtualPic.nested p st -> VirtualPic.nested p' st.
Proof. intros E1 E2 (?&?&?&?). unfold VirtualPic.nested. by rewrite E1, E2. Qed.

(** The lines of a sorted stack all lie above a line below its head. *)
Lemma nested_deliver p st i :
  VirtualPic.wf p -> VirtualPic.nested p st -> VirtualPic.deliverable p i ->
  VirtualPic.nested (VirtualPic.ack p i) (i :: st).
Proof.
  intros Hwf (Hdev & Hsort & Hm & Hs) Hd. pose proof Hd as [Hi (_ & _ & _ & Hmin & Hsmin)].
  unfold VirtualPic.nested. split_and!.
  - by constructor.
  - simpl. constructor; [done|]. apply Forall_forall. intros j Hj%Hm. by apply Hmin.
  - intros j. simpl. rewrite elem_of_cons, <- Hm. unfold VirtualPic.ack, VirtualPic.master_line.
    destruct Hi as [Hi Hne]. bool_prop; try lia; simpl; rewrite testbit_set, orb_true_iff, bool_decide_eq_true
      by (unfold CASCADE_LINE; lia); tauto.
  - intros j. rewrite elem_of_cons. unfold VirtualPic.ack. destruct Hi as [Hi Hne].
    bool_prop; try lia; simpl.
    + rewrite Hs. split; [tauto|]. intros [? [?|?]]; [lia|done].
    + rewrite testbit_set, orb_true_iff, bool_decide_eq_true, Hs by lia. split.
      * intros [[? ?]| ->]; [tauto|]. split; [lia|left; lia].
      * intros [? [?|?]]; [right; lia|by left].
Qed.

(** The lowest in-service input of the master is the innermost handler's. *)
Lemma nested_lowest_master p i st :
  VirtualPic.wf p -> VirtualPic.nested p (i :: st) ->
  lowest_set (Pic8259.isr (VirtualPic.master p)) = Some (VirtualPic.master_line i).
Proof.
  intros ((_ & Hf & _) & _ & _) (Hdev & Hsort & Hm & _). apply lowest_set_Some; [done|]. split.
  - apply Hm. simpl. left.
  - intros j Hj. apply not_true_iff_false. rewrite Hm. simpl. rewrite elem_of_cons.
    apply StronglySorted_inv in Hsort as [_ Hall]. rewrite Forall_forall in Hall.
    intros [->|Hin]; [lia|]. specialize (Hall _ Hin). lia.
Qed.

Lemma nested_slave_unique p i st j :
  VirtualPic.nested p (i :: st) -> 8 <= i -> j ∈ st -> j < 8.
Proof.
  intros (_ & Hsort & _) Hi Hj. apply StronglySorted_inv in Hsort as [_ Hall].
  rewrite Forall_forall in Hall. specialize (Hall (VirtualPic.master_line j)).
  assert (VirtualPic.master_line j ∈ map VirtualPic.master_line st) as Hin
    by (apply list_elem_of_fmap; eauto).
  specialize (Hall Hin). unfold VirtualPic.master_line in Hall.
  destruct (Z.ltb_spec i 8), (Z.ltb_spec j 8); lia.
Qed.

Lemma nested_lowest_slave p i st :
  VirtualPic.wf p -> VirtualPic.nested p (i :: st) -> 8 <= i ->
  lowest_set (Pic8259.isr (VirtualPic.slave p)) = Some (i - 8).
Proof.
  intros Hwf Hn Hi. pose proof Hn as (Hdev & _ & _ & Hs).
  apply lowest_set_Some; [apply Hwf|]. split.
  - apply Hs. split; [lia|]. replace (8 + (i - 8)) with i by lia. left.
  - intros j Hj. apply not_true_iff_false. rewrite Hs, elem_of_cons. intros [H8 [He|Hin]]; [lia|].
    pose proof (nested_slave_unique _ _ _ _ Hn Hi Hin). lia.
Qed.

(** The innermost handler's end of interrupt pops the stack and reports its
    line. *)
Lemma nested_end_handler p i st :
  VirtualPic.wf p -> VirtualPic.nested p (i :: st) ->
  VirtualPic.nested (fst (VirtualPic.end_handler p i)) st /\
  snd (VirtualPic.end_handler p i) = Some i.
Proof.
  intros Hwf Hn. pose proof (nested_lowest_master _ _ _ Hwf Hn) as El.
  pose proof Hn as (Hdev & Hsort & Hm & Hs). apply Forall_cons in Hdev as [[Hi Hne] Hdev].
  pose proof (StronglySorted_inv Hsort) as [Hsort' Hall]. rewrite Forall_forall in Hall.
  assert (Hl : 0 <= VirtualPic.master_line i < 8)
    by (unfold VirtualPic.master_line, CASCADE_LINE; destruct (Z.ltb_spec i 8); lia).
  assert (Hm' : forall j, Z.testbit (Pic8259.isr (VirtualPic.master p) .&
      bnot 8 (bit (VirtualPic.master_line i))) j = true <-> j ∈ map VirtualPic.master_line st).
  { intros j. rewrite testbit_clear, andb_true_iff, Hm, negb_true_iff, bool_decide_eq_false
      by (apply Hwf || lia). simpl. rewrite elem_of_cons. split; [naive_solver|].
    intros Hj. split; [by right|]. specialize (Hall j Hj). lia. }
  unfold VirtualPic.end_handler, VirtualPic.master_ocw2, VirtualPic.slave_ocw2, Pic8259.write_ocw2.
  change (VirtualPic.EOI .& 0xE0) with 0x20. simpl (_ || _). cbv iota.
  destruct (Z.ltb_spec i 8) as [Hlt|Hge].
  - rewrite El. simpl. replace (VirtualPic.master_line i) with i in *
      by (unfold VirtualPic.master_line; destruct (Z.ltb_spec i 8); lia).
    split; [|done]. unfold VirtualPic.nested; simpl. split_and!; [done|done|done|].
    intros j. rewrite Hs, elem_of_cons. split; [|tauto]. intros [? [?|?]]; [lia|done].
  - rewrite (nested_lowest_slave _ _ _ Hwf Hn Hge). simpl. rewrite El. simpl.
    split; [|f_equal; lia]. unfold VirtualPic.nested; simpl. split_and!; [done|done|done|].
    intros j. rewrite testbit_clear, andb_true_iff, Hs, negb_true_iff, bool_decide_eq_false
      by (apply Hwf || lia). rewrite elem_of_cons. split.
    + intros [[? [?|?]] ?]; [lia|done].
    + intros [? Hj]. pose proof (nested_slave_unique _ _ _ _ Hn Hge Hj). lia.
Qed.

Lemma vpic_nested_step p st p' st' :
  VirtualPic.pic_step (p, st) (p', st') ->
  VirtualPic.wf p -> VirtualPic.nested p st -> VirtualPic.nested p' st'.
Proof.
  inversion 1; subst; intros Hwf Hn.
  - eapply nested_same_isr; [..|done]; unfold VirtualPic.raise; by bool_prop.
  - eapply nested_same_isr; [..|done]; unfold VirtualPic.clear_request; by bool_prop.
  - by eapply nested_same_isr; [..|done].
  - by eapply nested_same_isr; [..|done].
  - apply nested_deliver; [done|done|]. by apply vpic_peek_deliverable.
  - by apply nested_end_handler.
Qed.

Lemma vpic_reachable_inv p st :
  VirtualPic.reachable p st -> VirtualPic.wf p /\ VirtualPic.nested p st.
Proof.
  intros H. apply (rtc_invariant _ (fun s => VirtualPic.wf (fst s) /\ VirtualPic.nested (fst s) (snd s)) _ _ H).
  - split; [apply vpic_new_wf|]. unfold VirtualPic.nested; simpl.
    split_and!; [by constructor|by constructor| |]; intros j; rewrite Z.testbit_0_l; set_solver.
  - intros [p1 st1] [p2 st2] Hs [Hwf Hn]. split.
    + by eapply vpic_wf_step.
    + by eapply vpic_nested_step.
Qed.

Lemma nested_in_service p st j :
  VirtualPic.wf p -> VirtualPic.nested p st -> VirtualPic.device_line j ->
  VirtualPic.in_service p j = bool_decide (j ∈ st).
Proof.
  intros Hwf (Hdev & _ & Hm & Hs) [Hj Hne]. apply eq_true_iff_eq. rewrite bool_decide_eq_true.
  destruct (Z.lt_ge_cases j 8).
  - rewrite in_service_master, Hm, list_elem_of_fmap by lia. split.
    + intros (i & -> & Hi). unfold VirtualPic.master_line in *. by destruct (Z.ltb_spec i 8).
    + intros Hin. exists j. split; [|done]. unfold VirtualPic.master_line.
      destruct (Z.ltb_spec j 8); [done|lia].
  - rewrite in_service_slave, Hs by lia. replace (8 + (j - 8)) with j by lia. split; [tauto|]. split; [lia|done].
Qed.

(** C23: in every state the controller can reach from reset, whatever the
    order of requests, mask writes and deliveries, the non-specific EOI that
    ends the innermost interrupt handler retires exactly that handler's
    line, and afterwards the lines reported in service are exactly those of
    the handlers still being run. *)
Theorem eoi_retires_innermost p i st :
  VirtualPic.reachable p (i :: st) ->
  snd (VirtualPic.end_handler p i) = Some i /\
  forall j, VirtualPic.device_line j ->
    VirtualPic.in_service (fst (VirtualPic.end_handler p i)) j = bool_decide (j ∈ st).
Proof.
  intros [Hwf Hn]%vpic_reachable_inv. destruct (nested_end_handler _ _ _ Hwf Hn) as [Hn' Hr].
  split; [done|]. intros j Hj. apply nested_in_service; [|done|done].
  by apply vpic_wf_end_handler.
Qed.

(** a delivery is always a preemption: in every reachable state the line
    [peek] offers has strictly higher priority than every handler being run,
    so handlers nest at most fifteen deep and an in-service line never
    re-enters itself. *)
Theorem delivery_preempts p st j :
  VirtualPic.reachable p st -> VirtualPic.peek p = Some j ->
  forall i, i ∈ st -> VirtualPic.rank j < VirtualPic.rank i.
Proof.
  intros [Hwf Hn]%vpic_reachable_inv Hp i Hi.
  apply vpic_peek_deliverable in Hp as [Hj (_ & _ & _ & Hmin & _)]; [|done].
  destruct Hn as (Hdev & _ & Hm & _). rewrite Forall_forall in Hdev.
  apply rank_master_line; [done|by apply Hdev|]. apply Hmin, Hm, list_elem_of_fmap. eauto.
Qed.

(** ** Witnesses *)

(** IRQ5 in service is preempted by IRQ8 through the cascade, and then IRQ9
    and IRQ5 wait behind it. *)
Definition pic_demo : VirtualPic.VirtualPic :=
  VirtualPic.ack (VirtualPic.raise (VirtualPic.ack (VirtualPic.raise VirtualPic.new 5) 5) 8) 8.

Lemma pic_demo_reachable : VirtualPic.reachable pic_demo [8; 5].
Proof.
  unfold VirtualPic.reachable.
  eapply rtc_l; [apply (VirtualPic.step_raise _ _ 5); by split; [lia|]|].
  eapply rtc_l; [apply (VirtualPic.step_deliver _ _ 5); vm_compute; reflexivity|].
  eapply rtc_l; [apply (VirtualPic.step_raise _ _ 8); by split; [lia|]|].
  eapply rtc_l; [apply (VirtualPic.step_deliver _ _ 8); vm_compute; reflexivity|].
  apply rtc_refl.
Defined.

Lemma peek_highest_priority_witness :
  VirtualPic.wf (VirtualPic.raise (VirtualPic.raise VirtualPic.new 3) 9) /\
  VirtualPic.peek (VirtualPic.raise (VirtualPic.raise VirtualPic.new 3) 9) = Some 9 /\
  forall j, VirtualPic.deliverable (VirtualPic.raise (VirtualPic.raise VirtualPic.new 3) 9) j ->
    VirtualPic.rank 9 <= VirtualPic.rank j.
Proof.
  assert (H : VirtualPic.wf (VirtualPic.raise (VirtualPic.raise VirtualPic.new 3) 9))
    by (do 2 (apply vpic_wf_raise; [split; [lia|discriminate]|]); exact vpic_new_wf).
  split; [exact H|]. split; [vm_compute; reflexivity|].
  exact (proj2 (peek_highest_priority (VirtualPic.raise (VirtualPic.raise VirtualPic.new 3) 9) H)).
Defined.

Lemma eoi_retires_innermost_witness :
  VirtualPic.reachable pic_demo [8; 5] /\ snd (VirtualPic.end_handler pic_demo 8) = Some 8.
Proof.
  split; [exact pic_demo_reachable|].
  exact (proj1 (eoi_retires_innermost pic_demo 8 [5] pic_demo_reachable)).
Defined.

Lemma delivery_preempts_witness :
  VirtualPic.peek (VirtualPic.raise pic_demo 1) = Some 1 /\ VirtualPic.rank 1 < VirtualPic.rank 8.
Proof.
  split; [vm_compute; reflexivity|].
  apply (delivery_preempts (VirtualPic.raise pic_demo 1) [8; 5] 1).
  - eapply rtc_r; [exact pic_demo_reachable|].
    apply VirtualPic.step_raise. split; [lia|discriminate].
  - vm_compute; reflexivity.
  - left.
Defined.

(** * After delivery *)

Lemma ack_in_service p i :
  VirtualPic.wf p -> VirtualPic.device_line i ->
  VirtualPic.in_service (VirtualPic.ack p i) i = true /\
  VirtualPic.is_requested (VirtualPic.ack p i) i = false.
Proof.
  intros (Hm & Hs & _) [Hi _]. destruct Hm as (?&?&?), Hs as (?&?&?).
  destruct (Z.lt_ge_cases i 8).
  - rewrite in_service_master, is_requested_master by lia. unfold VirtualPic.ack.
    destruct (Z.ltb_spec i 8); [|lia]. simpl.
    rewrite testbit_set, (testbit_clear 8), bool_decide_eq_true_2 by (done || lia).
    by rewrite orb_true_r, andb_false_r.
  - rewrite in_service_slave, is_requested_slave by lia. unfold VirtualPic.ack.
    destruct (Z.ltb_spec i 8), (Z.ltb_spec i 16); try lia. simpl.
    rewrite testbit_set, (testbit_clear 8), bool_decide_eq_true_2 by (done || lia).
    by rewrite orb_true_r, andb_false_r.
Qed.

Lemma clear_request_spec p i :
  VirtualPic.wf p -> VirtualPic.device_line i ->
  VirtualPic.is_requested (VirtualPic.clear_request p i) i = false /\
  forall j, VirtualPic.in_service (VirtualPic.clear_request p i) j = VirtualPic.in_service p j.
Proof.
  intros (Hm & Hs & _) [Hi _]. destruct Hm as (?&?&?), Hs as (?&?&?). split.
  - destruct (Z.lt_ge_cases i 8).
    + rewrite is_requested_master by lia. unfold VirtualPic.clear_request.
      destruct (Z.ltb_spec i 8); [|lia]. simpl.
      rewrite (testbit_clear 8), bool_decide_eq_true_2 by (done || lia). by rewrite andb_false_r.
    + rewrite is_requested_slave by lia. unfold VirtualPic.clear_request.
      destruct (Z.ltb_spec i 8), (Z.ltb_spec i 16); try lia. simpl.
      rewrite (testbit_clear 8), bool_decide_eq_true_2 by (done || lia). by rewrite andb_false_r.
  - intros j. unfold VirtualPic.clear_request. by destruct (i <? 8), (i <? 16).
Qed.

(** * A device strapped to the cascade input *)

(** [raise] accepts line 2, which no delivery can ever acknowledge: with
    the cascade input unmasked, nothing pending on the slave and IRQ0 and
    IRQ1 quiet, raising it makes [peek] return nothing although a lower
    line is requested, unmasked and otherwise deliverable, so IRQ3 to IRQ7
    wait until a slave line happens to be serviced. *)
Theorem cascade_request_starves p j :
  VirtualPic.wf p -> 3 <= j <= 7 -> VirtualPic.deliverable p j ->
  Z.testbit (Pic8259.imr (VirtualPic.master p)) CASCADE_LINE = false ->
  Pic8259.peek (VirtualPic.slave p) = None ->
  VirtualPic.is_requested p 0 = false -> VirtualPic.is_requested p 1 = false ->
  let p' := VirtualPic.raise p 2 in
  VirtualPic.peek p' = None /\ VirtualPic.is_requested p' j = true /\ VirtualPic.peek p <> None.
Proof.
  intros Hwf Hj Hd Hm Hs H0 H1 p'. pose proof Hd as (_ & Hreq & _ & _ & Hsv & _).
  pose proof Hwf as (Hmw & _ & _). destruct Hmw as (Hirr & Hisr & Himr).
  rewrite !is_requested_master in * by lia. split_and!.
  - unfold VirtualPic.peek, p', VirtualPic.raise; simpl. rewrite Hs, Z.lor_0_r.
    set (c := _ .& _).
    assert (lowest_set c = Some CASCADE_LINE) as ->.
    { apply lowest_set_Some; [subst c; solve_fits|].
      assert (forall i, Z.testbit c i = (Z.testbit (Pic8259.irr (VirtualPic.master p)) i || bool_decide (i = 2))
                && negb (Z.testbit (Pic8259.imr (VirtualPic.master p)) i)) as Hc.
      { intros i. subst c. rewrite testbit_unmasked by solve_fits. by rewrite testbit_set by lia. }
      unfold CASCADE_LINE in *. split.
      - by rewrite Hc, Hm, orb_true_r.
      - intros i Hi. rewrite Hc, bool_decide_eq_false_2, orb_false_r by lia.
        destruct (Z.lt_ge_cases i 0); [by rewrite Z.testbit_neg_r|].
        assert (i = 0 \/ i = 1) as [-> | ->] by lia; by rewrite ?H0, ?H1. }
    simpl. repeat case_match; done.
  - unfold p', VirtualPic.raise; simpl. rewrite testbit_set, Hreq by lia. done.
  - intros E. pose proof (vpic_peek_spec p Hwf) as Hp. rewrite E in Hp. by apply (Hp j).
Qed.

Lemma cascade_request_starves_witness :
  let p := VirtualPic.raise VirtualPic.new 5 in
  VirtualPic.peek (VirtualPic.raise p 2) = None /\ VirtualPic.peek p = Some 5.
Proof.
  intros p. split; [|by vm_compute].
  assert (VirtualPic.wf p) as Hwf by (apply vpic_wf_raise; [done|apply vpic_new_wf]).
  apply (cascade_request_starves p 5 Hwf); try done.
  by apply vpic_peek_deliverable.
Defined.
