(* ===== verification/VPit.v ===== *)
(** The virtual 8253 interval timer (kernel/src/kernel/dos/machine/vpit.rs).

    [VirtualPitChannel] is one counter, [VirtualPit] the chip: its clock in
    input cycles, derived from the host's nanosecond clock, and channels 0
    and 2.  [machine.now()] is the argument [now_ns].  The [while] loop of
    [take_irqs] is [take_loop], which runs on fuel and returns [None] if the
    fuel runs out; [take_irqs_total] shows that it never does below
    saturation. *)

From Stdlib Require Import ZArith Lia Bool Sorted.
From stdpp Require Import base option list numbers sets.
From S2P Require Import Prelude.

Definition PIT_INPUT_HZ : Z := 1193182.
Definition PIT_NANOS_PER_SECOND : Z := 1000000000.

Module VirtualPitChannel.

Record VirtualPitChannel := mk {
  reload : Z;
  rw_mode : Z;
  mode : Z;
  write_lsb : option Z;
  read_lsb_next : bool;
  latched : option Z;
  latch_lsb_next : bool;
  start_cycle : Z;
  next_irq_cycle : Z;
  enabled : bool
}.

Definition new : VirtualPitChannel := mk 0 3 3 None true None true 0 0 true.

Definition divisor (c : VirtualPitChannel) : Z :=
  if reload c =? 0 then 65536 else reload c.

(** Modes 2 and 3 reload themselves. *)
Definition periodic (c : VirtualPitChannel) : bool := (mode c =? 2) || (mode c =? 3).

Definition current_count (c : VirtualPitChannel) (now : Z) : Z :=
  if negb (enabled c) then reload c
  else
    let div := divisor c in
    let elapsed := sat_sub now (start_cycle c) in
    let raw :=
      if periodic c then
        let pos := elapsed mod div in
        let remaining := div - pos in
        if remaining =? div then div else remaining
      else sat_sub div elapsed in
    u16 raw.

Definition set_latched (c : VirtualPitChannel) (l : option Z) (lsb : bool) : VirtualPitChannel :=
  mk (reload c) (rw_mode c) (mode c) (write_lsb c) (read_lsb_next c) l lsb
     (start_cycle c) (next_irq_cycle c) (enabled c).
Definition set_read_lsb_next (c : VirtualPitChannel) (b : bool) : VirtualPitChannel :=
  mk (reload c) (rw_mode c) (mode c) (write_lsb c) b (latched c) (latch_lsb_next c)
     (start_cycle c) (next_irq_cycle c) (enabled c).
Definition set_write_lsb (c : VirtualPitChannel) (w : option Z) : VirtualPitChannel :=
  mk (reload c) (rw_mode c) (mode c) w (read_lsb_next c) (latched c) (latch_lsb_next c)
     (start_cycle c) (next_irq_cycle c) (enabled c).
Definition set_irq (c : VirtualPitChannel) (next : Z) (en : bool) : VirtualPitChannel :=
  mk (reload c) (rw_mode c) (mode c) (write_lsb c) (read_lsb_next c) (latched c)
     (latch_lsb_next c) (start_cycle c) next en.

Definition latch_count (c : VirtualPitChannel) (now : Z) : VirtualPitChannel :=
  set_latched c (Some (current_count c now)) true.

Definition read_byte (c : VirtualPitChannel) (now : Z) : VirtualPitChannel * Z :=
  match latched c with
  | Some l =>
      if latch_lsb_next c then (set_latched c (latched c) false, u8 l)
      else (set_latched c None true, u8 (l ≫ 8))
  | None =>
      let count := current_count c now in
      if rw_mode c =? 1 then (c, u8 count)
      else if rw_mode c =? 2 then (c, u8 (count ≫ 8))
      else
        (set_read_lsb_next c (negb (read_lsb_next c)),
         if read_lsb_next c then u8 count else u8 (count ≫ 8))
  end.

Definition load_count (c : VirtualPitChannel) (raw now : Z) : VirtualPitChannel :=
  let c1 := mk raw (rw_mode c) (mode c) None true None true now (next_irq_cycle c) true in
  let div := divisor c1 in
  set_irq c1 (sat_add U64_MAX now div) true.

Definition write_byte (c : VirtualPitChannel) (val now : Z) : VirtualPitChannel :=
  if rw_mode c =? 1 then load_count c val now
  else if rw_mode c =? 2 then load_count c (u16 (val ≪ 8)) now
  else
    match write_lsb c with
    | Some lo => load_count (set_write_lsb c None) (u16 (val ≪ 8) .| lo) now
    | None => set_write_lsb c (Some val)
    end.

Definition set_command (c : VirtualPitChannel) (rw m : Z) : VirtualPitChannel :=
  mk (reload c) rw
     (if m =? 6 then 2 else if m =? 7 then 3 else m .& 0x07)
     None true (latched c) (latch_lsb_next c) (start_cycle c) (next_irq_cycle c) (enabled c).

Definition output (c : VirtualPitChannel) (now : Z) : bool :=
  if negb (enabled c) then true
  else
    let div := divisor c in
    let elapsed := sat_sub now (start_cycle c) in
    if mode c =? 2 then negb (elapsed mod div =? div - 1)
    else if mode c =? 3 then elapsed mod div <? div / 2
    else div <=? elapsed.

(** [while now >= next { count += 1; next += div }], saturating. *)
Fixpoint take_loop (fuel : nat) (now div count next : Z) : option (Z * Z) :=
  match fuel with
  | O => None
  | S fuel =>
      if next <=? now
      then take_loop fuel now div (sat_add U32_MAX count 1) (sat_add U64_MAX next div)
      else Some (count, next)
  end.

Definition take_irqs (c : VirtualPitChannel) (now : Z) : option (VirtualPitChannel * Z) :=
  if negb (enabled c) then Some (c, 0)
  else
    let div := divisor c in
    if periodic c then
      match take_loop (S (S (Z.to_nat ((now - next_irq_cycle c) / div)))) now div 0 (next_irq_cycle c) with
      | Some (count, next) => Some (set_irq c next (enabled c), count)
      | None => None
      end
    else if next_irq_cycle c <=? now then Some (set_irq c (next_irq_cycle c) false, 1)
    else Some (c, 0).

(** The registers have their widths. *)
Definition wf (c : VirtualPitChannel) : Prop :=
  fits 16 (reload c) /\ fits 64 (start_cycle c) /\ fits 64 (next_irq_cycle c) /\
  (forall l, write_lsb c = Some l -> fits 8 l) /\ (forall l, latched c = Some l -> fits 16 l).

End VirtualPitChannel.

Module VirtualPit.
Import VirtualPitChannel.

Record VirtualPit := mk {
  last_host_ns : Z;
  frac_accum : Z;
  input_cycles : Z;
  ch0 : VirtualPitChannel;
  ch2 : VirtualPitChannel
}.

Definition new (now_ns : Z) : VirtualPit :=
  mk now_ns 0 0 VirtualPitChannel.new VirtualPitChannel.new.

Definition chan (p : VirtualPit) (channel : Z) : option VirtualPitChannel :=
  if channel =? 0 then Some (ch0 p) else if channel =? 2 then Some (ch2 p) else None.

(** Store back through the mutable reference [chan] hands out. *)
Definition set_chan (p : VirtualPit) (channel : Z) (c : VirtualPitChannel) : VirtualPit :=
  if channel =? 0 then mk (last_host_ns p) (frac_accum p) (input_cycles p) c (ch2 p)
  else if channel =? 2 then mk (last_host_ns p) (frac_accum p) (input_cycles p) (ch0 p) c
  else p.

Definition sync_at (p : VirtualPit) (now : Z) : VirtualPit :=
  let delta_ns := sat_sub now (last_host_ns p) in
  if delta_ns =? 0 then p
  else
    let total := sat_add U64_MAX (frac_accum p) (sat_mul U64_MAX delta_ns PIT_INPUT_HZ) in
    mk now (total mod PIT_NANOS_PER_SECOND)
       (sat_add U64_MAX (input_cycles p) (total / PIT_NANOS_PER_SECOND))
       (ch0 p) (ch2 p).

Definition read_counter (p : VirtualPit) (now_ns channel : Z) : VirtualPit * Z :=
  let p := sync_at p now_ns in
  match chan p channel with
  | Some c => let '(c', b) := read_byte c (input_cycles p) in (set_chan p channel c', b)
  | None => (p, 0)
  end.

Definition write_counter (p : VirtualPit) (now_ns channel val : Z) : VirtualPit :=
  let p := sync_at p now_ns in
  match chan p channel with
  | Some c => set_chan p channel (write_byte c val (input_cycles p))
  | None => p
  end.

Definition write_command (p : VirtualPit) (now_ns val : Z) : VirtualPit :=
  let p := sync_at p now_ns in
  let channel := (val ≫ 6) .& 0x03 in
  let rw := (val ≫ 4) .& 0x03 in
  match chan p channel with
  | None => p
  | Some c =>
      if rw =? 0 then set_chan p channel (latch_count c (input_cycles p))
      else set_chan p channel (set_command c rw ((val ≫ 1) .& 0x07))
  end.

Definition ch2_reload (p : VirtualPit) : Z := reload (ch2 p).

Definition ch2_output (p : VirtualPit) (now_ns : Z) : VirtualPit * bool :=
  let p := sync_at p now_ns in (p, output (ch2 p) (input_cycles p)).

Definition take_pending_irqs (p : VirtualPit) (now_ns : Z) : option (VirtualPit * Z) :=
  let p := sync_at p now_ns in
  match take_irqs (ch0 p) (input_cycles p) with
  | Some (c, n) => Some (set_chan p 0 c, n)
  | None => None
  end.

Definition debug_state (p : VirtualPit) : bool * Z * Z * Z * Z :=
  (enabled (ch0 p), mode (ch0 p), reload (ch0 p), input_cycles p, next_irq_cycle (ch0 p)).

(** Polling the timer at a sequence of host times: the total number of
    periods reported. *)
Fixpoint poll (p : VirtualPit) (times : list Z) : option (VirtualPit * Z) :=
  match times with
  | [] => Some (p, 0)
  | t :: ts =>
      match take_pending_irqs p t with
      | Some (p1, n) =>
          match poll p1 ts with Some (p2, m) => Some (p2, n + m) | None => None end
      | None => None
      end
  end.

(** The clock is within its range and far from saturating until [limit]. *)
Definition clock_ok (p : VirtualPit) (limit : Z) : Prop :=
  0 <= last_host_ns p /\ 0 <= frac_accum p < PIT_NANOS_PER_SECOND /\ 0 <= input_cycles p /\
  (limit - last_host_ns p) * PIT_INPUT_HZ + PIT_NANOS_PER_SECOND <= U64_MAX /\
  input_cycles p + ((limit - last_host_ns p) * PIT_INPUT_HZ + frac_accum p) / PIT_NANOS_PER_SECOND
    + 2 * 65536 <= U64_MAX.

(** Channel 0 runs periodically and its next interrupt is scheduled within
    the representable range. *)
Definition armed (p : VirtualPit) : Prop :=
  enabled (ch0 p) = true /\ periodic (ch0 p) = true /\ fits 16 (reload (ch0 p)) /\
  0 <= next_irq_cycle (ch0 p) <= input_cycles p + 65536.

End VirtualPit.

(** * One counter *)

Lemma divisor_range c :
  fits 16 (VirtualPitChannel.reload c) -> 1 <= VirtualPitChannel.divisor c <= 65536.
Proof. pow2. unfold VirtualPitChannel.divisor. intros H. bool_prop; lia. Qed.

(** Number of periods of length [div] that end at or before [now], the first
    ending at [next]. *)
Definition periods (now div next : Z) : Z := if next <=? now then (now - next) / div + 1 else 0.

Lemma periods_range now div next :
  0 < div ->
  0 <= periods now div next /\ now < next + periods now div next * div /\
  (next <= now -> next + periods now div next * div <= now + div).
Proof.
  intros Hd. unfold periods. destruct (Z.leb_spec next now); [|lia].
  pose proof (Z.div_mod (now - next) div ltac:(lia)).
  pose proof (Z.mod_pos_bound (now - next) div Hd).
  pose proof (Z.div_pos (now - next) div ltac:(lia) Hd). nia.
Qed.

Lemma take_loop_spec fuel now div count next :
  0 < div -> 0 <= count -> 0 <= next -> now + div <= U64_MAX ->
  (Z.to_nat (periods now div next) < fuel)%nat ->
  VirtualPitChannel.take_loop fuel now div count next =
    Some (if count <=? U32_MAX then Z.min (count + periods now div next) U32_MAX
          else if next <=? now then U32_MAX else count,
          next + periods now div next * div).
Proof.
  intros Hd. revert count next. induction fuel as [|fuel IH]; intros count next Hc Hn Hm Hf; [lia|].
  simpl. destruct (Z.leb_spec next now) as [Hle|Hgt].
  - assert (Hp : periods now div next = 1 + periods now div (next + div)).
    { unfold periods. destruct (Z.leb_spec next now); [|lia].
      destruct (Z.leb_spec (next + div) now).
      - replace (now - next) with (now - (next + div) + 1 * div) by lia.
        rewrite Z.div_add by lia. lia.
      - rewrite Z.div_small by lia. lia. }
    pose proof (periods_range now div (next + div) Hd) as [H0 _].
    unfold sat_add at 2. rewrite Z.min_l by lia.
    rewrite IH by (unfold sat_add; (pow2; lia) || lia). rewrite Hp.
    f_equal. f_equal; [|lia]. unfold sat_add. pow2. bool_prop; lia.
  - unfold periods. destruct (Z.leb_spec next now); [lia|]. f_equal. f_equal; [|lia].
    destruct (Z.leb_spec count U32_MAX); lia.
Qed.

(** [take_irqs] in a periodic mode, as arithmetic. *)
Lemma take_irqs_periodic_eq c now :
  VirtualPitChannel.enabled c = true -> VirtualPitChannel.periodic c = true ->
  fits 16 (VirtualPitChannel.reload c) -> 0 <= VirtualPitChannel.next_irq_cycle c ->
  now + 65536 <= U64_MAX ->
  let div := VirtualPitChannel.divisor c in
  let n := periods now div (VirtualPitChannel.next_irq_cycle c) in
  VirtualPitChannel.take_irqs c now =
    Some (VirtualPitChannel.set_irq c (VirtualPitChannel.next_irq_cycle c + n * div) true,
          Z.min n U32_MAX).
Proof.
  intros He Hp Hr Hn Hm div n. unfold VirtualPitChannel.take_irqs. rewrite He, Hp. simpl negb. cbv iota.
  pose proof (divisor_range c Hr) as Hd. fold div in Hd |- *.
  rewrite take_loop_spec.
  - destruct (Z.leb_spec 0 U32_MAX); [|pow2; lia]. done.
  - lia.
  - lia.
  - done.
  - lia.
  - unfold periods. destruct (Z.leb_spec (VirtualPitChannel.next_irq_cycle c) now) as [Hle|]; [|simpl; lia].
    pose proof (Z.div_pos (now - VirtualPitChannel.next_irq_cycle c) div ltac:(lia) ltac:(lia)).
    rewrite Z2Nat.inj_add by lia. simpl. lia.
Qed.

(** [VirtualPitChannel::take_irqs] terminates for every channel state and
    every time below saturation, and in a periodic mode it reports exactly
    the periods that have elapsed (saturating at [u32::MAX]) and re-arms the
    next interrupt strictly in the future, at most one period away and in
    phase with the previous schedule; a one-shot fires at most once and then
    disables itself. *)
Theorem take_irqs_total c now :
  VirtualPitChannel.wf c -> 0 <= now -> now + 65536 <= U64_MAX ->
  exists c' n, VirtualPitChannel.take_irqs c now = Some (c', n) /\
  let div := VirtualPitChannel.divisor c in
  if VirtualPitChannel.enabled c then
    if VirtualPitChannel.periodic c then
      n = Z.min (periods now div (VirtualPitChannel.next_irq_cycle c)) U32_MAX /\
      now < VirtualPitChannel.next_irq_cycle c' /\
      (VirtualPitChannel.next_irq_cycle c <= now -> VirtualPitChannel.next_irq_cycle c' <= now + div) /\
      (VirtualPitChannel.next_irq_cycle c' - VirtualPitChannel.next_irq_cycle c) mod div = 0
    else n = (if VirtualPitChannel.next_irq_cycle c <=? now then 1 else 0) /\
         (VirtualPitChannel.enabled c' = false <-> n = 1) /\
         (n = 1 -> forall later, VirtualPitChannel.take_irqs c' later = Some (c', 0))
  else c' = c /\ n = 0.
Proof.
  intros (Hr & _ & Hn & _) Hnow Hm.
  destruct (VirtualPitChannel.enabled c) eqn:He.
  2:{ exists c, 0. unfold VirtualPitChannel.take_irqs. by rewrite He. }
  destruct (VirtualPitChannel.periodic c) eqn:Hp.
  - pose proof (divisor_range c Hr) as Hd.
    pose proof (periods_range now (VirtualPitChannel.divisor c) (VirtualPitChannel.next_irq_cycle c) ltac:(lia)) as (H0 & H1 & H2).
    do 2 eexists. split; [apply take_irqs_periodic_eq; try done; apply Hn|]. cbv zeta. simpl.
    split_and!; try done.
    replace (_ + _ - _) with (periods now (VirtualPitChannel.divisor c) (VirtualPitChannel.next_irq_cycle c)
      * VirtualPitChannel.divisor c) by lia.
    apply Z.mod_mul; lia.
  - unfold VirtualPitChannel.take_irqs at 1. rewrite He, Hp. simpl.
    destruct (Z.leb_spec (VirtualPitChannel.next_irq_cycle c) now); do 2 eexists; (split; [done|]);
      split_and!; try done; rewrite ?He; done.
Qed.

(** * The chip's clock *)

Lemma nanos_pos : 0 < PIT_NANOS_PER_SECOND.
Proof. reflexivity. Qed.
Lemma nanos_ne : PIT_NANOS_PER_SECOND <> 0.
Proof. discriminate. Qed.

(** The clock counts input cycles with an exact fractional remainder. *)
Lemma sync_at_eq p now limit :
  VirtualPit.clock_ok p limit -> VirtualPit.last_host_ns p <= now <= limit ->
  let total := VirtualPit.frac_accum p + (now - VirtualPit.last_host_ns p) * PIT_INPUT_HZ in
  VirtualPit.sync_at p now =
    VirtualPit.mk now (total mod PIT_NANOS_PER_SECOND)
      (VirtualPit.input_cycles p + total / PIT_NANOS_PER_SECOND) (VirtualPit.ch0 p) (VirtualPit.ch2 p).
Proof.
  intros (Hl & Hf & Hi & Hs1 & Hs2) Hnow total. unfold VirtualPit.sync_at, sat_sub.
  rewrite Z.max_r by lia.
  assert (HU : 0 <= U64_MAX) by (pow2; lia).
  assert (Hmono : (now - VirtualPit.last_host_ns p) * PIT_INPUT_HZ
    <= (limit - VirtualPit.last_host_ns p) * PIT_INPUT_HZ)
    by (apply Z.mul_le_mono_nonneg_r; unfold PIT_INPUT_HZ; lia).
  destruct (Z.eqb_spec (now - VirtualPit.last_host_ns p) 0) as [E|Hne].
  - assert (total = VirtualPit.frac_accum p) as -> by (subst total; rewrite E; lia).
    rewrite Z.mod_small, Z.div_small by lia. replace now with (VirtualPit.last_host_ns p) by lia.
    rewrite Z.add_0_r. by destruct p.
  - assert (sat_add U64_MAX (VirtualPit.frac_accum p)
      (sat_mul U64_MAX (now - VirtualPit.last_host_ns p) PIT_INPUT_HZ) = total) as ->
      by (unfold sat_add, sat_mul, total; lia).
    unfold sat_add. rewrite Z.min_l; [done|].
    assert (total / PIT_NANOS_PER_SECOND <=
      ((limit - VirtualPit.last_host_ns p) * PIT_INPUT_HZ + VirtualPit.frac_accum p) / PIT_NANOS_PER_SECOND)
      by (apply Z.div_le_mono; [unfold PIT_NANOS_PER_SECOND; lia|lia]). lia.
Qed.

Lemma sync_at_clock_ok p now limit :
  VirtualPit.clock_ok p limit -> VirtualPit.last_host_ns p <= now <= limit ->
  VirtualPit.clock_ok (VirtualPit.sync_at p now) limit.
Proof.
  intros Hok Hnow. rewrite (sync_at_eq p now limit) by done.
  destruct Hok as (Hl & Hf & Hi & Hs1 & Hs2).
  set (total := VirtualPit.frac_accum p + (now - VirtualPit.last_host_ns p) * PIT_INPUT_HZ).
  assert (0 <= total) by (subst total; unfold PIT_INPUT_HZ; lia).
  pose proof (Z.mod_pos_bound total PIT_NANOS_PER_SECOND nanos_pos).
  pose proof (Z.div_pos total PIT_NANOS_PER_SECOND ltac:(lia) nanos_pos).
  pose proof (Z.div_mod total PIT_NANOS_PER_SECOND nanos_ne) as Hdm.
  unfold VirtualPit.clock_ok; simpl. split_and!; try lia.
  - unfold PIT_INPUT_HZ in *; lia.
  - replace ((limit - VirtualPit.last_host_ns p) * PIT_INPUT_HZ + VirtualPit.frac_accum p)
      with ((limit - now) * PIT_INPUT_HZ + total mod PIT_NANOS_PER_SECOND
            + total / PIT_NANOS_PER_SECOND * PIT_NANOS_PER_SECOND) in Hs2 by (subst total; lia).
    rewrite Z.div_add in Hs2 by apply nanos_ne. lia.
Qed.

(** Two synchronisations are one. *)
Lemma sync_at_twice p t1 t2 :
  VirtualPit.clock_ok p t2 -> VirtualPit.last_host_ns p <= t1 <= t2 ->
  VirtualPit.sync_at (VirtualPit.sync_at p t1) t2 = VirtualPit.sync_at p t2.
Proof.
  intros Hok Ht. pose proof (sync_at_clock_ok p t1 t2 Hok Ht) as Hok1.
  pose proof (sync_at_eq p t1 t2 Hok Ht) as E1. cbv zeta in E1.
  rewrite (sync_at_eq (VirtualPit.sync_at p t1) t2 t2), (sync_at_eq p t2 t2);
    try done; [|lia|rewrite E1; simpl; lia].
  rewrite E1; simpl.
  set (total := VirtualPit.frac_accum p + (t1 - VirtualPit.last_host_ns p) * PIT_INPUT_HZ).
  replace (VirtualPit.frac_accum p + (t2 - VirtualPit.last_host_ns p) * PIT_INPUT_HZ)
    with (total + (t2 - t1) * PIT_INPUT_HZ) by (subst total; lia).
  pose proof (Z.div_mod total PIT_NANOS_PER_SECOND nanos_ne) as Hdm.
  replace (total + (t2 - t1) * PIT_INPUT_HZ)
    with (total mod PIT_NANOS_PER_SECOND + (t2 - t1) * PIT_INPUT_HZ
          + total / PIT_NANOS_PER_SECOND * PIT_NANOS_PER_SECOND) by lia.
  rewrite Z.div_add, Z.mod_add by apply nanos_ne. f_equal. lia.
Qed.

(** The chip's clock is independent of when it is synchronised: bringing
    it up to date at [t1] and then at [t2] leaves the same cycle count and
    fraction as going to [t2] at once, so no input cycle is lost or invented
    between guest accesses. *)
Theorem sync_at_split p t1 t2 :
  VirtualPit.clock_ok p t2 -> VirtualPit.last_host_ns p <= t1 <= t2 ->
  VirtualPit.sync_at (VirtualPit.sync_at p t1) t2 = VirtualPit.sync_at p t2.
Proof. apply sync_at_twice. Qed.

(** Splitting an interval splits its periods. *)
Lemma periods_split now1 now2 div next :
  0 < div -> now1 <= now2 ->
  periods now1 div next + periods now2 div (next + periods now1 div next * div) = periods now2 div next.
Proof.
  intros Hd Hle. pose proof (periods_range now1 div next Hd) as (H0 & H1 & H2).
  set (n := periods now1 div next) in *. destruct (Z.le_gt_cases next now2) as [Hn|Hn].
  - unfold periods. destruct (Z.leb_spec next now2); [|lia].
    destruct (Z.leb_spec (next + n * div) now2).
    + replace (now2 - (next + n * div)) with (now2 - next + (- n) * div) by lia.
      rewrite Z.div_add by lia. lia.
    + (* the next interrupt after [now1] is beyond [now2] *)
      subst n. unfold periods in *. destruct (Z.leb_spec next now1).
      * cut ((now1 - next) / div = (now2 - next) / div); [lia|].
        apply (Z.div_unique_pos _ _ _ (now2 - next - (now1 - next) / div * div)); [|lia].
        pose proof (Z.mul_div_le (now1 - next) div Hd). lia.
      * lia.
  - assert (n = 0) as -> by (subst n; unfold periods; destruct (Z.leb_spec next now1); lia).
    rewrite Z.mul_0_l, Z.add_0_r. lia.
Qed.

(** Channel 0 at host time [now]. *)
Definition elapsed_periods (p : VirtualPit.VirtualPit) (now : Z) : Z :=
  periods (VirtualPit.input_cycles (VirtualPit.sync_at p now))
    (VirtualPitChannel.divisor (VirtualPit.ch0 p)) (VirtualPitChannel.next_irq_cycle (VirtualPit.ch0 p)).

Definition after_poll (p : VirtualPit.VirtualPit) (now : Z) : VirtualPit.VirtualPit :=
  VirtualPit.set_chan (VirtualPit.sync_at p now) 0
    (VirtualPitChannel.set_irq (VirtualPit.ch0 p)
       (VirtualPitChannel.next_irq_cycle (VirtualPit.ch0 p)
        + elapsed_periods p now * VirtualPitChannel.divisor (VirtualPit.ch0 p)) true).

Lemma sync_at_ch0 p now : VirtualPit.ch0 (VirtualPit.sync_at p now) = VirtualPit.ch0 p.
Proof. unfold VirtualPit.sync_at. by case_match. Qed.

Lemma sync_at_set_ch0 p c now :
  VirtualPit.sync_at (VirtualPit.set_chan p 0 c) now = VirtualPit.set_chan (VirtualPit.sync_at p now) 0 c.
Proof. unfold VirtualPit.sync_at, VirtualPit.set_chan; simpl. by case_match. Qed.

Lemma sync_at_cycles p now limit :
  VirtualPit.clock_ok p limit -> VirtualPit.last_host_ns p <= now <= limit ->
  VirtualPit.input_cycles p <= VirtualPit.input_cycles (VirtualPit.sync_at p now) /\
  VirtualPit.input_cycles (VirtualPit.sync_at p now) + 2 * 65536 <= U64_MAX /\
  VirtualPit.last_host_ns (VirtualPit.sync_at p now) = now.
Proof.
  intros Hok Hnow. pose proof (sync_at_clock_ok p now limit Hok Hnow) as (_ & Hf & Hi & Hs & Hc).
  pose proof Hok as (? & ? & ? & _).
  pose proof (sync_at_eq p now limit Hok Hnow) as E. cbv zeta in E. rewrite E in *; simpl in *.
  set (total := VirtualPit.frac_accum p + (now - VirtualPit.last_host_ns p) * PIT_INPUT_HZ) in *.
  assert (0 <= total) by (subst total; unfold PIT_INPUT_HZ; lia).
  pose proof (Z.div_pos total PIT_NANOS_PER_SECOND ltac:(lia) nanos_pos).
  assert (0 <= ((limit - now) * PIT_INPUT_HZ + total mod PIT_NANOS_PER_SECOND) / PIT_NANOS_PER_SECOND)
    by (apply Z.div_pos; [unfold PIT_INPUT_HZ; lia|apply nanos_pos]).
  lia.
Qed.

Lemma take_pending_irqs_eq p now limit :
  VirtualPit.armed p -> VirtualPit.clock_ok p limit -> VirtualPit.last_host_ns p <= now <= limit ->
  VirtualPit.take_pending_irqs p now = Some (after_poll p now, Z.min (elapsed_periods p now) U32_MAX).
Proof.
  intros (He & Hp & Hr & Hn) Hok Hnow. unfold VirtualPit.take_pending_irqs. rewrite sync_at_ch0.
  pose proof (sync_at_cycles p now limit Hok Hnow) as (H1 & H2 & _).
  rewrite take_irqs_periodic_eq by (done || lia). done.
Qed.

Lemma after_poll_inv p now limit :
  VirtualPit.armed p -> VirtualPit.clock_ok p limit -> VirtualPit.last_host_ns p <= now <= limit ->
  VirtualPit.armed (after_poll p now) /\ VirtualPit.clock_ok (after_poll p now) limit /\
  VirtualPit.last_host_ns (after_poll p now) = now.
Proof.
  intros (He & Hp & Hr & Hn) Hok Hnow.
  pose proof (sync_at_cycles p now limit Hok Hnow) as (H1 & H2 & H3).
  pose proof (divisor_range _ Hr) as Hd.
  pose proof (periods_range (VirtualPit.input_cycles (VirtualPit.sync_at p now))
    (VirtualPitChannel.divisor (VirtualPit.ch0 p))
    (VirtualPitChannel.next_irq_cycle (VirtualPit.ch0 p)) ltac:(lia)) as (Q0 & Q1 & Q2).
  split_and!; [|exact (sync_at_clock_ok p now limit Hok Hnow)|done].
  unfold VirtualPit.armed, after_poll, elapsed_periods; simpl. split_and!; try done; [nia|].
  destruct (Z.le_gt_cases (VirtualPitChannel.next_irq_cycle (VirtualPit.ch0 p))
    (VirtualPit.input_cycles (VirtualPit.sync_at p now))) as [Hle|Hgt]; [specialize (Q2 Hle); lia|].
  unfold periods. destruct (Z.leb_spec (VirtualPitChannel.next_irq_cycle (VirtualPit.ch0 p))
    (VirtualPit.input_cycles (VirtualPit.sync_at p now))); lia.
Qed.

Lemma after_poll_split p t1 t2 :
  VirtualPit.armed p -> VirtualPit.clock_ok p t2 -> VirtualPit.last_host_ns p <= t1 <= t2 ->
  after_poll (after_poll p t1) t2 = after_poll p t2 /\
  elapsed_periods p t1 + elapsed_periods (after_poll p t1) t2 = elapsed_periods p t2.
Proof.
  intros (He & Hp & Hr & Hn) Hok Ht. pose proof (divisor_range _ Hr) as Hd.
  assert (E : elapsed_periods p t1 + elapsed_periods (after_poll p t1) t2 = elapsed_periods p t2).
  { unfold elapsed_periods, after_poll. rewrite sync_at_set_ch0, sync_at_twice by (done || lia).
    unfold VirtualPit.set_chan; simpl. apply periods_split; [unfold VirtualPitChannel.divisor in *; lia|].
    rewrite <- (sync_at_twice p t1 t2) by (done || lia).
    pose proof (sync_at_cycles p t1 t2 Hok Ht) as (_ & _ & E).
    apply (sync_at_cycles _ t2 t2); [by apply sync_at_clock_ok|lia]. }
  split; [|done].
  unfold after_poll at 1. rewrite <- (Z.add_simpl_l (elapsed_periods p t1) (elapsed_periods _ t2)), E.
  unfold after_poll. rewrite sync_at_set_ch0, sync_at_twice by (done || lia).
  unfold VirtualPit.set_chan, VirtualPitChannel.set_irq; simpl. f_equal. f_equal.
  unfold VirtualPitChannel.divisor; simpl. lia.
Qed.

(** C30: the number of timer interrupts does not depend on how often the
    kernel polls.  While channel 0 counts periodically, the clock stays in the
    range of its 64-bit products (four hours between the last poll and [tend])
    and at most 2^32 - 1 periods pass: for every non-decreasing schedule of polls
    ending at [tend], the reported periods add up to what a single poll at
    [tend] reports, and the timer ends in the same state. *)
Theorem poll_schedule_independent p ts tend :
  VirtualPit.armed p -> VirtualPit.clock_ok p tend ->
  StronglySorted Z.le (VirtualPit.last_host_ns p :: ts ++ [tend]) ->
  elapsed_periods p tend <= U32_MAX ->
  VirtualPit.poll p (ts ++ [tend]) = VirtualPit.take_pending_irqs p tend.
Proof.
  revert p. induction ts as [|t ts IH]; intros p Ha Hok Hs Hmax; simpl in *.
  - apply StronglySorted_inv in Hs as [_ Hf]. apply Forall_cons_1 in Hf as [Hle _].
    rewrite (take_pending_irqs_eq p tend tend) by (done || lia). by rewrite Z.add_0_r.
  - apply StronglySorted_inv in Hs as [Hs Hf]. pose proof (StronglySorted_inv Hs) as [_ Hf2].
    apply Forall_cons_1 in Hf as [Hle _]. rewrite Forall_forall in Hf2.
    assert (t <= tend) by (apply Hf2; set_solver).
    rewrite (take_pending_irqs_eq p t tend) by (done || lia).
    destruct (after_poll_inv p t tend) as (Ha' & Hok' & Hl'); [done|done|lia|].
    destruct (after_poll_split p t tend) as [Ep En]; [done|done|lia|].
    assert (0 <= elapsed_periods p t /\ 0 <= elapsed_periods (after_poll p t) tend) as [? ?].
    { destruct Ha as (_ & _ & Hr & _), Ha' as (_ & _ & Hr' & _).
      pose proof (divisor_range _ Hr). pose proof (divisor_range _ Hr').
      split; apply periods_range; lia. }
    rewrite IH by (rewrite ?Hl'; done || lia).
    rewrite (take_pending_irqs_eq _ tend tend), (take_pending_irqs_eq p tend tend)
      by (rewrite ?Hl'; done || lia).
    rewrite Ep. f_equal. f_equal. lia.
Qed.

(** * Programming and reading a counter *)

Lemma u16_bytes x : fits 16 x -> u8 x + 256 * u8 (x ≫ 8) = x.
Proof.
  intros Hx. rewrite Z.shiftr_div_pow2 by lia. pow2.
  rewrite (Z.mod_small (x / 256)) by (split; [apply Z.div_pos|apply Z.div_lt_upper_bound]; lia).
  pose proof (Z.div_mod x 256). lia.
Qed.

Lemma current_count_fits c now : VirtualPitChannel.wf c -> fits 16 (VirtualPitChannel.current_count c now).
Proof.
  intros (Hr & _). unfold VirtualPitChannel.current_count.
  destruct (negb _); [done|]. cbv zeta. by apply wrap_fits.
Qed.

(** Reading back the two halves of a latched count. *)
Lemma latched_reads c l n1 n2 :
  VirtualPitChannel.latched c = Some l -> VirtualPitChannel.latch_lsb_next c = true ->
  fits 16 l ->
  let '(c1, b1) := VirtualPitChannel.read_byte c n1 in
  let '(c2, b2) := VirtualPitChannel.read_byte c1 n2 in
  b1 + 256 * b2 = l /\ VirtualPitChannel.latched c2 = None.
Proof.
  intros Hl Hn Hf. unfold VirtualPitChannel.read_byte at 1. rewrite Hl, Hn.
  unfold VirtualPitChannel.read_byte; simpl. rewrite ?Hl. split; [|done]. by apply u16_bytes.
Qed.

(** The counter-latch protocol reads one consistent 16-bit value: after a
    latch command for channel 0 or 2, the two following reads of its data
    port return, low byte first and whatever time passes in between, the
    count at the moment of the latch, and then the latch is released. *)
Theorem latch_read_roundtrip p t0 t1 t2 ch :
  (ch = 0 \/ ch = 2) ->
  (forall c, VirtualPit.chan p ch = Some c -> VirtualPitChannel.wf c) ->
  let cmd := if ch =? 0 then 0x00 else 0x80 in
  let p1 := VirtualPit.write_command p t0 cmd in
  let '(p2, b1) := VirtualPit.read_counter p1 t1 ch in
  let '(p3, b2) := VirtualPit.read_counter p2 t2 ch in
  exists c c3, VirtualPit.chan p ch = Some c /\ VirtualPit.chan p3 ch = Some c3 /\
    b1 + 256 * b2 = VirtualPitChannel.current_count c (VirtualPit.input_cycles (VirtualPit.sync_at p t0)) /\
    VirtualPitChannel.latched c3 = None.
Proof.
  intros Hch Hwf cmd.
  assert (Hsync : forall q t, VirtualPit.chan (VirtualPit.sync_at q t) ch = VirtualPit.chan q ch)
    by (intros q t; unfold VirtualPit.sync_at; by case_match).
  assert (Hset : forall q c, VirtualPit.chan (VirtualPit.set_chan q ch c) ch = Some c)
    by (intros q c; destruct Hch as [-> | ->]; done).
  assert (exists c, VirtualPit.chan p ch = Some c) as [c Hc]
    by (destruct Hch as [-> | ->]; eexists; reflexivity).
  assert (E1 : VirtualPit.write_command p t0 cmd =
    VirtualPit.set_chan (VirtualPit.sync_at p t0) ch
      (VirtualPitChannel.latch_count c (VirtualPit.input_cycles (VirtualPit.sync_at p t0)))).
  { unfold VirtualPit.write_command. replace ((cmd ≫ 6) .& 3) with ch by (by destruct Hch as [-> | ->]).
    rewrite Hsync, Hc. by replace ((cmd ≫ 4) .& 3) with 0 by (by destruct Hch as [-> | ->]). }
  cbv zeta. rewrite E1. unfold VirtualPit.read_counter at 1. rewrite Hsync, Hset.
  set (l := VirtualPitChannel.latch_count c _).
  pose proof (latched_reads l _ (VirtualPit.input_cycles (VirtualPit.sync_at
    (VirtualPit.set_chan (VirtualPit.sync_at p t0) ch l) t1)) 0 eq_refl eq_refl) as Hrd.
  destruct (VirtualPitChannel.read_byte l _) as [c1 b1] eqn:R1.
  unfold VirtualPit.read_counter. rewrite Hsync, Hset.
  assert (Hl1 : VirtualPitChannel.latched c1 = VirtualPitChannel.latched l /\
    VirtualPitChannel.latch_lsb_next c1 = false).
  { unfold VirtualPitChannel.read_byte in R1. simpl in R1. injection R1 as <- <-. done. }
  destruct Hl1 as [Hl1 Hl2].
  unfold VirtualPitChannel.read_byte in Hrd |- *. rewrite Hl1, Hl2 in Hrd |- *. simpl in Hrd |- *.
  exists c. eexists. split; [done|]. split; [apply Hset|].
  apply Hrd, current_count_fits. by apply Hwf.
Qed.

(** The value a guest writes is the period it gets: after a mode command
    with low/high access and the two data bytes, the channel counts the
    16-bit value (0 meaning 65536) from the time of the second byte, its
    next interrupt is one full period later and a read-back immediately
    afterwards returns the programmed value. *)
Theorem program_count c lo hi m now :
  VirtualPitChannel.wf c -> fits 8 lo -> fits 8 hi -> fits 64 now -> now + 65536 <= U64_MAX ->
  let c1 := VirtualPitChannel.set_command c 3 m in
  let c2 := VirtualPitChannel.write_byte (VirtualPitChannel.write_byte c1 lo now) hi now in
  VirtualPitChannel.reload c2 = lo + 256 * hi /\
  VirtualPitChannel.enabled c2 = true /\
  VirtualPitChannel.next_irq_cycle c2 = now + VirtualPitChannel.divisor c2 /\
  VirtualPitChannel.divisor c2 = (if lo + 256 * hi =? 0 then 65536 else lo + 256 * hi) /\
  VirtualPitChannel.current_count c2 now = lo + 256 * hi.
Proof.
  intros Hwf Hlo Hhi Hnow Hm c1 c2.
  assert (Hr : VirtualPitChannel.reload c2 = lo + 256 * hi).
  { subst c2 c1. unfold VirtualPitChannel.write_byte; simpl.
    rewrite wrap_small by (rewrite Z.shiftl_mul_pow2 by lia; pow2; lia).
    rewrite lor_shiftl by (done || lia). pow2. lia. }
  assert (Hd : VirtualPitChannel.divisor c2 = if lo + 256 * hi =? 0 then 65536 else lo + 256 * hi)
    by (unfold VirtualPitChannel.divisor; by rewrite Hr).
  assert (Hdr : 1 <= VirtualPitChannel.divisor c2 <= 65536)
    by (apply divisor_range; rewrite Hr; pow2; lia).
  assert (Hen : VirtualPitChannel.enabled c2 = true) by done.
  assert (Hst : VirtualPitChannel.start_cycle c2 = now) by done.
  split_and!; try done.
  - change (VirtualPitChannel.next_irq_cycle c2) with (sat_add U64_MAX now (VirtualPitChannel.divisor c2)).
    unfold sat_add. lia.
  - unfold VirtualPitChannel.current_count. rewrite Hen, Hst. simpl negb. cbv iota zeta.
    unfold sat_sub. rewrite Z.sub_diag, Z.max_r by lia. rewrite Z.mod_0_l by lia.
    rewrite Z.sub_0_r, Z.eqb_refl, Z.max_r by lia.
    replace (if VirtualPitChannel.periodic c2 then _ else _) with (VirtualPitChannel.divisor c2)
      by (by destruct (VirtualPitChannel.periodic c2)).
    rewrite Hd. pow2. destruct (Z.eqb_spec (lo + 256 * hi) 0) as [->|]; [done|].
    apply Z.mod_small. lia.
Qed.

(** A running counter in a periodic mode reads [reload - elapsed mod
    reload]: it stays within [1, reload] (65536 reading as 0), equals the
    reload value at the start of every period and counts down by one per
    input cycle. *)
Theorem current_count_periodic c now :
  VirtualPitChannel.wf c -> VirtualPitChannel.enabled c = true -> VirtualPitChannel.periodic c = true ->
  VirtualPitChannel.start_cycle c <= now ->
  let div := VirtualPitChannel.divisor c in
  let e := now - VirtualPitChannel.start_cycle c in
  VirtualPitChannel.current_count c now = u16 (div - e mod div) /\
  (VirtualPitChannel.reload c <> 0 -> 1 <= VirtualPitChannel.current_count c now <= VirtualPitChannel.reload c) /\
  (e mod div <> div - 1 ->
     VirtualPitChannel.current_count c (now + 1) = u16 (VirtualPitChannel.current_count c now - 1)).
Proof.
  intros (Hr & _) He Hp Hs div e. pose proof (divisor_range c Hr) as Hd. fold div in Hd.
  assert (E : forall t, VirtualPitChannel.start_cycle c <= t ->
    VirtualPitChannel.current_count c t = u16 (div - (t - VirtualPitChannel.start_cycle c) mod div)).
  { intros t Ht. unfold VirtualPitChannel.current_count. rewrite He, Hp. simpl negb. cbv iota zeta. fold div.
    unfold sat_sub. rewrite Z.max_r by lia. f_equal.
    destruct (Z.eqb_spec (div - (t - VirtualPitChannel.start_cycle c) mod div) div); lia. }
  pose proof (Z.mod_pos_bound e div ltac:(lia)) as Hm.
  split; [by apply E|]. rewrite !E by lia. fold e. split.
  - intros Hne. assert (div = VirtualPitChannel.reload c) as Hdiv
      by (subst div; unfold VirtualPitChannel.divisor; destruct (Z.eqb_spec (VirtualPitChannel.reload c) 0); lia).
    rewrite wrap_small by (pow2; lia). lia.
  - intros Hl. replace (now + 1 - VirtualPitChannel.start_cycle c) with (1 + e) by lia.
    rewrite Zplus_mod, (Z.mod_small 1 div), (Z.mod_small (1 + e mod div) div) by lia.
    unfold wrap. rewrite Zminus_mod_idemp_l. f_equal. lia.
Qed.

(** ** Witnesses *)

Definition pit_demo : VirtualPit.VirtualPit :=
  VirtualPit.write_counter (VirtualPit.write_counter
    (VirtualPit.write_command (VirtualPit.new 1000) 1000 0x34) 1000 0 0xA9) 1000 0 0x04.

Lemma pit_demo_wf : VirtualPitChannel.wf (VirtualPit.ch0 pit_demo).
Proof. split_and!; [by vm_compute..| |]; intros l [=]. Defined.
Lemma pit_new_wf : VirtualPitChannel.wf VirtualPitChannel.new.
Proof. split_and!; [by vm_compute..| |]; intros l [=]. Defined.

Lemma pit_demo_armed : VirtualPit.armed pit_demo /\ VirtualPit.clock_ok pit_demo 60000000.
Proof. vm_compute; repeat split; discriminate. Defined.

Lemma take_irqs_total_witness :
  exists c' n, VirtualPitChannel.take_irqs (VirtualPit.ch0 pit_demo) 5000 = Some (c', n) /\ n = 4.
Proof.
  destruct (take_irqs_total (VirtualPit.ch0 pit_demo) 5000) as (c' & n & E & Hn & _).
  - exact pit_demo_wf.
  - lia.
  - vm_compute; discriminate.
  - exists c', n. split; [exact E|]. rewrite Hn. vm_compute; reflexivity.
Defined.

Lemma sync_at_split_witness :
  VirtualPit.sync_at (VirtualPit.sync_at pit_demo 777777) 50000000 = VirtualPit.sync_at pit_demo 50000000.
Proof.
  apply (sync_at_split pit_demo 777777 50000000); vm_compute; repeat split; discriminate.
Defined.

Lemma poll_schedule_independent_witness :
  VirtualPit.poll pit_demo ([1000000; 1000001; 7777777] ++ [50000000]) =
  VirtualPit.take_pending_irqs pit_demo 50000000 /\
  exists p, VirtualPit.take_pending_irqs pit_demo 50000000 = Some (p, 50).
Proof.
  split.
  - apply (poll_schedule_independent pit_demo [1000000; 1000001; 7777777] 50000000).
    + exact (proj1 pit_demo_armed).
    + vm_compute; repeat split; discriminate.
    + repeat constructor; vm_compute; discriminate.
    + vm_compute; discriminate.
  - eexists. vm_compute. reflexivity.
Defined.

Lemma latch_read_roundtrip_witness :
  let p1 := VirtualPit.write_command pit_demo 500000 0x00 in
  let '(p2, b1) := VirtualPit.read_counter p1 600000 0 in
  let '(p3, b2) := VirtualPit.read_counter p2 900000 0 in
  exists c c3, VirtualPit.chan pit_demo 0 = Some c /\ VirtualPit.chan p3 0 = Some c3 /\
    b1 + 256 * b2 = VirtualPitChannel.current_count c
      (VirtualPit.input_cycles (VirtualPit.sync_at pit_demo 500000)) /\
    VirtualPitChannel.latched c3 = None.
Proof.
  apply (latch_read_roundtrip pit_demo 500000 600000 900000 0); [by left|].
  intros c [= <-]. exact pit_demo_wf.
Defined.

Lemma program_count_witness :
  VirtualPitChannel.reload (VirtualPitChannel.write_byte (VirtualPitChannel.write_byte
    (VirtualPitChannel.set_command VirtualPitChannel.new 3 2) 0xA9 7) 0x04 7) = 1193.
Proof.
  refine (proj1 (program_count VirtualPitChannel.new 0xA9 0x04 2 7 pit_new_wf _ _ _ _));
    by vm_compute.
Defined.

Lemma current_count_periodic_witness :
  1 <= VirtualPitChannel.current_count (VirtualPit.ch0 pit_demo) 100000 <= 1193.
Proof.
  apply (current_count_periodic (VirtualPit.ch0 pit_demo) 100000 pit_demo_wf); by vm_compute.
Defined.
