(* ===== verification/VRtc.v ===== *)
(** The virtual MC146818 real-time clock's periodic interrupt
    (kernel/src/kernel/dos/machine/vrtc.rs).

    Status registers A, B and C and the accumulator that turns host
    nanoseconds into periodic ticks.  [machine.now()] is the argument
    [now_ns]. *)

From Stdlib Require Import ZArith Lia Bool Sorted.
From stdpp Require Import base option list numbers sets.
From S2P Require Import Prelude.

Definition RTC_NANOS_PER_SECOND : Z := 1000000000.

Module VirtualRtc.

Record VirtualRtc := mk {
  reg_a : Z;
  reg_b : Z;
  reg_c : Z;
  last_host_ns : Z;
  frac_accum : Z
}.

Definition new (now_ns : Z) : VirtualRtc := mk 0x26 0x02 0 now_ns 0.

Definition owns (idx : Z) : bool := (0x0A <=? idx) && (idx <=? 0x0C).

Definition read (r : VirtualRtc) (idx : Z) : VirtualRtc * Z :=
  if idx =? 0x0A then (r, reg_a r)
  else if idx =? 0x0B then (r, reg_b r)
  else if idx =? 0x0C then
    (mk (reg_a r) (reg_b r) 0 (last_host_ns r) (frac_accum r), reg_c r)
  else (r, 0xFF).

Definition write (r : VirtualRtc) (now_ns idx val : Z) : VirtualRtc :=
  if idx =? 0x0A then
    mk (val .& 0x7F) (reg_b r) (reg_c r) (last_host_ns r) (frac_accum r)
  else if idx =? 0x0B then
    let was_pie := negb ((reg_b r .& 0x40) =? 0) in
    let now_pie := negb ((val .& 0x40) =? 0) in
    if now_pie && negb was_pie
    then mk (reg_a r) val (reg_c r) now_ns 0
    else mk (reg_a r) val (reg_c r) (last_host_ns r) (frac_accum r)
  else r.

Definition rate_hz (r : VirtualRtc) : Z :=
  let rs := reg_a r .& 0x0F in
  if rs =? 0 then 0 else 32768 ≫ (Z.max rs 3 - 1).

Definition take_pending_irqs (r : VirtualRtc) (now : Z) : VirtualRtc * Z :=
  if (reg_b r .& 0x40) =? 0 then (r, 0)
  else
    let hz := rate_hz r in
    if hz =? 0 then (r, 0)
    else
      let delta := sat_sub now (last_host_ns r) in
      if delta =? 0 then (r, 0)
      else
        let total := sat_add U64_MAX (frac_accum r) (sat_mul U64_MAX delta hz) in
        let count := total / RTC_NANOS_PER_SECOND in
        let c := if 0 <? count then reg_c r .| 0xC0 else reg_c r in
        (mk (reg_a r) (reg_b r) c now (total mod RTC_NANOS_PER_SECOND), u32 count).

(** Polling at a sequence of host times: the total number of ticks. *)
Fixpoint poll (r : VirtualRtc) (times : list Z) : VirtualRtc * Z :=
  match times with
  | [] => (r, 0)
  | t :: ts =>
      let '(r1, n) := take_pending_irqs r t in
      let '(r2, m) := poll r1 ts in (r2, n + m)
  end.

(** The periodic interrupt is running at [hz] and the accumulator holds the
    fraction of a tick since the rate was enabled at [t0], of which [ticks]
    have been reported. *)
Definition running (r : VirtualRtc) (hz t0 ticks : Z) : Prop :=
  (reg_b r .& 0x40) <> 0 /\ rate_hz r = hz /\ 0 <= t0 <= last_host_ns r /\
  0 <= frac_accum r < RTC_NANOS_PER_SECOND /\
  (last_host_ns r - t0) * hz = ticks * RTC_NANOS_PER_SECOND + frac_accum r.

End VirtualRtc.

(** * Rates *)

(** The periodic rate is 0 (disabled) exactly when the rate-select
    nibble is 0 and otherwise a power of two between 2 Hz and 8192 Hz. *)
Lemma rate_hz_range r :
  (VirtualRtc.rate_hz r = 0 <-> Z.land (VirtualRtc.reg_a r) 0x0F = 0) /\
  (VirtualRtc.rate_hz r <> 0 ->
     2 <= VirtualRtc.rate_hz r <= 8192 /\ exists k, VirtualRtc.rate_hz r = 2 ^ k).
Proof.
  unfold VirtualRtc.rate_hz. set (rs := VirtualRtc.reg_a r .& 0x0F).
  assert (Hrs : 0 <= rs < 16).
  { subst rs. change 0x0F with (Z.ones 4). rewrite Z.land_ones by lia. by apply Z.mod_pos_bound. }
  destruct (Z.eqb_spec rs 0); [done|].
  assert (Hsh : 32768 ≫ (Z.max rs 3 - 1) = 2 ^ (16 - Z.max rs 3)).
  { rewrite Z.shiftr_div_pow2 by lia. change 32768 with (2 ^ 15).
    rewrite <- Z.pow_sub_r by lia. f_equal. lia. }
  rewrite Hsh. pose proof (Z.pow_le_mono_r 2 1 (16 - Z.max rs 3)).
  pose proof (Z.pow_le_mono_r 2 (16 - Z.max rs 3) 13). change (2 ^ 13) with 8192 in *.
  split; [split; lia|]. intros _. split; [lia|]. eauto.
Qed.

(** * Ticks *)

Lemma rtc_rate_bound r : 0 <= VirtualRtc.rate_hz r <= 8192.
Proof.
  destruct (rate_hz_range r) as [_ H].
  destruct (Z.eq_dec (VirtualRtc.rate_hz r) 0) as [->|Hn]; [lia|]. specialize (H Hn). lia.
Qed.

Lemma rtc_take_running r hz t0 ticks now :
  VirtualRtc.running r hz t0 ticks -> 0 < hz -> VirtualRtc.last_host_ns r <= now ->
  (now - t0) * hz <= U32_MAX * RTC_NANOS_PER_SECOND ->
  exists r' n, VirtualRtc.take_pending_irqs r now = (r', n) /\ 0 <= n /\
    VirtualRtc.last_host_ns r' = now /\ VirtualRtc.running r' hz t0 (ticks + n).
Proof.
  intros (Hb & Hr & Ht & Hf & Hc) Hhz Hnow Hmax. unfold VirtualRtc.take_pending_irqs.
  pose proof (rtc_rate_bound r) as Hrb.
  destruct (Z.eqb_spec (VirtualRtc.reg_b r .& 0x40) 0); [done|].
  rewrite Hr. destruct (Z.eqb_spec hz 0); [lia|].
  unfold sat_sub. rewrite Z.max_r by lia.
  destruct (Z.eqb_spec (now - VirtualRtc.last_host_ns r) 0) as [E|Hne].
  { exists r, 0. rewrite Z.add_0_r. split_and!; try done; lia. }
  set (total := VirtualRtc.frac_accum r + (now - VirtualRtc.last_host_ns r) * hz).
  assert (Hmono : (now - VirtualRtc.last_host_ns r) * hz <= (now - t0) * hz)
    by (apply Z.mul_le_mono_nonneg_r; lia).
  assert (Hpos : 0 <= (now - VirtualRtc.last_host_ns r) * hz) by (apply Z.mul_nonneg_nonneg; lia).
  assert (Htot : (now - VirtualRtc.last_host_ns r) * hz = (now - t0) * hz - (VirtualRtc.last_host_ns r - t0) * hz) by lia.
  assert (E : sat_add U64_MAX (VirtualRtc.frac_accum r)
    (sat_mul U64_MAX (now - VirtualRtc.last_host_ns r) hz) = total).
  { unfold sat_add, sat_mul. subst total. unfold RTC_NANOS_PER_SECOND in *. pow2. lia. }
  rewrite E. unfold RTC_NANOS_PER_SECOND in *.
  pose proof (Z.div_mod total 1000000000 ltac:(done)).
  pose proof (Z.mod_pos_bound total 1000000000 ltac:(done)).
  pose proof (Z.div_pos total 1000000000 ltac:(subst total; lia) ltac:(lia)).
  assert (u32 (total / 1000000000) = total / 1000000000) as ->.
  { apply wrap_small. split; [done|]. apply Z.div_lt_upper_bound; [lia|].
    subst total. pow2. lia. }
  do 2 eexists. split; [done|]. unfold VirtualRtc.running; simpl.
  split_and!; try done; unfold RTC_NANOS_PER_SECOND in *; lia.
Qed.

Lemma rtc_poll_running r hz t0 ticks ts tend :
  VirtualRtc.running r hz t0 ticks -> 0 < hz ->
  StronglySorted Z.le (VirtualRtc.last_host_ns r :: ts ++ [tend]) ->
  (tend - t0) * hz <= U32_MAX * RTC_NANOS_PER_SECOND ->
  exists r' n, VirtualRtc.poll r (ts ++ [tend]) = (r', n) /\
    VirtualRtc.last_host_ns r' = tend /\ VirtualRtc.running r' hz t0 (ticks + n).
Proof.
  intros Hr Hhz. revert r ticks Hr. induction ts as [|t ts IH]; intros r ticks Hr Hs Hmax; simpl in *.
  - apply StronglySorted_inv in Hs as [_ Hf]. apply Forall_cons_1 in Hf as [Hle _].
    destruct (rtc_take_running r hz t0 ticks tend) as (r' & n & -> & _ & Hl & Hr'); try done.
    exists r', n. rewrite Z.add_0_r. done.
  - apply StronglySorted_inv in Hs as [Hs Hf]. pose proof (StronglySorted_inv Hs) as [_ Hf2].
    apply Forall_cons_1 in Hf as [Hle _]. rewrite Forall_forall in Hf2.
    assert (Hte : t <= tend) by (apply Hf2; set_solver).
    destruct (rtc_take_running r hz t0 ticks t) as (r1 & n & -> & _ & Hl & Hr1); try done; [nia|].
    destruct (IH r1 (ticks + n) Hr1) as (r2 & m & -> & Hl2 & Hr2); [by rewrite Hl|done|].
    exists r2, (n + m). split; [done|]. split; [done|]. by rewrite Z.add_assoc.
Qed.

(** When the guest enables the periodic interrupt at time [t0], the
    number of IRQ8 ticks reported up to [tend] is exactly
    [floor ((tend - t0) * rate)], whatever the polling schedule: the first
    tick comes one full period after the enable, none is lost and none is
    reported twice. *)
Theorem rtc_ticks_exact r t0 val ts tend :
  (VirtualRtc.reg_b r .& 0x40) = 0 -> (val .& 0x40) <> 0 -> 0 < VirtualRtc.rate_hz r ->
  StronglySorted Z.le (t0 :: ts ++ [tend]) -> 0 <= t0 ->
  (tend - t0) * VirtualRtc.rate_hz r <= U32_MAX * RTC_NANOS_PER_SECOND ->
  snd (VirtualRtc.poll (VirtualRtc.write r t0 0x0B val) (ts ++ [tend])) =
    (tend - t0) * VirtualRtc.rate_hz r / RTC_NANOS_PER_SECOND.
Proof.
  intros Hoff Hon Hhz Hs H0 Hmax.
  assert (E : VirtualRtc.write r t0 0x0B val =
    VirtualRtc.mk (VirtualRtc.reg_a r) val (VirtualRtc.reg_c r) t0 0).
  { unfold VirtualRtc.write; simpl. rewrite Hoff. simpl. destruct (Z.eqb_spec (val .& 0x40) 0); done. }
  rewrite E. set (r0 := VirtualRtc.mk _ _ _ _ _).
  assert (Hr0 : VirtualRtc.running r0 (VirtualRtc.rate_hz r) t0 0).
  { unfold VirtualRtc.running; simpl. split_and!; try done; lia. }
  destruct (rtc_poll_running r0 _ t0 0 ts tend Hr0 Hhz Hs Hmax) as (r' & n & -> & Hl & (_ & _ & _ & Hf & Hc)).
  simpl. rewrite Hl in Hc. rewrite Hc, Z.add_0_l.
  unfold RTC_NANOS_PER_SECOND in *. rewrite Z.div_add_l, Z.div_small by lia. lia.
Qed.

(** Register C implements the interrupt handshake: a poll that reports
    ticks latches IRQF and PF, a poll that reports none leaves the flags as
    they were, and reading the register returns the flags and clears them. *)
Theorem reg_c_handshake r now :
  0 <= VirtualRtc.frac_accum r ->
  let '(r1, n) := VirtualRtc.take_pending_irqs r now in
  let '(r2, v) := VirtualRtc.read r1 0x0C in
  v = VirtualRtc.reg_c r1 /\ VirtualRtc.reg_c r2 = 0 /\ snd (VirtualRtc.read r2 0x0C) = 0 /\
  (n <> 0 -> Z.land v 0xC0 = 0xC0) /\
  (VirtualRtc.reg_c r1 <> VirtualRtc.reg_c r -> Z.land v 0xC0 = 0xC0).
Proof.
  intros Hf.
  assert (Hflag : forall c, Z.land (c .| 0xC0) 0xC0 = 0xC0).
  { intros c. rewrite Z.land_lor_distr_l, Z.land_diag. apply Z.bits_inj'; intros i Hi.
    rewrite Z.lor_spec, Z.land_spec. by destruct (Z.testbit c i), (Z.testbit 0xC0 i). }
  unfold VirtualRtc.take_pending_irqs.
  destruct (_ =? 0); [done|]. destruct (_ =? 0); [done|]. destruct (_ =? 0); [done|].
  cbv zeta. simpl. set (count := _ / RTC_NANOS_PER_SECOND).
  destruct (Z.ltb_spec 0 count); split_and!; try done.
  intros Hn. exfalso. apply Hn. enough (count = 0) as -> by done.
  assert (0 <= count); [|lia]. apply Z.div_pos; [|done].
  pose proof (rtc_rate_bound r). unfold sat_add, sat_mul, sat_sub. pow2.
  assert (0 <= Z.max 0 (now - VirtualRtc.last_host_ns r) * VirtualRtc.rate_hz r)
    by (apply Z.mul_nonneg_nonneg; lia). lia.
Qed.

(** ** Witnesses *)

Lemma rtc_ticks_exact_witness :
  snd (VirtualRtc.poll (VirtualRtc.write (VirtualRtc.new 5) 1000 0x0B 0x42)
    ([900000; 2000000] ++ [10001000])) = 10.
Proof.
  rewrite (rtc_ticks_exact (VirtualRtc.new 5) 1000 0x42 [900000; 2000000] 10001000);
    [vm_compute; reflexivity|by vm_compute..| |lia|by vm_compute].
  repeat constructor; by vm_compute.
Defined.

Lemma reg_c_handshake_witness :
  let '(r1, n) := VirtualRtc.take_pending_irqs (VirtualRtc.write (VirtualRtc.new 5) 1000 0x0B 0x42) 3001000 in
  n = 3 /\ Z.land (VirtualRtc.reg_c r1) 0xC0 = 0xC0.
Proof.
  pose proof (reg_c_handshake (VirtualRtc.write (VirtualRtc.new 5) 1000 0x0B 0x42) 3001000
    ltac:(vm_compute; discriminate)) as H.
  destruct (VirtualRtc.take_pending_irqs _ _) as [r1 n] eqn:E.
  assert (n = 3) as Hn by (vm_compute in E; by injection E as _ <-).
  split; [exact Hn|]. destruct H as (_ & _ & _ & H & _). apply H. rewrite Hn. discriminate.
Defined.
