(* ===== verification/VDma.v ===== *)
(** The virtual pair of 8237 DMA controllers
    (kernel/src/kernel/dos/machine/vdma.rs).

    [DmaProg] and [DmaChannel] are a channel's captured programming,
    [Dma8237] the pair of controllers; [io_write] and [io_read] are the
    guest's port accesses.  The machine argument of the Rust methods is
    unused there and dropped here. *)

From Stdlib Require Import ZArith Lia Bool.
From stdpp Require Import base option list numbers sets.
From S2P Require Import Prelude.

Record DmaProg := mkProg { addr : Z; count : Z; page : Z; mode : Z }.
Definition DmaProg_default : DmaProg := mkProg 0 0 0 0.

Record DmaChannel := mkChannel { prog : DmaProg; masked : bool; armed : bool }.

#[global] Instance DmaProg_inhabited : Inhabited DmaProg := populate DmaProg_default.
#[global] Instance DmaChannel_inhabited : Inhabited DmaChannel :=
  populate (mkChannel DmaProg_default false false).

(** The buffer address and byte length a channel's programming denotes. *)
Definition chan_gpa_len (p : DmaProg) (is16 : bool) : Z * Z :=
  if is16 then ((page p ≪ 16) .| (addr p ≪ 1), (count p + 1) * 2)
  else ((page p ≪ 16) .| addr p, count p + 1).

Definition DMA_PAGE_PORT : list (Z * nat) :=
  [(0x87, 0%nat); (0x83, 1%nat); (0x81, 2%nat); (0x82, 3%nat);
   (0x8B, 5%nat); (0x89, 6%nat); (0x8A, 7%nat)].

(** [DMA_PAGE_PORT.iter().find(|&&(p, _)| p == port)]: the channel. *)
Fixpoint find_page (l : list (Z * nat)) (port : Z) : option nat :=
  match l with
  | [] => None
  | (p, chan) :: l => if p =? port then Some chan else find_page l port
  end.

Module Dma8237.

Record Dma8237 := mk {
  ch : list DmaChannel;
  ff_lo : bool;
  ff_hi : bool;
  count_gen : list Z;
  read_latch : Z
}.

Definition new : Dma8237 :=
  mk (replicate 8 (mkChannel DmaProg_default true false)) false false (replicate 8 0) 0.

Definition owns (port : Z) : bool :=
  ((0x00 <=? port) && (port <=? 0x0F)) || ((0xC0 <=? port) && (port <=? 0xDF))
  || existsb (fun e => fst e =? port) DMA_PAGE_PORT.

Definition set_ch (d : Dma8237) (c : list DmaChannel) : Dma8237 :=
  mk c (ff_lo d) (ff_hi d) (count_gen d) (read_latch d).
Definition ff (d : Dma8237) (hi : bool) : bool := if hi then ff_hi d else ff_lo d.
Definition set_ff (d : Dma8237) (hi b : bool) : Dma8237 :=
  if hi then mk (ch d) (ff_lo d) b (count_gen d) (read_latch d)
  else mk (ch d) b (ff_hi d) (count_gen d) (read_latch d).

Definition with_prog (c : DmaChannel) (p : DmaProg) : DmaChannel := mkChannel p (masked c) (armed c).
Definition with_masked (b : bool) (c : DmaChannel) : DmaChannel := mkChannel (prog c) b (armed c).

(** One byte of a 16-bit register, through the flip-flop. *)
Definition load_half (flip : bool) (r val : Z) : Z :=
  if flip then (r .& 0x00FF) .| (val ≪ 8) else (r .& 0xFF00) .| val.

(** Registers 0..7: the address and count of the four channels. *)
Definition write_addr_count (d : Dma8237) (hi : bool) (chan_base : nat) (reg val : Z) : Dma8237 :=
  let chan := (chan_base + Z.to_nat (reg ≫ 1))%nat in
  let is_count := (reg .& 1) =? 1 in
  let flip := ff d hi in
  let d := set_ff d hi (negb flip) in
  let c := ch d !!! chan in
  let p := prog c in
  let p := if is_count then mkProg (addr p) (load_half flip (count p) val) (page p) (mode p)
           else mkProg (load_half flip (addr p) val) (count p) (page p) (mode p) in
  let c := mkChannel p (masked c) (if is_count then false else armed c) in
  let d := set_ch d (<[chan := c]> (ch d)) in
  if is_count && flip
  then mk (ch d) (ff_lo d) (ff_hi d)
          (<[chan := u32 (count_gen d !!! chan + 1)]> (count_gen d)) (read_latch d)
  else d.

(** [for c in chan_base..chan_base + 4 { ch[c].masked = f (c - chan_base) }] *)
Definition mask_four (d : Dma8237) (chan_base : nat) (f : nat -> bool) : Dma8237 :=
  set_ch d (foldl (fun l i => alter (with_masked (f i)) (chan_base + i)%nat l) (ch d) (seq 0 4)).

Definition io_write (d : Dma8237) (port val : Z) : Dma8237 :=
  match find_page DMA_PAGE_PORT port with
  | Some chan =>
      set_ch d (alter (fun c => with_prog c (mkProg (addr (prog c)) (count (prog c)) val (mode (prog c))))
                  chan (ch d))
  | None =>
      let hi := 0xC0 <=? port in
      let reg := if hi then (port - 0xC0) ≫ 1 else port in
      let chan_base := if hi then 4%nat else 0%nat in
      if (0 <=? reg) && (reg <=? 0x07) then write_addr_count d hi chan_base reg val
      else if reg =? 0x0B then
        let chan := (chan_base + Z.to_nat (val .& 0x03))%nat in
        set_ch d (alter (fun c => with_prog c (mkProg (addr (prog c)) (count (prog c)) (page (prog c)) val))
                    chan (ch d))
      else if reg =? 0x0A then
        let chan := (chan_base + Z.to_nat (val .& 0x03))%nat in
        set_ch d (alter (with_masked (negb ((val .& 0x04) =? 0))) chan (ch d))
      else if reg =? 0x0C then set_ff d hi false
      else if reg =? 0x0D then mask_four (set_ff d hi false) chan_base (fun _ => true)
      else if reg =? 0x0E then mask_four d chan_base (fun _ => false)
      else if reg =? 0x0F then mask_four d chan_base (fun i => negb ((val .& bit (Z.of_nat i)) =? 0))
      else d
  end.

Definition io_read (d : Dma8237) (port : Z) : Dma8237 * Z :=
  match find_page DMA_PAGE_PORT port with
  | Some chan => (d, page (prog (ch d !!! chan)))
  | None =>
      let hi := 0xC0 <=? port in
      let reg := if hi then (port - 0xC0) ≫ 1 else port in
      let chan_base := if hi then 4%nat else 0%nat in
      if (0 <=? reg) && (reg <=? 0x07) then
        let chan := (chan_base + Z.to_nat (reg ≫ 1))%nat in
        let is_count := (reg .& 1) =? 1 in
        let p := prog (ch d !!! chan) in
        let v := if is_count then count p else addr p in
        let byte := if negb (ff d hi) then u8 v else u8 (v ≫ 8) in
        (set_ff d hi (negb (ff d hi)), byte)
      else if reg =? 0x08 then (d, 0x00)
      else (d, 0xFF)
  end.

(** The registers have their widths and the arrays their lengths. *)
Definition wf_prog (p : DmaProg) : Prop :=
  fits 16 (addr p) /\ fits 16 (count p) /\ fits 8 (page p) /\ fits 8 (mode p).
Definition wf (d : Dma8237) : Prop :=
  length (ch d) = 8%nat /\ length (count_gen d) = 8%nat /\
  Forall (fun c => wf_prog (prog c)) (ch d).

(** The ports of a channel's address and count registers, of its controller's
    flip-flop reset and of its page register. *)
Definition addr_port (chan : nat) : Z :=
  if (chan <? 4)%nat then 2 * Z.of_nat chan else 0xC0 + 4 * (Z.of_nat chan - 4).
Definition count_port (chan : nat) : Z :=
  if (chan <? 4)%nat then 2 * Z.of_nat chan + 1 else 0xC0 + 4 * (Z.of_nat chan - 4) + 2.
Definition clear_ff_port (chan : nat) : Z := if (chan <? 4)%nat then 0x0C else 0xD8.
Definition page_port (chan : nat) : Z :=
  match chan with
  | 0%nat => 0x87 | 1%nat => 0x83 | 2%nat => 0x81 | 3%nat => 0x82
  | 5%nat => 0x8B | 6%nat => 0x89 | _ => 0x8A
  end.

(** A driver programming a transfer: reset the flip-flop, load the address
    and the count low byte first, then the page. *)
Definition program (d : Dma8237) (chan : nat) (a n pg : Z) : Dma8237 :=
  let d := io_write d (clear_ff_port chan) 0 in
  let d := io_write d (addr_port chan) (u8 a) in
  let d := io_write d (addr_port chan) (u8 (a ≫ 8)) in
  let d := io_write d (count_port chan) (u8 n) in
  let d := io_write d (count_port chan) (u8 (n ≫ 8)) in
  io_write d (page_port chan) pg.


(** ** Lemmas *)

(** Write of one byte of a channel's count ([is_count]) or address register,
    with the channel given directly. *)
Definition load_reg (d : Dma8237) (chan : nat) (is_count : bool) (val : Z) : Dma8237 :=
  let hi := (4 <=? chan)%nat in
  let flip := ff d hi in
  let d := set_ff d hi (negb flip) in
  let c := ch d !!! chan in
  let p := prog c in
  let p := if is_count then mkProg (addr p) (load_half flip (count p) val) (page p) (mode p)
           else mkProg (load_half flip (addr p) val) (count p) (page p) (mode p) in
  let c := mkChannel p (masked c) (if is_count then false else armed c) in
  let d := set_ch d (<[chan := c]> (ch d)) in
  if is_count && flip
  then mk (ch d) (ff_lo d) (ff_hi d)
          (<[chan := u32 (count_gen d !!! chan + 1)]> (count_gen d)) (read_latch d)
  else d.

(** Project the records, leaving the array operations alone. *)
Ltac dma_simpl :=
  cbv beta iota zeta delta [load_reg set_ff ff set_ch with_prog with_masked ch ff_lo ff_hi count_gen
    read_latch prog masked armed addr count page mode andb negb] in *.

Ltac each_channel chan :=
  do 8 (destruct chan as [|chan]; [reflexivity || done|]); exfalso; lia.

Lemma io_write_addr d chan v :
  (chan < 8)%nat -> io_write d (addr_port chan) v = load_reg d chan false v.
Proof. intros H. each_channel chan. Qed.

Lemma io_write_count d chan v :
  (chan < 8)%nat -> io_write d (count_port chan) v = load_reg d chan true v.
Proof. intros H. each_channel chan. Qed.

Lemma io_write_clear_ff d chan v :
  (chan < 8)%nat -> io_write d (clear_ff_port chan) v = set_ff d (4 <=? chan)%nat false.
Proof. intros H. each_channel chan. Qed.

Lemma io_write_page d chan v :
  (chan < 8)%nat -> chan <> 4%nat ->
  io_write d (page_port chan) v =
  set_ch d (alter (fun c => with_prog c (mkProg (addr (prog c)) (count (prog c)) v (mode (prog c))))
              chan (ch d)).
Proof. intros H H4. each_channel chan. Qed.

(** Low byte, then high byte. *)
Lemma load_half_pair r v :
  fits 16 v -> load_half true (load_half false r (u8 v)) (u8 (v ≫ 8)) = v.
Proof.
  intros Hv. unfold load_half. apply Z.bits_inj'; intros i Hi.
  rewrite Z.lor_spec, Z.land_spec, Z.lor_spec, Z.land_spec, Z.shiftl_spec by done.
  change 255 with (Z.ones 8). change 65280 with (Z.ones 8 ≪ 8).
  unfold wrap. rewrite Z.shiftl_spec by done.
  destruct (Z.lt_ge_cases i 8).
  - rewrite (Z.ones_spec_low 8 i), !(Z.testbit_neg_r _ (i - 8)) by lia.
    rewrite Z.mod_pow2_bits_low by lia.
    rewrite andb_false_r, andb_true_r, orb_false_r. done.
  - rewrite (Z.ones_spec_high 8 i), andb_false_r by lia. simpl.
    destruct (Z.lt_ge_cases i 16).
    + rewrite Z.mod_pow2_bits_low, Z.shiftr_spec by lia. f_equal; lia.
    + rewrite Z.mod_pow2_bits_high by lia. by rewrite (fits_high 16 v) by (done || lia).
Qed.

Lemma ff_set_ff d hi b : ff (set_ff d hi b) hi = b.
Proof. by destruct hi. Qed.
Lemma set_ff_twice d hi b b' : set_ff (set_ff d hi b) hi b' = set_ff d hi b'.
Proof. by destruct hi. Qed.
Lemma ch_set_ff d hi b : ch (set_ff d hi b) = ch d.
Proof. by destruct hi. Qed.
Lemma gen_set_ff d hi b : count_gen (set_ff d hi b) = count_gen d.
Proof. by destruct hi. Qed.

(** A full 16-bit load through a cleared flip-flop. *)
Lemma load_pair d chan is_count v :
  wf d -> (chan < 8)%nat -> ff d (4 <=? chan)%nat = false -> fits 16 v ->
  let c := ch d !!! chan in
  let p := prog c in
  load_reg (load_reg d chan is_count (u8 v)) chan is_count (u8 (v ≫ 8)) =
  if is_count
  then mk (<[chan := mkChannel (mkProg (addr p) v (page p) (mode p)) (masked c) false]> (ch d))
          (ff_lo d) (ff_hi d) (<[chan := u32 (count_gen d !!! chan + 1)]> (count_gen d)) (read_latch d)
  else set_ch d (<[chan := mkChannel (mkProg v (count p) (page p) (mode p)) (masked c) (armed c)]> (ch d)).
Proof.
  intros (Hl & _) Hc Hff Hv. destruct d as [c fl fh g r]. dma_simpl.
  destruct (4 <=? chan)%nat, is_count; subst; dma_simpl;
    rewrite list_lookup_total_insert_eq, list_insert_insert_eq by lia; dma_simpl;
    by rewrite load_half_pair.
Qed.

Lemma wf_set_ff d hi b : wf d -> wf (set_ff d hi b).
Proof. by destruct hi. Qed.

Lemma wf_insert d c chan :
  wf d -> wf_prog (prog c) -> wf (set_ch d (<[chan := c]> (ch d))).
Proof.
  intros (Hl & Hg & Hf) Hc. split_and!; cbn; [by rewrite length_insert|done|].
  by apply Forall_insert.
Qed.

Lemma wf_lookup d chan : wf d -> (chan < 8)%nat -> wf_prog (prog (ch d !!! chan)).
Proof.
  intros (Hl & _ & Hf) Hc. eapply (Forall_lookup_1 _ _ chan _ Hf).
  apply list_lookup_lookup_total_lt. lia.
Qed.

(** What the six writes of [program] leave behind. *)
Lemma program_eq d chan a n pg :
  wf d -> (chan < 8)%nat -> chan <> 4%nat -> fits 16 a -> fits 16 n ->
  let c := ch d !!! chan in
  let d0 := set_ff d (4 <=? chan)%nat false in
  program d chan a n pg =
  mk (<[chan := mkChannel (mkProg a n pg (mode (prog c))) (masked c) false]> (ch d))
     (ff_lo d0) (ff_hi d0) (<[chan := u32 (count_gen d !!! chan + 1)]> (count_gen d)) (read_latch d).
Proof.
  intros Hwf Hc H4 Ha Hn. cbv zeta. unfold program.
  rewrite io_write_clear_ff, !io_write_addr, !io_write_count, io_write_page by done.
  set (d0 := set_ff d _ _).
  assert (wf d0) as Hwf0 by by apply wf_set_ff.
  rewrite (load_pair d0 chan false a) by (done || apply ff_set_ff).
  rewrite (load_pair _ chan true n).
  - subst d0. destruct Hwf as (Hl & _), d as [c fl fh g r], (4 <=? chan)%nat; dma_simpl;
      rewrite alter_total, !list_lookup_total_insert_eq, !list_insert_insert_eq
        by (rewrite ?length_insert; lia);
      by dma_simpl.
  - apply wf_insert; [done|]. destruct (wf_lookup _ _ Hwf0 Hc) as (?&?&?&?). by split_and!.
  - done.
  - pose proof (ff_set_ff d (4 <=? chan)%nat false). subst d0. by destruct (4 <=? chan)%nat.
  - done.
Qed.

(** Two reads of a register through a cleared flip-flop. *)
Definition read_pair (d : Dma8237) (chan : nat) (port : Z) : Dma8237 * Z :=
  let d := io_write d (clear_ff_port chan) 0 in
  let '(d, lo) := io_read d port in
  let '(d, hi) := io_read d port in
  (d, (hi ≪ 8) .| lo).

Lemma read_pair_eq d chan (is_count : bool) :
  wf d -> (chan < 8)%nat ->
  read_pair d chan (if is_count then count_port chan else addr_port chan) =
  (set_ff d (4 <=? chan)%nat false,
   if is_count then count (prog (ch d !!! chan)) else addr (prog (ch d !!! chan))).
Proof.
  intros Hwf Hc. destruct (wf_lookup d chan Hwf Hc) as (Ha & Hn & _).
  assert (forall v, fits 16 v -> (u8 (v ≫ 8) ≪ 8) .| u8 v = v) as Hjoin.
  { intros v Hv. rewrite lor_shiftl by (lia || by apply wrap_fits).
    rewrite Z.shiftr_div_pow2 by lia. pow2.
    rewrite (Z.mod_small (v / 256)) by (split; [apply Z.div_pos|apply Z.div_lt_upper_bound]; lia).
    pose proof (Z.div_mod v 256). lia. }
  transitivity (set_ff d (4 <=? chan)%nat false,
    let v := if is_count then count (prog (ch d !!! chan)) else addr (prog (ch d !!! chan)) in
    (u8 (v ≫ 8) ≪ 8) .| u8 v).
  - destruct d. destruct is_count; each_channel chan.
  - destruct is_count; cbv zeta; by rewrite Hjoin.
Qed.

(** [io_write] keeps every register within its width. *)
Lemma load_half_fits flip r v : fits 16 r -> fits 8 v -> fits 16 (load_half flip r v).
Proof.
  intros Hr Hv. assert (fits 16 v) by (pow2; lia). unfold load_half.
  destruct flip; solve_fits. rewrite Z.shiftl_mul_pow2 by lia. pow2; lia.
Qed.

Lemma wf_alter d f chan :
  wf d -> (forall c, wf_prog (prog c) -> wf_prog (prog (f c))) ->
  wf (set_ch d (alter f chan (ch d))).
Proof.
  intros (Hl & Hg & Hf) H. split_and!; cbn; [by rewrite length_alter|done|].
  apply Forall_alter; [done|]. intros c ? Hc. by apply H.
Qed.

Lemma wf_mask_four d b f : wf d -> wf (mask_four d b f).
Proof.
  intros Hd. unfold mask_four. generalize (seq 0 4) as js.
  intros js. revert d Hd. induction js as [|i js IH]; intros d Hd; cbn [foldl]; [by destruct d|].
  apply (IH (set_ch d _)), wf_alter; [done|]. intros c Hc. exact Hc.
Qed.

Lemma wf_bump d chan g :
  wf d -> wf (mk (ch d) (ff_lo d) (ff_hi d) (<[chan := g]> (count_gen d)) (read_latch d)).
Proof. intros (? & ? & ?). split_and!; cbn; [done|by rewrite length_insert|done]. Qed.

Lemma wf_write_addr_count d hi base reg val :
  wf d -> fits 8 val -> (base + Z.to_nat (reg ≫ 1) < 8)%nat ->
  wf (write_addr_count d hi base reg val).
Proof.
  intros Hd Hv Hc. unfold write_addr_count. set (chan := (base + _)%nat) in *.
  apply (wf_set_ff _ hi (negb (ff d hi))) in Hd. set (d' := set_ff d hi _) in *. cbv zeta.
  destruct (wf_lookup d' chan Hd Hc) as (Ha & Hn & Hpg & Hm).
  destruct ((reg .& 1) =? 1), (ff d hi); cbn [andb]; try apply wf_bump;
    apply wf_insert; try done; split_and!; cbn [prog addr count page mode]; try done;
    by apply load_half_fits.
Qed.

Lemma wf_io_write d port val : wf d -> fits 8 val -> wf (io_write d port val).
Proof.
  intros Hd Hv. unfold io_write. destruct (find_page _ _) as [chan|].
  { apply wf_alter; [done|]. intros c (?&?&?&?). by split_and!. }
  set (hi := 0xC0 <=? port). set (reg := if hi then _ else _). set (base := if hi then _ else _).
  destruct ((0 <=? reg) && (reg <=? 7)) eqn:Hr.
  { apply wf_write_addr_count; [done..|].
    apply andb_prop in Hr as [H0%Z.leb_le H1%Z.leb_le].
    rewrite Z.shiftr_div_pow2 by lia. change (2 ^ 1) with 2.
    pose proof (Z.div_lt_upper_bound reg 2 4). pose proof (Z.div_pos reg 2).
    subst base; destruct hi; lia. }
  repeat case_match; try done; try (by apply wf_set_ff);
    try (apply wf_mask_four; try done; by apply wf_set_ff).
  - apply wf_alter; [done|]. intros c (?&?&?&?). by split_and!.
  - apply wf_alter; [done|]. intros c Hc. exact Hc.
Qed.

End Dma8237.

Import Dma8237.

(** The buffer a driver means: an 8-bit channel takes a byte address, a
    16-bit one a word address whose bit 16 stays in the page register too. *)
Definition reg_addr (chan : nat) (gpa : Z) : Z :=
  if (4 <=? chan)%nat then u16 (gpa ≫ 1) else u16 gpa.
Definition reg_count (chan : nat) (len : Z) : Z :=
  if (4 <=? chan)%nat then len / 2 - 1 else len - 1.

(** A transfer the channel can express: below 16 MB, at most 64K units. *)
Definition expressible (chan : nat) (gpa len : Z) : Prop :=
  0 <= gpa < 2 ^ 24 /\
  if (4 <=? chan)%nat
  then Z.Even gpa /\ Z.Even len /\ 2 <= len <= 2 ^ 17
  else 1 <= len <= 2 ^ 16.

Lemma expressible_fits chan gpa len :
  expressible chan gpa len ->
  fits 16 (reg_addr chan gpa) /\ fits 16 (reg_count chan len) /\ fits 8 (gpa ≫ 16).
Proof.
  intros [Hg He]. unfold reg_addr, reg_count. split_and!.
  - destruct (4 <=? chan)%nat; solve_fits.
  - destruct (4 <=? chan)%nat; pow2; [|lia].
    destruct He as (_ & [k ->] & Hk). rewrite (Z.mul_comm 2 k), Z.div_mul by lia. lia.
  - rewrite Z.shiftr_div_pow2 by lia. pow2.
    split; [apply Z.div_pos; lia|apply Z.div_lt_upper_bound; lia].
Qed.

(** The page and address registers decode back to the buffer address; for a
    16-bit channel bit 16 comes from both and they agree. *)
Lemma gpa_decode8 gpa : 0 <= gpa -> ((gpa ≫ 16) ≪ 16) .| u16 gpa = gpa.
Proof.
  intros H. rewrite lor_shiftl by (lia || by apply wrap_fits).
  rewrite Z.shiftr_div_pow2 by lia. unfold wrap. pose proof (Z.div_mod gpa (2 ^ 16)). lia.
Qed.

Lemma gpa_decode16 gpa :
  0 <= gpa -> Z.Even gpa -> ((gpa ≫ 16) ≪ 16) .| (u16 (gpa ≫ 1) ≪ 1) = gpa.
Proof.
  intros H [k ->]. apply Z.bits_inj'; intros i Hi.
  rewrite Z.lor_spec, !Z.shiftl_spec by done. unfold wrap.
  assert (Z.testbit (2 * k) 0 = false) as H0 by (rewrite Z.testbit_even_0; done).
  destruct (Z.eq_dec i 0) as [->|]; [by rewrite H0, !Z.testbit_neg_r by lia|].
  destruct (Z.lt_ge_cases i 17).
  - rewrite Z.mod_pow2_bits_low, (Z.shiftr_spec _ 1) by lia.
    replace (i - 1 + 1) with i by lia. destruct (Z.eq_dec i 16) as [->|].
    + rewrite Z.shiftr_spec by lia. by rewrite orb_diag.
    + by rewrite (Z.testbit_neg_r _ (i - 16)) by lia.
  - rewrite Z.mod_pow2_bits_high, orb_false_r, Z.shiftr_spec by lia. f_equal; lia.
Qed.

(** Programming a transfer of [len] bytes at DOS-physical [gpa] on any of
    the seven usable channels, from any prior register and flip-flop state,
    makes [chan_gpa_len] decode exactly that buffer; the channel is un-armed,
    its re-arm generation moves by one, its mode and mask bits persist, and
    no other channel changes. *)
Theorem program_decodes d chan gpa len :
  Dma8237.wf d -> (chan < 8)%nat -> chan <> 4%nat -> expressible chan gpa len ->
  let d' := program d chan (reg_addr chan gpa) (reg_count chan len) (gpa ≫ 16) in
  let c := ch d !!! chan in
  let c' := ch d' !!! chan in
  chan_gpa_len (prog c') (4 <=? chan)%nat = (gpa, len) /\
  armed c' = false /\ masked c' = masked c /\ mode (prog c') = mode (prog c) /\
  count_gen d' !!! chan = u32 (count_gen d !!! chan + 1) /\
  (forall j, j <> chan -> ch d' !!! j = ch d !!! j /\ count_gen d' !!! j = count_gen d !!! j).
Proof.
  intros Hwf Hc H4 He. destruct (expressible_fits _ _ _ He) as (Ha & Hn & _).
  destruct He as [Hg He]. cbv zeta. rewrite program_eq by done.
  destruct Hwf as (Hl & Hgl & _). cbn [ch count_gen].
  rewrite !list_lookup_total_insert_eq by lia. cbn [prog armed masked mode].
  split_and!; try done.
  - unfold chan_gpa_len, reg_addr, reg_count; cbn [page addr count].
    destruct (4 <=? chan)%nat.
    + destruct He as (Heg & [k ->] & Hk). rewrite gpa_decode16 by (done || lia).
      f_equal. rewrite (Z.mul_comm 2 k), Z.div_mul by lia. lia.
    + rewrite gpa_decode8 by lia. f_equal. lia.
  - intros j Hj. by rewrite !list_lookup_total_insert_ne by congruence.
Qed.

Lemma program_decodes_witness :
  let d := io_write (io_write Dma8237.new 0x0A 0x01) 0x02 0x77 in
  chan_gpa_len (prog (ch (program d 1 (reg_addr 1 0x12345) (reg_count 1 0x200) 1) !!! 1%nat)) false
    = (0x12345, 0x200) /\
  chan_gpa_len (prog (ch (program d 5 (reg_addr 5 0x3FFFE) (reg_count 5 0x20000) 3) !!! 5%nat)) true
    = (0x3FFFE, 0x20000).
Proof.
  cbv zeta. set (d := io_write _ _ _).
  assert (Dma8237.wf d) as Hd.
  { split_and!; [reflexivity..|]. repeat constructor; vm_compute; congruence. }
  split.
  - apply (program_decodes d 1 0x12345 0x200 Hd); [lia|lia|].
    split; cbn; lia.
  - apply (program_decodes d 5 0x3FFFE 0x20000 Hd); [lia|lia|].
    split; [lia|]. cbn. split_and!; [exists 0x1FFFF|exists 0x10000|..]; lia.
Defined.

(** Reading a channel's address or count register back through the
    byte-pointer flip-flop returns the programmed 16-bit value on every
    well-formed controller state, whatever was read or written before, and
    the read pair leaves every register unchanged with the flip-flop
    clear. *)
Theorem read_back d chan (is_count : bool) :
  Dma8237.wf d -> (chan < 8)%nat ->
  read_pair d chan (if is_count then count_port chan else addr_port chan) =
  (set_ff d (4 <=? chan)%nat false,
   if is_count then count (prog (ch d !!! chan)) else addr (prog (ch d !!! chan))).
Proof. apply read_pair_eq. Qed.

Lemma read_back_witness :
  read_pair (program Dma8237.new 3 0xBEEF 0x1234 7) 3 (count_port 3)
    = (program Dma8237.new 3 0xBEEF 0x1234 7, 0x1234).
Proof.
  rewrite (read_back _ 3 true).
  - reflexivity.
  - split_and!; [reflexivity..|]. repeat constructor; vm_compute; congruence.
  - lia.
Defined.

(** A guest port write keeps every register of every channel within its
    width and both arrays at eight channels, so no write sequence can make
    the decoded buffer leave the 24-bit bus or a channel index go out of
    range. *)
Theorem io_write_wf d port val :
  Dma8237.wf d -> fits 8 val -> Dma8237.wf (io_write d port val).
Proof. intros. by apply wf_io_write. Qed.

Lemma io_write_wf_witness : Dma8237.wf (io_write (io_write Dma8237.new 0xC4 0xAA) 0x0F 0x05).
Proof.
  apply io_write_wf; [apply io_write_wf|]; [|by vm_compute..].
  split_and!; [reflexivity..|]. repeat constructor; vm_compute; congruence.
Defined.
