(* ===== verification/VKbd.v ===== *)
(** The virtual PS/2 keyboard controller
    (kernel/src/kernel/dos/machine/vkbd.rs).

    [VirtualKeyboard] is the ring of queued scancodes with the 8042's output
    buffer and pacing clock.  [contents] reads the ring as a queue; the
    refinement lemmas say what each operation does to that queue. *)

From Stdlib Require Import ZArith Lia Bool.
From stdpp Require Import base option list numbers relations.
From S2P Require Import Prelude.

Definition KBD_BUF_SIZE : nat := 32.

(** One byte surfaces per millisecond. *)
Definition SURFACE_NANOS : Z := 1000000.

Module VirtualKeyboard.

Record VirtualKeyboard := mk {
  buffer : list Z;
  head : nat;
  tail : nat;
  port60 : Z;
  port61 : Z;
  obf : bool;
  last_surface_ns : Z;
  awaiting_cmd_param : bool
}.

Definition new : VirtualKeyboard :=
  mk (replicate KBD_BUF_SIZE 0) 0 0 0 0 false 0 false.

Definition set_head (k : VirtualKeyboard) (h : nat) : VirtualKeyboard :=
  mk (buffer k) h (tail k) (port60 k) (port61 k) (obf k) (last_surface_ns k) (awaiting_cmd_param k).
Definition set_port61 (k : VirtualKeyboard) (v : Z) : VirtualKeyboard :=
  mk (buffer k) (head k) (tail k) (port60 k) v (obf k) (last_surface_ns k) (awaiting_cmd_param k).
Definition set_awaiting (k : VirtualKeyboard) (b : bool) : VirtualKeyboard :=
  mk (buffer k) (head k) (tail k) (port60 k) (port61 k) (obf k) (last_surface_ns k) b.

Definition queue_scancode (k : VirtualKeyboard) (scancode : Z) : VirtualKeyboard :=
  let next := ((tail k + 1) mod KBD_BUF_SIZE)%nat in
  if decide (next = head k) then k
  else mk (<[tail k := scancode]> (buffer k)) (head k) next
          (port60 k) (port61 k) (obf k) (last_surface_ns k) (awaiting_cmd_param k).

Definition push (k : VirtualKeyboard) (scancode : Z) : VirtualKeyboard := queue_scancode k scancode.

Definition depth (k : VirtualKeyboard) : nat :=
  ((tail k + KBD_BUF_SIZE - head k) mod KBD_BUF_SIZE)%nat.

Definition try_surface (k : VirtualKeyboard) (now_ns : Z) : VirtualKeyboard * bool :=
  if obf k || bool_decide (head k = tail k)
     || (sat_sub now_ns (last_surface_ns k) <? SURFACE_NANOS)
  then (k, false)
  else
    let sc := buffer k !!! head k in
    (mk (buffer k) ((head k + 1) mod KBD_BUF_SIZE)%nat (tail k) sc (port61 k) true now_ns
        (awaiting_cmd_param k), true).

Definition read_port60 (k : VirtualKeyboard) : VirtualKeyboard * Z :=
  (mk (buffer k) (head k) (tail k) (port60 k) (port61 k) false (last_surface_ns k)
      (awaiting_cmd_param k), port60 k).

Definition has_data (k : VirtualKeyboard) : bool := obf k.
Definition has_buffered (k : VirtualKeyboard) : bool := negb (bool_decide (head k = tail k)).

Definition read_port61 (k : VirtualKeyboard) : VirtualKeyboard * Z :=
  let k := set_port61 k (Z.lxor (port61 k) 0x10) in (k, port61 k).
Definition write_port61 (k : VirtualKeyboard) (val : Z) : VirtualKeyboard := set_port61 k val.

Definition write_port60 (k : VirtualKeyboard) (val : Z) : VirtualKeyboard :=
  if awaiting_cmd_param k then push (set_awaiting k false) 0xFA
  else if (val =? 0xED) || (val =? 0xF0) || (val =? 0xF3) then push (set_awaiting k true) 0xFA
  else if val =? 0xEE then push k 0xEE
  else if val =? 0xF2 then push (push (push k 0xFA) 0xAB) 0x83
  else if (val =? 0xF4) || (val =? 0xF5) || (val =? 0xF6) || (val =? 0xFE) then push k 0xFA
  else if val =? 0xFF then push (push k 0xFA) 0xAA
  else push k 0xFE.

(** [clear] leaves the ring's storage as it is. *)
Definition clear (k : VirtualKeyboard) : VirtualKeyboard :=
  mk (buffer k) 0 0 0 0 false 0 false.

(** The [while head != tail] loop, with one unit of fuel per turn. *)
Fixpoint pop_loop (fuel : nat) (k : VirtualKeyboard) : VirtualKeyboard * option Z :=
  match fuel with
  | O => (k, None)
  | S fuel =>
      if decide (head k = tail k) then (k, None)
      else
        let sc := buffer k !!! head k in
        let k := set_head k ((head k + 1) mod KBD_BUF_SIZE)%nat in
        if (sc .& 0x80) =? 0 then (k, Some sc) else pop_loop fuel k
  end.
Definition pop_key (k : VirtualKeyboard) : VirtualKeyboard * option Z := pop_loop KBD_BUF_SIZE k.

Fixpoint peek_loop (fuel : nat) (k : VirtualKeyboard) (i : nat) : option Z :=
  match fuel with
  | O => None
  | S fuel =>
      if decide (i = tail k) then None
      else
        let sc := buffer k !!! i in
        if (sc .& 0x80) =? 0 then Some sc else peek_loop fuel k ((i + 1) mod KBD_BUF_SIZE)%nat
  end.
Definition peek_key (k : VirtualKeyboard) : option Z := peek_loop KBD_BUF_SIZE k (head k).

(** ** The queue a ring holds *)

Definition contents (k : VirtualKeyboard) : list Z :=
  map (fun i => buffer k !!! ((head k + i) mod KBD_BUF_SIZE)%nat) (seq 0 (depth k)).

Definition wf (k : VirtualKeyboard) : Prop :=
  length (buffer k) = KBD_BUF_SIZE /\ (head k < KBD_BUF_SIZE)%nat /\ (tail k < KBD_BUF_SIZE)%nat.

(** A key press has bit 7 clear. *)
Definition is_make (sc : Z) : bool := (sc .& 0x80) =? 0.

Lemma wf_new : wf new.
Proof. split_and!; [reflexivity|apply Nat.ltb_lt; reflexivity..]. Qed.

(** Index arithmetic on the ring: [x mod 32] with its quotient named. *)
Ltac ring_mod :=
  unfold wf, KBD_BUF_SIZE in *;
  repeat match goal with
  | |- context [(?a mod 32)%nat] =>
      let q := fresh "q" in let r := fresh "r" in
      pose proof (Nat.div_mod_eq a 32); pose proof (Nat.mod_upper_bound a 32 ltac:(lia));
      set (q := (a / 32)%nat) in *; set (r := (a mod 32)%nat) in *; clearbody q r
  | H : context [(?a mod 32)%nat] |- _ =>
      let q := fresh "q" in let r := fresh "r" in
      pose proof (Nat.div_mod_eq a 32); pose proof (Nat.mod_upper_bound a 32 ltac:(lia));
      set (q := (a / 32)%nat) in *; set (r := (a mod 32)%nat) in *; clearbody q r
  end; lia.

Lemma depth_lt k : (depth k < KBD_BUF_SIZE)%nat.
Proof. unfold depth. apply Nat.mod_upper_bound. by unfold KBD_BUF_SIZE. Qed.

Lemma length_contents k : length (contents k) = depth k.
Proof. unfold contents. by rewrite length_map, length_seq. Qed.

Lemma contents_lookup k i :
  (i < depth k)%nat -> contents k !! i = Some (buffer k !!! ((head k + i) mod KBD_BUF_SIZE)%nat).
Proof.
  intros Hi. unfold contents. rewrite list_lookup_fmap, lookup_seq_lt by done. done.
Qed.

Lemma depth_zero k : wf k -> depth k = 0%nat <-> head k = tail k.
Proof. intros (_ & Hh & Ht). unfold depth. split; intros H; ring_mod. Qed.

Lemma full_depth k :
  wf k -> ((tail k + 1) mod KBD_BUF_SIZE)%nat = head k <-> depth k = (KBD_BUF_SIZE - 1)%nat.
Proof. intros (_ & Hh & Ht). unfold depth. split; intros H; ring_mod. Qed.

(** Queueing appends at the tail, or drops the byte when 31 are waiting. *)
Lemma contents_push k sc :
  wf k ->
  contents (push k sc) =
  if (length (contents k) <? KBD_BUF_SIZE - 1)%nat then contents k ++ [sc] else contents k.
Proof.
  intros Hwf. rewrite length_contents. pose proof (depth_lt k) as Hd. pose proof (full_depth k Hwf) as Hf.
  unfold push, queue_scancode. case_decide as Hnext.
  { rewrite (proj1 Hf Hnext). by rewrite Nat.ltb_irrefl. }
  rewrite (proj2 (Nat.ltb_lt _ _)) by (destruct (decide (depth k = KBD_BUF_SIZE - 1)%nat) as [E|];
    [by apply Hf in E|unfold KBD_BUF_SIZE in *; lia]).
  set (k' := mk _ _ _ _ _ _ _ _).
  assert (depth k' = S (depth k)) as Hd'.
  { destruct Hwf as (_ & Hh & Ht). unfold depth, k' in *; cbn [head tail]. ring_mod. }
  apply list_eq; intros i. destruct (decide (i < depth k')%nat) as [Hi|Hi].
  - rewrite contents_lookup by done. unfold k'; cbn [buffer head].
    destruct (decide (i = depth k)) as [->|Hne].
    + rewrite lookup_app_r, length_contents, Nat.sub_diag by (rewrite length_contents; lia).
      destruct Hwf as (Hl & Hh & Ht).
      replace ((head k + depth k) mod KBD_BUF_SIZE)%nat with (tail k) by (unfold depth; ring_mod).
      rewrite list_lookup_total_insert_eq by lia. done.
    + rewrite lookup_app_l by (rewrite length_contents; lia).
      rewrite contents_lookup by lia. f_equal. apply list_lookup_total_insert_ne.
      destruct Hwf as (Hl & Hh & Ht). unfold depth in *. ring_mod.
  - rewrite !lookup_ge_None_2; [done| |].
    + rewrite length_app, length_contents; cbn [length]; lia.
    + rewrite length_contents; lia.
Qed.

Lemma wf_push k sc : wf k -> wf (push k sc).
Proof.
  intros (Hl & Hh & Ht). unfold push, queue_scancode. case_decide; [done|].
  split_and!; cbn [buffer head tail]; [by rewrite length_insert|done|].
  apply Nat.mod_upper_bound. by unfold KBD_BUF_SIZE.
Qed.

(** Moving the head by one drops the oldest byte. *)
Lemma contents_advance k k' :
  wf k -> head k <> tail k ->
  buffer k' = buffer k -> tail k' = tail k -> head k' = ((head k + 1) mod KBD_BUF_SIZE)%nat ->
  contents k = buffer k !!! head k :: contents k'.
Proof.
  intros Hwf Hne Hb Ht' Hh'.
  assert (depth k = S (depth k')) as Hd.
  { destruct Hwf as (_ & Hh & Ht). unfold depth. rewrite Ht', Hh'. ring_mod. }
  destruct Hwf as (Hl & Hh & Ht). apply list_eq; intros i.
  destruct (decide (i < depth k)%nat) as [Hi|Hi].
  - rewrite contents_lookup by done. destruct i as [|i]; cbn [lookup list_lookup].
    + rewrite Nat.add_0_r, Nat.mod_small by done. done.
    + rewrite contents_lookup by lia. rewrite Hb, Hh'. do 2 f_equal. ring_mod.
  - rewrite !lookup_ge_None_2; [done| |]; cbn [length]; rewrite ?length_contents; lia.
Qed.

Lemma contents_empty k : wf k -> head k = tail k -> contents k = [].
Proof. intros Hwf H%depth_zero; [|done]. unfold contents. by rewrite H. Qed.

Lemma wf_advance k k' :
  wf k -> buffer k' = buffer k -> tail k' = tail k ->
  head k' = ((head k + 1) mod KBD_BUF_SIZE)%nat -> wf k'.
Proof.
  intros (Hl & Hh & Ht) Hb Ht' Hh'. unfold wf. rewrite Hb, Ht', Hh'. split_and!; [done| |done].
  apply Nat.mod_upper_bound. by unfold KBD_BUF_SIZE.
Qed.

(** ** Scanning for key presses *)

(** The queue after its leading releases and the first press, and that press. *)
Fixpoint pop_make (q : list Z) : list Z * option Z :=
  match q with
  | [] => ([], None)
  | sc :: q => if is_make sc then (q, Some sc) else pop_make q
  end.

Lemma pop_loop_refines fuel k :
  wf k -> (depth k < fuel)%nat ->
  let '(k', r) := pop_loop fuel k in
  wf k' /\ (contents k', r) = pop_make (contents k) /\ obf k' = obf k /\ port60 k' = port60 k.
Proof.
  revert k; induction fuel as [|fuel IH]; intros k Hwf Hf; [lia|]. cbn [pop_loop].
  case_decide as He; [by rewrite contents_empty by done|].
  set (k1 := set_head _ _).
  rewrite (contents_advance k k1) by done. cbn [pop_make]. fold (is_make (buffer k !!! head k)).
  assert (wf k1) as Hwf1 by by eapply wf_advance.
  destruct (is_make _); [done|].
  assert (depth k1 < fuel)%nat as Hf1.
  { pose proof (contents_advance k k1 Hwf He eq_refl eq_refl eq_refl) as Hc.
    apply (f_equal length) in Hc. cbn [length] in Hc. rewrite !length_contents in Hc. lia. }
  specialize (IH k1 Hwf1 Hf1). destruct (pop_loop fuel k1). exact IH.
Qed.

Lemma peek_loop_refines fuel k i :
  wf k -> (i < KBD_BUF_SIZE)%nat -> (depth (set_head k i) < fuel)%nat ->
  peek_loop fuel k i = snd (pop_make (contents (set_head k i))).
Proof.
  revert i; induction fuel as [|fuel IH]; intros i Hwf Hi Hf; [lia|]. cbn [peek_loop].
  assert (wf (set_head k i)) as Hwi by (destruct Hwf as (? & ? & ?); by split_and!).
  case_decide as He; [by rewrite contents_empty by done|].
  pose proof (contents_advance (set_head k i) (set_head k ((i + 1) mod KBD_BUF_SIZE)) Hwi He
    eq_refl eq_refl eq_refl) as Hc.
  rewrite Hc. cbn [pop_make head set_head buffer]. fold (is_make (buffer k !!! i)).
  destruct (is_make _); [done|]. apply IH; [done| |].
  - apply Nat.mod_upper_bound. by unfold KBD_BUF_SIZE.
  - apply (f_equal length) in Hc. cbn [length] in Hc. rewrite !length_contents in Hc. lia.
Qed.

(** ** The bytes a keyboard command answers with *)

Definition responses (k : VirtualKeyboard) (val : Z) : list Z :=
  if awaiting_cmd_param k then [0xFA]
  else if (val =? 0xED) || (val =? 0xF0) || (val =? 0xF3) then [0xFA]
  else if val =? 0xEE then [0xEE]
  else if val =? 0xF2 then [0xFA; 0xAB; 0x83]
  else if (val =? 0xF4) || (val =? 0xF5) || (val =? 0xF6) || (val =? 0xFE) then [0xFA]
  else if val =? 0xFF then [0xFA; 0xAA]
  else [0xFE].

(** The bytes of [bs] a queue holding [n] still takes. *)
Definition admitted (n : nat) (bs : list Z) : list Z := take (KBD_BUF_SIZE - 1 - n) bs.

Lemma contents_pushes bs k :
  wf k -> wf (foldl push k bs) /\
  contents (foldl push k bs) = contents k ++ admitted (length (contents k)) bs /\
  last_surface_ns (foldl push k bs) = last_surface_ns k.
Proof.
  revert k; induction bs as [|b bs IH]; intros k Hwf; cbn [foldl].
  { split_and!; [done| |done]. unfold admitted. by rewrite take_nil, app_nil_r. }
  destruct (IH (push k b) (wf_push k b Hwf)) as (Hw & Hc & Hl). split_and!; [done| |].
  - rewrite Hc, contents_push by done. unfold admitted.
    destruct (Nat.ltb_spec (length (contents k)) (KBD_BUF_SIZE - 1)) as [Hlt|Hge].
    + rewrite length_app, <- app_assoc. f_equal. cbn [length].
      replace (KBD_BUF_SIZE - 1 - length (contents k))%nat
        with (S (KBD_BUF_SIZE - 1 - (length (contents k) + 1)))%nat by lia. done.
    + by replace (KBD_BUF_SIZE - 1 - length (contents k))%nat with 0%nat by lia.
  - rewrite Hl. unfold push, queue_scancode. by case_decide.
Qed.

Lemma write_port60_pushes k val :
  exists b, write_port60 k val = foldl push (set_awaiting k b) (responses k val).
Proof.
  assert (k = set_awaiting k (awaiting_cmd_param k)) as Hk by by destruct k.
  unfold write_port60, responses. destruct (awaiting_cmd_param k).
  { by exists false. }
  destruct (_ || _ || _); [by exists true|].
  exists false. rewrite <- Hk. repeat case_match; done.
Qed.

(** ** The device under a sequence of events *)

Inductive event := Push (sc : Z) | Tick (now : Z) | ReadData | Command (val : Z).

(** The new state, the bytes that entered the queue and the byte that
    surfaced, with its instant. *)
Definition handle (k : VirtualKeyboard) (e : event) : VirtualKeyboard * list Z * list (Z * Z) :=
  match e with
  | Push sc => (push k sc, admitted (length (contents k)) [sc], [])
  | Tick now => let '(k', s) := try_surface k now in
                (k', [], if s then [(now, port60 k')] else [])
  | ReadData => (fst (read_port60 k), [], [])
  | Command val => (write_port60 k val, admitted (length (contents k)) (responses k val), [])
  end.

Fixpoint run (k : VirtualKeyboard) (es : list event) : VirtualKeyboard * list Z * list (Z * Z) :=
  match es with
  | [] => (k, [], [])
  | e :: es =>
      let '(k1, a1, s1) := handle k e in
      let '(k2, a2, s2) := run k1 es in
      (k2, a1 ++ a2, s1 ++ s2)
  end.

(** Each instant at least [SURFACE_NANOS] after the one before. *)
Fixpoint paced (last : Z) (ts : list Z) : Prop :=
  match ts with
  | [] => True
  | t :: ts => last + SURFACE_NANOS <= t /\ paced t ts
  end.

Lemma handle_spec k e :
  wf k ->
  let '(k', a, s) := handle k e in
  wf k' /\ contents k ++ a = map snd s ++ contents k' /\
  (s = [] /\ last_surface_ns k' = last_surface_ns k \/
   exists t b, s = [(t, b)] /\ last_surface_ns k' = t /\ last_surface_ns k + SURFACE_NANOS <= t).
Proof.
  intros Hwf. destruct e as [sc|now| |val]; cbn [handle].
  - destruct (contents_pushes [sc] k Hwf) as (Hw & Hc & Hl). cbn [foldl] in *.
    rewrite Hc. split_and!; auto.
  - unfold try_surface. destruct (obf k || _ || _) eqn:E; [rewrite app_nil_r; by auto|].
    apply orb_false_iff in E as [[_ He%bool_decide_eq_false]%orb_false_iff Ht%Z.ltb_ge].
    set (k' := mk _ _ _ _ _ _ _ _). cbn [map snd port60].
    rewrite app_nil_r, (contents_advance k k') by done. split_and!; [by eapply wf_advance|done|].
    right. do 2 eexists. split; [done|]. split; [done|].
    unfold sat_sub, SURFACE_NANOS in *. lia.
  - rewrite app_nil_r. unfold read_port60; cbn [fst]. by auto.
  - destruct (write_port60_pushes k val) as [b ->].
    destruct (contents_pushes (responses k val) (set_awaiting k b) Hwf) as (Hw & Hc & Hl).
    rewrite Hc. split_and!; auto.
Qed.

Lemma run_spec es k :
  wf k ->
  let '(k', a, s) := run k es in
  wf k' /\ contents k ++ a = map snd s ++ contents k' /\ paced (last_surface_ns k) (map fst s).
Proof.
  revert k; induction es as [|e es IH]; intros k Hwf; cbn [run].
  { cbn. by rewrite app_nil_r. }
  pose proof (handle_spec k e Hwf) as H. destruct (handle k e) as [[k1 a1] s1].
  destruct H as (Hw1 & Hc1 & Hs1). specialize (IH k1 Hw1).
  destruct (run k1 es) as [[k2 a2] s2]. destruct IH as (Hw2 & Hc2 & Hp2).
  split_and!; [done| |].
  - rewrite app_assoc, Hc1, <- app_assoc, Hc2, map_app, app_assoc. done.
  - destruct Hs1 as [[-> Hl]|(t & b & -> & Hl & Ht)]; cbn; rewrite Hl in Hp2; done.
Qed.

End VirtualKeyboard.

(** Normalisation of a raw scancode: the new [e0_pending] flag, and the code
    to queue with whether an E0 prefix goes before it. *)
Definition normalize_scancode (e0_pending : bool) (scancode : Z) : bool * option (bool * Z) :=
  if scancode =? 0xE0 then (true, None)
  else
    let e0 := e0_pending in
    if e0 && ((scancode =? 0x2A) || (scancode =? 0xAA) || (scancode =? 0x36) || (scancode =? 0xB6))
    then (false, None)
    else (false, Some (e0, scancode)).

Import VirtualKeyboard.

(** C24: the keyboard is a lossless FIFO on a paced serial link.  Over any
    sequence of scancode arrivals, clock ticks, data reads and keyboard
    commands, the bytes that surfaced at port 60h followed by those still
    queued are exactly the bytes that were queued before followed by the
    bytes the ring admitted (a byte is refused only when 31 are waiting), in
    order; and any two bytes surface at least a millisecond apart. *)
Theorem kbd_serial_link k es :
  VirtualKeyboard.wf k ->
  let '(k', admitted, surfaced) := run k es in
  contents k ++ admitted = map snd surfaced ++ contents k' /\
  paced (last_surface_ns k) (map fst surfaced) /\ (length (contents k') <= 31)%nat.
Proof.
  intros Hwf. pose proof (run_spec es k Hwf) as H.
  destruct (run k es) as [[k' a] s]. destruct H as (Hw & Hc & Hp). split_and!; [done..|].
  rewrite length_contents. pose proof (depth_lt k'). unfold KBD_BUF_SIZE in *. lia.
Qed.

Lemma kbd_serial_link_witness :
  let es := [Push 0x1E; Push 0x9E; Tick 1500000; Tick 1600000; ReadData; Tick 1700000;
             Tick 2500000; Command 0xFF] in
  run new es = (fst (fst (run new es)), [0x1E; 0x9E; 0xFA; 0xAA],
                [(1500000, 0x1E); (2500000, 0x9E)]) /\
  contents (fst (fst (run new es))) = [0xFA; 0xAA] /\ paced 0 [1500000; 2500000].
Proof.
  intros es. split_and!; [by vm_compute..|].
  exact (proj1 (proj2 (kbd_serial_link new es wf_new))).
Defined.

(** [pop_key] skips every queued release up to the first key press and
    removes exactly that prefix, [peek_key] returns the same press without
    changing anything, and neither touches the 8042's output buffer; both
    loops end within the ring's size. *)
Theorem pop_key_first_press k :
  VirtualKeyboard.wf k ->
  let '(k', r) := pop_key k in
  VirtualKeyboard.wf k' /\ peek_key k = r /\ obf k' = obf k /\ port60 k' = port60 k /\
  match r with
  | Some sc => exists rel, contents k = rel ++ sc :: contents k' /\
                 is_make sc = true /\ Forall (fun b => is_make b = false) rel
  | None => contents k' = [] /\ Forall (fun b => is_make b = false) (contents k)
  end.
Proof.
  intros Hwf. pose proof (pop_loop_refines KBD_BUF_SIZE k Hwf (depth_lt k)) as H.
  unfold pop_key. destruct (pop_loop KBD_BUF_SIZE k) as [k' r]. destruct H as (Hw & Hp & Ho & H60).
  assert (peek_key k = snd (pop_make (contents k))) as Hpk.
  { assert (set_head k (head k) = k) as Hk by by destruct k.
    unfold peek_key. rewrite peek_loop_refines; rewrite ?Hk; [done|done|by destruct Hwf as (_ & ? & _)|apply depth_lt]. }
  rewrite Hpk, <- Hp. split_and!; try done. clear -Hp.
  revert Hp. generalize (contents k') as q', (contents k) as q. intros q' q. revert q' r.
  induction q as [|b q IH]; intros q' r; cbn [pop_make]; [by intros [= -> ->]|].
  destruct (is_make b) eqn:Eb.
  - intros [= -> ->]. by exists [].
  - intros Hp. specialize (IH _ _ Hp). destruct r as [sc|].
    + destruct IH as (rel & -> & Hm & Hf). exists (b :: rel). by auto.
    + destruct IH as [-> Hf]. by auto.
Qed.

Lemma pop_key_first_press_witness :
  let k := foldl push new [0x9E; 0xAA; 0x1F; 0x9F] in
  snd (pop_key k) = Some 0x1F /\ contents (fst (pop_key k)) = [0x9F] /\ peek_key k = Some 0x1F.
Proof.
  assert (VirtualKeyboard.wf (foldl push new [0x9E; 0xAA; 0x1F; 0x9F])) as Hw
    by (apply contents_pushes, wf_new).
  intros k. split_and!; [by vm_compute..|].
  pose proof (pop_key_first_press k Hw) as H. destruct (pop_key k) as [k' r] eqn:E.
  rewrite (proj1 (proj2 H)). apply (f_equal snd) in E. vm_compute in E. done.
Defined.
