(* ===== verification/Pc.v ===== *)
(** The virtual PC's chipset (kernel/src/kernel/dos/machine/mod.rs): the
    devices of VPic, VPit, VRtc and VKbd composed as the port dispatch, the
    timer advance and the interrupt delivery compose them, and the guest's
    virtual interrupt flag.

    [inb] and [outb] are the arms of the port dispatch that belong to these
    devices; they return [None] for a port another device decodes (display,
    sound, DMA, game port), which leaves this state alone.  The Sound
    Blaster appears only through the interrupt line its environment
    declares and the line of the physical card, which the interrupt relay
    reads.  The host's CMOS is a function of the index. *)

From Stdlib Require Import ZArith Lia Bool.
From stdpp Require Import base option list numbers relations.
From S2P Require Import Prelude VPic VPit VRtc VKbd.

Definition IF_FLAG : Z := bit 9.
Definition VIF_FLAG : Z := bit 19.
Definition IOPL_MASK : Z := 3 ≪ 12.
Definition VM_FLAG : Z := bit 17.
Definition VIP_FLAG : Z := bit 20.

Module Speaker.
Record Speaker := mk { divisor : Z; gate : bool; data : bool; phase : Z }.
Definition new : Speaker := mk 0 false false 0.
Definition set_divisor (s : Speaker) (d : Z) : Speaker := mk d (gate s) (data s) (phase s).
Definition set_port61 (s : Speaker) (val : Z) : Speaker :=
  mk (divisor s) (negb ((val .& 0x01) =? 0)) (negb ((val .& 0x02) =? 0)) (phase s).
End Speaker.

Module PcMachine.

Record PcMachine := mk {
  vpit : VirtualPit.VirtualPit;
  vpic : VirtualPic.VirtualPic;
  vrtc : VirtualRtc.VirtualRtc;
  vkbd : VirtualKeyboard.VirtualKeyboard;
  e0_pending : bool;
  sb_irq : Z;            (* sb.blaster.irq *)
  sb_native : option Z;  (* sb.device: the physical card's line *)
  spk : Speaker.Speaker;
  cmos_index : Z
}.

Definition set_vpit (pc : PcMachine) x := mk x (vpic pc) (vrtc pc) (vkbd pc) (e0_pending pc) (sb_irq pc) (sb_native pc) (spk pc) (cmos_index pc).
Definition set_vpic (pc : PcMachine) x := mk (vpit pc) x (vrtc pc) (vkbd pc) (e0_pending pc) (sb_irq pc) (sb_native pc) (spk pc) (cmos_index pc).
Definition set_vrtc (pc : PcMachine) x := mk (vpit pc) (vpic pc) x (vkbd pc) (e0_pending pc) (sb_irq pc) (sb_native pc) (spk pc) (cmos_index pc).
Definition set_vkbd (pc : PcMachine) x := mk (vpit pc) (vpic pc) (vrtc pc) x (e0_pending pc) (sb_irq pc) (sb_native pc) (spk pc) (cmos_index pc).
Definition set_e0 (pc : PcMachine) x := mk (vpit pc) (vpic pc) (vrtc pc) (vkbd pc) x (sb_irq pc) (sb_native pc) (spk pc) (cmos_index pc).
Definition set_spk (pc : PcMachine) x := mk (vpit pc) (vpic pc) (vrtc pc) (vkbd pc) (e0_pending pc) (sb_irq pc) (sb_native pc) x (cmos_index pc).
Definition set_cmos (pc : PcMachine) x := mk (vpit pc) (vpic pc) (vrtc pc) (vkbd pc) (e0_pending pc) (sb_irq pc) (sb_native pc) (spk pc) x.

(** [new_boxed], with the card the thread starts on. *)
Definition new (now_ns : Z) (native : option Z) : PcMachine :=
  mk (VirtualPit.new now_ns) VirtualPic.new (VirtualRtc.new now_ns) VirtualKeyboard.new
     false 7 native Speaker.new 0.

(** Surface the next scancode unless IRQ1 is in service, with its edge. *)
Definition surface (pc : PcMachine) (now_ns : Z) : PcMachine :=
  if negb (VirtualPic.in_service (vpic pc) 1) then
    let '(k, s) := VirtualKeyboard.try_surface (vkbd pc) now_ns in
    let pc := set_vkbd pc k in
    if s then set_vpic pc (VirtualPic.raise (vpic pc) 1) else pc
  else pc.

Section Ports.
Context (host_cmos : Z -> Z).

Definition inb (pc : PcMachine) (now port : Z) : option (PcMachine * Z) :=
  if port =? 0x20 then Some (pc, VirtualPic.master_isr (vpic pc))
  else if port =? 0x21 then Some (pc, VirtualPic.master_imr (vpic pc))
  else if port =? 0xA0 then Some (pc, VirtualPic.slave_isr (vpic pc))
  else if port =? 0xA1 then Some (pc, VirtualPic.slave_imr (vpic pc))
  else if port =? 0x60 then
    let '(k, v) := VirtualKeyboard.read_port60 (vkbd pc) in Some (set_vkbd pc k, v)
  else if port =? 0x61 then
    let '(t, out) := VirtualPit.ch2_output (vpit pc) now in
    let '(k, v) := VirtualKeyboard.read_port61 (vkbd pc) in
    Some (set_vkbd (set_vpit pc t) k, (v .& bnot 8 0x20) .| (if out then 0x20 else 0))
  else if port =? 0x64 then
    let pc := surface pc now in
    Some (pc, if VirtualKeyboard.has_data (vkbd pc) then 1 else 0)
  else if port =? 0x40 then
    let '(t, v) := VirtualPit.read_counter (vpit pc) now 0 in Some (set_vpit pc t, v)
  else if port =? 0x42 then
    let '(t, v) := VirtualPit.read_counter (vpit pc) now 2 in Some (set_vpit pc t, v)
  else if port =? 0x41 then Some (pc, 0)
  else if port =? 0x43 then Some (pc, 0xFF)
  else if port =? 0x70 then Some (pc, cmos_index pc)
  else if port =? 0x71 then
    if VirtualRtc.owns (cmos_index pc) then
      let '(r, v) := VirtualRtc.read (vrtc pc) (cmos_index pc) in Some (set_vrtc pc r, v)
    else Some (pc, host_cmos (cmos_index pc))
  else None.

(** The new state, and the host line to re-arm if the write retired the
    Sound Blaster's interrupt on a thread holding the physical card. *)
Definition outb (pc : PcMachine) (now port val : Z) : option (PcMachine * option Z) :=
  if port =? 0x20 then
    let '(p, retired) := VirtualPic.master_ocw2 (vpic pc) val in
    let rearm := match retired with
                 | Some irq => if irq =? sb_irq pc then sb_native pc else None
                 | None => None
                 end in
    Some (set_vpic pc p, rearm)
  else if port =? 0x21 then Some (set_vpic pc (VirtualPic.set_master_imr (vpic pc) val), None)
  else if port =? 0xA0 then Some (set_vpic pc (fst (VirtualPic.slave_ocw2 (vpic pc) val)), None)
  else if port =? 0xA1 then Some (set_vpic pc (VirtualPic.set_slave_imr (vpic pc) val), None)
  else if port =? 0x60 then Some (set_vkbd pc (VirtualKeyboard.write_port60 (vkbd pc) val), None)
  else if port =? 0x61 then
    let pc := set_vkbd pc (VirtualKeyboard.write_port61 (vkbd pc) val) in
    Some (set_spk pc (Speaker.set_port61 (spk pc) val), None)
  else if port =? 0x64 then Some (pc, None)
  else if port =? 0x43 then Some (set_vpit pc (VirtualPit.write_command (vpit pc) now val), None)
  else if port =? 0x40 then Some (set_vpit pc (VirtualPit.write_counter (vpit pc) now 0 val), None)
  else if port =? 0x42 then
    let pc := set_vpit pc (VirtualPit.write_counter (vpit pc) now 2 val) in
    Some (set_spk pc (Speaker.set_divisor (spk pc) (VirtualPit.ch2_reload (vpit pc))), None)
  else if port =? 0x41 then Some (pc, None)
  else if port =? 0x70 then Some (set_cmos pc (val .& 0x7F), None)
  else if port =? 0x71 then
    if VirtualRtc.owns (cmos_index pc)
    then Some (set_vrtc pc (VirtualRtc.write (vrtc pc) now (cmos_index pc) val), None)
    else Some (pc, None)
  else None.

(** [None] only if the timer's catch-up loop did not end. *)
Definition advance_timers (pc : PcMachine) (now_ns : Z) : option PcMachine :=
  match VirtualPit.take_pending_irqs (vpit pc) now_ns with
  | None => None
  | Some (t, n) =>
      let pc := set_vpit pc t in
      let pc := if 0 <? n then set_vpic pc (VirtualPic.raise (vpic pc) 0) else pc in
      let '(r, n) := VirtualRtc.take_pending_irqs (vrtc pc) now_ns in
      let pc := set_vrtc pc r in
      let pc := if 0 <? n then set_vpic pc (VirtualPic.raise (vpic pc) 8) else pc in
      Some (surface pc now_ns)
  end.

(** A host event.  Mouse packets go to the INT 33h driver and message
    signalled interrupts to the kernel; neither reaches these devices. *)
Inductive Irq := Key (sc : Z) | Mouse (dx dy buttons : Z) | Hw (line : Z) | Msi (id : Z).

Definition queue_irq (pc : PcMachine) (event : Irq) : PcMachine :=
  match event with
  | Key sc =>
      let '(pending, r) := normalize_scancode (e0_pending pc) sc in
      let pc := set_e0 pc pending in
      match r with
      | None => pc
      | Some (e0, sc) =>
          let pc := if e0 then set_vkbd pc (VirtualKeyboard.push (vkbd pc) 0xE0) else pc in
          set_vkbd pc (VirtualKeyboard.push (vkbd pc) sc)
      end
  | Mouse _ _ _ => pc
  | Hw line =>
      match sb_native pc with
      | None => pc
      | Some card_irq =>
          if negb (line =? card_irq) then pc
          else if negb (VirtualPic.is_requested (vpic pc) (sb_irq pc))
          then set_vpic pc (VirtualPic.raise (vpic pc) (sb_irq pc)) else pc
      end
  | Msi _ => pc
  end.

(** The new state and flags, and the vector to deliver. *)
Definition pick_pending_vec (pc : PcMachine) (rflags : Z) : PcMachine * Z * option Z :=
  let vif := negb ((rflags .& VIF_FLAG) =? 0) in
  let candidate := VirtualPic.peek (vpic pc) in
  if negb vif then
    (pc, match candidate with
         | Some _ => rflags .| VIP_FLAG
         | None => rflags .& bnot 64 VIP_FLAG
         end, None)
  else
    match candidate with
    | None => (pc, rflags .& bnot 64 VIP_FLAG, None)
    | Some irq =>
        if (irq =? 1) && negb (VirtualKeyboard.has_data (vkbd pc)) then
          (set_vpic pc (VirtualPic.clear_request (vpic pc) 1), rflags .& bnot 64 VIP_FLAG, None)
        else
          (set_vpic pc (VirtualPic.ack (vpic pc) irq), rflags .& bnot 64 VIP_FLAG,
           Some (if irq <? 8 then 0x08 + irq else 0x70 + (irq - 8)))
    end.

(** ** The machine under a sequence of events *)

Inductive event :=
| In (now port : Z)
| Out (now port val : Z)
| Timers (now : Z)
| Host (e : Irq)
| Deliver (rflags : Z).

(** The state after an event and the byte a port read returned. *)
Definition step (pc : PcMachine) (e : event) : option (PcMachine * option Z) :=
  match e with
  | In now port => match inb pc now port with Some (pc, v) => Some (pc, Some v) | None => None end
  | Out now port val => match outb pc now port val with Some (pc, _) => Some (pc, None) | None => None end
  | Timers now => match advance_timers pc now with Some pc => Some (pc, None) | None => None end
  | Host e => Some (queue_irq pc e, None)
  | Deliver rflags => Some (fst (fst (pick_pending_vec pc rflags)), None)
  end.

(** A run of events, every one of them while IRQ1 is in service. *)
Inductive in_int9 : PcMachine -> list event -> PcMachine -> Prop :=
| in_int9_nil pc : in_int9 pc [] pc
| in_int9_cons pc e pc1 v es pc2 :
    VirtualPic.in_service (vpic pc) 1 = true ->
    step pc e = Some (pc1, v) -> in_int9 pc1 es pc2 -> in_int9 pc (e :: es) pc2.

(** The interrupt controller is well formed, the keyboard ring too, and the
    declared Sound Blaster line is a device line. *)
Definition wf (pc : PcMachine) : Prop :=
  VirtualPic.wf (vpic pc) /\ VirtualKeyboard.wf (vkbd pc) /\ VirtualPic.device_line (sb_irq pc).

(** The values an event carries are bytes. *)
Definition event_ok (e : event) : Prop :=
  match e with Out _ _ val => fits 8 val | _ => True end.

End Ports.

End PcMachine.

Import PcMachine.

(** * The byte an INT 9 handler sees *)

(** While IRQ1 is in service nothing surfaces. *)
Lemma surface_in_service pc now :
  VirtualPic.in_service (vpic pc) 1 = true -> surface pc now = pc.
Proof. intros H. unfold surface. by rewrite H. Qed.

Lemma push_port60 k sc :
  VirtualKeyboard.port60 (VirtualKeyboard.push k sc) = VirtualKeyboard.port60 k.
Proof. unfold VirtualKeyboard.push, VirtualKeyboard.queue_scancode. by case_decide. Qed.

Lemma write_port60_port60 k v :
  VirtualKeyboard.port60 (VirtualKeyboard.write_port60 k v) = VirtualKeyboard.port60 k.
Proof. unfold VirtualKeyboard.write_port60. repeat case_match; by rewrite !push_port60. Qed.

Lemma in_service1_raise p irq :
  VirtualPic.in_service (VirtualPic.raise p irq) 1 = VirtualPic.in_service p 1.
Proof. unfold VirtualPic.raise. repeat case_match; done. Qed.

Lemma advance_timers_port60 pc now pc' :
  VirtualPic.in_service (vpic pc) 1 = true -> advance_timers pc now = Some pc' ->
  vkbd pc' = vkbd pc.
Proof.
  intros H E. unfold advance_timers in E. repeat case_match; simplify_eq;
    (rewrite surface_in_service; [done|]);
    cbn [vpic set_vpic set_vpit set_vrtc]; by rewrite ?in_service1_raise.
Qed.

Lemma inb_port60 cmos pc now port pc' v :
  VirtualPic.in_service (vpic pc) 1 = true -> inb cmos pc now port = Some (pc', v) ->
  VirtualKeyboard.port60 (vkbd pc') = VirtualKeyboard.port60 (vkbd pc) /\
  (port = 0x60 -> v = VirtualKeyboard.port60 (vkbd pc)).
Proof.
  intros H E. unfold inb in E.
  destruct (Z.eqb_spec port 0x60) as [->|Hne].
  { cbn in E. simplify_eq. done. }
  rewrite ?surface_in_service in E by done. split; [|done].
  unfold VirtualKeyboard.read_port60, VirtualKeyboard.read_port61 in E.
  repeat case_match; simplify_eq; done.
Qed.

Lemma outb_port60 pc now port val pc' r :
  outb pc now port val = Some (pc', r) ->
  VirtualKeyboard.port60 (vkbd pc') = VirtualKeyboard.port60 (vkbd pc).
Proof.
  intros E. unfold outb in E. repeat case_match; simplify_eq; try done.
  apply write_port60_port60.
Qed.

Lemma queue_irq_port60 pc e :
  VirtualKeyboard.port60 (vkbd (queue_irq pc e)) = VirtualKeyboard.port60 (vkbd pc).
Proof. unfold queue_irq. repeat case_match; cbn [vkbd set_vkbd set_e0 set_vpic]; by rewrite ?push_port60. Qed.

Lemma pick_vkbd pc rflags : vkbd (fst (fst (pick_pending_vec pc rflags))) = vkbd pc.
Proof. unfold pick_pending_vec. repeat case_match; done. Qed.

Lemma step_port60 cmos pc e pc' v :
  VirtualPic.in_service (vpic pc) 1 = true -> step cmos pc e = Some (pc', v) ->
  VirtualKeyboard.port60 (vkbd pc') = VirtualKeyboard.port60 (vkbd pc).
Proof.
  intros H E. destruct e as [now port|now port val|now|e|rflags]; cbn [step] in E.
  - destruct (inb cmos pc now port) as [[pc1 w]|] eqn:E1; simplify_eq. apply (inb_port60 _ _ _ _ _ _ H E1).
  - destruct (outb pc now port val) as [[pc1 w]|] eqn:E1; simplify_eq. by eapply outb_port60.
  - destruct (advance_timers pc now) as [pc1|] eqn:E1; simplify_eq.
    by rewrite (advance_timers_port60 _ _ _ H E1).
  - simplify_eq. apply queue_irq_port60.
  - simplify_eq. by rewrite pick_vkbd.
Qed.

(** C16: once INT 9 is delivered for a scancode, every read of port 60h made
    while IRQ1 stays in service returns the byte that was in the output
    buffer at delivery, whatever else happens in between: further
    keystrokes, keyboard commands, status polls, timer ticks, nested
    deliveries and any chipset access, for however long the handler runs.
    INT 9 is delivered only with a byte in the buffer. *)
Theorem int9_byte_stable cmos pc rflags rflags1 pc1 es pc2 now pc3 v :
  pick_pending_vec pc rflags = (pc1, rflags1, Some 0x09) ->
  in_int9 cmos pc1 es pc2 -> VirtualPic.in_service (vpic pc2) 1 = true ->
  inb cmos pc2 now 0x60 = Some (pc3, v) ->
  VirtualKeyboard.obf (vkbd pc) = true /\ v = VirtualKeyboard.port60 (vkbd pc).
Proof.
  intros Hpick Hrun Hsvc Hin. split.
  - unfold pick_pending_vec, VirtualKeyboard.has_data in Hpick.
    destruct (negb (negb _)); [by destruct (VirtualPic.peek (vpic pc))|].
    destruct (VirtualPic.peek (vpic pc)) as [irq|]; [|done].
    destruct (Z.eqb_spec irq 1); cbn [andb] in Hpick.
    + by destruct (VirtualKeyboard.obf (vkbd pc)).
    + exfalso. destruct (Z.ltb_spec irq 8); simplify_eq; lia.
  - assert (vkbd pc1 = vkbd pc) as <- by (rewrite <- (pick_vkbd pc rflags), Hpick; done).
    destruct (inb_port60 _ _ _ _ _ _ Hsvc Hin) as [_ ->]; [|done].
    clear Hpick Hsvc Hin. induction Hrun as [|? ? ? ? ? ? Hs Hst _ IH]; [done|].
    rewrite IH. by eapply step_port60.
Qed.

(** A machine about to deliver INT 9 for scancode 1Eh, with more queued. *)
Definition typing : PcMachine :=
  default (new 0 None) (advance_timers (foldl (fun pc sc => queue_irq pc (Key sc)) (new 0 None) [0x1E; 0x9E; 0x30])
    20000000).

Lemma int9_byte_stable_witness :
  let cmos := fun _ => 0 in
  let pc1 := fst (fst (pick_pending_vec (set_vpic typing (VirtualPic.set_master_imr (vpic typing) 1)) VIF_FLAG)) in
  exists pc2 pc3 v,
    in_int9 cmos pc1 [In 20000000 0x60; Host (Key 0x31); Timers 90000000; In 90000000 0x64; Out 0 0x61 0x80] pc2 /\
    inb cmos pc2 90000001 0x60 = Some (pc3, v) /\ v = 0x1E.
Proof.
  intros cmos pc1.
  assert (exists pc2, in_int9 cmos pc1
    [In 20000000 0x60; Host (Key 0x31); Timers 90000000; In 90000000 0x64; Out 0 0x61 0x80] pc2 /\
    VirtualPic.in_service (vpic pc2) 1 = true) as (pc2 & Hrun & Hs).
  { eexists. split; [|shelve]. do 5 (eapply in_int9_cons; [by vm_compute|by vm_compute|]). apply in_int9_nil.
    Unshelve. by vm_compute. }
  destruct (inb cmos pc2 90000001 0x60) as [[pc3 v]|] eqn:E; [|done].
  exists pc2, pc3, v. split_and!; [done..|].
  refine (eq_trans (proj2 (int9_byte_stable cmos
    (set_vpic typing (VirtualPic.set_master_imr (vpic typing) 1)) VIF_FLAG (VIF_FLAG .& bnot 64 VIP_FLAG)
    pc1 _ pc2 90000001 pc3 v _ Hrun Hs E)) _); by vm_compute.
Defined.

(** * Interrupt delivery *)

Lemma VIP_set rflags : Z.testbit (rflags .| VIP_FLAG) 20 = true.
Proof. unfold VIP_FLAG. rewrite testbit_set by lia. apply orb_true_r. Qed.
Lemma VIP_cleared rflags : fits 64 rflags -> Z.testbit (rflags .& bnot 64 VIP_FLAG) 20 = false.
Proof. intros H. unfold VIP_FLAG. rewrite (testbit_clear 64) by (done || lia). apply andb_false_r. Qed.

Lemma VIP_other rflags : fits 64 rflags -> forall i, i <> 20 ->
  Z.testbit (rflags .| VIP_FLAG) i = Z.testbit rflags i /\
  Z.testbit (rflags .& bnot 64 VIP_FLAG) i = Z.testbit rflags i.
Proof.
  intros H i Hi. unfold VIP_FLAG.
  rewrite testbit_set, (testbit_clear 64), bool_decide_eq_false_2 by (done || lia).
  by rewrite orb_false_r, andb_true_r.
Qed.

(** The vector of a line: 08h..0Fh for the master, 70h..77h for the slave. *)
Definition vector (irq : Z) : Z := if irq <? 8 then 0x08 + irq else 0x70 + (irq - 8).

(** [pick_pending_vec] delivers by the virtual interrupt flag.  With the
    flag clear nothing is delivered or acknowledged, and VIP is set exactly
    when some line is deliverable.  With it set VIP is clear afterwards, and
    the highest-priority deliverable line is acknowledged and its vector
    returned; the only exception is an IRQ1 whose scancode was already read,
    whose stale request is dropped so it cannot be selected again.  No other
    flag changes. *)
Theorem pick_pending_vec_spec pc rflags :
  PcMachine.wf pc -> fits 64 rflags ->
  let '(pc', rflags', vec) := pick_pending_vec pc rflags in
  (forall i, i <> 20 -> Z.testbit rflags' i = Z.testbit rflags i) /\
  match Z.testbit rflags 19, VirtualPic.peek (vpic pc) with
  | false, cand => pc' = pc /\ vec = None /\
                   (Z.testbit rflags' 20 = true <-> exists irq, VirtualPic.deliverable (vpic pc) irq)
  | true, None => pc' = pc /\ vec = None /\ Z.testbit rflags' 20 = false
  | true, Some irq =>
      VirtualPic.deliverable (vpic pc) irq /\
      (forall j, VirtualPic.deliverable (vpic pc) j -> VirtualPic.rank irq <= VirtualPic.rank j) /\
      Z.testbit rflags' 20 = false /\
      if (irq =? 1) && negb (VirtualKeyboard.obf (vkbd pc))
      then vec = None /\ VirtualPic.is_requested (vpic pc') 1 = false /\
           forall j, VirtualPic.in_service (vpic pc') j = VirtualPic.in_service (vpic pc) j
      else vec = Some (vector irq) /\ VirtualPic.in_service (vpic pc') irq = true /\
           VirtualPic.is_requested (vpic pc') irq = false
  end.
Proof.
  intros (Hwf & _) Hf. pose proof (vpic_peek_spec (vpic pc) Hwf) as Hp.
  unfold pick_pending_vec. unfold VIF_FLAG. rewrite land_bit_eqb by lia.
  destruct (Z.testbit rflags 19); cbn [negb].
  - destruct (VirtualPic.peek (vpic pc)) as [irq|].
    + destruct Hp as [Hd Hmin]. unfold VirtualKeyboard.has_data.
      destruct (_ && _) eqn:Eb.
      * apply andb_true_iff in Eb as [->%Z.eqb_eq _].
        destruct (clear_request_spec (vpic pc) 1 Hwf) as [H1 H2]; [apply Hd|].
        split; [intros; by apply VIP_other|]. by rewrite VIP_cleared.
      * destruct (ack_in_service (vpic pc) irq Hwf) as [H1 H2]; [apply Hd|].
        split; [intros; by apply VIP_other|]. by rewrite VIP_cleared.
    + split; [intros; by apply VIP_other|]. by rewrite VIP_cleared.
  - destruct (VirtualPic.peek (vpic pc)) as [irq|].
    + split; [intros; by apply VIP_other|]. split_and!; [done..|].
      rewrite VIP_set. split; [intros _; exists irq; apply Hp|done].
    + split; [intros; by apply VIP_other|]. split_and!; [done..|].
      rewrite VIP_cleared by done. split; [done|]. intros [j Hj]. by destruct (Hp j).
Qed.

Lemma typing_wf : PcMachine.wf typing.
Proof.
  split_and!.
  - split_and!; try done; by vm_compute.
  - split_and!; [reflexivity|apply Nat.ltb_lt; reflexivity..].
  - done.
Qed.

Lemma pick_pending_vec_spec_witness :
  VirtualPic.in_service (vpic (fst (fst (pick_pending_vec typing VIF_FLAG)))) 0 = true /\
  snd (pick_pending_vec typing VIF_FLAG) = Some 0x08 /\
  Z.testbit (snd (fst (pick_pending_vec typing 0))) 20 = true.
Proof.
  pose proof (pick_pending_vec_spec typing VIF_FLAG typing_wf ltac:(by vm_compute)) as H.
  assert (VirtualPic.peek (vpic typing) = Some 0) as Ep by by vm_compute.
  assert (Z.testbit VIF_FLAG 19 = true) as Ev by done.
  destruct (pick_pending_vec typing VIF_FLAG) as [[pc' f'] vec].
  rewrite Ep, Ev in H. destruct H as (_ & _ & _ & _ & H1 & H2 & _).
  cbn [fst snd]. rewrite H1. split_and!; [done|done|by vm_compute].
Defined.

(** * The machine's invariant *)

Lemma vpic_wf_imr_master p v : VirtualPic.wf p -> fits 8 v -> VirtualPic.wf (VirtualPic.set_master_imr p v).
Proof. intros ((?&?&?)&?&?) ?. by split_and!. Qed.
Lemma vpic_wf_imr_slave p v : VirtualPic.wf p -> fits 8 v -> VirtualPic.wf (VirtualPic.set_slave_imr p v).
Proof. intros (?&(?&?&?)&?) ?. by split_and!. Qed.

Lemma wf_set_vpic pc p : PcMachine.wf pc -> VirtualPic.wf p -> PcMachine.wf (set_vpic pc p).
Proof. intros (?&?&?) ?. by split_and!. Qed.
Lemma wf_set_vkbd pc k : PcMachine.wf pc -> VirtualKeyboard.wf k -> PcMachine.wf (set_vkbd pc k).
Proof. intros (?&?&?) ?. by split_and!. Qed.

Lemma wf_try_surface k now : VirtualKeyboard.wf k -> VirtualKeyboard.wf (fst (VirtualKeyboard.try_surface k now)).
Proof.
  intros Hk. pose proof (VirtualKeyboard.handle_spec k (VirtualKeyboard.Tick now) Hk) as H.
  cbn [VirtualKeyboard.handle] in H. destruct (VirtualKeyboard.try_surface k now). apply H.
Qed.
Lemma wf_write_port60 k v : VirtualKeyboard.wf k -> VirtualKeyboard.wf (VirtualKeyboard.write_port60 k v).
Proof.
  intros Hk. pose proof (VirtualKeyboard.handle_spec k (VirtualKeyboard.Command v) Hk) as H. apply H.
Qed.

Lemma wf_raise pc irq :
  PcMachine.wf pc -> VirtualPic.device_line irq -> PcMachine.wf (set_vpic pc (VirtualPic.raise (vpic pc) irq)).
Proof. intros Hw Hi. apply wf_set_vpic; [done|]. apply vpic_wf_raise; [done|apply Hw]. Qed.

Lemma wf_surface pc now : PcMachine.wf pc -> PcMachine.wf (surface pc now).
Proof.
  intros Hw. unfold surface. destruct (negb _); [|done].
  pose proof (wf_try_surface (vkbd pc) now ltac:(apply Hw)) as Hk.
  destruct (VirtualKeyboard.try_surface (vkbd pc) now) as [k s]; cbn [fst] in Hk.
  apply (wf_set_vkbd pc k Hw) in Hk. destruct s; [|done]. by apply wf_raise.
Qed.

Lemma wf_outb pc now port val pc' r :
  PcMachine.wf pc -> fits 8 val -> outb pc now port val = Some (pc', r) -> PcMachine.wf pc'.
Proof.
  intros Hw Hv E. pose proof Hw as (Hp & Hk & Hl). unfold outb in E.
  pose proof (vpic_wf_master_ocw2 (vpic pc) val Hp) as Hm.
  repeat case_match; simplify_eq; try done; try (by apply wf_set_vpic);
    first [ by apply wf_set_vpic, vpic_wf_imr_master
          | by apply wf_set_vpic, vpic_wf_slave_ocw2
          | by apply wf_set_vpic, vpic_wf_imr_slave
          | by apply wf_set_vkbd, wf_write_port60 ].
Qed.

Lemma wf_push_key pc sc :
  PcMachine.wf pc -> PcMachine.wf (set_vkbd pc (VirtualKeyboard.push (vkbd pc) sc)).
Proof. intros Hw. apply wf_set_vkbd; [done|]. apply VirtualKeyboard.wf_push, Hw. Qed.

Lemma wf_queue_irq pc e : PcMachine.wf pc -> PcMachine.wf (queue_irq pc e).
Proof.
  intros Hw. pose proof Hw as (_ & Hk & Hl). destruct e as [sc| |line|]; cbn [queue_irq]; try done.
  - destruct (normalize_scancode _ _) as [b [[e0 c]|]]; [|done].
    assert (PcMachine.wf (set_e0 pc b)) as Hb by (destruct Hw as (?&?&?); by split_and!).
    destruct e0; [by apply wf_push_key, wf_push_key|by apply wf_push_key].
  - repeat case_match; try done. by apply wf_raise.
Qed.

Lemma wf_advance_timers pc now pc' :
  PcMachine.wf pc -> advance_timers pc now = Some pc' -> PcMachine.wf pc'.
Proof.
  intros Hw E. unfold advance_timers in E.
  destruct (VirtualPit.take_pending_irqs _ _) as [[t n]|]; [|done].
  set (pc1 := if 0 <? n then _ else _) in E.
  assert (PcMachine.wf pc1) as Hw1 by (subst pc1; destruct (0 <? n); [by apply wf_raise|done]).
  destruct (VirtualRtc.take_pending_irqs _ _) as [rt m]. simplify_eq. apply wf_surface.
  destruct (0 <? m); [by apply wf_raise|done].
Qed.

(** Every event keeps the machine well formed: port reads and writes of
    any byte, timer advances, host events and interrupt delivery, provided
    the declared Sound Blaster line is not the cascade input.  In particular
    the virtual PIC never sees a request on the cascade input and the
    keyboard ring's indices stay in range. *)
Theorem pc_step_wf cmos pc e pc' v :
  PcMachine.wf pc -> event_ok e -> step cmos pc e = Some (pc', v) -> PcMachine.wf pc'.
Proof.
  intros Hw He E. destruct e as [now port|now port val|now|e|rflags]; cbn [step event_ok] in *.
  - destruct (inb cmos pc now port) as [[pc1 w]|] eqn:E1; simplify_eq.
    unfold inb, VirtualKeyboard.read_port60, VirtualKeyboard.read_port61 in E1.
    pose proof (wf_surface pc now Hw). repeat case_match; simplify_eq; done.
  - destruct (outb pc now port val) as [[pc1 w]|] eqn:E1; simplify_eq. by eapply wf_outb.
  - destruct (advance_timers pc now) as [pc1|] eqn:E1; simplify_eq. by eapply wf_advance_timers.
  - simplify_eq. by apply wf_queue_irq.
  - simplify_eq. unfold pick_pending_vec. destruct (negb _); [done|].
    pose proof Hw as (Hp & _). pose proof (vpic_peek_spec (vpic pc) Hp) as Hs.
    destruct (VirtualPic.peek (vpic pc)) as [irq|]; [|done]. destruct Hs as [[Hd _] _].
    destruct (_ && _); apply wf_set_vpic; try done; [by apply vpic_wf_clear|by apply vpic_wf_ack].
Qed.

Lemma pc_step_wf_witness :
  exists pc', step (fun _ => 0) typing (Out 0 0x21 0xFF) = Some (pc', None) /\ PcMachine.wf pc'.
Proof.
  eexists. split; [reflexivity|].
  by apply (pc_step_wf (fun _ => 0) typing (Out 0 0x21 0xFF) _ None typing_wf).
Defined.

(** * Timers and the serial clock *)

Lemma testbit_raise p irq j :
  0 <= irq < 16 -> 0 <= j < 16 ->
  VirtualPic.is_requested (VirtualPic.raise p irq) j
  = VirtualPic.is_requested p j || bool_decide (j = irq).
Proof.
  intros Hi Hj. unfold VirtualPic.raise.
  destruct (Z.ltb_spec irq 8), (Z.ltb_spec irq 16); try lia; destruct (Z.lt_ge_cases j 8).
  - rewrite !is_requested_master by lia. simpl. by rewrite testbit_set by lia.
  - rewrite !is_requested_slave by lia. simpl. by rewrite bool_decide_eq_false_2, orb_false_r by lia.
  - rewrite !is_requested_master by lia. simpl. by rewrite bool_decide_eq_false_2, orb_false_r by lia.
  - rewrite !is_requested_slave by lia. simpl. rewrite testbit_set by lia.
    f_equal. apply bool_decide_ext. lia.
Qed.

(** A timer advance requests exactly what is due.  IRQ0 is requested
    when a PIT period has ended, IRQ8 when the RTC ticked, and if IRQ1 is
    not in service, the output buffer is free, a scancode is queued and a
    millisecond has passed, the oldest queued scancode moves to port 60h
    with its own IRQ1; nothing else is requested and no request is lost. *)
Theorem advance_timers_requests pc now t n pc' :
  PcMachine.wf pc ->
  VirtualPit.take_pending_irqs (vpit pc) now = Some (t, n) -> advance_timers pc now = Some pc' ->
  let m := snd (VirtualRtc.take_pending_irqs (vrtc pc) now) in
  let due := negb (VirtualPic.in_service (vpic pc) 1) && snd (VirtualKeyboard.try_surface (vkbd pc) now) in
  (forall j, 0 <= j < 16 ->
     VirtualPic.is_requested (vpic pc') j =
     VirtualPic.is_requested (vpic pc) j || (bool_decide (j = 0) && (0 <? n))
       || (bool_decide (j = 8) && (0 <? m)) || (bool_decide (j = 1) && due)) /\
  (forall sc q, VirtualKeyboard.contents (vkbd pc) = sc :: q ->
     VirtualPic.in_service (vpic pc) 1 = false -> VirtualKeyboard.obf (vkbd pc) = false ->
     VirtualKeyboard.last_surface_ns (vkbd pc) + SURFACE_NANOS <= now ->
     due = true /\ VirtualKeyboard.port60 (vkbd pc') = sc /\ VirtualKeyboard.obf (vkbd pc') = true /\
     VirtualKeyboard.contents (vkbd pc') = q).
Proof.
  intros (_ & Hk & _) Ht E. unfold advance_timers in E. rewrite Ht in E. cbv zeta.
  set (pc1 := if 0 <? n then _ else _) in E.
  assert (vrtc pc1 = vrtc pc /\ vkbd pc1 = vkbd pc /\
    VirtualPic.in_service (vpic pc1) 1 = VirtualPic.in_service (vpic pc) 1) as (Er & Ek & Es)
    by (subst pc1; destruct (0 <? n); cbn [vrtc vkbd vpic set_vpic set_vpit];
        by rewrite ?in_service1_raise).
  assert (forall j, 0 <= j < 16 -> VirtualPic.is_requested (vpic pc1) j =
    VirtualPic.is_requested (vpic pc) j || (bool_decide (j = 0) && (0 <? n))) as H1.
  { intros j Hj. subst pc1. destruct (0 <? n); cbn [vpic set_vpic set_vpit];
      rewrite ?testbit_raise, ?andb_true_r, ?andb_false_r, ?orb_false_r by lia; done. }
  rewrite Er in E. destruct (VirtualRtc.take_pending_irqs (vrtc pc) now) as [rt m]; cbn [snd].
  set (pc2 := if 0 <? m then _ else _) in E.
  assert (vkbd pc2 = vkbd pc /\
    VirtualPic.in_service (vpic pc2) 1 = VirtualPic.in_service (vpic pc) 1) as (Ek2 & Es2)
    by (subst pc2; destruct (0 <? m); cbn [vkbd vpic set_vpic set_vrtc];
        by rewrite ?in_service1_raise, ?Ek, ?Es).
  assert (forall j, 0 <= j < 16 -> VirtualPic.is_requested (vpic pc2) j =
    VirtualPic.is_requested (vpic pc1) j || (bool_decide (j = 8) && (0 <? m))) as H2.
  { intros j Hj. subst pc2. destruct (0 <? m); cbn [vpic set_vpic set_vrtc];
      rewrite ?testbit_raise, ?andb_true_r, ?andb_false_r, ?orb_false_r by lia; done. }
  clearbody pc1 pc2. simplify_eq. unfold surface. rewrite Ek2, Es2. split.
  - intros j Hj. destruct (VirtualPic.in_service (vpic pc) 1); cbn [negb andb].
    { by rewrite andb_false_r, orb_false_r, H2, H1. }
    destruct (VirtualKeyboard.try_surface (vkbd pc) now) as [k []]; cbn [snd vpic set_vpic set_vkbd].
    + by rewrite testbit_raise, H2, H1, andb_true_r by lia.
    + by rewrite H2, H1, andb_false_r, orb_false_r by lia.
  - intros sc q Hq Hs Ho Hl. rewrite Hs. cbn [negb andb].
    assert (VirtualKeyboard.head (vkbd pc) <> VirtualKeyboard.tail (vkbd pc)) as Hne.
    { intros He. by rewrite VirtualKeyboard.contents_empty in Hq. }
    unfold VirtualKeyboard.try_surface. rewrite Ho, bool_decide_eq_false_2 by done.
    rewrite (proj2 (Z.ltb_ge _ _)) by (unfold sat_sub, SURFACE_NANOS in *; lia). cbn [orb].
    set (k' := VirtualKeyboard.mk _ _ _ _ _ _ _ _).
    rewrite (VirtualKeyboard.contents_advance (vkbd pc) k') in Hq by done. simplify_eq. done.
Qed.

Lemma advance_timers_requests_witness :
  let pc := foldl (fun pc sc => queue_irq pc (Key sc)) (new 0 None) [0x1E; 0x9E] in
  exists pc', advance_timers pc 2000000 = Some pc' /\
  VirtualPic.is_requested (vpic pc') 1 = true /\ VirtualKeyboard.port60 (vkbd pc') = 0x1E.
Proof.
  intros pc.
  assert (PcMachine.wf pc) as Hw.
  { do 2 apply wf_queue_irq. split_and!; [apply vpic_new_wf|apply VirtualKeyboard.wf_new|done]. }
  destruct (VirtualPit.take_pending_irqs (vpit pc) 2000000) as [[t n]|] eqn:Et; [|by vm_compute in Et].
  destruct (advance_timers pc 2000000) as [pc'|] eqn:E; [|by vm_compute in E].
  exists pc'. destruct (advance_timers_requests pc 2000000 t n pc' Hw Et E) as [H1 H2].
  split; [done|]. split.
  - rewrite H1 by lia. by vm_compute.
  - destruct (H2 0x1E [0x9E]) as (_ & ? & _); [by vm_compute..|done].
Defined.

(** * E0-prefixed scancodes *)

(** A key event of the raw stream: an optional E0 prefix and a code. *)
Definition raw (key : bool * Z) : list Z := (if fst key then [0xE0] else []) ++ [snd key].
Definition fake_shift (key : bool * Z) : bool :=
  fst key && ((snd key =? 0x2A) || (snd key =? 0xAA) || (snd key =? 0x36) || (snd key =? 0xB6)).

Definition type_keys (pc : PcMachine) (bytes : list Z) : PcMachine :=
  foldl (fun pc sc => queue_irq pc (Key sc)) pc bytes.

Lemma type_key pc key :
  snd key <> 0xE0 -> e0_pending pc = false ->
  type_keys pc (raw key) =
  if fake_shift key then pc else set_vkbd pc (foldl VirtualKeyboard.push (vkbd pc) (raw key)).
Proof.
  destruct key as [[] c], pc as [t p r k e si sn sp ci]; cbn [fst snd e0_pending]; intros Hc He; subst e;
    unfold raw, fake_shift, type_keys; cbn [fst snd app foldl queue_irq e0_pending];
    unfold normalize_scancode; rewrite (proj2 (Z.eqb_neq c 0xE0) Hc);
    cbn [Z.eqb Pos.eqb e0_pending set_e0 andb]; [|done].
  by destruct (_ || _).
Qed.

(** Whatever the user types, what reaches the guest's keyboard queue is
    the raw byte stream with exactly the fake-shift pairs (E0 2A, E0 AA,
    E0 36, E0 B6) removed: every other code arrives once, in order, with its
    E0 prefix immediately before it, and no prefix is left pending. *)
Theorem key_stream_normalized pc keys :
  Forall (fun key => snd key <> 0xE0) keys -> e0_pending pc = false ->
  type_keys pc (concat (map raw keys)) =
  set_vkbd pc (foldl VirtualKeyboard.push (vkbd pc)
                 (concat (map raw (filter (fun key => fake_shift key = false) keys)))).
Proof.
  revert pc; induction keys as [|key keys IH]; intros pc Hk He; [by destruct pc|].
  apply Forall_cons_1 in Hk as [Hc Hk]. cbn [map concat].
  unfold type_keys. rewrite foldl_app. fold (type_keys pc (raw key)). rewrite type_key by done.
  rewrite filter_cons. destruct (fake_shift key) eqn:Ef.
  - rewrite decide_False by done. by apply IH.
  - rewrite decide_True by done. cbn [map concat]. rewrite foldl_app.
    fold (type_keys (set_vkbd pc (foldl VirtualKeyboard.push (vkbd pc) (raw key))) (concat (map raw keys))).
    rewrite IH by done. done.
Qed.

Lemma key_stream_normalized_witness :
  let keys := [(true, 0x2A); (true, 0x48); (false, 0x1E); (true, 0xC8); (true, 0xAA)] in
  VirtualKeyboard.contents (vkbd (type_keys (new 0 None) (concat (map raw keys))))
    = [0xE0; 0x48; 0x1E; 0xE0; 0xC8].
Proof.
  intros keys. rewrite (key_stream_normalized (new 0 None) keys); [by vm_compute| |done].
  repeat constructor; done.
Defined.

(** * The guest's flags image *)

Definition flags32 (rflags : Z) : Z := u32 rflags.

Definition guest_flags (rflags : Z) : Z :=
  let f := flags32 rflags in
  let vif := negb ((f .& VIF_FLAG) =? 0) in
  (f .& bnot 32 (IF_FLAG .| VIF_FLAG)) .| (if vif then IF_FLAG else 0).

Definition set_vm86_flags (rflags flags : Z) : Z :=
  let want_vif := negb ((flags .& IF_FLAG) =? 0) in
  let viopl := rflags .& IOPL_MASK in
  let r := ((rflags .& bnot 64 0xFFFF) .| ((flags .& 0xFFFF) .& bnot 64 (IF_FLAG .| IOPL_MASK)))
           .| IF_FLAG .| viopl in
  if want_vif then r .| VIF_FLAG else r .& bnot 64 VIF_FLAG.

Definition apply_guest_flags (rflags image : Z) : Z :=
  let want_vif := negb ((image .& IF_FLAG) =? 0) in
  let vm := flags32 rflags .& VM_FLAG in
  let viopl := flags32 rflags .& IOPL_MASK in
  let nf := (image .& bnot 32 (IF_FLAG .| VIF_FLAG .| VM_FLAG .| IOPL_MASK)) .| vm .| IF_FLAG .| viopl in
  if want_vif then nf .| VIF_FLAG else nf.

Definition vm86_entry_flags (current : Z) : Z :=
  VM_FLAG .| VIF_FLAG .| IF_FLAG .| (current .& IOPL_MASK).

Definition guest_flags_if_on (rflags : Z) : Z := guest_flags rflags .| IF_FLAG.

Definition guest_flags_handler_entry (rflags : Z) : Z :=
  guest_flags rflags .& bnot 32 (IF_FLAG .| bit 8).

Lemma testbit_IOPL i : Z.testbit IOPL_MASK i = bool_decide (i = 12) || bool_decide (i = 13).
Proof.
  change IOPL_MASK with (bit 12 .| bit 13). by rewrite Z.lor_spec, !testbit_bit by lia.
Qed.

Lemma testbit_low16 i : 0 <= i -> Z.testbit 0xFFFF i = (i <? 16).
Proof.
  intros Hi. change 0xFFFF with (Z.ones 16). destruct (Z.ltb_spec i 16).
  - by rewrite Z.ones_spec_low by lia.
  - by rewrite Z.ones_spec_high by lia.
Qed.

Lemma testbit_flags32 r i : 0 <= i < 32 -> Z.testbit (flags32 r) i = Z.testbit r i.
Proof. intros Hi. unfold flags32, wrap. apply Z.mod_pow2_bits_low; lia. Qed.

(** One bit of a flags expression, as a boolean expression. *)
Ltac flag_bits :=
  unfold VIF_FLAG, IF_FLAG, VM_FLAG;
  repeat first
    [ rewrite land_bit_eqb by lia
    | rewrite Z.lor_spec | rewrite Z.land_spec
    | rewrite testbit_bnot by lia | rewrite testbit_bit by lia
    | rewrite testbit_IOPL | rewrite testbit_low16 by lia
    | rewrite testbit_flags32 by lia | rewrite Z.testbit_0_l ].

Lemma testbit_guest_flags r i :
  0 <= i < 32 ->
  Z.testbit (guest_flags r) i =
  if bool_decide (i = 9) then Z.testbit r 19
  else if bool_decide (i = 19) then false else Z.testbit r i.
Proof.
  intros Hi. unfold guest_flags. flag_bits.
  destruct (Z.testbit r 19); flag_bits; repeat case_bool_decide; subst; try lia;
    by rewrite ?andb_true_r, ?andb_false_r, ?orb_false_r.
Qed.

(** Applying a guest flags image in protected mode changes only what the
    guest owns.  The image reads back bit for bit, its interrupt-enable bit
    landing in the virtual interrupt flag, while the VM bit and the virtual
    IOPL keep their previous values whatever the image says and the real
    interrupt flag stays set. *)
Theorem apply_guest_flags_spec rflags image :
  let r := apply_guest_flags rflags image in
  (forall i, 0 <= i < 32 -> i <> 12 -> i <> 13 -> i <> 17 -> i <> 19 ->
     Z.testbit (guest_flags r) i = Z.testbit image i) /\
  (forall i, i = 12 \/ i = 13 \/ i = 17 -> Z.testbit r i = Z.testbit rflags i) /\
  Z.testbit r 9 = true /\ Z.testbit r 19 = Z.testbit image 9.
Proof.
  assert (forall i, 0 <= i < 32 -> Z.testbit (apply_guest_flags rflags image) i =
    if bool_decide (i = 19) then Z.testbit image 9
    else if bool_decide (i = 9) then true
    else if bool_decide (i = 12 \/ i = 13 \/ i = 17) then Z.testbit rflags i
    else Z.testbit image i) as H.
  { intros i Hi. unfold apply_guest_flags. flag_bits.
    destruct (Z.testbit image 9); flag_bits; repeat case_bool_decide; subst; try lia;
      rewrite ?andb_true_r, ?andb_false_r, ?orb_false_r, ?orb_true_r; done. }
  cbv zeta. split_and!.
  - intros i Hi ? ? ? ?. rewrite testbit_guest_flags, !H by lia.
    repeat case_bool_decide; subst; try lia; done.
  - intros i Hi. rewrite H by lia. repeat case_bool_decide; subst; try lia; done.
  - by rewrite H by lia.
  - by rewrite H by lia.
Qed.

(** Restoring a VM86 flags word keeps the kernel's half of EFLAGS.  The
    sixteen bits read back as written except the virtual IOPL, which is
    preserved with every upper bit but the virtual interrupt flag; that flag
    takes the word's interrupt-enable bit and the real one stays set. *)
Theorem set_vm86_flags_spec rflags flags :
  fits 64 rflags ->
  let r := set_vm86_flags rflags flags in
  (forall i, 0 <= i < 16 -> i <> 12 -> i <> 13 ->
     Z.testbit (guest_flags r) i = Z.testbit flags i) /\
  (forall i, i = 12 \/ i = 13 \/ (16 <= i < 64 /\ i <> 19) -> Z.testbit r i = Z.testbit rflags i) /\
  Z.testbit r 9 = true /\ Z.testbit r 19 = Z.testbit flags 9.
Proof.
  intros Hf.
  assert (forall i, 0 <= i < 64 -> Z.testbit (set_vm86_flags rflags flags) i =
    if bool_decide (i = 19) then Z.testbit flags 9
    else if bool_decide (i = 9) then true
    else if bool_decide (i = 12 \/ i = 13 \/ 16 <= i) then Z.testbit rflags i
    else Z.testbit flags i) as H.
  { intros i Hi. unfold set_vm86_flags. flag_bits.
    destruct (Z.testbit flags 9); flag_bits; destruct (Z.ltb_spec i 16);
      repeat case_bool_decide; subst; try lia;
      rewrite ?andb_true_r, ?andb_false_r, ?orb_false_r, ?orb_true_r; done. }
  cbv zeta. split_and!.
  - intros i Hi ? ?. rewrite testbit_guest_flags, !H by lia.
    repeat case_bool_decide; subst; try lia; done.
  - intros i Hi. rewrite H by lia. repeat case_bool_decide; subst; try lia; done.
  - by rewrite H by lia.
  - by rewrite H by lia.
Qed.

Lemma set_vm86_flags_spec_witness :
  Z.testbit (set_vm86_flags 0x31202 0x7302) 12 = true /\
  Z.testbit (guest_flags (set_vm86_flags 0x31202 0x7302)) 8 = true /\
  set_vm86_flags 0x31202 0x7302 = 0xB5302.
Proof.
  destruct (set_vm86_flags_spec 0x31202 0x7302 ltac:(by vm_compute)) as (H1 & H2 & _).
  split_and!; [rewrite H2 by lia; done|rewrite H1 by lia; done|by vm_compute].
Defined.
