(* ===== verification/Guest.v ===== *)
(** The guest's registers and memory as the DOS services see them
    (arch-abi/src/lib.rs, [Regs]; arch-abi/src/arch.rs, [GuestBytes];
    kernel/src/kernel/dos/mod.rs, [linear]).

    [Regs] has the registers the services of Xms and Ems read or write.
    Guest memory is a total function from linear addresses to bytes. *)

From Stdlib Require Import ZArith Lia Bool.
From stdpp Require Import base option list numbers.
From S2P Require Import Prelude.

Record Regs := mkRegs {
  rax : Z; rbx : Z; rcx : Z; rdx : Z; rsi : Z; rdi : Z; ds : Z; es : Z; vm86 : bool
}.

Definition set_rax (r : Regs) v := mkRegs v (rbx r) (rcx r) (rdx r) (rsi r) (rdi r) (ds r) (es r) (vm86 r).
Definition set_rbx (r : Regs) v := mkRegs (rax r) v (rcx r) (rdx r) (rsi r) (rdi r) (ds r) (es r) (vm86 r).
Definition set_rcx (r : Regs) v := mkRegs (rax r) (rbx r) v (rdx r) (rsi r) (rdi r) (ds r) (es r) (vm86 r).
Definition set_rdx (r : Regs) v := mkRegs (rax r) (rbx r) (rcx r) v (rsi r) (rdi r) (ds r) (es r) (vm86 r).

(** [r = (r & !0xFFFF) | v], [r = (r & !0xFF) | v], [r = (r & !0xFF00) | v << 8]
    and [r = (r & !0xFFFFFFFF) | v]. *)
Definition low16 (r v : Z) : Z := (r .& bnot 64 0xFFFF) .| v.
Definition low8 (r v : Z) : Z := (r .& bnot 64 0xFF) .| v.
Definition high8 (r v : Z) : Z := (r .& bnot 64 0xFF00) .| (v ≪ 8).
Definition low32 (r v : Z) : Z := (r .& bnot 64 0xFFFFFFFF) .| v.

Definition set_ax (r : Regs) v := set_rax r (low16 (rax r) v).
Definition set_bx (r : Regs) v := set_rbx r (low16 (rbx r) v).
Definition set_cx (r : Regs) v := set_rcx r (low16 (rcx r) v).
Definition set_dx (r : Regs) v := set_rdx r (low16 (rdx r) v).
Definition set_bl (r : Regs) v := set_rbx r (low8 (rbx r) v).
Definition set_al (r : Regs) v := set_rax r (low8 (rax r) v).
Definition set_ah (r : Regs) v := set_rax r (high8 (rax r) v).
Definition set_ecx (r : Regs) v := set_rcx r (low32 (rcx r) v).

Definition ah (r : Regs) : Z := u8 (rax r ≫ 8).
Definition al (r : Regs) : Z := u8 (rax r).
Definition ax (r : Regs) : Z := u16 (rax r).
Definition bx (r : Regs) : Z := u16 (rbx r).
Definition cx (r : Regs) : Z := u16 (rcx r).
Definition dx (r : Regs) : Z := u16 (rdx r).
Definition bl (r : Regs) : Z := u8 (rbx r).

(** * Memory *)

Definition Mem := Z -> Z.
Definition read16 (m : Mem) (a : Z) : Z := m a + 256 * m (a + 1).
Definition read32 (m : Mem) (a : Z) : Z := read16 m a + 65536 * read16 m (a + 2).
Definition write8 (m : Mem) (a v : Z) : Mem := fun x => if x =? a then v else m x.
Definition write16 (m : Mem) (a v : Z) : Mem := write8 (write8 m a (u8 v)) (a + 1) (u8 (v ≫ 8)).

(** [copy_within], whose contract is a copy of the source as it was. *)
Definition copy_within (m : Mem) (src dst len : Z) : Mem :=
  fun a => if (dst <=? a) && (a <? dst + len) then m (src + (a - dst)) else m a.

(** A real-mode or protected-mode address; [seg_base] is the client's
    descriptor table. *)
Definition linear (seg_base : Z -> Z) (r : Regs) (seg off : Z) : Z :=
  if vm86 r then (u32 ((seg ≪ 4) + (off .& 0xFFFF))) .& bnot 32 (bit 20)
  else u32 (seg_base seg + off).

(** * Lemmas *)

Lemma testbit_mask16 i : 0 <= i -> Z.testbit 0xFFFF i = (i <? 16).
Proof.
  intros Hi. change 0xFFFF with (Z.ones 16). destruct (Z.ltb_spec i 16).
  - by rewrite Z.ones_spec_low by lia.
  - by rewrite Z.ones_spec_high by lia.
Qed.

Lemma low16_read r v : fits 16 v -> u16 (low16 r v) = v.
Proof.
  intros Hv. apply (fits_bits_eq 16); [lia|apply wrap_fits; lia|done|]. intros i Hi.
  unfold wrap, low16. rewrite Z.mod_pow2_bits_low, Z.lor_spec, Z.land_spec, testbit_bnot by lia.
  rewrite testbit_mask16 by lia. destruct (Z.ltb_spec i 16); [|lia]. cbn [negb].
  by rewrite andb_false_r.
Qed.

Lemma low16_zero r : u16 (low16 r 0) = 0.
Proof. apply low16_read. pow2; lia. Qed.

Lemma low8_read r v : fits 8 v -> u8 (low8 r v) = v.
Proof.
  intros Hv. apply (fits_bits_eq 8); [lia|apply wrap_fits; lia|done|]. intros i Hi.
  unfold wrap, low8. rewrite Z.mod_pow2_bits_low, Z.lor_spec, Z.land_spec, testbit_bnot by lia.
  change 0xFF with (Z.ones 8). rewrite Z.ones_spec_low by lia. cbn [negb]. by rewrite andb_false_r.
Qed.

Lemma high8_read r v : fits 8 v -> u8 (high8 r v ≫ 8) = v.
Proof.
  intros Hv. apply (fits_bits_eq 8); [lia|apply wrap_fits; lia|done|]. intros i Hi.
  unfold wrap, high8. rewrite Z.mod_pow2_bits_low, Z.shiftr_spec, Z.lor_spec, Z.land_spec, testbit_bnot by lia.
  change 0xFF00 with (Z.ones 8 ≪ 8). rewrite !Z.shiftl_spec by lia.
  replace (i + 8 - 8) with i by lia. rewrite Z.ones_spec_low by lia. cbn [negb]. by rewrite andb_false_r.
Qed.

Lemma ah_set_ah r v : fits 8 v -> ah (set_ah r v) = v.
Proof. apply high8_read. Qed.
