(* ===== verification/Umb.v ===== *)
(** Upper memory blocks (kernel/src/kernel/dos/xms.rs, from the Upper
    Memory Area section on).

    [Uma] holds the two page bitmaps and the EMS frame's base page.  The
    bitmaps are 64-bit words (two 32-bit halves in the source, always
    updated together).  [machine.unmap_range] is returned as the range it
    is called on. *)

From Stdlib Require Import ZArith Lia Bool.
From stdpp Require Import base option list numbers.
From S2P Require Import Prelude Guest.

Definition UMA_BASE : Z := 0xC0.
Definition UMA_END : Z := 0xF0.
Definition UMA_PAGES : nat := 48.

Module Uma.

Record Uma := mk { uma_free : Z; umb_allocated : Z; ems_base_page : Z }.
Definition new : Uma := mk 0 0 0xD0.

(** [bits & (1 << i) != 0] *)
Definition is_set (bits i : Z) : bool := negb ((bits .& bit i) =? 0).

(** The scan for [need] set bits in a row, from [i] over [n] pages: the
    first page of the run. *)
Fixpoint find_run (bits need : Z) (n : nat) (i run_start run_len : Z) : option Z :=
  match n with
  | O => None
  | S n =>
      if is_set bits i then
        let run_start := if run_len =? 0 then i else run_start in
        let run_len := run_len + 1 in
        if need <=? run_len then Some run_start
        else find_run bits need n (i + 1) run_start run_len
      else find_run bits need n (i + 1) run_start 0
  end.

(** The pages [start .. start + n). *)
Fixpoint range_mask (start : Z) (n : nat) : Z :=
  match n with
  | O => 0
  | S n => range_mask start n .| bit (start + Z.of_nat n)
  end.

Definition find_contiguous_run (bitmap count hint : Z) : option Z :=
  let mask := (bit count - 1) ≪ hint in
  if (hint + count <=? Z.of_nat UMA_PAGES) && ((bitmap .& mask) =? mask) then Some hint
  else find_run bitmap count UMA_PAGES 0 0 0.

(** Every byte of the page is the same. *)
Definition uniform (m : Mem) (page : Z) : bool :=
  let first := m (page * 0x1000) in
  forallb (fun j => m (page * 0x1000 + Z.of_nat j) =? first) (seq 1 (0x1000 - 1)).

Definition page_free (m : Mem) (page : Z) : bool :=
  uniform m page && ((m (page * 0x1000) =? 0x00) || (m (page * 0x1000) =? 0xFF)).

Definition scan_uma (u : Uma) (m : Mem) : Uma :=
  let free := foldl (fun free i => if page_free m (UMA_BASE + Z.of_nat i)
                                   then free .| bit (Z.of_nat i) else free)
                0 (seq 0 UMA_PAGES) in
  match find_contiguous_run free 16 (0xD0 - UMA_BASE) with
  | Some off => mk (free .& bnot 64 ((bit 16 - 1) ≪ off)) (umb_allocated u) (UMA_BASE + off)
  | None => mk free (umb_allocated u) (ems_base_page u)
  end.

Definition umb_avail (u : Uma) : Z := uma_free u .& bnot 64 (umb_allocated u).

(** The new state, the segment and size, and the pages unmapped. *)
Definition umb_alloc (u : Uma) (paragraphs : Z) : option (Uma * (Z * Z) * (Z * Z)) :=
  let pages_needed := div_ceil (paragraphs * 16) 0x1000 in
  if pages_needed =? 0 then None
  else
    match find_run (umb_avail u) pages_needed UMA_PAGES 0 0 0 with
    | Some run_start =>
        let alloc_mask := range_mask run_start (Z.to_nat pages_needed) in
        let base_page := UMA_BASE + run_start in
        Some (mk (uma_free u) (umb_allocated u .| alloc_mask) (ems_base_page u),
              (u16 (u16 base_page * 0x100), u16 (u16 pages_needed * 0x100)),
              (base_page, pages_needed))
    | None => None
    end.

(** [while i < UMA_PAGES && alloc & (1 << i) != 0]: the end of the run. *)
Fixpoint run_end (bits : Z) (n : nat) (i : Z) : Z :=
  match n with
  | O => i
  | S n => if is_set bits i then run_end bits n (i + 1) else i
  end.

Definition umb_free (u : Uma) (segment : Z) : option (Uma * (Z * Z)) :=
  let page := segment / 0x100 in
  if negb ((UMA_BASE <=? page) && (page <? UMA_END)) then None
  else
    let offset := page - UMA_BASE in
    if negb (is_set (umb_allocated u) offset) then None
    else
      let count := run_end (umb_allocated u) (UMA_PAGES - Z.to_nat offset) offset - offset in
      let mask := range_mask offset (Z.to_nat count) in
      Some (mk (uma_free u) (umb_allocated u .& bnot 64 mask) (ems_base_page u), (page, count)).

Fixpoint longest_run (bits : Z) (n : nat) (i run largest : Z) : Z :=
  match n with
  | O => largest
  | S n =>
      if is_set bits i then longest_run bits n (i + 1) (run + 1) (Z.max largest (run + 1))
      else longest_run bits n (i + 1) 0 largest
  end.

Definition umb_largest (u : Uma) : Z := u16 (longest_run (umb_avail u) UMA_PAGES 0 0 0 * 0x100).

(** Functions 10h and 11h of the XMS driver. *)
Definition request_10 (u : Uma) (r : Regs) : Uma * Regs :=
  match umb_alloc u (dx r) with
  | Some (u', (seg, paras), _) => (u', set_dx (set_bx (set_ax r 1) seg) paras)
  | None =>
      let largest := umb_largest u in
      (u, set_dx (set_bl (set_ax r 0) (if 0 <? largest then 0xB0 else 0xB1)) largest)
  end.

Definition release_11 (u : Uma) (r : Regs) : Uma * Regs :=
  match umb_free u (dx r) with
  | Some (u', _) => (u', set_ax r 1)
  | None => (u, set_bl (set_ax r 0) 0xB2)
  end.

(** The bitmaps cover 48 pages and only free pages are allocated. *)
Definition wf (u : Uma) : Prop :=
  fits 48 (uma_free u) /\ fits 48 (umb_allocated u) /\
  (forall i, Z.testbit (umb_allocated u) i = true -> Z.testbit (uma_free u) i = true).

(** ** Lemmas *)

Lemma is_set_testbit b i : 0 <= i -> is_set b i = Z.testbit b i.
Proof. apply land_bit_eqb. Qed.

Lemma testbit_range_mask start n i :
  0 <= start -> Z.testbit (range_mask start n) i = bool_decide (start <= i < start + Z.of_nat n).
Proof.
  intros Hs. induction n as [|n IH]; cbn [range_mask].
  - rewrite Z.testbit_0_l. symmetry. apply bool_decide_eq_false_2. lia.
  - rewrite testbit_set, IH by lia. repeat case_bool_decide; try lia; done.
Qed.

Lemma range_mask_nonneg start n : 0 <= range_mask start n.
Proof.
  induction n as [|n IH]; cbn [range_mask]; [done|].
  apply Z.lor_nonneg. split; [done|apply bit_nonneg].
Qed.

(** What the scan finds: the first window of [need] set bits. *)
Lemma find_run_spec bits need n i st len :
  0 <= i -> 0 <= len < need -> len <= i -> (0 < len -> st = i - len) ->
  (forall j, i - len <= j < i -> Z.testbit bits j = true) ->
  match find_run bits need n i st len with
  | Some s => i - len <= s /\ s + need <= i + Z.of_nat n /\
              forall j, s <= j < s + need -> Z.testbit bits j = true
  | None => (i - len = 0 \/ Z.testbit bits (i - len - 1) = false) ->
            forall s, i - len <= s -> s + need <= i + Z.of_nat n ->
              exists j, s <= j < s + need /\ Z.testbit bits j = false
  end.
Proof.
  revert i st len; induction n as [|n IH]; intros i st len Hi Hl Hli Hst Hb; cbn [find_run].
  - intros _ s Hs Hn. lia.
  - rewrite is_set_testbit by done. destruct (Z.testbit bits i) eqn:E.
    + assert ((if len =? 0 then i else st) = i - len) as -> by (bool_prop; lia).
      assert (forall j, i - len <= j < i + 1 -> Z.testbit bits j = true) as Hb'.
      { intros j Hj. destruct (Z.eq_dec j i) as [->|]; [done|]. apply Hb; lia. }
      destruct (Z.leb_spec need (len + 1)).
      * split_and!; try lia. intros j Hj. apply Hb'; lia.
      * specialize (IH (i + 1) (i - len) (len + 1)).
        replace (i + 1 - (len + 1)) with (i - len) in IH by lia.
        replace (i + 1 + Z.of_nat n) with (i + Z.of_nat (S n)) in IH by lia.
        apply IH; try lia. done.
    + specialize (IH (i + 1) st 0). rewrite Z.sub_0_r in IH.
      replace (i + 1 + Z.of_nat n) with (i + Z.of_nat (S n)) in IH by lia.
      destruct (find_run bits need n (i + 1) st 0) as [s|].
      * destruct IH as (? & ? & ?); try lia. split_and!; try lia. done.
      * intros _ s Hs Hn. destruct (Z.le_gt_cases s i).
        -- exists i. split; [lia|done].
        -- apply IH; try lia. right. by replace (i + 1 - 1) with i by lia.
Qed.

Lemma longest_run_ge bits n i run largest : largest <= longest_run bits n i run largest.
Proof.
  revert i run largest; induction n as [|n IH]; intros i run largest; cbn [longest_run]; [done|].
  destruct (is_set bits i); [|apply IH].
  etransitivity; [|apply IH]. lia.
Qed.

Lemma longest_run_le bits n i run largest :
  0 <= run -> run <= largest -> longest_run bits n i run largest <= Z.max largest (run + Z.of_nat n).
Proof.
  revert i run largest; induction n as [|n IH]; intros i run largest Hr Hl; cbn [longest_run]; [lia|].
  destruct (is_set bits i).
  - etransitivity; [apply IH; lia|]. lia.
  - etransitivity; [apply IH; lia|]. lia.
Qed.

(** The two scans agree on what fits. *)
Lemma find_run_longest bits need n i st run largest :
  0 <= run < need -> largest < need ->
  (find_run bits need n i st run <> None <-> need <= longest_run bits n i run largest).
Proof.
  revert i st run largest; induction n as [|n IH]; intros i st run largest Hr Hl;
    cbn [find_run longest_run]; [split; [done|lia]|].
  destruct (is_set bits i); [|apply IH; lia].
  destruct (Z.leb_spec need (run + 1)).
  - split; [|done]. intros _. etransitivity; [|apply longest_run_ge]. lia.
  - apply IH; lia.
Qed.

Lemma testbit_avail u i :
  wf u -> 0 <= i -> Z.testbit (umb_avail u) i = Z.testbit (uma_free u) i && negb (Z.testbit (umb_allocated u) i).
Proof.
  intros (Hf & Ha & _) Hi. unfold umb_avail. rewrite Z.land_spec.
  destruct (Z.lt_ge_cases i 48).
  - by rewrite testbit_bnot by lia.
  - by rewrite (fits_high 48 (uma_free u)) by (done || lia).
Qed.

Lemma pages_needed_range p :
  fits 16 p -> 0 <= div_ceil (p * 16) 0x1000 <= 256 /\
  p <= div_ceil (p * 16) 0x1000 * 256 < p + 256.
Proof.
  intros Hp. unfold div_ceil. pow2.
  pose proof (Z.div_mod (p * 16 + 4096 - 1) 4096 ltac:(lia)).
  pose proof (Z.mod_pos_bound (p * 16 + 4096 - 1) 4096 ltac:(lia)). lia.
Qed.

Lemma run_end_spec bits n i :
  0 <= i -> let e := run_end bits n i in
  i <= e <= i + Z.of_nat n /\ (forall j, i <= j < e -> Z.testbit bits j = true) /\
  (e < i + Z.of_nat n -> Z.testbit bits e = false).
Proof.
  revert i; induction n as [|n IH]; intros i Hi; cbn [run_end]; [split_and!; lia|].
  rewrite is_set_testbit by done. destruct (Z.testbit bits i) eqn:E; [|split_and!; try lia; done].
  destruct (IH (i + 1)) as (H1 & H2 & H3); [lia|]. cbv zeta in *. split_and!; try lia.
  - intros j Hj. destruct (Z.eq_dec j i) as [->|]; [done|]. apply H2; lia.
  - intros H. apply H3; lia.
Qed.

End Uma.

Import Uma.

(** The three facts a successful allocation gives. *)
Lemma umb_alloc_inv u p u' seg paras page cnt :
  Uma.wf u -> fits 16 p -> umb_alloc u p = Some (u', (seg, paras), (page, cnt)) ->
  let s := page - UMA_BASE in
  0 <= s /\ 0 < cnt /\ s + cnt <= 48 /\ seg = page * 256 /\ paras = cnt * 256 /\
  cnt = div_ceil (p * 16) 0x1000 /\
  (forall j, s <= j < s + cnt ->
     Z.testbit (uma_free u) j = true /\ Z.testbit (umb_allocated u) j = false) /\
  u' = mk (uma_free u) (umb_allocated u .| range_mask s (Z.to_nat cnt)) (ems_base_page u).
Proof.
  intros Hwf Hp E. unfold umb_alloc in E. destruct (pages_needed_range p Hp) as [Hn _].
  set (need := div_ceil (p * 16) 4096) in *.
  destruct (Z.eqb_spec need 0); [done|].
  pose proof (find_run_spec (umb_avail u) need UMA_PAGES 0 0 0) as H.
  destruct (find_run _ _ _ _ _ _) as [s|]; [|done]. injection E as <- <- <- <- <-.
  destruct H as (H1 & H2 & H3); try lia. change (0 + Z.of_nat UMA_PAGES) with 48 in H2.
  replace (UMA_BASE + s - UMA_BASE) with s by lia. unfold UMA_BASE in *.
  split_and!; try lia.
  - rewrite (wrap_small 16 (192 + s)) by (pow2; lia). apply wrap_small. pow2; lia.
  - rewrite (wrap_small 16 need) by (pow2; lia). apply wrap_small. pow2; lia.
  - intros j Hj. specialize (H3 j Hj). rewrite testbit_avail in H3 by (done || lia).
    apply andb_true_iff in H3 as [? ?%negb_true_iff]. done.
  - done.
Qed.

Lemma wf_alloc_range u s n :
  Uma.wf u -> 0 <= s -> s + Z.of_nat n <= 48 ->
  (forall j, s <= j < s + Z.of_nat n -> Z.testbit (uma_free u) j = true) ->
  Uma.wf (mk (uma_free u) (umb_allocated u .| range_mask s n) (ems_base_page u)).
Proof.
  intros (Hf & Ha & Hsub) Hs Hn Hfree. split_and!; cbn; [done| |].
  - apply fits_lor; [lia|done|]. apply fits_testbit; [lia|]. split; [apply range_mask_nonneg|].
    intros i Hi. rewrite testbit_range_mask by done. apply bool_decide_eq_false_2; lia.
  - intros i Hi. rewrite Z.lor_spec, testbit_range_mask in Hi by done.
    apply orb_true_iff in Hi as [Hi|Hi%bool_decide_eq_true]; [by apply Hsub|by apply Hfree].
Qed.

(** A UMB request is exact.  It fails only for zero paragraphs or when
    the request exceeds what [umb_largest] reports; otherwise it returns the
    segment of pages that were free and unallocated, rounded up to whole
    pages by less than one page, marks exactly those pages allocated, and
    keeps the bitmaps consistent. *)
Theorem umb_alloc_exact u p :
  Uma.wf u -> fits 16 p ->
  match umb_alloc u p with
  | Some (u', (seg, paras), (page, cnt)) =>
      seg = page * 256 /\ paras = cnt * 256 /\ p <= paras < p + 256 /\ Uma.wf u' /\
      UMA_BASE <= page /\ page + cnt <= UMA_END /\
      (forall j, 0 <= j < 48 ->
         Z.testbit (umb_avail u') j =
         Z.testbit (umb_avail u) j && negb (bool_decide (page <= UMA_BASE + j < page + cnt))) /\
      (forall j, page <= UMA_BASE + j < page + cnt -> Z.testbit (umb_avail u) j = true)
  | None => p = 0 \/ umb_largest u < p
  end.
Proof.
  intros Hwf Hp. destruct (pages_needed_range p Hp) as [Hn Hr].
  destruct (umb_alloc u p) as [[[u' [seg paras]] [page cnt]]|] eqn:E.
  - destruct (umb_alloc_inv _ _ _ _ _ _ _ Hwf Hp E) as (Hs & Hc & Hb & -> & -> & Hcnt & Hfree & ->).
    rewrite <- Hcnt in Hr.
    assert (Uma.wf (mk (uma_free u) (umb_allocated u .| range_mask (page - UMA_BASE) (Z.to_nat cnt))
              (ems_base_page u))) as Hwf'.
    { apply wf_alloc_range; try done; [lia|]. intros j Hj. apply Hfree. lia. }
    unfold UMA_BASE, UMA_END in *. split_and!; try lia; [done| |].
    + intros j Hj. rewrite !testbit_avail by (done || lia). cbn [uma_free umb_allocated].
      rewrite Z.lor_spec, testbit_range_mask, negb_orb, andb_assoc by lia. f_equal. f_equal.
      apply bool_decide_ext. lia.
    + intros j Hj. destruct (Hfree j) as [H1 H2]; [lia|].
      rewrite testbit_avail by (done || lia). by rewrite H1, H2.
  - unfold umb_alloc in E. set (need := div_ceil (p * 16) 4096) in *.
    destruct (Z.eqb_spec need 0); [left; pow2; lia|]. right.
    destruct (find_run _ _ _ _ _ _) eqn:Ef; [done|].
    pose proof (find_run_longest (umb_avail u) need UMA_PAGES 0 0 0 0) as H.
    rewrite Ef in H. unfold umb_largest. set (L := longest_run _ _ _ _ _) in *.
    assert (~ need <= L) by (intros HL; by apply H in HL; try lia).
    pose proof (longest_run_ge (umb_avail u) UMA_PAGES 0 0 0).
    pose proof (longest_run_le (umb_avail u) UMA_PAGES 0 0 0 ltac:(lia) ltac:(lia)) as HL.
    change (Z.max 0 (0 + Z.of_nat UMA_PAGES)) with 48 in HL.
    rewrite (wrap_small 16) by (pow2; lia). lia.
Qed.

Definition uma_demo : Uma := mk 0xFFFF00000FFF 0 0xCC.

Lemma uma_demo_wf : Uma.wf uma_demo.
Proof.
  split_and!; [by vm_compute..|]. intros i H. change (umb_allocated uma_demo) with 0 in H.
  by rewrite Z.testbit_0_l in H.
Qed.

Lemma umb_alloc_exact_witness :
  exists u', umb_alloc uma_demo 0xD01 = Some (u', (0xE000, 0xE00), (0xE0, 14)) /\ Uma.wf u'.
Proof.
  pose proof (umb_alloc_exact uma_demo 0xD01 uma_demo_wf ltac:(by vm_compute)) as H.
  assert (umb_alloc uma_demo 0xD01 =
    Some (mk 0xFFFF00000FFF 0x3FFF00000000 0xCC, (0xE000, 0xE00), (0xE0, 14))) as E by by vm_compute.
  rewrite E in H. exists (mk 0xFFFF00000FFF 0x3FFF00000000 0xCC). split; [exact E|].
  destruct H as (_ & _ & _ & H & _). exact H.
Defined.

(** Releasing a UMB releases whatever is allocated directly above it.
    When two blocks were handed out back to back, freeing the first returns
    both to the pool: the second owner's release is then refused as an
    invalid segment and its first page is available for another request. *)
Theorem umb_free_takes_neighbour u p1 u1 seg1 n1 pg1 c1 p2 u2 seg2 n2 pg2 c2 :
  Uma.wf u -> fits 16 p1 -> fits 16 p2 ->
  umb_alloc u p1 = Some (u1, (seg1, n1), (pg1, c1)) ->
  umb_alloc u1 p2 = Some (u2, (seg2, n2), (pg2, c2)) -> pg2 = pg1 + c1 ->
  exists u3 n, umb_free u2 seg1 = Some (u3, (pg1, n)) /\ c1 + c2 <= n /\
    umb_free u3 seg2 = None /\ Z.testbit (umb_avail u3) (pg2 - UMA_BASE) = true.
Proof.
  intros Hwf Hp1 Hp2 E1 E2 Hadj.
  destruct (umb_alloc_inv _ _ _ _ _ _ _ Hwf Hp1 E1) as (Hs1 & Hc1 & Hb1 & Hseg1 & _ & _ & Hf1 & Hu1).
  assert (Uma.wf u1) as Hwf1.
  { subst u1. apply wf_alloc_range; try done; [lia|]. intros j Hj. apply Hf1. lia. }
  destruct (umb_alloc_inv _ _ _ _ _ _ _ Hwf1 Hp2 E2) as (Hs2 & Hc2 & Hb2 & Hseg2 & _ & _ & Hf2 & Hu2).
  assert (Uma.wf u2) as Hwf2.
  { subst u2. apply wf_alloc_range; try done; [lia|]. intros j Hj. apply Hf2. lia. }
  assert (forall j, pg1 - UMA_BASE <= j < pg1 - UMA_BASE + c1 + c2 ->
    Z.testbit (umb_allocated u2) j = true) as Hall.
  { intros j Hj. rewrite Hu2, Hu1; cbn [umb_allocated].
    rewrite !Z.lor_spec, !testbit_range_mask by lia.
    destruct (Z.lt_ge_cases j (pg2 - UMA_BASE)).
    - rewrite (bool_decide_eq_true_2 (pg1 - UMA_BASE <= _ < _)) by lia. by rewrite orb_true_r.
    - rewrite (bool_decide_eq_true_2 (pg2 - UMA_BASE <= _ < _)) by lia. by rewrite orb_true_r. }
  unfold umb_free at 1. subst seg1 seg2. rewrite Z.div_mul by lia. unfold UMA_BASE, UMA_END in *.
  destruct (Z.leb_spec 192 pg1), (Z.ltb_spec pg1 240); try lia. cbn [negb andb].
  rewrite is_set_testbit, Hall by lia. cbn [negb].
  pose proof (run_end_spec (umb_allocated u2) (UMA_PAGES - Z.to_nat (pg1 - 192)) (pg1 - 192) ltac:(lia)) as (R1 & R2 & R3).
  set (e := run_end _ _ _) in *.
  assert (pg1 - 192 + c1 + c2 <= e) as He.
  { destruct (Z.le_gt_cases (pg1 - 192 + c1 + c2) e); [done|]. unfold UMA_PAGES in *.
    rewrite Hall in R3 by lia. discriminate R3; lia. }
  do 2 eexists. split; [done|]. split; [lia|].
  assert (Z.testbit (umb_allocated u2 .& bnot 64 (range_mask (pg1 - 192) (Z.to_nat (e - (pg1 - 192))))) (pg2 - 192) = false) as Hclr.
  { rewrite Z.land_spec, testbit_bnot, testbit_range_mask, bool_decide_eq_true_2 by lia.
    by rewrite andb_false_r. }
  split.
  - unfold umb_free, UMA_BASE, UMA_END. rewrite Z.div_mul by lia. cbn [umb_allocated].
    destruct (Z.leb_spec 192 pg2), (Z.ltb_spec pg2 240); try lia. cbn [negb andb].
    by rewrite is_set_testbit, Hclr by lia.
  - unfold umb_avail; cbn [uma_free umb_allocated]. rewrite Z.land_spec, testbit_bnot, Hclr by lia.
    destruct Hwf2 as (_ & _ & Hsub). by rewrite Hsub by (apply Hall; lia).
Qed.

Lemma umb_free_takes_neighbour_witness :
  exists u1 u2 u3 n, umb_alloc uma_demo 0x100 = Some (u1, (0xC000, 0x100), (0xC0, 1)) /\
    umb_alloc u1 0x200 = Some (u2, (0xC100, 0x200), (0xC1, 2)) /\
    umb_free u2 0xC000 = Some (u3, (0xC0, n)) /\ 3 <= n /\ umb_free u3 0xC100 = None.
Proof.
  assert (umb_alloc uma_demo 0x100 =
    Some (mk 0xFFFF00000FFF 1 0xCC, (0xC000, 0x100), (0xC0, 1))) as E1 by by vm_compute.
  assert (umb_alloc (mk 0xFFFF00000FFF 1 0xCC) 0x200 =
    Some (mk 0xFFFF00000FFF 7 0xCC, (0xC100, 0x200), (0xC1, 2))) as E2 by by vm_compute.
  destruct (umb_free_takes_neighbour uma_demo 0x100 _ _ _ _ _ 0x200 _ _ _ _ _
    uma_demo_wf ltac:(by vm_compute) ltac:(by vm_compute) E1 E2 eq_refl) as (u3 & n & H1 & H2 & H3 & _).
  exists (mk 0xFFFF00000FFF 1 0xCC), (mk 0xFFFF00000FFF 7 0xCC), u3, n.
  split; [exact E1|]. split; [exact E2|]. split; [exact H1|]. split; [lia|exact H3].
Defined.
