(* ===== verification/Xms.v ===== *)
(** The XMS 3.0 driver (kernel/src/kernel/dos/xms.rs, up to [xms_move]).

    [XmsState] is the handle table, and one definition per function of
    [xms_dispatch] gives its registers and state.  The upper memory blocks
    of functions 10h and 11h are in Umb. *)

From Stdlib Require Import ZArith Lia Bool.
From stdpp Require Import base option list numbers sorting.
From S2P Require Import Prelude Guest Umb.

Definition MAX_XMS_HANDLES : nat := 16.
Definition XMS_BASE : Z := 0x120000.
Definition XMS_END : Z := 0x500000.
Definition XMS_TOTAL_KB : Z := u16 ((XMS_END - XMS_BASE) / 1024).

Record XmsHandle := mkHandle { base : Z; size_kb : Z; locked : bool }.

Module XmsState.

Abbreviation XmsState := (list (option XmsHandle)).
Definition new : XmsState := replicate MAX_XMS_HANDLES None.

(** [handles.iter().flatten()] *)
Definition live (s : XmsState) : list XmsHandle := omap id s.

(** The allocated ranges (base, bytes) in handle order. *)
Definition ranges (s : XmsState) : list (Z * Z) :=
  map (fun h => (base h, size_kb h * 1024)) (live s).

(** The insertion sort by base.  The sorted prefix is held last element
    first, so that [insert_left] is the inner loop
    [while j > 0 && ranges[j].0 < ranges[j-1].0 { swap; j -= 1 }]. *)
Fixpoint insert_left (x : Z * Z) (prefix : list (Z * Z)) : list (Z * Z) :=
  match prefix with
  | [] => [x]
  | y :: prefix' => if fst x <? fst y then y :: insert_left x prefix' else x :: prefix
  end.
Definition sort (l : list (Z * Z)) : list (Z * Z) :=
  rev (foldl (fun prefix x => insert_left x prefix) [] l).

(** The gap scan of [find_free] over the sorted ranges. *)
Fixpoint scan (size start : Z) (l : list (Z * Z)) : option Z :=
  match l with
  | [] => if size <=? sat_sub XMS_END start then Some start else None
  | (b, n) :: l =>
      if size <=? sat_sub b start then Some start else scan size (u32 (b + n)) l
  end.
Definition find_free (s : XmsState) (size : Z) : option Z :=
  if size =? 0 then Some XMS_BASE else scan size XMS_BASE (sort (ranges s)).

Definition free_kb (s : XmsState) : Z :=
  sat_sub XMS_TOTAL_KB (u16 (foldl (fun used h => u32 (used + size_kb h)) 0 (live s))).

Fixpoint max_gap (largest start : Z) (l : list (Z * Z)) : Z :=
  match l with
  | [] => Z.max largest (sat_sub XMS_END start)
  | (b, n) :: l => max_gap (Z.max largest (sat_sub b start)) (u32 (b + n)) l
  end.
Definition largest_free_kb (s : XmsState) : Z :=
  u16 (max_gap 0 XMS_BASE (sort (ranges s)) / 1024).

(** The first free slot. *)
Fixpoint first_none (s : XmsState) : option nat :=
  match s with
  | [] => None
  | None :: _ => Some 0%nat
  | Some _ :: s => option_map S (first_none s)
  end.

(** [handles[handle - 1]] for a handle in 1..=16 that is allocated. *)
Definition get (s : XmsState) (handle : Z) : option XmsHandle :=
  if (1 <=? handle) && (handle - 1 <? Z.of_nat MAX_XMS_HANDLES)
  then mjoin (s !! Z.to_nat (handle - 1)) else None.
Definition set (s : XmsState) (handle : Z) (h : option XmsHandle) : XmsState :=
  <[Z.to_nat (handle - 1) := h]> s.

(** Failure with an error code in BL. *)
Definition fail (r : Regs) (code : Z) : Regs := set_bl (set_ax r 0) code.

Definition version_00 (r : Regs) : Regs := set_dx (set_bx (set_ax r 0x0300) 0x0001) 0.
Definition a20_03 (r : Regs) : Regs := set_bx (set_ax r 1) 0.
Definition query_free_08 (s : XmsState) (r : Regs) : Regs :=
  set_dx (set_ax r (largest_free_kb s)) (free_kb s).

Definition allocate_09 (s : XmsState) (r : Regs) : XmsState * Regs :=
  let size_kb := dx r in
  match first_none s with
  | Some i =>
      match find_free s (u32 (size_kb * 1024)) with
      | Some b => (<[i := Some (mkHandle b size_kb false)]> s,
                   set_dx (set_ax r 1) (Z.of_nat i + 1))
      | None => (s, fail r 0xA0)
      end
  | None => (s, fail r 0xA1)
  end.

Definition free_0A (s : XmsState) (r : Regs) : XmsState * Regs :=
  match get s (dx r) with
  | Some _ => (set s (dx r) None, set_ax r 1)
  | None => (s, fail r 0xA2)
  end.

Definition lock_0C (s : XmsState) (r : Regs) : XmsState * Regs :=
  match get s (dx r) with
  | Some h => (set s (dx r) (Some (mkHandle (base h) (size_kb h) true)),
               set_ax (set_bx (set_dx r (base h ≫ 16)) (base h .& 0xFFFF)) 1)
  | None => (s, fail r 0xA2)
  end.

Definition unlock_0D (s : XmsState) (r : Regs) : XmsState * Regs :=
  match get s (dx r) with
  | Some h => (set s (dx r) (Some (mkHandle (base h) (size_kb h) false)), set_ax r 1)
  | None => (s, fail r 0xA2)
  end.

Definition info_0E (s : XmsState) (r : Regs) : Regs :=
  match get s (dx r) with
  | Some h =>
      let lock_count := if locked h then 1 else 0 in
      let free_handles := u8 (Z.of_nat (length (filter (fun h => h = None) s))) in
      set_ax (set_dx (set_rbx r ((rbx r .& bnot 64 0xFFFF) .| (lock_count ≪ 8) .| free_handles))
                (size_kb h)) 1
  | None => fail r 0xA2
  end.

Definition realloc_0F (s : XmsState) (r : Regs) : XmsState * Regs :=
  let new_kb := bx r in
  match get s (dx r) with
  | Some old =>
      let s1 := set s (dx r) None in
      match find_free s1 (u32 (new_kb * 1024)) with
      | Some b => (set s1 (dx r) (Some (mkHandle b new_kb (locked old))), set_ax r 1)
      | None => (set s1 (dx r) (Some old), fail r 0xA0)
      end
  | None => (s, fail r 0xA2)
  end.

Definition query_free_88 (s : XmsState) (r : Regs) : Regs :=
  let free := free_kb s in
  let r := set_dx (set_ax r (free .& 0xFFFF)) (free .& 0xFFFF) in
  set_bx (set_ecx r (XMS_END - 1)) 0.

(** The end of a move operand in bytes, [usize] being [w] bits wide, or
    the error: conventional memory for handle 0, a block otherwise. *)
Definition resolve (w : Z) (s : XmsState) (handle offset length : Z) : option Z :=
  if handle =? 0 then Some (u32 (((offset ≫ 16) ≪ 4) + (offset .& 0xFFFF)))
  else
    match mjoin (s !! Z.to_nat (handle - 1)) with
    | Some h => if wrap w (offset + length) <=? size_kb h * 1024
                then Some (u32 (base h + offset)) else None
    | None => None
    end.

Definition xms_move (w : Z) (seg_base : Z -> Z) (s : XmsState) (m : Mem) (r : Regs) : Mem * Regs :=
  let addr := linear seg_base r (u16 (ds r)) (u32 (rsi r)) in
  let length := read32 m addr in
  let src_handle := read16 m (u32 (addr + 4)) in
  let src_offset := read32 m (u32 (addr + 6)) in
  let dst_handle := read16 m (u32 (addr + 10)) in
  let dst_offset := read32 m (u32 (addr + 12)) in
  if length =? 0 then (m, set_bx (set_ax r 1) 0)
  else
    match resolve w s src_handle src_offset length with
    | None => (m, fail r 0xA3)
    | Some src =>
        match resolve w s dst_handle dst_offset length with
        | None => (m, fail r 0xA5)
        | Some dst => (copy_within m src dst length, set_bx (set_ax r 1) 0)
        end
    end.

(** [xms_dispatch]: the handle table, the upper memory bitmaps, memory and
    the registers after a call. *)
Definition xms_dispatch (w : Z) (seg_base : Z -> Z) (s : XmsState) (u : Uma.Uma) (m : Mem) (r : Regs)
  : XmsState * Uma.Uma * Mem * Regs :=
  let keep f := (s, u, m, f) in
  let upd (p : XmsState * Regs) := (fst p, u, m, snd p) in
  let upd_u (p : Uma.Uma * Regs) := (s, fst p, m, snd p) in
  let a := ah r in
  if a =? 0x00 then keep (version_00 r)
  else if (0x03 <=? a) && (a <=? 0x06) then keep (a20_03 r)
  else if a =? 0x07 then keep (a20_03 r)
  else if a =? 0x08 then keep (query_free_08 s r)
  else if a =? 0x09 then upd (allocate_09 s r)
  else if a =? 0x0A then upd (free_0A s r)
  else if a =? 0x0B then let '(m, r) := xms_move w seg_base s m r in (s, u, m, r)
  else if a =? 0x0C then upd (lock_0C s r)
  else if a =? 0x0D then upd (unlock_0D s r)
  else if a =? 0x0E then keep (info_0E s r)
  else if a =? 0x0F then upd (realloc_0F s r)
  else if a =? 0x88 then keep (query_free_88 s r)
  else if a =? 0x10 then upd_u (Uma.request_10 u r)
  else if a =? 0x11 then upd_u (Uma.release_11 u r)
  else keep (fail r 0x80).

(** ** Invariant *)

(** Address [a] is in the block of [h]. *)
Definition owns (h : XmsHandle) (a : Z) : Prop := base h <= a < base h + size_kb h * 1024.

Definition block_ok (h : XmsHandle) : Prop :=
  XMS_BASE <= base h /\ 0 < size_kb h /\ base h + size_kb h * 1024 <= XMS_END.

(** Sixteen slots, every block non-empty and within the pool, no two blocks
    sharing an address. *)
Definition wf (s : XmsState) : Prop :=
  length s = MAX_XMS_HANDLES /\
  (forall i h, s !! i = Some (Some h) -> block_ok h) /\
  (forall i j hi hj a, s !! i = Some (Some hi) -> s !! j = Some (Some hj) -> i <> j ->
     owns hi a -> ~ owns hj a).

(** ** Sorting *)

Lemma insert_left_perm x l : insert_left x l ≡ₚ x :: l.
Proof.
  induction l as [|y l IH]; cbn [insert_left]; [done|].
  destruct (fst x <? fst y); [|done]. rewrite IH. constructor.
Qed.

Lemma foldl_insert_perm l p : foldl (fun p x => insert_left x p) p l ≡ₚ p ++ l.
Proof.
  revert p; induction l as [|x l IH]; intros p; cbn [foldl]; [by rewrite app_nil_r|].
  rewrite IH, insert_left_perm. apply Permutation_middle.
Qed.

Lemma sort_perm l : sort l ≡ₚ l.
Proof. unfold sort. rewrite <- Permutation_rev. apply foldl_insert_perm. Qed.

Definition after (x y : Z * Z) : Prop := fst y <= fst x.

Lemma insert_left_sorted x l : StronglySorted after l -> StronglySorted after (insert_left x l).
Proof.
  induction 1 as [|y l Hl IH Hy]; cbn [insert_left]; [repeat constructor|].
  destruct (Z.ltb_spec (fst x) (fst y)).
  - constructor; [done|]. rewrite insert_left_perm. constructor; [unfold after; lia|done].
  - constructor; [by constructor|]. constructor; [unfold after; lia|].
    eapply Forall_impl; [exact Hy|]. unfold after. intros z Hz. lia.
Qed.

Lemma foldl_insert_sorted l p :
  StronglySorted after p -> StronglySorted after (foldl (fun p x => insert_left x p) p l).
Proof. revert p; induction l as [|x l IH]; intros p Hp; cbn [foldl]; [done|]. by apply IH, insert_left_sorted. Qed.

Lemma StronglySorted_rev (l : list (Z * Z)) :
  StronglySorted after l -> StronglySorted (fun x y => fst x <= fst y) (rev l).
Proof.
  induction 1 as [|x l Hl IH Hx]; cbn [rev]; [constructor|].
  apply StronglySorted_app_2; [intros a b Ha Hb|done|repeat constructor].
  apply list_elem_of_singleton in Hb as ->.
  rewrite <- Permutation_rev in Ha. rewrite Forall_forall in Hx. by apply Hx.
Qed.

Lemma sort_sorted l : StronglySorted (fun x y => fst x <= fst y) (sort l).
Proof. apply StronglySorted_rev, foldl_insert_sorted. constructor. Qed.

(** ** The gap scan *)

(** Disjoint non-empty ranges of the pool, as a set. *)
Definition apart (x y : Z * Z) : Prop := fst x + snd x <= fst y \/ fst y + snd y <= fst x.
Definition ranges_ok (l : list (Z * Z)) : Prop :=
  NoDup l /\
  (forall x, x ∈ l -> XMS_BASE <= fst x /\ 0 < snd x /\ fst x + snd x <= XMS_END) /\
  (forall x y, x ∈ l -> y ∈ l -> x <> y -> apart x y).

(** Ranges one after the other from [start]. *)
Fixpoint chain (start : Z) (l : list (Z * Z)) : Prop :=
  match l with
  | [] => start <= XMS_END
  | (b, n) :: l => start <= b /\ 0 < n /\ b + n <= XMS_END /\ chain (b + n) l
  end.

Lemma sorted_chain l start :
  start <= XMS_END -> StronglySorted (fun x y => fst x <= fst y) l -> NoDup l ->
  (forall x, x ∈ l -> start <= fst x /\ 0 < snd x /\ fst x + snd x <= XMS_END) ->
  (forall x y, x ∈ l -> y ∈ l -> x <> y -> apart x y) -> chain start l.
Proof.
  revert start; induction l as [|[b n] l IH]; intros start Hs Hsort Hnd Hr Hd; cbn [chain]; [done|].
  apply StronglySorted_inv in Hsort as [Hsort Hle]. apply NoDup_cons in Hnd as [Hni Hnd].
  destruct (Hr (b, n)) as (H1 & H2 & H3); [by left|]. cbn [fst snd] in *. split_and!; try done.
  apply IH; try done.
  - intros x Hx. destruct (Hr x) as (H4 & H5 & H6); [by right|]. split_and!; try done.
    rewrite Forall_forall in Hle. specialize (Hle x Hx). cbn [fst] in Hle.
    destruct (Hd (b, n) x) as [Ha|Ha]; [by left|by right|intros <-; done|..]; cbn [fst snd] in Ha; lia.
  - intros x y Hx Hy. apply Hd; by right.
Qed.

Lemma ranges_ok_chain l : ranges_ok l -> chain XMS_BASE (sort l).
Proof.
  intros (Hnd & Hr & Hd). pose proof (sort_perm l) as Hp.
  apply sorted_chain; [done|apply sort_sorted|by rewrite Hp| |].
  - intros x Hx. rewrite Hp in Hx. by apply Hr.
  - intros x y Hx Hy. rewrite Hp in Hx, Hy. by apply Hd.
Qed.

(** The scan's answer lies in the pool and touches no range. *)
Lemma scan_sound size start l a :
  0 < size -> 0 <= start -> chain start l -> scan size start l = Some a ->
  start <= a /\ a + size <= XMS_END /\ (forall x, x ∈ l -> apart (a, size) x).
Proof.
  intros Hsz. revert start; induction l as [|[b n] l IH]; intros start H0 Hc; cbn [scan chain] in *.
  - destruct (Z.leb_spec size (sat_sub XMS_END start)); [|done]. intros [= <-].
    unfold sat_sub in *. split_and!; try lia. intros x Hx. by apply not_elem_of_nil in Hx.
  - destruct Hc as (H1 & H2 & H3 & Hc). unfold XMS_END in *.
    assert (forall x start, chain start l -> x ∈ l -> start <= fst x) as Hge.
    { clear. induction l as [|[b n] l IH]; intros x start Hc Hx; [by apply not_elem_of_nil in Hx|].
      destruct Hc as (? & ? & _ & Hc). apply elem_of_cons in Hx as [->|Hx]; [done|].
      specialize (IH _ _ Hc Hx). lia. }
    destruct (Z.leb_spec size (sat_sub b start)).
    + intros [= <-]. unfold sat_sub in *. split_and!; try lia. intros x Hx. left. cbn [fst snd].
      apply elem_of_cons in Hx as [->|Hx]; [cbn; lia|]. specialize (Hge x _ Hc Hx). lia.
    + intros Hs. rewrite wrap_small in Hs by (pow2; lia).
      destruct (IH (b + n)) as (H4 & H5 & H6); try done; [lia|]. split_and!; try lia.
      intros x Hx. apply elem_of_cons in Hx as [->|Hx]; [right; cbn; lia|by apply H6].
Qed.

(** [find_free] and [largest_free_kb] walk the same gaps. *)
Lemma scan_max_gap size start l g :
  0 < size -> (scan size start l <> None \/ size <= g <-> size <= max_gap g start l).
Proof.
  intros Hs. revert start g; induction l as [|[b n] l IH]; intros start g; cbn [scan max_gap].
  - destruct (Z.leb_spec size (sat_sub XMS_END start)).
    + split; [intros _; lia|intros _; by left].
    + split; [intros [?|?]; [done|lia]|intros ?; right; lia].
  - destruct (Z.leb_spec size (sat_sub b start)).
    + split; [|by left]. intros _. apply (IH _ (Z.max g (sat_sub b start))). right. lia.
    + rewrite <- IH. split; intros [?|?]; try (by left); right; lia.
Qed.

Lemma max_gap_range start l g :
  XMS_BASE <= start -> chain start l -> 0 <= g <= XMS_END - XMS_BASE ->
  0 <= max_gap g start l <= XMS_END - XMS_BASE.
Proof.
  revert start g; induction l as [|[b n] l IH]; intros start g H0 Hc Hg; cbn [max_gap chain] in *;
    unfold XMS_BASE, XMS_END in *.
  - unfold sat_sub. lia.
  - destruct Hc as (H1 & H2 & H3 & Hc). rewrite (wrap_small 32 (b + n)) by (pow2; lia).
    apply IH; [lia|done|unfold sat_sub; lia].
Qed.

(** ** The handle table *)

Lemma elem_of_ranges s x :
  x ∈ ranges s <-> exists i h, s !! i = Some (Some h) /\ x = (base h, size_kb h * 1024).
Proof.
  unfold ranges, live. rewrite list_elem_of_fmap. split.
  - intros (h & -> & Hh). apply list_elem_of_omap in Hh as (o & Ho & Eo). cbv [id] in Eo. subst o.
    apply list_elem_of_lookup in Ho as [i Hi]. by exists i, h.
  - intros (i & h & Hi & ->). exists h. split; [done|]. apply list_elem_of_omap.
    exists (Some h). split; [|done]. by eapply list_elem_of_lookup_2.
Qed.

Lemma wf_ranges s : wf s -> ranges_ok (ranges s).
Proof.
  intros (Hl & Hb & Hd).
  assert (forall i j hi hj, s !! i = Some (Some hi) -> s !! j = Some (Some hj) -> i <> j ->
    apart (base hi, size_kb hi * 1024) (base hj, size_kb hj * 1024)) as Hap.
  { intros i j hi hj Hi Hj Hne. unfold apart; cbn [fst snd].
    pose proof (Hb _ _ Hi) as (B1 & B2 & B3). pose proof (Hb _ _ Hj) as (B4 & B5 & B6).
    destruct (Z.le_gt_cases (base hi + size_kb hi * 1024) (base hj)); [by left|].
    destruct (Z.le_gt_cases (base hj + size_kb hj * 1024) (base hi)); [by right|].
    exfalso. apply (Hd i j hi hj (Z.max (base hi) (base hj))); unfold owns; try done; lia. }
  split_and!.
  - clear Hl Hd. revert Hb Hap. induction s as [|[h|] s IH]; intros Hb Hap; [constructor| |].
    + change (ranges (Some h :: s)) with ((base h, size_kb h * 1024) :: ranges s).
      constructor.
      * intros (j & hj & Hj & [= E1 E2])%elem_of_ranges.
        destruct (Hb 0%nat h) as (? & ? & ?); [done|].
        destruct (Hap 0%nat (S j) h hj) as [Ha|Ha]; try done; cbn [fst snd] in Ha; lia.
      * apply IH; [intros i; apply (Hb (S i))|]. intros i j hi hj Hi Hj Hne.
        apply (Hap (S i) (S j)); try done. congruence.
    + apply IH; [intros i; apply (Hb (S i))|]. intros i j hi hj Hi Hj Hne.
      apply (Hap (S i) (S j)); try done. congruence.
  - intros x (i & h & Hi & ->)%elem_of_ranges. destruct (Hb i h Hi) as (? & ? & ?).
    cbn [fst snd]. lia.
  - intros x y (i & hi & Hi & ->)%elem_of_ranges (j & hj & Hj & ->)%elem_of_ranges Hne.
    apply (Hap i j); try done. intros ->. congruence.
Qed.

Lemma first_none_spec s i : first_none s = Some i -> s !! i = Some None.
Proof.
  revert i; induction s as [|[h|] s IH]; intros i; cbn [first_none]; [done| |by intros [= <-]].
  destruct (first_none s) as [j|]; [|done]. cbn. intros [= <-]. by apply IH.
Qed.

Lemma first_none_None s : first_none s = None -> forall i, s !! i <> Some None.
Proof.
  induction s as [|[h|] s IH]; cbn [first_none]; [done| |done].
  destruct (first_none s); [done|]. intros _ [|i]; [done|]. by apply IH.
Qed.

End XmsState.

Import XmsState.

(** * Allocation *)

(** Replacing an empty slot by a block placed in a gap keeps the invariant. *)
Lemma wf_place s i k b lk :
  XmsState.wf s -> s !! i = Some None -> 0 < k -> fits 16 k ->
  find_free s (u32 (k * 1024)) = Some b ->
  XmsState.wf (<[i := Some (mkHandle b k lk)]> s) /\
  (forall j h a, s !! j = Some (Some h) -> owns h a -> ~ (b <= a < b + k * 1024)).
Proof.
  intros Hwf Hi Hk Hf E. pose proof (wf_ranges s Hwf) as Hr. pose proof Hwf as (Hl & Hb & Hd).
  assert (u32 (k * 1024) = k * 1024) as Eu by (apply wrap_small; pow2; lia).
  rewrite Eu in E. unfold find_free in E. destruct (Z.eqb_spec (k * 1024) 0); [lia|].
  destruct (scan_sound (k * 1024) XMS_BASE (sort (ranges s)) b) as (S1 & S2 & S3);
    [lia|by unfold XMS_BASE|by apply ranges_ok_chain|done|].
  assert (forall j h a, s !! j = Some (Some h) -> owns h a -> ~ (b <= a < b + k * 1024)) as Hfresh.
  { intros j h a Hj [Ha1 Ha2] Ha. destruct (S3 (base h, size_kb h * 1024)) as [H|H].
    - rewrite sort_perm. apply elem_of_ranges. eauto.
    - cbn [fst snd] in H. lia.
    - cbn [fst snd] in H. lia. }
  split; [|done]. apply lookup_lt_Some in Hi as Hlt. split_and!.
  - by rewrite length_insert.
  - intros j h Hj. apply list_lookup_insert_Some in Hj as [(<- & [= <-] & _)|[_ Hj]]; [|by eapply Hb].
    unfold block_ok; cbn. lia.
  - intros j1 j2 h1 h2 a H1 H2 Hne Ho1 Ho2.
    apply list_lookup_insert_Some in H1 as [(E1 & [= F1] & _)|[_ H1]];
      apply list_lookup_insert_Some in H2 as [(E2 & [= F2] & _)|[_ H2]].
    + congruence.
    + subst h1. unfold owns in Ho1; cbn in Ho1. by eapply (Hfresh j2 h2 a).
    + subst h2. unfold owns in Ho2; cbn in Ho2. by eapply (Hfresh j1 h1 a).
    + by eapply (Hd j1 j2).
Qed.

Lemma wf_drop s i : XmsState.wf s -> XmsState.wf (<[i := None]> s).
Proof.
  intros (Hl & Hb & Hd). split_and!; [by rewrite length_insert| |].
  - intros j h Hj. apply list_lookup_insert_Some in Hj as [(_ & [=] & _)|[_ Hj]]. by eapply Hb.
  - intros j1 j2 h1 h2 a H1 H2. apply list_lookup_insert_Some in H1 as [(_ & [=] & _)|[_ H1]].
    apply list_lookup_insert_Some in H2 as [(_ & [=] & _)|[_ H2]]. by eapply Hd.
Qed.

(** Changing the lock bit of a block. *)
Lemma wf_relock s i h lk :
  XmsState.wf s -> s !! i = Some (Some h) ->
  XmsState.wf (<[i := Some (mkHandle (base h) (size_kb h) lk)]> s).
Proof.
  intros (Hl & Hb & Hd) Hi.
  assert (forall j h', <[i := Some (mkHandle (base h) (size_kb h) lk)]> s !! j = Some (Some h') ->
    exists h0, s !! j = Some (Some h0) /\ base h' = base h0 /\ size_kb h' = size_kb h0) as Hin.
  { intros j h' Hj. apply list_lookup_insert_Some in Hj as [(<- & [= <-] & _)|[_ Hj]]; eauto. }
  split_and!; [by rewrite length_insert| |].
  - intros j h' Hj. destruct (Hin _ _ Hj) as (h0 & H0 & E1 & E2).
    unfold block_ok. rewrite E1, E2. by apply (Hb j).
  - intros j1 j2 h1 h2 a H1 H2 Hne. destruct (Hin _ _ H1) as (g1 & G1 & E1 & F1).
    destruct (Hin _ _ H2) as (g2 & G2 & E2 & F2). unfold owns. rewrite E1, F1, E2, F2.
    by apply (Hd j1 j2).
Qed.

Lemma get_Some s handle h :
  get s handle = Some h ->
  1 <= handle <= 16 /\ s !! Z.to_nat (handle - 1) = Some (Some h).
Proof.
  unfold get, MAX_XMS_HANDLES. destruct (Z.leb_spec 1 handle), (Z.ltb_spec (handle - 1) (Z.of_nat 16));
    cbn [andb]; try done. destruct (s !! Z.to_nat (handle - 1)) as [[x|]|]; try done.
  intros [= ->]. split; [lia|done].
Qed.

Lemma dx_range r : fits 16 (dx r).
Proof. apply wrap_fits. lia. Qed.
Lemma bx_range r : fits 16 (bx r).
Proof. apply wrap_fits. lia. Qed.

(** A request succeeds exactly when the largest free block covers it. *)
Lemma find_free_largest s k :
  XmsState.wf s -> 0 < k -> fits 16 k ->
  (find_free s (u32 (k * 1024)) <> None <-> k <= largest_free_kb s).
Proof.
  intros Hwf Hk Hf. pose proof (wf_ranges s Hwf) as Hr. apply ranges_ok_chain in Hr as Hc.
  unfold find_free, largest_free_kb. rewrite (wrap_small 32) by (pow2; lia).
  destruct (Z.eqb_spec (k * 1024) 0); [lia|].
  pose proof (scan_max_gap (k * 1024) XMS_BASE (sort (ranges s)) 0 ltac:(lia)) as Hg.
  pose proof (max_gap_range XMS_BASE (sort (ranges s)) 0 ltac:(lia) Hc ltac:(by vm_compute)) as Hm.
  set (g := max_gap _ _ _) in *. unfold XMS_BASE, XMS_END in Hm.
  assert (0 <= g / 1024 < 4096) by (split; [apply Z.div_pos; lia|apply Z.div_lt_upper_bound; lia]).
  rewrite (wrap_small 16) by (pow2; lia).
  transitivity (k * 1024 <= g); [rewrite <- Hg; naive_solver lia|].
  split; intros H'.
  - apply Z.div_le_lower_bound; lia.
  - pose proof (Z.mul_div_le g 1024 ltac:(lia)). lia.
Qed.

(** Allocating a non-empty extended memory block either fails with its
    documented code, leaving every block as it was, or creates a handle
    whose block lies in the pool and shares no byte with any other live
    block.  It fails only when all sixteen handles are in use (A1) or no gap
    is large enough (A0). *)
Theorem xms_allocate_disjoint s r :
  XmsState.wf s -> 0 < dx r ->
  let '(s', r') := allocate_09 s r in
  XmsState.wf s' /\
  ((exists i b, s !! i = Some None /\ s' = <[i := Some (mkHandle b (dx r) false)]> s /\
      ax r' = 1 /\ dx r' = Z.of_nat i + 1 /\ XMS_BASE <= b /\ b + dx r * 1024 <= XMS_END /\
      dx r <= largest_free_kb s /\
      (forall j h a, s !! j = Some (Some h) -> owns h a -> ~ (b <= a < b + dx r * 1024))) \/
   (s' = s /\ ax r' = 0 /\
      (bl r' = 0xA1 /\ (forall i, s !! i <> Some None) \/
       bl r' = 0xA0 /\ largest_free_kb s < dx r))).
Proof.
  intros Hwf Hk. pose proof (dx_range r) as Hf. unfold allocate_09.
  destruct (first_none s) as [i|] eqn:Ei.
  - apply first_none_spec in Ei. destruct (find_free s _) as [b|] eqn:Eb.
    + destruct (wf_place s i (dx r) b false Hwf Ei Hk Hf Eb) as [Hw Hfresh].
      split; [done|]. left. exists i, b. apply lookup_lt_Some in Ei as Hlt.
      pose proof Hwf as (Hl & _). rewrite Hl in Hlt. unfold MAX_XMS_HANDLES in Hlt.
      destruct Hw as (_ & Hb & _). destruct (Hb i (mkHandle b (dx r) false)) as (H1 & _ & H3).
      { apply list_lookup_insert_eq. unfold MAX_XMS_HANDLES in Hl. lia. }
      split_and!; try done.
      * apply low16_read. pow2; lia.
      * apply low16_read. pow2; lia.
      * apply (find_free_largest s (dx r)); try done. by rewrite Eb.
    + split; [done|]. right. split_and!; [done|apply low16_zero|].
      right. split; [apply low8_read; pow2; lia|].
      pose proof (find_free_largest s (dx r) Hwf Hk Hf) as Hg. rewrite Eb in Hg.
      destruct (Z.lt_ge_cases (largest_free_kb s) (dx r)) as [|Hge]; [done|]. by apply Hg in Hge.
  - split; [done|]. right. split_and!; [done|apply low16_zero|].
    left. split; [apply low8_read; pow2; lia|]. by apply first_none_None.
Qed.

(** Two blocks with a gap between them. *)
Definition xms_regs (a d : Z) : Regs := mkRegs (a * 256) 0 0 d 0 0 0 0 true.
Definition xms_demo : XmsState :=
  let s := fst (allocate_09 new (xms_regs 9 64)) in
  let s := fst (allocate_09 s (xms_regs 9 128)) in
  let s := fst (allocate_09 s (xms_regs 9 256)) in
  fst (free_0A s (xms_regs 0x0A 2)).

Lemma xms_new_wf : XmsState.wf new.
Proof.
  assert (forall i h, new !! i <> Some (Some h)) as Hn.
  { intros i h H. apply lookup_replicate in H as [[=] _]. }
  split_and!; [done| |].
  - intros i h H. by destruct (Hn i h).
  - intros i j hi hj a H. by destruct (Hn i hi).
Qed.

Lemma xms_free_wf s r : XmsState.wf s -> XmsState.wf (fst (free_0A s r)).
Proof. intros H. unfold free_0A. destruct (get s (dx r)); [by apply wf_drop|done]. Qed.

Lemma xms_alloc_wf s r : XmsState.wf s -> 0 < dx r -> XmsState.wf (fst (allocate_09 s r)).
Proof.
  intros Hwf Hk. unfold allocate_09. destruct (first_none s) as [i|] eqn:Ei; [|done].
  destruct (find_free s _) as [b|] eqn:Eb; [|done].
  apply (wf_place s i (dx r) b false); try done; [by apply first_none_spec|apply dx_range].
Qed.

Lemma xms_demo_wf : XmsState.wf xms_demo.
Proof. apply xms_free_wf. do 3 (apply xms_alloc_wf; [|by vm_compute]). apply xms_new_wf. Qed.

Lemma xms_allocate_disjoint_witness :
  dx (snd (allocate_09 xms_demo (xms_regs 9 128))) = 2 /\
  XmsState.wf (fst (allocate_09 xms_demo (xms_regs 9 128))).
Proof.
  split; [by vm_compute|].
  pose proof (xms_allocate_disjoint xms_demo (xms_regs 9 128) xms_demo_wf ltac:(by vm_compute)) as H.
  destruct (allocate_09 xms_demo (xms_regs 9 128)) as [s' r']. apply H.
Defined.

(** * The dispatcher *)

(** A call that does not ask for an empty block. *)
Definition sized (r : Regs) : Prop :=
  (ah r = 0x09 -> 0 < dx r) /\ (ah r = 0x0F -> 0 < bx r).

Lemma wf_realloc s r : XmsState.wf s -> 0 < bx r -> XmsState.wf (fst (realloc_0F s r)).
Proof.
  intros Hwf Hk. unfold realloc_0F. destruct (get s (dx r)) as [old|] eqn:Eg; [|done].
  apply get_Some in Eg as [Hr Hg]. apply lookup_lt_Some in Hg as Hlt.
  assert (XmsState.wf (set s (dx r) None)) as Hw1 by by apply wf_drop.
  destruct (find_free _ _) as [b|] eqn:Eb; cbn [fst].
  - apply (wf_place (set s (dx r) None)); try done; [|apply bx_range].
    by apply list_lookup_insert_eq.
  - unfold set. rewrite list_insert_insert_eq. by rewrite list_insert_id.
Qed.

(** C31: no XMS call breaks the pool.  Whatever the function and registers,
    as long as no empty block is requested, the blocks that live handles
    own after the call lie in the pool and are pairwise disjoint. *)
Theorem xms_dispatch_wf w seg_base s u m r :
  XmsState.wf s -> sized r -> XmsState.wf (fst (fst (fst (xms_dispatch w seg_base s u m r)))).
Proof.
  intros Hwf [H9 HF]. unfold xms_dispatch.
  assert (forall h b, get s (dx r) = Some h ->
    XmsState.wf (set s (dx r) (Some (mkHandle (base h) (size_kb h) b)))) as Hlock.
  { intros h b [_ Hg]%get_Some. by apply wf_relock. }
  destruct (Z.eqb_spec (ah r) 0x09), (Z.eqb_spec (ah r) 0x0F); try lia;
    unfold lock_0C, unlock_0D; repeat case_match; cbn [fst snd]; try done.
  all: first [ by apply xms_alloc_wf; auto | by apply wf_realloc; auto
             | by apply xms_free_wf | by apply Hlock ].
Qed.

Lemma xms_dispatch_wf_witness :
  XmsState.wf (fst (fst (fst (xms_dispatch 64 (fun _ => 0) xms_demo Uma.new (fun _ => 0)
    (mkRegs 0x0F00 96 0 1 0 0 0 0 true))))).
Proof. apply xms_dispatch_wf; [apply xms_demo_wf|]. split; by vm_compute. Defined.

(** An empty block defeats the allocator.  After allocating 64 KB, an
    empty block and another 64 KB from a fresh driver, the first and third
    handles own the same memory: the empty block is placed at the start of
    the pool and the gap scan resumes from its end, in front of blocks it
    has already passed. *)
Theorem xms_empty_block_overlaps :
  let s1 := fst (allocate_09 new (xms_regs 9 64)) in
  let s2 := fst (allocate_09 s1 (xms_regs 9 0)) in
  let s3 := fst (allocate_09 s2 (xms_regs 9 64)) in
  exists h1 h3, get s3 1 = Some h1 /\ get s3 3 = Some h3 /\
    owns h1 XMS_BASE /\ owns h3 XMS_BASE.
Proof. do 2 eexists. split; [reflexivity|]. split; [reflexivity|]. split; by vm_compute. Qed.

(** * Moving blocks *)

Lemma read16_range m a : (forall x, fits 8 (m x)) -> fits 16 (read16 m a).
Proof. intros H. unfold read16. pose proof (H a). pose proof (H (a + 1)). pow2; lia. Qed.
Lemma read32_range m a : (forall x, fits 8 (m x)) -> fits 32 (read32 m a).
Proof.
  intros H. unfold read32. pose proof (read16_range m a H). pose proof (read16_range m (a + 2) H). pow2; lia.
Qed.

Lemma resolve_block s handle offset len a :
  XmsState.wf s -> 0 < handle -> fits 32 offset -> fits 32 len ->
  resolve 64 s handle offset len = Some a ->
  exists h, s !! Z.to_nat (handle - 1) = Some (Some h) /\ a = base h + offset /\
    offset + len <= size_kb h * 1024.
Proof.
  intros (_ & Hb & _) Hh Ho Hl. unfold resolve. destruct (Z.eqb_spec handle 0); [lia|].
  destruct (s !! Z.to_nat (handle - 1)) as [[h|]|] eqn:E; try done. cbn.
  rewrite (wrap_small 64) by (pow2; lia). destruct (Z.leb_spec (offset + len) (size_kb h * 1024)); [|done].
  intros [= <-]. exists h. destruct (Hb _ _ E) as (? & ? & ?). unfold XMS_BASE, XMS_END in *.
  split_and!; try done. apply wrap_small. pow2; lia.
Qed.

(** a move between two extended memory blocks on a 64-bit host copies
    exactly the requested bytes, overlap included, and changes no byte
    outside the destination block, so it can touch neither another handle's
    block nor conventional memory; a refused move changes nothing. *)
Theorem xms_move_confined seg_base s m r :
  XmsState.wf s -> (forall a, fits 8 (m a)) ->
  let d := linear seg_base r (u16 (ds r)) (u32 (rsi r)) in
  let len := read32 m d in
  let sh := read16 m (u32 (d + 4)) in let so := read32 m (u32 (d + 6)) in
  let dh := read16 m (u32 (d + 10)) in let off := read32 m (u32 (d + 12)) in
  0 < sh -> 0 < dh ->
  let '(m', r') := xms_move 64 seg_base s m r in
  (m' = m /\ (len = 0 \/ ax r' = 0)) \/
  (ax r' = 1 /\ exists hs hd, s !! Z.to_nat (sh - 1) = Some (Some hs) /\
     s !! Z.to_nat (dh - 1) = Some (Some hd) /\
     so + len <= size_kb hs * 1024 /\ off + len <= size_kb hd * 1024 /\
     (forall i, 0 <= i < len -> m' (base hd + off + i) = m (base hs + so + i)) /\
     (forall a, ~ owns hd a -> m' a = m a)).
Proof.
  intros Hwf Hm. cbv zeta. intros Hsh Hdh. unfold xms_move.
  set (d := linear _ _ _ _) in *.
  pose proof (read32_range m d Hm) as Rl. pose proof (read32_range m (u32 (d + 6)) Hm) as Rs.
  pose proof (read32_range m (u32 (d + 12)) Hm) as Rd.
  set (len := read32 m d) in *. set (sh := read16 m (u32 (d + 4))) in *.
  set (so := read32 m (u32 (d + 6))) in *. set (dh := read16 m (u32 (d + 10))) in *.
  set (off := read32 m (u32 (d + 12))) in *.
  destruct (Z.eqb_spec len 0); [by auto|].
  destruct (resolve 64 s sh so len) as [src|] eqn:Es; [|left; split; [done|right; apply low16_zero]].
  destruct (resolve 64 s dh off len) as [dst|] eqn:Ed; [|left; split; [done|right; apply low16_zero]].
  destruct (resolve_block _ _ _ _ _ Hwf Hsh Rs Rl Es) as (hs & Hhs & -> & Bs).
  destruct (resolve_block _ _ _ _ _ Hwf Hdh Rd Rl Ed) as (hd & Hhd & -> & Bd).
  right. split; [apply low16_read; pow2; lia|]. exists hs, hd. split_and!; try done.
  - intros i Hi. unfold copy_within.
    destruct (Z.leb_spec (base hd + off) (base hd + off + i)),
      (Z.ltb_spec (base hd + off + i) (base hd + off + len)); try lia. cbn [andb]. f_equal. lia.
  - intros a Ha. unfold copy_within, owns in *. pow2.
    destruct (Z.leb_spec (base hd + off) a), (Z.ltb_spec a (base hd + off + len)); cbn [andb]; try done. lia.
Qed.

(** A move descriptor at 1000h: 100h bytes from handle 1 to handle 3. *)
Definition move_mem : Mem := fun a =>
  if a =? 0x1001 then 1 else if a =? 0x1004 then 1 else if a =? 0x100A then 3
  else if a =? XMS_BASE then 0x5A else 0.

Lemma move_mem_bytes a : fits 8 (move_mem a).
Proof. unfold move_mem. repeat case_match; pow2; lia. Qed.

Lemma xms_move_confined_witness :
  fst (xms_move 64 (fun _ => 0) xms_demo move_mem (mkRegs 0x0B00 0 0 0 0 0 0x100 0 true)) 0x150000 = 0x5A.
Proof.
  set (r := mkRegs 0x0B00 0 0 0 0 0 0x100 0 true).
  pose proof (xms_move_confined (fun _ => 0) xms_demo move_mem r xms_demo_wf move_mem_bytes
    ltac:(by vm_compute) ltac:(by vm_compute)) as H.
  assert (ax (snd (xms_move 64 (fun _ => 0) xms_demo move_mem r)) = 1) as Ha by by vm_compute.
  destruct (xms_move 64 (fun _ => 0) xms_demo move_mem r) as [m' r']. cbn [fst snd] in *.
  destruct H as [[_ [Hl|Hz]]|(_ & hs & hd & Hhs & Hhd & _ & _ & Hc & _)].
  - by vm_compute in Hl.
  - by rewrite Hz in Ha.
  - vm_compute in Hhs, Hhd. injection Hhs as <-. injection Hhd as <-.
    specialize (Hc 0 ltac:(by vm_compute)). exact Hc.
Defined.

(** On a 32-bit host the bounds check of a move wraps: with a [usize] of
    32 bits, a one-kilobyte block accepts an operand of almost four
    gigabytes, because offset plus length is compared after overflow. *)
Theorem xms_move_bound_wraps :
  let s := fst (allocate_09 new (xms_regs 9 1)) in
  resolve 32 s 1 0x200 0xFFFFFF00 = Some (XMS_BASE + 0x200) /\
  resolve 64 s 1 0x200 0xFFFFFF00 = None.
Proof. by vm_compute. Qed.
