(* ===== verification/Ems.v ===== *)
(** The EMS 4.0 driver, INT 67h (kernel/src/kernel/dos/ems.rs).

    [EmsState] is the handle table, the four-window page frame and the bump
    allocator.  The address space is a function from virtual page numbers
    to page-table entries, which the driver only ever swaps.  A result
    [None] is a panic: an out-of-range index of a handle's page list. *)

From Stdlib Require Import ZArith Lia Bool.
From stdpp Require Import base option list numbers.
From S2P Require Import Prelude Guest.

Definition MAX_EMS_HANDLES : nat := 16.
Definition EMS_TOTAL_PAGES : Z := 256.
Definition EMS_BACKING_BASE : Z := 0x500000.
Definition EMS_BACKING_VPAGE : Z := EMS_BACKING_BASE / 0x1000.

(** Page-table entries by virtual page number. *)
Definition PageTable := Z -> Z.
Definition swap_page_entries (pt : PageTable) (a b n : Z) : PageTable :=
  fun p =>
    if (a <=? p) && (p <? a + n) then pt (b + (p - a))
    else if (b <=? p) && (p <? b + n) then pt (a + (p - b))
    else pt p.

(** The virtual pages backing each logical page of a handle. *)
Definition EmsHandle := list Z.

Module EmsState.

Record EmsState := mk {
  handles : list (option EmsHandle);
  frame : list (option (Z * Z));
  next_page : Z
}.

Definition new : EmsState := mk (replicate MAX_EMS_HANDLES None) (replicate 4 None) 0.

Definition set_handles (e : EmsState) hs := mk hs (frame e) (next_page e).
Definition set_frame (e : EmsState) w x := mk (handles e) (<[w := x]> (frame e)) (next_page e).

(** Pages not held by any handle. *)
Definition alloc_pages (e : EmsState) : Z :=
  sat_sub EMS_TOTAL_PAGES
    (foldl (fun used h => u16 (used + u16 (Z.of_nat (length h)))) 0 (omap id (handles e))).

Definition free_all_pages (e : EmsState) : EmsState :=
  mk (replicate MAX_EMS_HANDLES None) (replicate 4 None) (next_page e).

Fixpoint first_none (hs : list (option EmsHandle)) : option nat :=
  match hs with
  | [] => None
  | None :: _ => Some 0%nat
  | Some _ :: hs => option_map S (first_none hs)
  end.

(** [n] pages from the bump allocator. *)
Fixpoint take_pages (n : nat) (next : Z) : list Z * Z :=
  match n with
  | O => ([], next)
  | S n =>
      let '(ps, next') := take_pages n (u16 (next + 1)) in
      (EMS_BACKING_VPAGE + next * 4 :: ps, next')
  end.

(** The handle with a number, and a page of it. *)
Definition handle_at (e : EmsState) (h : Z) : option EmsHandle := mjoin (handles e !! Z.to_nat h).

Section Driver.
Context (ems_base_page : Z).

Definition ems_frame_seg : Z := u16 (u16 ems_base_page * 0x100).
Definition window (w : Z) : Z := ems_base_page + w * 4.

Definition swap_ems_window (pt : PageTable) (w backing_vpage : Z) : PageTable :=
  swap_page_entries pt backing_vpage (window w) 4.

(** Put back what window [w] shows, if its handle is still allocated. *)
Definition swap_out (e : EmsState) (pt : PageTable) (w : Z) : option PageTable :=
  match mjoin (frame e !! Z.to_nat w) with
  | Some (old_h, old_lp) =>
      match handle_at e old_h with
      | Some h =>
          match h !! Z.to_nat old_lp with
          | Some v => Some (swap_ems_window pt w v)
          | None => None
          end
      | None => Some pt
      end
  | None => Some pt
  end.

Definition status_40 (r : Regs) : Regs := set_ah r 0.
Definition frame_41 (r : Regs) : Regs := set_ah (set_bx r ems_frame_seg) 0.
Definition unallocated_42 (e : EmsState) (r : Regs) : Regs :=
  set_ah (set_dx (set_bx r (alloc_pages e)) EMS_TOTAL_PAGES) 0.

Definition allocate_43 (e : EmsState) (r : Regs) : EmsState * Regs :=
  let pages_needed := bx r in
  match first_none (handles e) with
  | Some i =>
      if EMS_TOTAL_PAGES <? u16 (next_page e + pages_needed) then (e, set_ah r 0x88)
      else
        let '(pages, next) := take_pages (Z.to_nat pages_needed) (next_page e) in
        (mk (<[i := Some pages]> (handles e)) (frame e) next, set_ah (set_dx r (Z.of_nat i)) 0)
  | None => (e, set_ah r 0x85)
  end.

Definition map_44 (e : EmsState) (pt : PageTable) (r : Regs) : option (EmsState * PageTable * Regs) :=
  let phys_page := al r in
  let log_page := bx r in
  let handle := dx r in
  if 3 <? phys_page then Some (e, pt, set_ah r 0x8B)
  else if log_page =? 0xFFFF then
    match swap_out e pt phys_page with
    | Some pt => Some (set_frame e (Z.to_nat phys_page) None, pt, set_ah r 0)
    | None => None
    end
  else if Z.of_nat MAX_EMS_HANDLES <=? handle then Some (e, pt, set_ah r 0x83)
  else
    match handle_at e handle with
    | Some h =>
        match h !! Z.to_nat log_page with
        | Some backing_vpage =>
            match swap_out e pt phys_page with
            | Some pt =>
                let pt := swap_ems_window pt phys_page backing_vpage in
                Some (set_frame e (Z.to_nat phys_page) (Some (u8 handle, log_page)), pt, set_ah r 0)
            | None => None
            end
        | None => Some (e, pt, set_ah r 0x8A)
        end
    | None => Some (e, pt, set_ah r 0x83)
    end.

(** [for w in 0..4]: unmap the windows of a handle. *)
Fixpoint release_windows (n : nat) (w : Z) (handle : Z) (e : EmsState) (pt : PageTable)
  : option (EmsState * PageTable) :=
  match n with
  | O => Some (e, pt)
  | S n =>
      match mjoin (frame e !! Z.to_nat w) with
      | Some (h, lp) =>
          if h =? u8 handle then
            match swap_out e pt w with
            | Some pt => release_windows n (w + 1) handle (set_frame e (Z.to_nat w) None) pt
            | None => None
            end
          else release_windows n (w + 1) handle e pt
      | None => release_windows n (w + 1) handle e pt
      end
  end.

Definition release_45 (e : EmsState) (pt : PageTable) (r : Regs) : option (EmsState * PageTable * Regs) :=
  let handle := dx r in
  if handle <? Z.of_nat MAX_EMS_HANDLES then
    match handle_at e handle with
    | Some _ =>
        match release_windows 4 0 handle e pt with
        | Some (e, pt) =>
            Some (set_handles e (<[Z.to_nat handle := None]> (handles e)), pt, set_ah r 0)
        | None => None
        end
    | None => Some (e, pt, set_ah r 0x83)
    end
  else Some (e, pt, set_ah r 0x83).

Definition version_46 (r : Regs) : Regs := set_al (set_ah r 0) 0x40.

Definition open_handles_4B (e : EmsState) (r : Regs) : Regs :=
  set_ah (set_bx r (u16 (Z.of_nat (length (omap id (handles e)))))) 0.

Definition handle_pages_4C (e : EmsState) (r : Regs) : Regs :=
  if dx r <? Z.of_nat MAX_EMS_HANDLES then
    match handle_at e (dx r) with
    | Some h => set_ah (set_bx r (Z.of_nat (length h))) 0
    | None => set_ah r 0x83
    end
  else set_ah r 0x83.

(** Pairs (handle, pages) written from [addr]; returns their number. *)
Fixpoint write_handles (hs : list (option EmsHandle)) (i : Z) (m : Mem) (addr count : Z) : Mem * Z :=
  match hs with
  | [] => (m, count)
  | Some h :: hs =>
      let m := write16 m addr (u16 i) in
      let m := write16 m (addr + 2) (u16 (Z.of_nat (length h))) in
      write_handles hs (i + 1) m (u32 (addr + 4)) (u16 (count + 1))
  | None :: hs => write_handles hs (i + 1) m addr count
  end.

Definition all_pages_4D (e : EmsState) (m : Mem) (r : Regs) : Mem * Regs :=
  let addr := u32 (u32 (u32 (es r) ≪ 4) + u32 (rdi r)) in
  let '(m, count) := write_handles (handles e) 0 m addr 0 in
  (m, set_ah (set_bx r count) 0).

(** The loop of function 50h: the error code, or 0 at the end. *)
Fixpoint map_many (n : nat) (i : Z) (by_segment : bool) (handle base_addr : Z) (m : Mem)
    (e : EmsState) (pt : PageTable) : option (EmsState * PageTable * Z) :=
  match n with
  | O => Some (e, pt, 0)
  | S n =>
      let log_page := read16 m (u32 (base_addr + i * 4)) in
      let phys_raw := read16 m (u32 (base_addr + i * 4 + 2)) in
      let phys_page := if by_segment then u8 (u16 (phys_raw - ems_frame_seg) / 0x400)
                       else u8 phys_raw in
      if 3 <? phys_page then Some (e, pt, 0x8B)
      else
        match swap_out e pt phys_page with
        | None => None
        | Some pt =>
            if log_page =? 0xFFFF
            then map_many n (i + 1) by_segment handle base_addr m
                   (set_frame e (Z.to_nat phys_page) None) pt
            else
              match handle_at e handle with
              | Some h =>
                  match h !! Z.to_nat log_page with
                  | Some v =>
                      map_many n (i + 1) by_segment handle base_addr m
                        (set_frame e (Z.to_nat phys_page) (Some (u8 handle, log_page)))
                        (swap_ems_window pt phys_page v)
                  | None => Some (e, pt, 0x8A)
                  end
              | None => Some (e, pt, 0x8A)
              end
        end
  end.

Definition map_multiple_50 (e : EmsState) (pt : PageTable) (m : Mem) (r : Regs)
  : option (EmsState * PageTable * Regs) :=
  let handle := dx r in
  let base_addr := (u16 (ds r) ≪ 4) + u16 (rsi r) in
  match (if handle <? Z.of_nat MAX_EMS_HANDLES then handle_at e handle else None) with
  | None => Some (e, pt, set_ah r 0x83)
  | Some _ =>
      match map_many (Z.to_nat (cx r)) 0 (negb (al r =? 0)) handle base_addr m e pt with
      | Some (e, pt, code) => Some (e, pt, set_ah r code)
      | None => None
      end
  end.

Definition reallocate_51 (e : EmsState) (r : Regs) : EmsState * Regs :=
  let handle := dx r in
  let new_count := bx r in
  if Z.of_nat MAX_EMS_HANDLES <=? handle then (e, set_ah r 0x83)
  else
    match handle_at e handle with
    | Some h =>
        let old_count := Z.of_nat (length h) in
        if old_count <? new_count then
          if EMS_TOTAL_PAGES <? u16 (next_page e + u16 (new_count - u16 old_count))
          then (e, set_ah r 0x88)
          else
            let '(pages, next) := take_pages (Z.to_nat (new_count - old_count)) (next_page e) in
            (mk (<[Z.to_nat handle := Some (h ++ pages)]> (handles e)) (frame e) next,
             set_bx (set_ah r 0) new_count)
        else
          (set_handles e (<[Z.to_nat handle := Some (take (Z.to_nat new_count) h)]> (handles e)),
           set_bx (set_ah r 0) new_count)
    | None => (e, set_ah r 0x83)
    end.

Definition mappable_58 (m : Mem) (r : Regs) : Mem * Regs :=
  if al r =? 0 then
    let base := u32 (u32 (u32 (es r) ≪ 4) + u32 (rdi r)) in
    let m := foldl (fun m i =>
        let m := write16 m (u32 (base + i * 4)) (u16 (ems_frame_seg + i * 0x400)) in
        write16 m (u32 (base + i * 4 + 2)) i) m [0; 1; 2; 3] in
    (m, set_ah (set_cx r 4) 0)
  else (m, set_ah (set_cx r 4) 0).

(** [int_67h]: [dpmi] is whether a DPMI client is active. *)
Definition int_67h (dpmi : bool) (e : EmsState) (pt : PageTable) (m : Mem) (r : Regs)
  : option (EmsState * PageTable * Mem * Regs) :=
  let regs f := Some (e, pt, m, f) in
  let state (p : EmsState * Regs) := Some (fst p, pt, m, snd p) in
  let space (p : option (EmsState * PageTable * Regs)) :=
    match p with Some (e, pt, r) => Some (e, pt, m, r) | None => None end in
  let memory (p : Mem * Regs) := Some (e, pt, fst p, snd p) in
  let a := ah r in
  if dpmi then regs (set_ah r 0x80)
  else if a =? 0x40 then regs (status_40 r)
  else if a =? 0x41 then regs (frame_41 r)
  else if a =? 0x42 then regs (unallocated_42 e r)
  else if a =? 0x43 then state (allocate_43 e r)
  else if a =? 0x44 then space (map_44 e pt r)
  else if a =? 0x45 then space (release_45 e pt r)
  else if a =? 0x46 then regs (version_46 r)
  else if a =? 0x4B then regs (open_handles_4B e r)
  else if a =? 0x4C then regs (handle_pages_4C e r)
  else if a =? 0x4D then memory (all_pages_4D e m r)
  else if a =? 0x50 then space (map_multiple_50 e pt m r)
  else if a =? 0x51 then state (reallocate_51 e r)
  else if a =? 0x58 then memory (mappable_58 m r)
  else regs (set_ah r 0x84).

(** ** What the driver promises *)

(** A backing page of a handle. *)
Definition backing (e : EmsState) (h lp v : Z) : Prop :=
  0 <= h /\ 0 <= lp /\ exists pages, handle_at e h = Some pages /\ pages !! Z.to_nat lp = Some v.

(** Where the 16 KB of logical page [lp] of handle [h] are: in the window
    that shows it, or at its backing page. *)
Definition located (e : EmsState) (h lp a : Z) : Prop :=
  (exists w, frame e !! w = Some (Some (h, lp)) /\ a = window (Z.of_nat w)) \/
  ((forall w, frame e !! w <> Some (Some (h, lp))) /\ backing e h lp a).

Record wf (e : EmsState) : Prop := {
  wf_handles : length (handles e) = MAX_EMS_HANDLES;
  wf_frame : length (frame e) = 4%nat;
  wf_base : 0xC0 <= ems_base_page /\ ems_base_page + 16 <= 0xF0;
  wf_backing h lp v : backing e h lp v -> exists k, 0 <= k < next_page e /\ v = EMS_BACKING_VPAGE + k * 4;
  wf_next : 0 <= next_page e <= EMS_TOTAL_PAGES;
  wf_distinct h1 lp1 h2 lp2 v : backing e h1 lp1 v -> backing e h2 lp2 v -> h1 = h2 /\ lp1 = lp2;
  wf_shown w h lp : frame e !! w = Some (Some (h, lp)) -> h < 16 /\ exists v, backing e h lp v;
  wf_once w1 w2 x : frame e !! w1 = Some (Some x) -> frame e !! w2 = Some (Some x) -> w1 = w2
}.

(** The same 16 KB, page by page. *)
Definition same16 (pt pt' : PageTable) (a a' : Z) : Prop := forall i, 0 <= i < 4 -> pt' (a' + i) = pt (a + i).

End Driver.
End EmsState.

Import EmsState.

(** * Swapping groups of four pages *)

Definition apart4 (a b : Z) : Prop := a + 4 <= b \/ b + 4 <= a.

Lemma swap_at_first pt a b i : apart4 a b -> 0 <= i < 4 -> swap_page_entries pt a b 4 (a + i) = pt (b + i).
Proof.
  intros H Hi. unfold swap_page_entries.
  destruct (Z.leb_spec a (a + i)), (Z.ltb_spec (a + i) (a + 4)); try lia. cbn [andb]. f_equal. lia.
Qed.

Lemma swap_at_second pt a b i : apart4 a b -> 0 <= i < 4 -> swap_page_entries pt a b 4 (b + i) = pt (a + i).
Proof.
  intros H Hi. unfold swap_page_entries, apart4 in *.
  destruct (Z.leb_spec a (b + i)), (Z.ltb_spec (b + i) (a + 4)); try lia; cbn [andb];
    destruct (Z.leb_spec b (b + i)), (Z.ltb_spec (b + i) (b + 4)); try lia; cbn [andb]; f_equal; lia.
Qed.

Lemma swap_elsewhere pt a b c i :
  apart4 c a -> apart4 c b -> 0 <= i < 4 -> swap_page_entries pt a b 4 (c + i) = pt (c + i).
Proof.
  intros H1 H2 Hi. unfold swap_page_entries, apart4 in *.
  destruct (Z.leb_spec a (c + i)), (Z.ltb_spec (c + i) (a + 4)); try lia; cbn [andb];
    destruct (Z.leb_spec b (c + i)), (Z.ltb_spec (c + i) (b + 4)); try lia; done.
Qed.

Section Driver.
Context (fb : Z).
Implicit Types (e : EmsState) (pt : PageTable).
Abbreviation wf := (EmsState.wf fb).
Abbreviation located := (EmsState.located fb).

Lemma backing_fun e h lp v v' : backing e h lp v -> backing e h lp v' -> v = v'.
Proof. intros (_ & _ & p & H1 & H2) (_ & _ & p' & H1' & H2'). congruence. Qed.

Lemma window_apart w w' : w <> w' -> apart4 (window fb w) (window fb w').
Proof. unfold apart4, window. lia. Qed.

Lemma backing_window_apart e h lp v w :
  wf e -> backing e h lp v -> 0 <= w < 4 -> apart4 v (window fb w).
Proof.
  intros Hwf Hb Hw. destruct (wf_backing _ _ Hwf _ _ _ Hb) as (k & Hk & ->).
  pose proof (wf_base _ _ Hwf). unfold apart4, window, EMS_BACKING_VPAGE.
  change (EMS_BACKING_BASE / 4096) with 0x500. lia.
Qed.

Lemma backing_apart e h lp v h' lp' v' :
  wf e -> backing e h lp v -> backing e h' lp' v' -> (h', lp') <> (h, lp) -> apart4 v' v.
Proof.
  intros Hwf Hb Hb' Hne. destruct (wf_backing _ _ Hwf _ _ _ Hb) as (k & Hk & ->).
  destruct (wf_backing _ _ Hwf _ _ _ Hb') as (k' & Hk' & ->).
  destruct (Z.eq_dec k k') as [->|]; [|unfold apart4; lia].
  destruct (wf_distinct _ _ Hwf _ _ _ _ _ Hb Hb') as [-> ->]. done.
Qed.

Lemma frame_index e w x : wf e -> frame e !! w = Some x -> (w < 4)%nat.
Proof. intros Hwf H. apply lookup_lt_Some in H. by rewrite (wf_frame _ _ Hwf) in H. Qed.

(** Every logical page is somewhere. *)
Lemma located_total e h lp v : backing e h lp v -> exists a, located e h lp a.
Proof.
  intros Hb. destruct (decide (Some (h, lp) ∈ frame e)) as [[w Hw]%list_elem_of_lookup|Hn].
  - exists (window fb (Z.of_nat w)). left. by exists w.
  - exists v. right. split; [|done]. intros w Hw. apply Hn. by eapply list_elem_of_lookup_2.
Qed.

(** What a located page's handle is. *)
Lemma located_shown e w h lp a :
  wf e -> frame e !! w = Some (Some (h, lp)) -> located e h lp a -> a = window fb (Z.of_nat w).
Proof.
  intros Hwf Hw [(w' & Hw' & ->)|[Hn _]]; [|by destruct (Hn w)].
  by rewrite (wf_once _ _ Hwf w w' (h, lp)).
Qed.

Lemma located_hidden e h lp v a :
  (forall w, frame e !! w <> Some (Some (h, lp))) -> backing e h lp v -> located e h lp a -> a = v.
Proof.
  intros Hn Hb [(w & Hw & _)|(_ & Hb')]; [by destruct (Hn w)|]. by eapply backing_fun.
Qed.

(** Frames that differ only at window [w], between nothing and [(h, lp)]. *)
Definition opens e e' w h lp : Prop :=
  frame e !! w = Some None /\ frame e' = <[w := Some (h, lp)]> (frame e) /\
  handles e' = handles e /\ next_page e' = next_page e /\
  (forall w', frame e !! w' <> Some (Some (h, lp))).

Lemma opens_other e e' w h lp w' x :
  opens e e' w h lp -> x <> (h, lp) ->
  frame e !! w' = Some (Some x) <-> frame e' !! w' = Some (Some x).
Proof.
  intros (Hw & Hf & _) Hx. rewrite Hf. destruct (decide (w = w')) as [<-|Hne].
  - rewrite Hw, list_lookup_insert_eq by (by eapply lookup_lt_Some). naive_solver.
  - by rewrite list_lookup_insert_ne.
Qed.

Lemma backing_same e e' h lp v : handles e' = handles e -> backing e' h lp v <-> backing e h lp v.
Proof. intros H. unfold backing, handle_at. by rewrite H. Qed.

(** Opening a window with the page swapped in, and closing it with the page
    swapped back, are the same exchange: it moves exactly that page. *)
Lemma opens_content e e' w h lp v pt h' lp' a a' :
  wf e -> wf e' -> opens e e' w h lp -> backing e h lp v ->
  located e h' lp' a -> located e' h' lp' a' ->
  same16 pt (swap_ems_window fb pt (Z.of_nat w) v) a a' /\
  same16 pt (swap_ems_window fb pt (Z.of_nat w) v) a' a.
Proof.
  intros Hwf Hwf' Ho Hb Hl Hl'. pose proof Ho as (Hw & Hf & Hh & _ & Hhid).
  pose proof (frame_index e w _ Hwf Hw) as Hw4.
  assert (apart4 v (window fb (Z.of_nat w))) as Hvw by (apply (backing_window_apart e h lp); [done..|lia]).
  unfold same16, swap_ems_window.
  destruct (decide ((h', lp') = (h, lp))) as [[= -> ->]|Hne].
  - rewrite (located_hidden e h lp v a) by done.
    assert (frame e' !! w = Some (Some (h, lp))) as Hsh.
    { rewrite Hf. apply list_lookup_insert_eq. by rewrite (wf_frame _ _ Hwf). }
    rewrite (located_shown e' w h lp a') by done.
    split; intros i Hi; [by apply swap_at_second|by apply swap_at_first].
  - assert (a' = a /\ apart4 a v /\ apart4 a (window fb (Z.of_nat w))) as (-> & A1 & A2).
    { destruct Hl as [(w0 & Hw0 & ->)|(Hn & Hb')].
      - assert (frame e' !! w0 = Some (Some (h', lp'))) as Hw0' by (by apply (opens_other e e' w h lp)).
        rewrite (located_shown e' w0 h' lp' a') by done.
        pose proof (frame_index e w0 _ Hwf Hw0). split_and!; [done| |].
        + pose proof (backing_window_apart e h lp v (Z.of_nat w0) Hwf Hb ltac:(lia)) as H'.
          unfold apart4 in *; lia.
        + apply window_apart. intros E. assert (w0 = w) as -> by lia. congruence.
      - assert (forall w', frame e' !! w' <> Some (Some (h', lp'))) as Hn'.
        { intros w' H'. apply (Hn w'). by apply (opens_other e e' w h lp). }
        apply (backing_same e e' h' lp' a) in Hb' as Hb2; [|done].
        rewrite (located_hidden e' h' lp' a a') by done. split; [done|].
        split; [by apply (backing_apart e h lp v h' lp' a)|].
        apply (backing_window_apart e h' lp'); [done..|lia]. }
    split; intros i Hi; by apply swap_elsewhere.
Qed.

(** Both states around an exchange are well formed together. *)
Lemma opens_wf e e' w h lp v :
  wf e -> opens e e' w h lp -> backing e h lp v -> h < 16 -> wf e'.
Proof.
  intros Hwf Ho Hb Hh. pose proof Ho as (Hw & Hf & Hhs & Hnp & Hhid).
  pose proof (frame_index e w _ Hwf Hw) as Hw4. destruct Hwf as [W1 W2 W3 W4 W5 W6 W7 W8].
  assert (forall w' x, frame e' !! w' = Some (Some x) ->
    (w' = w /\ x = (h, lp)) \/ (frame e !! w' = Some (Some x) /\ x <> (h, lp))) as Hc.
  { intros w' x Hx. rewrite Hf in Hx.
    apply list_lookup_insert_Some in Hx as [(<- & [= <-] & _)|[_ Hx]]; [by left|]. right.
    split; [done|]. intros ->. by apply (Hhid w'). }
  constructor.
  - by rewrite Hhs.
  - by rewrite Hf, length_insert.
  - done.
  - intros h0 lp0 v0 Hb0. rewrite Hnp. apply (W4 h0 lp0). by apply (backing_same e e').
  - by rewrite Hnp.
  - intros h1 l1 h2 l2 v0 H1 H2. eapply W6; by apply (backing_same e e').
  - intros w' h0 l0 [(-> & [= -> ->])|[H0 _]]%Hc.
    + split; [done|]. exists v. by apply (backing_same e e').
    + destruct (W7 _ _ _ H0) as [? [v0 ?]]. split; [done|]. exists v0. by apply (backing_same e e').
  - intros w1 w2 x [(-> & ->)|[H1 N1]]%Hc [(-> & E)|[H2 N2]]%Hc; try done. by eapply W8.
Qed.

(** Closing window [w]. *)
Lemma close_opens e w h lp :
  wf e -> frame e !! w = Some (Some (h, lp)) ->
  opens (set_frame e w None) e w h lp /\ wf (set_frame e w None).
Proof.
  intros Hwf Hw. pose proof (frame_index e w _ Hwf Hw) as Hw4.
  pose proof (wf_frame _ _ Hwf) as W2'. split.
  - split_and!; cbn [set_frame frame handles next_page]; try done.
    + apply list_lookup_insert_eq. lia.
    + rewrite list_insert_insert_eq. by rewrite list_insert_id.
    + intros w' Hx. apply list_lookup_insert_Some in Hx as [(_ & [=] & _)|[Hne Hx]].
      apply Hne. by eapply (wf_once _ _ Hwf).
  - destruct Hwf as [W1 W2 W3 W4 W5 W6 W7 W8]. constructor; try done.
    + cbn. by rewrite length_insert.
    + intros w' h0 l0 Hx. apply list_lookup_insert_Some in Hx as [(_ & [=] & _)|[_ Hx]]. by apply (W7 w').
    + intros w1 w2 x H1 H2. apply list_lookup_insert_Some in H1 as [(_ & [=] & _)|[_ H1]].
      apply list_lookup_insert_Some in H2 as [(_ & [=] & _)|[_ H2]]. by eapply W8.
Qed.

(** Every page keeps its contents from one state to the other. *)
Definition preserved e pt e' pt' : Prop :=
  forall h lp a a', located e h lp a -> located e' h lp a' -> same16 pt pt' a a'.

Lemma preserved_trans e1 pt1 e2 pt2 e3 pt3 :
  wf e1 -> handles e2 = handles e1 ->
  preserved e1 pt1 e2 pt2 -> preserved e2 pt2 e3 pt3 -> preserved e1 pt1 e3 pt3.
Proof.
  intros Hwf Hh H12 H23 h lp a a' Hl Hl'.
  assert (exists v, backing e1 h lp v) as [v Hb].
  { destruct Hl as [(w & Hw & _)|[_ Hb]]; [by destruct (wf_shown _ _ Hwf _ _ _ Hw)|by exists a]. }
  destruct (located_total e2 h lp v) as [a2 Hl2]; [by apply (backing_same e1 e2)|].
  intros i Hi. rewrite (H23 _ _ _ _ Hl2 Hl' i Hi). by apply (H12 h lp).
Qed.

(** [swap_out] never fails, and with the window's entry cleared it preserves
    every page. *)
Lemma swap_out_spec e pt w :
  wf e -> (w < 4)%nat ->
  exists pt', swap_out fb e pt (Z.of_nat w) = Some pt' /\
    wf (set_frame e w None) /\ preserved e pt (set_frame e w None) pt'.
Proof.
  intros Hwf Hw. unfold swap_out. rewrite Nat2Z.id.
  destruct (lookup_lt_is_Some_2 (frame e) w) as [x Hx]; [by rewrite (wf_frame _ _ Hwf)|].
  rewrite Hx. cbn [mjoin option_join]. destruct x as [[h lp]|].
  - destruct (wf_shown _ _ Hwf _ _ _ Hx) as [Hh [v Hb]]. pose proof Hb as (_ & _ & p & Hp & Hv).
    rewrite Hp, Hv. eexists. split; [done|].
    destruct (close_opens e w h lp Hwf Hx) as [Ho Hwf']. split; [done|].
    intros h' lp' a a' Hl Hl'.
    by apply (opens_content (set_frame e w None) e w h lp v pt h' lp' a' a).
  - exists pt. split; [done|].
    assert (set_frame e w None = e) as ->.
    { destruct e as [hs f n]. unfold set_frame; cbn in *. by rewrite list_insert_id. }
    split; [done|]. intros h lp a a' Hl Hl' i Hi. do 2 f_equal.
    destruct Hl as [(w' & Hw' & ->)|[Hn Hb]].
    + by apply (located_shown e w' h lp a').
    + by apply (located_hidden e h lp a a').
Qed.

(** Swapping a page into an empty window. *)
Lemma swap_in_spec e pt w h lp v :
  wf e -> frame e !! w = Some None -> backing e h lp v -> h < 16 ->
  (forall w', frame e !! w' <> Some (Some (h, lp))) ->
  let e' := set_frame e w (Some (h, lp)) in
  let pt' := swap_ems_window fb pt (Z.of_nat w) v in
  wf e' /\ preserved e pt e' pt' /\ located e' h lp (window fb (Z.of_nat w)).
Proof.
  intros Hwf Hw Hb Hh Hhid e' pt'.
  assert (opens e e' w h lp) as Ho by by split_and!.
  assert (wf e') as Hwf' by by eapply opens_wf. split_and!; [done| |].
  - intros h' lp' a a' Hl Hl'. by apply (opens_content e e' w h lp v pt h' lp' a a').
  - left. exists w. split; [|done]. apply list_lookup_insert_eq.
    apply lookup_lt_Some in Hw. done.
Qed.

(** ** Mapping *)

Lemma al_nat r : al r <= 3 -> exists w, al r = Z.of_nat w /\ (w < 4)%nat.
Proof.
  intros H. pose proof (wrap_fits 8 (rax r) ltac:(lia)) as [Hp _]. fold (al r) in Hp.
  exists (Z.to_nat (al r)). lia.
Qed.

Lemma u8_handle r : dx r < 16 -> u8 (dx r) = dx r /\ 0 <= dx r.
Proof.
  intros H. pose proof (wrap_fits 16 (rdx r) ltac:(lia)) as [Hp _]. fold (dx r) in Hp.
  split; [|done]. apply wrap_small. pow2; lia.
Qed.

Lemma preserved_refl e pt : wf e -> preserved e pt e pt.
Proof.
  intros Hwf h lp a a' Hl Hl' i Hi. do 2 f_equal. destruct Hl as [(w & Hw & ->)|[Hn Hb]].
  - by apply (located_shown e w h lp a').
  - by apply (located_hidden e h lp a a').
Qed.

Lemma set_frame_twice e w x y : set_frame (set_frame e w x) w y = set_frame e w y.
Proof. unfold set_frame; cbn. by rewrite list_insert_insert_eq. Qed.

Lemma map_page_spec e pt w h lp v :
  wf e -> (w < 4)%nat -> backing e h lp v -> h < 16 ->
  (forall w', frame e !! w' = Some (Some (h, lp)) -> w' = w) ->
  exists pt1, swap_out fb e pt (Z.of_nat w) = Some pt1 /\
  let e' := set_frame e w (Some (h, lp)) in
  let pt' := swap_ems_window fb pt1 (Z.of_nat w) v in
  wf e' /\ preserved e pt e' pt' /\ located e' h lp (window fb (Z.of_nat w)).
Proof.
  intros Hwf Hw Hb Hh Hone. destruct (swap_out_spec e pt w Hwf Hw) as (pt1 & E & Hwf1 & Hp1).
  exists pt1. split; [done|]. cbv zeta.
  destruct (swap_in_spec (set_frame e w None) pt1 w h lp v) as (H1 & H2 & H3); try done.
  - apply list_lookup_insert_eq. by rewrite (wf_frame _ _ Hwf).
  - intros w' Hx. apply list_lookup_insert_Some in Hx as [(_ & [=] & _)|[Hne Hx]].
    apply Hne. symmetry. by apply Hone.
  - rewrite set_frame_twice in *. split_and!; try done.
    by eapply (preserved_trans e pt (set_frame e w None) pt1).
Qed.

(** ** Releasing *)

Lemma release_windows_spec n w handle e pt :
  wf e -> (w + n = 4)%nat -> 0 <= handle < 16 ->
  exists e' pt', release_windows fb n (Z.of_nat w) handle e pt = Some (e', pt') /\
    wf e' /\ handles e' = handles e /\ next_page e' = next_page e /\ preserved e pt e' pt' /\
    (forall w' x, frame e' !! w' = Some (Some x) -> frame e !! w' = Some (Some x)) /\
    (forall w' lp, (w <= w')%nat -> frame e' !! w' <> Some (Some (handle, lp))).
Proof.
  revert w e pt; induction n as [|n IH]; intros w e pt Hwf Hn Hh; cbn [release_windows].
  - exists e, pt. split_and!; try done; [by apply preserved_refl|].
    intros w' lp Hw Hx. pose proof (frame_index e w' _ Hwf Hx). lia.
  - rewrite Nat2Z.id. replace (Z.of_nat w + 1) with (Z.of_nat (S w)) by lia.
    assert (u8 handle = handle) as -> by (apply wrap_small; pow2; lia).
    destruct (lookup_lt_is_Some_2 (frame e) w) as [x Hx]; [rewrite (wf_frame _ _ Hwf); lia|].
    rewrite Hx. cbn [mjoin option_join].
    destruct x as [[h lp]|]; [destruct (Z.eqb_spec h handle) as [->|Hne]|].
    + destruct (swap_out_spec e pt w Hwf ltac:(lia)) as (pt1 & -> & Hwf1 & Hp1).
      destruct (IH (S w) (set_frame e w None) pt1 Hwf1 ltac:(lia) Hh)
        as (e' & pt' & -> & R1 & R2 & R3 & R4 & R5 & R6).
      exists e', pt'. split_and!; try done.
      * by eapply (preserved_trans e pt (set_frame e w None) pt1).
      * intros w' y Hy. apply R5 in Hy.
        by apply list_lookup_insert_Some in Hy as [(_ & [=] & _)|[_ Hy]].
      * intros w' l Hw Hy. destruct (decide (w' = w)) as [->|]; [|by apply (R6 w' l); [lia|]].
        apply R5 in Hy. cbn in Hy. rewrite list_lookup_insert_eq in Hy; [done|].
        rewrite (wf_frame _ _ Hwf). lia.
    + destruct (IH (S w) e pt Hwf ltac:(lia) Hh) as (e' & pt' & -> & R1 & R2 & R3 & R4 & R5 & R6).
      exists e', pt'. split_and!; try done. intros w' l Hw Hy.
      destruct (decide (w' = w)) as [->|]; [|by apply (R6 w' l); [lia|]]. apply R5 in Hy. congruence.
    + destruct (IH (S w) e pt Hwf ltac:(lia) Hh) as (e' & pt' & -> & R1 & R2 & R3 & R4 & R5 & R6).
      exists e', pt'. split_and!; try done. intros w' l Hw Hy.
      destruct (decide (w' = w)) as [->|]; [|by apply (R6 w' l); [lia|]]. apply R5 in Hy. congruence.
Qed.

(** Dropping a handle none of whose pages is shown. *)
Lemma wf_drop_handle e handle :
  wf e -> 0 <= handle < 16 -> (forall w lp, frame e !! w <> Some (Some (handle, lp))) ->
  let e' := set_handles e (<[Z.to_nat handle := None]> (handles e)) in
  wf e' /\ (forall h lp v, h <> handle -> backing e' h lp v <-> backing e h lp v).
Proof.
  intros Hwf Hh Hn e'. pose proof (wf_handles _ _ Hwf) as W1'.
  assert (forall h lp v, backing e' h lp v <-> backing e h lp v /\ h <> handle) as Hb.
  { intros h lp v. unfold backing, handle_at, e'; cbn [set_handles handles].
    destruct (decide (h = handle)) as [->|Hne].
    - rewrite list_lookup_insert_eq by (rewrite W1'; unfold MAX_EMS_HANDLES; lia).
      cbn. split; [by intros (_ & _ & p & [=] & _)|by intros [_ []]].
    - split.
      + intros (H1 & H2 & p & Hp & Hv). rewrite list_lookup_insert_ne in Hp by lia. eauto 10.
      + intros [(H1 & H2 & p & Hp & Hv) _]. split_and!; try done. exists p.
        by rewrite list_lookup_insert_ne by lia. }
  split; [|intros h lp v Hne; rewrite Hb; tauto].
  destruct Hwf as [W1 W2 W3 W4 W5 W6 W7 W8]. constructor; try done.
  - cbn. by rewrite length_insert.
  - intros h lp v [H _]%Hb. by apply (W4 h lp).
  - intros h1 l1 h2 l2 v [H1 _]%Hb [H2 _]%Hb. by eapply W6.
  - intros w h lp Hw. destruct (W7 w h lp Hw) as [? [v Hv]]. split; [done|]. exists v. apply Hb.
    split; [done|]. intros ->. by apply (Hn w lp).
Qed.

End Driver.

(** C34: mapping and unmapping windows never loses data.  In a driver state in
    which every page shown still belongs to its handle, no page is shown twice
    and no two pages share backing memory ([EmsState.wf]; giving up pages that
    are shown leaves such states), for every register contents, function 44h returns without panicking, keeps the driver's
    invariant and preserves the contents of every logical page of every
    handle, shown or not, provided the page asked for is not already shown
    in a different window; and when it succeeds the window shows exactly
    that page's contents. *)
Theorem ems_map_preserves fb e pt r :
  EmsState.wf fb e ->
  (forall w, frame e !! w = Some (Some (dx r, bx r)) -> Z.of_nat w = al r) ->
  exists e' pt' r', map_44 fb e pt r = Some (e', pt', r') /\ EmsState.wf fb e' /\
    handles e' = handles e /\ preserved fb e pt e' pt' /\
    (ah r' = 0 -> bx r <> 0xFFFF ->
       forall a, EmsState.located fb e (dx r) (bx r) a -> same16 pt pt' a (window fb (al r))).
Proof.
  intros Hwf Hone. unfold map_44.
  assert (forall code, fits 8 code -> code <> 0 ->
    exists e' pt' r', Some (e, pt, set_ah r code) = Some (e', pt', r') /\ EmsState.wf fb e' /\
      handles e' = handles e /\ preserved fb e pt e' pt' /\
      (ah r' = 0 -> bx r <> 0xFFFF ->
       forall a, EmsState.located fb e (dx r) (bx r) a -> same16 pt pt' a (window fb (al r)))) as Hfail.
  { intros code Hc Hnz. exists e, pt, (set_ah r code). split_and!; try done; [by apply preserved_refl|].
    rewrite ah_set_ah by done. done. }
  destruct (Z.ltb_spec 3 (al r)) as [|Hal]; [apply Hfail; pow2; lia|].
  destruct (al_nat r Hal) as (w & Ew & Hw). rewrite Ew in Hfail |- *. rewrite Nat2Z.id.
  destruct (Z.eqb_spec (bx r) 0xFFFF) as [Hu|Hu].
  { destruct (swap_out_spec fb e pt w Hwf Hw) as (pt1 & -> & Hwf1 & Hp1).
    do 3 eexists. split_and!; try done. }
  destruct (Z.leb_spec (Z.of_nat MAX_EMS_HANDLES) (dx r)) as [|Hdx]; [apply Hfail; pow2; lia|].
  change (Z.of_nat MAX_EMS_HANDLES) with 16 in Hdx. destruct (u8_handle r Hdx) as [-> Hdx0].
  destruct (handle_at e (dx r)) as [pages|] eqn:Eh; [|apply Hfail; pow2; lia].
  destruct (pages !! Z.to_nat (bx r)) as [v|] eqn:Ev; [|apply Hfail; pow2; lia].
  assert (backing e (dx r) (bx r) v) as Hb.
  { split_and!; [done|apply (wrap_fits 16); lia|]. by exists pages. }
  destruct (map_page_spec fb e pt w (dx r) (bx r) v Hwf Hw Hb Hdx) as (pt1 & -> & Hwf' & Hp & Hl).
  { intros w' Hx. apply Hone in Hx. lia. }
  do 3 eexists. split_and!; try done. intros _ _ a Ha. by apply (Hp (dx r) (bx r)).
Qed.

(** Releasing a handle keeps everyone else's data.  Function 45h closes
    every window showing the handle, never panics, keeps the invariant and
    preserves the contents of every logical page of every other handle; the
    handle is gone afterwards. *)
Theorem ems_release_preserves fb e pt r pages :
  EmsState.wf fb e -> dx r < 16 -> handle_at e (dx r) = Some pages ->
  exists e' pt', release_45 fb e pt r = Some (e', pt', set_ah r 0) /\ EmsState.wf fb e' /\
    handle_at e' (dx r) = None /\
    (forall h lp a a', h <> dx r -> EmsState.located fb e h lp a -> EmsState.located fb e' h lp a' ->
       same16 pt pt' a a').
Proof.
  intros Hwf Hd Hh. destruct (u8_handle r Hd) as [_ Hd0]. unfold release_45.
  destruct (Z.ltb_spec (dx r) (Z.of_nat MAX_EMS_HANDLES)) as [_|Hx]; [|unfold MAX_EMS_HANDLES in Hx; lia].
  rewrite Hh. destruct (release_windows_spec fb 4 0 (dx r) e pt Hwf ltac:(lia) ltac:(lia))
    as (e1 & pt1 & E & R1 & R2 & R3 & R4 & R5 & R6). change (Z.of_nat 0) with 0 in E. rewrite E.
  destruct (wf_drop_handle fb e1 (dx r) R1 ltac:(lia) ltac:(intros; apply R6; lia)) as [Hwf' Hb].
  do 2 eexists. split; [done|]. split; [done|]. split.
  - unfold handle_at; cbn [set_handles handles]. rewrite list_lookup_insert_eq; [done|].
    rewrite (wf_handles _ _ R1). unfold MAX_EMS_HANDLES. lia.
  - intros h lp a a' Hne Hl Hl'. apply (R4 h lp a a' Hl).
    destruct Hl' as [(w & Hw & ->)|[Hn Hbk]]; [left; by exists w|right]. split; [exact Hn|].
    by apply (Hb h lp).
Qed.

(** * A running driver *)

Definition ems_regs (a b d : Z) : Regs := mkRegs a b 0 d 0 0 0 0 true.

(** Two handles of two pages each, page 1 of handle 0 in window 2. *)
Definition ems_demo : EmsState :=
  let e := fst (allocate_43 new (ems_regs 0x4300 2 0)) in
  let e := fst (allocate_43 e (ems_regs 0x4300 2 0)) in
  set_frame e 2 (Some (0, 1)).

Lemma ems_demo_backing h lp v :
  backing ems_demo h lp v -> (h = 0 \/ h = 1) /\ (lp = 0 \/ lp = 1) /\ v = 0x500 + (2 * h + lp) * 4.
Proof.
  intros (Hh & Hlp & p & Hp & Hv). unfold handle_at, ems_demo in Hp.
  assert (h = 0 \/ h = 1 \/ 2 <= h) as [-> | [-> | Hh2]] by lia.
  1, 2: vm_compute in Hp; injection Hp as <-;
    assert (lp = 0 \/ lp = 1 \/ 2 <= lp) as [-> | [-> | Hl2]] by lia;
    [vm_compute in Hv; injection Hv as <-; lia..|];
    replace (Z.to_nat lp) with (S (S (Z.to_nat (lp - 2)))) in Hv by lia; done.
  exfalso. replace (Z.to_nat h) with (S (S (Z.to_nat (h - 2)))) in Hp by lia.
  change (mjoin (replicate 14 (@None EmsHandle) !! Z.to_nat (h - 2)) = Some p) in Hp.
  destruct (replicate 14 None !! Z.to_nat (h - 2)) as [[q|]|] eqn:E; try done.
  by apply lookup_replicate in E as [[=] _].
Qed.

Lemma ems_demo_frame w x : frame ems_demo !! w = Some (Some x) -> w = 2%nat /\ x = (0, 1).
Proof. intros H. do 4 (destruct w as [|w]; [vm_compute in H; simplify_eq; done|]). done. Qed.

Lemma ems_demo_wf : EmsState.wf 0xD0 ems_demo.
Proof.
  constructor; try done.
  - intros h lp v (H1 & H2 & ->)%ems_demo_backing. exists (2 * h + lp).
    change (next_page ems_demo) with 4. change EMS_BACKING_VPAGE with 0x500. lia.
  - intros h1 l1 h2 l2 v (A1 & A2 & A3)%ems_demo_backing (B1 & B2 & B3)%ems_demo_backing. lia.
  - intros w h lp [_ [= -> ->]]%ems_demo_frame. split; [done|]. exists 0x504.
    split_and!; [done..|]. by eexists.
  - intros w1 w2 x [-> _]%ems_demo_frame [-> _]%ems_demo_frame. done.
Qed.

Lemma ems_map_preserves_witness :
  exists e' pt' r', map_44 0xD0 ems_demo (fun p => p) (ems_regs 0x4402 0 1) = Some (e', pt', r') /\
    EmsState.wf 0xD0 e' /\ pt' 0xD8 = 0x508.
Proof.
  destruct (ems_map_preserves 0xD0 ems_demo (fun p => p) (ems_regs 0x4402 0 1) ems_demo_wf)
    as (e' & pt' & r' & E & Hw & _ & _ & Hs).
  { intros w [-> _]%ems_demo_frame. done. }
  exists e', pt', r'. split; [exact E|]. split; [exact Hw|].
  assert (ah r' = 0) as Hr.
  { apply (f_equal (option_map (fun x => ah (snd x)))) in E. cbn [option_map snd] in E.
    assert (forall x y : Z, Some x = Some y -> x = y) as Hinj by (intros x y [= ->]; done).
    apply Hinj. rewrite <- E. by vm_compute. }
  refine (Hs Hr ltac:(by vm_compute) 0x508 _ 0 ltac:(lia)). right. split.
  - intros w [_ [=]]%ems_demo_frame.
  - split_and!; [done..|]. by eexists.
Defined.

Lemma ems_release_preserves_witness :
  exists e' pt', release_45 0xD0 ems_demo (fun p => p) (ems_regs 0x4500 0 0)
    = Some (e', pt', set_ah (ems_regs 0x4500 0 0) 0) /\ EmsState.wf 0xD0 e' /\ handle_at e' 0 = None.
Proof.
  destruct (ems_release_preserves 0xD0 ems_demo (fun p => p) (ems_regs 0x4500 0 0) [0x500; 0x504]
    ems_demo_wf ltac:(done) ltac:(done)) as (e' & pt' & E & Hw & Hn & _).
  by exists e', pt'.
Defined.

(** * Defects *)

(** Mapping one logical page into two windows, which EMS 4.0 allows, shows
    the first window's original contents in the second: window 3 here ends
    up with the entries window 2 had before anything was mapped. *)
Theorem ems_alias_shows_wrong_page :
  let pt2 := swap_ems_window 0xD0 (fun p => p) 2 0x504 in
  exists e' pt' r', map_44 0xD0 ems_demo pt2 (ems_regs 0x4403 1 0) = Some (e', pt', r') /\
    ah r' = 0 /\ pt2 (window 0xD0 2) = 0x504 /\ pt' (window 0xD0 3) = window 0xD0 2.
Proof. do 3 eexists. split; [reflexivity|]. by vm_compute. Qed.

(** Shrinking a handle below a page that a window shows makes the next map
    or unmap of that window index past the handle's page list. *)
Theorem ems_shrink_then_map_panics :
  let e := fst (reallocate_51 ems_demo (ems_regs 0x5100 1 0)) in
  ah (snd (reallocate_51 ems_demo (ems_regs 0x5100 1 0))) = 0 /\
  forall pt, map_44 0xD0 e pt (ems_regs 0x4402 0xFFFF 0) = None.
Proof. split; [by vm_compute|]. intros pt. reflexivity. Qed.

(** The 16-bit sum in the page check wraps: after one page has been handed
    out, a request for 65535 pages is granted, far past the 256 pages of the
    backing region. *)
Theorem ems_allocate_wraps :
  let e := fst (allocate_43 new (ems_regs 0x4300 1 0)) in
  let '(e', r') := allocate_43 e (ems_regs 0x4300 0xFFFF 0) in
  ah r' = 0 /\
  match handle_at e' 1 with
  | Some pages => Z.of_nat (length pages) = 0xFFFF
  | None => False
  end.
Proof. by vm_compute. Qed.

(** Released pages are counted as free but never handed out again: after the
    whole pool has been allocated and released, function 42h reports 256
    free pages and function 43h refuses a single one. *)
Theorem ems_pages_never_reused :
  let e1 := fst (allocate_43 new (ems_regs 0x4300 256 0)) in
  match release_45 0xD0 e1 (fun p => p) (ems_regs 0x4500 0 0) with
  | Some (e2, _, _) => alloc_pages e2 = 256 /\ ah (snd (allocate_43 e2 (ems_regs 0x4300 1 0))) = 0x88
  | None => False
  end.
Proof. by vm_compute. Qed.
