(* ===== verification/Block.v ===== *)
(** The block-device layer (kernel/src/kernel/block/mod.rs).

    The [Disk] trait is a type class of operations, with the device's state
    threaded through (the source hides it behind [&self]); [DiskLaws] states
    what one layer promises to the next, and every layer (Volume here, the
    write overlay and the page cache in their files) is proved to keep that
    promise over any device that does.

    A buffer is the list of its bytes; [dread] takes the buffer's previous
    contents and returns the new ones with the number of sectors read. *)

From Stdlib Require Import ZArith Lia Bool.
From stdpp Require Import base option list numbers.
From S2P Require Import Prelude.

Definition SECTOR : Z := 512.

(** [buf.len().div_ceil(512)] *)
Definition nsectors (len : Z) : Z := div_ceil len SECTOR.
Abbreviation zlen l := (Z.of_nat (length l)).

Class Disk (D : Type) := {
  dread : D -> Z -> list Z -> D * list Z * Z;
  dwrite : D -> Z -> list Z -> D * Z;
  dsectors : D -> Z
}.

(** [n] bytes of a device from address [a]. *)
Definition bytes_at (f : Z -> Z) (a : Z) (n : nat) : list Z :=
  map (fun i => f (a + Z.of_nat i)) (seq 0 n).

(** An access that lies within the device. *)
Definition in_range (sectors lba len : Z) : Prop := 0 <= lba /\ lba * SECTOR + len <= sectors * SECTOR.

(** What a disk promises: its contents are a function of the byte address,
    which a read never changes and returns when it reports all sectors read;
    a write changes nothing outside its sectors, and when it reports all
    sectors written the contents there are the buffer's.  Nothing is
    promised about a failed transfer's data, nor about the rest of a
    partially written last sector. *)
Class DiskLaws (D : Type) `{Disk D} := {
  content : D -> Z -> Z;
  valid : D -> Prop;
  sectors_range d : valid d -> 0 <= dsectors d /\ dsectors d * SECTOR < 2 ^ 64;
  read_law d lba buf d' buf' n :
    valid d -> in_range (dsectors d) lba (zlen buf) -> dread d lba buf = (d', buf', n) ->
    valid d' /\ dsectors d' = dsectors d /\ (forall a, content d' a = content d a) /\
    length buf' = length buf /\
    (n = nsectors (zlen buf) -> buf' = bytes_at (content d) (lba * SECTOR) (length buf));
  write_law d lba buf d' n :
    valid d -> in_range (dsectors d) lba (zlen buf) -> dwrite d lba buf = (d', n) ->
    valid d' /\ dsectors d' = dsectors d /\
    (forall a, a < lba * SECTOR \/ (lba + nsectors (zlen buf)) * SECTOR <= a ->
       content d' a = content d a) /\
    (n = nsectors (zlen buf) ->
       forall i x, buf !! i = Some x -> content d' (lba * SECTOR + Z.of_nat i) = x)
}.

(** * Lemmas on buffers *)

Lemma length_bytes_at f a n : length (bytes_at f a n) = n.
Proof. unfold bytes_at. by rewrite length_map, length_seq. Qed.

Lemma bytes_at_lookup f a n i : (i < n)%nat -> bytes_at f a n !! i = Some (f (a + Z.of_nat i)).
Proof. intros Hi. unfold bytes_at. by rewrite list_lookup_fmap, lookup_seq_lt by done. Qed.

Lemma bytes_at_ext f g a n :
  (forall i, a <= i < a + Z.of_nat n -> f i = g i) -> bytes_at f a n = bytes_at g a n.
Proof.
  intros H. apply list_eq; intros i. destruct (decide (i < n)%nat).
  - rewrite !bytes_at_lookup by done. f_equal. apply H. lia.
  - by rewrite !lookup_ge_None_2 by (rewrite length_bytes_at; lia).
Qed.

Lemma bytes_at_shift f a b n : bytes_at (fun i => f (b + i)) a n = bytes_at f (b + a) n.
Proof. unfold bytes_at. apply map_ext. intros i. f_equal. lia. Qed.

Lemma bytes_at_app f a n m :
  bytes_at f a (n + m) = bytes_at f a n ++ bytes_at f (a + Z.of_nat n) m.
Proof.
  apply list_eq; intros i. destruct (decide (i < n + m)%nat).
  - rewrite bytes_at_lookup by done. destruct (decide (i < n)%nat).
    + rewrite lookup_app_l by (by rewrite length_bytes_at). by rewrite bytes_at_lookup.
    + rewrite lookup_app_r, length_bytes_at by (rewrite length_bytes_at; lia).
      rewrite bytes_at_lookup by lia. do 2 f_equal. lia.
  - rewrite !lookup_ge_None_2; [done| |]; rewrite ?length_app, ?length_bytes_at; lia.
Qed.

Lemma nsectors_bounds len : 0 <= len -> 0 <= nsectors len /\ len <= nsectors len * SECTOR < len + SECTOR.
Proof.
  intros H. unfold nsectors, div_ceil, SECTOR.
  pose proof (Z.div_mod (len + 512 - 1) 512 ltac:(lia)).
  pose proof (Z.mod_pos_bound (len + 512 - 1) 512 ltac:(lia)).
  pose proof (Z.div_pos (len + 512 - 1) 512). lia.
Qed.

(** * Volumes *)

Module Volume.
Section Volume.
Context {D : Type} `{Disk D}.

Record Volume := mk { disk : D; start : Z; sectors : Z }.

Definition whole (d : D) : Volume := mk d 0 (dsectors d).
Definition new (d : D) (start sectors : Z) : Volume :=
  mk d start (Z.min sectors (sat_sub (dsectors d) start)).

(** How many of [len] bytes fall inside the extent.  A slice has at most
    [isize::MAX] bytes, so the casts are exact. *)
Definition clamp (v : Volume) (lba len : Z) : Z :=
  let want := nsectors len in
  let avail := Z.min (sat_sub (sectors v) lba) want in
  Z.min (avail * SECTOR) len.

Definition read (v : Volume) (lba : Z) (buf : list Z) : Volume * list Z * Z :=
  let n := clamp v lba (zlen buf) in
  let inside := take (Z.to_nat n) buf in
  let past_end := replicate (length buf - Z.to_nat n) 0 in
  if n =? 0 then (v, inside ++ past_end, 0)
  else
    let '(d, inside, cnt) := dread (disk v) (u64 (start v + lba)) inside in
    (mk d (start v) (sectors v), inside ++ past_end, cnt).

Definition write (v : Volume) (lba : Z) (buf : list Z) : Volume * Z :=
  let n := clamp v lba (zlen buf) in
  if n =? 0 then (v, 0)
  else
    let '(d, cnt) := dwrite (disk v) (u64 (start v + lba)) (take (Z.to_nat n) buf) in
    (mk d (start v) (sectors v), cnt).

End Volume.
Arguments Volume : clear implicits.
End Volume.

(** A volume is a disk ([VolumeDisk] of cache.rs). *)
#[export] Instance Volume_Disk {D} `{Disk D} : Disk (Volume.Volume D) := {
  dread := Volume.read;
  dwrite := Volume.write;
  dsectors := Volume.sectors
}.

Section VolumeLaws.
Context {D : Type} `{DiskLaws D}.
Import Volume.
Implicit Types (v : Volume D).

(** The extent lies within the device, or is empty. *)
Definition extent_ok v : Prop :=
  valid (disk v) /\ 0 <= start v /\ 0 <= sectors v /\
  (0 < sectors v -> start v + sectors v <= dsectors (disk v)).

(** Whatever is asked, what reaches the device is a prefix of the request
    that ends inside the extent. *)
Lemma clamp_spec v lba len :
  extent_ok v -> 0 <= lba -> 0 <= len ->
  let n := clamp v lba len in
  0 <= n <= len /\ (0 < n -> lba < sectors v /\ lba * SECTOR + n <= sectors v * SECTOR) /\
  (0 < n -> (lba + nsectors n) * SECTOR <= sectors v * SECTOR).
Proof.
  intros (_ & _ & Hs & _) Hl Hn. cbv zeta. unfold clamp, sat_sub.
  pose proof (nsectors_bounds len Hn) as [N0 N1]. unfold SECTOR in *.
  set (av := Z.min (Z.max 0 (sectors v - lba)) (nsectors len)) in *.
  assert (0 <= av /\ av <= nsectors len /\ (0 < av -> lba + av <= sectors v)) as (A1 & A2 & A3) by lia.
  split_and!; [lia|lia|lia|]. intros Hp.
  pose proof (nsectors_bounds (Z.min (av * 512) len) ltac:(lia)) as [_ N2]. unfold SECTOR in N2. lia.
Qed.

Lemma clamp_inside v lba len :
  in_range (sectors v) lba len -> 0 <= len -> clamp v lba len = len.
Proof.
  intros [Hl Hr] Hn. unfold clamp, sat_sub, SECTOR in *.
  pose proof (nsectors_bounds len Hn) as [N0 N1]. unfold SECTOR in N1. lia.
Qed.

Lemma extent_lba v lba :
  extent_ok v -> 0 <= lba -> lba < sectors v -> u64 (start v + lba) = start v + lba.
Proof.
  intros (Hv & Hs & Hn & He) Hl Hb. destruct (sectors_range _ Hv) as [_ Hr].
  apply wrap_small. split; [lia|]. unfold SECTOR in Hr. lia.
Qed.

#[refine] Instance Volume_Laws : DiskLaws (Volume D) := {
  content v a := content (disk v) (start v * SECTOR + a);
  valid := extent_ok
}.
Proof.
  - intros v (Hv & Hs & Hn & He). cbn. destruct (sectors_range _ Hv) as [_ Hr].
    unfold SECTOR in *. lia.
  - intros v lba buf v' buf' n Hok Hr E. cbn in *. unfold read in E.
    rewrite clamp_inside in E by (done || lia). rewrite Nat2Z.id, Nat.sub_diag, take_ge in E by lia.
    destruct (Z.eqb_spec (zlen buf) 0) as [Hz|Hz].
    { destruct buf; [|cbn in Hz; lia]. simplify_eq. split_and!; done. }
    pose proof Hr as [Hl Hr'].
    destruct (clamp_spec v lba (zlen buf) Hok Hl ltac:(lia)) as (_ & Hc & _).
    rewrite clamp_inside in Hc by (done || lia). destruct Hc as [Hlt _]; [lia|].
    rewrite extent_lba in E by done. destruct Hok as (Hv & Hs & Hn & He).
    destruct (dread (disk v) (start v + lba) buf) as [[d b] c] eqn:Ed. simplify_eq. cbn [replicate].
    rewrite app_nil_r.
    destruct (read_law (disk v) (start v + lba) buf _ _ _ Hv ltac:(split; unfold SECTOR in *; lia) Ed) as (L1 & L2 & L3 & L4 & L5).
    split; [split_and!; cbn; [done|lia|lia|rewrite L2; lia]|]. split_and!; cbn; try done.
    intros Hf. rewrite (L5 Hf), bytes_at_shift. f_equal. lia.
  - intros v lba buf v' n Hok Hr E. cbn in *. unfold write in E.
    rewrite clamp_inside in E by (done || lia). rewrite Nat2Z.id, take_ge in E by lia.
    destruct (Z.eqb_spec (zlen buf) 0) as [Hz|Hz].
    { destruct buf; [|cbn in Hz; lia]. simplify_eq. split_and!; done. }
    pose proof Hr as [Hl Hr'].
    destruct (clamp_spec v lba (zlen buf) Hok Hl ltac:(lia)) as (_ & Hc & _).
    rewrite clamp_inside in Hc by (done || lia). destruct Hc as [Hlt _]; [lia|].
    rewrite extent_lba in E by done. destruct Hok as (Hv & Hs & Hn & He).
    destruct (dwrite (disk v) (start v + lba) buf) as [d c] eqn:Ed. simplify_eq.
    destruct (write_law (disk v) (start v + lba) buf _ _ Hv ltac:(split; unfold SECTOR in *; lia) Ed) as (L1 & L2 & L3 & L4).
    split; [split_and!; cbn; [done|lia|lia|rewrite L2; lia]|]. split_and!; cbn; try done.
    + intros a Ha. apply L3. unfold SECTOR in *. lia.
    + intros Hf i x Hx. rewrite <- (L4 Hf i x Hx). f_equal. lia.
Defined.

End VolumeLaws.
#[export] Existing Instance Volume_Laws.

Section Confinement.
Context {D : Type} `{DiskLaws D}.
Import Volume.

Lemma new_extent_ok (d : D) start sectors :
  valid d -> 0 <= start -> 0 <= sectors -> extent_ok (Volume.new d start sectors).
Proof. intros Hv Hs Hn. unfold extent_ok, Volume.new, sat_sub; cbn. split_and!; [done|lia..]. Qed.

Lemma write_confined (v v' : Volume D) lba buf n a :
  extent_ok v -> 0 <= lba -> Volume.write v lba buf = (v', n) ->
  a < start v * SECTOR \/ (start v + sectors v) * SECTOR <= a ->
  content (disk v') a = content (disk v) a.
Proof.
  intros Hok Hl E Ha. unfold Volume.write in E.
  destruct (clamp_spec v lba (zlen buf) Hok Hl ltac:(lia)) as (C1 & C2 & C3).
  set (c := clamp v lba (zlen buf)) in *. destruct (Z.eqb_spec c 0); [by simplify_eq|].
  destruct C2 as [Hlt Hin]; [lia|]. specialize (C3 ltac:(lia)).
  rewrite extent_lba in E by done. pose proof Hok as (Hv & Hs & Hn & He). specialize (He ltac:(lia)).
  destruct (dwrite (disk v) (start v + lba) (take (Z.to_nat c) buf)) as [d k] eqn:Ed. simplify_eq.
  assert (zlen (take (Z.to_nat c) buf) = c) as Hlen by (rewrite length_take; lia).
  destruct (write_law (disk v) (start v + lba) (take (Z.to_nat c) buf) d n Hv) as (_ & _ & L3 & _);
    [rewrite Hlen; split; unfold SECTOR in *; lia|done|].
  cbn. apply L3. rewrite Hlen. unfold SECTOR in *. lia.
Qed.

Lemma read_past_end (v v' : Volume D) lba buf buf' n i :
  extent_ok v -> 0 <= lba -> Volume.read v lba buf = (v', buf', n) -> (i < length buf)%nat ->
  sectors v * SECTOR <= lba * SECTOR + Z.of_nat i -> buf' !! i = Some 0.
Proof.
  intros Hok Hl E Hi Hp. unfold Volume.read in E.
  destruct (clamp_spec v lba (zlen buf) Hok Hl ltac:(lia)) as (C1 & C2 & C3).
  set (c := clamp v lba (zlen buf)) in *.
  assert (c <= Z.of_nat i) as Hc.
  { destruct (Z.le_gt_cases c 0); [lia|]. destruct C2 as [_ C2]; [lia|]. lia. }
  assert (forall ins : list Z, length ins = Z.to_nat c ->
    (ins ++ replicate (length buf - Z.to_nat c) 0) !! i = Some 0) as Hz.
  { intros ins Hins. rewrite lookup_app_r by lia. apply lookup_replicate. split; [done|lia]. }
  destruct (Z.eqb_spec c 0) as [Hc0|Hc0].
  { simplify_eq. apply Hz. rewrite length_take. lia. }
  destruct C2 as [Hlt Hin]; [lia|]. rewrite extent_lba in E by done.
  pose proof Hok as (Hv & Hs & Hn & He). specialize (He ltac:(lia)).
  destruct (dread (disk v) (start v + lba) (take (Z.to_nat c) buf)) as [[d b] k] eqn:Ed. simplify_eq.
  assert (zlen (take (Z.to_nat c) buf) = c) as Hlen by (rewrite length_take; lia).
  destruct (read_law (disk v) (start v + lba) (take (Z.to_nat c) buf) d b n Hv) as (_ & _ & _ & L4 & _);
    [rewrite Hlen; split; unfold SECTOR in *; lia|done|].
  apply Hz. rewrite L4, length_take. lia.
Qed.

(** A request of any position and length keeps the volume and its buffer
    in shape. *)
Lemma read_any (v v' : Volume D) lba buf buf' n :
  extent_ok v -> 0 <= lba -> Volume.read v lba buf = (v', buf', n) ->
  extent_ok v' /\ dsectors (disk v') = dsectors (disk v) /\ length buf' = length buf.
Proof.
  intros Hok Hl E. unfold Volume.read in E.
  destruct (clamp_spec v lba (zlen buf) Hok Hl ltac:(lia)) as (C1 & C2 & C3).
  set (c := clamp v lba (zlen buf)) in *.
  destruct (Z.eqb_spec c 0) as [Hc0|Hc0].
  { simplify_eq. split_and!; [done..|]. rewrite length_app, length_take, length_replicate. lia. }
  destruct C2 as [Hlt Hin]; [lia|]. rewrite extent_lba in E by done.
  pose proof Hok as (Hv & Hs & Hn & He). specialize (He ltac:(lia)).
  destruct (dread (disk v) (start v + lba) (take (Z.to_nat c) buf)) as [[d b] k] eqn:Ed. simplify_eq.
  assert (zlen (take (Z.to_nat c) buf) = c) as Hlen by (rewrite length_take; lia).
  destruct (read_law (disk v) (start v + lba) (take (Z.to_nat c) buf) d b n Hv) as (L1 & L2 & _ & L4 & _);
    [rewrite Hlen; split; unfold SECTOR in *; lia|done|].
  split; [unfold extent_ok; cbn; rewrite L2; split_and!; [done|lia|lia|lia]|].
  split; [done|]. rewrite length_app, L4, length_take, length_replicate. lia.
Qed.

End Confinement.

(** * A disk in memory *)

(** The simplest disk: [size] sectors of zero-initialised memory, with the
    contract of the block layer's test device. *)
Record MemDisk := mkMem { mem_bytes : Z -> Z; mem_sectors : Z }.
#[export] Instance MemDisk_Disk : Disk MemDisk := {
  dread d lba buf := (d, bytes_at (mem_bytes d) (lba * SECTOR) (length buf), nsectors (zlen buf));
  dwrite d lba buf :=
    (mkMem (fun a => if (lba * SECTOR <=? a) && (a <? lba * SECTOR + zlen buf)
                     then nth (Z.to_nat (a - lba * SECTOR)) buf 0 else mem_bytes d a) (mem_sectors d),
     nsectors (zlen buf));
  dsectors := mem_sectors
}.

#[export, refine] Instance MemDisk_Laws : DiskLaws MemDisk := {
  content := mem_bytes;
  valid d := 0 <= mem_sectors d /\ mem_sectors d * SECTOR < 2 ^ 64
}.
Proof.
  - intros d Hd. exact Hd.
  - intros d lba buf d' buf' n Hd Hr E. cbn in E. simplify_eq. split_and!; try done; [apply Hd..|].
    by rewrite length_bytes_at.
  - intros d lba buf d' n Hd [Hl Hr] E. cbn in E. simplify_eq. split_and!; try done; [apply Hd..| |].
    + intros a Ha. cbn. pose proof (nsectors_bounds (zlen buf) ltac:(lia)) as [_ Hb].
      destruct (Z.leb_spec (lba * SECTOR) a), (Z.ltb_spec a (lba * SECTOR + zlen buf)); cbn [andb]; try done.
      unfold SECTOR in *. lia.
    + intros _ i x Hx. cbn. apply lookup_lt_Some in Hx as Hi.
      destruct (Z.leb_spec (lba * SECTOR) (lba * SECTOR + Z.of_nat i)),
        (Z.ltb_spec (lba * SECTOR + Z.of_nat i) (lba * SECTOR + zlen buf)); try lia. cbn [andb].
      replace (Z.to_nat (lba * SECTOR + Z.of_nat i - lba * SECTOR)) with i by lia.
      by apply nth_lookup_Some.
Defined.

(** A volume built from any partition entry, however bogus, confines the
    filesystem to it.  For every request, in range or not, a write changes
    no byte of the device outside the extent, and the part of a read past
    the end of the extent is zeros rather than the neighbouring
    partition. *)
Theorem volume_confined {D} `{DiskLaws D} (d : D) start sectors lba buf :
  valid d -> 0 <= start -> 0 <= sectors -> 0 <= lba ->
  let v := Volume.new d start sectors in
  (forall v' n a, Volume.write v lba buf = (v', n) ->
     a < start * SECTOR \/ (start + sectors) * SECTOR <= a \/ dsectors d * SECTOR <= a ->
     content (Volume.disk v') a = content d a) /\
  (forall v' buf' n i, Volume.read v lba buf = (v', buf', n) -> (i < length buf)%nat ->
     sectors * SECTOR <= lba * SECTOR + Z.of_nat i -> buf' !! i = Some 0).
Proof.
  intros Hv Hs Hn Hl v. pose proof (new_extent_ok d start sectors Hv Hs Hn) as Hok.
  destruct (sectors_range d Hv) as [Hd _]. split.
  - intros v' n a E Ha. apply (write_confined v v' lba buf n a Hok Hl E).
    unfold v, Volume.new, sat_sub, SECTOR in *; cbn. lia.
  - intros v' buf' n i E Hi Hp. apply (read_past_end v v' lba buf buf' n i Hok Hl E Hi).
    unfold v, Volume.new, sat_sub, SECTOR in *; cbn. lia.
Qed.

Lemma volume_confined_witness :
  let d := mkMem (fun a => a mod 251) 100 in
  content (Volume.disk (fst (Volume.write (Volume.new d 10 5) 3 (replicate 4096 7)))) (15 * 512) = (15 * 512) mod 251 /\
  content (Volume.disk (fst (Volume.write (Volume.new d 10 5) 3 (replicate 4096 7)))) (13 * 512) = 7.
Proof.
  intros d. split; [|by vm_compute].
  destruct (Volume.write (Volume.new d 10 5) 3 (replicate 4096 7)) as [v' n] eqn:E.
  assert (valid d) as Hv by (split; [done|by vm_compute]).
  destruct (volume_confined d 10 5 3 (replicate 4096 7) Hv ltac:(lia) ltac:(lia) ltac:(lia)) as [Hw _].
  apply (Hw v' n (15 * 512) E). unfold SECTOR. lia.
Defined.
