(* ===== verification/Overlay.v ===== *)
(** The volatile write overlay (kernel/src/kernel/block/overlay.rs): a disk
    that diverts every write into a map of sectors that later reads see
    through. *)

From Stdlib Require Import ZArith Lia Bool.
From stdpp Require Import base option list numbers gmap.
From S2P Require Import Prelude Block.

Module RamOverlay.
Section RamOverlay.
Context {D : Type} `{Disk D}.

Record RamOverlay := mk { inner : D; map : gmap Z (list Z) }.

Definition wrap (d : D) : RamOverlay := mk d ∅.

(** The sector of byte [i] of a transfer at [lba]. *)
Definition sector_of (lba : Z) (i : nat) : Z := lba + Z.of_nat (i / 512).

(** Shadowed sectors win, chunk by chunk: byte [i] of the buffer is in chunk
    [i / 512]. *)
Definition shadow (m : gmap Z (list Z)) (lba : Z) (buf : list Z) : list Z :=
  imap (fun i x => match m !! sector_of lba i with
                   | Some s => s !!! (i mod 512)%nat
                   | None => x
                   end) buf.

Definition read (o : RamOverlay) (lba : Z) (buf : list Z) : RamOverlay * list Z * Z :=
  let '(d, buf, n) := dread (inner o) lba buf in
  (mk d (map o), shadow (map o) lba buf, n).

(** The [i]th chunk of a write. *)
Definition write_chunk (lba : Z) (buf : list Z) (o : RamOverlay) (i : nat) : RamOverlay :=
  let chunk := take 512 (drop (512 * i) buf) in
  let sector := lba + Z.of_nat i in
  if (length chunk =? 512)%nat then mk (inner o) (<[sector := chunk]> (map o))
  else
    let '(o, s, _) := read o sector (replicate 512 0) in
    mk (inner o) (<[sector := chunk ++ drop (length chunk) s]> (map o)).

Definition write (o : RamOverlay) (lba : Z) (buf : list Z) : RamOverlay * Z :=
  (foldl (write_chunk lba buf) o (seq 0 (Z.to_nat (nsectors (zlen buf)))), u32 (nsectors (zlen buf))).

End RamOverlay.
Arguments RamOverlay : clear implicits.
End RamOverlay.

#[export] Instance RamOverlay_Disk {D} `{Disk D} : Disk (RamOverlay.RamOverlay D) := {
  dread := RamOverlay.read;
  dwrite := RamOverlay.write;
  dsectors o := dsectors (RamOverlay.inner o)
}.

Section OverlayLaws.
Context {D : Type} `{DiskLaws D}.
Import RamOverlay.
Implicit Types (o : RamOverlay D).

Definition overlay_content o (a : Z) : Z :=
  match map o !! (a / SECTOR) with
  | Some s => s !!! Z.to_nat (a mod SECTOR)
  | None => content (inner o) a
  end.

(** Shadowed sectors are whole. *)
Definition overlay_ok o : Prop :=
  valid (inner o) /\ forall k s, map o !! k = Some s -> length s = 512%nat.

(** Byte [i] of a transfer at [lba], in sector arithmetic. *)
Lemma byte_sector lba i :
  (lba * SECTOR + Z.of_nat i) / SECTOR = sector_of lba i /\
  Z.to_nat ((lba * SECTOR + Z.of_nat i) mod SECTOR) = (i mod 512)%nat.
Proof.
  unfold sector_of, SECTOR. rewrite Z.add_comm, Z.div_add, Z.mod_add by lia.
  rewrite Nat2Z.inj_div. split; [lia|]. change 512 with (Z.of_nat 512) at 1.
  by rewrite <- Nat2Z.inj_mod, Nat2Z.id.
Qed.

Lemma shadow_content o lba n :
  shadow (map o) lba (bytes_at (content (inner o)) (lba * SECTOR) n)
  = bytes_at (overlay_content o) (lba * SECTOR) n.
Proof.
  apply list_eq; intros i. unfold shadow. rewrite list_lookup_imap.
  destruct (decide (i < n)%nat) as [Hi|Hi].
  - rewrite !bytes_at_lookup by done. cbn. f_equal. unfold overlay_content.
    destruct (byte_sector lba i) as [-> ->]. by destruct (map o !! sector_of lba i).
  - by rewrite !lookup_ge_None_2 by (rewrite length_bytes_at; lia).
Qed.

Lemma length_shadow m lba buf : length (shadow m lba buf) = length buf.
Proof. apply length_imap. Qed.

Lemma overlay_read_spec o lba buf o' buf' n :
  overlay_ok o -> in_range (dsectors (inner o)) lba (zlen buf) -> read o lba buf = (o', buf', n) ->
  overlay_ok o' /\ dsectors (inner o') = dsectors (inner o) /\
  (forall a, overlay_content o' a = overlay_content o a) /\
  map o' = map o /\ (forall a, content (inner o') a = content (inner o) a) /\
  length buf' = length buf /\
  (n = nsectors (zlen buf) -> buf' = bytes_at (overlay_content o) (lba * SECTOR) (length buf)).
Proof.
  intros [Hv Hm] Hr E. unfold read in E.
  destruct (dread (inner o) lba buf) as [[d b] k] eqn:Ed. simplify_eq.
  destruct (read_law _ _ _ _ _ _ Hv Hr Ed) as (L1 & L2 & L3 & L4 & L5).
  split_and!; cbn; try done.
  - intros a. unfold overlay_content; cbn. by rewrite L3.
  - by rewrite length_shadow.
  - intros Hn. by rewrite (L5 Hn), shadow_content.
Qed.

(** After [k] chunks. *)
Definition written o o' lba (buf : list Z) (k : nat) : Prop :=
  overlay_ok o' /\ dsectors (inner o') = dsectors (inner o) /\
  (forall a, content (inner o') a = content (inner o) a) /\
  (forall a, a < lba * SECTOR \/ (lba + Z.of_nat k) * SECTOR <= a ->
     overlay_content o' a = overlay_content o a) /\
  (forall i x, buf !! i = Some x -> (i < 512 * k)%nat ->
     overlay_content o' (lba * SECTOR + Z.of_nat i) = x).

(** Installing one sector. *)
Lemma install_content o d s sector a :
  (forall x, content d x = content (inner o) x) ->
  overlay_content (mk d (<[sector := s]> (map o))) a =
  if decide (a / SECTOR = sector) then s !!! Z.to_nat (a mod SECTOR) else overlay_content o a.
Proof.
  intros Hd. unfold overlay_content; cbn. case_decide as E.
  - by rewrite E, lookup_insert_eq.
  - rewrite lookup_insert_ne by done. by rewrite Hd.
Qed.

Lemma write_chunk_spec o lba buf k :
  0 <= lba -> (Z.of_nat k < nsectors (zlen buf)) ->
  in_range (dsectors (inner o)) lba (zlen buf) -> overlay_ok o ->
  exists d s, write_chunk lba buf o k = mk d (<[lba + Z.of_nat k := s]> (map o)) /\
    valid d /\ dsectors d = dsectors (inner o) /\ (forall a, content d a = content (inner o) a) /\
    length s = 512%nat /\
    (forall j x, buf !! (512 * k + j)%nat = Some x -> (j < 512)%nat -> s !! j = Some x).
Proof.
  intros Hl Hk [_ Hr] Hok. unfold write_chunk.
  pose proof (nsectors_bounds (zlen buf) ltac:(lia)) as [_ Hb].
  set (chunk := take 512 (drop (512 * k) buf)).
  assert (forall j x, buf !! (512 * k + j)%nat = Some x -> (j < 512)%nat -> chunk !! j = Some x) as Hch.
  { intros j x Hx Hj. unfold chunk. by rewrite lookup_take_lt, lookup_drop by lia. }
  destruct (Nat.eqb_spec (length chunk) 512) as [Hc|Hc].
  { exists (inner o), chunk. split_and!; try done. apply Hok. }
  destruct (read o (lba + Z.of_nat k) (replicate 512 0)) as [[o1 s] n] eqn:Er.
  assert (length chunk < 512)%nat as Hc' by (unfold chunk in *; rewrite length_take in *; lia).
  assert (in_range (dsectors (inner o)) (lba + Z.of_nat k) (zlen (replicate 512 0))) as Hr'.
  { rewrite length_replicate. unfold in_range, SECTOR in *. split; [lia|].
    assert (lba + Z.of_nat k < dsectors (inner o)) by lia. lia. }
  destruct (overlay_read_spec o _ _ _ _ _ Hok Hr' Er) as ((L1 & _) & L2 & _ & L4 & L5 & L6 & _).
  exists (inner o1), (chunk ++ drop (length chunk) s). rewrite <- L4. split_and!; try done.
  - rewrite length_app, length_drop, L6, length_replicate. lia.
  - intros j x Hx Hj. specialize (Hch j x Hx Hj). apply lookup_lt_Some in Hch as Hlt.
    by rewrite lookup_app_l.
Qed.

Lemma write_chunks_spec o lba buf k :
  0 <= lba -> (Z.of_nat k <= nsectors (zlen buf)) ->
  in_range (dsectors (inner o)) lba (zlen buf) -> overlay_ok o ->
  written o (foldl (write_chunk lba buf) o (seq 0 k)) lba buf k.
Proof.
  intros Hl Hk Hr Hok. induction k as [|k IH].
  - cbn [seq foldl]. split_and!; try done; [apply Hok..|]. lia.
  - rewrite seq_S, foldl_app. cbn [foldl]. specialize (IH ltac:(lia)).
    destruct IH as (I1 & I2 & I3 & I4 & I5). set (o1 := foldl _ _ _) in *.
    rewrite Nat.add_0_l.
    destruct (write_chunk_spec o1 lba buf k) as (d & s & -> & S1 & S2 & S3 & S4 & S5);
      [done|lia|by rewrite I2|done|].
    unfold written, overlay_ok. split_and!; cbn [inner map].
    + done.
    + intros j t Ht. apply lookup_insert_Some in Ht as [[_ <-]|[_ Ht]]; [done|]. by apply I1 in Ht.
    + by rewrite S2.
    + intros a. by rewrite S3, I3.
    + intros a Ha. rewrite install_content by done. case_decide as E.
      * exfalso. unfold SECTOR in *. pose proof (Z.div_mod a 512 ltac:(lia)).
        pose proof (Z.mod_pos_bound a 512 ltac:(lia)). lia.
      * apply I4. unfold SECTOR in *. lia.
    + intros i x Hx Hi. rewrite install_content by done.
      destruct (byte_sector lba i) as [E1 E2]. rewrite E1, E2. unfold sector_of.
      assert (i = 512 * (i / 512) + i mod 512)%nat as Hdm by apply Nat.div_mod_eq.
      pose proof (Nat.mod_upper_bound i 512 ltac:(lia)) as Hm.
      case_decide as E.
      * assert (i / 512 = k)%nat as Ek by lia. rewrite Ek in Hdm. rewrite Hdm in Hx.
        apply S5 in Hx; [|done]. by apply list_lookup_total_correct.
      * apply I5; [done|]. lia.
Qed.

#[refine] Instance RamOverlay_Laws : DiskLaws (RamOverlay D) := {
  content := overlay_content;
  valid := overlay_ok
}.
Proof.
  - intros o [Hv _]. cbn. by apply sectors_range.
  - intros o lba buf o' buf' n Hok Hr E.
    destruct (overlay_read_spec o lba buf o' buf' n Hok Hr E) as (L1 & L2 & L3 & _ & _ & L6 & L7).
    split_and!; done.
  - intros o lba buf o' n Hok Hr E. cbn in E. unfold write in E. simplify_eq.
    pose proof (nsectors_bounds (zlen buf) ltac:(lia)) as [Hn Hb].
    destruct (write_chunks_spec o lba buf (Z.to_nat (nsectors (zlen buf)))) as (W1 & W2 & W3 & W4 & W5);
      [apply Hr|lia|done|done|].
    rewrite Z2Nat.id in W4 by lia. split; [exact W1|]. split_and!; [done|done|].
    intros _ i x Hx. apply W5; [done|]. apply lookup_lt_Some in Hx. unfold SECTOR in Hb. lia.
Defined.

End OverlayLaws.
#[export] Existing Instance RamOverlay_Laws.

(** A sequence of accesses to a disk. *)
Inductive access := ReadAt (lba : Z) (buf : list Z) | WriteAt (lba : Z) (buf : list Z).
Definition do_access {D} `{Disk D} (d : D) (x : access) : D :=
  match x with
  | ReadAt lba buf => fst (fst (dread d lba buf))
  | WriteAt lba buf => fst (dwrite d lba buf)
  end.
Definition access_ok (sectors : Z) (x : access) : Prop :=
  match x with
  | ReadAt lba buf | WriteAt lba buf => in_range sectors lba (zlen buf)
  end.

Lemma overlay_access_inner {D} `{DiskLaws D} (o : RamOverlay.RamOverlay D) x :
  overlay_ok o -> access_ok (dsectors (RamOverlay.inner o)) x ->
  overlay_ok (do_access o x) /\
  dsectors (RamOverlay.inner (do_access o x)) = dsectors (RamOverlay.inner o) /\
  forall a, content (RamOverlay.inner (do_access o x)) a = content (RamOverlay.inner o) a.
Proof.
  intros Hok Hx. destruct x as [lba buf|lba buf]; cbn [do_access access_ok] in *.
  - destruct (dread o lba buf) as [[o' buf'] n] eqn:E.
    destruct (overlay_read_spec o lba buf o' buf' n Hok Hx E) as (L1 & L2 & _ & _ & L5 & _). done.
  - pose proof (nsectors_bounds (zlen buf) ltac:(lia)) as [Hn _].
    destruct (write_chunks_spec o lba buf (Z.to_nat (nsectors (zlen buf)))) as (W1 & W2 & W3 & _);
      [apply Hx|lia|done|done|]. done.
Qed.

(** C35: the overlay protects the device: after any sequence of reads and
    writes through it, not one byte of the wrapped device has changed. *)
Theorem overlay_protects_device {D} `{DiskLaws D} (d : D) xs :
  valid d -> Forall (access_ok (dsectors d)) xs ->
  forall a, content (RamOverlay.inner (foldl do_access (RamOverlay.wrap d) xs)) a = content d a.
Proof.
  intros Hv Hxs a.
  assert (forall o : RamOverlay.RamOverlay D, overlay_ok o ->
    Forall (access_ok (dsectors (RamOverlay.inner o))) xs ->
    content (RamOverlay.inner (foldl do_access o xs)) a = content (RamOverlay.inner o) a) as Hgen.
  { clear Hxs. induction xs as [|x xs IH]; intros o Hok Hxs; [done|]. cbn [foldl].
    apply Forall_cons_1 in Hxs as [Hx Hxs].
    destruct (overlay_access_inner o x Hok Hx) as (O1 & O2 & O3).
    rewrite IH by (done || by rewrite O2). apply O3. }
  apply Hgen; [|done]. split; [done|]. intros k s Hk. cbn in Hk. by rewrite lookup_empty in Hk.
Qed.

Lemma overlay_protects_device_witness :
  let d := mkMem (fun a => a mod 251) 100 in
  let xs := [WriteAt 3 (replicate 700 9); ReadAt 3 (replicate 512 0); WriteAt 4 (replicate 10 1)] in
  content (RamOverlay.inner (foldl do_access (RamOverlay.wrap d) xs)) 1537 = 1537 mod 251 /\
  content (foldl do_access (RamOverlay.wrap d) xs) 1537 = 9.
Proof.
  intros d xs. split; [|by vm_compute].
  assert (valid d) as Hv by (split; [done|by vm_compute]).
  assert (Forall (access_ok (dsectors d)) xs) as Hxs by (repeat constructor; vm_compute; congruence).
  exact (overlay_protects_device d xs Hv Hxs 1537).
Defined.
