(* ===== verification/Cache.v ===== *)
(** The block cache (kernel/src/kernel/block/cache.rs): a read-through,
    write-invalidated page cache over any disk, with a protected segment
    for reused pages.

    The page map is keyed by page number.  [min_by_key] over a BTreeMap
    returns the first minimum in key order, that is the least triple
    (hits, used, page number). *)

From Stdlib Require Import ZArith Lia Bool.
From stdpp Require Import base option list numbers gmap.
From S2P Require Import Prelude Block Overlay.

Definition PAGE_SIZE : Z := 4096.
Definition PAGE_SECTORS : Z := PAGE_SIZE / 512.
Definition PAGE_LIMIT : nat := 512.
Definition PROTECTED_LIMIT : nat := 384.
Definition FREQUENCY_AGE_INTERVAL : Z := 512.

Record Page := mkPage { data : list Z; used : Z; hits : Z; protected : bool }.

(** Order of eviction. *)
Definition before (x y : Z * Page) : bool :=
  (hits (snd x) <? hits (snd y)) ||
  ((hits (snd x) =? hits (snd y)) &&
     ((used (snd x) <? used (snd y)) || ((used (snd x) =? used (snd y)) && (fst x <? fst y)))).

Definition min_by_key (l : list (Z * Page)) : option Z :=
  option_map fst
    (foldl (fun best x => match best with
                          | None => Some x
                          | Some y => if before x y then Some x else best
                          end) None l).

Abbreviation Pages := (gmap Z Page).

Definition is_protected (x : Z * Page) : bool := protected (snd x).
Definition protected_part (m : Pages) : Pages := filter (fun x => is_protected x = true) m.
Definition protected_count (m : Pages) : nat := size (protected_part m).

Definition set_protected (b : bool) (p : Page) : Page := mkPage (data p) (used p) (hits p) b.
Definition touch (now : Z) (p : Page) : Page :=
  mkPage (data p) now (sat_add U16_MAX (hits p) 1) true.
Definition age (p : Page) : Page := mkPage (data p) (used p) (Z.max (hits p / 2) 1) (protected p).

(** The protected page demoted when [page] is promoted into a full protected
    segment. *)
Definition demoted (m : Pages) (page : Z) : option Z :=
  min_by_key (map_to_list (filter (fun x => fst x <> page) (protected_part m))).

(** A hit on [page]. *)
Definition hit (m : Pages) (now page : Z) (cached : Page) : Pages :=
  let promote := negb (protected cached) in
  let m := if promote && (PROTECTED_LIMIT <=? protected_count m)%nat then
             match demoted m page with
             | Some oldest => alter (set_protected false) oldest m
             | None => m
             end
           else m in
  alter (touch now) page m.

(** The page evicted when the cache is full: the least used probation page,
    or the least used page of all. *)
Definition victim (m : Pages) : option Z :=
  match min_by_key (map_to_list (filter (fun x => is_protected x = false) m)) with
  | Some k => Some k
  | None => min_by_key (map_to_list m)
  end.

Definition insert_page (m : Pages) (page : Z) (p : Page) : Pages :=
  let m := if (size m =? PAGE_LIMIT)%nat then
             match victim m with Some oldest => delete oldest m | None => m end
           else m in
  <[page := p]> m.

Module CachedDisk.
Section CachedDisk.
Context {D : Type} `{Disk D}.

Record CachedDisk := mk { inner : D; pages : Pages; clock : Z }.

Definition wrap (d : D) : CachedDisk := mk d ∅ 0.

(** How many bytes of [page] the device has. *)
Definition available (d : D) (page : Z) : Z :=
  Z.min (sat_sub (sat_mul U64_MAX (dsectors d) 512) (sat_mul U64_MAX page PAGE_SIZE)) PAGE_SIZE.

Definition load_page (c : CachedDisk) (page : Z) : CachedDisk * bool :=
  let now := u64 (clock c + 1) in
  let m := if now mod FREQUENCY_AGE_INTERVAL =? 0 then age <$> pages c else pages c in
  match m !! page with
  | Some cached => (mk (inner c) (hit m now page cached) now, true)
  | None =>
      let avail := available (inner c) page in
      if avail =? 0 then (mk (inner c) m now, false)
      else
        let '(d, buf, n) := dread (inner c) (sat_mul U64_MAX page PAGE_SECTORS)
                              (replicate (Z.to_nat avail) 0) in
        if negb (n =? nsectors avail) then (mk d m now, false)
        else
          let data := buf ++ replicate (Z.to_nat (PAGE_SIZE - avail)) 0 in
          (mk d (insert_page m page (mkPage data now 1 false)) now, true)
  end.

(** [for page in first..=last { pages.remove(&page) }] *)
Definition remove_range (m : Pages) (first last : Z) : Pages :=
  foldl (fun m i => delete (first + Z.of_nat i) m) m (seq 0 (Z.to_nat (last - first + 1))).

Definition invalidate (c : CachedDisk) (lba len : Z) : CachedDisk :=
  if len =? 0 then c
  else
    let first := lba / PAGE_SECTORS in
    let last_sector := sat_sub (sat_add U64_MAX lba (nsectors len)) 1 in
    let last := last_sector / PAGE_SECTORS in
    mk (inner c) (remove_range (pages c) first last) (clock c).

(** [while copied < valid], [None] when out of fuel. *)
Fixpoint read_loop (fuel : nat) (c : CachedDisk) (valid position copied : Z) (buffer : list Z)
  : option (CachedDisk * list Z * Z) :=
  match fuel with
  | O => None
  | S fuel =>
      if copied <? valid then
        let page := position / PAGE_SIZE in
        let '(c, ok) := load_page c page in
        if negb ok then Some (c, buffer, u32 (nsectors copied))
        else
          let within := position mod PAGE_SIZE in
          let amount := Z.min (valid - copied) (PAGE_SIZE - within) in
          match pages c !! page with
          | None => Some (c, buffer, u32 (nsectors copied))
          | Some cached =>
              let buffer := take (Z.to_nat copied) buffer
                            ++ take (Z.to_nat amount) (drop (Z.to_nat within) (data cached))
                            ++ drop (Z.to_nat (copied + amount)) buffer in
              read_loop fuel c valid (position + amount) (copied + amount) buffer
          end
      else Some (c, buffer, u32 (nsectors valid))
  end.

Definition read (c : CachedDisk) (lba : Z) (buffer : list Z) : CachedDisk * list Z * Z :=
  let start := sat_mul U64_MAX lba 512 in
  let valid := Z.min (sat_sub (sat_mul U64_MAX (dsectors (inner c)) 512) start) (zlen buffer) in
  let buffer := take (Z.to_nat valid) buffer ++ replicate (length buffer - Z.to_nat valid) 0 in
  default (c, buffer, 0) (read_loop (S (Z.to_nat valid)) c valid start 0 buffer).

Definition write (c : CachedDisk) (lba : Z) (buffer : list Z) : CachedDisk * Z :=
  let c := invalidate c lba (zlen buffer) in
  let '(d, n) := dwrite (inner c) lba buffer in
  (mk d (pages c) (clock c), n).

End CachedDisk.
Arguments CachedDisk : clear implicits.
End CachedDisk.

#[export] Instance CachedDisk_Disk {D} `{Disk D} : Disk (CachedDisk.CachedDisk D) := {
  dread := CachedDisk.read;
  dwrite := CachedDisk.write;
  dsectors c := dsectors (CachedDisk.inner c)
}.

(** [cache::volume]: one already bounded volume with its own cache. *)
Definition cached_volume {D} `{Disk D} (v : Volume.Volume D)
  : Volume.Volume (CachedDisk.CachedDisk (Volume.Volume D)) :=
  Volume.whole (CachedDisk.wrap v).

(** * The replacement policy *)

Lemma min_by_key_elem l k : min_by_key l = Some k -> exists p, (k, p) ∈ l.
Proof.
  unfold min_by_key.
  assert (forall l best k, option_map fst (foldl (fun best x => match best with
      | None => Some x | Some y => if before x y then Some x else best end) best l) = Some k ->
    (exists p, best = Some (k, p)) \/ exists p, (k, p) ∈ l) as H.
  { clear. induction l as [|x l IH]; intros best k; cbn [foldl].
    - destruct best as [[k' p]|]; [|done]. cbn. intros [= ->]. left. by exists p.
    - intros [[p E]|[p E]]%IH; [|right; exists p; by right].
      destruct best as [y|].
      + destruct (before x y); [|left; by exists p]. simplify_eq. right. exists p. by left.
      + simplify_eq. right. exists p. by left. }
  intros [[p [=]]|?]%H. done.
Qed.

Lemma min_by_key_None l : min_by_key l = None -> l = [].
Proof.
  destruct l as [|x l]; [done|]. unfold min_by_key. cbn [foldl].
  assert (forall l y, foldl (fun best x => match best with
      | None => Some x | Some y => if before x y then Some x else best end) (Some y) l <> None) as H.
  { clear. induction l as [|x l IH]; intros y; cbn [foldl]; [done|]. destruct (before x y); apply IH. }
  destruct (foldl _ _ _) eqn:E; [done|]. by apply H in E.
Qed.

Lemma min_by_key_lookup (m : Pages) k : min_by_key (map_to_list m) = Some k -> exists p, m !! k = Some p.
Proof. intros [p Hp]%min_by_key_elem. exists p. by apply elem_of_map_to_list. Qed.

Lemma min_by_key_empty (m : Pages) : min_by_key (map_to_list m) = None -> m = ∅.
Proof. intros H%min_by_key_None. by apply map_to_list_empty_iff. Qed.

Lemma protected_lookup m k p :
  protected_part m !! k = Some p <-> m !! k = Some p /\ protected p = true.
Proof. apply map_lookup_filter_Some. Qed.

(** The bounds of the two segments. *)
Definition bounded (m : Pages) : Prop :=
  (size m <= PAGE_LIMIT)%nat /\ (protected_count m <= PROTECTED_LIMIT)%nat.

(** A full cache always has a probation page to evict. *)
Lemma victim_probation m k :
  bounded m -> size m = PAGE_LIMIT -> victim m = Some k ->
  exists p, m !! k = Some p /\ protected p = false.
Proof.
  intros [_ Hp] Hs. unfold victim.
  destruct (min_by_key (map_to_list (filter (fun x => is_protected x = false) m))) as [k'|] eqn:E.
  - intros [= <-]. apply min_by_key_lookup in E as [p Hk].
    apply map_lookup_filter_Some in Hk as [Hk Hpr]. by exists p.
  - exfalso. apply min_by_key_empty in E.
    assert (protected_part m = m) as Hall.
    { apply map_filter_id. intros i p Hi. unfold is_protected; cbn.
      destruct (protected p) eqn:Ep; [done|]. exfalso.
      assert (filter (fun x => is_protected x = false) m !! i = Some p) as Hx
        by (by apply map_lookup_filter_Some).
      by rewrite E, lookup_empty in Hx. }
    unfold protected_count in Hp. rewrite Hall, Hs in Hp. unfold PAGE_LIMIT, PROTECTED_LIMIT in Hp. lia.
Qed.

Lemma victim_exists m : size m = PAGE_LIMIT -> victim m <> None.
Proof.
  intros Hs. unfold victim. destruct (min_by_key _); [done|]. intros H%min_by_key_empty.
  rewrite H, map_size_empty in Hs. done.
Qed.

Lemma alter_insert (f : Page -> Page) k (m : Pages) p : m !! k = Some p -> alter f k m = <[k := f p]> m.
Proof.
  intros Hk. apply map_eq; intros j. destruct (decide (k = j)) as [<-|Hne].
  - by rewrite lookup_alter_eq, Hk, lookup_insert_eq.
  - by rewrite lookup_alter_ne, lookup_insert_ne.
Qed.

(** Replacing a page's bookkeeping changes which pages are protected only by
    that page. *)
Lemma protected_alter (f : Page -> Page) k m p :
  m !! k = Some p -> protected (f p) = protected p ->
  protected_count (alter f k m) = protected_count m.
Proof.
  intros Hk Hf. unfold protected_count, protected_part.
  rewrite (alter_insert _ _ _ _ Hk).
  rewrite map_filter_insert. case_decide as Hp; unfold is_protected in Hp; cbn [snd] in Hp; rewrite Hf in Hp.
  - rewrite map_size_insert_Some; [done|]. exists p. by apply map_lookup_filter_Some.
  - rewrite map_filter_delete, map_size_delete_None; [done|].
    apply map_lookup_filter_None_2. right. intros p' Hp'.
    rewrite Hk in Hp'. injection Hp' as <-. exact Hp.
Qed.

Lemma protected_promote (f : Page -> Page) k m p :
  m !! k = Some p -> protected p = false -> protected (f p) = true ->
  protected_count (alter f k m) = S (protected_count m).
Proof.
  intros Hk Hp Hf. unfold protected_count, protected_part.
  rewrite (alter_insert _ _ _ _ Hk).
  rewrite map_filter_insert_True by done. rewrite map_size_insert_None; [done|].
  apply map_lookup_filter_None_2. right. intros p' Hp'.
  rewrite Hk in Hp'. injection Hp' as <-. unfold is_protected; cbn. congruence.
Qed.

Lemma protected_demote k m p :
  m !! k = Some p -> protected p = true ->
  protected_count (alter (set_protected false) k m) = Nat.pred (protected_count m).
Proof.
  intros Hk Hp. unfold protected_count, protected_part.
  rewrite (alter_insert _ _ _ _ Hk).
  rewrite map_filter_insert_False by done. rewrite map_filter_delete, map_size_delete_Some; [done|].
  exists p. by apply map_lookup_filter_Some.
Qed.

Lemma size_alter (f : Page -> Page) k (m : Pages) : size (alter f k m) = size m.
Proof.
  destruct (m !! k) as [p|] eqn:E.
  - rewrite (alter_insert _ _ _ _ E). by rewrite map_size_insert_Some by (by exists p).
  - assert (alter f k m = m) as ->; [|done]. apply map_eq; intros j.
    destruct (decide (k = j)) as [<-|Hne]; [by rewrite lookup_alter_eq, E|by rewrite lookup_alter_ne].
Qed.

Lemma protected_age m : protected_count (age <$> m) = protected_count m.
Proof.
  unfold protected_count, protected_part.
  assert (filter (fun x => is_protected x = true) (age <$> m)
          = age <$> filter (fun x => is_protected x = true) m) as ->; [|by rewrite map_size_fmap].
  by rewrite map_filter_fmap.
Qed.

Lemma hit_spec m now page cached :
  bounded m -> m !! page = Some cached ->
  bounded (hit m now page cached) /\
  (forall k, (hit m now page cached !! k) = None <-> m !! k = None) /\
  (forall k p, hit m now page cached !! k = Some p -> exists q, m !! k = Some q /\ data p = data q).
Proof.
  intros [Hs Hp] Hc. unfold hit.
  set (m1 := if _ && _ then _ else _).
  assert (size m1 = size m /\ (forall k, m1 !! k = None <-> m !! k = None) /\
    m1 !! page = Some cached /\
    (forall k p, m1 !! k = Some p -> exists q, m !! k = Some q /\ data p = data q) /\
    (protected cached = true -> protected_count m1 <= PROTECTED_LIMIT)%nat /\
    (protected cached = false -> protected_count m1 < PROTECTED_LIMIT)%nat) as (M1 & M2 & M3 & M4 & M5 & M6).
  { assert (forall k p, m !! k = Some p -> exists q, m !! k = Some q /\ data p = data q) as Hid by eauto.
    subst m1. destruct (protected cached) eqn:Ep; cbn [negb andb]; [by split_and!|].
    destruct (Nat.leb_spec PROTECTED_LIMIT (protected_count m)) as [Hfull|Hroom]; [|by split_and!].
    destruct (demoted m page) as [old|] eqn:Ed.
    - unfold demoted in Ed. apply min_by_key_lookup in Ed as [p Hold].
      apply map_lookup_filter_Some in Hold as [Hold Hne]. cbn in Hne.
      apply protected_lookup in Hold as [Hold Hpr].
      split_and!.
      + apply size_alter.
      + intros k. apply lookup_alter_None.
      + by rewrite lookup_alter_ne.
      + intros k q Hq. destruct (decide (k = old)) as [->|Hne'].
        * rewrite lookup_alter_eq, Hold in Hq. cbn in Hq. simplify_eq. by exists p.
        * rewrite lookup_alter_ne in Hq by done. by exists q.
      + done.
      + intros _. rewrite (protected_demote old m p) by done. unfold PROTECTED_LIMIT in *. lia.
    - exfalso. unfold demoted in Ed. apply min_by_key_empty in Ed.
      assert (protected_part m = ∅) as He.
      { apply map_empty. intros k. destruct (protected_part m !! k) as [p|] eqn:Ek; [|done].
        destruct (decide (k = page)) as [->|Hne].
        - apply protected_lookup in Ek as [Ek Hpr]. congruence.
        - assert (filter (fun x => fst x <> page) (protected_part m) !! k = Some p) as Hx
            by (by apply map_lookup_filter_Some).
          by rewrite Ed, lookup_empty in Hx. }
      unfold protected_count in Hfull. rewrite He, map_size_empty in Hfull.
      unfold PROTECTED_LIMIT in Hfull. lia. }
  clearbody m1. split_and!.
  - split; [by rewrite size_alter, M1|]. destruct (protected cached) eqn:Ep.
    + rewrite (protected_alter _ _ _ cached) by done. by apply M5.
    + rewrite (protected_promote _ _ _ cached) by done. specialize (M6 eq_refl). lia.
  - intros k. rewrite lookup_alter_None. apply M2.
  - intros k p Hk. destruct (decide (k = page)) as [->|Hne].
    + rewrite lookup_alter_eq, M3 in Hk. cbn in Hk. simplify_eq. by exists cached.
    + rewrite lookup_alter_ne in Hk by done. by apply M4.
Qed.

Lemma insert_page_spec m page p :
  bounded m -> m !! page = None -> protected p = false ->
  bounded (insert_page m page p) /\ insert_page m page p !! page = Some p /\
  (forall k q, k <> page -> insert_page m page p !! k = Some q -> m !! k = Some q) /\
  (forall k q, m !! k = Some q -> protected q = true -> insert_page m page p !! k = Some q).
Proof.
  intros Hb Hn Hp. pose proof Hb as [Hs Hpr]. unfold insert_page.
  set (m1 := if (_ =? _)%nat then _ else _).
  assert ((size m1 < PAGE_LIMIT)%nat /\ (protected_count m1 <= PROTECTED_LIMIT)%nat /\ m1 !! page = None /\
    (forall k q, m1 !! k = Some q -> m !! k = Some q) /\
    (forall k q, m !! k = Some q -> protected q = true -> m1 !! k = Some q)) as (M1 & M2 & M3 & M4 & M5).
  { subst m1. destruct (Nat.eqb_spec (size m) PAGE_LIMIT) as [Hf|Hf].
    - destruct (victim m) as [k|] eqn:Ev; [|by apply victim_exists in Ev].
      destruct (victim_probation m k Hb Hf Ev) as (q & Hq & Hqp). split_and!.
      + rewrite map_size_delete_Some by (by exists q). rewrite Hf. unfold PAGE_LIMIT. lia.
      + unfold protected_count, protected_part. rewrite map_filter_delete.
        rewrite map_size_delete_None; [done|]. apply map_lookup_filter_None_2. right.
        intros q' Hq'. rewrite Hq in Hq'. injection Hq' as <-. unfold is_protected; cbn. congruence.
      + apply lookup_delete_None. by right.
      + intros j r Hr. by apply lookup_delete_Some in Hr as [_ ?].
      + intros j r Hr Hrp. apply lookup_delete_Some. split; [|done]. intros ->. congruence.
    - unfold PAGE_LIMIT in *. split_and!; try done. lia. }
  clearbody m1. split_and!.
  - split; [rewrite map_size_insert_None by done; lia|].
    unfold protected_count, protected_part in *. rewrite map_filter_insert_False by (unfold is_protected; cbn; congruence).
    rewrite map_filter_delete. etransitivity; [|exact M2]. apply map_subseteq_size, delete_subseteq.
  - apply lookup_insert_eq.
  - intros k q Hne Hk. rewrite lookup_insert_ne in Hk by done. by apply M4.
  - intros k q Hk Hq. rewrite lookup_insert_ne; [by apply M5|]. intros ->. congruence.
Qed.

(** * Coherence *)

Section CacheLaws.
Context {D : Type} `{DiskLaws D}.
Import CachedDisk.
Implicit Types (c : CachedDisk D).

(** Every cached page holds what the device holds. *)
Definition coherent (d : D) (m : Pages) : Prop :=
  forall k p, m !! k = Some p -> 0 <= k /\ length (data p) = Z.to_nat PAGE_SIZE /\
    forall i, (i < Z.to_nat PAGE_SIZE)%nat -> k * PAGE_SIZE + Z.of_nat i < dsectors d * SECTOR ->
      data p !! i = Some (content d (k * PAGE_SIZE + Z.of_nat i)).

Definition cached_ok c : Prop := valid (inner c) /\ coherent (inner c) (pages c) /\ bounded (pages c).

Lemma cached_ok_mk d m k : valid d -> coherent d m -> bounded m -> cached_ok (mk d m k).
Proof. by intros; split_and!. Qed.

(** The same device contents. *)
Definition same_device (d d' : D) : Prop :=
  valid d' /\ dsectors d' = dsectors d /\ forall a, content d' a = content d a.

Lemma same_device_refl d : valid d -> same_device d d.
Proof. done. Qed.

Lemma coherent_same d d' m : same_device d d' -> coherent d m -> coherent d' m.
Proof.
  intros (_ & Hs & Hc) Hm k p Hk. destruct (Hm k p Hk) as (H1 & H2 & H3). split_and!; try done.
  intros i Hi Hb. rewrite Hc. apply H3; [done|]. by rewrite <- Hs.
Qed.

Lemma coherent_submap d m m' :
  (forall k p, m' !! k = Some p -> exists q, m !! k = Some q /\ data p = data q) ->
  coherent d m -> coherent d m'.
Proof. intros Hsub Hm k p Hk. destruct (Hsub k p Hk) as (q & Hq & ->). by apply Hm. Qed.

Lemma aged_spec m (b : bool) :
  let m' := if b then age <$> m else m in
  (bounded m -> bounded m') /\ (forall k, m' !! k = None <-> m !! k = None) /\
  (forall k p, m' !! k = Some p -> exists q, m !! k = Some q /\ data p = data q /\ protected p = protected q) /\
  (forall k q, m !! k = Some q -> exists p, m' !! k = Some p /\ data p = data q /\ protected p = protected q).
Proof.
  destruct b; cbv zeta; [|split_and!; eauto].
  split_and!.
  - intros [H1 H2]. split; [by rewrite map_size_fmap|by rewrite protected_age].
  - intros k. rewrite lookup_fmap. by destruct (m !! k).
  - intros k p Hk. apply lookup_fmap_Some in Hk as (q & <- & Hq). by exists q.
  - intros k q Hk. exists (age q). by rewrite lookup_fmap, Hk.
Qed.

Lemma available_spec d page :
  valid d -> 0 <= page -> page * PAGE_SIZE < dsectors d * SECTOR ->
  let av := available d page in
  0 < av <= PAGE_SIZE /\ page * PAGE_SIZE + av <= dsectors d * SECTOR /\
  (forall i, 0 <= i < PAGE_SIZE -> page * PAGE_SIZE + i < dsectors d * SECTOR -> i < av).
Proof.
  intros Hv Hp Hlt. destruct (sectors_range d Hv) as [S1 S2]. cbv zeta.
  unfold available, sat_sub, sat_mul, PAGE_SIZE, SECTOR in *. pow2. split_and!; intros; lia.
Qed.

Lemma load_page_spec c page :
  cached_ok c -> 0 <= page -> page * PAGE_SIZE < dsectors (inner c) * SECTOR ->
  let '(c', ok) := load_page c page in
  cached_ok c' /\ same_device (inner c) (inner c') /\
  (ok = true -> exists p, pages c' !! page = Some p) /\
  (forall k p, pages c !! k = Some p -> protected p = true -> exists q, pages c' !! k = Some q).
Proof.
  intros (Hv & Hco & Hb) Hp Hlt. unfold load_page. set (now := u64 _).
  destruct (aged_spec (pages c) (now mod FREQUENCY_AGE_INTERVAL =? 0)) as (A1 & A2 & A3 & A4).
  set (m := if now mod _ =? 0 then _ else _) in *. clearbody m. specialize (A1 Hb).
  assert (coherent (inner c) m) as Hcm.
  { eapply coherent_submap; [|exact Hco]. intros k p Hk. destruct (A3 k p Hk) as (q & ? & ? & _). eauto. }
  assert (same_device (inner c) (inner c)) as Hsame by done.
  destruct (m !! page) as [cached|] eqn:Em.
  - destruct (hit_spec m now page cached A1 Em) as (B1 & B2 & B3).
    split; [apply cached_ok_mk; [done|by eapply coherent_submap|done]|]. split; [done|]. cbn [pages]. split.
    + intros _. destruct (hit m now page cached !! page) as [p|] eqn:E; [by exists p|].
      apply B2 in E. congruence.
    + intros k p Hk _. destruct (hit m now page cached !! k) as [q|] eqn:E; [by exists q|].
      apply B2, A2 in E. congruence.
  - pose proof (available_spec (inner c) page Hv Hp Hlt) as (V1 & V2 & V3).
    set (av := available (inner c) page) in *. destruct (Z.eqb_spec av 0) as [|_]; [lia|].
    assert (forall k p, pages c !! k = Some p -> exists q, m !! k = Some q /\ protected q = protected p) as Hkeep.
    { intros k p Hk. destruct (A4 k p Hk) as (q & ? & _ & ?). eauto. }
    destruct (sectors_range _ Hv) as [S1 S2].
    assert (sat_mul U64_MAX page PAGE_SECTORS = page * 8) as ->.
    { unfold sat_mul, PAGE_SECTORS, PAGE_SIZE, SECTOR in *. pow2. change (4096 / 512) with 8. lia. }
    destruct (dread (inner c) (page * 8) (replicate (Z.to_nat av) 0)) as [[d buf] n] eqn:Ed.
    assert (zlen (replicate (Z.to_nat av) 0) = av) as Hlen by (rewrite length_replicate; lia).
    destruct (read_law (inner c) (page * 8) (replicate (Z.to_nat av) 0) d buf n Hv) as (L1 & L2 & L3 & L4 & L5);
      [rewrite Hlen; unfold in_range, PAGE_SIZE, SECTOR in *; lia|done|].
    rewrite Hlen in L5. rewrite length_replicate in L4, L5.
    assert (same_device (inner c) d) as Hsd by done.
    assert (coherent d m) as Hcd by by eapply coherent_same.
    destruct (Z.eqb_spec n (nsectors av)) as [Hn|Hn]; cbn [negb].
    + specialize (L5 Hn). subst buf.
      set (p := mkPage _ _ _ _).
      destruct (insert_page_spec m page p A1 Em eq_refl) as (I1 & I2 & I3 & I4).
      assert (coherent d (insert_page m page p)) as Hci.
      { intros k q Hk. destruct (decide (k = page)) as [->|Hne]; [|by eapply Hcd, I3].
        rewrite I2 in Hk. injection Hk as <-. split_and!; [done| |].
        - unfold p; cbn. rewrite length_app, length_bytes_at, length_replicate. unfold PAGE_SIZE in *. lia.
        - intros i Hi Hbd. rewrite L2 in Hbd. specialize (V3 (Z.of_nat i)).
          unfold p; cbn. rewrite lookup_app_l by (rewrite length_bytes_at; unfold PAGE_SIZE in *; lia).
          rewrite bytes_at_lookup by (unfold PAGE_SIZE in *; lia). rewrite L3. f_equal. f_equal.
          unfold PAGE_SIZE, SECTOR. lia. }
      split; [by apply cached_ok_mk|]. split; [done|]. split; [intros _; by exists p|].
      intros k q Hk Hq. destruct (Hkeep k q Hk) as (q' & Hq' & Hpq). exists q'. apply I4; [done|congruence].
    + split; [by apply cached_ok_mk|]. split; [done|]. split; [done|].
      intros k q Hk _. destruct (Hkeep k q Hk) as (q' & ? & _). eauto.
Qed.

(** A read cut short at a sector boundary does not report all its sectors. *)
Lemma short_count copied len :
  0 <= copied < len -> copied mod SECTOR = 0 -> u32 (nsectors copied) <> nsectors len.
Proof.
  intros Hlt Hcm E. pose proof (nsectors_bounds copied ltac:(lia)) as [N1 N2].
  pose proof (nsectors_bounds len ltac:(lia)) as [_ N4].
  assert (u32 (nsectors copied) <= nsectors copied) as Hle by (apply Z.mod_le; [lia|done]).
  rewrite E in Hle. unfold SECTOR in *. pose proof (Z.div_mod copied 512 ltac:(lia)). lia.
Qed.

(** The part of a coherent page a turn of the loop copies. *)
Lemma page_chunk d m page pg position amount :
  coherent d m -> m !! page = Some pg -> position / PAGE_SIZE = page ->
  0 <= amount <= PAGE_SIZE - position mod PAGE_SIZE -> position + amount <= dsectors d * SECTOR ->
  take (Z.to_nat amount) (drop (Z.to_nat (position mod PAGE_SIZE)) (data pg))
  = bytes_at (content d) position (Z.to_nat amount).
Proof.
  intros Hco Hpg Hp Ha Hin. destruct (Hco page pg Hpg) as (_ & Hdl & Hdata).
  pose proof (Z.div_mod position PAGE_SIZE ltac:(done)) as Hdm. rewrite Hp in Hdm.
  pose proof (Z.mod_pos_bound position PAGE_SIZE ltac:(done)) as Hmb.
  apply list_eq; intros i. destruct (decide (i < Z.to_nat amount)%nat) as [Hi|Hi].
  - rewrite lookup_take_lt, lookup_drop, bytes_at_lookup by done.
    rewrite Hdata; [|unfold PAGE_SIZE in *; lia..]. do 2 f_equal. unfold PAGE_SIZE in *. lia.
  - rewrite !lookup_ge_None_2; [done| |]; rewrite ?length_bytes_at, ?length_take; lia.
Qed.

(** A turn ends at the end of the transfer or at a page, so on a sector. *)
Lemma turn_aligned start len copied :
  start mod SECTOR = 0 -> 0 <= copied <= len ->
  let within := (start + copied) mod PAGE_SIZE in
  let amount := Z.min (len - copied) (PAGE_SIZE - within) in
  copied + amount = len \/ (copied + amount) mod SECTOR = 0.
Proof.
  intros Hmod Hc within amount. unfold amount.
  destruct (Z.le_gt_cases (len - copied) (PAGE_SIZE - within)); [left; lia|right]. rewrite Z.min_r by lia.
  pose proof (Z.div_mod (start + copied) PAGE_SIZE ltac:(done)) as Hdm. fold within in Hdm.
  unfold SECTOR, PAGE_SIZE in *.
  replace (copied + (4096 - within)) with (8 * ((start + copied) / 4096 + 1) * 512 - start) by lia.
  by rewrite Zminus_mod, Hmod, Z.mod_mul by lia.
Qed.

(** Extending the copied prefix by the next chunk. *)
Lemma extend_prefix f start copied amount (buf : list Z) :
  0 <= copied -> 0 <= amount -> copied + amount <= zlen buf ->
  take (Z.to_nat copied) buf = bytes_at f start (Z.to_nat copied) ->
  let buf1 := take (Z.to_nat copied) buf ++ bytes_at f (start + copied) (Z.to_nat amount)
              ++ drop (Z.to_nat (copied + amount)) buf in
  length buf1 = length buf /\
  take (Z.to_nat (copied + amount)) buf1 = bytes_at f start (Z.to_nat (copied + amount)).
Proof.
  intros Hc Ha Hl Hdone buf1. unfold buf1. split.
  { rewrite !length_app, length_take, length_bytes_at, length_drop. lia. }
  rewrite app_assoc, take_app_le, take_ge by (rewrite length_app, length_take, length_bytes_at; lia).
  rewrite Hdone. replace (Z.to_nat (copied + amount)) with (Z.to_nat copied + Z.to_nat amount)%nat by lia.
  rewrite bytes_at_app. do 2 f_equal. lia.
Qed.

(** The read loop copies device bytes. *)
Lemma read_loop_spec fuel c start len copied buf :
  cached_ok c -> 0 <= start -> start + len <= dsectors (inner c) * SECTOR ->
  start mod SECTOR = 0 -> 0 <= copied <= len -> (copied = len \/ copied mod SECTOR = 0) ->
  zlen buf = len -> take (Z.to_nat copied) buf = bytes_at (content (inner c)) start (Z.to_nat copied) ->
  (Z.to_nat (len - copied) < fuel)%nat ->
  exists c' buf' n, read_loop fuel c len (start + copied) copied buf = Some (c', buf', n) /\
    cached_ok c' /\ same_device (inner c) (inner c') /\ length buf' = length buf /\
    (n = nsectors len -> buf' = bytes_at (content (inner c)) start (Z.to_nat len)).
Proof.
  revert c copied buf; induction fuel as [|fuel IH];
    intros c copied buf Hok Hs Hin Hmod Hc Hcm Hlen Hdone Hfuel; [lia|]. cbn [read_loop].
  destruct (Z.ltb_spec copied len) as [Hlt|Hge].
  2:{ exists c, buf, (u32 (nsectors len)). split; [done|]. split; [done|].
      split; [apply same_device_refl, Hok|]. split; [done|].
      intros _. assert (copied = len) as -> by lia. by rewrite <- Hdone, take_ge by lia. }
  assert (copied mod SECTOR = 0) as Hcm' by (destruct Hcm; [lia|done]).
  set (position := start + copied) in *. set (page := position / PAGE_SIZE).
  assert (0 <= position) by (subst position; lia).
  pose proof (Z.div_mod position PAGE_SIZE ltac:(done)) as Hdm.
  pose proof (Z.mod_pos_bound position PAGE_SIZE ltac:(done)) as Hmb. fold page in Hdm.
  assert (0 <= page) as Hpg by (apply Z.div_pos; [done|by unfold PAGE_SIZE]).
  assert (page * PAGE_SIZE < dsectors (inner c) * SECTOR) as Hpr by (unfold PAGE_SIZE in *; lia).
  pose proof (load_page_spec c page Hok Hpg Hpr) as Hl.
  destruct (load_page c page) as [c1 ok]. destruct Hl as (Hok1 & Hsd & Hpage & _).
  destruct ok; cbn [negb].
  2:{ exists c1, buf, (u32 (nsectors copied)). split; [done|]. split; [done|].
      split; [done|]. split; [done|]. intros E. by destruct (short_count copied len ltac:(lia) Hcm'). }
  destruct (Hpage eq_refl) as [pg Hpg1]. rewrite Hpg1. pose proof Hok1 as (_ & Hco1 & _).
  destruct Hsd as (Sv & Ss & Sc). pose proof (turn_aligned start len copied Hmod ltac:(lia)) as Hal. cbv zeta in Hal.
  fold position in Hal. set (amount := Z.min (len - copied) (PAGE_SIZE - position mod PAGE_SIZE)) in *.
  assert (0 < amount <= len - copied) as Ham by (unfold amount; lia).
  rewrite (page_chunk (inner c1) (pages c1) page pg position amount Hco1 Hpg1 eq_refl)
    by (rewrite ?Ss; unfold amount, position in *; lia).
  rewrite (bytes_at_ext (content (inner c1)) (content (inner c))) by done.
  destruct (extend_prefix (content (inner c)) start copied amount buf) as [Hl1 Hd1]; [lia..|done|].
  fold position in Hl1, Hd1. set (buf1 := _ ++ _ ++ _) in *.
  replace (position + amount) with (start + (copied + amount)) by (unfold position; lia).
  destruct (IH c1 (copied + amount) buf1) as (c' & buf' & n & E & R1 & R2 & R3 & R4); try done; try lia.
  - rewrite Hd1. symmetry. by apply bytes_at_ext.
  - exists c', buf', n. destruct R2 as (T1 & T2 & T3). split; [done|]. split; [done|].
    split; [split_and!; [done|congruence|]; intros a; by rewrite T3, Sc|]. split; [lia|].
    intros Hn. rewrite (R4 Hn). apply bytes_at_ext. intros i _. apply Sc.
Qed.

Lemma read_spec c lba buf :
  cached_ok c -> in_range (dsectors (inner c)) lba (zlen buf) ->
  exists c' buf' n, read c lba buf = (c', buf', n) /\
    cached_ok c' /\ same_device (inner c) (inner c') /\ length buf' = length buf /\
    (n = nsectors (zlen buf) -> buf' = bytes_at (content (inner c)) (lba * SECTOR) (length buf)).
Proof.
  intros Hok [Hl Hr]. destruct (sectors_range (inner c) ltac:(apply Hok)) as [S1 S2].
  unfold read.
  assert (sat_mul U64_MAX lba 512 = lba * SECTOR) as -> by (unfold sat_mul, SECTOR in *; pow2; lia).
  assert (sat_mul U64_MAX (dsectors (inner c)) 512 = dsectors (inner c) * SECTOR) as ->
    by (unfold sat_mul, SECTOR in *; pow2; lia).
  assert (Z.min (sat_sub (dsectors (inner c) * SECTOR) (lba * SECTOR)) (zlen buf) = zlen buf) as ->
    by (unfold sat_sub, SECTOR in *; lia).
  rewrite Nat2Z.id, Nat.sub_diag, take_ge by lia. cbn [replicate]. rewrite app_nil_r.
  destruct (read_loop_spec (S (length buf)) c (lba * SECTOR) (zlen buf) 0 buf)
    as (c' & buf' & n & E & R1 & R2 & R3 & R4); try done.
  - unfold SECTOR. lia.
  - apply Z.mod_mul. done.
  - lia.
  - by right.
  - lia.
  - rewrite Z.add_0_r in E. rewrite E. exists c', buf', n. rewrite Nat2Z.id in R4. done.
Qed.

Lemma remove_range_lookup m first last k p :
  remove_range m first last !! k = Some p -> m !! k = Some p /\ (k < first \/ last < k).
Proof.
  unfold remove_range.
  assert (forall n (m : Pages), foldl (fun m i => delete (first + Z.of_nat i) m) m (seq 0 n) !! k = Some p ->
    m !! k = Some p /\ (k < first \/ first + Z.of_nat n <= k)) as Hgen.
  { clear. induction n as [|n IH]; intros m; [cbn; intros Hk; split; [done|lia]|].
    rewrite seq_S, foldl_app. cbn [foldl]. rewrite Nat.add_0_l.
    intros Hk. apply lookup_delete_Some in Hk as [Hne Hk]. apply IH in Hk as [Hk Hr]. split; [done|]. lia. }
  intros Hk. apply Hgen in Hk as [Hk Hr]. split; [done|]. lia.
Qed.

Lemma bounded_submap (m m' : Pages) : (forall k p, m' !! k = Some p -> m !! k = Some p) -> bounded m -> bounded m'.
Proof.
  intros Hsub [H1 H2]. assert (m' ⊆ m) as Hs by (apply map_subseteq_spec; exact Hsub).
  split; [etransitivity; [by apply map_subseteq_size|done]|].
  etransitivity; [|exact H2]. apply map_subseteq_size, map_subseteq_spec.
  intros k p [Hk Hp]%protected_lookup. apply protected_lookup. auto.
Qed.

Lemma invalidate_spec c lba len :
  cached_ok c -> 0 <= len -> in_range (dsectors (inner c)) lba len ->
  let c' := invalidate c lba len in
  inner c' = inner c /\ bounded (pages c') /\
  (forall k p, pages c' !! k = Some p -> pages c !! k = Some p /\
     (len = 0 \/ (k + 1) * PAGE_SIZE <= lba * SECTOR \/ (lba + nsectors len) * SECTOR <= k * PAGE_SIZE)).
Proof.
  intros (Hv & Hco & Hb) Hlen [Hl Hr]. cbv zeta. unfold invalidate.
  pose proof (nsectors_bounds len Hlen) as [N1 N2]. destruct (sectors_range _ Hv) as [S1 S2].
  destruct (Z.eqb_spec len 0) as [->|Hne].
  { split; [done|]. split; [done|]. auto. }
  assert (sat_sub (sat_add U64_MAX lba (nsectors len)) 1 = lba + nsectors len - 1) as ->.
  { unfold sat_sub, sat_add, SECTOR in *. pow2. lia. }
  change PAGE_SECTORS with 8. split; [done|]. cbn [pages].
  assert (forall k p, remove_range (pages c) (lba / 8) ((lba + nsectors len - 1) / 8) !! k = Some p ->
    pages c !! k = Some p /\
    (len = 0 \/ (k + 1) * PAGE_SIZE <= lba * SECTOR \/ (lba + nsectors len) * SECTOR <= k * PAGE_SIZE)) as Hrm.
  { intros k p [Hk Hout]%remove_range_lookup. split; [done|].
    pose proof (Z.div_mod lba 8 ltac:(lia)). pose proof (Z.mod_pos_bound lba 8 ltac:(lia)).
    pose proof (Z.div_mod (lba + nsectors len - 1) 8 ltac:(lia)).
    pose proof (Z.mod_pos_bound (lba + nsectors len - 1) 8 ltac:(lia)). unfold PAGE_SIZE, SECTOR. lia. }
  split; [|exact Hrm]. eapply bounded_submap; [|exact Hb]. intros k p Hk.
  by destruct (Hrm k p Hk) as [? _].
Qed.

Lemma write_spec c lba buf c' n :
  cached_ok c -> in_range (dsectors (inner c)) lba (zlen buf) -> write c lba buf = (c', n) ->
  cached_ok c' /\ dsectors (inner c') = dsectors (inner c) /\
  (forall a, a < lba * SECTOR \/ (lba + nsectors (zlen buf)) * SECTOR <= a ->
     content (inner c') a = content (inner c) a) /\
  (n = nsectors (zlen buf) ->
     forall i x, buf !! i = Some x -> content (inner c') (lba * SECTOR + Z.of_nat i) = x).
Proof.
  intros Hok Hr E. pose proof Hok as (Hv & Hco & Hb). unfold write in E.
  destruct (invalidate_spec c lba (zlen buf) Hok ltac:(lia) Hr) as (I1 & I2 & I3).
  rewrite I1 in E. destruct (dwrite (inner c) lba buf) as [d k] eqn:Ed. simplify_eq.
  destruct (write_law (inner c) lba buf d n Hv Hr Ed) as (L1 & L2 & L3 & L4).
  split; [|done]. apply cached_ok_mk; [done| |done].
  intros k p Hk. apply I3 in Hk as [Hk Hout]. destruct (Hco k p Hk) as (P1 & P2 & P3).
  split_and!; try done. intros i Hi Hin. rewrite L2 in Hin. rewrite (P3 i Hi Hin). f_equal.
  symmetry. apply L3. destruct Hout as [Hz|Hout]; [|unfold PAGE_SIZE, SECTOR in *; lia].
  rewrite Hz. assert (nsectors 0 = 0) as -> by done. lia.
Qed.

#[refine] Instance CachedDisk_Laws : DiskLaws (CachedDisk D) := {
  content c a := content (inner c) a;
  valid := cached_ok
}.
Proof.
  - intros c (Hv & _). cbn. by apply sectors_range.
  - intros c lba buf c' buf' n Hok Hr E.
    destruct (read_spec c lba buf Hok Hr) as (c1 & b1 & n1 & E1 & R1 & (T1 & T2 & T3) & R3 & R4).
    change (read c lba buf = (c', buf', n)) in E. rewrite E1 in E. simplify_eq.
    split; [done|]. split_and!; done.
  - intros c lba buf c' n Hok Hr E.
    destruct (write_spec c lba buf c' n Hok Hr E) as (W1 & W2 & W3 & W4). split; [done|]. split_and!; done.
Defined.

Lemma wrap_ok (d : D) : valid d -> cached_ok (wrap d).
Proof.
  intros Hv. apply cached_ok_mk; [done| |].
  - intros k p Hk. by rewrite lookup_empty in Hk.
  - split; [rewrite map_size_empty; lia|]. unfold protected_count, protected_part.
    rewrite map_filter_empty, map_size_empty. lia.
Qed.

End CacheLaws.
#[export] Existing Instance CachedDisk_Laws.

(** The laws along a sequence of accesses. *)
Lemma accesses_valid {D} `{DiskLaws D} (d : D) xs :
  valid d -> Forall (access_ok (dsectors d)) xs ->
  valid (foldl do_access d xs) /\ dsectors (foldl do_access d xs) = dsectors d.
Proof.
  revert d; induction xs as [|x xs IH]; intros d Hv Hxs; [done|]. cbn [foldl].
  apply Forall_cons_1 in Hxs as [Hx Hxs].
  assert (valid (do_access d x) /\ dsectors (do_access d x) = dsectors d) as [Hv1 Hs1].
  { destruct x as [lba buf|lba buf]; cbn [do_access access_ok] in *.
    - destruct (dread d lba buf) as [[d' buf'] n] eqn:E. by apply (read_law _ _ _ _ _ _ Hv Hx) in E as (? & ? & _).
    - destruct (dwrite d lba buf) as [d' n] eqn:E. by apply (write_law _ _ _ _ _ Hv Hx) in E as (? & ? & _). }
  destruct (IH (do_access d x) Hv1) as [? ?]; [by rewrite Hs1|]. split; [done|congruence].
Qed.

(** C21: the cache is transparent.  After any sequence of reads and writes
    through it, including device reads and writes that fail part way, a read
    that reports all its sectors returns exactly the bytes the device
    holds at that moment. *)
Theorem cache_transparent {D} `{DiskLaws D} (d : D) xs lba buf c' buf' n :
  valid d -> Forall (access_ok (dsectors d)) xs -> in_range (dsectors d) lba (zlen buf) ->
  let c := foldl do_access (CachedDisk.wrap d) xs in
  dread c lba buf = (c', buf', n) -> n = nsectors (zlen buf) ->
  buf' = bytes_at (content (CachedDisk.inner c)) (lba * SECTOR) (length buf).
Proof.
  intros Hv Hxs Hr c E Hn. assert (valid (CachedDisk.wrap d)) as Hw by exact (wrap_ok d Hv).
  destruct (accesses_valid (CachedDisk.wrap d) xs Hw Hxs) as [Hc Hs]. fold c in Hc, Hs.
  destruct (read_law c lba buf c' buf' n Hc) as (_ & _ & _ & _ & L5); [by rewrite Hs|done|]. by apply L5.
Qed.

Lemma cache_transparent_witness :
  let d := mkMem (fun a => a mod 251) 100 in
  let xs := [ReadAt 3 (replicate 20 0); WriteAt 3 (replicate 10 9); ReadAt 0 (replicate 4 0)] in
  let c := foldl do_access (CachedDisk.wrap d) xs in
  snd (fst (dread c 3 [0; 0])) = [9; 9].
Proof.
  intros d xs c.
  assert (valid d) as Hv by (split; [done|by vm_compute]).
  assert (Forall (access_ok (dsectors d)) xs) as Hxs by (repeat constructor; vm_compute; congruence).
  assert (in_range (dsectors d) 3 (zlen [0; 0])) as Hr by (split; vm_compute; congruence).
  assert (snd (dread c 3 [0; 0]) = nsectors 2) as Hn by by vm_compute.
  destruct (dread c 3 [0; 0]) as [[c' buf'] n] eqn:E. cbn [fst snd] in *.
  rewrite (cache_transparent d xs 3 [0; 0] c' buf' n Hv Hxs Hr E Hn). by vm_compute.
Defined.

(** The cache is bounded and resists scans.  Whatever pages are loaded,
    at most 512 pages are held and at most 384 of them are protected, and
    loading a page never evicts a protected page, so a one-pass read of any
    length leaves every reused page in the cache. *)
Theorem cache_scan_resistant {D} `{DiskLaws D} (c : CachedDisk.CachedDisk D) page :
  cached_ok c -> 0 <= page -> page * PAGE_SIZE < dsectors (CachedDisk.inner c) * SECTOR ->
  let c' := fst (CachedDisk.load_page c page) in
  (size (CachedDisk.pages c') <= 512)%nat /\ (protected_count (CachedDisk.pages c') <= 384)%nat /\
  cached_ok c' /\
  (forall k p, CachedDisk.pages c !! k = Some p -> protected p = true ->
     exists q, CachedDisk.pages c' !! k = Some q).
Proof.
  intros Hok Hp Hlt. pose proof (load_page_spec c page Hok Hp Hlt) as Hl.
  destruct (CachedDisk.load_page c page) as [c' ok]. destruct Hl as (Hok' & _ & _ & Hk).
  destruct Hok' as (Hv & Hco & [Hb1 Hb2]). split; [exact Hb1|]. split; [exact Hb2|]. split; [by split_and!|done].
Qed.

Lemma cache_scan_resistant_witness :
  let d := mkMem (fun a => a mod 251) 100 in
  let c := foldl do_access (CachedDisk.wrap d) [ReadAt 0 [0]; ReadAt 0 [0]] in
  let c' := fst (CachedDisk.load_page c 3) in
  (exists p, CachedDisk.pages c !! 0 = Some p /\ protected p = true) /\
  (exists q, CachedDisk.pages c' !! 0 = Some q) /\ cached_ok c'.
Proof.
  intros d c c'.
  assert (valid d) as Hv by (split; [done|by vm_compute]).
  assert (valid (CachedDisk.wrap d)) as Hw by exact (wrap_ok d Hv).
  assert (Forall (access_ok (dsectors (CachedDisk.wrap d))) [ReadAt 0 [0]; ReadAt 0 [0]]) as Hxs
    by (repeat constructor; vm_compute; congruence).
  destruct (accesses_valid (CachedDisk.wrap d) _ Hw Hxs) as [Hok _].
  assert (exists p, CachedDisk.pages c !! 0 = Some p /\ protected p = true) as (p & Hp & Hpr)
    by (eexists; split; by vm_compute).
  destruct (cache_scan_resistant c 3 Hok) as (_ & _ & H1 & H2); [lia|by vm_compute|].
  split; [exact (ex_intro _ p (conj Hp Hpr))|]. split; [exact (H2 0 p Hp Hpr)|exact H1].
Defined.

(** * The stack a filesystem is mounted on *)

(** A partition of an overlaid disk, cached: what [startup] hands to a
    filesystem. *)
Definition mounted {D} `{Disk D} (d : D) (start sectors : Z) :=
  cached_volume (Volume.new (RamOverlay.wrap d) start sectors).

Lemma overlay_wrap_ok {D} `{DiskLaws D} (d : D) : valid d -> overlay_ok (RamOverlay.wrap d).
Proof. intros Hv. split; [done|]. intros k s Hk. cbn in Hk. by rewrite lookup_empty in Hk. Qed.

Lemma mounted_valid {D} `{DiskLaws D} (d : D) start sectors :
  valid d -> 0 <= start -> 0 <= sectors -> valid (mounted d start sectors).
Proof.
  intros Hv Hs Hn. pose proof (overlay_wrap_ok d Hv) as Ho.
  assert (valid (Volume.new (RamOverlay.wrap d) start sectors)) as Hx by by apply new_extent_ok.
  assert (valid (CachedDisk.wrap (Volume.new (RamOverlay.wrap d) start sectors))) as Hw by exact (wrap_ok _ Hx).
  destruct (sectors_range _ Hw) as [Hd _].
  unfold mounted, cached_volume, Volume.whole. cbn. unfold extent_ok; cbn. split_and!; try done; lia.
Qed.

(** what a filesystem writes it reads back.  On the composed stack of a
    cached volume over a partition of an overlaid disk, after any sequence
    of accesses a write that reports success followed by a read of the same
    range that reports success returns the bytes written, whatever the
    alignment and length. *)
Theorem mounted_read_after_write {D} `{DiskLaws D} (d : D) start sectors xs lba buf old v1 n v2 out m :
  valid d -> 0 <= start -> 0 <= sectors ->
  let v := foldl do_access (mounted d start sectors) xs in
  Forall (access_ok (dsectors (mounted d start sectors))) xs ->
  in_range (dsectors (mounted d start sectors)) lba (zlen buf) -> length old = length buf ->
  dwrite v lba buf = (v1, n) -> n = nsectors (zlen buf) ->
  dread v1 lba old = (v2, out, m) -> m = nsectors (zlen buf) -> out = buf.
Proof.
  intros Hv Hs Hn v Hxs Hr Hlen Ew En Er Em.
  destruct (accesses_valid _ xs (mounted_valid d start sectors Hv Hs Hn) Hxs) as [Hvv Hsv]. fold v in Hvv, Hsv.
  destruct (write_law v lba buf v1 n Hvv) as (W1 & W2 & _ & W4); [by rewrite Hsv|done|].
  destruct (read_law v1 lba old v2 out m W1) as (_ & _ & _ & R4 & R5); [by rewrite W2, Hsv, Hlen|done|].
  rewrite R5 by (by rewrite Hlen). rewrite Hlen. apply list_eq; intros i.
  destruct (decide (i < length buf)%nat) as [Hi|Hi].
  - rewrite bytes_at_lookup by done. destruct (lookup_lt_is_Some_2 buf i Hi) as [x Hx].
    rewrite Hx. f_equal. by apply W4.
  - by rewrite !lookup_ge_None_2 by (rewrite ?length_bytes_at; lia).
Qed.

Lemma mounted_read_after_write_witness :
  let d := mkMem (fun a => a mod 251) 100 in
  let v := mounted d 10 50 in
  snd (fst (dread (fst (dwrite v 7 [1; 2; 3])) 7 [0; 0; 0])) = [1; 2; 3].
Proof.
  intros d v.
  assert (valid d) as Hv by (split; [done|by vm_compute]).
  assert (snd (dwrite v 7 [1; 2; 3]) = nsectors 3) as Hn by by vm_compute.
  assert (snd (dread (fst (dwrite v 7 [1; 2; 3])) 7 [0; 0; 0]) = nsectors 3) as Hm by by vm_compute.
  destruct (dwrite v 7 [1; 2; 3]) as [v1 n] eqn:Ew. cbn [fst snd] in *.
  destruct (dread v1 7 [0; 0; 0]) as [[v2 out] m] eqn:Er. cbn [fst snd] in *.
  apply (mounted_read_after_write d 10 50 [] 7 [1; 2; 3] [0; 0; 0] v1 n v2 out m Hv); try done.
Defined.
