(* ===== verification/Partition.v ===== *)
(** Partition tables (kernel/src/kernel/block/partition.rs): the four MBR
    slots, and the GPT behind a protective MBR.

    Every index the source writes into a sector is a constant below 512 but
    for the GPT entries, whose stride the table chooses: there a slice out of
    range is a panic, [None].  The volumes of a table share their device in
    the source; here each carries the device as it was when the entry was
    read. *)

From Stdlib Require Import ZArith Lia Bool.
From stdpp Require Import base option list numbers.
From S2P Require Import Prelude Block.

Inductive PartKind := Linux | Fat | BootBundle | Other (ty : Z).

#[export] Instance PartKind_eq_dec : EqDecision PartKind.
Proof. solve_decision. Defined.

Definition from_mbr (ty : Z) : PartKind :=
  if ty =? 0x83 then Linux
  else if (ty =? 0x01) || (ty =? 0x04) || (ty =? 0x06) || (ty =? 0x0B) || (ty =? 0x0C) || (ty =? 0x0E)
       then Fat
  else if ty =? 0xDA then BootBundle
  else Other ty.

(** [l[a..a + n]] of a slice known to be long enough, and checked. *)
Definition slice (l : list Z) (a n : nat) : list Z := take n (drop a l).
Definition get_slice (l : list Z) (a n : Z) : option (list Z) :=
  if a + n <=? zlen l then Some (slice l (Z.to_nat a) (Z.to_nat n)) else None.

Definition is_protective_mbr (mbr : list Z) : bool :=
  existsb (fun i => (mbr !!! (0x1BE + i * 16 + 4)%nat) =? 0xEE) (seq 0 4).

(** "EFI PART" *)
Definition EFI_PART : list Z := [69; 70; 73; 32; 80; 65; 82; 84].

Section Scan.
Context {D : Type} `{Disk D}.

Record Partition := mkPart { volume : Volume.Volume D; kind : PartKind }.

(** Slot [i] of the table appended to the partitions found so far. *)
Definition mbr_slot (disk : Volume.Volume D) (mbr : list Z) (out : list Partition) (i : nat)
  : list Partition :=
  let base := (0x1BE + i * 16)%nat in
  let ty := mbr !!! (base + 4)%nat in
  let start := from_le_bytes (slice mbr (base + 8) 4) in
  let sectors := from_le_bytes (slice mbr (base + 12) 4) in
  if (ty =? 0) || (start =? 0) || (sectors =? 0) then out
  else out ++ [mkPart (Volume.new (Volume.disk disk) start sectors) (from_mbr ty)].

Definition self_mbr (disk : Volume.Volume D) (mbr : list Z) : list Partition :=
  foldl (mbr_slot disk mbr) [] (seq 0 4).

(** Entry [e] of the sector [buf] of a partition array. *)
Definition gpt_entry (disk : Volume.Volume D) (buf : list Z) (entry_size : Z) (e : nat)
  : option (option Partition) :=
  let off := Z.of_nat e * entry_size in
  guid ← get_slice buf off 16;
  if forallb (fun b => b =? 0) guid then Some None
  else
    f ← get_slice buf (off + 32) 8;
    l ← get_slice buf (off + 40) 8;
    let first := from_le_bytes f in
    let last := from_le_bytes l in
    if (first =? 0) || (last <? first) then Some None
    else Some (Some (mkPart (Volume.new (Volume.disk disk) first (last - first + 1)) (Other 0))).

(** [for e in 0..per_sector] *)
Fixpoint gpt_entries (disk : Volume.Volume D) (buf : list Z) (entry_size : Z) (es : list nat)
    (out : list Partition) : option (list Partition) :=
  match es with
  | [] => Some out
  | e :: es =>
      p ← gpt_entry disk buf entry_size e;
      gpt_entries disk buf entry_size es (out ++ match p with Some p => [p] | None => [] end)
  end.

(** [for s in 0..num_entries.div_ceil(per_sector)]; one buffer serves every
    sector, so a sector that cannot be read leaves the bytes the failed
    transfer left. *)
Fixpoint gpt_sectors (disk : Volume.Volume D) (buf : list Z) (entry_lba entry_size : Z)
    (per_sector : nat) (ss : list nat) (out : list Partition)
  : option (Volume.Volume D * list Partition) :=
  match ss with
  | [] => Some (disk, out)
  | s :: ss =>
      let '(disk, buf, _) := Volume.read disk (u64 (entry_lba + Z.of_nat s)) buf in
      out ← gpt_entries disk buf entry_size (seq 0 per_sector) out;
      gpt_sectors disk buf entry_lba entry_size per_sector ss out
  end.

Definition gpt (disk : Volume.Volume D) : option (Volume.Volume D * list Partition) :=
  let '(disk, hdr, _) := Volume.read disk 1 (replicate 512 0) in
  if negb (bool_decide (slice hdr 0 8 = EFI_PART)) then Some (disk, [])
  else
    let entry_lba := from_le_bytes (slice hdr 0x48 8) in
    let num_entries := Z.min (from_le_bytes (slice hdr 0x50 4)) 256 in
    let entry_size := from_le_bytes (slice hdr 0x54 4) in
    if (entry_size =? 0) || (entry_lba =? 0) || negb (512 mod entry_size =? 0) then Some (disk, [])
    else
      let per_sector := 512 / entry_size in
      gpt_sectors disk (replicate 512 0) entry_lba entry_size (Z.to_nat per_sector)
        (seq 0 (Z.to_nat (div_ceil num_entries per_sector))) [].

Definition scan (disk : Volume.Volume D) : option (Volume.Volume D * list Partition) :=
  let '(disk, mbr, _) := Volume.read disk 0 (replicate 512 0) in
  if is_protective_mbr mbr then gpt disk else Some (disk, self_mbr disk mbr).

End Scan.
Arguments Partition : clear implicits.

(** * What a table can yield *)

Section Sound.
Context {D : Type} `{DiskLaws D}.
Implicit Types (v : Volume.Volume D) (p : Partition D).

(** The stride the GPT header declares, as [scan] reads it. *)
Definition gpt_stride v : Z :=
  let '(v, _, _) := Volume.read v 0 (replicate 512 0) in
  let '(_, hdr, _) := Volume.read v 1 (replicate 512 0) in
  from_le_bytes (slice hdr 0x54 4).

(** A partition's extent lies within a device of [n] sectors. *)
Definition part_ok (n : Z) p : Prop :=
  extent_ok (volume p) /\ dsectors (Volume.disk (volume p)) = n.

Lemma new_part_ok v start sectors kind :
  extent_ok v -> 0 <= start -> 0 <= sectors ->
  part_ok (dsectors (Volume.disk v)) (mkPart (Volume.new (Volume.disk v) start sectors) kind).
Proof. intros (Hv & _) Hs Hn. split; [by apply new_extent_ok|done]. Qed.

Lemma self_mbr_ok v mbr : extent_ok v -> Forall (part_ok (dsectors (Volume.disk v))) (self_mbr v mbr).
Proof.
  intros Hv. unfold self_mbr. generalize (seq 0 4) as l.
  assert (Forall (part_ok (dsectors (Volume.disk v))) []) as Hnil by constructor. revert Hnil.
  generalize (@nil (Partition D)) as out. intros out Hout l; revert out Hout.
  induction l as [|i l IH]; intros out Hout; [done|]. cbn [foldl]. apply IH. unfold mbr_slot.
  destruct (_ || _ || _); [done|]. apply Forall_app; split; [done|]. constructor; [|constructor].
  apply new_part_ok; [done|apply from_le_bytes_range..].
Qed.

(** The outcome of parsing: partitions within the device, or a panic that
    only a stride too small for an entry can cause. *)
Definition parsed (n stride : Z) (r : option (list (Partition D))) : Prop :=
  match r with
  | Some ps => Forall (part_ok n) ps
  | None => stride < 48
  end.

Lemma gpt_entry_ok v buf stride e :
  extent_ok v -> length buf = 512%nat -> (Z.of_nat e + 1) * stride <= 512 ->
  parsed (dsectors (Volume.disk v)) stride
    (r ← gpt_entry v buf stride e; Some match r with Some p => [p] | None => [] end).
Proof.
  intros Hv Hb He. unfold gpt_entry, get_slice. rewrite Hb.
  destruct (Z.leb_spec (Z.of_nat e * stride + 16) (Z.of_nat 512)); cbn; [|lia].
  destruct (forallb _ _); [constructor|].
  destruct (Z.leb_spec (Z.of_nat e * stride + 32 + 8) (Z.of_nat 512)); cbn; [|lia].
  destruct (Z.leb_spec (Z.of_nat e * stride + 40 + 8) (Z.of_nat 512)); cbn; [|lia].
  set (f := from_le_bytes (slice buf (Z.to_nat (_ + 32)) _)).
  set (l := from_le_bytes (slice buf (Z.to_nat (_ + 40)) _)).
  assert (0 <= f) by apply from_le_bytes_range.
  destruct (Z.eqb_spec f 0); [constructor|]. destruct (Z.ltb_spec l f); [constructor|].
  cbn. constructor; [|constructor]. apply new_part_ok; [done|lia..].
Qed.

Lemma gpt_entries_ok v buf stride es out :
  extent_ok v -> length buf = 512%nat ->
  Forall (fun e => (Z.of_nat e + 1) * stride <= 512) es ->
  Forall (part_ok (dsectors (Volume.disk v))) out ->
  parsed (dsectors (Volume.disk v)) stride (gpt_entries v buf stride es out).
Proof.
  intros Hv Hb. revert out; induction es as [|e es IH]; intros out He Hout; [done|].
  apply Forall_cons_1 in He as [He Hes]. pose proof (gpt_entry_ok v buf stride e Hv Hb He) as Hr.
  cbn [gpt_entries]. destruct (gpt_entry v buf stride e) as [r|]; [|done]. cbn in *.
  apply IH; [done|]. by apply Forall_app.
Qed.

Lemma gpt_sectors_ok v buf lba stride ss out :
  extent_ok v -> length buf = 512%nat -> 0 <= lba -> 0 < stride ->
  Forall (part_ok (dsectors (Volume.disk v))) out ->
  parsed (dsectors (Volume.disk v)) stride
    (snd <$> gpt_sectors v buf lba stride (Z.to_nat (512 / stride)) ss out).
Proof.
  intros Hv Hb Hl Hs. revert v buf out Hv Hb; induction ss as [|s ss IH]; intros v buf out Hv Hb Hout; [done|].
  cbn [gpt_sectors].
  destruct (Volume.read v (u64 (lba + Z.of_nat s)) buf) as [[v1 b1] n] eqn:E.
  destruct (read_any v v1 (u64 (lba + Z.of_nat s)) buf b1 n Hv ltac:(apply wrap_fits; lia) E) as (Hv1 & Hd & Hlen).
  assert (parsed (dsectors (Volume.disk v1)) stride
    (gpt_entries v1 b1 stride (seq 0 (Z.to_nat (512 / stride))) out)) as Ho.
  { apply gpt_entries_ok; [done|congruence| |by rewrite Hd].
    apply Forall_forall. intros e He%list_elem_of_In%elem_of_seq. pose proof (Z.mul_div_le 512 stride ltac:(lia)).
    assert (Z.of_nat e + 1 <= 512 / stride) by lia. nia. }
  destruct (gpt_entries _ _ _ _ _) as [o|]; [|done]. cbn [mbind option_bind]. rewrite <- Hd.
  apply IH; [done|congruence|done].
Qed.

Lemma divisor_512 x : 0 < x < 48 -> 512 mod x = 0 -> x <= 32.
Proof.
  intros Hx Hm. destruct (Z.le_gt_cases x 32); [done|].
  assert (Forall (fun y => 512 mod y <> 0) (seqZ 33 15)) as Hall by (repeat constructor; done).
  rewrite Forall_forall in Hall. exfalso. apply (Hall x); [apply list_elem_of_In, elem_of_seqZ; lia|done].
Qed.

Lemma gpt_ok v :
  extent_ok v ->
  match gpt v with
  | Some (_, ps) => Forall (part_ok (dsectors (Volume.disk v))) ps
  | None => 1 <= from_le_bytes (slice (snd (fst (Volume.read v 1 (replicate 512 0)))) 0x54 4) <= 32
  end.
Proof.
  intros Hv. unfold gpt. destruct (Volume.read v 1 (replicate 512 0)) as [[v1 hdr] n] eqn:E.
  destruct (read_any v v1 1 _ hdr n Hv ltac:(lia) E) as (Hv1 & Hd & Hlen). cbn [fst snd].
  destruct (bool_decide _); [|constructor]. cbn [negb].
  set (lba := from_le_bytes (slice hdr 0x48 8)). set (st := from_le_bytes (slice hdr 0x54 4)).
  assert (0 <= lba) by apply from_le_bytes_range. assert (0 <= st) by apply from_le_bytes_range.
  destruct (Z.eqb_spec st 0) as [|Hst]; [constructor|]. destruct (Z.eqb_spec lba 0); [constructor|].
  cbn [orb]. destruct (Z.eqb_spec (512 mod st) 0) as [Hm|]; [|constructor]. cbn [negb].
  set (ss := seq 0 _).
  pose proof (gpt_sectors_ok v1 (replicate 512 0) lba st ss [] Hv1 eq_refl ltac:(lia) ltac:(lia)
    ltac:(constructor)) as Hp.
  destruct (gpt_sectors _ _ _ _ _ _ _) as [[v' o]|]; cbn in Hp; [by rewrite Hd in Hp|].
  pose proof (divisor_512 st). lia.
Qed.

(** The same without the layers' invariant: on a device of [n] sectors the
    partition is empty or ends by its last sector. *)
Definition inside (n : Z) p : Prop :=
  let v := volume p in
  dsectors (Volume.disk v) = n /\ 0 <= Volume.start v /\
  (Volume.sectors v = 0 \/ 0 < Volume.sectors v /\ Volume.start v + Volume.sectors v <= n).

Lemma part_ok_inside n p : part_ok n p -> inside n p.
Proof.
  intros [(V1 & V2 & V3 & V4) V5]. rewrite V5 in V4. split; [done|]. split; [done|]. lia.
Qed.

End Sound.

(** whatever a disk's first sectors say, every partition [scan] returns
    lies within the device; and [scan] always returns, unless the disk
    carries a GPT whose declared entry stride is 32 bytes or less. *)
Theorem partition_scan_sound {D} `{DiskLaws D} (d : D) :
  valid d ->
  match scan (Volume.whole d) with
  | Some (_, ps) =>
      Forall (inside (dsectors d)) ps
  | None => 1 <= gpt_stride (Volume.whole d) <= 32
  end.
Proof.
  intros Hv. assert (extent_ok (Volume.whole d)) as Hw.
  { destruct (sectors_range d Hv) as [? _]. split_and!; cbn; [done|lia|done|lia]. }
  assert (forall ps, Forall (part_ok (dsectors d)) ps -> Forall (inside (dsectors d)) ps) as Hps
    by (intros ps; apply Forall_impl; apply part_ok_inside).
  unfold scan, gpt_stride.
  destruct (Volume.read (Volume.whole d) 0 (replicate 512 0)) as [[v mbr] n] eqn:E.
  destruct (read_any _ v 0 _ mbr n Hw ltac:(lia) E) as (Hv1 & Hd & Hlen). cbn [Volume.disk Volume.whole] in Hd.
  destruct (is_protective_mbr mbr).
  - pose proof (gpt_ok v Hv1) as Hg. rewrite Hd in Hg. destruct (gpt v) as [[v' ps]|]; [by apply Hps|].
    by destruct (Volume.read v 1 (replicate 512 0)) as [[? ?] ?].
  - apply Hps. rewrite <- Hd. by apply self_mbr_ok.
Qed.

(** A disk of 200 sectors with one Linux partition in its third slot. *)
Definition mbr_disk : MemDisk :=
  mkMem (fun a => if a =? 0x1BE + 36 then 0x83 else if a =? 0x1BE + 40 then 63
                  else if a =? 0x1BE + 44 then 255 else 0) 200.

(** A disk with a protective MBR and a GPT header that declares [stride] and
    an entry at LBA 2, of one nonzero byte. *)
Definition gpt_disk (stride : Z) : MemDisk :=
  mkMem (fun a => if a =? 0x1BE + 4 then 0xEE
                  else if (512 <=? a) && (a <? 520) then nth (Z.to_nat (a - 512)) EFI_PART 0
                  else if a =? 512 + 0x48 then 2
                  else if a =? 512 + 0x50 then 128
                  else if a =? 512 + 0x54 then stride
                  else if a =? 1024 + 480 then 1
                  else 0) 200.

Lemma partition_scan_sound_witness :
  valid mbr_disk /\
  exists v p, scan (Volume.whole mbr_disk) = Some (v, [p]) /\ kind p = Linux /\
    Volume.start (volume p) + Volume.sectors (volume p) <= 200.
Proof.
  assert (valid mbr_disk) as Hv by (split; [done|by vm_compute]). split; [exact Hv|].
  pose proof (partition_scan_sound mbr_disk Hv) as Hs.
  assert (exists v p, scan (Volume.whole mbr_disk) = Some (v, [p]) /\ kind p = Linux /\
    Volume.start (volume p) = 63) as (v & p & E & Ek & Es)
    by (eexists _, _; split; [by cbv|split; by cbv]).
  exists v, p. rewrite E in Hs. split; [exact E|]. split; [exact Ek|].
  apply Forall_cons_1 in Hs as [(_ & Hs1 & Hs2) _]. cbn in Hs2. destruct Hs2 as [Hz|[_ Hle]]; [|exact Hle].
  rewrite Hz, Es. lia.
Defined.

(** A disk whose GPT header declares 32-byte entries stops the scan with a
    panic: the extent of the last entry of a sector is read past the end of
    the sector buffer. *)
Theorem scan_small_stride_panics : scan (Volume.whole (gpt_disk 32)) = None.
Proof. by vm_compute. Qed.

(** * The MBR round trip *)

(** A slot of the table, with the bytes RetroOS does not read. *)
Record Slot := mkSlot { status : Z; chs1 : Z * Z * Z; ty : Z; chs2 : Z * Z * Z; s_start : Z; s_sectors : Z }.

Definition slot_bytes (s : Slot) : list Z :=
  let '(a, b, c) := chs1 s in
  let '(x, y, z) := chs2 s in
  [status s; a; b; c; ty s; x; y; z] ++ to_le_bytes 4 (s_start s) ++ to_le_bytes 4 (s_sectors s).

Definition mbr_bytes (boot : list Z) (slots : list Slot) : list Z :=
  boot ++ concat (map slot_bytes slots) ++ [0x55; 0xAA].

Definition slot_ok (s : Slot) : Prop :=
  ty s <> 0xEE /\ fits 32 (s_start s) /\ fits 32 (s_sectors s).

Definition slot_used (s : Slot) : bool :=
  negb (ty s =? 0) && negb (s_start s =? 0) && negb (s_sectors s =? 0).

Lemma slice_mbr boot rest k n :
  length boot = 446%nat -> slice (boot ++ rest) (0x1BE + k) n = slice rest k n.
Proof. intros Hb. unfold slice. rewrite drop_app_ge by lia. do 2 f_equal. lia. Qed.

Lemma byte_mbr (boot rest : list Z) k :
  length boot = 446%nat -> (boot ++ rest) !!! (0x1BE + k)%nat = rest !!! k.
Proof.
  intros Hb. rewrite !list_lookup_total_alt, lookup_app_r by lia. do 2 f_equal. lia.
Qed.

Lemma slot_fields slots rest i s :
  slots !! i = Some s ->
  let l := concat (map slot_bytes slots) ++ rest in
  l !!! (i * 16 + 4)%nat = ty s /\
  slice l (i * 16 + 8) 4 = to_le_bytes 4 (s_start s) /\
  slice l (i * 16 + 12) 4 = to_le_bytes 4 (s_sectors s).
Proof.
  revert i; induction slots as [|s0 slots IH]; intros i Hi; [done|].
  destruct s0 as [st [[a b] c] t [[x y] z] ss sn], i as [|i].
  - by injection Hi as <-.
  - apply (IH i Hi).
Qed.

Section Roundtrip.
Context {D : Type} `{DiskLaws D}.
Variables (boot : list Z) (slots : list Slot).
Hypothesis boot_len : length boot = 446%nat.

Definition slot_part (v : Volume.Volume D) (s : Slot) : Partition D :=
  mkPart (Volume.new (Volume.disk v) (s_start s) (s_sectors s)) (from_mbr (ty s)).

Lemma mbr_slot_spec v out i s :
  slots !! i = Some s -> slot_ok s ->
  mbr_slot v (mbr_bytes boot slots) out i = out ++ (if slot_used s then [slot_part v s] else []).
Proof.
  intros Hi (Ht & Hs & Hn). unfold mbr_slot, mbr_bytes.
  destruct (slot_fields slots [0x55; 0xAA] i s Hi) as (F1 & F2 & F3).
  rewrite <- !Nat.add_assoc, !slice_mbr, byte_mbr, F1, F2, F3 by done.
  rewrite !from_to_le_bytes by (unfold fits in *; lia). unfold slot_used.
  destruct (ty s =? 0), (s_start s =? 0), (s_sectors s =? 0); cbn; by rewrite ?app_nil_r.
Qed.

Lemma self_mbr_spec v :
  length slots = 4%nat -> Forall slot_ok slots ->
  self_mbr v (mbr_bytes boot slots) = map (slot_part v) (List.filter slot_used slots).
Proof.
  intros Hlen Hok. unfold self_mbr.
  assert (forall k n out, (k + n <= length slots)%nat ->
    foldl (mbr_slot v (mbr_bytes boot slots)) out (seq k n) =
    out ++ map (slot_part v) (List.filter slot_used (take n (drop k slots)))) as Hgen.
  { intros k n; revert k; induction n as [|n IH]; intros k out Hk; [cbn; by rewrite app_nil_r|].
    cbn [seq foldl]. destruct (lookup_lt_is_Some_2 slots k ltac:(lia)) as [s Hs].
    rewrite (mbr_slot_spec v out k s Hs) by (by eapply Forall_lookup_1).
    rewrite IH by lia. rewrite (drop_S _ _ _ Hs). cbn [take List.filter].
    destruct (slot_used s); cbn [map]; by rewrite <- app_assoc. }
  rewrite (Hgen 0%nat 4%nat []) by lia. by rewrite drop_0, take_ge by lia.
Qed.

Lemma not_protective :
  length slots = 4%nat -> Forall slot_ok slots -> is_protective_mbr (mbr_bytes boot slots) = false.
Proof.
  intros Hlen Hok. unfold is_protective_mbr. apply not_true_is_false. intros Hex.
  apply existsb_exists in Hex as (i & Hi & Heq). apply list_elem_of_In, elem_of_seq in Hi.
  destruct (lookup_lt_is_Some_2 slots i ltac:(lia)) as [s Hs].
  destruct (slot_fields slots [0x55; 0xAA] i s Hs) as (F1 & _ & _).
  unfold mbr_bytes in Heq. rewrite <- Nat.add_assoc, byte_mbr, F1 in Heq by done.
  apply (Forall_lookup_1 _ _ _ _ Hok) in Hs as (Hne & _). apply Z.eqb_eq in Heq. done.
Qed.

Lemma length_mbr : length slots = 4%nat -> length (mbr_bytes boot slots) = 512%nat.
Proof.
  intros Hlen. unfold mbr_bytes. rewrite !length_app, boot_len.
  assert (forall l, length (concat (map slot_bytes l)) = (16 * length l)%nat) as ->; [|cbn; lia].
  induction l as [|[? [[? ?] ?] ? [[? ?] ?] ? ?] l IH]; [done|].
  cbn [map concat]. rewrite length_app, IH. cbn. lia.
Qed.

End Roundtrip.

(** A disk whose first sector is an MBR with four slots is scanned into
    exactly the partitions the slots describe, in table order: every slot
    with a type, a start and a length, at its start, as long as the slot
    says or as the device has, with its kind; and nothing else. *)
Theorem mbr_roundtrip {D} `{DiskLaws D} (d : D) boot slots d' out n :
  valid d -> 1 <= dsectors d -> length boot = 446%nat -> length slots = 4%nat -> Forall slot_ok slots ->
  bytes_at (content d) 0 512 = mbr_bytes boot slots ->
  dread d 0 (replicate 512 0) = (d', out, n) -> n = 1 ->
  scan (Volume.whole d) =
    Some (Volume.mk d' 0 (dsectors d),
          map (fun s => mkPart (Volume.mk d' (s_start s) (Z.min (s_sectors s) (sat_sub (dsectors d) (s_start s))))
                               (from_mbr (ty s))) (List.filter slot_used slots)).
Proof.
  intros Hv Hsz Hb Hlen Hok Hc E ->.
  assert (in_range (dsectors d) 0 (zlen (replicate 512 0))) as Hr
    by (rewrite length_replicate; split; unfold SECTOR; lia).
  destruct (read_law d 0 _ d' out 1 Hv Hr E) as (_ & L2 & _ & _ & L5).
  specialize (L5 eq_refl). rewrite length_replicate in L5. change (0 * SECTOR) with 0 in L5.
  rewrite Hc in L5. subst out.
  unfold scan, Volume.read. rewrite clamp_inside by (done || lia).
  rewrite Nat2Z.id, take_ge, Nat.sub_diag by lia. change (zlen (replicate 512 0) =? 0) with false.
  change (u64 (Volume.start (Volume.whole d) + 0)) with 0. cbn [Volume.disk Volume.whole].
  rewrite E. cbn [replicate Volume.start Volume.sectors Volume.whole]. rewrite app_nil_r.
  rewrite not_protective, self_mbr_spec by done. do 2 f_equal. apply map_ext. intros s.
  unfold slot_part, Volume.new. cbn [Volume.disk]. by rewrite L2.
Qed.

Lemma mbr_roundtrip_witness :
  let none := mkSlot 0 (0, 0, 0) 0 (0, 0, 0) 0 0 in
  let slots := [mkSlot 0x80 (0, 1, 1) 0x0C (0, 63, 5) 63 100; none;
                mkSlot 0 (5, 0, 0) 0x83 (6, 7, 8) 163 1000; none] in
  let d := mkMem (fun a => nth (Z.to_nat a) (mbr_bytes (replicate 446 0) slots) 0) 400 in
  (fun r => map (fun p => (Volume.start (volume p), Volume.sectors (volume p), kind p)) (snd r))
    <$> scan (Volume.whole d) = Some [(63, 100, Fat); (163, 237, Linux)].
Proof.
  intros none slots d.
  assert (valid d) as Hv by (split; [done|by vm_compute]).
  assert (Forall slot_ok slots) as Hok by (repeat constructor; vm_compute; congruence).
  assert (bytes_at (content d) 0 512 = mbr_bytes (replicate 446 0) slots) as Hc by by vm_compute.
  rewrite (mbr_roundtrip d (replicate 446 0) slots d (bytes_at (content d) 0 512) 1 Hv
    ltac:(by vm_compute) eq_refl eq_refl Hok Hc eq_refl eq_refl).
  by vm_compute.
Defined.
