(* ===== verification/Ext4.v ===== *)
(** The reading side of the portable ext4 engine (ext4/src/lib.rs,
    ext4/src/ondisk.rs, ext4/src/storage.rs).

    A storage object is its length and its bytes.  A fallible function gives
    [Ok], an [Error] of the source, or [Panic] where an index or a slice of
    the source would be out of range; allocation failures are left out.  The
    CRC-32C of the [crc] package is the class [Crc]. *)

From Stdlib Require Import ZArith Lia Bool.
From stdpp Require Import base option list numbers.
From S2P Require Import Prelude.
Local Open Scope machine_scope.

Abbreviation zlen l := (Z.of_nat (length l)).

(** * Errors *)

Inductive Corrupt :=
| BadMagic | InvalidBlockSize | InvalidGeometry | InvalidFeatureCombination | AddressOverflow
| SuperblockChecksum | GroupDescriptorChecksum (group : Z) | InodeChecksum (number : Z)
| DirectoryChecksum (number : Z) | ExtentChecksum (number : Z)
| FilesystemPastEnd (fs_bytes storage_len : Z) | ReadPastEnd (offset len : Z)
| InvalidGroup (group : Z) | InvalidInode (number : Z) | InvalidInodeTable
| InvalidExtentHeader | InvalidExtentTree | InvalidLegacyBlockMap | ExtentPastEnd
| InvalidDirectory | InvalidJournal | JournalChecksum
| InvalidBlockBitmap | InvalidFreeBlockCount | BlockBitmapChecksum (group : Z) | InodeBitmapChecksum (group : Z).

Inductive Unsupported :=
| IncompatibleFeatures (unknown : Z) | ExternalJournal
| JournalFeatures (compat incompat ro_compat : Z)
| JournalWriteProfile | ExtentTreeTooDeep | MutationProfile | ExtentMutation | InlineData | Encryption.

Inductive Error :=
| EStorage | ECorrupt (c : Corrupt) | EUnsupported (u : Unsupported)
| NotFound | NotDirectory | InvalidArgument | ReservationExhausted | AlreadyExists | NotEmpty.

Inductive R (A : Type) := Ok (a : A) | Err (e : Error) | Panic.
Arguments Ok {_} _.
Arguments Err {_} _.
Arguments Panic {_}.

#[export] Instance R_ret : MRet R := @Ok.
#[export] Instance R_bind : MBind R := fun A B k m =>
  match m with Ok a => k a | Err e => Err e | Panic => Panic end.
#[export] Instance R_fmap : FMap R := fun A B f m =>
  match m with Ok a => Ok (f a) | Err e => Err e | Panic => Panic end.

Definition corrupt {A} (c : Corrupt) : R A := Err (ECorrupt c).
Definition unsupported {A} (u : Unsupported) : R A := Err (EUnsupported u).

(** [option.ok_or(e)?] *)
Definition ok_or {A} (o : option A) (e : Error) : R A := match o with Some a => Ok a | None => Err e end.

(** [checked_add] and [checked_mul] of [u64], and [usize::try_from] on the
    32-bit target, with the error the source gives them. *)
Definition checked (x : Z) : R Z := if x <=? U64_MAX then Ok x else corrupt AddressOverflow.
Definition usize (x : Z) : R Z := if x <=? U32_MAX then Ok x else corrupt AddressOverflow.

(** * Bytes *)

Definition slice (b : list Z) (off n : Z) : R (list Z) :=
  if (0 <=? off) && (0 <=? n) && (off + n <=? zlen b)
  then Ok (take (Z.to_nat n) (drop (Z.to_nat off) b)) else Panic.

(** [b[off..off + src.len()].copy_from_slice(src)] *)
Definition put (b : list Z) (off : Z) (src : list Z) : R (list Z) :=
  if (0 <=? off) && (off + zlen src <=? zlen b)
  then Ok (take (Z.to_nat off) b ++ src ++ drop (Z.to_nat off + length src) b) else Panic.

Definition zeros (n : Z) : list Z := replicate (Z.to_nat n) 0.

Definition byte_at (b : list Z) (off : Z) : R Z := from_le_bytes <$> slice b off 1.
Definition le16 (b : list Z) (off : Z) : R Z := from_le_bytes <$> slice b off 2.
Definition le32 (b : list Z) (off : Z) : R Z := from_le_bytes <$> slice b off 4.

(** Two halves of a wider field, [u64::from(lo) | u64::from(hi) << w]. *)
Definition join (w lo hi : Z) : Z := (hi ≪ w) .| lo.

(** * The CRC-32C of the [crc] package

    [Checksum::with_seed(seed)], [update] of the bytes given in order, and
    [finalize]; the source relies on a 32-bit result and on [update] being
    incremental, so the bytes of several updates are one list here. *)
Class Crc := {
  checksum : Z -> list Z -> Z;
  checksum_fits seed b : fits 32 (checksum seed b)
}.

(** * Storage *)

Record Storage := mkStorage { st_len : Z; st_byte : Z -> Z }.

(** [Storage::read] *)
Definition st_read (s : Storage) (offset n : Z) : list Z :=
  map (fun i => st_byte s (offset + Z.of_nat i)) (seq 0 (Z.to_nat n)).

Definition checked_read (s : Storage) (offset n : Z) : R (list Z) :=
  end_ ← checked (offset + n);
  if st_len s <? end_ then corrupt (ReadPastEnd offset n) else Ok (st_read s offset n).

(** * Superblock *)

Definition SUPERBLOCK_OFFSET : Z := 1024.
Definition SUPERBLOCK_SIZE : Z := 1024.
Definition EXT4_MAGIC : Z := 0xef53.

Definition INCOMPAT_FILETYPE : Z := 0x0002.
Definition INCOMPAT_RECOVER : Z := 0x0004.
Definition INCOMPAT_META_BG : Z := 0x0010.
Definition INCOMPAT_EXTENTS : Z := 0x0040.
Definition INCOMPAT_64BIT : Z := 0x0080.
Definition INCOMPAT_MMP : Z := 0x0100.
Definition INCOMPAT_FLEX_BG : Z := 0x0200.
Definition INCOMPAT_EA_INODE : Z := 0x0400.
Definition INCOMPAT_CSUM_SEED : Z := 0x2000.
Definition INCOMPAT_LARGE_DIR : Z := 0x4000.
Definition INCOMPAT_INLINE_DATA : Z := 0x8000.
Definition INCOMPAT_ENCRYPT : Z := 0x10000.
Definition INCOMPAT_CASEFOLD : Z := 0x20000.
Definition COMPAT_HAS_JOURNAL : Z := 0x0004.
Definition COMPAT_SPARSE_SUPER2 : Z := 0x0200.
Definition RO_COMPAT_GDT_CSUM : Z := 0x0010.
Definition RO_COMPAT_METADATA_CSUM : Z := 0x0400.

Definition READ_INCOMPAT : Z :=
  INCOMPAT_FILETYPE .| INCOMPAT_RECOVER .| INCOMPAT_META_BG .| INCOMPAT_EXTENTS .| INCOMPAT_64BIT
  .| INCOMPAT_MMP .| INCOMPAT_FLEX_BG .| INCOMPAT_EA_INODE .| INCOMPAT_CSUM_SEED .| INCOMPAT_LARGE_DIR
  .| INCOMPAT_INLINE_DATA .| INCOMPAT_ENCRYPT .| INCOMPAT_CASEFOLD.

Record Superblock := mkSuperblock {
  inodes_count : Z; blocks_count : Z; first_data_block : Z; block_size : Z;
  blocks_per_group : Z; inodes_per_group : Z; inode_size : Z; first_inode : Z;
  descriptor_size : Z; feature_compat : Z; feature_incompat : Z; feature_ro_compat : Z;
  uuid : list Z; checksum_seed : Z; journal_inode : Z; reserved_gdt_blocks : Z;
  backup_bgs : Z * Z; first_meta_bg : Z
}.

(** [flags & mask != 0] *)
Definition has_flag (flags mask : Z) : bool := negb ((flags .& mask) =? 0).

(** [1024u32.checked_shl(log).filter(..)] *)
Definition block_size_of (log : Z) : option Z :=
  if log <? 32 then
    let size := u32 (1024 ≪ log) in
    if bool_decide (size ∈ [1024; 2048; 4096; 8192; 16384; 32768; 65536]) then Some size else None
  else None.

Section Reading.
Context `{Crc}.

Definition parse (b : list Z) (storage_len : Z) : R Superblock :=
  magic ← le16 b 0x38;
  if negb (magic =? EXT4_MAGIC) then corrupt BadMagic else
  log_block_size ← le32 b 0x18;
  block_size ← ok_or (block_size_of log_block_size) (ECorrupt InvalidBlockSize);
  feature_compat ← le32 b 0x5c;
  feature_incompat ← le32 b 0x60;
  feature_ro_compat ← le32 b 0x64;
  let unknown := feature_incompat .& bnot 32 READ_INCOMPAT in
  if negb (unknown =? 0) then unsupported (IncompatibleFeatures unknown) else
  let has_metadata_checksums := has_flag feature_ro_compat RO_COMPAT_METADATA_CSUM in
  if has_flag feature_incompat INCOMPAT_CSUM_SEED && negb has_metadata_checksums
  then corrupt InvalidFeatureCombination else
  blocks_lo ← le32 b 0x04;
  blocks_hi ← (if has_flag feature_incompat INCOMPAT_64BIT then le32 b 0x150 else Ok 0);
  let blocks_count := join 32 blocks_lo blocks_hi in
  first_data_block ← le32 b 0x14;
  blocks_per_group ← le32 b 0x20;
  inodes_count ← le32 b 0x00;
  inodes_per_group ← le32 b 0x28;
  rev_level ← le32 b 0x4c;
  let dynamic_revision := negb (rev_level =? 0) in
  inode_size ← (if negb dynamic_revision then Ok 128 else le16 b 0x58);
  first_inode ← (if dynamic_revision then le32 b 0x54 else Ok 11);
  descriptor_size ← (if has_flag feature_incompat INCOMPAT_64BIT
                     then n ← le16 b 0xfe; Ok (Z.max n 64) else Ok 32);
  if (blocks_count <=? first_data_block) || (blocks_per_group =? 0) || (inodes_count <? 2)
     || (inodes_per_group =? 0) || (inode_size <? 128) || (first_inode =? 0)
     || (inodes_count <? first_inode) || negb (inode_size mod 4 =? 0) || (block_size <? inode_size)
     || (descriptor_size <? 32) || negb (descriptor_size mod 8 =? 0) || (block_size <? descriptor_size)
  then corrupt InvalidGeometry else
  let block_groups := div_ceil (blocks_count - first_data_block) blocks_per_group in
  let inode_groups := div_ceil inodes_count inodes_per_group in
  if (block_groups <? inode_groups) || (U32_MAX <? block_groups) then corrupt InvalidGeometry else
  fs_bytes ← checked (blocks_count * block_size);
  if storage_len <? fs_bytes then corrupt (FilesystemPastEnd fs_bytes storage_len) else
  uuid ← slice b 0x68 16;
  sum_ok ← (if has_metadata_checksums then
              expected ← le32 b 0x3fc; body ← slice b 0 0x3fc; Ok (checksum U32_MAX body =? expected)
            else Ok true);
  if negb sum_ok then corrupt SuperblockChecksum else
  checksum_seed ← (if has_flag feature_incompat INCOMPAT_CSUM_SEED then le32 b 0x270
                   else Ok (checksum U32_MAX uuid));
  journal_inode ← le32 b 0xe0;
  reserved_gdt_blocks ← le16 b 0xce;
  backup0 ← le32 b 0x24c;
  backup1 ← le32 b 0x250;
  first_meta_bg ← le32 b 0x104;
  let descriptors_per_block := block_size / descriptor_size in
  let descriptor_blocks := div_ceil block_groups descriptors_per_block in
  if has_flag feature_incompat INCOMPAT_META_BG && (descriptor_blocks <? first_meta_bg)
  then corrupt InvalidGeometry else
  if has_flag feature_incompat INCOMPAT_RECOVER && negb (has_flag feature_compat COMPAT_HAS_JOURNAL)
  then corrupt InvalidFeatureCombination else
  if has_flag feature_incompat INCOMPAT_RECOVER && (journal_inode =? 0)
  then unsupported ExternalJournal else
  Ok (mkSuperblock inodes_count blocks_count first_data_block block_size blocks_per_group
        inodes_per_group inode_size first_inode descriptor_size feature_compat feature_incompat
        feature_ro_compat uuid checksum_seed journal_inode reserved_gdt_blocks (backup0, backup1)
        first_meta_bg).

(** [Superblock::load] *)
Definition load_superblock (s : Storage) : R Superblock :=
  bytes ← checked_read s SUPERBLOCK_OFFSET SUPERBLOCK_SIZE; parse bytes (st_len s).

Definition group_count (sb : Superblock) : Z :=
  u32 (div_ceil (blocks_count sb - first_data_block sb) (blocks_per_group sb)).

Fixpoint power_loop (fuel : nat) (value base : Z) : Z :=
  match fuel with
  | O => value
  | S n => if value mod base =? 0 then power_loop n (value / base) base else value
  end.

(** A 32-bit value has at most 32 factors. *)
Definition is_power_of (value base : Z) : bool :=
  if value <? 1 then false else power_loop 32 value base =? 1.

Definition group_has_super (sb : Superblock) (group : Z) : bool :=
  if group =? 0 then true
  else if has_flag (feature_compat sb) COMPAT_SPARSE_SUPER2
  then (group =? fst (backup_bgs sb)) || (group =? snd (backup_bgs sb))
  else if negb (has_flag (feature_ro_compat sb) 1) then true
  else (group =? 1) || is_power_of group 3 || is_power_of group 5 || is_power_of group 7.

Definition descriptor_offset (sb : Superblock) (group : Z) : R Z :=
  let descriptors_per_block := block_size sb / descriptor_size sb in
  let descriptor_block := group / descriptors_per_block in
  let within := group mod descriptors_per_block in
  block ← (if negb (has_flag (feature_incompat sb) INCOMPAT_META_BG) || (descriptor_block <? first_meta_bg sb)
           then checked (first_data_block sb + 1 + descriptor_block)
           else
             let first_group := descriptor_block * descriptors_per_block in
             span ← checked (first_group * blocks_per_group sb);
             first_block ← checked (first_data_block sb + span);
             checked (first_block + Z.b2z (group_has_super sb (u32 first_group))));
  start ← checked (block * block_size sb);
  checked (start + within * descriptor_size sb).

Definition has_metadata_checksums (sb : Superblock) : bool :=
  has_flag (feature_ro_compat sb) RO_COMPAT_METADATA_CSUM.

Definition needs_recovery (sb : Superblock) : bool := has_flag (feature_incompat sb) INCOMPAT_RECOVER.

(** * The mounted filesystem *)

Record Ext4 := mkExt4 { superblock : Superblock; overlay : list (Z * list Z) }.

(** [binary_search_by_key] over the sorted overlay: the index of the key, or
    where it would be inserted. *)
Definition binary_search {A} (key : Z) (l : list (Z * A)) : nat + nat :=
  match list_find (fun e => fst e = key) l with
  | Some (i, _) => inl i
  | None => inr (length (filter (fun e => fst e < key) l))
  end.

Section Fs.
Context (fs : Ext4).

(** One turn of the overlay loop of [read_storage]. *)
Definition patch_block (offset end_ : Z) (dst : list Z) (number : Z) : R (list Z) :=
  match binary_search number (overlay fs) with
  | inr _ => Ok dst
  | inl index =>
      let block := snd (overlay fs !!! index) in
      block_start ← checked (number * block_size (superblock fs));
      block_end ← checked (block_start + block_size (superblock fs));
      let start := Z.max offset block_start in
      let stop := Z.min end_ block_end in
      if start <? stop then
        destination ← usize (start - offset);
        source ← usize (start - block_start);
        len ← usize (stop - start);
        bytes ← slice block source len;
        put dst destination bytes
      else Ok dst
  end.

(** [for number in numbers] over the buffer. *)
Fixpoint patch (offset end_ : Z) (numbers : list Z) (dst : list Z) : R (list Z) :=
  match numbers with
  | [] => Ok dst
  | number :: numbers => dst ← patch_block offset end_ dst number; patch offset end_ numbers dst
  end.

Definition read_storage (s : Storage) (offset n : Z) : R (list Z) :=
  dst ← checked_read s offset n;
  if n =? 0 then Ok dst else
  end_ ← checked (offset + n);
  let first := offset / block_size (superblock fs) in
  let last := (end_ - 1) / block_size (superblock fs) in
  patch offset end_ (seqZ first (last - first + 1)) dst.

(** [read_storage] of a whole block into a new buffer. *)
Definition read_fs_block (s : Storage) (number : Z) : R (list Z) :=
  offset ← checked (number * block_size (superblock fs));
  read_storage s offset (block_size (superblock fs)).

Definition crc16_bit (c : Z) : Z := if has_flag c 1 then Z.lxor (c ≫ 1) 0xa001 else c ≫ 1.

Definition crc16 (c : Z) (bytes : list Z) : Z :=
  foldl (fun c byte => Nat.iter 8 crc16_bit (Z.lxor c (u8 byte))) c bytes.

Definition legacy_group_descriptor_checksum (uuid : list Z) (group : Z) (descriptor : list Z) : R Z :=
  head ← slice descriptor 0 0x1e;
  let c := crc16 (crc16 (crc16 U16_MAX uuid) (to_le_bytes 4 group)) head in
  if 0x20 <? zlen descriptor then
    tail ← slice descriptor 0x20 (zlen descriptor - 0x20); Ok (crc16 c tail)
  else Ok c.

Definition group_checksum (seed group : Z) (descriptor : list Z) : R Z :=
  head ← slice descriptor 0 0x1e;
  tail ← slice descriptor 0x20 (zlen descriptor - 0x20);
  Ok (u16 (checksum seed (to_le_bytes 4 group ++ head ++ to_le_bytes 2 0 ++ tail))).

Definition read_group_descriptor (s : Storage) (group : Z) : R (list Z) :=
  let sb := superblock fs in
  if group_count sb <=? group then corrupt (InvalidGroup group) else
  offset ← descriptor_offset sb group;
  descriptor ← read_storage s offset (descriptor_size sb);
  good ← (if has_metadata_checksums sb then
            expected ← le16 descriptor 0x1e;
            actual ← group_checksum (checksum_seed sb) group descriptor; Ok (actual =? expected)
          else if has_flag (feature_ro_compat sb) RO_COMPAT_GDT_CSUM then
            expected ← le16 descriptor 0x1e;
            actual ← legacy_group_descriptor_checksum (uuid sb) group descriptor; Ok (actual =? expected)
          else Ok true);
  if negb good then corrupt (GroupDescriptorChecksum group) else Ok descriptor.

(** The checksum of an inode; the record comes back with its checksum
    fields cleared. *)
Definition verify_inode (number : Z) (raw : list Z) : R (list Z) :=
  generation ← le32 raw 0x64;
  expected_lo ← le16 raw 0x7c;
  raw ← put raw 0x7c (zeros 2);
  if 0x84 <=? zlen raw then
    expected_hi ← le16 raw 0x82;
    raw ← put raw 0x82 (zeros 2);
    let actual := checksum (checksum_seed (superblock fs)) (to_le_bytes 4 number ++ to_le_bytes 4 generation ++ raw) in
    if actual =? join 16 expected_lo expected_hi then Ok raw else corrupt (InodeChecksum number)
  else
    let actual := checksum (checksum_seed (superblock fs)) (to_le_bytes 4 number ++ to_le_bytes 4 generation ++ raw) in
    if u16 actual =? expected_lo then Ok raw else corrupt (InodeChecksum number).

Definition read_raw_inode (s : Storage) (number : Z) : R (list Z) :=
  let sb := superblock fs in
  if (number =? 0) || (inodes_count sb <? number) then corrupt (InvalidInode number) else
  let zero_based := number - 1 in
  let group := zero_based / inodes_per_group sb in
  let index := zero_based mod inodes_per_group sb in
  descriptor ← read_group_descriptor s group;
  table_lo ← le32 descriptor 8;
  table_hi ← (if has_flag (feature_incompat sb) INCOMPAT_64BIT then le32 descriptor 40 else Ok 0);
  let inode_table := join 32 table_lo table_hi in
  if (inode_table =? 0) || (blocks_count sb <=? inode_table) then corrupt InvalidInodeTable else
  start ← checked (inode_table * block_size sb);
  offset ← checked (start + index * inode_size sb);
  raw ← read_storage s offset (inode_size sb);
  if has_metadata_checksums sb then verify_inode number raw else Ok raw.

(** * Inodes *)

Definition EXTENTS_FL : Z := 0x00080000.
Definition EA_INODE_FL : Z := 0x00200000.
Definition ENCRYPT_FL : Z := 0x00000800.
Definition INLINE_DATA_FL : Z := 0x10000000.
Definition DIRECTORY_INDEX_FL : Z := 0x00001000.
Definition EXTENT_MAGIC : Z := 0xf30a.
Definition MODE_TYPE_MASK : Z := 0xf000.
Definition MODE_DIRECTORY : Z := 0x4000.
Definition MODE_REGULAR : Z := 0x8000.
Definition MODE_SYMLINK : Z := 0xa000.

Record Timestamp := mkTimestamp { seconds : Z; nanoseconds : Z }.

Record Inode := mkInode {
  number : Z; mode : Z; uid : Z; gid : Z; size : Z; links : Z;
  accessed : Timestamp; modified : Timestamp; changed : Timestamp;
  flags : Z; generation : Z; blocks_512 : Z; external_xattr_block : Z;
  block_map : list Z; inline_data : option (list Z)
}.

Definition is_directory (i : Inode) : bool := (mode i .& MODE_TYPE_MASK) =? MODE_DIRECTORY.
Definition is_symlink (i : Inode) : bool := (mode i .& MODE_TYPE_MASK) =? MODE_SYMLINK.

(** [i64::from(x as i32)] *)
Definition as_i32 (x : Z) : Z := if x <? 2 ^ 31 then x else x - 2 ^ 32.

Definition decode_inode_timestamp (raw : list Z) (seconds_offset extra_offset inode_number : Z) : R Timestamp :=
  secs ← le32 raw seconds_offset;
  extra ← (if extra_offset + 4 <=? zlen raw then le32 raw extra_offset else Ok 0);
  let nanos := extra ≫ 2 in
  if 1000000000 <=? nanos then corrupt (InvalidInode inode_number)
  else Ok (mkTimestamp (as_i32 secs + ((extra .& 3) ≪ 32)) nanos).

(** [(16 + name_len + 3) & !3] *)
Definition entry_len_of (name_len : Z) : Z := (16 + name_len + 3) .& bnot 32 3.

(** The walk over the attributes of an inode for the rest of its inline
    data; every entry has at least 16 bytes. *)
Fixpoint inline_entries (fuel : nat) (inode : Z) (raw : list Z) (entries wanted cursor : Z) (data : list Z)
    : R (list Z) :=
  match fuel with
  | O => Panic
  | S n =>
      if zlen raw <? cursor + 16 then corrupt (InvalidInode inode) else
      head ← le32 raw cursor;
      if head =? 0 then corrupt (InvalidInode inode) else
      name_len ← byte_at raw cursor;
      let entry_end := cursor + entry_len_of name_len in
      if zlen raw <? entry_end then corrupt (InvalidInode inode) else
      name_index ← byte_at raw (cursor + 1);
      is_data ← (if (name_index =? 7) && (name_len =? 4)
                 then name ← slice raw (cursor + 16) 4; Ok (bool_decide (name = [0x64; 0x61; 0x74; 0x61]))
                 else Ok false);
      if negb is_data then inline_entries n inode raw entries wanted entry_end data else
      value_inum ← le32 raw (cursor + 4);
      value_size ← le32 raw (cursor + 8);
      value_offs ← le16 raw (cursor + 2);
      let value := entries + value_offs in
      if zlen raw <? value + value_size then corrupt (InvalidInode inode) else
      if negb (value_inum =? 0) || negb (value_size =? wanted) then corrupt (InvalidInode inode) else
      rest ← slice raw value value_size;
      Ok (data ++ rest)
  end.

Definition parse_inline_data (inode mode size : Z) (raw block_map : list Z) : R (list Z) :=
  if U32_MAX <? size then corrupt (InvalidInode inode) else
  let directory := (mode .& MODE_TYPE_MASK) =? MODE_DIRECTORY in
  if directory && (size <? 4) then corrupt (InvalidInode inode) else
  let total := if directory then size - 4 else size in
  let prefix_start := if directory then 4 else 0 in
  let prefix := Z.min total (zlen block_map - prefix_start) in
  data ← slice block_map prefix_start prefix;
  if size <=? zlen block_map then Ok data else
  if zlen raw <? 0x84 then corrupt (InvalidInode inode) else
  extra ← le16 raw 0x80;
  let header := 128 + extra in
  if zlen raw <? header + 4 then corrupt (InvalidInode inode) else
  magic ← le32 raw header;
  if negb (magic =? 0xea020000) then corrupt (InvalidInode inode) else
  let entries := header + 4 in
  inline_entries (length raw) inode raw entries (size - zlen block_map) entries data.

Definition load_inode (s : Storage) (number : Z) : R Inode :=
  raw ← read_raw_inode s number;
  generation ← le32 raw 0x64;
  mode ← le16 raw 0;
  if mode =? 0 then corrupt (InvalidInode number) else
  size_lo ← le32 raw 4; size_hi ← le32 raw 0x6c;
  let size := join 32 size_lo size_hi in
  uid_lo ← le16 raw 2; uid_hi ← le16 raw 0x78;
  gid_lo ← le16 raw 0x18; gid_hi ← le16 raw 0x7a;
  block_map ← slice raw 0x28 60;
  flags ← le32 raw 0x20;
  inline_data ←
    (if has_flag flags INLINE_DATA_FL
        && bool_decide ((mode .& MODE_TYPE_MASK) ∈ [MODE_REGULAR; MODE_DIRECTORY; MODE_SYMLINK])
     then Some <$> parse_inline_data number mode size raw block_map else Ok None);
  blocks_lo ← le32 raw 0x1c; blocks_hi ← le16 raw 0x74;
  xattr_lo ← le32 raw 0x68;
  xattr_hi ← (if has_flag (feature_incompat (superblock fs)) INCOMPAT_64BIT then le16 raw 0x76 else Ok 0);
  times ← (if has_flag flags EA_INODE_FL then
             let zero := mkTimestamp 0 0 in Ok (zero, zero, zero)
           else
             a ← decode_inode_timestamp raw 0x08 0x8c number;
             c ← decode_inode_timestamp raw 0x0c 0x84 number;
             m ← decode_inode_timestamp raw 0x10 0x88 number; Ok (a, c, m));
  let '(accessed, changed, modified) := times in
  links ← le16 raw 0x1a;
  Ok (mkInode number mode (join 16 uid_lo uid_hi) (join 16 gid_lo gid_hi) size links
        accessed modified changed flags generation (join 32 blocks_lo blocks_hi)
        (join 32 xattr_lo xattr_hi) block_map inline_data).

(** * From a file's blocks to the device's *)

Definition validate_legacy_pointer (physical : Z) : R (option Z) :=
  if physical =? 0 then Ok None
  else if physical <? blocks_count (superblock fs) then Ok (Some physical)
  else corrupt InvalidLegacyBlockMap.

Fixpoint follow_legacy_indirect (s : Storage) (physical : Z) (indexes : list Z) : R (option Z) :=
  match indexes with
  | [] => validate_legacy_pointer physical
  | index :: indexes =>
      if physical =? 0 then Ok None else
      if (blocks_count (superblock fs) <=? physical) || (block_size (superblock fs) / 4 <=? index)
      then corrupt InvalidLegacyBlockMap else
      block ← read_fs_block s physical;
      at_ ← usize (index * 4);
      next ← le32 block at_;
      follow_legacy_indirect s next indexes
  end.

Definition DIRECT_BLOCKS : Z := 12.

Definition map_legacy_block (s : Storage) (inode : Inode) (logical : Z) : R (option Z) :=
  if logical <? DIRECT_BLOCKS then
    p ← le32 (block_map inode) (logical * 4); validate_legacy_pointer p
  else
    let pointers := block_size (superblock fs) / 4 in
    double_capacity ← checked (pointers * pointers);
    triple_capacity ← checked (double_capacity * pointers);
    let remaining := logical - DIRECT_BLOCKS in
    if remaining <? pointers then
      p ← le32 (block_map inode) (12 * 4); follow_legacy_indirect s p [remaining]
    else
      let remaining := remaining - pointers in
      if remaining <? double_capacity then
        p ← le32 (block_map inode) (13 * 4);
        follow_legacy_indirect s p [remaining / pointers; remaining mod pointers]
      else
        let remaining := remaining - double_capacity in
        if remaining <? triple_capacity then
          p ← le32 (block_map inode) (14 * 4);
          follow_legacy_indirect s p
            [remaining / double_capacity; (remaining mod double_capacity) / pointers; remaining mod pointers]
        else corrupt InvalidLegacyBlockMap.

Definition inode_checksum (inode : Inode) (bytes : list Z) : Z :=
  checksum (checksum_seed (superblock fs))
    (to_le_bytes 4 (number inode) ++ to_le_bytes 4 (generation inode) ++ bytes).

(** [previous.is_some_and(|p| start_logical <= p)] *)
Definition not_after (previous : option Z) (start_logical : Z) : bool :=
  match previous with Some p => start_logical <=? p | None => false end.

(** The scan of a leaf, entries [i..entries). *)
Fixpoint leaf_scan (n : nat) (node : list Z) (logical i : Z) (previous : option Z) : R (option Z) :=
  match n with
  | O => Ok None
  | S n =>
      let at_ := 12 + i * 12 in
      start_logical ← le32 node at_;
      if not_after previous start_logical then corrupt InvalidExtentTree else
      encoded_len ← le16 node (at_ + 4);
      if encoded_len =? 0 then corrupt InvalidExtentTree else
      let initialized := encoded_len <=? 32768 in
      let len := if initialized then encoded_len else encoded_len - 32768 in
      if (start_logical <=? logical) && (logical - start_logical <? len) then
        if negb initialized then Ok None else
        lo ← le32 node (at_ + 8);
        hi ← le16 node (at_ + 6);
        physical ← checked (join 32 lo hi + (logical - start_logical));
        if blocks_count (superblock fs) <=? physical then corrupt ExtentPastEnd else Ok (Some physical)
      else leaf_scan n node logical (i + 1) (Some start_logical)
  end.

(** The child an index node points to for [logical]. *)
Fixpoint index_scan (n : nat) (node : list Z) (logical i : Z) (previous child : option Z) : R (option Z) :=
  match n with
  | O => Ok child
  | S n =>
      let at_ := 12 + i * 12 in
      start_logical ← le32 node at_;
      if not_after previous start_logical then corrupt InvalidExtentTree else
      if start_logical <=? logical then
        lo ← le32 node (at_ + 4);
        hi ← le16 node (at_ + 8);
        index_scan n node logical (i + 1) (Some start_logical) (Some (join 32 lo hi))
      else Ok child
  end.

(** [fuel] bounds the recursion, which [traversed] stops at depth 6. *)
Fixpoint map_extent_node (fuel : nat) (s : Storage) (node : list Z) (logical traversed : Z)
    (inode : Inode) (external : bool) : R (option Z) :=
  match fuel with
  | O => Panic
  | S fuel =>
      if zlen node <? 12 then corrupt InvalidExtentHeader else
      magic ← le16 node 0;
      if negb (magic =? EXTENT_MAGIC) then corrupt InvalidExtentHeader else
      entries ← le16 node 2;
      max ← le16 node 4;
      depth ← le16 node 6;
      if (5 <? depth) || (5 <? traversed) then unsupported ExtentTreeTooDeep else
      let capacity := (zlen node - 12) / 12 in
      if (max <? entries) || (capacity <? max) then corrupt InvalidExtentTree else
      _ ← (if external && has_metadata_checksums (superblock fs) then
             let checksum_offset := 12 + max * 12 in
             if zlen node <? checksum_offset + 4 then corrupt InvalidExtentTree else
             expected ← le32 node checksum_offset;
             body ← slice node 0 checksum_offset;
             if inode_checksum inode body =? expected then Ok tt else corrupt (ExtentChecksum (number inode))
           else Ok tt);
      if depth =? 0 then leaf_scan (Z.to_nat entries) node logical 0 None else
      child ← index_scan (Z.to_nat entries) node logical 0 None None;
      match child with
      | None => Ok None
      | Some child =>
          if (child =? 0) || (blocks_count (superblock fs) <=? child) then corrupt ExtentPastEnd else
          bytes ← read_fs_block s child;
          child_depth ← le16 bytes 6;
          if negb (child_depth + 1 =? depth) then corrupt InvalidExtentTree else
          map_extent_node fuel s bytes logical (traversed + 1) inode true
      end
  end.

Definition map_file_block (s : Storage) (inode : Inode) (logical : Z) : R (option Z) :=
  if negb (has_flag (flags inode) EXTENTS_FL) then map_legacy_block s inode logical
  else map_extent_node 7 s (block_map inode) logical 0 inode false.

(** * Reading a file *)

(** The copy loop of [read_inode_data]; a step copies at least one byte. *)
Fixpoint read_loop (fuel : nat) (s : Storage) (inode : Inode) (offset wanted done : Z) : R (list Z) :=
  match fuel with
  | O => if done <? wanted then Panic else Ok []
  | S n =>
      if negb (done <? wanted) then Ok [] else
      let position := offset + done in
      let logical := position / block_size (superblock fs) in
      let within := position mod block_size (superblock fs) in
      let amount := Z.min (wanted - done) (block_size (superblock fs) - within) in
      physical ← map_file_block s inode logical;
      bytes ← match physical with
              | Some physical =>
                  start ← checked (physical * block_size (superblock fs));
                  disk_offset ← checked (start + within);
                  read_storage s disk_offset amount
              | None => Ok (zeros amount)
              end;
      rest ← read_loop n s inode offset wanted (done + amount);
      Ok (bytes ++ rest)
  end.

(** The bytes read into a buffer of [n] bytes; their number is the result of
    the source. *)
Definition read_inode_data (s : Storage) (inode : Inode) (offset n : Z) : R (list Z) :=
  match inline_data inode with
  | Some data =>
      if (size inode <=? offset) || (n =? 0) then Ok [] else
      start ← usize offset;
      let amount := Z.min n (u32 (zlen data - start)) in
      slice data start amount
  | None =>
      if has_flag (flags inode) INLINE_DATA_FL then unsupported InlineData else
      if has_flag (flags inode) ENCRYPT_FL then unsupported Encryption else
      if (size inode <=? offset) || (n =? 0) then Ok [] else
      wanted ← usize (Z.min (size inode - offset) n);
      read_loop (Z.to_nat wanted) s inode offset wanted 0
  end.

Definition refresh (s : Storage) (inode : Inode) : R Inode :=
  current ← load_inode s (number inode);
  if negb (generation current =? generation inode) then Err NotFound else Ok current.

Definition read_inode (s : Storage) (inode : Inode) (offset n : Z) : R (list Z) :=
  inode ← refresh s inode; read_inode_data s inode offset n.

Definition read_symlink_inode (s : Storage) (inode : Inode) : R (list Z) :=
  len ← usize (size inode);
  if (blocks_512 inode =? 0) && (len <=? zlen (block_map inode)) then slice (block_map inode) 0 len else
  target ← read_inode_data s inode 0 len;
  if negb (zlen target =? len) then corrupt (InvalidInode (number inode)) else Ok target.

Definition read_symlink (s : Storage) (inode : Inode) : R (list Z) :=
  inode ← refresh s inode;
  if negb (is_symlink inode) then Err InvalidArgument else read_symlink_inode s inode.

(** * Directories *)

Inductive DirectoryBlockKind := Leaf | Root | Internal.

Record DirectoryEntry := mkEntry { name : list Z; file_type : Z; inode : Inode }.

Definition directory_block_kind (directory : Inode) (logical count : Z) (block : list Z) : R DirectoryBlockKind :=
  if negb (has_flag (flags directory) DIRECTORY_INDEX_FL) then Ok Leaf
  else if logical =? 0 then Ok Root
  else if 8 <=? count then n ← le16 block 4; Ok (if n =? zlen block then Internal else Leaf)
  else Ok Leaf.

Definition verify_directory_checksum (directory : Inode) (kind : DirectoryBlockKind) (count : Z) (block : list Z)
    : R () :=
  if negb (count =? zlen block) then corrupt InvalidDirectory else
  sums ←
    match kind with
    | Leaf =>
        if zlen block <? 12 then corrupt InvalidDirectory else
        let tail := zlen block - 12 in
        t0 ← le32 block tail; t4 ← le16 block (tail + 4);
        t6 ← byte_at block (tail + 6); t7 ← byte_at block (tail + 7);
        if negb (t0 =? 0) || negb (t4 =? 12) || negb (t6 =? 0) || negb (t7 =? 0xde)
        then corrupt InvalidDirectory else
        body ← slice block 0 tail;
        expected ← le32 block (zlen block - 4);
        Ok (inode_checksum directory body, expected)
    | _ =>
        if zlen block <? 8 then corrupt InvalidDirectory else
        let tail := zlen block - 8 in
        let limit_offset := match kind with Root => 0x20 | _ => 0x08 end in
        if tail <? limit_offset + 4 then corrupt InvalidDirectory else
        entries ← le16 block (limit_offset + 2);
        let hashed_bytes := limit_offset + entries * 8 in
        if tail <? hashed_bytes then corrupt InvalidDirectory else
        body ← slice block 0 hashed_bytes;
        t ← le32 block tail;
        expected ← le32 block (tail + 4);
        Ok (inode_checksum directory (body ++ to_le_bytes 4 t ++ to_le_bytes 4 0), expected)
    end;
  if negb (fst sums =? snd sums) then corrupt (DirectoryChecksum (number directory)) else Ok tt.

(** The entries of one block from [cursor] on: those found, whether the
    cookie was met as a boundary, and the cookie to resume at when [max] was
    reached.  [dots] tells whether the entries [.] and [..] are listed. *)
Fixpoint scan_entries (fuel : nat) (s : Storage) (dots : bool) (base : Z) (block : list Z)
    (end_ wanted cursor : Z) (boundary : bool) (max : Z) (out : list DirectoryEntry)
    : R (list DirectoryEntry * bool * option Z) :=
  match fuel with
  | O => Panic
  | S n =>
      if negb (cursor <? end_) then Ok (out, boundary, None) else
      if end_ - cursor <? 8 then corrupt InvalidDirectory else
      num ← le32 block cursor;
      record_len ← le16 block (cursor + 4);
      name_len ← byte_at block (cursor + 6);
      if (record_len <? 8) || negb (record_len mod 4 =? 0) || (end_ - cursor <? record_len)
         || (record_len - 8 <? name_len)
      then corrupt InvalidDirectory else
      let boundary := boundary || (cursor =? wanted) in
      let next := cursor + record_len in
      nm ← slice block (cursor + 8) name_len;
      if (wanted <=? cursor) && negb (num =? 0) && (dots || negb (bool_decide (nm ∈ [[0x2e]; [0x2e; 0x2e]]))) then
        ino ← load_inode s num;
        ft ← byte_at block (cursor + 7);
        let out := out ++ [mkEntry nm ft ino] in
        if zlen out =? max then cookie ← checked (base + next); Ok (out, boundary, Some cookie)
        else scan_entries n s dots base block end_ wanted next boundary max out
      else scan_entries n s dots base block end_ wanted next boundary max out
  end.

Definition list_inline_directory (s : Storage) (directory : Inode) (cookie max : Z)
    : R (list DirectoryEntry * option Z) :=
  match inline_data directory with
  | None => unsupported InlineData
  | Some data =>
      if U32_MAX <? cookie then Err InvalidArgument else
      if zlen data <? cookie then Err InvalidArgument else
      r ← scan_entries (S (length data)) s true 0 data (zlen data) cookie 0 (cookie =? 0) max [];
      let '(out, boundary, resume) := r in
      match resume with
      | Some c => Ok (out, Some c)
      | None => if negb (cookie =? zlen data) && negb boundary then Err InvalidArgument else Ok (out, None)
      end
  end.

(** The blocks of a directory from [logical] on. *)
Fixpoint list_blocks (n : nat) (s : Storage) (directory : Inode) (cookie max logical : Z)
    (out : list DirectoryEntry) : R (list DirectoryEntry * option Z) :=
  match n with
  | O => Ok (out, None)
  | S n =>
      let bs := block_size (superblock fs) in
      block_offset ← checked (logical * bs);
      bytes ← read_inode_data s directory block_offset bs;
      let count := zlen bytes in
      let block := bytes ++ zeros (bs - count) in
      kind ← directory_block_kind directory logical count block;
      _ ← (if has_metadata_checksums (superblock fs) then verify_directory_checksum directory kind count block else Ok tt);
      match kind with
      | Leaf =>
          if has_metadata_checksums (superblock fs) && (count <? 12) then corrupt InvalidDirectory else
          let end_ := if has_metadata_checksums (superblock fs) then count - 12 else count in
          let at_first := logical =? cookie / bs in
          let wanted := if at_first then cookie mod bs else 0 in
          r ← scan_entries (S (length block)) s false block_offset block end_ wanted 0 (wanted =? 0) max out;
          let '(out, boundary, resume) := r in
          match resume with
          | Some c => Ok (out, Some c)
          | None =>
              if at_first && negb (wanted =? end_) && negb boundary then Err InvalidArgument
              else list_blocks n s directory cookie max (logical + 1) out
          end
      | _ => list_blocks n s directory cookie max (logical + 1) out
      end
  end.

(** [list]: the entries appended to the caller's output, and the cookie. *)
Definition list_directory (s : Storage) (directory : Inode) (cookie max : Z) : R (list DirectoryEntry * option Z) :=
  if max =? 0 then Err InvalidArgument else
  directory ← refresh s directory;
  if negb (is_directory directory) then Err NotDirectory else
  if size directory <? cookie then Err InvalidArgument else
  if has_flag (flags directory) INLINE_DATA_FL then list_inline_directory s directory cookie max else
  let bs := block_size (superblock fs) in
  let first_logical := cookie / bs in
  list_blocks (Z.to_nat (div_ceil (size directory) bs - first_logical)) s directory cookie max first_logical [].

End Fs.
End Reading.

Lemma Ok_inj {A} (a b : A) : Ok a = Ok b -> a = b.
Proof. by intros [= ->]. Qed.

(** Follows the source through one more step to a successful result. *)
Ltac parse_step H :=
  lazymatch type of H with
  | mbind _ ?m = Ok _ =>
      let E := fresh "E" in destruct m eqn:E; cbn [mbind R_bind] in H |- *; [|discriminate H..]
  | (if ?c then _ else _) = Ok _ => let E := fresh "E" in destruct c eqn:E; [discriminate H|]
  end.

(** * Lemmas on bytes *)

(** The value of [slice] and [put] in range. *)
Definition sl (b : list Z) (off n : Z) : list Z := take (Z.to_nat n) (drop (Z.to_nat off) b).
Definition splice (b : list Z) (off : Z) (src : list Z) : list Z :=
  take (Z.to_nat off) b ++ src ++ drop (Z.to_nat off + length src) b.

Lemma slice_ok b off n : 0 <= off -> 0 <= n -> off + n <= zlen b -> slice b off n = Ok (sl b off n).
Proof. intros ???. unfold slice. by rewrite (proj2 (Z.leb_le 0 off)), (proj2 (Z.leb_le 0 n)), (proj2 (Z.leb_le _ _)) by lia. Qed.

Lemma slice_inv b off n x : slice b off n = Ok x -> 0 <= off /\ 0 <= n /\ off + n <= zlen b /\ x = sl b off n.
Proof. unfold slice. intros Hs. destruct ((0 <=? off) && (0 <=? n) && (off + n <=? zlen b)) eqn:E; [|done]. injection Hs as <-. rewrite !andb_true_iff, !Z.leb_le in E. tauto. Qed.

Lemma put_ok b off src : 0 <= off -> off + zlen src <= zlen b -> put b off src = Ok (splice b off src).
Proof. intros ??. unfold put. by rewrite (proj2 (Z.leb_le 0 off)), (proj2 (Z.leb_le _ _)) by lia. Qed.

Lemma put_inv b off src x : put b off src = Ok x -> 0 <= off /\ off + zlen src <= zlen b /\ x = splice b off src.
Proof. unfold put. intros Hs. destruct ((0 <=? off) && (off + zlen src <=? zlen b)) eqn:E; [|done]. injection Hs as <-. rewrite !andb_true_iff, !Z.leb_le in E. tauto. Qed.

Lemma length_sl b off n : 0 <= off -> 0 <= n -> off + n <= zlen b -> zlen (sl b off n) = n.
Proof. intros. unfold sl. rewrite length_take, length_drop. lia. Qed.

Lemma length_splice b off src : 0 <= off -> off + zlen src <= zlen b -> length (splice b off src) = length b.
Proof. intros. unfold splice. rewrite !length_app, length_take, length_drop. lia. Qed.

Lemma lookup_sl b off n i :
  0 <= off -> sl b off n !! i = if (i <? Z.to_nat n)%nat then b !! (Z.to_nat off + i)%nat else None.
Proof.
  intros. unfold sl. destruct (Nat.ltb_spec i (Z.to_nat n)).
  - rewrite lookup_take_lt by lia. by rewrite lookup_drop.
  - by rewrite lookup_take_ge by lia.
Qed.

Lemma lookup_splice b off src i :
  0 <= off -> off + zlen src <= zlen b ->
  splice b off src !! i =
    if (Z.to_nat off <=? i)%nat && (i <? Z.to_nat off + length src)%nat then src !! (i - Z.to_nat off)%nat else b !! i.
Proof.
  intros ??. unfold splice. rewrite lookup_app. destruct (Nat.leb_spec (Z.to_nat off) i); cbn [andb].
  - rewrite lookup_take_ge by lia. rewrite length_take, lookup_app.
    replace (i - Nat.min (Z.to_nat off) (length b))%nat with (i - Z.to_nat off)%nat by lia.
    destruct (Nat.ltb_spec i (Z.to_nat off + length src)).
    + destruct (src !! (i - Z.to_nat off)%nat) eqn:E; [done|]. apply lookup_ge_None in E. lia.
    + rewrite (proj2 (lookup_ge_None src _)) by lia. rewrite lookup_drop. f_equal. lia.
  - rewrite lookup_take_lt by lia. destruct (b !! i) eqn:E; [done|]. apply lookup_ge_None in E. lia.
Qed.

Lemma sl_splice_out b off src o n :
  0 <= off -> off + zlen src <= zlen b -> 0 <= o -> 0 <= n -> o + n <= off \/ off + zlen src <= o ->
  sl (splice b off src) o n = sl b o n.
Proof.
  intros. apply list_eq. intros i. rewrite !lookup_sl, lookup_splice by lia.
  destruct (Nat.ltb_spec i (Z.to_nat n)); [|done].
  destruct (Nat.leb_spec (Z.to_nat off) (Z.to_nat o + i)); cbn [andb]; [|done].
  destruct (Nat.ltb_spec (Z.to_nat o + i) (Z.to_nat off + length src)); [lia|done].
Qed.

Lemma sl_splice_in b off src : 0 <= off -> off + zlen src <= zlen b -> sl (splice b off src) off (zlen src) = src.
Proof.
  intros. apply list_eq. intros i. rewrite lookup_sl, lookup_splice by lia.
  destruct (Nat.ltb_spec i (Z.to_nat (zlen src))).
  - rewrite (proj2 (Nat.leb_le _ _)), (proj2 (Nat.ltb_lt _ _)) by lia. cbn [andb]. f_equal. lia.
  - by rewrite lookup_ge_None_2 by lia.
Qed.

Lemma sl_sl b o n off m : 0 <= o -> 0 <= off -> off + m <= n -> sl (sl b o n) off m = sl b (o + off) m.
Proof.
  intros. apply list_eq. intros i. rewrite !lookup_sl by lia.
  destruct (Nat.ltb_spec i (Z.to_nat m)); [|done]. rewrite (proj2 (Nat.ltb_lt _ _)) by lia. f_equal. lia.
Qed.

Lemma sl_all b : sl b 0 (zlen b) = b.
Proof. unfold sl. rewrite drop_0. apply take_ge. lia. Qed.

Lemma length_zeros n : 0 <= n -> zlen (zeros n) = n.
Proof. intros. unfold zeros. rewrite length_replicate. lia. Qed.

(** * No panics

    [safe m Q]: [m] does not panic, and its value, if any, is in [Q]. *)
Definition safe {A} (m : R A) (Q : A -> Prop) : Prop :=
  match m with Ok a => Q a | Err _ => True | Panic => False end.

Lemma safe_bind {A B} (m : R A) (k : A -> R B) P Q :
  safe m P -> (forall a, P a -> safe (k a) Q) -> safe (m ≫= k) Q.
Proof. intros Hm Hk. destruct m; [by apply Hk|done|done]. Qed.

Lemma safe_mono {A} (m : R A) (P Q : A -> Prop) : safe m P -> (forall a, P a -> Q a) -> safe m Q.
Proof. intros Hm HQ. destruct m; [by apply HQ|done|done]. Qed.

Lemma safe_fmap {A B} (f : A -> B) (m : R A) Q : safe m (fun a => Q (f a)) -> safe (f <$> m) Q.
Proof. by destruct m. Qed.

Lemma safe_slice b off n :
  0 <= off -> 0 <= n -> off + n <= zlen b -> safe (slice b off n) (fun x => zlen x = n).
Proof. intros. rewrite slice_ok by done. by apply length_sl. Qed.

Lemma safe_put b off src :
  0 <= off -> off + zlen src <= zlen b -> safe (put b off src) (fun x => zlen x = zlen b).
Proof. intros. rewrite put_ok by done. cbn. by rewrite length_splice. Qed.

Lemma safe_field b off n :
  0 <= off -> 0 <= n -> off + n <= zlen b ->
  safe (from_le_bytes <$> slice b off n) (fun x => 0 <= x < 256 ^ n).
Proof.
  intros. rewrite slice_ok by done. cbn. pose proof (from_le_bytes_range (sl b off n)) as Hr.
  by rewrite length_sl in Hr.
Qed.

Lemma safe_byte_at b off : 0 <= off -> off + 1 <= zlen b -> safe (byte_at b off) (fun x => 0 <= x < 256).
Proof. intros. by apply (safe_field b off 1). Qed.
Lemma safe_le16 b off : 0 <= off -> off + 2 <= zlen b -> safe (le16 b off) (fun x => 0 <= x < 65536).
Proof. intros. by apply (safe_field b off 2). Qed.
Lemma safe_le32 b off : 0 <= off -> off + 4 <= zlen b -> safe (le32 b off) (fun x => 0 <= x < 4294967296).
Proof. intros. by apply (safe_field b off 4). Qed.

Lemma safe_checked x : 0 <= x -> safe (checked x) (fun y => y = x /\ 0 <= y <= U64_MAX).
Proof. intros. unfold checked. destruct (Z.leb_spec x U64_MAX); [split; lia|done]. Qed.
Lemma safe_usize x : 0 <= x -> safe (usize x) (fun y => y = x /\ 0 <= y <= U32_MAX).
Proof. intros. unfold usize. destruct (Z.leb_spec x U32_MAX); [split; lia|done]. Qed.

Lemma safe_ok_or {A} (o : option A) e : safe (ok_or o e) (fun a => o = Some a).
Proof. by destruct o. Qed.

Lemma join_range w lo hi v : 0 <= w -> 0 <= lo < 2 ^ w -> 0 <= hi < 2 ^ v -> 0 <= v -> 0 <= join w lo hi < 2 ^ (w + v).
Proof. intros. unfold join. rewrite lor_shiftl by (unfold fits; lia). rewrite Z.pow_add_r by lia. nia. Qed.

Create HintDb r_safe.
#[export] Hint Resolve safe_byte_at safe_le16 safe_le32 safe_slice safe_put safe_checked safe_usize : r_safe.

(** One step of a safety proof: the first call of a sequence, a test of the
    source, or an error. *)
Ltac r_leaf l := first [apply l | eapply safe_mono; [apply l|cbn beta; intros]].
Ltac r_step :=
  lazymatch goal with
  | |- safe (mbind _ ?m) _ =>
      lazymatch m with
      | byte_at _ _ => idtac | le16 _ _ => idtac | le32 _ _ => idtac | slice _ _ _ => idtac
      | put _ _ _ => idtac | checked _ => idtac | usize _ => idtac | ok_or _ _ => idtac
      end;
      eapply safe_bind; [|cbn beta; intros]
  | |- safe (if ?c then _ else _) _ => let E := fresh "E" in destruct c eqn:E
  | |- safe (match ?o with Some _ => _ | None => _ end) _ => destruct o
  | |- safe (corrupt _) _ => exact I
  | |- safe (unsupported _) _ => exact I
  | |- safe (Err _) _ => exact I
  | |- safe (byte_at _ _) _ => r_leaf safe_byte_at
  | |- safe (le16 _ _) _ => r_leaf safe_le16
  | |- safe (le32 _ _) _ => r_leaf safe_le32
  | |- safe (slice _ _ _) _ => r_leaf safe_slice
  | |- safe (put _ _ _) _ => r_leaf safe_put
  | |- safe (checked _) _ => r_leaf safe_checked
  | |- safe (usize _) _ => r_leaf safe_usize
  | |- safe (ok_or _ _) _ => r_leaf safe_ok_or
  end.
Ltac r_steps := repeat (r_step; cbn beta in *; try lia); cbn beta in *.

Ltac r_done := r_steps; cbn [safe]; cbn beta; try done; try lia.

(** A step whose value is described by [P]. *)
Tactic Notation "r_with" uconstr(P) := eapply (safe_bind _ _ P); [|cbn beta; intros].
Tactic Notation "r_with" uconstr(P) "as" ident(x) ident(H) := eapply (safe_bind _ _ P); [|cbn beta; intros x H].

(** What a mounted superblock satisfies. *)
Definition sb_wf (sb : Superblock) : Prop :=
  1024 <= block_size sb <= 65536 /\ block_size sb mod 1024 = 0 /\ 0 <= first_data_block sb < blocks_count sb /\
  blocks_count sb * block_size sb <= U64_MAX /\ 0 < blocks_per_group sb /\
  0 < inodes_per_group sb /\ 0 <= inodes_count sb < 2 ^ 32 /\ 128 <= inode_size sb <= block_size sb /\
  32 <= descriptor_size sb <= block_size sb /\ 0 <= first_meta_bg sb /\
  (has_flag (feature_incompat sb) INCOMPAT_64BIT = true -> 64 <= descriptor_size sb) /\
  zlen (uuid sb) = 16 /\
  (needs_recovery sb = true -> has_flag (feature_compat sb) COMPAT_HAS_JOURNAL = true /\ journal_inode sb <> 0) /\
  0 <= journal_inode sb < 2 ^ 32.

Lemma block_size_of_range log v : block_size_of log = Some v -> 1024 <= v <= 65536 /\ v mod 1024 = 0.
Proof.
  unfold block_size_of. destruct (log <? 32); [|done].
  set (x := u32 (1024 ≪ log)). destruct (bool_decide _) eqn:E; [|done]. intros [= <-].
  apply bool_decide_eq_true in E. rewrite !elem_of_cons in E.
  repeat destruct E as [->|E]; try done. by apply elem_of_nil in E.
Qed.

Section ReadingFacts.
Context `{Crc}.

Lemma parse_safe b len : zlen b = 1024 -> safe (parse b len) (fun sb => sb_wf sb /\ blocks_count sb * block_size sb <= len).
Proof.
  intros Hb. unfold parse. r_steps.
  apply block_size_of_range in H2.
  r_with (fun x => 0 <= x < 4294967296); [r_steps; cbn; lia|]. r_steps.
  r_with (fun x => 0 <= x < 65536); [r_steps; cbn; lia|].
  r_with (fun x => 0 <= x < 4294967296); [r_steps; cbn; lia|].
  r_with (fun x => 32 <= x /\ (has_flag a3 INCOMPAT_64BIT = true -> 64 <= x)); [r_steps; cbn; split; try done; lia|].
  pose proof (join_range 32 a5 a6 32 ltac:(lia) ltac:(lia) ltac:(lia) ltac:(lia)) as Hj.
  r_steps.
  r_with (fun _ => True); [r_steps; cbn; done|]. r_steps.
  r_with (fun _ => True); [r_steps; cbn; done|]. r_steps.
  cbn. unfold sb_wf, needs_recovery; cbn.
  rewrite !orb_false_iff, !Z.leb_gt, !Z.ltb_ge, !Z.eqb_neq in E2. change (2 ^ 32) with 4294967296.
  split_and!; try tauto; try lia.
  intros Hr. rewrite Hr in *. cbn [andb] in *. split; [by destruct (has_flag a2 _)|lia].
Qed.

(** * Reading through the overlay *)

Definition overlay_wf (fs : Ext4) : Prop := Forall (fun e => zlen (snd e) = block_size (superblock fs)) (overlay fs).
Definition fs_wf (fs : Ext4) : Prop := sb_wf (superblock fs) /\ overlay_wf fs.

Context (fs : Ext4) (Hfs : fs_wf fs).

Lemma binary_search_found {A} key (l : list (Z * A)) i :
  binary_search key l = inl i -> exists v, l !! i = Some (key, v).
Proof.
  unfold binary_search. intros Hb. destruct (list_find _ l) as [[j e]|] eqn:E; [|done]. injection Hb as <-.
  apply list_find_Some in E as (Hl & He & _). exists (snd e). destruct e; cbn in *. by subst.
Qed.

Lemma overlay_block i key v : overlay fs !! i = Some (key, v) -> zlen v = block_size (superblock fs).
Proof. destruct Hfs as [_ Ho]. intros Hl. by apply (Forall_lookup_1 _ _ _ _ Ho Hl). Qed.

Lemma patch_block_safe offset end_ dst num :
  0 <= offset -> zlen dst = end_ - offset -> 0 <= num ->
  safe (patch_block fs offset end_ dst num) (fun x => zlen x = end_ - offset).
Proof.
  intros Ho Hd Hn. pose proof Hfs as [(Hbs&_) _]. unfold patch_block.
  destruct (binary_search num (overlay fs)) as [i|] eqn:E; [|done].
  apply binary_search_found in E as [v Hv]. rewrite (list_lookup_total_correct _ _ _ Hv). cbn [snd].
  pose proof (overlay_block _ _ _ Hv). r_done.
Qed.

Lemma patch_safe offset end_ numbers dst :
  0 <= offset -> zlen dst = end_ - offset -> Forall (Z.le 0) numbers ->
  safe (patch fs offset end_ numbers dst) (fun x => zlen x = end_ - offset).
Proof.
  intros Ho Hd Hn. revert dst Hd. induction Hn as [|num numbers Hn _ IH]; intros dst Hd; [done|]. cbn [patch].
  r_with (fun x => zlen x = end_ - offset); [by apply patch_block_safe|]. by apply IH.
Qed.

Lemma length_st_read s offset n : 0 <= n -> zlen (st_read s offset n) = n.
Proof. intros. unfold st_read. rewrite length_map, length_seq. lia. Qed.

Lemma checked_read_safe s offset n :
  0 <= offset -> 0 <= n -> safe (checked_read s offset n) (fun x => x = st_read s offset n /\ zlen x = n).
Proof. intros. unfold checked_read. r_done. by rewrite length_st_read. Qed.

Lemma read_storage_safe s offset n :
  0 <= offset -> 0 <= n -> safe (read_storage fs s offset n) (fun x => zlen x = n).
Proof.
  intros Ho Hn. pose proof Hfs as [(Hbs&_) _]. unfold read_storage.
  r_with (fun x => x = st_read s offset n /\ zlen x = n); [by apply checked_read_safe|]. r_done.
  eapply safe_mono; [apply patch_safe; [lia|lia|]|cbn beta; lia].
  apply list.Forall_forall. intros x Hx. apply elem_of_seqZ in Hx.
  pose proof (Z.div_pos offset (block_size (superblock fs)) ltac:(lia) ltac:(lia)). lia.
Qed.

Lemma read_fs_block_safe s num : 0 <= num -> safe (read_fs_block fs s num) (fun x => zlen x = block_size (superblock fs)).
Proof.
  intros Hn. pose proof Hfs as [(Hbs&_) _]. unfold read_fs_block. r_steps. apply read_storage_safe; lia.
Qed.

(** * Inodes *)

Lemma group_count_range : 0 <= group_count (superblock fs).
Proof. unfold group_count. apply wrap_fits. lia. Qed.

Lemma descriptor_offset_safe group : 0 <= group -> safe (descriptor_offset (superblock fs) group) (Z.le 0).
Proof.
  intros Hg. pose proof Hfs as [(Hbs&_&Hfd&_&Hbg&_&_&_&Hds&Hmb&_) _]. unfold descriptor_offset.
  assert (0 < block_size (superblock fs) / descriptor_size (superblock fs)) as Hd by (apply Z.div_str_pos; lia).
  pose proof (Z.div_pos group _ Hg Hd). pose proof (Z.mod_pos_bound group _ Hd).
  r_with (Z.le 0).
  - r_done. all: try (destruct (group_has_super _ _); cbn [Z.b2z]); nia.
  - r_done; try nia.
Qed.

Lemma legacy_sum_safe id group d :
  32 <= zlen d -> safe (legacy_group_descriptor_checksum id group d) (fun _ => True).
Proof. intros. unfold legacy_group_descriptor_checksum. r_done. Qed.

Lemma group_sum_safe seed group d : 32 <= zlen d -> safe (group_checksum seed group d) (fun _ => True).
Proof. intros. unfold group_checksum. r_done. Qed.

Lemma read_group_descriptor_safe s group :
  0 <= group -> safe (read_group_descriptor fs s group) (fun x => zlen x = descriptor_size (superblock fs)).
Proof.
  intros Hg. pose proof Hfs as [(Hbs&_&_&_&_&_&_&_&Hds&_) _]. unfold read_group_descriptor. cbv zeta.
  r_step; [done|]. r_with (Z.le 0); [by apply descriptor_offset_safe|].
  r_with (fun x => zlen x = descriptor_size (superblock fs)); [apply read_storage_safe; lia|].
  r_with (fun _ => True); [|r_done].
  r_step; [|r_step; [|done]]; r_step; [r_step; lia| |r_step; lia|].
  - r_with (fun _ => True); [apply group_sum_safe; lia|done].
  - r_with (fun _ => True); [apply legacy_sum_safe; lia|done].
Qed.

Lemma verify_inode_safe num raw :
  128 <= zlen raw -> safe (verify_inode fs num raw) (fun x => zlen x = zlen raw).
Proof.
  intros. unfold verify_inode. change (zlen (zeros 2)) with 2. r_done; rewrite ?length_zeros in * by lia; try lia.
Qed.

Lemma read_raw_inode_safe s num :
  0 <= num -> safe (read_raw_inode fs s num) (fun x => zlen x = inode_size (superblock fs)).
Proof.
  intros Hn. pose proof Hfs as [(Hbs&_&Hfd&_&_&Hig&_&His&Hds&_&H64&_) _]. unfold read_raw_inode. cbv zeta.
  r_step; [done|].
  pose proof (Z.div_pos (num - 1) _ ltac:(lia) Hig). pose proof (Z.mod_pos_bound (num - 1) _ Hig).
  r_with (fun x => zlen x = descriptor_size (superblock fs)); [by apply read_group_descriptor_safe|]. r_steps.
  r_with (fun x => 0 <= x < 4294967296); [destruct (has_flag _ _) eqn:E64; [r_step; lia|cbn; lia]|].
  pose proof (join_range 32 a0 a1 32 ltac:(lia) ltac:(lia) ltac:(lia) ltac:(lia)). r_step; [done|].
  r_steps. r_with (fun x => zlen x = inode_size (superblock fs)); [apply read_storage_safe; lia|].
  r_step; [|done]. eapply safe_mono; [apply verify_inode_safe; lia|cbn beta; lia].
Qed.

Lemma decode_inode_timestamp_safe raw so eo num :
  0 <= so -> 0 <= eo -> so + 4 <= zlen raw -> safe (decode_inode_timestamp raw so eo num) (fun _ => True).
Proof.
  intros. unfold decode_inode_timestamp. r_steps. r_with (fun _ => True); [destruct (_ <=? _) eqn:E; r_done|]. r_done.
Qed.

Lemma entry_len_range n : 0 <= n < 256 -> 16 + n <= entry_len_of n.
Proof.
  intros Hn. assert (forallb (fun n => 16 + n <=? entry_len_of n) (seqZ 0 256) = true) as Hall by reflexivity.
  rewrite List.forallb_forall in Hall. apply Z.leb_le, Hall. apply list_elem_of_In, elem_of_seqZ. lia.
Qed.

Lemma inline_entries_safe fuel ino raw entries wanted cursor data :
  0 <= entries -> 0 <= wanted -> 0 <= cursor <= zlen raw -> zlen raw - cursor < Z.of_nat fuel ->
  safe (inline_entries fuel ino raw entries wanted cursor data) (fun x => zlen x = zlen data + wanted).
Proof.
  intros He Hw. revert cursor. induction fuel as [|n IH]; intros cursor Hc Hf; [lia|]. cbn [inline_entries].
  r_step; [done|]. r_steps. pose proof (entry_len_range _ H1).
  r_with (fun _ => True). { r_step; [|done]. r_done. }
  r_step; [apply IH; lia|]. r_done. cbn. rewrite length_app. lia.
Qed.

(** What an inode read from the device satisfies. *)
Definition inode_wf (i : Inode) : Prop :=
  zlen (block_map i) = 60 /\ 0 <= size i <= U64_MAX /\ 0 <= number i /\ 0 <= blocks_512 i /\
  (forall d, inline_data i = Some d -> has_flag (flags i) INLINE_DATA_FL = true /\ size i <= U32_MAX /\
     zlen d = if is_directory i then size i - 4 else size i).

Lemma parse_inline_data_safe ino md sz raw bm :
  zlen bm = 60 -> 0 <= sz ->
  safe (parse_inline_data ino md sz raw bm)
    (fun d => sz <= U32_MAX /\ zlen d = if (md .& MODE_TYPE_MASK) =? MODE_DIRECTORY then sz - 4 else sz).
Proof.
  intros Hb Hs. unfold parse_inline_data. r_step; [done|]. cbv zeta. rewrite Hb.
  destruct ((md .& MODE_TYPE_MASK) =? MODE_DIRECTORY) eqn:Ed; cbn [andb]; r_done.
  all: eapply safe_mono; [apply inline_entries_safe; lia|cbn beta; lia].
Qed.

Lemma load_inode_safe s num : 0 <= num -> safe (load_inode fs s num) (fun i => inode_wf i /\ number i = num).
Proof.
  intros Hn. pose proof Hfs as [(Hbs&_&_&_&_&_&_&His&_) _]. unfold load_inode.
  r_with (fun x => zlen x = inode_size (superblock fs)); [by apply read_raw_inode_safe|]. r_steps.
  pose proof (join_range 32 a2 a3 32 ltac:(lia) ltac:(lia) ltac:(lia) ltac:(lia)) as Hsz.
  r_with (fun o => forall d, o = Some d -> has_flag a9 INLINE_DATA_FL = true /\ join 32 a2 a3 <= U32_MAX /\
    zlen d = if (a1 .& MODE_TYPE_MASK) =? MODE_DIRECTORY then join 32 a2 a3 - 4 else join 32 a2 a3).
  { destruct (has_flag a9 INLINE_DATA_FL) eqn:Ei; cbn [andb]; [|done]. r_step; [|done]. apply safe_fmap.
    eapply safe_mono; [apply parse_inline_data_safe; lia|]. cbn beta. intros d Hd d' [= <-]. done. }
  r_steps. r_with (fun x => 0 <= x < 65536); [r_done|].
  r_with (fun _ => True).
  { r_step; [done|]. repeat (r_with (fun _ => True); [apply decode_inode_timestamp_safe; lia|]). done. }
  destruct a15 as [[ta tc] tm]. r_steps. cbn. split; [|done]. unfold inode_wf, is_directory; cbn.
  pose proof (join_range 32 a11 a12 16 ltac:(lia) ltac:(lia) ltac:(lia) ltac:(lia)).
  unfold U64_MAX. split_and!; try lia. done.
Qed.

(** * Files and directories *)

(** A block number of the filesystem, if any. *)
Definition in_fs (o : option Z) : Prop := forall p, o = Some p -> 0 <= p < blocks_count (superblock fs).

Lemma validate_legacy_safe p : 0 <= p -> safe (validate_legacy_pointer fs p) in_fs.
Proof. intros. unfold validate_legacy_pointer. r_done. intros q [= <-]. lia. Qed.

Lemma follow_legacy_safe s p ix :
  0 <= p -> Forall (Z.le 0) ix -> safe (follow_legacy_indirect fs s p ix) in_fs.
Proof.
  intros Hp Hi. pose proof Hfs as [(Hbs&Hm&_) _]. revert p Hp.
  induction Hi as [|i ix Hi _ IH]; intros p Hp; [by apply validate_legacy_safe|]. cbn [follow_legacy_indirect].
  r_step; [done|]. r_step; [done|].
  r_with (fun x => zlen x = block_size (superblock fs)); [by apply read_fs_block_safe|].
  pose proof (Z.div_mod (block_size (superblock fs)) 4 ltac:(lia)).
  pose proof (Z.mod_pos_bound (block_size (superblock fs)) 4 ltac:(lia)). r_steps. apply IH; lia.
Qed.

Lemma map_legacy_safe s i logical : inode_wf i -> 0 <= logical -> safe (map_legacy_block fs s i logical) in_fs.
Proof.
  intros (Hb&_) Hl. pose proof Hfs as [(Hbs&Hm&_) _]. unfold map_legacy_block, DIRECT_BLOCKS.
  set (p := block_size (superblock fs) / 4). assert (0 < p) by (apply Z.div_str_pos; lia).
  r_step; [r_steps; apply validate_legacy_safe; lia|]. r_steps.
  all: try (apply follow_legacy_safe; [lia|]; repeat constructor).
  all: try apply Z.div_pos; try (apply Z.mod_pos_bound); try nia.
Qed.

Lemma leaf_scan_safe n node logical i prev :
  0 <= i -> 12 + (i + Z.of_nat n) * 12 <= zlen node -> safe (leaf_scan fs n node logical i prev) in_fs.
Proof.
  revert i prev. induction n as [|n IH]; intros i prev Hi Hn; [done|]. cbn [leaf_scan].
  r_steps; [done| | |apply IH; lia].
  - pose proof (join_range 32 a1 a2 16 ltac:(lia) ltac:(lia) ltac:(lia) ltac:(lia)). lia.
  - pose proof (join_range 32 a1 a2 16 ltac:(lia) ltac:(lia) ltac:(lia) ltac:(lia)). intros q [= <-]. lia.
Qed.

Lemma index_scan_safe n node logical i prev child :
  0 <= i -> 12 + (i + Z.of_nat n) * 12 <= zlen node -> (forall c, child = Some c -> 0 <= c) ->
  safe (index_scan n node logical i prev child) (fun o => forall c, o = Some c -> 0 <= c).
Proof.
  revert i prev child. induction n as [|n IH]; intros i prev child Hi Hn Hc; [done|]. cbn [index_scan].
  r_steps; [|done]. apply IH; [lia|lia|]. intros c [= <-].
  pose proof (join_range 32 a0 a1 16 ltac:(lia) ltac:(lia) ltac:(lia) ltac:(lia)). lia.
Qed.

Lemma map_extent_safe fuel s node logical traversed i external :
  6 - traversed < Z.of_nat fuel -> traversed <= 6 -> safe (map_extent_node fs fuel s node logical traversed i external) in_fs.
Proof.
  pose proof Hfs as [(Hbs&_) _].
  revert node traversed external. induction fuel as [|fuel IH]; intros node tr ext Hf Ht; [lia|]. cbn [map_extent_node].
  r_step; [done|]. r_steps. pose proof (Z.div_mod (zlen node - 12) 12 ltac:(lia)).
  pose proof (Z.mod_pos_bound (zlen node - 12) 12 ltac:(lia)).
  r_with (fun _ => True). { r_step; [|done]. r_done. }
  r_step; [apply leaf_scan_safe; lia|].
  r_with (fun o => forall c, o = Some c -> 0 <= c) as o Hc; [apply index_scan_safe; [lia|lia|done]|].
  destruct o as [c|]; [|done]. pose proof (Hc c eq_refl). r_step; [done|].
  r_with (fun x => zlen x = block_size (superblock fs)); [by apply read_fs_block_safe|]. r_steps. apply IH; lia.
Qed.

Lemma map_file_block_safe s i logical :
  inode_wf i -> 0 <= logical -> safe (map_file_block fs s i logical) in_fs.
Proof.
  intros. unfold map_file_block. r_step; [by apply map_legacy_safe|]. apply map_extent_safe; lia.
Qed.

Lemma read_loop_safe fuel s i offset wanted dn :
  inode_wf i -> 0 <= offset -> 0 <= dn <= wanted -> wanted - dn <= Z.of_nat fuel ->
  safe (read_loop fs fuel s i offset wanted dn) (fun x => zlen x = wanted - dn).
Proof.
  intros Hi Ho. pose proof Hfs as [(Hbs&_) _]. revert dn. induction fuel as [|n IH]; intros dn Hd Hf; cbn [read_loop].
  { destruct (Z.ltb_spec dn wanted); [lia|]. cbn. lia. }
  r_step; [cbn; lia|]. pose proof (Z.mod_pos_bound (offset + dn) (block_size (superblock fs)) ltac:(lia)).
  set (amount := Z.min _ _). assert (0 < amount <= wanted - dn) by lia.
  r_with in_fs as o Hp; [apply map_file_block_safe; [done|apply Z.div_pos; lia]|].
  r_with (fun x => zlen x = amount).
  { destruct o as [p|]; [|cbn; apply length_zeros; lia]. pose proof (Hp p eq_refl). r_steps. apply read_storage_safe; lia. }
  r_with (fun x => zlen x = wanted - (dn + amount)); [apply IH; lia|]. cbn. rewrite length_app. lia.
Qed.

(** Where inline data ends before the size the inode tells. *)
Definition readable (i : Inode) : Prop := inline_data i = None \/ is_directory i = false.

Lemma read_inode_data_safe s i offset n :
  inode_wf i -> readable i -> 0 <= offset -> 0 <= n ->
  safe (read_inode_data fs s i offset n) (fun x => zlen x = Z.min n (Z.max 0 (size i - offset))).
Proof.
  intros Hwf Hr Ho Hn. pose proof Hwf as (_&Hs&_&_&Hi). unfold read_inode_data. destruct (inline_data i) as [d|] eqn:Ed.
  - destruct (Hi d eq_refl) as (_&Hmax&Hl). destruct Hr as [?|Hr]; [congruence|]. rewrite Hr in Hl.
    r_step; [cbn; lia|]. r_with (fun x => x = offset); [r_done|]. subst.
    rewrite wrap_small by (unfold fits, U32_MAX in *; lia). r_done.
  - r_step; [done|]. r_step; [done|]. r_step; [cbn; lia|]. r_steps.
    eapply safe_mono; [apply read_loop_safe; [done|lia|lia|lia]|cbn beta; lia].
Qed.

Lemma refresh_safe s i : 0 <= number i -> safe (refresh fs s i) (fun j => inode_wf j /\ number j = number i).
Proof.
  intros. unfold refresh. r_with (fun j => inode_wf j /\ number j = number i) as j Hj; [by apply load_inode_safe|].
  by r_step.
Qed.

Lemma read_symlink_safe s i : 0 <= number i -> safe (read_symlink fs s i) (fun _ => True).
Proof.
  intros. unfold read_symlink.
  r_with (fun j => inode_wf j /\ number j = number i) as j Hj; [by apply refresh_safe|].
  destruct Hj as [Hwf _]. pose proof Hwf as (Hb&Hs&_). destruct (is_symlink j) eqn:El; [cbn [negb]|done].
  assert (is_directory j = false) as Hd by (unfold is_directory, is_symlink, MODE_SYMLINK, MODE_DIRECTORY in *; lia).
  unfold read_symlink_inode. r_steps.
  r_with (fun _ => True); [|by r_step]. eapply safe_mono; [apply read_inode_data_safe; [done|by right|lia|lia]|done].
Qed.

Lemma directory_block_kind_safe d logical count block :
  8 <= zlen block -> safe (directory_block_kind d logical count block) (fun _ => True).
Proof. intros. unfold directory_block_kind. r_done. Qed.

Lemma verify_directory_checksum_safe d kind count block : safe (verify_directory_checksum fs d kind count block) (fun _ => True).
Proof.
  unfold verify_directory_checksum. r_step; [done|]. r_with (fun _ => True); [|by r_step]. destruct kind; r_done.
Qed.

Lemma scan_entries_safe fuel s dots base block end_ wanted cursor boundary max out :
  0 <= base -> 0 <= cursor -> end_ <= zlen block -> end_ - cursor < Z.of_nat fuel -> (0 < fuel)%nat ->
  safe (scan_entries fs fuel s dots base block end_ wanted cursor boundary max out) (fun _ => True).
Proof.
  intros Hb. revert cursor boundary out. induction fuel as [|n IH]; intros cursor boundary out Hc He Hf Hn; [lia|].
  cbn [scan_entries]. r_step; [done|]. r_step; [done|]. r_steps; [|apply IH; lia].
  r_with (fun i => inode_wf i /\ number i = a); [apply load_inode_safe; lia|]. r_steps; [done|apply IH; lia].
Qed.

Lemma list_blocks_safe n s d cookie max logical out :
  inode_wf d -> inline_data d = None -> 0 <= logical ->
  safe (list_blocks fs n s d cookie max logical out) (fun _ => True).
Proof.
  intros Hd Hi. pose proof Hfs as [(Hbs&_) _]. pose proof Hd as (_&Hs&_).
  revert logical out. induction n as [|n IH]; intros logical out Hl; [done|]. cbn [list_blocks]. r_steps.
  r_with (fun x => zlen x = Z.min (block_size (superblock fs)) (Z.max 0 (size d - a))) as bytes Hlen;
    [apply read_inode_data_safe; [done|by left|lia|lia]|].
  assert (zlen (bytes ++ zeros (block_size (superblock fs) - zlen bytes)) = block_size (superblock fs)) as Hblk.
  { rewrite length_app, Nat2Z.inj_add, length_zeros; lia. }
  r_with (fun _ => True) as kind Hk; [apply directory_block_kind_safe; lia|].
  r_with (fun _ => True) as u Hu; [destruct (has_metadata_checksums _); [apply verify_directory_checksum_safe|done]|].
  destruct kind; try (apply IH; lia). r_step; [done|].
  r_with (fun _ => True) as r Hr.
  { apply scan_entries_safe; destruct (has_metadata_checksums _) eqn:Em; rewrite ?Hblk; lia. }
  destruct r as [[o b] [c|]]; [done|]. r_step; [done|]. apply IH; lia.
Qed.

Lemma list_directory_safe s d cookie max :
  0 <= number d -> 0 <= cookie -> safe (list_directory fs s d cookie max) (fun _ => True).
Proof.
  intros Hn Hc. pose proof Hfs as [(Hbs&_) _]. unfold list_directory. r_step; [done|].
  r_with (fun j => inode_wf j /\ number j = number d) as j Hj; [by apply refresh_safe|]. destruct Hj as [Hj _].
  r_step; [done|]. r_step; [done|]. r_step.
  - unfold list_inline_directory. destruct (inline_data j) as [data|] eqn:Ed; [|done].
    r_step; [done|]. r_step; [done|]. r_with (fun _ => True) as r Hr; [apply scan_entries_safe; lia|].
    destruct r as [[o b] [c|]]; [done|]. by r_step.
  - apply list_blocks_safe; [done| |apply Z.div_pos; lia]. destruct Hj as (_&_&_&_&Hi).
    destruct (inline_data j) as [data|]; [|done]. destruct (Hi data eq_refl). congruence.
Qed.

End ReadingFacts.
