(* ===== verification/Journal.v ===== *)
(** The journal of the ext4 engine (ext4/src/journal.rs, and [Ext4::mount] of
    ext4/src/lib.rs).

    [replay_journal] rebuilds the overlay of a mount from a committed log.
    [commit_plan] is the part of [commit_journal] that reads the filesystem
    and prepares the blocks: it ends before the first write and gives the
    writes and barriers that follow, in order; [commit_journal] runs them on
    a device that keeps what is durable apart from what is pending. *)

From Stdlib Require Import ZArith Lia Bool.
From stdpp Require Import base option list numbers.
From S2P Require Import Prelude Ext4.
Local Open Scope machine_scope.

Definition MAGIC : Z := 0xc03b3998.
Definition DESCRIPTOR : Z := 1.
Definition COMMIT : Z := 2.
Definition SUPERBLOCK_V2 : Z := 4.
Definition REVOKE : Z := 5.

Definition COMPAT_CHECKSUM_V1 : Z := 1.
Definition INCOMPAT_REVOKE : Z := 1.
Definition JOURNAL_64BIT : Z := 2.
Definition INCOMPAT_ASYNC_COMMIT : Z := 4.
Definition INCOMPAT_CSUM_V2 : Z := 8.
Definition INCOMPAT_CSUM_V3 : Z := 16.
Definition INCOMPAT_FAST_COMMIT : Z := 32.

Definition FLAG_ESCAPE : Z := 1.
Definition FLAG_SAME_UUID : Z := 2.
Definition FLAG_DELETED : Z := 4.
Definition FLAG_LAST : Z := 8.
Definition KNOWN_FLAGS : Z := FLAG_ESCAPE .| FLAG_SAME_UUID .| FLAG_DELETED .| FLAG_LAST.

(** * Bytes in network order *)

Definition to_be_bytes (n : nat) (x : Z) : list Z := rev (to_le_bytes n x).
Definition from_be_bytes (l : list Z) : Z := from_le_bytes (rev l).

Definition be16 (b : list Z) (off : Z) : R Z := from_be_bytes <$> slice b off 2.
Definition be32 (b : list Z) (off : Z) : R Z := from_be_bytes <$> slice b off 4.
Definition be64 (b : list Z) (off : Z) : R Z := from_be_bytes <$> slice b off 8.
Definition put_be16 (b : list Z) (off x : Z) : R (list Z) := put b off (to_be_bytes 2 x).
Definition put_be32 (b : list Z) (off x : Z) : R (list Z) := put b off (to_be_bytes 4 x).

Definition crc32c_bit (crc : Z) : Z := Z.lxor (crc ≫ 1) (0x82f63b78 .& u32 (0 - (crc .& 1))).

Definition crc32c (crc : Z) (bytes : list Z) : Z :=
  foldl (fun crc byte => Nat.iter 8 crc32c_bit (Z.lxor crc (u8 byte))) crc bytes.

(** * The format of the log *)

Record Format := mkFormat {
  max_len : Z; first : Z; sequence : Z; start : Z; incompat : Z; juuid : list Z; jseed : Z
}.

Definition csum_v2 (f : Format) : bool := has_flag (incompat f) INCOMPAT_CSUM_V2.
Definition csum_v3 (f : Format) : bool := has_flag (incompat f) INCOMPAT_CSUM_V3.
Definition has_checksums (f : Format) : bool := csum_v2 f || csum_v3 f.
Definition is_64bit (f : Format) : bool := has_flag (incompat f) JOURNAL_64BIT.
Definition tag_len (f : Format) : Z := if csum_v3 f then 16 else if is_64bit f then 12 else 8.
Definition advance (f : Format) (block : Z) : Z := if u32 (block + 1) =? max_len f then first f else u32 (block + 1).

Record LoggedBlock := mkLogged { l_sequence : Z; l_target : Z; l_bytes : list Z }.
Record Revoke := mkRevoke { r_sequence : Z; r_target : Z }.
Record Tag := mkTag { target : Z; t_flags : Z; t_checksum : Z }.
Record DirtyBlock := mkDirty { d_number : Z; d_bytes : list Z }.

Definition sums_len (f : Format) : Z := if has_checksums f then 4 else 0.

(** The tags of a descriptor block; a tag takes at least eight bytes. *)
Fixpoint parse_tags_loop (fuel : nat) (f : Format) (bytes : list Z) (end_ cursor : Z) (have_uuid : bool) : R (list Tag) :=
  match fuel with
  | O => Panic
  | S n =>
      if end_ <? cursor + tag_len f then corrupt InvalidJournal else
      low ← be32 bytes cursor;
      fields ← (if csum_v3 f then
                  fl ← be32 bytes (cursor + 4); sum ← be32 bytes (cursor + 12); hi ← be32 bytes (cursor + 8);
                  Ok (fl, sum, hi)
                else
                  fl ← be16 bytes (cursor + 6); sum ← be16 bytes (cursor + 4);
                  hi ← (if is_64bit f then be32 bytes (cursor + 8) else Ok 0); Ok (fl, sum, hi));
      let '(fl, sum, high) := fields in
      if negb ((fl .& bnot 32 KNOWN_FLAGS) =? 0) then corrupt InvalidJournal else
      let cursor := cursor + tag_len f in
      next ← (if negb (has_flag fl FLAG_SAME_UUID) then
                if end_ <? cursor + 16 then corrupt InvalidJournal else
                id ← slice bytes cursor 16;
                if bool_decide (id = juuid f) then Ok (cursor + 16) else corrupt InvalidJournal
              else if negb have_uuid then corrupt InvalidJournal else Ok cursor);
      let tag := mkTag (join 32 low high) fl sum in
      if has_flag fl FLAG_LAST then Ok [tag]
      else tags ← parse_tags_loop n f bytes end_ next true; Ok (tag :: tags)
  end.

Definition parse_tags (f : Format) (bytes : list Z) : R (list Tag) :=
  parse_tags_loop (length bytes) f bytes (zlen bytes - sums_len f) 12 false.

(** The revocation records [cursor..count), [record_len] bytes apart. *)
Fixpoint revoke_records (n : nat) (f : Format) (seq : Z) (bytes : list Z) (cursor record_len : Z) : R (list Revoke) :=
  match n with
  | O => Ok []
  | S n =>
      target ← (if is_64bit f then be64 bytes cursor else be32 bytes cursor);
      rest ← revoke_records n f seq bytes (cursor + record_len) record_len;
      Ok (mkRevoke seq target :: rest)
  end.

Definition parse_revokes (f : Format) (seq : Z) (bytes : list Z) : R (list Revoke) :=
  count ← be32 bytes 12;
  if (count <? 16) || (zlen bytes - sums_len f <? count) then corrupt InvalidJournal else
  let record_len := if is_64bit f then 8 else 4 in
  if negb ((count - 16) mod record_len =? 0) then corrupt InvalidJournal else
  revoke_records (Z.to_nat ((count - 16) / record_len)) f seq bytes 16 record_len.

(** * Checksums of the log *)

Definition verify_metadata_checksum (f : Format) (bytes : list Z) : R () :=
  if negb (has_checksums f) then Ok tt else
  let tail := zlen bytes - 4 in
  expected ← be32 bytes tail;
  body ← slice bytes 0 tail;
  if negb (crc32c (crc32c (jseed f) body) (zeros 4) =? expected) then corrupt JournalChecksum else Ok tt.

Definition data_checksum (f : Format) (seq : Z) (bytes : list Z) : Z :=
  crc32c (crc32c (jseed f) (to_be_bytes 4 seq)) bytes.

Definition verify_data_checksum (f : Format) (seq : Z) (tag : Tag) (bytes : list Z) : R () :=
  if negb (has_checksums f) then Ok tt else
  let sum := data_checksum f seq bytes in
  let valid := if csum_v3 f then sum =? t_checksum tag else u16 sum =? u16 (t_checksum tag) in
  if negb valid then corrupt JournalChecksum else Ok tt.

Definition verify_commit_checksum (f : Format) (bytes : list Z) : R () :=
  if negb (has_checksums f) then Ok tt else
  expected ← be32 bytes 16;
  head ← slice bytes 0 16;
  tail ← slice bytes 20 (zlen bytes - 20);
  if negb (crc32c (crc32c (crc32c (jseed f) head) (zeros 4)) tail =? expected)
  then corrupt JournalChecksum else Ok tt.

Definition update_metadata_checksum (f : Format) (bytes : list Z) : R (list Z) :=
  let tail := zlen bytes - 4 in
  bytes ← put bytes tail (zeros 4);
  put_be32 bytes tail (crc32c (jseed f) bytes).

Definition update_commit_checksum (f : Format) (bytes : list Z) : R (list Z) :=
  bytes ← put bytes 16 (zeros 4);
  put_be32 bytes 16 (crc32c (jseed f) bytes).

Definition update_journal_superblock_checksum (bytes : list Z) : R (list Z) :=
  bytes ← put bytes 0xfc (zeros 4);
  body ← slice bytes 0 1024;
  put_be32 bytes 0xfc (crc32c U32_MAX body).

Definition tid_ge (left right : Z) : bool := u32 (left - right) <? 0x80000000.

Section Journal.
Context `{Crc}.

Definition read_journal_block (fs : Ext4) (s : Storage) (ino : Inode) (logical : Z) : R (list Z) :=
  offset ← checked (logical * block_size (superblock fs));
  bytes ← read_inode_data fs s ino offset (block_size (superblock fs));
  if negb (zlen bytes =? block_size (superblock fs)) then corrupt InvalidJournal else Ok bytes.

Definition known_incompat : Z :=
  INCOMPAT_REVOKE .| JOURNAL_64BIT .| INCOMPAT_ASYNC_COMMIT .| INCOMPAT_CSUM_V2 .| INCOMPAT_CSUM_V3
  .| INCOMPAT_FAST_COMMIT.

(** The superblock of the journal, once read. *)
Definition parse_format (sb : Superblock) (journal_size : Z) (bytes : list Z) : R Format :=
  magic ← be32 bytes 0;
  kind ← be32 bytes 4;
  if negb (magic =? MAGIC) || negb (kind =? SUPERBLOCK_V2) then corrupt InvalidJournal else
  bsize ← be32 bytes 0x0c;
  max_len ← be32 bytes 0x10;
  first ← be32 bytes 0x14;
  sequence ← be32 bytes 0x18;
  start ← be32 bytes 0x1c;
  compat ← be32 bytes 0x24;
  incompat ← be32 bytes 0x28;
  ro_compat ← be32 bytes 0x2c;
  id ← slice bytes 0x30 16;
  let unsupported_bits := incompat .& bnot 32 known_incompat in
  if has_flag compat COMPAT_CHECKSUM_V1 || has_flag compat (bnot 32 COMPAT_CHECKSUM_V1)
     || negb (ro_compat =? 0) || negb (unsupported_bits =? 0) || has_flag incompat INCOMPAT_FAST_COMMIT
  then unsupported (JournalFeatures compat incompat ro_compat) else
  if has_flag incompat INCOMPAT_CSUM_V2 && has_flag incompat INCOMPAT_CSUM_V3 then corrupt InvalidJournal else
  if has_flag incompat INCOMPAT_ASYNC_COMMIT && negb (has_flag incompat (INCOMPAT_CSUM_V2 .| INCOMPAT_CSUM_V3))
  then corrupt InvalidJournal else
  if negb (bsize =? block_size sb) || (max_len <? 4) || (journal_size / bsize <? max_len)
     || (first =? 0) || (max_len <=? first)
     || (negb (start =? 0) && ((start <? first) || (max_len <=? start)))
     || negb (bool_decide (id = uuid sb))
  then corrupt InvalidJournal else
  let f := mkFormat max_len first sequence start incompat id (crc32c U32_MAX id) in
  if negb (has_checksums f) then Ok f else
  kind ← byte_at bytes 0x50;
  if negb (kind =? 4) then unsupported (JournalFeatures compat incompat ro_compat) else
  expected ← be32 bytes 0xfc;
  head ← slice bytes 0 0xfc;
  tail ← slice bytes 0x100 (1024 - 0x100);
  if negb (crc32c (crc32c (crc32c U32_MAX head) (zeros 4)) tail =? expected)
  then corrupt JournalChecksum else Ok f.

Definition load_journal_format (fs : Ext4) (s : Storage) (ino : Inode) : R Format :=
  bytes ← read_journal_block fs s ino 0;
  parse_format (superblock fs) (size ino) bytes.

(** * Recovery *)

(** What the scan of the log has found so far. *)
Record Scan := mkScan {
  logged : list LoggedBlock; revokes : list Revoke;
  pending_blocks : list LoggedBlock; pending_revokes : list Revoke;
  sc_block : Z; sc_sequence : Z; visited : Z
}.

(** The data blocks of one descriptor: those logged, and the position behind
    them. *)
Fixpoint tag_blocks (fs : Ext4) (s : Storage) (ino : Inode) (f : Format) (seq : Z) (tags : list Tag)
    (block visited : Z) : R (list LoggedBlock * Z * Z) :=
  match tags with
  | [] => Ok ([], block, visited)
  | tag :: tags =>
      if max_len f - first f <=? visited then corrupt InvalidJournal else
      data ← read_journal_block fs s ino block;
      let visited := visited + 1 in
      _ ← verify_data_checksum f seq tag data;
      data ← (if has_flag (t_flags tag) FLAG_ESCAPE then put data 0 (to_be_bytes 4 MAGIC) else Ok data);
      rest ← tag_blocks fs s ino f seq tags (advance f block) visited;
      let '(l, block, visited) := rest in
      Ok (if has_flag (t_flags tag) FLAG_DELETED then l else mkLogged seq (target tag) data :: l, block, visited)
  end.

(** One turn of the scan: [inl] goes on, [inr] is the end of the log. *)
Definition scan_step (fs : Ext4) (s : Storage) (ino : Inode) (f : Format) (c : Scan) : R (Scan + Scan) :=
  let '(mkScan lg rv pb pr block seq visited) := c in
  bytes ← read_journal_block fs s ino block;
  let visited := visited + 1 in
  magic ← be32 bytes 0;
  sq ← be32 bytes 8;
  if negb (magic =? MAGIC) || negb (sq =? seq) then Ok (inr (mkScan lg rv pb pr block seq visited)) else
  kind ← be32 bytes 4;
  if kind =? DESCRIPTOR then
    _ ← verify_metadata_checksum f bytes;
    tags ← parse_tags f bytes;
    r ← tag_blocks fs s ino f seq tags (advance f block) visited;
    let '(l, block, visited) := r in
    Ok (inl (mkScan lg rv (pb ++ l) pr block seq visited))
  else if kind =? REVOKE then
    if negb (has_flag (incompat f) INCOMPAT_REVOKE) then corrupt InvalidJournal else
    _ ← verify_metadata_checksum f bytes;
    l ← parse_revokes f seq bytes;
    Ok (inl (mkScan lg rv pb (pr ++ l) (advance f block) seq visited))
  else if kind =? COMMIT then
    _ ← verify_commit_checksum f bytes;
    Ok (inl (mkScan (lg ++ pb) (rv ++ pr) [] [] (advance f block) (u32 (seq + 1)) visited))
  else Ok (inr (mkScan lg rv pb pr block seq visited)).

(** Every turn visits a block, so [fuel] is the length of the log. *)
Fixpoint scan_log (fuel : nat) (fs : Ext4) (s : Storage) (ino : Inode) (f : Format) (c : Scan) : R Scan :=
  if negb (visited c <? max_len f - first f) then Ok c else
  match fuel with
  | O => Panic
  | S n =>
      r ← scan_step fs s ino f c;
      match r with inl c => scan_log n fs s ino f c | inr c => Ok c end
  end.

Definition revoked (rv : list Revoke) (u : LoggedBlock) : bool :=
  existsb (fun r => (r_target r =? l_target u) && tid_ge (r_sequence r) (l_sequence u)) rv.

(** [overlay[i].1 = bytes], or an insertion that keeps the overlay sorted. *)
Definition overlay_insert (o : list (Z * list Z)) (target : Z) (bytes : list Z) : list (Z * list Z) :=
  match binary_search target o with
  | inl i => <[i := (target, bytes)]> o
  | inr i => take i o ++ (target, bytes) :: drop i o
  end.

Fixpoint apply_logged (blocks : Z) (rv : list Revoke) (l : list LoggedBlock) (o : list (Z * list Z))
    : R (list (Z * list Z)) :=
  match l with
  | [] => Ok o
  | u :: l =>
      if revoked rv u then apply_logged blocks rv l o
      else if blocks <=? l_target u then corrupt InvalidJournal
      else apply_logged blocks rv l (overlay_insert o (l_target u) (l_bytes u))
  end.

Definition replay_journal (fs : Ext4) (s : Storage) : R Ext4 :=
  journal ← load_inode fs s (journal_inode (superblock fs));
  if negb ((mode journal .& MODE_TYPE_MASK) =? MODE_REGULAR) then corrupt InvalidJournal else
  f ← load_journal_format fs s journal;
  if start f =? 0 then Ok fs else
  c ← scan_log (Z.to_nat (max_len f - first f)) fs s journal f (mkScan [] [] [] [] (start f) (sequence f) 0);
  o ← apply_logged (blocks_count (superblock fs)) (revokes c) (logged c) (overlay fs);
  Ok (mkExt4 (superblock fs) o).

Definition mount (s : Storage) : R Ext4 :=
  sb ← load_superblock s;
  let fs := mkExt4 sb [] in
  if needs_recovery sb then replay_journal fs s else Ok fs.

(** * Committing *)

Definition set_recovery_flag (block : list Z) (enabled : bool) : R (list Z) :=
  let offset := SUPERBLOCK_OFFSET mod zlen block in
  if zlen block <? offset + SUPERBLOCK_SIZE then corrupt BadMagic else
  magic ← le16 block (offset + 0x38);
  if negb (magic =? EXT4_MAGIC) then corrupt BadMagic else
  inc ← le32 block (offset + 0x60);
  let inc := if enabled then inc .| INCOMPAT_RECOVER else inc .& bnot 32 INCOMPAT_RECOVER in
  block ← put block (offset + 0x60) (to_le_bytes 4 inc);
  body ← slice block offset 0x3fc;
  put block (offset + 0x3fc) (to_le_bytes 4 (checksum U32_MAX body)).

(** A dirty block as it is logged: a block that begins with the magic number
    is escaped. *)
Definition escape_block (bytes : list Z) : R (list Z * bool) :=
  head ← be32 bytes 0;
  if head =? MAGIC then bytes ← put bytes 0 (zeros 4); Ok (bytes, true) else Ok (bytes, false).

Fixpoint journal_data (sb : Superblock) (dirty : list DirtyBlock) : R (list (list Z * bool)) :=
  match dirty with
  | [] => Ok []
  | b :: dirty =>
      if negb (zlen (d_bytes b) =? block_size sb) || (blocks_count sb <=? d_number b) then Err InvalidArgument else
      e ← escape_block (d_bytes b);
      rest ← journal_data sb dirty;
      Ok (e :: rest)
  end.

(** The tag of block [index] of [count]. *)
Definition tag_flags (index count : nat) (escaped : bool) : Z :=
  (if (index =? 0)%nat then 0 else FLAG_SAME_UUID)
  .| (if escaped then FLAG_ESCAPE else 0) .| (if (S index =? count)%nat then FLAG_LAST else 0).

Definition put_tag (f : Format) (descriptor : list Z) (cursor number fl : Z) (data : list Z) : R (list Z) :=
  d ← put_be32 descriptor cursor (u32 number);
  if csum_v3 f then
    d ← put_be32 d (cursor + 4) fl;
    d ← put_be32 d (cursor + 8) (u32 (number ≫ 32));
    put_be32 d (cursor + 12) (data_checksum f (sequence f) data)
  else
    d ← put_be16 d (cursor + 4) 0;
    d ← put_be16 d (cursor + 6) (u16 fl);
    if is_64bit f then put_be32 d (cursor + 8) (u32 (number ≫ 32)) else Ok d.

(** The tags of the blocks still to come, [index] of [count] the next. *)
Fixpoint put_tags (f : Format) (count index : nat) (blocks : list (Z * (list Z * bool))) (cursor : Z)
    (descriptor : list Z) : R (list Z) :=
  match blocks with
  | [] => Ok descriptor
  | (number, (data, escaped)) :: blocks =>
      d ← put_tag f descriptor cursor number (tag_flags index count escaped) data;
      let cursor := cursor + tag_len f in
      if (index =? 0)%nat then
        d ← put d cursor (juuid f);
        put_tags f count (S index) blocks (cursor + 16) d
      else put_tags f count (S index) blocks cursor d
  end.

(** The header of a log block. *)
Definition log_header (bsize kind seq : Z) : R (list Z) :=
  b ← put_be32 (zeros bsize) 0 MAGIC;
  b ← put_be32 b 4 kind;
  put_be32 b 8 seq.

Definition descriptor_block (f : Format) (bsize : Z) (blocks : list (Z * (list Z * bool))) : R (list Z) :=
  d ← log_header bsize DESCRIPTOR (sequence f);
  d ← put_tags f (length blocks) 0 blocks 12 d;
  if has_checksums f then update_metadata_checksum f d else Ok d.

Definition commit_block (f : Format) (bsize : Z) : R (list Z) :=
  c ← log_header bsize COMMIT (sequence f);
  if has_checksums f then update_commit_checksum f c else Ok c.

(** The journal superblock with a sequence and a start. *)
Definition journal_superblock (f : Format) (bytes : list Z) (seq start : Z) : R (list Z) :=
  b ← put_be32 bytes 0x18 seq;
  b ← put_be32 b 0x1c start;
  if has_checksums f then update_journal_superblock_checksum b else Ok b.

(** Where the log blocks lie on the device. *)
Fixpoint locate_log (fs : Ext4) (s : Storage) (journal : Inode) (f : Format) (dirty : list DirtyBlock)
    (logicals : list Z) (found : list Z) : R (list Z) :=
  match logicals with
  | [] => Ok found
  | logical :: logicals =>
      if negb (logical =? 0) && (logical <? first f) then locate_log fs s journal f dirty logicals found else
      p ← map_file_block fs s journal logical;
      physical ← ok_or p (ECorrupt InvalidJournal);
      if (blocks_count (superblock fs) <=? physical)
         || existsb (fun b => d_number b =? physical) dirty || existsb (Z.eqb physical) found
      then corrupt InvalidJournal
      else locate_log fs s journal f dirty logicals (found ++ [physical])
  end.

Inductive Op := OpWrite (physical : Z) (bytes : list Z) | OpFlush.

Definition superblock_target (sb : Superblock) : Z := SUPERBLOCK_OFFSET / block_size sb.

Definition find_dirty (target : Z) (dirty : list DirtyBlock) : option DirtyBlock :=
  snd <$> list_find (fun b => d_number b = target) dirty.

(** The five phases of writes. *)
Definition commit_ops (sb_target jsb_physical descriptor_physical commit_physical : Z) (data_physical : list Z)
    (descriptor commit activation checkpoint final active clean : list Z)
    (data : list (list Z)) (dirty : list DirtyBlock) : list Op :=
  [OpWrite descriptor_physical descriptor] ++ zip_with OpWrite data_physical data ++ [OpFlush]
  ++ [OpWrite sb_target activation; OpWrite jsb_physical active; OpFlush]
  ++ [OpWrite commit_physical commit; OpFlush]
  ++ map (fun b => OpWrite (d_number b) (if d_number b =? sb_target then checkpoint else d_bytes b)) dirty
  ++ [OpFlush]
  ++ [OpWrite sb_target final; OpWrite jsb_physical clean; OpFlush].

Definition commit_plan (fs : Ext4) (s : Storage) (dirty : list DirtyBlock) : R (list Op) :=
  match dirty with
  | [] => Ok []
  | _ =>
      let sb := superblock fs in
      let bsize := block_size sb in
      if needs_recovery sb || negb (bool_decide (overlay fs = [])) || negb (bsize =? 4096)
      then unsupported JournalWriteProfile else
      journal ← load_inode fs s (journal_inode sb);
      if negb ((mode journal .& MODE_TYPE_MASK) =? MODE_REGULAR) then corrupt InvalidJournal else
      f ← load_journal_format fs s journal;
      if negb (start f =? 0) || (negb (csum_v3 f) && has_checksums f) || has_flag (incompat f) INCOMPAT_ASYNC_COMMIT
      then unsupported JournalWriteProfile else
      let count := zlen dirty in
      if U32_MAX <? count then Err InvalidArgument else
      let commit_logical := first f + count + 1 in
      if max_len f <=? commit_logical then unsupported JournalWriteProfile else
      tags_len ← usize (count * tag_len f + 16 + 12);
      if bsize - sums_len f <? tags_len then unsupported JournalWriteProfile else
      let sb_target := superblock_target sb in
      final ← ok_or (find_dirty sb_target dirty) (EUnsupported JournalWriteProfile);
      activation ← read_fs_block fs s sb_target;
      activation ← set_recovery_flag activation true;
      checkpoint ← set_recovery_flag (d_bytes final) true;
      data ← journal_data sb dirty;
      descriptor ← descriptor_block f bsize (zip (map d_number dirty) data);
      commit ← commit_block f bsize;
      jsb ← read_journal_block fs s journal 0;
      active ← journal_superblock f jsb (sequence f) (first f);
      clean ← journal_superblock f active (u32 (sequence f + 1)) 0;
      physicals ← locate_log fs s journal f dirty (seqZ 0 (commit_logical + 1)) [];
      if negb (length physicals =? length dirty + 3)%nat then corrupt InvalidJournal else
      Ok (commit_ops sb_target (physicals !!! 0%nat) (physicals !!! 1%nat) (List.last physicals 0)
            (take (length dirty) (drop 2 physicals)) descriptor commit activation checkpoint (d_bytes final)
            active clean (map fst data) dirty)
  end.

(** * The device

    [Storage::flush] makes the writes before it durable; until then a loss of
    power keeps any of them, a block whole or not at all. *)

Record Device := mkDevice { durable : Storage; pending : list (Z * list Z) }.

Definition write_at (s : Storage) (offset : Z) (bytes : list Z) : Storage :=
  mkStorage (st_len s) (fun a =>
    if (offset <=? a) && (a <? offset + zlen bytes) then bytes !!! Z.to_nat (a - offset) else st_byte s a).

Definition write_all (ws : list (Z * list Z)) (s : Storage) : Storage :=
  foldl (fun s w => write_at s (fst w) (snd w)) s ws.

(** [write_physical_block]: out of range it is an error. *)
Definition run_op (sb : Superblock) (d : Device) (o : Op) : R Device :=
  match o with
  | OpWrite physical bytes =>
      if (blocks_count sb <=? physical) || negb (zlen bytes =? block_size sb) then corrupt InvalidJournal else
      offset ← checked (physical * block_size sb);
      Ok (mkDevice (durable d) (pending d ++ [(offset, bytes)]))
  | OpFlush => Ok (mkDevice (write_all (pending d) (durable d)) [])
  end.

Fixpoint run_ops (sb : Superblock) (d : Device) (ops : list Op) : R Device :=
  match ops with
  | [] => Ok d
  | o :: ops => d ← run_op sb d o; run_ops sb d ops
  end.

(** What the device holds, and what it may hold after a loss of power. *)
Definition contents (d : Device) : Storage := write_all (pending d) (durable d).

Definition after_power_loss (d : Device) (s : Storage) : Prop :=
  exists kept, sublist kept (pending d) /\ s = write_all kept (durable d).

Definition commit_journal (fs : Ext4) (d : Device) (dirty : list DirtyBlock) : R Device :=
  ops ← commit_plan fs (contents d) dirty; run_ops (superblock fs) d ops.

End Journal.
