(* ===== verification/JournalCodec.v ===== *)
(** What the writer of the journal puts into blocks is what its reader finds:
    fields, checksums, the recovery flag of the superblock, the superblock of
    the journal, descriptor and commit blocks.  Blocks have 4096 bytes, the
    only size the writer accepts. *)

From Stdlib Require Import ZArith Lia Bool.
From stdpp Require Import base option list numbers.
From S2P Require Import Prelude Ext4 Journal.
Local Open Scope machine_scope.

(** * Fields *)

Definition le32v (b : list Z) (off : Z) : Z := from_le_bytes (sl b off 4).
Definition be32v (b : list Z) (off : Z) : Z := from_be_bytes (sl b off 4).
Definition be16v (b : list Z) (off : Z) : Z := from_be_bytes (sl b off 2).

Lemma be32_ok b off : 0 <= off -> off + 4 <= zlen b -> be32 b off = Ok (be32v b off).
Proof. intros. unfold be32, be32v. by rewrite slice_ok by lia. Qed.
Lemma be16_ok b off : 0 <= off -> off + 2 <= zlen b -> be16 b off = Ok (be16v b off).
Proof. intros. unfold be16, be16v. by rewrite slice_ok by lia. Qed.

Lemma length_to_be_bytes n x : length (to_be_bytes n x) = n.
Proof. unfold to_be_bytes. by rewrite List.length_rev, length_to_le_bytes. Qed.

Lemma from_to_be_bytes n x : 0 <= x < 256 ^ Z.of_nat n -> from_be_bytes (to_be_bytes n x) = x.
Proof. intros. unfold from_be_bytes, to_be_bytes. rewrite List.rev_involutive. by apply from_to_le_bytes. Qed.

Lemma be32v_range b off : 0 <= be32v b off < 2 ^ 32.
Proof.
  unfold be32v, from_be_bytes. pose proof (from_le_bytes_range (rev (sl b off 4))) as Hr.
  rewrite List.length_rev in Hr. assert (length (sl b off 4) <= 4)%nat as Hl by (unfold sl; rewrite length_take; lia).
  change (2 ^ 32) with (256 ^ 4). split; [lia|]. eapply Z.lt_le_trans; [apply Hr|]. apply Z.pow_le_mono_r; lia.
Qed.

(** Writing a field and reading it or another. *)
Lemma put_be32_ok b off x : 0 <= off -> off + 4 <= zlen b -> put_be32 b off x = Ok (splice b off (to_be_bytes 4 x)).
Proof. intros. unfold put_be32. rewrite put_ok; [done|lia|rewrite length_to_be_bytes; lia]. Qed.
Lemma put_be16_ok b off x : 0 <= off -> off + 2 <= zlen b -> put_be16 b off x = Ok (splice b off (to_be_bytes 2 x)).
Proof. intros. unfold put_be16. rewrite put_ok; [done|lia|rewrite length_to_be_bytes; lia]. Qed.

Lemma be32v_splice_in b off x :
  0 <= off -> off + 4 <= zlen b -> 0 <= x < 2 ^ 32 -> be32v (splice b off (to_be_bytes 4 x)) off = x.
Proof.
  intros. unfold be32v. pose proof (sl_splice_in b off (to_be_bytes 4 x)) as Hs.
  rewrite length_to_be_bytes in Hs. change (Z.of_nat 4) with 4 in Hs. rewrite Hs by lia. by apply from_to_be_bytes.
Qed.
Lemma be16v_splice_in b off x :
  0 <= off -> off + 2 <= zlen b -> 0 <= x < 2 ^ 16 -> be16v (splice b off (to_be_bytes 2 x)) off = x.
Proof.
  intros. unfold be16v. pose proof (sl_splice_in b off (to_be_bytes 2 x)) as Hs.
  rewrite length_to_be_bytes in Hs. change (Z.of_nat 2) with 2 in Hs. rewrite Hs by lia. by apply from_to_be_bytes.
Qed.
Lemma be32v_splice_out b off src o :
  0 <= off -> off + zlen src <= zlen b -> 0 <= o -> o + 4 <= off \/ off + zlen src <= o ->
  be32v (splice b off src) o = be32v b o.
Proof. intros. unfold be32v. by rewrite sl_splice_out by lia. Qed.
Lemma be16v_splice_out b off src o :
  0 <= off -> off + zlen src <= zlen b -> 0 <= o -> o + 2 <= off \/ off + zlen src <= o ->
  be16v (splice b off src) o = be16v b o.
Proof. intros. unfold be16v. by rewrite sl_splice_out by lia. Qed.

(** * The checksum of the journal *)

Lemma crc32c_bit_fits c : fits 32 c -> fits 32 (crc32c_bit c).
Proof.
  intros Hc. unfold crc32c_bit.
  assert (fits 32 (c ≫ 1)) as Hs.
  { unfold fits in *. rewrite Z.shiftr_div_pow2 by lia. change (2 ^ 1) with 2. split; [apply Z.div_pos; lia|].
    apply Z.div_lt_upper_bound; lia. }
  assert (fits 32 (0x82f63b78 .& u32 (0 - (c .& 1)))) as Hp.
  { apply fits_land; [lia|done|]. apply wrap_fits. lia. }
  apply fits_testbit; [lia|]. split.
  - apply Z.lxor_nonneg. unfold fits in *. lia.
  - intros i Hi. rewrite Z.lxor_spec, !(fits_high 32) by (done || lia). done.
Qed.

Lemma crc32c_fits bytes c : fits 32 c -> fits 32 (crc32c c bytes).
Proof.
  unfold crc32c. revert c; induction bytes as [|b bytes IH]; intros c Hc; [done|]. cbn [foldl]. apply IH.
  assert (forall n z, fits 32 z -> fits 32 (Nat.iter n crc32c_bit z)) as Hit.
  { induction n as [|n IHn]; intros z Hz; [done|]. rewrite Nat.iter_succ. by apply crc32c_bit_fits, IHn. }
  apply Hit. pose proof (wrap_fits 8 b ltac:(lia)) as Hb. apply fits_testbit; [lia|]. split.
  - apply Z.lxor_nonneg. unfold fits in *. lia.
  - intros i Hi. rewrite Z.lxor_spec, (fits_high 32), (fits_high 8) by (done || lia). done.
Qed.

Lemma crc32c_app c a b : crc32c c (a ++ b) = crc32c (crc32c c a) b.
Proof. unfold crc32c. by rewrite foldl_app. Qed.

(** * Blocks of a device *)

Abbreviation BS := 4096 (only parsing).

Definition block_of (s : Storage) (b : Z) : list Z := st_read s (b * BS) BS.

Lemma lookup_st_read s o n i :
  st_read s o n !! i = if (i <? Z.to_nat n)%nat then Some (st_byte s (o + Z.of_nat i)) else None.
Proof.
  unfold st_read. rewrite list_lookup_fmap. destruct (Nat.ltb_spec i (Z.to_nat n)).
  - rewrite lookup_seq_lt by lia. done.
  - rewrite lookup_seq_ge by lia. done.
Qed.

Lemma length_block_of s b : zlen (block_of s b) = BS.
Proof. by apply length_st_read. Qed.

(** A read inside a block is a part of the block. *)
Lemma st_read_sl s b off n : 0 <= off -> 0 <= n -> off + n <= BS -> st_read s (b * BS + off) n = sl (block_of s b) off n.
Proof.
  intros. apply list_eq. intros i. rewrite lookup_sl, lookup_st_read by lia. unfold block_of. rewrite lookup_st_read.
  destruct (Nat.ltb_spec i (Z.to_nat n)); [|done]. rewrite (proj2 (Nat.ltb_lt _ _)) by lia. do 2 f_equal. lia.
Qed.

Lemma block_of_write s p bytes b :
  zlen bytes = BS -> block_of (write_at s (p * BS) bytes) b = if b =? p then bytes else block_of s b.
Proof.
  intros Hl. apply list_eq. intros i. unfold block_of. rewrite lookup_st_read. cbn [st_byte write_at].
  destruct (Nat.ltb_spec i (Z.to_nat BS)) as [Hi|Hi].
  - destruct (Z.eqb_spec b p) as [->|Hb].
    + rewrite (proj2 (Z.leb_le _ _)), (proj2 (Z.ltb_lt _ _)) by lia. cbn [andb].
      symmetry. rewrite list_lookup_lookup_total_lt by lia. do 2 f_equal. lia.
    + rewrite lookup_st_read, (proj2 (Nat.ltb_lt _ _)) by done.
      destruct (_ && _) eqn:E; [|done]. rewrite andb_true_iff, Z.leb_le, Z.ltb_lt in E. lia.
  - destruct (Z.eqb_spec b p); [by rewrite lookup_ge_None_2 by lia|].
    rewrite lookup_st_read. by rewrite (proj2 (Nat.ltb_ge _ _)).
Qed.

#[local] Opaque st_read.

(** Writes of blocks, by number. *)
Definition at_offsets (ws : list (Z * list Z)) : list (Z * list Z) := map (fun w => (fst w * BS, snd w)) ws.
Definition full (ws : list (Z * list Z)) : Prop := Forall (fun w => zlen (snd w) = BS) ws.
Definition get (ws : list (Z * list Z)) (b : Z) : option (list Z) := snd <$> (snd <$> list_find (fun w => fst w = b) ws).

Lemma write_all_len ws s : st_len (write_all ws s) = st_len s.
Proof. unfold write_all. revert s; induction ws as [|w ws IH]; intros s; [done|]. cbn [foldl]. by rewrite IH. Qed.

Lemma write_all_app a b s : write_all (a ++ b) s = write_all b (write_all a s).
Proof. unfold write_all. by rewrite foldl_app. Qed.

Lemma get_cons p bytes ws b : get ((p, bytes) :: ws) b = if p =? b then Some bytes else get ws b.
Proof.
  unfold get. cbn [list_find fst]. destruct (Z.eqb_spec p b).
  - by rewrite decide_True.
  - rewrite decide_False by done. by destruct (list_find _ ws) as [[]|].
Qed.

Lemma get_In ws b v : get ws b = Some v -> (b, v) ∈ ws.
Proof.
  unfold get. destruct (list_find _ ws) as [[i [p x]]|] eqn:E; [|done]. cbn. intros [= ->].
  apply list_find_Some in E as (Hl&Hp&_). cbn in Hp. subst. by eapply list_elem_of_lookup_2.
Qed.

Lemma get_NoDup ws b v : NoDup (map fst ws) -> (b, v) ∈ ws -> get ws b = Some v.
Proof.
  induction ws as [|[p x] ws IH]; intros Hn Hb; [by apply elem_of_nil in Hb|]. cbn in Hn. apply list.NoDup_cons in Hn as [Hp Hn].
  rewrite get_cons. apply elem_of_cons in Hb as [[= -> ->]|Hb]; [by rewrite Z.eqb_refl|].
  destruct (Z.eqb_spec p b) as [->|]; [|by apply IH].
  contradict Hp. apply list_elem_of_fmap. by exists (b, v).
Qed.

Lemma get_None ws b : get ws b = None -> b ∉ map fst ws.
Proof.
  unfold get. destruct (list_find _ ws) eqn:E; [done|]. intros _ Hb. apply list_elem_of_fmap in Hb as [[p v] [-> Hw]].
  apply list_find_None in E. by apply (proj1 (list.Forall_forall _ _) E _ Hw).
Qed.

Lemma get_notin ws b : b ∉ map fst ws -> get ws b = None.
Proof.
  intros Hb. destruct (get ws b) as [v|] eqn:E; [|done]. contradict Hb. apply list_elem_of_fmap.
  exists (b, v). split; [done|]. by apply get_In.
Qed.

(** Distinct blocks written in any order. *)
Lemma block_of_write_all ws s b :
  full ws -> NoDup (map fst ws) -> block_of (write_all (at_offsets ws) s) b = default (block_of s b) (get ws b).
Proof.
  revert s. induction ws as [|[p bytes] ws IH]; intros s Hf Hn; [done|]. cbn in Hn. apply list.NoDup_cons in Hn as [Hp Hn].
  inversion Hf as [|x l Hl Hf']; subst. cbn [at_offsets map write_all foldl fst snd]. cbn [fst snd] in Hl.
  change (foldl _ ?x (map _ ws)) with (write_all (at_offsets ws) x). rewrite IH by done. rewrite block_of_write by done.
  rewrite get_cons. rewrite (Z.eqb_sym b p). destruct (Z.eqb_spec p b) as [->|]; [|done].
  by rewrite get_notin.
Qed.

(** What is left of the writes of a phase after a loss of power: each block
    new or old. *)
Lemma sublist_at_offsets kept ws : sublist kept (at_offsets ws) -> exists k, sublist k ws /\ kept = at_offsets k.
Proof.
  revert kept. induction ws as [|w ws IH]; intros kept Hk; cbn in Hk.
  - apply sublist_nil_r in Hk as ->. by exists [].
  - apply sublist_cons_r in Hk as [Hk|(l & -> & Hk)]; destruct (IH _ Hk) as (k & Hs & ->).
    + exists k. split; [by apply sublist_cons|done].
    + exists (w :: k). split; [by apply sublist_skip|done].
Qed.

Lemma sublist_full k ws : sublist k ws -> full ws -> full k.
Proof.
  intros Hs Hf. apply list.Forall_forall. intros w Hw. apply (proj1 (list.Forall_forall _ _) Hf). by eapply elem_of_sublist.
Qed.

Lemma sublist_map {A B} (f : A -> B) k l : sublist k l -> sublist (map f k) (map f l).
Proof. induction 1; cbn; by constructor. Qed.

Lemma sublist_NoDup_fst k (ws : list (Z * list Z)) : sublist k ws -> NoDup (map fst ws) -> NoDup (map fst k).
Proof. intros Hs Hn. eapply sublist_NoDup; [exact Hn|by apply sublist_map]. Qed.

(** * Reading a mounted filesystem *)

Section Facts.
Context `{Crc}.

Lemma patch_no_overlay sb s_numbers offset end_ dst : patch (mkExt4 sb []) offset end_ s_numbers dst = Ok dst.
Proof. revert dst. induction s_numbers as [|n l IH]; intros dst; [done|]. cbn [patch]. apply IH. Qed.

Lemma checked_ok x : x <= U64_MAX -> checked x = Ok x.
Proof. intros. unfold checked. by rewrite (proj2 (Z.leb_le _ _)). Qed.
Lemma usize_ok x : x <= U32_MAX -> usize x = Ok x.
Proof. intros. unfold usize. by rewrite (proj2 (Z.leb_le _ _)). Qed.

Lemma checked_read_ok s off n : off + n <= st_len s -> st_len s <= U64_MAX -> checked_read s off n = Ok (st_read s off n).
Proof. intros. unfold checked_read. rewrite checked_ok by lia. cbn. by rewrite (proj2 (Z.ltb_ge _ _)) by lia. Qed.

Lemma read_storage_plain sb s off n :
  off + n <= st_len s -> st_len s <= U64_MAX -> read_storage (mkExt4 sb []) s off n = Ok (st_read s off n).
Proof.
  intros. unfold read_storage. rewrite checked_read_ok by done. cbn. destruct (n =? 0); [done|].
  rewrite checked_ok by lia. cbn. apply patch_no_overlay.
Qed.

(** One block, through the overlay. *)
Lemma binary_search_get {A} key (l : list (Z * A)) :
  match binary_search key l with
  | inl i => exists v, l !! i = Some (key, v) /\ list_find (fun e => fst e = key) l = Some (i, (key, v))
  | inr _ => list_find (fun e => fst e = key) l = None
  end.
Proof.
  unfold binary_search. destruct (list_find _ l) as [[i [k v]]|] eqn:E; [|done].
  apply list_find_Some in E as (Hl&Hk&_). cbn in Hk. subst. by exists v.
Qed.

Lemma read_fs_block_view sb o s b :
  block_size sb = BS -> full o -> 0 <= b -> (b + 1) * BS <= st_len s -> st_len s <= U64_MAX ->
  read_fs_block (mkExt4 sb o) s b = Ok (default (block_of s b) (get o b)).
Proof.
  intros Hbs Hf Hb Hl Hu. unfold read_fs_block, read_storage. cbn [superblock]. rewrite Hbs, checked_ok by lia. cbn [mbind R_bind].
  rewrite checked_read_ok by lia. cbn [mbind R_bind]. change (BS =? 0) with false. cbn [superblock].
  rewrite checked_ok by lia. cbn [mbind R_bind].
  replace ((b * BS + BS - 1) / BS) with b by (apply Z.div_unique with (BS - 1); lia).
  rewrite Z.div_mul by lia. replace (b - b + 1) with 1 by lia. change (seqZ b 1) with [Z.of_nat 0 + b].
  change (Z.of_nat 0 + b) with b. cbn [patch]. unfold patch_block. cbn [overlay superblock].
  pose proof (binary_search_get b o) as Hs. unfold get. destruct (binary_search b o) as [i|].
  - destruct Hs as (v & Hi & ->). cbn [fmap option_fmap option_map snd default from_option id].
    rewrite (list_lookup_total_correct _ _ _ Hi). cbn [snd].
    assert (zlen v = BS) as Hv by exact (proj1 (Forall_lookup _ _) Hf _ _ Hi).
    rewrite Hbs, checked_ok by lia. cbn [mbind R_bind]. rewrite checked_ok by lia. cbn [mbind R_bind].
    rewrite Z.max_id, Z.min_id, (proj2 (Z.ltb_lt _ _)) by lia.
    rewrite !usize_ok by (unfold U32_MAX; lia). cbn [mbind R_bind]. rewrite slice_ok by lia. cbn [mbind R_bind].
    rewrite Z.sub_diag. replace (b * BS + BS - b * BS) with BS by lia. rewrite <- Hv, sl_all, put_ok; [|lia|].
    + cbn. unfold splice. rewrite take_0, drop_ge, app_nil_r; [done|]. pose proof (length_st_read s (b * zlen v) (zlen v)). lia.
    + rewrite length_st_read; lia.
  - by rewrite Hs.
Qed.

(** * The blocks of the log *)

(** The journal as a plain file: its blocks lie where [phys] tells. *)
Definition plain_file (journal : Inode) : Prop :=
  inline_data journal = None /\ has_flag (flags journal) INLINE_DATA_FL = false /\
  has_flag (flags journal) ENCRYPT_FL = false.

Lemma read_journal_block_ok sb s journal logical p :
  block_size sb = BS -> plain_file journal -> 0 <= logical -> (logical + 1) * BS <= size journal -> size journal <= U64_MAX ->
  map_file_block (mkExt4 sb []) s journal logical = Ok (Some p) ->
  0 <= p -> (p + 1) * BS <= st_len s -> st_len s <= U64_MAX ->
  read_journal_block (mkExt4 sb []) s journal logical = Ok (block_of s p).
Proof.
  intros Hbs (Hi&Hf&He) Hlo Hsz Hu Hm Hp Hl Hlen. unfold read_journal_block. cbn [superblock]. rewrite Hbs, checked_ok by lia.
  cbn [mbind R_bind]. unfold read_inode_data. rewrite Hi, Hf, He.
  rewrite (proj2 (Z.leb_gt _ _)) by lia. change (BS =? 0) with false. cbn [orb].
  rewrite Z.min_r by lia. cbn [mbind R_bind]. rewrite usize_ok by (unfold U32_MAX; lia). cbn [mbind R_bind].
  change (Z.to_nat BS) with (S (Pos.to_nat 4095)). cbn [read_loop superblock]. rewrite Hbs.
  change (0 <? BS) with true. cbn [negb]. rewrite Z.add_0_r, Z.div_mul, Z.mod_mul by lia.
  change (Z.min (BS - 0) (BS - 0)) with BS. rewrite Hm. cbn [mbind R_bind]. rewrite checked_ok by lia. cbn [mbind R_bind].
  rewrite Z.add_0_r, checked_ok by lia. cbn [mbind R_bind]. rewrite read_storage_plain by lia. cbn [mbind R_bind].
  destruct (Pos.to_nat 4095) as [|n] eqn:En; [lia|]. cbn [read_loop]. change (0 + BS <? BS) with false. cbn [negb mbind R_bind].
  rewrite app_nil_r. fold (block_of s p). by rewrite length_block_of.
Qed.

(** * The recovery flag of the superblock *)

Definition recover (sb : Superblock) : Superblock :=
  mkSuperblock (inodes_count sb) (blocks_count sb) (first_data_block sb) (block_size sb) (blocks_per_group sb)
    (inodes_per_group sb) (inode_size sb) (first_inode sb) (descriptor_size sb) (feature_compat sb)
    (feature_incompat sb .| INCOMPAT_RECOVER) (feature_ro_compat sb) (uuid sb) (checksum_seed sb) (journal_inode sb)
    (reserved_gdt_blocks sb) (backup_bgs sb) (first_meta_bg sb).

Lemma has_flag_recover x k : 0 <= k -> k <> 2 -> has_flag (x .| INCOMPAT_RECOVER) (bit k) = has_flag x (bit k).
Proof.
  intros. unfold has_flag. rewrite !land_bit_eqb by done. rewrite Z.lor_spec.
  change INCOMPAT_RECOVER with (bit 2). rewrite testbit_bit, bool_decide_false by lia. apply orb_false_r.
Qed.

Lemma has_flag_recovers x : has_flag (x .| INCOMPAT_RECOVER) INCOMPAT_RECOVER = true.
Proof.
  unfold has_flag. change INCOMPAT_RECOVER with (bit 2). rewrite land_bit_eqb by lia.
  by rewrite Z.lor_spec, testbit_bit, bool_decide_true, orb_true_r by lia.
Qed.

Lemma unknown_recover x : (x .| INCOMPAT_RECOVER) .& bnot 32 READ_INCOMPAT = x .& bnot 32 READ_INCOMPAT.
Proof. rewrite Z.land_lor_distr_l. change (INCOMPAT_RECOVER .& bnot 32 READ_INCOMPAT) with 0. apply Z.lor_0_r. Qed.

Lemma recover_64bit x : has_flag (x .| INCOMPAT_RECOVER) INCOMPAT_64BIT = has_flag x INCOMPAT_64BIT.
Proof. by apply (has_flag_recover x 7). Qed.
Lemma recover_meta_bg x : has_flag (x .| INCOMPAT_RECOVER) INCOMPAT_META_BG = has_flag x INCOMPAT_META_BG.
Proof. by apply (has_flag_recover x 4). Qed.
Lemma recover_csum_seed x : has_flag (x .| INCOMPAT_RECOVER) INCOMPAT_CSUM_SEED = has_flag x INCOMPAT_CSUM_SEED.
Proof. by apply (has_flag_recover x 13). Qed.

(** Two headers that differ in the feature word and the checksum only. *)
Definition same_but_flag (b b' : list Z) : Prop :=
  zlen b = 1024 /\ zlen b' = 1024 /\
  (forall off n, 0 <= off -> 0 <= n -> off + n <= 0x60 \/ (0x64 <= off /\ off + n <= 0x3fc) -> slice b' off n = slice b off n) /\
  (exists inc, le32 b 0x60 = Ok inc /\ le32 b' 0x60 = Ok (inc .| INCOMPAT_RECOVER)) /\
  (exists body, slice b' 0 0x3fc = Ok body /\ le32 b' 0x3fc = Ok (checksum U32_MAX body)).

Lemma parse_recover b b' len sb :
  same_but_flag b b' -> parse b len = Ok sb -> has_flag (feature_compat sb) COMPAT_HAS_JOURNAL = true ->
  journal_inode sb <> 0 -> parse b' len = Ok (recover sb).
Proof.
  intros (Hb & Hb' & Hs & (inc & Hi & Hi') & (body & Hbody & Hsum)) Hp Hc Hj.
  assert (forall off, 0 <= off -> off + 4 <= 0x60 \/ (0x64 <= off /\ off + 4 <= 0x3fc) -> le32 b' off = le32 b off) as H32.
  { intros. unfold le32. by rewrite Hs by lia. }
  assert (forall off, 0 <= off -> off + 2 <= 0x60 \/ (0x64 <= off /\ off + 2 <= 0x3fc) -> le16 b' off = le16 b off) as H16.
  { intros. unfold le16. by rewrite Hs by lia. }
  unfold parse in *. rewrite Hi', Hsum, Hbody, !H16, !H32, Hs by lia. rewrite Hi in Hp.
  do 5 parse_step Hp. cbn [mbind R_bind] in Hp |- *.
  rewrite unknown_recover, recover_64bit, recover_meta_bg, recover_csum_seed, has_flag_recovers.
  do 17 parse_step Hp.
  parse_step Hp. rewrite Z.eqb_refl.
  replace (if has_flag a3 RO_COMPAT_METADATA_CSUM then Ok true else Ok true) with (@Ok bool true) by (by destruct (has_flag a3 _)).
  cbn [mbind R_bind negb]. parse_step Hp. parse_step Hp. do 6 parse_step Hp. do 3 parse_step Hp.
  injection Hp as <-. cbn in Hc, Hj |- *. by rewrite Hc, (proj2 (Z.eqb_neq _ _) Hj).
Qed.

Lemma load_inode_recover sb s n : load_inode (mkExt4 (recover sb) []) s n = load_inode (mkExt4 sb []) s n.
Proof.
  unfold load_inode, read_raw_inode, read_group_descriptor, descriptor_offset. cbn [superblock recover feature_incompat].
  by rewrite recover_64bit, recover_meta_bg.
Qed.

Lemma parse_format_recover sb sz b : parse_format (recover sb) sz b = parse_format sb sz b.
Proof. unfold parse_format, recover. cbn [block_size uuid]. reflexivity. Qed.

Lemma from_le_bytes_put b off x :
  0 <= off -> off + 4 <= zlen b -> 0 <= x < 2 ^ 32 -> le32 (splice b off (to_le_bytes 4 x)) off = Ok x.
Proof.
  intros. unfold le32. assert (zlen (to_le_bytes 4 x) = 4) as Hl by by rewrite length_to_le_bytes.
  rewrite slice_ok; [|lia|lia|rewrite length_splice; lia].
  pose proof (sl_splice_in b off (to_le_bytes 4 x)) as Hs. rewrite Hl in Hs. rewrite Hs by lia.
  cbn [fmap R_fmap]. f_equal. by apply from_to_le_bytes.
Qed.

(** A part of the header inside its block. *)
Lemma slice_header block off n :
  zlen block = BS -> 0 <= off -> 0 <= n -> off + n <= 1024 -> slice (sl block 1024 1024) off n = Ok (sl block (1024 + off) n).
Proof. intros. rewrite slice_ok; [|lia|lia|rewrite length_sl; lia]. by rewrite sl_sl by lia. Qed.

Lemma set_recovery_flag_ok block block' :
  zlen block = BS -> set_recovery_flag block true = Ok block' ->
  zlen block' = BS /\ same_but_flag (sl block 1024 1024) (sl block' 1024 1024).
Proof.
  intros Hl Hs. unfold set_recovery_flag in Hs. rewrite Hl in Hs. change (SUPERBLOCK_OFFSET mod BS) with 1024 in Hs.
  change (BS <? 1024 + SUPERBLOCK_SIZE) with false in Hs. cbv iota in Hs. do 3 parse_step Hs.
  assert (exists inc, le32 block (1024 + 0x60) = Ok inc /\ 0 <= inc < 2 ^ 32) as (inc & Hi & Hr).
  { pose proof (safe_le32 block (1024 + 0x60) ltac:(lia) ltac:(lia)) as Hsf.
    destruct (le32 block (1024 + 0x60)) eqn:Ei; [|done..]. eauto. }
  assert (a0 = inc) as -> by congruence.
  assert (fits 32 (inc .| INCOMPAT_RECOVER)) as Hinc by (apply fits_lor; [lia|done|done]).
  assert (forall x, zlen (to_le_bytes 4 x) = 4) as H4 by (intros; by rewrite length_to_le_bytes).
  set (x := to_le_bytes 4 (inc .| INCOMPAT_RECOVER)) in *. pose proof (H4 (inc .| INCOMPAT_RECOVER)) as Hx. fold x in Hx.
  rewrite put_ok in Hs by lia. cbn [mbind R_bind] in Hs.
  set (b1 := splice block (1024 + 0x60) x) in *.
  assert (zlen b1 = BS) as Hb1 by (unfold b1; rewrite length_splice; lia).
  rewrite slice_ok in Hs by lia. cbn [mbind R_bind] in Hs.
  set (sum := checksum U32_MAX (sl b1 1024 0x3fc)) in *. pose proof (H4 sum) as Hy. set (y := to_le_bytes 4 sum) in *.
  rewrite put_ok in Hs by lia. injection Hs as <-. set (b2 := splice b1 (1024 + 0x3fc) y).
  assert (zlen b2 = BS) as Hb2 by (unfold b2; rewrite length_splice; lia).
  split; [done|]. split_and!; [apply length_sl; lia..| | |].
  - intros off n Ho Hn Hd. rewrite !slice_header by lia. unfold b2, b1. by rewrite !sl_splice_out by (fold b1; lia).
  - exists inc. unfold le32. rewrite !slice_header by lia. unfold b2. rewrite sl_splice_out by lia. split.
    + unfold le32 in Hi. rewrite slice_ok in Hi by lia. done.
    + pose proof (from_le_bytes_put block (1024 + 0x60) (inc .| INCOMPAT_RECOVER) ltac:(lia) ltac:(lia) Hinc) as Hf.
      fold x b1 in Hf. unfold le32 in Hf. rewrite slice_ok in Hf by lia. done.
  - exists (sl b1 1024 0x3fc). rewrite slice_header by lia. unfold b2 at 1. rewrite sl_splice_out by lia.
    split; [done|]. unfold le32. rewrite slice_header by lia.
    pose proof (from_le_bytes_put b1 (1024 + 0x3fc) sum ltac:(lia) ltac:(lia) (checksum_fits _ _)) as Hf.
    fold y b2 in Hf. unfold le32 in Hf. rewrite slice_ok in Hf by lia. done.
Qed.

(** * The superblock of the journal *)

Lemma sl_split b o n m :
  0 <= o -> 0 <= n -> 0 <= m -> o + (n + m) <= zlen b -> sl b o (n + m) = sl b o n ++ sl b (o + n) m.
Proof.
  intros. pose proof (length_sl b o n ltac:(lia) ltac:(lia) ltac:(lia)). apply list_eq. intros i. rewrite lookup_app.
  destruct (decide (i < Z.to_nat n)%nat) as [Hi|Hi].
  - rewrite !lookup_sl, !(proj2 (Nat.ltb_lt _ _)) by lia. destruct (b !! (Z.to_nat o + i)%nat) eqn:E; [done|].
    apply lookup_ge_None in E. lia.
  - rewrite (lookup_ge_None_2 (sl b o n)) by lia. rewrite !lookup_sl by lia.
    replace (i - length (sl b o n))%nat with (i - Z.to_nat n)%nat by lia.
    destruct (Nat.ltb_spec i (Z.to_nat (n + m))); destruct (Nat.ltb_spec (i - Z.to_nat n) (Z.to_nat m)); try lia; [|done].
    f_equal. lia.
Qed.

Definition with_log (f : Format) (seq st : Z) : Format :=
  mkFormat (max_len f) (first f) seq st (incompat f) (juuid f) (jseed f).

(** A journal superblock whose sequence and start were replaced. *)
Definition same_but_log (f : Format) (b b' : list Z) (seq st : Z) : Prop :=
  zlen b' = BS /\
  (forall off n, 0 <= off -> 0 <= n -> off + n <= 0x18 \/ (0x20 <= off /\ off + n <= 0xfc) -> slice b' off n = slice b off n) /\
  be32 b' 0x18 = Ok seq /\ be32 b' 0x1c = Ok st /\
  (has_checksums f = true -> exists head tail, slice b' 0 0xfc = Ok head /\ slice b' 0x100 (1024 - 0x100) = Ok tail /\
     be32 b' 0xfc = Ok (crc32c (crc32c (crc32c U32_MAX head) (zeros 4)) tail)).

Lemma length_be4 x : zlen (to_be_bytes 4 x) = 4.
Proof. by rewrite length_to_be_bytes. Qed.

Lemma journal_superblock_ok f b b' seq st :
  zlen b = BS -> 0 <= seq < 2 ^ 32 -> 0 <= st < 2 ^ 32 -> journal_superblock f b seq st = Ok b' ->
  same_but_log f b b' seq st.
Proof.
  intros Hl Hq Ht Hj. unfold journal_superblock in Hj.
  rewrite put_be32_ok in Hj by lia. cbn [mbind R_bind] in Hj.
  pose proof (length_be4 seq) as L1. pose proof (length_be4 st) as L2.
  set (b1 := splice b 0x18 (to_be_bytes 4 seq)) in *.
  assert (zlen b1 = BS) as Hb1 by (unfold b1; rewrite length_splice; lia).
  rewrite put_be32_ok in Hj by lia. cbn [mbind R_bind] in Hj. set (b2 := splice b1 0x1c (to_be_bytes 4 st)) in *.
  assert (zlen b2 = BS) as Hb2 by (unfold b2; rewrite length_splice; lia).
  assert (forall off n, 0 <= off -> 0 <= n -> off + n <= 0x18 \/ 0x20 <= off -> sl b2 off n = sl b off n) as Hsl.
  { intros. unfold b2, b1. by rewrite !sl_splice_out by (fold b1; lia). }
  assert (be32v b2 0x18 = seq) as Hseq.
  { unfold b2. rewrite be32v_splice_out by lia. apply be32v_splice_in; lia. }
  assert (be32v b2 0x1c = st) as Hst by (apply be32v_splice_in; lia).
  destruct (has_checksums f) eqn:Ec.
  - pose proof (length_zeros 4 ltac:(lia)) as Hz.
    unfold update_journal_superblock_checksum in Hj. rewrite put_ok in Hj by lia. cbn [mbind R_bind] in Hj. set (b3 := splice b2 0xfc (zeros 4)) in *.
    assert (zlen b3 = BS) as Hb3 by (unfold b3; rewrite length_splice; lia).
    rewrite slice_ok in Hj by lia. cbn [mbind R_bind] in Hj. set (sum := crc32c U32_MAX (sl b3 0 1024)) in *.
    assert (fits 32 sum) as Hsum by (apply crc32c_fits; done). pose proof (length_be4 sum) as L3.
    rewrite put_be32_ok in Hj by lia. injection Hj as <-. set (b4 := splice b3 0xfc (to_be_bytes 4 sum)).
    assert (zlen b4 = BS) as Hb4 by (unfold b4; rewrite length_splice; lia).
    assert (forall off n, 0 <= off -> 0 <= n -> off + n <= 0xfc \/ 0x100 <= off -> sl b4 off n = sl b2 off n) as Hsl4.
    { intros. unfold b4, b3. by rewrite !sl_splice_out by (fold b3; lia). }
    split_and!; [done| | | |].
    + intros off n Ho Hn Hd. destruct (decide (off + n <= BS)); [|lia].
      rewrite !slice_ok by lia. by rewrite Hsl4, Hsl by lia.
    + rewrite be32_ok by lia. f_equal. unfold be32v. rewrite Hsl4 by lia. exact Hseq.
    + rewrite be32_ok by lia. f_equal. unfold be32v. rewrite Hsl4 by lia. exact Hst.
    + intros _. exists (sl b4 0 0xfc), (sl b4 0x100 (1024 - 0x100)). rewrite !slice_ok by lia. split_and!; [done..|].
      rewrite be32_ok by lia. f_equal. unfold b4 at 1. rewrite be32v_splice_in by (done || lia). unfold sum.
      rewrite <- !crc32c_app. f_equal. replace 1024 with (0xfc + (4 + (1024 - 0x100))) by lia.
      rewrite !sl_split by lia. rewrite Hsl4 by lia. rewrite Hsl4 by lia.
      replace (sl b3 0 0xfc) with (sl b2 0 0xfc) by (unfold b3; by rewrite sl_splice_out by lia).
      replace (sl b3 (0 + 0xfc + 4) (1024 - 0x100)) with (sl b2 0x100 (1024 - 0x100)) by (unfold b3; by rewrite sl_splice_out by lia).
      replace (sl b3 (0 + 0xfc) 4) with (zeros 4) by (unfold b3; symmetry; apply (sl_splice_in b2 0xfc (zeros 4)); lia).
      done.
  - injection Hj as <-. split_and!; [done| | | |congruence].
    + intros off n Ho Hn Hd. destruct (decide (off + n <= BS)); [|lia]. rewrite !slice_ok by lia. by rewrite Hsl by lia.
    + rewrite be32_ok by lia. by f_equal.
    + rewrite be32_ok by lia. by f_equal.
Qed.

(** A log reads the same whatever its start is. *)
Lemma parse_tags_log f st b : parse_tags (with_log f (sequence f) st) b = parse_tags f b.
Proof.
  unfold parse_tags. change (sums_len (with_log f (sequence f) st)) with (sums_len f).
  generalize (zlen b - sums_len f) as e. generalize 12, false. intros cursor hv e. revert cursor hv.
  generalize (length b) as n. intros n. induction n as [|n IH]; intros cursor hv; [done|]. cbn [parse_tags_loop].
  change (tag_len (with_log f (sequence f) st)) with (tag_len f). change (csum_v3 (with_log f (sequence f) st)) with (csum_v3 f).
  change (is_64bit (with_log f (sequence f) st)) with (is_64bit f). change (juuid (with_log f (sequence f) st)) with (juuid f).
  repeat match goal with
  | |- mbind _ ?m = mbind _ ?m => destruct m; cbn [mbind R_bind]; [|done..]
  | |- (if ?c then _ else _) = _ => destruct c
  | |- (match ?p with pair _ _ => _ end) = _ => destruct p
  | |- mbind _ (parse_tags_loop _ _ _ _ _ _) = _ => rewrite IH
  end; done.
Qed.

(** What the format of a journal satisfies. *)
Definition format_wf (sb : Superblock) (sz : Z) (f : Format) : Prop :=
  4 <= max_len f < 2 ^ 32 /\ 0 < first f < max_len f /\ 0 <= sequence f < 2 ^ 32 /\
  (start f = 0 \/ first f <= start f < max_len f) /\ juuid f = uuid sb /\ max_len f <= sz / block_size sb /\
  fits 32 (jseed f) /\ zlen (juuid f) = 16.

Definition format_at (b : list Z) : Format :=
  mkFormat (be32v b 0x10) (be32v b 0x14) (be32v b 0x18) (be32v b 0x1c) (be32v b 0x28)
    (sl b 0x30 16) (crc32c U32_MAX (sl b 0x30 16)).

(** The checks on the features, on the layout and on the checksum. *)
Definition format_features (b : list Z) : bool :=
  let compat := be32v b 0x24 in
  let inc := be32v b 0x28 in
  has_flag compat COMPAT_CHECKSUM_V1 || has_flag compat (bnot 32 COMPAT_CHECKSUM_V1)
  || negb (be32v b 0x2c =? 0) || negb ((inc .& bnot 32 known_incompat) =? 0) || has_flag inc INCOMPAT_FAST_COMMIT
  || (has_flag inc INCOMPAT_CSUM_V2 && has_flag inc INCOMPAT_CSUM_V3)
  || (has_flag inc INCOMPAT_ASYNC_COMMIT && negb (has_flag inc (INCOMPAT_CSUM_V2 .| INCOMPAT_CSUM_V3))).

Definition format_layout (sb : Superblock) (sz : Z) (b : list Z) : bool :=
  negb (be32v b 0x0c =? block_size sb) || (be32v b 0x10 <? 4) || (sz / be32v b 0x0c <? be32v b 0x10)
  || (be32v b 0x14 =? 0) || (be32v b 0x10 <=? be32v b 0x14)
  || (negb (be32v b 0x1c =? 0) && ((be32v b 0x1c <? be32v b 0x14) || (be32v b 0x10 <=? be32v b 0x1c)))
  || negb (bool_decide (sl b 0x30 16 = uuid sb)).

Definition format_sum (b : list Z) : bool :=
  negb (has_checksums (format_at b))
  || ((from_le_bytes (sl b 0x50 1) =? 4)
      && (crc32c (crc32c (crc32c U32_MAX (sl b 0 0xfc)) (zeros 4)) (sl b 0x100 (1024 - 0x100)) =? be32v b 0xfc)).

Lemma parse_format_iff sb sz b f :
  zlen b = BS ->
  parse_format sb sz b = Ok f <->
  be32v b 0 = MAGIC /\ be32v b 4 = SUPERBLOCK_V2 /\ format_features b = false /\ format_layout sb sz b = false /\
  format_sum b = true /\ f = format_at b.
Proof.
  intros Hl. unfold parse_format, format_features, format_layout, format_sum.
  rewrite (be32_ok b 0), (be32_ok b 4), (be32_ok b 0x0c), (be32_ok b 0x10), (be32_ok b 0x14), (be32_ok b 0x18), (be32_ok b 0x1c),
    (be32_ok b 0x24), (be32_ok b 0x28), (be32_ok b 0x2c), (slice_ok b 0x30), (be32_ok b 0xfc), (slice_ok b 0 0xfc),
    (slice_ok b 0x100) by lia.
  unfold byte_at. rewrite (slice_ok b 0x50) by lia. cbn [mbind R_bind fmap R_fmap].
  change (mkFormat _ _ _ _ _ _ _) with (format_at b).
  destruct (Z.eqb_spec (be32v b 0) MAGIC); [|split; [discriminate|tauto]].
  destruct (Z.eqb_spec (be32v b 4) SUPERBLOCK_V2); cbn [negb orb]; [|split; [discriminate|tauto]].
  destruct (has_flag (be32v b 0x24) COMPAT_CHECKSUM_V1 || _ || _ || _ || _); cbn [orb]; [by split; [|intros (_&_&?&_)]|].
  destruct (has_flag (be32v b 0x28) INCOMPAT_CSUM_V2 && _); cbn [orb]; [by split; [|intros (_&_&?&_)]|].
  destruct (has_flag (be32v b 0x28) INCOMPAT_ASYNC_COMMIT && _); [by split; [|intros (_&_&?&_)]|].
  destruct (negb (be32v b 0x0c =? block_size sb) || _ || _ || _ || _ || _ || _); [by split; [|intros (_&_&_&?&_)]|].
  destruct (negb (has_checksums (format_at b))); cbn [orb].
  { split; [intros [= <-]; done|]. by intros (_&_&_&_&_&->). }
  destruct (from_le_bytes (sl b 0x50 1) =? 4); cbn [negb andb]; [|by split; [|intros (_&_&_&_&?&_)]].
  destruct (_ =? be32v b 0xfc); cbn [negb]; [|by split; [|intros (_&_&_&_&?&_)]].
  split; [intros [= <-]; done|]. by intros (_&_&_&_&_&->).
Qed.

Lemma parse_format_wf sb sz b f : zlen b = BS -> parse_format sb sz b = Ok f -> format_wf sb sz f.
Proof.
  intros Hl (_&_&_&Hy&_&->)%parse_format_iff; [|done].
  pose proof (be32v_range b 0x10). pose proof (be32v_range b 0x14). pose proof (be32v_range b 0x18). pose proof (be32v_range b 0x1c).
  unfold format_layout in Hy. destruct (bool_decide _) eqn:Eu in Hy; [|by rewrite orb_true_r in Hy].
  apply bool_decide_eq_true in Eu. unfold format_wf, format_at; cbn.
  split_and!; try lia; [done| |apply crc32c_fits; done|rewrite length_sl; lia].
  replace (block_size sb) with (be32v b 0x0c) by lia. lia.
Qed.

Lemma parse_format_log sb sz f b b' seq st :
  zlen b = BS -> parse_format sb sz b = Ok f -> same_but_log f b b' seq st ->
  (st = 0 \/ first f <= st < max_len f) -> parse_format sb sz b' = Ok (with_log f seq st).
Proof.
  intros Hl (Hm&Hk&Hf&Hy&Hsum&->)%parse_format_iff (Hl' & Hs & Hseq & Hst & Hck) Hrange; [|done].
  assert (forall off n, 0 <= off -> 0 <= n -> off + n <= 0x18 \/ (0x20 <= off /\ off + n <= 0xfc) -> sl b' off n = sl b off n) as Hsl.
  { intros off n Ho Hn Hd. specialize (Hs off n Ho Hn Hd). rewrite !slice_ok in Hs by lia. by apply Ok_inj in Hs. }
  assert (forall off, 0 <= off -> off + 4 <= 0x18 \/ (0x20 <= off /\ off + 4 <= 0xfc) -> be32v b' off = be32v b off) as H32.
  { intros. unfold be32v. by rewrite Hsl by lia. }
  rewrite be32_ok in Hseq, Hst by lia. apply Ok_inj in Hseq, Hst.
  assert (format_at b' = with_log (format_at b) seq st) as Hfmt.
  { unfold format_at, with_log; cbn. rewrite Hseq, Hst, !H32, Hsl by lia. done. }
  apply parse_format_iff; [done|]. rewrite Hfmt. split_and!; [by rewrite H32 by lia|by rewrite H32 by lia| | | |done].
  - unfold format_features in *. by rewrite !H32 by lia.
  - unfold format_layout in *. rewrite Hst, Hsl by lia. rewrite !H32 by lia. unfold format_at in Hrange; cbn in Hrange.
    destruct (bool_decide _); lia.
  - unfold format_sum in *. rewrite Hfmt. change (has_checksums (with_log _ _ _)) with (has_checksums (format_at b)).
    destruct (has_checksums (format_at b)) eqn:Ec; [cbn [negb orb] in *|done].
    destruct (Hck eq_refl) as (head & tail & Hh & Ht & He). rewrite slice_ok in Hh, Ht by lia.
    apply Ok_inj in Hh, Ht. subst. rewrite be32_ok in He by lia. apply Ok_inj in He.
    rewrite Hsl, He, Z.eqb_refl, andb_true_r by lia. lia.
Qed.

(** * Descriptor and commit blocks read back *)

(** Equal below [e]. *)
Definition agree (e : Z) (d d2 : list Z) : Prop :=
  forall off n, 0 <= off -> 0 <= n -> off + n <= e -> sl d2 off n = sl d off n.

Lemma agree_refl e d : agree e d d.
Proof. done. Qed.
Lemma agree_trans e a b c : agree e a b -> agree e b c -> agree e a c.
Proof. intros H1 H2 off n ???. by rewrite H2, H1. Qed.
Lemma agree_le e e' a b : e' <= e -> agree e a b -> agree e' a b.
Proof. intros Hl Ha off n ???. apply Ha; lia. Qed.
Lemma agree_splice d off src : 0 <= off -> off + zlen src <= zlen d -> agree off d (splice d off src).
Proof. intros ?? o n ???. apply sl_splice_out; lia. Qed.

Lemma tag_flags_spec index count escaped :
  let fl := tag_flags index count escaped in
  0 <= fl < 16 /\ (fl .& bnot 32 KNOWN_FLAGS) = 0 /\ has_flag fl FLAG_SAME_UUID = negb (index =? 0)%nat /\
  has_flag fl FLAG_ESCAPE = escaped /\ has_flag fl FLAG_LAST = (S index =? count)%nat /\ has_flag fl FLAG_DELETED = false.
Proof. cbv zeta. unfold tag_flags. destruct (index =? 0)%nat, escaped, (S index =? count)%nat; vm_compute; done. Qed.

(** The tag that describes a logged block. *)
Definition tag_of (f : Format) (count index : nat) (b : Z * (list Z * bool)) : Tag :=
  mkTag (fst b) (tag_flags index count (snd (snd b)))
    (if csum_v3 f then data_checksum f (sequence f) (fst (snd b)) else 0).

Fixpoint tags_of (f : Format) (count index : nat) (blocks : list (Z * (list Z * bool))) : list Tag :=
  match blocks with [] => [] | b :: blocks => tag_of f count index b :: tags_of f count (S index) blocks end.

(** Block numbers a tag of the format can hold. *)
Definition tag_holds (f : Format) (number : Z) : Prop :=
  0 <= number < 2 ^ 64 /\ (csum_v3 f = true \/ is_64bit f = true \/ number < 2 ^ 32).

Lemma join_split n : 0 <= n < 2 ^ 64 -> join 32 (u32 n) (u32 (n ≫ 32)) = n.
Proof.
  intros. unfold join. rewrite lor_shiftl by (lia || apply wrap_fits; lia). unfold wrap. rewrite Z.shiftr_div_pow2 by lia.
  rewrite (Z.mod_small (n / 2 ^ 32)) by (split; [apply Z.div_pos; lia|apply Z.div_lt_upper_bound; lia]).
  rewrite (Z.mul_comm (n / 2 ^ 32)). symmetry. apply Z.div_mod. lia.
Qed.

Lemma tag_len_range f : 8 <= tag_len f <= 16.
Proof. unfold tag_len. destruct (csum_v3 f), (is_64bit f); lia. Qed.

(** What a reader finds in a tag. *)
Definition tag_fields (f : Format) (d : list Z) (cursor number fl sum : Z) : Prop :=
  be32v d cursor = u32 number /\
  if csum_v3 f then be32v d (cursor + 4) = fl /\ be32v d (cursor + 8) = u32 (number ≫ 32) /\ be32v d (cursor + 12) = sum
  else be16v d (cursor + 6) = fl /\ be16v d (cursor + 4) = 0 /\ (is_64bit f = true -> be32v d (cursor + 8) = u32 (number ≫ 32)).

(** One field written: it reads back, and the rest is untouched. *)
Definition written (n : Z) (d d' : list Z) (off : Z) : Prop :=
  zlen d' = zlen d /\ forall o m, 0 <= o -> 0 <= m -> o + m <= off \/ off + n <= o -> sl d' o m = sl d o m.

Lemma splice_written d off src : 0 <= off -> off + zlen src <= zlen d -> written (zlen src) d (splice d off src) off.
Proof. intros. split; [by rewrite length_splice|]. intros. apply sl_splice_out; lia. Qed.

Lemma put_be32_written d off x :
  0 <= off -> off + 4 <= zlen d -> fits 32 x -> exists d', put_be32 d off x = Ok d' /\ written 4 d d' off /\ be32v d' off = x.
Proof.
  intros. exists (splice d off (to_be_bytes 4 x)). rewrite put_be32_ok by done. split; [done|]. split.
  - rewrite <- (length_be4 x). apply splice_written; rewrite ?length_be4; lia.
  - by apply be32v_splice_in.
Qed.

Lemma put_be16_written d off x :
  0 <= off -> off + 2 <= zlen d -> fits 16 x -> exists d', put_be16 d off x = Ok d' /\ written 2 d d' off /\ be16v d' off = x.
Proof.
  intros. assert (zlen (to_be_bytes 2 x) = 2) as Hl by by rewrite length_to_be_bytes.
  exists (splice d off (to_be_bytes 2 x)). rewrite put_be16_ok by done. split; [done|]. split.
  - rewrite <- Hl at 1. apply splice_written; lia.
  - by apply be16v_splice_in.
Qed.

(** Follows fields through later writes. *)
Ltac chase :=
  unfold be32v, be16v, agree in *; intros;
  repeat match goal with
  | Hw : written _ _ ?d _ |- context [sl ?d ?o ?n] => rewrite (proj2 Hw o n) by lia
  end; try done.

Lemma put_tag_ok f d cursor number fl data :
  fits 32 (jseed f) -> 0 <= cursor -> cursor + tag_len f <= zlen d -> 0 <= fl < 16 ->
  exists d', put_tag f d cursor number fl data = Ok d' /\ zlen d' = zlen d /\ agree cursor d d' /\
    tag_fields f d' cursor number fl (data_checksum f (sequence f) data).
Proof.
  intros Hseed Hc Hl Hfl. unfold put_tag, tag_fields, tag_len in *.
  assert (fits 32 (data_checksum f (sequence f) data)) as Hsum by (apply crc32c_fits, crc32c_fits; done).
  pose proof (wrap_fits 32 number ltac:(lia)) as Hlo. pose proof (wrap_fits 32 (number ≫ 32) ltac:(lia)) as Hhi.
  assert (u16 fl = fl) as -> by (apply wrap_small; unfold fits; lia).
  assert (fits 32 fl /\ fits 16 fl) as [Hf32 Hf16] by (unfold fits; lia).
  set (lo := u32 number) in *. set (hi := u32 (number ≫ 32)) in *. set (sum := data_checksum f (sequence f) data) in *.
  destruct (put_be32_written d cursor lo) as (d1 & -> & W1 & F1); [destruct (csum_v3 f), (is_64bit f); lia..|done|].
  pose proof (proj1 W1). cbn [mbind R_bind]. destruct (csum_v3 f).
  - destruct (put_be32_written d1 (cursor + 4) fl) as (d2 & -> & W2 & F2); [lia|lia|done|]. pose proof (proj1 W2). cbn [mbind R_bind].
    destruct (put_be32_written d2 (cursor + 8) hi) as (d3 & -> & W3 & F3); [lia|lia|done|]. pose proof (proj1 W3). cbn [mbind R_bind].
    destruct (put_be32_written d3 (cursor + 12) sum) as (d4 & -> & W4 & F4); [lia|lia|done|]. pose proof (proj1 W4).
    exists d4. split_and!; [done|lia|chase..].
  - destruct (put_be16_written d1 (cursor + 4) 0) as (d2 & -> & W2 & F2); [destruct (is_64bit f); lia..|done|]. pose proof (proj1 W2).
    cbn [mbind R_bind].
    destruct (put_be16_written d2 (cursor + 6) fl) as (d3 & -> & W3 & F3); [destruct (is_64bit f); lia..|done|]. pose proof (proj1 W3).
    cbn [mbind R_bind]. destruct (is_64bit f).
    + destruct (put_be32_written d3 (cursor + 8) hi) as (d4 & -> & W4 & F4); [lia|lia|done|]. pose proof (proj1 W4).
      exists d4. split_and!; [done|lia|chase..].
    + exists d3. split_and!; [done|lia|chase..].
Qed.

(** A reader of the tag at [cursor] goes on to [next]. *)
Lemma parse_tag f d e cursor number fl sum hv fuel :
  zlen d = BS -> e <= BS -> 0 <= cursor -> tag_holds f number -> tag_fields f d cursor number fl sum ->
  0 <= fl < 16 -> (fl .& bnot 32 KNOWN_FLAGS) = 0 ->
  (has_flag fl FLAG_SAME_UUID = true -> hv = true) ->
  (has_flag fl FLAG_SAME_UUID = false -> sl d (cursor + tag_len f) 16 = juuid f) ->
  let next := cursor + tag_len f + (if has_flag fl FLAG_SAME_UUID then 0 else 16) in
  next <= e ->
  parse_tags_loop (S fuel) f d e cursor hv =
    let tag := mkTag number fl (if csum_v3 f then sum else 0) in
    if has_flag fl FLAG_LAST then Ok [tag]
    else tags ← parse_tags_loop fuel f d e next true; Ok (tag :: tags).
Proof.
  intros Hd He Hc [Hn Hh] [Flo Ffl] Hfl Hk Hsame Huuid next Hnext. cbn [parse_tags_loop].
  pose proof (tag_len_range f) as Htl. assert (cursor + tag_len f <= e) by (unfold next in Hnext; destruct (has_flag fl FLAG_SAME_UUID); lia).
  rewrite (proj2 (Z.ltb_ge _ _)) by lia. rewrite (be32_ok d cursor) by lia. cbn [mbind R_bind]. rewrite Flo.
  assert ((if csum_v3 f then
             fl0 ← be32 d (cursor + 4); sum0 ← be32 d (cursor + 12); hi ← be32 d (cursor + 8); Ok (fl0, sum0, hi)
           else
             fl0 ← be16 d (cursor + 6); sum0 ← be16 d (cursor + 4);
             hi ← (if is_64bit f then be32 d (cursor + 8) else Ok 0); Ok (fl0, sum0, hi))
          = Ok (fl, (if csum_v3 f then sum else 0), if csum_v3 f || is_64bit f then u32 (number ≫ 32) else 0)) as ->.
  { unfold tag_len in *. destruct (csum_v3 f).
    - rewrite !be32_ok by lia. destruct Ffl as (-> & -> & ->). done.
    - rewrite !be16_ok by (destruct (is_64bit f); lia). destruct Ffl as (-> & -> & Hhi). cbn [mbind R_bind orb].
      destruct (is_64bit f); [|done]. rewrite be32_ok by lia. by rewrite Hhi. }
  cbn [mbind R_bind]. rewrite Hk. cbn [Z.eqb negb].
  assert (join 32 (u32 number) (if csum_v3 f || is_64bit f then u32 (number ≫ 32) else 0) = number) as ->.
  { destruct (csum_v3 f || is_64bit f) eqn:Eb; [by apply join_split|]. destruct Hh as [Hh|[Hh|Hh]]; [by rewrite Hh in Eb..| |].
    - by rewrite Hh, orb_true_r in Eb.
    - unfold join. rewrite wrap_small by (unfold fits; lia). by rewrite Z.shiftl_0_l, Z.lor_0_l. }
  unfold next in *. destruct (has_flag fl FLAG_SAME_UUID) eqn:Es; cbn [negb].
  - rewrite Hsame by done. cbn [negb mbind R_bind]. by rewrite Z.add_0_r.
  - rewrite (proj2 (Z.ltb_ge _ _)) by lia. rewrite slice_ok by lia. cbn [mbind R_bind]. rewrite Huuid by done.
    by rewrite bool_decide_true.
Qed.

Definition tags_size (f : Format) (index : nat) (n : nat) : Z := Z.of_nat n * tag_len f + (if (index =? 0)%nat then 16 else 0).

Lemma tag_fields_agree f d d2 cursor number fl sum e :
  0 <= cursor -> cursor + tag_len f <= e -> agree e d d2 -> tag_fields f d cursor number fl sum -> tag_fields f d2 cursor number fl sum.
Proof.
  intros Hc He Ha [H1 H2]. unfold tag_fields, tag_len, be32v, be16v in *. split.
  - rewrite Ha; [done|lia|lia|]. destruct (csum_v3 f), (is_64bit f); lia.
  - destruct (csum_v3 f); [by rewrite !Ha by lia|]. destruct H2 as (H2 & H3 & H4).
    rewrite !Ha by (destruct (is_64bit f); lia). split_and!; [done|done|]. intros H64. rewrite H64 in *. rewrite Ha by lia. by apply H4.
Qed.

Lemma put_tags_parse f count e blocks : forall index cursor d,
  fits 32 (jseed f) -> zlen (juuid f) = 16 -> zlen d = BS -> e <= BS -> blocks <> [] -> (index + length blocks)%nat = count ->
  0 <= cursor -> cursor + tags_size f index (length blocks) <= e -> Forall (fun b => tag_holds f (fst b)) blocks ->
  exists d', put_tags f count index blocks cursor d = Ok d' /\ zlen d' = BS /\ agree cursor d d' /\
    forall d2 fuel hv, zlen d2 = BS -> agree (cursor + tags_size f index (length blocks)) d' d2 -> (length blocks <= fuel)%nat ->
      (index <> 0%nat -> hv = true) ->
      parse_tags_loop fuel f d2 e cursor hv = Ok (tags_of f count index blocks).
Proof.
  induction blocks as [|[number [data escaped]] blocks IH]; intros index cursor d Hseed Hu Hd He Hne Hcnt Hc Hsz Hh; [done|].
  inversion Hh as [|? ? Hn Hh']; subst. cbn [put_tags fst] in *. pose proof (tag_len_range f) as Htl.
  unfold tags_size in *. cbn [length] in *.
  destruct (tag_flags_spec index (index + S (length blocks)) escaped) as (Hfl & Hk & Hsame & Hesc & Hlast & Hdel).
  set (fl := tag_flags _ _ _) in *.
  destruct (put_tag_ok f d cursor number fl data) as (d1 & -> & Hd1 & Ha1 & Hf1); [done|done|destruct (index =? 0)%nat; lia|done|].
  cbn [mbind R_bind].
  (* the uuid behind the first tag *)
  assert (exists d2, (if (index =? 0)%nat then d ← put d1 (cursor + tag_len f) (juuid f);
                        put_tags f (index + S (length blocks)) (S index) blocks (cursor + tag_len f + 16) d
                      else put_tags f (index + S (length blocks)) (S index) blocks (cursor + tag_len f) d1)
                     = put_tags f (index + S (length blocks)) (S index) blocks (cursor + tag_len f + if (index =? 0)%nat then 16 else 0) d2 /\
                     zlen d2 = BS /\ agree (cursor + tag_len f) d1 d2 /\
                     ((index =? 0)%nat = true -> sl d2 (cursor + tag_len f) 16 = juuid f)) as (d2 & -> & Hd2 & Ha2 & Hu2).
  { destruct (index =? 0)%nat.
    - exists (splice d1 (cursor + tag_len f) (juuid f)). rewrite put_ok by lia. split_and!; [done| | |].
      + rewrite length_splice; lia.
      + apply agree_splice; lia.
      + intros _. rewrite <- Hu at 1. apply sl_splice_in; lia.
    - exists d1. rewrite Z.add_0_r. split_and!; [done|lia|done|done]. }
  set (next := cursor + tag_len f + if (index =? 0)%nat then 16 else 0) in *.
  assert (exists d', put_tags f (index + S (length blocks)) (S index) blocks next d2 = Ok d' /\ zlen d' = BS /\ agree next d2 d' /\
    forall d3 fuel, zlen d3 = BS -> agree (next + Z.of_nat (length blocks) * tag_len f) d' d3 -> (length blocks <= fuel)%nat ->
      blocks = [] \/ parse_tags_loop fuel f d3 e next true = Ok (tags_of f (index + S (length blocks)) (S index) blocks))
    as (d' & -> & Hd' & Ha' & Hp').
  { destruct blocks as [|b blocks].
    - exists d2. split_and!; [done..|]. intros. by left.
    - destruct (IH (S index) next d2) as (d' & Hput & ? & ? & Hp); try done.
      + cbn [length]. lia.
      + unfold next. destruct (index =? 0)%nat; lia.
      + cbn [Nat.eqb] in *. unfold next. cbn [length] in *. destruct (index =? 0)%nat; lia.
      + exists d'. split_and!; [done..|]. intros. right. apply Hp; [done|cbn [Nat.eqb]; by rewrite Z.add_0_r|done|done]. }
  assert (cursor + tag_len f <= next) by (unfold next; destruct (index =? 0)%nat; lia).
  exists d'. split_and!; [done|done| |].
  - eapply agree_trans; [exact Ha1|]. eapply agree_trans; [eapply agree_le; [|exact Ha2]; lia|]. eapply agree_le; [|exact Ha']. lia.
  - intros d3 fuel hv Hd3 Ha3 Hfuel Hhv. destruct fuel as [|fuel]; [lia|].
    assert (agree next d' d3) as Hn3 by (eapply agree_le; [|exact Ha3]; unfold next; destruct (index =? 0)%nat; lia).
    assert (agree next d2 d3) as H23 by (eapply agree_trans; [exact Ha'|done]).
    rewrite (parse_tag f d3 e cursor number fl (data_checksum f (sequence f) data)); [|done|done|done|done| |done|done| | |].
    + rewrite Hlast. cbn [tags_of]. unfold tag_of; cbn [fst snd]. fold fl. destruct (Nat.eqb_spec (S index) (index + S (length blocks))) as [El|El].
      * by destruct blocks; [|cbn [length] in El; lia].
      * replace (cursor + tag_len f + (if has_flag fl FLAG_SAME_UUID then 0 else 16)) with next
          by (unfold next; rewrite Hsame; by destruct (index =? 0)%nat).
        destruct (Hp' d3 fuel) as [->| ->]; [done| |lia|cbn [length] in El; lia|done].
        eapply agree_le; [|exact Ha3]. unfold next. destruct (index =? 0)%nat; lia.
    + apply (tag_fields_agree f d1 d3 _ _ _ _ (cursor + tag_len f)); [done|lia| |done].
      eapply agree_trans; [exact Ha2|eapply agree_le; [|exact H23]]. lia.
    + rewrite Hsame. intros Hi. apply Hhv. by destruct (index =? 0)%nat eqn:Ei; [|apply Nat.eqb_neq in Ei].
    + rewrite Hsame. intros Hi. apply negb_false_iff in Hi. assert (next = cursor + tag_len f + 16) by (unfold next; by rewrite Hi). rewrite H23 by lia. by apply Hu2.
    + cbv zeta. rewrite Hsame. destruct (index =? 0)%nat; cbn [negb]; lia.
Qed.

(** A block of the log with its header. *)
Definition log_block (b : list Z) (kind seq : Z) : Prop :=
  zlen b = BS /\ be32v b 0 = MAGIC /\ be32v b 4 = kind /\ be32v b 8 = seq.

Lemma log_header_ok kind seq : fits 32 kind -> fits 32 seq -> exists b, log_header BS kind seq = Ok b /\ log_block b kind seq.
Proof.
  intros Hk Hs. unfold log_header, log_block. pose proof (length_zeros BS ltac:(lia)) as Hz. set (z := zeros BS) in *.
  destruct (put_be32_written z 0 MAGIC) as (d1 & -> & W1 & F1); [lia|lia|done|]. pose proof (proj1 W1). cbn [mbind R_bind].
  destruct (put_be32_written d1 4 kind) as (d2 & -> & W2 & F2); [lia|lia|done|]. pose proof (proj1 W2). cbn [mbind R_bind].
  destruct (put_be32_written d2 8 seq) as (d3 & -> & W3 & F3); [lia|lia|done|]. pose proof (proj1 W3).
  exists d3. split_and!; [done|lia|chase..].
Qed.

Lemma agree_log_block b b' kind seq : zlen b' = BS -> agree 12 b b' -> log_block b kind seq -> log_block b' kind seq.
Proof. intros Hl Ha (_ & H1 & H2 & H3). unfold log_block, be32v in *. by rewrite !Ha by lia. Qed.

(** A checksum put into a cleared field of [n] bytes is found right: the
    field counts as zeroes. *)
Lemma crc_field seed b off sum :
  0 <= off -> off + 4 <= zlen b -> sum = crc32c seed (splice b off (zeros 4)) ->
  crc32c (crc32c (crc32c seed (sl b 0 off)) (zeros 4)) (sl b (off + 4) (zlen b - (off + 4))) = sum.
Proof.
  intros Ho Hl ->. pose proof (length_zeros 4 ltac:(lia)) as Hz. set (b' := splice b off (zeros 4)).
  assert (zlen b' = zlen b) as Hb' by (unfold b'; by rewrite length_splice by lia).
  rewrite <- (sl_all b'), Hb'. replace (zlen b) with (off + (4 + (zlen b - (off + 4)))) at 2 by lia.
  rewrite !sl_split by lia. rewrite !crc32c_app. rewrite Z.add_0_l.
  replace (sl b' 0 off) with (sl b 0 off) by (unfold b'; by rewrite sl_splice_out by lia).
  replace (sl b' (off + 4) _) with (sl b (off + 4) (zlen b - (off + 4))) by (unfold b'; by rewrite sl_splice_out by lia).
  replace (sl b' off 4) with (zeros 4) by (unfold b'; symmetry; apply (sl_splice_in b off (zeros 4)); lia). done.
Qed.

Lemma sl_nil b off : sl b off 0 = [].
Proof. done. Qed.
Lemma crc32c_nil c : crc32c c [] = c.
Proof. done. Qed.

Lemma update_metadata_ok f d :
  zlen d = BS -> fits 32 (jseed f) ->
  exists d', update_metadata_checksum f d = Ok d' /\ zlen d' = BS /\ agree (BS - 4) d d' /\ verify_metadata_checksum f d' = Ok tt.
Proof.
  intros Hd Hs. unfold update_metadata_checksum, verify_metadata_checksum. rewrite Hd. change (BS - 4) with 4092.
  pose proof (length_zeros 4 ltac:(lia)) as Hz. rewrite put_ok by lia. cbn [mbind R_bind]. set (d1 := splice d 4092 (zeros 4)).
  assert (zlen d1 = BS) as Hd1 by (unfold d1; rewrite length_splice; lia).
  set (sum := crc32c (jseed f) d1). assert (fits 32 sum) as Hsum by by apply crc32c_fits.
  destruct (put_be32_written d1 4092 sum) as (d' & -> & W & F); [lia|lia|done|]. pose proof (proj1 W) as Hd'.
  assert (agree 4092 d d') as Ha.
  { intros o n ???. rewrite (proj2 W) by lia. unfold d1. by rewrite sl_splice_out by lia. }
  exists d'. rewrite Hd', Hd1. change (BS - 4) with 4092. split_and!; [done|done|done|]. destruct (negb (has_checksums f)); [done|].
  rewrite be32_ok by lia. cbn [mbind R_bind]. rewrite slice_ok by lia. cbn [mbind R_bind]. rewrite F, Ha by lia.
  pose proof (crc_field (jseed f) d 4092 sum ltac:(lia) ltac:(lia) eq_refl) as Hc. rewrite Hd in Hc.
  replace (BS - (4092 + 4)) with 0 in Hc by lia. rewrite sl_nil, crc32c_nil in Hc. by rewrite Hc, Z.eqb_refl.
Qed.

Lemma update_commit_ok f d :
  zlen d = BS -> fits 32 (jseed f) ->
  exists d', update_commit_checksum f d = Ok d' /\ zlen d' = BS /\ agree 16 d d' /\ verify_commit_checksum f d' = Ok tt.
Proof.
  intros Hd Hs. unfold update_commit_checksum, verify_commit_checksum.
  pose proof (length_zeros 4 ltac:(lia)) as Hz. rewrite put_ok by lia. cbn [mbind R_bind]. set (d1 := splice d 16 (zeros 4)).
  assert (zlen d1 = BS) as Hd1 by (unfold d1; rewrite length_splice; lia).
  set (sum := crc32c (jseed f) d1). assert (fits 32 sum) as Hsum by by apply crc32c_fits.
  destruct (put_be32_written d1 16 sum) as (d' & -> & W & F); [lia|lia|done|]. pose proof (proj1 W) as Hd'.
  assert (forall o n, 0 <= o -> 0 <= n -> o + n <= 16 \/ 20 <= o -> sl d' o n = sl d o n) as Ha.
  { intros o n ???. rewrite (proj2 W) by lia. unfold d1. by rewrite sl_splice_out by lia. }
  exists d'. split_and!; [done|lia|intros o n ???; apply Ha; lia|]. destruct (negb (has_checksums f)); [done|].
  rewrite be32_ok by lia. cbn [mbind R_bind]. rewrite slice_ok by lia. cbn [mbind R_bind]. rewrite slice_ok by lia. cbn [mbind R_bind].
  rewrite F, !Ha by lia.
  pose proof (crc_field (jseed f) d 16 sum ltac:(lia) ltac:(lia) eq_refl) as Hc. rewrite Hd', Hd1.
  rewrite Hd in Hc. change (16 + 4) with 20 in Hc. by rewrite Hc, Z.eqb_refl.
Qed.

Lemma descriptor_block_ok f blocks :
  fits 32 (jseed f) -> zlen (juuid f) = 16 -> fits 32 (sequence f) -> blocks <> [] ->
  zlen blocks * tag_len f + 16 + 12 <= BS - sums_len f -> Forall (fun b => tag_holds f (fst b)) blocks ->
  exists d, descriptor_block f BS blocks = Ok d /\ log_block d DESCRIPTOR (sequence f) /\
    verify_metadata_checksum f d = Ok tt /\ parse_tags f d = Ok (tags_of f (length blocks) 0 blocks).
Proof.
  intros Hseed Hu Hq Hne Hsz Hh. unfold descriptor_block, sums_len in *.
  destruct (log_header_ok DESCRIPTOR (sequence f)) as (d0 & -> & Hd0); [done|done|]. cbn [mbind R_bind]. pose proof (proj1 Hd0) as L0.
  pose proof (tag_len_range f).
  destruct (put_tags_parse f (length blocks) (BS - if has_checksums f then 4 else 0) blocks 0 12 d0) as (d1 & -> & L1 & A1 & P1);
    try done; unfold tags_size in *; cbn [Nat.eqb] in *; try (destruct (has_checksums f); lia).
  cbn [mbind R_bind].
  assert (length blocks <= 4096)%nat by (destruct (has_checksums f); nia).
  destruct (has_checksums f) eqn:Ec.
  - destruct (update_metadata_ok f d1) as (d2 & -> & L2 & A2 & V2); [done|done|]. exists d2. split_and!; [done| |done|].
    + eapply agree_log_block; [done| |exact Hd0]. eapply agree_trans; [exact A1|eapply agree_le; [|exact A2]]. lia.
    + unfold parse_tags, sums_len. rewrite Ec, L2. apply P1; [done| |lia|done].
      eapply agree_le; [|exact A2]. lia.
  - exists d1. split_and!; [done|by eapply agree_log_block|unfold verify_metadata_checksum; by rewrite Ec|].
    unfold parse_tags, sums_len. rewrite Ec, L1. apply P1; [done|done|lia|done].
Qed.

Lemma commit_block_ok f :
  fits 32 (jseed f) -> fits 32 (sequence f) ->
  exists c, commit_block f BS = Ok c /\ log_block c COMMIT (sequence f) /\ verify_commit_checksum f c = Ok tt.
Proof.
  intros Hseed Hq. unfold commit_block. destruct (log_header_ok COMMIT (sequence f)) as (c & -> & Hc); [done|done|]. cbn [mbind R_bind].
  destruct (has_checksums f) eqn:Ec.
  - destruct (update_commit_ok f c) as (c' & -> & L & A & V); [apply Hc|done|]. exists c'. split_and!; [done| |done].
    eapply agree_log_block; [done|eapply agree_le; [|exact A]; lia|done].
  - exists c. split_and!; [done|done|]. unfold verify_commit_checksum. by rewrite Ec.
Qed.

End Facts.
