(* ===== verification/JournalFacts.v ===== *)
(** Facts on the journal: the scan of a log that holds one transaction, the
    overlay a recovery builds, the phases a commit writes in and what its plan
    holds. *)

From Stdlib Require Import ZArith Lia Bool.
From stdpp Require Import base option list numbers.
From S2P Require Import Prelude Ext4 Journal JournalCodec.
Local Open Scope machine_scope.

(** Kept folded in the proofs. *)
#[local] Opaque crc32c block_of st_read zeros parse parse_tags descriptor_block commit_block journal_superblock
  set_recovery_flag load_inode map_file_block parse_format data_checksum.

Section JournalFacts.
Context `{Crc}.

(** * Escaping *)

Definition is_byte (x : Z) : Prop := 0 <= x < 256.

Lemma to_from_le_bytes l : Forall is_byte l -> to_le_bytes (length l) (from_le_bytes l) = l.
Proof.
  induction 1 as [|x l Hx _ IH]; [done|]. cbn [length to_le_bytes from_le_bytes]. unfold is_byte in Hx.
  rewrite (wrap_small 8 x) by (unfold fits; lia). f_equal.
  - unfold wrap. change (2 ^ 8) with 256. rewrite Z.mul_comm, Z.mod_add, Z.mod_small by lia. done.
  - replace ((x + 256 * from_le_bytes l) / 256) with (from_le_bytes l); [done|].
    rewrite Z.mul_comm, Z.div_add, Z.div_small by lia. lia.
Qed.

Lemma Forall_sl P b off n : Forall P b -> Forall P (sl b off n).
Proof. intros. unfold sl. by apply Forall_take, Forall_drop. Qed.

(** A block comes back from the log as it was. *)
Lemma escape_roundtrip bytes data esc :
  zlen bytes = BS -> Forall is_byte bytes -> escape_block bytes = Ok (data, esc) ->
  zlen data = BS /\ be32v data 0 <> MAGIC /\ (if esc then put data 0 (to_be_bytes 4 MAGIC) else Ok data) = Ok bytes.
Proof.
  intros Hl Hb He. unfold escape_block in He. rewrite be32_ok in He by lia. cbn [mbind R_bind] in He.
  destruct (Z.eqb_spec (be32v bytes 0) MAGIC) as [Hm|Hm].
  - pose proof (length_zeros 4 ltac:(lia)) as Hz. rewrite put_ok in He by lia. cbn [mbind R_bind] in He.
    apply Ok_inj in He. injection He as <- <-. pose proof (length_be4 MAGIC) as Hg.
    assert (zlen (splice bytes 0 (zeros 4)) = BS) as Hs by (rewrite length_splice; lia).
    split_and!; [done| |].
    + unfold be32v. pose proof (sl_splice_in bytes 0 (zeros 4) ltac:(lia) ltac:(lia)) as Hi. rewrite Hz in Hi. by rewrite Hi.
    + rewrite put_ok by lia. f_equal. apply list_eq. intros i. rewrite !lookup_splice by lia.
      rewrite length_to_be_bytes. replace (length (zeros 4)) with 4%nat by lia. destruct (decide (i < 4)%nat) as [Hi|Hi].
      * rewrite (proj2 (Nat.leb_le _ _)), (proj2 (Nat.ltb_lt _ _)) by lia. cbn [andb].
        assert (to_be_bytes 4 MAGIC = sl bytes 0 4) as ->.
        { unfold be32v, from_be_bytes in Hm. pose proof (length_sl bytes 0 4 ltac:(lia) ltac:(lia) ltac:(lia)) as Hl4.
          unfold to_be_bytes. rewrite <- Hm. pose proof (to_from_le_bytes (rev (sl bytes 0 4))) as Ht.
          rewrite List.length_rev in Ht. replace (length (sl bytes 0 4)) with 4%nat in Ht by lia. rewrite Ht; [apply List.rev_involutive|].
          apply List.Forall_rev, Forall_sl, Hb. }
        rewrite lookup_sl by lia. rewrite (proj2 (Nat.ltb_lt _ _)) by lia. f_equal. lia.
      * by rewrite (proj2 (Nat.ltb_ge _ _)), andb_false_r by lia.
  - apply Ok_inj in He. injection He as <- <-. done.
Qed.

(** * Reading a log *)

(** The blocks of the journal that matter: its superblock and the log. *)
Definition in_log (f : Format) (l : Z) : Prop := l = 0 \/ first f <= l < max_len f.

(** The journal file is found, and its blocks lie where [phys] tells. *)
Definition journal_at (sb : Superblock) (s : Storage) (journal : Inode) (f : Format) (phys : Z -> Z) : Prop :=
  load_inode (mkExt4 sb []) s (journal_inode sb) = Ok journal /\
  forall l, in_log f l -> map_file_block (mkExt4 sb []) s journal l = Ok (Some (phys l)).

Lemma journal_at_recover sb s journal f phys : journal_at sb s journal f phys -> journal_at (recover sb) s journal f phys.
Proof. intros [Hi Hm]. split; [by rewrite load_inode_recover|exact Hm]. Qed.

Section Log.
Context (sb : Superblock) (s : Storage) (journal : Inode) (f : Format) (phys : Z -> Z).
Context (Hbs : block_size sb = BS) (Hplain : plain_file journal) (Hsize : size journal <= U64_MAX).
Context (Hlen : blocks_count sb * BS <= st_len s) (Hlen64 : st_len s <= U64_MAX).
Context (Hat : journal_at sb s journal f phys) (Hphys : forall l, in_log f l -> 0 <= phys l < blocks_count sb).
Context (Hwf : format_wf sb (size journal) f).

Abbreviation fs := (mkExt4 sb []).

Lemma log_fits l : in_log f l -> 0 <= l /\ (l + 1) * BS <= size journal.
Proof.
  destruct Hwf as (Hml & Hfi & _ & _ & _ & Hmax & _). rewrite Hbs in Hmax. intros Hl.
  assert (max_len f * BS <= size journal) by (pose proof (Z.mul_div_le (size journal) BS); lia).
  unfold in_log in Hl. lia.
Qed.

Lemma read_log l : in_log f l -> read_journal_block fs s journal l = Ok (block_of s (phys l)).
Proof.
  intros Hl. destruct (log_fits l Hl). pose proof (Hphys l Hl).
  apply read_journal_block_ok; try done; try lia. by apply Hat.
Qed.

(** Blocks of the log in order, from [l] on. *)
Fixpoint log_holds (l : Z) (data : list (list Z)) : Prop :=
  match data with
  | [] => True
  | d :: data => block_of s (phys l) = d /\ log_holds (l + 1) data
  end.

Lemma advance_next l : first f <= l -> l + 1 < max_len f -> advance f l = l + 1.
Proof.
  intros. destruct Hwf as (Hml & Hfi & _). unfold advance. rewrite wrap_small by (unfold fits; lia).
  by rewrite (proj2 (Z.eqb_neq _ _)) by lia.
Qed.

(** A block and its logged form. *)
Definition logs (f : Format) (bytes : list Z) (e : list Z * bool) : Prop :=
  (if snd e then put (fst e) 0 (to_be_bytes 4 MAGIC) else Ok (fst e)) = Ok bytes.

Lemma tag_blocks_ok count blocks : forall index l v originals,
  (has_checksums f = true -> csum_v3 f = true) ->
  first f <= l -> l + zlen blocks < max_len f -> v + zlen blocks <= max_len f - first f ->
  log_holds l (map (fun b => fst (snd b)) blocks) ->
  Forall2 (logs f) originals (map snd blocks) ->
  tag_blocks fs s journal f (sequence f) (tags_of f count index blocks) l v =
    Ok (zip_with (mkLogged (sequence f)) (map fst blocks) originals, l + zlen blocks, v + zlen blocks).
Proof.
  induction blocks as [|[number [data esc]] blocks IH]; intros index l v originals Hv3 Hl Hml Hv Hh Ho.
  - inversion Ho; subst. cbn. by rewrite !Z.add_0_r.
  - cbn [map fst snd] in *. inversion Ho as [|o e os es Hlo Hos]; subst. destruct Hh as [Hd Hh].
    cbn [length] in *. cbn [tags_of tag_blocks]. rewrite (proj2 (Z.leb_gt _ _)) by lia.
    rewrite read_log by (right; lia). cbn [mbind R_bind]. rewrite Hd.
    destruct (tag_flags_spec index count esc) as (_ & _ & _ & Hesc & _ & Hdel).
    assert (verify_data_checksum f (sequence f) (tag_of f count index (number, (data, esc))) data = Ok tt) as ->.
    { unfold verify_data_checksum. destruct (has_checksums f) eqn:Ec; [|done]. cbn [negb]. unfold tag_of; cbn [t_checksum fst snd].
      rewrite Hv3 by done. by rewrite Z.eqb_refl. }
    cbn [mbind R_bind]. unfold tag_of; cbn [t_flags target fst snd]. rewrite Hesc, Hdel. unfold logs in Hlo; cbn [fst snd] in Hlo.
    replace (if esc then put data 0 (to_be_bytes 4 MAGIC) else Ok data) with (@Ok (list Z) o) by done. cbn [mbind R_bind].
    rewrite advance_next by lia. rewrite (IH (S index) (l + 1) (v + 1) os) by (done || lia). cbn [mbind R_bind zip_with].
    do 2 f_equal; [f_equal|]; lia.
Qed.

(** A block that ends the scan for [seq]. *)
Definition stale (b : list Z) (seq : Z) : Prop := be32v b 0 <> MAGIC \/ be32v b 8 <> seq.

Lemma scan_step_stale lg rv pb pr l seq v :
  in_log f l -> stale (block_of s (phys l)) seq ->
  scan_step fs s journal f (mkScan lg rv pb pr l seq v) = Ok (inr (mkScan lg rv pb pr l seq (v + 1))).
Proof.
  intros Hl Hs. unfold scan_step. rewrite read_log by done.
  pose proof (length_block_of s (phys l)) as Hb. set (bytes := block_of s (phys l)) in *. clearbody bytes.
  cbn [mbind R_bind]. rewrite (be32_ok bytes 0) by lia. rewrite (be32_ok bytes 8) by lia. cbn [mbind R_bind].
  by destruct Hs as [Hs|Hs]; rewrite (proj2 (Z.eqb_neq _ _) Hs), ?orb_true_r.
Qed.

Context (blocks : list (Z * (list Z * bool))) (originals : list (list Z)) (descriptor : list Z).
Context (Hstart : start f = first f) (Hv3 : has_checksums f = true -> csum_v3 f = true).
Context (Hfit : first f + zlen blocks + 1 < max_len f).
Context (Hdesc : block_of s (phys (first f)) = descriptor) (Hheader : log_block descriptor DESCRIPTOR (sequence f)).
Context (Hsum : verify_metadata_checksum f descriptor = Ok tt).
Context (Htags : parse_tags f descriptor = Ok (tags_of f (length blocks) 0 blocks)).
Context (Hdata : log_holds (first f + 1) (map (fun b => fst (snd b)) blocks)).
Context (Horig : Forall2 (logs f) originals (map snd blocks)).

Definition logged_blocks : list LoggedBlock := zip_with (mkLogged (sequence f)) (map fst blocks) originals.
Definition commit_logical : Z := first f + zlen blocks + 1.

Lemma scan_descriptor :
  scan_step fs s journal f (mkScan [] [] [] [] (start f) (sequence f) 0) =
    Ok (inl (mkScan [] [] logged_blocks [] commit_logical (sequence f) (zlen blocks + 1))).
Proof.
  destruct Hheader as (Hl & Hm & Hk & Hq). pose proof Hwf as (Hml & Hfi & _). unfold scan_step.
  rewrite Hstart, read_log by (right; lia). rewrite Hdesc. cbn [mbind R_bind]. rewrite !be32_ok by lia. cbn [mbind R_bind].
  rewrite Hm, Hq, Hk, !Z.eqb_refl. cbn [negb orb]. rewrite Hsum, Htags. cbn [mbind R_bind].
  rewrite advance_next by lia. rewrite (tag_blocks_ok _ _ 0 _ _ originals) by (done || lia). cbn [mbind R_bind app].
  unfold commit_logical. do 3 f_equal; lia.
Qed.

Lemma scan_uncommitted :
  stale (block_of s (phys commit_logical)) (sequence f) ->
  exists c, scan_log (Z.to_nat (max_len f - first f)) fs s journal f (mkScan [] [] [] [] (start f) (sequence f) 0) = Ok c /\
    logged c = [] /\ revokes c = [].
Proof.
  intros Hst. pose proof Hwf as (Hml & Hfi & _).
  destruct (Z.to_nat (max_len f - first f)) as [|[|n]] eqn:En; [lia..|].
  cbn [scan_log visited]. rewrite (proj2 (Z.ltb_lt _ _)) by lia. cbn [negb]. rewrite scan_descriptor. cbn [mbind R_bind visited].
  rewrite (proj2 (Z.ltb_lt _ _)) by lia. cbn [negb].
  rewrite scan_step_stale by (done || right; unfold commit_logical; lia). cbn [mbind R_bind]. by eexists; split_and!.
Qed.

Lemma scan_committed commit :
  block_of s (phys commit_logical) = commit -> log_block commit COMMIT (sequence f) -> verify_commit_checksum f commit = Ok tt ->
  sequence f + 1 < 2 ^ 32 ->
  (commit_logical + 1 < max_len f -> stale (block_of s (phys (commit_logical + 1))) (sequence f + 1)) ->
  exists c, scan_log (Z.to_nat (max_len f - first f)) fs s journal f (mkScan [] [] [] [] (start f) (sequence f) 0) = Ok c /\
    logged c = logged_blocks /\ revokes c = [].
Proof.
  intros Hc (Hcl & Hm & Hk & Hq) Hcs Hseq Hst. pose proof Hwf as (Hml & Hfi & Hsq & _). unfold commit_logical in *.
  destruct (Z.to_nat (max_len f - first f)) as [|[|n]] eqn:En; [lia..|].
  cbn [scan_log visited]. rewrite (proj2 (Z.ltb_lt _ _)) by lia. cbn [negb]. rewrite scan_descriptor. cbn [mbind R_bind visited].
  rewrite (proj2 (Z.ltb_lt _ _)) by lia. cbn [negb]. unfold commit_logical.
  unfold scan_step at 1. rewrite read_log by (right; lia). rewrite Hc. cbn [mbind R_bind]. rewrite !be32_ok by lia. cbn [mbind R_bind].
  rewrite Hm, Hq, Hk, !Z.eqb_refl. cbn [negb orb]. change (COMMIT =? DESCRIPTOR) with false. change (COMMIT =? REVOKE) with false.
  cbv iota. rewrite Hcs. cbn [mbind R_bind app]. rewrite wrap_small by (unfold fits; lia).
  destruct (decide (first f + zlen blocks + 1 + 1 < max_len f)) as [Hn|Hn].
  - rewrite advance_next by lia. destruct n as [|n]; [lia|]. cbn [scan_log visited]. rewrite (proj2 (Z.ltb_lt _ _)) by lia. cbn [negb].
    rewrite scan_step_stale by (first [by apply Hst|right; lia]). cbn [mbind R_bind]. by eexists; split_and!.
  - destruct n; cbn [scan_log visited]; rewrite (proj2 (Z.ltb_ge _ _)) by lia; by eexists; split_and!.
Qed.
End Log.

(** * The overlay of a recovery *)

Lemma get_app a b k : get (a ++ b) k = match get a k with Some v => Some v | None => get b k end.
Proof.
  induction a as [|[p x] a IH]; [done|]. cbn [app]. rewrite !get_cons, IH. by destruct (p =? k).
Qed.

Lemma get_replace o i t v0 v b :
  list_find (fun e => fst e = t) o = Some (i, (t, v0)) ->
  get (<[i := (t, v)]> o) b = if t =? b then Some v else get o b.
Proof.
  revert i. induction o as [|[p x] o IH]; intros i Hf; [done|]. cbn [list_find fst] in Hf.
  destruct (decide (p = t)) as [->|Hp].
  - injection Hf as <- <-. change (<[0%nat := (t, v)]> ((t, x) :: o)) with ((t, v) :: o). rewrite !get_cons. by destruct (t =? b).
  - destruct (list_find _ o) as [[j e]|] eqn:E; [|done]. cbn in Hf. injection Hf as <- ->.
    change (<[S j := (t, v)]> ((p, x) :: o)) with ((p, x) :: <[j := (t, v)]> o). rewrite !get_cons, (IH j) by done.
    destruct (Z.eqb_spec p b) as [->|]; [|done]. by rewrite (proj2 (Z.eqb_neq _ _)) by congruence.
Qed.

Lemma get_overlay_insert o t v b : get (overlay_insert o t v) b = if t =? b then Some v else get o b.
Proof.
  unfold overlay_insert. pose proof (binary_search_get t o) as Hs. destruct (binary_search t o) as [i|i].
  - destruct Hs as (v0 & _ & Hf). by eapply get_replace.
  - rewrite get_app, get_cons. assert (get o b = get (take i o ++ drop i o) b) as -> by (by rewrite take_drop). rewrite get_app.
    destruct (Z.eqb_spec t b) as [->|]; [|done].
    rewrite get_notin; [done|]. intros Hb. apply list_elem_of_fmap in Hb as [[p x] [-> Hx]].
    apply list_find_None in Hs. apply (proj1 (list.Forall_forall _ _) Hs (p, x)); [|done].
    rewrite <- (take_drop i o). apply elem_of_app. by left.
Qed.

Lemma full_overlay_insert o t v : full o -> zlen v = BS -> full (overlay_insert o t v).
Proof.
  intros Ho Hv. unfold overlay_insert. destruct (binary_search t o) as [i|i].
  - by apply Forall_insert.
  - apply list.Forall_app. split; [by apply Forall_take|]. constructor; [done|by apply Forall_drop].
Qed.

Lemma apply_logged_ok blocks seq ws : forall o,
  full ws -> full o -> Forall (fun w => fst w < blocks) ws -> NoDup (map fst ws) ->
  exists o', apply_logged blocks [] (zip_with (mkLogged seq) (map fst ws) (map snd ws)) o = Ok o' /\ full o' /\
    forall b, get o' b = match get ws b with Some v => Some v | None => get o b end.
Proof.
  induction ws as [|[t v] ws IH]; intros o Hf Ho Hb Hn; [by exists o|].
  inversion Hf as [|? ? Hv Hf']; subst. inversion Hb as [|? ? Ht Hb']; subst. cbn in Hn. apply list.NoDup_cons in Hn as [Hnt Hn].
  cbn [map fst snd zip_with apply_logged revoked existsb l_target l_bytes] in *. rewrite (proj2 (Z.leb_gt _ _)) by done.
  destruct (IH (overlay_insert o t v)) as (o' & -> & Hfo & Hg); try done; [by apply full_overlay_insert|].
  exists o'. split_and!; [done|done|]. intros b. rewrite Hg, get_cons, get_overlay_insert.
  destruct (Z.eqb_spec t b) as [->|]; [|done]. by rewrite get_notin.
Qed.

(** * Transactions *)

Definition writes (dirty : list DirtyBlock) : list (Z * list Z) := map (fun d => (d_number d, d_bytes d)) dirty.

(** Blocks the journal occupies. *)
Definition log_at (f : Format) (phys : Z -> Z) (b : Z) : Prop := exists l, in_log f l /\ b = phys l.

(** A device on which every block outside the journal and the superblock is
    old or written by the transaction. *)
Definition home_mix (s : Storage) (f : Format) (phys : Z -> Z) (dirty : list DirtyBlock) (s' : Storage) : Prop :=
  st_len s' = st_len s /\
  forall b, b <> 0 -> ~ log_at f phys b ->
    block_of s' b = block_of s b \/ get (writes dirty) b = Some (block_of s' b).

(** No block of the log passes for one of the next transaction: an older
    block has a smaller sequence number, but for the descriptor that a
    transaction never committed may have left. *)
Definition fresh (s : Storage) (f : Format) (phys : Z -> Z) : Prop :=
  forall l, first f <= l < max_len f -> be32v (block_of s (phys l)) 0 = MAGIC ->
    be32v (block_of s (phys l)) 8 < sequence f \/ (l = first f /\ be32v (block_of s (phys l)) 8 = sequence f).

(** What a commit relies on: the filesystem is mounted with its journal in a
    plain file apart from the blocks written, which stays where it is while
    they are; the blocks written are distinct, have numbers the journal can
    name, and keep the layout the superblock describes. *)
Record Transaction (s : Storage) (sb : Superblock) (journal : Inode) (f : Format) (phys : Z -> Z)
    (dirty : list DirtyBlock) : Prop := {
  t_mounted : load_superblock s = Ok sb;
  t_len : st_len s <= U64_MAX;
  t_has_journal : has_flag (feature_compat sb) COMPAT_HAS_JOURNAL = true;
  t_journal : forall s', home_mix s f phys dirty s' -> journal_at sb s' journal f phys;
  t_plain : plain_file journal;
  t_format : load_journal_format (mkExt4 sb []) s journal = Ok f;
  t_phys : forall l, in_log f l -> 0 < phys l < blocks_count sb;
  t_inj : forall l l', in_log f l -> in_log f l' -> phys l = phys l' -> l = l';
  t_apart : forall d, d ∈ dirty -> ~ log_at f phys (d_number d);
  t_distinct : NoDup (map d_number dirty);
  t_numbers : forall d, d ∈ dirty -> tag_holds f (d_number d) /\ Forall is_byte (d_bytes d);
  t_super : forall d, d ∈ dirty -> d_number d = 0 -> parse (sl (d_bytes d) 1024 1024) (st_len s) = Ok sb;
  t_fresh : fresh s f phys;
  t_sequence : sequence f + 1 < 2 ^ 32
}.

(** ** The writes of a commit, phase by phase *)

Definition phase (ws : list (Z * list Z)) : list Op := map (fun w => OpWrite (fst w) (snd w)) ws ++ [OpFlush].

Definition after_phases (wss : list (list (Z * list Z))) (s : Storage) : Storage :=
  foldl (fun s ws => write_all (at_offsets ws) s) s wss.

Definition writable (sb : Superblock) (ws : list (Z * list Z)) : Prop :=
  full ws /\ Forall (fun w => 0 <= fst w < blocks_count sb) ws.

Lemma run_writes sb s p ws :
  block_size sb = BS -> blocks_count sb * BS <= U64_MAX -> writable sb ws ->
  run_ops sb (mkDevice s p) (map (fun w => OpWrite (fst w) (snd w)) ws) = Ok (mkDevice s (p ++ at_offsets ws)).
Proof.
  intros Hbs Hu [Hf Hb]. revert p. induction ws as [|[b bytes] ws IH]; intros p; [by rewrite app_nil_r|].
  inversion Hf as [|? ? Hl Hf']; subst. inversion Hb as [|? ? Hr Hb']; subst. cbn [fst snd] in *.
  cbn [map run_ops run_op fst snd]. rewrite (proj2 (Z.leb_gt _ _)) by lia. rewrite Hbs, Hl, Z.eqb_refl. cbn [orb negb].
  rewrite checked_ok by lia. cbn [mbind R_bind durable pending]. rewrite IH by done. by rewrite <- app_assoc.
Qed.

Lemma run_ops_app sb d a b : run_ops sb d (a ++ b) = (d' ← run_ops sb d a; run_ops sb d' b).
Proof. revert d. induction a as [|o a IH]; intros d; [done|]. cbn [app run_ops]. destruct (run_op sb d o); [apply IH|done|done]. Qed.

Lemma run_phase sb s ws :
  block_size sb = BS -> blocks_count sb * BS <= U64_MAX -> writable sb ws ->
  run_ops sb (mkDevice s []) (phase ws) = Ok (mkDevice (write_all (at_offsets ws) s) []).
Proof. intros. unfold phase. by rewrite run_ops_app, run_writes. Qed.

Lemma writable_take sb n ws : writable sb ws -> writable sb (take n ws).
Proof. intros [Hf Hb]. split; by apply Forall_take. Qed.

(** Where a run of the first [k] operations stops: in phase [j], with [i] of
    its writes issued. *)
Lemma run_phases sb : forall wss s k,
  block_size sb = BS -> blocks_count sb * BS <= U64_MAX -> Forall (writable sb) wss ->
  exists j i, run_ops sb (mkDevice s []) (take k (flat_map phase wss)) =
      Ok (mkDevice (after_phases (take j wss) s) (at_offsets (take i (wss !!! j)))) /\
    (j <= length wss)%nat /\ (i <= length (wss !!! j))%nat /\
    Nat.min k (length (flat_map phase wss)) = (length (flat_map phase (take j wss)) + i)%nat.
Proof.
  intros wss s k Hbs Hu. revert s k. induction wss as [|ws wss IH]; intros s k Hw.
  - exists 0%nat, 0%nat. cbn. rewrite take_nil. split_and!; [done|done|lia|lia].
  - inversion Hw as [|? ? Hws Hw']; subst. cbn [flat_map]. destruct (decide (k <= length ws)%nat) as [Hk|Hk].
    + exists 0%nat, k. cbn [take lookup_total list_lookup_total]. unfold phase at 1. rewrite take_app_le, take_app_le;
        [|rewrite ?length_app, length_map; cbn; lia..].
      rewrite <- fmap_take. rewrite run_writes by (done || by apply writable_take). split_and!; [done|lia|lia|].
      cbn. unfold phase. rewrite !length_app, length_map. cbn. lia.
    + destruct (IH (write_all (at_offsets ws) s) (k - S (length ws))%nat Hw') as (j & i & Hrun & Hj & Hi & Hn).
      exists (S j), i. change ((ws :: wss) !!! S j) with (wss !!! j). cbn [take after_phases foldl flat_map length].
      assert (length (phase ws) = S (length ws)) as Hp by (unfold phase; rewrite length_app, length_map; cbn; lia).
      rewrite take_app_ge by lia. rewrite Hp. rewrite run_ops_app, run_phase by done.
      cbn [mbind R_bind]. rewrite Hrun. split_and!; [done|lia|lia|].
      rewrite !length_app, Hp. lia.
Qed.

(** Every block of what a loss of power leaves is as before the phase or as
    one of the writes issued. *)
Lemma loss_image S ws i s' :
  full ws -> NoDup (map fst ws) -> after_power_loss (mkDevice S (at_offsets (take i ws))) s' ->
  st_len s' = st_len S /\
  forall b, block_of s' b = block_of S b \/ get (take i ws) b = Some (block_of s' b).
Proof.
  intros Hf Hn (kept & Hs & ->). cbn [pending durable] in *. apply sublist_at_offsets in Hs as (k & Hs & ->).
  assert (sublist k ws) as Hkw by (etrans; [exact Hs|apply sublist_take]).
  split; [apply write_all_len|]. intros b. rewrite block_of_write_all; [|by eapply sublist_full|by eapply sublist_NoDup_fst].
  destruct (get k b) as [v|] eqn:E; cbn; [right|by left].
  apply get_NoDup; [eapply sublist_NoDup_fst; [apply sublist_take|done]|].
  eapply elem_of_sublist; [by apply get_In|done].
Qed.

Lemma get_take ws i b v : NoDup (map fst ws) -> get (take i ws) b = Some v -> get ws b = Some v.
Proof.
  intros Hn Hg. apply get_NoDup; [done|]. apply get_In in Hg. eapply elem_of_sublist; [exact Hg|apply sublist_take].
Qed.

(** ** What the plan of a commit is *)

Lemma locate_log_spec sb s journal f phys dirty logicals : forall found r,
  journal_at sb s journal f phys -> Forall (fun l => 0 <= l < max_len f) logicals ->
  locate_log (mkExt4 sb []) s journal f dirty logicals found = Ok r ->
  r = found ++ map phys (filter (fun l => l = 0 \/ first f <= l) logicals).
Proof.
  induction logicals as [|l logicals IH]; intros found r Hat Hl Hr.
  - cbn in Hr. apply Ok_inj in Hr. by rewrite app_nil_r.
  - inversion Hl as [|? ? Hr0 Hl']; subst. cbn [locate_log] in Hr. rewrite filter_cons.
    destruct (negb (l =? 0) && (l <? first f)) eqn:E.
    + rewrite decide_False by lia. by apply IH.
    + rewrite decide_True by lia. rewrite (proj2 Hat l) in Hr by (unfold in_log; lia). cbn [ok_or mbind R_bind] in Hr.
      destruct (_ || _); [discriminate Hr|]. rewrite (IH _ _ Hat Hl' Hr). by rewrite <- app_assoc.
Qed.

Lemma filter_all (P : Z -> Prop) `{forall x, Decision (P x)} (l : list Z) : (forall x, x ∈ l -> P x) -> filter P l = l.
Proof.
  induction l as [|x l IH]; intros Hp; [done|]. rewrite filter_cons, decide_True by (apply Hp; left).
  f_equal. apply IH. intros y Hy. apply Hp. by right.
Qed.

Lemma filter_none (P : Z -> Prop) `{forall x, Decision (P x)} (l : list Z) : (forall x, x ∈ l -> ~ P x) -> filter P l = [].
Proof.
  induction l as [|x l IH]; intros Hp; [done|]. rewrite filter_cons, decide_False by (apply Hp; left).
  apply IH. intros y Hy. apply Hp. by right.
Qed.

Lemma filter_log first count :
  1 <= first -> 0 <= count ->
  filter (fun l => l = 0 \/ first <= l) (seqZ 0 (first + count)) = 0 :: seqZ first count.
Proof.
  intros. replace (first + count) with (1 + ((first - 1) + count)) by lia. rewrite seqZ_app by lia. rewrite (seqZ_app (0 + 1)) by lia.
  replace (0 + 1 + (first - 1)) with first by lia. rewrite !list.filter_app. change (seqZ 0 1) with [0].
  rewrite (filter_all _ [0]) by (intros x Hx%list_elem_of_singleton; lia).
  rewrite filter_none by (intros x Hx%elem_of_seqZ; lia). rewrite filter_all by (intros x Hx%elem_of_seqZ; lia). done.
Qed.

Lemma journal_data_spec sb f dirty data :
  block_size sb = BS -> (forall d, d ∈ dirty -> Forall is_byte (d_bytes d)) -> journal_data sb dirty = Ok data ->
  Forall (fun d => zlen (d_bytes d) = BS /\ d_number d < blocks_count sb) dirty /\
  Forall2 (logs f) (map d_bytes dirty) data /\
  Forall (fun e => zlen (fst e) = BS /\ be32v (fst e) 0 <> MAGIC) data.
Proof.
  intros Hbs. revert data. induction dirty as [|d dirty IH]; intros data Hb Hd; cbn [journal_data] in Hd.
  { apply Ok_inj in Hd. subst. done. }
  destruct (negb _ || _) eqn:E in Hd; [discriminate Hd|]. rewrite Hbs in E.
  destruct (escape_block (d_bytes d)) as [[x esc]| |] eqn:Ee; [|discriminate Hd..]. cbn [mbind R_bind] in Hd.
  destruct (journal_data sb dirty) as [rest| |] eqn:Er; [|discriminate Hd..]. cbn [mbind R_bind] in Hd. apply Ok_inj in Hd. subst.
  destruct (IH rest) as (H1 & H2 & H3); [intros; apply Hb; by right|done|].
  destruct (escape_roundtrip (d_bytes d) x esc) as (Hl & Hm & Hr); [lia|apply Hb; left|done|].
  split_and!; [constructor; [lia|done]|constructor; [exact Hr|done]|constructor; done].
Qed.

(** The blocks written in the five phases. *)
Section Phases.
Context (f : Format) (phys : Z -> Z) (dirty : list DirtyBlock).
Context (descriptor commit activation checkpoint final active clean : list Z) (data : list (list Z * bool)).

Definition W1 : list (Z * list Z) :=
  (phys (first f), descriptor) :: zip (map phys (seqZ (first f + 1) (zlen dirty))) (map fst data).
Definition W2 : list (Z * list Z) := [(0, activation); (phys 0, active)].
Definition W3 : list (Z * list Z) := [(phys (first f + zlen dirty + 1), commit)].
Definition W4 : list (Z * list Z) := map (fun d => (d_number d, if d_number d =? 0 then checkpoint else d_bytes d)) dirty.
Definition W5 : list (Z * list Z) := [(0, final); (phys 0, clean)].
Definition phases : list (list (Z * list Z)) := [W1; W2; W3; W4; W5].

Lemma commit_ops_phases :
  commit_ops 0 (phys 0) (phys (first f)) (phys (first f + zlen dirty + 1)) (map phys (seqZ (first f + 1) (zlen dirty)))
    descriptor commit activation checkpoint final active clean (map fst data) dirty = flat_map phase phases.
Proof.
  unfold commit_ops, phases, phase, W1, W2, W3, W4, W5. cbn [flat_map map fst snd app]. rewrite <- !app_assoc. cbn [app].
  assert (forall l k, zip_with OpWrite l k = map (fun w => OpWrite (fst w) (snd w)) (zip l k)) as ->.
  { induction l as [|x l IH]; intros [|y k]; [done..|]. cbn. by rewrite IH. }
  by rewrite List.map_map.
Qed.
End Phases.

(** The plan of a commit: what it read, what it prepared, what it writes. *)
Record Plan (s : Storage) (sb : Superblock) (journal : Inode) (f : Format) (phys : Z -> Z) (dirty : list DirtyBlock)
    (descriptor commit activation checkpoint active clean : list Z) (final : DirtyBlock) (data : list (list Z * bool))
    (ops : list Op) : Prop := {
  p_clean : needs_recovery sb = false;
  p_bs : block_size sb = BS;
  p_mode : (mode journal .& MODE_TYPE_MASK) = MODE_REGULAR;
  p_start : start f = 0;
  p_v3 : has_checksums f = true -> csum_v3 f = true;
  p_fit : first f + zlen dirty + 1 < max_len f;
  p_tags : zlen dirty * tag_len f + 16 + 12 <= BS - sums_len f;
  p_final : final ∈ dirty /\ d_number final = 0;
  p_activation : set_recovery_flag (block_of s 0) true = Ok activation;
  p_checkpoint : set_recovery_flag (d_bytes final) true = Ok checkpoint;
  p_data : journal_data sb dirty = Ok data;
  p_descriptor : descriptor_block f BS (zip (map d_number dirty) data) = Ok descriptor;
  p_commit : commit_block f BS = Ok commit;
  p_active : journal_superblock f (block_of s (phys 0)) (sequence f) (first f) = Ok active;
  p_idle : journal_superblock f active (sequence f + 1) 0 = Ok clean;
  p_ops : ops = flat_map phase (phases f phys dirty descriptor commit activation checkpoint (d_bytes final) active clean data)
}.

Lemma home_mix_refl s f phys dirty : home_mix s f phys dirty s.
Proof. split; [done|]. intros. by left. Qed.

(** What the superblock promises of the device. *)
Lemma mounted_wf s sb : load_superblock s = Ok sb -> sb_wf sb /\ blocks_count sb * block_size sb <= st_len s.
Proof.
  unfold load_superblock. intros Hl. pose proof (checked_read_safe s SUPERBLOCK_OFFSET SUPERBLOCK_SIZE ltac:(done) ltac:(done)) as Hc.
  destruct (checked_read _ _ _) as [b| |]; [|discriminate Hl..]. cbn [mbind R_bind] in Hl. destruct Hc as [_ Hc].
  pose proof (parse_safe b (st_len s) Hc) as Hp. by rewrite Hl in Hp.
Qed.

Lemma fs_wf_plain sb : sb_wf sb -> fs_wf (mkExt4 sb []).
Proof. intros. split; [done|constructor]. Qed.

Lemma format_facts s sb journal f phys dirty :
  Transaction s sb journal f phys dirty -> block_size sb = BS ->
  parse_format sb (size journal) (block_of s (phys 0)) = Ok f /\ format_wf sb (size journal) f /\ size journal <= U64_MAX.
Proof.
  intros T Hbs. destruct (mounted_wf s sb (t_mounted _ _ _ _ _ _ T)) as [Hsb Hdev]. pose proof (t_len _ _ _ _ _ _ T) as Hlen.
  pose proof (t_journal _ _ _ _ _ _ T s (home_mix_refl _ _ _ _)) as [Hi Hm].
  assert (0 <= journal_inode sb) as Hj by apply Hsb.
  pose proof (load_inode_safe (mkExt4 sb []) (fs_wf_plain _ Hsb) s (journal_inode sb) Hj) as Hsafe. rewrite Hi in Hsafe.
  destruct Hsafe as [Hino _].
  assert (in_log f 0) as H0 by by left. pose proof (t_phys _ _ _ _ _ _ T 0 H0) as Hp0.
  pose proof (t_format _ _ _ _ _ _ T) as Hf. unfold load_journal_format in Hf.
  destruct (read_journal_block _ s journal 0) as [b| |] eqn:Hr; [|discriminate Hf..]. cbn [mbind R_bind superblock] in Hf.
  assert (b = block_of s (phys 0)) as ->.
  { destruct (Z.lt_ge_cases (size journal) BS) as [Hs|Hs].
    - exfalso. revert Hr. unfold read_journal_block. cbn [superblock]. rewrite Hbs. cbn [mbind R_bind].
      change (checked (0 * BS)) with (@Ok Z 0). cbn [mbind R_bind].
      pose proof (read_inode_data_safe (mkExt4 sb []) (fs_wf_plain _ Hsb) s journal 0 BS Hino) as Hrd.
      destruct (read_inode_data _ s journal 0 BS) as [x| |]; [|discriminate..]. cbn [mbind R_bind safe] in *.
      rewrite (proj2 (Z.eqb_neq _ _)); [discriminate|]. rewrite Hrd; [lia|left; apply T|lia|lia].
    - rewrite (read_journal_block_ok sb s journal 0 (phys 0)) in Hr; try done; try lia; [by apply Ok_inj in Hr|apply T|apply Hino|by apply Hm]. }
  split_and!; [done|by eapply parse_format_wf; [apply length_block_of|]|apply Hino].
Qed.

Lemma log_physicals (phys : Z -> Z) fst_ (n : nat) physicals :
  physicals = map phys (0 :: seqZ fst_ (Z.of_nat n + 2)) ->
  physicals !!! 0%nat = phys 0 /\ physicals !!! 1%nat = phys fst_ /\
  List.last physicals 0 = phys (fst_ + Z.of_nat n + 1) /\ take n (drop 2 physicals) = map phys (seqZ (fst_ + 1) (Z.of_nat n)).
Proof.
  intros ->. replace (Z.of_nat n + 2) with (1 + (Z.of_nat n + 1)) by lia. rewrite seqZ_app by lia. rewrite seqZ_app by lia.
  change (seqZ fst_ 1) with [Z.of_nat 0 + fst_]. change (Z.of_nat 0 + fst_) with fst_.
  change (seqZ (fst_ + 1 + Z.of_nat n) 1) with [Z.of_nat 0 + (fst_ + 1 + Z.of_nat n)].
  replace (Z.of_nat 0 + (fst_ + 1 + Z.of_nat n)) with (fst_ + Z.of_nat n + 1) by lia.
  cbn [app map]. rewrite map_app. cbn [map]. split_and!; [done|done| |].
  - change (phys 0 :: phys fst_ :: ?l ++ [?x]) with ((phys 0 :: phys fst_ :: l) ++ [x]). apply List.last_last.
  - change (drop 2 (?a :: ?b :: ?l)) with l. rewrite take_app_le by (rewrite length_map, length_seqZ; lia). apply take_ge. rewrite length_map, length_seqZ. lia.
Qed.

Lemma usize_inv x y : usize x = Ok y -> y = x.
Proof. unfold usize. destruct (x <=? U32_MAX); [by intros [= <-]|discriminate]. Qed.

Lemma find_dirty_spec t dirty d : find_dirty t dirty = Some d -> d ∈ dirty /\ d_number d = t.
Proof.
  unfold find_dirty. destruct (list_find _ dirty) as [[i d']|] eqn:El; [|done]. intros [= <-].
  apply list_find_Some in El as (El & Enum & _). by apply list_elem_of_lookup_2 in El.
Qed.

Lemma commit_plan_inv s sb journal f phys dirty ops :
  Transaction s sb journal f phys dirty -> dirty <> [] -> commit_plan (mkExt4 sb []) s dirty = Ok ops ->
  exists descriptor commit activation checkpoint active clean final data,
    Plan s sb journal f phys dirty descriptor commit activation checkpoint active clean final data ops.
Proof.
  intros T Hne Hp. pose proof (t_journal _ _ _ _ _ _ T s (home_mix_refl _ _ _ _)) as Hat.
  pose proof (t_format _ _ _ _ _ _ T) as Hf. destruct (mounted_wf s sb (t_mounted _ _ _ _ _ _ T)) as [Hsb Hdev].
  unfold commit_plan in Hp. destruct dirty as [|d0 dirty0] eqn:Ed; [done|]. rewrite <- Ed in *. clear d0 dirty0 Ed.
  cbn [superblock overlay] in Hp. rewrite bool_decide_true in Hp by done. cbn [negb] in Hp. rewrite orb_false_r in Hp.
  parse_step Hp. rewrite orb_false_iff, negb_false_iff, Z.eqb_eq in E. destruct E as [Hclean Hbs]. rewrite Hbs in Hp, Hdev.
  destruct (format_facts s sb journal f phys dirty T Hbs) as (Hpf & Hwf & Hsz). pose proof Hwf as (Hml & Hfi & Hsq & _).
  pose proof (t_len _ _ _ _ _ _ T) as Hlen. pose proof (t_sequence _ _ _ _ _ _ T) as Hseq.
  assert (forall l, in_log f l -> 0 <= phys l < blocks_count sb) as Hph by (intros l Hl; pose proof (t_phys _ _ _ _ _ _ T l Hl); lia).
  rewrite (proj1 Hat) in Hp. cbn [mbind R_bind] in Hp. parse_step Hp. rewrite Hf in Hp. cbn [mbind R_bind] in Hp.
  do 3 parse_step Hp.
  destruct (usize (zlen dirty * tag_len f + 16 + 12)) as [tl| |] eqn:Etl; [|discriminate Hp..]. cbn [mbind R_bind] in Hp. apply usize_inv in Etl as ->.
  parse_step Hp. unfold superblock_target in Hp. rewrite Hbs in Hp. change (SUPERBLOCK_OFFSET / BS) with 0 in Hp.
  destruct (find_dirty 0 dirty) as [fd|] eqn:Efd; [|discriminate Hp]. cbn [ok_or mbind R_bind] in Hp.
  apply find_dirty_spec in Efd as [El Enum].
  rewrite read_fs_block_view in Hp; [|done|constructor|lia|pose proof (Hph 0 ltac:(by left)); lia|done].
  cbn [get list_find fmap option_fmap option_map default from_option id mbind R_bind] in Hp.
  do 5 parse_step Hp.
  rewrite (read_log sb s journal f phys Hbs (t_plain _ _ _ _ _ _ T) Hsz Hdev Hlen Hat Hph Hwf 0 (or_introl eq_refl)) in Hp.
  cbn [mbind R_bind] in Hp.
  parse_step Hp. rewrite wrap_small in Hp by (unfold fits; lia). parse_step Hp.
  destruct (locate_log _ _ _ _ _ _ _) as [physicals| |] eqn:Eloc; [|discriminate Hp..]. cbn [mbind R_bind] in Hp. parse_step Hp.
  apply (locate_log_spec sb s journal f phys) in Eloc; [|done|apply list.Forall_forall; intros x Hx%elem_of_seqZ; lia].
  replace (first f + zlen dirty + 1 + 1) with (first f + (zlen dirty + 2)) in Eloc by lia. rewrite filter_log in Eloc by lia.
  cbn [app] in Eloc. destruct (log_physicals phys (first f) (length dirty) _ Eloc) as (P0 & P1 & P2 & P3).
  rewrite P0, P1, P2, P3, commit_ops_phases in Hp. apply Ok_inj in Hp.
  exists a2, a3, a, a0, a4, a5, fd, a1. apply orb_false_iff in E0 as [E0 _]. apply orb_false_iff in E0 as [E0 Ev].
  apply negb_false_iff, Z.eqb_eq in E, E0.
  assert (has_checksums f = true -> csum_v3 f = true) as Hv by (intros Hc; rewrite Hc in Ev; by destruct (csum_v3 f)).
  assert (first f + zlen dirty + 1 < max_len f) as H1 by lia.
  assert (zlen dirty * tag_len f + 16 + 12 <= BS - sums_len f) as H2 by lia.
  exact (Build_Plan _ _ _ _ _ _ _ _ _ _ _ _ _ _ _ Hclean Hbs E E0 Hv H1 H2 (conj El Enum) E4 E5 E6 E7 E8 E9 E10 (eq_sym Hp)).
Qed.

End JournalFacts.
