(* ===== verification/JournalCrash.v ===== *)
(** The journal makes a transaction atomic: whatever a loss of power leaves
    of the writes of a commit, mounting shows the filesystem before the
    transaction or after it. *)

From Stdlib Require Import ZArith Lia Bool.
From stdpp Require Import base option list numbers.
From S2P Require Import Prelude Ext4 Journal JournalCodec JournalFacts.
Local Open Scope machine_scope.

(** Kept folded in the proofs. *)
#[local] Opaque crc32c block_of st_read zeros parse parse_tags descriptor_block commit_block journal_superblock
  set_recovery_flag load_inode map_file_block parse_format data_checksum.

Section Crash.
Context `{Crc}.

(** * Mounting what a loss of power leaves *)

Section Mounting.
Context (s : Storage) (sb : Superblock) (journal : Inode) (f : Format) (phys : Z -> Z) (dirty : list DirtyBlock).
Context (T : Transaction s sb journal f phys dirty) (Hbs : block_size sb = BS) (Hclean : needs_recovery sb = false).
Context (Hmode : (mode journal .& MODE_TYPE_MASK) = MODE_REGULAR).

Lemma device_facts :
  0 < blocks_count sb /\ blocks_count sb * BS <= st_len s /\ st_len s <= U64_MAX.
Proof.
  destruct (mounted_wf s sb (t_mounted _ _ _ _ _ _ T)) as [_ Hd]. rewrite Hbs in Hd.
  pose proof (t_phys _ _ _ _ _ _ T 0 ltac:(by left)). split_and!; [lia|done|apply T].
Qed.

Lemma load_superblock_view s' : st_len s' = st_len s -> load_superblock s' = parse (sl (block_of s' 0) 1024 1024) (st_len s).
Proof.
  intros Hl. pose proof device_facts as (Hb & Hd & Hu). unfold load_superblock. change SUPERBLOCK_OFFSET with 1024. change SUPERBLOCK_SIZE with 1024.
  rewrite checked_read_ok by lia. cbn [mbind R_bind]. rewrite Hl. by rewrite <- (st_read_sl s' 0 1024 1024) by lia.
Qed.

(** The superblock carries no flag: nothing is replayed. *)
Lemma mount_clean s' :
  st_len s' = st_len s -> parse (sl (block_of s' 0) 1024 1024) (st_len s) = Ok sb -> mount s' = Ok (mkExt4 sb []).
Proof. intros Hl Hp. unfold mount. rewrite load_superblock_view, Hp by done. cbn [mbind R_bind]. by rewrite Hclean. Qed.

Lemma needs_recovery_recover : needs_recovery (recover sb) = true.
Proof. apply has_flag_recovers. Qed.

Lemma home_journal s' : home_mix s f phys dirty s' -> journal_at (recover sb) s' journal f phys.
Proof. intros Hh. apply journal_at_recover. by apply (t_journal _ _ _ _ _ _ T). Qed.

Lemma read_home_log s' l : home_mix s f phys dirty s' -> in_log f l ->
  read_journal_block (mkExt4 (recover sb) []) s' journal l = Ok (block_of s' (phys l)).
Proof.
  intros Hh Hl. destruct (format_facts _ _ _ _ _ _ T Hbs) as (_ & Hwf & Hsz). pose proof device_facts as (Hb & Hd & Hu).
  apply (read_log (recover sb) s' journal f phys); try done.
  - apply T.
  - rewrite (proj1 Hh). exact Hd.
  - by rewrite (proj1 Hh).
  - by apply home_journal.
  - intros k Hk. pose proof (t_phys _ _ _ _ _ _ T k Hk). cbn. lia.
Qed.

(** The superblock carries the flag: the journal decides. *)
Lemma mount_flagged s' g :
  home_mix s f phys dirty s' -> parse (sl (block_of s' 0) 1024 1024) (st_len s) = Ok (recover sb) ->
  parse_format sb (size journal) (block_of s' (phys 0)) = Ok g ->
  mount s' =
    if start g =? 0 then Ok (mkExt4 (recover sb) []) else
    c ← scan_log (Z.to_nat (max_len g - first g)) (mkExt4 (recover sb) []) s' journal g
          (mkScan [] [] [] [] (start g) (sequence g) 0);
    o ← apply_logged (blocks_count sb) (revokes c) (logged c) [];
    Ok (mkExt4 (recover sb) o).
Proof.
  intros Hh Hp Hg. unfold mount. rewrite load_superblock_view by apply Hh. rewrite Hp. cbn [mbind R_bind].
  rewrite needs_recovery_recover. unfold replay_journal. cbn [superblock]. rewrite (proj1 (home_journal s' Hh)). cbn [mbind R_bind].
  rewrite Hmode, Z.eqb_refl. cbn [negb]. unfold load_journal_format. rewrite (read_home_log s' 0 Hh (or_introl eq_refl)).
  cbn [mbind R_bind superblock]. rewrite parse_format_recover, Hg. cbn [mbind R_bind]. by destruct (start g =? 0).
Qed.

(** ** With the descriptor and the data of the transaction in the log *)

Context (data : list (list Z * bool)) (descriptor commit : list Z).
Context (Hv3 : has_checksums f = true -> csum_v3 f = true) (Hfit : first f + zlen dirty + 1 < max_len f).
Context (Hne : dirty <> []) (Htag : zlen dirty * tag_len f + 16 + 12 <= BS - sums_len f).
Context (Hdata : journal_data sb dirty = Ok data).
Context (Hdesc : descriptor_block f BS (zip (map d_number dirty) data) = Ok descriptor).
Context (Hcommit : commit_block f BS = Ok commit).

Lemma dirty_facts :
  Forall (fun d => zlen (d_bytes d) = BS /\ d_number d < blocks_count sb) dirty /\
  Forall2 (logs f) (map d_bytes dirty) data /\
  Forall (fun e => zlen (fst e) = BS /\ be32v (fst e) 0 <> MAGIC) data /\ length data = length dirty.
Proof.
  destruct (journal_data_spec sb f dirty data Hbs) as (H1 & H2 & H3); [intros d Hd; by apply (t_numbers _ _ _ _ _ _ T)|done|].
  split_and!; [done..|]. apply Forall2_length in H2. by rewrite length_map in H2.
Qed.

Lemma zip_facts :
  let blocks := zip (map d_number dirty) data in
  map fst blocks = map d_number dirty /\ map snd blocks = data /\ map (fun b => fst (snd b)) blocks = map fst data /\
  length blocks = length dirty.
Proof.
  cbv zeta. destruct dirty_facts as (_ & _ & _ & Hl).
  assert (map snd (zip (map d_number dirty) data) = data) as Hs by (apply snd_zip; rewrite length_map; lia).
  split_and!; [apply fst_zip; rewrite length_map; lia|done| |].
  - rewrite <- Hs at 2. by rewrite List.map_map.
  - rewrite length_zip_with, length_map. lia.
Qed.

Lemma descriptor_facts :
  log_block descriptor DESCRIPTOR (sequence f) /\ verify_metadata_checksum f descriptor = Ok tt /\
  parse_tags f descriptor = Ok (tags_of f (length dirty) 0 (zip (map d_number dirty) data)).
Proof.
  destruct (format_facts _ _ _ _ _ _ T Hbs) as (_ & (_ & _ & Hsq & _ & _ & _ & Hseed & Hu) & _).
  destruct zip_facts as (Hz1 & _ & _ & Hz4).
  assert (zip (map d_number dirty) data <> []) as Hz by (intros Hn; rewrite Hn in Hz4; destruct dirty; [exact (Hne eq_refl)|discriminate Hz4]).
  destruct (descriptor_block_ok f (zip (map d_number dirty) data) Hseed Hu Hsq Hz) as (d & Hd & H1 & H2 & H3).
  - rewrite Hz4. exact Htag.
  - apply list.Forall_forall. intros b Hb. apply (list_elem_of_fmap_2 fst) in Hb. change (fst <$> ?l) with (map fst l) in Hb.
    rewrite Hz1 in Hb. apply list_elem_of_fmap in Hb as (x & -> & Hx). by apply (t_numbers _ _ _ _ _ _ T).
  - rewrite Hz4 in H3. assert (d = descriptor) as -> by (apply Ok_inj; rewrite <- Hd, <- Hdesc; reflexivity).
    exact (conj H1 (conj H2 H3)).
Qed.

Lemma commit_facts : log_block commit COMMIT (sequence f) /\ verify_commit_checksum f commit = Ok tt.
Proof.
  destruct (format_facts _ _ _ _ _ _ T Hbs) as (_ & (_ & _ & Hsq & _ & _ & _ & Hseed & Hu) & _).
  destruct (commit_block_ok f Hseed Hsq) as (c & Hc & H1 & H2).
  assert (c = commit) as -> by (apply Ok_inj; rewrite <- Hc, <- Hcommit; reflexivity). exact (conj H1 H2).
Qed.

(** What the mounts below find on the device. *)
Definition log_written (s' : Storage) : Prop :=
  home_mix s f phys dirty s' /\ parse (sl (block_of s' 0) 1024 1024) (st_len s) = Ok (recover sb) /\
  parse_format sb (size journal) (block_of s' (phys 0)) = Ok (with_log f (sequence f) (first f)) /\
  block_of s' (phys (first f)) = descriptor /\ log_holds s' phys (first f + 1) (map fst data).

Definition logging : Format := with_log f (sequence f) (first f).

Lemma tags_of_logging count : forall blocks index, tags_of logging count index blocks = tags_of f count index blocks.
Proof. induction blocks as [|b blocks IH]; intros index; [done|]. cbn [tags_of]. by rewrite IH. Qed.

Lemma scan_log_written s' :
  log_written s' ->
  let scan := scan_log (Z.to_nat (max_len f - first f)) (mkExt4 (recover sb) []) s' journal logging
    (mkScan [] [] [] [] (first f) (sequence f) 0) in
  (stale (block_of s' (phys (first f + zlen dirty + 1))) (sequence f) ->
   exists c, scan = Ok c /\ logged c = [] /\ revokes c = []) /\
  (block_of s' (phys (first f + zlen dirty + 1)) = commit ->
   (first f + zlen dirty + 2 < max_len f -> stale (block_of s' (phys (first f + zlen dirty + 2))) (sequence f + 1)) ->
   exists c, scan = Ok c /\ logged c = zip_with (mkLogged (sequence f)) (map d_number dirty) (map d_bytes dirty) /\ revokes c = []).
Proof.
  intros (Hh & _ & _ & Hde & Hda) scan. pose proof device_facts as (Hb & Hd & Hu).
  destruct (format_facts _ _ _ _ _ _ T Hbs) as (_ & Hwf & Hsz). destruct descriptor_facts as (D1 & D2 & D3).
  destruct zip_facts as (Z1 & Z2 & Z3 & Z4). destruct dirty_facts as (_ & Ho & _ & _).
  assert (format_wf (recover sb) (size journal) logging) as Hwf'.
  { destruct Hwf as (W1 & W2 & W3 & _ & W5). split_and!; try apply W1; try apply W2; try apply W3; [|apply W5..]. right. cbn. lia. }
  assert (forall l, in_log logging l -> 0 <= phys l < blocks_count (recover sb)) as Hph.
  { intros l Hl. pose proof (t_phys _ _ _ _ _ _ T l Hl). cbn. lia. }
  assert (blocks_count (recover sb) * BS <= st_len s') as Hlen by (rewrite (proj1 Hh); exact Hd).
  assert (st_len s' <= U64_MAX) as Hlen64 by (rewrite (proj1 Hh); exact Hu).
  assert (first logging + zlen (zip (map d_number dirty) data) + 1 < max_len logging) as Hfit' by (rewrite Z4; exact Hfit).
  assert (parse_tags logging descriptor =
    Ok (tags_of logging (length (zip (map d_number dirty) data)) 0 (zip (map d_number dirty) data))) as Htg.
  { unfold logging at 1. rewrite parse_tags_log, D3, Z4, tags_of_logging. reflexivity. }
  rewrite <- Z3 in Hda. rewrite <- Z2 in Ho.
  pose proof (scan_uncommitted (recover sb) s' journal logging phys Hbs (t_plain _ _ _ _ _ _ T) Hsz Hlen Hlen64
    (home_journal s' Hh) Hph Hwf' (zip (map d_number dirty) data) (map d_bytes dirty) descriptor eq_refl Hv3 Hfit' Hde D1 D2 Htg Hda Ho) as Hun.
  pose proof (scan_committed (recover sb) s' journal logging phys Hbs (t_plain _ _ _ _ _ _ T) Hsz Hlen Hlen64
    (home_journal s' Hh) Hph Hwf' (zip (map d_number dirty) data) (map d_bytes dirty) descriptor eq_refl Hv3 Hfit' Hde D1 D2 Htg Hda Ho commit) as Hco.
  unfold commit_logical in Hun, Hco. rewrite Z4 in Hun, Hco. cbn [first sequence start max_len logging with_log] in Hun, Hco.
  destruct commit_facts as [C1 C2]. split; [exact Hun|]. intros He Hst.
  destruct (Hco He C1 C2 (t_sequence _ _ _ _ _ _ T)) as (c & Hc & Hl & Hr).
  - replace (first f + zlen dirty + 1 + 1) with (first f + zlen dirty + 2) by lia. exact Hst.
  - exists c. unfold logged_blocks in Hl. rewrite Z1 in Hl. exact (conj Hc (conj Hl Hr)).
Qed.

Lemma start_logging : (start logging =? 0) = false.
Proof. destruct (format_facts _ _ _ _ _ _ T Hbs) as (_ & (_ & Hf & _) & _). cbn. lia. Qed.

Lemma mount_uncommitted s' :
  log_written s' -> stale (block_of s' (phys (first f + zlen dirty + 1))) (sequence f) -> mount s' = Ok (mkExt4 (recover sb) []).
Proof.
  intros Hw Hs. destruct (proj1 (scan_log_written s' Hw) Hs) as (c & Hc & Hl & Hr). destruct Hw as (Hh & Hp & Hg & _).
  rewrite (mount_flagged s' logging Hh Hp Hg), start_logging. change (start logging) with (first f). change (sequence logging) with (sequence f).
  change (max_len logging - first logging) with (max_len f - first f). rewrite Hc. cbn [mbind R_bind]. rewrite Hl, Hr. reflexivity.
Qed.

Lemma writes_facts : full (writes dirty) /\ NoDup (map fst (writes dirty)) /\ Forall (fun w => fst w < blocks_count sb) (writes dirty) /\
  map fst (writes dirty) = map d_number dirty /\ map snd (writes dirty) = map d_bytes dirty.
Proof.
  destruct dirty_facts as (Hf & _). assert (map fst (writes dirty) = map d_number dirty) as Hm by (unfold writes; by rewrite List.map_map).
  split_and!; [| | |done|unfold writes; by rewrite List.map_map].
  - apply list.Forall_forall. intros w (d & -> & Hd)%list_elem_of_fmap. by apply (proj1 (list.Forall_forall _ _) Hf d).
  - rewrite Hm. apply T.
  - apply list.Forall_forall. intros w (d & -> & Hd)%list_elem_of_fmap. by apply (proj1 (list.Forall_forall _ _) Hf d).
Qed.

Lemma mount_committed s' :
  log_written s' -> block_of s' (phys (first f + zlen dirty + 1)) = commit ->
  (first f + zlen dirty + 2 < max_len f -> stale (block_of s' (phys (first f + zlen dirty + 2))) (sequence f + 1)) ->
  exists o, mount s' = Ok (mkExt4 (recover sb) o) /\ full o /\ forall b, get o b = get (writes dirty) b.
Proof.
  intros Hw Hcm Hs. destruct (proj2 (scan_log_written s' Hw) Hcm Hs) as (c & Hc & Hl & Hr). destruct Hw as (Hh & Hp & Hg & _).
  destruct writes_facts as (Hf & Hn & Hb & Hm1 & Hm2).
  destruct (apply_logged_ok (blocks_count sb) (sequence f) (writes dirty) [] Hf (List.Forall_nil _) Hb Hn) as (o & Ho & Hfo & Hgo).
  exists o. split_and!; [|exact Hfo|].
  - rewrite (mount_flagged s' logging Hh Hp Hg), start_logging. change (start logging) with (first f). change (sequence logging) with (sequence f).
    change (max_len logging - first logging) with (max_len f - first f). rewrite Hc. cbn [mbind R_bind]. rewrite Hl, Hr, <- Hm1, <- Hm2, Ho. reflexivity.
  - intros b. rewrite Hgo. by destruct (get (writes dirty) b).
Qed.

End Mounting.

(** * The image after a loss of power *)

Lemma block_of_phases wss : forall s b,
  Forall (fun ws => full ws /\ NoDup (map fst ws)) wss ->
  block_of (after_phases wss s) b = foldl (fun v ws => default v (get ws b)) (block_of s b) wss.
Proof.
  induction wss as [|ws wss IH]; intros s b Hw; [done|]. inversion Hw as [|? ? [Hf Hn] Hw']; subst.
  cbn [after_phases foldl]. change (foldl _ ?x wss) with (after_phases wss x) at 1. rewrite IH by done. by rewrite block_of_write_all.
Qed.

Lemma after_phases_len wss : forall s, st_len (after_phases wss s) = st_len s.
Proof.
  induction wss as [|ws wss IH]; intros s; [done|].
  change (st_len (after_phases wss (write_all (at_offsets ws) s)) = st_len s). rewrite IH. apply write_all_len.
Qed.

Lemma log_holds_lookup s phys data : forall l,
  (forall i d, data !! i = Some d -> block_of s (phys (l + Z.of_nat i)) = d) -> log_holds s phys l data.
Proof.
  induction data as [|d data IH]; intros l Hi; [done|]. split.
  - rewrite <- (Z.add_0_r l). by apply (Hi 0%nat).
  - apply IH. intros i e He. replace (l + 1 + Z.of_nat i) with (l + Z.of_nat (S i)) by lia. by apply Hi.
Qed.

(** What a mounted filesystem shows: outside the journal its blocks are those
    of [img], but for the recovery flag the superblock may still carry. *)
Definition shows (sb : Superblock) (f : Format) (phys : Z -> Z) (fs : Ext4) (s : Storage) (img : Z -> list Z) : Prop :=
  (superblock fs = sb \/ superblock fs = recover sb) /\
  forall b, 0 <= b < blocks_count sb -> ~ log_at f phys b ->
    exists v, read_fs_block fs s b = Ok v /\ (v = img b \/ (b = 0 /\ set_recovery_flag (img 0) true = Ok v)).

(** The blocks once the transaction is made. *)
Definition new_image (s : Storage) (dirty : list DirtyBlock) (b : Z) : list Z :=
  default (block_of s b) (get (writes dirty) b).

Section Lost.
Context (s : Storage) (sb : Superblock) (journal : Inode) (f : Format) (phys : Z -> Z) (dirty : list DirtyBlock).
Context (descriptor commit activation checkpoint active clean : list Z) (final : DirtyBlock) (data : list (list Z * bool)).
Context (ops : list Op).
Context (T : Transaction s sb journal f phys dirty) (Hne : dirty <> []).
Context (P : Plan s sb journal f phys dirty descriptor commit activation checkpoint active clean final data ops).

Abbreviation n := (zlen dirty).
Abbreviation W1 := (W1 f phys dirty descriptor data).
Abbreviation W2 := (W2 phys activation active).
Abbreviation W3 := (W3 f phys dirty commit).
Abbreviation W4 := (W4 dirty checkpoint).
Abbreviation W5 := (W5 phys (d_bytes final) clean).

Lemma pl_bs : block_size sb = BS. Proof. apply P. Qed.
Lemma pl_fit : first f + n + 1 < max_len f. Proof. apply P. Qed.
Lemma pl_data : journal_data sb dirty = Ok data. Proof. apply P. Qed.
Lemma pl_tags : n * tag_len f + 16 + 12 <= BS - sums_len f. Proof. apply P. Qed.
Lemma pl_descriptor : descriptor_block f BS (zip (map d_number dirty) data) = Ok descriptor. Proof. apply P. Qed.
Lemma pl_commit : commit_block f BS = Ok commit. Proof. apply P. Qed.
Lemma pl_mode : (mode journal .& MODE_TYPE_MASK) = MODE_REGULAR. Proof. apply P. Qed.
Lemma pl_clean : needs_recovery sb = false. Proof. apply P. Qed.
Lemma pl_v3 : has_checksums f = true -> csum_v3 f = true. Proof. apply P. Qed.

Lemma phys_eq l l' : in_log f l -> in_log f l' -> l <> l' -> phys l <> phys l'.
Proof. intros Hl Hl' Hne' E. by apply Hne', (t_inj _ _ _ _ _ _ T). Qed.

Lemma log_range l : first f <= l < max_len f -> in_log f l.
Proof. by right. Qed.

Lemma first_pos : 0 < first f.
Proof. destruct (format_facts _ _ _ _ _ _ T pl_bs) as (_ & (_ & [Hf _] & _) & _). exact Hf. Qed.

(** ** What each phase writes *)

Lemma W1_keys : map fst W1 = map phys (seqZ (first f) (n + 1)).
Proof.
  destruct (dirty_facts _ _ _ _ _ _ T pl_bs data pl_data) as (_ & _ & _ & Hl).
  unfold JournalFacts.W1. cbn [map fst]. rewrite (fst_zip (map phys _)) by (rewrite !length_map, length_seqZ; lia).
  replace (n + 1) with (1 + n) by lia. rewrite seqZ_app by lia. cbn [app map]. change (seqZ (first f) 1) with [Z.of_nat 0 + first f].
  cbn [app map]. by rewrite Z.add_0_l.
Qed.

Lemma W1_facts : full W1 /\ NoDup (map fst W1).
Proof.
  destruct (dirty_facts _ _ _ _ _ _ T pl_bs data pl_data) as (_ & _ & Hz & Hl). split.
  - constructor.
    + exact (proj1 (proj1 (descriptor_facts s sb journal f phys dirty T pl_bs data descriptor pl_fit Hne pl_tags pl_data pl_descriptor))).
    + apply list.Forall_forall. intros [b v] Hb. apply list_elem_of_lookup_1 in Hb as [i Hi].
      apply lookup_zip_with_Some in Hi as (x & y & [= -> ->] & _ & Hy). apply list_lookup_fmap_Some in Hy as (d & -> & Hd).
      apply list_elem_of_lookup_2 in Hd. by apply (proj1 (list.Forall_forall _ _) Hz d).
  - rewrite W1_keys. apply (NoDup_fmap_2_strong phys); [|apply NoDup_seqZ].
    pose proof pl_fit. intros x y Hx%elem_of_seqZ Hy%elem_of_seqZ. apply (t_inj _ _ _ _ _ _ T); apply log_range; lia.
Qed.

Lemma get_W1_out b : (forall l, first f <= l <= first f + n -> b <> phys l) -> get W1 b = None.
Proof.
  intros Hb. apply get_notin. rewrite W1_keys. intros (l & -> & Hl%elem_of_seqZ)%list_elem_of_fmap. apply (Hb l); [lia|done].
Qed.

Lemma get_W1_descriptor : get W1 (phys (first f)) = Some descriptor.
Proof. unfold JournalFacts.W1. rewrite get_cons. by rewrite Z.eqb_refl. Qed.

Lemma get_W1_data i d : map fst data !! i = Some d -> get W1 (phys (first f + 1 + Z.of_nat i)) = Some d.
Proof.
  intros Hi. apply get_NoDup; [apply W1_facts|]. right. apply list_elem_of_lookup. exists i. apply lookup_zip_with_Some.
  exists (phys (first f + 1 + Z.of_nat i)), d. split_and!; [done| |done].
  destruct (dirty_facts _ _ _ _ _ _ T pl_bs data pl_data) as (_ & _ & _ & Hl). apply lookup_lt_Some in Hi. rewrite length_map in Hi.
  rewrite list_lookup_fmap, lookup_seqZ_lt by lia. done.
Qed.

Lemma get_W4 b : get W4 b = if b =? 0 then Some checkpoint else get (writes dirty) b.
Proof.
  destruct (p_final _ _ _ _ _ _ _ _ _ _ _ _ _ _ _ P) as [Hf0 Hf]. destruct (Z.eqb_spec b 0) as [->|Hb].
  - clear -Hf0 Hf. induction dirty as [|d ds IH]; [by apply not_elem_of_nil in Hf0|]. unfold JournalFacts.W4. cbn [map]. rewrite get_cons.
    destruct (Z.eqb_spec (d_number d) 0); [done|]. apply elem_of_cons in Hf0 as [->|Hf0]; [done|]. by apply IH.
  - clear -Hb. unfold JournalFacts.W4, writes. induction dirty as [|d ds IH]; [done|]. cbn [map]. rewrite !get_cons, IH.
    destruct (Z.eqb_spec (d_number d) b) as [->|]; [|done]. by rewrite (proj2 (Z.eqb_neq _ _) Hb).
Qed.

Lemma get_writes_log l : in_log f l -> get (writes dirty) (phys l) = None.
Proof.
  intros Hl. apply get_notin. intros ([b v] & Hb & (d & E & Hd)%list_elem_of_fmap)%list_elem_of_fmap. injection E as -> ->.
  apply (t_apart _ _ _ _ _ _ T d Hd). exists l. split; [done|]. symmetry. exact Hb.
Qed.

Lemma phys_pos l : in_log f l -> phys l <> 0.
Proof. intros Hl. pose proof (t_phys _ _ _ _ _ _ T l Hl). lia. Qed.

(** The table of the five phases, one row for each kind of block. *)
Definition row (b : Z) (w1 w2 w3 w4 w5 : option (list Z)) : Prop :=
  get W1 b = w1 /\ get W2 b = w2 /\ get W3 b = w3 /\ get W4 b = w4 /\ get W5 b = w5.

Ltac keys := unfold JournalFacts.W2, JournalFacts.W3, JournalFacts.W5; rewrite ?get_cons.

Lemma row_home b : b <> 0 -> ~ log_at f phys b -> row b None None None (get (writes dirty) b) None.
Proof.
  intros Hb Hl. assert (forall l, in_log f l -> (phys l =? b) = false) as Hne' by (intros l Hin; apply Z.eqb_neq; intros <-; apply Hl; by exists l).
  pose proof pl_fit. pose proof first_pos. split_and!.
  - apply get_W1_out. intros l Hr ->. apply Hl. exists l. split; [apply log_range; lia|done].
  - keys. rewrite (proj2 (Z.eqb_neq 0 b)), Hne' by (congruence || by left). done.
  - keys. rewrite Hne' by (apply log_range; lia). done.
  - rewrite get_W4. by rewrite (proj2 (Z.eqb_neq b 0)).
  - keys. rewrite (proj2 (Z.eqb_neq 0 b)), Hne' by (congruence || by left). done.
Qed.

Lemma row_super : row 0 None (Some activation) None (Some checkpoint) (Some (d_bytes final)).
Proof.
  pose proof pl_fit. pose proof first_pos. split_and!; [|by keys| |by rewrite get_W4|by keys].
  - apply get_W1_out. intros l Hl E. symmetry in E. revert E. apply phys_pos, log_range. lia.
  - keys. rewrite (proj2 (Z.eqb_neq _ _)) by (apply phys_pos, log_range; lia). done.
Qed.

Lemma row_journal : row (phys 0) None (Some active) None None (Some clean).
Proof.
  pose proof pl_fit. pose proof first_pos. assert (in_log f 0) as Hin0 by by left. pose proof (phys_pos 0 Hin0) as Hp. split_and!.
  - apply get_W1_out. intros l Hl. apply phys_eq; [done|apply log_range; lia|lia].
  - keys. rewrite (proj2 (Z.eqb_neq 0 _)) by done. by rewrite Z.eqb_refl.
  - keys. rewrite (proj2 (Z.eqb_neq _ _)); [done|]. apply phys_eq; [apply log_range; lia|done|lia].
  - rewrite get_W4, (proj2 (Z.eqb_neq _ _) Hp). by apply get_writes_log.
  - keys. rewrite (proj2 (Z.eqb_neq 0 _)) by done. by rewrite Z.eqb_refl.
Qed.

Lemma row_log l : first f <= l < max_len f ->
  row (phys l) (get W1 (phys l)) None (if l =? first f + n + 1 then Some commit else None) None None /\
  (first f + n < l -> get W1 (phys l) = None).
Proof.
  intros Hl. pose proof pl_fit. pose proof first_pos. assert (in_log f l) as Hin by by right. assert (in_log f 0) as Hin0 by by left.
  pose proof (phys_pos l Hin) as Hp. pose proof (phys_eq 0 l Hin0 Hin ltac:(lia)) as Hp0. split; [split_and!|].
  - done.
  - keys. by rewrite (proj2 (Z.eqb_neq 0 _)), (proj2 (Z.eqb_neq _ _) Hp0).
  - keys. destruct (Z.eqb_spec l (first f + n + 1)) as [->|Hc]; [by rewrite Z.eqb_refl|].
    rewrite (proj2 (Z.eqb_neq _ _)); [done|]. apply phys_eq; [apply log_range; lia|done|lia].
  - rewrite get_W4, (proj2 (Z.eqb_neq _ _) Hp). by apply get_writes_log.
  - keys. by rewrite (proj2 (Z.eqb_neq 0 _)), (proj2 (Z.eqb_neq _ _) Hp0).
  - intros Hg. apply get_W1_out. intros l' Hl'. apply phys_eq; [done|apply log_range; lia|lia].
Qed.

(** ** What the blocks written hold *)

Lemma journal_inode_pos : journal_inode sb <> 0.
Proof.
  intros E. pose proof (proj1 (t_journal _ _ _ _ _ _ T s (home_mix_refl _ _ _ _))) as Hi. rewrite E in Hi. discriminate Hi.
Qed.

Lemma parse_flagged b b' :
  zlen b = BS -> set_recovery_flag b true = Ok b' -> parse (sl b 1024 1024) (st_len s) = Ok sb ->
  zlen b' = BS /\ parse (sl b' 1024 1024) (st_len s) = Ok (recover sb).
Proof.
  intros Hl Hr Hp. destruct (set_recovery_flag_ok b b' Hl Hr) as [Hl' Hs]. split; [exact Hl'|].
  exact (parse_recover _ _ _ _ Hs Hp (t_has_journal _ _ _ _ _ _ T) journal_inode_pos).
Qed.

Lemma super_old : parse (sl (block_of s 0) 1024 1024) (st_len s) = Ok sb.
Proof. rewrite <- (load_superblock_view s sb journal f phys dirty T pl_bs s eq_refl). apply T. Qed.

Lemma super_final : zlen (d_bytes final) = BS /\ parse (sl (d_bytes final) 1024 1024) (st_len s) = Ok sb.
Proof.
  destruct (p_final _ _ _ _ _ _ _ _ _ _ _ _ _ _ _ P) as [Hf Hn]. destruct (dirty_facts _ _ _ _ _ _ T pl_bs data pl_data) as (Hd & _).
  split; [exact (proj1 (proj1 (list.Forall_forall _ _) Hd final Hf))|exact (t_super _ _ _ _ _ _ T final Hf Hn)].
Qed.

Lemma super_activation : zlen activation = BS /\ parse (sl activation 1024 1024) (st_len s) = Ok (recover sb).
Proof. exact (parse_flagged _ _ (length_block_of s 0) (p_activation _ _ _ _ _ _ _ _ _ _ _ _ _ _ _ P) super_old). Qed.

Lemma super_checkpoint : zlen checkpoint = BS /\ parse (sl checkpoint 1024 1024) (st_len s) = Ok (recover sb).
Proof. exact (parse_flagged _ _ (proj1 super_final) (p_checkpoint _ _ _ _ _ _ _ _ _ _ _ _ _ _ _ P) (proj2 super_final)). Qed.

Lemma journal_active : zlen active = BS /\ parse_format sb (size journal) active = Ok (with_log f (sequence f) (first f)).
Proof.
  destruct (format_facts _ _ _ _ _ _ T pl_bs) as (Hp & (Hml & Hfi & Hsq & _) & _).
  assert (same_but_log f (block_of s (phys 0)) active (sequence f) (first f)) as Hs.
  { apply journal_superblock_ok; [apply length_block_of|lia|lia|apply P]. }
  split; [apply Hs|]. apply (parse_format_log sb (size journal) f (block_of s (phys 0))); [apply length_block_of|exact Hp|exact Hs|lia].
Qed.

Lemma journal_clean : zlen clean = BS /\ parse_format sb (size journal) clean = Ok (with_log f (sequence f + 1) 0).
Proof.
  destruct (format_facts _ _ _ _ _ _ T pl_bs) as (_ & (Hml & Hfi & Hsq & _) & _). pose proof (t_sequence _ _ _ _ _ _ T).
  destruct journal_active as [Hl Hp].
  assert (same_but_log f active clean (sequence f + 1) 0) as Hs.
  { apply journal_superblock_ok; [exact Hl|lia|lia|apply P]. }
  split; [apply Hs|]. apply (parse_format_log sb (size journal) (with_log f (sequence f) (first f)) active); [exact Hl|exact Hp|exact Hs|lia].
Qed.

Lemma in_dirty_facts d : d ∈ dirty -> zlen (d_bytes d) = BS /\ 0 <= d_number d < blocks_count sb.
Proof.
  intros Hd. destruct (dirty_facts _ _ _ _ _ _ T pl_bs data pl_data) as (Hf & _). destruct (proj1 (list.Forall_forall _ _) Hf d Hd) as [Hl Hb].
  destruct (t_numbers _ _ _ _ _ _ T d Hd) as [[Hr _] _]. lia.
Qed.

(** Every phase can be written, and its writes go to distinct blocks. *)
Lemma phases_ok : Forall (fun ws => writable sb ws /\ NoDup (map fst ws)) (phases f phys dirty descriptor commit activation checkpoint (d_bytes final) active clean data).
Proof.
  pose proof pl_fit. pose proof first_pos. pose proof (device_facts _ _ _ _ _ _ T pl_bs) as (Hb & _).
  assert (forall l, in_log f l -> 0 <= phys l < blocks_count sb) as Hph by (intros l Hl; pose proof (t_phys _ _ _ _ _ _ T l Hl); lia).
  assert (in_log f 0) as Hin0 by by left. pose proof (Hph 0 Hin0) as Hp0. pose proof (phys_pos 0 Hin0) as Hp.
  assert (NoDup [0; phys 0]) as Hnd.
  { constructor; [|apply NoDup_singleton]. intros E%list_elem_of_singleton. symmetry in E. exact (Hp E). }
  assert (forall a b, zlen a = BS -> zlen b = BS -> writable sb [(0, a); (phys 0, b)] /\ NoDup (map fst [(0, a); (phys 0, b)])) as H25.
  { intros a b Ha Hb'. split; [split|exact Hnd]; (constructor; [cbn; lia|constructor; [cbn; lia|constructor]]). }
  destruct W1_facts as [Hf1 Hn1]. destruct (commit_facts _ _ _ _ _ _ T pl_bs commit pl_commit) as [[Hcl _] _].
  constructor; [split; [split; [exact Hf1|]|exact Hn1]|]; [|constructor; [apply H25|constructor; [split|constructor; [split; [split|]|constructor; [apply H25|constructor]]]]].
  - apply list.Forall_forall. intros w Hw. apply (list_elem_of_fmap_2 fst) in Hw. change (fst <$> ?l) with (map fst l) in Hw.
    rewrite W1_keys in Hw. apply list_elem_of_fmap in Hw as (l & -> & Hl%elem_of_seqZ). apply Hph, log_range. lia.
  - apply super_activation.
  - apply journal_active.
  - split; (constructor; [|constructor]); [exact Hcl|]. apply Hph, log_range. lia.
  - apply NoDup_singleton.
  - apply list.Forall_forall. intros w (d & -> & Hd)%list_elem_of_fmap. cbn [snd]. pose proof (in_dirty_facts d Hd) as [Hl _].
    destruct (d_number d =? 0); [apply super_checkpoint|exact Hl].
  - apply list.Forall_forall. intros w (d & -> & Hd)%list_elem_of_fmap. exact (proj2 (in_dirty_facts d Hd)).
  - unfold JournalFacts.W4. rewrite List.map_map. exact (t_distinct _ _ _ _ _ _ T).
  - apply super_final.
  - apply journal_clean.
Qed.

(** ** What a loss of power leaves *)

(** In phase [j] every block is as the phases before left it, or as one of
    the [i] writes issued in it. *)
Definition lost (j i : nat) (s' : Storage) : Prop :=
  st_len s' = st_len s /\
  forall b, block_of s' b = foldl (fun v ws => default v (get ws b)) (block_of s b) (take j [W1; W2; W3; W4; W5]) \/
    get (take i ([W1; W2; W3; W4; W5] !!! j)) b = Some (block_of s' b).

Lemma phase_ok j : full ([W1; W2; W3; W4; W5] !!! j) /\ NoDup (map fst ([W1; W2; W3; W4; W5] !!! j)).
Proof.
  pose proof phases_ok as Hp. unfold phases in Hp. destruct (decide (j < 5)%nat) as [Hj|Hj].
  - destruct (lookup_lt_is_Some_2 [W1; W2; W3; W4; W5] j) as [ws Hws]; [cbn; lia|]. rewrite (list_lookup_total_correct _ _ _ Hws).
    destruct (Forall_lookup_1 _ _ _ _ Hp Hws) as [[Hf _] Hn]. exact (conj Hf Hn).
  - rewrite list_lookup_total_alt, lookup_ge_None_2 by (cbn; lia). split; constructor.
Qed.

Lemma power_loss j i s' :
  after_power_loss (mkDevice (after_phases (take j [W1; W2; W3; W4; W5]) s) (at_offsets (take i ([W1; W2; W3; W4; W5] !!! j)))) s' ->
  lost j i s'.
Proof.
  intros Ha. destruct (phase_ok j) as [Hf Hn]. destruct (loss_image _ _ _ _ Hf Hn Ha) as [Hl Hb].
  split; [by rewrite Hl, after_phases_len|]. intros b. rewrite <- block_of_phases; [exact (Hb b)|].
  apply Forall_take, (List.Forall_impl _) with (2 := phases_ok). intros ws [[Hfw _] Hnw]. exact (conj Hfw Hnw).
Qed.

(** A write that went through. *)
Lemma lost_get j i s' b : lost j i s' ->
  block_of s' b = foldl (fun v ws => default v (get ws b)) (block_of s b) (take j [W1; W2; W3; W4; W5]) \/
  get ([W1; W2; W3; W4; W5] !!! j) b = Some (block_of s' b).
Proof.
  intros [_ Hb]. destruct (Hb b) as [E|E]; [by left|]. right. apply get_take in E; [exact E|apply phase_ok].
Qed.

(** A block between two of the values it takes phase after phase. *)
Definition value (b : Z) (w1 w2 w3 w4 w5 : option (list Z)) (j : nat) : list Z :=
  foldl (fun v w => default v w) (block_of s b) (take j [w1; w2; w3; w4; w5]).

Lemma lost_row j i s' b w1 w2 w3 w4 w5 :
  row b w1 w2 w3 w4 w5 -> lost j i s' ->
  block_of s' b = value b w1 w2 w3 w4 w5 j \/ block_of s' b = value b w1 w2 w3 w4 w5 (S j).
Proof.
  intros (E1 & E2 & E3 & E4 & E5) Hl. unfold value.
  do 6 (destruct j as [|j]; [destruct (lost_get _ _ _ b Hl) as [E|E]; cbn [take foldl lookup_total list_lookup_total] in E |- *;
    rewrite ?E1, ?E2, ?E3, ?E4, ?E5 in E; [by left|right; first [by rewrite E|discriminate E]]|]).
  destruct (lost_get _ _ _ b Hl) as [E|E]; [left|discriminate E].
  cbn [take foldl] in E |- *. by rewrite E1, E2, E3, E4, E5 in E.
Qed.

Ltac lost_row Hr Hl := destruct (lost_row _ _ _ _ _ _ _ _ _ Hr Hl) as [?E|?E];
  cbn [value take foldl default from_option id] in *.

Lemma lost_home_mix j i s' : lost j i s' -> home_mix s f phys dirty s'.
Proof.
  intros Hl. split; [apply Hl|]. intros b Hb Hn. pose proof (row_home b Hb Hn) as Hr.
  assert (forall k, value b None None None (get (writes dirty) b) None k = block_of s b \/
    get (writes dirty) b = Some (value b None None None (get (writes dirty) b) None k)) as Hv.
  { intros k. unfold value. do 4 (destruct k as [|k]; [by left|]). cbn [take foldl].
    destruct (get (writes dirty) b) as [v|]; [right|left]; destruct k as [|[|k]]; reflexivity. }
  destruct (lost_row _ _ _ _ _ _ _ _ _ Hr Hl) as [->| ->]; apply Hv.
Qed.

(** Once a phase is over, what it wrote to the log stays. *)
Lemma lost_log j i s' : lost (S j) i s' ->
  block_of s' (phys (first f)) = descriptor /\ log_holds s' phys (first f + 1) (map fst data).
Proof.
  intros Hl. pose proof pl_fit. pose proof first_pos.
  assert (forall l d, first f <= l <= first f + n -> get W1 (phys l) = Some d -> block_of s' (phys l) = d) as Hd.
  { intros l d Hr Hg. destruct (row_log l ltac:(lia)) as [Hrow _]. rewrite Hg, (proj2 (Z.eqb_neq l _)) in Hrow by lia.
    assert (forall k, value (phys l) (Some d) None None None None (S k) = d) as Hv by (intros k; unfold value; by do 6 (destruct k as [|k]; [done|])).
    destruct (lost_row _ _ _ _ _ _ _ _ _ Hrow Hl) as [->| ->]; apply Hv. }
  split; [apply Hd; [lia|apply get_W1_descriptor]|]. apply log_holds_lookup. intros k d Hk.
  apply Hd; [|by apply get_W1_data]. apply lookup_lt_Some in Hk. rewrite length_map in Hk.
  destruct (dirty_facts _ _ _ _ _ _ T pl_bs data pl_data) as (_ & _ & _ & Hlen). lia.
Qed.

Lemma row_commit : row (phys (first f + n + 1)) None None (Some commit) None None.
Proof.
  pose proof pl_fit. pose proof first_pos. destruct (row_log (first f + n + 1) ltac:(lia)) as [Hr Hg].
  rewrite Hg, Z.eqb_refl in Hr by lia. exact Hr.
Qed.

Lemma lost_next j i s' : lost j i s' -> first f + n + 2 < max_len f ->
  stale (block_of s' (phys (first f + n + 2))) (sequence f + 1).
Proof.
  intros Hl Hr. pose proof first_pos. destruct (row_log (first f + n + 2) ltac:(lia)) as [Hrow Hg].
  rewrite Hg, (proj2 (Z.eqb_neq _ _)) in Hrow by lia.
  assert (forall k, value (phys (first f + n + 2)) None None None None None k = block_of s (phys (first f + n + 2))) as Hv
    by (intros k; unfold value; by do 6 (destruct k as [|k]; [done|])).
  assert (block_of s' (phys (first f + n + 2)) = block_of s (phys (first f + n + 2))) as ->
    by (destruct (lost_row _ _ _ _ _ _ _ _ _ Hrow Hl) as [->| ->]; apply Hv).
  destruct (Z.eq_dec (be32v (block_of s (phys (first f + n + 2))) 0) MAGIC) as [Hm|Hm]; [right|by left].
  pose proof (t_fresh _ _ _ _ _ _ T (first f + n + 2) ltac:(lia) Hm). lia.
Qed.

Lemma old_commit_stale : stale (block_of s (phys (first f + n + 1))) (sequence f).
Proof.
  pose proof pl_fit. pose proof first_pos.
  destruct (Z.eq_dec (be32v (block_of s (phys (first f + n + 1))) 0) MAGIC) as [Hm|Hm]; [right|by left].
  pose proof (t_fresh _ _ _ _ _ _ T (first f + n + 1) ltac:(lia) Hm). lia.
Qed.

(** ** The mounts *)

Lemma read_view sb' o s' b : sb' = sb \/ sb' = recover sb -> full o -> st_len s' = st_len s -> 0 <= b < blocks_count sb ->
  read_fs_block (mkExt4 sb' o) s' b = Ok (default (block_of s' b) (get o b)).
Proof.
  intros Hsb Ho Hlen Hb. pose proof (device_facts _ _ _ _ _ _ T pl_bs) as (_ & Hd & Hu).
  apply read_fs_block_view; [destruct Hsb as [->| ->]; exact pl_bs|exact Ho|lia|nia|lia].
Qed.

Lemma shows_plain sb' s' img : sb' = sb \/ sb' = recover sb -> st_len s' = st_len s ->
  (forall b, b <> 0 -> ~ log_at f phys b -> block_of s' b = img b) ->
  (block_of s' 0 = img 0 \/ set_recovery_flag (img 0) true = Ok (block_of s' 0)) ->
  shows sb f phys (mkExt4 sb' []) s' img.
Proof.
  intros Hsb Hlen Hh H0'. split; [exact Hsb|]. intros b Hb Hn. exists (block_of s' b). split.
  - rewrite (read_view sb' [] s' b Hsb (List.Forall_nil _) Hlen Hb). reflexivity.
  - destruct (Z.eq_dec b 0) as [->|Hz]; [|left; by apply Hh]. destruct H0' as [E|E]; [by left|right; by split].
Qed.

Lemma get_writes_super : get (writes dirty) 0 = Some (d_bytes final).
Proof.
  destruct (p_final _ _ _ _ _ _ _ _ _ _ _ _ _ _ _ P) as [Hf Hnum]. apply get_NoDup.
  - unfold writes. rewrite List.map_map. exact (t_distinct _ _ _ _ _ _ T).
  - apply list_elem_of_fmap. exists final. split; [by rewrite Hnum|exact Hf].
Qed.

Lemma shows_overlay o s' : full o -> (forall b, get o b = get (writes dirty) b) -> home_mix s f phys dirty s' ->
  shows sb f phys (mkExt4 (recover sb) o) s' (new_image s dirty).
Proof.
  intros Ho Hg [Hlen Hh]. split; [by right|]. intros b Hb Hn. exists (new_image s dirty b). split; [|by left].
  rewrite (read_view _ _ _ _ (or_intror eq_refl) Ho Hlen Hb). unfold new_image. rewrite Hg.
  destruct (get (writes dirty) b) as [v|] eqn:E; [reflexivity|]. cbn [default from_option id].
  destruct (Z.eq_dec b 0) as [->|Hz].
  - rewrite get_writes_super in E. discriminate E.
  - destruct (Hh b Hz Hn) as [->|E']; [reflexivity|]. rewrite E in E'. discriminate E'.
Qed.

Lemma mount_idle s' g : home_mix s f phys dirty s' -> parse (sl (block_of s' 0) 1024 1024) (st_len s) = Ok (recover sb) ->
  parse_format sb (size journal) (block_of s' (phys 0)) = Ok g -> start g = 0 -> mount s' = Ok (mkExt4 (recover sb) []).
Proof. intros Hh Hp Hg Hs. rewrite (mount_flagged _ _ _ _ _ _ T pl_bs pl_mode s' g Hh Hp Hg), Hs. reflexivity. Qed.

Lemma mount_before j i s' :
  lost j i s' -> (j <= 2)%nat -> block_of s' (phys (first f + n + 1)) = block_of s (phys (first f + n + 1)) ->
  exists fs, mount s' = Ok fs /\ shows sb f phys fs s' (block_of s).
Proof.
  intros Hl Hj Hc. pose proof (lost_home_mix _ _ _ Hl) as Hh. pose proof (proj1 Hl) as Hlen.
  assert (forall b, b <> 0 -> ~ log_at f phys b -> block_of s' b = block_of s b) as Hhome.
  { intros b Hb Hn. pose proof (row_home b Hb Hn) as Hr.
    by destruct j as [|[|[|j]]]; [..|lia]; destruct (lost_row _ _ _ _ _ _ _ _ _ Hr Hl) as [->| ->]. }
  assert (block_of s' 0 = block_of s 0 \/ (block_of s' 0 = activation /\ exists j', j = S j')) as Hsup.
  { destruct j as [|[|[|j]]]; [..|lia]; destruct (lost_row _ _ _ _ _ _ _ _ _ row_super Hl) as [->| ->]; eauto. }
  destruct Hsup as [E0|[E0 [j' ->]]].
  { exists (mkExt4 sb []). split; [|apply shows_plain; [by left|exact Hlen|exact Hhome|by left]].
    apply (mount_clean _ _ _ _ _ _ T pl_bs pl_clean s' Hlen). rewrite E0. exact super_old. }
  pose proof super_activation as [_ Hact]. rewrite <- E0 in Hact.
  exists (mkExt4 (recover sb) []). split; [|apply shows_plain; [by right|exact Hlen|exact Hhome|right; rewrite E0; apply P]].
  assert (block_of s' (phys 0) = block_of s (phys 0) \/ block_of s' (phys 0) = active) as [Ej|Ej].
  { destruct j' as [|[|j']]; [..|lia]; destruct (lost_row _ _ _ _ _ _ _ _ _ row_journal Hl) as [->| ->]; auto. }
  - apply (mount_idle s' f Hh Hact); [rewrite Ej; apply (format_facts _ _ _ _ _ _ T pl_bs)|apply P].
  - apply (mount_uncommitted s sb journal f phys dirty T pl_bs pl_mode data descriptor commit pl_v3 pl_fit Hne pl_tags pl_data pl_descriptor pl_commit).
    + destruct (lost_log _ _ _ Hl) as [Hd Hlg]. split_and!; [exact Hh..|exact Hact|rewrite Ej; apply journal_active|exact Hd|exact Hlg].
    + rewrite Hc. exact old_commit_stale.
Qed.

Lemma mount_logged j i s' sup :
  lost (S j) i s' -> block_of s' 0 = sup -> parse (sl sup 1024 1024) (st_len s) = Ok (recover sb) ->
  block_of s' (phys 0) = active -> block_of s' (phys (first f + n + 1)) = commit ->
  exists fs, mount s' = Ok fs /\ shows sb f phys fs s' (new_image s dirty).
Proof.
  intros Hl E0 Hsup Ej Hc. pose proof (lost_home_mix _ _ _ Hl) as Hh. rewrite <- E0 in Hsup.
  destruct (mount_committed s sb journal f phys dirty T pl_bs pl_mode data descriptor commit pl_v3 pl_fit Hne pl_tags pl_data
    pl_descriptor pl_commit s') as (o & Hm & Ho & Hg).
  - destruct (lost_log _ _ _ Hl) as [Hd Hlg]. split_and!; [exact Hh..|exact Hsup|rewrite Ej; apply journal_active|exact Hd|exact Hlg].
  - exact Hc.
  - intros Hr. exact (lost_next _ _ _ Hl Hr).
  - exists (mkExt4 (recover sb) o). split; [exact Hm|]. by apply shows_overlay.
Qed.

(** In the last phase every block is home. *)
Lemma home_done j i s' b : lost (S (S (S (S j)))) i s' -> b <> 0 -> ~ log_at f phys b -> block_of s' b = new_image s dirty b.
Proof.
  intros Hl Hb Hn. unfold new_image. pose proof (row_home b Hb Hn) as Hr.
  assert (forall k, value b None None None (get (writes dirty) b) None (S (S (S (S k)))) = default (block_of s b) (get (writes dirty) b)) as Hv
    by (intros k; unfold value; by do 2 (destruct k as [|k]; [done|])).
  destruct (lost_row _ _ _ _ _ _ _ _ _ Hr Hl) as [->| ->]; apply Hv.
Qed.

Lemma new_super : new_image s dirty 0 = d_bytes final.
Proof. unfold new_image. by rewrite get_writes_super. Qed.

Lemma mount_final j i s' : lost (S (S (S (S j)))) i s' -> block_of s' 0 = d_bytes final ->
  mount s' = Ok (mkExt4 sb []) /\ shows sb f phys (mkExt4 sb []) s' (new_image s dirty).
Proof.
  intros Hl E0. pose proof (proj1 Hl) as Hlen. split.
  - apply (mount_clean _ _ _ _ _ _ T pl_bs pl_clean s' Hlen). rewrite E0. apply super_final.
  - apply shows_plain; [by left|exact Hlen|intros b; by apply (home_done j i)|left; by rewrite new_super].
Qed.

Lemma mount_cleaned j i s' : lost (S (S (S (S j)))) i s' -> block_of s' 0 = checkpoint -> block_of s' (phys 0) = clean ->
  exists fs, mount s' = Ok fs /\ shows sb f phys fs s' (new_image s dirty).
Proof.
  intros Hl E0 Ej. pose proof (proj1 Hl) as Hlen. exists (mkExt4 (recover sb) []). split.
  - apply (mount_idle s' (with_log f (sequence f + 1) 0) (lost_home_mix _ _ _ Hl)); [rewrite E0; apply super_checkpoint|rewrite Ej; apply journal_clean|done].
  - apply shows_plain; [by right|exact Hlen|intros b; by apply (home_done j i)|right; rewrite new_super, E0; apply P].
Qed.

Lemma mount_after j i s' :
  lost j i s' -> (2 <= j)%nat -> block_of s' (phys (first f + n + 1)) = commit ->
  exists fs, mount s' = Ok fs /\ shows sb f phys fs s' (new_image s dirty).
Proof.
  intros Hl Hj Hc. do 2 (destruct j as [|j]; [lia|]). pose proof super_activation as [_ Hact]. pose proof super_checkpoint as [_ Hchk].
  destruct j as [|[|j]].
  - apply (mount_logged _ _ s' activation Hl); try assumption;
      [by destruct (lost_row _ _ _ _ _ _ _ _ _ row_super Hl) as [->| ->]|by destruct (lost_row _ _ _ _ _ _ _ _ _ row_journal Hl) as [->| ->]].
  - assert (block_of s' (phys 0) = active) as Ej by (by destruct (lost_row _ _ _ _ _ _ _ _ _ row_journal Hl) as [->| ->]).
    destruct (lost_row _ _ _ _ _ _ _ _ _ row_super Hl) as [E0|E0].
    + exact (mount_logged _ _ s' activation Hl E0 Hact Ej Hc).
    + exact (mount_logged _ _ s' checkpoint Hl E0 Hchk Ej Hc).
  - assert (block_of s' 0 = checkpoint \/ block_of s' 0 = d_bytes final) as [E0|E0].
    { destruct (lost_row _ _ _ _ _ _ _ _ _ row_super Hl) as [->| ->]; destruct j as [|[|j]]; auto. }
    + assert (block_of s' (phys 0) = active \/ block_of s' (phys 0) = clean) as [Ej|Ej].
      { destruct (lost_row _ _ _ _ _ _ _ _ _ row_journal Hl) as [->| ->]; destruct j as [|[|j]]; auto. }
      * exact (mount_logged _ _ s' checkpoint Hl E0 Hchk Ej Hc).
      * exact (mount_cleaned _ _ _ Hl E0 Ej).
    + destruct (mount_final _ _ _ Hl E0) as [Hm Hs]. exists (mkExt4 sb []). exact (conj Hm Hs).
Qed.

(** ** The run *)

Lemma lost_commit j i s' : lost j i s' ->
  let old := block_of s (phys (first f + n + 1)) in
  ((j <= 2)%nat /\ block_of s' (phys (first f + n + 1)) = old) \/
  ((j = 2 /\ 1 <= i \/ 3 <= j)%nat /\ block_of s' (phys (first f + n + 1)) = commit).
Proof.
  intros Hl. cbv zeta. destruct (decide (j = 2 /\ i = 0)%nat) as [[-> ->]|Hn].
  - left. split; [lia|]. destruct (proj2 Hl (phys (first f + n + 1))) as [E|E]; [|discriminate E].
    destruct row_commit as (R1 & R2 & _). cbn [take foldl] in E. by rewrite R1, R2 in E.
  - destruct j as [|[|[|j]]]; destruct (lost_row _ _ _ _ _ _ _ _ _ row_commit Hl) as [->| ->];
      try (left; split; [lia|reflexivity]); right; split; try lia; try reflexivity; by do 3 (destruct j as [|j]; [reflexivity|]).
Qed.

Lemma phases_length j : length (flat_map phase (take j [W1; W2; W3; W4; W5])) =
  match j with 0 => 0 | 1 => length dirty + 2 | 2 => length dirty + 5 | 3 => length dirty + 7
  | 4 => 2 * length dirty + 8 | _ => 2 * length dirty + 11 end%nat.
Proof.
  assert (length W1 = S (length dirty)) as H1.
  { rewrite <- (length_map fst), W1_keys, length_map, length_seqZ. lia. }
  assert (length W4 = length dirty) as H4 by (unfold JournalFacts.W4; by rewrite length_map).
  assert (forall ws, length (phase ws) = S (length ws)) as Hp by (intros; unfold phase; rewrite length_app, length_map; cbn; lia).
  do 5 (destruct j as [|j]; [cbn [take flat_map]; rewrite ?length_app, ?Hp, ?H1, ?H4; cbn [length JournalFacts.W2 JournalFacts.W3]; lia|]).
  cbn [take flat_map]. rewrite take_nil. rewrite ?length_app, ?Hp, ?H1, ?H4. cbn [length flat_map JournalFacts.W2 JournalFacts.W3 JournalFacts.W5]. lia.
Qed.

Lemma crash k : exists d, run_ops sb (mkDevice s []) (take k ops) = Ok d /\
  forall s', after_power_loss d s' -> exists fs, mount s' = Ok fs /\
    ((k <= length dirty + 6)%nat /\ shows sb f phys fs s' (block_of s) \/
     (length dirty + 6 <= k)%nat /\ shows sb f phys fs s' (new_image s dirty)).
Proof.
  pose proof (device_facts _ _ _ _ _ _ T pl_bs) as (_ & Hd & Hu). rewrite (p_ops _ _ _ _ _ _ _ _ _ _ _ _ _ _ _ P).
  destruct (run_phases sb [W1; W2; W3; W4; W5] s k pl_bs ltac:(lia)) as (j & i & Hrun & Hj & Hi & Hk).
  { apply (List.Forall_impl _) with (2 := phases_ok). intros ws [Hw _]. exact Hw. }
  eexists. split; [exact Hrun|]. intros s' Ha. apply power_loss in Ha. pose proof (phases_length 5) as Hlen. cbn [take] in Hlen.
  rewrite Hlen, phases_length in Hk. destruct (lost_commit _ _ _ Ha) as [[Hj2 Hc]|[Hj2 Hc]].
  - destruct (mount_before _ _ _ Ha Hj2 Hc) as (fs & Hm & Hs). exists fs. split; [exact Hm|]. left. split; [|exact Hs].
    pose proof (phases_length 1) as H1. destruct j as [|[|[|j]]]; cbn [lookup_total list_lookup_total length] in Hi; cbn [take flat_map app length] in H1;
      [|cbn in Hi; lia|cbn in Hi; lia|lia].
    rewrite app_nil_r in H1. unfold phase in H1. rewrite length_app, length_map in H1. cbn [length] in H1. lia.
  - destruct (mount_after _ _ _ Ha ltac:(lia) Hc) as (fs & Hm & Hs). exists fs. split; [exact Hm|]. right. split; [|exact Hs].
    do 2 (destruct j as [|j]; [lia|]). destruct j as [|[|[|[|j]]]]; lia.
Qed.

(** The next transaction finds no block of its own in the log. *)
Lemma fresh_again j i s' : lost (S (S (S j))) i s' -> fresh s' (with_log f (sequence f + 1) 0) phys.
Proof.
  intros Hl l Hr Hm. cbn [first max_len sequence with_log] in *. pose proof first_pos. left. pose proof pl_fit.
  destruct (lost_log _ _ _ Hl) as [Hd _].
  pose proof (descriptor_facts s sb journal f phys dirty T pl_bs data descriptor pl_fit Hne pl_tags pl_data pl_descriptor) as [(_ & _ & _ & Hdq) _].
  pose proof (commit_facts _ _ _ _ _ _ T pl_bs commit pl_commit) as [(_ & _ & _ & Hcq) _].
  destruct (lost_commit _ _ _ Hl) as [[Hx _]|[_ Hc]]; [lia|].
  destruct (Z.eq_dec l (first f)) as [->|Hlf]; [rewrite Hd, Hdq; lia|].
  destruct (Z.eq_dec l (first f + n + 1)) as [->|Hlc]; [rewrite Hc, Hcq; lia|].
  destruct (row_log l Hr) as [Hrow Hout]. rewrite (proj2 (Z.eqb_neq l _) Hlc) in Hrow.
  assert (forall w k, value (phys l) w None None None None (S k) = default (block_of s (phys l)) w) as Hv
    by (intros w k; unfold value; by do 5 (destruct k as [|k]; [done|])).
  assert (block_of s' (phys l) = default (block_of s (phys l)) (get W1 (phys l))) as Hb
    by (destruct (lost_row _ _ _ _ _ _ _ _ _ Hrow Hl) as [->| ->]; apply Hv).
  destruct (decide (first f + n < l)) as [Hg|Hg].
  - rewrite (Hout Hg) in Hb. cbn [default from_option id] in Hb. rewrite Hb in Hm |- *. pose proof (t_fresh _ _ _ _ _ _ T l Hr Hm). lia.
  - exfalso. destruct (dirty_facts _ _ _ _ _ _ T pl_bs data pl_data) as (_ & _ & Hz & Hlen).
    destruct (lookup_lt_is_Some_2 (map fst data) (Z.to_nat (l - first f - 1))) as [x Hx]; [rewrite length_map; lia|].
    pose proof (get_W1_data _ _ Hx) as Hg1. replace (first f + 1 + Z.of_nat (Z.to_nat (l - first f - 1))) with l in Hg1 by lia.
    rewrite Hg1 in Hb. cbn [default from_option id] in Hb. rewrite Hb in Hm. apply list_lookup_fmap_Some in Hx as (e & -> & He).
    apply list_elem_of_lookup_2 in He. destruct (proj1 (list.Forall_forall _ _) Hz e He) as [_ Hnm]. exact (Hnm Hm).
Qed.

Lemma run_all : exists s', run_ops sb (mkDevice s []) ops = Ok (mkDevice s' []) /\ lost 5 0 s' /\
  block_of s' 0 = d_bytes final /\ block_of s' (phys 0) = clean.
Proof.
  pose proof (device_facts _ _ _ _ _ _ T pl_bs) as (_ & Hd & Hu). rewrite (p_ops _ _ _ _ _ _ _ _ _ _ _ _ _ _ _ P).
  destruct (run_phases sb [W1; W2; W3; W4; W5] s (length (flat_map phase [W1; W2; W3; W4; W5])) pl_bs ltac:(lia)) as (j & i & Hrun & Hj & Hi & Hk).
  { apply (List.Forall_impl _) with (2 := phases_ok). intros ws [Hw _]. exact Hw. }
  rewrite take_ge in Hrun by lia. rewrite Nat.min_id in Hk. pose proof (phases_length 5) as Hlen. cbn [take] in Hlen.
  rewrite Hlen, phases_length in Hk.
  assert (j = 5 /\ i = 0)%nat as [-> ->].
  { pose proof (phases_length 1) as H1. cbn [take flat_map] in H1. rewrite app_nil_r in H1. unfold phase in H1.
    rewrite length_app, length_map in H1. cbn [length] in H1.
    assert (length W4 = length dirty) as H4 by (unfold JournalFacts.W4; by rewrite length_map).
    do 6 (destruct j as [|j]; [cbn [lookup_total list_lookup_total] in Hi; rewrite ?H4 in Hi; cbn [length JournalFacts.W2 JournalFacts.W3 JournalFacts.W5] in Hi; lia|]).
    cbn [length] in Hj. lia. }
  exists (after_phases [W1; W2; W3; W4; W5] s). split; [exact Hrun|].
  assert (lost 5 0 (after_phases [W1; W2; W3; W4; W5] s)) as Hl.
  { apply power_loss. exists []. split; [constructor|reflexivity]. }
  split_and!; [exact Hl..| |].
  - by destruct (lost_row _ _ _ _ _ _ _ _ _ row_super Hl) as [->| ->].
  - by destruct (lost_row _ _ _ _ _ _ _ _ _ row_journal Hl) as [->| ->].
Qed.

Lemma completes : exists s', run_ops sb (mkDevice s []) ops = Ok (mkDevice s' []) /\
  mount s' = Ok (mkExt4 sb []) /\ shows sb f phys (mkExt4 sb []) s' (new_image s dirty) /\
  load_journal_format (mkExt4 sb []) s' journal = Ok (with_log f (sequence f + 1) 0) /\
  fresh s' (with_log f (sequence f + 1) 0) phys.
Proof.
  destruct run_all as (s' & Hrun & Hl & E0 & Ej). exists s'. destruct (mount_final _ _ _ Hl E0) as [Hm Hs].
  split; [exact Hrun|]. split; [exact Hm|]. split; [exact Hs|]. split; [|exact (fresh_again 2 0 s' Hl)].
  destruct (format_facts _ _ _ _ _ _ T pl_bs) as (_ & Hwf & Hsz). pose proof (device_facts _ _ _ _ _ _ T pl_bs) as (_ & Hd & Hu).
  unfold load_journal_format. rewrite (read_log sb s' journal f phys pl_bs (t_plain _ _ _ _ _ _ T) Hsz).
  - cbn [mbind R_bind superblock]. rewrite Ej. apply journal_clean.
  - rewrite (proj1 Hl). exact Hd.
  - rewrite (proj1 Hl). exact Hu.
  - exact (t_journal _ _ _ _ _ _ T s' (lost_home_mix _ _ _ Hl)).
  - intros l Hin. pose proof (t_phys _ _ _ _ _ _ T l Hin). lia.
  - exact Hwf.
  - by left.
Qed.
End Lost.

(** C2: a commit is atomic.  The filesystem is mounted with its journal in a plain
    file apart from the blocks written; these are whole, distinct, keep the
    superblock's layout and have numbers the journal's tags can hold; the log
    holds no newer transaction and the sequence number does not wrap
    ([Transaction]).  Run the first [k] writes and barriers of a commit
    and lose the power: whichever of the writes since the last barrier the
    device keeps, the filesystem mounts, and outside the journal it shows its
    blocks as they were before the transaction or as they are after it, never
    a mixture; before the commit record is issued it is the old state, once
    the barrier behind it has been reached the new one. *)
Theorem crash_atomic s sb journal f phys dirty ops k :
  Transaction s sb journal f phys dirty -> dirty <> [] -> commit_plan (mkExt4 sb []) s dirty = Ok ops ->
  exists d, run_ops sb (mkDevice s []) (take k ops) = Ok d /\
  forall s', after_power_loss d s' -> exists fs, mount s' = Ok fs /\
    ((k <= length dirty + 6)%nat /\ shows sb f phys fs s' (block_of s) \/
     (length dirty + 6 <= k)%nat /\ shows sb f phys fs s' (new_image s dirty)).
Proof.
  intros T Hne Hp. destruct (commit_plan_inv _ _ _ _ _ _ _ T Hne Hp) as (d & c & a & ch & ac & cl & fi & da & P).
  exact (crash _ _ _ _ _ _ _ _ _ _ _ _ _ _ _ T Hne P k).
Qed.

(** C38: under the same conditions ([Transaction]) a commit that is not cut off ends with everything written and nothing
    pending; the filesystem then mounts without a recovery and shows the new
    blocks, its journal is empty under the next sequence number, and no block
    of the log passes for one of the next transaction. *)
Theorem commit_completes s sb journal f phys dirty ops :
  Transaction s sb journal f phys dirty -> dirty <> [] -> commit_plan (mkExt4 sb []) s dirty = Ok ops ->
  exists s', commit_journal (mkExt4 sb []) (mkDevice s []) dirty = Ok (mkDevice s' []) /\
    mount s' = Ok (mkExt4 sb []) /\ shows sb f phys (mkExt4 sb []) s' (new_image s dirty) /\
    load_journal_format (mkExt4 sb []) s' journal = Ok (with_log f (sequence f + 1) 0) /\
    fresh s' (with_log f (sequence f + 1) 0) phys.
Proof.
  intros T Hne Hp. destruct (commit_plan_inv _ _ _ _ _ _ _ T Hne Hp) as (d & c & a & ch & ac & cl & fi & da & P).
  unfold commit_journal. change (contents (mkDevice s [])) with s. rewrite Hp. cbn [mbind R_bind superblock].
  exact (completes _ _ _ _ _ _ _ _ _ _ _ _ _ _ _ T Hne P).
Qed.
End Crash.

(** * A disk

    Sixteen blocks of 4 KB: the superblock, the group descriptors, the inodes,
    a journal of five blocks and data; and a transaction of two blocks, one of
    which begins with the magic number of the journal. *)
Module Disk.
#[local] Transparent crc32c block_of st_read zeros parse parse_tags descriptor_block commit_block journal_superblock
  set_recovery_flag load_inode map_file_block parse_format data_checksum.

(** A checksum simple enough to evaluate. *)
Definition add_up (c : Z) (l : list Z) : Z := u32 (foldl Z.add c l).
#[local] Instance crc : Crc := {| checksum := add_up; checksum_fits := fun c l => wrap_fits 32 (foldl Z.add c l) ltac:(lia) |}.

Definition le (n : nat) (x : Z) : list Z := to_le_bytes n x.
Definition be (n : nat) (x : Z) : list Z := to_be_bytes n x.
Definition id16 : list Z := seqZ 1 16.

(** A block given by the fields that are not zero. *)
Fixpoint field (l : list (Z * list Z)) (a : Z) : Z :=
  match l with
  | [] => 0
  | (off, v) :: l => if (off <=? a) && (a <? off + zlen v) then v !!! Z.to_nat (a - off) else field l a
  end.

Definition super (free : Z) : list (Z * list Z) :=
  [(1024, le 4 16); (1028, le 4 16); (1024 + 12, le 4 free); (1024 + 0x18, le 4 2); (1024 + 0x20, le 4 32768); (1024 + 0x28, le 4 16);
   (1024 + 0x38, le 2 EXT4_MAGIC); (1024 + 0x4c, le 4 1); (1024 + 0x54, le 4 11); (1024 + 0x58, le 2 128);
   (1024 + 0x5c, le 4 COMPAT_HAS_JOURNAL); (1024 + 0x60, le 4 INCOMPAT_EXTENTS); (1024 + 0x68, id16); (1024 + 0xe0, le 4 8)].
Definition groups : list (Z * list Z) := [(8, le 4 2)].
Definition inodes : list (Z * list Z) :=
  [(7 * 128, le 2 0x8180); (7 * 128 + 4, le 4 (5 * BS)); (7 * 128 + 0x20, le 4 EXTENTS_FL);
   (7 * 128 + 0x28, le 2 EXTENT_MAGIC ++ le 2 1 ++ le 2 4 ++ zeros 6 ++ le 4 0 ++ le 2 5 ++ le 2 0 ++ le 4 3)].
Definition log_super : list (Z * list Z) :=
  [(0, be 4 MAGIC); (4, be 4 SUPERBLOCK_V2); (0x0c, be 4 BS); (0x10, be 4 5); (0x14, be 4 1); (0x18, be 4 7); (0x30, id16)].

Definition disk : Storage := mkStorage (16 * BS) (fun a =>
  match a / BS with
  | 0 => field (super 6) a
  | 1 => field groups (a - BS)
  | 2 => field inodes (a - 2 * BS)
  | 3 => field log_super (a - 3 * BS)
  | _ => 0
  end).
Definition sb : Superblock := mkSuperblock 16 16 0 BS 32768 16 128 11 32 COMPAT_HAS_JOURNAL INCOMPAT_EXTENTS 0 id16 (add_up U32_MAX id16) 8 0 (0, 0) 0.

Definition f : Format := mkFormat 5 1 7 0 0 id16 (crc32c U32_MAX id16).
Definition phys (l : Z) : Z := 3 + l.
Definition dirty : list DirtyBlock :=
  [mkDirty 0 (map (field (super 5)) (seqZ 0 BS)); mkDirty 9 (be 4 MAGIC ++ [1; 2; 3; 4] ++ zeros (BS - 8))].
Definition journal : Inode :=
  let t := mkTimestamp 0 0 in
  mkInode 8 0x8180 0 0 (5 * BS) 0 t t t EXTENTS_FL 0 0 0
    (le 2 EXTENT_MAGIC ++ le 2 1 ++ le 2 4 ++ zeros 6 ++ le 4 0 ++ le 2 5 ++ le 2 0 ++ le 4 3 ++ zeros 36) None.

Lemma storage_same s' b off n :
  st_len s' = 16 * BS -> 0 <= b < 16 -> 0 <= off -> 0 <= n -> off + n <= BS -> block_of s' b = block_of disk b ->
  read_storage (mkExt4 sb []) s' (b * BS + off) n = read_storage (mkExt4 sb []) disk (b * BS + off) n.
Proof.
  intros Hl Hb Ho Hn Hon E. rewrite !read_storage_plain; [|change (st_len disk) with (16 * BS); unfold U64_MAX; lia..].
  by rewrite !st_read_sl, E by lia.
Qed.

Lemma load_same s' :
  st_len s' = 16 * BS -> block_of s' 1 = block_of disk 1 -> block_of s' 2 = block_of disk 2 ->
  load_inode (mkExt4 sb []) s' 8 = Ok journal.
Proof.
  intros Hl E1 E2.
  pose proof (storage_same s' 1 0 32 Hl ltac:(lia) ltac:(lia) ltac:(lia) ltac:(lia) E1) as H1.
  pose proof (storage_same s' 2 896 128 Hl ltac:(lia) ltac:(lia) ltac:(lia) ltac:(lia) E2) as H2.
  unfold load_inode.
  assert (read_raw_inode (mkExt4 sb []) s' 8 = read_raw_inode (mkExt4 sb []) disk 8) as ->.
  { unfold read_raw_inode, read_group_descriptor. cbn [superblock]. change ((8 - 1) / inodes_per_group sb) with 0.
    change (descriptor_offset sb 0) with (@Ok Z (1 * BS + 0)). change (descriptor_size sb) with 32. cbn [mbind R_bind]. rewrite H1.
    assert (read_storage (mkExt4 sb []) disk (1 * BS + 0) 32 = Ok (sl (block_of disk 1) 0 32)) as -> by (lazy; reflexivity).
    cbn [mbind R_bind].
    change ((raw ← read_storage (mkExt4 sb []) s' (2 * BS + 896) 128; Ok raw) = (raw ← read_storage (mkExt4 sb []) disk (2 * BS + 896) 128; Ok raw)).
    rewrite H2. reflexivity. }
  lazy. reflexivity.
Qed.

Lemma bytes_check l : forallb (fun x => (0 <=? x) && (x <? 256)) l = true -> Forall is_byte l.
Proof.
  intros Hb. apply list.Forall_forall. intros x Hx%list_elem_of_In. pose proof (proj1 (List.forallb_forall _ _) Hb x Hx) as Hr.
  cbn beta in Hr. unfold is_byte. lia.
Qed.

Lemma field_byte l a : forallb (fun w => forallb (fun x => (0 <=? x) && (x <? 256)) (snd w)) l = true -> is_byte (field l a).
Proof.
  induction l as [|[off v] l IH]; cbn [forallb field snd]; [unfold is_byte; lia|]. intros [Hv Hl]%andb_true_iff.
  destruct ((off <=? a) && _) eqn:E; [|exact (IH Hl)].
  apply (proj1 (list.Forall_forall _ _) (bytes_check v Hv)), list_elem_of_lookup_total_2. lia.
Qed.

Lemma disk_transaction : Transaction disk sb journal f phys dirty.
Proof.
  constructor.
  - lazy. reflexivity.
  - lazy. discriminate.
  - reflexivity.
  - intros s' [Hl Hh].
    assert (forall b, 0 < b < 3 -> block_of s' b = block_of disk b) as Hs.
    { intros b Hb. destruct (Hh b) as [E|E]; [lia|intros (l & [Hx|Hx] & E); unfold phys in E; cbn in *; lia|exact E|].
      apply get_In, list_elem_of_fmap in E as (d & E & Hd). injection E as Eb _.
      apply elem_of_cons in Hd as [->|Hd]; [cbn in Eb; lia|]. apply list_elem_of_singleton in Hd as ->. cbn in Eb; lia. }
    split; [apply load_same; [exact Hl|apply Hs; lia|apply Hs; lia]|].
    intros l Hin. assert (l = 0 \/ l = 1 \/ l = 2 \/ l = 3 \/ l = 4) as Hc by (unfold in_log, f in Hin; cbn in Hin; lia).
    destruct Hc as [->|[->|[->|[->| ->]]]]; lazy; reflexivity.
  - done.
  - lazy. reflexivity.
  - intros l Hin. unfold in_log, f, phys in *; cbn in *. lia.
  - intros l l' _ _. unfold phys. lia.
  - intros d Hd (l & Hin & E). unfold in_log, f, phys in *; cbn in Hin.
    apply elem_of_cons in Hd as [->|Hd]; [cbn in E; lia|]. apply list_elem_of_singleton in Hd as ->. cbn in E; lia.
  - apply (bool_decide_unpack _). lazy. exact I.
  - intros d Hd. apply elem_of_cons in Hd as [->|Hd]; [|apply list_elem_of_singleton in Hd as ->]; (split; [split; [cbn; lia|right; right; cbn; lia]|]).
    + apply list.Forall_forall. intros x (a & -> & _)%list_elem_of_fmap. by apply field_byte.
    + apply bytes_check. lazy. reflexivity.
  - intros d Hd Hn. apply elem_of_cons in Hd as [->|Hd]; [lazy; reflexivity|]. apply list_elem_of_singleton in Hd as ->. discriminate Hn.
  - intros l Hl Hm. exfalso. unfold f in Hl; cbn in Hl.
    assert (l = 1 \/ l = 2 \/ l = 3 \/ l = 4) as Hc by lia. destruct Hc as [->|[->|[->| ->]]]; revert Hm; lazy; discriminate.
  - cbn; lia.
Qed.

Definition ops : list Op := match commit_plan (mkExt4 sb []) disk dirty with Ok ops => ops | _ => [] end.

Lemma disk_plan : commit_plan (mkExt4 sb []) disk dirty = Ok ops.
Proof.
  assert (match commit_plan (mkExt4 sb []) disk dirty with Ok _ => true | _ => false end = true) as Hp by (lazy; reflexivity).
  unfold ops. by destruct (commit_plan (mkExt4 sb []) disk dirty).
Qed.
Lemma crash_atomic_witness :
  commit_plan (mkExt4 sb []) disk dirty = Ok ops /\
  exists d, run_ops sb (mkDevice disk []) (take 8 ops) = Ok d /\
    forall s', after_power_loss d s' -> exists fs, mount s' = Ok fs /\
      ((8 <= 8)%nat /\ shows sb f phys fs s' (block_of disk) \/ (8 <= 8)%nat /\ shows sb f phys fs s' (new_image disk dirty)).
Proof.
  split; [exact disk_plan|].
  exact (crash_atomic disk sb journal f phys dirty ops 8 disk_transaction ltac:(discriminate) disk_plan).
Defined.

Lemma commit_completes_witness :
  exists s', commit_journal (mkExt4 sb []) (mkDevice disk []) dirty = Ok (mkDevice s' []) /\
    mount s' = Ok (mkExt4 sb []) /\ shows sb f phys (mkExt4 sb []) s' (new_image disk dirty) /\
    load_journal_format (mkExt4 sb []) s' journal = Ok (with_log f (7 + 1) 0) /\ fresh s' (with_log f (7 + 1) 0) phys.
Proof. exact (commit_completes disk sb journal f phys dirty ops disk_transaction ltac:(discriminate) disk_plan). Defined.

End Disk.
