(* ===== verification/JournalSafe.v ===== *)
(** No image makes the ext4 engine panic: mounting, with the recovery of the
    journal, ends in a filesystem or in an error on any storage, and so does
    every read of what was mounted. *)

From Stdlib Require Import ZArith Lia Bool.
From stdpp Require Import base option list numbers.
From S2P Require Import Prelude Ext4 Journal JournalCodec.
Local Open Scope machine_scope.

#[local] Opaque crc32c zeros to_be_bytes.

Lemma safe_be b off n : 0 <= off -> 0 <= n -> off + n <= zlen b -> safe (from_be_bytes <$> slice b off n) (fun x => 0 <= x < 256 ^ n).
Proof.
  intros. rewrite slice_ok by done. cbn. unfold from_be_bytes. pose proof (from_le_bytes_range (rev (sl b off n))) as Hr.
  by rewrite List.length_rev, length_sl in Hr.
Qed.
Lemma safe_be16 b off : 0 <= off -> off + 2 <= zlen b -> safe (be16 b off) (fun x => 0 <= x < 65536).
Proof. intros. by apply (safe_be b off 2). Qed.
Lemma safe_be32 b off : 0 <= off -> off + 4 <= zlen b -> safe (be32 b off) (fun x => 0 <= x < 4294967296).
Proof. intros. by apply (safe_be b off 4). Qed.
Lemma safe_be64 b off : 0 <= off -> off + 8 <= zlen b -> safe (be64 b off) (fun x => 0 <= x < 18446744073709551616).
Proof. intros. by apply (safe_be b off 8). Qed.

Ltac j_step :=
  first
  [ progress r_step
  | lazymatch goal with
    | |- safe (mbind _ (be16 _ _)) _ => eapply safe_bind; [|cbn beta; intros]
    | |- safe (mbind _ (be32 _ _)) _ => eapply safe_bind; [|cbn beta; intros]
    | |- safe (mbind _ (be64 _ _)) _ => eapply safe_bind; [|cbn beta; intros]
    | |- safe (be16 _ _) _ => r_leaf safe_be16
    | |- safe (be32 _ _) _ => r_leaf safe_be32
    | |- safe (be64 _ _) _ => r_leaf safe_be64
    end ].
Ltac j_steps := repeat (j_step; cbn beta in *; try lia); cbn beta in *.

Lemma tag_len_at_least f : 8 <= tag_len f <= 16.
Proof. unfold tag_len. destruct (csum_v3 f), (is_64bit f); lia. Qed.

(** Every tag takes at least eight bytes: the descriptor is long enough as a
    bound for the loop. *)
Lemma parse_tags_loop_safe f bytes end_ : forall fuel cursor have,
  0 <= cursor -> end_ <= zlen bytes -> end_ - cursor < Z.of_nat fuel -> (0 < fuel)%nat ->
  safe (parse_tags_loop fuel f bytes end_ cursor have) (fun tags => Forall (fun t => 0 <= target t) tags).
Proof.
  induction fuel as [|n IH]; intros cursor have Hc He Hf H0; [lia|]. cbn [parse_tags_loop].
  pose proof (tag_len_at_least f) as Ht. j_step; [done|].
  j_step; [j_step; lia|]. cbn beta in *.
  eapply (safe_bind _ _ (fun r => let '(_, _, hi) := r in 0 <= hi < 4294967296)).
  { unfold tag_len in *. destruct (csum_v3 f) eqn:Ev; [j_steps; cbn; lia|]. j_step; [j_step; lia|]. j_step; [j_step; lia|].
    eapply (safe_bind _ _ (fun x => 0 <= x < 4294967296)); [destruct (is_64bit f); [j_step; lia|cbn; lia]|]. cbn. done. }
  intros [[fl sum] hi] Hhi. j_step; [done|].
  eapply (safe_bind _ _ (fun x => cursor + tag_len f <= x)).
  { j_step.
    - j_step; [done|]. j_step; [j_step; lia|]. j_step; [cbn; lia|done].
    - j_step; [done|cbn; lia]. }
  intros next Hn. pose proof (join_range 32 a hi 32 ltac:(lia) ltac:(lia) ltac:(lia) ltac:(lia)). j_step.
  - cbn. constructor; [cbn; lia|constructor].
  - eapply safe_bind; [apply IH; lia|]. intros tags Hts. cbn. constructor; [cbn; lia|done].
Qed.

Lemma sums_len_range f : 0 <= sums_len f <= 4.
Proof. unfold sums_len. destruct (has_checksums f); lia. Qed.

Lemma parse_tags_safe f bytes : 1024 <= zlen bytes -> safe (parse_tags f bytes) (fun tags => Forall (fun t => 0 <= target t) tags).
Proof. intros. pose proof (sums_len_range f). apply parse_tags_loop_safe; lia. Qed.

Lemma revoke_records_safe f seq bytes rl : forall n cursor,
  rl = (if is_64bit f then 8 else 4) -> 0 <= cursor -> cursor + Z.of_nat n * rl <= zlen bytes ->
  safe (revoke_records n f seq bytes cursor rl) (fun _ => True).
Proof.
  induction n as [|n IH]; intros cursor Hr Hc Hl; [done|]. cbn [revoke_records].
  assert (0 < rl) by (destruct (is_64bit f); lia).
  eapply (safe_bind _ _ (fun _ => True)).
  { destruct (is_64bit f); (eapply safe_mono; [first [apply safe_be64|apply safe_be32]; nia|done]). }
  intros x _. eapply safe_bind; [apply IH; [done|lia|nia]|]. done.
Qed.

Lemma parse_revokes_safe f seq bytes : 1024 <= zlen bytes -> safe (parse_revokes f seq bytes) (fun _ => True).
Proof.
  intros Hb. unfold parse_revokes. pose proof (sums_len_range f). j_step; [j_step; lia|]. cbn beta in *. j_step; [done|]. j_step; [done|].
  apply revoke_records_safe; [done|lia|]. rewrite Z2Nat.id by (apply Z.div_pos; [lia|by destruct (is_64bit f)]).
  assert (0 < (if is_64bit f then 8 else 4)) by (destruct (is_64bit f); lia).
  pose proof (Z.mul_div_le (a - 16) (if is_64bit f then 8 else 4) ltac:(lia)). lia.
Qed.

Lemma verify_metadata_safe f bytes : 1024 <= zlen bytes -> safe (verify_metadata_checksum f bytes) (fun _ => True).
Proof. intros. unfold verify_metadata_checksum. j_step; [done|]. j_steps. done. Qed.

Lemma verify_data_safe f seq tag bytes : safe (verify_data_checksum f seq tag bytes) (fun _ => True).
Proof. unfold verify_data_checksum. j_step; [done|]. cbv zeta. j_step; done. Qed.

Lemma verify_commit_safe f bytes : 1024 <= zlen bytes -> safe (verify_commit_checksum f bytes) (fun _ => True).
Proof. intros. unfold verify_commit_checksum. j_step; [done|]. j_steps. done. Qed.

Section Safe.
Context `{Crc}.

Section Replay.
Context (fs : Ext4) (Hfs : fs_wf fs) (s : Storage) (journal : Inode) (Hj : inode_wf journal) (Hreg : readable journal).
Abbreviation bs := (block_size (superblock fs)).

Lemma bs_range : 1024 <= bs <= 65536.
Proof. apply Hfs. Qed.

Lemma read_journal_block_safe l : 0 <= l -> safe (read_journal_block fs s journal l) (fun b => zlen b = bs).
Proof.
  intros Hl. pose proof bs_range. unfold read_journal_block. j_step; [apply safe_checked; nia|]. cbn beta in *.
  eapply safe_bind; [apply read_inode_data_safe; [done|done|done|lia|lia]|]. intros b _. cbn beta in *. j_step; [done|]. cbn. lia.
Qed.

(** What the recovery needs of the format of the log. *)
Definition log_wf (f : Format) : Prop := 0 <= first f < max_len f /\ max_len f < 2 ^ 32 /\ 0 <= start f.

Lemma parse_format_safe sz b : zlen b = bs -> safe (parse_format (superblock fs) sz b) log_wf.
Proof.
  intros Hb. pose proof bs_range. unfold parse_format.
  do 2 (j_step; [j_step; lia|]; cbn beta in * ). j_step; [done|].
  do 8 (j_step; [j_step; lia|]; cbn beta in * ). j_step; [j_step; lia|]. cbn beta in *. do 4 (j_step; [done|]).
  assert (log_wf (mkFormat a2 a3 a4 a5 a7 a9 (crc32c U32_MAX a9))) as Hlw.
  { rewrite !orb_false_iff in E3. unfold log_wf; cbn. lia. }
  cbv zeta. j_step; [exact Hlw|]. j_step; [j_step; lia|]. j_step; [done|]. do 3 (j_step; [j_step; lia|]). j_step; [done|exact Hlw].
Qed.

Lemma load_format_safe : safe (load_journal_format fs s journal) log_wf.
Proof.
  unfold load_journal_format. eapply safe_bind; [apply read_journal_block_safe; lia|]. intros b Hb. by apply parse_format_safe.
Qed.

Definition logged_wf (l : list LoggedBlock) : Prop := Forall (fun u => zlen (l_bytes u) = bs /\ 0 <= l_target u) l.

Lemma advance_safe f l : log_wf f -> 0 <= advance f l.
Proof.
  intros (Hf & Hm & _). unfold advance. destruct (_ =? _); [lia|]. pose proof (wrap_fits 32 (l + 1) ltac:(lia)) as Hw. apply Hw.
Qed.

Lemma tag_blocks_safe f seq tags : forall l v, log_wf f -> Forall (fun t => 0 <= target t) tags -> 0 <= l ->
  safe (tag_blocks fs s journal f seq tags l v) (fun r => let '(bl, l', v') := r in logged_wf bl /\ 0 <= l' /\ v <= v').
Proof.
  induction tags as [|t tags IH]; intros l v Hf Ht Hl; cbn [tag_blocks].
  { cbn. split_and!; [constructor|lia|lia]. }
  inversion Ht as [|? ? Ht0 Ht']; subst. pose proof bs_range. j_step; [done|].
  eapply safe_bind; [by apply read_journal_block_safe|]. intros data Hd. cbn beta in *.
  eapply safe_bind; [apply verify_data_safe|]. intros _ _.
  eapply (safe_bind _ _ (fun x => zlen x = bs)).
  { j_step; [|exact Hd]. pose proof (length_be4 MAGIC). eapply safe_mono; [apply safe_put; lia|]. cbn beta in *. intros x Hx. lia. }
  intros data' Hd'. eapply safe_bind; [apply IH; [done|done|by apply advance_safe]|]. intros [[bl l'] v'] (Hbl & Hl' & Hv'). cbn.
  split_and!; [|lia|lia]. destruct (has_flag (t_flags t) FLAG_DELETED); [exact Hbl|]. by constructor.
Qed.

Definition scan_wf (c : Scan) : Prop := logged_wf (logged c) /\ logged_wf (pending_blocks c) /\ 0 <= sc_block c.

(** A turn of the scan goes on having visited a block more. *)
Lemma scan_step_safe f c : log_wf f -> scan_wf c ->
  safe (scan_step fs s journal f c) (fun r => match r with inl c' => scan_wf c' /\ visited c < visited c' | inr c' => scan_wf c' end).
Proof.
  intros Hf. destruct c as [lg rv pb pr l seq v]. intros (Hl & Hp & Hb). cbn in Hl, Hp, Hb. unfold scan_step. pose proof bs_range.
  eapply safe_bind; [by apply read_journal_block_safe|]. intros b Hlen. cbn beta in *.
  do 2 (j_step; [j_step; lia|]; cbn beta in * ). j_step; [cbn; by split_and!|]. j_step; [j_step; lia|]. cbn beta in *.
  j_step.
  { eapply safe_bind; [apply verify_metadata_safe; lia|]. intros _ _. eapply safe_bind; [apply parse_tags_safe; lia|]. intros tags Ht.
    cbn beta in Ht. eapply safe_bind; [apply tag_blocks_safe; [done|done|by apply advance_safe]|]. intros [[bl l'] v'] (Hbl & Hl' & Hv').
    cbn. split; [|lia]. split_and!; cbn; [done|by apply list.Forall_app|lia]. }
  j_step.
  { j_step; [done|]. eapply safe_bind; [apply verify_metadata_safe; lia|]. intros _ _.
    eapply safe_bind; [apply parse_revokes_safe; lia|]. intros rs _. cbn. split; [|lia]. split_and!; cbn; [done|done|by apply advance_safe]. }
  j_step.
  { eapply safe_bind; [apply verify_commit_safe; lia|]. intros _ _. cbn. split; [|lia].
    split_and!; cbn; [by apply list.Forall_app|constructor|by apply advance_safe]. }
  cbn. by split_and!.
Qed.

Lemma scan_log_safe f : forall fuel c, log_wf f -> scan_wf c -> max_len f - first f - visited c <= Z.of_nat fuel ->
  safe (scan_log fuel fs s journal f c) scan_wf.
Proof.
  induction fuel as [|n IH]; intros c Hf Hc Hn; cbn [scan_log].
  - destruct (negb _) eqn:E; [exact Hc|lia].
  - j_step; [exact Hc|]. eapply safe_bind; [by apply scan_step_safe|]. intros [c'|c']; [|done]. intros [Hc' Hv]. apply IH; [done|done|lia].
Qed.

Lemma overlay_insert_wf o t v : Forall (fun e => zlen (snd e) = bs) o -> zlen v = bs -> Forall (fun e => zlen (snd e) = bs) (overlay_insert o t v).
Proof.
  intros Ho Hv. unfold overlay_insert. destruct (binary_search t o).
  - by apply Forall_insert.
  - apply list.Forall_app. split; [by apply Forall_take|]. constructor; [done|by apply Forall_drop].
Qed.

Lemma apply_logged_safe blocks rv l : forall o, logged_wf l -> Forall (fun e => zlen (snd e) = bs) o ->
  safe (apply_logged blocks rv l o) (fun o' => Forall (fun e => zlen (snd e) = bs) o').
Proof.
  induction l as [|u l IH]; intros o Hl Ho; cbn [apply_logged]; [exact Ho|]. inversion Hl as [|? ? [Hu _] Hl']; subst.
  j_step; [by apply IH|]. j_step; [done|]. apply IH; [done|]. by apply overlay_insert_wf.
Qed.
End Replay.

Lemma regular_readable i : (mode i .& MODE_TYPE_MASK) = MODE_REGULAR -> readable i.
Proof. intros Hm. right. unfold is_directory. by rewrite Hm. Qed.

Lemma replay_safe fs s : fs_wf fs -> safe (replay_journal fs s) fs_wf.
Proof.
  intros Hfs. assert (0 <= journal_inode (superblock fs)) as Hj by apply Hfs. unfold replay_journal.
  eapply safe_bind; [by apply load_inode_safe|]. intros journal [Hi _]. cbn beta in *. j_step; [done|].
  assert (readable journal) as Hr by (apply regular_readable; lia).
  eapply safe_bind; [by apply load_format_safe|]. intros f Hf. cbn beta in Hf. j_step; [exact Hfs|].
  eapply safe_bind; [apply scan_log_safe; [done..| |]|].
  - destruct Hf as (_ & _ & Hs). split_and!; cbn; [constructor|constructor|done].
  - cbn. lia.
  - intros c (Hl & _). cbn beta in *. eapply safe_bind; [apply apply_logged_safe; [exact Hl|apply Hfs]|]. intros o Ho. cbn. split; [apply Hfs|exact Ho].
Qed.

Lemma mount_safe s : safe (mount s) fs_wf.
Proof.
  unfold mount, load_superblock.
  eapply safe_bind.
  { eapply safe_bind; [by apply checked_read_safe|]. intros b [_ Hb]. cbn beta in *. apply parse_safe. exact Hb. }
  intros sb [Hsb _]. cbn beta in *. assert (fs_wf (mkExt4 sb [])) as Hfs by (split; [done|constructor]).
  j_step; [by apply replay_safe|exact Hfs].
Qed.
Lemma safe_no_panic {A} (r : R A) Q : safe r Q -> r <> Panic.
Proof. by destruct r. Qed.

Lemma read_inode_safe fs s i offset n :
  fs_wf fs -> 0 <= number i -> 0 <= offset -> 0 <= n -> (forall j, refresh fs s i = Ok j -> readable j) ->
  safe (read_inode fs s i offset n) (fun _ => True).
Proof.
  intros Hfs Hi Ho Hn Hr. unfold read_inode. pose proof (refresh_safe fs Hfs s i Hi) as Hs.
  destruct (refresh fs s i) as [j| |]; [|done..]. cbn [mbind R_bind]. destruct Hs as [Hj _].
  eapply safe_mono; [apply read_inode_data_safe; [done|done|by apply Hr|done|done]|done].
Qed.

(** C39: no image makes the engine panic. On any storage mounting, recovery of
    the journal included, gives a filesystem or an error; and on whatever was
    mounted, the storage changed since or not, looking up an inode, finding a
    block of a file, reading a link, listing a directory and reading a file
    give a result or an error, with one exception, the inline data of a
    directory read as a file. *)
Theorem ext4_never_panics s s' :
  mount s <> Panic /\
  forall fs, mount s = Ok fs ->
    (forall n, 0 <= n -> load_inode fs s' n <> Panic) /\
    (forall i, 0 <= number i ->
       read_symlink fs s' i <> Panic /\
       (forall cookie max, 0 <= cookie -> list_directory fs s' i cookie max <> Panic) /\
       (forall n j logical, 0 <= n -> load_inode fs s' n = Ok j -> 0 <= logical -> map_file_block fs s' j logical <> Panic) /\
       (forall offset len, 0 <= offset -> 0 <= len -> (forall j, refresh fs s' i = Ok j -> readable j) ->
          read_inode fs s' i offset len <> Panic)).
Proof.
  pose proof (mount_safe s) as Hm. split; [by eapply safe_no_panic|]. intros fs Hf. rewrite Hf in Hm. cbn [safe] in Hm.
  split; [intros n Hn; by eapply safe_no_panic, load_inode_safe|]. intros i Hi. split_and!.
  - by eapply safe_no_panic, read_symlink_safe.
  - intros cookie max Hc. by eapply safe_no_panic, list_directory_safe.
  - intros n j logical Hn Hj Hl. pose proof (load_inode_safe fs Hm s' n Hn) as Hs. rewrite Hj in Hs.
    eapply safe_no_panic, map_file_block_safe; [done|apply Hs|done].
  - intros offset len Ho Hlen Hr. by eapply safe_no_panic, read_inode_safe.
Qed.

(** The exception: the data of an inline directory is four bytes shorter than
    its size, and a read that begins behind it is out of range. *)
Lemma inline_directory_read_panics fs s i d offset n :
  inline_data i = Some d -> zlen d = size i - 4 -> size i <= U32_MAX -> zlen d < offset < size i -> 0 < n ->
  read_inode_data fs s i offset n = Panic.
Proof.
  intros Hd Hl Hm Ho Hn. unfold read_inode_data. rewrite Hd. rewrite (proj2 (Z.leb_gt _ _)), (proj2 (Z.eqb_neq _ _)) by lia. cbn [orb].
  unfold usize. rewrite (proj2 (Z.leb_le _ _)) by lia. cbn [mbind R_bind]. unfold slice.
  assert (0 < Z.min n (u32 (zlen d - offset))) as Ha.
  { unfold wrap. rewrite <- (Z.mod_add _ 1) by lia. rewrite Z.mod_small; unfold U32_MAX in *; lia. }
  destruct (_ && _ && _) eqn:E; [lia|done].
Qed.
End Safe.
