(* ===== verification/Extents.v ===== *)
(** The extent trees of the ext4 engine in memory (ext4/src/extent_tree.rs):
    decoding and encoding, insertion with splits and a promoted root, removal
    with pruning and collapse of the root, and the conversion of a range
    between written and unwritten.

    A node is one constructor per kind of entries; [location] and [dirty] are
    the fields the two kinds share.  [partition_point] and the search by key
    are given by their documented result on a partitioned, sorted vector. *)

From Stdlib Require Import ZArith Lia Bool.
From stdpp Require Import base option list numbers.
From S2P Require Import Prelude Ext4.
Local Open Scope machine_scope.

Definition MAX_DEPTH : Z := 5.
Definition ROOT_CAPACITY : Z := 4.
Definition WRITTEN_MAX_LEN : Z := 32768.
Definition UNWRITTEN_MAX_LEN : Z := 32767.

Record ExtentIdentity := mkIdentity { id_seed : Z; id_inode : Z; id_generation : Z; metadata_checksums : bool }.
Record SerializedNode := mkSerialized { sn_number : Z; sn_bytes : list Z }.

Inductive ExtentState := Written | Unwritten.
#[export] Instance ExtentState_eq : EqDecision ExtentState.
Proof. solve_decision. Defined.

Record Extent := mkExtent { e_logical : Z; e_physical : Z; e_length : Z; e_state : ExtentState }.
#[export] Instance Extent_eq : EqDecision Extent.
Proof. solve_decision. Defined.

Definition max_length (s : ExtentState) : Z := match s with Written => WRITTEN_MAX_LEN | Unwritten => UNWRITTEN_MAX_LEN end.

(** [u32::try_from(x).map_err(|_| Corrupt::InvalidExtentTree)?] *)
Definition to_u32 (x : Z) : R Z := if (0 <=? x) && (x <=? U32_MAX) then Ok x else corrupt InvalidExtentTree.

Definition new_extent (logical physical length : Z) (state : ExtentState) : R Extent :=
  if (length =? 0) || (max_length state <? length) || (physical =? 0) || negb ((physical ≫ 48) =? 0)
     || (2 ^ 48 <? physical + length)
  then corrupt InvalidExtentTree else Ok (mkExtent logical physical length state).

Definition logical_end (e : Extent) : Z := e_logical e + e_length e.

Definition overlaps (e : Extent) (start end_ : Z) : bool := (e_logical e <? end_) && (start <? logical_end e).

Definition can_merge (l r : Extent) : bool :=
  bool_decide (e_state l = e_state r) && (logical_end l =? e_logical r)
  && (u64 (e_physical l + e_length l) =? e_physical r) && (u32 (e_length l + e_length r) <=? max_length (e_state l)).

Inductive NodeLocation := AtRoot | AtBlock (number : Z) | Unassigned.
#[export] Instance NodeLocation_eq : EqDecision NodeLocation.
Proof. solve_decision. Defined.

#[warnings="-register-all"]
Inductive ExtentNode :=
| Leaf (loc : NodeLocation) (d : bool) (extents : list Extent)
| Branch (loc : NodeLocation) (d : bool) (children : list ExtentNode).

Definition location (n : ExtentNode) : NodeLocation := match n with Leaf l _ _ | Branch l _ _ => l end.
Definition dirty (n : ExtentNode) : bool := match n with Leaf _ d _ | Branch _ d _ => d end.
Definition set_location (l : NodeLocation) (n : ExtentNode) : ExtentNode :=
  match n with Leaf _ d es => Leaf l d es | Branch _ d cs => Branch l d cs end.
Definition mark (changed : bool) (n : ExtentNode) : ExtentNode :=
  match n with Leaf l d es => Leaf l (d || changed) es | Branch l d cs => Branch l (d || changed) cs end.

Fixpoint depth (n : ExtentNode) : Z :=
  match n with Leaf _ _ _ => 0 | Branch _ _ cs => match cs with [] => 1 | c :: _ => depth c + 1 end end.

Fixpoint first_logical (n : ExtentNode) : option Z :=
  match n with
  | Leaf _ _ es => e_logical <$> head es
  | Branch _ _ cs => match cs with [] => None | c :: _ => first_logical c end
  end.

Definition is_empty (n : ExtentNode) : bool :=
  match n with Leaf _ _ es => bool_decide (es = []) | Branch _ _ cs => match cs with [] => true | _ => false end end.

Definition entry_count (n : ExtentNode) : Z := match n with Leaf _ _ es => zlen es | Branch _ _ cs => zlen cs end.

(** [previous.is_some_and(|value| x <= value)] *)
Definition not_above (previous : option Z) (x : Z) : bool := match previous with Some p => x <=? p | None => false end.

Fixpoint validate_leaf (previous : option Z) (es : list Extent) : R () :=
  match es with
  | [] => Ok tt
  | e :: es =>
      _ ← new_extent (e_logical e) (e_physical e) (e_length e) (e_state e);
      if (match previous with Some p => e_logical e <? p | None => false end) then corrupt InvalidExtentTree
      else validate_leaf (Some (logical_end e)) es
  end.

Definition is_block (l : NodeLocation) : bool := match l with AtBlock _ => true | _ => false end.

Fixpoint validate (block_capacity : Z) (root : bool) (n : ExtentNode) : R () :=
  let capacity := if root then ROOT_CAPACITY else block_capacity in
  _ ← (match n with
       | Leaf _ _ es =>
           if (capacity <? zlen es) || (negb root && bool_decide (es = [])) then corrupt InvalidExtentTree
           else validate_leaf None es
       | Branch _ _ cs =>
           match cs with
           | [] => corrupt InvalidExtentTree
           | c :: _ =>
               if capacity <? zlen cs then corrupt InvalidExtentTree else
               let child_depth := depth c in
               (fix each (previous : option Z) (cs : list ExtentNode) {struct cs} : R () :=
                  match cs with
                  | [] => Ok tt
                  | c :: cs =>
                      if negb (depth c =? child_depth) || negb (is_block (location c)) then corrupt InvalidExtentTree else
                      first ← ok_or (first_logical c) (ECorrupt InvalidExtentTree);
                      if not_above previous first then corrupt InvalidExtentTree else
                      _ ← validate block_capacity false c;
                      each (Some first) cs
                  end) None cs
           end
       end);
  if MAX_DEPTH <? depth n then corrupt InvalidExtentTree else Ok tt.

Fixpoint node_overlaps (start end_ : Z) (n : ExtentNode) : bool :=
  match n with
  | Leaf _ _ es => existsb (fun e => overlaps e start end_) es
  | Branch _ _ cs => existsb (node_overlaps start end_) cs
  end.

(** * Insertion *)

(** [merge_leaf]: the record at hand absorbs its right neighbour as long as
    they fit together. *)
Fixpoint merge_from (e : Extent) (es : list Extent) : list Extent :=
  match es with
  | [] => [e]
  | r :: es =>
      if can_merge e r then merge_from (mkExtent (e_logical e) (e_physical e) (u32 (e_length e + e_length r)) (e_state e)) es
      else e :: merge_from r es
  end.

Definition merge_leaf (es : list Extent) : list Extent := match es with [] => [] | e :: es => merge_from e es end.

(** The length of the prefix on which [f] holds. *)
Fixpoint partition_point {A} (f : A -> bool) (l : list A) : nat :=
  match l with [] => O | x :: l => if f x then S (partition_point f l) else O end.

(** A node with more than [capacity] entries gives its second half away. *)
Definition split_full (capacity : Z) (n : ExtentNode) : ExtentNode * option ExtentNode :=
  if entry_count n <=? capacity then (n, None) else
  match n with
  | Leaf l d es => let k := (length es / 2)%nat in (Leaf l d (take k es), Some (Leaf Unassigned true (drop k es)))
  | Branch l d cs => let k := (length cs / 2)%nat in (Branch l d (take k cs), Some (Branch Unassigned true (drop k cs)))
  end.

Definition starts_by (x : Z) (n : ExtentNode) : bool := match first_logical n with Some k => k <=? x | None => false end.

Fixpoint insert_node (e : Extent) (block_capacity capacity : Z) (n : ExtentNode) : R (ExtentNode * option ExtentNode) :=
  n ← (match n with
       | Leaf l _ es =>
           let position := partition_point (fun x => e_logical x <? e_logical e) es in
           Ok (Leaf l true (merge_leaf (take position es ++ e :: drop position es)))
       | Branch l _ cs =>
           let position := (partition_point (starts_by (e_logical e)) cs - 1)%nat in
           cs ← (fix at_ (i : nat) (cs : list ExtentNode) {struct cs} : R (list ExtentNode) :=
                   match cs with
                   | [] => Panic
                   | c :: cs =>
                       match i with
                       | O =>
                           r ← insert_node e block_capacity block_capacity c;
                           let '(c, promoted) := r in
                           Ok (c :: match promoted with Some p => p :: cs | None => cs end)
                       | S i => cs ← at_ i cs; Ok (c :: cs)
                       end
                   end) position cs;
           Ok (Branch l true cs)
       end);
  Ok (split_full capacity n).

(** * The state of a range *)

Definition state_pieces (start end_ : Z) (state : ExtentState) (e : Extent) : R (list Extent) :=
  if bool_decide (e_state e = state) || negb (overlaps e start end_) then Ok [e] else
  let middle_start := Z.max start (e_logical e) in
  let middle_end := Z.min end_ (logical_end e) in
  before ← (if e_logical e <? middle_start
            then len ← to_u32 (middle_start - e_logical e); Ok [mkExtent (e_logical e) (e_physical e) len (e_state e)]
            else Ok []);
  logical ← to_u32 middle_start;
  len ← to_u32 (middle_end - middle_start);
  let middle := mkExtent logical (u64 (e_physical e + (middle_start - e_logical e))) len state in
  after ← (if middle_end <? logical_end e
           then logical ← to_u32 middle_end; len ← to_u32 (logical_end e - middle_end);
                Ok [mkExtent logical (u64 (e_physical e + (middle_end - e_logical e))) len (e_state e)]
           else Ok []);
  Ok (before ++ middle :: after).

(** The records a function of the source pushes for each record drained. *)
Fixpoint drain (f : Extent -> R (list Extent)) (es : list Extent) : R (list Extent) :=
  match es with
  | [] => Ok []
  | e :: es => p ← f e; ps ← drain f es; Ok (p ++ ps)
  end.

Definition differs (start end_ : Z) (state : ExtentState) (e : Extent) : bool :=
  negb (bool_decide (e_state e = state)) && overlaps e start end_.

Fixpoint set_state_range (start end_ : Z) (state : ExtentState) (block_capacity capacity : Z) (n : ExtentNode)
    : R (ExtentNode * option ExtentNode) :=
  n ← (match n with
       | Leaf l d es =>
           output ← drain (state_pieces start end_ state) es;
           Ok (Leaf l (d || existsb (differs start end_ state) es) (merge_leaf output))
       | Branch l d cs =>
           r ← (fix each (cs : list ExtentNode) : R (list ExtentNode * bool) :=
                  match cs with
                  | [] => Ok ([], false)
                  | c :: cs =>
                      r ← set_state_range start end_ state block_capacity block_capacity c;
                      let '(c', sibling) := r in
                      rest ← each cs;
                      let '(cs, changed) := rest in
                      Ok (c' :: (match sibling with Some s => s :: cs | None => cs end),
                          negb (Bool.eqb (dirty c') (dirty c)) || (match sibling with Some _ => true | None => false end) || changed)
                  end) cs;
           let '(cs, changed) := r in
           Ok (Branch l (d || changed) cs)
       end);
  Ok (split_full capacity n).

Fixpoint node_has_different_state (start end_ : Z) (state : ExtentState) (n : ExtentNode) : bool :=
  match n with
  | Leaf _ _ es => existsb (differs start end_ state) es
  | Branch _ _ cs => existsb (node_has_different_state start end_ state) cs
  end.

(** * Removal *)

(** What is left of a record. *)
Definition left_pieces (start end_ : Z) (e : Extent) : R (list Extent) :=
  if negb (overlaps e start end_) then Ok [e] else
  before ← (if e_logical e <? start
            then len ← to_u32 (start - e_logical e); Ok [mkExtent (e_logical e) (e_physical e) len (e_state e)] else Ok []);
  after ← (if end_ <? logical_end e
           then logical ← to_u32 end_; len ← to_u32 (logical_end e - end_);
                Ok [mkExtent logical (u64 (e_physical e + (end_ - e_logical e))) len (e_state e)] else Ok []);
  Ok (before ++ after).

(** What is taken away. *)
Definition removed_piece (start end_ : Z) (e : Extent) : R (list Extent) :=
  if negb (overlaps e start end_) then Ok [] else
  let removed_start := Z.max start (e_logical e) in
  let removed_end := Z.min end_ (logical_end e) in
  logical ← to_u32 removed_start;
  len ← to_u32 (removed_end - removed_start);
  Ok [mkExtent logical (u64 (e_physical e + (removed_start - e_logical e))) len (e_state e)].

Definition remove_from_leaf (es : list Extent) (start end_ : Z) : R (list Extent * list Extent * bool) :=
  removed ← drain (removed_piece start end_) es;
  output ← drain (left_pieces start end_) es;
  Ok (merge_leaf output, removed, existsb (fun e => overlaps e start end_) es).

Fixpoint collect_blocks (n : ExtentNode) : list Z :=
  (match location n with AtBlock b => [b] | _ => [] end)
  ++ match n with Leaf _ _ _ => [] | Branch _ _ cs => flat_map collect_blocks cs end.

(** The node left, the extents removed, the blocks released, and whether
    anything changed. *)
Fixpoint remove_range (start end_ : Z) (n : ExtentNode) : R (ExtentNode * list Extent * list Z * bool) :=
  match n with
  | Leaf l d es =>
      r ← remove_from_leaf es start end_;
      let '(es, removed, changed) := r in
      Ok (Leaf l (d || changed) es, removed, [], changed)
  | Branch l d cs =>
      r ← (fix each (cs : list ExtentNode) : R (list ExtentNode * list Extent * list Z * bool) :=
             match cs with
             | [] => Ok ([], [], [], false)
             | c :: cs =>
                 r ← remove_range start end_ c;
                 let '(c, removed, released, changed) := r in
                 rest ← each cs;
                 let '(cs, removed', released', changed') := rest in
                 if is_empty c then Ok (cs, removed ++ removed', released ++ collect_blocks c ++ released', true)
                 else Ok (c :: cs, removed ++ removed', released ++ released', changed || changed')
             end) cs;
      let '(cs, removed, released, changed) := r in
      Ok (Branch l (d || changed) cs, removed, released, changed)
  end.

(** * Blocks of the tree itself *)

(** [assign_new_blocks] takes from the iterator and leaves the rest. *)
Fixpoint assign_new_blocks (n : ExtentNode) (blocks : list Z) : R (ExtentNode * list Z) :=
  r ← (match location n with
       | Unassigned => match blocks with [] => corrupt InvalidExtentTree | b :: blocks => Ok (AtBlock b, blocks) end
       | l => Ok (l, blocks)
       end);
  let '(l, blocks) := r in
  match n with
  | Leaf _ d es => Ok (Leaf l d es, blocks)
  | Branch _ d cs =>
      r ← (fix each (cs : list ExtentNode) (blocks : list Z) {struct cs} : R (list ExtentNode * list Z) :=
             match cs with
             | [] => Ok ([], blocks)
             | c :: cs =>
                 r ← assign_new_blocks c blocks;
                 let '(c, blocks) := r in
                 rest ← each cs blocks;
                 let '(cs, blocks) := rest in
                 Ok (c :: cs, blocks)
             end) cs blocks;
      let '(cs, blocks) := r in
      Ok (Branch l d cs, blocks)
  end.

Fixpoint count_unassigned (n : ExtentNode) : nat :=
  ((match location n with Unassigned => 1 | _ => 0 end)
   + match n with Leaf _ _ _ => 0 | Branch _ _ cs => list_sum (map count_unassigned cs) end)%nat.

Fixpoint node_contains_block (number : Z) (n : ExtentNode) : bool :=
  bool_decide (location n = AtBlock number)
  || match n with Leaf _ _ _ => false | Branch _ _ cs => existsb (node_contains_block number) cs end.

Fixpoint node_contains_data_block (number : Z) (n : ExtentNode) : bool :=
  match n with
  | Leaf _ _ es => existsb (fun e => (e_physical e <=? number) && (number <? sat_add U64_MAX (e_physical e) (e_length e))) es
  | Branch _ _ cs => existsb (node_contains_data_block number) cs
  end.

Fixpoint node_overlaps_data (physical length : Z) (n : ExtentNode) : bool :=
  let end_ := sat_add U64_MAX physical length in
  match n with
  | Leaf _ _ es =>
      existsb (fun e => (physical <? sat_add U64_MAX (e_physical e) (e_length e)) && (e_physical e <? end_)) es
  | Branch _ _ cs => existsb (node_overlaps_data physical length) cs
  end.

Fixpoint node_overlaps_block_range (physical length : Z) (n : ExtentNode) : bool :=
  let end_ := sat_add U64_MAX physical length in
  (match location n with AtBlock b => (physical <=? b) && (b <? end_) | _ => false end)
  || match n with Leaf _ _ _ => false | Branch _ _ cs => existsb (node_overlaps_block_range physical length) cs end.

(** * On disk *)

Section Codec.
Context `{Crc}.

Definition put_le16 (b : list Z) (off x : Z) : R (list Z) := put b off (to_le_bytes 2 x).
Definition put_le32 (b : list Z) (off x : Z) : R (list Z) := put b off (to_le_bytes 4 x).

Definition extent_header (bytes : list Z) (capacity : Z) : R Z :=
  if zlen bytes <? 12 + capacity * 12 then corrupt InvalidExtentHeader else
  magic ← le16 bytes 0;
  if negb (magic =? EXTENT_MAGIC) then corrupt InvalidExtentHeader else
  entries ← le16 bytes 2;
  if capacity <? entries then corrupt InvalidExtentHeader else
  max ← le16 bytes 4;
  if negb (max =? capacity) then corrupt InvalidExtentHeader else
  le16 bytes 6.

Definition identity_bytes (id : ExtentIdentity) : list Z := to_le_bytes 4 (id_inode id) ++ to_le_bytes 4 (id_generation id).

Definition verify_node_checksum (bytes : list Z) (capacity : Z) (id : ExtentIdentity) : R () :=
  if negb (metadata_checksums id) then Ok tt else
  let checksum_offset := 12 + capacity * 12 in
  if zlen bytes <? checksum_offset + 4 then corrupt InvalidExtentTree else
  body ← slice bytes 0 checksum_offset;
  expected ← le32 bytes checksum_offset;
  if negb (checksum (id_seed id) (identity_bytes id ++ body) =? expected) then corrupt (ExtentChecksum (id_inode id)) else Ok tt.

(** The records [index..] of a leaf, [n] of them. *)
Fixpoint load_extents (n : nat) (index : Z) (bytes : list Z) : R (list Extent) :=
  match n with
  | O => Ok []
  | S n =>
      let at_ := 12 + index * 12 in
      encoded ← le16 bytes (at_ + 4);
      let '(len, state) := if encoded <=? WRITTEN_MAX_LEN then (encoded, Written) else (encoded - WRITTEN_MAX_LEN, Unwritten) in
      logical ← le32 bytes at_;
      lo ← le32 bytes (at_ + 8);
      hi ← le16 bytes (at_ + 6);
      e ← new_extent logical (join 32 lo hi) len state;
      es ← load_extents n (index + 1) bytes;
      Ok (e :: es)
  end.

(** [visited] is the list of blocks read so far. *)
Fixpoint load_node (expected : nat) (bytes : list Z) (loc : NodeLocation) (capacity block_capacity blocks_count : Z)
    (id : ExtentIdentity) (read_block : Z -> R (list Z)) (visited : list Z) : R (ExtentNode * list Z) :=
  depth ← extent_header bytes capacity;
  if negb (depth =? Z.of_nat expected) then corrupt InvalidExtentTree else
  entries ← le16 bytes 2;
  match expected with
  | O =>
      if negb (bool_decide (loc = AtRoot)) && (entries =? 0) then corrupt InvalidExtentTree else
      es ← load_extents (Z.to_nat entries) 0 bytes;
      Ok (Leaf loc false es, visited)
  | S expected =>
      if entries =? 0 then corrupt InvalidExtentTree else
      r ← (fix each (n : nat) (index : Z) (previous : option Z) (visited : list Z) : R (list ExtentNode * list Z) :=
             match n with
             | O => Ok ([], visited)
             | S n =>
                 let at_ := 12 + index * 12 in
                 logical ← le32 bytes at_;
                 if not_above previous logical then corrupt InvalidExtentTree else
                 lo ← le32 bytes (at_ + 4);
                 hi ← le16 bytes (at_ + 8);
                 let number := join 32 lo hi in
                 if (number =? 0) || (blocks_count <=? number) || existsb (Z.eqb number) visited
                 then corrupt InvalidExtentTree else
                 child_bytes ← read_block number;
                 if negb (zlen child_bytes =? 12 + block_capacity * 12 + 4) then corrupt InvalidExtentTree else
                 _ ← verify_node_checksum child_bytes block_capacity id;
                 r ← load_node expected child_bytes (AtBlock number) block_capacity block_capacity blocks_count id
                       read_block (visited ++ [number]);
                 let '(c, visited) := r in
                 if negb (bool_decide (first_logical c = Some logical)) then corrupt InvalidExtentTree else
                 rest ← each n (index + 1) (Some logical) visited;
                 let '(cs, visited) := rest in
                 Ok (c :: cs, visited)
             end) (Z.to_nat entries) 0 None visited;
      let '(cs, visited) := r in
      Ok (Branch loc false cs, visited)
  end.

Fixpoint write_extents (index : Z) (es : list Extent) (b : list Z) : R (list Z) :=
  match es with
  | [] => Ok b
  | e :: es =>
      let at_ := 12 + index * 12 in
      let encoded := match e_state e with Written => e_length e | Unwritten => u32 (e_length e + WRITTEN_MAX_LEN) end in
      b ← put_le32 b at_ (e_logical e);
      b ← put_le16 b (at_ + 4) (u16 encoded);
      b ← put_le16 b (at_ + 6) (u16 (e_physical e ≫ 32));
      b ← put_le32 b (at_ + 8) (u32 (e_physical e));
      write_extents (index + 1) es b
  end.

Fixpoint write_children (index : Z) (cs : list ExtentNode) (b : list Z) : R (list Z) :=
  match cs with
  | [] => Ok b
  | c :: cs =>
      match location c with
      | AtBlock number =>
          let at_ := 12 + index * 12 in
          first ← ok_or (first_logical c) (ECorrupt InvalidExtentTree);
          b ← put_le32 b at_ first;
          b ← put_le32 b (at_ + 4) (u32 number);
          b ← put_le16 b (at_ + 8) (u16 (number ≫ 32));
          write_children (index + 1) cs b
      | _ => corrupt InvalidExtentTree
      end
  end.

Definition write_node (target_len : Z) (n : ExtentNode) (capacity : Z) : R (list Z) :=
  if (target_len <? 12 + capacity * 12) || (capacity <? entry_count n) then corrupt InvalidExtentTree else
  b ← put_le16 (zeros target_len) 0 EXTENT_MAGIC;
  b ← put_le16 b 2 (u16 (entry_count n));
  b ← put_le16 b 4 (u16 capacity);
  b ← put_le16 b 6 (depth n);
  match n with Leaf _ _ es => write_extents 0 es b | Branch _ _ cs => write_children 0 cs b end.

(** A node as the block that holds it. *)
Definition node_block (block_size capacity : Z) (id : ExtentIdentity) (n : ExtentNode) : R (list Z) :=
  bytes ← write_node block_size n capacity;
  if metadata_checksums id then
    let checksum_offset := 12 + capacity * 12 in
    body ← slice bytes 0 checksum_offset;
    put_le32 bytes checksum_offset (checksum (id_seed id) (identity_bytes id ++ body))
  else Ok bytes.

Fixpoint serialize_node (block_size capacity : Z) (id : ExtentIdentity) (n : ExtentNode) : R (list SerializedNode) :=
  own ← (if dirty n then
           match location n with
           | AtBlock number => bytes ← node_block block_size capacity id n; Ok [mkSerialized number bytes]
           | _ => corrupt InvalidExtentTree
           end
         else Ok []);
  rest ← (match n with
          | Leaf _ _ _ => Ok []
          | Branch _ _ cs =>
              (fix each (cs : list ExtentNode) : R (list SerializedNode) :=
                 match cs with
                 | [] => Ok []
                 | c :: cs => l ← serialize_node block_size capacity id c; ls ← each cs; Ok (l ++ ls)
                 end) cs
          end);
  Ok (own ++ rest).

End Codec.

(** * Walks over a tree *)

(** [data_extents] *)
Fixpoint extents_of (n : ExtentNode) : list Extent :=
  match n with Leaf _ _ es => es | Branch _ _ cs => flat_map extents_of cs end.

Fixpoint find (x : Z) (n : ExtentNode) : option (Z * ExtentState) :=
  match n with
  | Leaf _ _ es =>
      match partition_point (fun e => e_logical e <=? x) es with
      | O => None
      | S i =>
          e ← es !! i;
          if x <? logical_end e then Some (u64 (e_physical e + (x - e_logical e)), e_state e) else None
      end
  | Branch _ _ cs =>
      match partition_point (starts_by x) cs with
      | O => None
      | S i =>
          (fix at_ (i : nat) (cs : list ExtentNode) {struct cs} : option (Z * ExtentState) :=
             match cs with
             | [] => None
             | c :: cs => match i with O => find x c | S i => at_ i cs end
             end) i cs
      end
  end.

(** The external blocks at one depth. *)
Fixpoint blocks_at (wanted : Z) (n : ExtentNode) : list Z :=
  if depth n =? wanted then match location n with AtBlock b => [b] | _ => [] end
  else match n with Leaf _ _ _ => [] | Branch _ _ cs => flat_map (blocks_at wanted) cs end.

(** A root with too many entries becomes the only child of a new one. *)
Definition promote (r : ExtentNode) : ExtentNode :=
  if ROOT_CAPACITY <? entry_count r then Branch AtRoot true [set_location Unassigned r] else r.

(** The root takes over an only child as long as it has one. *)
Fixpoint collapse (n : ExtentNode) : ExtentNode * list Z :=
  match n with
  | Branch _ _ [] => (Leaf AtRoot true [], [])
  | Branch _ _ [c] =>
      let '(r, released) := collapse c in
      (mark true (set_location AtRoot r), (match location c with AtBlock b => [b] | _ => [] end) ++ released)
  | _ => (n, [])
  end.

(** The checks on the blocks given, each against those before it. *)
Fixpoint bad_blocks (r : ExtentNode) (seen blocks : list Z) : bool :=
  match blocks with
  | [] => false
  | b :: blocks =>
      (b =? 0) || negb ((b ≫ 48) =? 0) || existsb (Z.eqb b) seen || node_contains_block b r || node_contains_data_block b r
      || bad_blocks r (seen ++ [b]) blocks
  end.

(** * Trees *)

Module Tree.

Record ExtentTree := mkTree { root : ExtentNode; block_capacity : Z; released_nodes : list Z }.

Definition new_tree (root : ExtentNode) (block_capacity : Z) : R ExtentTree :=
  if negb (bool_decide (location root = AtRoot)) || (block_capacity <=? ROOT_CAPACITY) then corrupt InvalidExtentTree else
  _ ← validate block_capacity true root;
  Ok (mkTree root block_capacity []).

Definition grown (t : ExtentTree) (r : ExtentNode * option ExtentNode) : R ExtentTree :=
  match snd r with
  | Some _ => corrupt InvalidExtentTree
  | None =>
      let r := promote (fst r) in
      if MAX_DEPTH <? depth r then unsupported ExtentTreeTooDeep
      else Ok (mkTree r (block_capacity t) (released_nodes t))
  end.

Definition insert (t : ExtentTree) (e : Extent) : R ExtentTree :=
  _ ← new_extent (e_logical e) (e_physical e) (e_length e) (e_state e);
  if node_overlaps (e_logical e) (logical_end e) (root t)
     || node_overlaps_data (e_physical e) (e_length e) (root t)
     || node_overlaps_block_range (e_physical e) (e_length e) (root t)
  then corrupt InvalidExtentTree else
  r ← insert_node e (block_capacity t) (block_capacity t) (root t);
  grown t r.

Definition set_state (t : ExtentTree) (start end_ : Z) (state : ExtentState) : R ExtentTree :=
  if (end_ <=? start) || negb (node_has_different_state start end_ state (root t)) then Ok t else
  r ← set_state_range start end_ state (block_capacity t) (block_capacity t) (root t);
  grown t r.

Definition remove (t : ExtentTree) (start end_ : Z) : R (ExtentTree * list Extent) :=
  if end_ <=? start then Ok (t, []) else
  r ← remove_range start end_ (root t);
  let '(n, removed, released, _) := r in
  let '(n, collapsed) := collapse n in
  Ok (mkTree (set_location AtRoot n) (block_capacity t) (released_nodes t ++ released ++ collapsed), removed).

Definition unassigned_blocks (t : ExtentTree) : nat :=
  match root t with Leaf _ _ _ => O | Branch _ _ cs => list_sum (map count_unassigned cs) end.

Definition assign_blocks (t : ExtentTree) (blocks : list Z) : R ExtentTree :=
  if negb (length blocks =? unassigned_blocks t)%nat || bad_blocks (root t) [] blocks then corrupt InvalidExtentTree else
  match root t with
  | Leaf _ _ _ => match blocks with [] => Ok t | _ => corrupt InvalidExtentTree end
  | Branch l d cs =>
      r ← (fix each (cs : list ExtentNode) (blocks : list Z) {struct cs} : R (list ExtentNode * list Z) :=
             match cs with
             | [] => Ok ([], blocks)
             | c :: cs =>
                 r ← assign_new_blocks c blocks;
                 let '(c, blocks) := r in
                 rest ← each cs blocks;
                 let '(cs, blocks) := rest in
                 Ok (c :: cs, blocks)
             end) cs blocks;
      let '(cs, rest) := r in
      match rest with
      | [] => Ok (mkTree (Branch l d cs) (block_capacity t) (released_nodes t))
      | _ => corrupt InvalidExtentTree
      end
  end.

Definition data_extents (t : ExtentTree) : list Extent := extents_of (root t).

Definition lookup (t : ExtentTree) (logical : Z) : option (Z * ExtentState) := find logical (root t).

Definition external_blocks_by_level (t : ExtentTree) : list Z :=
  flat_map (fun d => blocks_at d (root t)) (seqZ 0 (depth (root t))).

Section Codec.
Context `{Crc}.

(** [block_size.checked_sub(16)? / 12] *)
Definition capacity_of (block_size : Z) : R Z :=
  if block_size <? 16 then corrupt InvalidExtentTree else Ok ((block_size - 16) / 12).

(** The mappings of a tree that was read, each against those before it. *)
Fixpoint check_extents (blocks_count : Z) (visited : list Z) (seen es : list Extent) : R () :=
  match es with
  | [] => Ok tt
  | e :: es =>
      if (match list.last seen with Some p => e_logical e <? logical_end p | None => false end) then corrupt InvalidExtentTree else
      let end_ := e_physical e + e_length e in
      if blocks_count <? end_ then corrupt InvalidExtentTree else
      if existsb (Z.eqb (e_physical e)) visited || existsb (fun b => (e_physical e <? b) && (b <? end_)) visited
         || existsb (fun p => (e_physical e <? u64 (e_physical p + e_length p)) && (e_physical p <? end_)) seen
      then corrupt InvalidExtentTree
      else check_extents blocks_count visited (seen ++ [e]) es
  end.

Definition load (root_bytes : list Z) (block_size blocks_count : Z) (id : ExtentIdentity) (read_block : Z -> R (list Z))
    : R ExtentTree :=
  block_capacity ← capacity_of block_size;
  if block_capacity <=? ROOT_CAPACITY then corrupt InvalidExtentTree else
  depth ← extent_header root_bytes ROOT_CAPACITY;
  if MAX_DEPTH <? depth then unsupported ExtentTreeTooDeep else
  r ← load_node (Z.to_nat depth) root_bytes AtRoot ROOT_CAPACITY block_capacity blocks_count id read_block [];
  let '(root, visited) := r in
  tree ← new_tree root block_capacity;
  _ ← check_extents blocks_count visited [] (data_extents tree);
  Ok tree.

Definition write_root (t : ExtentTree) (target_len : Z) : R (list Z) := write_node target_len (root t) ROOT_CAPACITY.

Definition serialize_dirty (t : ExtentTree) (block_size : Z) (id : ExtentIdentity) : R (list SerializedNode) :=
  capacity ← capacity_of block_size;
  match root t with
  | Leaf _ _ _ => Ok []
  | Branch _ _ cs =>
      (fix each (cs : list ExtentNode) : R (list SerializedNode) :=
         match cs with
         | [] => Ok []
         | c :: cs => l ← serialize_node block_size capacity id c; ls ← each cs; Ok (l ++ ls)
         end) cs
  end.
End Codec.
End Tree.
