(* ===== verification/ExtentsFacts.v ===== *)
(** Facts on extent trees: merging records keeps what a list of extents maps,
    and the operations on nodes act on the extents of the whole tree as on
    one sorted list. *)

From Stdlib Require Import ZArith Lia Bool Sorted.
From stdpp Require Import base option list numbers.
From S2P Require Import Prelude Ext4 Extents.
Local Open Scope machine_scope.

(** * Extents as a mapping *)

Record valid (e : Extent) : Prop := {
  v_logical : 0 <= e_logical e < 2 ^ 32;
  v_end : logical_end e <= 2 ^ 32;
  v_length : 0 < e_length e <= max_length (e_state e);
  v_physical : 0 < e_physical e;
  v_physical_end : e_physical e + e_length e <= 2 ^ 48
}.

Definition covers (e : Extent) (x : Z) : bool := (e_logical e <=? x) && (x <? logical_end e).

Definition place (e : Extent) (x : Z) : Z * ExtentState := (e_physical e + (x - e_logical e), e_state e).

(** The block of the device that holds block [x] of the file. *)
Fixpoint mapped (es : list Extent) (x : Z) : option (Z * ExtentState) :=
  match es with
  | [] => None
  | e :: es => if covers e x then Some (place e x) else mapped es x
  end.

Definition before (a b : Extent) : Prop := logical_end a <= e_logical b.
Definition sorted : list Extent -> Prop := StronglySorted before.

Lemma mapped_app a b x : mapped (a ++ b) x = match mapped a x with Some r => Some r | None => mapped b x end.
Proof. induction a as [|e a IH]; [done|]. cbn. destruct (covers e x); [done|exact IH]. Qed.

Lemma mapped_None es x : (forall e, e ∈ es -> covers e x = false) -> mapped es x = None.
Proof.
  induction es as [|e es IH]; intros Hc; [done|]. cbn. rewrite (Hc e) by left. apply IH. intros e' He. apply Hc. by right.
Qed.

Lemma sorted_app a b : sorted (a ++ b) <-> sorted a /\ sorted b /\ forall x y, x ∈ a -> y ∈ b -> before x y.
Proof.
  unfold sorted. induction a as [|e a IH]; cbn [app].
  - split; [intros; split_and!; [constructor|done|]|tauto]. intros x y Hx. by apply not_elem_of_nil in Hx.
  - split.
    + inversion 1 as [|? ? Hs Hf]; subst. apply IH in Hs as (Ha & Hb & Hab). apply list.Forall_app in Hf as [Hfa Hfb].
      split_and!; [by constructor|done|]. intros x y Hx Hy. apply elem_of_cons in Hx as [->|Hx]; [|by apply Hab].
      exact (proj1 (list.Forall_forall _ _) Hfb y Hy).
    + intros (Ha & Hb & Hab). inversion Ha as [|? ? Hs Hf]; subst. constructor.
      * apply IH. split_and!; [done|done|]. intros x y Hx Hy. apply Hab; [by right|done].
      * apply list.Forall_app. split; [done|]. apply list.Forall_forall. intros y Hy. apply Hab; [left|done].
Qed.

Lemma sorted_cons e es : sorted (e :: es) <-> sorted es /\ forall y, y ∈ es -> before e y.
Proof.
  change (e :: es) with ([e] ++ es). rewrite sorted_app. split.
  - intros (_ & Hs & Hb). split; [done|]. intros y Hy. apply Hb; [by apply list_elem_of_singleton|done].
  - intros [Hs Hb]. split_and!; [repeat constructor|done|]. intros x y Hx%list_elem_of_singleton Hy. subst. by apply Hb.
Qed.

(** * Merging *)

Definition joined (l r : Extent) : Extent := mkExtent (e_logical l) (e_physical l) (u32 (e_length l + e_length r)) (e_state l).

Inductive merges : list Extent -> list Extent -> Prop :=
| merges_refl es : merges es es
| merges_step a l r b es : can_merge l r = true -> merges (a ++ joined l r :: b) es -> merges (a ++ l :: r :: b) es.

Lemma merges_trans a b c : merges a b -> merges b c -> merges a c.
Proof. induction 1; [done|]. intros. eapply merges_step; eauto. Qed.

Lemma merges_frame p q a b : merges a b -> merges (p ++ a ++ q) (p ++ b ++ q).
Proof.
  induction 1 as [|a l r b es Hc _ IH]; [constructor|].
  replace (p ++ (a ++ l :: r :: b) ++ q) with ((p ++ a) ++ l :: r :: (b ++ q)) by (rewrite <- !app_assoc; reflexivity).
  apply merges_step; [done|]. rewrite <- app_assoc. rewrite <- app_assoc in IH. exact IH.
Qed.

Lemma merges_app a a' b b' : merges a a' -> merges b b' -> merges (a ++ b) (a' ++ b').
Proof.
  intros Ha Hb. eapply merges_trans.
  - pose proof (merges_frame [] b a a' Ha) as Hf. exact Hf.
  - pose proof (merges_frame a' [] b b' Hb) as Hf. by rewrite !app_nil_r in Hf.
Qed.

Lemma merge_from_merges es : forall e, merges (e :: es) (merge_from e es).
Proof.
  induction es as [|r es IH]; intros e; cbn [merge_from]; [constructor|]. destruct (can_merge e r) eqn:E.
  - apply (merges_step [] e r es); [done|]. apply IH.
  - pose proof (merges_frame [e] [] (r :: es) (merge_from r es) (IH r)) as Hf. by rewrite !app_nil_r in Hf.
Qed.

Lemma merge_leaf_merges es : merges es (merge_leaf es).
Proof. destruct es as [|e es]; [constructor|apply merge_from_merges]. Qed.

(** What merging needs of two records. *)
Lemma can_merge_spec l r : valid l -> valid r -> can_merge l r = true ->
  e_state l = e_state r /\ logical_end l = e_logical r /\ e_physical l + e_length l = e_physical r /\
  e_length (joined l r) = e_length l + e_length r /\ e_length l + e_length r <= max_length (e_state l).
Proof.
  intros Hl Hr Hc. unfold can_merge in Hc. rewrite !andb_true_iff, bool_decide_eq_true in Hc. destruct Hc as [[[Hs He] Hp] Hm].
  assert (max_length (e_state l) <= 32768 /\ max_length (e_state r) <= 32768) as [Hml Hmr]
    by (unfold max_length, WRITTEN_MAX_LEN, UNWRITTEN_MAX_LEN; destruct (e_state l), (e_state r); lia).
  destruct Hl as [? ? ? ? ?], Hr as [? ? ? ? ?]. rewrite wrap_small in Hp by (unfold fits; lia). cbn.
  rewrite wrap_small in Hm |- * by (unfold fits; lia). split_and!; try done; lia.
Qed.

Lemma joined_valid l r : valid l -> valid r -> can_merge l r = true -> valid (joined l r).
Proof.
  intros Hl Hr Hc. destruct (can_merge_spec l r Hl Hr Hc) as (Hs & He & Hp & Hn & Hm).
  destruct Hl as [? ? ? ? ?], Hr as [? ? ? ? ?]. unfold logical_end in *. rewrite <- Hs in *.
  split; unfold logical_end; rewrite ?Hn; cbn in *; lia.
Qed.

Lemma joined_covers l r x : valid l -> valid r -> can_merge l r = true ->
  mapped [joined l r] x = mapped [l; r] x.
Proof.
  intros Hl Hr Hc. destruct (can_merge_spec l r Hl Hr Hc) as (Hs & He & Hp & Hn & Hm).
  destruct Hl as [? ? ? ? ?], Hr as [? ? ? ? ?]. unfold logical_end in *. cbn [mapped]. unfold covers, place, logical_end. rewrite Hn. cbn [e_logical e_physical e_state joined].
  destruct (Z.leb_spec (e_logical l) x), (Z.ltb_spec x (e_logical l + (e_length l + e_length r))),
    (Z.ltb_spec x (e_logical l + e_length l)), (Z.leb_spec (e_logical r) x), (Z.ltb_spec x (e_logical r + e_length r)); cbn;
    try done; try lia. rewrite <- Hs. do 2 f_equal. lia.
Qed.

(** What merging keeps. *)
Lemma merges_keep es es' : merges es es' -> Forall valid es ->
  Forall valid es' /\ (forall x, mapped es' x = mapped es x) /\ (sorted es -> sorted es') /\
  (e_logical <$> head es') = (e_logical <$> head es) /\ (length es' <= length es)%nat /\ (es <> [] -> es' <> []).
Proof.
  induction 1 as [|a l r b es' Hc _ IH]; intros Hv; [done|].
  pose proof Hv as Hv'. apply list.Forall_app in Hv as [Ha Hb]. inversion Hb as [|? ? Hl Hb']; subst. inversion Hb' as [|? ? Hr Hb'']; subst.
  pose proof (joined_valid l r Hl Hr Hc) as Hj. destruct (can_merge_spec l r Hl Hr Hc) as (Hs & He & Hp & Hn & Hm).
  destruct IH as (I1 & I2 & I3 & I4 & I5 & I6); [apply list.Forall_app; split; [done|by constructor]|].
  split_and!; [done| | | | |].
  - intros x. rewrite I2, !mapped_app. destruct (mapped a x); [done|].
    change (l :: r :: b) with ([l; r] ++ b). change (joined l r :: b) with ([joined l r] ++ b). by rewrite !mapped_app, joined_covers.
  - intros Hso. apply I3. apply sorted_app in Hso as (Sa & Sb & Sab). apply sorted_cons in Sb as [Sb Slb]. apply sorted_cons in Sb as [Sb Srb].
    apply sorted_app. split_and!; [done| |].
    + apply sorted_cons. split; [done|]. intros y Hy. unfold before. unfold logical_end. rewrite Hn. cbn [e_logical joined].
      pose proof (Srb y Hy) as Hy'. unfold before, logical_end in *. lia.
    + intros x y Hx Hy. apply elem_of_cons in Hy as [->|Hy]; [apply (Sab x l); [done|left]|]. apply Sab; [done|by do 2 right].
  - rewrite I4. by destruct a.
  - rewrite !length_app in *. cbn in *. lia.
  - intros _. apply I6. by destruct a.
Qed.

(** * The shape of a tree *)

(** A node of depth [d] with at most [m] entries, and every node below it with
    at most [bc] of them and something in it. *)
Fixpoint shape (bc : Z) (d : nat) (m : Z) (n : ExtentNode) : Prop :=
  match d, n with
  | O, Leaf _ _ es => zlen es <= m
  | S d, Branch _ _ cs => cs <> [] /\ zlen cs <= m /\ Forall (fun c => shape bc d bc c /\ extents_of c <> []) cs
  | _, _ => False
  end.

Lemma shape_depth bc d : forall m n, shape bc d m n -> depth n = Z.of_nat d.
Proof.
  induction d as [|d IH]; intros m [l dd es|l dd cs]; cbn [shape]; try done. intros (Hne & _ & Hf).
  destruct cs as [|c cs]; [done|]. inversion Hf as [|? ? [Hc _] _]; subst. cbn [depth]. rewrite (IH _ _ Hc). lia.
Qed.

Lemma first_logical_head bc d : forall m n, shape bc d m n -> first_logical n = e_logical <$> head (extents_of n).
Proof.
  induction d as [|d IH]; intros m [l dd es|l dd cs]; cbn [shape]; try done. intros (Hne & _ & Hf).
  destruct cs as [|c cs]; [done|]. inversion Hf as [|? ? [Hc Hec] _]; subst. cbn [first_logical extents_of flat_map].
  rewrite (IH _ _ Hc). by destruct (extents_of c).
Qed.

Lemma shape_mono bc d m m' n : shape bc d m n -> m <= m' -> shape bc d m' n.
Proof. destruct d, n; cbn; intros; try done; [lia|]. destruct_and!. split_and!; try done. lia. Qed.

Lemma shape_location bc d m l n : shape bc d m (set_location l n) <-> shape bc d m n.
Proof. by destruct d, n. Qed.
Lemma shape_mark bc d m b n : shape bc d m (mark b n) <-> shape bc d m n.
Proof. by destruct d, n. Qed.
Lemma extents_location l n : extents_of (set_location l n) = extents_of n.
Proof. by destruct n. Qed.
Lemma extents_mark b n : extents_of (mark b n) = extents_of n.
Proof. by destruct n. Qed.

Lemma partition_point_spec {A} (f : A -> bool) l :
  Forall (fun x => f x = true) (take (partition_point f l) l) /\
  (forall x, head (drop (partition_point f l) l) = Some x -> f x = false) /\ (partition_point f l <= length l)%nat.
Proof.
  induction l as [|x l (I1 & I2 & I3)]; cbn; [split_and!; [constructor|done|lia]|]. destruct (f x) eqn:E; cbn.
  - split_and!; [by constructor|done|lia].
  - split_and!; [constructor|by intros ? [= <-]|lia].
Qed.

(** The records around [x] in a sorted list. *)
Lemma after_head es x : sorted es -> Forall valid es -> (forall e, head es = Some e -> x < e_logical e) -> forall e, e ∈ es -> x < e_logical e.
Proof.
  destruct es as [|h es]; intros Hs Hv Hh e He; [by apply not_elem_of_nil in He|]. specialize (Hh h eq_refl).
  apply elem_of_cons in He as [->|He]; [done|]. apply sorted_cons in Hs as [_ Hb]. inversion Hv as [|? ? [] _]; subst.
  specialize (Hb e He). unfold before, logical_end in *. lia.
Qed.

Lemma mapped_between a b c x :
  (forall e, e ∈ a -> logical_end e <= x) -> (forall e, e ∈ c -> x < e_logical e) -> mapped (a ++ b ++ c) x = mapped b x.
Proof.
  intros Ha Hc. rewrite !mapped_app. rewrite (mapped_None a) by (intros e He; specialize (Ha e He); unfold covers; lia).
  rewrite (mapped_None c) by (intros e He; specialize (Hc e He); unfold covers; lia). by destruct (mapped b x).
Qed.

Lemma elem_of_flat {A B} (f : A -> list B) y l : y ∈ flat_map f l <-> exists x, x ∈ l /\ y ∈ f x.
Proof.
  induction l as [|x l IH]; cbn.
  - split; [by intros ?%not_elem_of_nil|]. intros (x & Hx & _). by apply not_elem_of_nil in Hx.
  - rewrite elem_of_app, IH. split.
    + intros [Hy|(z & Hz & Hy)]; [exists x; split; [left|done]|exists z; split; [by right|done]].
    + intros (z & Hz & Hy). apply elem_of_cons in Hz as [->|Hz]; [by left|right; eauto].
Qed.

Lemma flat_map_app {A B} (f : A -> list B) a b : flat_map f (a ++ b) = flat_map f a ++ flat_map f b.
Proof. apply List.flat_map_app. Qed.

Section Children.
Context (bc : Z) (d : nat) (cs : list ExtentNode).
Context (Hf : Forall (fun c => shape bc d bc c /\ extents_of c <> []) cs).
Context (Hs : sorted (flat_map extents_of cs)) (Hv : Forall valid (flat_map extents_of cs)).

Lemma child_first c : c ∈ cs -> exists e es, extents_of c = e :: es /\ first_logical c = Some (e_logical e).
Proof.
  intros Hc. destruct (proj1 (list.Forall_forall _ _) Hf c Hc) as [Hsh Hne]. rewrite (first_logical_head _ _ _ _ Hsh).
  destruct (extents_of c) as [|e es]; [done|]. by exists e, es.
Qed.

(** The children before the chosen one end, and those after it begin, on the
    right side of [x]. *)
Lemma children_split x i :
  partition_point (starts_by x) cs = S i ->
  exists l c r, cs = l ++ c :: r /\ length l = i /\ (forall e, e ∈ flat_map extents_of l -> logical_end e <= x) /\
    (forall e, e ∈ flat_map extents_of r -> x < e_logical e).
Proof.
  intros Hp. destruct (partition_point_spec (starts_by x) cs) as (H1 & H2 & H3). rewrite Hp in *.
  destruct (lookup_lt_is_Some_2 cs i ltac:(lia)) as [c Hc]. exists (take i cs), c, (drop (S i) cs).
  rewrite (take_S_r _ _ _ Hc) in H1. apply list.Forall_app in H1 as [_ H1]. inversion H1 as [|? ? Hcx _]; subst.
  assert (c ∈ cs) as Hcin by by eapply list_elem_of_lookup_2.
  destruct (child_first c Hcin) as (ec & ecs & Eec & Efl). unfold starts_by in Hcx. rewrite Efl in Hcx.
  assert (cs = take i cs ++ c :: drop (S i) cs) as Ecs by (symmetry; by apply take_drop_middle).
  pose proof Hs as Hs'. rewrite Ecs, flat_map_app in Hs'. cbn [flat_map] in Hs'. apply sorted_app in Hs' as (_ & Hs2 & Hb).
  split_and!; [done|apply length_take_le; lia| |].
  - intros e He. assert (before e ec) as Hbe by (apply Hb; [done|]; rewrite Eec; left). unfold before in Hbe. lia.
  - apply sorted_app in Hs2 as (_ & Hs3 & _). apply after_head; [done| |].
    + rewrite Ecs, flat_map_app in Hv. cbn [flat_map] in Hv. apply list.Forall_app in Hv as [_ Hv']. by apply list.Forall_app in Hv' as [_ Hv'].
    + intros e He. destruct (drop (S i) cs) as [|c' r] eqn:Ed; [done|]. specialize (H2 c' eq_refl).
      assert (c' ∈ cs) as Hc' by (eapply (elem_of_sublist (drop (S i) cs)); [rewrite Ed; left|apply sublist_drop]).
      destruct (child_first c' Hc') as (e' & es' & Ee' & Efl'). unfold starts_by in H2. rewrite Efl' in H2.
      cbn [flat_map] in He. rewrite Ee' in He. injection He as <-. lia.
Qed.

Lemma children_after x : partition_point (starts_by x) cs = O -> forall e, e ∈ flat_map extents_of cs -> x < e_logical e.
Proof.
  intros Hp. destruct (partition_point_spec (starts_by x) cs) as (_ & H2 & _). rewrite Hp, drop_0 in H2. apply after_head; [done|done|].
  intros e He. assert (cs = [] \/ exists c r, cs = c :: r) as [Ed|(c & r & Ed)] by (clear; destruct cs; eauto); [by rewrite Ed in He|].
  assert (starts_by x c = false) as H3 by (apply H2; by rewrite Ed). clear H2. rename H3 into H2.
  destruct (child_first c ltac:(rewrite Ed; left)) as (e' & es' & Ee' & Efl'). unfold starts_by in H2. rewrite Efl' in H2.
  rewrite Ed in He. cbn [flat_map] in He. rewrite Ee' in He. injection He as <-. lia.
Qed.
End Children.

(** * Lookup *)

Lemma find_branch x l dd cs :
  find x (Branch l dd cs) = match partition_point (starts_by x) cs with O => None | S i => c ← cs !! i; find x c end.
Proof.
  cbn [find]. destruct (partition_point _ cs) as [|i]; [done|]. revert i. induction cs as [|c cs IH]; intros [|i]; [done..|].
  apply IH.
Qed.

Lemma leaf_split es x i :
  sorted es -> Forall valid es -> partition_point (fun e => e_logical e <=? x) es = S i ->
  exists l e r, es = l ++ e :: r /\ length l = i /\ e_logical e <= x /\ (forall a, a ∈ l -> logical_end a <= x) /\
    (forall a, a ∈ r -> x < e_logical a).
Proof.
  intros Hs Hv Hp. destruct (partition_point_spec (fun e => e_logical e <=? x) es) as (H1 & H2 & H3). rewrite Hp in *.
  destruct (lookup_lt_is_Some_2 es i ltac:(lia)) as [e He]. exists (take i es), e, (drop (S i) es).
  rewrite (take_S_r _ _ _ He) in H1. apply list.Forall_app in H1 as [_ H1]. inversion H1 as [|? ? Hex _]; subst.
  assert (es = take i es ++ e :: drop (S i) es) as Ees by (symmetry; by apply take_drop_middle).
  rewrite Ees in Hs, Hv. apply sorted_app in Hs as (_ & Hs & Hb). apply sorted_cons in Hs as [Hs _].
  apply list.Forall_app in Hv as [_ Hv]. inversion Hv; subst.
  split_and!; [done|apply length_take_le; lia|lia| |].
  - intros a Ha. specialize (Hb a e Ha ltac:(left)). unfold before in Hb. lia.
  - apply after_head; [done|done|]. intros a Ha. specialize (H2 a Ha). cbn in H2. lia.
Qed.

Lemma place_wraps e x : valid e -> covers e x = true -> u64 (e_physical e + (x - e_logical e)) = e_physical e + (x - e_logical e).
Proof. intros [] Hc. unfold covers, logical_end in *. apply wrap_small. unfold fits. lia. Qed.

Lemma find_spec bc d : forall m n x, shape bc d m n -> sorted (extents_of n) -> Forall valid (extents_of n) ->
  find x n = mapped (extents_of n) x.
Proof.
  induction d as [|d IH]; intros m [l dd es|l dd cs] x Hsh Hs Hv; try done.
  - clear Hsh. cbn [find extents_of] in *. destruct (partition_point _ es) as [|i] eqn:Ep.
    + destruct (partition_point_spec (fun e => e_logical e <=? x) es) as (_ & H2 & _). rewrite Ep, drop_0 in H2.
      symmetry. apply mapped_None. intros e He. assert (x < e_logical e); [|unfold covers; lia].
      apply (after_head es x Hs Hv); [|done]. intros a Ha. specialize (H2 a Ha). cbn in H2. lia.
    + destruct (leaf_split es x i Hs Hv Ep) as (a & e & r & -> & <- & Hex & Ha & Hr). rewrite list_lookup_middle by done. cbn [mbind option_bind].
      change (e :: r) with ([e] ++ r). rewrite mapped_between by done. cbn [mapped]. unfold covers at 1.
      rewrite (proj2 (Z.leb_le _ _) Hex). cbn [andb]. destruct (x <? logical_end e) eqn:El; [|done]. unfold place. rewrite place_wraps; [done| |unfold covers; lia].
      apply list.Forall_app in Hv as [_ Hv]. by inversion Hv.
  - destruct Hsh as (_ & _ & Hf). rewrite find_branch. cbn [extents_of] in *. destruct (partition_point _ cs) as [|i] eqn:Ep.
    + symmetry. apply mapped_None. intros e He. pose proof (children_after bc d cs Hf Hs Hv x Ep e He). unfold covers. lia.
    + destruct (children_split bc d cs Hf Hs Hv x i Ep) as (a & c & r & -> & <- & Ha & Hr).
      rewrite list_lookup_middle by done. cbn [mbind option_bind]. rewrite flat_map_app in *. cbn [flat_map] in *.
      rewrite mapped_between by done. apply list.Forall_app in Hf as [_ Hf]. inversion Hf as [|? ? [Hc _] _]; subst.
      apply sorted_app in Hs as (_ & Hs & _). apply sorted_app in Hs as (Hs & _ & _).
      apply list.Forall_app in Hv as [_ Hv]. apply list.Forall_app in Hv as [Hv _]. by apply (IH bc).
Qed.

(** * Insertion *)

(** A record put in its place. *)
Definition ins (e : Extent) (es : list Extent) : list Extent :=
  let k := partition_point (fun x => e_logical x <? e_logical e) es in take k es ++ e :: drop k es.

Lemma partition_point_app {A} (f : A -> bool) a b : Forall (fun x => f x = true) a -> partition_point f (a ++ b) = (length a + partition_point f b)%nat.
Proof. induction 1 as [|x a Hx _ IH]; [done|]. cbn. by rewrite Hx, IH. Qed.

Lemma partition_point_stop {A} (f : A -> bool) a b : Forall (fun x => f x = false) b -> partition_point f (a ++ b) = partition_point f a.
Proof.
  intros Hb. induction a as [|x a IH]; cbn; [|by rewrite IH]. destruct Hb as [|y b Hy _]; [done|]. cbn. by rewrite Hy.
Qed.

Lemma ins_between e a b c :
  (forall x, x ∈ a -> e_logical x < e_logical e) -> (forall x, x ∈ c -> e_logical e <= e_logical x) ->
  ins e (a ++ b ++ c) = a ++ ins e b ++ c.
Proof.
  intros Ha Hc. unfold ins. cbv zeta. rewrite partition_point_app by (apply list.Forall_forall; intros x Hx; specialize (Ha x Hx); lia).
  rewrite partition_point_stop by (apply list.Forall_forall; intros x Hx; specialize (Hc x Hx); lia).
  destruct (partition_point_spec (fun x => e_logical x <? e_logical e) b) as (_ & _ & Hk). set (k := partition_point _ b) in *.
  rewrite take_app_add, drop_app_add. rewrite <- !app_assoc. f_equal. rewrite take_app_le, drop_app_le by lia. done.
Qed.

Lemma ins_elem e es x : x ∈ ins e es <-> x = e \/ x ∈ es.
Proof.
  unfold ins. cbv zeta. set (k := partition_point _ es). rewrite elem_of_app, elem_of_cons. rewrite <- (take_drop k es) at 3. rewrite elem_of_app. tauto.
Qed.

(** No record of the list overlaps [e]. *)
Definition apart (e : Extent) (es : list Extent) : Prop := forall x, x ∈ es -> before x e \/ before e x.

Lemma apart_overlaps e es : Forall valid es -> valid e -> existsb (fun x => overlaps x (e_logical e) (logical_end e)) es = false -> apart e es.
Proof.
  intros Hv He Hx x Hin. unfold before. destruct (overlaps x (e_logical e) (logical_end e)) eqn:E; [|unfold overlaps in E; lia].
  assert (existsb (fun x => overlaps x (e_logical e) (logical_end e)) es = true) as Ht; [|by rewrite Ht in Hx].
  apply existsb_exists. exists x. split; [by apply list_elem_of_In|done].
Qed.

Lemma ins_sorted e es : sorted es -> Forall valid es -> valid e -> apart e es -> sorted (ins e es).
Proof.
  intros Hs Hv He Ha. unfold ins. cbv zeta. destruct (partition_point_spec (fun x => e_logical x <? e_logical e) es) as (H1 & H2 & _).
  set (k := partition_point _ es) in *. rewrite <- (take_drop k es) in Hs, Hv. apply sorted_app in Hs as (S1 & S2 & S12).
  apply list.Forall_app in Hv as [V1 V2].
  assert (forall x, x ∈ take k es -> before x e) as B1.
  { intros x Hx. destruct (Ha x) as [Hb|Hb]; [eapply elem_of_sublist; [exact Hx|apply sublist_take]|done|].
    pose proof (proj1 (list.Forall_forall _ _) H1 x Hx) as Hlt. cbn in Hlt. destruct He. unfold before, logical_end in *. lia. }
  assert (forall x, x ∈ drop k es -> before e x) as B2.
  { intros x Hx. destruct (Ha x) as [Hb|Hb]; [eapply elem_of_sublist; [exact Hx|apply sublist_drop]| |done]. exfalso.
    assert (e_logical e - 1 < e_logical x) as Hge.
    { apply (after_head (drop k es)); [done|done| |done]. intros a Hh. specialize (H2 a Hh). cbn in H2. lia. }
    pose proof (proj1 (list.Forall_forall _ _) V2 x Hx) as []. unfold before, logical_end in *. lia. }
  apply sorted_app. split_and!; [done|apply sorted_cons; by split|].
  intros x y Hx Hy. apply elem_of_cons in Hy as [->|Hy]; [by apply B1|by apply S12].
Qed.

Lemma mapped_ins e es x : sorted es -> Forall valid es -> valid e -> apart e es ->
  mapped (ins e es) x = if covers e x then Some (place e x) else mapped es x.
Proof.
  intros Hs Hv He Ha. unfold ins. cbv zeta. set (k := partition_point _ es). rewrite <- (take_drop k es) at 3. rewrite !mapped_app. cbn [mapped].
  destruct (covers e x) eqn:E; [|done]. rewrite mapped_None; [done|]. intros y Hy.
  assert (y ∈ es) as Hin by (eapply elem_of_sublist; [exact Hy|apply sublist_take]).
  destruct (Ha y Hin) as [Hb|Hb]; unfold before, covers in *; lia.
Qed.

Lemma Forall_ins (P : Extent -> Prop) e es : Forall P es -> P e -> Forall P (ins e es).
Proof. intros Hs He. apply list.Forall_forall. intros x [->|Hx]%ins_elem; [done|]. exact (proj1 (list.Forall_forall _ _) Hs x Hx). Qed.

Lemma length_ins e es : length (ins e es) = S (length es).
Proof.
  unfold ins. cbv zeta. set (k := partition_point _ es). rewrite length_app. cbn [length]. rewrite <- (take_drop k es) at 3. rewrite length_app. lia.
Qed.

Definition sibling_list (o : option ExtentNode) : list ExtentNode := match o with Some s => [s] | None => [] end.

(** A node and the sibling split off it. *)
Definition both (r : ExtentNode * option ExtentNode) : list ExtentNode := fst r :: sibling_list (snd r).

Lemma insert_branch e bc cap l dd a c r :
  (partition_point (starts_by (e_logical e)) (a ++ c :: r) - 1)%nat = length a ->
  insert_node e bc cap (Branch l dd (a ++ c :: r)) =
    (x ← insert_node e bc bc c; Ok (split_full cap (Branch l true (a ++ both x ++ r)))).
Proof.
  intros Hp. cbn [insert_node]. rewrite Hp. clear Hp. set (f := fix at_ (i : nat) (cs : list ExtentNode) {struct cs} := _).
  assert (f (length a) (a ++ c :: r) = (x ← insert_node e bc bc c; Ok (a ++ both x ++ r))) as ->.
  { induction a as [|y a IH]; cbn [app length].
    - unfold f at 1. destruct (insert_node e bc bc c) as [[c' [p|]]| |]; reflexivity.
    - change (f (S (length a)) (y :: a ++ c :: r)) with (cs ← f (length a) (a ++ c :: r); Ok (y :: cs)). rewrite IH.
      destruct (insert_node e bc bc c); reflexivity. }
  destruct (insert_node e bc bc c); reflexivity.
Qed.

Lemma flat_nonempty (P : ExtentNode -> Prop) cs : Forall (fun c => P c /\ extents_of c <> []) cs -> cs <> [] -> flat_map extents_of cs <> [].
Proof. intros [|c cs' [_ Hc] _] Hne; [done|]. cbn. by destruct (extents_of c). Qed.

Lemma take_nonempty {A} k (l : list A) : (0 < k)%nat -> l <> [] -> take k l <> [].
Proof. destruct k, l; [lia|lia|done|done]. Qed.
Lemma drop_nonempty {A} k (l : list A) : (k < length l)%nat -> drop k l <> [].
Proof. intros Hk E. apply (f_equal length) in E. rewrite length_drop in E. cbn in E. lia. Qed.

(** The halves of a node. *)
Lemma split_full_spec bc d m n : 2 <= bc -> m <= 2 * bc -> shape bc d m n -> extents_of n <> [] ->
  let r := split_full bc n in
  flat_map extents_of (both r) = extents_of n /\ Forall (fun c => shape bc d bc c /\ extents_of c <> []) (both r) /\
  (m <= bc -> r = (n, None)) /\ (snd r <> None -> bc < entry_count n) /\ location (fst r) = location n /\ dirty (fst r) = dirty n.
Proof.
  intros Hb Hm Hs Hne r. unfold r, split_full. destruct (Z.leb_spec (entry_count n) bc) as [Hc|Hc].
  - cbn. rewrite app_nil_r. split_and!; try done. constructor; [|constructor]. split; [|done].
    destruct d, n; cbn in *; try done. by destruct_and!.
  - assert (m <= bc -> False) as Hm' by (intros; destruct d, n; cbn in *; try done; destruct_and?; lia).
    destruct d as [|d], n as [l dd es|l dd cs]; try done; cbn [entry_count] in Hc.
    + cbn [shape] in Hs. pose proof (Nat.div_mod_eq (length es) 2) as Hk2. pose proof (Nat.mod_upper_bound (length es) 2 ltac:(lia)).
      cbv zeta. unfold both, sibling_list. cbn [fst snd]. cbn [flat_map extents_of]. rewrite app_nil_r, take_drop.
      split_and!; [done| |by intros|by intros _|done|done]. constructor; [|constructor; [|constructor]].
      * split; [cbn [shape]; rewrite length_take; lia|]. cbn [extents_of]. apply take_nonempty; [lia|done].
      * split; [cbn [shape]; rewrite length_drop; lia|]. cbn [extents_of]. apply drop_nonempty. lia.
    + cbn [shape] in Hs. destruct Hs as (Hcs & Hl & Hf). pose proof (Nat.div_mod_eq (length cs) 2) as Hk2. pose proof (Nat.mod_upper_bound (length cs) 2 ltac:(lia)).
      cbv zeta. unfold both, sibling_list. cbn [fst snd]. cbn [flat_map extents_of]. rewrite app_nil_r, <- flat_map_app, take_drop.
      assert (take (length cs / 2) cs <> []) as H1 by (apply take_nonempty; [lia|done]).
      assert (drop (length cs / 2) cs <> []) as H2 by (apply drop_nonempty; lia).
      pose proof (Forall_take _ (length cs / 2)%nat _ Hf) as F1. pose proof (Forall_drop _ (length cs / 2)%nat _ Hf) as F2.
      split_and!; [done| |by intros|by intros _|done|done]. constructor; [|constructor; [|constructor]].
      * split; [cbn [shape]; split_and!; [done|rewrite length_take; lia|done]|]. exact (flat_nonempty _ _ F1 H1).
      * split; [cbn [shape]; split_and!; [done|rewrite length_drop; lia|done]|]. exact (flat_nonempty _ _ F2 H2).
Qed.

Lemma partition_pred {A} (f : A -> bool) (l : list A) : l <> [] ->
  exists a c r, l = a ++ c :: r /\ (partition_point f l - 1)%nat = length a.
Proof.
  intros Hne. destruct (partition_point_spec f l) as (_ & _ & Hk).
  destruct (lookup_lt_is_Some_2 l (partition_point f l - 1)) as [c Hc]; [destruct l; cbn in *; [done|lia]|].
  exists (take (partition_point f l - 1) l), c, (drop (S (partition_point f l - 1)) l). split; [symmetry; by apply take_drop_middle|].
  rewrite length_take_le; [done|]. apply lookup_lt_Some in Hc. lia.
Qed.

(** Where the record goes among the children. *)
Lemma insert_position bc d cs e :
  cs <> [] -> Forall (fun c => shape bc d bc c /\ extents_of c <> []) cs ->
  sorted (flat_map extents_of cs) -> Forall valid (flat_map extents_of cs) ->
  exists a c r, cs = a ++ c :: r /\ (partition_point (starts_by (e_logical e)) cs - 1)%nat = length a /\
    ins e (flat_map extents_of cs) = flat_map extents_of a ++ ins e (extents_of c) ++ flat_map extents_of r.
Proof.
  intros Hne Hf Hs Hv. destruct (partition_point (starts_by (e_logical e)) cs) as [|i] eqn:Ep.
  - destruct cs as [|c r]; [done|]. exists [], c, r. split_and!; [done|done|].
    pose proof (children_after bc d (c :: r) Hf Hs Hv _ Ep) as Ha. cbn [flat_map app] in *.
    apply (ins_between e [] (extents_of c)); [intros x Hx; by apply not_elem_of_nil in Hx|].
    intros x Hx. specialize (Ha x ltac:(rewrite elem_of_app; by right)). lia.
  - destruct (children_split bc d cs Hf Hs Hv _ i Ep) as (a & c & r & -> & <- & Ha & Hr). exists a, c, r.
    split_and!; [done|lia|]. rewrite flat_map_app. cbn [flat_map]. apply ins_between.
    + intros x Hx. specialize (Ha x Hx). rewrite flat_map_app in Hv. apply list.Forall_app in Hv as [Hv _].
      pose proof (proj1 (list.Forall_forall _ _) Hv x Hx) as []. unfold logical_end in *. lia.
    + intros x Hx. specialize (Hr x Hx). lia.
Qed.

Lemma ins_ne e es : ins e es <> [].
Proof. intros E. apply (f_equal length) in E. rewrite length_ins in E. done. Qed.

(** The blocks of the tree itself are those of the halves. *)
Lemma split_full_blocks cap n : flat_map collect_blocks (both (split_full cap n)) = collect_blocks n.
Proof.
  unfold split_full, both, sibling_list. destruct (entry_count n <=? cap); [cbn; by rewrite app_nil_r|].
  destruct n as [l d es|l d cs]; cbn; rewrite ?app_nil_r; [done|]. by rewrite <- app_assoc, <- flat_map_app, take_drop.
Qed.

(** The node with the record in it, before it is split. *)
Lemma insert_node_spec bc e : 2 <= bc -> valid e -> forall d m n,
  shape bc d m n -> sorted (extents_of n) -> Forall valid (extents_of n) ->
  exists n', (forall cap, insert_node e bc cap n = Ok (split_full cap n')) /\ shape bc d (m + 1) n' /\
    merges (ins e (extents_of n)) (extents_of n') /\ extents_of n' <> [] /\ location n' = location n /\ dirty n' = true /\
    collect_blocks n' = collect_blocks n.
Proof.
  intros Hbc He. induction d as [|d IH]; intros m [l dd es|l dd cs] Hsh Hs Hv; try done.
  - cbn [shape extents_of] in *. exists (Leaf l true (merge_leaf (ins e es))). pose proof (merge_leaf_merges (ins e es)) as Hm.
    destruct (merges_keep _ _ Hm) as (_ & _ & _ & _ & Hl & Hne); [by apply Forall_ins|]. rewrite length_ins in Hl.
    split_and!; [done|cbn [shape]; lia|done|apply Hne, ins_ne|done|done|done].
  - cbn [shape extents_of] in *. destruct Hsh as (Hne & Hlen & Hf).
    destruct (insert_position bc d cs e Hne Hf Hs Hv) as (a & c & r & -> & Hp & Hins). rewrite flat_map_app in Hs, Hv. cbn [flat_map] in Hs, Hv.
    apply list.Forall_app in Hf as [Fa Fr]. inversion Fr as [|? ? [Hc Hec] Fr']; subst.
    apply sorted_app in Hs as (_ & Hs & _). apply sorted_app in Hs as (Hs & _ & _).
    pose proof (proj1 (list.Forall_app _ _ _) Hv) as [_ Hv']. pose proof (proj1 (list.Forall_app _ _ _) Hv') as [Hvc _].
    destruct (IH bc c Hc Hs Hvc) as (c' & Hi & Hc' & Hm & Hne' & Hloc & _ & Hcb).
    destruct (split_full_spec bc d (bc + 1) c' Hbc ltac:(lia) Hc' Hne') as (Hb1 & Hb2 & _ & _ & _ & _).
    set (x := split_full bc c') in *. exists (Branch l true (a ++ both x ++ r)). split_and!.
    + intros cap. rewrite insert_branch by done. rewrite Hi. reflexivity.
    + by destruct a.
    + rewrite !length_app in *. cbn [length] in Hlen. unfold both. destruct (snd x); cbn [length sibling_list]; lia.
    + apply list.Forall_app. split; [done|]. apply list.Forall_app. by split.
    + rewrite Hins. cbn [extents_of]. rewrite !flat_map_app, Hb1. by apply merges_frame.
    + cbn [extents_of]. rewrite !flat_map_app, Hb1. destruct (extents_of c'); [done|]. by destruct (flat_map extents_of a).
    + done.
    + done.
    + cbn [collect_blocks]. rewrite !flat_map_app. unfold x. rewrite split_full_blocks, Hcb. reflexivity.
Qed.

(** * Trees *)

Lemma node_induction (P : ExtentNode -> Prop) :
  (forall l d es, P (Leaf l d es)) -> (forall l d cs, Forall P cs -> P (Branch l d cs)) -> forall n, P n.
Proof.
  intros HL HB. fix IH 1. intros [l d es|l d cs]; [apply HL|]. apply HB. induction cs as [|c cs IHcs]; constructor; [apply IH|exact IHcs].
Qed.

Lemma existsb_flat (f : Extent -> bool) (g : ExtentNode -> bool) cs :
  Forall (fun c => g c = existsb f (extents_of c)) cs -> existsb g cs = existsb f (flat_map extents_of cs).
Proof. induction 1 as [|c cs Hc _ IH]; [done|]. cbn. by rewrite Hc, IH, existsb_app. Qed.

Lemma node_overlaps_flat start end_ n : node_overlaps start end_ n = existsb (fun e => overlaps e start end_) (extents_of n).
Proof. induction n as [|l d cs IH] using node_induction; [done|]. by apply existsb_flat. Qed.

Lemma node_differs_flat start end_ state n : node_has_different_state start end_ state n = existsb (differs start end_ state) (extents_of n).
Proof. induction n as [|l d cs IH] using node_induction; [done|]. by apply existsb_flat. Qed.

Lemma new_extent_valid e : 0 <= e_logical e -> logical_end e <= 2 ^ 32 -> 0 <= e_length e -> 0 <= e_physical e ->
  new_extent (e_logical e) (e_physical e) (e_length e) (e_state e) = (if bool_decide (0 < e_length e <= max_length (e_state e) /\ 0 < e_physical e /\ e_physical e + e_length e <= 2 ^ 48)
    then Ok e else corrupt InvalidExtentTree).
Proof.
  intros Hl He Hn Hp. unfold new_extent. rewrite Z.shiftr_div_pow2 by lia.
  assert (e_physical e / 2 ^ 48 = 0 <-> e_physical e < 2 ^ 48) as Hd.
  { rewrite Z.div_small_iff by lia. lia. }
  destruct (bool_decide _) eqn:E; [apply bool_decide_eq_true in E|apply bool_decide_eq_false in E].
  - destruct (_ || _) eqn:F; [lia|]. by destruct e.
  - destruct (_ || _ || _ || _ || _) eqn:F; [done|]. exfalso. apply E. rewrite !orb_false_iff, negb_false_iff in F. lia.
Qed.

(** A tree between two edits.  The root may hold more than the inode has room
    for: removal lets it take over a whole node. *)
Record tree_ok (t : Tree.ExtentTree) : Prop := {
  o_capacity : ROOT_CAPACITY < Tree.block_capacity t;
  o_shape : exists d, shape (Tree.block_capacity t) d (Tree.block_capacity t) (Tree.root t) /\ Z.of_nat d <= MAX_DEPTH;
  o_root : location (Tree.root t) = AtRoot;
  o_sorted : sorted (Tree.data_extents t);
  o_valid : Forall valid (Tree.data_extents t)
}.

(** The root fits into the inode. *)
Definition root_fits (t : Tree.ExtentTree) : bool := entry_count (Tree.root t) <=? ROOT_CAPACITY.

(** The blocks of the device that hold nodes of the tree, or did. *)
Definition node_blocks (t : Tree.ExtentTree) : list Z := Tree.released_nodes t ++ collect_blocks (Tree.root t).

Lemma entry_count_le bc d m n : shape bc d m n -> entry_count n <= m.
Proof. destruct d, n; cbn; try done; intros; destruct_and?; lia. Qed.

Lemma shape_count bc d m k n : shape bc d m n -> entry_count n <= k -> shape bc d k n.
Proof. destruct d, n; cbn; try done; intros; destruct_and?; split_and?; done. Qed.

Lemma promote_extents n : extents_of (promote n) = extents_of n.
Proof. unfold promote. destruct (_ <? _); [|done]. cbn [extents_of flat_map]. by rewrite app_nil_r, extents_location. Qed.

Lemma promote_blocks n : location n = AtRoot -> collect_blocks (promote n) = collect_blocks n.
Proof. unfold promote. destruct (_ <? _); [|done]. intros Hl. destruct n; cbn in *; subst; cbn; by rewrite ?app_nil_r. Qed.

Lemma promote_shape bc d n : ROOT_CAPACITY < bc -> shape bc d bc n -> extents_of n <> [] ->
  exists d', shape bc d' ROOT_CAPACITY (promote n) /\ (d' = d \/ d' = S d /\ ROOT_CAPACITY < entry_count n).
Proof.
  intros Hbc Hsh Hne. unfold promote. destruct (ROOT_CAPACITY <? entry_count n) eqn:Hc.
  - exists (S d). split; [|right; split; [done|lia]]. cbn [shape]. split; [done|]. split; [cbn; unfold ROOT_CAPACITY; lia|]. constructor; [|constructor].
    by rewrite shape_location, extents_location.
  - exists d. split; [|by left]. eapply shape_count; [done|lia].
Qed.

(** What an edit may answer: a tree, or an error that leaves none. *)
Definition edited (t : Tree.ExtentTree) (es : list Extent) (r : R Tree.ExtentTree) : Prop :=
  (exists t', r = Ok t' /\ tree_ok t' /\ root_fits t' = true /\ merges es (Tree.data_extents t') /\ node_blocks t' = node_blocks t /\
     Tree.block_capacity t' = Tree.block_capacity t) \/
  r = Err (EUnsupported ExtentTreeTooDeep) /\ MAX_DEPTH <= depth (Tree.root t) \/
  r = Err (ECorrupt InvalidExtentTree) /\ Tree.block_capacity t < entry_count (Tree.root t) + 2.

(** A root that has grown. *)
Lemma grown_spec t d n es :
  tree_ok t -> depth (Tree.root t) = Z.of_nat d -> shape (Tree.block_capacity t) d (entry_count (Tree.root t) + 2) n -> extents_of n <> [] -> location n = AtRoot ->
  merges es (extents_of n) -> Forall valid es -> sorted es -> collect_blocks n = collect_blocks (Tree.root t) ->
  edited t es (Tree.grown t (split_full (Tree.block_capacity t) n)).
Proof.
  intros [Hbc _ _ _ _] Hdep Hsh Hne Hloc Hm Hv Hs Hcb. destruct (merges_keep _ _ Hm Hv) as (Hv' & _ & Hs' & _). unfold edited, Tree.grown, split_full.
  destruct (Z.leb_spec (entry_count n) (Tree.block_capacity t)) as [Hc|Hc]; cbn [snd fst].
  - destruct (promote_shape (Tree.block_capacity t) d n) as (d' & Hp & Hd'); [done|eapply shape_count; done|done|].
    rewrite (shape_depth _ _ _ _ Hp). destruct (MAX_DEPTH <? Z.of_nat d') eqn:Ed; [right; left; split; [done|]; lia|left].
    eexists. split; [done|]. unfold node_blocks, root_fits. cbn [Tree.root Tree.released_nodes Tree.block_capacity].
    rewrite promote_blocks, Hcb by done. split_and!; [|apply entry_count_le in Hp; lia|unfold Tree.data_extents; cbn [Tree.root]; by rewrite promote_extents|done|done].
    split; cbn [Tree.block_capacity Tree.root]; unfold Tree.data_extents; cbn [Tree.root]; rewrite ?promote_extents; try done.
    + exists d'. split; [eapply shape_mono; [done|lia]|lia].
    + unfold promote. destruct (ROOT_CAPACITY <? entry_count n); [reflexivity|exact Hloc].
    + exact (Hs' Hs).
  - right; right. apply entry_count_le in Hsh. destruct n; cbn; (split; [done|lia]).
Qed.

Lemma insert_ok t e : tree_ok t -> valid e ->
  edited t (ins e (Tree.data_extents t)) (Tree.insert t e) /\ (forall t', Tree.insert t e = Ok t' -> apart e (Tree.data_extents t)) \/
  Tree.insert t e = Err (ECorrupt InvalidExtentTree) /\
  (node_overlaps (e_logical e) (logical_end e) (Tree.root t) || node_overlaps_data (e_physical e) (e_length e) (Tree.root t)
   || node_overlaps_block_range (e_physical e) (e_length e) (Tree.root t)) = true.
Proof.
  intros Ht He. pose proof Ht as [Hbc (d & Hsh & Hd) Hloc Hs Hv]. unfold Tree.insert.
  rewrite new_extent_valid by (destruct He; lia). rewrite bool_decide_eq_true_2 by (destruct He; lia). cbn [mbind R_bind].
  destruct (_ || _) eqn:Eo; [by right|left]. rewrite !orb_false_iff, node_overlaps_flat in Eo. destruct Eo as [[Eo _] _].
  pose proof (apart_overlaps e _ Hv He Eo) as Ha. split; [|done].
  destruct (insert_node_spec (Tree.block_capacity t) e ltac:(unfold ROOT_CAPACITY in *; lia) He d (entry_count (Tree.root t)) (Tree.root t)) as (n & Hi & Hsh' & Hm & Hne & Hl & _ & Hcb);
    [eapply shape_count; [done|lia]|done|done|].
  rewrite Hi. cbn [mbind R_bind]. apply (grown_spec t d n); try done.
  - by apply (shape_depth (Tree.block_capacity t) d (Tree.block_capacity t)).
  - eapply shape_mono; [done|lia].
  - by rewrite Hl.
  - by apply Forall_ins.
  - by apply ins_sorted.
Qed.

(** * Cutting records *)

(** The part [a, b) of a record. *)
Definition piece (e : Extent) (a b : Z) (st : ExtentState) : Extent := mkExtent a (e_physical e + (a - e_logical e)) (b - a) st.

Definition piece_if (c : bool) (e : Extent) (a b : Z) (st : ExtentState) : list Extent := if c then [piece e a b st] else [].

Definition state_cut (start end_ : Z) (state : ExtentState) (e : Extent) : list Extent :=
  if bool_decide (e_state e = state) || negb (overlaps e start end_) then [e] else
  let ms := Z.max start (e_logical e) in
  let me := Z.min end_ (logical_end e) in
  piece_if (e_logical e <? ms) e (e_logical e) ms (e_state e) ++ [piece e ms me state]
  ++ piece_if (me <? logical_end e) e me (logical_end e) (e_state e).

Definition left_cut (start end_ : Z) (e : Extent) : list Extent :=
  if negb (overlaps e start end_) then [e] else
  piece_if (e_logical e <? start) e (e_logical e) start (e_state e) ++ piece_if (end_ <? logical_end e) e end_ (logical_end e) (e_state e).

Definition removed_cut (start end_ : Z) (e : Extent) : list Extent :=
  if negb (overlaps e start end_) then [] else
  [piece e (Z.max start (e_logical e)) (Z.min end_ (logical_end e)) (e_state e)].

Lemma to_u32_ok x : 0 <= x < 2 ^ 32 -> to_u32 x = Ok x.
Proof. intros. unfold to_u32, U32_MAX. by rewrite (proj2 (Z.leb_le _ _)), (proj2 (Z.leb_le _ _)) by lia. Qed.

Lemma max_length_le st : max_length st <= 32768.
Proof. by destruct st. Qed.

Lemma piece_wraps e a b st : valid e -> e_logical e <= a <= logical_end e -> mkExtent a (u64 (e_physical e + (a - e_logical e))) (b - a) st = piece e a b st.
Proof. intros [] Ha. unfold piece, logical_end in *. rewrite wrap_small by (unfold fits; lia). done. Qed.

Lemma piece_first e b st : mkExtent (e_logical e) (e_physical e) (b - e_logical e) st = piece e (e_logical e) b st.
Proof. unfold piece. by rewrite Z.sub_diag, Z.add_0_r. Qed.

(** What a cut needs: an end of 2^32 is never the start of a record. *)
Lemma state_pieces_ok start end_ state e : valid e -> start < end_ -> state_pieces start end_ state e = Ok (state_cut start end_ state e).
Proof.
  intros Hv Hse. pose proof Hv as [? ? ? ? ?]. pose proof (max_length_le (e_state e)). unfold state_pieces, state_cut, piece_if.
  destruct (bool_decide _ || negb _) eqn:E; [done|]. rewrite orb_false_iff, negb_false_iff in E. destruct E as [_ E]. unfold overlaps in E.
  unfold logical_end in *.
  assert (0 <= Z.max start (e_logical e) < 2 ^ 32) as H1 by lia.
  rewrite (to_u32_ok _ H1). rewrite (to_u32_ok (Z.min end_ _ - _)) by lia. cbv zeta.
  destruct (e_logical e <? Z.max start (e_logical e)) eqn:E1;
    [rewrite (to_u32_ok (Z.max start (e_logical e) - e_logical e)) by lia|]; cbn [mbind R_bind];
    (destruct (Z.min end_ (e_logical e + e_length e) <? e_logical e + e_length e) eqn:E2;
     [rewrite !to_u32_ok by lia|]; cbn [mbind R_bind app];
     rewrite ?piece_first, ?piece_wraps by (done || unfold logical_end; lia); reflexivity).
Qed.

Lemma left_pieces_ok start end_ e : valid e -> left_pieces start end_ e = Ok (left_cut start end_ e).
Proof.
  intros Hv. pose proof Hv as [? ? ? ? ?]. pose proof (max_length_le (e_state e)). unfold left_pieces, left_cut, piece_if.
  destruct (negb _) eqn:E; [done|]. rewrite negb_false_iff in E. unfold overlaps in E. unfold logical_end in *.
  destruct (e_logical e <? start) eqn:E1; [rewrite (to_u32_ok (start - e_logical e)) by lia|]; cbn [mbind R_bind];
    (destruct (end_ <? e_logical e + e_length e) eqn:E2;
     [rewrite !to_u32_ok by lia|]; cbn [mbind R_bind app];
     rewrite ?piece_first, ?piece_wraps by (done || unfold logical_end; lia); reflexivity).
Qed.

Lemma removed_piece_ok start end_ e : valid e -> start < end_ -> removed_piece start end_ e = Ok (removed_cut start end_ e).
Proof.
  intros Hv Hse. pose proof Hv as [? ? ? ? ?]. pose proof (max_length_le (e_state e)). unfold removed_piece, removed_cut.
  destruct (negb _) eqn:E; [done|]. rewrite negb_false_iff in E. unfold overlaps in E. unfold logical_end in *.
  rewrite !to_u32_ok by lia. cbn [mbind R_bind]. rewrite piece_wraps by (done || unfold logical_end; lia). reflexivity.
Qed.

Lemma drain_ok f g es : (forall e, valid e -> f e = Ok (g e)) -> Forall valid es -> drain f es = Ok (flat_map g es).
Proof. intros Hf. induction 1 as [|e es He _ IH]; [done|]. cbn [drain]. rewrite (Hf e He), IH. reflexivity. Qed.

(** Cuts stay inside the record they come from. *)
Definition within (g : Extent -> list Extent) : Prop := forall e, valid e ->
  sorted (g e) /\ forall y, y ∈ g e -> e_logical e <= e_logical y /\ e_logical y <= logical_end y /\ logical_end y <= logical_end e.

Lemma sorted_cut g es : within g -> Forall valid es -> sorted es -> sorted (flat_map g es).
Proof.
  intros Hg. induction 1 as [|e es He Hes IH]; intros Hs; [constructor|]. cbn [flat_map]. apply sorted_cons in Hs as [Hs Hb].
  destruct (Hg e He) as [Hge Hin]. apply sorted_app. split_and!; [done|by apply IH|].
  intros x y Hx (a & Ha & Hy)%elem_of_flat. pose proof (proj1 (list.Forall_forall _ _) Hes a Ha) as Hva.
  destruct (Hg a Hva) as [_ Hina]. specialize (Hin x Hx). specialize (Hina y Hy). specialize (Hb a Ha). unfold before in *. lia.
Qed.

Lemma elem_piece_if y c e a b st : y ∈ piece_if c e a b st -> y = piece e a b st /\ c = true.
Proof. unfold piece_if. destruct c; [intros ->%list_elem_of_singleton; done|by intros ?%not_elem_of_nil]. Qed.

Lemma sorted_one e : sorted [e].
Proof. repeat constructor. Qed.
Lemma sorted_piece_if c e a b st : sorted (piece_if c e a b st).
Proof. unfold piece_if. destruct c; repeat constructor. Qed.

Lemma piece_end e a b st : logical_end (piece e a b st) = b.
Proof. unfold logical_end, piece; cbn. lia. Qed.

Lemma state_cut_within start end_ state : start < end_ -> within (state_cut start end_ state).
Proof.
  intros Hse e [? ? ? ? ?]. unfold state_cut. destruct (bool_decide _ || negb _) eqn:E.
  { split; [apply sorted_one|]. intros y ->%list_elem_of_singleton. unfold logical_end. lia. }
  rewrite orb_false_iff, negb_false_iff in E. destruct E as [_ E]. unfold overlaps in E. cbv zeta. split.
  - apply sorted_app. split_and!; [apply sorted_piece_if|apply sorted_app; split_and!; [apply sorted_one|apply sorted_piece_if|]|].
    + intros x y ->%list_elem_of_singleton [-> _]%elem_piece_if. unfold before. rewrite piece_end. cbn. lia.
    + intros x y [-> _]%elem_piece_if Hy. unfold before. rewrite piece_end. apply elem_of_app in Hy as [->%list_elem_of_singleton|[-> _]%elem_piece_if]; cbn; unfold logical_end in *; lia.
  - intros y Hy. rewrite !elem_of_app in Hy. unfold logical_end in *. destruct Hy as [[-> Hc]%elem_piece_if|[->%list_elem_of_singleton|[-> Hc]%elem_piece_if]]; cbn; lia.
Qed.

Lemma left_cut_within start end_ : start < end_ -> within (left_cut start end_).
Proof.
  intros Hse e [? ? ? ? ?]. unfold left_cut. destruct (negb _) eqn:E.
  { split; [apply sorted_one|]. intros y ->%list_elem_of_singleton. unfold logical_end. lia. }
  rewrite negb_false_iff in E. unfold overlaps in E. split.
  - apply sorted_app. split_and!; [apply sorted_piece_if..|]. intros x y [-> _]%elem_piece_if [-> _]%elem_piece_if. unfold before. rewrite piece_end. cbn. lia.
  - intros y Hy. rewrite elem_of_app in Hy. unfold logical_end in *. destruct Hy as [[-> Hc]%elem_piece_if|[-> Hc]%elem_piece_if]; cbn; lia.
Qed.

(** ** What the cuts map *)

Definition in_range (start end_ x : Z) : bool := (start <=? x) && (x <? end_).

Definition restate (start end_ : Z) (state : ExtentState) (x : Z) (o : option (Z * ExtentState)) : option (Z * ExtentState) :=
  match o with Some (p, st) => Some (p, if in_range start end_ x then state else st) | None => None end.

Lemma mapped_piece e a b st x : mapped [piece e a b st] x = if in_range a b x then Some (e_physical e + (x - e_logical e), st) else None.
Proof.
  cbn [mapped]. unfold covers, in_range. rewrite piece_end. cbn [e_logical piece]. destruct (_ && _); [|done]. unfold place; cbn. do 2 f_equal. lia.
Qed.

Lemma mapped_piece_if c e a b st x : mapped (piece_if c e a b st) x = if c && in_range a b x then Some (e_physical e + (x - e_logical e), st) else None.
Proof. destruct c; [apply mapped_piece|done]. Qed.

Lemma mapped_one e x : mapped [e] x = if covers e x then Some (place e x) else None.
Proof. done. Qed.

Lemma mapped_state_cut start end_ state e x : start < end_ -> mapped (state_cut start end_ state e) x = restate start end_ state x (mapped [e] x).
Proof.
  intros Hse. unfold state_cut. destruct (bool_decide _ || negb _) eqn:E.
  - rewrite mapped_one. destruct (covers e x) eqn:Ec; [|done]. cbn [restate place]. unfold place. do 2 f_equal.
    destruct (bool_decide (e_state e = state)) eqn:Es; [apply bool_decide_eq_true in Es; subst; by destruct (in_range _ _ _)|].
    unfold overlaps, covers, in_range in *. destruct (_ && (x <? end_)) eqn:Ei; [lia|done].
  - rewrite orb_false_iff, negb_false_iff in E. destruct E as [_ E]. unfold overlaps in E. cbv zeta.
    rewrite !mapped_app, !mapped_piece_if, mapped_piece, mapped_one. unfold restate, covers, in_range, place, logical_end in *.
    repeat match goal with |- context [if ?c then _ else _] => destruct c eqn:? end; try done; try lia.
Qed.

Lemma mapped_left_cut start end_ e x : start < end_ -> mapped (left_cut start end_ e) x = if in_range start end_ x then None else mapped [e] x.
Proof.
  intros Hse. unfold left_cut. destruct (negb _) eqn:E.
  - rewrite mapped_one. unfold overlaps, covers, in_range, logical_end in *. repeat match goal with |- context [if ?c then _ else _] => destruct c eqn:? end; try done; lia.
  - rewrite negb_false_iff in E. unfold overlaps in E. rewrite mapped_app, !mapped_piece_if, mapped_one.
    unfold covers, in_range, place, logical_end in *. repeat match goal with |- context [if ?c then _ else _] => destruct c eqn:? end; try done; lia.
Qed.

Lemma mapped_removed_cut start end_ e x : start < end_ -> mapped (removed_cut start end_ e) x = if in_range start end_ x then mapped [e] x else None.
Proof.
  intros Hse. unfold removed_cut. destruct (negb _) eqn:E.
  - rewrite mapped_one. unfold overlaps, covers, in_range, logical_end in *. cbn [mapped].
    repeat match goal with |- context [if ?c then _ else _] => destruct c eqn:? end; try done; lia.
  - rewrite negb_false_iff in E. unfold overlaps in E. rewrite mapped_piece, mapped_one.
    unfold covers, in_range, place, logical_end in *. repeat match goal with |- context [if ?c then _ else _] => destruct c eqn:? end; try done; lia.
Qed.

Lemma mapped_flat g (h : Z -> option (Z * ExtentState) -> option (Z * ExtentState)) es x :
  (forall e, mapped (g e) x = h x (mapped [e] x)) -> h x None = None -> (forall r, h x (Some r) <> None \/ forall o, h x o = None) ->
  mapped (flat_map g es) x = h x (mapped es x).
Proof.
  intros Hg Hn Hs. induction es as [|e es IH]; [done|]. cbn [flat_map]. rewrite mapped_app, Hg, IH.
  change (e :: es) with ([e] ++ es). rewrite mapped_app. destruct (mapped [e] x) as [r|]; [|by rewrite Hn].
  destruct (Hs r) as [Hr|Hr]; [by destruct (h x (Some r))|]. by rewrite !Hr.
Qed.

(** Cuts are records. *)
Lemma valid_piece e a b st : valid e -> e_logical e <= a -> a < b -> b <= logical_end e -> b - a <= max_length st -> valid (piece e a b st).
Proof. intros [? ? ? ? ?] ????. unfold piece, logical_end in *. split; unfold logical_end; cbn; lia. Qed.

Lemma Forall_piece_if c e a b st : (c = true -> valid (piece e a b st)) -> Forall valid (piece_if c e a b st).
Proof. intros Hc. destruct c; cbn; [|constructor]. constructor; [by apply Hc|constructor]. Qed.

Lemma state_cut_valid start end_ state e : start < end_ -> valid e -> e_length e <= max_length state -> Forall valid (state_cut start end_ state e).
Proof.
  intros Hse Hv Hm. pose proof Hv as [? ? ? ? ?]. unfold state_cut. destruct (bool_decide _ || negb _) eqn:E; [by constructor|].
  rewrite orb_false_iff, negb_false_iff in E. destruct E as [_ E]. unfold overlaps in E. cbv zeta. unfold logical_end in *.
  apply list.Forall_app. split; [apply Forall_piece_if; intros; apply valid_piece; (done || unfold logical_end; lia)|].
  constructor; [apply valid_piece; (done || unfold logical_end; lia)|]. apply Forall_piece_if. intros. apply valid_piece; (done || unfold logical_end; lia).
Qed.

Lemma left_cut_valid start end_ e : start < end_ -> valid e -> Forall valid (left_cut start end_ e).
Proof.
  intros Hse Hv. pose proof Hv as [? ? ? ? ?]. unfold left_cut. destruct (negb _) eqn:E; [by constructor|].
  rewrite negb_false_iff in E. unfold overlaps in E. unfold logical_end in *.
  apply list.Forall_app. split; apply Forall_piece_if; intros; apply valid_piece; (done || unfold logical_end; lia).
Qed.

Lemma removed_cut_valid start end_ e : start < end_ -> valid e -> Forall valid (removed_cut start end_ e).
Proof.
  intros Hse Hv. pose proof Hv as [? ? ? ? ?]. unfold removed_cut. destruct (negb _) eqn:E; [by constructor|].
  rewrite negb_false_iff in E. unfold overlaps in E. unfold logical_end in *. constructor; [|constructor].
  apply valid_piece; (done || unfold logical_end; lia).
Qed.

Lemma Forall_flat (P : Extent -> Prop) (g : Extent -> list Extent) (es : list Extent) : (forall e, e ∈ es -> Forall P (g e)) -> Forall P (flat_map g es).
Proof.
  intros Hg. apply list.Forall_forall. intros y (e & He & Hy)%elem_of_flat. exact (proj1 (list.Forall_forall _ _) (Hg e He) y Hy).
Qed.
