(* ===== verification/ExtentsEdit.v ===== *)
(** Edits of an extent tree: setting the state of a range, removal with the
    blocks it gives back, and the refinement of a mapping from the blocks of a
    file to blocks of the device by every sequence of edits. *)

From Stdlib Require Import ZArith Lia Bool Sorted.
From stdpp Require Import base option list numbers.
From S2P Require Import Prelude Ext4 Extents ExtentsFacts.
Local Open Scope machine_scope.

(** * How many records a cut adds *)

(** How many records hold [x] strictly inside. *)
Fixpoint inside (x : Z) (es : list Extent) : Z :=
  match es with [] => 0 | e :: es => Z.b2z ((e_logical e <? x) && (x <? logical_end e)) + inside x es end.

Lemma inside_nonneg x es : 0 <= inside x es.
Proof. induction es as [|e es IH]; cbn; [lia|]. destruct (_ && _); cbn; lia. Qed.

Lemma inside_none x es : (forall e, e ∈ es -> x <= e_logical e) -> inside x es = 0.
Proof.
  induction es as [|e es IH]; intros Hx; [done|]. cbn. rewrite IH by (intros; apply Hx; by right).
  pose proof (Hx e ltac:(left)). destruct (_ && _) eqn:E; [lia|done].
Qed.

Lemma inside_one x es : sorted es -> inside x es <= 1.
Proof.
  induction es as [|e es IH]; intros Hs; cbn; [lia|]. apply sorted_cons in Hs as [Hs Hb]. destruct (_ && _) eqn:E; cbn; [|by apply IH].
  rewrite inside_none; [lia|]. intros y Hy. specialize (Hb y Hy). unfold before in Hb. lia.
Qed.

(** The records a cut adds to a list. *)
Definition added (g : Extent -> list Extent) (es : list Extent) : Z := zlen (flat_map g es) - zlen es.

Lemma added_app g a b : added g (a ++ b) = added g a + added g b.
Proof. unfold added. rewrite flat_map_app, !length_app. lia. Qed.

Lemma added_nonneg g es : (forall e, g e <> []) -> 0 <= added g es.
Proof.
  intros Hg. induction es as [|e es IH]; [done|]. change (e :: es) with ([e] ++ es). rewrite added_app.
  unfold added in *. cbn [flat_map]. rewrite app_nil_r. specialize (Hg e). destruct (g e); [done|]. cbn [length]. lia.
Qed.

Lemma state_cut_ne start end_ state e : state_cut start end_ state e <> [].
Proof. unfold state_cut. destruct (_ || _); [done|]. cbv zeta. intros [_ E]%app_eq_nil. done. Qed.

Lemma state_cut_added start end_ state es : added (state_cut start end_ state) es <= inside start es + inside end_ es.
Proof.
  induction es as [|e es IH]; [done|]. change (e :: es) with ([e] ++ es). rewrite added_app. cbn [inside app].
  assert (added (state_cut start end_ state) [e] <=
    Z.b2z ((e_logical e <? start) && (start <? logical_end e)) + Z.b2z ((e_logical e <? end_) && (end_ <? logical_end e))); [|lia].
  unfold added. cbn [flat_map]. rewrite app_nil_r. unfold state_cut, piece_if.
  destruct (bool_decide _ || negb _) eqn:E; [cbn; destruct (_ && _), (_ && _); cbn; lia|].
  rewrite orb_false_iff, negb_false_iff in E. destruct E as [_ E]. unfold overlaps in E. cbv zeta.
  destruct (e_logical e <? Z.max start (e_logical e)) eqn:E1, (Z.min end_ (logical_end e) <? logical_end e) eqn:E2; cbn [app length];
    destruct ((e_logical e <? start) && (start <? logical_end e)) eqn:E3, ((e_logical e <? end_) && (end_ <? logical_end e)) eqn:E4; cbn; lia.
Qed.

Lemma state_cut_bound start end_ state es : sorted es -> added (state_cut start end_ state) es <= 2.
Proof. intros Hs. pose proof (state_cut_added start end_ state es). pose proof (inside_one start es Hs). pose proof (inside_one end_ es Hs). lia. Qed.

(** * The state of a range *)

Section State.
Context (start end_ : Z) (state : ExtentState) (Hse : start < end_).
Let cut := state_cut start end_ state.

(** Every record of the range can take the new state. *)
Definition may_take (es : list Extent) : Prop := Forall (fun e => e_length e <= max_length state) es.

Lemma cut_valid es : Forall valid es -> may_take es -> Forall valid (flat_map cut es).
Proof.
  intros Hv Hm. apply Forall_flat. intros e He. apply state_cut_valid; [done| |].
  - exact (proj1 (list.Forall_forall _ _) Hv e He).
  - exact (proj1 (list.Forall_forall _ _) Hm e He).
Qed.

(** The loop over the children of a node. *)
Fixpoint set_state_children (bc : Z) (cs : list ExtentNode) : R (list ExtentNode * bool) :=
  match cs with
  | [] => Ok ([], false)
  | c :: cs =>
      r ← set_state_range start end_ state bc bc c;
      let '(c', sibling) := r in
      rest ← set_state_children bc cs;
      let '(cs, changed) := rest in
      Ok (c' :: (match sibling with Some s => s :: cs | None => cs end),
          negb (Bool.eqb (dirty c') (dirty c)) || (match sibling with Some _ => true | None => false end) || changed)
  end.

Lemma set_state_branch bc cap l d cs :
  set_state_range start end_ state bc cap (Branch l d cs) =
    (r ← set_state_children bc cs; let '(cs, changed) := r in Ok (split_full cap (Branch l (d || changed) cs))).
Proof.
  cbn [set_state_range]. set (f := fix each (cs : list ExtentNode) := _).
  assert (forall cs, f cs = set_state_children bc cs) as ->.
  { clear. intros cs. induction cs as [|c cs IH]; [done|]. cbn [set_state_children]. unfold f at 1; fold f.
    destruct (set_state_range start end_ state bc bc c) as [[c' o]| |]; cbn [mbind R_bind]; [|done|done]. by rewrite IH. }
  destruct (set_state_children bc cs) as [[cs' ch]| |]; reflexivity.
Qed.

(** What the operation does to one node. *)
Definition stated (bc : Z) (d : nat) (m : Z) (n n' : ExtentNode) : Prop :=
  (forall cap, set_state_range start end_ state bc cap n = Ok (split_full cap n')) /\ shape bc d (m + added cut (extents_of n)) n' /\
  merges (flat_map cut (extents_of n)) (extents_of n') /\ location n' = location n /\ collect_blocks n' = collect_blocks n.

Lemma merges_ne a b : merges a b -> Forall valid a -> a <> [] -> b <> [].
Proof. intros Hm Hv. destruct (merges_keep _ _ Hm Hv) as (_ & _ & _ & _ & _ & Hne). exact Hne. Qed.

Lemma flat_cut_ne es : es <> [] -> flat_map cut es <> [].
Proof. destruct es as [|e es]; [done|]. intros _. cbn. intros [E _]%app_eq_nil. by apply state_cut_ne in E. Qed.

Lemma set_state_children_spec bc d cs : 2 <= bc ->
  Forall (fun c => shape bc d bc c /\ extents_of c <> []) cs ->
  Forall (fun c => sorted (extents_of c) -> Forall valid (extents_of c) -> may_take (extents_of c) -> exists c', stated bc d bc c c') cs ->
  sorted (flat_map extents_of cs) -> Forall valid (flat_map extents_of cs) -> may_take (flat_map extents_of cs) ->
  exists cs' ch, set_state_children bc cs = Ok (cs', ch) /\ Forall (fun c => shape bc d bc c /\ extents_of c <> []) cs' /\
    zlen cs' <= zlen cs + added cut (flat_map extents_of cs) /\ zlen cs <= zlen cs' /\
    merges (flat_map cut (flat_map extents_of cs)) (flat_map extents_of cs') /\ flat_map collect_blocks cs' = flat_map collect_blocks cs.
Proof.
  intros Hbc Hf. induction 1 as [|c cs Hc Hcs IH]; intros Hs Hv Ht.
  { exists [], false. split_and!; [done|constructor|done|done|constructor|done]. }
  inversion Hf as [|? ? [Hsh Hne] Hf']; subst. cbn [flat_map] in *. apply sorted_app in Hs as (Hs1 & Hs2 & _).
  apply list.Forall_app in Hv as [Hv1 Hv2]. apply list.Forall_app in Ht as [Ht1 Ht2].
  destruct (Hc Hs1 Hv1 Ht1) as (c' & Hr & Hsh' & Hm & Hl & Hcb). destruct (IH Hf' Hs2 Hv2 Ht2) as (cs' & ch & Ecs & If & Il & Il' & Im & Icb).
  assert (extents_of c' <> []) as Hne' by (eapply merges_ne; [exact Hm|by apply cut_valid|by apply flat_cut_ne]).
  pose proof (state_cut_bound start end_ state _ Hs1) as Hb. fold cut in Hb.
  destruct (split_full_spec bc d (bc + added cut (extents_of c)) c' Hbc ltac:(lia) Hsh' Hne') as (B1 & B2 & _ & B4 & _ & _).
  pose proof (split_full_blocks bc c') as B5. pose proof (entry_count_le _ _ _ _ Hsh') as Hec.
  pose proof (added_nonneg cut (extents_of c) (state_cut_ne start end_ state)) as Hnn.
  cbn [set_state_children]. rewrite Hr. cbn [mbind R_bind]. destruct (split_full bc c') as [c1 o] eqn:Esp. rewrite Ecs. cbn [mbind R_bind].
  eexists _, _. split; [reflexivity|].
  assert ((c1 :: match o with Some s => s :: cs' | None => cs' end) = both (c1, o) ++ cs') as -> by by destruct o.
  split; [apply list.Forall_app; by split|]. rewrite length_app, added_app.
  assert (1 <= zlen (both (c1, o)) <= 1 + added cut (extents_of c)) as Hlen.
  { destruct o; cbn [both sibling_list fst snd length]; [|lia]. cbn [snd] in B4. specialize (B4 ltac:(done)). lia. }
  cbn [length]. rewrite !flat_map_app. split_and!; [lia|lia| |].
  - rewrite B1. by apply merges_app.
  - rewrite Icb. cbn [flat_map]. by rewrite B5, Hcb.
Qed.

Lemma set_state_range_spec bc : 2 <= bc -> forall d m n,
  shape bc d m n -> sorted (extents_of n) -> Forall valid (extents_of n) -> may_take (extents_of n) -> exists n', stated bc d m n n'.
Proof.
  intros Hbc. induction d as [|d IH]; intros m [l dd es|l dd cs] Hsh Hs Hv Ht; try done.
  - cbn [extents_of] in *. exists (Leaf l (dd || existsb (differs start end_ state) es) (merge_leaf (flat_map cut es))).
    pose proof (merge_leaf_merges (flat_map cut es)) as Hm. destruct (merges_keep _ _ Hm) as (_ & _ & _ & _ & Hl & _); [by apply cut_valid|].
    unfold stated. split_and!; [|cbn [shape extents_of] in *; unfold added; lia|done|done|done].
    intros cap. cbn [set_state_range]. rewrite (drain_ok _ cut) by (done || (intros; by apply state_pieces_ok)). reflexivity.
  - cbn [extents_of] in *. destruct Hsh as (Hne & Hlen & Hf).
    destruct (set_state_children_spec bc d cs Hbc Hf) as (cs' & ch & E & If & Il & Il' & Im & Icb); try done.
    { eapply List.Forall_impl; [|exact Hf]. cbn beta. intros c [Hc _] ???. by apply IH. }
    exists (Branch l (dd || ch) cs'). unfold stated. split_and!.
    + intros cap. by rewrite set_state_branch, E.
    + cbn [shape extents_of]. split; [intros ->; destruct cs; [done|cbn in Il'; lia]|]. split; [lia|done].
    + done.
    + done.
    + cbn [collect_blocks]. by rewrite Icb.
Qed.

Lemma set_state_ok t : tree_ok t -> may_take (Tree.data_extents t) -> node_has_different_state start end_ state (Tree.root t) = true ->
  edited t (flat_map cut (Tree.data_extents t)) (Tree.set_state t start end_ state).
Proof.
  intros Ht Hm Hd. pose proof Ht as [Hbc (d & Hsh & Hdd) Hloc Hs Hv]. unfold Tree.set_state. rewrite Hd.
  rewrite (proj2 (Z.leb_gt _ _) Hse). cbn [orb negb].
  destruct (set_state_range_spec (Tree.block_capacity t) ltac:(unfold ROOT_CAPACITY in *; lia) d (entry_count (Tree.root t)) (Tree.root t)) as (n & Hr & Hsh' & Hmg & Hl & Hcb); try done.
  { eapply shape_count; [done|lia]. }
  rewrite Hr. cbn [mbind R_bind]. pose proof (state_cut_bound start end_ state _ Hs) as Hb. apply (grown_spec t d n); try done.
  - by apply (shape_depth (Tree.block_capacity t) d (Tree.block_capacity t)).
  - eapply shape_mono; [done|]. fold (Tree.data_extents t). fold cut in Hb. lia.
  - eapply merges_ne; [exact Hmg|by apply cut_valid|]. apply flat_cut_ne. rewrite node_differs_flat in Hd. by destruct (extents_of (Tree.root t)).
  - by rewrite Hl.
  - by apply cut_valid.
  - apply sorted_cut; [by apply state_cut_within|done|done].
Qed.

End State.

(** * Removal *)

(** As [shape], for a node that may have become empty. *)
Definition loose (bc : Z) (d : nat) (m : Z) (n : ExtentNode) : Prop :=
  match d, n with
  | O, Leaf _ _ es => zlen es <= m
  | S d, Branch _ _ cs => zlen cs <= m /\ Forall (fun c => shape bc d bc c /\ extents_of c <> []) cs
  | _, _ => False
  end.

Lemma shape_loose bc d m n : shape bc d m n -> loose bc d m n.
Proof. destruct d, n; cbn; try done. by intros (_ & ? & ?). Qed.

Lemma loose_empty bc d m n : loose bc d m n -> if is_empty n then extents_of n = [] else shape bc d m n /\ extents_of n <> [].
Proof.
  destruct d, n as [l dd es|l dd cs]; cbn; try done.
  - intros H. destruct (bool_decide _) eqn:E; [by apply bool_decide_eq_true in E|by apply bool_decide_eq_false in E].
  - intros [Hl Hf]. destruct cs as [|c cs]; [done|]. split_and!; try done. eapply flat_nonempty; [exact Hf|done].
Qed.

Definition children_of (n : ExtentNode) : list ExtentNode := match n with Leaf _ _ _ => [] | Branch _ _ cs => cs end.

(** The blocks of a node other than its own. *)
Definition inner_blocks (n : ExtentNode) : list Z := flat_map collect_blocks (children_of n).
Definition own_block (n : ExtentNode) : list Z := match location n with AtBlock b => [b] | _ => [] end.

Lemma collect_own n : collect_blocks n = own_block n ++ inner_blocks n.
Proof. by destruct n as [[]|[]]. Qed.

Lemma inner_location l n : inner_blocks (set_location l n) = inner_blocks n.
Proof. by destruct n. Qed.
Lemma inner_mark b n : inner_blocks (mark b n) = inner_blocks n.
Proof. by destruct n. Qed.

(** The root that takes over its only child. *)
Lemma collapse_spec bc : forall d n, ROOT_CAPACITY < bc -> loose bc d bc n ->
  exists r rel d', collapse n = (r, rel) /\ (d' <= d)%nat /\ shape bc d' bc r /\ extents_of r = extents_of n /\
    Permutation (inner_blocks n) (rel ++ inner_blocks r).
Proof.
  intros d n Hbc. revert d. induction n as [l dd es|l dd cs IH] using node_induction; intros d Hn.
  { exists (Leaf l dd es), [], d. split_and!; [done|lia| |done|done]. by destruct d. }
  destruct d as [|d]; [done|]. destruct Hn as [Hlen Hf]. destruct cs as [|c [|c2 cs]].
  - exists (Leaf AtRoot true []), [], O. split_and!; [done|lia|cbn; unfold ROOT_CAPACITY in *; lia|done|done].
  - inversion Hf as [|? ? [Hc _] _]; subst. inversion IH as [|? ? IHc _]; subst.
    destruct (IHc d (shape_loose _ _ _ _ Hc)) as (r & rel & d' & Ec & Hd & Hr & He & Hp).
    cbn [collapse]. rewrite Ec. eexists _, _, d'. split; [reflexivity|].
    rewrite shape_mark, shape_location, extents_mark, extents_location, inner_mark, inner_location. split_and!; [lia|done|by cbn; rewrite app_nil_r|].
    unfold inner_blocks at 1. cbn [children_of flat_map]. rewrite app_nil_r, collect_own. fold (own_block c). rewrite <- app_assoc. by apply Permutation_app_head.
  - exists (Branch l dd (c :: c2 :: cs)), [], (S d). split_and!; [done|lia| |done|done]. cbn [shape]. by split_and!.
Qed.

Section Remove.
Context (start end_ : Z) (Hse : start < end_).
Let left := left_cut start end_.
Let gone := removed_cut start end_.

(** No record reaches over both ends of the range: nothing is split in two. *)
Definition not_punched (es : list Extent) : Prop := Forall (fun e => start <= e_logical e \/ logical_end e <= end_) es.

Lemma left_length es : not_punched es -> zlen (flat_map left es) <= zlen es.
Proof.
  induction 1 as [|e es He _ IH]; [done|]. cbn [flat_map length]. rewrite length_app.
  assert (zlen (left e) <= 1); [|lia]. unfold left, left_cut, piece_if. destruct (negb _); [done|].
  destruct (e_logical e <? start) eqn:E1, (end_ <? logical_end e) eqn:E2; cbn; lia.
Qed.

Lemma left_valid es : Forall valid es -> Forall valid (flat_map left es).
Proof. intros Hv. apply Forall_flat. intros e He. apply left_cut_valid; [done|]. exact (proj1 (list.Forall_forall _ _) Hv e He). Qed.

Lemma remove_from_leaf_ok es : Forall valid es ->
  remove_from_leaf es start end_ = Ok (merge_leaf (flat_map left es), flat_map gone es, existsb (fun e => overlaps e start end_) es).
Proof.
  intros Hv. unfold remove_from_leaf. rewrite (drain_ok (removed_piece start end_) gone) by (done || (intros; by apply removed_piece_ok)). cbn [mbind R_bind].
  rewrite (drain_ok (left_pieces start end_) left) by (done || (intros; by apply left_pieces_ok)). reflexivity.
Qed.

Fixpoint remove_children (cs : list ExtentNode) : R (list ExtentNode * list Extent * list Z * bool) :=
  match cs with
  | [] => Ok ([], [], [], false)
  | c :: cs =>
      r ← remove_range start end_ c;
      let '(c, removed, released, changed) := r in
      rest ← remove_children cs;
      let '(cs, removed', released', changed') := rest in
      if is_empty c then Ok (cs, removed ++ removed', released ++ collect_blocks c ++ released', true)
      else Ok (c :: cs, removed ++ removed', released ++ released', changed || changed')
  end.

Lemma remove_branch l d cs :
  remove_range start end_ (Branch l d cs) =
    (r ← remove_children cs; let '(cs, removed, released, changed) := r in Ok (Branch l (d || changed) cs, removed, released, changed)).
Proof. reflexivity. Qed.

(** What removal does to one node. *)
Definition removal (bc : Z) (d : nat) (m : Z) (n : ExtentNode) : Prop :=
  exists n' released changed, remove_range start end_ n = Ok (n', flat_map gone (extents_of n), released, changed) /\ loose bc d m n' /\
    merges (flat_map left (extents_of n)) (extents_of n') /\ location n' = location n /\
    Permutation (collect_blocks n) (released ++ collect_blocks n').

Lemma remove_children_spec bc d cs :
  Forall (fun c => shape bc d bc c /\ extents_of c <> []) cs -> Forall (removal bc d bc) cs -> Forall valid (flat_map extents_of cs) ->
  exists cs' released changed, remove_children cs = Ok (cs', flat_map gone (flat_map extents_of cs), released, changed) /\
    zlen cs' <= zlen cs /\ Forall (fun c => shape bc d bc c /\ extents_of c <> []) cs' /\
    merges (flat_map left (flat_map extents_of cs)) (flat_map extents_of cs') /\
    Permutation (flat_map collect_blocks cs) (released ++ flat_map collect_blocks cs').
Proof.
  intros Hf. induction 1 as [|c cs Hc Hcs IH]; intros Hv.
  { exists [], [], false. split_and!; [done|done|constructor|constructor|done]. }
  inversion Hf as [|? ? [Hsh Hne] Hf']; subst. cbn [flat_map] in *. apply list.Forall_app in Hv as [Hv1 Hv2].
  destruct Hc as (c' & rel & ch & Er & Hl & Hm & Hloc & Hp). destruct (IH Hf' Hv2) as (cs' & rel' & ch' & Ecs & Il & If & Im & Ip).
  cbn [remove_children]. rewrite Er. cbn [mbind R_bind]. rewrite Ecs. cbn [mbind R_bind]. rewrite !flat_map_app.
  pose proof (loose_empty _ _ _ _ Hl) as He. destruct (is_empty c') eqn:Ee.
  - eexists _, _, _. split; [reflexivity|]. split_and!; [cbn; lia|done| |].
    + rewrite He in Hm. pose proof (merges_app _ _ _ _ Hm Im) as Hma. exact Hma.
    + rewrite Hp, Ip. by rewrite <- !app_assoc.
  - eexists _, _, _. split; [reflexivity|]. split_and!; [cbn; lia|by constructor|by apply merges_app|].
    rewrite Hp, Ip. cbn [flat_map]. rewrite <- !app_assoc. apply Permutation_app_head. apply Permutation_app_swap_app.
Qed.

Lemma remove_range_spec bc : forall d m n, shape bc d m n -> Forall valid (extents_of n) -> not_punched (extents_of n) -> removal bc d m n.
Proof.
  induction d as [|d IH]; intros m [l dd es|l dd cs] Hsh Hv Hn; try done.
  - cbn [extents_of shape] in *. pose proof (merge_leaf_merges (flat_map left es)) as Hm.
    destruct (merges_keep _ _ Hm (left_valid es Hv)) as (_ & _ & _ & _ & Hl & _). pose proof (left_length es Hn).
    eexists (Leaf l _ _), [], _. cbn [remove_range]. rewrite remove_from_leaf_ok by done. split; [reflexivity|]. split_and!; [cbn [loose]; lia|done|done|done].
  - cbn [extents_of] in *. destruct Hsh as (Hne & Hlen & Hf).
    destruct (remove_children_spec bc d cs Hf) as (cs' & rel & ch & E & Il & If & Im & Ip); [|done|].
    { clear Hne Hlen. induction Hf as [|c cs [Hc _] Hf IHf]; [constructor|]. cbn [flat_map] in Hv, Hn.
      apply list.Forall_app in Hv as [Hv1 Hv2]. apply list.Forall_app in Hn as [Hn1 Hn2]. constructor; [by apply IH|by apply IHf]. }
    exists (Branch l (dd || ch) cs'), rel, ch. rewrite remove_branch, E. split; [reflexivity|]. split_and!; [cbn [loose]; split; [lia|done]|done|done|].
    rewrite !collect_own. unfold inner_blocks; cbn [children_of]. rewrite Ip. apply Permutation_app_swap_app.
Qed.

Lemma remove_ok t : tree_ok t -> not_punched (Tree.data_extents t) ->
  exists t', Tree.remove t start end_ = Ok (t', flat_map gone (Tree.data_extents t)) /\ tree_ok t' /\
    merges (flat_map left (Tree.data_extents t)) (Tree.data_extents t') /\ Permutation (node_blocks t) (node_blocks t') /\
    Tree.block_capacity t' = Tree.block_capacity t.
Proof.
  intros [Hbc (d & Hsh & Hd) Hloc Hs Hv] Hn. unfold Tree.remove. rewrite (proj2 (Z.leb_gt _ _) Hse).
  destruct (remove_range_spec (Tree.block_capacity t) d _ (Tree.root t) Hsh Hv Hn) as (n & rel & ch & -> & Hl & Hm & Hloc' & Hp). cbn [mbind R_bind].
  destruct (collapse_spec (Tree.block_capacity t) d n Hbc Hl) as (r & rel' & d' & -> & Hd' & Hr & He & Hp').
  destruct (merges_keep _ _ Hm (left_valid _ Hv)) as (Hv' & _ & Hs' & _).
  eexists. split; [reflexivity|]. unfold Tree.data_extents at 2. cbn [Tree.root Tree.block_capacity]. rewrite extents_location, He. split_and!; [|done| |done].
  - split; unfold Tree.data_extents; cbn [Tree.root Tree.block_capacity]; rewrite ?extents_location, ?He; try done.
    + exists d'. split; [by rewrite shape_location|lia].
    + by destruct r.
    + apply Hs', sorted_cut; [by apply left_cut_within|done|done].
  - unfold node_blocks. cbn [Tree.root Tree.released_nodes]. rewrite Hp, <- !app_assoc. do 2 apply Permutation_app_head.
    rewrite (collect_own n), (collect_own (set_location _ r)), inner_location, Hp'.
    unfold own_block at 1. rewrite Hloc', Hloc. unfold own_block. by destruct r.
Qed.

End Remove.

(** * The blocks of the device a tree maps *)

Definition data_blocks (es : list Extent) : list Z := flat_map (fun e => seqZ (e_physical e) (e_length e)) es.

Lemma data_blocks_app a b : data_blocks (a ++ b) = data_blocks a ++ data_blocks b.
Proof. apply flat_map_app. Qed.

Lemma data_blocks_one e : data_blocks [e] = seqZ (e_physical e) (e_length e).
Proof. apply app_nil_r. Qed.

Lemma merges_blocks a b : merges a b -> Forall valid a -> data_blocks b = data_blocks a.
Proof.
  induction 1 as [|a l r b es Hc Hm IH]; intros Hv; [done|].
  pose proof Hv as Hv'. apply list.Forall_app in Hv as [Ha Hb]. inversion Hb as [|? ? Hl Hb']; subst. inversion Hb' as [|? ? Hr Hb'']; subst.
  rewrite IH by (apply list.Forall_app; split; [done|]; constructor; [by apply joined_valid|done]).
  destruct (can_merge_spec l r Hl Hr Hc) as (_ & _ & Hp & Hn & _). rewrite !data_blocks_app. f_equal.
  change (joined l r :: b) with ([joined l r] ++ b). change (l :: r :: b) with ([l] ++ [r] ++ b).
  rewrite !data_blocks_app, !data_blocks_one, Hn, app_assoc. f_equal. cbn [e_physical joined]. rewrite <- Hp. destruct Hl, Hr. apply seqZ_app; lia.
Qed.

Lemma piece_if_blocks c e a b st : (c = false -> a = b) -> data_blocks (piece_if c e a b st) = seqZ (e_physical e + (a - e_logical e)) (b - a).
Proof. intros Hc. destruct c; [apply data_blocks_one|]. rewrite Hc by done. by rewrite Z.sub_diag. Qed.

Lemma seqZ_three p a b c : 0 <= a -> 0 <= b -> 0 <= c -> seqZ p (a + b + c) = seqZ p a ++ seqZ (p + a) b ++ seqZ (p + a + b) c.
Proof. intros. rewrite seqZ_app, seqZ_app, <- app_assoc by lia. by rewrite Z.add_assoc. Qed.

(** What is left and what is gone is what was there. *)
Lemma cut_blocks start end_ e : start < end_ -> valid e ->
  Permutation (data_blocks [e]) (data_blocks (left_cut start end_ e) ++ data_blocks (removed_cut start end_ e)).
Proof.
  intros Hse [? ? ? ? ?]. unfold left_cut, removed_cut. destruct (negb _) eqn:E; [cbn [data_blocks flat_map]; by rewrite !app_nil_r|].
  rewrite negb_false_iff in E. unfold overlaps, logical_end in *. set (s := Z.max start (e_logical e)). set (f := Z.min end_ (e_logical e + e_length e)).
  assert (data_blocks (piece_if (e_logical e <? start) e (e_logical e) start (e_state e)) = seqZ (e_physical e) (s - e_logical e)) as E1.
  { destruct (e_logical e <? start) eqn:E0; [rewrite piece_if_blocks by done; f_equal; lia|]. replace (s - e_logical e) with 0 by lia. done. }
  assert (data_blocks (piece_if (end_ <? e_logical e + e_length e) e end_ (e_logical e + e_length e) (e_state e)) =
    seqZ (e_physical e + (f - e_logical e)) (e_logical e + e_length e - f)) as E2.
  { destruct (end_ <? e_logical e + e_length e) eqn:E0; [rewrite piece_if_blocks by done; f_equal; lia|]. replace (e_logical e + e_length e - f) with 0 by lia. done. }
  rewrite data_blocks_app, E1, E2. rewrite !data_blocks_one. cbn [e_physical e_length piece].
  replace (e_length e) with ((s - e_logical e) + (f - s) + (e_logical e + e_length e - f)) at 1 by lia. rewrite seqZ_three by lia.
  replace (e_physical e + (s - e_logical e) + (f - s)) with (e_physical e + (f - e_logical e)) by lia.
  rewrite <- app_assoc. apply Permutation_app_head. apply Permutation_app_comm.
Qed.

Lemma cuts_blocks start end_ es : start < end_ -> Forall valid es ->
  Permutation (data_blocks es) (data_blocks (flat_map (left_cut start end_) es) ++ data_blocks (flat_map (removed_cut start end_) es)).
Proof.
  intros Hse. induction 1 as [|e es He _ IH]; [done|]. cbn [flat_map]. change (e :: es) with ([e] ++ es).
  rewrite !data_blocks_app, IH, (cut_blocks start end_ e Hse He). rewrite <- !app_assoc. apply Permutation_app_head.
  rewrite !app_assoc. apply Permutation_app_tail, Permutation_app_comm.
Qed.

Lemma state_blocks start end_ state es : start < end_ -> Forall valid es -> data_blocks (flat_map (state_cut start end_ state) es) = data_blocks es.
Proof.
  intros Hse. induction 1 as [|e es [? ? ? ? ?] _ IH]; [done|]. cbn [flat_map]. change (e :: es) with ([e] ++ es). rewrite !data_blocks_app, IH. f_equal.
  unfold state_cut. destruct (bool_decide _ || negb _) eqn:E; [done|].
  rewrite orb_false_iff, negb_false_iff in E. destruct E as [_ E]. unfold overlaps, logical_end in *. cbv zeta.
  set (s := Z.max start (e_logical e)). set (f := Z.min end_ (e_logical e + e_length e)).
  rewrite !data_blocks_app, !piece_if_blocks by lia. rewrite !data_blocks_one. cbn [e_physical e_length piece].
  transitivity (seqZ (e_physical e) ((s - e_logical e) + (f - s) + (e_logical e + e_length e - f))); [|f_equal; lia]. rewrite seqZ_three by lia.
  rewrite Z.sub_diag, Z.add_0_r. do 3 f_equal; lia.
Qed.

Lemma ins_blocks e es : Permutation (data_blocks (ins e es)) (data_blocks es ++ data_blocks [e]).
Proof.
  unfold ins. cbv zeta. set (k := partition_point _ es). rewrite <- (take_drop k es) at 3. change (e :: drop k es) with ([e] ++ drop k es).
  rewrite !data_blocks_app, <- app_assoc. apply Permutation_app_head, Permutation_app_comm.
Qed.

(** * Sequences of edits *)

(** What the file system asks of a tree: a new mapping, the blocks written
    to, and the blocks kept. *)
Inductive edit := Insert (e : Extent) | SetWritten (start end_ : Z) | Truncate (kept : Z).

Definition edit_ok (ed : edit) : Prop := match ed with Insert e => valid e | _ => True end.

Definition apply_edit (t : Tree.ExtentTree) (ed : edit) : R (Tree.ExtentTree * list Extent) :=
  match ed with
  | Insert e => t ← Tree.insert t e; Ok (t, [])
  | SetWritten start end_ => t ← Tree.set_state t start end_ Written; Ok (t, [])
  | Truncate kept => Tree.remove t kept (2 ^ 32)
  end.

(** The edits in turn, and the extents they gave back. *)
Fixpoint run_edits (t : Tree.ExtentTree) (eds : list edit) : R (Tree.ExtentTree * list Extent) :=
  match eds with
  | [] => Ok (t, [])
  | ed :: eds =>
      r ← apply_edit t ed;
      let '(t, removed) := r in
      r ← run_edits t eds;
      let '(t, removed') := r in
      Ok (t, removed ++ removed')
  end.

(** The same on a mapping. *)
Definition spec_edit (f : Z -> option (Z * ExtentState)) (ed : edit) (x : Z) : option (Z * ExtentState) :=
  match ed with
  | Insert e => if covers e x then Some (place e x) else f x
  | SetWritten start end_ => restate start end_ Written x (f x)
  | Truncate kept => if in_range kept (2 ^ 32) x then None else f x
  end.

Definition inserted (eds : list edit) : list Extent := flat_map (fun ed => match ed with Insert e => [e] | _ => [] end) eds.

Lemma lookup_mapped t x : tree_ok t -> Tree.lookup t x = mapped (Tree.data_extents t) x.
Proof. intros [_ (d & Hsh & _) _ Hs Hv]. exact (find_spec _ _ _ _ x Hsh Hs Hv). Qed.

Lemma mapped_state_flat start end_ state es x : start < end_ ->
  mapped (flat_map (state_cut start end_ state) es) x = restate start end_ state x (mapped es x).
Proof.
  intros Hse. apply (mapped_flat _ (fun x o => restate start end_ state x o)); [intros; by apply mapped_state_cut|done|].
  intros [p st]. left. done.
Qed.

Lemma mapped_left_flat start end_ es x : start < end_ ->
  mapped (flat_map (left_cut start end_) es) x = if in_range start end_ x then None else mapped es x.
Proof.
  intros Hse. apply (mapped_flat _ (fun x o => if in_range start end_ x then None else o)); [intros; by apply mapped_left_cut|by destruct (in_range _ _ _)|].
  intros r. destruct (in_range start end_ x); [by right|by left].
Qed.

(** A range in which nothing has another state. *)
Lemma restate_same start end_ state es x : existsb (differs start end_ state) es = false -> restate start end_ state x (mapped es x) = mapped es x.
Proof.
  induction es as [|e es IH]; [done|]. cbn. rewrite orb_false_iff. intros [He Hes]. destruct (covers e x) eqn:Ec; [|by apply IH].
  unfold differs in He. unfold restate, place. destruct (in_range start end_ x) eqn:Er; [|done]. do 2 f_equal.
  unfold overlaps, covers, in_range in *. destruct (bool_decide _) eqn:E; [by apply bool_decide_eq_true in E|]. cbn in He. lia.
Qed.

Lemma restate_empty start end_ state x o : end_ <= start -> restate start end_ state x o = o.
Proof. intros He. unfold restate, in_range. destruct o as [[p st]|]; [|done]. destruct (_ && _) eqn:E; [lia|done]. Qed.

Lemma written_may_take es : Forall valid es -> may_take Written es.
Proof. intros Hv. eapply List.Forall_impl; [|exact Hv]. intros e [? ? ? ? ?]. pose proof (max_length_le (e_state e)). cbn. unfold WRITTEN_MAX_LEN. lia. Qed.

Lemma truncation_keeps kept es : Forall valid es -> not_punched kept (2 ^ 32) es.
Proof. intros Hv. eapply List.Forall_impl; [|exact Hv]. intros e [? ? ? ? ?]. by right. Qed.

(** One edit: its effect on the mapping, and where the blocks went. *)
Definition edit_spec (t : Tree.ExtentTree) (ed : edit) (t' : Tree.ExtentTree) (removed : list Extent) : Prop :=
  tree_ok t' /\ (forall x, Tree.lookup t' x = spec_edit (Tree.lookup t) ed x) /\
  Permutation (data_blocks (Tree.data_extents t) ++ data_blocks (inserted [ed])) (data_blocks (Tree.data_extents t') ++ data_blocks removed) /\
  Permutation (node_blocks t) (node_blocks t').

Lemma same_edit t ed : tree_ok t -> inserted [ed] = [] -> (forall x, Tree.lookup t x = spec_edit (Tree.lookup t) ed x) -> edit_spec t ed t [].
Proof. intros Ht Hi Hl. unfold edit_spec. rewrite Hi. cbn [data_blocks flat_map]. by split_and!. Qed.

Lemma insert_edit t e t' : tree_ok t -> valid e -> Tree.insert t e = Ok t' -> edit_spec t (Insert e) t' [].
Proof.
  intros Ht He E. pose proof Ht as [_ _ _ Hs Hv]. destruct (insert_ok t e Ht He) as [[Hed Ha]|[E' _]]; [|by rewrite E' in E].
  specialize (Ha t' E). destruct Hed as [(t1 & E1 & Hok & _ & Hm & Hb & _)|[[E1 _]|[E1 _]]]; rewrite E1 in E; try done. injection E as <-.
  pose proof (Forall_ins valid e _ Hv He) as Hvi. destruct (merges_keep _ _ Hm Hvi) as (_ & Hmap & _). split; [done|]. split_and!.
  - intros x. rewrite (lookup_mapped t1 x Hok), Hmap, mapped_ins by done. cbn [spec_edit]. by rewrite lookup_mapped.
  - rewrite (merges_blocks _ _ Hm Hvi). rewrite ins_blocks. change (data_blocks []) with (@nil Z). change (inserted [Insert e]) with [e]. by rewrite app_nil_r.
  - by rewrite Hb.
Qed.

Lemma state_edit t start end_ t' : tree_ok t -> Tree.set_state t start end_ Written = Ok t' -> edit_spec t (SetWritten start end_) t' [].
Proof.
  intros Ht E. pose proof Ht as [_ _ _ Hs Hv]. destruct (Z.le_gt_cases end_ start) as [Hse|Hse].
  { unfold Tree.set_state in E. rewrite (proj2 (Z.leb_le _ _) Hse) in E. injection E as <-. apply same_edit; [done|done|]. intros x. cbn. by rewrite restate_empty. }
  destruct (node_has_different_state start end_ Written (Tree.root t)) eqn:Ed.
  2: { unfold Tree.set_state in E. rewrite Ed, orb_true_r in E. injection E as <-. apply same_edit; [done|done|]. intros x. cbn [spec_edit].
    rewrite lookup_mapped by done. rewrite node_differs_flat in Ed. symmetry. by apply restate_same. }
  destruct (set_state_ok start end_ Written Hse t Ht (written_may_take _ Hv) Ed) as [(t1 & E1 & Hok & _ & Hm & Hb & _)|[[E1 _]|[E1 _]]]; rewrite E1 in E; try done.
  injection E as <-. pose proof (cut_valid start end_ Written Hse _ Hv (written_may_take _ Hv)) as Hvc.
  destruct (merges_keep _ _ Hm Hvc) as (_ & Hmap & _). split; [done|]. split_and!.
  - intros x. rewrite (lookup_mapped t1 x Hok), Hmap, mapped_state_flat by done. cbn [spec_edit]. by rewrite lookup_mapped.
  - rewrite (merges_blocks _ _ Hm Hvc), state_blocks by done. done.
  - by rewrite Hb.
Qed.

Lemma truncate_edit t kept : tree_ok t -> exists t' removed, Tree.remove t kept (2 ^ 32) = Ok (t', removed) /\ edit_spec t (Truncate kept) t' removed.
Proof.
  intros Ht. pose proof Ht as [_ _ _ Hs Hv]. destruct (Z.le_gt_cases (2 ^ 32) kept) as [Hk|Hk].
  { exists t, []. unfold Tree.remove. rewrite (proj2 (Z.leb_le _ _) Hk). split; [done|]. apply same_edit; [done|done|]. intros x. cbn [spec_edit].
    unfold in_range. destruct (_ && _) eqn:E; [lia|done]. }
  destruct (remove_ok kept (2 ^ 32) Hk t Ht (truncation_keeps kept _ Hv)) as (t' & E & Hok & Hm & Hp & _). eexists _, _. split; [exact E|].
  pose proof (left_valid kept (2 ^ 32) Hk _ Hv) as Hvl. destruct (merges_keep _ _ Hm Hvl) as (_ & Hmap & _). split; [done|]. split_and!; [| |done].
  - intros x. rewrite (lookup_mapped t' x Hok), Hmap, mapped_left_flat by done. cbn [spec_edit]. by rewrite lookup_mapped.
  - rewrite (merges_blocks _ _ Hm Hvl). cbn [inserted flat_map data_blocks app]. rewrite app_nil_r. by apply cuts_blocks.
Qed.

Lemma set_state_no_panic t start end_ : tree_ok t -> Tree.set_state t start end_ Written <> Panic.
Proof.
  intros Ht. pose proof Ht as [_ _ _ _ Hv]. destruct (Z.le_gt_cases end_ start) as [Hse|Hse].
  { unfold Tree.set_state. by rewrite (proj2 (Z.leb_le _ _) Hse). }
  destruct (node_has_different_state start end_ Written (Tree.root t)) eqn:Ed; [|unfold Tree.set_state; by rewrite Ed, orb_true_r].
  destruct (set_state_ok start end_ Written Hse t Ht (written_may_take _ Hv) Ed) as [(t1 & E1 & _)|[[E1 _]|[E1 _]]]; by rewrite E1.
Qed.

Lemma apply_edit_ok t ed : tree_ok t -> edit_ok ed ->
  match apply_edit t ed with Ok (t', removed) => edit_spec t ed t' removed | Err _ => True | Panic => False end.
Proof.
  intros Ht Hed. destruct ed as [e|start end_|kept]; cbn [apply_edit].
  - destruct (Tree.insert t e) as [t'| |] eqn:E; cbn [mbind R_bind]; [by apply insert_edit|done|].
    destruct (insert_ok t e Ht Hed) as [[[(t1 & E1 & _)|[[E1 _]|[E1 _]]] _]|[E1 _]]; by rewrite E1 in E.
  - destruct (Tree.set_state t start end_ Written) as [t'| |] eqn:E; cbn [mbind R_bind]; [by apply state_edit|done|]. by apply set_state_no_panic in E.
  - destruct (truncate_edit t kept Ht) as (t' & removed & -> & Hs). exact Hs.
Qed.

Lemma spec_fold_ext eds : forall f g, (forall x, f x = g x) -> forall x, fold_left spec_edit eds f x = fold_left spec_edit eds g x.
Proof.
  induction eds as [|ed eds IH]; intros f g Hfg x; cbn [fold_left]; [apply Hfg|]. apply IH. intros y. destruct ed; cbn [spec_edit]; by rewrite Hfg.
Qed.

Lemma run_edits_ok eds : forall t, tree_ok t -> Forall edit_ok eds ->
  match run_edits t eds with
  | Ok (t', removed) => tree_ok t' /\ (forall x, Tree.lookup t' x = fold_left spec_edit eds (Tree.lookup t) x) /\
      Permutation (data_blocks (Tree.data_extents t) ++ data_blocks (inserted eds)) (data_blocks (Tree.data_extents t') ++ data_blocks removed) /\
      Permutation (node_blocks t) (node_blocks t')
  | Err _ => True
  | Panic => False
  end.
Proof.
  induction eds as [|ed eds IH]; intros t Ht Hf; cbn [run_edits fold_left].
  { split_and!; try done. }
  inversion Hf as [|? ? Hed Hf']; subst. pose proof (apply_edit_ok t ed Ht Hed) as H1. destruct (apply_edit t ed) as [[t1 r1]| |]; cbn [mbind R_bind]; try done.
  destruct H1 as (Ht1 & Hl1 & Hd1 & Hn1). specialize (IH t1 Ht1 Hf'). destruct (run_edits t1 eds) as [[t2 r2]| |]; cbn [mbind R_bind]; try done.
  destruct IH as (Ht2 & Hl2 & Hd2 & Hn2). split_and!; [done| | |by etransitivity].
  - intros x. rewrite Hl2. apply spec_fold_ext. exact Hl1.
  - change (ed :: eds) with ([ed] ++ eds). unfold inserted. rewrite flat_map_app. fold (inserted [ed]) (inserted eds).
    rewrite !data_blocks_app, app_assoc, Hd1, <- app_assoc, (Permutation_app_comm (data_blocks r1)), app_assoc, Hd2, <- app_assoc.
    apply Permutation_app_head, Permutation_app_comm.
Qed.
