(* ===== verification/ExtentsSpec.v ===== *)
(** What the extent trees promise: a tree that was read satisfies the invariant
    of the edits; the edits refine a mapping, never panic and account for every
    block; an insertion succeeds whenever it should; and the case in which a
    truncated tree no longer fits its inode. *)

From Stdlib Require Import ZArith Lia Bool Sorted.
From stdpp Require Import base option list numbers.
From S2P Require Import Prelude Ext4 Extents ExtentsFacts ExtentsEdit.
Local Open Scope machine_scope.

(** * What the loader accepts *)

(** A record whose fields fit their types, and that ends inside the file. *)
Definition ranged (e : Extent) : Prop := 0 <= e_logical e /\ logical_end e <= 2 ^ 32 /\ 0 <= e_length e /\ 0 <= e_physical e.

Lemma validate_leaf_valid es : forall p, validate_leaf p es = Ok tt -> Forall ranged es -> Forall valid es.
Proof.
  induction es as [|e es IH]; intros p Hv Hr; [constructor|]. inversion Hr as [|? ? He Hes]; subst. cbn [validate_leaf] in Hv.
  destruct He as (Hl & Hend & Hlen & Hp). rewrite (new_extent_valid e Hl Hend Hlen Hp) in Hv.
  destruct (bool_decide _) eqn:E; [|done]. apply bool_decide_eq_true in E. cbn [mbind R_bind] in Hv.
  destruct (match p with Some _ => _ | None => _ end); [done|]. constructor; [|by eapply IH].
  unfold logical_end in *. split; unfold logical_end; lia.
Qed.

(** The loop of [validate] over the children of a node. *)
Section Children.
Context (bc child_depth : Z).
Fixpoint validate_children (previous : option Z) (cs : list ExtentNode) : R () :=
  match cs with
  | [] => Ok tt
  | c :: cs =>
      if negb (depth c =? child_depth) || negb (is_block (location c)) then corrupt InvalidExtentTree else
      first ← ok_or (first_logical c) (ECorrupt InvalidExtentTree);
      if not_above previous first then corrupt InvalidExtentTree else
      _ ← validate bc false c;
      validate_children (Some first) cs
  end.
End Children.

Lemma validate_branch bc r l d c cs :
  validate bc r (Branch l d (c :: cs)) =
    (_ ← (if (if r then ROOT_CAPACITY else bc) <? zlen (c :: cs) then corrupt InvalidExtentTree else validate_children bc (depth c) None (c :: cs));
     if MAX_DEPTH <? depth c + 1 then corrupt InvalidExtentTree else Ok tt).
Proof. reflexivity. Qed.

Lemma validate_children_each bc k cs : forall p, validate_children bc k p cs = Ok tt ->
  Forall (fun c => depth c = k /\ validate bc false c = Ok tt) cs.
Proof.
  induction cs as [|c cs IH]; intros p; [constructor|]. cbn [validate_children].
  destruct (depth c =? k) eqn:Ed; cbn [negb orb]; [|done]. destruct (negb _); [done|].
  destruct (first_logical c) as [f|]; [|done]. cbn [ok_or mbind R_bind]. destruct (not_above p f); [done|].
  destruct (validate bc false c) as [[]| |] eqn:Ev; cbn [mbind R_bind]; [|done|done]. intros Hr. constructor; [split; [lia|done]|by eapply IH].
Qed.

Lemma validate_shape bc n : forall r, validate bc r n = Ok tt -> Forall ranged (extents_of n) ->
  exists d, depth n = Z.of_nat d /\ Z.of_nat d <= MAX_DEPTH /\ shape bc d (if r then ROOT_CAPACITY else bc) n /\
    (r = false -> extents_of n <> []) /\ Forall valid (extents_of n).
Proof.
  induction n as [l d es|l d cs IH] using node_induction; intros r.
  - cbn [validate extents_of depth]. destruct (_ || _) eqn:E; [done|]. rewrite orb_false_iff in E. destruct E as [E1 E2].
    destruct (validate_leaf None es) as [[]| |] eqn:Ev; [|done|done]. intros _ Hr. exists O. split_and!; [done|done|cbn [shape]; lia| |by eapply validate_leaf_valid].
    intros ->. cbn in E2. by apply bool_decide_eq_false in E2.
  - destruct cs as [|c cs]; [by destruct r|]. rewrite validate_branch. destruct (_ <? zlen _) eqn:El; [done|].
    destruct (validate_children bc (depth c) None (c :: cs)) as [[]| |] eqn:Ev; cbn [mbind R_bind]; [|done|done].
    destruct (MAX_DEPTH <? depth c + 1) eqn:Ed; [done|]. intros _ Hr. apply validate_children_each in Ev. cbn [extents_of] in *.
    set (ch := c :: cs) in *. assert (forall x, x ∈ ch -> Forall ranged (extents_of x)) as Hrx.
    { intros x Hx. apply list.Forall_forall. intros e He. apply (proj1 (list.Forall_forall _ _) Hr). apply elem_of_flat. eauto. }
    assert (exists k, depth c = Z.of_nat k /\ Forall (fun x => shape bc k bc x /\ extents_of x <> []) ch /\ Forall valid (flat_map extents_of ch)) as (k & Hk & Hf & Hv).
    { assert (exists k, depth c = Z.of_nat k) as [k Hk].
      { inversion IH as [|? ? IHc _]; subst. inversion Ev as [|? ? [_ Hvc] _]; subst. destruct (IHc false Hvc) as (k & Hk & _); [apply Hrx; left|eauto]. }
      exists k. split; [done|]. clearbody ch. clear El. induction ch as [|x ch IHx]; [split; constructor|].
      inversion IH as [|? ? IHc IHch]; subst. inversion Ev as [|? ? [Hdx Hvx] Evx]; subst. cbn [flat_map] in *.
      destruct (IHx IHch Evx) as [I1 I2]; [by apply list.Forall_app in Hr as [_ ?]|intros; apply Hrx; by right|].
      destruct (IHc false Hvx) as (kx & Hkx & _ & Hsx & Hnx & Hvx'); [apply Hrx; left|]. assert (kx = k) as -> by lia.
      split; [constructor; [split; [done|by apply Hnx]|done]|apply list.Forall_app; by split]. }
    exists (S k). split_and!; [cbn [depth ch]; lia|lia| | |done].
    + cbn [shape]. split; [done|]. split; [lia|done].
    + intros _. by eapply flat_nonempty.
Qed.

Lemma last_before es : forall (e : Extent), Forall valid es -> sorted es -> (forall p, list.last es = Some p -> logical_end p <= e_logical e) ->
  forall x, x ∈ es -> before x e.
Proof.
  induction es as [|a es IH]; intros e Hv Hs Hl x Hx; [by apply not_elem_of_nil in Hx|].
  inversion Hv as [|? ? Ha Hv']; subst. apply sorted_cons in Hs as [Hs Hb].
  assert (forall y, y ∈ es -> before y e) as Hes.
  { intros y Hy. apply IH; try done. intros p Hp. apply Hl. destruct es; [done|]. exact Hp. }
  apply elem_of_cons in Hx as [->|Hx]; [|by apply Hes]. destruct es as [|b es]; [by apply Hl|].
  pose proof (Hes b ltac:(left)). pose proof (Hb b ltac:(left)). inversion Hv' as [|? ? [] _]; subst. unfold before, logical_end in *. lia.
Qed.

Lemma elem_data_blocks b es : b ∈ data_blocks es <-> exists e, e ∈ es /\ e_physical e <= b < e_physical e + e_length e.
Proof. unfold data_blocks. rewrite elem_of_flat. by setoid_rewrite elem_of_seqZ. Qed.

Lemma bind_ok {A B} (m : R A) (f : A -> R B) b : (m ≫= f) = Ok b -> exists a, m = Ok a /\ f a = Ok b.
Proof. destruct m as [a| |]; [|done|done]. cbn. eauto. Qed.

(** The mappings of a tree that was read: in order, inside the device, no block
    twice and none of the tree's own. *)
Lemma check_extents_ok bcount visited es : forall seen, Tree.check_extents bcount visited seen es = Ok tt -> Forall valid (seen ++ es) ->
  sorted seen -> NoDup (data_blocks seen) -> sorted (seen ++ es) /\ NoDup (data_blocks (seen ++ es)) /\
  forall b, b ∈ data_blocks es -> b < bcount /\ b ∉ visited.
Proof.
  induction es as [|e es IH]; intros seen Hc Hv Hs Hn.
  { rewrite app_nil_r. split_and!; [done|done|]. intros b Hb. by apply not_elem_of_nil in Hb. }
  cbn [Tree.check_extents] in Hc. destruct (match list.last seen with Some _ => _ | None => _ end) eqn:El; [done|].
  destruct (bcount <? _) eqn:Eb; [done|]. destruct (_ || _ || _) eqn:Eo; [done|]. rewrite !orb_false_iff in Eo. destruct Eo as [[Ev1 Ev2] Es].
  pose proof Hv as Hv0. apply list.Forall_app in Hv0 as [Hvs Hve]. inversion Hve as [|? ? He Hves]; subst.
  assert (forall x, x ∈ seen -> before x e) as Hbe.
  { apply last_before; [done|done|]. intros p Hp. rewrite Hp in El. lia. }
  assert (forall b, e_physical e <= b < e_physical e + e_length e -> b ∉ visited) as Hnv.
  { intros b Hb Hin. destruct (Z.eq_dec b (e_physical e)) as [->|Hne].
    - enough (existsb (Z.eqb (e_physical e)) visited = true) as Ht by by rewrite Ht in Ev1.
      apply existsb_exists. exists (e_physical e). split; [by apply list_elem_of_In|lia].
    - enough (existsb (fun b => (e_physical e <? b) && (b <? e_physical e + e_length e)) visited = true) as Ht by by rewrite Ht in Ev2.
      apply existsb_exists. exists b. split; [by apply list_elem_of_In|lia]. }
  assert (forall b, e_physical e <= b < e_physical e + e_length e -> b ∉ data_blocks seen) as Hns.
  { intros b Hb (p & Hp & Hpb)%elem_data_blocks.
    enough (existsb (fun p => (e_physical e <? u64 (e_physical p + e_length p)) && (e_physical p <? e_physical e + e_length e)) seen = true) as Ht by by rewrite Ht in Es.
    apply existsb_exists. exists p. split; [by apply list_elem_of_In|]. pose proof (proj1 (list.Forall_forall _ _) Hvs p Hp) as [? ? ? ? ?].
    rewrite wrap_small by (unfold fits; lia). lia. }
  destruct (IH (seen ++ [e])) as (I1 & I2 & I3); [done|by rewrite <- app_assoc| | |].
  - apply sorted_app. split_and!; [done|apply sorted_one|]. intros x y Hx ->%list_elem_of_singleton. by apply Hbe.
  - rewrite data_blocks_app, data_blocks_one. apply list.NoDup_app. split_and!; [done| |apply NoDup_seqZ].
    intros b Hb1 Hb2%elem_of_seqZ. by apply (Hns b Hb2).
  - rewrite <- app_assoc in I1, I2. split_and!; [done|done|]. intros b Hb. change (e :: es) with ([e] ++ es) in Hb.
    rewrite data_blocks_app, data_blocks_one in Hb. apply elem_of_app in Hb as [Hb%elem_of_seqZ|Hb]; [|by apply I3]. split; [lia|by apply Hnv].
Qed.

Section Load.
Context `{Crc}.

(** The blocks read are the blocks of the tree, each read once. *)
Lemma load_node_visited k : forall bytes loc cap bc bcount id rd visited n visited',
  load_node k bytes loc cap bc bcount id rd visited = Ok (n, visited') -> NoDup visited ->
  location n = loc /\ visited' = visited ++ inner_blocks n /\ NoDup visited'.
Proof.
  induction k as [|k IH]; intros bytes loc cap bc bcount id rd visited n visited' Hl Hn; cbn [load_node] in Hl.
  all: apply bind_ok in Hl as (dep & _ & Hl); destruct (negb _); [done|]; apply bind_ok in Hl as (entries & _ & Hl).
  - destruct (_ && _); [done|]. apply bind_ok in Hl as (es & _ & Hl). injection Hl as <- <-. by rewrite app_nil_r.
  - destruct (entries =? 0); [done|]. apply bind_ok in Hl as ([cs v] & Hl & E). injection E as <- <-. split; [done|].
    unfold inner_blocks. cbn [children_of].
    match type of Hl with ?f _ _ _ _ = _ =>
      assert (forall m idx prev cs v visited, NoDup visited -> f m idx prev visited = Ok (cs, v) -> v = visited ++ flat_map collect_blocks cs /\ NoDup v)
        as Hloop; [|by eapply Hloop] end.
    clear - IH. intros m. induction m as [|m IHm]; intros idx prev cs v visited Hn Hl.
    { injection Hl as <- <-. by rewrite app_nil_r. }
    apply bind_ok in Hl as (logical & _ & Hl). destruct (not_above _ _); [done|].
    apply bind_ok in Hl as (lo & _ & Hl). apply bind_ok in Hl as (hi & _ & Hl). destruct (_ || _) eqn:Ev; [done|].
    rewrite !orb_false_iff in Ev. destruct Ev as [_ Ev].
    apply bind_ok in Hl as (cb & _ & Hl). destruct (negb _); [done|]. apply bind_ok in Hl as (? & _ & Hl).
    apply bind_ok in Hl as ([c v1] & Hc & Hl). destruct (negb _); [done|]. apply bind_ok in Hl as ([cs1 v2] & Hrest & Hl). injection Hl as <- <-.
    set (number := join 32 lo hi) in *. assert (number ∉ visited) as Hnew.
    { intros Hin. enough (existsb (Z.eqb number) visited = true) as Ht by by rewrite Ht in Ev.
      apply existsb_exists. exists number. split; [by apply list_elem_of_In|lia]. }
    apply IH in Hc as (Hloc & -> & Hn1).
    2: { apply list.NoDup_app. split_and!; [done| |apply NoDup_singleton]. intros y Hy ->%list_elem_of_singleton. done. }
    apply IHm in Hrest as [-> Hn2]; [|done]. split; [|done]. cbn [flat_map]. rewrite (collect_own c). unfold own_block. rewrite Hloc.
    rewrite <- !app_assoc. reflexivity.
Qed.

(** A tree that was read. *)
Lemma load_ok root_bytes block_size bcount id rd t :
  Tree.load root_bytes block_size bcount id rd = Ok t -> Forall ranged (Tree.data_extents t) ->
  tree_ok t /\ root_fits t = true /\ NoDup (node_blocks t ++ data_blocks (Tree.data_extents t)).
Proof.
  unfold Tree.load. intros Hl Hr. apply bind_ok in Hl as (bc & _ & Hl). destruct (bc <=? ROOT_CAPACITY) eqn:Ebc; [done|].
  apply bind_ok in Hl as (dep & _ & Hl). destruct (MAX_DEPTH <? dep); [done|]. apply bind_ok in Hl as ([root visited] & Hn & Hl).
  apply bind_ok in Hl as (tree & Ht & Hl). apply bind_ok in Hl as ([] & Hc & Hl). injection Hl as <-.
  unfold Tree.new_tree in Ht. destruct (negb _ || _); [done|]. apply bind_ok in Ht as ([] & Hval & Ht). injection Ht as <-.
  apply load_node_visited in Hn as (Hloc & Hvis & Hnd); [|constructor]. cbn [app] in Hvis. subst visited.
  destruct (validate_shape bc root true Hval Hr) as (d & _ & Hd & Hsh & _ & Hv).
  destruct (check_extents_ok _ _ _ [] Hc Hv) as (Hs & Hnb & Hb); [constructor|constructor|]. cbn [app] in *. split_and!.
  - split; cbn; [lia| |done|done|done]. exists d. split; [|lia]. eapply shape_mono; [done|lia].
  - apply entry_count_le in Hsh. unfold root_fits. cbn. lia.
  - unfold node_blocks. cbn [Tree.released_nodes Tree.root app]. rewrite collect_own. unfold own_block. rewrite Hloc. cbn [app].
    apply list.NoDup_app. split_and!; [done| |done]. intros x Hx Hx'. by apply (Hb x Hx').
Qed.
End Load.

(** * The theorems *)

Section Theorems.
Context `{Crc}.

(** C6: The extent tree of an inode as it was read, edited by any sequence of
    insertions, conversions to written and truncations with splits, merges,
    promotion and collapse of the root, never panics, and where every edit
    succeeds a lookup answers for every block of the file what the same edits
    make of the mapping that was read. *)
Theorem extent_edits_refine root_bytes block_size blocks_count id read_block t eds :
  Tree.load root_bytes block_size blocks_count id read_block = Ok t -> Forall ranged (Tree.data_extents t) -> Forall edit_ok eds ->
  match run_edits t eds with
  | Ok (t', _) => forall x, Tree.lookup t' x = fold_left spec_edit eds (Tree.lookup t) x
  | Err _ => True
  | Panic => False
  end.
Proof.
  intros Hl Hr He. destruct (load_ok _ _ _ _ _ _ Hl Hr) as (Ht & _ & _). pose proof (run_edits_ok eds t Ht He) as Hrun.
  destruct (run_edits t eds) as [[t' removed]| |]; [|done|done]. by destruct Hrun as (_ & ? & _).
Qed.

(** C7: Every block is accounted for.  Where the edits of a tree that was read
    succeed, and the blocks they insert are all different and none of them was
    a block of the tree, each block of the device is, after the edits, at most
    once a mapped block, a block given back, a node of the tree or a released
    node, and together these are the blocks there were and those inserted.  (A
    block that is given back and inserted again is in both.) *)
Theorem extent_blocks_accounted root_bytes block_size blocks_count id read_block t eds t' removed :
  Tree.load root_bytes block_size blocks_count id read_block = Ok t -> Forall ranged (Tree.data_extents t) -> Forall edit_ok eds ->
  run_edits t eds = Ok (t', removed) ->
  NoDup (data_blocks (inserted eds)) ->
  Forall (fun b => b ∉ node_blocks t ++ data_blocks (Tree.data_extents t)) (data_blocks (inserted eds)) ->
  Permutation (node_blocks t ++ data_blocks (Tree.data_extents t) ++ data_blocks (inserted eds))
              (node_blocks t' ++ data_blocks (Tree.data_extents t') ++ data_blocks removed) /\
  NoDup (node_blocks t' ++ data_blocks (Tree.data_extents t') ++ data_blocks removed).
Proof.
  intros Hl Hr He Hrun Hni Hfresh. destruct (load_ok _ _ _ _ _ _ Hl Hr) as (Ht & _ & Hnd). pose proof (run_edits_ok eds t Ht He) as Hok.
  rewrite Hrun in Hok. destruct Hok as (_ & _ & Hd & Hn).
  assert (Permutation (node_blocks t ++ data_blocks (Tree.data_extents t) ++ data_blocks (inserted eds))
            (node_blocks t' ++ data_blocks (Tree.data_extents t') ++ data_blocks removed)) as Hp by by rewrite Hd, Hn.
  split; [done|]. rewrite <- Hp, app_assoc. apply list.NoDup_app. split_and!; [done| |done].
  intros x Hx Hx'. exact (proj1 (list.Forall_forall _ _) Hfresh x Hx' Hx).
Qed.

(** An extent that overlaps nothing goes into any tree below the depth
    limit whose root fits its inode, and the tree then maps it and what it
    mapped before, with a root that fits again. *)
Theorem insert_extent_succeeds t e :
  tree_ok t -> root_fits t = true -> 6 <= Tree.block_capacity t -> depth (Tree.root t) < MAX_DEPTH -> valid e ->
  node_overlaps (e_logical e) (logical_end e) (Tree.root t) = false ->
  node_overlaps_data (e_physical e) (e_length e) (Tree.root t) = false ->
  node_overlaps_block_range (e_physical e) (e_length e) (Tree.root t) = false ->
  exists t', Tree.insert t e = Ok t' /\ tree_ok t' /\ root_fits t' = true /\
    forall x, Tree.lookup t' x = if covers e x then Some (place e x) else Tree.lookup t x.
Proof.
  intros Ht Hf Hbc Hd He H1 H2 H3. destruct (insert_ok t e Ht He) as [[Hed _]|[_ Hno]]; [|by rewrite H1, H2, H3 in Hno].
  unfold root_fits, ROOT_CAPACITY in Hf. destruct Hed as [(t' & E & Hok & Hfit & _)|[[_ Hdeep]|[_ Hbig]]]; [|lia|lia].
  exists t'. split_and!; [done|done|done|]. by destruct (insert_edit t e t' Ht He E) as (_ & Hl & _).
Qed.

(** C40: A truncation can leave a tree that cannot be written back: a root with
    one leaf of five or more records that stay hands its place to that leaf,
    although the inode has room for four, and writing the root is refused as
    a corrupt tree. *)
Theorem truncate_overfills_root t l d l' d' es kept target_len :
  Tree.root t = Branch l d [Leaf l' d' es] -> Forall valid es -> merge_leaf es = es -> ROOT_CAPACITY < zlen es ->
  Forall (fun e => logical_end e <= kept) es -> kept < 2 ^ 32 ->
  exists t', Tree.remove t kept (2 ^ 32) = Ok (t', []) /\ Tree.data_extents t' = es /\
    Tree.write_root t' target_len = Err (ECorrupt InvalidExtentTree).
Proof.
  intros Hroot Hv Hm Hlen Hkept Hk. unfold Tree.remove. rewrite (proj2 (Z.leb_gt _ _) Hk), Hroot, remove_branch. cbn [remove_children remove_range].
  rewrite remove_from_leaf_ok by done.
  assert (forall e, e ∈ es -> overlaps e kept (2 ^ 32) = false) as Hno.
  { intros e He. pose proof (proj1 (list.Forall_forall _ _) Hkept e He). cbn in *. unfold overlaps. lia. }
  assert (flat_map (left_cut kept (2 ^ 32)) es = es) as ->.
  { clear - Hno. induction es as [|e es IH]; [done|]. cbn [flat_map]. unfold left_cut at 1. rewrite Hno by left. cbn [negb app]. f_equal. apply IH.
    intros x Hx. apply Hno. by right. }
  assert (flat_map (removed_cut kept (2 ^ 32)) es = []) as ->.
  { clear - Hno. induction es as [|e es IH]; [done|]. cbn [flat_map]. unfold removed_cut at 1. rewrite Hno by left. cbn [negb app]. apply IH.
    intros x Hx. apply Hno. by right. }
  rewrite Hm. cbn [mbind R_bind is_empty]. destruct es as [|e es]; [cbn in Hlen; unfold ROOT_CAPACITY in Hlen; lia|].
  eexists. split; [reflexivity|]. split; [reflexivity|]. unfold Tree.write_root, write_node. cbn [Tree.root set_location mark entry_count collapse].
  rewrite (proj2 (Z.ltb_lt _ _) Hlen), orb_true_r. reflexivity.
Qed.
(** A block of 2048 or 8192 bytes holds more than the loader expects of a node,
    so that it reads no tree but one that fits into the inode. *)
Lemma odd_block_size_reads_no_nodes root_bytes block_size blocks_count id read_block t :
  block_size = 2048 \/ block_size = 8192 -> (forall n b, read_block n = Ok b -> zlen b = block_size) ->
  Tree.load root_bytes block_size blocks_count id read_block = Ok t -> exists l d es, Tree.root t = Leaf l d es.
Proof.
  intros Hbs Hrd Hl. unfold Tree.load in Hl. apply bind_ok in Hl as (bc & Hbc & Hl). destruct (bc <=? ROOT_CAPACITY); [done|].
  apply bind_ok in Hl as (dep & _ & Hl). destruct (MAX_DEPTH <? dep); [done|]. apply bind_ok in Hl as ([root visited] & Hn & Hl).
  apply bind_ok in Hl as (tree & Ht & Hl). apply bind_ok in Hl as (? & _ & Hl). injection Hl as <-.
  unfold Tree.new_tree in Ht. destruct (negb _ || _); [done|]. apply bind_ok in Ht as (? & Hval & Ht). injection Ht as <-. cbn [Tree.root].
  assert (zlen (replicate (Z.to_nat block_size) 0) <> 12 + bc * 12 + 4) as Hodd.
  { rewrite length_replicate. destruct Hbs; subst block_size; vm_compute in Hbc; injection Hbc as <-; lia. }
  rewrite length_replicate, Z2Nat.id in Hodd by lia.
  destruct (Z.to_nat dep) as [|k]; cbn [load_node] in Hn;
    apply bind_ok in Hn as (h & _ & Hn); destruct (negb _); try done; apply bind_ok in Hn as (entries & _ & Hn).
  - destruct (_ && _); [done|]. apply bind_ok in Hn as (es & _ & Hn). injection Hn as <- _. eauto.
  - destruct (entries =? 0) eqn:E0; [done|]. exfalso. apply bind_ok in Hn as ([cs v] & Hn & E).
    destruct (Z.to_nat entries) as [|m] eqn:Em. 2: {
      apply bind_ok in Hn as (logical & _ & Hn). destruct (not_above _ _); [done|].
      apply bind_ok in Hn as (lo & _ & Hn). apply bind_ok in Hn as (hi & _ & Hn). destruct (_ || _); [done|].
      apply bind_ok in Hn as (cb & Hcb & Hn). rewrite (Hrd _ _ Hcb) in Hn. rewrite (proj2 (Z.eqb_neq _ _) Hodd) in Hn. done. }
    injection Hn as <-. cbn in *. injection E as <- _. by destruct (bc <=? 0).
Qed.

End Theorems.

(** * A tree of an inode with two extents *)

Module Inode.

Definition add_up (seed : Z) (b : list Z) : Z := u32 (foldl Z.add seed b).
#[local] Instance crc : Crc := {| checksum := add_up; checksum_fits := fun c l => wrap_fits 32 (foldl Z.add c l) ltac:(lia) |}.

(** The sixty bytes of an inode: header, [0, 2) at 1000 written, [10, 14) at
    2000 unwritten. *)
Definition root_bytes : list Z :=
  [10; 243; 2; 0; 4; 0; 0; 0; 0; 0; 0; 0;  0; 0; 0; 0; 2; 0; 0; 0; 232; 3; 0; 0;  10; 0; 0; 0; 4; 128; 0; 0; 208; 7; 0; 0] ++ replicate 24 0.
Definition id : ExtentIdentity := mkIdentity 1 2 3 true.
Definition no_block (_ : Z) : R (list Z) := corrupt InvalidExtentTree.
Definition tree : Tree.ExtentTree := Tree.mkTree (Leaf AtRoot false [mkExtent 0 1000 2 Written; mkExtent 10 2000 4 Unwritten]) 8 [].

Lemma loads : Tree.load root_bytes 112 100000 id no_block = Ok tree.
Proof. vm_compute. reflexivity. Qed.

Lemma tree_ranged : Forall ranged (Tree.data_extents tree).
Proof. apply list.Forall_cons. split; [|apply list.Forall_cons; split; [|constructor]]; unfold ranged, logical_end; cbn; lia. Qed.

Definition put (l p : Z) : edit := Insert (mkExtent l p 1 Unwritten).

(** Ten insertions split the root and a leaf; then a record is cut in three, and
    the file truncated. *)
Definition edits : list edit :=
  [put 20 20; put 30 30; put 40 40; put 50 50; put 60 60; put 70 70; put 80 80; put 90 90; put 100 100; put 110 110; SetWritten 11 13; Truncate 12].

Lemma edits_fine : Forall edit_ok edits.
Proof. unfold edits. repeat (apply list.Forall_cons; split; [try exact I; split; unfold logical_end; cbn; unfold UNWRITTEN_MAX_LEN; lia|]). constructor. Qed.

Lemma extent_edits_refine_witness : exists t' removed,
  run_edits tree edits = Ok (t', removed) /\ Tree.lookup t' 10 = Some (2000, Unwritten) /\ Tree.lookup t' 11 = Some (2001, Written) /\
  Tree.lookup t' 12 = None /\ removed <> [].
Proof.
  pose proof (extent_edits_refine root_bytes 112 100000 id no_block tree edits loads tree_ranged edits_fine) as H.
  destruct (run_edits tree edits) as [[t' removed]| |] eqn:E; [|exfalso; vm_compute in E; discriminate E|destruct H].
  exists t', removed. split; [reflexivity|]. rewrite !H. split; [reflexivity|]. split; [reflexivity|]. split; [reflexivity|].
  intros ->. vm_compute in E. discriminate E.
Defined.

Lemma extent_blocks_accounted_witness : exists t' removed, run_edits tree edits = Ok (t', removed) /\
  NoDup (node_blocks t' ++ data_blocks (Tree.data_extents t') ++ data_blocks removed).
Proof.
  destruct (run_edits tree edits) as [[t' removed]|e|] eqn:E; [|exfalso; vm_compute in E; discriminate E..].
  exists t', removed. split; [reflexivity|].
  apply (extent_blocks_accounted root_bytes 112 100000 id no_block tree edits t' removed loads tree_ranged edits_fine E).
  - apply (bool_decide_unpack _). vm_compute. exact I.
  - apply (bool_decide_unpack _). vm_compute. exact I.
Defined.

Lemma insert_extent_succeeds_witness : exists t', Tree.insert tree (mkExtent 2 1002 3 Written) = Ok t' /\ Tree.lookup t' 4 = Some (1004, Written).
Proof.
  destruct (insert_extent_succeeds tree (mkExtent 2 1002 3 Written)) as (t' & E & _ & _ & Hl); try reflexivity.
  - apply (load_ok root_bytes 112 100000 id no_block tree loads tree_ranged).
  - cbn. lia.
  - split; unfold logical_end; cbn; unfold WRITTEN_MAX_LEN; lia.
  - exists t'. split; [exact E|]. rewrite Hl. reflexivity.
Defined.

Definition five : list Extent := [mkExtent 0 1000 1 Written; mkExtent 2 1010 1 Written; mkExtent 4 1020 1 Written; mkExtent 6 1030 1 Written; mkExtent 8 1040 1 Written].

Lemma truncate_overfills_root_witness : exists t',
  Tree.remove (Tree.mkTree (Branch AtRoot true [Leaf (AtBlock 7) true five]) 84 []) 9 (2 ^ 32) = Ok (t', []) /\
  Tree.write_root t' 60 = Err (ECorrupt InvalidExtentTree).
Proof.
  destruct (truncate_overfills_root (Tree.mkTree (Branch AtRoot true [Leaf (AtBlock 7) true five]) 84 []) AtRoot true (AtBlock 7) true five 9 60)
    as (t' & E & _ & Hw); try reflexivity.
  - unfold five. repeat (apply list.Forall_cons; split; [split; unfold logical_end; cbn; unfold WRITTEN_MAX_LEN; lia|]). constructor.
  - unfold five. repeat (apply list.Forall_cons; split; [unfold logical_end; cbn; lia|]). constructor.
  - exists t'. split; [exact E|exact Hw].
Defined.

End Inode.
