(* ===== verification/DirEdit.v ===== *)
(** Changing the directories of an ext4 filesystem (ext4/src/transaction.rs): the
    entries of a directory block, and a linear directory as its blocks.

    A block is the list of its bytes; an edit that fails leaves no block, since
    the source drops the tree with the error. *)

From Stdlib Require Import ZArith Lia Bool.
From stdpp Require Import base option list numbers.
From S2P Require Import Prelude Ext4.
Local Open Scope machine_scope.

Section DirEdit.
Context `{Crc}.

(** * One block *)

Definition put_le16 (b : list Z) (off x : Z) : R (list Z) := put b off (to_le_bytes 2 x).
Definition put_le32 (b : list Z) (off x : Z) : R (list Z) := put b off (to_le_bytes 4 x).

(** [block.len().checked_sub(12)] *)
Definition leaf_tail (block : list Z) : R Z := if zlen block <? 12 then corrupt InvalidDirectory else Ok (zlen block - 12).

(** The head of the record at [cursor]: its inode, length and name length. *)
Definition record_at (block : list Z) (tail cursor : Z) : R (Z * Z * Z) :=
  if tail - cursor <? 8 then corrupt InvalidDirectory else
  entry_inode ← le32 block cursor;
  record_len ← le16 block (cursor + 4);
  name_len ← byte_at block (cursor + 6);
  if (record_len <? 8) || negb (record_len mod 4 =? 0) || (tail <? cursor + record_len) || (record_len - 8 <? name_len)
  then corrupt InvalidDirectory
  else Ok (entry_inode, record_len, name_len).

(** The space a name of [n] bytes takes, [(8 + n + 3) & !3]. *)
Definition needed_for (n : Z) : Z := (8 + n + 3) .& bnot 32 3.

(** [put_le32(block, tail + 8, ...)] with the checksum of the inode and the body. *)
Definition seal (seed number generation : Z) (block : list Z) (tail : Z) : R (list Z) :=
  body ← slice block 0 tail;
  put_le32 block (tail + 8) (checksum seed (to_le_bytes 4 number ++ to_le_bytes 4 generation ++ body)).

Definition initialize_directory_block (seed inode_number generation parent_number : Z) (block : list Z) : R (list Z) :=
  let tail := zlen block - 12 in
  if (tail <? 24) || (U16_MAX <? tail) then corrupt InvalidDirectory else
  let b := zeros (zlen block) in
  b ← put_le32 b 0 inode_number; b ← put_le16 b 4 12; b ← put b 6 [1]; b ← put b 7 [2]; b ← put b 8 [0x2e];
  b ← put_le32 b 12 parent_number; b ← put_le16 b 16 (u16 (tail - 12)); b ← put b 18 [2]; b ← put b 19 [2]; b ← put b 20 [0x2e; 0x2e];
  b ← put_le16 b (tail + 4) 12; b ← put b (tail + 7) [0xde];
  seal seed inode_number generation b tail.

Definition initialize_empty_directory_leaf (seed inode_number generation : Z) (block : list Z) : R (list Z) :=
  let tail := zlen block - 12 in
  if (tail <? 8) || (U16_MAX <? tail) then corrupt InvalidDirectory else
  let b := zeros (zlen block) in
  b ← put_le16 b 4 (u16 tail); b ← put_le16 b (tail + 4) 12; b ← put b (tail + 7) [0xde];
  seal seed inode_number generation b tail.

(** The parent named by the second entry of a first block. *)
Definition directory_parent_entry (block : list Z) (inode_number : Z) : R Z :=
  if zlen block <? 24 then corrupt InvalidDirectory else
  n ← le32 block 0; if negb (n =? inode_number) then corrupt InvalidDirectory else
  l ← le16 block 4; if l <? 12 then corrupt InvalidDirectory else
  k ← byte_at block 6; t ← byte_at block 7; d ← byte_at block 8;
  if negb (k =? 1) || negb (t =? 2) || negb (d =? 0x2e) then corrupt InvalidDirectory else
  let parent := l in
  if zlen block <? parent + 10 then corrupt InvalidDirectory else
  p ← le32 block parent; if p =? 0 then corrupt InvalidDirectory else
  pl ← le16 block (parent + 4); if pl <? 12 then corrupt InvalidDirectory else
  k ← byte_at block (parent + 6); t ← byte_at block (parent + 7);
  if negb (k =? 2) || negb (t =? 2) then corrupt InvalidDirectory else
  nm ← slice block (parent + 8) 2;
  if negb (bool_decide (nm = [0x2e; 0x2e])) then corrupt InvalidDirectory else Ok p.

Definition replace_directory_parent (seed : Z) (directory : Inode) (block : list Z) (old_parent new_parent : Z) : R (list Z) :=
  p ← directory_parent_entry block (number directory);
  if negb (p =? old_parent) || (new_parent =? 0) then corrupt InvalidDirectory else
  parent ← le16 block 4;
  b ← put_le32 block parent new_parent;
  tail ← leaf_tail b;
  seal seed (number directory) (generation directory) b tail.

(** Where a new record goes: its place, its length, and the record it is split
    from with the length that one keeps. *)
Definition place : Type := Z * Z * option (Z * Z).

Fixpoint insert_scan (fuel : nat) (block : list Z) (tail : Z) (name : list Z) (needed cursor : Z) (insertion : option place) : R (option place) :=
  match fuel with
  | O => Panic
  | S n =>
      if negb (cursor <? tail) then if negb (cursor =? tail) then corrupt InvalidDirectory else Ok insertion else
      r ← record_at block tail cursor;
      let '(entry_inode, record_len, name_len) := r in
      nm ← slice block (cursor + 8) name_len;
      if negb (entry_inode =? 0) && bool_decide (nm = name) then Err AlreadyExists else
      let insertion :=
        match insertion with
        | Some p => Some p
        | None =>
            if (entry_inode =? 0) && (needed <=? record_len) then Some (cursor, record_len, None)
            else if negb (entry_inode =? 0) then
              let used := needed_for name_len in
              if needed <=? record_len - used then Some (cursor + used, record_len - used, Some (cursor, used)) else None
            else None
        end in
      insert_scan n block tail name needed (cursor + record_len) insertion
  end.

(** [matches!(file_type, 1 | 2 | 7)] *)
Definition known_type (file_type : Z) : bool := bool_decide (file_type ∈ [1; 2; 7]).

Definition insert_directory_entry (seed : Z) (directory : Inode) (block : list Z) (inode_number : Z) (name : list Z) (file_type : Z) : R (list Z) :=
  if negb (known_type file_type) then Err InvalidArgument else
  tail ← leaf_tail block;
  insertion ← insert_scan (S (length block)) block tail name (needed_for (zlen name)) 0 None;
  match insertion with
  | None => unsupported ExtentMutation
  | Some (at_, record_len, split_previous) =>
      b ← match split_previous with Some (previous, previous_len) => put_le16 block (previous + 4) (u16 previous_len) | None => Ok block end;
      b ← put b at_ (zeros record_len);
      b ← put_le32 b at_ inode_number;
      b ← put_le16 b (at_ + 4) (u16 record_len);
      b ← put b (at_ + 6) [u8 (zlen name)];
      b ← put b (at_ + 7) [file_type];
      b ← put b (at_ + 8) name;
      seal seed (number directory) (generation directory) b tail
  end.

Fixpoint remove_scan (fuel : nat) (block : list Z) (tail inode_number : Z) (name : list Z) (cursor : Z) (previous : option Z) : R (list Z) :=
  match fuel with
  | O => Panic
  | S n =>
      if negb (cursor <? tail) then Err NotFound else
      r ← record_at block tail cursor;
      let '(entry_inode, record_len, name_len) := r in
      nm ← slice block (cursor + 8) name_len;
      if negb (entry_inode =? 0) && bool_decide (nm = name) then
        if negb (entry_inode =? inode_number) then corrupt InvalidDirectory else
        match previous with
        | Some previous =>
            previous_len ← le16 block (previous + 4);
            let merged := previous_len + record_len in
            if tail <? previous + merged then corrupt InvalidDirectory else
            b ← put block cursor (zeros record_len);
            put_le16 b (previous + 4) (u16 merged)
        | None =>
            b ← put_le32 block cursor 0;
            put b (cursor + 6) (zeros (record_len - 6))
        end
      else remove_scan n block tail inode_number name (cursor + record_len) (Some cursor)
  end.

Definition remove_directory_entry (seed : Z) (directory : Inode) (block : list Z) (inode_number : Z) (name : list Z) : R (list Z) :=
  tail ← leaf_tail block;
  b ← remove_scan (S (length block)) block tail inode_number name 0 None;
  seal seed (number directory) (generation directory) b tail.

Fixpoint find_scan (fuel : nat) (block : list Z) (tail : Z) (name : list Z) (cursor : Z) : R (option Z) :=
  match fuel with
  | O => Panic
  | S n =>
      if negb (cursor <? tail) then if negb (cursor =? tail) then corrupt InvalidDirectory else Ok None else
      r ← record_at block tail cursor;
      let '(inode, record_len, name_len) := r in
      nm ← slice block (cursor + 8) name_len;
      if negb (inode =? 0) && bool_decide (nm = name) then Ok (Some inode) else find_scan n block tail name (cursor + record_len)
  end.

Definition find_directory_entry (block : list Z) (name : list Z) : R (option Z) :=
  tail ← leaf_tail block;
  find_scan (S (length block)) block tail name 0.

Fixpoint replace_scan (fuel : nat) (block : list Z) (tail old_inode new_inode : Z) (name : list Z) (file_type cursor : Z) : R (list Z) :=
  match fuel with
  | O => Panic
  | S n =>
      if negb (cursor <? tail) then Err NotFound else
      r ← record_at block tail cursor;
      let '(inode, record_len, name_len) := r in
      nm ← slice block (cursor + 8) name_len;
      if negb (inode =? 0) && bool_decide (nm = name) then
        if negb (inode =? old_inode) then corrupt InvalidDirectory else
        b ← put_le32 block cursor new_inode;
        put b (cursor + 7) [file_type]
      else replace_scan n block tail old_inode new_inode name file_type (cursor + record_len)
  end.

Definition replace_directory_entry (seed : Z) (directory : Inode) (block : list Z) (old_inode new_inode : Z) (name : list Z) (file_type : Z) : R (list Z) :=
  if (old_inode =? 0) || (new_inode =? 0) || negb (known_type file_type) then Err InvalidArgument else
  tail ← leaf_tail block;
  b ← replace_scan (S (length block)) block tail old_inode new_inode name file_type 0;
  seal seed (number directory) (generation directory) b tail.

Definition update_directory_index_checksum (seed : Z) (directory : Inode) (kind : DirectoryBlockKind) (block : list Z) : R (list Z) :=
  if zlen block <? 8 then corrupt InvalidDirectory else
  let tail := zlen block - 8 in
  match (match kind with Root => Some 0x20 | Internal => Some 0x08 | Leaf => None end) with
  | None => corrupt InvalidDirectory
  | Some limit_offset =>
      if tail <? limit_offset + 4 then corrupt InvalidDirectory else
      entries ← le16 block (limit_offset + 2);
      let hashed_bytes := limit_offset + entries * 8 in
      if tail <? hashed_bytes then corrupt InvalidDirectory else
      body ← slice block 0 hashed_bytes;
      t ← le32 block tail;
      put_le32 block (tail + 4)
        (checksum seed (to_le_bytes 4 (number directory) ++ to_le_bytes 4 (generation directory) ++ body ++ to_le_bytes 4 t ++ to_le_bytes 4 0))
  end.

(** * A directory *)

Record DirectoryNode := mkNode { dn_logical : Z; dn_kind : DirectoryBlockKind; dn_number : Z; dn_bytes : list Z; dn_dirty : bool }.
Record DirectoryTree := mkTree { dt_seed : Z; dt_inode : Inode; dt_nodes : list DirectoryNode }.

Definition set_bytes (n : DirectoryNode) (b : list Z) : DirectoryNode := mkNode (dn_logical n) (dn_kind n) (dn_number n) b true.
Definition set_nodes (t : DirectoryTree) (l : list DirectoryNode) : DirectoryTree := mkTree (dt_seed t) (dt_inode t) l.

Definition is_leaf (n : DirectoryNode) : bool := match dn_kind n with Leaf => true | _ => false end.
Definition is_root (n : DirectoryNode) : bool := match dn_kind n with Root => true | _ => false end.

(** The blocks are read in order; [map_block] and [read_owned_block] read through
    the transaction. *)
Section Load.
Context (fs : Ext4) (map_block : Inode -> Z -> R (option Z)) (read_owned_block : Z -> R (list Z)).

Fixpoint load_nodes (n : nat) (inode : Inode) (logical : Z) (nodes : list DirectoryNode) : R (list DirectoryNode) :=
  match n with
  | O => Ok nodes
  | S n =>
      m ← map_block inode logical;
      physical ← ok_or m (ECorrupt InvalidDirectory);
      if existsb (fun node => dn_number node =? physical) nodes then corrupt InvalidDirectory else
      bytes ← read_owned_block physical;
      kind ← directory_block_kind inode logical (zlen bytes) bytes;
      _ ← verify_directory_checksum fs inode kind (zlen bytes) bytes;
      load_nodes n inode (logical + 1) (nodes ++ [mkNode logical kind physical bytes false])
  end.

Definition load (inode : Inode) : R DirectoryTree :=
  if negb (is_directory inode) then Err NotDirectory else
  let bs := block_size (superblock fs) in
  if (size inode =? 0) || negb (size inode mod bs =? 0) then corrupt InvalidDirectory else
  count ← usize (size inode / bs);
  nodes ← load_nodes (Z.to_nat count) inode 0 [];
  Ok (mkTree (checksum_seed (superblock fs)) inode nodes).
End Load.

Fixpoint find_node (nodes : list DirectoryNode) (name : list Z) (index : nat) : R (option (nat * Z)) :=
  match nodes with
  | [] => Ok None
  | node :: nodes =>
      if negb (is_leaf node) then find_node nodes name (S index) else
      r ← find_directory_entry (dn_bytes node) name;
      match r with Some num => Ok (Some (index, num)) | None => find_node nodes name (S index) end
  end.

Definition find (t : DirectoryTree) (name : list Z) : R (option (nat * Z)) := find_node (dt_nodes t) name 0.

(** [before] are the nodes without room. *)
Fixpoint insert_node (t : DirectoryTree) (before nodes : list DirectoryNode) (num : Z) (name : list Z) (kind : Z) : R DirectoryTree :=
  match nodes with
  | [] => unsupported ExtentMutation
  | node :: nodes =>
      if negb (is_leaf node) then insert_node t (before ++ [node]) nodes num name kind else
      match insert_directory_entry (dt_seed t) (dt_inode t) (dn_bytes node) num name kind with
      | Ok b => Ok (set_nodes t (before ++ set_bytes node b :: nodes))
      | Err (EUnsupported ExtentMutation) => insert_node t (before ++ [node]) nodes num name kind
      | Err e => Err e
      | Panic => Panic
      end
  end.

Definition insert (t : DirectoryTree) (num : Z) (name : list Z) (kind : Z) : R DirectoryTree :=
  f ← find t name;
  match f with
  | Some _ => Err AlreadyExists
  | None =>
      if has_flag (flags (dt_inode t)) DIRECTORY_INDEX_FL then unsupported MutationProfile else
      insert_node t [] (dt_nodes t) num name kind
  end.

(** The node with the entry, if the entry is for that inode. *)
Definition find_entry (t : DirectoryTree) (num : Z) (name : list Z) : R nat :=
  f ← find t name;
  match f with
  | Some (index, found) => if found =? num then Ok index else Err NotFound
  | None => Err NotFound
  end.

Definition edit_node (t : DirectoryTree) (index : nat) (edit : list Z -> R (list Z)) : R DirectoryTree :=
  match dt_nodes t !! index with
  | Some node => b ← edit (dn_bytes node); Ok (set_nodes t (<[index := set_bytes node b]> (dt_nodes t)))
  | None => Panic
  end.

Definition remove (t : DirectoryTree) (num : Z) (name : list Z) : R DirectoryTree :=
  index ← find_entry t num name;
  edit_node t index (fun b => remove_directory_entry (dt_seed t) (dt_inode t) b num name).

Definition replace (t : DirectoryTree) (old_number new_number : Z) (name : list Z) (kind : Z) : R DirectoryTree :=
  index ← find_entry t old_number name;
  edit_node t index (fun b => replace_directory_entry (dt_seed t) (dt_inode t) b old_number new_number name kind).

Definition set_root_parent (t : DirectoryTree) (old_parent new_parent : Z) (b : list Z) : R (list Z) :=
  if zlen b <? 24 then corrupt InvalidDirectory else
  p ← le32 b 12; l ← le16 b 16; k ← byte_at b 18; nm ← slice b 20 2;
  if negb (p =? old_parent) || (l <? 12) || negb (k =? 2) || negb (bool_decide (nm = [0x2e; 0x2e])) then corrupt InvalidDirectory else
  b ← put_le32 b 12 new_parent;
  update_directory_index_checksum (dt_seed t) (dt_inode t) Root b.

Definition set_parent (t : DirectoryTree) (old_parent new_parent : Z) : R DirectoryTree :=
  match list_find (fun node => dn_logical node = 0) (dt_nodes t) with
  | None => corrupt InvalidDirectory
  | Some (index, node) =>
      match dn_kind node with
      | Leaf => edit_node t index (fun b => replace_directory_parent (dt_seed t) (dt_inode t) b old_parent new_parent)
      | Root => edit_node t index (set_root_parent t old_parent new_parent)
      | Internal => corrupt InvalidDirectory
      end
  end.

(** The entries of a block that must be empty; [seen] are the flags [dot] and
    [dotdot]. *)
Fixpoint empty_scan (fuel : nat) (self parent : Z) (indexed : bool) (block : list Z) (tail cursor : Z) (seen : bool * bool) : R (bool * bool) :=
  match fuel with
  | O => Panic
  | S n =>
      if negb (cursor <? tail) then Ok seen else
      r ← record_at block tail cursor;
      let '(num, record_len, name_len) := r in
      nm ← slice block (cursor + 8) name_len;
      if num =? 0 then empty_scan n self parent indexed block tail (cursor + record_len) seen
      else if bool_decide (nm = [0x2e]) && negb indexed && negb (fst seen) && (num =? self) then
        empty_scan n self parent indexed block tail (cursor + record_len) (true, snd seen)
      else if bool_decide (nm = [0x2e; 0x2e]) && negb indexed && negb (snd seen) && (num =? parent) then
        empty_scan n self parent indexed block tail (cursor + record_len) (fst seen, true)
      else Err NotEmpty
  end.

Fixpoint empty_nodes (self parent : Z) (indexed : bool) (nodes : list DirectoryNode) (seen : bool * bool) : R (bool * bool) :=
  match nodes with
  | [] => Ok seen
  | node :: nodes =>
      if negb (is_leaf node) then empty_nodes self parent indexed nodes seen else
      tail ← leaf_tail (dn_bytes node);
      seen ← empty_scan (S (length (dn_bytes node))) self parent indexed (dn_bytes node) tail 0 seen;
      empty_nodes self parent indexed nodes seen
  end.

Definition validate_empty (t : DirectoryTree) (parent_number : Z) : R () :=
  let indexed := has_flag (flags (dt_inode t)) DIRECTORY_INDEX_FL in
  seen ← (if indexed then
            match list_find (fun node => dn_logical node = 0 /\ is_root node = true) (dt_nodes t) with
            | None => corrupt InvalidDirectory
            | Some (_, root) =>
                p ← directory_parent_entry (dn_bytes root) (number (dt_inode t));
                if negb (p =? parent_number) then corrupt InvalidDirectory else Ok (true, true)
            end
          else Ok (false, false));
  seen ← empty_nodes (number (dt_inode t)) parent_number indexed (dt_nodes t) seen;
  if negb (fst seen) || negb (snd seen) then corrupt InvalidDirectory else Ok tt.

(** A new leaf behind the others, in the block [leaf_number] the caller allocated. *)
Definition push_leaf (t : DirectoryTree) (block_size leaf_number : Z) : R DirectoryTree :=
  leaf ← initialize_empty_directory_leaf (dt_seed t) (number (dt_inode t)) (generation (dt_inode t)) (zeros block_size);
  Ok (set_nodes t (dt_nodes t ++ [mkNode (zlen (dt_nodes t)) Leaf leaf_number leaf true])).

(** The entry inserted, after the directory has grown if there is no room.
    [reserved] is what the extent tree and the bitmaps answer for the new leaf:
    its block, or the error that ends the operation. *)
Definition insert_into_directory (t : DirectoryTree) (block_size : Z) (reserved : R Z) (inode_number : Z) (name : list Z) (file_type : Z) : R DirectoryTree :=
  match insert t inode_number name file_type with
  | Err (EUnsupported ExtentMutation) =>
      if has_flag (flags (dt_inode t)) DIRECTORY_INDEX_FL then unsupported MutationProfile else
      leaf_number ← reserved;
      t ← push_leaf t block_size leaf_number;
      insert t inode_number name file_type
  | r => r
  end.

Definition into_dirty_blocks (t : DirectoryTree) : list (Z * list Z) :=
  (fun node => (dn_number node, dn_bytes node)) <$> filter (fun node => dn_dirty node = true) (dt_nodes t).

End DirEdit.
