(* ===== verification/DirFacts.v ===== *)
(** Directory blocks as lists of records: what the scans of a block find and what
    its edits do to the records. *)

From Stdlib Require Import ZArith Lia Bool.
From stdpp Require Import base option list numbers.
From S2P Require Import Prelude Ext4 DirEdit.
Local Open Scope machine_scope.

(** * Records *)

(** A record is its bytes. *)
Definition field (r : list Z) (off n : Z) : Z := from_le_bytes (sl r off n).
Definition r_ino (r : list Z) : Z := field r 0 4.
Definition r_nlen (r : list Z) : Z := field r 6 1.
Definition r_type (r : list Z) : Z := field r 7 1.
Definition r_name (r : list Z) : list Z := sl r 8 (r_nlen r).

Record rec_ok (r : list Z) : Prop := {
  ro_min : 8 <= zlen r;
  ro_mod : zlen r mod 4 = 0;
  ro_len : field r 4 2 = zlen r;
  ro_name : r_nlen r <= zlen r - 8
}.

(** The entries of a block: names with inode and type. *)
Abbreviation entry := (list Z * (Z * Z))%type.
Definition as_entry (r : list Z) : option entry := if r_ino r =? 0 then None else Some (r_name r, (r_ino r, r_type r)).
Definition live (rs : list (list Z)) : list entry := omap as_entry rs.

Lemma live_cons r rs : live (r :: rs) = match as_entry r with Some e => e :: live rs | None => live rs end.
Proof. reflexivity. Qed.
Lemma live_app rs rs' : live (rs ++ rs') = live rs ++ live rs'.
Proof. apply omap_app. Qed.

(** ** Bytes in the middle of a list *)

Lemma sl_mid (pre r post : list Z) k n : 0 <= k -> 0 <= n -> k + n <= zlen r -> sl (pre ++ r ++ post) (zlen pre + k) n = sl r k n.
Proof.
  intros. unfold sl. replace (Z.to_nat (zlen pre + k)) with (length pre + Z.to_nat k)%nat by lia. rewrite drop_app_add'. 2: done.
  rewrite drop_app_le by lia. rewrite take_app_le; [done|]. rewrite length_drop. lia.
Qed.

Lemma splice_mid (pre r post : list Z) k src : 0 <= k -> k + zlen src <= zlen r -> splice (pre ++ r ++ post) (zlen pre + k) src = pre ++ splice r k src ++ post.
Proof.
  intros. unfold splice. replace (Z.to_nat (zlen pre + k)) with (length pre + Z.to_nat k)%nat by lia.
  rewrite take_app_add', take_app_le by (done || lia). rewrite <- !app_assoc. do 3 f_equal.
  replace (length pre + Z.to_nat k + length src)%nat with (length pre + (Z.to_nat k + length src))%nat by lia.
  rewrite drop_app_add', drop_app_le by (done || lia). done.
Qed.

Lemma put_mid (pre r post : list Z) k src : 0 <= k -> k + zlen src <= zlen r -> put (pre ++ r ++ post) (zlen pre + k) src = Ok (pre ++ splice r k src ++ post).
Proof. intros. rewrite put_ok by (rewrite ?length_app; lia). by rewrite splice_mid. Qed.

Lemma sl_prefix (a b : list Z) : sl (a ++ b) 0 (zlen a) = a.
Proof. unfold sl. rewrite Nat2Z.id. change (drop (Z.to_nat 0) (a ++ b)) with (a ++ b). apply take_app_length. Qed.

Lemma put_mid0 (pre r post src : list Z) : zlen src <= zlen r -> put (pre ++ r ++ post) (zlen pre) src = Ok (pre ++ splice r 0 src ++ post).
Proof. intros. rewrite <- (Z.add_0_r (zlen pre)). apply put_mid; lia. Qed.

Lemma put_le16_mid (pre r post : list Z) k v : 0 <= k -> k + 2 <= zlen r -> put_le16 (pre ++ r ++ post) (zlen pre + k) v = Ok (pre ++ splice r k (to_le_bytes 2 v) ++ post).
Proof. intros. unfold put_le16. apply put_mid; rewrite ?length_to_le_bytes; lia. Qed.
Lemma put_le32_mid (pre r post : list Z) v : 4 <= zlen r -> put_le32 (pre ++ r ++ post) (zlen pre) v = Ok (pre ++ splice r 0 (to_le_bytes 4 v) ++ post).
Proof. intros. unfold put_le32. apply put_mid0; rewrite ?length_to_le_bytes; lia. Qed.

Lemma field_mid (pre r post : list Z) k n : 0 <= k -> 0 <= n -> k + n <= zlen r ->
  from_le_bytes <$> slice (pre ++ r ++ post) (zlen pre + k) n = Ok (field r k n).
Proof. intros. rewrite slice_ok by (rewrite ?length_app; lia). cbn [fmap R_fmap]. by rewrite sl_mid. Qed.

Lemma field_range r off n : 0 <= off -> 0 <= n -> off + n <= zlen r -> 0 <= field r off n < 256 ^ n.
Proof. intros. unfold field. pose proof (from_le_bytes_range (sl r off n)) as Hr. by rewrite length_sl in Hr. Qed.

Lemma splice_full (b src : list Z) : zlen src = zlen b -> splice b 0 src = src.
Proof. intros E. unfold splice. cbn. rewrite drop_ge by lia. apply app_nil_r. Qed.

(** ** Scanning *)

Section Scan.
Context `{Crc}.

(** The record at a boundary. *)
Lemma record_at_mid (pre r post : list Z) tail : rec_ok r -> zlen pre + zlen r <= tail ->
  record_at (pre ++ r ++ post) tail (zlen pre) = Ok (r_ino r, zlen r, r_nlen r).
Proof.
  intros [R1 R2 R3 R4] Ht. unfold record_at, le32, le16, byte_at. rewrite (proj2 (Z.ltb_ge _ _)) by lia.
  rewrite <- (Z.add_0_r (zlen pre)) at 1. rewrite !field_mid by lia. cbn [mbind R_bind]. rewrite R3. fold (r_nlen r) (r_ino r).
  rewrite (proj2 (Z.ltb_ge (zlen r) 8)), R2, (proj2 (Z.ltb_ge tail _)), (proj2 (Z.ltb_ge (zlen r - 8) _)) by lia. done.
Qed.

Lemma name_mid (pre r post : list Z) : rec_ok r -> slice (pre ++ r ++ post) (zlen pre + 8) (r_nlen r) = Ok (r_name r).
Proof.
  intros [R1 R2 R3 R4]. pose proof (field_range r 6 1 ltac:(lia) ltac:(lia) ltac:(lia)) as Hn. fold (r_nlen r) in Hn.
  rewrite slice_ok by (rewrite ?length_app; lia). by rewrite sl_mid by lia.
Qed.

(** The record matches a name. *)
Definition matches (name : list Z) (r : list Z) : bool := negb (r_ino r =? 0) && bool_decide (r_name r = name).

Fixpoint lookup_rec (name : list Z) (rs : list (list Z)) : option Z :=
  match rs with [] => None | r :: rs => if matches name r then Some (r_ino r) else lookup_rec name rs end.

Lemma concat_min rs : Forall rec_ok rs -> (8 * length rs <= length (concat rs))%nat.
Proof. induction 1 as [|r rs [R1 _ _ _] _ IH]; [done|]. cbn. rewrite length_app. lia. Qed.

Lemma find_scan_ok name rs : forall fuel pre post, Forall rec_ok rs -> (length rs < fuel)%nat ->
  find_scan fuel (pre ++ concat rs ++ post) (zlen pre + zlen (concat rs)) name (zlen pre) = Ok (lookup_rec name rs).
Proof.
  induction rs as [|r rs IH]; intros fuel pre post Hrs Hfuel; (destruct fuel as [|fuel]; [cbn in Hfuel; lia|]); cbn [find_scan].
  - cbn [concat length]. rewrite (proj2 (Z.ltb_ge _ _)) by lia. cbn [negb]. by rewrite (proj2 (Z.eqb_eq _ _)) by lia.
  - inversion_clear Hrs as [|? ? Hr Hrs']. pose proof Hr as [R1 _ _ _]. cbn [concat]. rewrite <- app_assoc, length_app.
    rewrite (proj2 (Z.ltb_lt _ _)) by lia. cbn [negb]. rewrite record_at_mid by (done || lia). cbn [mbind R_bind]. rewrite name_mid by done. cbn [mbind R_bind].
    cbn [lookup_rec]. fold (matches name r). destruct (matches name r); [done|].
    replace (pre ++ r ++ concat rs ++ post) with ((pre ++ r) ++ concat rs ++ post) by (by rewrite <- app_assoc).
    replace (zlen pre + zlen r) with (zlen (pre ++ r)) by (rewrite length_app; lia).
    replace (zlen pre + Z.of_nat (length r + length (concat rs))) with (zlen (pre ++ r) + zlen (concat rs)) by (rewrite length_app; lia).
    apply IH; [done|cbn in Hfuel; lia].
Qed.

(** The blocks before and after a record. *)
Lemma concat_split (rs1 : list (list Z)) r rs2 tl : concat (rs1 ++ r :: rs2) ++ tl = concat rs1 ++ r ++ (concat rs2 ++ tl).
Proof. rewrite concat_app. cbn [concat]. by rewrite <- !app_assoc. Qed.

(** Where in a record there is room. *)
Definition room (needed : Z) (r : list Z) : option (Z * Z * option Z) :=
  if (r_ino r =? 0) && (needed <=? zlen r) then Some (0, zlen r, None)
  else if negb (r_ino r =? 0) then
    let used := needed_for (r_nlen r) in
    if needed <=? zlen r - used then Some (used, zlen r - used, Some used) else None
  else None.

Fixpoint first_room (needed cursor : Z) (rs : list (list Z)) : option place :=
  match rs with
  | [] => None
  | r :: rs =>
      match room needed r with
      | Some (k, len, keep) => Some (cursor + k, len, (fun used => (cursor, used)) <$> keep)
      | None => first_room needed (cursor + zlen r) rs
      end
  end.

Lemma insert_scan_ok name needed rs : forall fuel pre post ins, Forall rec_ok rs -> (length rs < fuel)%nat ->
  insert_scan fuel (pre ++ concat rs ++ post) (zlen pre + zlen (concat rs)) name needed (zlen pre) ins =
    if existsb (matches name) rs then Err AlreadyExists else Ok (match ins with Some p => Some p | None => first_room needed (zlen pre) rs end).
Proof.
  induction rs as [|r rs IH]; intros fuel pre post ins Hrs Hfuel; (destruct fuel as [|fuel]; [cbn in Hfuel; lia|]); cbn [insert_scan].
  - cbn [concat length]. rewrite (proj2 (Z.ltb_ge _ _)) by lia. cbn [negb]. rewrite (proj2 (Z.eqb_eq _ _)) by lia. by destruct ins.
  - inversion_clear Hrs as [|? ? Hr Hrs']. pose proof Hr as [R1 _ _ _]. cbn [concat]. rewrite <- app_assoc, length_app.
    rewrite (proj2 (Z.ltb_lt _ _)) by lia. cbn [negb]. rewrite record_at_mid by (done || lia). cbn [mbind R_bind]. rewrite name_mid by done. cbn [mbind R_bind].
    cbn [existsb first_room]. fold (matches name r). destruct (matches name r); [done|]. cbn [orb].
    replace (pre ++ r ++ concat rs ++ post) with ((pre ++ r) ++ concat rs ++ post) by (by rewrite <- app_assoc).
    replace (zlen pre + zlen r) with (zlen (pre ++ r)) by (rewrite length_app; lia).
    replace (zlen pre + Z.of_nat (length r + length (concat rs))) with (zlen (pre ++ r) + zlen (concat rs)) by (rewrite length_app; lia).
    rewrite IH by (done || cbn in Hfuel; lia). destruct (existsb (matches name) rs); [done|]. f_equal. destruct ins as [p|]; [done|]. unfold room.
    destruct (r_ino r =? 0); cbn [andb negb]; [destruct (needed <=? zlen r); [by rewrite Z.add_0_r|done]|].
    destruct (needed <=? zlen r - needed_for (r_nlen r)); done.
Qed.

Lemma first_room_split needed rs : forall cursor at_ len keep, first_room needed cursor rs = Some (at_, len, keep) ->
  exists rs1 r rs2 k used, rs = rs1 ++ r :: rs2 /\ room needed r = Some (k, len, used) /\ at_ = cursor + zlen (concat rs1) + k /\
    keep = (fun u => (cursor + zlen (concat rs1), u)) <$> used.
Proof.
  induction rs as [|r rs IH]; intros cursor at_ len keep Hf; [done|]. cbn [first_room] in Hf. destruct (room needed r) as [[[k l] used]|] eqn:Er.
  - injection Hf as <- <- <-. exists [], r, rs, k, used. cbn. split_and!; [done|done|lia|by rewrite Z.add_0_r].
  - destruct (IH _ _ _ _ Hf) as (rs1 & r' & rs2 & k & used & -> & Hr & -> & ->). exists (r :: rs1), r', rs2, k, used. cbn [concat]. rewrite length_app.
    split_and!; [done|done|lia|]. destruct used; [|done]. cbn. do 2 f_equal. lia.
Qed.

(** ** New records *)

Lemma needed_for_range n : 0 <= n < 256 -> n + 8 <= needed_for n <= n + 11 /\ needed_for n mod 4 = 0.
Proof.
  intros Hn. assert (forallb (fun n => (n + 8 <=? needed_for n) && (needed_for n <=? n + 11) && (needed_for n mod 4 =? 0)) (seqZ 0 256) = true) as Hall by reflexivity.
  rewrite forallb_forall in Hall. specialize (Hall n). rewrite <- list_elem_of_In, elem_of_seqZ in Hall. specialize (Hall ltac:(lia)). lia.
Qed.

Definition make_rec (len ino : Z) (name : list Z) (ty : Z) : list Z :=
  splice (splice (splice (splice (splice (zeros len) 0 (to_le_bytes 4 ino)) 4 (to_le_bytes 2 (u16 len))) 6 [u8 (zlen name)]) 7 [ty]) 8 name.

Lemma length_make_rec len ino name ty : zlen name + 8 <= len -> zlen (make_rec len ino name ty) = len.
Proof.
  intros. pose proof (length_zeros len ltac:(lia)) as Hz. unfold make_rec.
  rewrite !length_splice; rewrite ?length_splice; rewrite ?length_splice; rewrite ?length_splice; rewrite ?length_splice; rewrite ?length_to_le_bytes; cbn [length]; lia.
Qed.

(** The fields of bytes written last. *)
Lemma field_in b off src : 0 <= off -> off + zlen src <= zlen b -> field (splice b off src) off (zlen src) = from_le_bytes src.
Proof. intros. unfold field. by rewrite sl_splice_in. Qed.
Lemma field_out b off src o n : 0 <= off -> off + zlen src <= zlen b -> 0 <= o -> 0 <= n -> o + n <= off \/ off + zlen src <= o ->
  field (splice b off src) o n = field b o n.
Proof. intros. unfold field. by rewrite sl_splice_out. Qed.

Lemma field_of_byte b off x : 0 <= off -> off + 1 <= zlen b -> field (splice b off [x]) off 1 = u8 x.
Proof. intros. change 1 with (zlen [x]) at 1. rewrite field_in by (cbn [length]; lia). cbn. by rewrite Z.add_0_r. Qed.
Lemma field_le b off n x : 0 <= off -> off + Z.of_nat n <= zlen b -> 0 <= x < 256 ^ Z.of_nat n -> field (splice b off (to_le_bytes n x)) off (Z.of_nat n) = x.
Proof. intros. pose proof (field_in b off (to_le_bytes n x)) as F. rewrite length_to_le_bytes in F. rewrite F by lia. by apply from_to_le_bytes. Qed.

Lemma make_rec_ok len ino name ty : zlen name <= 255 -> needed_for (zlen name) <= len < 65536 -> len mod 4 = 0 -> fits 32 ino -> fits 8 ty ->
  let r := make_rec len ino name ty in rec_ok r /\ r_ino r = ino /\ r_name r = name /\ r_type r = ty.
Proof.
  intros Hn Hl Hm Hi Ht r. destruct (needed_for_range (zlen name) ltac:(lia)) as [Hnf _]. pose proof (length_make_rec len ino name ty ltac:(lia)) as Hr. fold r in Hr.
  pose proof (length_zeros len ltac:(lia)) as Hz. assert (forall n x, zlen (to_le_bytes n x) = Z.of_nat n) as Hle by (intros; by rewrite length_to_le_bytes).
  unfold fits in *. subst r. unfold make_rec in *. set (b0 := zeros len) in *.
  assert (zlen (splice b0 0 (to_le_bytes 4 ino)) = len) as L1 by (rewrite length_splice; rewrite ?Hle; lia). set (b1 := splice b0 0 _) in *.
  assert (zlen (splice b1 4 (to_le_bytes 2 (u16 len))) = len) as L2 by (rewrite length_splice; rewrite ?Hle; lia). set (b2 := splice b1 4 _) in *.
  assert (zlen (splice b2 6 [u8 (zlen name)]) = len) as L3 by (rewrite length_splice; cbn [length]; lia). set (b3 := splice b2 6 _) in *.
  assert (zlen (splice b3 7 [ty]) = len) as L4 by (rewrite length_splice; cbn [length]; lia). set (b4 := splice b3 7 _) in *.
  assert (r_nlen (splice b4 8 name) = zlen name) as E6.
  { unfold r_nlen. rewrite field_out by lia. unfold b4. rewrite field_out by (cbn [length]; lia). unfold b3. rewrite field_of_byte by lia.
    rewrite !wrap_small; [done|unfold fits; lia|unfold fits; rewrite wrap_small; unfold fits; lia]. }
  assert (field (splice b4 8 name) 4 2 = len) as E4.
  { rewrite field_out by lia. unfold b4. rewrite field_out by (cbn [length]; lia). unfold b3. rewrite field_out by (cbn [length]; lia). unfold b2.
    rewrite wrap_small by (unfold fits; lia). apply (field_le b1 4 2); cbn; lia. }
  split_and!.
  - split; [lia|by rewrite Hr|by rewrite E4, Hr|rewrite E6; lia].
  - unfold r_ino. rewrite field_out by lia. unfold b4. rewrite field_out by (cbn [length]; lia). unfold b3. rewrite field_out by (cbn [length]; lia). unfold b2.
    rewrite field_out by (rewrite ?Hle; lia). unfold b1. apply (field_le b0 0 4); cbn; lia.
  - unfold r_name. rewrite E6. apply sl_splice_in; lia.
  - unfold r_type. rewrite field_out by lia. unfold b4. rewrite field_of_byte by lia. by apply wrap_small.
Qed.

(** Writing a record over zeros, and over the bytes of another. *)
Lemma fill_zeros (pre post : list Z) len ino name ty (k : list Z -> R (list Z)) : zlen name + 8 <= len ->
  (b ← put_le32 (pre ++ zeros len ++ post) (zlen pre) ino; b ← put_le16 b (zlen pre + 4) (u16 len);
   b ← put b (zlen pre + 6) [u8 (zlen name)]; b ← put b (zlen pre + 7) [ty]; b ← put b (zlen pre + 8) name; k b) =
  k (pre ++ make_rec len ino name ty ++ post).
Proof.
  intros Hr. pose proof (length_zeros len ltac:(lia)) as Hz. assert (forall n x, zlen (to_le_bytes n x) = Z.of_nat n) as Hle by (intros; by rewrite length_to_le_bytes).
  unfold put_le32, put_le16, make_rec. set (b0 := zeros len) in *.
  rewrite put_mid0 by (rewrite ?Hle; lia). cbn [mbind R_bind]. assert (zlen (splice b0 0 (to_le_bytes 4 ino)) = len) as L1 by (rewrite length_splice; rewrite ?Hle; lia). set (b1 := splice b0 0 _) in *.
  rewrite put_mid by (rewrite ?Hle; lia). cbn [mbind R_bind]. assert (zlen (splice b1 4 (to_le_bytes 2 (u16 len))) = len) as L2 by (rewrite length_splice; rewrite ?Hle; lia). set (b2 := splice b1 4 _) in *.
  rewrite put_mid by (cbn [length]; lia). cbn [mbind R_bind]. assert (zlen (splice b2 6 [u8 (zlen name)]) = len) as L3 by (rewrite length_splice; cbn [length]; lia). set (b3 := splice b2 6 _) in *.
  rewrite put_mid by (cbn [length]; lia). cbn [mbind R_bind]. assert (zlen (splice b3 7 [ty]) = len) as L4 by (rewrite length_splice; cbn [length]; lia). set (b4 := splice b3 7 _) in *.
  by rewrite put_mid by lia.
Qed.

Lemma fill_record (pre r post : list Z) ino name ty (k : list Z -> R (list Z)) : zlen name + 8 <= zlen r ->
  (b ← put (pre ++ r ++ post) (zlen pre) (zeros (zlen r)); b ← put_le32 b (zlen pre) ino; b ← put_le16 b (zlen pre + 4) (u16 (zlen r));
   b ← put b (zlen pre + 6) [u8 (zlen name)]; b ← put b (zlen pre + 7) [ty]; b ← put b (zlen pre + 8) name; k b) =
  k (pre ++ make_rec (zlen r) ino name ty ++ post).
Proof.
  intros Hr. pose proof (length_zeros (zlen r) ltac:(lia)) as Hz. rewrite put_mid0 by lia. cbn [mbind R_bind]. rewrite splice_full by lia. by apply fill_zeros.
Qed.

(** * Leaf blocks *)

Record tail_ok (tl : list Z) : Prop := {
  tl_len : zlen tl = 12;
  tl_ino : field tl 0 4 = 0;
  tl_rec : field tl 4 2 = 12;
  tl_name : field tl 6 1 = 0;
  tl_type : field tl 7 1 = 0xde
}.

Context (seed : Z) (dir : Inode).

Definition body_sum (body : list Z) : Z := checksum seed (to_le_bytes 4 (number dir) ++ to_le_bytes 4 (generation dir) ++ body).

(** A block of records with its tail and checksum. *)
Record leaf (rs : list (list Z)) (b : list Z) : Prop := {
  lf_recs : Forall rec_ok rs;
  lf_size : zlen b <= 65536;
  lf_bytes : exists tl, b = concat rs ++ tl /\ tail_ok tl /\ field tl 8 4 = body_sum (concat rs)
}.

Lemma leaf_tail_ok rs tl : zlen tl = 12 -> leaf_tail (concat rs ++ tl) = Ok (zlen (concat rs)).
Proof. intros Ht. unfold leaf_tail. rewrite length_app. rewrite (proj2 (Z.ltb_ge _ _)) by lia. f_equal. lia. Qed.

(** Sealing a block of records makes it a leaf. *)
Lemma seal_leaf rs tl : Forall rec_ok rs -> zlen (concat rs) + 12 <= 65536 -> tail_ok tl ->
  exists b, seal seed (number dir) (generation dir) (concat rs ++ tl) (zlen (concat rs)) = Ok b /\ leaf rs b /\ zlen b = zlen (concat rs) + 12.
Proof.
  intros Hrs Hsz Ht. pose proof Ht as [T1 T2 T3 T4 T5]. unfold seal. rewrite slice_ok by (rewrite ?length_app; lia). cbn [mbind R_bind].
  assert (sl (concat rs ++ tl) 0 (zlen (concat rs)) = concat rs) as -> by (apply sl_prefix).
  fold (body_sum (concat rs)). unfold put_le32. assert (forall n x, zlen (to_le_bytes n x) = Z.of_nat n) as Hle by (intros; by rewrite length_to_le_bytes).
  rewrite <- (app_nil_r (concat rs ++ tl)), <- app_assoc. rewrite put_mid by (rewrite ?Hle; lia). eexists. split; [done|]. rewrite app_nil_r. set (c := body_sum (concat rs)).
  assert (zlen (splice tl 8 (to_le_bytes 4 c)) = 12) as L by (rewrite length_splice; rewrite ?Hle; lia).
  split; [|rewrite length_app; lia]. split; [done|rewrite length_app; lia|]. eexists. split; [done|]. split.
  - split; [done|..]; rewrite field_out by (rewrite ?Hle; lia); done.
  - apply (field_le tl 8 4); [lia|lia|]. apply checksum_fits.
Qed.

Lemma verify_leaf fs rs b : leaf rs b -> checksum_seed (superblock fs) = seed -> verify_directory_checksum fs dir Leaf (zlen b) b = Ok tt.
Proof.
  intros [L1 L2 (tl & -> & [T1 T2 T3 T4 T5] & Hc)] Hs. unfold verify_directory_checksum. rewrite Z.eqb_refl. cbn [negb].
  rewrite (proj2 (Z.ltb_ge _ _)) by (rewrite length_app; lia). rewrite length_app. replace (Z.of_nat (length (concat rs) + length tl) - 12) with (zlen (concat rs)) by lia.
  replace (Z.of_nat (length (concat rs) + length tl) - 4) with (zlen (concat rs) + 8) by lia. unfold le32, le16, byte_at.
  rewrite <- (app_nil_r (concat rs ++ tl)), <- app_assoc. rewrite <- (Z.add_0_r (zlen (concat rs))) at 1. rewrite !field_mid by lia. cbn [mbind R_bind].
  rewrite T2, T3, T4, T5. cbn [negb orb Z.eqb Pos.eqb]. rewrite slice_ok by (rewrite ?length_app; lia). cbn [mbind R_bind]. rewrite app_nil_r.
  assert (sl (concat rs ++ tl) 0 (zlen (concat rs)) = concat rs) as -> by (apply sl_prefix).
  cbn [fst snd]. rewrite Hc. unfold inode_checksum, body_sum. rewrite Hs, Z.eqb_refl. done.
Qed.

(** ** Insertion *)

Lemma sl_tail (r : list Z) n : 0 <= n <= zlen r -> sl r 0 n ++ drop (Z.to_nat n) r = r.
Proof. intros. unfold sl. change (drop (Z.to_nat 0) r) with r. apply take_drop. Qed.

(** The part of a record that keeps its name, with the new length. *)
Lemma split_record r used : rec_ok r -> used = needed_for (r_nlen r) -> used <= zlen r -> zlen r < 65536 ->
  let r' := splice r 4 (to_le_bytes 2 (u16 used)) in let r1 := sl r' 0 used in
  zlen r' = zlen r /\ zlen r1 = used /\ rec_ok r1 /\ as_entry r1 = as_entry r.
Proof.
  intros [R1 R2 R3 R4] Hu Hle Hb r' r1. pose proof (field_range r 6 1 ltac:(lia) ltac:(lia) ltac:(lia)) as Hn. fold (r_nlen r) in Hn.
  destruct (needed_for_range (r_nlen r) ltac:(lia)) as [Hnf Hm]. rewrite <- Hu in Hnf, Hm. assert (forall n x, zlen (to_le_bytes n x) = Z.of_nat n) as Hl by (intros; by rewrite length_to_le_bytes).
  assert (zlen r' = zlen r) as Lr by (unfold r'; rewrite length_splice; rewrite ?Hl; lia). assert (zlen r1 = used) as L1 by (unfold r1; rewrite length_sl; lia).
  assert (forall o n, 0 <= o -> 0 <= n -> o + n <= used -> o + n <= 4 \/ 6 <= o -> sl r1 o n = sl r o n) as Hsl.
  { intros o n Ho Hn0 Hon Hd. unfold r1. rewrite sl_sl by lia. rewrite Z.add_0_l. apply sl_splice_out; rewrite ?Hl; lia. }
  assert (r_nlen r1 = r_nlen r) as En by (unfold r_nlen, field; rewrite Hsl by lia; done).
  split_and!; [done|done| |].
  - split; [lia|by rewrite L1| |rewrite En, L1; lia]. rewrite L1. unfold field, r1. rewrite sl_sl by lia. rewrite Z.add_0_l. fold (field r' 4 2).
    unfold r'. rewrite (wrap_small 16) by (unfold fits; lia). apply (field_le r 4 2); cbn; lia.
  - unfold as_entry, r_ino, r_type, r_name, field. rewrite En, !Hsl by lia. done.
Qed.

Lemma live_perm rs1 r rs2 : live (rs1 ++ r :: rs2) ≡ₚ match as_entry r with Some e => e :: live (rs1 ++ rs2) | None => live (rs1 ++ rs2) end.
Proof. rewrite !live_app, live_cons. destruct (as_entry r); [|done]. symmetry. apply Permutation_middle. Qed.

Lemma room_inv needed r k len used : rec_ok r -> 8 <= needed -> room needed r = Some (k, len, used) ->
  as_entry r = None /\ k = 0 /\ len = zlen r /\ used = None /\ needed <= len \/
  exists u, used = Some u /\ k = u /\ u = needed_for (r_nlen r) /\ len = zlen r - u /\ needed <= len /\ is_Some (as_entry r).
Proof.
  intros Hr Hn Hroom. unfold room in Hroom. unfold as_entry. destruct (r_ino r =? 0) eqn:Ei; cbn [andb negb] in Hroom.
  - destruct (Z.leb_spec needed (zlen r)); [|done]. injection Hroom as <- <- <-. left. done.
  - destruct (Z.leb_spec needed (zlen r - needed_for (r_nlen r))); [|done]. injection Hroom as <- <- <-. right. eexists. done.
Qed.

(** The edit of an insertion found. *)
Lemma insert_record_edit rs1 r rs2 tl ino name ty k len used : Forall rec_ok (rs1 ++ r :: rs2) -> tail_ok tl -> zlen (concat (rs1 ++ r :: rs2)) + 12 <= 65536 ->
  zlen name <= 255 -> fits 32 ino -> ino <> 0 -> fits 8 ty -> room (needed_for (zlen name)) r = Some (k, len, used) ->
  let b := concat (rs1 ++ r :: rs2) ++ tl in let at_ := zlen (concat rs1) + k in let tail := zlen (concat (rs1 ++ r :: rs2)) in
  exists b' rs', (b ← match (fun u => (zlen (concat rs1), u)) <$> used with Some (previous, previous_len) => put_le16 b (previous + 4) (u16 previous_len) | None => Ok b end;
    b ← put b at_ (zeros len); b ← put_le32 b at_ ino; b ← put_le16 b (at_ + 4) (u16 len); b ← put b (at_ + 6) [u8 (zlen name)]; b ← put b (at_ + 7) [ty];
    b ← put b (at_ + 8) name; seal seed (number dir) (generation dir) b tail) = Ok b' /\
    leaf rs' b' /\ zlen b' = tail + 12 /\ live rs' ≡ₚ (name, (ino, ty)) :: live (rs1 ++ r :: rs2).
Proof.
  intros Hrs Ht Hsz Hn Hi Hi0 Hty Hroom b at_ tail. destruct (needed_for_range (zlen name) ltac:(lia)) as [Hnf Hnm].
  apply list.Forall_app in Hrs as [Hrs1 Hrs2]. inversion_clear Hrs2 as [|? ? Hr Hrs3]. pose proof Hr as [R1 R2 R3 R4].
  assert (zlen r < 65536) as Hlr by (pose proof (field_range r 4 2 ltac:(lia) ltac:(lia) ltac:(lia)); lia).
  assert (forall x, r_ino x = ino -> r_name x = name -> r_type x = ty -> as_entry x = Some (name, (ino, ty))) as Hent.
  { intros x E1 E2 E3. unfold as_entry. rewrite E1, E2, E3. by rewrite (proj2 (Z.eqb_neq ino 0)). }
  destruct (room_inv (needed_for (zlen name)) r k len used Hr ltac:(lia) Hroom) as [(He & -> & -> & -> & Hneed)|(u & -> & -> & Hu & -> & Hneed & [e He])].
  - cbn [fmap option_fmap option_map mbind R_bind]. unfold b, at_. rewrite Z.add_0_r, concat_split, fill_record by lia.
    destruct (make_rec_ok (zlen r) ino name ty Hn ltac:(lia) R2 Hi Hty) as (M1 & M2 & M3 & M4). set (m := make_rec (zlen r) ino name ty) in *.
    rewrite <- concat_split. assert (zlen m = zlen r) as Hm by (apply length_make_rec; lia).
    assert (tail = zlen (concat (rs1 ++ m :: rs2))) as Etail by (unfold tail; rewrite !concat_app; cbn [concat]; rewrite !length_app; lia).
    rewrite Etail. destruct (seal_leaf (rs1 ++ m :: rs2) tl) as (b' & -> & Hl & Hz); [by apply list.Forall_app; split; [|constructor]|lia|done|].
    exists b', (rs1 ++ m :: rs2). split_and!; [done|done|by rewrite Hz|]. rewrite !live_perm, He.
    by rewrite (Hent m M2 M3 M4).
  - cbn [fmap option_fmap option_map mbind R_bind]. destruct (split_record r u Hr Hu ltac:(lia) Hlr) as (L1 & L2 & K1 & K2). set (r' := splice r 4 (to_le_bytes 2 (u16 u))) in *. set (r1 := sl r' 0 u) in *.
    set (r2 := drop (Z.to_nat u) r'). unfold b. rewrite concat_split. rewrite put_le16_mid by lia. fold r'. cbn [mbind R_bind].
    assert (r' = r1 ++ r2) as Er by (symmetry; apply sl_tail; lia). assert (zlen r2 = zlen r - u) as L3 by (unfold r2; rewrite length_drop; lia).
    rewrite Er. replace (concat rs1 ++ (r1 ++ r2) ++ concat rs2 ++ tl) with ((concat rs1 ++ r1) ++ r2 ++ concat rs2 ++ tl) by (by rewrite <- !app_assoc).
    assert (at_ = zlen (concat rs1 ++ r1)) as Eat by (unfold at_; rewrite length_app; lia). rewrite Eat, <- L3, fill_record by lia.
    destruct (needed_for_range (r_nlen r)) as [_ Hum]; [pose proof (field_range r 6 1 ltac:(lia) ltac:(lia) ltac:(lia)); unfold r_nlen; lia|]. rewrite <- Hu in Hum.
    destruct (make_rec_ok (zlen r2) ino name ty Hn ltac:(lia) ltac:(rewrite L3, Zminus_mod, R2, Hum; done) Hi Hty) as (M1 & M2 & M3 & M4). set (m := make_rec (zlen r2) ino name ty) in *.
    replace ((concat rs1 ++ r1) ++ m ++ concat rs2 ++ tl) with (concat (rs1 ++ r1 :: m :: rs2) ++ tl) by (rewrite concat_app; cbn [concat]; by rewrite <- !app_assoc).
    assert (zlen m = zlen r2) as Hm by (apply length_make_rec; lia).
    assert (tail = zlen (concat (rs1 ++ r1 :: m :: rs2))) as Etail by (unfold tail; rewrite !concat_app; cbn [concat]; rewrite !length_app; lia).
    rewrite Etail. destruct (seal_leaf (rs1 ++ r1 :: m :: rs2) tl) as (b' & -> & Hl & Hz); [apply list.Forall_app; split; [done|]; constructor; [done|]; by constructor|lia|done|].
    exists b', (rs1 ++ r1 :: m :: rs2). split_and!; [done|done|by rewrite Hz|].
    rewrite !live_app, !live_cons, K2, He, (Hent m M2 M3 M4). rewrite (cons_middle e), (cons_middle e (live rs1) (live rs2)), !(assoc_L (++)).
    symmetry. apply Permutation_middle.
Qed.

Lemma known_fits ty : known_type ty = true -> fits 8 ty.
Proof.
  unfold known_type. intros Hk%bool_decide_eq_true. rewrite !elem_of_cons in Hk. unfold fits. destruct Hk as [->|[->|[->|Hk]]]; [lia..|by apply not_elem_of_nil in Hk].
Qed.

(** What an insertion into a block does. *)
Lemma insert_leaf rs b ino name ty : leaf rs b -> zlen name <= 255 -> fits 32 ino -> ino <> 0 -> known_type ty = true ->
  match insert_directory_entry seed dir b ino name ty with
  | Ok b' => existsb (matches name) rs = false /\ exists rs', leaf rs' b' /\ zlen b' = zlen b /\ live rs' ≡ₚ (name, (ino, ty)) :: live rs
  | Err e => if existsb (matches name) rs then e = AlreadyExists else e = EUnsupported ExtentMutation /\ Forall (fun r => room (needed_for (zlen name)) r = None) rs
  | Panic => False
  end.
Proof.
  intros [L1 L2 (tl & -> & Ht & Hc)] Hn Hi Hi0 Hk. pose proof (tl_len _ Ht) as Hl. unfold insert_directory_entry. rewrite Hk. cbn [negb].
  rewrite leaf_tail_ok by done. cbn [mbind R_bind]. rewrite length_app in L2.
  pose proof (known_fits ty Hk) as Hty.
  pose proof (concat_min rs L1) as Hmin.
  pose proof (insert_scan_ok name (needed_for (zlen name)) rs (S (length (concat rs ++ tl))) [] tl None L1) as Hs. cbn [app length] in Hs. change (Z.of_nat 0) with 0 in Hs.
  rewrite Z.add_0_l in Hs. rewrite Hs by (rewrite length_app; lia). clear Hs. destruct (existsb (matches name) rs) eqn:Em; cbn [mbind R_bind]; [done|].
  destruct (first_room (needed_for (zlen name)) 0 rs) as [[[at_ len] keep]|] eqn:Ef.
  - destruct (first_room_split _ _ _ _ _ _ Ef) as (rs1 & r & rs2 & k & used & -> & Hr & -> & ->). rewrite !Z.add_0_l.
    destruct (insert_record_edit rs1 r rs2 tl ino name ty k len used L1 Ht ltac:(lia) Hn Hi Hi0 Hty Hr) as (b' & rs' & Hb & Hlf & Hz & Hp). rewrite Hb.
    split; [done|]. exists rs'. split_and!; [done|rewrite Hz, length_app; lia|done].
  - cbn. split; [done|]. clear -Ef. revert Ef. generalize 0. induction rs as [|r rs IH]; intros c Ef; [constructor|]. cbn [first_room] in Ef.
    destruct (room (needed_for (zlen name)) r) as [[[? ?] ?]|] eqn:Er; [done|]. constructor; [done|]. by eapply IH.
Qed.

Lemma find_leaf rs b name : leaf rs b -> find_directory_entry b name = Ok (lookup_rec name rs).
Proof.
  intros [L1 L2 (tl & -> & Ht & Hc)]. pose proof (tl_len _ Ht) as Hl. unfold find_directory_entry. rewrite leaf_tail_ok by done. cbn [mbind R_bind].
  pose proof (concat_min rs L1) as Hmin. pose proof (find_scan_ok name rs (S (length (concat rs ++ tl))) [] tl L1) as Hs. cbn [app length] in Hs. change (Z.of_nat 0) with 0 in Hs.
  rewrite Z.add_0_l in Hs. apply Hs. rewrite length_app. lia.
Qed.

(** The first record of a name. *)
Lemma lookup_rec_split name rs i : lookup_rec name rs = Some i ->
  exists rs1 r rs2, rs = rs1 ++ r :: rs2 /\ Forall (fun r => matches name r = false) rs1 /\ matches name r = true /\ r_ino r = i.
Proof.
  induction rs as [|r rs IH]; [done|]. cbn [lookup_rec]. destruct (matches name r) eqn:Em.
  - intros [= <-]. exists [], r, rs. done.
  - intros Hl. destruct (IH Hl) as (rs1 & r' & rs2 & -> & H1 & H2 & H3). exists (r :: rs1), r', rs2. split_and!; [done|by constructor|done|done].
Qed.

Lemma matches_entry name r : matches name r = true -> as_entry r = Some (name, (r_ino r, r_type r)).
Proof. unfold matches, as_entry. intros [Hi%negb_true_iff Hn%bool_decide_eq_true]%andb_true_iff. rewrite Hi. by rewrite Hn. Qed.

(** ** Removal and replacement *)

(** The scans pass over records of other names. *)
Lemma remove_scan_skip name ino rs : forall fuel pre post tail prev, Forall rec_ok rs -> Forall (fun r => matches name r = false) rs -> (length rs < fuel)%nat ->
  zlen pre + zlen (concat rs) < tail ->
  remove_scan fuel (pre ++ concat rs ++ post) tail ino name (zlen pre) prev =
  remove_scan (fuel - length rs) (pre ++ concat rs ++ post) tail ino name (zlen pre + zlen (concat rs))
    (match list.last rs with Some q => Some (zlen pre + zlen (concat rs) - zlen q) | None => prev end).
Proof.
  induction rs as [|r rs IH]; intros fuel pre post tail prev Hrs Hno Hfuel Ht.
  - cbn [list.last concat length]. rewrite Z.add_0_r. by rewrite Nat.sub_0_r.
  - inversion_clear Hrs as [|? ? Hr Hrs']. inversion_clear Hno as [|? ? Hm Hno']. pose proof Hr as [R1 _ _ _]. destruct fuel as [|fuel]; [cbn in Hfuel; lia|].
    cbn [concat] in *. rewrite length_app in *. rewrite <- app_assoc. cbn [remove_scan]. rewrite (proj2 (Z.ltb_lt (zlen pre) tail)) by lia. cbn [negb].
    rewrite record_at_mid by (done || lia). cbn [mbind R_bind]. rewrite name_mid by done. cbn [mbind R_bind]. fold (matches name r). rewrite Hm. cbn [length Nat.sub].
    replace (pre ++ r ++ concat rs ++ post) with ((pre ++ r) ++ concat rs ++ post) by (by rewrite <- app_assoc).
    replace (zlen pre + zlen r) with (zlen (pre ++ r)) by (rewrite length_app; lia).
    rewrite IH by (done || (rewrite ?length_app; cbn in Hfuel; lia)). rewrite length_app. f_equal; [lia|].
    destruct rs as [|r2 rs]; [cbn; f_equal; lia|]. cbn [list.last]. destruct (list.last (r2 :: rs)) as [q|] eqn:El; [f_equal; lia|]. by apply list.last_None in El.
Qed.

Lemma replace_scan_skip name old new ty rs : forall fuel pre post tail, Forall rec_ok rs -> Forall (fun r => matches name r = false) rs -> (length rs < fuel)%nat ->
  zlen pre + zlen (concat rs) < tail ->
  replace_scan fuel (pre ++ concat rs ++ post) tail old new name ty (zlen pre) =
  replace_scan (fuel - length rs) (pre ++ concat rs ++ post) tail old new name ty (zlen pre + zlen (concat rs)).
Proof.
  induction rs as [|r rs IH]; intros fuel pre post tail Hrs Hno Hfuel Ht.
  - cbn [concat length]. rewrite Z.add_0_r. by rewrite Nat.sub_0_r.
  - inversion_clear Hrs as [|? ? Hr Hrs']. inversion_clear Hno as [|? ? Hm Hno']. pose proof Hr as [R1 _ _ _]. destruct fuel as [|fuel]; [cbn in Hfuel; lia|].
    cbn [concat] in *. rewrite length_app in *. rewrite <- app_assoc. cbn [replace_scan]. rewrite (proj2 (Z.ltb_lt (zlen pre) tail)) by lia. cbn [negb].
    rewrite record_at_mid by (done || lia). cbn [mbind R_bind]. rewrite name_mid by done. cbn [mbind R_bind]. fold (matches name r). rewrite Hm. cbn [length Nat.sub].
    replace (pre ++ r ++ concat rs ++ post) with ((pre ++ r) ++ concat rs ++ post) by (by rewrite <- app_assoc).
    replace (zlen pre + zlen r) with (zlen (pre ++ r)) by (rewrite length_app; lia).
    rewrite IH by (done || (rewrite ?length_app; cbn in Hfuel; lia)). rewrite length_app. f_equal. lia.
Qed.

Lemma sl_app_l (a b : list Z) o n : 0 <= o -> 0 <= n -> o + n <= zlen a -> sl (a ++ b) o n = sl a o n.
Proof. intros. apply (sl_mid [] a b o n); lia. Qed.

Lemma sl_splice_sub b off src o n : 0 <= off -> off + zlen src <= zlen b -> off <= o -> 0 <= n -> o + n <= off + zlen src -> sl (splice b off src) o n = sl src (o - off) n.
Proof.
  intros. replace o with (off + (o - off)) at 1 by lia. rewrite <- (sl_sl _ off (zlen src)) by lia. by rewrite sl_splice_in.
Qed.

Lemma field_zeros k o n : 0 <= o -> 0 <= n -> o + n <= k -> field (zeros k) o n = 0.
Proof.
  intros. unfold field, sl, zeros. rewrite drop_replicate, take_replicate. generalize (Z.to_nat n `min` (Z.to_nat k - Z.to_nat o))%nat. intros m.
  induction m as [|m IH]; [done|]. cbn [replicate from_le_bytes]. by rewrite IH.
Qed.

(** A record that took over the space of the next. *)
Lemma merge_record q r : rec_ok q -> rec_ok r -> zlen q + zlen r < 65536 ->
  let m := splice (q ++ zeros (zlen r)) 4 (to_le_bytes 2 (u16 (zlen q + zlen r))) in zlen m = zlen q + zlen r /\ rec_ok m /\ as_entry m = as_entry q.
Proof.
  intros [Q1 Q2 Q3 Q4] [R1 R2 R3 R4] Hb m. pose proof (length_zeros (zlen r) ltac:(lia)) as Hz. pose proof (length_to_le_bytes 2 (u16 (zlen q + zlen r))) as Hl.
  pose proof (field_range q 6 1 ltac:(lia) ltac:(lia) ltac:(lia)) as Hn. fold (r_nlen q) in Hn.
  assert (zlen (q ++ zeros (zlen r)) = zlen q + zlen r) as Lq by (rewrite length_app; lia). assert (zlen m = zlen q + zlen r) as Lm by (unfold m; rewrite length_splice; lia).
  assert (forall o n, 0 <= o -> 0 <= n -> o + n <= zlen q -> o + n <= 4 \/ 6 <= o -> sl m o n = sl q o n) as Hsl.
  { intros o n Ho Hn0 Hon Hd. unfold m. rewrite sl_splice_out by lia. by apply sl_app_l. }
  assert (r_nlen m = r_nlen q) as En by (unfold r_nlen, field; rewrite Hsl by lia; done). split_and!; [done| |].
  - split; [lia|rewrite Lm, Zplus_mod, Q2, R2; done| |rewrite En, Lm; lia]. rewrite Lm. unfold m. rewrite (wrap_small 16) by (unfold fits; lia).
    apply (field_le (q ++ zeros (zlen r)) 4 2); cbn; lia.
  - unfold as_entry, r_ino, r_type, r_name, field. rewrite En, !Hsl by lia. done.
Qed.

(** A first record that became free. *)
Lemma clear_record r : rec_ok r ->
  let c := splice (splice r 0 (to_le_bytes 4 0)) 6 (zeros (zlen r - 6)) in zlen c = zlen r /\ rec_ok c /\ as_entry c = None.
Proof.
  intros [R1 R2 R3 R4] c. pose proof (length_zeros (zlen r - 6) ltac:(lia)) as Hz. pose proof (length_to_le_bytes 4 0) as Hl.
  assert (zlen (splice r 0 (to_le_bytes 4 0)) = zlen r) as L1 by (rewrite length_splice; lia). assert (zlen c = zlen r) as Lc by (unfold c; rewrite length_splice; lia).
  assert (r_nlen c = 0) as En by (unfold r_nlen, field, c; rewrite sl_splice_sub by lia; apply field_zeros; lia).
  assert (r_ino c = 0) as Ei by (unfold r_ino, c; rewrite field_out by lia; apply (field_le r 0 4); cbn; lia).
  split_and!; [done| |unfold as_entry; by rewrite Ei]. split; [lia|by rewrite Lc| |rewrite En; lia].
  rewrite Lc. unfold c. rewrite field_out by lia. rewrite field_out by lia. done.
Qed.

(** A record with another inode and type. *)
Lemma renew_record r new ty : rec_ok r -> fits 32 new -> new <> 0 -> fits 8 ty ->
  let p := splice (splice r 0 (to_le_bytes 4 new)) 7 [ty] in zlen p = zlen r /\ rec_ok p /\ as_entry p = Some (r_name r, (new, ty)).
Proof.
  intros [R1 R2 R3 R4] Hn Hn0 Ht p. pose proof (length_to_le_bytes 4 new) as Hl. pose proof (field_range r 6 1 ltac:(lia) ltac:(lia) ltac:(lia)) as Hnl. fold (r_nlen r) in Hnl.
  assert (zlen (splice r 0 (to_le_bytes 4 new)) = zlen r) as L1 by (rewrite length_splice; lia). assert (zlen p = zlen r) as Lp by (unfold p; rewrite length_splice; cbn [length]; lia).
  assert (forall o n, 0 <= o -> 0 <= n -> o + n <= zlen r -> 4 <= o /\ o + n <= 7 \/ 8 <= o -> sl p o n = sl r o n) as Hsl.
  { intros o n Ho Hn1 Hon Hd. unfold p. rewrite sl_splice_out by (cbn [length]; lia). apply sl_splice_out; lia. }
  assert (r_nlen p = r_nlen r) as En by (unfold r_nlen, field; rewrite Hsl by lia; done).
  assert (r_ino p = new) as Ei by (unfold r_ino, p; rewrite field_out by (cbn [length]; lia); apply (field_le r 0 4); [lia|lia|]; unfold fits in Hn; cbn; lia).
  split_and!; [done| |].
  - split; [lia|by rewrite Lp| |rewrite En; lia]. rewrite Lp. unfold field. rewrite Hsl by lia. done.
  - unfold as_entry. rewrite Ei, (proj2 (Z.eqb_neq new 0)) by done. do 2 f_equal; [unfold r_name; rewrite En, Hsl by lia; done|f_equal].
    unfold r_type, p. rewrite field_of_byte by lia. by apply wrap_small.
Qed.

(** The block with one record changed, sealed again. *)
Lemma reseal rs rs' tl : Forall rec_ok rs' -> zlen (concat rs') = zlen (concat rs) -> zlen (concat rs) + 12 <= 65536 -> tail_ok tl ->
  exists b, seal seed (number dir) (generation dir) (concat rs' ++ tl) (zlen (concat rs)) = Ok b /\ leaf rs' b /\ zlen b = zlen (concat rs ++ tl).
Proof.
  intros Hrs Hz Hsz Ht. destruct (seal_leaf rs' tl Hrs ltac:(lia) Ht) as (b & Hb & Hl & Hzb). exists b. rewrite <- Hz. split_and!; [done|done|].
  rewrite Hzb, length_app. pose proof (tl_len _ Ht). lia.
Qed.

(** The removal found: merged with the record before, or the record cleared. *)
Lemma remove_edit rs1 r rs2 tl fuel name : Forall rec_ok (rs1 ++ r :: rs2) -> tail_ok tl -> zlen (concat (rs1 ++ r :: rs2)) + 12 <= 65536 -> matches name r = true ->
  let b := concat (rs1 ++ r :: rs2) ++ tl in let tail := zlen (concat (rs1 ++ r :: rs2)) in
  exists rs', remove_scan (S fuel) b tail (r_ino r) name (zlen (concat rs1))
      (match list.last rs1 with Some q => Some (zlen (concat rs1) - zlen q) | None => None end) = Ok (concat rs' ++ tl) /\
    Forall rec_ok rs' /\ zlen (concat rs') = tail /\ live rs' ≡ₚ live (rs1 ++ rs2).
Proof.
  intros Hrs Ht Hsz Hm b tail. pose proof Hrs as [Hrs1 Hrs2]%list.Forall_app. inversion_clear Hrs2 as [|? ? Hr Hrs3]. pose proof Hr as [R1 R2 R3 R4].
  assert (tail = zlen (concat rs1) + zlen r + zlen (concat rs2)) as Etail by (unfold tail; rewrite concat_app; cbn [concat]; rewrite !length_app; lia).
  cbn [remove_scan]. rewrite (proj2 (Z.ltb_lt _ _)) by lia. cbn [negb]. unfold b. rewrite concat_split. rewrite record_at_mid by (done || lia). cbn [mbind R_bind].
  rewrite name_mid by done. cbn [mbind R_bind]. fold (matches name r). rewrite Hm, Z.eqb_refl. cbn [negb].
  destruct (list.last rs1) as [q|] eqn:Eq.
  - apply list.last_Some in Eq as [rs0 ->]. pose proof Hrs1 as [Hrs0 Hq]%list.Forall_app. inversion_clear Hq as [|? ? Hq' _]. pose proof Hq' as [Q1 Q2 Q3 Q4].
    assert (concat (rs0 ++ [q]) = concat rs0 ++ q) as Ec by (rewrite concat_app; cbn [concat]; by rewrite app_nil_r). rewrite Ec in *. rewrite length_app in *.
    replace (Z.of_nat (length (concat rs0) + length q) - zlen q) with (zlen (concat rs0)) by lia.
    assert (le16 ((concat rs0 ++ q) ++ r ++ concat rs2 ++ tl) (zlen (concat rs0) + 4) = Ok (zlen q)) as ->.
    { rewrite <- app_assoc. unfold le16. rewrite field_mid by lia. by rewrite Q3. }
    cbn [mbind R_bind]. rewrite (proj2 (Z.ltb_ge _ _)) by lia. pose proof (length_zeros (zlen r) ltac:(lia)) as Hz.
    replace (Z.of_nat (length (concat rs0) + length q)) with (zlen (concat rs0 ++ q)) by (rewrite length_app; lia).
    rewrite put_mid0 by lia. cbn [mbind R_bind]. rewrite splice_full by lia.
    destruct (merge_record q r Hq' Hr ltac:(lia)) as (M1 & M2 & M3). set (m := splice (q ++ zeros (zlen r)) 4 _) in *.
    replace ((concat rs0 ++ q) ++ zeros (zlen r) ++ concat rs2 ++ tl) with (concat rs0 ++ (q ++ zeros (zlen r)) ++ concat rs2 ++ tl) by (by rewrite <- !app_assoc).
    rewrite put_le16_mid by (rewrite ?length_app; lia). fold m. exists (rs0 ++ m :: rs2). rewrite <- concat_split. split_and!; [done| | |].
    + apply list.Forall_app. split; [done|]. by constructor.
    + rewrite concat_app. cbn [concat]. rewrite !length_app. lia.
    + rewrite <- app_assoc. cbn [app]. rewrite !live_perm, M3. done.
  - apply list.last_None in Eq as ->. cbn [concat app length] in *. change (Z.of_nat 0) with 0 in *.
    pose proof (put_le32_mid [] r (concat rs2 ++ tl) 0 ltac:(lia)) as P1. cbn [app length] in P1. change (Z.of_nat 0) with 0 in P1. rewrite P1. cbn [mbind R_bind].
    destruct (clear_record r Hr) as (C1 & C2 & C3). set (c := splice (splice r 0 (to_le_bytes 4 0)) 6 (zeros (zlen r - 6))) in *.
    pose proof (length_zeros (zlen r - 6) ltac:(lia)) as Hz.
    assert (zlen (splice r 0 (to_le_bytes 4 0)) = zlen r) as L1 by (rewrite length_splice; rewrite ?length_to_le_bytes; lia).
    pose proof (put_mid [] (splice r 0 (to_le_bytes 4 0)) (concat rs2 ++ tl) 6 (zeros (zlen r - 6)) ltac:(lia) ltac:(lia)) as P2. cbn [app length] in P2. change (Z.of_nat 0) with 0 in P2.
    rewrite P2. fold c. exists (c :: rs2). cbn [concat]. rewrite <- app_assoc. split_and!; [done|by constructor|rewrite length_app; lia|]. rewrite live_cons, C3. done.
Qed.

Lemma remove_leaf rs b name ino : leaf rs b -> lookup_rec name rs = Some ino ->
  exists b' rs' ty, remove_directory_entry seed dir b ino name = Ok b' /\ leaf rs' b' /\ zlen b' = zlen b /\ live rs ≡ₚ (name, (ino, ty)) :: live rs'.
Proof.
  intros [L1 L2 (tl & -> & Ht & Hc)] Hlk. pose proof (tl_len _ Ht) as Hl. rewrite length_app in L2. destruct (lookup_rec_split name rs ino Hlk) as (rs1 & r & rs2 & -> & Hno & Hm & Hi).
  pose proof L1 as [Hrs1 Hrs2]%list.Forall_app. inversion_clear Hrs2 as [|? ? Hr Hrs3]. pose proof Hr as [R1 _ _ _]. pose proof (concat_min rs1 Hrs1) as Hmin.
  unfold remove_directory_entry. rewrite leaf_tail_ok by done. cbn [mbind R_bind]. set (tail := zlen (concat (rs1 ++ r :: rs2))).
  assert (tail = zlen (concat rs1) + zlen r + zlen (concat rs2)) as Etail by (unfold tail; rewrite concat_app; cbn [concat]; rewrite !length_app; lia).
  set (b := concat (rs1 ++ r :: rs2) ++ tl). assert (b = [] ++ concat rs1 ++ (r ++ concat rs2 ++ tl)) as Eb by (apply concat_split).
  assert (length rs1 < length b)%nat as Hfu by (rewrite Eb; cbn [app]; rewrite !length_app; lia).
  pose proof (remove_scan_skip name ino rs1 (S (length b)) [] (r ++ concat rs2 ++ tl) tail None Hrs1 Hno ltac:(lia)) as Hs. cbn [length] in Hs. change (Z.of_nat 0) with 0 in Hs.
  rewrite <- Eb, !Z.add_0_l in Hs. rewrite Hs by lia. clear Hs. replace (S (length b) - length rs1)%nat with (S (length b - length rs1)) by lia. rewrite <- Hi.
  destruct (remove_edit rs1 r rs2 tl (length b - length rs1) name L1 Ht ltac:(lia) Hm) as (rs' & Hrm & Hok & Hz & Hlv). fold b tail in Hrm. rewrite Hrm. cbn [mbind R_bind].
  destruct (reseal (rs1 ++ r :: rs2) rs' tl Hok Hz ltac:(lia) Ht) as (b' & Hb' & Hlf & Hzb). fold tail in Hb'. rewrite Hb'.
  exists b', rs', (r_type r). split_and!; [done|done|done|]. rewrite live_perm, (matches_entry name r Hm), Hlv. done.
Qed.

Lemma replace_leaf rs b name old new ty : leaf rs b -> lookup_rec name rs = Some old -> old <> 0 -> fits 32 new -> new <> 0 -> known_type ty = true ->
  exists b' rs' ty0 rest, replace_directory_entry seed dir b old new name ty = Ok b' /\ leaf rs' b' /\ zlen b' = zlen b /\
    live rs ≡ₚ (name, (old, ty0)) :: rest /\ live rs' ≡ₚ (name, (new, ty)) :: rest.
Proof.
  intros [L1 L2 (tl & -> & Ht & Hc)] Hlk Ho Hn Hn0 Hk. pose proof (tl_len _ Ht) as Hl. rewrite length_app in L2.
  destruct (lookup_rec_split name rs old Hlk) as (rs1 & r & rs2 & -> & Hno & Hm & Hi). assert (fits 8 ty) as Hty by (by apply known_fits).
  pose proof L1 as [Hrs1 Hrs2]%list.Forall_app. inversion_clear Hrs2 as [|? ? Hr Hrs3]. pose proof Hr as [R1 _ _ _]. pose proof (concat_min rs1 Hrs1) as Hmin.
  unfold replace_directory_entry. rewrite Hk, !(proj2 (Z.eqb_neq _ 0)) by done. cbn [negb orb]. rewrite leaf_tail_ok by done. cbn [mbind R_bind]. set (tail := zlen (concat (rs1 ++ r :: rs2))).
  assert (tail = zlen (concat rs1) + zlen r + zlen (concat rs2)) as Etail by (unfold tail; rewrite concat_app; cbn [concat]; rewrite !length_app; lia).
  set (b := concat (rs1 ++ r :: rs2) ++ tl). assert (b = [] ++ concat rs1 ++ (r ++ concat rs2 ++ tl)) as Eb by (apply concat_split).
  assert (length rs1 < length b)%nat as Hfu by (rewrite Eb; cbn [app]; rewrite !length_app; lia).
  pose proof (replace_scan_skip name old new ty rs1 (S (length b)) [] (r ++ concat rs2 ++ tl) tail Hrs1 Hno ltac:(lia)) as Hs. cbn [length] in Hs. change (Z.of_nat 0) with 0 in Hs.
  rewrite <- Eb, !Z.add_0_l in Hs. rewrite Hs by lia. clear Hs. replace (S (length b) - length rs1)%nat with (S (length b - length rs1)) by lia.
  cbn [replace_scan]. rewrite (proj2 (Z.ltb_lt _ _)) by lia. cbn [negb]. rewrite Eb. cbn [app]. rewrite record_at_mid by (done || lia). cbn [mbind R_bind].
  rewrite name_mid by done. cbn [mbind R_bind]. fold (matches name r). rewrite Hm, Hi, Z.eqb_refl. cbn [negb].
  destruct (renew_record r new ty Hr Hn Hn0 Hty) as (P1 & P2 & P3). rewrite put_le32_mid by lia. cbn [mbind R_bind].
  assert (zlen (splice r 0 (to_le_bytes 4 new)) = zlen r) as L3 by (rewrite length_splice; rewrite ?length_to_le_bytes; lia).
  rewrite put_mid by (cbn [length]; lia). cbn [mbind R_bind]. set (p := splice (splice r 0 _) 7 _) in *. rewrite <- concat_split.
  destruct (reseal (rs1 ++ r :: rs2) (rs1 ++ p :: rs2) tl) as (b' & Hb' & Hlf & Hzb); [apply list.Forall_app; split; [done|by constructor]| |lia|done|].
  { rewrite !concat_app. cbn [concat]. rewrite !length_app. lia. }
  fold tail in Hb'. rewrite Hb'. exists b', (rs1 ++ p :: rs2), (r_type r), (live (rs1 ++ rs2)). split_and!; [done|done| | |].
  - rewrite Hzb. fold b. by rewrite Eb.
  - rewrite live_perm, (matches_entry name r Hm), Hi. done.
  - assert (r_name r = name) as En by (unfold matches in Hm; apply andb_true_iff in Hm as [_ Hm]; by apply bool_decide_eq_true in Hm). rewrite live_perm, P3, En. done.
Qed.

(** ** New blocks *)

Definition fresh_tail : list Z := splice (splice (zeros 12) 4 (to_le_bytes 2 12)) 7 [0xde].

Lemma fresh_tail_ok : tail_ok fresh_tail.
Proof. split; reflexivity. Qed.

Lemma zeros_app a b : 0 <= a -> 0 <= b -> zeros (a + b) = zeros a ++ zeros b.
Proof. intros. unfold zeros. rewrite Z2Nat.inj_add by done. apply replicate_add. Qed.

(** The tail written behind the records. *)
Lemma put_tail (body : list Z) (k : list Z -> R (list Z)) :
  (b ← put_le16 (body ++ zeros 12) (zlen body + 4) 12; b ← put b (zlen body + 7) [0xde]; k b) = k (body ++ fresh_tail).
Proof.
  rewrite <- (app_nil_r (body ++ zeros 12)), <- app_assoc. rewrite put_le16_mid by (vm_compute; discriminate). cbn [mbind R_bind]. rewrite put_mid by (vm_compute; discriminate).
  cbn [mbind R_bind]. by rewrite app_nil_r.
Qed.

Lemma empty_leaf_ok len : 20 <= len <= 65536 -> len mod 4 = 0 ->
  exists b r, initialize_empty_directory_leaf seed (number dir) (generation dir) (zeros len) = Ok b /\ leaf [r] b /\ as_entry r = None /\ zlen r = len - 12.
Proof.
  intros Hl Hm. unfold initialize_empty_directory_leaf. rewrite length_zeros by lia. unfold U16_MAX. rewrite !(proj2 (Z.ltb_ge _ _)) by lia. cbn [orb].
  set (tail := len - 12). replace (zeros len) with ([] ++ zeros tail ++ zeros 12) by (cbn [app]; rewrite <- zeros_app by lia; f_equal; lia).
  pose proof (length_zeros tail ltac:(lia)) as Hz. pose proof (put_le16_mid [] (zeros tail) (zeros 12) 4 (u16 tail) ltac:(lia) ltac:(lia)) as P. cbn [length] in P.
  change (Z.of_nat 0 + 4) with 4 in P. rewrite P. cbn [mbind R_bind app]. set (r := splice (zeros tail) 4 (to_le_bytes 2 (u16 tail))).
  assert (zlen r = tail) as Lr by (unfold r; rewrite length_splice; rewrite ?length_to_le_bytes; lia). replace (tail + 4) with (zlen r + 4) by lia. replace (tail + 7) with (zlen r + 7) by lia.
  rewrite put_tail. assert (r_ino r = 0 /\ r_nlen r = 0) as [Ei En].
  { unfold r_ino, r_nlen, r. rewrite !field_out by (rewrite ?length_to_le_bytes; lia). by rewrite !field_zeros by lia. }
  assert (rec_ok r) as Hr.
  { split; [lia|rewrite Lr; unfold tail; rewrite Zminus_mod, Hm; done| |rewrite En; lia]. rewrite Lr. unfold r. rewrite (wrap_small 16) by (unfold fits; lia). apply (field_le (zeros tail) 4 2); cbn; lia. }
  destruct (seal_leaf [r] fresh_tail) as (b & Hb & Hlf & _); [by constructor|cbn; rewrite app_nil_r; lia|apply fresh_tail_ok|].
  cbn [concat] in Hb. rewrite app_nil_r, Lr in Hb. exists b, r. split_and!; [exact Hb|done|unfold as_entry; by rewrite Ei|done].
Qed.

Lemma first_block_ok parent block : 36 <= zlen block <= 65536 -> zlen block mod 4 = 0 -> fits 32 (number dir) -> number dir <> 0 -> fits 32 parent -> parent <> 0 ->
  exists b rs, initialize_directory_block seed (number dir) (generation dir) parent block = Ok b /\ leaf rs b /\
    live rs = [([0x2e], (number dir, 2)); ([0x2e; 0x2e], (parent, 2))].
Proof.
  intros Hl Hm Hi Hi0 Hp Hp0. unfold initialize_directory_block. unfold U16_MAX. rewrite !(proj2 (Z.ltb_ge _ _)) by lia. cbn [orb].
  set (tail := zlen block - 12). replace (zeros (zlen block)) with ([] ++ zeros 12 ++ (zeros (tail - 12) ++ zeros 12)) by (cbn [app]; rewrite <- !zeros_app by lia; f_equal; lia).
  pose proof (fun k => fill_zeros [] (zeros (tail - 12) ++ zeros 12) 12 (number dir) [0x2e] 2 k ltac:(cbn; lia)) as F1. cbn [length] in F1.
  change (Z.of_nat 0) with 0 in F1. change (u16 12) with 12 in F1. change (u8 (Z.of_nat 1)) with 1 in F1. change (0 + 4) with 4 in F1. change (0 + 6) with 6 in F1. change (0 + 7) with 7 in F1. change (0 + 8) with 8 in F1.
  rewrite F1. clear F1. destruct (make_rec_ok 12 (number dir) [0x2e] 2 ltac:(cbn; lia) ltac:(vm_compute; split; [discriminate|reflexivity]) eq_refl Hi ltac:(unfold fits; lia)) as (A1 & A2 & A3 & A4).
  set (r1 := make_rec 12 (number dir) [0x2e] 2) in *. assert (zlen r1 = 12) as L1 by (apply length_make_rec; cbn; lia). cbn [app].
  pose proof (fun k => fill_zeros r1 (zeros 12) (tail - 12) parent [0x2e; 0x2e] 2 k ltac:(cbn; lia)) as F2. rewrite L1 in F2. cbn [length] in F2.
  change (u8 (Z.of_nat 2)) with 2 in F2. change (12 + 4) with 16 in F2. change (12 + 6) with 18 in F2. change (12 + 7) with 19 in F2. change (12 + 8) with 20 in F2.
  rewrite F2. clear F2. destruct (make_rec_ok (tail - 12) parent [0x2e; 0x2e] 2 ltac:(cbn; lia)) as (B1 & B2 & B3 & B4); [change (needed_for _) with 12; lia| |done|unfold fits; lia|].
  { unfold tail. replace (zlen block - 12 - 12) with (zlen block - 6 * 4) by lia. by rewrite Zminus_mod, Hm. }
  set (r2 := make_rec (tail - 12) parent [0x2e; 0x2e] 2) in *. assert (zlen r2 = tail - 12) as L2 by (apply length_make_rec; cbn; lia).
  rewrite (assoc_L (++)). replace (tail + 4) with (zlen (r1 ++ r2) + 4) by (rewrite length_app; lia). replace (tail + 7) with (zlen (r1 ++ r2) + 7) by (rewrite length_app; lia).
  rewrite put_tail. destruct (seal_leaf [r1; r2] fresh_tail) as (b & Hb & Hlf & _); [constructor; [done|]; constructor; [done|constructor]|cbn; rewrite app_nil_r, length_app; lia|apply fresh_tail_ok|].
  cbn [concat] in Hb. rewrite app_nil_r in Hb. replace (zlen (r1 ++ r2)) with tail in Hb by (rewrite length_app; lia). exists b, [r1; r2]. split_and!; [exact Hb|done|].
  rewrite !live_cons. unfold as_entry. rewrite A2, A3, A4, B2, B3, B4, !(proj2 (Z.eqb_neq _ 0)) by done. done.
Qed.
End Scan.
