(* ===== verification/DirSpec.v ===== *)
(** Directories as finite maps: the edits of a linear directory refine the
    operations of a map from names to inodes, the reader lists what they wrote,
    and a directory counts as empty exactly when it holds the two dot entries. *)

From Stdlib Require Import ZArith Lia Bool.
From stdpp Require Import base option list numbers gmap.
From S2P Require Import Prelude Ext4 DirEdit DirFacts.
Local Open Scope machine_scope.

Section Directory.
Context `{Crc}.

Abbreviation dir_map := (gmap (list Z) (Z * Z)).

(** The entries of the blocks of a directory. *)
Definition entries_of (recs : list (list (list Z))) : list entry := concat (live <$> recs).

Definition node_ok (t : DirectoryTree) (rs : list (list Z)) (n : DirectoryNode) : Prop := dn_kind n = Leaf /\ leaf (dt_seed t) (dt_inode t) rs (dn_bytes n).

(** A linear directory with the contents [m]: every block is a checksummed list
    of records, and no name occurs twice. *)
Definition holds (t : DirectoryTree) (m : dir_map) : Prop :=
  has_flag (flags (dt_inode t)) DIRECTORY_INDEX_FL = false /\
  exists recs, Forall2 (node_ok t) recs (dt_nodes t) /\ NoDup (entries_of recs).*1 /\ m = list_to_map (entries_of recs).

(** ** Names *)

Lemma lookup_rec_Some name rs i : lookup_rec name rs = Some i -> exists ty, (name, (i, ty)) ∈ live rs.
Proof.
  intros Hl. destruct (lookup_rec_split name rs i Hl) as (rs1 & r & rs2 & -> & _ & Hm & <-). exists (r_type r). rewrite live_app, live_cons, (matches_entry name r Hm).
  apply elem_of_app. right. left.
Qed.

Lemma lookup_rec_None name rs : lookup_rec name rs = None -> name ∉ (live rs).*1.
Proof.
  induction rs as [|r rs IH]; [intros _; apply not_elem_of_nil|]. cbn [lookup_rec]. destruct (matches name r) eqn:Em; [done|]. intros Hl. rewrite live_cons.
  unfold as_entry. unfold matches in Em. destruct (r_ino r =? 0); [by apply IH|]. cbn [negb andb] in Em. apply bool_decide_eq_false in Em. cbn [fmap list_fmap fst].
  rewrite not_elem_of_cons. split; [congruence|by apply IH].
Qed.

Lemma matches_lookup name rs : existsb (matches name) rs = match lookup_rec name rs with Some _ => true | None => false end.
Proof. induction rs as [|r rs IH]; [done|]. cbn. by destruct (matches name r). Qed.

Lemma entries_cons rs recs : entries_of (rs :: recs) = live rs ++ entries_of recs.
Proof. reflexivity. Qed.

(** The entries with one block changed. *)
Lemma entries_split recs i rs : recs !! i = Some rs -> exists rest, entries_of recs ≡ₚ live rs ++ rest /\ forall rs', entries_of (<[i := rs']> recs) ≡ₚ live rs' ++ rest.
Proof.
  intros Hi. exists (entries_of (take i recs) ++ entries_of (drop (S i) recs)).
  assert (forall x, entries_of (take i recs ++ x :: drop (S i) recs) ≡ₚ live x ++ entries_of (take i recs) ++ entries_of (drop (S i) recs)) as He.
  { intros x. unfold entries_of. rewrite fmap_app, fmap_cons, concat_app. cbn [concat]. rewrite (assoc_L (++)), (comm (++) _ (live x)). by rewrite <- (assoc_L (++)). }
  split; [rewrite <- He; by rewrite take_drop_middle|]. intros rs'. rewrite insert_take_drop by (by eapply lookup_lt_Some). apply He.
Qed.

Lemma find_node_ok t name recs : forall nodes k, Forall2 (node_ok t) recs nodes ->
  match find_node nodes name k with
  | Ok None => name ∉ (entries_of recs).*1
  | Ok (Some (i, num)) => exists j rs node, i = (k + j)%nat /\ recs !! j = Some rs /\ nodes !! j = Some node /\ lookup_rec name rs = Some num
  | _ => False
  end.
Proof.
  induction recs as [|rs recs IH]; intros nodes k Hn.
  - apply Forall2_nil_inv_l in Hn as ->. cbn. apply not_elem_of_nil.
  - apply Forall2_cons_inv_l in Hn as (n & nodes' & [Hk Hl] & Hn & ->). cbn [find_node]. unfold is_leaf. rewrite Hk. cbn [negb]. rewrite (find_leaf _ _ rs) by done. cbn [mbind R_bind].
    destruct (lookup_rec name rs) as [num|] eqn:El.
    + exists O, rs, n. by rewrite Nat.add_0_r.
    + specialize (IH nodes' (S k) Hn). destruct (find_node nodes' name (S k)) as [[[i num]|]| |]; [| |done|done].
      * destruct IH as (j & rs' & node & -> & H1 & H2 & H3). exists (S j), rs', node. split_and!; [lia|done|done|done].
      * rewrite entries_cons, fmap_app, not_elem_of_app. split; [by apply lookup_rec_None|done].
Qed.

(** What [find] answers. *)
Lemma find_ok t m name : holds t m ->
  match find t name with
  | Ok None => m !! name = None
  | Ok (Some (i, num)) => (exists ty, m !! name = Some (num, ty)) /\
      exists recs rs node, Forall2 (node_ok t) recs (dt_nodes t) /\ NoDup (entries_of recs).*1 /\ m = list_to_map (entries_of recs) /\
        recs !! i = Some rs /\ dt_nodes t !! i = Some node /\ lookup_rec name rs = Some num
  | _ => False
  end.
Proof.
  intros [_ (recs & Hn & Hd & ->)]. unfold find. pose proof (find_node_ok t name recs (dt_nodes t) 0 Hn) as Hf.
  destruct (find_node (dt_nodes t) name 0) as [[[i num]|]| |]; [| |done|done].
  - destruct Hf as (j & rs & node & -> & H1 & H2 & H3). cbn [Nat.add]. split; [|by exists recs, rs, node].
    destruct (lookup_rec_Some _ _ _ H3) as [ty Hin]. exists ty. apply elem_of_list_to_map_1; [done|]. destruct (entries_split recs j rs H1) as (rest & -> & _). apply elem_of_app. by left.
  - by apply not_elem_of_list_to_map_1.
Qed.

Lemma holds_edit t recs i rs node rs' b' m' : has_flag (flags (dt_inode t)) DIRECTORY_INDEX_FL = false -> Forall2 (node_ok t) recs (dt_nodes t) ->
  recs !! i = Some rs -> dt_nodes t !! i = Some node -> leaf (dt_seed t) (dt_inode t) rs' b' ->
  NoDup (entries_of (<[i := rs']> recs)).*1 -> m' = list_to_map (entries_of (<[i := rs']> recs)) -> holds (set_nodes t (<[i := set_bytes node b']> (dt_nodes t))) m'.
Proof.
  intros Hx Hn Hr Hnode Hl Hd Hm. split; [done|]. exists (<[i := rs']> recs). split_and!; [|done|done]. cbn [dt_nodes set_nodes]. apply Forall2_insert; [exact Hn|].
  split; [|done]. cbn. destruct (Forall2_lookup_lr _ _ _ _ _ _ Hn Hr Hnode) as [Hk _]. done.
Qed.

Lemma remove_entry_ok t m num name : holds t m ->
  match remove t num name with
  | Ok t' => (exists ty, m !! name = Some (num, ty)) /\ holds t' (delete name m)
  | Err e => e = NotFound /\ forall ty, m !! name <> Some (num, ty)
  | Panic => False
  end.
Proof.
  intros Hh. pose proof (find_ok t m name Hh) as Hf. unfold remove, find_entry. destruct (find t name) as [[[i found]|]| |]; [| |done|done]; cbn [mbind R_bind].
  - destruct Hf as [[ty0 Hm] (recs & rs & node & Hn & Hd & -> & Hr & Hnode & Hlk)]. destruct (Z.eqb_spec found num) as [->|Hne]; cbn [mbind R_bind].
    2: { split; [done|]. intros ty E. rewrite Hm in E. congruence. }
    unfold edit_node. rewrite Hnode. destruct (Forall2_lookup_lr _ _ _ _ _ _ Hn Hr Hnode) as [_ Hlf].
    destruct (remove_leaf _ _ rs (dn_bytes node) name num Hlf Hlk) as (b' & rs' & ty & -> & Hlf' & _ & Hp). cbn [mbind R_bind]. split; [by eexists|].
    destruct (entries_split recs i rs Hr) as (rest & He & He'). rewrite Hp in He. cbn [app] in He. assert (NoDup ((name, (num, ty)) :: live rs' ++ rest).*1) as Hd2 by (by rewrite <- He).
    cbn [fmap list_fmap fst] in Hd2. apply list.NoDup_cons in Hd2 as [Hni Hd2].
    eapply (holds_edit t recs i rs node rs' b'); try done; [apply Hh|by rewrite He'|].
    rewrite (list_to_map_proper (M := gmap (list Z)) _ _ Hd He), list_to_map_cons, delete_insert_id by (by apply not_elem_of_list_to_map_1). apply list_to_map_proper; [done|by rewrite He'].
  - split; [done|]. intros ty E. congruence.
Qed.

Lemma replace_ok t m old new name kind : holds t m -> old <> 0 -> fits 32 new -> new <> 0 -> known_type kind = true ->
  match replace t old new name kind with
  | Ok t' => (exists ty, m !! name = Some (old, ty)) /\ holds t' (<[name := (new, kind)]> m)
  | Err e => e = NotFound /\ forall ty, m !! name <> Some (old, ty)
  | Panic => False
  end.
Proof.
  intros Hh Ho Hn32 Hn0 Hk. pose proof (find_ok t m name Hh) as Hf. unfold replace, find_entry. destruct (find t name) as [[[i found]|]| |]; [| |done|done]; cbn [mbind R_bind].
  - destruct Hf as [[ty0 Hm] (recs & rs & node & Hn & Hd & -> & Hr & Hnode & Hlk)]. destruct (Z.eqb_spec found old) as [->|Hne]; cbn [mbind R_bind].
    2: { split; [done|]. intros ty E. rewrite Hm in E. congruence. }
    unfold edit_node. rewrite Hnode. destruct (Forall2_lookup_lr _ _ _ _ _ _ Hn Hr Hnode) as [_ Hlf].
    destruct (replace_leaf _ _ rs (dn_bytes node) name old new kind Hlf Hlk Ho Hn32 Hn0 Hk) as (b' & rs' & ty & rest0 & -> & Hlf' & _ & Hp & Hp'). cbn [mbind R_bind]. split; [by eexists|].
    destruct (entries_split recs i rs Hr) as (rest & He & He'). specialize (He' rs'). rewrite Hp in He. rewrite Hp' in He'. cbn [app] in He, He'.
    assert (NoDup ((name, (old, ty)) :: rest0 ++ rest).*1) as Hd2 by (by rewrite <- He). cbn [fmap list_fmap fst] in Hd2.
    assert (NoDup (entries_of (<[i := rs']> recs)).*1) as Hd3 by (by rewrite He').
    eapply (holds_edit t recs i rs node rs' b'); try done; [apply Hh|].
    rewrite (list_to_map_proper (M := gmap (list Z)) _ _ Hd3 He'), (list_to_map_proper (M := gmap (list Z)) _ _ Hd He), !list_to_map_cons. apply insert_insert_eq.
  - split; [done|]. intros ty E. congruence.
Qed.

Lemma insert_node_ok t recs num name kind : forall before nodes, Forall2 (node_ok t) recs nodes -> (name ∉ (entries_of recs).*1) ->
  zlen name <= 255 -> fits 32 num -> num <> 0 -> known_type kind = true ->
  match insert_node t before nodes num name kind with
  | Ok t' => exists recs' nodes', t' = set_nodes t (before ++ nodes') /\ Forall2 (node_ok t) recs' nodes' /\ entries_of recs' ≡ₚ (name, (num, kind)) :: entries_of recs
  | Err e => e = EUnsupported ExtentMutation /\ Forall (Forall (fun r => room (needed_for (zlen name)) r = None)) recs
  | Panic => False
  end.
Proof.
  induction recs as [|rs recs IH]; intros before nodes Hn Hni Hl Hi Hi0 Hk.
  - apply Forall2_nil_inv_l in Hn as ->. by split.
  - apply Forall2_cons_inv_l in Hn as (n & nodes' & [Hnk Hlf] & Hn & ->). cbn [insert_node]. unfold is_leaf. rewrite Hnk. cbn [negb].
    rewrite entries_cons, fmap_app, not_elem_of_app in Hni. destruct Hni as [Hni1 Hni2].
    pose proof (insert_leaf _ _ rs (dn_bytes n) num name kind Hlf Hl Hi Hi0 Hk) as HI. destruct (insert_directory_entry _ _ _ _ _ _) as [b|e|]; [| |done].
    + destruct HI as [_ (rs' & Hlf' & _ & Hp)]. exists (rs' :: recs), (set_bytes n b :: nodes'). split_and!; [done|by constructor|]. rewrite !entries_cons, Hp. done.
    + rewrite matches_lookup in HI. destruct (lookup_rec name rs) as [i|] eqn:El.
      * destruct (lookup_rec_Some _ _ _ El) as [ty Hin]. exfalso. apply Hni1. apply list_elem_of_fmap. by exists (name, (i, ty)).
      * destruct HI as [-> Hroom]. specialize (IH (before ++ [n]) nodes' Hn Hni2 Hl Hi Hi0 Hk).
        destruct (insert_node t (before ++ [n]) nodes' num name kind); [|destruct IH as [-> ?]; split; [done|by constructor]|done].
        destruct IH as (recs' & nodes2 & -> & H2 & Hp). exists (rs :: recs'), (n :: nodes2). split_and!; [by rewrite <- app_assoc|by constructor|]. rewrite !entries_cons, Hp.
        symmetry. apply Permutation_middle.
Qed.

(** The insertion into blocks that are known. *)
Lemma insert_recs_ok t recs num name kind : has_flag (flags (dt_inode t)) DIRECTORY_INDEX_FL = false -> Forall2 (node_ok t) recs (dt_nodes t) -> NoDup (entries_of recs).*1 ->
  zlen name <= 255 -> fits 32 num -> num <> 0 -> known_type kind = true ->
  let m : dir_map := list_to_map (entries_of recs) in
  match insert t num name kind with
  | Ok t' => m !! name = None /\ holds t' (<[name := (num, kind)]> m)
  | Err e => if decide (is_Some (m !! name)) then e = AlreadyExists else
      e = EUnsupported ExtentMutation /\ Forall (Forall (fun r => room (needed_for (zlen name)) r = None)) recs
  | Panic => False
  end.
Proof.
  intros Hx Hn Hd Hl Hi Hi0 Hk m. assert (holds t m) as Hh by (split; [done|by exists recs]). pose proof (find_ok t m name Hh) as Hf.
  unfold insert. destruct (find t name) as [[[i found]|]| |]; [| |done|done]; cbn [mbind R_bind].
  - destruct Hf as [[ty Hm] _]. rewrite decide_True; [done|]. by rewrite Hm.
  - rewrite Hx. assert (name ∉ (entries_of recs).*1) as Hni by (by apply not_elem_of_list_to_map).
    pose proof (insert_node_ok t recs num name kind [] (dt_nodes t) Hn Hni Hl Hi Hi0 Hk) as HI. destruct (insert_node t [] (dt_nodes t) num name kind) as [t'|e|]; [| |done].
    + destruct HI as (recs' & nodes' & -> & Hn' & Hp). split; [done|]. split; [done|]. exists recs'. assert (NoDup (entries_of recs').*1) as Hd' by (rewrite Hp; cbn; by apply list.NoDup_cons).
      split_and!; [done|done|]. by rewrite (list_to_map_proper (M := gmap (list Z)) _ _ Hd' Hp), list_to_map_cons.
    + rewrite decide_False; [done|]. rewrite Hf. by intros [? ?].
Qed.

(** A new leaf has room for any name. *)
Lemma push_leaf_ok t recs bs leaf_number : Forall2 (node_ok t) recs (dt_nodes t) -> 1024 <= bs <= 65536 -> bs mod 4 = 0 ->
  exists t' r, push_leaf t bs leaf_number = Ok t' /\ Forall2 (node_ok t') (recs ++ [[r]]) (dt_nodes t') /\ entries_of (recs ++ [[r]]) = entries_of recs /\
    dt_inode t' = dt_inode t /\ r_ino r = 0 /\ zlen r = bs - 12.
Proof.
  intros Hn Hb Hm. unfold push_leaf. destruct (empty_leaf_ok (dt_seed t) (dt_inode t) bs ltac:(lia) Hm) as (b & r & -> & Hlf & He & Hz). cbn [mbind R_bind].
  eexists _, r. split_and!; [done| | |done| |done].
  - cbn [dt_nodes set_nodes]. apply Forall2_app; [exact Hn|]. constructor; [|constructor]. by split.
  - unfold entries_of. rewrite fmap_app, concat_app. cbn. rewrite He. cbn. apply app_nil_r.
  - unfold as_entry in He. destruct (Z.eqb_spec (r_ino r) 0); done.
Qed.

Lemma insert_into_ok t m bs reserved num name kind : holds t m -> 1024 <= bs <= 65536 -> bs mod 4 = 0 -> reserved <> Panic ->
  zlen name <= 255 -> fits 32 num -> num <> 0 -> known_type kind = true ->
  match insert_into_directory t bs reserved num name kind with
  | Ok t' => m !! name = None /\ holds t' (<[name := (num, kind)]> m)
  | Err e => is_Some (m !! name) /\ e = AlreadyExists \/ m !! name = None /\ reserved = Err e
  | Panic => False
  end.
Proof.
  intros [Hx (recs & Hn & Hd & ->)] Hb Hm Hres Hl Hi Hi0 Hk. pose proof (insert_recs_ok t recs num name kind Hx Hn Hd Hl Hi Hi0 Hk) as HI. cbn zeta in HI. unfold insert_into_directory.
  set (m := list_to_map (entries_of recs) : dir_map) in *. destruct (insert t num name kind) as [t'|e|]; [done| |done].
  destruct (decide (is_Some (m !! name))) as [Hs|Hs]; [rewrite HI; by left|]. destruct HI as [-> _]. rewrite Hx. apply eq_None_not_Some in Hs.
  destruct reserved as [leaf_number|e|]; [|by right|done]. cbn [mbind R_bind].
  destruct (push_leaf_ok t recs bs leaf_number Hn Hb Hm) as (t1 & r & -> & Hn1 & He & Hi1 & Hr0 & Hrz). cbn [mbind R_bind].
  rewrite <- Hi1 in Hx. rewrite <- He in Hd. pose proof (insert_recs_ok t1 (recs ++ [[r]]) num name kind Hx Hn1 Hd Hl Hi Hi0 Hk) as HI. cbn zeta in HI. rewrite He in HI. fold m in HI.
  destruct (insert t1 num name kind) as [t'|e|]; [exact HI| |done]. exfalso. rewrite decide_False in HI by (rewrite Hs; by intros [? ?]). destruct HI as [_ Hroom].
  apply list.Forall_app in Hroom as [_ Hroom]. inversion_clear Hroom as [|? ? Hr _]. inversion_clear Hr as [|? ? Hr' _]. unfold room in Hr'. rewrite Hr0 in Hr'.
  destruct (needed_for_range (zlen name) ltac:(lia)) as [Hnf _]. rewrite (proj2 (Z.leb_le _ _)) in Hr' by lia. done.
Qed.

(** * Sequences of edits *)

Inductive edit :=
| Create (reserved : R Z) (num : Z) (name : list Z) (kind : Z)
| Remove (num : Z) (name : list Z)
| Replace (old new : Z) (name : list Z) (kind : Z).

Definition edit_ok (e : edit) : Prop :=
  match e with
  | Create reserved num name kind => reserved <> Panic /\ zlen name <= 255 /\ fits 32 num /\ num <> 0 /\ known_type kind = true
  | Remove _ _ => True
  | Replace old new _ kind => old <> 0 /\ fits 32 new /\ new <> 0 /\ known_type kind = true
  end.

Definition run_edit (bs : Z) (t : DirectoryTree) (e : edit) : R DirectoryTree :=
  match e with
  | Create reserved num name kind => insert_into_directory t bs reserved num name kind
  | Remove num name => remove t num name
  | Replace old new name kind => replace t old new name kind
  end.

(** What an edit means for the map. *)
Definition spec_edit (m : dir_map) (e : edit) : R dir_map :=
  match e with
  | Create _ num name kind => match m !! name with Some _ => Err AlreadyExists | None => Ok (<[name := (num, kind)]> m) end
  | Remove num name => match m !! name with Some (n, _) => if n =? num then Ok (delete name m) else Err NotFound | None => Err NotFound end
  | Replace old new name kind => match m !! name with Some (n, _) => if n =? old then Ok (<[name := (new, kind)]> m) else Err NotFound | None => Err NotFound end
  end.

(** No room was left and the leaf could not be had. *)
Definition growth_failed (e : edit) (x : Error) : Prop := match e with Create (Err y) _ _ _ => x = y | _ => False end.

Lemma edit_refines bs t m e : holds t m -> 1024 <= bs <= 65536 -> bs mod 4 = 0 -> edit_ok e ->
  match run_edit bs t e, spec_edit m e with
  | Ok t', Ok m' => holds t' m'
  | Err x, Err y => x = y
  | Err x, Ok _ => growth_failed e x
  | _, _ => False
  end.
Proof.
  intros Hh Hb Hm He. destruct e as [reserved num name kind|num name|old new name kind]; cbn [run_edit spec_edit edit_ok growth_failed] in *.
  - destruct He as (H0 & H1 & H2 & H3 & H4). pose proof (insert_into_ok t m bs reserved num name kind Hh Hb Hm H0 H1 H2 H3 H4) as HI.
    destruct (insert_into_directory _ _ _ _ _ _) as [t'|x|]; [destruct HI as [-> ?]; done| |done]. destruct HI as [[[y ->] ->]|[-> ->]]; done.
  - pose proof (remove_entry_ok t m num name Hh) as HI. destruct (remove t num name) as [t'|x|]; [| |done].
    + destruct HI as [[ty ->] ?]. by rewrite Z.eqb_refl.
    + destruct HI as [-> Hno]. destruct (m !! name) as [[n ty]|]; [|done]. destruct (Z.eqb_spec n num) as [->|]; [|done]. by destruct (Hno ty).
  - destruct He as (H1 & H2 & H3 & H4). pose proof (replace_ok t m old new name kind Hh H1 H2 H3 H4) as HI. destruct (replace t old new name kind) as [t'|x|]; [| |done].
    + destruct HI as [[ty ->] ?]. by rewrite Z.eqb_refl.
    + destruct HI as [-> Hno]. destruct (m !! name) as [[n ty]|]; [|done]. destruct (Z.eqb_spec n old) as [->|]; [|done]. by destruct (Hno ty).
Qed.

(** The outcomes of the operations one after the other.  One that fails leaves the
    directory as it was, since the source drops the tree with the transaction. *)
Fixpoint run_edits (bs : Z) (t : DirectoryTree) (es : list edit) : list (option Error) * DirectoryTree :=
  match es with
  | [] => ([], t)
  | e :: es =>
      match run_edit bs t e with
      | Ok t' => let '(os, t') := run_edits bs t' es in (None :: os, t')
      | Err x => let '(os, t') := run_edits bs t es in (Some x :: os, t')
      | Panic => ([], t)
      end
  end.

(** The runs of the map: an operation may also fail because the directory is full
    and cannot grow. *)
Inductive spec_run : dir_map -> list edit -> list (option Error) -> dir_map -> Prop :=
| spec_nil m : spec_run m [] [] m
| spec_ok m e m1 es os m2 : spec_edit m e = Ok m1 -> spec_run m1 es os m2 -> spec_run m (e :: es) (None :: os) m2
| spec_err m e x es os m2 : spec_edit m e = Err x -> spec_run m es os m2 -> spec_run m (e :: es) (Some x :: os) m2
| spec_full m e x m1 es os m2 : spec_edit m e = Ok m1 -> growth_failed e x -> spec_run m es os m2 -> spec_run m (e :: es) (Some x :: os) m2.

Lemma edits_refine bs es : forall t m, holds t m -> 1024 <= bs <= 65536 -> bs mod 4 = 0 -> Forall edit_ok es ->
  exists m', spec_run m es (run_edits bs t es).1 m' /\ holds (run_edits bs t es).2 m'.
Proof.
  induction es as [|e es IH]; intros t m Hh Hb Hm Hes; [exists m; by split; [constructor|]|]. inversion_clear Hes as [|? ? He Hes']. cbn [run_edits].
  pose proof (edit_refines bs t m e Hh Hb Hm He) as HR. destruct (run_edit bs t e) as [t'|x|]; [| |done].
  - destruct (spec_edit m e) as [m1| |] eqn:Es; [|done|done]. destruct (IH t' m1 HR Hb Hm Hes') as (m' & H1 & H2). destruct (run_edits bs t' es). exists m'. split; [by eapply spec_ok|done].
  - destruct (IH t m Hh Hb Hm Hes') as (m' & H1 & H2). destruct (run_edits bs t es). exists m'. split; [|done]. destruct (spec_edit m e) eqn:Es; [by eapply spec_full|subst; by eapply spec_err|done].
Qed.

(** The answer of [find] is that of the map. *)
Lemma find_lookup t m name : holds t m -> exists r, find t name = Ok r /\ snd <$> r = fst <$> m !! name.
Proof.
  intros Hh. pose proof (find_ok t m name Hh) as Hf. destruct (find t name) as [[[i num]|]| |]; [| |done|done]; eexists; (split; [done|]).
  - by destruct Hf as [[ty ->] _].
  - by rewrite Hf.
Qed.

(** ** A new directory *)

Definition dot : list Z := [0x2e].
Definition dotdot : list Z := [0x2e; 0x2e].

(** What [create_directory] writes into its first block. *)
Definition new_directory (seed : Z) (inode : Inode) (parent bs block : Z) : R DirectoryTree :=
  b ← initialize_directory_block seed (number inode) (generation inode) parent (zeros bs);
  Ok (mkTree seed inode [mkNode 0 Leaf block b true]).

Definition empty_map (self parent : Z) : dir_map := {[ dot := (self, 2); dotdot := (parent, 2) ]}.

Lemma new_directory_ok seed inode parent bs block : has_flag (flags inode) DIRECTORY_INDEX_FL = false -> 1024 <= bs <= 65536 -> bs mod 4 = 0 ->
  fits 32 (number inode) -> number inode <> 0 -> fits 32 parent -> parent <> 0 ->
  exists t, new_directory seed inode parent bs block = Ok t /\ holds t (empty_map (number inode) parent).
Proof.
  intros Hx Hb Hm Hn Hn0 Hp Hp0. unfold new_directory. pose proof (length_zeros bs ltac:(lia)) as Hz.
  destruct (first_block_ok seed inode parent (zeros bs) ltac:(lia) ltac:(by rewrite Hz) Hn Hn0 Hp Hp0) as (b & rs & -> & Hlf & Hlv). cbn [mbind R_bind].
  eexists. split; [done|]. split; [done|]. exists [rs]. unfold entries_of. cbn [fmap list_fmap concat]. rewrite app_nil_r, Hlv. split_and!.
  - constructor; [by split|constructor].
  - cbn. apply list.NoDup_cons. split; [by rewrite list_elem_of_singleton|apply NoDup_singleton].
  - done.
Qed.

(** C8: the operations on a directory made by [create_directory] refine those of a
    map from names to inode and type.  The directory is linear; the names inserted
    have at most 255 bytes, inodes are not zero and types are known.  Whatever
    sequence of such insertions, of removals and of replacements runs on it, and whether or not the directory could grow for
    the insertions that needed it, no operation panics, every operation succeeds
    or fails with the error of the map, except that an insertion of a new name
    may fail with the error of the growth, and afterwards looking up any name gives
    what the map holds for it. *)
Theorem directory_edits_refine seed inode parent bs block es :
  has_flag (flags inode) DIRECTORY_INDEX_FL = false -> 1024 <= bs <= 65536 -> bs mod 4 = 0 ->
  fits 32 (number inode) -> number inode <> 0 -> fits 32 parent -> parent <> 0 -> Forall edit_ok es ->
  exists t m, new_directory seed inode parent bs block = Ok t /\
    spec_run (empty_map (number inode) parent) es (run_edits bs t es).1 m /\
    length (run_edits bs t es).1 = length es /\
    forall name, exists r, find (run_edits bs t es).2 name = Ok r /\ snd <$> r = fst <$> m !! name.
Proof.
  intros Hx Hb Hm Hn Hn0 Hp Hp0 Hes. destruct (new_directory_ok seed inode parent bs block Hx Hb Hm Hn Hn0 Hp Hp0) as (t & Ht & Hh).
  destruct (edits_refine bs es t _ Hh Hb Hm Hes) as (m & Hs & Hh'). exists t, m. split_and!; [done|done| |intros name; by apply find_lookup].
  clear -Hs. induction Hs; cbn; congruence.
Qed.

(** * Listing *)

Definition hidden (nm : list Z) : bool := bool_decide (nm ∈ [dot; dotdot]).

Section Listing.
Context (fs : Ext4) (s : Storage) (ino_of : Z -> Inode).

(** An entry as the reader returns it. *)
Definition listed (e : entry) : DirectoryEntry := mkEntry e.1 e.2.2 (ino_of e.2.1).
Definition shown (es : list entry) : list DirectoryEntry := listed <$> filter (fun e => hidden e.1 = false) es.

Lemma shown_cons e es : shown (e :: es) = if hidden e.1 then shown es else listed e :: shown es.
Proof. unfold shown. rewrite filter_cons. destruct (hidden e.1); [by rewrite decide_False|by rewrite decide_True]. Qed.
Lemma shown_app es es' : shown (es ++ es') = shown es ++ shown es'.
Proof. unfold shown. by rewrite filter_app, fmap_app. Qed.

Definition inodes_load (es : list entry) : Prop := forall e, e ∈ es -> hidden e.1 = false -> load_inode fs s e.2.1 = Ok (ino_of e.2.1).

Lemma scan_entries_ok base max rs : forall fuel pre post out, Forall rec_ok rs -> (length rs < fuel)%nat -> inodes_load (live rs) -> zlen out + zlen (shown (live rs)) < max ->
  scan_entries fs fuel s false base (pre ++ concat rs ++ post) (zlen pre + zlen (concat rs)) 0 (zlen pre) true max out = Ok (out ++ shown (live rs), true, None).
Proof.
  induction rs as [|r rs IH]; intros fuel pre post out Hrs Hfuel Hld Hmax; (destruct fuel as [|fuel]; [cbn in Hfuel; lia|]); cbn [scan_entries].
  - cbn [concat length]. rewrite (proj2 (Z.ltb_ge _ _)) by lia. cbn. by rewrite app_nil_r.
  - inversion_clear Hrs as [|? ? Hr Hrs']. pose proof Hr as [R1 R2 R3 R4]. cbn [concat]. rewrite <- app_assoc, length_app.
    rewrite (proj2 (Z.ltb_lt _ _)), (proj2 (Z.ltb_ge _ 8)) by lia. cbn [negb]. unfold le32, le16, byte_at.
    rewrite <- (Z.add_0_r (zlen pre)) at 1. rewrite !field_mid by lia. cbn [mbind R_bind]. rewrite R3. fold (r_nlen r) (r_ino r) (r_type r).
    rewrite (proj2 (Z.ltb_ge (zlen r) 8)), R2, (proj2 (Z.ltb_ge _ (zlen r))), (proj2 (Z.ltb_ge (zlen r - 8) _)) by lia. cbn [negb orb Z.eqb].
    rewrite name_mid by done. cbn [mbind R_bind]. rewrite (proj2 (Z.leb_le 0 _)) by lia. cbn [andb orb].
    replace (pre ++ r ++ concat rs ++ post) with ((pre ++ r) ++ concat rs ++ post) by (by rewrite <- app_assoc).
    replace (zlen pre + zlen r) with (zlen (pre ++ r)) by (rewrite length_app; lia).
    replace (zlen pre + Z.of_nat (length r + length (concat rs))) with (zlen (pre ++ r) + zlen (concat rs)) by (rewrite length_app; lia).
    rewrite live_cons in Hld, Hmax |- *. unfold as_entry in *. destruct (r_ino r =? 0); cbn [negb andb]; [apply IH; (done || cbn in Hfuel; lia)|].
    rewrite shown_cons in Hmax |- *. cbn [fst] in *. change (bool_decide (r_name r ∈ [[46]; [46; 46]])) with (hidden (r_name r)).
    assert (inodes_load (live rs)) as Hld' by (intros e He; apply Hld; by right). destruct (hidden (r_name r)) eqn:Eh; cbn [negb]; [apply IH; (done || cbn in Hfuel; lia)|].
    pose proof (Hld (r_name r, (r_ino r, r_type r)) ltac:(left) Eh) as Hi. cbn [fst snd] in Hi. rewrite Hi. cbn [mbind R_bind fst snd length] in *. rewrite length_app. cbn [length]. rewrite (proj2 (Z.eqb_neq _ _)) by lia.
    rewrite IH; [by rewrite <- app_assoc|done|cbn in Hfuel; lia|done|rewrite length_app; cbn [length]; lia].
Qed.

Context (directory : Inode) (bs max : Z).
Hypothesis Hmeta : has_metadata_checksums (superblock fs) = true.
Hypothesis Hlinear : has_flag (flags directory) DIRECTORY_INDEX_FL = false.
Hypothesis Hbs : block_size (superblock fs) = bs.

(** A leaf of the tree as the reader sees it. *)
Definition readable (rs : list (list Z)) (b : list Z) : Prop := leaf (checksum_seed (superblock fs)) directory rs b /\ zlen b = bs.

Lemma list_blocks_ok recs : forall blocks logical out, Forall2 readable recs blocks -> 1024 <= bs -> 0 <= logical -> (logical + zlen blocks) * bs < 2 ^ 64 ->
  (forall i b, blocks !! i = Some b -> read_inode_data fs s directory ((logical + Z.of_nat i) * bs) bs = Ok b) ->
  inodes_load (entries_of recs) -> zlen out + zlen (shown (entries_of recs)) < max ->
  list_blocks fs (length blocks) s directory 0 max logical out = Ok (out ++ shown (entries_of recs), None).
Proof.
  induction recs as [|rs recs IH]; intros blocks logical out Hf Hb Hlo Hhi Hrd Hld Hmax.
  - apply Forall2_nil_inv_l in Hf as ->. cbn. by rewrite app_nil_r.
  - apply Forall2_cons_inv_l in Hf as (b & blocks' & [Hlf Hz] & Hf & ->). cbn [length list_blocks] in *. rewrite Hbs. pose proof (Hrd 0%nat b eq_refl) as H0. rewrite Z.add_0_r in H0.
    unfold checked at 1. rewrite (proj2 (Z.leb_le _ _)) by (unfold U64_MAX; nia). cbn [mbind R_bind]. rewrite H0. cbn [mbind R_bind]. rewrite Hz, Z.sub_diag. change (zeros 0) with (@nil Z). rewrite app_nil_r.
    unfold directory_block_kind. rewrite Hlinear, Hmeta. cbn [negb mbind R_bind andb].
    pose proof (verify_leaf _ _ fs rs b Hlf eq_refl) as Hv. rewrite Hz in Hv. rewrite Hv. cbn [mbind R_bind]. rewrite (proj2 (Z.ltb_ge bs 12)) by lia.
    rewrite Zdiv_0_l, Zmod_0_l. assert ((if logical =? 0 then 0 else 0) = 0) as -> by (by destruct (logical =? 0)). rewrite Z.eqb_refl.
    destruct Hlf as [L1 L2 (tl & -> & Ht & Hc)]. pose proof (tl_len _ Ht) as Hl. rewrite length_app in Hz. rewrite entries_cons, shown_app in *. rewrite length_app in Hmax.
    pose proof (concat_min rs L1) as Hmin. pose proof (scan_entries_ok (logical * bs) max rs (S (length (concat rs ++ tl))) [] tl out L1) as Hs. cbn [app length] in Hs.
    change (Z.of_nat 0) with 0 in Hs. rewrite Z.add_0_l in Hs. replace (bs - 12) with (zlen (concat rs)) by lia. rewrite Hs; [|rewrite length_app; lia|intros e He; apply Hld, elem_of_app; by left|lia].
    cbn [mbind R_bind negb]. rewrite andb_false_r. rewrite IH; [by rewrite <- app_assoc|done|lia|lia|lia| |intros e He; apply Hld, elem_of_app; by right|rewrite length_app; lia].
    intros i b Hi. replace (logical + 1 + Z.of_nat i) with (logical + Z.of_nat (S i)) by lia. by apply Hrd.
Qed.
End Listing.

Lemma leaf_same seed d d' rs b : number d = number d' -> generation d = generation d' -> leaf seed d rs b -> leaf seed d' rs b.
Proof. intros En Eg [L1 L2 (tl & ? & ? & Hc)]. split; [done|done|]. exists tl. split_and!; [done|done|]. rewrite Hc. unfold body_sum. by rewrite En, Eg. Qed.

(** C9: reading gives back what the edits wrote.  Where the blocks of a linear
    directory hold the map [m], and the storage has these blocks and the inodes
    of the entries, listing the directory from its start passes every checksum and
    gives exactly the entries of [m], each once with its type and inode, but for
    the two dot entries. *)
Theorem directory_listing fs s ino_of t m directory bs max :
  holds t m -> dt_seed t = checksum_seed (superblock fs) -> number directory = number (dt_inode t) -> generation directory = generation (dt_inode t) ->
  has_metadata_checksums (superblock fs) = true -> block_size (superblock fs) = bs -> 1024 <= bs ->
  refresh fs s directory = Ok directory -> is_directory directory = true -> has_flag (flags directory) DIRECTORY_INDEX_FL = false -> has_flag (flags directory) INLINE_DATA_FL = false ->
  size directory = zlen (dt_nodes t) * bs -> size directory < 2 ^ 64 ->
  (forall i node, dt_nodes t !! i = Some node -> zlen (dn_bytes node) = bs /\ read_inode_data fs s directory (Z.of_nat i * bs) bs = Ok (dn_bytes node)) ->
  (forall name num ty, m !! name = Some (num, ty) -> name <> dot -> name <> dotdot -> load_inode fs s num = Ok (ino_of num)) -> Z.of_nat (base.size m) < max ->
  exists out, list_directory fs s directory 0 max = Ok (out, None) /\ out ≡ₚ shown ino_of (map_to_list m).
Proof.
  intros [_ (recs & Hn & Hd & ->)] Hseed En Eg Hmeta Hbs Hb Href Hdir Hlin Hinl Hsz Hsz64 Hrd Hld Hmax.
  assert (entries_of recs ≡ₚ map_to_list (list_to_map (entries_of recs) : dir_map)) as Hp by (symmetry; by apply map_to_list_to_map).
  exists (shown ino_of (entries_of recs)). split; [|unfold shown; by rewrite Hp at 1].
  unfold list_directory. assert (zlen (shown ino_of (entries_of recs)) < max) as Hlen.
  { unfold shown. rewrite length_fmap. pose proof (length_filter (fun e : entry => hidden e.1 = false) (entries_of recs)) as Hle. rewrite Hp in Hle at 2. rewrite length_map_to_list in Hle. lia. }
  rewrite (proj2 (Z.eqb_neq max 0)) by lia. rewrite Href. cbn [mbind R_bind]. rewrite Hdir, Hinl. cbn [negb]. rewrite (proj2 (Z.ltb_ge (size directory) 0)) by nia. rewrite Hbs, Zdiv_0_l.
  assert (Z.to_nat (div_ceil (size directory) bs - 0) = length (dn_bytes <$> dt_nodes t)) as ->.
  { rewrite length_fmap, Hsz. unfold div_ceil. replace (zlen (dt_nodes t) * bs + bs - 1) with (bs - 1 + zlen (dt_nodes t) * bs) by lia. rewrite Z.div_add, Z.div_small by lia. lia. }
  rewrite <- (app_nil_l (shown ino_of (entries_of recs))). apply (list_blocks_ok fs s ino_of directory bs max Hmeta Hlin Hbs); [|lia|lia| | | |done].
  - clear -Hn Hseed En Eg Hrd. apply Forall2_fmap_r. apply Forall2_same_length_lookup_2; [by eapply Forall2_length|].
    intros i rs node Hr Hnode. destruct (Forall2_lookup_lr _ _ _ _ _ _ Hn Hr Hnode) as [_ Hlf]. split; [|by apply (Hrd i)]. rewrite Hseed in Hlf. by eapply leaf_same.
  - rewrite length_fmap. lia.
  - intros i b Hi. rewrite list_lookup_fmap in Hi. apply fmap_Some in Hi as (node & Hi & ->). by apply Hrd.
  - intros [name [num ty]] He Hh. cbn in *. apply (Hld name num ty); [by apply elem_of_list_to_map_1| |]; intros ->; by vm_compute in Hh.
Qed.

(** * Empty directories *)

Section Empty.
Context (self parent : Z).

(** The entries of a directory without the index, for [validate_empty]. *)
Fixpoint dots (es : list entry) (seen : bool * bool) : option (bool * bool) :=
  match es with
  | [] => Some seen
  | (nm, (num, _)) :: es =>
      if bool_decide (nm = dot) && negb (fst seen) && (num =? self) then dots es (true, snd seen)
      else if bool_decide (nm = dotdot) && negb (snd seen) && (num =? parent) then dots es (fst seen, true)
      else None
  end.

Lemma dots_app es es' seen : dots (es ++ es') seen = seen ← dots es seen; dots es' seen.
Proof. revert seen. induction es as [|[nm [num ty]] es IH]; intros seen; [done|]. cbn. by repeat case_match. Qed.

Lemma empty_scan_ok rs : forall fuel pre post seen, Forall rec_ok rs -> (length rs < fuel)%nat ->
  empty_scan fuel self parent false (pre ++ concat rs ++ post) (zlen pre + zlen (concat rs)) (zlen pre) seen = match dots (live rs) seen with Some x => Ok x | None => Err NotEmpty end.
Proof.
  induction rs as [|r rs IH]; intros fuel pre post seen Hrs Hfuel; (destruct fuel as [|fuel]; [cbn in Hfuel; lia|]); cbn [empty_scan].
  - cbn [concat length]. by rewrite (proj2 (Z.ltb_ge _ _)) by lia.
  - inversion_clear Hrs as [|? ? Hr Hrs']. pose proof Hr as [R1 _ _ _]. cbn [concat]. rewrite <- app_assoc, length_app.
    rewrite (proj2 (Z.ltb_lt _ _)) by lia. cbn [negb]. rewrite record_at_mid by (done || lia). cbn [mbind R_bind]. rewrite name_mid by done. cbn [mbind R_bind].
    replace (pre ++ r ++ concat rs ++ post) with ((pre ++ r) ++ concat rs ++ post) by (by rewrite <- app_assoc).
    replace (zlen pre + zlen r) with (zlen (pre ++ r)) by (rewrite length_app; lia).
    replace (zlen pre + Z.of_nat (length r + length (concat rs))) with (zlen (pre ++ r) + zlen (concat rs)) by (rewrite length_app; lia).
    rewrite live_cons. unfold as_entry. destruct (r_ino r =? 0); [apply IH; (done || cbn in Hfuel; lia)|]. cbn [dots]. rewrite !andb_true_r. fold dotdot. fold dot.
    destruct (bool_decide (r_name r = dot) && negb seen.1 && (r_ino r =? self)); [apply IH; (done || cbn in Hfuel; lia)|].
    destruct (bool_decide (r_name r = dotdot) && negb seen.2 && (r_ino r =? parent)); [apply IH; (done || cbn in Hfuel; lia)|done].
Qed.

Lemma empty_nodes_ok t recs : forall nodes seen, Forall2 (node_ok t) recs nodes ->
  empty_nodes self parent false nodes seen = match dots (entries_of recs) seen with Some x => Ok x | None => Err NotEmpty end.
Proof.
  induction recs as [|rs recs IH]; intros nodes seen Hn; [by apply Forall2_nil_inv_l in Hn as ->|].
  apply Forall2_cons_inv_l in Hn as (n & nodes' & [Hk Hlf] & Hn & ->). cbn [empty_nodes]. unfold is_leaf. rewrite Hk. cbn [negb].
  destruct Hlf as [L1 L2 (tl & -> & Ht & Hc)]. rewrite leaf_tail_ok by (by apply tl_len). cbn [mbind R_bind]. pose proof (concat_min rs L1) as Hmin. pose proof (tl_len _ Ht) as Hl.
  pose proof (empty_scan_ok rs (S (length (concat rs ++ tl))) [] tl seen L1 ltac:(rewrite length_app; lia)) as Hs. cbn [app length] in Hs. change (Z.of_nat 0) with 0 in Hs.
  rewrite Z.add_0_l in Hs. rewrite Hs, entries_cons, dots_app. destruct (dots (live rs) seen) as [seen'|]; [|done]. cbn [mbind R_bind option_bind]. by apply IH.
Qed.

(** The entries are the two dots. *)
Definition good (e : entry) : Prop := e.1 = dot /\ e.2.1 = self \/ e.1 = dotdot /\ e.2.1 = parent.

Lemma dots_good es : forall seen, NoDup es.*1 -> (seen.1 = true -> dot ∉ es.*1) -> (seen.2 = true -> dotdot ∉ es.*1) -> Forall good es ->
  dots es seen = Some (seen.1 || bool_decide (dot ∈ es.*1), seen.2 || bool_decide (dotdot ∈ es.*1)).
Proof.
  assert (forall (P Q : Prop) `{Decision P} `{Decision Q}, (P <-> Q) -> bool_decide P = bool_decide Q) as Hbd by (intros; by apply bool_decide_ext).
  induction es as [|[nm [num ty]] es IH]; intros seen Hd H1 H2 Hg; [cbn; rewrite !orb_false_r; by destruct seen|]. cbn [fmap list_fmap fst] in *. apply list.NoDup_cons in Hd as [Hni Hd].
  inversion_clear Hg as [|? ? Hg0 Hg']. cbn [dots]. destruct Hg0 as [[E1 E2]|[E1 E2]]; cbn in E1, E2; subst nm num; rewrite Z.eqb_refl.
  - assert (seen.1 = false) as E by (destruct seen.1; [|done]; exfalso; apply H1; [done|left]). rewrite E. cbn [negb andb bool_decide]. rewrite (bool_decide_eq_true_2 (dot = dot)) by done. cbn [andb].
    rewrite IH; cbn [fst snd]; [|done|done|intros E2 Hin; apply H2; [done|by right]|done]. rewrite (bool_decide_eq_true_2 (dot ∈ dot :: es.*1)) by left. cbn [orb]. do 2 f_equal.
    f_equal. apply Hbd. rewrite elem_of_cons. split; [by right|intros [|]; done].
  - assert (seen.2 = false) as E by (destruct seen.2; [|done]; exfalso; apply H2; [done|left]). rewrite E. rewrite (bool_decide_eq_false_2 (dotdot = dot)) by done. cbn [negb andb].
    rewrite (bool_decide_eq_true_2 (dotdot = dotdot)) by done. cbn [andb].
    rewrite IH; cbn [fst snd]; [|done|intros E2 Hin; apply H1; [done|by right]|done|done]. rewrite (bool_decide_eq_true_2 (dotdot ∈ dotdot :: es.*1)) by left. cbn [orb]. do 2 f_equal.
    f_equal. apply Hbd. rewrite elem_of_cons. split; [by right|intros [|]; done].
Qed.

Lemma dots_Some es : forall seen seen', dots es seen = Some seen' -> Forall good es.
Proof.
  induction es as [|[nm [num ty]] es IH]; intros seen seen' Hd; [constructor|]. cbn [dots] in Hd.
  destruct (bool_decide (nm = dot) && negb seen.1 && (num =? self)) eqn:E1.
  - constructor; [|by eapply IH]. left. rewrite !andb_true_iff, bool_decide_eq_true, Z.eqb_eq in E1. tauto.
  - destruct (bool_decide (nm = dotdot) && negb seen.2 && (num =? parent)) eqn:E2; [|done].
    constructor; [|by eapply IH]. right. rewrite !andb_true_iff, bool_decide_eq_true, Z.eqb_eq in E2. tauto.
Qed.

Lemma good_map es : NoDup es.*1 -> Forall good es /\ dot ∈ es.*1 /\ dotdot ∈ es.*1 <-> fst <$> (list_to_map es : dir_map) = {[ dot := self; dotdot := parent ]}.
Proof.
  intros Hd. assert (forall nm num, (fst <$> (list_to_map es : dir_map)) !! nm = Some num <-> exists ty, (nm, (num, ty)) ∈ es) as Hl.
  { intros nm num. rewrite lookup_fmap, fmap_Some. setoid_rewrite <- elem_of_list_to_map; [|done]. split; [intros ([n ty] & H1 & ->); by exists ty|intros [ty H1]; by exists (num, ty)]. }
  split.
  - intros (Hg & H1 & H2). rewrite list.Forall_forall in Hg. apply map_eq. intros nm. apply option_eq. intros num. rewrite Hl, lookup_insert_Some, lookup_singleton_Some.
    split; [intros [ty He]; destruct (Hg _ He) as [[E1 E2]|[E1 E2]]; cbn in E1, E2; subst; [by left|by right]|]. intros [[<- <-]|(_ & <- & <-)].
    + apply list_elem_of_fmap in H1 as ([nm [n ty]] & E & He). cbn in E. subst nm. destruct (Hg _ He) as [[_ E]|[E _]]; [|done]. cbn in E. subst n. by exists ty.
    + apply list_elem_of_fmap in H2 as ([nm [n ty]] & E & He). cbn in E. subst nm. destruct (Hg _ He) as [[E _]|[_ E]]; [done|]. cbn in E. subst n. by exists ty.
  - intros Hm. rewrite Hm in Hl. split_and!.
    + rewrite list.Forall_forall. intros [nm [num ty]] He. pose proof (proj2 (Hl nm num) (ex_intro _ ty He)) as E. unfold good. cbn [fst snd].
      apply lookup_insert_Some in E as [[E1 E2]|(_ & E)]; [by left|]. apply lookup_singleton_Some in E as [E1 E2]. by right.
    + destruct (proj1 (Hl dot self) ltac:(by rewrite lookup_insert_eq)) as [ty He]. apply list_elem_of_fmap. by exists (dot, (self, ty)).
    + destruct (proj1 (Hl dotdot parent) ltac:(by rewrite lookup_insert_ne)) as [ty He]. apply list_elem_of_fmap. by exists (dotdot, (parent, ty)).
Qed.
End Empty.

(** A directory may be removed exactly when it is empty: [validate_empty]
    accepts a linear directory if and only if its entries are [.] for the
    directory itself and [..] for the given parent, and nothing else; it never
    panics. *)
Theorem validate_empty_iff t m parent : holds t m ->
  validate_empty t parent <> Panic /\ (validate_empty t parent = Ok tt <-> fst <$> m = {[ dot := number (dt_inode t); dotdot := parent ]}).
Proof.
  intros [Hx (recs & Hn & Hd & ->)]. unfold validate_empty. rewrite Hx. cbn [mbind R_bind]. rewrite (empty_nodes_ok _ _ t recs) by done. rewrite <- good_map by done.
  destruct (decide (Forall (good (number (dt_inode t)) parent) (entries_of recs))) as [Hg|Hg].
  - rewrite dots_good by done. cbn [mbind R_bind fst snd orb]. destruct (bool_decide_reflect (dot ∈ (entries_of recs).*1)), (bool_decide_reflect (dotdot ∈ (entries_of recs).*1)); cbn; (split; [done|]); naive_solver.
  - destruct (dots _ _ _ _) as [seen|] eqn:E; [by apply dots_Some in E|]. cbn. split; [done|]. split; [done|]. tauto.
Qed.

(** * The parent of a directory that is moved *)

Lemma entry_fields r nm num ty : as_entry r = Some (nm, (num, ty)) -> r_ino r = num /\ num <> 0 /\ r_name r = nm /\ r_type r = ty.
Proof. unfold as_entry. destruct (Z.eqb_spec (r_ino r) 0); [done|]. intros [= <- <- <-]. done. Qed.

Lemma name_length r nm : rec_ok r -> r_name r = nm -> r_nlen r = zlen nm.
Proof.
  intros [R1 R2 R3 R4] <-. unfold r_name. pose proof (field_range r 6 1 ltac:(lia) ltac:(lia) ltac:(lia)) as Hn. fold (r_nlen r) in Hn. symmetry. apply length_sl; lia.
Qed.

(** The first block of a directory starts with the two dots. *)
Definition headed (self old : Z) (rs : list (list Z)) : Prop :=
  exists r1 r2 rest, rs = r1 :: r2 :: rest /\ as_entry r1 = Some (dot, (self, 2)) /\ as_entry r2 = Some (dotdot, (old, 2)) /\ 12 <= zlen r1 /\ 12 <= zlen r2.

Lemma parent_entry_ok r1 r2 post self old : rec_ok r1 -> rec_ok r2 -> as_entry r1 = Some (dot, (self, 2)) -> as_entry r2 = Some (dotdot, (old, 2)) -> 12 <= zlen r1 -> 12 <= zlen r2 ->
  directory_parent_entry (r1 ++ r2 ++ post) self = Ok old.
Proof.
  intros H1 H2 E1 E2 Z1 Z2. destruct (entry_fields _ _ _ _ E1) as (I1 & _ & N1 & T1). destruct (entry_fields _ _ _ _ E2) as (I2 & I2' & N2 & T2).
  pose proof (name_length r1 _ H1 N1) as L1. pose proof (name_length r2 _ H2 N2) as L2. destruct H1 as [_ _ R1 _], H2 as [_ _ R2 _].
  assert (forall k n, 0 <= k -> 0 <= n -> k + n <= zlen r1 -> from_le_bytes <$> slice (r1 ++ r2 ++ post) k n = Ok (field r1 k n)) as F1.
  { intros k n ? ? ?. rewrite <- (Z.add_0_l k). apply (field_mid [] r1 (r2 ++ post)); lia. }
  unfold directory_parent_entry, le32, le16, byte_at. rewrite (proj2 (Z.ltb_ge _ 24)) by (rewrite !length_app; lia). rewrite !F1 by lia. cbn [mbind R_bind].
  fold (r_ino r1) (r_nlen r1) (r_type r1). rewrite I1, Z.eqb_refl, R1, L1, T1. cbn [negb]. rewrite (proj2 (Z.ltb_ge (zlen r1) 12)) by lia.
  assert (field r1 8 1 = 46) as ->.
  { assert (sl r1 8 1 = dot) as Hs by (rewrite <- N1; unfold r_name; by rewrite L1). unfold field. rewrite Hs. done. }
  cbn [length dot Z.of_nat Pos.of_succ_nat Z.eqb Pos.eqb negb orb]. rewrite (proj2 (Z.ltb_ge _ (zlen r1 + 10))) by (rewrite !length_app; lia).
  rewrite <- (Z.add_0_r (zlen r1)) at 1. rewrite !field_mid by lia. cbn [mbind R_bind]. fold (r_ino r2) (r_nlen r2) (r_type r2).
  rewrite I2, (proj2 (Z.eqb_neq old 0)), R2, (proj2 (Z.ltb_ge (zlen r2) 12)), L2, T2 by done. cbn [length dotdot Z.of_nat Pos.of_succ_nat Pos.succ Z.eqb Pos.eqb negb orb].
  rewrite slice_ok by (rewrite ?length_app; lia). rewrite sl_mid by lia. cbn [mbind R_bind]. assert (sl r2 8 2 = dotdot) as -> by (rewrite <- N2; unfold r_name; by rewrite L2). done.
Qed.

(** A record with another inode. *)
Lemma renumber_record r new : rec_ok r -> fits 32 new -> new <> 0 ->
  let p := splice r 0 (to_le_bytes 4 new) in zlen p = zlen r /\ rec_ok p /\ as_entry p = Some (r_name r, (new, r_type r)).
Proof.
  intros [R1 R2 R3 R4] Hn Hn0 p. pose proof (length_to_le_bytes 4 new) as Hl. pose proof (field_range r 6 1 ltac:(lia) ltac:(lia) ltac:(lia)) as Hnl. fold (r_nlen r) in Hnl.
  assert (zlen p = zlen r) as Lp by (unfold p; rewrite length_splice; lia). assert (forall o n, 4 <= o -> 0 <= n -> sl p o n = sl r o n) as Hsl by (intros; apply sl_splice_out; lia).
  assert (r_nlen p = r_nlen r) as En by (unfold r_nlen, field; by rewrite Hsl by lia). assert (r_ino p = new) as Ei by (apply (field_le r 0 4); [lia|lia|]; unfold fits in Hn; cbn; lia).
  split_and!; [done| |].
  - split; [lia|by rewrite Lp| |rewrite En; lia]. rewrite Lp. unfold field. by rewrite Hsl by lia.
  - unfold as_entry. rewrite Ei, (proj2 (Z.eqb_neq new 0)) by done. unfold r_name, r_type, field. by rewrite En, !Hsl by lia.
Qed.

Lemma replace_parent_leaf seed dir rs b old new : leaf seed dir rs b -> headed (number dir) old rs -> fits 32 new -> new <> 0 ->
  exists b' rs', replace_directory_parent seed dir b old new = Ok b' /\ leaf seed dir rs' b' /\ zlen b' = zlen b /\ headed (number dir) new rs' /\
    exists rest, live rs ≡ₚ (dotdot, (old, 2)) :: rest /\ live rs' ≡ₚ (dotdot, (new, 2)) :: rest.
Proof.
  intros [L1 L2 (tl & -> & Ht & Hc)] (r1 & r2 & rest & -> & E1 & E2 & Z1 & Z2) Hn Hn0. pose proof (tl_len _ Ht) as Hl. rewrite length_app in L2.
  inversion_clear L1 as [|? ? Hr1 Hrs]. inversion_clear Hrs as [|? ? Hr2 Hrest]. destruct (entry_fields _ _ _ _ E2) as (I2 & I20 & N2 & T2).
  assert (concat (r1 :: r2 :: rest) ++ tl = r1 ++ r2 ++ (concat rest ++ tl)) as Eb by (cbn [concat]; by rewrite <- !app_assoc).
  unfold replace_directory_parent. rewrite Eb, (parent_entry_ok r1 r2 _ (number dir) old) by done. cbn [mbind R_bind]. rewrite Z.eqb_refl, (proj2 (Z.eqb_neq new 0)) by done. cbn [negb orb].
  pose proof Hr1 as [_ _ R1 _]. pose proof (field_mid [] r1 (r2 ++ concat rest ++ tl) 4 2 ltac:(lia) ltac:(lia) ltac:(lia)) as F. cbn [app length] in F. change (Z.of_nat 0 + 4) with 4 in F.
  unfold le16. rewrite F, R1. cbn [mbind R_bind]. rewrite put_le32_mid by lia. cbn [mbind R_bind].
  destruct (renumber_record r2 new Hr2 Hn Hn0) as (P1 & P2 & P3). set (p := splice r2 0 (to_le_bytes 4 new)) in *. rewrite T2, N2 in P3.
  assert (r1 ++ p ++ concat rest ++ tl = concat (r1 :: p :: rest) ++ tl) as Eb' by (cbn [concat]; by rewrite <- !app_assoc). rewrite Eb', leaf_tail_ok by done. cbn [mbind R_bind].
  assert (zlen (concat (r1 :: p :: rest)) = zlen (concat (r1 :: r2 :: rest))) as Ez by (cbn [concat]; rewrite !length_app; lia).
  destruct (reseal seed dir (r1 :: r2 :: rest) (r1 :: p :: rest) tl) as (b' & Hb' & Hlf & Hzb); [constructor; [done|by constructor]|done|lia|done|]. rewrite <- Ez in Hb'. rewrite Hb'.
  exists b', (r1 :: p :: rest). split_and!; [done|done|by rewrite Hzb, Eb|exists r1, p, rest; by rewrite P1|].
  exists ((dot, (number dir, 2)) :: live rest). rewrite !live_cons, E1, E2, P3. split; apply perm_swap.
Qed.

(** Moving a directory changes the inode of [..] and nothing else. *)
Lemma set_parent_ok t m rs recs nodes node old new : has_flag (flags (dt_inode t)) DIRECTORY_INDEX_FL = false ->
  Forall2 (node_ok t) (rs :: recs) (dt_nodes t) -> NoDup (entries_of (rs :: recs)).*1 -> m = list_to_map (entries_of (rs :: recs)) ->
  dt_nodes t = node :: nodes -> dn_logical node = 0 -> headed (number (dt_inode t)) old rs -> fits 32 new -> new <> 0 ->
  exists t', set_parent t old new = Ok t' /\ holds t' (<[dotdot := (new, 2)]> m).
Proof.
  intros Hx Hn Hd -> Hnode Hlog Hhead Hnew Hnew0. pose proof Hn as Hn'. rewrite Hnode in Hn'. apply Forall2_cons in Hn' as [[Hk Hlf] _].
  destruct (replace_parent_leaf _ _ rs (dn_bytes node) old new Hlf Hhead Hnew Hnew0) as (b' & rs' & Hrep & Hlf' & _ & _ & rest0 & Hp & Hp').
  unfold set_parent. rewrite Hnode. cbn [list_find]. rewrite decide_True, Hk by done. unfold edit_node. rewrite Hnode. cbn [lookup list_lookup]. rewrite Hrep. cbn [mbind R_bind].
  eexists. split; [done|]. rewrite <- Hnode.
  destruct (entries_split (rs :: recs) 0 rs eq_refl) as (rest & He & He'). specialize (He' rs'). rewrite Hp in He. rewrite Hp' in He'. cbn [app] in He, He'.
  assert (NoDup ((dotdot, (old, 2)) :: rest0 ++ rest).*1) as Hd2 by (by rewrite <- He). cbn [fmap list_fmap fst] in Hd2.
  assert (NoDup (entries_of (<[0%nat := rs']> (rs :: recs))).*1) as Hd3 by (by rewrite He').
  eapply (holds_edit t (rs :: recs) 0 rs node rs' b'); try done; [by rewrite Hnode|].
  rewrite (list_to_map_proper (M := gmap (list Z)) _ _ Hd3 He'), (list_to_map_proper (M := gmap (list Z)) _ _ Hd He), !list_to_map_cons. apply insert_insert_eq.
Qed.
End Directory.

(** * A directory with one subdirectory and one file *)

Module Sample.

#[local] Instance crc : Crc := {| checksum := fun seed b => u32 (foldl Z.add seed b); checksum_fits := fun c l => wrap_fits 32 (foldl Z.add c l) ltac:(lia) |}.

Definition time0 : Timestamp := mkTimestamp 0 0.
Definition dir : Inode := mkInode 11 0x4000 0 0 1024 2 time0 time0 time0 0 0 2 0 (to_le_bytes 4 10 ++ zeros 56) None.
Definition file : Inode := mkInode 12 0x8000 0 0 0 1 time0 time0 time0 0 0 0 0 (zeros 60) None.

Definition name_a : list Z := [0x61].
Definition name_b : list Z := [0x62; 0x63].

(** A file, an insertion of the name again, another file under its name, one more
    file and its removal. *)
Definition edits : list edit :=
  [Create (Ok 20) 13 name_a 1; Create (Ok 21) 14 name_a 1; Replace 13 12 name_a 1; Create (Err ReservationExhausted) 15 name_b 1; Remove 16 name_b; Remove 15 name_b].

Lemma sample_edits_fine : Forall edit_ok edits.
Proof. unfold edits. repeat (apply list.Forall_cons; split; [unfold edit_ok, fits; cbn; try exact I; (split_and!; (done || lia))|]). constructor. Qed.

Definition outcomes : list (option Error) := [None; Some AlreadyExists; None; None; Some NotFound; None].

Definition tree : DirectoryTree := match new_directory 0 dir 2 1024 10 with Ok t => (run_edits 1024 t edits).2 | _ => mkTree 0 dir [] end.
Definition image : list Z := match dt_nodes tree with n :: _ => dn_bytes n | [] => [] end.
Definition contents : gmap (list Z) (Z * Z) := <[name_a := (12, 1)]> (empty_map 11 2).

(** The outcomes of the run, evaluated. *)
Lemma runs : (t ← new_directory 0 dir 2 1024 10; Ok (run_edits 1024 t edits).1) = Ok outcomes.
Proof. vm_compute. reflexivity. Qed.

Lemma directory_edits_refine_witness : exists t m, new_directory 0 dir 2 1024 10 = Ok t /\ (run_edits 1024 t edits).1 = outcomes /\
  spec_run (empty_map 11 2) edits outcomes m /\ (exists r, find (run_edits 1024 t edits).2 name_a = Ok r /\ snd <$> r = fst <$> m !! name_a).
Proof.
  destruct (directory_edits_refine 0 dir 2 1024 10 edits eq_refl ltac:(lia) eq_refl) as (t & m & Ht & Hs & _ & Hf); [unfold fits; cbn; lia|done|unfold fits; lia|done|apply sample_edits_fine|].
  exists t, m. split; [exact Ht|]. pose proof runs as E. rewrite Ht in E. cbn [mbind R_bind] in E.
  assert ((run_edits 1024 t edits).1 = outcomes) as E' by congruence. split; [exact E'|]. rewrite E' in Hs. split; [exact Hs|]. apply Hf.
Defined.

(** ** The directory on a disk: descriptors in block 2, inodes 11 and 12 in block 4,
    the directory in block 10. *)
Definition set (off : Z) (src b : list Z) : list Z := splice b off src.
Definition raw_dir : list Z := set 0x7c [93] (set 0x28 [10] (set 0x1a [2; 0; 2] (set 4 [0; 4] (set 0 [0; 0x40] (zeros 128))))).
Definition raw_file : list Z := set 0x7c [141] (set 0x1a [1] (set 0 [0; 0x80] (zeros 128))).
Definition fs : Ext4 :=
  mkExt4 (mkSuperblock 32 64 1 1024 8192 32 128 11 32 0 0 0x400 (zeros 16) 0 0 0 (0, 0) 0)
    [(2, set 0x1e [3] (set 8 [3] (zeros 1024))); (4, set 384 raw_file (set 256 raw_dir (zeros 1024))); (10, image)].
Definition disk : Storage := mkStorage 65536 (fun _ => 0).

Lemma sample_loads : refresh fs disk dir = Ok dir /\ load_inode fs disk 12 = Ok file.
Proof. split; vm_compute; reflexivity. Qed.

(** The map after the operations that succeeded. *)
Fixpoint replay (m : gmap (list Z) (Z * Z)) (es : list edit) (os : list (option Error)) : gmap (list Z) (Z * Z) :=
  match es, os with
  | e :: es, None :: os => replay (match spec_edit m e with Ok m' => m' | _ => m end) es os
  | _ :: es, Some _ :: os => replay m es os
  | _, _ => m
  end.

Lemma spec_run_replay m es os m' : spec_run m es os m' -> m' = replay m es os.
Proof. induction 1 as [| m e m1 es os m2 E _ IH| |]; cbn [replay]; [done|by rewrite E|done|done]. Qed.

Lemma sample_holds : holds tree contents.
Proof.
  destruct (new_directory_ok 0 dir 2 1024 10 eq_refl ltac:(lia) eq_refl) as (t & Ht & Hh); [unfold fits; cbn; lia|done|unfold fits; lia|done|].
  destruct (edits_refine 1024 edits t _ Hh ltac:(lia) eq_refl sample_edits_fine) as (m & Hs & Hm). pose proof runs as E. unfold tree. rewrite Ht in E |- *. cbn [mbind R_bind] in E.
  assert ((run_edits 1024 t edits).1 = outcomes) as E' by congruence. rewrite E' in Hs. apply spec_run_replay in Hs as ->.
  assert (replay (empty_map 11 2) edits outcomes = contents) as <- by (vm_compute; reflexivity). exact Hm.
Qed.

Definition single {A} (P : A -> Prop) (l : list A) : Prop := match l with [n] => P n | _ => False end.
Lemma single_inv {A} (P : A -> Prop) l : single P l -> exists n, l = [n] /\ P n.
Proof. destruct l as [|n [|]]; [done| |done]. by exists n. Qed.

Lemma one_block : single (fun n => zlen (dn_bytes n) = 1024 /\ read_inode_data fs disk dir 0 1024 = Ok (dn_bytes n)) (dt_nodes tree).
Proof. vm_compute. split; reflexivity. Qed.

Lemma tree_of : dt_seed tree = 0 /\ number (dt_inode tree) = 11 /\ generation (dt_inode tree) = 0.
Proof. vm_compute. split_and!; reflexivity. Qed.

Lemma directory_listing_witness : exists out, list_directory fs disk dir 0 10 = Ok (out, None) /\ out ≡ₚ [mkEntry name_a 1 file].
Proof.
  destruct (single_inv _ _ one_block) as (n & En & Hone). destruct tree_of as (E1 & E2 & E3). destruct sample_loads as [Hdir Hfile].
  destruct (directory_listing fs disk (fun _ => file) tree contents dir 1024 10) as (out & Ho & Hp).
  - exact sample_holds.
  - rewrite E1. reflexivity.
  - rewrite E2. reflexivity.
  - rewrite E3. reflexivity.
  - reflexivity.
  - reflexivity.
  - lia.
  - exact Hdir.
  - reflexivity.
  - reflexivity.
  - reflexivity.
  - rewrite En. reflexivity.
  - reflexivity.
  - intros i node Hi. rewrite En in Hi. destruct i as [|i]; [|by destruct i]. injection Hi as <-. exact Hone.
  - intros name num ty Hl H1 H2. unfold contents in Hl. apply lookup_insert_Some in Hl as [[_ Hl]|[_ Hl]]; [injection Hl as <- _; exact Hfile|]. exfalso.
    unfold empty_map in Hl. apply lookup_insert_Some in Hl as [[E _]|[_ Hl]]; [by apply H1|]. apply lookup_singleton_Some in Hl as [E _]. by apply H2.
  - reflexivity.
  - exists out. split; [exact Ho|]. rewrite Hp. vm_compute. reflexivity.
Defined.

Lemma validate_empty_iff_witness : holds tree contents /\ validate_empty tree 2 = Err NotEmpty /\ validate_empty tree 2 <> Ok tt /\ fst <$> contents <> {[ dot := 11; dotdot := 2 ]}.
Proof.
  destruct (validate_empty_iff tree contents 2 sample_holds) as [_ Hiff]. assert (validate_empty tree 2 = Err NotEmpty) as E by (vm_compute; reflexivity).
  split; [exact sample_holds|]. split; [exact E|]. split; [rewrite E; discriminate|]. intros Hc. replace 11 with (number (dt_inode tree)) in Hc by apply tree_of. apply Hiff in Hc. rewrite E in Hc. discriminate Hc.
Defined.

(** ** Names over 255 bytes

    [create_link] does not check its name, and the length byte of a record keeps
    the length modulo 256: a link under 257 letters is found under one. *)
Definition long_name : list Z := replicate 257 0x7a.

Definition number_of (t : DirectoryTree) (name : list Z) : R (option Z) := r ← find t name; Ok (option_map snd r).

Lemma long_name_shortened :
  (t ← new_directory 0 dir 2 1024 10; t ← insert_into_directory t 1024 (Ok 20) 12 long_name 1;
   r1 ← number_of t long_name; r2 ← number_of t [0x7a]; Ok (r1, r2)) = Ok (None, Some 12).
Proof. vm_compute. reflexivity. Qed.
End Sample.
