(* ===== verification/Alloc.v ===== *)
(** The allocation of blocks and inodes of an ext4 filesystem
    (ext4/src/transaction.rs): the bitmaps and counters of the block groups.

    An operation that fails drops what it prepared, so it is an error without an
    allocation. *)

From Stdlib Require Import ZArith Lia Bool.
From stdpp Require Import base option list numbers.
From S2P Require Import Prelude Ext4 DirEdit.
Local Open Scope machine_scope.

Section Alloc.
Context `{Crc}.

(** * Bitmaps *)

(** [bitmap[index / 8] & (1 << (index % 8)) != 0] *)
Definition bit_at (bitmap : list Z) (index : Z) : R bool := x ← byte_at bitmap (index / 8); Ok (has_flag x (bit (index mod 8))).

(** [bitmap[index / 8] |= 1 << (index % 8)] *)
Definition set_bit (bitmap : list Z) (index : Z) : R (list Z) := x ← byte_at bitmap (index / 8); put bitmap (index / 8) [x .| bit (index mod 8)].

(** [bitmap[index / 8] &= !(1 << (index % 8))] *)
Definition clear_bit (bitmap : list Z) (index : Z) : R (list Z) := x ← byte_at bitmap (index / 8); put bitmap (index / 8) [x .& bnot 8 (bit (index mod 8))].

Fixpoint set_bits (n : nat) (bitmap : list Z) (b : Z) : R (list Z) :=
  match n with
  | O => Ok bitmap
  | S n => index ← usize b; bitmap ← set_bit bitmap index; set_bits n bitmap (b + 1)
  end.

Definition set_bitmap_range (bitmap : list Z) (start len : Z) : R (list Z) :=
  end_ ← checked (start + len);
  if zlen bitmap * 8 <? end_ then corrupt InvalidBlockBitmap else
  set_bits (Z.to_nat len) bitmap start.

(** * The fields of a group descriptor and of the superblock *)

(** Fields of two halves. *)
Definition split16 (d : list Z) (lo hi : Z) : R Z := l ← le16 d lo; h ← le16 d hi; Ok (join 16 l h).
Definition split32 (d : list Z) (lo hi : Z) : R Z := l ← le32 d lo; h ← le32 d hi; Ok (join 32 l h).
Definition put_split16 (d : list Z) (lo hi v : Z) : R (list Z) := d ← put_le16 d lo (u16 v); put_le16 d hi (u16 (v ≫ 16)).
Definition put_split32 (d : list Z) (lo hi v : Z) : R (list Z) := d ← put_le32 d lo (u32 v); put_le32 d hi (u32 (v ≫ 32)).

Definition block_bitmap_number (d : list Z) : R Z := split32 d 0 0x20.
Definition inode_bitmap_number (d : list Z) : R Z := split32 d 4 0x24.
Definition inode_table_number (d : list Z) : R Z := split32 d 8 0x28.
Definition free_blocks (d : list Z) : R Z := split16 d 0x0c 0x2c.
Definition free_inodes (d : list Z) : R Z := split16 d 0x0e 0x2e.

Definition decrement_descriptor_free_blocks_by (d : list Z) (amount : Z) : R (list Z) :=
  free ← free_blocks d;
  if free <? amount then corrupt InvalidFreeBlockCount else
  if U32_MAX <? free - amount then corrupt InvalidFreeBlockCount else
  put_split16 d 0x0c 0x2c (free - amount).

Definition increment_descriptor_free_blocks (d : list Z) (amount group_blocks : Z) : R (list Z) :=
  free ← free_blocks d;
  if U64_MAX <? free + amount then corrupt InvalidFreeBlockCount else
  if (group_blocks <? free + amount) || (U32_MAX <? free + amount) then corrupt InvalidFreeBlockCount else
  put_split16 d 0x0c 0x2c (free + amount).

Definition decrement_descriptor_free_inodes (d : list Z) : R (list Z) :=
  free ← free_inodes d;
  if free <? 1 then corrupt InvalidFreeBlockCount else put_split16 d 0x0e 0x2e (free - 1).

Definition increment_descriptor_free_inodes (d : list Z) (inodes_per_group : Z) : R (list Z) :=
  free ← free_inodes d;
  if (inodes_per_group <? free + 1) || (U32_MAX <? free + 1) then corrupt InvalidFreeBlockCount else
  put_split16 d 0x0e 0x2e (free + 1).

Definition increment_descriptor_used_directories (d : list Z) (inodes_per_group : Z) : R (list Z) :=
  used ← split16 d 0x10 0x30;
  if (inodes_per_group <? used + 1) || (U32_MAX <? used + 1) then corrupt InvalidFreeBlockCount else
  put_split16 d 0x10 0x30 (used + 1).

Definition decrement_descriptor_used_directories (d : list Z) (inodes_per_group : Z) : R (list Z) :=
  used ← split16 d 0x10 0x30;
  if inodes_per_group <? used then corrupt InvalidFreeBlockCount else
  if used <? 1 then corrupt InvalidFreeBlockCount else put_split16 d 0x10 0x30 (used - 1).

Definition update_unused_inode_count (d : list Z) (allocated_index inodes_per_group : Z) : R (list Z) :=
  unused ← split16 d 0x1c 0x3c;
  if (inodes_per_group <? unused) || (inodes_per_group <=? allocated_index) then corrupt InvalidFreeBlockCount else
  let initialized := inodes_per_group - unused in
  if initialized <=? allocated_index then put_split16 d 0x1c 0x3c (inodes_per_group - allocated_index - 1) else Ok d.

Definition decrement_superblock_free_blocks_by (sb : list Z) (amount : Z) : R (list Z) :=
  free ← split32 sb 0x0c 0x158;
  if free <? amount then corrupt InvalidFreeBlockCount else put_split32 sb 0x0c 0x158 (free - amount).

Definition increment_superblock_free_blocks (sb : list Z) (amount blocks_count : Z) : R (list Z) :=
  free ← split32 sb 0x0c 0x158;
  if U64_MAX <? free + amount then corrupt InvalidFreeBlockCount else
  if blocks_count <? free + amount then corrupt InvalidFreeBlockCount else put_split32 sb 0x0c 0x158 (free + amount).

Definition decrement_superblock_free_inodes (sb : list Z) : R (list Z) :=
  free ← le32 sb 0x10;
  if free <? 1 then corrupt InvalidFreeBlockCount else put_le32 sb 0x10 (free - 1).

Definition increment_superblock_free_inodes (sb : list Z) (inodes_count : Z) : R (list Z) :=
  free ← le32 sb 0x10;
  if (inodes_count <? free + 1) || (U32_MAX <? free + 1) then corrupt InvalidFreeBlockCount else put_le32 sb 0x10 (u32 (free + 1)).

Definition update_group_descriptor_checksum (seed group : Z) (d : list Z) : R (list Z) :=
  d ← put_le16 d 0x1e 0;
  put_le16 d 0x1e (u16 (checksum seed (to_le_bytes 4 group ++ d))).

(** [Checksum::new()] starts from all ones. *)
Definition update_superblock_checksum (sb : list Z) : R (list Z) :=
  body ← slice sb 0 0x3fc;
  put_le32 sb 0x3fc (checksum U32_MAX body).

(** * Groups *)

(** [while value > 1 && value.is_multiple_of(base)]; a 32-bit value has at most 32
    factors. *)
Fixpoint power_of_loop (fuel : nat) (value base : Z) : Z :=
  match fuel with
  | O => value
  | S n => if (1 <? value) && (value mod base =? 0) then power_of_loop n (value / base) base else value
  end.
Definition is_power_of (value base : Z) : bool := power_of_loop 32 value base =? 1.

Section Groups.
Context (fs : Ext4) (s : Storage) (dirty : list (Z * list Z)).
Abbreviation sb := (superblock fs).

(** The transaction's view of a block. *)
Definition read_owned_block (number : Z) : R (list Z) :=
  if blocks_count sb <=? number then Err InvalidArgument else
  match binary_search number dirty with
  | inl index => match dirty !! index with Some b => Ok (snd b) | None => Panic end
  | inr _ => offset ← checked (number * block_size sb); read_storage fs s offset (block_size sb)
  end.

Definition zero_block : list Z := zeros (block_size sb).

Definition block_bitmap_checksum (bitmap : list Z) : R Z :=
  body ← slice bitmap 0 (Z.min (div_ceil (blocks_per_group sb) 8) (zlen bitmap));
  Ok (checksum (checksum_seed sb) body).

Definition inode_bitmap_checksum (bitmap : list Z) : R Z :=
  body ← slice bitmap 0 (div_ceil (inodes_per_group sb) 8);
  Ok (checksum (checksum_seed sb) body).

Definition verify_block_bitmap_checksum (group : Z) (d bitmap : list Z) : R () :=
  expected ← split16 d 0x18 0x38;
  actual ← block_bitmap_checksum bitmap;
  if negb (actual =? expected) then corrupt (BlockBitmapChecksum group) else Ok tt.

Definition verify_inode_bitmap_checksum (group : Z) (d bitmap : list Z) : R () :=
  expected ← split16 d 0x1a 0x3a;
  actual ← inode_bitmap_checksum bitmap;
  if negb (actual =? expected) then corrupt (InodeBitmapChecksum group) else Ok tt.

Definition has_super (group : Z) : bool :=
  if group =? 0 then true
  else if has_flag (feature_compat sb) COMPAT_SPARSE_SUPER2 then (group =? fst (backup_bgs sb)) || (group =? snd (backup_bgs sb))
  else if (group <=? 1) || negb (has_flag (feature_ro_compat sb) 1) then true
  else (group mod 2 =? 1) && (is_power_of group 3 || is_power_of group 5 || is_power_of group 7).

Definition group_start (group : Z) : R Z := checked (first_data_block sb + group * blocks_per_group sb).

Definition group_blocks (group start : Z) : R Z :=
  if blocks_count sb <? start then corrupt (InvalidGroup group) else Ok (Z.min (blocks_count sb - start) (blocks_per_group sb)).

(** A metadata block of the group that lies in the group itself. *)
Definition mark_metadata (start end_ : Z) (bitmap : list Z) (metadata : Z) : R (list Z) :=
  if blocks_count sb <=? metadata then corrupt InvalidBlockBitmap else
  if (start <=? metadata) && (metadata <? end_) then set_bitmap_range bitmap (metadata - start) 1 else Ok bitmap.

Fixpoint count_set (n : nat) (bitmap : list Z) (b : Z) : R Z :=
  match n with
  | O => Ok 0
  | S n => x ← bit_at bitmap b; rest ← count_set n bitmap (b + 1); Ok (Z.b2z x + rest)
  end.

(** The bitmap of a group without one, and the number of its free blocks. *)
Definition initialize_block_bitmap (group : Z) (d : list Z) (start blocks : Z) : R (list Z * Z) :=
  let bitmap := zero_block in
  table ← checked (group_count sb * descriptor_size sb);
  let descriptor_blocks := div_ceil table (block_size sb) in
  base_metadata ← (if has_super group then r ← checked (1 + descriptor_blocks); checked (r + reserved_gdt_blocks sb) else Ok 0);
  if blocks <? base_metadata then corrupt InvalidBlockBitmap else
  bitmap ← set_bitmap_range bitmap 0 base_metadata;
  end_ ← checked (start + blocks);
  block_bitmap ← block_bitmap_number d;
  inode_bitmap ← inode_bitmap_number d;
  inode_table ← inode_table_number d;
  bitmap ← mark_metadata start end_ bitmap block_bitmap;
  bitmap ← mark_metadata start end_ bitmap inode_bitmap;
  table_bytes ← checked (inodes_per_group sb * inode_size sb);
  let inode_table_blocks := div_ceil table_bytes (block_size sb) in
  if (U64_MAX <? inode_table + inode_table_blocks) || (blocks_count sb <? inode_table + inode_table_blocks) then corrupt InvalidInodeTable else
  let inode_table_end := inode_table + inode_table_blocks in
  let overlap_start := Z.max inode_table start in
  let overlap_end := Z.min inode_table_end end_ in
  bitmap ← (if overlap_start <? overlap_end then set_bitmap_range bitmap (overlap_start - start) (overlap_end - overlap_start) else Ok bitmap);
  let bitmap_bits := zlen bitmap * 8 in
  bitmap ← set_bitmap_range bitmap blocks (u64 (bitmap_bits - blocks));
  used ← count_set (Z.to_nat blocks) bitmap 0;
  Ok (bitmap, blocks - used).

(** ** Allocation *)

(** The edits of groups, by the number of the group in order. *)
Record GroupEdit := mkEdit { ge_descriptor : list Z; ge_bitmap : option (Z * list Z) }.
Record Allocation := mkAlloc { al_blocks : list Z; al_groups : list (Z * GroupEdit) }.

(** [groups.insert(position, ..)] *)
Definition insert_at {A} (pos : nat) (x : A) (l : list A) : list A := take pos l ++ x :: drop pos l.

(** The position [binary_search_by_key] gives, found or not. *)
Definition position {A} (key : Z) (l : list (Z * A)) : nat := match binary_search key l with inl i => i | inr i => i end.

(** A group that has an edit already. *)
Definition edited_group (group : Z) (edit : GroupEdit) : R (list Z * list Z) :=
  number ← block_bitmap_number (ge_descriptor edit);
  bitmap ← match ge_bitmap edit with
           | Some (n, bytes) => if n =? number then Ok bytes else corrupt InvalidBlockBitmap
           | None =>
               bitmap ← read_owned_block number;
               _ ← verify_block_bitmap_checksum group (ge_descriptor edit) bitmap;
               Ok bitmap
           end;
  Ok (ge_descriptor edit, bitmap).

(** A group as the filesystem has it. *)
Definition fresh_group (group : Z) : R (list Z * list Z) :=
  d ← read_group_descriptor fs s group;
  number ← block_bitmap_number d;
  fl ← le16 d 0x12;
  if has_flag fl 2 then
    if group =? 0 then corrupt InvalidBlockBitmap else
    start ← group_start group;
    blocks ← group_blocks group start;
    r ← initialize_block_bitmap group d start blocks;
    let '(bitmap, computed_free) := r in
    stored_free ← free_blocks d;
    if negb (stored_free =? computed_free) then corrupt InvalidFreeBlockCount else
    d ← put_le16 d 0x12 (fl .& bnot 16 2);
    Ok (d, bitmap)
  else
    bitmap ← read_owned_block number;
    _ ← verify_block_bitmap_checksum group d bitmap;
    Ok (d, bitmap).

(** The free bits from [b] on taken until the allocation has [target] blocks. *)
Fixpoint take_bits (n : nat) (bitmap : list Z) (start b : Z) (blocks : list Z) (target : Z) : R (list Z * list Z) :=
  match n with
  | O => Ok (bitmap, blocks)
  | S n =>
      index ← usize b;
      used ← bit_at bitmap index;
      if (used : bool) then take_bits n bitmap start (b + 1) blocks target else
      bitmap ← set_bit bitmap index;
      let blocks := blocks ++ [start + b] in
      if zlen blocks =? target then Ok (bitmap, blocks) else take_bits n bitmap start (b + 1) blocks target
  end.

(** The checksums of a changed bitmap and its descriptor. *)
Definition seal_group (group : Z) (d bitmap : list Z) : R (list Z) :=
  c ← block_bitmap_checksum bitmap;
  d ← put_split16 d 0x18 0x38 c;
  update_group_descriptor_checksum (checksum_seed sb) group d.

(** One group of the loop of [extend_allocation]. *)
Definition extend_group (target : Z) (a : Allocation) (group : Z) : R Allocation :=
  if zlen (al_blocks a) =? target then Ok a else
  let existing := binary_search group (al_groups a) in
  r ← match existing with
      | inl pos =>
          match al_groups a !! pos with
          | Some (_, edit) => r ← edited_group group edit; Ok (r, delete pos (al_groups a))
          | None => Panic
          end
      | inr _ => r ← fresh_group group; Ok (r, al_groups a)
      end;
  let '((d, bitmap), groups) := r in
  number ← block_bitmap_number d;
  start ← group_start group;
  blocks ← group_blocks group start;
  free ← free_blocks d;
  if free =? 0 then
    match existing with
    | inl _ => Ok (mkAlloc (al_blocks a) (insert_at (position group groups) (group, mkEdit d (Some (number, bitmap))) groups))
    | inr _ => Ok (mkAlloc (al_blocks a) groups)
    end
  else
    let before := zlen (al_blocks a) in
    t ← take_bits (Z.to_nat blocks) bitmap start 0 (al_blocks a) target;
    let '(bitmap, taken) := t in
    let count := zlen taken - before in
    if count =? 0 then Ok (mkAlloc taken groups) else
    d ← decrement_descriptor_free_blocks_by d count;
    d ← seal_group group d bitmap;
    Ok (mkAlloc taken (insert_at (position group groups) (group, mkEdit d (Some (number, bitmap))) groups)).

Fixpoint extend_groups (target : Z) (a : Allocation) (order : list Z) : R Allocation :=
  match order with
  | [] => Ok a
  | group :: order => a ← extend_group target a group; extend_groups target a order
  end.

Definition unedited (groups : list (Z * GroupEdit)) (group : Z) : bool := match binary_search group groups with inl _ => false | inr _ => true end.

(** The groups with an edit first, then the others. *)
Definition group_order (groups : list (Z * GroupEdit)) : list Z :=
  map fst groups ++ filter (fun group => unedited groups group = true) (seqZ 0 (group_count sb)).

Definition extend_allocation (a : Allocation) (wanted : Z) : R Allocation :=
  if U32_MAX <? zlen (al_blocks a) + wanted then corrupt AddressOverflow else
  let target := zlen (al_blocks a) + wanted in
  a ← extend_groups target a (group_order (al_groups a));
  if negb (zlen (al_blocks a) =? target) then corrupt InvalidFreeBlockCount else Ok a.

Definition allocate_blocks (wanted : Z) : R Allocation := extend_allocation (mkAlloc [] []) wanted.

(** ** Release *)

(** The blocks to release by group: [BlockRelease]. *)
Definition add_release (releases : list (Z * list Z)) (group index : Z) : R (list (Z * list Z)) :=
  match binary_search group releases with
  | inl pos =>
      match releases !! pos with
      | Some (g, indices) => if bool_decide (index ∈ indices) then corrupt InvalidExtentTree else Ok (<[pos := (g, indices ++ [index])]> releases)
      | None => Panic
      end
  | inr pos => Ok (insert_at pos (group, [index]) releases)
  end.

Definition release_number (releases : list (Z * list Z)) (number : Z) : R (list (Z * list Z)) :=
  if number <? first_data_block sb then corrupt InvalidExtentTree else
  let relative := number - first_data_block sb in
  let group := relative / blocks_per_group sb in
  if U32_MAX <? group then corrupt AddressOverflow else
  start ← group_start group;
  add_release releases group (number - start).

Fixpoint release_numbers (numbers : list Z) (releases : list (Z * list Z)) : R (list (Z * list Z)) :=
  match numbers with
  | [] => Ok releases
  | number :: numbers => releases ← release_number releases number; release_numbers numbers releases
  end.

Fixpoint release_ranges (ranges : list (Z * Z)) (releases : list (Z * list Z)) (released : Z) : R (list (Z * list Z) * Z) :=
  match ranges with
  | [] => Ok (releases, released)
  | (physical, length) :: ranges =>
      released ← checked (released + length);
      if (U64_MAX <? physical + length) || (blocks_count sb <? physical + length) then corrupt InvalidExtentTree else
      releases ← release_numbers (seqZ physical length) releases;
      release_ranges ranges releases released
  end.

Fixpoint clear_bits (indices : list Z) (reserved bitmap : list Z) : R (list Z) :=
  match indices with
  | [] => Ok bitmap
  | index :: indices =>
      index ← usize index;
      kept ← bit_at reserved index;
      used ← bit_at bitmap index;
      if kept || negb used then corrupt InvalidExtentTree else
      bitmap ← clear_bit bitmap index;
      clear_bits indices reserved bitmap
  end.

Definition release_group (release : Z * list Z) : R (Z * GroupEdit) :=
  let '(group, indices) := release in
  d ← read_group_descriptor fs s group;
  fl ← le16 d 0x12;
  if has_flag fl 2 then corrupt InvalidBlockBitmap else
  number ← block_bitmap_number d;
  if blocks_count sb <=? number then corrupt InvalidBlockBitmap else
  start ← group_start group;
  blocks ← group_blocks group start;
  r ← initialize_block_bitmap group d start blocks;
  let '(reserved, _) := r in
  bitmap ← read_owned_block number;
  _ ← verify_block_bitmap_checksum group d bitmap;
  bitmap ← clear_bits indices reserved bitmap;
  d ← increment_descriptor_free_blocks d (zlen indices) blocks;
  d ← seal_group group d bitmap;
  Ok (group, mkEdit d (Some (number, bitmap))).

Fixpoint release_groups (releases : list (Z * list Z)) : R (list (Z * GroupEdit)) :=
  match releases with
  | [] => Ok []
  | release :: releases => e ← release_group release; es ← release_groups releases; Ok (e :: es)
  end.

Definition release_blocks (ranges : list (Z * Z)) : R (list (Z * GroupEdit) * Z) :=
  r ← release_ranges ranges [] 0;
  let '(releases, released) := r in
  groups ← release_groups releases;
  Ok (groups, released).

(** ** Inodes *)

Record InodeAllocation := mkInodeAlloc {
  ia_number : Z; ia_index : Z; ia_table : Z; ia_group : Z;
  ia_edit : GroupEdit; ia_bitmap : Z * list Z
}.

(** [(start..group_inodes).find(..)] *)
Fixpoint find_clear (n : nat) (bitmap : list Z) (index : Z) : R (option Z) :=
  match n with
  | O => Ok None
  | S n => used ← bit_at bitmap index; if (used : bool) then find_clear n bitmap (index + 1) else Ok (Some index)
  end.

(** The block bitmap of a group made when its first inode is taken. *)
Definition initialize_on_inode (group : Z) (d : list Z) : R (list Z * option (Z * list Z)) :=
  fl ← le16 d 0x12;
  if negb (has_flag fl 2) then Ok (d, None) else
  if group =? 0 then corrupt InvalidBlockBitmap else
  start ← group_start group;
  blocks ← group_blocks group start;
  r ← initialize_block_bitmap group d start blocks;
  let '(bitmap, computed_free) := r in
  stored_free ← free_blocks d;
  if negb (stored_free =? computed_free) then corrupt InvalidFreeBlockCount else
  number ← block_bitmap_number d;
  c ← block_bitmap_checksum bitmap;
  d ← put_split16 d 0x18 0x38 c;
  fl ← le16 d 0x12;
  d ← put_le16 d 0x12 (fl .& bnot 16 2);
  Ok (d, Some (number, bitmap)).

(** The inode bitmap of a group, made if there is none. *)
Definition load_inode_bitmap (group free group_inodes : Z) (d : list Z) (number : Z) : R (list Z * list Z) :=
  fl ← le16 d 0x12;
  if has_flag fl 1 then
    if (group =? 0) || negb (free =? group_inodes) || negb (has_flag fl 4) then corrupt InvalidBlockBitmap else
    bitmap ← set_bitmap_range zero_block group_inodes (u64 (block_size sb * 8 - group_inodes));
    d ← put_le16 d 0x12 (fl .& bnot 16 1);
    Ok (d, bitmap)
  else
    bitmap ← read_owned_block number;
    _ ← verify_inode_bitmap_checksum group d bitmap;
    Ok (d, bitmap).

(** One group of [allocate_inode]: [None] where the loop goes on. *)
Definition allocate_inode_in (group group_first group_inodes : Z) : R (option InodeAllocation) :=
  d ← read_group_descriptor fs s group;
  free ← free_inodes d;
  if free =? 0 then Ok None else
  if group_inodes <? free then corrupt InvalidFreeBlockCount else
  r ← initialize_on_inode group d;
  let '(d, initialized) := r in
  number ← inode_bitmap_number d;
  table ← inode_table_number d;
  if (blocks_count sb <=? number) || (blocks_count sb <=? table) then corrupt InvalidInodeTable else
  r ← load_inode_bitmap group free group_inodes d number;
  let '(d, bitmap) := r in
  let start := if group =? 0 then u64 (first_inode sb - 1) else 0 in
  found ← find_clear (Z.to_nat (group_inodes - start)) bitmap start;
  match found with
  | None => corrupt InvalidFreeBlockCount
  | Some index =>
      bitmap ← set_bit bitmap index;
      d ← decrement_descriptor_free_inodes d;
      d ← update_unused_inode_count d index (inodes_per_group sb);
      c ← inode_bitmap_checksum bitmap;
      d ← put_split16 d 0x1a 0x3a c;
      d ← update_group_descriptor_checksum (checksum_seed sb) group d;
      if U32_MAX <? group_first + index + 1 then corrupt AddressOverflow else
      Ok (Some (mkInodeAlloc (group_first + index + 1) index table group (mkEdit d initialized) (number, bitmap)))
  end.

Fixpoint allocate_inode_loop (groups : list Z) : R InodeAllocation :=
  match groups with
  | [] => corrupt InvalidFreeBlockCount
  | group :: groups =>
      let group_first := group * inodes_per_group sb in
      if inodes_count sb <? group_first then corrupt (InvalidGroup group) else
      let group_inodes := Z.min (inodes_count sb - group_first) (inodes_per_group sb) in
      if group_inodes =? 0 then corrupt InvalidFreeBlockCount else
      r ← allocate_inode_in group group_first group_inodes;
      match r with Some a => Ok a | None => allocate_inode_loop groups end
  end.

Definition allocate_inode : R InodeAllocation := allocate_inode_loop (seqZ 0 (group_count sb)).

(** ** Where descriptors and inodes are *)

(** [descriptor_table_offset] *)
Definition descriptor_table_offset : Z := u64 ((first_data_block sb + 1) * block_size sb).

Fixpoint descriptor_blocks (groups : list (Z * GroupEdit)) (blocks : list (Z * list Z)) : R (list (Z * list Z)) :=
  match groups with
  | [] => Ok blocks
  | (group, edit) :: groups =>
      byte ← checked (descriptor_table_offset + group * descriptor_size sb);
      let number := byte / block_size sb in
      offset ← usize (byte mod block_size sb);
      r ← match binary_search number blocks with
          | inl index => Ok (index, blocks)
          | inr index => block ← read_owned_block number; Ok (index, insert_at index (number, block) blocks)
          end;
      let '(index, blocks) := r in
      match blocks !! index with
      | Some (n, bytes) =>
          if zlen bytes <? offset + zlen (ge_descriptor edit) then corrupt (InvalidGroup group) else
          bytes ← put bytes offset (ge_descriptor edit);
          descriptor_blocks groups (<[index := (n, bytes)]> blocks)
      | None => Panic
      end
  end.

Definition inode_location (number : Z) : R (Z * Z) :=
  if (number <? 1) || (inodes_count sb <=? number - 1) then corrupt (InvalidInode number) else
  let zero_based := number - 1 in
  let group := zero_based / inodes_per_group sb in
  let index := zero_based mod inodes_per_group sb in
  d ← read_group_descriptor fs s group;
  table ← inode_table_number d;
  if blocks_count sb <=? table then corrupt InvalidInodeTable else
  start ← checked (table * block_size sb);
  byte ← checked (start + index * inode_size sb);
  let block := byte / block_size sb in
  offset ← usize (byte mod block_size sb);
  if (blocks_count sb <=? block) || (block_size sb <? offset + inode_size sb) then corrupt InvalidInodeTable else
  Ok (block, offset).

End Groups.
End Alloc.
