(* ===== verification/AllocFacts.v ===== *)
(** Bitmaps as sets of bits and the counters of a group: what the loops over a
    bitmap find and change. *)

From Stdlib Require Import ZArith Lia Bool.
From stdpp Require Import base option list numbers sorting.
From S2P Require Import Prelude Ext4 DirEdit DirFacts Alloc.
Local Open Scope machine_scope.

(** * Bits *)

(** Bit [i] of a bitmap. *)
Definition tb (b : list Z) (i : Z) : bool := Z.testbit (from_le_bytes (sl b (i / 8) 1)) (i mod 8).

Lemma has_flag_bit x k : 0 <= k -> has_flag x (bit k) = Z.testbit x k.
Proof.
  intros Hk. unfold has_flag, bit. destruct (Z.testbit x k) eqn:E; [apply negb_true_iff, Z.eqb_neq|apply negb_false_iff, Z.eqb_eq].
  - intros H0. assert (Z.testbit (x .& Z.shiftl 1 k) k = true) as Ht; [|by rewrite H0, Z.bits_0 in Ht].
    by rewrite Z.land_spec, E, Z.shiftl_spec, Z.sub_diag by lia.
  - apply Z.bits_inj'. intros n Hn. rewrite Z.land_spec, Z.bits_0, Z.shiftl_1_l, Z.pow2_bits_eqb by lia. destruct (Z.eqb_spec k n) as [->|]; [by rewrite E|by rewrite andb_false_r].
Qed.

Lemma index_range (b : list Z) i : 0 <= i < 8 * zlen b -> 0 <= i / 8 /\ i / 8 + 1 <= zlen b /\ 0 <= i mod 8 < 8.
Proof. intros. Z.to_euclidean_division_equations. lia. Qed.

Section Bits.
Context `{Crc}.

Lemma byte_at_ok b off : 0 <= off -> off + 1 <= zlen b -> byte_at b off = Ok (from_le_bytes (sl b off 1)).
Proof. intros. unfold byte_at. by rewrite slice_ok by lia. Qed.

Lemma bit_at_ok b i : 0 <= i < 8 * zlen b -> bit_at b i = Ok (tb b i).
Proof. intros Hi. destruct (index_range b i Hi) as (H1 & H2 & H3). unfold bit_at. rewrite byte_at_ok by lia. cbn [mbind R_bind]. by rewrite has_flag_bit by lia. Qed.

(** The byte with the bit replaced: the other bits stay. *)
Lemma tb_splice b i v j : 0 <= i < 8 * zlen b -> 0 <= j < 8 * zlen b -> fits 8 v ->
  tb (splice b (i / 8) [v]) j = if i / 8 =? j / 8 then Z.testbit v (j mod 8) else tb b j.
Proof.
  intros Hi Hj Hv. destruct (index_range b i Hi) as (I1 & I2 & _). destruct (index_range b j Hj) as (J1 & J2 & _). unfold tb. destruct (Z.eqb_spec (i / 8) (j / 8)) as [<-|Hne].
  - pose proof (sl_splice_in b (i / 8) [v] ltac:(lia) ltac:(cbn [length]; lia)) as E. cbn [length] in E. change (Z.of_nat 1) with 1 in E. rewrite E. cbn. rewrite Z.add_0_r. by rewrite wrap_small.
  - by rewrite sl_splice_out by (cbn [length]; lia).
Qed.

Lemma byte_fits b off : fits 8 (from_le_bytes (sl b off 1)).
Proof.
  pose proof (from_le_bytes_range (sl b off 1)) as Hr. unfold fits. assert (length (sl b off 1) <= 1)%nat as Hl by (unfold sl; rewrite length_take; lia).
  destruct (length (sl b off 1)) as [|[|]]; [cbn in Hr; lia|cbn in Hr; lia|lia].
Qed.

Lemma byte_fits_bits v : 0 <= v -> (forall k, 8 <= k -> Z.testbit v k = false) -> fits 8 v.
Proof.
  intros Hv Hk. unfold fits. split; [done|]. destruct (Z.eq_dec v 0) as [->|Hne]; [lia|]. apply Z.log2_lt_pow2; [lia|].
  destruct (Z.lt_ge_cases (Z.log2 v) 8) as [|Hge]; [done|]. pose proof (Z.bit_log2 v ltac:(lia)) as Hb. by rewrite Hk in Hb by lia.
Qed.

Lemma high_bits v k : fits 8 v -> 8 <= k -> Z.testbit v k = false.
Proof. intros [Hv0 Hv] Hk. destruct (Z.eq_dec v 0) as [->|]; [apply Z.bits_0|]. apply Z.bits_above_log2; [lia|]. apply Z.log2_lt_pow2 in Hv; lia. Qed.

Lemma set_bit_ok b i : 0 <= i < 8 * zlen b ->
  exists b', set_bit b i = Ok b' /\ zlen b' = zlen b /\ forall j, 0 <= j < 8 * zlen b -> tb b' j = tb b j || (j =? i).
Proof.
  intros Hi. destruct (index_range b i Hi) as (H1 & H2 & H3). unfold set_bit. rewrite byte_at_ok by lia. cbn [mbind R_bind]. rewrite put_ok by (cbn [length]; lia). eexists. split; [done|].
  split; [rewrite length_splice by (cbn [length]; lia); done|]. intros j Hj. pose proof (byte_fits b (i / 8)) as Hf. set (x := from_le_bytes (sl b (i / 8) 1)) in *.
  assert (forall k, 0 <= k -> Z.testbit (x .| bit (i mod 8)) k = Z.testbit x k || (k =? i mod 8)) as Ht.
  { intros k Hk. unfold bit. rewrite Z.lor_spec, Z.shiftl_1_l, Z.pow2_bits_eqb by lia. by rewrite Z.eqb_sym. }
  rewrite tb_splice; [|lia|lia|].
  - destruct (Z.eqb_spec (i / 8) (j / 8)) as [E|E].
    + rewrite Ht by (apply Z.mod_pos_bound; lia). unfold tb. rewrite <- E. fold x. f_equal. Z.to_euclidean_division_equations. destruct (Z.eqb_spec r0 r), (Z.eqb_spec j i); lia || done.
    + destruct (Z.eqb_spec j i) as [->|]; [done|]. by rewrite orb_false_r.
  - apply byte_fits_bits; [apply Z.lor_nonneg; split; [apply Hf|]; unfold bit; apply Z.shiftl_nonneg; lia|]. intros k Hk. rewrite Ht by lia. rewrite high_bits by done. cbn. apply Z.eqb_neq. lia.
Qed.

Lemma clear_bit_ok b i : 0 <= i < 8 * zlen b ->
  exists b', clear_bit b i = Ok b' /\ zlen b' = zlen b /\ forall j, 0 <= j < 8 * zlen b -> tb b' j = tb b j && negb (j =? i).
Proof.
  intros Hi. destruct (index_range b i Hi) as (H1 & H2 & H3). unfold clear_bit. rewrite byte_at_ok by lia. cbn [mbind R_bind]. rewrite put_ok by (cbn [length]; lia). eexists. split; [done|].
  split; [rewrite length_splice by (cbn [length]; lia); done|]. intros j Hj. pose proof (byte_fits b (i / 8)) as Hf. set (x := from_le_bytes (sl b (i / 8) 1)) in *.
  assert (forall k, 0 <= k -> Z.testbit (x .& bnot 8 (bit (i mod 8))) k = Z.testbit x k && negb (k =? i mod 8)) as Ht.
  { intros k Hk. unfold bit, bnot. rewrite Z.land_spec, Z.lxor_spec, Z.shiftl_1_l, Z.pow2_bits_eqb by lia. rewrite (Z.eqb_sym (i mod 8) k). destruct (Z.lt_ge_cases k 8) as [Hk8|Hk8].
    - rewrite Z.ones_spec_low by lia. by destruct (k =? i mod 8).
    - rewrite high_bits by done. done. }
  rewrite tb_splice; [|lia|lia|].
  - destruct (Z.eqb_spec (i / 8) (j / 8)) as [E|E].
    + rewrite Ht by (apply Z.mod_pos_bound; lia). unfold tb. rewrite <- E. fold x. f_equal. f_equal. Z.to_euclidean_division_equations. destruct (Z.eqb_spec r0 r), (Z.eqb_spec j i); lia || done.
    + destruct (Z.eqb_spec j i) as [->|]; [done|]. by rewrite andb_true_r.
  - apply byte_fits_bits; [apply Z.land_nonneg; left; apply Hf|]. intros k Hk. rewrite Ht by lia. by rewrite high_bits by done.
Qed.

(** ** Ranges *)

Definition in_range (lo n j : Z) : bool := (lo <=? j) && (j <? lo + n).

Lemma usize_small x : x <= U32_MAX -> usize x = Ok x.
Proof. intros. unfold usize. by rewrite (proj2 (Z.leb_le _ _)). Qed.

Lemma set_bits_ok n : forall b i, 0 <= i -> i + Z.of_nat n <= 8 * zlen b -> 8 * zlen b <= U32_MAX ->
  exists b', set_bits n b i = Ok b' /\ zlen b' = zlen b /\ forall j, 0 <= j < 8 * zlen b -> tb b' j = tb b j || in_range i (Z.of_nat n) j.
Proof.
  induction n as [|n IH]; intros b i Hi Hn Hb.
  - exists b. split_and!; [done|done|]. intros j _. assert (in_range i (Z.of_nat 0) j = false) as -> by (unfold in_range; destruct (Z.leb_spec i j), (Z.ltb_spec j (i + Z.of_nat 0)); lia || done). by rewrite orb_false_r.
  - cbn [set_bits]. rewrite usize_small by lia. cbn [mbind R_bind]. destruct (set_bit_ok b i ltac:(lia)) as (b1 & -> & Z1 & T1). cbn [mbind R_bind].
    destruct (IH b1 (i + 1) ltac:(lia) ltac:(lia) ltac:(lia)) as (b2 & -> & Z2 & T2). exists b2. split_and!; [done|lia|]. intros j Hj. rewrite T2, T1 by lia. rewrite <- orb_assoc. f_equal.
    unfold in_range. destruct (Z.eqb_spec j i), (Z.leb_spec i j), (Z.leb_spec (i + 1) j), (Z.ltb_spec j (i + 1 + Z.of_nat n)), (Z.ltb_spec j (i + Z.of_nat (S n))); lia || done.
Qed.

Lemma set_bitmap_range_ok b start len : 0 <= start -> 0 <= len -> start + len <= 8 * zlen b -> 8 * zlen b <= U32_MAX ->
  exists b', set_bitmap_range b start len = Ok b' /\ zlen b' = zlen b /\ forall j, 0 <= j < 8 * zlen b -> tb b' j = tb b j || in_range start len j.
Proof.
  intros. unfold set_bitmap_range, checked. rewrite (proj2 (Z.leb_le _ _)) by (unfold U64_MAX, U32_MAX in *; lia). cbn [mbind R_bind]. rewrite (proj2 (Z.ltb_ge _ _)) by lia.
  destruct (set_bits_ok (Z.to_nat len) b start) as (b' & Hs & Hz & Ht); [lia|lia|lia|]. rewrite Z2Nat.id in Ht by lia. by exists b'.
Qed.

(** ** Free bits *)

Definition free_list (b : list Z) (n : Z) : list Z := filter (fun j => tb b j = false) (seqZ 0 n).
(** How many of the first [n] bits are clear. *)
Definition clears (b : list Z) (n : Z) : Z := zlen (free_list b n).

Lemma elem_of_free b n j : j ∈ free_list b n <-> 0 <= j < n /\ tb b j = false.
Proof. unfold free_list. rewrite list_elem_of_filter, elem_of_seqZ. intuition lia. Qed.

Lemma NoDup_free b n : NoDup (free_list b n).
Proof. apply NoDup_filter, NoDup_seqZ. Qed.

Lemma clears_zero b n : clears b n = 0 <-> forall j, 0 <= j < n -> tb b j = true.
Proof.
  unfold clears. split.
  - intros E j Hj. destruct (tb b j) eqn:Et; [done|]. assert (j ∈ free_list b n) as Hin by (by apply elem_of_free). destruct (free_list b n); [by apply elem_of_nil in Hin|cbn in E; lia].
  - intros Hall. assert (free_list b n = []) as ->; [|done]. destruct (free_list b n) as [|j l] eqn:E; [done|]. assert (j ∈ free_list b n) as [Hj E2]%elem_of_free by (rewrite E; left). by rewrite Hall in E2.
Qed.

(** Bits taken from the free ones. *)
Lemma clears_taken b b' n taken : NoDup taken -> (forall i, i ∈ taken -> 0 <= i < n /\ tb b i = false) ->
  (forall j, 0 <= j < n -> tb b' j = tb b j || bool_decide (j ∈ taken)) -> clears b n = clears b' n + zlen taken.
Proof.
  intros Hd Hin Ht. unfold clears. assert (free_list b n ≡ₚ taken ++ free_list b' n) as Hp; [|rewrite Hp, length_app; lia].
  apply NoDup_Permutation; [apply NoDup_free|apply list.NoDup_app; split_and!; [done| |apply NoDup_free]|].
  - intros i Hi [Hr Hf]%elem_of_free. rewrite Ht, bool_decide_eq_true_2, orb_true_r in Hf by done. done.
  - intros j. rewrite elem_of_app, !elem_of_free. split.
    + intros [Hj Hf]. destruct (decide (j ∈ taken)) as [|Hn]; [by left|]. right. split; [done|]. rewrite Ht, Hf, bool_decide_eq_false_2 by done. done.
    + intros [Hi|[Hj Hf]]; [by apply Hin|]. split; [done|]. rewrite Ht in Hf by done. by apply orb_false_iff in Hf as [? _].
Qed.

Lemma count_set_ok n : forall b i, 0 <= i -> i + Z.of_nat n <= 8 * zlen b ->
  count_set n b i = Ok (Z.of_nat n - zlen (filter (fun j => tb b j = false) (seqZ i (Z.of_nat n)))).
Proof.
  induction n as [|n IH]; intros b i Hi Hn; [done|]. cbn [count_set]. rewrite bit_at_ok by lia. cbn [mbind R_bind]. rewrite IH by lia. cbn [mbind R_bind]. f_equal.
  rewrite (seqZ_cons i) by lia. replace (Z.pred (Z.of_nat (S n))) with (Z.of_nat n) by lia. change (Z.succ i) with (i + 1). rewrite filter_cons. replace (Z.succ i) with (i + 1) by lia.
  destruct (tb b i) eqn:E; [rewrite decide_False by done|rewrite decide_True by done]; cbn [Z.b2z length]; lia.
Qed.

Lemma count_used b n : 0 <= n <= 8 * zlen b -> count_set (Z.to_nat n) b 0 = Ok (n - clears b n).
Proof. intros. rewrite count_set_ok by lia. by rewrite Z2Nat.id by lia. Qed.

(** ** The loop of an allocation *)

Lemma take_bits_ok n start target : forall b i blocks, 0 <= i -> i + Z.of_nat n <= 8 * zlen b -> 8 * zlen b <= U32_MAX -> zlen blocks < target ->
  exists b' taken, take_bits n b start i blocks target = Ok (b', blocks ++ map (Z.add start) taken) /\ zlen b' = zlen b /\ zlen blocks + zlen taken <= target /\
    NoDup taken /\ (forall j, j ∈ taken -> i <= j < i + Z.of_nat n /\ tb b j = false) /\
    (forall j, 0 <= j < 8 * zlen b -> tb b' j = tb b j || bool_decide (j ∈ taken)) /\
    (zlen blocks + zlen taken = target \/ forall j, i <= j < i + Z.of_nat n -> tb b' j = true).
Proof.
  induction n as [|n IH]; intros b i blocks Hi Hn Hb Ht.
  - exists b, []. cbn. rewrite app_nil_r. split_and!; [done|done|lia|apply NoDup_nil_2|intros j Hj; by apply elem_of_nil in Hj|intros j _; by rewrite orb_false_r|right; lia].
  - cbn [take_bits]. rewrite usize_small by lia. cbn [mbind R_bind]. rewrite bit_at_ok by lia. cbn [mbind R_bind]. destruct (tb b i) eqn:Ei.
    + destruct (IH b (i + 1) blocks ltac:(lia) ltac:(lia) Hb Ht) as (b' & taken & -> & Hz & Hle & Hd & Hin & Htb & Hend). exists b', taken. split_and!; [done|done|done|done| |done|].
      * intros j Hj. destruct (Hin j Hj). split; [lia|done].
      * destruct Hend as [|Hall]; [by left|right]. intros j Hj. destruct (Z.eq_dec j i) as [->|]; [by rewrite Htb, Ei by lia|apply Hall; lia].
    + destruct (set_bit_ok b i ltac:(lia)) as (b1 & -> & Z1 & T1). cbn [mbind R_bind]. rewrite length_app. cbn [length].
      destruct (Z.eqb_spec (Z.of_nat (length blocks + 1)) target) as [E|E].
      * exists b1, [i]. cbn. split_and!; [done|done|lia|apply NoDup_singleton|intros j ->%list_elem_of_singleton; split; [lia|done]| |left; lia].
        intros j Hj. rewrite T1 by lia. f_equal. destruct (Z.eqb_spec j i) as [->|Hne]; [by rewrite bool_decide_eq_true_2 by left|rewrite bool_decide_eq_false_2; [done|by rewrite list_elem_of_singleton]].
      * destruct (IH b1 (i + 1) (blocks ++ [start + i]) ltac:(lia) ltac:(lia) ltac:(lia) ltac:(rewrite length_app; cbn [length]; lia)) as (b' & taken & -> & Hz & Hle & Hd & Hin & Htb & Hend).
        rewrite length_app in Hle, Hend. cbn [length] in Hle, Hend. assert (i ∉ taken) as Hni by (intros Hin2; destruct (Hin i Hin2); lia).
        exists b', (i :: taken). cbn [map length]. split_and!; [by rewrite <- app_assoc|lia|lia|by apply list.NoDup_cons| | |].
        -- intros j [->|Hj]%elem_of_cons; [split; [lia|done]|]. destruct (Hin j Hj) as [Hr Hf]. split; [lia|]. rewrite T1 in Hf by lia. by apply orb_false_iff in Hf as [? _].
        -- intros j Hj. rewrite Htb, T1 by lia. rewrite <- orb_assoc. f_equal. destruct (Z.eqb_spec j i) as [->|Hne]; [by rewrite (bool_decide_eq_true_2 (i ∈ i :: taken)) by left|].
           cbn [orb]. apply bool_decide_ext. rewrite elem_of_cons. intuition.
        -- destruct Hend as [|Hall]; [left; lia|right]. intros j Hj. destruct (Z.eq_dec j i) as [->|]; [|apply Hall; lia]. rewrite Htb, T1, Z.eqb_refl, orb_true_r by lia. done.
Qed.

(** The whole group. *)
Lemma take_group_ok b start blocks target n : 0 <= n <= 8 * zlen b -> 8 * zlen b <= U32_MAX -> zlen blocks < target ->
  exists b' taken, take_bits (Z.to_nat n) b start 0 blocks target = Ok (b', blocks ++ map (Z.add start) taken) /\ zlen b' = zlen b /\ zlen blocks + zlen taken <= target /\
    NoDup taken /\ (forall j, j ∈ taken -> 0 <= j < n /\ tb b j = false) /\ (forall j, 0 <= j < n -> tb b' j = tb b j || bool_decide (j ∈ taken)) /\
    clears b n = clears b' n + zlen taken /\ (zlen blocks + zlen taken = target \/ clears b' n = 0).
Proof.
  intros Hn Hb Ht. destruct (take_bits_ok (Z.to_nat n) start target b 0 blocks) as (b' & taken & -> & Hz & Hle & Hd & Hin & Htb & Hend); [lia|lia|lia|lia|].
  rewrite Z2Nat.id in * by lia. exists b', taken. assert (forall j, j ∈ taken -> 0 <= j < n /\ tb b j = false) as Hin' by (intros j Hj; destruct (Hin j Hj); split; [lia|done]).
  split_and!; [done|done|done|done|done|intros j Hj; apply Htb; lia| |].
  - apply clears_taken; [done|done|]. intros j Hj. apply Htb. lia.
  - destruct Hend as [|Hall]; [by left|right]. apply clears_zero. intros j Hj. apply Hall. lia.
Qed.

Lemma clear_bits_ok reserved indices : forall b, zlen reserved = zlen b -> 8 * zlen b <= U32_MAX -> Forall (fun i => 0 <= i < 8 * zlen b) indices ->
  match clear_bits indices reserved b with
  | Ok b' => zlen b' = zlen b /\ NoDup indices /\ (forall i, i ∈ indices -> tb b i = true /\ tb reserved i = false) /\
      (forall j, 0 <= j < 8 * zlen b -> tb b' j = tb b j && negb (bool_decide (j ∈ indices)))
  | Err e => e = ECorrupt InvalidExtentTree
  | Panic => False
  end.
Proof.
  induction indices as [|i indices IH]; intros b Hr Hb Hin; cbn [clear_bits].
  - split_and!; [done|apply NoDup_nil_2|intros i Hi; by apply elem_of_nil in Hi|intros j _; by rewrite andb_true_r].
  - inversion_clear Hin as [|? ? Hi Hin']. rewrite usize_small by lia. cbn [mbind R_bind]. rewrite !bit_at_ok by lia. cbn [mbind R_bind]. destruct (tb reserved i) eqn:Er; [done|]. destruct (tb b i) eqn:Ei; [|done]. cbn [orb negb].
    destruct (clear_bit_ok b i Hi) as (b1 & -> & Z1 & T1). cbn [mbind R_bind]. specialize (IH b1 ltac:(lia) ltac:(lia)). rewrite Z1 in IH. specialize (IH Hin').
    destruct (clear_bits indices reserved b1) as [b'|e|]; [|done|done]. destruct IH as (Hz & Hd & Hin2 & Ht). assert (i ∉ indices) as Hni.
    { intros Hi2. destruct (Hin2 i Hi2) as [E _]. rewrite T1, Z.eqb_refl, andb_false_r in E by lia. done. }
    split_and!; [lia|by apply list.NoDup_cons| |].
    + intros j [->|Hj]%elem_of_cons; [done|]. destruct (Hin2 j Hj) as [E1 E2]. split; [|done]. rewrite T1 in E1 by (rewrite list.Forall_forall in Hin'; by apply Hin'). by apply andb_true_iff in E1 as [? _].
    + intros j Hj. rewrite Ht, T1 by lia. rewrite <- andb_assoc. f_equal. rewrite <- negb_orb. f_equal. destruct (Z.eqb_spec j i) as [->|Hne]; [by rewrite (bool_decide_eq_true_2 (i ∈ i :: indices)) by left|].
      cbn [orb]. apply bool_decide_ext. rewrite elem_of_cons. intuition.
Qed.
End Bits.

(** * The fields of a descriptor *)

(** A field in two halves. *)
Definition f16 (d : list Z) (lo hi : Z) : Z := join 16 (field d lo 2) (field d hi 2).
Definition f32 (d : list Z) (lo hi : Z) : Z := join 32 (field d lo 4) (field d hi 4).

(** [d'] is [d] but for some fields. *)
Definition keeps (offs : list (Z * Z)) (d d' : list Z) : Prop :=
  zlen d' = zlen d /\ forall o n, 0 <= o -> 0 <= n -> Forall (fun w => o + n <= fst w \/ fst w + snd w <= o) offs -> field d' o n = field d o n.

Lemma fields_trans offs offs' d1 d2 d3 : keeps offs d1 d2 -> keeps offs' d2 d3 -> keeps (offs ++ offs') d1 d3.
Proof. intros [Z1 F1] [Z2 F2]. split; [lia|]. intros o n Ho Hn Hw. apply list.Forall_app in Hw as [? ?]. rewrite F2, F1 by done. done. Qed.

Section Fields.
Context `{Crc}.

Lemma split16_ok d lo hi : 0 <= lo -> 0 <= hi -> lo + 2 <= zlen d -> hi + 2 <= zlen d -> split16 d lo hi = Ok (f16 d lo hi).
Proof. intros. unfold split16, le16. rewrite !slice_ok by lia. done. Qed.
Lemma split32_ok d lo hi : 0 <= lo -> 0 <= hi -> lo + 4 <= zlen d -> hi + 4 <= zlen d -> split32 d lo hi = Ok (f32 d lo hi).
Proof. intros. unfold split32, le32. rewrite !slice_ok by lia. done. Qed.

Lemma f16_range d lo hi : 0 <= lo -> 0 <= hi -> lo + 2 <= zlen d -> hi + 2 <= zlen d -> 0 <= f16 d lo hi < 2 ^ 32.
Proof.
  intros. pose proof (field_range d lo 2 ltac:(lia) ltac:(lia) ltac:(lia)). pose proof (field_range d hi 2 ltac:(lia) ltac:(lia) ltac:(lia)). apply (join_range 16 _ _ 16); lia.
Qed.

Lemma put_le16_keeps d off x : 0 <= off -> off + 2 <= zlen d -> put_le16 d off x = Ok (splice d off (to_le_bytes 2 x)) /\ keeps [(off, 2)] d (splice d off (to_le_bytes 2 x)).
Proof.
  intros. unfold put_le16. split; [apply put_ok; rewrite ?length_to_le_bytes; lia|]. split; [rewrite length_splice; rewrite ?length_to_le_bytes; lia|].
  intros o n Ho Hn Hw. inversion_clear Hw as [|? ? Hw' _]. cbn [fst snd] in Hw'. apply field_out; rewrite ?length_to_le_bytes; lia.
Qed.

Lemma join16_split v : 0 <= v < 2 ^ 32 -> join 16 (u16 v) (u16 (v ≫ 16)) = v.
Proof.
  intros Hv. rewrite (wrap_small 16 (v ≫ 16)) by (unfold fits; rewrite Z.shiftr_div_pow2 by lia; Z.to_euclidean_division_equations; lia). unfold join, wrap. rewrite <- Z.land_ones by lia.
  apply Z.bits_inj'. intros n Hn. rewrite Z.lor_spec. destruct (Z.lt_ge_cases n 16).
  - rewrite Z.shiftl_spec_low, Z.land_spec, Z.ones_spec_low by lia. by rewrite andb_true_r.
  - rewrite Z.shiftl_spec, Z.shiftr_spec, Z.land_spec, Z.ones_spec_high by lia. rewrite andb_false_r, orb_false_r. f_equal. lia.
Qed.

Lemma put_split16_ok d lo hi v : 0 <= lo -> 0 <= hi -> lo + 2 <= zlen d -> hi + 2 <= zlen d -> lo + 2 <= hi -> 0 <= v < 2 ^ 32 ->
  exists d', put_split16 d lo hi v = Ok d' /\ f16 d' lo hi = v /\ keeps [(lo, 2); (hi, 2)] d d'.
Proof.
  intros Hlo Hhi Hl1 Hl2 Hd Hv. unfold put_split16. destruct (put_le16_keeps d lo (u16 v) Hlo Hl1) as [-> K1]. cbn [mbind R_bind]. set (d1 := splice d lo _) in *. pose proof K1 as [Z1 F1].
  destruct (put_le16_keeps d1 hi (u16 (v ≫ 16)) Hhi ltac:(lia)) as [-> K2]. pose proof K2 as [Z2 F2]. eexists. split; [done|]. split; [|apply (fields_trans [(lo, 2)] [(hi, 2)] d d1); done].
  assert (forall x, 0 <= u16 x < 256 ^ Z.of_nat 2) as Hu by (intros x; pose proof (wrap_fits 16 x ltac:(lia)) as Hf; unfold fits in Hf; cbn; lia).
  unfold f16. rewrite F2 by (first [lia|constructor; [cbn; lia|constructor]]). transitivity (join 16 (u16 v) (u16 (v ≫ 16))); [|by apply join16_split]. f_equal; [apply (field_le d lo 2); [lia|lia|apply Hu]|apply (field_le d1 hi 2); [lia|lia|apply Hu]].
Qed.

Lemma keeps_f16 offs d d' lo hi : keeps offs d d' -> 0 <= lo -> 0 <= hi -> Forall (fun w => lo + 2 <= fst w \/ fst w + snd w <= lo) offs -> Forall (fun w => hi + 2 <= fst w \/ fst w + snd w <= hi) offs ->
  f16 d' lo hi = f16 d lo hi.
Proof. intros [_ F] ? ? ? ?. unfold f16. rewrite !F by (done || lia). done. Qed.
Lemma keeps_f32 offs d d' lo hi : keeps offs d d' -> 0 <= lo -> 0 <= hi -> Forall (fun w => lo + 4 <= fst w \/ fst w + snd w <= lo) offs -> Forall (fun w => hi + 4 <= fst w \/ fst w + snd w <= hi) offs ->
  f32 d' lo hi = f32 d lo hi.
Proof. intros [_ F] ? ? ? ?. unfold f32. rewrite !F by (done || lia). done. Qed.

Definition d_free (d : list Z) : Z := f16 d 0x0c 0x2c.
Definition d_bitmap (d : list Z) : Z := f32 d 0 0x20.

(** The fields an allocation changes. *)
Lemma decrement_ok d amount : zlen d = 64 -> 0 <= amount <= d_free d ->
  exists d', decrement_descriptor_free_blocks_by d amount = Ok d' /\ d_free d' = d_free d - amount /\ keeps [(0x0c, 2); (0x2c, 2)] d d'.
Proof.
  intros Hz Ha. unfold decrement_descriptor_free_blocks_by, free_blocks. rewrite split16_ok by lia. cbn [mbind R_bind]. fold (d_free d). pose proof (f16_range d 0x0c 0x2c) as Hr. fold (d_free d) in Hr.
  rewrite (proj2 (Z.ltb_ge _ _)), (proj2 (Z.ltb_ge U32_MAX _)) by (unfold U32_MAX; lia). apply put_split16_ok; lia.
Qed.

Lemma increment_ok d amount blocks : zlen d = 64 -> 0 <= amount -> d_free d + amount <= blocks -> blocks <= U32_MAX ->
  exists d', increment_descriptor_free_blocks d amount blocks = Ok d' /\ d_free d' = d_free d + amount /\ keeps [(0x0c, 2); (0x2c, 2)] d d'.
Proof.
  intros Hz Ha Hb Hu. unfold increment_descriptor_free_blocks, free_blocks. rewrite split16_ok by lia. cbn [mbind R_bind]. fold (d_free d). pose proof (f16_range d 0x0c 0x2c) as Hr. fold (d_free d) in Hr.
  unfold U32_MAX, U64_MAX in *. rewrite (proj2 (Z.ltb_ge _ (d_free d + amount))), (proj2 (Z.ltb_ge blocks _)), (proj2 (Z.ltb_ge 4294967295 _)) by lia. cbn [orb]. apply put_split16_ok; lia.
Qed.

Lemma descriptor_checksum_ok seed group d : zlen d = 64 -> exists d', update_group_descriptor_checksum seed group d = Ok d' /\ keeps [(0x1e, 2)] d d'.
Proof.
  intros Hz. unfold update_group_descriptor_checksum. destruct (put_le16_keeps d 0x1e 0 ltac:(lia) ltac:(lia)) as [-> K1]. cbn [mbind R_bind]. set (d1 := splice d 30 _) in *. pose proof K1 as [Z1 F1].
  destruct (put_le16_keeps d1 0x1e (u16 (checksum seed (to_le_bytes 4 group ++ d1))) ltac:(lia) ltac:(lia)) as [-> [Z2 F2]]. eexists. split; [done|]. split; [lia|].
  intros o n Ho Hn Hw. rewrite F2, F1 by done. done.
Qed.

Lemma seal_group_ok fs group d bitmap : zlen d = 64 -> 0 <= blocks_per_group (superblock fs) ->
  exists d', seal_group fs group d bitmap = Ok d' /\ keeps [(0x18, 2); (0x38, 2); (0x1e, 2)] d d'.
Proof.
  intros Hz Hb. unfold seal_group, block_bitmap_checksum. assert (0 <= div_ceil (blocks_per_group (superblock fs)) 8) as Hd by (unfold div_ceil; Z.to_euclidean_division_equations; lia).
  rewrite slice_ok by lia. cbn [mbind R_bind]. set (c := checksum _ _). pose proof (checksum_fits (checksum_seed (superblock fs)) (sl bitmap 0 (Z.min (div_ceil (blocks_per_group (superblock fs)) 8) (zlen bitmap)))) as Hc. fold c in Hc. unfold fits in Hc.
  destruct (put_split16_ok d 0x18 0x38 c) as (d1 & -> & _ & K1); [lia..|]. cbn [mbind R_bind]. destruct K1 as [Z1 F1]. destruct (descriptor_checksum_ok (checksum_seed (superblock fs)) group d1 ltac:(lia)) as (d2 & -> & K2).
  exists d2. split; [done|]. apply (fields_trans [(24, 2); (56, 2)] [(30, 2)] d d1); [done|done].
Qed.
End Fields.

(** * Lists by key *)

Definition assoc {A} (k : Z) (l : list (Z * A)) : option A := snd <$> (snd <$> list_find (fun w => fst w = k) l).

Section Assoc.
Context {A : Type}.
Implicit Types l : list (Z * A).

Lemma assoc_nil k : assoc k (@nil (Z * A)) = None.
Proof. done. Qed.
Lemma assoc_cons k k' (v : A) l : assoc k ((k', v) :: l) = if decide (k' = k) then Some v else assoc k l.
Proof.
  unfold assoc. cbn [list_find]. unfold compose. cbn [fst]. destruct (decide (k' = k)); [done|]. by destruct (list_find _ l) as [[? ?]|].
Qed.

Lemma assoc_None k l : assoc k l = None <-> k ∉ l.*1.
Proof.
  induction l as [|[k' v] l IH]; [by rewrite assoc_nil; split; [intros _; apply not_elem_of_nil|]|]. rewrite assoc_cons. cbn [fmap list_fmap fst]. rewrite not_elem_of_cons.
  destruct (decide (k' = k)) as [->|]; [split; [done|intros [? _]; done]|]. rewrite IH. split; [intros; split; [congruence|done]|by intros [_ ?]].
Qed.

Lemma assoc_app k l l' : assoc k (l ++ l') = match assoc k l with Some v => Some v | None => assoc k l' end.
Proof. induction l as [|[k' v] l IH]; [done|]. cbn [app]. rewrite !assoc_cons. by destruct (decide (k' = k)). Qed.

Lemma binary_search_assoc k l :
  match binary_search k l with
  | inl i => exists v, l !! i = Some (k, v) /\ assoc k l = Some v
  | inr i => assoc k l = None /\ i = length (filter (fun e => fst e < k) l)
  end.
Proof.
  unfold binary_search, assoc. destruct (list_find _ l) as [[i [k' v]]|] eqn:E; [|done]. apply list_find_Some in E as (Hi & Hk & _). cbn in Hk. subst k'. by exists v.
Qed.

(** ** Insertion and removal *)

Lemma assoc_insert_at k k' (v : A) pos l : k' ∉ l.*1 -> assoc k (insert_at pos (k', v) l) = if decide (k' = k) then Some v else assoc k l.
Proof.
  intros Hk. unfold insert_at. rewrite assoc_app, assoc_cons. destruct (decide (k' = k)) as [<-|].
  - assert (assoc k' (take pos l) = None) as ->; [|done]. apply assoc_None. intros Hin. apply Hk. rewrite <- (take_drop pos l), fmap_app. apply elem_of_app. by left.
  - by rewrite <- assoc_app, take_drop.
Qed.

Lemma assoc_delete k k' (v : A) i l : NoDup l.*1 -> l !! i = Some (k', v) -> assoc k (delete i l) = if decide (k' = k) then None else assoc k l.
Proof.
  intros Hd Hi. rewrite delete_take_drop, assoc_app. pose proof (take_drop_middle l i (k', v) Hi) as E. rewrite <- E in Hd. rewrite fmap_app, fmap_cons in Hd. cbn [fst] in Hd.
  apply list.NoDup_app in Hd as (_ & Hd1 & Hd2). apply list.NoDup_cons in Hd2 as [Hd2 _]. assert (assoc k l = assoc k (take i l ++ (k', v) :: drop (S i) l)) as -> by (by rewrite E). rewrite assoc_app, assoc_cons. destruct (decide (k' = k)) as [<-|]; [|done].
  assert (assoc k' (take i l) = None) as -> by (apply assoc_None; intros Hin; apply (Hd1 k' Hin); left). by apply assoc_None.
Qed.

Lemma keys_delete i k (v : A) l : NoDup l.*1 -> l !! i = Some (k, v) -> NoDup (delete i l).*1 /\ (k ∉ (delete i l).*1) /\ forall x, x ∈ (delete i l).*1 -> x ∈ l.*1.
Proof.
  intros Hd Hi. rewrite delete_take_drop, fmap_app. pose proof (take_drop_middle l i (k, v) Hi) as E. rewrite <- E in Hd. rewrite fmap_app, fmap_cons in Hd. cbn [fst] in Hd.
  apply list.NoDup_app in Hd as (Hd0 & Hd1 & Hd2). apply list.NoDup_cons in Hd2 as [Hd2 Hd3]. split_and!.
  - apply list.NoDup_app. split_and!; [done| |done]. intros x Hx Hx2. apply (Hd1 x Hx). by right.
  - rewrite not_elem_of_app. split; [|done]. intros Hx. apply (Hd1 k Hx). left.
  - intros x Hx. rewrite <- E, fmap_app, fmap_cons. apply elem_of_app in Hx as [|]; apply elem_of_app; [by left|right; by right].
Qed.

Lemma keys_insert_at pos k (v : A) l : (insert_at pos (k, v) l).*1 ≡ₚ k :: l.*1.
Proof. unfold insert_at. rewrite fmap_app, fmap_cons. cbn [fst]. rewrite <- Permutation_middle, <- fmap_app, take_drop. done. Qed.

(** The list stays in order, as the binary search needs it. *)
Abbreviation ordered l := (StronglySorted Z.lt l.*1).

Lemma ordered_NoDup l : ordered l -> NoDup l.*1.
Proof.
  intros Hs. induction Hs as [|k ks _ IH Hk]; [apply NoDup_nil_2|]. apply list.NoDup_cons. split; [|done]. rewrite list.Forall_forall in Hk. intros Hin. specialize (Hk k Hin). lia.
Qed.

Lemma ordered_delete i l : ordered l -> ordered (delete i l).
Proof.
  revert i. induction l as [|[k v] l IH]; intros i Hs; [done|]. cbn [fmap list_fmap fst] in Hs. apply StronglySorted_inv in Hs as [Hs Hk]. destruct i as [|i]; [done|]. cbn [delete list_delete fmap list_fmap fst].
  constructor; [by apply IH|]. rewrite list.Forall_forall in *. intros x Hx. apply Hk. rewrite list_elem_of_fmap in Hx |- *. destruct Hx as (y & -> & Hy). exists y. split; [done|].
  change (y ∈ delete i l) in Hy. rewrite delete_take_drop in Hy. apply elem_of_app in Hy as [Hy|Hy]; [by eapply elem_of_take in Hy as (? & ? & _); eapply list_elem_of_lookup_2|].
  rewrite <- (take_drop (S i) l). apply elem_of_app. by right.
Qed.

Lemma ordered_insert k (v : A) l : ordered l -> k ∉ l.*1 -> ordered (insert_at (position k l) (k, v) l).
Proof.
  intros Hs Hk. assert (position k l = length (filter (fun e => fst e < k) l)) as ->.
  { unfold position. pose proof (binary_search_assoc k l) as Hb. destruct (binary_search k l); [|by destruct Hb]. destruct Hb as (v' & _ & E). apply assoc_None in Hk. congruence. }
  induction l as [|[k' v'] l IH]; [constructor; [constructor|constructor]|]. cbn [fmap list_fmap fst] in Hs, Hk. apply StronglySorted_inv in Hs as [Hs Hle]. apply not_elem_of_cons in Hk as [Hne Hk].
  rewrite filter_cons. cbn [fst]. destruct (decide (k' < k)) as [Hlt|Hge].
  - cbn [length]. unfold insert_at. cbn [take drop]. change (StronglySorted Z.lt (k' :: (insert_at (length (filter (fun e => fst e < k) l)) (k, v) l).*1)).
    constructor; [by apply IH|]. rewrite list.Forall_forall in *. intros x Hx. rewrite keys_insert_at in Hx. apply elem_of_cons in Hx as [->|Hx]; [done|by apply Hle].
  - assert (filter (fun e : Z * A => fst e < k) l = []) as ->.
    { destruct (filter (fun e : Z * A => fst e < k) l) as [|e es] eqn:E; [done|]. assert (e ∈ filter (fun e : Z * A => fst e < k) l) as [H1 H2]%list_elem_of_filter by (rewrite E; left).
      rewrite list.Forall_forall in Hle. specialize (Hle e.1 ltac:(apply list_elem_of_fmap; by exists e)). lia. }
    unfold insert_at. cbn [length take drop app]. constructor; [constructor; done|]. cbn. constructor; [cbn; lia|]. eapply Forall_impl; [exact Hle|]. cbn. lia.
Qed.
End Assoc.
