(* ===== verification/AllocSpec.v ===== *)
(** What the allocator promises: an allocation takes blocks that were free, once
    each, marks exactly these, and fails only when too few are left; a release
    gives back exactly the blocks it is told, and only blocks in use. *)

From Stdlib Require Import ZArith Lia Bool.
From stdpp Require Import base option list numbers sorting.
From S2P Require Import Prelude Ext4 DirEdit DirFacts Alloc AllocFacts.
Local Open Scope machine_scope.

Section Spec.
Context `{Crc} (fs : Ext4) (s : Storage) (dirty : list (Z * list Z)).
Abbreviation sb := (superblock fs).
Abbreviation bs := (block_size sb).
Abbreviation gc := (group_count sb).

(** What the profile of a mutable filesystem says of the geometry. *)
Record geometry : Prop := {
  geo_block : 0 <= bs /\ 8 * bs <= U32_MAX;
  geo_group : 0 < blocks_per_group sb <= 8 * bs;
  geo_first : 0 <= first_data_block sb < blocks_count sb;
  geo_count : blocks_count sb <= U64_MAX;
  geo_groups : div_ceil (blocks_count sb - first_data_block sb) (blocks_per_group sb) <= U32_MAX
}.
Context (geo : geometry).

Definition start_of (g : Z) : Z := first_data_block sb + g * blocks_per_group sb.
Definition blocks_of (g : Z) : Z := Z.min (blocks_count sb - start_of g) (blocks_per_group sb).

Lemma start_lt g : 0 <= g < gc -> start_of g < blocks_count sb.
Proof.
  intros [Hg0 Hg]. destruct geo as [_ [Hb _] [Hf0 Hf] _ _]. unfold group_count, start_of in *. assert (g < div_ceil (blocks_count sb - first_data_block sb) (blocks_per_group sb)) as Hlt.
  { eapply Z.lt_le_trans; [exact Hg|]. unfold wrap. apply Z.mod_le; [|lia]. unfold div_ceil. apply Z.div_pos; lia. }
  unfold div_ceil in Hlt. Z.to_euclidean_division_equations. nia.
Qed.

Lemma group_start_ok g : 0 <= g < gc -> group_start fs g = Ok (start_of g).
Proof. intros Hg. pose proof (start_lt g Hg). pose proof (geo_count geo). unfold group_start, checked. fold (start_of g). by rewrite (proj2 (Z.leb_le _ _)) by lia. Qed.

Lemma group_blocks_ok g : 0 <= g < gc -> group_blocks fs g (start_of g) = Ok (blocks_of g).
Proof. intros Hg. pose proof (start_lt g Hg). unfold group_blocks. by rewrite (proj2 (Z.ltb_ge _ _)) by lia. Qed.

Lemma blocks_of_range g : 0 <= g < gc -> 0 < blocks_of g <= 8 * bs.
Proof. intros Hg. pose proof (start_lt g Hg). destruct geo as [_ ? _ _ _]. unfold blocks_of. lia. Qed.

(** A descriptor and a bitmap that agree. *)
Record consistent (g : Z) (d b : list Z) : Prop := {
  co_descriptor : zlen d = 64;
  co_bitmap : zlen b = bs;
  co_free : d_free d = clears b (blocks_of g)
}.

(** The groups as the filesystem has them. *)
Definition disk_ok : Prop := forall g, 0 <= g < gc -> exists d b, fresh_group fs s dirty g = Ok (d, b) /\ consistent g d b.

(** A group as an allocation has it. *)
Definition view (groups : list (Z * GroupEdit)) (g : Z) : R (list Z * list Z) :=
  match assoc g groups with Some e => edited_group fs s dirty g e | None => fresh_group fs s dirty g end.

(** The checksums of an edited group. *)
Definition sealed (g : Z) (e : GroupEdit) : Prop :=
  match ge_bitmap e with Some (_, b) => verify_block_bitmap_checksum fs g (ge_descriptor e) b = Ok tt | None => True end /\
  group_checksum (checksum_seed sb) g (ge_descriptor e) = Ok (field (ge_descriptor e) 0x1e 2).

Record groups_ok (groups : list (Z * GroupEdit)) : Prop := {
  go_ordered : StronglySorted Z.lt groups.*1;
  go_range : forall g, g ∈ groups.*1 -> 0 <= g < gc;
  go_sealed : forall g e, assoc g groups = Some e -> sealed g e;
  go_view : forall g, 0 <= g < gc -> exists d b, view groups g = Ok (d, b) /\ consistent g d b
}.

Lemma groups_ok_nil : disk_ok -> groups_ok [].
Proof. intros Hd. split; [constructor|intros g Hg; by apply elem_of_nil in Hg|done|exact Hd]. Qed.

(** ** Checksums *)

Lemma sl_three (d : list Z) i j : 0 <= i <= j -> j <= zlen d -> sl d 0 i ++ sl d i (j - i) ++ sl d j (zlen d - j) = d.
Proof.
  intros Hi Hj. unfold sl. change (Z.to_nat 0) with 0%nat. rewrite drop_0, (take_ge (drop (Z.to_nat j) d)) by (rewrite length_drop; lia).
  replace (drop (Z.to_nat j) d) with (drop (Z.to_nat (j - i)) (drop (Z.to_nat i) d)) by (rewrite drop_drop; f_equal; lia). by rewrite !take_drop.
Qed.

(** The descriptor's own checksum is the one the reader computes. *)
Lemma descriptor_sum_ok seed g d : zlen d = 64 ->
  exists d', update_group_descriptor_checksum seed g d = Ok d' /\ keeps [(0x1e, 2)] d d' /\ group_checksum seed g d' = Ok (field d' 0x1e 2).
Proof.
  intros Hz. unfold update_group_descriptor_checksum. destruct (put_le16_keeps d 0x1e 0 ltac:(lia) ltac:(lia)) as [-> [Z1 F1]]. cbn [mbind R_bind].
  set (d1 := splice d 30 (to_le_bytes 2 0)) in *. set (c := u16 (checksum seed (to_le_bytes 4 g ++ d1))). destruct (put_le16_keeps d1 0x1e c ltac:(lia) ltac:(lia)) as [-> [Z2 F2]].
  set (d2 := splice d1 30 (to_le_bytes 2 c)) in *. exists d2. split_and!; [done|split; [lia|intros o n Ho Hn Hw; by rewrite F2, F1]|].
  assert (field d2 0x1e 2 = c) as -> by (apply (field_le d1 30 2); [lia|lia|]; pose proof (wrap_fits 16 (checksum seed (to_le_bytes 4 g ++ d1)) ltac:(lia)) as Hf; fold c in Hf; unfold fits in Hf; cbn; lia).
  unfold group_checksum. rewrite !slice_ok by lia. cbn [mbind R_bind]. assert (sl d2 0 30 ++ to_le_bytes 2 0 ++ sl d2 32 (zlen d2 - 32) = d1) as ->; [|done].
  assert (sl d2 0 30 = sl d1 0 30) as -> by (apply sl_splice_out; rewrite ?length_to_le_bytes; lia). assert (sl d2 32 (zlen d2 - 32) = sl d1 32 (zlen d1 - 32)) as -> by (rewrite Z2; apply sl_splice_out; rewrite ?length_to_le_bytes; lia).
  assert (to_le_bytes 2 0 = sl d1 30 2) as ->; [|apply (sl_three d1 30 32); lia]. symmetry. apply (sl_splice_in d 30 (to_le_bytes 2 0)); rewrite ?length_to_le_bytes; lia.
Qed.

Lemma seal_sealed g d b number d' : zlen d = 64 -> seal_group fs g d b = Ok d' -> sealed g (mkEdit d' (Some (number, b))).
Proof.
  intros Hz Hs. unfold seal_group in Hs. unfold sealed, verify_block_bitmap_checksum. cbn [ge_bitmap ge_descriptor].
  destruct (block_bitmap_checksum fs b) as [c| |] eqn:Ec; [|done|done]. cbn [mbind R_bind] in Hs |- *.
  assert (fits 32 c) as Hc.
  { unfold block_bitmap_checksum in Ec. destruct (slice b 0 _) as [x| |]; [|done|done]. cbn [mbind R_bind] in Ec. injection Ec as <-. apply checksum_fits. }
  destruct (put_split16_ok d 0x18 0x38 c) as (d1 & E1 & F1 & K1); [lia..|done|]. rewrite E1 in Hs. cbn [mbind R_bind] in Hs. pose proof K1 as [Z1 _].
  destruct (descriptor_sum_ok (checksum_seed sb) g d1 ltac:(lia)) as (d2 & E2 & K2 & Hsum). rewrite E2 in Hs. assert (d' = d2) as -> by congruence. pose proof K2 as [Z2 _]. split; [|done].
  rewrite split16_ok by lia. cbn [mbind R_bind]. assert (f16 d2 0x18 0x38 = c) as ->; [|by rewrite Z.eqb_refl].
  rewrite <- F1. apply (keeps_f16 _ _ _ _ _ K2); [lia|lia| |]; repeat (constructor; [cbn; lia|]); constructor.
Qed.

(** * One group *)

Lemma sealed_view g d b number : zlen d = 64 -> d_bitmap d = number -> edited_group fs s dirty g (mkEdit d (Some (number, b))) = Ok (d, b).
Proof. intros Hz <-. unfold edited_group, block_bitmap_number. cbn [ge_descriptor ge_bitmap]. rewrite split32_ok by lia. fold (d_bitmap d). cbn [mbind R_bind]. by rewrite Z.eqb_refl. Qed.

(** An edit read again is sealed. *)
Lemma edited_sealed g e d b number : sealed g e -> edited_group fs s dirty g e = Ok (d, b) -> sealed g (mkEdit d (Some (number, b))).
Proof.
  intros [S1 S2] He. unfold edited_group in He. destruct (block_bitmap_number (ge_descriptor e)) as [n| |]; [|done|done]. cbn [mbind R_bind] in He. unfold sealed. cbn [ge_bitmap ge_descriptor].
  destruct (ge_bitmap e) as [[n' x]|]; [destruct (n' =? n); cbn [mbind R_bind] in He; [|done]; by injection He as <- <-|].
  destruct (read_owned_block fs s dirty n) as [x| |]; cbn [mbind R_bind] in He; [|done|done]. destruct (verify_block_bitmap_checksum fs g (ge_descriptor e) x) as [[]| |] eqn:E; cbn [mbind R_bind] in He; [|done|done].
  by injection He as <- <-.
Qed.

(** The edits without one group, and with it again. *)
Lemma groups_put groups rest g e d b : groups_ok groups -> 0 <= g < gc -> StronglySorted Z.lt rest.*1 -> g ∉ rest.*1 -> (forall x, x ∈ rest.*1 -> x ∈ groups.*1) ->
  (forall h, h <> g -> assoc h rest = assoc h groups) -> sealed g e -> edited_group fs s dirty g e = Ok (d, b) -> consistent g d b ->
  let groups' := insert_at (position g rest) (g, e) rest in
  groups_ok groups' /\ (forall h, h <> g -> view groups' h = view groups h) /\ view groups' g = Ok (d, b).
Proof.
  intros [G1 G2 G3 G4] Hg Ho Hni Hsub Has Hse Hed Hco groups'.
  assert (forall h, assoc h groups' = if decide (g = h) then Some e else assoc h rest) as Ha by (intros h; by apply assoc_insert_at).
  assert (forall h, h <> g -> view groups' h = view groups h) as Hv by (intros h Hne; unfold view; rewrite Ha, decide_False, Has by done; done).
  assert (view groups' g = Ok (d, b)) as Hvg by (unfold view; rewrite Ha, decide_True by done; done).
  split; [|done]. split.
  - by apply ordered_insert.
  - intros h Hh. unfold groups' in Hh. rewrite keys_insert_at in Hh. apply elem_of_cons in Hh as [->|Hh]; [done|]. by apply G2, Hsub.
  - intros h e' Hh. rewrite Ha in Hh. destruct (decide (g = h)) as [<-|Hne]; [by injection Hh as <-|]. rewrite Has in Hh by done. by apply G3.
  - intros h Hh. destruct (Z.eq_dec h g) as [->|Hne]; [by exists d, b|]. rewrite Hv by done. by apply G4.
Qed.

(** The edits a group's step starts from. *)
Lemma group_rest groups g : groups_ok groups ->
  match binary_search g groups with
  | inl pos => exists e, groups !! pos = Some (g, e) /\ assoc g groups = Some e /\ StronglySorted Z.lt (delete pos groups).*1 /\ (g ∉ (delete pos groups).*1) /\
      (forall x, x ∈ (delete pos groups).*1 -> x ∈ groups.*1) /\ forall h, h <> g -> assoc h (delete pos groups) = assoc h groups
  | inr _ => assoc g groups = None /\ g ∉ groups.*1
  end.
Proof.
  intros [G1 G2 G3 G4]. pose proof (binary_search_assoc g groups) as Hb. destruct (binary_search g groups) as [pos|pos].
  - destruct Hb as (e & Hp & Ha). exists e. pose proof (ordered_NoDup groups G1) as Hd. destruct (keys_delete pos g e groups Hd Hp) as (_ & Hni & Hsub).
    split_and!; [done|done|by apply ordered_delete|done|done|]. intros h Hne. rewrite (assoc_delete h g e pos groups Hd Hp), decide_False by done. done.
  - destruct Hb as [Ha _]. split; [done|]. by apply assoc_None.
Qed.

(** What a group's step does. *)
Record stepped (target g : Z) (a a' : Allocation) (taken : list Z) : Prop := {
  st_groups : groups_ok (al_groups a');
  st_blocks : al_blocks a' = al_blocks a ++ map (Z.add (start_of g)) taken;
  st_target : zlen (al_blocks a') <= target;
  st_distinct : NoDup taken;
  st_others : forall h, h <> g -> view (al_groups a') h = view (al_groups a) h;
  st_group : exists d b d' b', view (al_groups a) g = Ok (d, b) /\ view (al_groups a') g = Ok (d', b') /\
    (forall j, j ∈ taken -> 0 <= j < blocks_of g /\ tb b j = false) /\
    (forall j, 0 <= j < blocks_of g -> tb b' j = tb b j || bool_decide (j ∈ taken)) /\
    d_free d = d_free d' + zlen taken /\ (zlen (al_blocks a') = target \/ d_free d' = 0)
}.

Lemma stepped_nothing target g a groups' d b : groups_ok groups' -> zlen (al_blocks a) <= target -> (forall h, h <> g -> view groups' h = view (al_groups a) h) ->
  view (al_groups a) g = Ok (d, b) -> view groups' g = Ok (d, b) -> zlen (al_blocks a) = target \/ d_free d = 0 -> stepped target g a (mkAlloc (al_blocks a) groups') [].
Proof.
  intros Hok Ht Hv Hg Hg' Hend. split; cbn [al_blocks al_groups]; [done|by rewrite app_nil_r|done|apply NoDup_nil_2|done|].
  exists d, b, d, b. split_and!; [done|done|intros j Hj; by apply elem_of_nil in Hj|intros j _; by rewrite orb_false_r|cbn; lia|done].
Qed.

(** The blocks taken from a group with free ones. *)
Lemma take_step target a rest g d b : groups_ok (al_groups a) -> 0 <= g < gc -> zlen (al_blocks a) < target ->
  StronglySorted Z.lt rest.*1 -> g ∉ rest.*1 -> (forall x, x ∈ rest.*1 -> x ∈ (al_groups a).*1) -> (forall h, h <> g -> assoc h rest = assoc h (al_groups a)) ->
  view (al_groups a) g = Ok (d, b) -> consistent g d b -> d_free d <> 0 ->
  exists a' taken,
    (t ← take_bits (Z.to_nat (blocks_of g)) b (start_of g) 0 (al_blocks a) target;
     let '(bitmap, taken) := t in
     let count := zlen taken - zlen (al_blocks a) in
     if count =? 0 then Ok (mkAlloc taken rest) else
     d' ← decrement_descriptor_free_blocks_by d count;
     d' ← seal_group fs g d' bitmap;
     Ok (mkAlloc taken (insert_at (position g rest) (g, mkEdit d' (Some (d_bitmap d, bitmap))) rest))) = Ok a' /\ stepped target g a a' taken.
Proof.
  intros Hok Hg Ht Hs Hni Hsub Has Hv [C1 C2 C3] Hf. pose proof (blocks_of_range g Hg) as Hbl. pose proof (geo_block geo) as Hgb. pose proof (geo_group geo) as Hgg.
  destruct (take_group_ok b (start_of g) (al_blocks a) target (blocks_of g)) as (b' & taken & -> & Hz & Hle & Hd & Hin & Htb & Hcl & Hend); [lia|lia|lia|]. cbn [mbind R_bind].
  rewrite length_app, length_map. replace (Z.of_nat (length (al_blocks a) + length taken) - zlen (al_blocks a)) with (zlen taken) by lia.
  assert (0 < zlen taken) as Hpos by (unfold clears in *; destruct taken; cbn [length] in *; lia). rewrite (proj2 (Z.eqb_neq _ 0)) by lia.
  destruct (decrement_ok d (zlen taken) C1) as (d1 & -> & F1 & K1); [unfold clears in *; lia|]. cbn [mbind R_bind]. pose proof K1 as [Z1 _].
  destruct (seal_group_ok fs g d1 b') as (d2 & E2 & K2); [lia|lia|]. rewrite E2. cbn [mbind R_bind]. pose proof K2 as [Z2 _].
  assert (d_bitmap d2 = d_bitmap d) as Eb by (apply (keeps_f32 _ _ _ _ _ (fields_trans _ _ _ _ _ K1 K2)); [lia|lia| |]; repeat (constructor; [cbn; lia|]); constructor).
  assert (d_free d2 = d_free d1) as Ef by (apply (keeps_f16 _ _ _ _ _ K2); [lia|lia| |]; repeat (constructor; [cbn; lia|]); constructor).
  destruct (groups_put (al_groups a) rest g (mkEdit d2 (Some (d_bitmap d, b'))) d2 b') as (P1 & P2 & P3); try done; [by eapply seal_sealed; [|exact E2]; lia|apply sealed_view; [lia|done]|split; lia|].
  eexists _, taken. split; [done|]. split; cbn [al_blocks al_groups]; [done|done|rewrite length_app, length_map; lia|done|done|].
  exists d, b, d2, b'. split_and!; [done|done|done|done|lia|]. rewrite length_app, length_map. destruct Hend; [left; lia|right; lia].
Qed.

Lemma extend_group_ok target a g : groups_ok (al_groups a) -> 0 <= g < gc -> zlen (al_blocks a) <= target -> exists a' taken, extend_group fs s dirty target a g = Ok a' /\ stepped target g a a' taken.
Proof.
  intros Hok Hg Ht. pose proof Hok as [G1 G2 G3 G4]. destruct (G4 g Hg) as (d & b & Hv & Hco). pose proof Hco as [C1 C2 C3]. unfold extend_group.
  destruct (Z.eqb_spec (zlen (al_blocks a)) target) as [E|E].
  { exists a, []. split; [done|]. destruct a. by eapply stepped_nothing; try done; left. }
  pose proof (group_rest (al_groups a) g Hok) as Hr. pose proof Hv as Hv'. unfold view in Hv'. destruct (binary_search g (al_groups a)) as [pos|pos].
  - destruct Hr as (e & Hp & Ha & R1 & R2 & R3 & R4). rewrite Hp. rewrite Ha in Hv'. rewrite Hv'. cbn [mbind R_bind]. unfold block_bitmap_number, free_blocks. rewrite split32_ok, split16_ok by lia.
    fold (d_bitmap d) (d_free d). rewrite group_start_ok by done. cbn [mbind R_bind]. rewrite group_blocks_ok by done. cbn [mbind R_bind]. destruct (Z.eqb_spec (d_free d) 0) as [E0|E0]; [|by apply take_step; try done; lia].
    eexists _, []. split; [done|]. destruct (groups_put (al_groups a) (delete pos (al_groups a)) g (mkEdit d (Some (d_bitmap d, b))) d b) as (P1 & P2 & P3); try done.
    + by apply (edited_sealed g e); [apply G3|].
    + by apply sealed_view.
    + by eapply stepped_nothing; try done; right.
  - destruct Hr as [Ha Hni]. rewrite Ha in Hv'. rewrite Hv'. cbn [mbind R_bind]. unfold block_bitmap_number, free_blocks. rewrite split32_ok, split16_ok by lia.
    fold (d_bitmap d) (d_free d). rewrite group_start_ok by done. cbn [mbind R_bind]. rewrite group_blocks_ok by done. cbn [mbind R_bind]. destruct (Z.eqb_spec (d_free d) 0) as [E0|E0]; [|by apply take_step; try done; lia].
    eexists _, []. split; [done|]. by eapply stepped_nothing; try done; right.
Qed.

(** * The whole filesystem *)

(** The group and the place in it of a block. *)
Definition group_of (x : Z) : Z := (x - first_data_block sb) / blocks_per_group sb.
Definition index_of (x : Z) : Z := (x - first_data_block sb) mod blocks_per_group sb.
Definition in_fs (x : Z) : Prop := first_data_block sb <= x < blocks_count sb.

Lemma group_of_range x : in_fs x -> 0 <= group_of x < gc.
Proof.
  intros Hx. destruct geo as [_ [Hb _] [Hf0 Hf] _ Hg]. unfold in_fs, group_of, group_count in *. split; [apply Z.div_pos; lia|]. rewrite wrap_small.
  - unfold div_ceil. Z.to_euclidean_division_equations. nia.
  - unfold fits. unfold U32_MAX in Hg. split; [unfold div_ceil; apply Z.div_pos; lia|lia].
Qed.

(** A block is in use. *)
Definition used (groups : list (Z * GroupEdit)) (x : Z) : bool := match view groups (group_of x) with Ok (_, b) => tb b (index_of x) | _ => true end.

(** The free blocks of a group and of all, as the descriptors count them. *)
Definition free_in (groups : list (Z * GroupEdit)) (g : Z) : Z := match view groups g with Ok (d, _) => d_free d | _ => 0 end.
Fixpoint sum_over (f : Z -> Z) (l : list Z) : Z := match l with [] => 0 | g :: l => f g + sum_over f l end.
Definition total_free (groups : list (Z * GroupEdit)) : Z := sum_over (free_in groups) (seqZ 0 gc).

Lemma block_place x g i : 0 <= g -> 0 <= i < blocks_per_group sb -> x = start_of g + i -> group_of x = g /\ index_of x = i.
Proof.
  intros Hg Hi ->. destruct geo as [_ Hb _ _ _]. unfold group_of, index_of, start_of. replace (first_data_block sb + g * blocks_per_group sb + i - first_data_block sb) with (i + g * blocks_per_group sb) by lia.
  rewrite Z.div_add, Z.mod_add, Z.div_small, Z.mod_small by lia. lia.
Qed.

Lemma place_block x : in_fs x -> 0 <= group_of x < gc /\ 0 <= index_of x < blocks_of (group_of x) /\ x = start_of (group_of x) + index_of x.
Proof.
  intros Hx. pose proof (group_of_range x Hx) as Hg. destruct geo as [_ Hb _ _ _]. unfold in_fs, group_of, index_of, blocks_of, start_of in *. pose proof (Z.div_mod (x - first_data_block sb) (blocks_per_group sb) ltac:(lia)) as E.
  pose proof (Z.mod_pos_bound (x - first_data_block sb) (blocks_per_group sb) ltac:(lia)). pose proof (Z.div_pos (x - first_data_block sb) (blocks_per_group sb) ltac:(lia) ltac:(lia)). split; [lia|]. split; lia.
Qed.

Lemma sum_ext f f' l : (forall g, g ∈ l -> f g = f' g) -> sum_over f l = sum_over f' l.
Proof. induction l as [|g l IH]; intros Hf; [done|]. cbn. rewrite Hf by left. f_equal. apply IH. intros h Hh. apply Hf. by right. Qed.

Lemma sum_change f f' g n l : NoDup l -> g ∈ l -> (forall h, h <> g -> f h = f' h) -> f g = f' g + n -> sum_over f l = sum_over f' l + n.
Proof.
  intros Hd Hin Hf Hg. induction l as [|h l IH]; [by apply elem_of_nil in Hin|]. cbn. apply list.NoDup_cons in Hd as [Hni Hd]. apply elem_of_cons in Hin as [<-|Hin].
  - rewrite Hg, (sum_ext f f' l); [lia|]. intros x Hx. apply Hf. intros ->. done.
  - rewrite IH by done. rewrite Hf by (intros ->; done). lia.
Qed.

Lemma sum_zero f l : (forall g, g ∈ l -> f g = 0) -> sum_over f l = 0.
Proof. intros Hf. induction l as [|g l IH]; [done|]. cbn. rewrite Hf by left. rewrite IH; [done|]. intros h Hh. apply Hf. by right. Qed.

(** What a number of steps does to the filesystem. *)
Record extended (target : Z) (a a' : Allocation) (new : list Z) : Prop := {
  ex_groups : groups_ok (al_groups a');
  ex_blocks : al_blocks a' = al_blocks a ++ new;
  ex_target : zlen (al_blocks a') <= target;
  ex_distinct : NoDup new;
  ex_new : forall x, x ∈ new -> in_fs x /\ used (al_groups a) x = false;
  ex_used : forall x, in_fs x -> used (al_groups a') x = used (al_groups a) x || bool_decide (x ∈ new);
  ex_free : total_free (al_groups a) = total_free (al_groups a') + zlen new
}.

Lemma extended_refl target a : groups_ok (al_groups a) -> zlen (al_blocks a) <= target -> extended target a a [].
Proof.
  intros Hok Ht. split; [done|by rewrite app_nil_r|done|apply NoDup_nil_2|intros x Hx; by apply elem_of_nil in Hx|intros x _; by rewrite orb_false_r|cbn; lia].
Qed.

Lemma extended_trans target a a1 a2 new1 new2 : extended target a a1 new1 -> extended target a1 a2 new2 -> extended target a a2 (new1 ++ new2).
Proof.
  intros [A1 A2 A3 A4 A5 A6 A7] [B1 B2 B3 B4 B5 B6 B7]. split; [done|by rewrite B2, A2, (assoc_L (++))|done| | | |rewrite length_app; lia].
  - apply list.NoDup_app. split_and!; [done| |done]. intros x Hx1 Hx2. destruct (B5 x Hx2) as [Hfs Hu]. rewrite A6, bool_decide_eq_true_2, orb_true_r in Hu by done. done.
  - intros x [Hx|Hx]%elem_of_app; [by apply A5|]. destruct (B5 x Hx) as [Hfs Hu]. split; [done|]. rewrite A6 in Hu by done. by apply orb_false_iff in Hu as [? _].
  - intros x Hx. rewrite B6, A6, <- orb_assoc by done. f_equal. rewrite <- bool_decide_or. apply bool_decide_ext. by rewrite elem_of_app.
Qed.

Lemma stepped_extended target g a a' taken : 0 <= g < gc -> stepped target g a a' taken -> extended target a a' (map (Z.add (start_of g)) taken).
Proof.
  intros Hg [S1 S2 S3 S4 S5 (d & b & d' & b' & V1 & V2 & Hin & Htb & Hfr & _)]. pose proof (geo_group geo) as Hgg. pose proof (blocks_of_range g Hg) as Hbl. pose proof (start_lt g Hg) as Hst.
  assert (forall j, 0 <= j < blocks_of g -> in_fs (start_of g + j) /\ group_of (start_of g + j) = g /\ index_of (start_of g + j) = j) as Hpl.
  { intros j Hj. unfold blocks_of in Hj. destruct (block_place (start_of g + j) g j ltac:(lia) ltac:(lia) eq_refl) as [E1 E2]. split; [|done]. unfold in_fs. pose proof (geo_first geo). unfold start_of in *. split; [nia|lia]. }
  split; [done|done|done| | | |].
  - apply NoDup_fmap; [intros x y; lia|done].
  - intros x Hx. apply list_elem_of_fmap in Hx as (j & -> & Hj). destruct (Hin j Hj) as [Hr Hf]. destruct (Hpl j Hr) as (? & E1 & E2). split; [done|]. unfold used. by rewrite E1, E2, V1.
  - intros x Hx. destruct (place_block x Hx) as (P1 & P2 & P3). unfold used. destruct (Z.eq_dec (group_of x) g) as [E|E].
    + rewrite E in P2, P3 |- *. rewrite V1, V2, Htb by done. f_equal. apply bool_decide_ext. rewrite list_elem_of_fmap. split; [intros Hj; by exists (index_of x)|intros (j & Ej & Hj)]. assert (j = index_of x) as <- by lia. done.
    + rewrite S5 by done. rewrite bool_decide_eq_false_2, orb_false_r; [done|]. intros Hj. apply list_elem_of_fmap in Hj as (j & -> & Hj). destruct (Hin j Hj) as [Hr _]. by destruct (Hpl j Hr) as (_ & E1 & _).
  - unfold total_free. rewrite length_map. apply (sum_change _ _ g); [apply NoDup_seqZ|by apply elem_of_seqZ| |]; unfold free_in; [intros h Hh; by rewrite S5|by rewrite V1, V2].
Qed.

Lemma extend_groups_ok target order : forall a, groups_ok (al_groups a) -> zlen (al_blocks a) <= target -> NoDup order -> (forall g, g ∈ order -> 0 <= g < gc) ->
  exists a' new, extend_groups fs s dirty target a order = Ok a' /\ extended target a a' new /\ (zlen (al_blocks a') = target \/ forall g, g ∈ order -> free_in (al_groups a') g = 0) /\
    (forall g, g ∉ order -> view (al_groups a') g = view (al_groups a) g).
Proof.
  induction order as [|g order IH]; intros a Hok Ht Hd Hin.
  - exists a, []. split_and!; [done|by apply extended_refl|right; intros g Hg; by apply elem_of_nil in Hg|done].
  - apply list.NoDup_cons in Hd as [Hni Hd]. pose proof (Hin g ltac:(left)) as Hg. cbn [extend_groups]. destruct (extend_group_ok target a g Hok Hg Ht) as (a1 & taken & -> & Hst). cbn [mbind R_bind].
    pose proof Hst as [S1 S2 S3 S4 S5 (d & b & d' & b' & V1 & V2 & _ & _ & _ & Hend)].
    destruct (IH a1 S1 S3 Hd) as (a' & new & -> & Hex & Hend2 & Hv); [intros h Hh; apply Hin; by right|]. exists a', (map (Z.add (start_of g)) taken ++ new). split_and!; [done| | |].
    + eapply extended_trans; [by apply stepped_extended|done].
    + destruct Hend2 as [|Hz]; [by left|]. destruct Hend as [He|He].
      * left. pose proof Hex as [_ B2 B3 _ _ _ _]. rewrite B2, length_app in *. lia.
      * right. intros h [->|Hh]%elem_of_cons; [|by apply Hz]. unfold free_in. rewrite Hv by done. by rewrite V2.
    + intros h Hh. apply not_elem_of_cons in Hh as [Hh1 Hh2]. rewrite Hv, S5 by done. done.
Qed.

Lemma unedited_spec groups g : unedited groups g = true <-> g ∉ groups.*1.
Proof.
  unfold unedited. pose proof (binary_search_assoc g groups) as Hb. destruct (binary_search g groups).
  - destruct Hb as (v & _ & Ha). split; [done|]. intros Hn. apply assoc_None in Hn. congruence.
  - destruct Hb as [Ha _]. apply assoc_None in Ha. done.
Qed.

(** The order visits every group once. *)
Lemma group_order_ok groups : groups_ok groups -> NoDup (group_order fs groups) /\ forall g, g ∈ group_order fs groups <-> 0 <= g < gc.
Proof.
  intros [G1 G2 _ _]. unfold group_order. change (map fst groups) with (groups.*1). split.
  - apply list.NoDup_app. split_and!; [by apply ordered_NoDup| |apply NoDup_filter, NoDup_seqZ]. intros g Hg [Hu _]%list_elem_of_filter. by apply unedited_spec in Hu.
  - intros g. rewrite elem_of_app, list_elem_of_filter, elem_of_seqZ, unedited_spec. split; [intros [Hg|[_ Hg]]; [by apply G2|lia]|]. intros Hg. destruct (decide (g ∈ groups.*1)); [by left|right; split; [done|lia]].
Qed.

Lemma total_free_nonneg groups : groups_ok groups -> 0 <= total_free groups.
Proof.
  intros Hok. unfold total_free. assert (forall l, (forall g, g ∈ l -> 0 <= g < gc) -> 0 <= sum_over (free_in groups) l) as Hs; [|apply Hs; intros g Hg; apply elem_of_seqZ in Hg; lia].
  induction l as [|g l IH]; intros Hl; [done|]. cbn. specialize (IH (fun h Hh => Hl h (list_elem_of_further _ _ _ Hh))). unfold free_in at 1. destruct (go_view _ Hok g (Hl g ltac:(left))) as (d & b & -> & [_ _ Hf]). unfold clears in Hf. lia.
Qed.

Lemma extend_allocation_ok a wanted : groups_ok (al_groups a) -> 0 <= wanted -> zlen (al_blocks a) + wanted <= U32_MAX ->
  match extend_allocation fs s dirty a wanted with
  | Ok a' => wanted <= total_free (al_groups a) /\ exists new, zlen new = wanted /\ extended (zlen (al_blocks a) + wanted) a a' new
  | Err e => e = ECorrupt InvalidFreeBlockCount /\ total_free (al_groups a) < wanted
  | Panic => False
  end.
Proof.
  intros Hok Hw Hu. unfold extend_allocation. rewrite (proj2 (Z.ltb_ge _ _)) by lia. destruct (group_order_ok _ Hok) as [Hd Hin].
  destruct (extend_groups_ok (zlen (al_blocks a) + wanted) (group_order fs (al_groups a)) a Hok ltac:(lia) Hd) as (a' & new & -> & Hex & Hend & _); [intros g Hg; by apply Hin|]. cbn [mbind R_bind].
  pose proof Hex as [E1 E2 E3 E4 E5 E6 E7]. pose proof (total_free_nonneg _ E1) as Hpos.
  assert (zlen (al_blocks a') = zlen (al_blocks a) + zlen new) as El by (rewrite E2, length_app; lia).
  destruct (Z.eqb_spec (zlen (al_blocks a')) (zlen (al_blocks a) + wanted)) as [E|E]; cbn [negb].
  - split; [lia|]. exists new. split; [lia|done].
  - split; [done|]. destruct Hend as [|Hz]; [done|]. assert (total_free (al_groups a') = 0) by (apply sum_zero; intros g Hg; apply Hz, Hin; apply elem_of_seqZ in Hg; lia). lia.
Qed.

(** The requests of an operation one after the other. *)
Fixpoint run_requests (a : Allocation) (ws : list Z) : R Allocation :=
  match ws with [] => Ok a | w :: ws => a ← extend_allocation fs s dirty a w; run_requests a ws end.

Definition total (ws : list Z) : Z := sum_over (fun w => w) ws.

Lemma total_nonneg ws : Forall (Z.le 0) ws -> 0 <= total ws.
Proof. induction 1 as [|w ws Hw _ IH]; [done|]. unfold total in *. cbn. lia. Qed.

Lemma run_requests_ok ws : forall a, groups_ok (al_groups a) -> Forall (Z.le 0) ws -> zlen (al_blocks a) + total ws <= U32_MAX ->
  match run_requests a ws with
  | Ok a' => total ws <= total_free (al_groups a) /\ exists new, zlen new = total ws /\ extended U32_MAX a a' new
  | Err e => e = ECorrupt InvalidFreeBlockCount /\ total_free (al_groups a) < total ws
  | Panic => False
  end.
Proof.
  induction ws as [|w ws IH]; intros a Hok Hws Hu; cbn [run_requests].
  - unfold total in *. cbn in *. split; [by apply total_free_nonneg|exists []; split; [done|apply extended_refl; [done|lia]]].
  - inversion_clear Hws as [|? ? Hw Hws']. pose proof (total_nonneg ws Hws') as Hn. unfold total in *. cbn [sum_over] in *.
    pose proof (extend_allocation_ok a w Hok Hw ltac:(lia)) as HE. destruct (extend_allocation fs s dirty a w) as [a1|e|]; [|destruct HE; split; [done|lia]|done]. cbn [mbind R_bind].
    destruct HE as (Hle & new & Hz & Hex). pose proof Hex as [E1 E2 E3 E4 E5 E6 E7]. specialize (IH a1 E1 Hws' ltac:(lia)). destruct (run_requests a1 ws) as [a'|e|]; [|destruct IH as [-> ?]; split; [done|lia]|done].
    destruct IH as (Hle2 & new2 & Hz2 & Hex2). split; [lia|]. exists (new ++ new2). split; [rewrite length_app; lia|]. eapply extended_trans; [|done]. split; try done. lia.
Qed.

(** * The blocks a group keeps for itself *)

Section Reserved.
Context (g start blocks : Z) (d : list Z).

Definition d_inode_bitmap : Z := f32 d 4 0x24.
Definition d_inode_table : Z := f32 d 8 0x28.
Definition table_blocks : Z := div_ceil (inodes_per_group sb * inode_size sb) bs.
Definition base_blocks : Z := if has_super fs g then 1 + div_ceil (group_count sb * descriptor_size sb) bs + reserved_gdt_blocks sb else 0.

(** The superblock copy with the descriptors, the two bitmaps, the inode table. *)
Definition metadata (x : Z) : bool :=
  in_range start base_blocks x || (x =? d_bitmap d) || (x =? d_inode_bitmap) || in_range d_inode_table table_blocks x.

Lemma in_range_spec lo n j : in_range lo n j = true <-> lo <= j < lo + n.
Proof. unfold in_range. rewrite andb_true_iff, Z.leb_le, Z.ltb_lt. done. Qed.

Lemma in_range_shift lo n j k : in_range lo n j = in_range (lo + k) n (j + k).
Proof. apply eq_true_iff_eq. rewrite !in_range_spec. lia. Qed.

Lemma mark_metadata_ok b m : zlen b = bs -> 0 <= start -> 0 <= blocks <= 8 * bs -> 0 <= m ->
  match mark_metadata fs start (start + blocks) b m with
  | Ok b' => zlen b' = bs /\ forall j, 0 <= j < blocks -> tb b' j = tb b j || (start + j =? m)
  | Err _ => True
  | Panic => False
  end.
Proof.
  intros Hz Hs Hb Hm. pose proof (geo_block geo) as Hgb. unfold mark_metadata. destruct (blocks_count sb <=? m); [done|]. destruct ((start <=? m) && (m <? start + blocks)) eqn:E.
  - apply andb_true_iff in E as [E1%Z.leb_le E2%Z.ltb_lt]. destruct (set_bitmap_range_ok b (m - start) 1) as (b' & -> & Z1 & T1); [lia..|]. split; [lia|]. intros j Hj. rewrite T1 by lia. f_equal.
    apply eq_true_iff_eq. rewrite in_range_spec, Z.eqb_eq. lia.
  - split; [done|]. intros j Hj. rewrite (proj2 (Z.eqb_neq _ _)), orb_false_r; [done|]. intros <-. apply andb_false_iff in E as [E%Z.leb_gt|E%Z.ltb_ge]; lia.
Qed.

Lemma tb_zeros j : tb (zeros bs) j = false.
Proof.
  unfold tb. assert (from_le_bytes (sl (zeros bs) (j / 8) 1) = 0) as ->; [|apply Z.bits_0]. unfold sl, zeros. rewrite drop_replicate, take_replicate. by destruct (_ `min` _)%nat as [|[|]] eqn:E; [| |lia].
Qed.

Lemma initialize_ok : 0 <= start -> 0 <= blocks <= 8 * bs -> zlen d = 64 -> 0 <= inodes_per_group sb -> 0 <= inode_size sb -> 0 <= descriptor_size sb -> 0 <= reserved_gdt_blocks sb -> 0 < bs ->
  match initialize_block_bitmap fs g d start blocks with
  | Ok (b, free) => zlen b = bs /\ free = clears b blocks /\ forall j, 0 <= j < blocks -> tb b j = metadata (start + j)
  | Err _ => True
  | Panic => False
  end.
Proof.
  intros Hs Hb Hz Hi1 Hi2 Hds Hrs Hbs. pose proof (geo_block geo) as Hgb. unfold initialize_block_bitmap. assert (0 <= gc) as Hgc by (apply wrap_fits; lia).
  assert (0 <= div_ceil (gc * descriptor_size sb) bs) as Hdc by (unfold div_ceil; apply Z.div_pos; nia). assert (0 <= table_blocks) as Htb by (unfold table_blocks, div_ceil; apply Z.div_pos; nia).
  assert (forall x, checked x = Ok x \/ exists e, checked x = Err e) as Hch by (intros x; unfold checked; destruct (x <=? U64_MAX); [by left|right; by eexists]).
  destruct (Hch (gc * descriptor_size sb)) as [->|[e ->]]; [|done]. cbn [mbind R_bind].
  assert ((if has_super fs g then r ← checked (1 + div_ceil (gc * descriptor_size sb) bs); checked (r + reserved_gdt_blocks sb) else Ok 0) = Ok base_blocks \/
    exists e, (if has_super fs g then r ← checked (1 + div_ceil (gc * descriptor_size sb) bs); checked (r + reserved_gdt_blocks sb) else Ok 0) = Err e) as Hbase.
  { unfold base_blocks. destruct (has_super fs g); [|by left]. destruct (Hch (1 + div_ceil (gc * descriptor_size sb) bs)) as [->|[e ->]]; [apply Hch|right; by eexists]. }
  destruct Hbase as [->|[e ->]]; [|done]. cbn [mbind R_bind]. assert (0 <= base_blocks) as Hbase by (unfold base_blocks; destruct (has_super fs g); lia).
  destruct (Z.ltb_spec blocks base_blocks) as [|Hle]; [done|]. pose proof (length_zeros bs ltac:(lia)) as Hz0. unfold zero_block.
  destruct (set_bitmap_range_ok (zeros bs) 0 base_blocks) as (b1 & -> & Z1 & T1); [lia..|]. cbn [mbind R_bind]. destruct (Hch (start + blocks)) as [->|[e ->]]; [|done]. cbn [mbind R_bind].
  unfold block_bitmap_number, inode_bitmap_number, inode_table_number. rewrite !split32_ok by lia. cbn [mbind R_bind]. fold (d_bitmap d) d_inode_bitmap d_inode_table.
  assert (forall lo hi, 0 <= lo -> 0 <= hi -> lo + 4 <= 64 -> hi + 4 <= 64 -> 0 <= f32 d lo hi) as Hf32.
  { intros lo hi ? ? ? ?. pose proof (field_range d lo 4 ltac:(lia) ltac:(lia) ltac:(lia)). pose proof (field_range d hi 4 ltac:(lia) ltac:(lia) ltac:(lia)). apply (join_range 32 _ _ 32); lia. }
  pose proof (mark_metadata_ok b1 (d_bitmap d) ltac:(lia) Hs Hb ltac:(apply Hf32; lia)) as M1. destruct (mark_metadata fs start (start + blocks) b1 (d_bitmap d)) as [b2| |]; [|done|done]. destruct M1 as [Z2 T2]. cbn [mbind R_bind].
  pose proof (mark_metadata_ok b2 d_inode_bitmap Z2 Hs Hb ltac:(apply Hf32; lia)) as M2. destruct (mark_metadata fs start (start + blocks) b2 d_inode_bitmap) as [b3| |]; [|done|done]. destruct M2 as [Z3 T3]. cbn [mbind R_bind].
  destruct (Hch (inodes_per_group sb * inode_size sb)) as [->|[e ->]]; [|done]. cbn [mbind R_bind]. fold table_blocks. destruct ((U64_MAX <? _) || _); [done|].
  assert (0 <= d_inode_table) as Hit by (apply Hf32; lia). set (lo := Z.max d_inode_table start). set (hi := Z.min (d_inode_table + table_blocks) (start + blocks)).
  assert (exists b4, (if lo <? hi then set_bitmap_range b3 (lo - start) (hi - lo) else Ok b3) = Ok b4 /\ zlen b4 = bs /\ forall j, 0 <= j < blocks -> tb b4 j = tb b3 j || in_range d_inode_table table_blocks (start + j)) as (b4 & -> & Z4 & T4).
  { destruct (Z.ltb_spec lo hi) as [Hlt|Hge].
    - destruct (set_bitmap_range_ok b3 (lo - start) (hi - lo)) as (b4 & -> & Z4 & T4); [lia..|]. exists b4. split_and!; [done|lia|]. intros j Hj. rewrite T4 by lia. f_equal. apply eq_true_iff_eq. rewrite !in_range_spec. lia.
    - exists b3. split_and!; [done|done|]. intros j Hj. assert (in_range d_inode_table table_blocks (start + j) = false) as ->; [|by rewrite orb_false_r]. apply not_true_iff_false. rewrite in_range_spec. lia. }
  cbn [mbind R_bind]. rewrite Z4. rewrite (wrap_small 64) by (unfold fits; unfold U32_MAX in *; lia). destruct (set_bitmap_range_ok b4 blocks (bs * 8 - blocks)) as (b5 & -> & Z5 & T5); [lia..|]. cbn [mbind R_bind].
  rewrite count_used by lia. cbn [mbind R_bind]. split_and!; [lia|lia|]. intros j Hj. rewrite T5, T4, T3, T2, T1 by lia. rewrite tb_zeros. cbn [orb]. unfold metadata.
  assert (in_range blocks (bs * 8 - blocks) j = false) as -> by (apply not_true_iff_false; rewrite in_range_spec; lia). rewrite orb_false_r. rewrite (in_range_shift 0 base_blocks j start), Z.add_0_l, (Z.add_comm j start). done.
Qed.
End Reserved.

(** * Release *)

(** The blocks of the releases collected so far. *)
Definition released_in (r : Z * list Z) : list Z := map (Z.add (start_of r.1)) r.2.
Definition blocks_in (releases : list (Z * list Z)) : list Z := concat (map released_in releases).

Definition release_ok (r : Z * list Z) : Prop := 0 <= r.1 < gc /\ NoDup r.2 /\ forall i, i ∈ r.2 -> 0 <= i < blocks_of r.1.
Definition releases_ok (releases : list (Z * list Z)) : Prop := StronglySorted Z.lt releases.*1 /\ Forall release_ok releases.

Lemma blocks_in_app r1 r2 : blocks_in (r1 ++ r2) = blocks_in r1 ++ blocks_in r2.
Proof. unfold blocks_in. by rewrite map_app, concat_app. Qed.

Lemma add_release_ok releases g i : releases_ok releases -> 0 <= g < gc -> 0 <= i < blocks_of g ->
  match add_release releases g i with
  | Ok releases' => releases_ok releases' /\ blocks_in releases' ≡ₚ (start_of g + i) :: blocks_in releases
  | Err e => e = ECorrupt InvalidExtentTree
  | Panic => False
  end.
Proof.
  intros [Ho Hr] Hg Hi. unfold add_release. pose proof (binary_search_assoc g releases) as Hb. destruct (binary_search g releases) as [pos|pos] eqn:Ebs.
  - destruct Hb as (idx & Hp & _). rewrite Hp. destruct (bool_decide_reflect (i ∈ idx)) as [|Hni]; [done|]. pose proof (take_drop_middle releases pos _ Hp) as E. pose proof (lookup_lt_Some _ _ _ Hp) as Hlt.
    pose proof (Forall_lookup_1 _ _ _ _ Hr Hp) as (R1 & R2 & R3). cbn [fst snd] in *. split; [split|].
    + rewrite list_fmap_insert. cbn [fst]. rewrite list_insert_id; [done|]. by rewrite list_lookup_fmap, Hp.
    + apply Forall_insert; [done|]. split_and!; cbn [fst snd]; [lia..| |].
      * apply list.NoDup_app. split_and!; [done|intros x Hx ->%list_elem_of_singleton; done|apply NoDup_singleton].
      * intros x [Hx|Hx]%elem_of_app; [by apply R3|]. apply list_elem_of_singleton in Hx as ->. done.
    + rewrite insert_take_drop by done. rewrite <- E at 3. rewrite !blocks_in_app. unfold blocks_in at 2 4. cbn [map concat]. unfold released_in at 1 3. cbn [fst snd]. rewrite map_app. cbn [map].
      rewrite <- (app_assoc (map _ idx)). cbn [app]. rewrite (assoc_L (++)). rewrite <- Permutation_middle. by rewrite <- (assoc_L (++)).
  - destruct Hb as [Ha _]. apply assoc_None in Ha. assert (position g releases = pos) as <- by (unfold position; by rewrite Ebs). split; [split|].
    + by apply ordered_insert.
    + unfold insert_at. apply list.Forall_app. split; [by apply Forall_take|]. constructor; [|by apply Forall_drop]. split_and!; cbn [fst snd]; [lia..|apply NoDup_singleton|intros x ->%list_elem_of_singleton; done].
    + unfold insert_at. rewrite blocks_in_app. replace (blocks_in releases) with (blocks_in (take (position g releases) releases) ++ blocks_in (drop (position g releases) releases)) by (by rewrite <- blocks_in_app, take_drop). unfold blocks_in at 2. cbn [map concat]. unfold released_in at 1. cbn [fst snd map app].
      by rewrite <- Permutation_middle.
Qed.

Lemma release_numbers_ok numbers : forall releases, releases_ok releases -> (forall x, x ∈ numbers -> 0 <= x < blocks_count sb) ->
  match release_numbers fs numbers releases with
  | Ok releases' => releases_ok releases' /\ blocks_in releases' ≡ₚ numbers ++ blocks_in releases /\ forall x, x ∈ numbers -> in_fs x
  | Err _ => True
  | Panic => False
  end.
Proof.
  induction numbers as [|x numbers IH]; intros releases Hok Hin; cbn [release_numbers]; [split_and!; [done|done|intros x Hx; by apply elem_of_nil in Hx]|].
  pose proof (Hin x ltac:(left)) as Hx. unfold release_number at 1. destruct (Z.ltb_spec x (first_data_block sb)) as [|Hfd]; [done|]. fold (group_of x). destruct (U32_MAX <? group_of x); [done|].
  assert (in_fs x) as Hfs by (unfold in_fs; lia). destruct (place_block x Hfs) as (P1 & P2 & P3). rewrite group_start_ok by done. cbn [mbind R_bind]. replace (x - start_of (group_of x)) with (index_of x) by lia.
  pose proof (add_release_ok releases (group_of x) (index_of x) Hok P1 P2) as Ha. destruct (add_release releases (group_of x) (index_of x)) as [r1|e|]; [|done|done]. destruct Ha as [Hok1 Hp1]. cbn [mbind R_bind].
  specialize (IH r1 Hok1 (fun y Hy => Hin y (list_elem_of_further _ _ _ Hy))). destruct (release_numbers fs numbers r1) as [r2|e|]; [|done|done]. destruct IH as (Hok2 & Hp2 & Hall). split_and!; [done| |].
  - rewrite Hp2, Hp1, <- P3. symmetry. apply Permutation_middle.
  - intros y [->|Hy]%elem_of_cons; [done|by apply Hall].
Qed.

(** The blocks of ranges. *)
Definition range_blocks (ranges : list (Z * Z)) : list Z := concat (map (fun r => seqZ r.1 r.2) ranges).

Lemma release_ranges_ok ranges : forall releases released, releases_ok releases -> 0 <= released -> Forall (fun r => 0 <= r.1 /\ 0 <= r.2) ranges ->
  match release_ranges fs ranges releases released with
  | Ok (releases', released') => releases_ok releases' /\ blocks_in releases' ≡ₚ range_blocks ranges ++ blocks_in releases /\ released' = released + zlen (range_blocks ranges) /\
      forall x, x ∈ range_blocks ranges -> in_fs x
  | Err _ => True
  | Panic => False
  end.
Proof.
  induction ranges as [|[p n] ranges IH]; intros releases released Hok Hr Hrs; cbn [release_ranges]; [split_and!; [done|done|cbn; lia|intros x Hx; by apply elem_of_nil in Hx]|].
  inversion_clear Hrs as [|? ? [Hp Hn] Hrs']. cbn [fst snd] in *. unfold checked. destruct (released + n <=? U64_MAX); [|done]. cbn [mbind R_bind].
  destruct (U64_MAX <? p + n); [done|]. destruct (Z.ltb_spec (blocks_count sb) (p + n)) as [|Hle]; [done|]. cbn [orb].
  pose proof (release_numbers_ok (seqZ p n) releases Hok) as H1. destruct (release_numbers fs (seqZ p n) releases) as [r1|e|]; [|done|apply H1; intros y Hy; apply elem_of_seqZ in Hy; lia].
  destruct H1 as (Hok1 & Hp1 & Hin1); [intros y Hy; apply elem_of_seqZ in Hy; lia|]. cbn [mbind R_bind]. specialize (IH r1 (released + n) Hok1 ltac:(lia) Hrs').
  destruct (release_ranges fs ranges r1 (released + n)) as [[r2 n2]|e|]; [|done|done]. destruct IH as (Hok2 & Hp2 & -> & Hin2). unfold range_blocks in *. cbn [map concat fst snd]. split_and!; [done| | |].
  - rewrite Hp2, Hp1. rewrite !(assoc_L (++)). f_equiv. apply Permutation_app_comm.
  - rewrite length_app, length_seqZ. lia.
  - intros y [Hx|Hx]%elem_of_app; [by apply Hin1|by apply Hin2].
Qed.

(** ** The groups of a release *)

Context (Hdisk : disk_ok).
Context (Hsizes : 0 < bs /\ 0 <= inodes_per_group sb /\ 0 <= inode_size sb /\ 0 <= descriptor_size sb /\ 0 <= reserved_gdt_blocks sb).

Lemma clears_le b n : 0 <= n -> clears b n <= n.
Proof. intros. unfold clears, free_list. pose proof (length_filter (fun j => tb b j = false) (seqZ 0 n)). rewrite length_seqZ in *. lia. Qed.

(** A group with a bitmap of its own, as [release_group] reads it. *)
Lemma fresh_parts g d : 0 <= g < gc -> read_group_descriptor fs s g = Ok d -> (fl ← le16 d 0x12; Ok (has_flag fl 2)) = Ok false ->
  exists b, fresh_group fs s dirty g = Ok (d, b) /\ consistent g d b /\ read_owned_block fs s dirty (d_bitmap d) = Ok b /\ verify_block_bitmap_checksum fs g d b = Ok tt.
Proof.
  intros Hg Hd Hfl. destruct (Hdisk g Hg) as (d' & b & Hf & Hco). exists b. pose proof Hf as Hf'. unfold fresh_group in Hf'. rewrite Hd in Hf'. cbn [mbind R_bind] in Hf'.
  destruct (block_bitmap_number d) as [n| |] eqn:En; cbn [mbind R_bind] in Hf'; [|done|done]. destruct (le16 d 18) as [fl| |]; cbn [mbind R_bind] in Hf', Hfl; [|done|done]. injection Hfl as Hfl. rewrite Hfl in Hf'.
  destruct (read_owned_block fs s dirty n) as [x| |] eqn:Er; cbn [mbind R_bind] in Hf'; [|done|done]. destruct (verify_block_bitmap_checksum fs g d x) as [[]| |] eqn:Ev; cbn [mbind R_bind] in Hf'; [|done|done].
  injection Hf' as <- <-. pose proof Hco as [C1 _ _]. unfold block_bitmap_number in En. rewrite split32_ok in En by lia. injection En as <-. done.
Qed.

Lemma fresh_descriptor g d' b : fresh_group fs s dirty g = Ok (d', b) -> exists d, read_group_descriptor fs s g = Ok d /\ zlen d = zlen d'.
Proof.
  unfold fresh_group. destruct (read_group_descriptor fs s g) as [d| |]; [|done|done]. cbn [mbind R_bind]. destruct (block_bitmap_number d); [|done|done]. cbn [mbind R_bind].
  destruct (le16 d 18) as [fl| |]; [|done|done]. cbn [mbind R_bind]. intros Hf. exists d. split; [done|]. destruct (has_flag fl 2).
  - destruct (g =? 0); [done|]. destruct (group_start fs g) as [st| |]; cbn [mbind R_bind] in Hf; [|done|done]. destruct (group_blocks fs g st) as [bl| |]; cbn [mbind R_bind] in Hf; [|done|done].
    destruct (initialize_block_bitmap fs g d st bl) as [[bm fr]| |]; cbn [mbind R_bind] in Hf; [|done|done]. destruct (free_blocks d) as [n| |]; cbn [mbind R_bind] in Hf; [|done|done].
    destruct (negb (n =? fr)); [done|]. destruct (put_le16 d 18 _) as [x| |] eqn:Ep; cbn [mbind R_bind] in Hf; [|done|done]. injection Hf as <- _. unfold put_le16 in Ep. apply put_inv in Ep as (P1 & P2 & ->).
    rewrite length_splice by lia. done.
  - destruct (read_owned_block fs s dirty a) as [x| |]; cbn [mbind R_bind] in Hf; [|done|done]. destruct (verify_block_bitmap_checksum fs g d x) as [[]| |]; cbn [mbind R_bind] in Hf; [|done|done]. by injection Hf as <- _.
Qed.

Lemma release_group_ok g idx : release_ok (g, idx) ->
  match release_group fs s dirty (g, idx) with
  | Ok (g', e) => g' = g /\ sealed g e /\ exists d b d' b', fresh_group fs s dirty g = Ok (d, b) /\ edited_group fs s dirty g e = Ok (d', b') /\ consistent g d' b' /\
      (forall i, i ∈ idx -> tb b i = true /\ metadata g (start_of g) d (start_of g + i) = false) /\
      (forall j, 0 <= j < blocks_of g -> tb b' j = tb b j && negb (bool_decide (j ∈ idx))) /\ d_free d' = d_free d + zlen idx
  | Err _ => True
  | Panic => False
  end.
Proof.
  intros (Hg & Hnd & Hin). cbn [fst snd] in *. pose proof (blocks_of_range g Hg) as Hbl. pose proof (geo_block geo) as Hgb. pose proof (geo_group geo) as Hgg. pose proof (geo_first geo) as Hgf. unfold release_group.
  destruct (Hdisk g Hg) as (d0 & b0 & Hf0 & [C0 _ _]). destruct (fresh_descriptor g d0 b0 Hf0) as (d & Hd & Hz). rewrite C0 in Hz. clear Hf0 C0 d0 b0.
  rewrite Hd. cbn [mbind R_bind]. assert (exists fl, le16 d 18 = Ok fl) as [fl Efl] by (unfold le16; rewrite slice_ok by lia; by eexists). rewrite Efl. cbn [mbind R_bind].
  destruct (has_flag fl 2) eqn:Eflag; [done|]. destruct (fresh_parts g d Hg Hd) as (b & Hf & Hco & Hrd & Hve); [rewrite Efl; cbn [mbind R_bind]; by rewrite Eflag|]. pose proof Hco as [C1 C2 C3].
  unfold block_bitmap_number. rewrite split32_ok by lia. cbn [mbind R_bind]. fold (d_bitmap d). destruct (blocks_count sb <=? d_bitmap d); [done|]. rewrite group_start_ok by done. cbn [mbind R_bind].
  rewrite group_blocks_ok by done. cbn [mbind R_bind]. pose proof (initialize_ok g (start_of g) (blocks_of g) d) as Hi.
  destruct (initialize_block_bitmap fs g d (start_of g) (blocks_of g)) as [[reserved fr]| |]; [|done|apply Hi; unfold start_of; nia]. destruct Hi as (R1 & _ & R3); [unfold start_of; nia..|]. cbn [mbind R_bind].
  rewrite Hrd. cbn [mbind R_bind]. rewrite Hve. cbn [mbind R_bind].
  assert (Forall (fun i => 0 <= i < 8 * zlen b) idx) as Hfor by (apply list.Forall_forall; intros i Hi; specialize (Hin i Hi); lia).
  pose proof (clear_bits_ok reserved idx b ltac:(lia) ltac:(lia) Hfor) as Hc. destruct (clear_bits idx reserved b) as [b'| |]; [|done|done]. destruct Hc as (Hzb & _ & Hused & Htb). cbn [mbind R_bind].
  assert (clears b' (blocks_of g) = clears b (blocks_of g) + zlen idx) as Hcl.
  { apply clears_taken; [done| |].
    - intros i Hi. specialize (Hin i Hi). split; [done|]. rewrite Htb by lia. rewrite bool_decide_eq_true_2 by done. by rewrite andb_false_r.
    - intros j Hj. rewrite Htb by lia. destruct (bool_decide_reflect (j ∈ idx)) as [Hji|]; cbn [negb]; [|by rewrite andb_true_r, orb_false_r]. rewrite andb_false_r. by apply Hused. }
  pose proof (clears_le b' (blocks_of g) ltac:(lia)) as Hcle.
  destruct (increment_ok d (zlen idx) (blocks_of g) C1) as (d1 & -> & F1 & K1); [lia..|]. cbn [mbind R_bind]. pose proof K1 as [Z1 _].
  destruct (seal_group_ok fs g d1 b') as (d2 & E2 & K2); [lia|lia|]. rewrite E2. cbn [mbind R_bind]. pose proof K2 as [Z2 _].
  assert (d_bitmap d2 = d_bitmap d) as Eb by (apply (keeps_f32 _ _ _ _ _ (fields_trans _ _ _ _ _ K1 K2)); [lia|lia| |]; repeat (constructor; [cbn; lia|]); constructor).
  assert (d_free d2 = d_free d1) as Ef by (apply (keeps_f16 _ _ _ _ _ K2); [lia|lia| |]; repeat (constructor; [cbn; lia|]); constructor).
  split; [done|]. split; [by eapply seal_sealed; [|exact E2]; lia|]. exists d, b, d2, b'. split_and!; [done|apply sealed_view; [lia|done]|split; lia| | |lia].
  - intros i Hi. destruct (Hused i Hi) as [U1 U2]. split; [done|]. rewrite <- R3 by (by apply Hin). done.
  - intros j Hj. apply Htb. lia.
Qed.

(** The block is one the group keeps for itself. *)
Definition disk_metadata (x : Z) : bool := match fresh_group fs s dirty (group_of x) with Ok (d, _) => metadata (group_of x) (start_of (group_of x)) d x | _ => false end.

Definition released_as (r : Z * list Z) (ge : Z * GroupEdit) : Prop :=
  ge.1 = r.1 /\ sealed r.1 ge.2 /\ exists d b d' b', fresh_group fs s dirty r.1 = Ok (d, b) /\ edited_group fs s dirty r.1 ge.2 = Ok (d', b') /\ consistent r.1 d' b' /\
    (forall i, i ∈ r.2 -> tb b i = true /\ metadata r.1 (start_of r.1) d (start_of r.1 + i) = false) /\
    (forall j, 0 <= j < blocks_of r.1 -> tb b' j = tb b j && negb (bool_decide (j ∈ r.2))) /\ d_free d' = d_free d + zlen r.2.

Lemma release_groups_ok releases : Forall release_ok releases ->
  match release_groups fs s dirty releases with Ok es => Forall2 released_as releases es | Err _ => True | Panic => False end.
Proof.
  induction 1 as [|[g idx] releases Hr _ IH]; cbn [release_groups]; [constructor|]. pose proof (release_group_ok g idx Hr) as HG.
  destruct (release_group fs s dirty (g, idx)) as [[g' e]| |]; [|done|done]. cbn [mbind R_bind]. destruct (release_groups fs s dirty releases) as [es| |]; [|done|done]. constructor; [|done]. done.
Qed.

(** What a release does to the filesystem. *)
Record gave_back (es : list (Z * GroupEdit)) (blocks : list Z) : Prop := {
  gb_groups : groups_ok es;
  gb_blocks : forall x, x ∈ blocks -> in_fs x /\ used [] x = true /\ disk_metadata x = false;
  gb_used : forall x, in_fs x -> used es x = used [] x && negb (bool_decide (x ∈ blocks));
  gb_free : total_free es = total_free [] + zlen blocks
}.

Lemma gave_back_cons g idx e releases es : 0 <= g < gc -> release_ok (g, idx) -> released_as (g, idx) (g, e) -> StronglySorted Z.lt (g :: es.*1) -> gave_back es (blocks_in releases) ->
  (forall h, h ∈ es.*1 -> h <> g) -> gave_back ((g, e) :: es) (blocks_in ((g, idx) :: releases)).
Proof.
  intros Hg (_ & Hnd & Hin) (_ & Hse & d & b & d' & b' & Hf & He & Hco & Hus & Htb & Hfr) Hso [B1 B2 B3 B4] Hni. cbn [fst snd] in *. pose proof (geo_group geo) as Hgg. pose proof (start_lt g Hg) as Hst.
  assert (assoc g es = None) as Hnone by (apply assoc_None; intros Hx; by apply (Hni g Hx)).
  assert (forall h, view ((g, e) :: es) h = if decide (g = h) then Ok (d', b') else view es h) as Hv by (intros h; unfold view; rewrite assoc_cons; destruct (decide (g = h)) as [<-|]; done).
  assert (view es g = Ok (d, b)) as Hvg by (unfold view; by rewrite Hnone).
  assert (forall j, 0 <= j < blocks_of g -> in_fs (start_of g + j) /\ group_of (start_of g + j) = g /\ index_of (start_of g + j) = j) as Hpl.
  { intros j Hj. unfold blocks_of in Hj. destruct (block_place (start_of g + j) g j ltac:(lia) ltac:(lia) eq_refl) as [E1 E2]. split; [|done]. unfold in_fs. pose proof (geo_first geo). unfold start_of in *. split; [nia|lia]. }
  assert (blocks_in ((g, idx) :: releases) = map (Z.add (start_of g)) idx ++ blocks_in releases) as -> by done.
  split.
  - destruct B1 as [G1 G2 G3 G4]. split.
    + done.
    + intros h [->|Hh]%elem_of_cons; [done|by apply G2].
    + intros h e' Hh. rewrite assoc_cons in Hh. destruct (decide (g = h)) as [<-|]; [by injection Hh as <-|by apply G3].
    + intros h Hh. rewrite Hv. destruct (decide (g = h)) as [<-|]; [by exists d', b'|by apply G4].
  - intros x [Hx|Hx]%elem_of_app; [|by apply B2]. apply list_elem_of_fmap in Hx as (j & -> & Hj). destruct (Hpl j (Hin j Hj)) as (P1 & P2 & P3). destruct (Hus j Hj) as [U1 U2].
    split; [done|]. unfold used, disk_metadata, view. rewrite P2, P3, assoc_nil, Hf. done.
  - intros x Hx. destruct (place_block x Hx) as (P1 & P2 & P3). unfold used at 1. rewrite Hv. destruct (decide (g = group_of x)) as [E|E].
    + rewrite <- E in P2, P3. rewrite Htb by done. assert (used es x = tb b (index_of x)) as Eu by (unfold used; by rewrite <- E, Hvg). rewrite <- Eu, B3 by done. rewrite <- andb_assoc, <- negb_orb. do 2 f_equal.
      rewrite orb_comm, <- bool_decide_or. apply bool_decide_ext. rewrite elem_of_app, list_elem_of_fmap. split; (intros [Hj|Hj]; [left|by right]); [by exists (index_of x)|]. destruct Hj as (j & Ej & Hj). by assert (j = index_of x) as <- by lia.
    + change (match view es (group_of x) with Ok (_, b0) => tb b0 (index_of x) | _ => true end) with (used es x). rewrite B3 by done. do 2 f_equal. apply bool_decide_ext. rewrite elem_of_app. split; [by right|intros [Hj|Hj]; [|done]].
      apply list_elem_of_fmap in Hj as (j & -> & Hj). destruct (Hpl j (Hin j Hj)) as (_ & P4 & _). congruence.
  - rewrite length_app, length_map. assert (total_free ((g, e) :: es) = total_free es + zlen idx) as ->; [|lia]. unfold total_free. apply (sum_change _ _ g); [apply NoDup_seqZ|by apply elem_of_seqZ| |]; unfold free_in.
    + intros h Hh. by rewrite Hv, decide_False by done.
    + by rewrite Hv, decide_True, Hvg by done.
Qed.

Lemma gave_back_all releases es : releases_ok releases -> Forall2 released_as releases es -> gave_back es (blocks_in releases) /\ es.*1 = releases.*1.
Proof.
  intros [Ho Hr] Hf. induction Hf as [|[g idx] [g' e] releases es Hra Hf IH].
  - split; [|done]. split; [by apply groups_ok_nil|intros x Hx; by apply elem_of_nil in Hx|intros x _; by rewrite andb_true_r|cbn; lia].
  - inversion_clear Hr as [|? ? Hr1 Hr2]. cbn [fmap list_fmap fst] in Ho |- *. apply StronglySorted_inv in Ho as [Ho Hlt]. destruct (IH Ho Hr2) as [Hgb Hkeys]. pose proof Hra as [E _]. cbn [fst] in E. subst g'. rewrite Hkeys. split; [|done].
    rewrite <- Hkeys in Ho, Hlt. pose proof Hr1 as [Hg _]. apply gave_back_cons; [done|done|done|by constructor|done|]. intros h Hh ->. rewrite list.Forall_forall in Hlt. specialize (Hlt g Hh). lia.
Qed.

Lemma blocks_in_NoDup releases : releases_ok releases -> NoDup (blocks_in releases).
Proof.
  intros [Ho Hr]. pose proof (geo_group geo) as Hgg. induction Hr as [|[g idx] releases (Hg & Hnd & Hin) Hr IH]; [apply NoDup_nil_2|]. cbn [fmap list_fmap fst snd] in *. apply StronglySorted_inv in Ho as [Ho Hlt].
  change (blocks_in ((g, idx) :: releases)) with (map (Z.add (start_of g)) idx ++ blocks_in releases). apply list.NoDup_app. split_and!; [apply NoDup_fmap; [intros x y; lia|done]| |by apply IH].
  intros x Hx Hx2. apply list_elem_of_fmap in Hx as (j & -> & Hj). specialize (Hin j Hj). unfold blocks_of in Hin. destruct (block_place (start_of g + j) g j ltac:(lia) ltac:(lia) eq_refl) as [E1 _].
  unfold blocks_in in Hx2. apply list_elem_of_In, in_concat in Hx2 as (l & Hl & Hxl). apply in_map_iff in Hl as ([h idx2] & <- & Hh). apply in_map_iff in Hxl as (i & Ei & Hi). apply list_elem_of_In in Hh, Hi.
  rewrite list.Forall_forall in Hr. rewrite list.Forall_forall in Hlt. specialize (Hr _ Hh) as (Hh1 & _ & Hh3). cbn [fst snd] in *. specialize (Hh3 i Hi). unfold blocks_of in Hh3.
  destruct (block_place (start_of g + j) h i ltac:(lia) ltac:(lia) ltac:(lia)) as [E2 _]. specialize (Hlt h ltac:(apply list_elem_of_fmap; by exists (h, idx2))). lia.
Qed.

(** C10: blocks are allocated once.  On a filesystem whose counters agree with its
    bitmaps, the requests of an operation succeed exactly when there are enough
    free blocks, without a panic.  They then get as many blocks as they asked
    for, all different, each free before; the bitmaps mark exactly these in
    addition; and every changed bitmap and descriptor carries the checksum the
    reader compares. *)
Theorem blocks_allocated_once ws : Forall (Z.le 0) ws -> total ws <= U32_MAX ->
  match run_requests (mkAlloc [] []) ws with
  | Ok a =>
      total ws <= total_free [] /\ zlen (al_blocks a) = total ws /\ NoDup (al_blocks a) /\
      (forall x, x ∈ al_blocks a -> in_fs x /\ used [] x = false) /\
      (forall x, in_fs x -> used (al_groups a) x = used [] x || bool_decide (x ∈ al_blocks a)) /\
      total_free (al_groups a) = total_free [] - total ws /\
      (forall g e, assoc g (al_groups a) = Some e -> sealed g e)
  | Err e => e = ECorrupt InvalidFreeBlockCount /\ total_free [] < total ws
  | Panic => False
  end.
Proof.
  intros Hws Hu. pose proof (run_requests_ok ws (mkAlloc [] []) (groups_ok_nil Hdisk) Hws) as HR. cbn [al_blocks al_groups length] in HR. specialize (HR ltac:(lia)).
  destruct (run_requests (mkAlloc [] []) ws) as [a|e|]; [|done|done]. destruct HR as (Hle & new & Hz & [E1 E2 E3 E4 E5 E6 E7]). cbn [al_blocks al_groups app] in *. subst new.
  split_and!; [done|done|done|done|done|lia|]. intros g e Ha. by apply (go_sealed _ E1).
Qed.

(** C11: only blocks in use are given back, each once.  On a filesystem whose
    groups can all be read and whose counters agree with the bitmaps
    ([disk_ok]), whatever ranges a release is told, it does not panic.  Where it succeeds the ranges do not overlap, every
    block was marked in use and is none of the blocks a group keeps for its
    superblock copy, descriptors, bitmaps and inodes; the bitmaps are cleared at
    exactly these blocks and the counters raised by their number. *)
Theorem blocks_released_once ranges : Forall (fun r => 0 <= r.1 /\ 0 <= r.2) ranges ->
  match release_blocks fs s dirty ranges with
  | Ok (groups, released) =>
      released = zlen (range_blocks ranges) /\ NoDup (range_blocks ranges) /\
      (forall x, x ∈ range_blocks ranges -> in_fs x /\ used [] x = true /\ disk_metadata x = false) /\
      (forall x, in_fs x -> used groups x = used [] x && negb (bool_decide (x ∈ range_blocks ranges))) /\
      total_free groups = total_free [] + released /\
      (forall g e, assoc g groups = Some e -> sealed g e)
  | Err _ => True
  | Panic => False
  end.
Proof.
  intros Hr. unfold release_blocks. assert (releases_ok []) as H0 by (split; constructor). pose proof (release_ranges_ok ranges [] 0 H0 ltac:(lia) Hr) as HR.
  destruct (release_ranges fs ranges [] 0) as [[releases released]|e|]; [|done|done]. destruct HR as (Hok & Hp & -> & Hin). cbn [mbind R_bind]. rewrite app_nil_r in Hp.
  pose proof (release_groups_ok releases (proj2 Hok)) as HG. destruct (release_groups fs s dirty releases) as [es|e|]; [|done|done]. cbn [mbind R_bind].
  destruct (gave_back_all releases es Hok HG) as [[B1 B2 B3 B4] _]. pose proof (blocks_in_NoDup releases Hok) as Hnd. rewrite Hp in Hnd. split_and!; [lia|done| | | |].
  - intros x Hx. apply B2. by rewrite Hp.
  - intros x Hx. rewrite B3 by done. do 2 f_equal. apply bool_decide_ext. by rewrite Hp.
  - rewrite B4, Hp. lia.
  - intros g e Ha. by apply (go_sealed _ B1).
Qed.
End Spec.

(** * A filesystem with two groups

    Blocks 1 to 39 in groups of 32; the bitmap of the second group is still to be
    made.  Descriptors in block 2, the bitmap of the first group in block 3. *)

Module Sample.

#[local] Instance crc : Crc := {| checksum := fun seed b => u32 (foldl Z.add seed b); checksum_fits := fun c l => wrap_fits 32 (foldl Z.add c l) ltac:(lia) |}.

Definition fill (l : list (Z * list Z)) (b : list Z) : list Z := foldl (fun b w => splice b w.1 w.2) b l.
(** The first group says it has [free] free blocks. *)
Definition descriptors (free : Z) : list Z :=
  fill [(0, [3]); (4, [4]); (8, [5]); (12, [free]); (24, [2; 1]); (30, [15 + free]); (64, [6]); (68, [7]); (72, [8]); (76, [5]); (82, [2]); (94, [29])] (zeros 256).
Definition bitmap0 : list Z := fill [(0, [255; 3])] (zeros 256).
Definition fs_with (free : Z) : Ext4 :=
  mkExt4 (mkSuperblock 4 40 1 256 32 2 128 11 64 0 0x80 0x400 (zeros 16) 0 0 0 (0, 0) 0) [(2, descriptors free); (3, bitmap0)].
Definition fs : Ext4 := fs_with 22.
Definition disk : Storage := mkStorage 65536 (fun _ => 0).

Definition agrees (g : Z) : bool :=
  match fresh_group fs disk [] g with Ok (d, b) => (zlen d =? 64) && (zlen b =? 256) && (d_free d =? clears b (blocks_of fs g)) | _ => false end.

Lemma fs_geometry : geometry fs.
Proof. split; vm_compute; try split; done. Qed.

Lemma fs_disk_ok : disk_ok fs disk [].
Proof.
  assert (forall g, agrees g = true -> exists d b, fresh_group fs disk [] g = Ok (d, b) /\ consistent fs g d b) as Ha.
  { intros g Hg. unfold agrees in Hg. destruct (fresh_group fs disk [] g) as [[d b]| |]; [|done|done]. rewrite !andb_true_iff, !Z.eqb_eq in Hg. destruct Hg as [[H1 H2] H3]. exists d, b. split; [done|]. by split. }
  intros g Hg. apply Ha. change (group_count (superblock fs)) with 2 in Hg. assert (g = 0 \/ g = 1) as [->| ->] by lia; vm_compute; reflexivity.
Qed.

(** Twenty blocks, then five more: the first group is used up. *)
Definition result : list Z := seqZ 11 22 ++ [35; 36; 37].
Lemma requests_run : (a ← run_requests fs disk [] (mkAlloc [] []) [20; 5]; Ok (al_blocks a)) = Ok result.
Proof. vm_compute. reflexivity. Qed.

Lemma blocks_allocated_once_witness : exists a, run_requests fs disk [] (mkAlloc [] []) [20; 5] = Ok a /\ al_blocks a = result /\ NoDup result /\
  used fs disk [] [] 37 = false /\ used fs disk [] (al_groups a) 37 = true.
Proof.
  pose proof (blocks_allocated_once fs disk [] fs_geometry fs_disk_ok [20; 5] ltac:(repeat constructor; discriminate) ltac:(vm_compute; discriminate)) as HT. pose proof requests_run as E.
  destruct (run_requests fs disk [] (mkAlloc [] []) [20; 5]) as [a|e|]; [|discriminate E|discriminate E]. cbn [mbind R_bind] in E. assert (al_blocks a = result) as Ea by congruence.
  destruct HT as (_ & _ & Hd & Hin & Hus & _). rewrite Ea in *. exists a. split; [reflexivity|]. split; [exact Ea|]. split; [exact Hd|].
  assert (37 ∈ result) as H37 by (apply list_elem_of_In; vm_compute; tauto). destruct (Hin 37 H37) as [Hfs Hf]. split; [exact Hf|]. rewrite Hus by exact Hfs. rewrite bool_decide_eq_true_2 by exact H37. apply orb_true_r.
Defined.

Lemma releases_run : (r ← release_blocks fs disk [] [(9, 2)]; Ok (snd r)) = Ok 2.
Proof. vm_compute. reflexivity. Qed.

Lemma blocks_released_once_witness : exists groups, release_blocks fs disk [] [(9, 2)] = Ok (groups, 2) /\ used fs disk [] [] 9 = true /\ used fs disk [] groups 9 = false.
Proof.
  pose proof (blocks_released_once fs disk [] fs_geometry fs_disk_ok ltac:(vm_compute; repeat split; discriminate) [(9, 2)] ltac:(constructor; [vm_compute; split; discriminate|constructor])) as HT. pose proof releases_run as E.
  destruct (release_blocks fs disk [] [(9, 2)]) as [[groups n]|e|]; [|discriminate E|discriminate E]. cbn [mbind R_bind snd] in E. injection E as ->. exists groups. split; [reflexivity|].
  destruct HT as (_ & _ & Hin & Hus & _). assert (9 ∈ range_blocks [(9, 2)]) as H9 by (apply list_elem_of_In; vm_compute; tauto). destruct (Hin 9 H9) as (Hfs & Hu & _).
  split; [exact Hu|]. rewrite Hus by exact Hfs. rewrite bool_decide_eq_true_2 by exact H9. apply andb_false_r.
Defined.

(** ** A counter that is too high

    The counter promises 25 free blocks where the bitmap has 22.  Once these are
    taken the next request finds the group without a free block and forgets the
    edit of its bitmap: 23 blocks are allocated, and only the one of the second
    group is marked in use. *)
Lemma wrong_count_loses_bitmap : (a ← run_requests (fs_with 25) disk [] (mkAlloc [] []) [22; 1]; Ok (zlen (al_blocks a), map fst (al_groups a))) = Ok (23, [1]).
Proof. vm_compute. reflexivity. Qed.
End Sample.
