(* ===== verification/AllocInode.v ===== *)
(** The allocation of inodes: an inode that was free is taken, and only that one
    is marked. *)

From Stdlib Require Import ZArith Lia Bool.
From stdpp Require Import base option list numbers sorting.
From S2P Require Import Prelude Ext4 DirEdit DirFacts Alloc AllocFacts AllocSpec.
Local Open Scope machine_scope.

Section Inodes.
Context `{Crc} (fs : Ext4) (s : Storage) (dirty : list (Z * list Z)).
Abbreviation sb := (superblock fs).
Abbreviation bs := (block_size sb).

(** What [validate_mutation_profile] leaves of the filesystems that mount. *)
Record mutable_fs : Prop := {
  mf_wf : fs_wf fs;
  mf_geometry : geometry fs;
  mf_descriptor : descriptor_size sb = 64;
  mf_inodes : 0 < inodes_per_group sb <= 8 * bs;
  mf_reserved : 0 <= reserved_gdt_blocks sb;
  mf_dirty : Forall (fun w => zlen w.2 = bs) dirty
}.
Context (Hmf : mutable_fs).

Lemma read_owned_safe n : 0 <= n -> safe (read_owned_block fs s dirty n) (fun b => zlen b = bs).
Proof.
  intros Hn. destruct Hmf as [Hwf _ _ _ _ Hd]. pose proof Hwf as [(Hbs & _) _]. unfold read_owned_block. destruct (_ <=? n); [done|]. pose proof (binary_search_assoc n dirty) as Hb. destruct (binary_search n dirty) as [i|].
  - destruct Hb as (v & Hi & _). rewrite Hi. cbn. by apply (Forall_lookup_1 _ _ _ _ Hd Hi).
  - r_steps. apply read_storage_safe; [done|nia|lia].
Qed.

Lemma find_clear_ok n : forall b i, 0 <= i -> i + Z.of_nat n <= 8 * zlen b ->
  exists r, find_clear n b i = Ok r /\ match r with Some j => i <= j < i + Z.of_nat n /\ tb b j = false | None => forall k, i <= k < i + Z.of_nat n -> tb b k = true end.
Proof.
  induction n as [|n IH]; intros b i Hi Hn; cbn [find_clear]; [exists None; split; [done|lia]|]. rewrite bit_at_ok by lia. cbn [mbind R_bind]. destruct (tb b i) eqn:E.
  - destruct (IH b (i + 1) ltac:(lia) ltac:(lia)) as (r & -> & Hr). exists r. split; [done|]. destruct r as [j|]; [destruct Hr; split; [lia|done]|]. intros k Hk. destruct (Z.eq_dec k i) as [->|]; [done|apply Hr; lia].
  - exists (Some i). split; [done|]. split; [lia|done].
Qed.

(** ** The parts of the step *)

Definition d_free_inodes (d : list Z) : Z := f16 d 0x0e 0x2e.

Lemma initialize_on_inode_ok g d : 0 <= g < group_count sb -> zlen d = 64 ->
  safe (initialize_on_inode fs g d) (fun r => zlen r.1 = 64 /\ d_free_inodes r.1 = d_free_inodes d).
Proof.
  intros Hg Hz. destruct Hmf as [Hwf Hgeo Hds Hi Hr _]. pose proof Hwf as [(Hbs & _ & _ & _ & _ & _ & _ & His & _) _]. unfold initialize_on_inode. r_step; [r_step; lia|]. r_step; [done|]. r_step; [done|].
  rewrite (group_start_ok fs Hgeo) by done. cbn [mbind R_bind]. rewrite (group_blocks_ok fs Hgeo) by done. cbn [mbind R_bind]. pose proof (blocks_of_range fs Hgeo g Hg) as Hbl. pose proof (geo_first _ Hgeo). pose proof (geo_group _ Hgeo).
  pose proof (initialize_ok fs Hgeo g (start_of fs g) (blocks_of fs g) d ltac:(unfold start_of; nia) ltac:(lia) Hz ltac:(lia) ltac:(lia) ltac:(lia) Hr ltac:(lia)) as HI.
  destruct (initialize_block_bitmap fs g d (start_of fs g) (blocks_of fs g)) as [[b fr]| |]; [|done|done]. destruct HI as (HI1 & _ & _). cbn [mbind R_bind].
  unfold free_blocks, block_bitmap_number. rewrite split16_ok, split32_ok by lia. cbn [mbind R_bind]. r_step; [done|]. cbn [mbind R_bind].
  unfold block_bitmap_checksum. assert (0 <= div_ceil (blocks_per_group sb) 8) as Hd by (unfold div_ceil; Z.to_euclidean_division_equations; lia). rewrite slice_ok by lia. cbn [mbind R_bind].
  destruct (put_split16_ok d 0x18 0x38 (checksum (checksum_seed sb) (sl b 0 (Z.min (div_ceil (blocks_per_group sb) 8) (zlen b))))) as (d1 & -> & _ & K1); [lia..|apply checksum_fits|]. cbn [mbind R_bind]. pose proof K1 as [Z1 _].
  r_step; [r_step; lia|]. destruct (put_le16_keeps d1 0x12 (a0 .& bnot 16 2) ltac:(lia) ltac:(lia)) as [-> K2]. cbn [mbind R_bind safe fst]. pose proof K2 as [Z2 _]. split; [lia|].
  apply (keeps_f16 _ _ _ _ _ (fields_trans _ _ _ _ _ K1 K2)); [lia|lia| |]; repeat (constructor; [cbn; lia|]); constructor.
Qed.

Lemma load_inode_bitmap_ok g free inodes d n : zlen d = 64 -> 0 <= n -> 0 <= inodes <= 8 * bs ->
  safe (load_inode_bitmap fs s dirty g free inodes d n) (fun r => zlen r.1 = 64 /\ d_free_inodes r.1 = d_free_inodes d /\ zlen r.2 = bs).
Proof.
  intros Hz Hn Hi. destruct Hmf as [Hwf Hgeo Hds Hip Hr _]. pose proof Hwf as [(Hbs & _) _]. pose proof (geo_block _ Hgeo) as Hgb. unfold load_inode_bitmap. r_step; [r_step; lia|]. r_step; [r_step; [done|]|].
  - rewrite (wrap_small 64) by (unfold fits; unfold U32_MAX in *; lia). pose proof (length_zeros bs ltac:(lia)) as Hz0. unfold zero_block.
    destruct (set_bitmap_range_ok (zeros bs) inodes (bs * 8 - inodes)) as (b & -> & Z1 & _); [lia..|]. cbn [mbind R_bind]. destruct (put_le16_keeps d 0x12 (a .& bnot 16 1) ltac:(lia) ltac:(lia)) as [-> K]. cbn [mbind R_bind safe fst snd].
    pose proof K as [Z2 _]. split_and!; [lia| |lia]. apply (keeps_f16 _ _ _ _ _ K); [lia|lia| |]; repeat (constructor; [cbn; lia|]); constructor.
  - r_with (fun b => zlen b = bs) as b Hb; [by apply read_owned_safe|]. r_with (fun _ : () => True).
    + unfold verify_inode_bitmap_checksum. rewrite split16_ok by lia. cbn [mbind R_bind]. unfold inode_bitmap_checksum. rewrite slice_ok; [cbn [mbind R_bind]; by r_step|lia| |]; unfold div_ceil; Z.to_euclidean_division_equations; lia.
    + cbn. done.
Qed.

(** The inodes of a group, and its descriptor and inode bitmap before. *)
Definition inodes_of (g : Z) : Z := Z.min (inodes_count sb - g * inodes_per_group sb) (inodes_per_group sb).
Definition inode_group (g : Z) : R (list Z * list Z) :=
  d ← read_group_descriptor fs s g;
  free ← free_inodes d;
  r ← initialize_on_inode fs g d;
  number ← inode_bitmap_number (fst r);
  load_inode_bitmap fs s dirty g free (inodes_of g) (fst r) number.

(** What an allocation of an inode promises. *)
Definition took_inode (a : InodeAllocation) : Prop :=
  let g := ia_group a in let d' := ge_descriptor (ia_edit a) in let b' := snd (ia_bitmap a) in
  0 <= g < group_count sb /\ 0 <= ia_index a < inodes_of g /\ ia_number a = g * inodes_per_group sb + ia_index a + 1 /\ (g = 0 -> first_inode sb <= ia_number a) /\
  verify_inode_bitmap_checksum fs g d' b' = Ok tt /\ group_checksum (checksum_seed sb) g d' = Ok (field d' 0x1e 2) /\
  exists d b, inode_group g = Ok (d, b) /\ tb b (ia_index a) = false /\ d_free_inodes d' = d_free_inodes d - 1 /\
    zlen b' = bs /\ forall j, 0 <= j < 8 * bs -> tb b' j = tb b j || (j =? ia_index a).

Lemma unused_ok d index : zlen d = 64 -> safe (update_unused_inode_count d index (inodes_per_group sb)) (fun d' => keeps [(0x1c, 2); (0x3c, 2)] d d').
Proof.
  intros Hz. destruct Hmf as [Hwf Hgeo _ Hip _ _]. pose proof (geo_block _ Hgeo) as Hgb. unfold update_unused_inode_count. rewrite split16_ok by lia. cbn [mbind R_bind]. pose proof (f16_range d 0x1c 0x3c ltac:(lia) ltac:(lia) ltac:(lia) ltac:(lia)) as Hf.
  destruct ((inodes_per_group sb <? _) || (inodes_per_group sb <=? index)) eqn:E; [done|]. apply orb_false_iff in E as [E1%Z.ltb_ge E2%Z.leb_gt]. destruct (Z.leb_spec (inodes_per_group sb - f16 d 28 60) index) as [Hle|].
  - destruct (put_split16_ok d 0x1c 0x3c (inodes_per_group sb - index - 1)) as (d' & -> & _ & K); [lia|lia|lia|lia|lia|unfold U32_MAX in *; lia|]. done.
  - cbn. done.
Qed.

(** The inode checksum and the descriptor of a taken inode. *)
Lemma seal_inode_ok g d b c : zlen d = 64 -> inode_bitmap_checksum fs b = Ok c ->
  exists d', (d ← put_split16 d 0x1a 0x3a c; update_group_descriptor_checksum (checksum_seed sb) g d) = Ok d' /\ zlen d' = 64 /\ d_free_inodes d' = d_free_inodes d /\
    verify_inode_bitmap_checksum fs g d' b = Ok tt /\ group_checksum (checksum_seed sb) g d' = Ok (field d' 0x1e 2).
Proof.
  intros Hz Hc. assert (fits 32 c) as Hc32.
  { unfold inode_bitmap_checksum in Hc. destruct (slice b 0 _) as [x| |]; cbn [mbind R_bind] in Hc; [|done|done]. injection Hc as <-. apply checksum_fits. }
  destruct (put_split16_ok d 0x1a 0x3a c) as (d1 & -> & F1 & K1); [lia..|done|]. cbn [mbind R_bind]. pose proof K1 as [Z1 _]. destruct (descriptor_sum_ok (checksum_seed sb) g d1 ltac:(lia)) as (d2 & -> & K2 & Hsum). pose proof K2 as [Z2 _].
  exists d2. split_and!; [done|lia| | |done].
  - apply (keeps_f16 _ _ _ _ _ (fields_trans _ _ _ _ _ K1 K2)); [lia|lia| |]; repeat (constructor; [cbn; lia|]); constructor.
  - unfold verify_inode_bitmap_checksum. rewrite split16_ok by lia. cbn [mbind R_bind]. rewrite Hc. cbn [mbind R_bind]. assert (f16 d2 0x1a 0x3a = c) as ->; [|by rewrite Z.eqb_refl].
    rewrite <- F1. apply (keeps_f16 _ _ _ _ _ K2); [lia|lia| |]; repeat (constructor; [cbn; lia|]); constructor.
Qed.

Lemma allocate_inode_in_ok g : 0 <= g < group_count sb -> 0 < inodes_of g -> 0 <= first_inode sb < 2 ^ 32 ->
  safe (allocate_inode_in fs s dirty g (g * inodes_per_group sb) (inodes_of g)) (fun r => match r with Some a => took_inode a | None => True end).
Proof.
  intros Hg Hi Hfi. pose proof Hmf as [Hwf Hgeo Hds Hip Hr _]. pose proof Hwf as [(Hbs & _) _]. pose proof (geo_block _ Hgeo) as Hgb. unfold allocate_inode_in.
  pose proof (read_group_descriptor_safe fs Hwf s g ltac:(lia)) as Hrd. destruct (read_group_descriptor fs s g) as [d| |] eqn:Ed; [|done|done]. cbn [safe] in Hrd. rewrite Hds in Hrd. cbn [mbind R_bind].
  assert (free_inodes d = Ok (d_free_inodes d)) as Ef by (apply split16_ok; lia). rewrite Ef. cbn [mbind R_bind]. r_step; [done|]. r_step; [done|].
  pose proof (initialize_on_inode_ok g d Hg Hrd) as Hin. destruct (initialize_on_inode fs g d) as [[d1 ini]| |] eqn:Ei; [|done|done]. cbn [safe fst] in Hin. destruct Hin as [Z1 F1]. cbn [mbind R_bind].
  assert (inode_bitmap_number d1 = Ok (f32 d1 4 0x24)) as En by (apply split32_ok; lia). rewrite En. unfold inode_table_number. rewrite split32_ok by lia. cbn [mbind R_bind]. r_step; [done|].
  assert (0 <= f32 d1 4 36) as Hn0 by (pose proof (field_range d1 4 4 ltac:(lia) ltac:(lia) ltac:(lia)); pose proof (field_range d1 36 4 ltac:(lia) ltac:(lia) ltac:(lia)); apply (join_range 32 _ _ 32); lia).
  assert (inodes_of g <= 8 * bs) as Hi8 by (unfold inodes_of; lia). pose proof (load_inode_bitmap_ok g (d_free_inodes d) (inodes_of g) d1 _ Z1 Hn0 ltac:(lia)) as Hl.
  destruct (load_inode_bitmap fs s dirty g (d_free_inodes d) (inodes_of g) d1 (f32 d1 4 36)) as [[d2 b]| |] eqn:El; [|done|done]. cbn [safe fst snd] in Hl. destruct Hl as (Z2 & F2 & Zb). cbn [mbind R_bind].
  set (start := if g =? 0 then u64 (first_inode sb - 1) else 0). assert (0 <= start /\ (g = 0 -> first_inode sb - 1 <= start)) as [Hst Hst0].
  { unfold start. destruct (Z.eqb_spec g 0); [|lia]. pose proof (wrap_fits 64 (first_inode sb - 1) ltac:(lia)) as Hf64. unfold fits in Hf64. split; [lia|]. intros _. destruct (Z.eq_dec (first_inode sb) 0) as [Efirst|]; [lia|]. rewrite wrap_small; [lia|unfold fits; lia]. }
  destruct (Z.lt_ge_cases (inodes_of g) start) as [Hlt|Hge].
  { replace (Z.to_nat (inodes_of g - start)) with O by lia. done. }
  destruct (find_clear_ok (Z.to_nat (inodes_of g - start)) b start ltac:(lia) ltac:(lia)) as ([index|] & -> & Hfc); [|done]. cbn [mbind R_bind]. destruct Hfc as [Hidx Hclear].
  destruct (set_bit_ok b index ltac:(lia)) as (b' & -> & Zb' & Tb'). cbn [mbind R_bind]. unfold decrement_descriptor_free_inodes, free_inodes. rewrite (split16_ok d2) by lia. cbn [mbind R_bind]. fold (d_free_inodes d2).
  pose proof (f16_range d2 0x0e 0x2e ltac:(lia) ltac:(lia) ltac:(lia) ltac:(lia)) as Hf16. fold (d_free_inodes d2) in Hf16. destruct (Z.ltb_spec (d_free_inodes d2) 1) as [|Hge1]; [done|].
  destruct (put_split16_ok d2 0x0e 0x2e (d_free_inodes d2 - 1)) as (d3 & -> & F3 & [Z3 _]); [lia..|]. cbn [mbind R_bind]. fold (d_free_inodes d3) in F3.
  pose proof (unused_ok d3 index ltac:(lia)) as Hu. destruct (update_unused_inode_count d3 index (inodes_per_group sb)) as [d4| |]; [|done|done]. cbn [safe] in Hu. cbn [mbind R_bind]. pose proof Hu as [Z4 _].
  assert (d_free_inodes d4 = d_free_inodes d3) as F4 by (apply (keeps_f16 _ _ _ _ _ Hu); [lia|lia| |]; repeat (constructor; [cbn; lia|]); constructor).
  assert (exists c, inode_bitmap_checksum fs b' = Ok c) as [c Ec] by (unfold inode_bitmap_checksum; rewrite slice_ok; [by eexists|lia| |]; unfold div_ceil; Z.to_euclidean_division_equations; lia). rewrite Ec. cbn [mbind R_bind].
  destruct (seal_inode_ok g d4 b' c ltac:(lia) Ec) as (d5 & E5 & Z5 & F5 & V1 & V2). destruct (put_split16 d4 26 58 c) as [x| |]; cbn [mbind R_bind] in E5 |- *; [|done|done]. rewrite E5. cbn [mbind R_bind]. r_step; [done|].
  cbn [safe]. unfold took_inode. cbn [ia_group ia_edit ia_bitmap ia_index ia_number ge_descriptor snd].
  split_and!; [lia|lia|lia|lia|done|intros Eg; specialize (Hst0 Eg); lia|done|done|].
  exists d2, b. split_and!; [|done|lia|lia|intros j Hj; apply Tb'; lia]. unfold inode_group. rewrite Ed. cbn [mbind R_bind]. rewrite Ef. cbn [mbind R_bind]. rewrite Ei. cbn [mbind R_bind fst]. rewrite En. cbn [mbind R_bind]. exact El.
Qed.

(** An inode is allocated once.  Allocating an inode does not panic; where it
    succeeds the inode lies in the filesystem behind the reserved ones, was marked
    free in the bitmap of its group, and is the only one marked in addition; the
    counter of free inodes is lowered by one and the checksums are those the
    reader compares. *)
Theorem inode_allocated_once : 0 <= first_inode sb < 2 ^ 32 -> safe (allocate_inode fs s dirty) took_inode.
Proof.
  intros Hfi. pose proof Hmf as [Hwf Hgeo _ Hip _ _]. unfold allocate_inode. assert (forall l, (forall g, g ∈ l -> 0 <= g < group_count sb) -> safe (allocate_inode_loop fs s dirty l) took_inode) as Hl; [|apply Hl; intros g Hg; apply elem_of_seqZ in Hg; lia].
  induction l as [|g l IH]; intros Hin; cbn [allocate_inode_loop]; [done|]. pose proof (Hin g ltac:(left)) as Hg. destruct (Z.ltb_spec (inodes_count sb) (g * inodes_per_group sb)) as [|Hle]; [done|]. fold (inodes_of g).
  destruct (Z.eqb_spec (inodes_of g) 0) as [|Hne]; [done|]. pose proof (allocate_inode_in_ok g Hg ltac:(unfold inodes_of in *; lia) Hfi) as HA.
  destruct (allocate_inode_in fs s dirty g (g * inodes_per_group sb) (inodes_of g)) as [[a|]| |]; cbn [mbind R_bind]; [exact HA| |done|done]. apply IH. intros h Hh. apply Hin. by right.
Qed.
End Inodes.
