(* ===== verification/Heap.v ===== *)
(** The kernel heap (lib/src/heap.rs): a first-fit allocator over a window
    of virtual addresses, whose free list is threaded through the free
    blocks themselves.

    [mem] holds the headers ([FreeBlock]) at the addresses where they were
    last written; [None] in an operation's result means a header was read
    where there is none.  [usize] has 32 bits, so a header has 8 bytes and
    alignment 4.  A cursor [&mut Option<NonNull<FreeBlock>>] is a [Link]:
    the head, or the [next] field of a block. *)

From Stdlib Require Import ZArith Lia Bool.
From stdpp Require Import base option list numbers gmap relations.
From S2P Require Import Prelude.

Module DemandHeap.

Definition PAGE_SIZE : Z := 4096.

Record FreeBlock := mkFB { size : Z; next : option Z }.

Definition MIN_BLOCK_SIZE : Z := 8.
Definition ALIGN_OF_FREE_BLOCK : Z := 4.

Definition align_up (val align : Z) : Z := u32 (u32 (val + align) - 1) .& bnot 32 (u32 (align - 1)).

Record Inner := mkInner { mem : gmap Z FreeBlock; head : option Z; mapped_end : Z; heap_end : Z }.

Inductive Link := Head | Next (block : Z).

Definition get_link (h : Inner) (l : Link) : option (option Z) :=
  match l with
  | Head => Some (head h)
  | Next b => next <$> mem h !! b
  end.

Definition set_block (h : Inner) (a : Z) (b : FreeBlock) : Inner :=
  mkInner (<[a := b]> (mem h)) (head h) (mapped_end h) (heap_end h).

Definition set_link (h : Inner) (l : Link) (p : option Z) : option Inner :=
  match l with
  | Head => Some (mkInner (mem h) p (mapped_end h) (heap_end h))
  | Next b => fb ← mem h !! b; Some (set_block h b (mkFB (size fb) p))
  end.

(** The first link whose block lies above [addr]. *)
Fixpoint find_insertion (fuel : nat) (h : Inner) (current : Link) (addr : Z) : option Link :=
  match fuel with
  | O => None
  | S fuel =>
      p ← get_link h current;
      match p with
      | Some block => if addr <? block then Some current else find_insertion fuel h (Next block) addr
      | None => Some current
      end
  end.

Definition coalesce_next (h : Inner) (addr : Z) : option Inner :=
  block ← mem h !! addr;
  match next block with
  | Some nx =>
      if u32 (addr + size block) =? nx then
        n ← mem h !! nx;
        Some (set_block h addr (mkFB (u32 (size block + size n)) (next n)))
      else Some h
  | None => Some h
  end.

Fixpoint coalesce_prev (fuel : nat) (h : Inner) (prev current : option Z) (addr : Z) : option Inner :=
  match fuel with
  | O => None
  | S fuel =>
      match current with
      | None => Some h
      | Some block =>
          b ← mem h !! block;
          if block =? addr then
            match prev with
            | Some prev_block =>
                pb ← mem h !! prev_block;
                if u32 (prev_block + size pb) =? addr then
                  Some (set_block h prev_block (mkFB (u32 (size pb + size b)) (next b)))
                else Some h
            | None => Some h
            end
          else coalesce_prev fuel h current (next b) addr
      end
  end.

(** More iterations than the list has blocks. *)
Definition fuel_of (h : Inner) : nat := S (S (base.size (mem h))).

Definition add_free_region (h : Inner) (addr sz : Z) : option Inner :=
  if sz <? MIN_BLOCK_SIZE then Some h
  else
    let h := set_block h addr (mkFB sz None) in
    current ← find_insertion (fuel_of h) h Head addr;
    p ← get_link h current;
    h ← set_link (set_block h addr (mkFB sz p)) current (Some addr);
    h ← coalesce_next h addr;
    coalesce_prev (fuel_of h) h None (head h) addr.

(** [while region_pages < pages_needed], with [n] iterations left. *)
Fixpoint claim_pages (n : nat) (mapped_end heap_end region_pages : Z) : Z * Z :=
  match n with
  | O => (mapped_end, region_pages)
  | S n =>
      if heap_end <=? mapped_end then (mapped_end, region_pages)
      else claim_pages n (u32 (mapped_end + PAGE_SIZE)) heap_end (region_pages + 1)
  end.

Definition extend_heap (h : Inner) (min_size : Z) : option (Inner * bool) :=
  let pages_needed := Z.max (div_ceil min_size PAGE_SIZE) 4 in
  let region_start := mapped_end h in
  let '(mapped, region_pages) := claim_pages (Z.to_nat pages_needed) region_start (heap_end h) 0 in
  let h := mkInner (mem h) (head h) mapped (heap_end h) in
  h ← (if 0 <? region_pages then add_free_region h region_start (u32 (region_pages * PAGE_SIZE)) else Some h);
  Some (h, pages_needed <=? region_pages).

(** The body of the loop once a block fits: the new heap and the address. *)
Definition place (h : Inner) (current : Link) (block_addr : Z) (block : FreeBlock) (padding sz : Z)
  : option (Inner * Z) :=
  let aligned_addr := u32 (block_addr + padding) in
  if MIN_BLOCK_SIZE <=? padding then
    let remainder_addr := u32 (aligned_addr + sz) in
    let remainder_size := u32 (size block - u32 (padding + sz)) in
    let h := set_block h block_addr (mkFB padding (next block)) in
    if MIN_BLOCK_SIZE <=? remainder_size then
      let h := set_block h remainder_addr (mkFB remainder_size (next block)) in
      Some (set_block h block_addr (mkFB padding (Some remainder_addr)), aligned_addr)
    else Some (h, aligned_addr)
  else
    let actual_size := if 0 <? padding then u32 (sz + padding) else sz in
    let remainder_size := u32 (size block - actual_size) in
    if MIN_BLOCK_SIZE <=? remainder_size then
      let remainder_addr := u32 (block_addr + actual_size) in
      let h := set_block h remainder_addr (mkFB remainder_size (next block)) in
      h ← set_link h current (Some remainder_addr);
      Some (h, block_addr)
    else
      h ← set_link h current (next block);
      Some (h, block_addr).

Fixpoint alloc_loop (fuel : nat) (h : Inner) (current : Link) (sz align : Z) : option (Inner * option Z) :=
  match fuel with
  | O => None
  | S fuel =>
      p ← get_link h current;
      match p with
      | None => Some (h, None)
      | Some block_addr =>
          block ← mem h !! block_addr;
          let padding := u32 (align_up block_addr align - block_addr) in
          if u32 (padding + sz) <=? size block then
            r ← place h current block_addr block padding sz;
            Some (fst r, Some (snd r))
          else alloc_loop fuel h (Next block_addr) sz align
      end
  end.

Definition alloc_from_list (h : Inner) (sz align : Z) : option (Inner * option Z) :=
  alloc_loop (fuel_of h) h Head sz align.

(** The counters of [allocation_counts] and the large-allocation
    diagnostics. *)
Record Counters := mkCounters {
  ALLOCATIONS : Z; DEALLOCATIONS : Z; LARGE_ALLOCS : Z; LARGE_FREES : Z; LARGE_REUSE : Z }.

Record DemandHeap := mk { inner : Inner; counters : Counters }.

Definition new : DemandHeap := mk (mkInner ∅ None 0 0) (mkCounters 0 0 0 0 0).

Definition init (h : DemandHeap) (base end_ : Z) : DemandHeap :=
  mk (mkInner (mem (inner h)) None base end_) (counters h).

Definition allocation_counts (h : DemandHeap) : Z * Z :=
  (ALLOCATIONS (counters h), DEALLOCATIONS (counters h)).

Definition bump (x : Z) (b : bool) : Z := if b then u32 (x + 1) else x.

Definition block_size (size : Z) : Z := align_up (Z.max size MIN_BLOCK_SIZE) ALIGN_OF_FREE_BLOCK.

(** The null pointer is 0. *)
Definition alloc (h : DemandHeap) (lsize lalign : Z) : option (DemandHeap * Z) :=
  let c := counters h in
  let sz := block_size lsize in
  let align := Z.max lalign ALIGN_OF_FREE_BLOCK in
  let large := 100000 <=? sz in
  r ← alloc_from_list (inner h) sz align;
  match r with
  | (i, Some ptr) =>
      Some (mk i (mkCounters (bump (ALLOCATIONS c) true) (DEALLOCATIONS c) (LARGE_ALLOCS c)
                    (LARGE_FREES c) (bump (LARGE_REUSE c) large)), ptr)
  | (i, None) =>
      let c := mkCounters (ALLOCATIONS c) (DEALLOCATIONS c) (bump (LARGE_ALLOCS c) large)
                 (LARGE_FREES c) (LARGE_REUSE c) in
      e ← extend_heap i (u32 (sz + align));
      let '(i, ok) := e in
      if negb ok then Some (mk i c, 0)
      else
        r ← alloc_from_list i sz align;
        let '(i, p) := r in
        let ptr := default 0 p in
        Some (mk i (mkCounters (bump (ALLOCATIONS c) (negb (ptr =? 0))) (DEALLOCATIONS c)
                      (LARGE_ALLOCS c) (LARGE_FREES c) (LARGE_REUSE c)), ptr)
  end.

Definition dealloc (h : DemandHeap) (ptr lsize : Z) : option DemandHeap :=
  let c := counters h in
  let sz := block_size lsize in
  let large := 100000 <=? sz in
  i ← add_free_region (inner h) ptr sz;
  Some (mk i (mkCounters (ALLOCATIONS c) (bump (DEALLOCATIONS c) true) (LARGE_ALLOCS c)
                (bump (LARGE_FREES c) large) (LARGE_REUSE c))).

End DemandHeap.

Import DemandHeap.

(** * The free list as a list of extents *)

(** The padding that brings [a] to a multiple of [align]. *)
Definition pad (a align : Z) : Z := align - 1 - (a + align - 1) mod align.

(** Merge an extent with the head of the list when they touch. *)
Definition merge (x : Z * Z) (l : list (Z * Z)) : list (Z * Z) :=
  match l with
  | (b, t) :: r => if fst x + snd x =? b then (fst x, snd x + t) :: r else x :: l
  | [] => [x]
  end.

Fixpoint insert_free (a s : Z) (l : list (Z * Z)) : list (Z * Z) :=
  match l with
  | [] => [(a, s)]
  | (b, t) :: r => if a <? b then merge (a, s) l else merge (b, t) (insert_free a s r)
  end.

Definition rest_if (a s : Z) (r : list (Z * Z)) : list (Z * Z) :=
  if MIN_BLOCK_SIZE <=? s then (a, s) :: r else r.

Fixpoint first_fit (sz align : Z) (l : list (Z * Z)) : option (Z * list (Z * Z)) :=
  match l with
  | [] => None
  | (a, s) :: r =>
      let padding := pad a align in
      if padding + sz <=? s then
        if MIN_BLOCK_SIZE <=? padding
        then Some (a + padding, (a, padding) :: rest_if (a + padding + sz) (s - (padding + sz)) r)
        else Some (a, rest_if (a + (sz + padding)) (s - (sz + padding)) r)
      else '(p, r) ← first_fit sz align r; Some (p, (a, s) :: r)
  end.

(** Sorted, separated by gaps, between [lo] and [hi]. *)
Fixpoint chain (lo : Z) (l : list (Z * Z)) (hi : Z) : Prop :=
  match l with
  | [] => True
  | (a, s) :: r =>
      lo < a /\ MIN_BLOCK_SIZE <= s /\ a mod 4 = 0 /\ s mod 4 = 0 /\ a + s <= hi /\ chain (a + s) r hi
  end.

Definition covers (l : list (Z * Z)) (x : Z) : Prop :=
  exists a s, (a, s) ∈ l /\ a <= x < a + s.

Lemma covers_cons a s l x : covers ((a, s) :: l) x <-> a <= x < a + s \/ covers l x.
Proof.
  split.
  - intros (b & t & [[= -> ->]|Hl]%elem_of_cons & Hx); [by left|right; by exists b, t].
  - intros [Hx|(b & t & Hl & Hx)]; [exists a, s|exists b, t]; (split; [|done]); apply elem_of_cons; auto.
Qed.

Lemma covers_nil x : ~ covers [] x.
Proof. intros (a & s & Hl & _). by apply elem_of_nil in Hl. Qed.

Lemma chain_weaken lo lo' l hi : chain lo l hi -> lo' <= lo -> chain lo' l hi.
Proof. destruct l as [|[a s] r]; cbn; [done|]. intros (? & ?) ?. split; [lia|done]. Qed.

Lemma chain_hi lo l hi hi' : chain lo l hi -> hi <= hi' -> chain lo l hi'.
Proof.
  revert lo; induction l as [|[a s] r IH]; intros lo; cbn; [done|]. intros (? & ? & ? & ? & ? & Hr) ?.
  split_and!; try done; [lia|]. by eapply IH.
Qed.

Lemma chain_covers lo l hi x : chain lo l hi -> covers l x -> lo < x < hi.
Proof.
  revert lo; induction l as [|[a s] r IH]; intros lo Hc Hx; [by apply covers_nil in Hx|].
  destruct Hc as (? & ? & _ & _ & ? & Hr). apply covers_cons in Hx as [Hx|Hx]; [lia|].
  specialize (IH _ Hr Hx). unfold MIN_BLOCK_SIZE in *. lia.
Qed.

(** The first block's address bounds every covered address. *)
Lemma covers_from a s l hi x : chain a ((s, x) :: l) hi -> covers ((s, x) :: l) s.
Proof. intros (? & ? & _). apply covers_cons. left. unfold MIN_BLOCK_SIZE in *. lia. Qed.

(** ** Freeing *)

Lemma chain_merge lo a s l hi :
  lo < a -> MIN_BLOCK_SIZE <= s -> a mod 4 = 0 -> s mod 4 = 0 -> a + s <= hi -> chain (a + s - 1) l hi ->
  chain lo (merge (a, s) l) hi.
Proof.
  intros H1 H2 H3 H4 H5 Hl. destruct l as [|[b t] r]; cbn in *; [done|].
  destruct Hl as (L1 & L2 & L3 & L4 & L5 & L6). unfold MIN_BLOCK_SIZE in *.
  destruct (Z.eqb_spec (a + s) b) as [<-|Hne]; cbn.
  - split_and!; try done; [unfold MIN_BLOCK_SIZE; lia|rewrite Z.add_mod, H4, L4 by lia; done|lia|].
    by replace (a + (s + t)) with (a + s + t) by lia.
  - split_and!; try done. lia.
Qed.

Lemma covers_merge lo a s l hi x :
  0 <= s -> chain lo l hi -> (covers (merge (a, s) l) x <-> a <= x < a + s \/ covers l x).
Proof.
  intros Hs Hl. destruct l as [|[b t] r]; cbn [merge fst snd]; [apply covers_cons|].
  destruct Hl as (_ & Ht & _). unfold MIN_BLOCK_SIZE in *.
  destruct (Z.eqb_spec (a + s) b) as [<-|]; [|apply covers_cons].
  rewrite !covers_cons. split.
  - intros [Hx|Hx]; [|by right; right]. destruct (Z.lt_ge_cases x (a + s)); [left; lia|right; left; lia].
  - intros [Hx|[Hx|Hx]]; [left; lia|left; lia|by right].
Qed.

(** A region no block of the list touches. *)
Definition apart (l : list (Z * Z)) (a s : Z) : Prop := forall x, a <= x < a + s -> ~ covers l x.

Lemma insert_free_chain lo l hi a s :
  chain lo l hi -> lo < a -> MIN_BLOCK_SIZE <= s -> a mod 4 = 0 -> s mod 4 = 0 -> a + s <= hi -> apart l a s ->
  chain lo (insert_free a s l) hi /\
  forall x, covers (insert_free a s l) x <-> a <= x < a + s \/ covers l x.
Proof.
  revert lo; induction l as [|[b t] r IH]; intros lo Hc Ha Hs Hm1 Hm2 Hhi Hap; cbn [insert_free].
  { split; [by split_and!|]. intros x. apply covers_cons. }
  pose proof Hc as (C1 & C2 & C3 & C4 & C5 & C6). unfold MIN_BLOCK_SIZE in *.
  destruct (Z.ltb_spec a b) as [Hlt|Hge].
  - assert (a + s <= b) as Hab.
    { destruct (Z.le_gt_cases (a + s) b); [done|]. exfalso. apply (Hap b); [lia|]. apply covers_cons. lia. }
    split; [apply chain_merge; [done..|]; by split_and!; [lia|..]|].
    intros x. eapply covers_merge; [lia|exact Hc].
  - assert (b + t <= a) as Hab.
    { destruct (Z.le_gt_cases (b + t) a); [done|]. exfalso. apply (Hap a); [lia|]. apply covers_cons. lia. }
    destruct (IH (b + t - 1)) as [I1 I2]; try done; [eapply chain_weaken; [done|lia]|lia| |].
    { intros x Hx Hr. apply (Hap x Hx), covers_cons. by right. }
    split; [by apply chain_merge|]. intros x. rewrite (covers_merge _ b t _ _ _ ltac:(lia) I1), I2, covers_cons. tauto.
Qed.

(** ** Allocating *)

Lemma pad_range a align : 0 < align -> 0 <= pad a align < align.
Proof. intros H. unfold pad. pose proof (Z.mod_pos_bound (a + align - 1) align H). lia. Qed.

Lemma pad_aligned a align : 0 < align -> (a + pad a align) mod align = 0.
Proof.
  intros H. unfold pad.
  replace (a + (align - 1 - (a + align - 1) mod align)) with (align * ((a + align - 1) / align))
    by (pose proof (Z.div_mod (a + align - 1) align ltac:(lia)); lia).
  rewrite Z.mul_comm. by apply Z.mod_mul; lia.
Qed.

(** Alignments are powers of two of at least 4, so padding is a multiple of
    4. *)
Lemma pad_mod4 a k : 2 <= k -> a mod 4 = 0 -> pad a (2 ^ k) mod 4 = 0.
Proof.
  intros Hk Ha. pose proof (pad_aligned a (2 ^ k) (pow2_pos k ltac:(lia))) as H.
  apply Z.mod_divide in H as [q Hq]; [|pose proof (pow2_pos k); lia].
  assert (2 ^ k = 4 * 2 ^ (k - 2)) as E by (replace k with (2 + (k - 2)) at 1 by lia; rewrite Z.pow_add_r by lia; lia).
  apply Z.mod_divide; [lia|]. apply Z.mod_divide in Ha as [c Hc]; [|lia].
  exists (q * 2 ^ (k - 2) - c). rewrite E in Hq at 2. lia.
Qed.

Lemma rest_if_chain lo a s r hi :
  lo < a -> a mod 4 = 0 -> s mod 4 = 0 -> a + s <= hi -> 0 <= s -> chain (a + s) r hi -> chain lo (rest_if a s r) hi.
Proof.
  intros. unfold rest_if. destruct (Z.leb_spec MIN_BLOCK_SIZE s); [by split_and!|].
  eapply chain_weaken; [done|lia].
Qed.

Lemma covers_rest_if a s r x : covers (rest_if a s r) x -> a <= x < a + s \/ covers r x.
Proof. unfold rest_if. destruct (_ <=? _); [apply covers_cons|by right]. Qed.

Lemma first_fit_spec lo l hi sz k p l' :
  chain lo l hi -> MIN_BLOCK_SIZE <= sz -> sz mod 4 = 0 -> 2 <= k ->
  first_fit sz (2 ^ k) l = Some (p, l') ->
  chain lo l' hi /\ lo < p /\ p + sz <= hi /\ p mod 4 = 0 /\
  (p mod 2 ^ k = 0 \/ pad p (2 ^ k) = 4) /\
  (forall x, p <= x < p + sz -> covers l x) /\
  (forall x, covers l' x -> covers l x /\ ~ (p <= x < p + sz)).
Proof.
  intros Hc Hsz Hm Hk. pose proof (pow2_pos k ltac:(lia)) as Hpow.
  revert lo l' Hc; induction l as [|[a s] r IH]; intros lo l' Hc E; [done|]. cbn [first_fit] in E.
  destruct Hc as (C1 & C2 & C3 & C4 & C5 & C6).
  pose proof (pad_range a (2 ^ k) Hpow) as Hp. pose proof (pad_mod4 a k Hk C3) as Hp4.
  pose proof (pad_aligned a (2 ^ k) Hpow) as Hpa. set (pd := pad a (2 ^ k)) in *. unfold MIN_BLOCK_SIZE in Hsz, C2.
  assert (forall x y, x mod 4 = 0 -> y mod 4 = 0 -> (x + y) mod 4 = 0) as Hadd
    by (intros x y Hx Hy; by rewrite Z.add_mod, Hx, Hy by lia).
  assert (forall x y, x mod 4 = 0 -> y mod 4 = 0 -> (x - y) mod 4 = 0) as Hsub
    by (intros x y Hx Hy; by rewrite Zminus_mod, Hx, Hy by lia).
  assert (forall x, covers r x -> a + s < x) as Hr by (intros x Hx; by apply (chain_covers _ _ _ _ C6) in Hx as [? _]).
  destruct (Z.leb_spec (pd + sz) s) as [Hfit|Hno].
  - destruct (Z.leb_spec MIN_BLOCK_SIZE pd) as [Hbig|Hsmall]; simplify_eq; unfold MIN_BLOCK_SIZE in *.
    + split; [|split_and!; [lia|lia|by apply Hadd|by left| |]].
      * split_and!; try done; [lia|]. apply rest_if_chain; auto; try lia.
        by replace (a + pd + sz + (s - (pd + sz))) with (a + s) by lia.
      * intros x Hx. apply covers_cons. lia.
      * intros x [Hx|Hx%covers_rest_if]%covers_cons; [rewrite covers_cons; lia|].
        destruct Hx as [Hx|Hx]; rewrite covers_cons; [lia|]. specialize (Hr x Hx). split; [by right|lia].
    + split; [|split_and!; [lia|lia|done| | |]].
      * apply rest_if_chain; auto; try lia. by replace (p + (sz + pd) + (s - (sz + pd))) with (p + s) by lia.
      * fold pd. destruct (Z.eq_dec pd 0) as [Hz|Hnz]; [left; by rewrite Hz, Z.add_0_r in Hpa|right].
        apply Z.mod_divide in Hp4 as [q Hq]; lia.
      * intros x Hx. apply covers_cons. lia.
      * intros x [Hx|Hx]%covers_rest_if; rewrite covers_cons; [lia|]. specialize (Hr x Hx). split; [by right|lia].
  - destruct (first_fit sz (2 ^ k) r) as [[p1 r1]|] eqn:E1; [|done]. cbn in E. simplify_eq.
    destruct (IH (a + s) r1 C6 eq_refl) as (I1 & I2 & I3 & I4 & I5 & I6 & I7).
    split; [by split_and!|]. split_and!; try done; [lia| |].
    + intros x Hx. apply covers_cons. right. by apply I6.
    + intros x [Hx|Hx]%covers_cons; rewrite covers_cons; [lia|]. apply I7 in Hx as [? ?]. auto.
Qed.

(** * The threaded list implements it *)

(** From [p], the headers of [m] link the blocks of [l] and end at [q]. *)
Fixpoint lseg (m : gmap Z FreeBlock) (p : option Z) (l : list (Z * Z)) (q : option Z) : Prop :=
  match l with
  | [] => p = q
  | (a, s) :: r => p = Some a /\ exists nx, m !! a = Some (mkFB s nx) /\ lseg m nx r q
  end.

Definition rep (h : Inner) (l : list (Z * Z)) : Prop := lseg (mem h) (head h) l None.

Lemma lseg_app m p l1 l2 q : lseg m p (l1 ++ l2) q <-> exists r, lseg m p l1 r /\ lseg m r l2 q.
Proof.
  revert p; induction l1 as [|[a s] l1 IH]; intros p; cbn.
  - split; [by exists p|]. by intros (r & -> & H).
  - split.
    + intros (-> & nx & Hm & Hl). apply IH in Hl as (r & H1 & H2). exists r. split; [split; [done|by exists nx]|done].
    + intros (r & (-> & nx & Hm & H1) & H2). split; [done|]. exists nx. split; [done|]. apply IH. by exists r.
Qed.

Lemma lseg_frame m m' p l q :
  lseg m p l q -> (forall a, a ∈ l.*1 -> m' !! a = m !! a) -> lseg m' p l q.
Proof.
  revert p; induction l as [|[a s] l IH]; intros p; cbn; [done|]. intros (-> & nx & Hm & Hl) Hf.
  split; [done|]. exists nx. rewrite Hf by (apply elem_of_cons; auto). split; [done|].
  apply IH; [done|]. intros b Hb. apply Hf, elem_of_cons. auto.
Qed.

Lemma lseg_dom m p l q a : lseg m p l q -> a ∈ l.*1 -> is_Some (m !! a).
Proof.
  revert p; induction l as [|[b s] l IH]; intros p; cbn; [by intros _ ?%elem_of_nil|].
  intros (-> & nx & Hm & Hl) [->|Ha]%elem_of_cons; [by eexists|by eapply IH].
Qed.

Lemma chain_sorted lo l hi a : chain lo l hi -> a ∈ l.*1 -> lo < a < hi.
Proof.
  intros Hc Ha. apply list_elem_of_fmap in Ha as ([b s] & -> & Hb). cbn.
  apply (chain_covers lo l hi); [done|]. exists b, s. split; [done|].
  clear -Hc Hb. revert lo Hc; induction l as [|[a t] l IH]; intros lo Hc; [by apply elem_of_nil in Hb|].
  destruct Hc as (? & ? & _ & _ & _ & Hc). apply elem_of_cons in Hb as [[= -> ->]|Hb]; [unfold MIN_BLOCK_SIZE in *; lia|].
  by eapply IH.
Qed.

Lemma chain_NoDup lo l hi : chain lo l hi -> NoDup l.*1.
Proof.
  revert lo; induction l as [|[a s] l IH]; intros lo Hc; [constructor|].
  destruct Hc as (_ & H1 & _ & _ & _ & Hc). cbn. constructor; [|by eapply IH].
  intros Ha. apply (chain_sorted _ _ _ _ Hc) in Ha. unfold MIN_BLOCK_SIZE in H1. lia.
Qed.

Lemma lseg_fuel m p l q : lseg m p l q -> NoDup l.*1 -> (length l <= base.size m)%nat.
Proof.
  intros Hl Hnd. rewrite <- (length_fmap fst l), <- size_dom, <- (size_list_to_set (C := gset Z)) by done.
  apply subseteq_size. intros a Ha%elem_of_list_to_set. apply elem_of_dom. exact (lseg_dom _ _ _ _ _ Hl Ha).
Qed.

(** The link in front of what follows [pre]. *)
Definition link_of (pre : list (Z * Z)) : Link :=
  match last pre with Some x => Next (fst x) | None => Head end.

Lemma link_of_snoc pre x : link_of (pre ++ [x]) = Next (fst x).
Proof. unfold link_of. by rewrite last_snoc. Qed.

Lemma get_link_spec h pre suf q :
  lseg (mem h) (head h) pre q -> lseg (mem h) q suf None -> get_link h (link_of pre) = Some q.
Proof.
  destruct pre as [|x pre _] using rev_ind; intros Hp Hs.
  - cbn in Hp. by subst.
  - rewrite link_of_snoc. apply lseg_app in Hp as (r & _ & Hx). destruct x as [a s]. cbn in *.
    destruct Hx as (-> & nx & Hm & ->). by rewrite Hm.
Qed.

(** Redirecting that link. *)
Lemma set_link_spec h pre q q' :
  lseg (mem h) (head h) pre q -> NoDup pre.*1 ->
  exists h', set_link h (link_of pre) q' = Some h' /\ lseg (mem h') (head h') pre q' /\
    (forall a, a ∉ pre.*1 -> mem h' !! a = mem h !! a) /\
    mapped_end h' = mapped_end h /\ heap_end h' = heap_end h.
Proof.
  destruct pre as [|[a s] pre _] using rev_ind; intros Hp Hnd.
  - by eexists.
  - rewrite link_of_snoc. apply lseg_app in Hp as (r & Hp & Hx). cbn in Hx.
    destruct Hx as (-> & nx & Hm & ->). cbn [set_link fst]. rewrite Hm. cbn [mbind option_bind size].
    eexists; split; [done|]. cbn. rewrite fmap_app, NoDup_app in Hnd. destruct Hnd as (Hnd & Hdis & _).
    split; [|split; [|done]].
    + apply lseg_app. exists (Some a). split.
      * eapply lseg_frame; [done|]. intros b Hb. apply lookup_insert_ne. intros <-.
        apply (Hdis a Hb). cbn. by apply list_elem_of_singleton.
      * cbn. split; [done|]. exists q'. by rewrite lookup_insert_eq.
    + intros b Hb. apply lookup_insert_ne. intros <-. apply Hb. rewrite fmap_app. apply elem_of_app. right.
      by apply list_elem_of_singleton.
Qed.

(** Addresses of distinct positions differ. *)
Lemma NoDup_mid {A} (pre suf : list A) (x : A) :
  NoDup (pre ++ x :: suf) -> (x ∉ pre) /\ (x ∉ suf) /\ NoDup (pre ++ suf).
Proof.
  intros H. apply NoDup_app in H as (H1 & H2 & H3). apply NoDup_cons in H3 as [H3 H4].
  split; [intros Hx; apply (H2 x Hx), elem_of_cons; auto|]. split; [done|].
  apply NoDup_app. split_and!; try done. intros y Hy Hs. apply (H2 y Hy), elem_of_cons. auto.
Qed.

Lemma rep_mid h pre a s suf :
  rep h (pre ++ (a, s) :: suf) <->
  exists nx, lseg (mem h) (head h) pre (Some a) /\ mem h !! a = Some (mkFB s nx) /\ lseg (mem h) nx suf None.
Proof.
  unfold rep. rewrite lseg_app. cbn. split.
  - intros (r & H1 & -> & nx & H2 & H3). by exists nx.
  - intros (nx & H1 & H2 & H3). exists (Some a). split; [done|]. split; [done|]. by exists nx.
Qed.

(** Writing one block's header in place. *)
Lemma rep_set_block h pre a s suf s' nx' suf' :
  rep h (pre ++ (a, s) :: suf) -> NoDup (pre ++ (a, s) :: suf).*1 ->
  lseg (mem h) nx' suf' None -> a ∉ suf'.*1 ->
  rep (set_block h a (mkFB s' nx')) (pre ++ (a, s') :: suf').
Proof.
  intros Hr Hnd Hs Ha. apply rep_mid in Hr as (nx & H1 & H2 & H3). apply rep_mid. exists nx'. cbn.
  rewrite fmap_app, fmap_cons in Hnd. apply NoDup_mid in Hnd as (N1 & N2 & _).
  split_and!; [|by rewrite lookup_insert_eq|].
  - eapply lseg_frame; [done|]. intros b Hb. apply lookup_insert_ne. by intros <-.
  - eapply lseg_frame; [done|]. intros b Hb. apply lookup_insert_ne. by intros <-.
Qed.

Lemma find_insertion_spec h addr pre mid suf fuel :
  rep h (pre ++ mid ++ suf) -> Forall (fun x => fst x <= addr) mid ->
  Forall (fun x => addr < fst x) suf -> (length mid < fuel)%nat ->
  find_insertion fuel h (link_of pre) addr = Some (link_of (pre ++ mid)).
Proof.
  revert pre fuel; induction mid as [|[b t] mid IH]; intros pre fuel Hr Hm Hs Hf;
    (destruct fuel as [|fuel]; [cbn in Hf; lia|]); cbn [find_insertion].
  - rewrite app_nil_r. unfold rep in Hr. apply lseg_app in Hr as (q & H1 & H2). cbn in H2.
    rewrite (get_link_spec h pre suf q H1 H2). cbn [mbind option_bind].
    destruct suf as [|[c u] suf]; cbn in H2; [by subst|]. destruct H2 as [-> _].
    apply Forall_cons_1 in Hs as [Hs _]. cbn in Hs. by rewrite (proj2 (Z.ltb_lt _ _) Hs).
  - apply Forall_cons_1 in Hm as [Hb Hm]. cbn in Hb.
    pose proof Hr as Hr'. unfold rep in Hr. apply lseg_app in Hr as (q & H1 & H2).
    rewrite (get_link_spec h pre _ q H1 H2). cbn in H2. destruct H2 as [-> _]. cbn [mbind option_bind].
    rewrite (proj2 (Z.ltb_ge _ _) Hb).
    replace (Next b) with (link_of (pre ++ [(b, t)])) by by rewrite link_of_snoc.
    rewrite (cons_middle (b, t) pre mid), app_assoc. apply IH; [|done|done|cbn in Hf; lia].
    by rewrite <- app_assoc.
Qed.

(** The first coalescing step. *)
Lemma coalesce_next_spec h lo pre a s suf hi :
  rep h (pre ++ (a, s) :: suf) -> NoDup (pre ++ (a, s) :: suf).*1 -> chain lo suf hi ->
  0 <= a -> 0 <= s -> a + s <= hi -> hi < 2 ^ 32 ->
  exists h', coalesce_next h a = Some h' /\ rep h' (pre ++ merge (a, s) suf) /\
    mapped_end h' = mapped_end h /\ heap_end h' = heap_end h /\
    (forall b, b ∉ (pre ++ (a, s) :: suf).*1 -> mem h' !! b = mem h !! b).
Proof.
  intros Hr Hnd Hc Ha Hs Hhi Hw. pose proof Hr as Hr'. apply rep_mid in Hr' as (nx & H1 & H2 & H3).
  unfold coalesce_next. rewrite H2. cbn [mbind option_bind next DemandHeap.size].
  rewrite (wrap_small 32 (a + s)) by (split; lia).
  destruct suf as [|[b t] suf]; cbn in H3; [subst nx; by exists h|].
  destruct H3 as (-> & nx' & Hb & Hsuf). cbn [merge fst snd].
  destruct (Z.eqb_spec (a + s) b) as [<-|Hne]; [|by exists h]. rewrite Hb. cbn [mbind option_bind next DemandHeap.size].
  destruct Hc as (_ & Ht & _ & _ & Hbt & _). unfold MIN_BLOCK_SIZE in Ht.
  rewrite (wrap_small 32 (s + t)) by (split; lia).
  eexists; split; [done|]. split; [|split; [done|split; [done|]]].
  - eapply rep_set_block; [done|done|done|]. rewrite fmap_app, fmap_cons in Hnd.
    apply NoDup_mid in Hnd as (_ & Hn & _). rewrite fmap_cons in Hn. intros Hin. apply Hn, elem_of_cons. auto.
  - intros c Hc. apply lookup_insert_ne. intros <-. apply Hc. rewrite fmap_app, fmap_cons.
    apply elem_of_app. right. apply elem_of_cons. auto.
Qed.

Definition last_addr (pre : list (Z * Z)) : option Z := fst <$> last pre.

(** The second: the walk to the block, then the merge with the one before. *)
Lemma coalesce_prev_walk h pre mid a s suf fuel :
  rep h (pre ++ mid ++ (a, s) :: suf) -> a ∉ mid.*1 ->
  coalesce_prev (length mid + fuel) h (last_addr pre) (fst <$> hd_error (mid ++ [(a, s)])) a =
  coalesce_prev fuel h (last_addr (pre ++ mid)) (Some a) a.
Proof.
  revert pre; induction mid as [|[b t] mid IH]; intros pre Hr Ha; [by rewrite app_nil_r|].
  cbn [length Nat.add app hd_error fmap option_fmap option_map fst coalesce_prev].
  pose proof Hr as Hr'. apply rep_mid in Hr as (nx & H1 & H2 & H3). rewrite H2. cbn [mbind option_bind next].
  rewrite fmap_cons in Ha. apply not_elem_of_cons in Ha as [Hne Ha]. cbn in Hne.
  rewrite (proj2 (Z.eqb_neq b a)) by congruence.
  specialize (IH (pre ++ [(b, t)])). rewrite <- !app_assoc in IH. etransitivity; [|exact (IH Hr' Ha)].
  f_equal; [unfold last_addr; by rewrite last_snoc|].
  destruct mid as [|[c u] mid]; cbn in H3; by destruct H3 as [-> _].
Qed.

Lemma coalesce_prev_spec h pre b t a s suf hi fuel :
  rep h (pre ++ (b, t) :: (a, s) :: suf) -> NoDup (pre ++ (b, t) :: (a, s) :: suf).*1 ->
  (S (length pre) < fuel)%nat -> hi < 2 ^ 32 -> 0 <= s -> a + s <= hi -> 0 <= b -> 0 <= t -> b + t <= a ->
  exists h', coalesce_prev fuel h None (head h) a = Some h' /\
    rep h' (pre ++ merge (b, t) ((a, s) :: suf)) /\
    mapped_end h' = mapped_end h /\ heap_end h' = heap_end h /\
    (forall c, c ∉ (pre ++ (b, t) :: (a, s) :: suf).*1 -> mem h' !! c = mem h !! c).
Proof.
  intros Hr Hnd Hf Hhi Hs Has Hb Ht Hbt.
  assert (rep h ([] ++ (pre ++ [(b, t)]) ++ (a, s) :: suf)) as Hr1 by (cbn [app]; by rewrite <- app_assoc).
  assert (a ∉ (pre ++ [(b, t)]).*1) as Ha.
  { rewrite fmap_app, !fmap_cons, (cons_middle b), app_assoc in Hnd. apply NoDup_mid in Hnd as (Hn & _ & _).
    by rewrite fmap_app. }
  assert (head h = fst <$> hd_error ((pre ++ [(b, t)]) ++ [(a, s)])) as Hh.
  { unfold rep in Hr. destruct pre as [|[c u] pre]; cbn in *; by destruct Hr as [-> _]. }
  rewrite Hh. change None with (last_addr []) at 1.
  replace fuel with (length (pre ++ [(b, t)]) + S (fuel - S (S (length pre))))%nat by (rewrite length_app; cbn; lia).
  rewrite (coalesce_prev_walk h [] _ a s suf _ Hr1 Ha). cbn [app coalesce_prev]. unfold last_addr. rewrite last_snoc.
  cbn [fmap option_fmap option_map fst].
  pose proof Hr as Hr2. apply rep_mid in Hr2 as (nx & H1 & H2 & H3). cbn in H3. destruct H3 as (-> & nx' & H3 & H4).
  rewrite H3, H2. cbn [mbind option_bind next DemandHeap.size]. rewrite Z.eqb_refl.
  rewrite (wrap_small 32 (b + t)), (wrap_small 32 (t + s)) by (split; lia). cbn [merge fst snd].
  destruct (Z.eqb_spec (b + t) a) as [<-|Hne]; [|by exists h].
  eexists; split; [done|]. split; [|split; [done|split; [done|]]].
  - eapply rep_set_block; [done|done|done|]. rewrite fmap_app, !fmap_cons in Hnd.
    apply NoDup_mid in Hnd as (_ & Hn & _). intros Hin. apply Hn, elem_of_cons. auto.
  - intros c Hc. apply lookup_insert_ne. intros <-. apply Hc. rewrite fmap_app, fmap_cons.
    apply elem_of_app. right. apply elem_of_cons. auto.
Qed.

Lemma coalesce_prev_first h a s suf fuel :
  rep h ((a, s) :: suf) -> coalesce_prev (S fuel) h None (head h) a = Some h.
Proof.
  intros (Hh & nx & Hm & _). rewrite Hh. cbn. rewrite Hm. cbn. by rewrite Z.eqb_refl.
Qed.

Lemma chain_split lo l hi a :
  chain lo l hi -> exists mid suf, l = mid ++ suf /\ Forall (fun x => fst x <= a) mid /\
    Forall (fun x => a < fst x) suf.
Proof.
  revert lo; induction l as [|[b t] l IH]; intros lo Hc; [by exists [], []|].
  destruct Hc as (_ & Ht & _ & _ & _ & Hc). destruct (Z.lt_ge_cases a b) as [Hlt|Hge].
  - exists [], ((b, t) :: l). split_and!; [done|constructor|]. constructor; [done|].
    apply Forall_forall. intros [c u] Hcu.
    apply (list_elem_of_fmap_2 fst) in Hcu. apply (chain_sorted _ _ _ _ Hc) in Hcu. cbn in *.
    unfold MIN_BLOCK_SIZE in Ht. lia.
  - destruct (IH _ Hc) as (mid & suf & -> & Hm & Hs). exists ((b, t) :: mid), suf.
    split_and!; [done|by constructor|done].
Qed.

Lemma merge_head x l : exists s r, merge x l = (fst x, s) :: r.
Proof. destruct x as [a s], l as [|[b t] r]; cbn; [by eexists _, _|]. destruct (_ =? _); by eexists _, _. Qed.

Lemma insert_free_head a s b t l : b <= a -> exists s' r, insert_free a s ((b, t) :: l) = (b, s') :: r.
Proof. intros H. cbn. rewrite (proj2 (Z.ltb_ge _ _) H). apply (merge_head (b, t)). Qed.

(** Only the neighbours of the inserted extent can merge. *)
Lemma insert_free_above a s suf : Forall (fun x => a < fst x) suf -> insert_free a s suf = merge (a, s) suf.
Proof.
  intros Hs. destruct suf as [|[b t] suf]; [done|]. apply Forall_cons_1 in Hs as [Hb _]. cbn in Hb.
  cbn [insert_free]. by rewrite (proj2 (Z.ltb_lt _ _) Hb).
Qed.

Lemma insert_free_mid a s pre b t suf lo hi :
  chain lo (pre ++ (b, t) :: suf) hi -> Forall (fun x => fst x <= a) (pre ++ [(b, t)]) ->
  Forall (fun x => a < fst x) suf ->
  insert_free a s (pre ++ (b, t) :: suf) = pre ++ merge (b, t) (merge (a, s) suf).
Proof.
  intros Hc Hp Hs. revert lo Hc; induction pre as [|[c u] pre IH]; intros lo Hc;
    apply Forall_cons_1 in Hp as [Hb Hp]; cbn in Hb.
  - cbn [app insert_free]. by rewrite (proj2 (Z.ltb_ge _ _) Hb), insert_free_above.
  - cbn [app] in *. destruct Hc as (_ & _ & _ & _ & _ & Hc). cbn [insert_free].
    rewrite (proj2 (Z.ltb_ge _ _) Hb).
    assert (exists d v r, pre ++ (b, t) :: suf = (d, v) :: r /\ d <= a /\ c + u < d) as (d & v & r & E & Hd & Hgap).
    { destruct pre as [|[d v] pre]; cbn in *; destruct Hc as [? _]; apply Forall_cons_1 in Hp as [? _];
        cbn in *; by eexists _, _, _. }
    rewrite <- (IH Hp _ Hc), E. destruct (insert_free_head a s d v r Hd) as (s' & r' & ->). cbn [merge fst snd].
    by rewrite (proj2 (Z.eqb_neq _ _)) by lia.
Qed.

Lemma merge_NoDup pre x suf : NoDup (pre ++ x :: suf).*1 -> NoDup (pre ++ merge x suf).*1.
Proof.
  destruct x as [a s], suf as [|[b t] r]; cbn [merge fst snd]; [done|]. destruct (_ =? _); [|done].
  rewrite !fmap_app, !fmap_cons. cbn [fst]. rewrite (cons_middle a), app_assoc. intros H.
  apply NoDup_mid in H as (_ & _ & H). by rewrite <- app_assoc in H.
Qed.

Lemma merge_keys x suf c : c ∈ (merge x suf).*1 -> c ∈ (x :: suf).*1.
Proof.
  destruct x as [a s], suf as [|[b t] r]; cbn [merge fst snd]; [done|]. destruct (_ =? _); [|done].
  rewrite !fmap_cons, !elem_of_cons. cbn. tauto.
Qed.

(** Linking a block between what lies below and what lies above it. *)
Lemma link_in_spec h mid suf a s :
  rep h (mid ++ suf) -> NoDup (mid ++ suf).*1 -> a ∉ (mid ++ suf).*1 ->
  exists p h', get_link h (link_of mid) = Some p /\
    set_link (set_block h a (mkFB s p)) (link_of mid) (Some a) = Some h' /\
    rep h' (mid ++ (a, s) :: suf) /\ mapped_end h' = mapped_end h /\ heap_end h' = heap_end h /\
    (forall b, b ∉ a :: mid.*1 -> mem h' !! b = mem h !! b).
Proof.
  intros Hr Hnd Ha. unfold rep in Hr. apply lseg_app in Hr as (q & H1 & H2).
  rewrite fmap_app in Hnd, Ha. apply NoDup_app in Hnd as (Hnd & Hdis & _).
  apply not_elem_of_app in Ha as [Ha1 Ha2].
  assert (forall l p r, a ∉ l.*1 -> lseg (mem h) p l r -> lseg (mem (set_block h a (mkFB s q))) p l r) as Hfr.
  { intros l p r Hal Hl. eapply lseg_frame; [done|]. intros b Hb. apply lookup_insert_ne. by intros <-. }
  destruct (set_link_spec (set_block h a (mkFB s q)) mid q (Some a)) as (h' & E & S1 & S2 & S3 & S4);
    [by apply Hfr|done|].
  exists q, h'. split; [by eapply get_link_spec|]. split; [done|].
  split; [|split; [done|split; [done|]]].
  - apply rep_mid. exists q. split; [done|]. split; [rewrite S2 by done; apply lookup_insert_eq|].
    eapply lseg_frame; [by apply (Hfr suf)|]. intros b Hb. apply S2. intros Hbm. by apply (Hdis b).
  - intros b [Hb1 Hb2]%not_elem_of_cons. rewrite S2 by done. by apply lookup_insert_ne.
Qed.

Lemma chain_app_r lo l1 l2 hi : chain lo (l1 ++ l2) hi -> chain lo l2 hi.
Proof.
  revert lo; induction l1 as [|[a s] l1 IH]; intros lo; [done|]. intros (H1 & H2 & _ & _ & _ & Hc).
  apply IH in Hc. eapply chain_weaken; [done|]. unfold MIN_BLOCK_SIZE in H2. lia.
Qed.

Lemma covers_app l1 l2 x : covers (l1 ++ l2) x <-> covers l1 x \/ covers l2 x.
Proof.
  induction l1 as [|[a s] l1 IH]; cbn [app]; [pose proof (covers_nil x); tauto|]. rewrite !covers_cons, IH. tauto.
Qed.

Lemma apart_not_key lo l hi a s : chain lo l hi -> 0 < s -> apart l a s -> a ∉ l.*1.
Proof.
  intros Hc Hs Hap Ha. apply (Hap a); [lia|]. apply list_elem_of_fmap in Ha as ([b t] & -> & Hb). cbn.
  exists b, t. split; [done|]. clear -Hc Hb.
  revert lo Hc; induction l as [|[c u] l IH]; intros lo Hc; [by apply elem_of_nil in Hb|].
  destruct Hc as (_ & Hu & _ & _ & _ & Hc). unfold MIN_BLOCK_SIZE in Hu.
  apply elem_of_cons in Hb as [[= -> ->]|Hb]; [lia|by eapply IH].
Qed.

(** A region between two neighbours touches neither, and merged with the
    one above is still above the one below. *)
Lemma between_spec lo pre b t suf hi a s :
  chain lo (pre ++ (b, t) :: suf) hi -> apart (pre ++ (b, t) :: suf) a s ->
  b <= a -> Forall (fun x => a < fst x) suf -> MIN_BLOCK_SIZE <= s -> a mod 4 = 0 -> s mod 4 = 0 -> a + s <= hi ->
  b + t <= a /\ chain (b + t - 1) (merge (a, s) suf) hi.
Proof.
  intros Hc Hap Hb Hsuf Hs Hm1 Hm2 Has. apply chain_app_r in Hc as (B1 & B2 & _ & _ & _ & B6).
  unfold MIN_BLOCK_SIZE in Hs, B2.
  assert (forall x, covers ((b, t) :: suf) x -> covers (pre ++ (b, t) :: suf) x) as Hcov
    by (intros x Hx; apply covers_app; by right).
  assert (b + t <= a) as Hbt.
  { destruct (Z.le_gt_cases (b + t) a); [done|]. exfalso. apply (Hap a); [lia|]. apply Hcov, covers_cons. lia. }
  split; [done|]. apply chain_merge; [lia|done..|]. destruct suf as [|[c u] suf]; [done|].
  apply Forall_cons_1 in Hsuf as [Hac _]. cbn in Hac. destruct B6 as (C1 & C2 & C3 & C4 & C5 & C6).
  split_and!; try done. unfold MIN_BLOCK_SIZE in C2. destruct (Z.le_gt_cases (a + s) c); [lia|]. exfalso.
  apply (Hap c); [lia|]. apply Hcov, covers_cons. right. apply covers_cons. lia.
Qed.

(** Returning a region: the pointer code computes [insert_free] and touches
    no header outside the list and the region. *)
Lemma add_free_region_spec h lo l hi a s :
  rep h l -> chain lo l hi -> 0 <= lo -> hi < 2 ^ 32 ->
  lo < a -> MIN_BLOCK_SIZE <= s -> a mod 4 = 0 -> s mod 4 = 0 -> a + s <= hi -> apart l a s ->
  exists h', add_free_region h a s = Some h' /\ rep h' (insert_free a s l) /\
    mapped_end h' = mapped_end h /\ heap_end h' = heap_end h /\
    (forall b, b ∉ a :: l.*1 -> mem h' !! b = mem h !! b).
Proof.
  intros Hr Hc Hlo Hhi Ha Hs Hm1 Hm2 Has Hap. unfold add_free_region.
  rewrite (proj2 (Z.ltb_ge _ _) Hs). unfold MIN_BLOCK_SIZE in Hs.
  pose proof (apart_not_key lo l hi a s Hc ltac:(lia) Hap) as Hk. pose proof (chain_NoDup _ _ _ Hc) as Hnd.
  set (h0 := set_block h a (mkFB s None)).
  assert (rep h0 l) as Hr0.
  { eapply lseg_frame; [done|]. intros b Hb. apply lookup_insert_ne. by intros <-. }
  destruct (chain_split _ _ _ a Hc) as (mid & suf & -> & Hmid & Hsuf).
  pose proof (lseg_fuel _ _ _ _ Hr0 Hnd) as Hfuel. rewrite length_app in Hfuel.
  change Head with (link_of []).
  rewrite (find_insertion_spec h0 a [] mid suf (fuel_of h0) Hr0 Hmid Hsuf) by (unfold fuel_of; lia). cbn [app mbind option_bind].
  destruct (link_in_spec h0 mid suf a s Hr0 Hnd Hk) as (p & h1 & -> & E1 & R1 & M1 & P1 & F1).
  change (mapped_end h0) with (mapped_end h) in M1. change (heap_end h0) with (heap_end h) in P1.
  cbn [mbind option_bind]. rewrite E1. cbn [mbind option_bind].
  assert (NoDup (mid ++ (a, s) :: suf).*1) as Hnd1.
  { rewrite fmap_app, fmap_cons, <- Permutation_middle. constructor; [by rewrite <- fmap_app|by rewrite <- fmap_app]. }
  pose proof (chain_app_r _ _ _ _ Hc) as Hcs.
  destruct (coalesce_next_spec h1 lo mid a s suf hi) as (h2 & -> & R2 & M2 & P2 & F2); try done; try lia.
  cbn [mbind option_bind].
  assert (forall b, b ∉ a :: (mid ++ suf).*1 -> mem h2 !! b = mem h !! b) as Hframe.
  { intros b Hb. rewrite fmap_app in Hb. rewrite not_elem_of_cons, not_elem_of_app in Hb. destruct Hb as (B1 & B2 & B3).
    rewrite F2, F1; [by apply lookup_insert_ne|by rewrite not_elem_of_cons|].
    rewrite fmap_app, fmap_cons, not_elem_of_app, not_elem_of_cons. done. }
  destruct mid as [|[b t] pre _] using rev_ind.
  - cbn [app] in *. destruct (merge_head (a, s) suf) as (s' & suf' & Em). cbn in Em. rewrite Em in R2.
    unfold fuel_of. rewrite (coalesce_prev_first h2 a s' suf') by done. exists h2. split; [done|].
    rewrite insert_free_above, Em by done. split; [done|]. split; [congruence|]. split; [congruence|done].
  - rewrite <- !app_assoc in *. cbn [app] in *.
    destruct (merge_head (a, s) suf) as (s' & suf' & Em). cbn in Em.
    assert (NoDup (pre ++ (b, t) :: merge (a, s) suf).*1) as Hnd2
      by (rewrite (cons_middle (b, t)), app_assoc; apply merge_NoDup; by rewrite <- app_assoc).
    pose proof Hmid as Hmid'. apply Forall_app in Hmid' as [_ Hb]. apply Forall_cons_1 in Hb as [Hb _]. cbn in Hb.
    pose proof Hc as Hc0. apply chain_app_r in Hc0 as (B1 & B2 & _). unfold MIN_BLOCK_SIZE in B2.
    destruct (between_spec lo pre b t suf hi a s Hc Hap Hb Hsuf Hs Hm1 Hm2 Has) as [Hbt Hcm].
    rewrite (insert_free_mid a s pre b t suf lo hi Hc Hmid Hsuf). rewrite Em in *.
    destruct Hcm as (D1 & D2 & _ & _ & D5 & _). unfold MIN_BLOCK_SIZE in D2.
    pose proof (lseg_fuel _ _ _ _ R2 Hnd2) as Hf2. rewrite length_app in Hf2. cbn [length] in Hf2.
    destruct (coalesce_prev_spec h2 pre b t a s' suf' hi (fuel_of h2)) as (h3 & E3 & R3 & M3 & P3 & F3);
      try done; try lia; [unfold fuel_of; lia|].
    exists h3. split; [done|]. split; [done|]. split; [congruence|]. split; [congruence|].
    intros c Hc'. rewrite F3; [by apply Hframe|]. intros Hin. apply Hc'.
    rewrite fmap_app, !fmap_cons, elem_of_app, !elem_of_cons in Hin.
    rewrite fmap_app, !fmap_cons, elem_of_cons, elem_of_app, elem_of_cons. cbn in *.
    assert (c ∈ suf'.*1 -> c = a \/ c ∈ suf.*1) as Hin'; [|tauto].
    intros Hx. assert (c ∈ (merge (a, s) suf).*1) as Hy by (rewrite Em, fmap_cons, elem_of_cons; auto).
    apply merge_keys in Hy. rewrite fmap_cons, elem_of_cons in Hy. done.
Qed.

(** ** Allocation from the list *)

Lemma align_up_spec a k : 0 <= k <= 31 -> align_up a (2 ^ k) = u32 (a + 2 ^ k - 1) - (a + 2 ^ k - 1) mod 2 ^ k.
Proof.
  intros Hk. unfold align_up. assert (u32 (2 ^ k - 1) = 2 ^ k - 1) as ->.
  { apply wrap_small. pose proof (pow2_pos k). pose proof (Z.pow_lt_mono_r 2 k 32). split; lia. }
  assert (u32 (u32 (a + 2 ^ k) - 1) = u32 (a + 2 ^ k - 1)) as -> by (unfold wrap; by rewrite Zminus_mod_idemp_l).
  pose proof (wrap_fits 32 (a + 2 ^ k - 1) ltac:(lia)) as Hf.
  assert ((a + 2 ^ k - 1) mod 2 ^ k = u32 (a + 2 ^ k - 1) mod 2 ^ k) as ->.
  { unfold wrap. replace (2 ^ 32) with (2 ^ (32 - k) * 2 ^ k) by (rewrite <- Z.pow_add_r by lia; f_equal; lia).
    rewrite Z.mul_comm, Z.rem_mul_r by (pose proof (pow2_pos k); pose proof (pow2_pos (32 - k)); lia).
    rewrite Z.mul_comm, Z_mod_plus_full, Z.mod_mod by (pose proof (pow2_pos k); lia). done. }
  set (x := u32 (a + 2 ^ k - 1)) in *. replace (2 ^ k - 1) with (Z.ones k) by (rewrite Z.ones_equiv; lia).
  rewrite <- Z.land_ones by lia.
  enough (x .& bnot 32 (Z.ones k) + Z.land x (Z.ones k) = x) by lia.
  rewrite Z.add_nocarry_lxor.
  - apply (fits_bits_eq 32); [lia| |done|].
    + apply fits_testbit; [lia|]. split.
      * apply Z.lxor_nonneg. split; intros _; apply Z.land_nonneg; left; apply Hf.
      * intros i Hi. rewrite Z.lxor_spec, !Z.land_spec, (fits_high 32 x) by (done || lia). done.
    + intros i Hi. rewrite Z.lxor_spec, !Z.land_spec, testbit_bnot by lia.
      by destruct (Z.testbit x i), (Z.testbit (Z.ones k) i).
  - apply Z.bits_inj'; intros i Hi. rewrite !Z.land_spec, Z.testbit_0_l.
    destruct (Z.lt_ge_cases i 32); [rewrite testbit_bnot by lia|rewrite (fits_high 32 x) by (done || lia); done].
    by destruct (Z.testbit x i), (Z.testbit (Z.ones k) i).
Qed.

Lemma padding_spec a k : 0 <= k <= 31 -> u32 (align_up a (2 ^ k) - a) = pad a (2 ^ k).
Proof.
  intros Hk. rewrite align_up_spec by done. unfold wrap.
  replace ((a + 2 ^ k - 1) mod 2 ^ 32 - (a + 2 ^ k - 1) mod 2 ^ k - a) with
    ((a + 2 ^ k - 1) mod 2 ^ 32 - ((a + 2 ^ k - 1) mod 2 ^ k + a)) by lia.
  rewrite Zminus_mod_idemp_l. replace (a + 2 ^ k - 1 - ((a + 2 ^ k - 1) mod 2 ^ k + a)) with (pad a (2 ^ k))
    by (unfold pad; lia).
  pose proof (pad_range a (2 ^ k) (pow2_pos k ltac:(lia))). pose proof (Z.pow_lt_mono_r 2 k 32).
  apply Z.mod_small. lia.
Qed.

(** An address whose header lies in free memory. *)
Definition header_in (l : list (Z * Z)) (b : Z) : Prop := forall x, b <= x < b + 8 -> covers l x.

Lemma chain_pre lo pre a s suf hi c : chain lo (pre ++ (a, s) :: suf) hi -> c ∈ pre.*1 -> c < a.
Proof.
  revert lo; induction pre as [|[b t] pre IH]; intros lo; [by intros _ ?%elem_of_nil|].
  intros (_ & H2 & _ & _ & _ & Hc) [->|Hin]%elem_of_cons; [|by eapply IH].
  cbn. apply chain_app_r in Hc as (? & _). unfold MIN_BLOCK_SIZE in H2. lia.
Qed.

Lemma chain_suf lo pre a s suf hi c : chain lo (pre ++ (a, s) :: suf) hi -> c ∈ suf.*1 -> a + s < c.
Proof.
  intros Hc Hin. apply chain_app_r in Hc as (_ & _ & _ & _ & _ & Hc). apply (chain_sorted _ _ _ _ Hc) in Hin. lia.
Qed.

Lemma header_mid lo pre a s suf hi b :
  chain lo (pre ++ (a, s) :: suf) hi -> a <= b -> b + 8 <= a + s -> header_in (pre ++ (a, s) :: suf) b.
Proof. intros Hc H1 H2 x Hx. apply covers_app. right. apply covers_cons. lia. Qed.

Lemma header_key lo l hi b : chain lo l hi -> b ∈ l.*1 -> header_in l b.
Proof.
  intros Hc Hb. apply list_elem_of_fmap in Hb as ([a s] & -> & Hin). apply list_elem_of_split in Hin as (l1 & l2 & ->).
  eapply header_mid; [done|done|]. apply chain_app_r in Hc as (_ & H & _). unfold MIN_BLOCK_SIZE in H. cbn. lia.
Qed.

(** Unlinking the block after [pre], or shortening it from below. *)
Lemma relink_spec h lo pre a s suf hi b s' :
  rep h (pre ++ (a, s) :: suf) -> chain lo (pre ++ (a, s) :: suf) hi -> a <= b -> b + s' <= a + s -> 0 <= s' ->
  exists nx h1, mem h !! a = Some (mkFB s nx) /\
    (if MIN_BLOCK_SIZE <=? s' then set_link (set_block h b (mkFB s' nx)) (link_of pre) (Some b)
     else set_link h (link_of pre) nx) = Some h1 /\
    rep h1 (pre ++ rest_if b s' suf) /\ mapped_end h1 = mapped_end h /\ heap_end h1 = heap_end h /\
    (forall c, ~ header_in (pre ++ (a, s) :: suf) c -> mem h1 !! c = mem h !! c).
Proof.
  intros Hr Hc Hb Hs' Hs0. pose proof Hr as Hr'. apply rep_mid in Hr' as (nx & H1 & H2 & H3). exists nx.
  pose proof (chain_NoDup _ _ _ Hc) as Hnd. rewrite fmap_app, fmap_cons in Hnd.
  pose proof Hnd as Hnd0. apply NoDup_app in Hnd0 as (Hnd1 & Hdis & _).
  assert (forall c, c ∈ pre.*1 -> header_in (pre ++ (a, s) :: suf) c) as Hpre.
  { intros c Hin. eapply header_key; [done|]. rewrite fmap_app. apply elem_of_app. by left. }
  assert (forall c, c ∈ suf.*1 -> c ∉ pre.*1) as Hps.
  { intros c Hin Hp. apply (Hdis c Hp), elem_of_cons. auto. }
  unfold rest_if. destruct (Z.leb_spec MIN_BLOCK_SIZE s') as [Hbig|Hsmall].
  - unfold MIN_BLOCK_SIZE in Hbig.
    assert (b ∉ pre.*1) as Hbp by (intros Hin; apply (chain_pre _ _ _ _ _ _ _ Hc) in Hin; lia).
    assert (b ∉ suf.*1) as Hbs by (intros Hin; apply (chain_suf _ _ _ _ _ _ _ Hc) in Hin; lia).
    destruct (set_link_spec (set_block h b (mkFB s' nx)) pre (Some a) (Some b)) as (h1 & E & S1 & S2 & S3 & S4).
    { eapply lseg_frame; [done|]. intros c Hin. apply lookup_insert_ne. by intros <-. }
    { done. }
    exists h1. split; [done|]. split; [done|]. split; [|split; [done|split; [done|]]].
    + apply rep_mid. exists nx. split; [done|]. split; [rewrite S2 by done; apply lookup_insert_eq|].
      eapply lseg_frame; [done|]. intros c Hin. rewrite S2 by auto. apply lookup_insert_ne. by intros <-.
    + intros c Hn. rewrite S2 by (intros Hin; by apply Hn, Hpre). apply lookup_insert_ne. intros <-. apply Hn.
      eapply header_mid; [done|lia..].
  - destruct (set_link_spec h pre (Some a) nx H1 Hnd1) as (h1 & E & S1 & S2 & S3 & S4).
    exists h1. split; [done|]. split; [done|]. split; [|split; [done|split; [done|]]].
    + apply lseg_app. exists nx. split; [done|]. eapply lseg_frame; [done|]. auto.
    + intros c Hn. apply S2. intros Hin. by apply Hn, Hpre.
Qed.

(** Keeping the padding in front as a block of its own. *)
Lemma split_block_spec h lo pre a s suf hi pd b s' :
  rep h (pre ++ (a, s) :: suf) -> chain lo (pre ++ (a, s) :: suf) hi ->
  MIN_BLOCK_SIZE <= pd -> a + pd <= b -> b + s' <= a + s -> 0 <= s' ->
  exists nx, mem h !! a = Some (mkFB s nx) /\
    let h1 := set_block h a (mkFB pd nx) in
    let h2 := if MIN_BLOCK_SIZE <=? s'
              then set_block (set_block h1 b (mkFB s' nx)) a (mkFB pd (Some b)) else h1 in
    rep h2 (pre ++ (a, pd) :: rest_if b s' suf) /\ mapped_end h2 = mapped_end h /\ heap_end h2 = heap_end h /\
    (forall c, ~ header_in (pre ++ (a, s) :: suf) c -> mem h2 !! c = mem h !! c).
Proof.
  intros Hr Hc Hpd Hb Hs' Hs0. pose proof Hr as Hr'. apply rep_mid in Hr' as (nx & H1 & H2 & H3). exists nx.
  split; [done|]. cbv zeta. unfold MIN_BLOCK_SIZE in Hpd.
  pose proof Hc as Hc'. apply chain_app_r in Hc' as (_ & Hs & _). unfold MIN_BLOCK_SIZE in Hs.
  assert (a ∉ pre.*1) as Ha1 by (intros Hin; apply (chain_pre _ _ _ _ _ _ _ Hc) in Hin; lia).
  assert (a ∉ suf.*1) as Ha2 by (intros Hin; apply (chain_suf _ _ _ _ _ _ _ Hc) in Hin; lia).
  assert (header_in (pre ++ (a, s) :: suf) a) as Hha by (eapply header_mid; [done|lia..]).
  unfold rest_if. destruct (Z.leb_spec MIN_BLOCK_SIZE s') as [Hbig|Hsmall].
  - unfold MIN_BLOCK_SIZE in Hbig.
    assert (b ∉ pre.*1) as Hbp by (intros Hin; apply (chain_pre _ _ _ _ _ _ _ Hc) in Hin; lia).
    assert (b ∉ suf.*1) as Hbs by (intros Hin; apply (chain_suf _ _ _ _ _ _ _ Hc) in Hin; lia).
    split; [|split; [done|split; [done|]]].
    + apply rep_mid. exists (Some b). cbn. split; [|split; [apply lookup_insert_eq|]].
      * eapply lseg_frame; [done|]. intros c Hin. rewrite !lookup_insert_ne by (by intros <-). done.
      * split; [done|]. exists nx. split; [by rewrite lookup_insert_ne, lookup_insert_eq by lia|].
        eapply lseg_frame; [done|]. intros c Hin. rewrite !lookup_insert_ne by (by intros <-). done.
    + intros c Hn. cbn. rewrite !lookup_insert_ne; [done| | |]; intros <-; apply Hn; [done| |done].
      eapply header_mid; [done|lia..].
  - split; [|split; [done|split; [done|]]].
    + eapply rep_set_block; [done|by eapply chain_NoDup|done|done].
    + intros c Hn. apply lookup_insert_ne. by intros <-.
Qed.

(** What [place] is asked to do, with the arithmetic of [first_fit]. *)
Definition placed (a s pd sz : Z) (suf : list (Z * Z)) : Z * list (Z * Z) :=
  if MIN_BLOCK_SIZE <=? pd
  then (a + pd, (a, pd) :: rest_if (a + pd + sz) (s - (pd + sz)) suf)
  else (a, rest_if (a + (sz + pd)) (s - (sz + pd)) suf).

Lemma place_spec h lo pre a s suf hi pd sz :
  rep h (pre ++ (a, s) :: suf) -> chain lo (pre ++ (a, s) :: suf) hi -> 0 <= lo -> hi < 2 ^ 32 ->
  0 <= pd -> 0 <= sz -> pd + sz <= s ->
  exists fb h', mem h !! a = Some fb /\
    place h (link_of pre) a fb pd sz = Some (h', fst (placed a s pd sz suf)) /\
    rep h' (pre ++ snd (placed a s pd sz suf)) /\ mapped_end h' = mapped_end h /\ heap_end h' = heap_end h /\
    (forall c, ~ header_in (pre ++ (a, s) :: suf) c -> mem h' !! c = mem h !! c).
Proof.
  intros Hr Hc Hlo Hhi Hpd Hsz Hfit. pose proof Hc as Hc'. apply chain_app_r in Hc' as (A1 & A2 & _ & _ & A5 & _).
  unfold placed, place. destruct (Z.leb_spec MIN_BLOCK_SIZE pd) as [Hbig|Hsmall].
  - destruct (split_block_spec h lo pre a s suf hi pd (a + pd + sz) (s - (pd + sz)))
      as (nx & Hm & R & M & P & F); try done; try lia.
    exists (mkFB s nx). cbn [DemandHeap.size next].
    rewrite (wrap_small 32 (a + pd)), (wrap_small 32 (pd + sz)), (wrap_small 32 (s - (pd + sz))),
      (wrap_small 32 (a + pd + sz)) by (split; lia).
    destruct (MIN_BLOCK_SIZE <=? s - (pd + sz)); eexists; (split; [done|]); (split; [done|]); done.
  - set (act := if 0 <? pd then u32 (sz + pd) else sz).
    assert (act = sz + pd) as ->.
    { unfold act. destruct (Z.ltb_spec 0 pd); [apply wrap_small; split; lia|lia]. }
    destruct (relink_spec h lo pre a s suf hi (a + (sz + pd)) (s - (sz + pd)))
      as (nx & h1 & Hm & E & R & M & P & F); try done; try lia.
    exists (mkFB s nx), h1. cbn [DemandHeap.size next].
    rewrite (wrap_small 32 (s - (sz + pd))), (wrap_small 32 (a + (sz + pd))) by (split; lia).
    split; [done|]. split; [|done].
    destruct (MIN_BLOCK_SIZE <=? s - (sz + pd)); rewrite E; done.
Qed.

Lemma alloc_loop_spec h lo pre suf hi sz k fuel :
  rep h (pre ++ suf) -> chain lo (pre ++ suf) hi -> 0 <= lo -> hi < 2 ^ 32 ->
  0 <= sz -> 0 <= k <= 31 -> sz + 2 ^ k <= 2 ^ 32 -> (length suf < fuel)%nat ->
  exists h', alloc_loop fuel h (link_of pre) sz (2 ^ k) = Some (h', fst <$> first_fit sz (2 ^ k) suf) /\
    rep h' (pre ++ default suf (snd <$> first_fit sz (2 ^ k) suf)) /\
    mapped_end h' = mapped_end h /\ heap_end h' = heap_end h /\
    (forall c, ~ header_in (pre ++ suf) c -> mem h' !! c = mem h !! c) /\
    (first_fit sz (2 ^ k) suf = None -> h' = h).
Proof.
  intros Hr Hc Hlo Hhi Hsz Hk Hsk. revert pre fuel Hr Hc; induction suf as [|[a s] suf IH];
    intros pre fuel Hr Hc Hf; (destruct fuel as [|fuel]; [cbn in Hf; lia|]); cbn [alloc_loop first_fit].
  - unfold rep in Hr. pose proof Hr as Hr'. apply lseg_app in Hr' as (q & H1 & H2). cbn in H2. subst q.
    rewrite (get_link_spec h pre [] None H1 eq_refl). by exists h.
  - pose proof Hr as Hr'. apply rep_mid in Hr' as (nx & H1 & H2 & H3).
    rewrite (get_link_spec h pre ((a, s) :: suf) (Some a)); [|done|by split; [|exists nx]].
    cbn [mbind option_bind]. rewrite H2. cbn [mbind option_bind DemandHeap.size]. rewrite padding_spec by done.
    pose proof (pad_range a (2 ^ k) (pow2_pos k ltac:(lia))) as Hp. set (pd := pad a (2 ^ k)) in *.
    rewrite (wrap_small 32 (pd + sz)) by (split; lia).
    destruct (Z.leb_spec (pd + sz) s) as [Hfit|Hno].
    + destruct (place_spec h lo pre a s suf hi pd sz) as (fb & h' & Hm & E & R & M & P & F); try done; try lia.
      rewrite H2 in Hm. injection Hm as <-. rewrite E. cbn [mbind option_bind fst snd]. exists h'.
      unfold placed in *. destruct (MIN_BLOCK_SIZE <=? pd); by split_and!.
    + destruct (IH (pre ++ [(a, s)]) fuel) as (h' & E & R & M & P & F & N);
        [by rewrite <- app_assoc|by rewrite <- app_assoc|cbn in Hf; lia|].
      rewrite link_of_snoc in E. cbn [fst] in E. exists h'. rewrite <- !app_assoc in *. cbn [app] in *.
      destruct (first_fit sz (2 ^ k) suf) as [[p r]|]; cbn in *; split_and!; done || auto.
Qed.

(** * The heap as a whole *)

Section Window.
Context (base : Z).

(** The free list of a heap over a window that starts at [base]. *)
Record heap_ok (h : Inner) (l : list (Z * Z)) : Prop := {
  ok_rep : rep h l;
  ok_chain : chain (base - 1) l (mapped_end h);
  ok_base : 1 <= base /\ base mod 4 = 0 /\ base <= mapped_end h;
  ok_mapped : (mapped_end h - base) mod PAGE_SIZE = 0;
  ok_end : base <= heap_end h /\ heap_end h + PAGE_SIZE <= 2 ^ 32;
  ok_top : mapped_end h < heap_end h + PAGE_SIZE }.

Lemma claim_pages_spec n me he rp :
  0 <= me -> me < he + PAGE_SIZE -> he + PAGE_SIZE <= 2 ^ 32 ->
  let r := claim_pages n me he rp in
  rp <= snd r <= rp + Z.of_nat n /\ fst r = me + PAGE_SIZE * (snd r - rp) /\
  fst r < he + PAGE_SIZE /\ (snd r < rp + Z.of_nat n -> he <= fst r).
Proof.
  revert me rp; induction n as [|n IH]; intros me rp H0 H1 H2; cbn [claim_pages].
  { cbn. lia. }
  destruct (Z.leb_spec he me) as [Hle|Hgt]; [cbn; lia|].
  rewrite (wrap_small 32 (me + PAGE_SIZE)) by (split; unfold PAGE_SIZE in *; lia).
  specialize (IH (me + PAGE_SIZE) (rp + 1) ltac:(unfold PAGE_SIZE in *; lia) ltac:(lia) H2).
  destruct (claim_pages n (me + PAGE_SIZE) he (rp + 1)) as [me' rp']. cbn in *. unfold PAGE_SIZE in *. lia.
Qed.


(** Some block of the new list holds the region returned. *)
Lemma merge_holds x l b t :
  0 <= snd x -> (b, t) ∈ l -> exists c u, (c, u) ∈ merge x l /\ c <= b /\ b + t <= c + u.
Proof.
  intros Hs Hin. destruct x as [a s], l as [|[d v] l]; [by apply elem_of_nil in Hin|]. cbn in *.
  destruct (Z.eqb_spec (a + s) d) as [<-|].
  - apply elem_of_cons in Hin as [[= -> ->]|Hin].
    + exists a, (s + v). split; [apply elem_of_cons; by left|lia].
    + exists b, t. split; [apply elem_of_cons; by right|lia].
  - exists b, t. split; [apply elem_of_cons; by right|lia].
Qed.

Lemma insert_free_holds lo l hi a s :
  chain lo l hi -> 0 <= s -> exists b t, (b, t) ∈ insert_free a s l /\ b <= a /\ a + s <= b + t.
Proof.
  intros Hc Hs. revert lo Hc; induction l as [|[b t] l IH]; intros lo Hc; cbn [insert_free].
  { exists a, s. split; [by apply list_elem_of_singleton|lia]. }
  destruct Hc as (_ & Ht & _ & _ & _ & Hc). destruct (Z.ltb_spec a b).
  - cbn [merge fst snd]. destruct (Z.eqb_spec (a + s) b).
    + exists a, (s + t). split; [apply elem_of_cons; by left|unfold MIN_BLOCK_SIZE in *; lia].
    + exists a, s. split; [apply elem_of_cons; by left|lia].
  - destruct (IH _ Hc) as (c & u & Hin & H1 & H2).
    destruct (merge_holds (b, t) _ c u ltac:(cbn; unfold MIN_BLOCK_SIZE in *; lia) Hin) as (d & v & Hin' & H3 & H4).
    exists d, v. split; [done|lia].
Qed.

Lemma first_fit_succeeds sz align l b t :
  0 < align -> (b, t) ∈ l -> sz + align <= t -> is_Some (first_fit sz align l).
Proof.
  intros Ha Hin Ht. induction l as [|[a s] l IH]; [by apply elem_of_nil in Hin|]. cbn [first_fit].
  destruct (Z.leb_spec (pad a align + sz) s); [destruct (_ <=? _); by eexists|].
  apply elem_of_cons in Hin as [[= -> ->]|Hin]; [pose proof (pad_range a align Ha); lia|].
  destruct (IH Hin) as [[p r] ->]. by eexists.
Qed.

Lemma mod4_of_page x : x mod PAGE_SIZE = 0 -> x mod 4 = 0.
Proof.
  intros H. apply Z.mod_divide in H as [q ->]; [|done]. unfold PAGE_SIZE.
  replace (q * 4096) with (q * 1024 * 4) by lia. by apply Z.mod_mul.
Qed.

Lemma extend_heap_spec h l min_size :
  heap_ok h l -> 0 <= min_size ->
  exists h' ok l', extend_heap h min_size = Some (h', ok) /\ heap_ok h' l' /\
    mapped_end h <= mapped_end h' /\ heap_end h' = heap_end h /\
    (forall x, covers l' x <-> covers l x \/ mapped_end h <= x < mapped_end h') /\
    (ok = true -> exists b t, (b, t) ∈ l' /\ min_size <= t) /\
    (ok = false -> heap_end h <= mapped_end h').
Proof.
  intros [Hr Hc (B1 & B2 & B3) Hm [E1 E2] Ht] Hmin. unfold extend_heap.
  set (need := Z.max (div_ceil min_size PAGE_SIZE) 4).
  assert (min_size <= PAGE_SIZE * need /\ 4 <= need) as [N1 N2].
  { unfold need, div_ceil, PAGE_SIZE. pose proof (Z.div_mod (min_size + 4096 - 1) 4096 ltac:(lia)).
    pose proof (Z.mod_pos_bound (min_size + 4096 - 1) 4096 ltac:(lia)). lia. }
  pose proof (claim_pages_spec (Z.to_nat need) (mapped_end h) (heap_end h) 0 ltac:(lia) Ht E2) as Hcl. cbv zeta in Hcl.
  destruct (claim_pages _ _ _ _) as [me rp]. cbn in Hcl. rewrite Z2Nat.id in Hcl by lia.
  destruct Hcl as (P1 & P2 & P3 & P4). set (h1 := mkInner (mem h) (head h) me (heap_end h)).
  assert ((me - base) mod PAGE_SIZE = 0) as Hme.
  { replace (me - base) with (mapped_end h - base + rp * PAGE_SIZE) by lia. rewrite Z_mod_plus_full. done. }
  assert (mapped_end h <= me) as Hge by (unfold PAGE_SIZE in *; lia).
  destruct (Z.ltb_spec 0 rp) as [Hrp|Hrp].
  - assert (u32 (rp * PAGE_SIZE) = rp * PAGE_SIZE) as -> by (apply wrap_small; split; unfold PAGE_SIZE in *; lia).
    assert (mapped_end h mod 4 = 0) as Hme4.
    { pose proof (mod4_of_page _ Hm) as H4. replace (mapped_end h) with (mapped_end h - base + base) by lia.
      rewrite Z.add_mod, H4, B2 by lia. done. }
    assert (apart l (mapped_end h) (rp * PAGE_SIZE)) as Hap.
    { intros x Hx Hcov. apply (chain_covers _ _ _ _ Hc) in Hcov. lia. }
    assert ((rp * PAGE_SIZE) mod 4 = 0) as Hrp4 by (apply mod4_of_page, Z.mod_mul; done).
    assert (chain (base - 1) l me) as Hc1 by (eapply chain_hi; [done|unfold PAGE_SIZE in *; lia]).
    assert (MIN_BLOCK_SIZE <= rp * PAGE_SIZE) as Hbig by (unfold MIN_BLOCK_SIZE, PAGE_SIZE; lia).
    destruct (add_free_region_spec h1 (base - 1) l me (mapped_end h) (rp * PAGE_SIZE))
      as (h2 & -> & R2 & M2 & P2' & _); try done; try lia.
    destruct (insert_free_chain (base - 1) l me (mapped_end h) (rp * PAGE_SIZE)) as [C2 V2]; try done; try lia.
    destruct (insert_free_holds (base - 1) l me (mapped_end h) (rp * PAGE_SIZE) Hc1 ltac:(unfold PAGE_SIZE; lia)) as (b & t & I1 & I2 & I3).
    cbn [mbind option_bind]. exists h2, (need <=? rp), (insert_free (mapped_end h) (rp * PAGE_SIZE) l).
    cbn in M2, P2'. split; [done|]. split.
    { split; rewrite ?M2, ?P2'; try done; unfold PAGE_SIZE in *; lia. }
    rewrite M2. split; [lia|]. split; [done|]. split; [|split].
    + intros x. rewrite V2. replace (mapped_end h + rp * PAGE_SIZE) with me by lia. tauto.
    + intros Hok. apply Z.leb_le in Hok. exists b, t. split; [done|]. unfold PAGE_SIZE in *. lia.
    + intros Hok. apply Z.leb_gt in Hok. apply P4. lia.
  - assert (rp = 0) as -> by lia. cbn [mbind option_bind]. exists h1, (need <=? 0), l. split; [done|].
    assert (me = mapped_end h) as -> by lia. split; [by split|]. cbn. split; [lia|]. split; [done|].
    split; [intros x; split; [by left|intros [?|?]; [done|lia]]|].
    split; [intros Hok; apply Z.leb_le in Hok; lia|intros _; apply P4; lia].
Qed.

Lemma alloc_from_list_spec h l sz k :
  heap_ok h l -> 0 <= sz -> 0 <= k <= 31 -> sz + 2 ^ k <= 2 ^ 32 ->
  exists h', alloc_from_list h sz (2 ^ k) = Some (h', fst <$> first_fit sz (2 ^ k) l) /\
    rep h' (default l (snd <$> first_fit sz (2 ^ k) l)) /\
    mapped_end h' = mapped_end h /\ heap_end h' = heap_end h /\ (first_fit sz (2 ^ k) l = None -> h' = h).
Proof.
  intros [Hr Hc (B1 & B2 & B3) Hm [E1 E2] Ht] Hsz Hk Hsk. unfold alloc_from_list.
  pose proof (lseg_fuel _ _ _ _ Hr (chain_NoDup _ _ _ Hc)) as Hf.
  destruct (alloc_loop_spec h (base - 1) [] l (mapped_end h) sz k (fuel_of h)) as (h' & E & R & M & P & _ & N);
    try done; try (unfold PAGE_SIZE in *; lia); [unfold fuel_of; lia|].
  by exists h'.
Qed.

(** A layout of the source: a power-of-two alignment, and a size that does
    not pass [isize::MAX] when rounded up to it. *)
Definition layout_ok (lsize k : Z) : Prop := 0 <= lsize /\ 0 <= k <= 30 /\ lsize + 2 ^ k <= 2 ^ 31.

Lemma block_size_spec lsize :
  0 <= lsize <= 2 ^ 31 -> let sz := block_size lsize in
  lsize <= sz <= lsize + 8 /\ MIN_BLOCK_SIZE <= sz /\ sz mod 4 = 0.
Proof.
  intros H. cbv zeta. unfold block_size, MIN_BLOCK_SIZE. set (x := Z.max lsize 8).
  assert (8 <= x /\ lsize <= x /\ (x = 8 \/ x = lsize)) as (X1 & X2 & X3) by lia. clearbody x.
  assert (align_up x ALIGN_OF_FREE_BLOCK = (x + 4 - 1) / 4 * 4) as ->.
  { change ALIGN_OF_FREE_BLOCK with (2 ^ 2). rewrite align_up_spec by lia. change (2 ^ 2) with 4.
    rewrite (wrap_small 32) by (split; lia). pose proof (Z.div_mod (x + 4 - 1) 4 ltac:(lia)). lia. }
  pose proof (Z.div_mod (x + 4 - 1) 4 ltac:(lia)). pose proof (Z.mod_pos_bound (x + 4 - 1) 4 ltac:(lia)).
  rewrite Z.mod_mul by lia. lia.
Qed.

Lemma max_align k : 0 <= k -> Z.max (2 ^ k) ALIGN_OF_FREE_BLOCK = 2 ^ Z.max k 2.
Proof.
  intros Hk. unfold ALIGN_OF_FREE_BLOCK. change 4 with (2 ^ 2).
  destruct (Z.le_gt_cases k 2); [pose proof (Z.pow_le_mono_r 2 k 2)|pose proof (Z.pow_le_mono_r 2 2 k)];
    rewrite ?(Z.max_r k), ?(Z.max_l k) by lia; lia.
Qed.

(** What a successful allocation of [sz] bytes at [p] gives, from the free
    memory [old] to the free list [l']. *)
Record taken (old : Z -> Prop) (h' : Inner) (l' : list (Z * Z)) (p sz k : Z) : Prop := {
  tk_ok : heap_ok h' l';
  tk_window : base <= p /\ p + sz <= mapped_end h';
  tk_word : p mod 4 = 0;
  tk_align : p mod 2 ^ k = 0 \/ pad p (2 ^ k) = 4;
  tk_free : forall x, p <= x < p + sz -> old x;
  tk_apart : apart l' p sz;
  tk_rest : forall x, covers l' x -> old x }.

Lemma fit_spec h l sz k p l' :
  heap_ok h l -> MIN_BLOCK_SIZE <= sz -> sz mod 4 = 0 -> 2 <= k <= 31 -> sz + 2 ^ k <= 2 ^ 32 ->
  first_fit sz (2 ^ k) l = Some (p, l') ->
  exists h', alloc_from_list h sz (2 ^ k) = Some (h', Some p) /\
    mapped_end h' = mapped_end h /\ heap_end h' = heap_end h /\ taken (covers l) h' l' p sz k.
Proof.
  intros Hok Hsz Hm Hk Hsk E. destruct (alloc_from_list_spec h l sz k Hok) as (h' & E1 & R & M & P & _);
    [unfold MIN_BLOCK_SIZE in Hsz; lia|lia|done|]. rewrite E in E1, R. cbn in E1, R.
  destruct Hok as [_ Hc Hb Hme He Ht].
  destruct (first_fit_spec (base - 1) l (mapped_end h) sz k p l' Hc Hsz Hm ltac:(lia) E) as (F1 & F2 & F3 & F4 & F5 & F6 & F7).
  exists h'. split; [done|]. split; [done|]. split; [done|].
  split; try done; rewrite ?M; try lia.
  - split; rewrite ?M, ?P; done.
  - intros x Hx Hcov. by apply F7 in Hcov as [_ Hn].
  - intros x Hx. by apply F7 in Hx as [? _].
Qed.

Lemma alloc_spec h l lsize k :
  heap_ok (inner h) l -> layout_ok lsize k ->
  let sz := block_size lsize in
  exists h' p, alloc h lsize (2 ^ k) = Some (h', p) /\
    mapped_end (inner h) <= mapped_end (inner h') /\ heap_end (inner h') = heap_end (inner h) /\
    exists l', heap_ok (inner h') l' /\
      let old x := covers l x \/ mapped_end (inner h) <= x < mapped_end (inner h') in
      if p =? 0 then heap_end (inner h) <= mapped_end (inner h') /\ (forall x, covers l' x -> old x)
      else taken old (inner h') l' p sz (Z.max k 2).
Proof.
  intros Hok (L1 & L2 & L3). cbv zeta. unfold alloc.
  pose proof (block_size_spec lsize ltac:(pose proof (pow2_pos k); lia)) as (S1 & S2 & S3). cbv zeta in *.
  set (sz := block_size lsize) in *. rewrite max_align by lia. set (K := Z.max k 2).
  assert (2 ^ K <= 2 ^ 30) as HK by (apply Z.pow_le_mono_r; unfold K; lia). unfold MIN_BLOCK_SIZE in S2.
  assert (base <> 0 /\ 1 <= base) as [_ Hb1] by (destruct Hok; lia).
  assert (forall (old : Z -> Prop) h' l' p, taken old h' l' p sz K -> (p =? 0) = false) as Hnz.
  { intros old h' l' p Ht. apply Z.eqb_neq. apply tk_window in Ht. lia. }
  destruct (first_fit sz (2 ^ K) l) as [[p l']|] eqn:Ef.
  - destruct (fit_spec (inner h) l sz K p l' Hok) as (i & -> & M & P & T); try (done || unfold K in *; lia).
    cbn [mbind option_bind]. eexists _, p. split; [done|]. cbn [inner]. rewrite M, (Hnz _ _ _ _ T).
    split; [done|]. split; [done|]. exists l'. split; [apply (tk_ok _ _ _ _ _ _ T)|].
    destruct T as [T1 T2 T3 T4 T5 T6 T7]. rewrite M in T2. split; try done; rewrite ?M; auto.
  - destruct (alloc_from_list_spec (inner h) l sz K Hok) as (i & -> & _ & _ & _ & N); try (unfold K in *; lia).
    rewrite Ef in *. rewrite (N eq_refl). cbn [mbind option_bind fmap option_fmap option_map].
    rewrite (wrap_small 32 (sz + 2 ^ K)) by (split; lia).
    destruct (extend_heap_spec (inner h) l (sz + 2 ^ K) Hok ltac:(lia)) as (i1 & ok & l1 & -> & Hok1 & X1 & X2 & X3 & X4 & X5).
    cbn [mbind option_bind]. destruct ok; cbn [negb].
    + destruct (X4 eq_refl) as (b & t & Hin & Hbt).
      destruct (first_fit_succeeds sz (2 ^ K) l1 b t ltac:(lia) Hin Hbt) as [[p l'] Ef1].
      destruct (fit_spec i1 l1 sz K p l' Hok1) as (i2 & -> & M & P & T); try (done || unfold K in *; lia).
      cbn [mbind option_bind default]. eexists _, p. split; [done|]. cbn [inner]. rewrite M, (Hnz _ _ _ _ T).
      split; [done|]. split; [congruence|]. exists l'. split; [apply (tk_ok _ _ _ _ _ _ T)|].
      destruct T as [T1 T2 T3 T4 T5 T6 T7]. rewrite M in T2. split; try done; rewrite ?M; try done.
      * intros x Hx. apply X3. auto.
      * intros x Hx. apply X3. auto.
    + eexists _, 0. split; [done|]. cbn [inner Z.eqb]. split; [done|]. split; [done|]. exists l1.
      split; [done|]. split; [by apply X5|]. intros x. apply X3.
Qed.

Lemma dealloc_spec h l ptr lsize :
  heap_ok (inner h) l -> 0 <= lsize <= 2 ^ 31 -> let sz := block_size lsize in
  base <= ptr -> ptr + sz <= mapped_end (inner h) -> ptr mod 4 = 0 -> apart l ptr sz ->
  exists h', dealloc h ptr lsize = Some h' /\ heap_ok (inner h') (insert_free ptr sz l) /\
    mapped_end (inner h') = mapped_end (inner h) /\ heap_end (inner h') = heap_end (inner h) /\
    forall x, covers (insert_free ptr sz l) x <-> ptr <= x < ptr + sz \/ covers l x.
Proof.
  intros [Hr Hc (B1 & B2 & B3) Hm [E1 E2] Ht] Hl. cbv zeta. intros P1 P2 P3 Hap.
  pose proof (block_size_spec lsize Hl) as (S1 & S2 & S3). cbv zeta in *. unfold dealloc. set (sz := block_size lsize) in *.
  destruct (add_free_region_spec (inner h) (base - 1) l (mapped_end (inner h)) ptr sz)
    as (i & -> & R & M & P & _); try (done || unfold PAGE_SIZE in *; lia).
  destruct (insert_free_chain (base - 1) l (mapped_end (inner h)) ptr sz) as [C V]; try (done || lia).
  eexists; split; [done|]. cbn [inner]. split; [split; rewrite ?M, ?P; done|]. done.
Qed.

End Window.

(** * The allocator with its clients *)

(** The heap and the live allocations, each with the size of its layout. *)
Record Client := mkClient { heap : DemandHeap; live : list (Z * Z) }.

Definition in_block (b : Z * Z) (x : Z) : Prop := fst b <= x < fst b + block_size (snd b).

(** The kernel allocates, frees what it holds, and writes anything into the
    blocks it holds, over whatever headers were there before. *)
Inductive client_step : Client -> Client -> Prop :=
  | step_alloc c lsize k h p :
      layout_ok lsize k -> alloc (heap c) lsize (2 ^ k) = Some (h, p) ->
      client_step c (mkClient h (if p =? 0 then live c else (p, lsize) :: live c))
  | step_dealloc c pre b post h :
      live c = pre ++ b :: post -> dealloc (heap c) (fst b) (snd b) = Some h ->
      client_step c (mkClient h (pre ++ post))
  | step_store c m :
      (forall a, (forall b, b ∈ live c -> forall x, a <= x < a + 8 -> ~ in_block b x) ->
         m !! a = mem (inner (heap c)) !! a) ->
      client_step c (mkClient (mk (mkInner m (head (inner (heap c))) (mapped_end (inner (heap c)))
                                     (heap_end (inner (heap c)))) (counters (heap c))) (live c)).

(** Two blocks share no byte. *)
Definition disjoint_blocks (b c : Z * Z) : Prop := forall x, in_block b x -> ~ in_block c x.

Definition live_ok (base : Z) (h : Inner) (l : list (Z * Z)) (b : Z * Z) : Prop :=
  0 <= snd b <= 2 ^ 31 /\ base <= fst b /\ fst b + block_size (snd b) <= mapped_end h /\ fst b mod 4 = 0 /\
  apart l (fst b) (block_size (snd b)).

Definition client_ok (base : Z) (c : Client) : Prop :=
  exists l, heap_ok base (inner (heap c)) l /\ Forall (live_ok base (inner (heap c)) l) (live c) /\
    (forall i j b d, live c !! i = Some b -> live c !! j = Some d -> i <> j -> disjoint_blocks b d).

(** A window the allocator can serve: above address 0, word aligned, a whole
    number of pages, and with a page to spare below the top of the address
    space.  The kernel's starts at [heap_base()], which is rounded up to a page,
    and ends at the constant [HEAP_END]. *)
Definition window_ok (base end_ : Z) : Prop :=
  1 <= base /\ base mod 4 = 0 /\ base <= end_ /\ (end_ - base) mod PAGE_SIZE = 0 /\ end_ + PAGE_SIZE <= 2 ^ 32.

Lemma init_ok h base end_ : window_ok base end_ -> client_ok base (mkClient (init h base end_) []).
Proof.
  intros (W1 & W2 & W3 & _ & W4). exists []. split; [|split; [constructor|by intros i j b d ?]].
  split; cbn; try done; try lia. by rewrite Z.sub_diag. unfold PAGE_SIZE. lia.
Qed.

(** Live blocks stay out of a free list that only takes memory no block
    holds. *)
Lemma live_ok_mono base (h h' : Inner) l l' b :
  live_ok base h l b -> mapped_end h <= mapped_end h' ->
  (forall x, covers l' x -> covers l x \/ mapped_end h <= x < mapped_end h') -> live_ok base h' l' b.
Proof.
  intros (L1 & L2 & L3 & L4 & L5) Hm Hc. split; [done|]. split; [done|]. split; [lia|]. split; [done|].
  intros x Hx Hcov. apply Hc in Hcov as [Hcov|Hcov]; [by apply (L5 x)|lia].
Qed.

Lemma alloc_client_ok base c lsize k h p :
  client_ok base c -> layout_ok lsize k -> alloc (heap c) lsize (2 ^ k) = Some (h, p) ->
  client_ok base (mkClient h (if p =? 0 then live c else (p, lsize) :: live c)).
Proof.
  intros (l & Hok & Hlive & Hdis) Hl E.
  destruct (alloc_spec base (heap c) l lsize k Hok Hl) as (h1 & p1 & E1 & M & P & l' & Hok' & Hcase).
  rewrite E in E1. injection E1 as <- <-. cbv zeta in Hcase. exists l'. split; [done|]. cbn [heap live].
  destruct (p =? 0).
  - destruct Hcase as [_ Hc]. split; [|done]. eapply Forall_impl; [done|]. intros b Hb.
    by eapply live_ok_mono.
  - destruct Hcase as [T1 T2 T3 T4 T5 T6 T7]. pose proof Hl as (L1 & L2 & L3). split.
    + constructor; [|eapply Forall_impl; [done|]; intros b Hb; by eapply live_ok_mono].
      split_and!; cbn; try done; [pose proof (pow2_pos k); lia|apply T2|apply T2].
    + assert (forall d, d ∈ live c -> disjoint_blocks (p, lsize) d) as Hnew.
      { intros d Hd x Hx Hdx. rewrite Forall_forall in Hlive. destruct (Hlive d Hd) as (D1 & D2 & D3 & D4 & D5).
        unfold in_block in *. cbn in Hx. destruct (T5 x Hx) as [Hc|Hc]; [by apply (D5 x)|lia]. }
      intros [|i] [|j] b d Hi Hj Hne; cbn in Hi, Hj; try done.
      * injection Hi as <-. apply Hnew. by eapply list_elem_of_lookup_2.
      * injection Hj as <-. intros x Hb Hx. apply (Hnew b ltac:(by eapply list_elem_of_lookup_2) x Hx Hb).
      * eapply Hdis; [done|done|congruence].
Qed.

Lemma dealloc_client_ok base c pre b post h :
  client_ok base c -> live c = pre ++ b :: post -> dealloc (heap c) (fst b) (snd b) = Some h ->
  client_ok base (mkClient h (pre ++ post)).
Proof.
  intros (l & Hok & Hlive & Hdis) El E. rewrite El in *.
  assert (live_ok base (inner (heap c)) l b) as (L1 & L2 & L3 & L4 & L5).
  { apply Forall_app in Hlive as [_ Hb]. by apply Forall_cons_1 in Hb as [Hb _]. }
  destruct (dealloc_spec base (heap c) l (fst b) (snd b) Hok L1 L2 L3 L4 L5) as (h1 & E1 & Hok1 & M & P & V).
  rewrite E in E1. injection E1 as <-. exists (insert_free (fst b) (block_size (snd b)) l). split; [done|].
  cbn [heap live].
  assert (forall i d, (pre ++ post) !! i = Some d -> exists j, (pre ++ b :: post) !! j = Some d /\ j <> length pre /\
    (i < length pre /\ j = i \/ length pre <= i /\ j = S i)%nat) as Hshift.
  { intros i d Hi. destruct (decide (i < length pre)%nat) as [Hlt|Hge].
    - exists i. rewrite lookup_app_l in * by done. split; [done|lia].
    - exists (S i). rewrite lookup_app_r in * by lia. rewrite Nat.sub_succ_l by lia. split; [done|lia]. }
  assert ((pre ++ b :: post) !! length pre = Some b) as Hb by (by rewrite lookup_app_r, Nat.sub_diag by lia).
  split.
  - apply Forall_lookup. intros i d Hi. destruct (Hshift i d Hi) as (j & Hj & Hne & _).
    destruct (Forall_lookup_1 _ _ _ _ Hlive Hj) as (D1 & D2 & D3 & D4 & D5).
    split_and!; [apply D1|apply D1|done|by rewrite M|done|].
    intros x Hx Hcov. apply V in Hcov as [Hcov|Hcov]; [|by apply (D5 x)].
    by apply (Hdis j (length pre) d b Hj Hb Hne x).
  - intros i j d e Hi Hj Hne. destruct (Hshift i d Hi) as (i' & Hi' & _ & Ci), (Hshift j e Hj) as (j' & Hj' & _ & Cj).
    apply (Hdis i' j' d e Hi' Hj'). lia.
Qed.

Lemma store_client_ok base c m :
  client_ok base c ->
  (forall a, (forall b, b ∈ live c -> forall x, a <= x < a + 8 -> ~ in_block b x) ->
     m !! a = mem (inner (heap c)) !! a) ->
  client_ok base (mkClient (mk (mkInner m (head (inner (heap c))) (mapped_end (inner (heap c)))
                                  (heap_end (inner (heap c)))) (counters (heap c))) (live c)).
Proof.
  intros (l & [Hr Hc Hb Hm He Ht] & Hlive & Hdis) Hst. exists l. split; [|done]. split; try done. cbn.
  eapply lseg_frame; [done|]. intros a Ha. apply Hst. intros b Hbl x Hx Hin.
  rewrite Forall_forall in Hlive. destruct (Hlive b Hbl) as (_ & _ & _ & _ & Hap).
  apply (Hap x Hin). by eapply header_key.
Qed.

Lemma client_step_ok base c d : client_step c d -> client_ok base c -> client_ok base d.
Proof.
  destruct 1; intros Hok; [by eapply alloc_client_ok|by eapply dealloc_client_ok|by eapply store_client_ok].
Qed.

Lemma client_step_end base c d : client_step c d -> client_ok base c -> heap_end (inner (heap d)) = heap_end (inner (heap c)).
Proof.
  destruct 1 as [c lsize k h p Hl E|c pre b post h El E|c m Hst]; intros (l & Hok & Hlive & _); [| |done].
  - destruct (alloc_spec base (heap c) l lsize k Hok Hl) as (h1 & p1 & E1 & _ & P & _). rewrite E in E1. by injection E1 as <- <-.
  - rewrite El in Hlive. apply Forall_app in Hlive as [_ Hb]. apply Forall_cons_1 in Hb as [(L1 & L2 & L3 & L4 & L5) _].
    destruct (dealloc_spec base (heap c) l (fst b) (snd b) Hok L1 L2 L3 L4 L5) as (h1 & E1 & _ & _ & P & _).
    rewrite E in E1. by injection E1 as <-.
Qed.

Lemma reachable_ok base end_ h c :
  window_ok base end_ -> rtc client_step (mkClient (init h base end_) []) c ->
  client_ok base c /\ heap_end (inner (heap c)) = end_.
Proof.
  intros Hw Hr. eapply (rtc_invariant _ (fun c => client_ok base c /\ heap_end (inner (heap c)) = end_)); [done|by split; [apply init_ok|]|].
  intros a b Hs [Ha He]. split; [by eapply client_step_ok|]. rewrite (client_step_end base a b Hs Ha). done.
Qed.

(** Pages are mapped up to the end of the window and no further. *)
Lemma mapped_in_window base end_ h l :
  window_ok base end_ -> heap_end h = end_ -> heap_ok base h l -> mapped_end h <= end_.
Proof.
  intros (_ & _ & _ & W & _) He Hok. pose proof (ok_mapped _ _ _ Hok) as Hm. pose proof (ok_top _ _ _ Hok) as Ht. rewrite He in Ht.
  apply Z.mod_divide in W as [q W], Hm as [q' Hm]; [|done..]. unfold PAGE_SIZE in *. lia.
Qed.

(** The addresses a sequence of requests is served at. *)
Definition run_allocs (h : DemandHeap) (ls : list (Z * Z)) : option (DemandHeap * list Z) :=
  foldl (fun r x => '(h, ps) ← r; '(h, p) ← alloc h (fst x) (2 ^ snd x); Some (h, ps ++ [p]))
    (Some (h, [])) ls.

(** C17: the heap never hands out memory twice.  Over a window of whole pages,
    whatever sequence of allocations with valid layouts, frees and writes into
    held blocks the kernel performs, the blocks it holds are pairwise disjoint,
    word aligned and between the start and the end of the window; and no operation ever follows a stale list pointer: every
    allocation and every free of a held block runs to its end. *)
Theorem heap_live_disjoint base end_ h c :
  window_ok base end_ -> rtc client_step (mkClient (init h base end_) []) c ->
  (forall i j b d, live c !! i = Some b -> live c !! j = Some d -> i <> j -> disjoint_blocks b d) /\
  Forall (fun b => base <= fst b /\ fst b + block_size (snd b) <= end_ /\ fst b mod 4 = 0) (live c) /\
  (forall lsize k, layout_ok lsize k -> exists h' p, alloc (heap c) lsize (2 ^ k) = Some (h', p)) /\
  (forall b, b ∈ live c -> exists h', dealloc (heap c) (fst b) (snd b) = Some h').
Proof.
  intros Hw Hr. destruct (reachable_ok base end_ h c Hw Hr) as [(l & Hok & Hlive & Hdis) He].
  pose proof (mapped_in_window base end_ _ l Hw He Hok) as Hmap. split; [done|]. split; [|split].
  - eapply Forall_impl; [done|]. intros b (L1 & L2 & L3 & L4 & L5). split; [done|]. split; [lia|done].
  - intros lsize k Hl. destruct (alloc_spec base _ _ lsize k Hok Hl) as (h' & p & E & _). by exists h', p.
  - intros b Hb. rewrite Forall_forall in Hlive. destruct (Hlive b Hb) as (L1 & L2 & L3 & L4 & L5).
    destruct (dealloc_spec base _ _ _ _ Hok L1 L2 L3 L4 L5) as (h' & E & _). by exists h'.
Qed.

Lemma heap_live_disjoint_witness :
  exists c, rtc client_step (mkClient (init new 4096 65536) []) c /\ live c = [(4108, 20); (4096, 12)] /\
    disjoint_blocks (4108, 20) (4096, 12).
Proof.
  destruct (alloc (init new 4096 65536) 12 (2 ^ 2)) as [[h1 p1]|] eqn:E1; [|vm_compute in E1; discriminate E1].
  assert (p1 = 4096) as -> by (vm_compute in E1; congruence).
  destruct (alloc h1 20 (2 ^ 2)) as [[h2 p2]|] eqn:E2;
    [|vm_compute in E1; injection E1 as <-; vm_compute in E2; discriminate E2].
  assert (p2 = 4108) as -> by (vm_compute in E1; injection E1 as <-; vm_compute in E2; congruence).
  assert (window_ok 4096 65536) as Hw by (split_and!; vm_compute; congruence).
  assert (rtc client_step (mkClient (init new 4096 65536) []) (mkClient h2 [(4108, 20); (4096, 12)])) as Hr.
  { eapply rtc_l; [eapply (step_alloc _ 12 2 h1 4096); [split_and!; vm_compute; congruence|exact E1]|].
    eapply rtc_l; [eapply (step_alloc _ 20 2 h2 4108); [split_and!; vm_compute; congruence|exact E2]|].
    apply rtc_refl. }
  eexists. split; [exact Hr|]. split; [reflexivity|].
  destruct (heap_live_disjoint 4096 65536 new _ Hw Hr) as (Hdis & _).
  apply (Hdis 0%nat 1%nat); [reflexivity|reflexivity|lia].
Defined.

(** An allocation in any reachable state is fresh and complete.  It
    returns null only when the window is used up; otherwise the block
    shares no byte with any block already held, and is aligned as asked
    unless the free block it came from missed the alignment by exactly one
    word. *)
Theorem heap_alloc_fresh base end_ h c lsize k :
  window_ok base end_ -> rtc client_step (mkClient (init h base end_) []) c -> layout_ok lsize k ->
  exists h' p, alloc (heap c) lsize (2 ^ k) = Some (h', p) /\
    (p = 0 -> heap_end (inner (heap c)) <= mapped_end (inner h')) /\
    (p <> 0 -> Forall (disjoint_blocks (p, lsize)) (live c) /\
       (p mod 2 ^ k = 0 \/ pad p (2 ^ Z.max k 2) = 4)).
Proof.
  intros Hw Hr Hl. destruct (reachable_ok base end_ h c Hw Hr) as [(l & Hok & Hlive & Hdis) _].
  destruct (alloc_spec base _ _ lsize k Hok Hl) as (h' & p & E & M & P & l' & Hok' & Hcase). cbv zeta in Hcase.
  exists h', p. split; [done|]. destruct (Z.eqb_spec p 0) as [->|Hne]; [by split; [intros _; apply Hcase|]|].
  split; [done|]. intros _. destruct Hcase as [T1 T2 T3 T4 T5 T6 T7]. split.
  - apply Forall_forall. intros d Hd x Hx Hdx. rewrite Forall_forall in Hlive.
    destruct (Hlive d Hd) as (D1 & D2 & D3 & D4 & D5). unfold in_block in *. cbn in Hx.
    destruct (T5 x Hx) as [Hc|Hc]; [by apply (D5 x)|lia].
  - destruct T4 as [T4|T4]; [left|by right]. destruct Hl as (_ & Hk & _).
    destruct (Z.le_gt_cases 2 k); [by rewrite Z.max_l in T4 by lia|].
    rewrite Z.max_r in T4 by lia. apply Z.mod_divide in T4 as [q ->]; [|done].
    assert (k = 0 \/ k = 1) as [-> | ->] by lia; [apply Z.mod_1_r|].
    change (2 ^ 2) with (2 * 2 ^ 1). rewrite Z.mul_assoc. by apply Z.mod_mul.
Qed.

Lemma heap_alloc_fresh_witness :
  exists h' p, alloc (init new 4096 65536) 100 (2 ^ 4) = Some (h', p) /\ p = 4096.
Proof.
  assert (window_ok 4096 65536) as Hw by (split_and!; vm_compute; congruence).
  assert (layout_ok 100 4) as Hl by (split_and!; vm_compute; congruence).
  destruct (heap_alloc_fresh 4096 65536 new (mkClient (init new 4096 65536) []) 100 4 Hw (rtc_refl _ _) Hl)
    as (h' & p & E & _). exists h', p. split; [exact E|]. vm_compute in E. congruence.
Defined.

(** One word of padding is given to the caller instead of skipped: after a
    block of 12 bytes, a request aligned to 8 is served at an address that
    is not. *)
Theorem heap_padding_misaligns :
  snd <$> run_allocs (init new 4096 65536) [(12, 2); (8, 3)] = Some [4096; 4108].
Proof. by vm_compute. Qed.
