(* ===== verification/Pipe.v ===== *)
(** Ring buffers (lib/src/pipe.rs).

    The positions of a [Pipe] only grow and are reduced modulo [N] at each
    access; they are [usize], of 32 bits. *)

From Stdlib Require Import ZArith Lia Bool.
From stdpp Require Import base option list numbers relations.
From S2P Require Import Prelude.

Module Pipe.
Section Pipe.
Context {T : Type} `{!Inhabited T} (N : Z).

Record Pipe := mk { buf : list T; read_pos : Z; write_pos : Z }.

Definition new (init : T) : Pipe := mk (replicate (Z.to_nat N) init) 0 0.

(** [self.buf[pos % N]] *)
Definition at_pos (p : Pipe) (pos : Z) : T := buf p !!! Z.to_nat (pos mod N).

Definition push (p : Pipe) (val : T) : Pipe :=
  let r := if write_pos p =? u32 (read_pos p + N) then u32 (read_pos p + 1) else read_pos p in
  mk (<[Z.to_nat (write_pos p mod N) := val]> (buf p)) r (u32 (write_pos p + 1)).

Definition pop (p : Pipe) : Pipe * option T :=
  if read_pos p =? write_pos p then (p, None)
  else (mk (buf p) (u32 (read_pos p + 1)) (write_pos p), Some (at_pos p (read_pos p))).

Definition is_empty (p : Pipe) : bool := read_pos p =? write_pos p.

(** [while self.read_pos < self.write_pos], collecting what [f] is called
    with; [n] bounds the iterations. *)
Fixpoint drain_loop (n : nat) (p : Pipe) (out : list T) : Pipe * list T :=
  match n with
  | O => (p, out)
  | S n =>
      if read_pos p <? write_pos p then
        drain_loop n (mk (buf p) (read_pos p + 1) (write_pos p)) (out ++ [at_pos p (read_pos p)])
      else (p, out)
  end.
Definition drain (p : Pipe) : Pipe * list T := drain_loop (Z.to_nat (write_pos p - read_pos p)) p [].

Definition pop_back (p : Pipe) : Pipe * bool :=
  if read_pos p <? write_pos p then (mk (buf p) (read_pos p) (write_pos p - 1), true) else (p, false).

Definition clear (p : Pipe) : Pipe := mk (buf p) (write_pos p) (write_pos p).

(** [while i < buf.len() && self.read_pos < self.write_pos], with [n] slots
    of the caller's buffer left: the elements stored. *)
Fixpoint read_loop (n : nat) (p : Pipe) (out : list T) : Pipe * list T :=
  match n with
  | O => (p, out)
  | S n =>
      if read_pos p <? write_pos p then
        read_loop n (mk (buf p) (read_pos p + 1) (write_pos p)) (out ++ [at_pos p (read_pos p)])
      else (p, out)
  end.

(** The caller's buffer after the call, and the count returned. *)
Definition read (p : Pipe) (dst : list T) : Pipe * list T * Z :=
  let '(p, got) := read_loop (length dst) p [] in
  (p, got ++ drop (length got) dst, Z.of_nat (length got)).

End Pipe.
Arguments Pipe : clear implicits.
End Pipe.

(** * A pipe is a bounded queue *)

Section PipeQueue.
Context {T : Type} `{!Inhabited T} (N : Z).
Hypothesis N_pos : 0 < N.
Import Pipe.
Implicit Types (p : Pipe T).

(** The elements between the positions, oldest first. *)
Definition contents p : list T :=
  map (fun i => at_pos N p (read_pos p + Z.of_nat i)) (seq 0 (Z.to_nat (write_pos p - read_pos p))).

(** Positions in range: at most [k] elements were ever pushed. *)
Definition pipe_ok (k : Z) p : Prop :=
  0 <= read_pos p /\ read_pos p <= write_pos p /\ write_pos p <= read_pos p + N /\ write_pos p <= k /\
  length (buf p) = Z.to_nat N.

(** The specification: a queue that forgets its oldest element when full. *)
Definition q_push (q : list T) (x : T) : list T :=
  (if (length q =? Z.to_nat N)%nat then drop 1 q else q) ++ [x].

Inductive op := Push (x : T) | Pop | Drain | PopBack | Clear | Read (n : nat).

(** An operation's effect on the pipe and what it yields. *)
Definition do_op (dst : T) p (o : op) : Pipe T * list T :=
  match o with
  | Push x => (push N p x, [])
  | Pop => let '(p, r) := pop N p in (p, option_list r)
  | Drain => drain N p
  | PopBack => (fst (pop_back p), [])
  | Clear => (clear p, [])
  | Read n => let '(p, out, c) := read N p (replicate n dst) in (p, take (Z.to_nat c) out)
  end.

Definition q_op (q : list T) (o : op) : list T * list T :=
  match o with
  | Push x => (q_push q x, [])
  | Pop => (drop 1 q, take 1 q)
  | Drain => ([], q)
  | PopBack => (take (length q - 1) q, [])
  | Clear => ([], [])
  | Read n => (drop n q, take n q)
  end.

Lemma pipe_length_contents p : length (contents p) = Z.to_nat (write_pos p - read_pos p).
Proof. unfold contents. by rewrite length_map, length_seq. Qed.

Lemma pipe_contents_lookup p i :
  Z.of_nat i < write_pos p - read_pos p -> contents p !! i = Some (at_pos N p (read_pos p + Z.of_nat i)).
Proof. intros Hi. unfold contents. by rewrite list_lookup_fmap, lookup_seq_lt by lia. Qed.

(** Advancing the read position drops the oldest elements. *)
Lemma pipe_contents_advance p k :
  0 <= k <= write_pos p - read_pos p ->
  contents (mk (buf p) (read_pos p + k) (write_pos p)) = drop (Z.to_nat k) (contents p).
Proof.
  intros Hk. apply list_eq; intros i. rewrite lookup_drop.
  destruct (Z.lt_ge_cases (Z.of_nat i) (write_pos p - (read_pos p + k))) as [Hi|Hi].
  - rewrite !pipe_contents_lookup by (cbn; lia). cbn. unfold at_pos. cbn. do 4 f_equal. lia.
  - rewrite !lookup_ge_None_2; [done| |]; rewrite pipe_length_contents; cbn; lia.
Qed.

Lemma loop_spec n p out :
  0 <= read_pos p <= write_pos p ->
  let k := Z.min (Z.of_nat n) (write_pos p - read_pos p) in
  read_loop N n p out =
    (mk (buf p) (read_pos p + k) (write_pos p), out ++ take n (contents p)).
Proof.
  revert p out; induction n as [|n IH]; intros p out Hp; cbv zeta.
  { cbn [read_loop]. rewrite Z.min_l by lia. rewrite Z.add_0_r, take_0, app_nil_r. by destruct p. }
  cbn [read_loop]. destruct (Z.ltb_spec (read_pos p) (write_pos p)) as [Hlt|Hge].
  - rewrite IH by (cbn; lia). cbn [read_pos write_pos buf]. rewrite (pipe_contents_advance p 1) by lia.
    f_equal; [f_equal; lia|]. rewrite <- app_assoc. f_equal.
    assert (contents p !! 0%nat = Some (at_pos N p (read_pos p))) as H0.
    { rewrite pipe_contents_lookup by lia. by rewrite Z.add_0_r. }
    destruct (contents p) as [|x q] eqn:E; [done|]. cbn in H0. injection H0 as ->. done.
  - rewrite Z.min_r by lia. replace (read_pos p + (write_pos p - read_pos p)) with (read_pos p) by lia.
    rewrite (nil_length_inv (contents p)) by (rewrite pipe_length_contents; lia). rewrite take_nil, app_nil_r. by destruct p.
Qed.

Lemma drain_loop_read n p out : drain_loop N n p out = read_loop N n p out.
Proof. revert p out; induction n as [|n IH]; intros p out; cbn; [done|]. destruct (_ <? _); [apply IH|done]. Qed.

Lemma slot_ne a b : a < b < a + N -> a mod N <> b mod N.
Proof.
  intros Hab E. assert ((b - a) mod N = 0) as Hm by (rewrite Zminus_mod, E, Z.sub_diag; by apply Z.mod_0_l; lia).
  rewrite Z.mod_small in Hm; lia.
Qed.

(** Storing at the write position of a pipe that is not full. *)
Lemma store_contents b r w x :
  0 <= r <= w -> w < r + N -> length b = Z.to_nat N ->
  contents (mk (<[Z.to_nat (w mod N) := x]> b) r (w + 1)) = contents (mk b r w) ++ [x].
Proof.
  intros Hr Hw Hb. assert (forall y, 0 <= y mod N < N) as Hmod by (intros; apply Z.mod_pos_bound; lia).
  apply list_eq; intros i. destruct (Z.lt_trichotomy (Z.of_nat i) (w - r)) as [Hi|[Hi|Hi]].
  - rewrite lookup_app_l by (rewrite pipe_length_contents; cbn; lia). rewrite !pipe_contents_lookup by (cbn; lia). cbn.
    unfold at_pos. cbn. rewrite list_lookup_total_insert_ne; [done|].
    intros E. apply (slot_ne (r + Z.of_nat i) w); [lia|].
    pose proof (Hmod w). pose proof (Hmod (r + Z.of_nat i)). lia.
  - rewrite lookup_app_r by (rewrite pipe_length_contents; cbn; lia). rewrite pipe_length_contents. cbn [read_pos write_pos].
    replace (i - Z.to_nat (w - r))%nat with 0%nat by lia. rewrite pipe_contents_lookup by (cbn; lia). cbn.
    unfold at_pos. cbn. replace (r + Z.of_nat i) with w by lia. f_equal. apply list_lookup_total_insert_eq.
    pose proof (Hmod w). lia.
  - rewrite !lookup_ge_None_2; [done| |]; rewrite ?length_app, !pipe_length_contents; cbn; lia.
Qed.

Lemma push_contents p x k :
  pipe_ok k p -> k < 2 ^ 32 - 1 -> N < 2 ^ 32 ->
  contents (push N p x) = q_push (contents p) x /\ pipe_ok (k + 1) (push N p x).
Proof.
  intros (P1 & P2 & P3 & P4 & P5) Hk HN. unfold push, q_push. rewrite pipe_length_contents.
  rewrite (wrap_small 32 (write_pos p + 1)) by (split; lia).
  assert ((write_pos p =? u32 (read_pos p + N)) = (Z.to_nat (write_pos p - read_pos p) =? Z.to_nat N)%nat) as Ef.
  { apply eq_true_iff_eq. rewrite Z.eqb_eq, Nat.eqb_eq.
    destruct (Z.lt_ge_cases (read_pos p + N) (2 ^ 32)) as [Hs|Hs]; [rewrite wrap_small by (split; lia); lia|].
    assert (u32 (read_pos p + N) = read_pos p + N - 2 ^ 32) as ->; [|lia].
    unfold wrap. rewrite <- (Z_mod_plus_full (read_pos p + N) (-1)). apply Z.mod_small. lia. }
  rewrite Ef. destruct (Nat.eqb_spec (Z.to_nat (write_pos p - read_pos p)) (Z.to_nat N)) as [Hfull|Hroom].
  - rewrite (wrap_small 32 (read_pos p + 1)) by (split; lia). rewrite store_contents by (done || lia).
    rewrite (pipe_contents_advance p 1) by lia. split; [done|]. unfold pipe_ok; cbn. rewrite length_insert. lia.
  - rewrite store_contents by (done || lia). split; [by destruct p|]. unfold pipe_ok; cbn. rewrite length_insert. lia.
Qed.

Lemma pop_back_contents p :
  read_pos p < write_pos p ->
  contents (mk (buf p) (read_pos p) (write_pos p - 1)) = take (length (contents p) - 1) (contents p).
Proof.
  intros Hp. rewrite pipe_length_contents. apply list_eq; intros i.
  destruct (Z.lt_ge_cases (Z.of_nat i) (write_pos p - 1 - read_pos p)) as [Hi|Hi].
  - rewrite lookup_take_lt by lia. rewrite !pipe_contents_lookup by (cbn; lia). done.
  - rewrite !lookup_ge_None_2; [done| |]; rewrite ?length_take, pipe_length_contents; cbn; lia.
Qed.

Lemma empty_contents p : write_pos p <= read_pos p -> contents p = [].
Proof. intros H. apply nil_length_inv. rewrite pipe_length_contents. lia. Qed.

Lemma op_refines dst p k o :
  pipe_ok k p -> k < 2 ^ 32 - 1 -> N < 2 ^ 32 ->
  pipe_ok (k + 1) (fst (do_op dst p o)) /\
  (contents (fst (do_op dst p o)), snd (do_op dst p o)) = q_op (contents p) o.
Proof.
  intros Hok Hk HN. pose proof Hok as (P1 & P2 & P3 & P4 & P5).
  destruct o as [x| | | | |n]; cbn [do_op q_op].
  - destruct (push_contents p x k Hok Hk HN) as [E H]. cbn. by rewrite E.
  - unfold pop. destruct (Z.eqb_spec (read_pos p) (write_pos p)) as [He|He].
    + rewrite (empty_contents p) by lia. cbn. split; [|by rewrite empty_contents by lia]. unfold pipe_ok. lia.
    + rewrite (wrap_small 32 (read_pos p + 1)) by (split; lia). cbn [fst snd option_list].
      rewrite (pipe_contents_advance p 1) by lia. split; [unfold pipe_ok; cbn; lia|]. f_equal.
      assert (contents p !! 0%nat = Some (at_pos N p (read_pos p))) as H0
        by (rewrite pipe_contents_lookup by lia; by rewrite Z.add_0_r).
      destruct (contents p); [done|]. cbn in H0. by injection H0 as ->.
  - unfold drain. rewrite drain_loop_read, loop_spec by lia. cbn [fst snd app].
    rewrite Z2Nat.id, Z.min_id by lia. split; [unfold pipe_ok; cbn; lia|].
    rewrite empty_contents by (cbn; lia). by rewrite take_ge by (rewrite pipe_length_contents; lia).
  - unfold pop_back. destruct (Z.ltb_spec (read_pos p) (write_pos p)); cbn [fst].
    + rewrite pop_back_contents by done. split; [unfold pipe_ok; cbn; lia|done].
    + rewrite empty_contents by lia. split; [unfold pipe_ok; lia|done].
  - cbn [fst snd]. rewrite empty_contents by (cbn; lia). split; [unfold pipe_ok; cbn; lia|done].
  - unfold read. rewrite length_replicate, loop_spec by lia. cbn [fst snd app].
    rewrite Nat2Z.id, take_app_length. split; [unfold pipe_ok; cbn; lia|].
    rewrite pipe_contents_advance by lia. f_equal.
    destruct (Z.le_gt_cases (Z.of_nat n) (write_pos p - read_pos p)).
    + by rewrite Z.min_l, Nat2Z.id by lia.
    + rewrite Z.min_r by lia. by rewrite !drop_ge by (rewrite pipe_length_contents; lia).
Qed.

(** The outputs of a sequence of operations and the final contents. *)
Definition run_pipe (dst : T) (os : list op) : Pipe T * list (list T) :=
  foldl (fun st o => let '(p, out) := do_op dst (fst st) o in (p, snd st ++ [out])) (new N dst, []) os.
Definition run_queue (os : list op) : list T * list (list T) :=
  foldl (fun st o => let '(q, out) := q_op (fst st) o in (q, snd st ++ [out])) ([], []) os.

Lemma run_refines dst os :
  Z.of_nat (length os) < 2 ^ 32 - 1 -> N < 2 ^ 32 ->
  pipe_ok (Z.of_nat (length os)) (fst (run_pipe dst os)) /\
  (contents (fst (run_pipe dst os)), snd (run_pipe dst os)) = run_queue os.
Proof.
  intros Hl HN. unfold run_pipe, run_queue.
  induction os as [|o os IH] using rev_ind.
  { cbn. split; [unfold pipe_ok; cbn; rewrite length_replicate; lia|by rewrite empty_contents by (cbn; lia)]. }
  rewrite length_app in *. cbn [length] in *. rewrite !foldl_app. cbn [foldl].
  destruct IH as [IH1 IH2]; [lia|]. rewrite <- IH2. clear IH2.
  set (st := foldl _ (new N dst, []) os) in *. cbn [fst snd].
  destruct (op_refines dst (fst st) (Z.of_nat (length os)) o IH1 ltac:(lia) HN) as [O1 O2].
  rewrite <- O2. destruct (do_op dst (fst st) o) as [p out]. cbn in *. split; [|done].
  by replace (Z.of_nat (length os + 1)) with (Z.of_nat (length os) + 1) by lia.
Qed.
End PipeQueue.

(** A pipe is a queue of capacity N.  Over any sequence of pushes, pops,
    reads, drains, back-pops and clears shorter than the range of a
    position, every operation yields exactly what it yields on a list that
    forgets its oldest element when a push finds it full, and the elements
    left are that list's. *)
Theorem pipe_is_bounded_queue {T} `{!Inhabited T} (N : Z) (dst : T) os :
  0 < N < 2 ^ 32 -> Z.of_nat (length os) < 2 ^ 32 - 1 ->
  let '(p, outs) := run_pipe N dst os in
  (contents N p, outs) = run_queue N os /\ (length (contents N p) <= Z.to_nat N)%nat.
Proof.
  intros HN Hl. destruct (run_refines N ltac:(lia) dst os Hl ltac:(lia)) as [(P1 & P2 & P3 & P4 & P5) E].
  destruct (run_pipe N dst os) as [p outs]. split; [exact E|]. rewrite pipe_length_contents. cbn in *. lia.
Qed.

Lemma pipe_is_bounded_queue_witness :
  let '(p, outs) := run_pipe 3 0 [Push 1; Push 2; Push 3; Push 4; Pop; Read 5; Pop; Push 7] in
  contents 3 p = [7] /\ outs = [[]; []; []; []; [2]; [3; 4]; []; []].
Proof.
  pose proof (pipe_is_bounded_queue 3 0 [Push 1; Push 2; Push 3; Push 4; Pop; Read 5; Pop; Push 7]
    ltac:(lia) ltac:(cbn; lia)) as H.
  destruct (run_pipe 3 0 _) as [p outs]. destruct H as [H _].
  assert (run_queue 3 [Push 1; Push 2; Push 3; Push 4; Pop; Read 5; Pop; Push 7] =
    ([7], [[]; []; []; []; [2]; [3; 4]; []; []])) as E by by vm_compute.
  rewrite E in H. by injection H as -> ->.
Defined.

(** ** After 2^32 elements *)

Section Wrap.
Import Pipe.

Definition cycle (N : Z) (p : Pipe Z) : Pipe Z := fst (pop N (push N p 7)).

Lemma cycle_positions N n :
  0 < N < 2 ^ 32 -> let p := Nat.iter n (cycle N) (new N 0) in
  read_pos p = u32 (Z.of_nat n) /\ write_pos p = u32 (Z.of_nat n).
Proof.
  intros HN. cbv zeta. induction n as [|n [IH1 IH2]]; [done|]. rewrite Nat.iter_succ. set (p := Nat.iter n _ _) in *.
  unfold cycle, pop, push. rewrite IH1, IH2. cbn [read_pos write_pos].
  pose proof (wrap_fits 32 (Z.of_nat n) ltac:(lia)) as Hr. set (r := u32 (Z.of_nat n)) in *.
  assert (r <> u32 (r + N)) as Hne.
  { unfold wrap, fits in *. destruct (Z.lt_ge_cases (r + N) (2 ^ 32)); [rewrite Z.mod_small; lia|].
    rewrite <- (Z_mod_plus_full (r + N) (-1)), Z.mod_small; lia. }
  rewrite (proj2 (Z.eqb_neq _ _) Hne).
  assert (r <> u32 (r + 1)) as Hne1.
  { unfold wrap, fits in *. destruct (Z.lt_ge_cases (r + 1) (2 ^ 32)); [rewrite Z.mod_small; lia|].
    rewrite <- (Z_mod_plus_full (r + 1) (-1)), Z.mod_small; lia. }
  rewrite (proj2 (Z.eqb_neq _ _) Hne1). cbn [fst read_pos write_pos].
  assert (u32 (r + 1) = u32 (Z.of_nat (S n))) as ->; [|done].
  unfold r, wrap. rewrite Zplus_mod_idemp_l. f_equal. lia.
Qed.

(** The positions wrap and [read] compares them with [<]: after
    [2 ^ 32 - 1] bytes have passed through a pipe, the next byte written to
    it is there, but [read] reports nothing. *)
Theorem pipe_read_stalls_after_wrap :
  let p := push 1024 (Nat.iter (Z.to_nat (2 ^ 32 - 1)) (cycle 1024) (new 1024 0)) 9 in
  is_empty p = false /\ forall dst, snd (read 1024 p dst) = 0.
Proof.
  cbv zeta. destruct (cycle_positions 1024 (Z.to_nat (2 ^ 32 - 1)) ltac:(lia)) as [H1 H2].
  set (p := Nat.iter _ _ _) in *. rewrite Z2Nat.id in H1, H2 by lia. change (u32 (2 ^ 32 - 1)) with (2 ^ 32 - 1) in *.
  unfold is_empty, push, read. rewrite H1, H2. split; [done|]. intros dst.
  destruct (length dst) as [|n]; done.
Qed.
End Wrap.
