(* ===== verification/KPipe.v ===== *)
(** The kernel's pipe pool (kernel/src/kernel/kpipe.rs): 64 ring buffers
    with reader and writer counts.

    The pool is a value here; the source keeps it behind a lock that every
    operation holds from start to end.  [None] is the panic of an index out
    of range. *)

From Stdlib Require Import ZArith Lia Bool.
From stdpp Require Import base option list numbers.
From S2P Require Import Prelude Pipe.

Definition MAX_PIPES : Z := 64.
Definition PIPE_BUF_SIZE : Z := 1024.

Module KernelPipe.

Record KernelPipe := mk { buffer : Pipe.Pipe Z; readers : Z; writers : Z }.

Definition empty : KernelPipe := mk (Pipe.new PIPE_BUF_SIZE 0) 0 0.

Definition is_free (p : KernelPipe) : bool := (readers p =? 0) && (writers p =? 0).

Abbreviation Pool := (list KernelPipe).

Definition PIPES : Pool := replicate (Z.to_nat MAX_PIPES) empty.

(** [for i in 0..MAX_PIPES], from [i] on. *)
Fixpoint alloc_loop (pipes : Pool) (i : Z) : Pool * option Z :=
  match pipes with
  | [] => ([], None)
  | p :: rest =>
      if is_free p then (mk (Pipe.new PIPE_BUF_SIZE 0) 1 1 :: rest, Some (u8 i))
      else let '(rest, r) := alloc_loop rest (i + 1) in (p :: rest, r)
  end.
Definition alloc (pipes : Pool) : Pool * option Z := alloc_loop pipes 0.

(** [&mut pipes[idx as usize]] *)
Definition on_pipe {R} (pipes : Pool) (idx : Z) (f : KernelPipe -> KernelPipe * R) : option (Pool * R) :=
  p ← pipes !! Z.to_nat idx;
  let '(p, r) := f p in
  Some (<[Z.to_nat idx := p]> pipes, r).

Definition set_buffer (p : KernelPipe) (b : Pipe.Pipe Z) : KernelPipe := mk b (readers p) (writers p).

Definition read (pipes : Pool) (idx : Z) (buf : list Z) : option (Pool * (list Z * Z)) :=
  on_pipe pipes idx (fun p =>
    let '(b, buf, n) := Pipe.read PIPE_BUF_SIZE (buffer p) buf in (set_buffer p b, (buf, n))).

(** [x as i32] *)
Definition i32 (x : Z) : Z := let y := u32 x in if y <? 2 ^ 31 then y else y - 2 ^ 32.

Definition write (pipes : Pool) (idx : Z) (data : list Z) : option (Pool * Z) :=
  on_pipe pipes idx (fun p =>
    if readers p =? 0 then (p, -1)
    else (set_buffer p (foldl (Pipe.push PIPE_BUF_SIZE) (buffer p) data), i32 (Z.of_nat (length data)))).

Definition pop_back (pipes : Pool) (idx : Z) : option (Pool * bool) :=
  on_pipe pipes idx (fun p => let '(b, r) := Pipe.pop_back (buffer p) in (set_buffer p b, r)).

Definition has_data (pipes : Pool) (idx : Z) : option bool :=
  p ← pipes !! Z.to_nat idx; Some (negb (Pipe.is_empty (buffer p))).

Definition has_writers (pipes : Pool) (idx : Z) : option bool :=
  p ← pipes !! Z.to_nat idx; Some (0 <? writers p).

Definition add_reader (pipes : Pool) (idx : Z) : option (Pool * ()) :=
  on_pipe pipes idx (fun p => (mk (buffer p) (u16 (readers p + 1)) (writers p), ())).

Definition add_writer (pipes : Pool) (idx : Z) : option (Pool * ()) :=
  on_pipe pipes idx (fun p => (mk (buffer p) (readers p) (u16 (writers p + 1)), ())).

Definition close_reader (pipes : Pool) (idx : Z) : option (Pool * ()) :=
  on_pipe pipes idx (fun p =>
    ((if 0 <? readers p then mk (buffer p) (readers p - 1) (writers p) else p), ())).

Definition close_writer (pipes : Pool) (idx : Z) : option (Pool * ()) :=
  on_pipe pipes idx (fun p =>
    ((if 0 <? writers p then mk (buffer p) (readers p) (writers p - 1) else p), ())).

End KernelPipe.

(** * The pool as a system call user sees it *)

Inductive kop :=
  | KAlloc | KRead (idx : Z) (len : nat) | KWrite (idx : Z) (data : list Z) | KPopBack (idx : Z)
  | KHasData (idx : Z) | KHasWriters (idx : Z)
  | KAddReader (idx : Z) | KAddWriter (idx : Z) | KCloseReader (idx : Z) | KCloseWriter (idx : Z).

Inductive kres := RIndex (i : option Z) | RBytes (l : list Z) | RInt (n : Z) | RBool (b : bool) | RNone.

(** One call on the pool; a read yields the bytes the caller gets. *)
Definition do_kop (pool : KernelPipe.Pool) (o : kop) : option (KernelPipe.Pool * kres) :=
  let unit r := '(p, _) ← r; Some (p, RNone) in
  match o with
  | KAlloc => let '(p, i) := KernelPipe.alloc pool in Some (p, RIndex i)
  | KRead i len =>
      '(p, r) ← KernelPipe.read pool i (replicate len 0); Some (p, RBytes (take (Z.to_nat (snd r)) (fst r)))
  | KWrite i data => '(p, n) ← KernelPipe.write pool i data; Some (p, RInt n)
  | KPopBack i => '(p, b) ← KernelPipe.pop_back pool i; Some (p, RBool b)
  | KHasData i => b ← KernelPipe.has_data pool i; Some (pool, RBool b)
  | KHasWriters i => b ← KernelPipe.has_writers pool i; Some (pool, RBool b)
  | KAddReader i => unit (KernelPipe.add_reader pool i)
  | KAddWriter i => unit (KernelPipe.add_writer pool i)
  | KCloseReader i => unit (KernelPipe.close_reader pool i)
  | KCloseWriter i => unit (KernelPipe.close_writer pool i)
  end.

(** The specification: a pipe is the bytes in it and its open ends. *)
Record APipe := mkA { bytes : list Z; a_readers : Z; a_writers : Z }.

(** The last 1024 bytes. *)
Definition keep_last (l : list Z) : list Z := drop (length l - Z.to_nat PIPE_BUF_SIZE) l.

Fixpoint a_alloc (pipes : list APipe) (i : Z) : list APipe * option Z :=
  match pipes with
  | [] => ([], None)
  | p :: rest =>
      if (a_readers p =? 0) && (a_writers p =? 0) then (mkA [] 1 1 :: rest, Some i)
      else let '(rest, r) := a_alloc rest (i + 1) in (p :: rest, r)
  end.

(** The effect of a call on the pipe it names. *)
Definition a_call (p : APipe) (o : kop) : APipe * kres :=
  let '(mkA q r w) := p in
  match o with
  | KAlloc => (p, RNone)
  | KRead _ len => (mkA (drop len q) r w, RBytes (take len q))
  | KWrite _ data =>
      if r =? 0 then (p, RInt (-1)) else (mkA (keep_last (q ++ data)) r w, RInt (Z.of_nat (length data)))
  | KPopBack _ => (mkA (take (length q - 1) q) r w, RBool (negb (bool_decide (q = []))))
  | KHasData _ => (p, RBool (negb (bool_decide (q = []))))
  | KHasWriters _ => (p, RBool (0 <? w))
  | KAddReader _ => (mkA q (u16 (r + 1)) w, RNone)
  | KAddWriter _ => (mkA q r (u16 (w + 1)), RNone)
  | KCloseReader _ => (mkA q (Z.max 0 (r - 1)) w, RNone)
  | KCloseWriter _ => (mkA q r (Z.max 0 (w - 1)), RNone)
  end.

Definition index_of (o : kop) : Z :=
  match o with
  | KAlloc => 0
  | KRead i _ | KWrite i _ | KPopBack i | KHasData i | KHasWriters i
  | KAddReader i | KAddWriter i | KCloseReader i | KCloseWriter i => i
  end.

Definition a_kop (pool : list APipe) (o : kop) : option (list APipe * kres) :=
  match o with
  | KAlloc => let '(p, i) := a_alloc pool 0 in Some (p, RIndex i)
  | _ => p ← pool !! Z.to_nat (index_of o);
         let '(p, r) := a_call p o in Some (<[Z.to_nat (index_of o) := p]> pool, r)
  end.

Definition data_len (o : kop) : Z := match o with KWrite _ data => Z.of_nat (length data) | _ => 0 end.

Import KernelPipe.

Lemma keep_last_short l : (length l <= Z.to_nat PIPE_BUF_SIZE)%nat -> keep_last l = l.
Proof. intros H. unfold keep_last. by replace (length l - Z.to_nat PIPE_BUF_SIZE)%nat with 0%nat by lia. Qed.

Lemma keep_last_snoc l x : keep_last (keep_last l ++ [x]) = keep_last (l ++ [x]).
Proof.
  unfold keep_last. set (n := Z.to_nat PIPE_BUF_SIZE). assert (1 <= n)%nat by (unfold n, PIPE_BUF_SIZE; lia). clearbody n.
  destruct (decide (length l <= n)%nat) as [Hle|Hgt].
  - by replace (length l - n)%nat with 0%nat by lia.
  - rewrite !length_app, length_drop. cbn [length]. rewrite !drop_app_le by (rewrite ?length_drop; lia).
    rewrite drop_drop. do 2 f_equal. lia.
Qed.

Lemma push_keep_last q x :
  (length q <= Z.to_nat PIPE_BUF_SIZE)%nat -> q_push PIPE_BUF_SIZE q x = keep_last (q ++ [x]).
Proof.
  intros H. unfold q_push, keep_last. set (n := Z.to_nat PIPE_BUF_SIZE) in *.
  assert (1 <= n)%nat by (unfold n, PIPE_BUF_SIZE; lia). clearbody n. rewrite length_app. cbn [length].
  destruct (Nat.eqb_spec (length q) n) as [E|E].
  - rewrite drop_app_le by lia. do 2 f_equal. lia.
  - by replace (length q + 1 - n)%nat with 0%nat by lia.
Qed.

(** Writing a string byte by byte keeps its last 1024 bytes. *)
Lemma push_all p k data :
  pipe_ok PIPE_BUF_SIZE k p -> k + Z.of_nat (length data) < 2 ^ 32 - 1 ->
  let p' := foldl (Pipe.push PIPE_BUF_SIZE) p data in
  pipe_ok PIPE_BUF_SIZE (k + Z.of_nat (length data)) p' /\
  contents PIPE_BUF_SIZE p' = keep_last (contents PIPE_BUF_SIZE p ++ data).
Proof.
  intros Hok. cbv zeta. induction data as [|x data IH] using rev_ind; intros Hk.
  - cbn [foldl]. rewrite app_nil_r, Z.add_0_r. split; [done|]. symmetry. apply keep_last_short. rewrite pipe_length_contents.
    destruct Hok as (P1 & P2 & P3 & P4 & P5). lia.
  - rewrite length_app in *. cbn [length] in *. destruct IH as [IH1 IH2]; [lia|].
    rewrite foldl_app. cbn [foldl]. set (p1 := foldl _ p data) in *.
    destruct (push_contents PIPE_BUF_SIZE eq_refl p1 x _ IH1 ltac:(lia) eq_refl) as [E H].
    split; [by replace (k + Z.of_nat (length data + 1)) with (k + Z.of_nat (length data) + 1) by lia|].
    rewrite E, push_keep_last.
    + by rewrite IH2, keep_last_snoc, app_assoc.
    + rewrite pipe_length_contents. destruct IH1 as (P1 & P2 & P3 & P4 & P5). lia.
Qed.

(** * Simulation *)

Definition pipe_rel (k : Z) (c : KernelPipe) (a : APipe) : Prop :=
  pipe_ok PIPE_BUF_SIZE k (buffer c) /\ contents PIPE_BUF_SIZE (buffer c) = bytes a /\
  readers c = a_readers a /\ writers c = a_writers a /\ 0 <= readers c /\ 0 <= writers c.

Lemma pipe_rel_mono k k' c a : k <= k' -> pipe_rel k c a -> pipe_rel k' c a.
Proof. intros Hk ((P1 & P2 & P3 & P4 & P5) & H). split; [|done]. unfold pipe_ok. lia. Qed.

Lemma pipe_rel_nil k c a : pipe_rel k c a -> Pipe.is_empty (buffer c) = bool_decide (bytes a = []).
Proof.
  intros ((P1 & P2 & P3 & P4 & P5) & E & _). unfold Pipe.is_empty. rewrite <- E. apply eq_true_iff_eq.
  rewrite Z.eqb_eq, bool_decide_eq_true, <- length_zero_iff_nil, pipe_length_contents. lia.
Qed.

Lemma fresh_rel k r w : 0 <= k -> 0 <= r -> 0 <= w ->
  pipe_rel k (mk (Pipe.new PIPE_BUF_SIZE 0) r w) (mkA [] r w).
Proof.
  intros Hk Hr Hw. split_and!; cbn; try done; try lia.
Qed.

Lemma alloc_rel k cs as_ i :
  0 <= k -> 0 <= i -> i + Z.of_nat (length cs) <= 256 -> Forall2 (pipe_rel k) cs as_ ->
  let '(cs', r) := alloc_loop cs i in let '(as', r') := a_alloc as_ i in
  r = r' /\ Forall2 (pipe_rel k) cs' as'.
Proof.
  intros Hk Hi Hl Hrel. revert i Hi Hl; induction Hrel as [|c a cs as_ Hca Hrel IH]; intros i Hi Hl; cbn; [done|].
  pose proof Hca as (_ & _ & Er & Ew & _). unfold is_free. rewrite Er, Ew.
  destruct ((a_readers a =? 0) && (a_writers a =? 0)).
  - rewrite wrap_small by (cbn in Hl; split; [lia|]; change (2 ^ 8) with 256; lia). split; [done|]. constructor; [|done].
    by apply fresh_rel.
  - cbn in Hl. specialize (IH (i + 1) ltac:(lia) ltac:(lia)).
    destruct (alloc_loop cs (i + 1)) as [cs' r], (a_alloc as_ (i + 1)) as [as' r']. destruct IH as [-> IH].
    split; [done|]. by constructor.
Qed.

(** A call on one pipe, concretely and abstractly. *)
Definition c_call (p : KernelPipe) (o : kop) : KernelPipe * kres :=
  match o with
  | KAlloc => (p, RNone)
  | KRead _ len => let '(b, buf, n) := Pipe.read PIPE_BUF_SIZE (buffer p) (replicate len 0) in
                   (set_buffer p b, RBytes (take (Z.to_nat n) buf))
  | KWrite _ data => if readers p =? 0 then (p, RInt (-1))
                     else (set_buffer p (foldl (Pipe.push PIPE_BUF_SIZE) (buffer p) data),
                           RInt (i32 (Z.of_nat (length data))))
  | KPopBack _ => let '(b, r) := Pipe.pop_back (buffer p) in (set_buffer p b, RBool r)
  | KHasData _ => (p, RBool (negb (Pipe.is_empty (buffer p))))
  | KHasWriters _ => (p, RBool (0 <? writers p))
  | KAddReader _ => (mk (buffer p) (u16 (readers p + 1)) (writers p), RNone)
  | KAddWriter _ => (mk (buffer p) (readers p) (u16 (writers p + 1)), RNone)
  | KCloseReader _ => ((if 0 <? readers p then mk (buffer p) (readers p - 1) (writers p) else p), RNone)
  | KCloseWriter _ => ((if 0 <? writers p then mk (buffer p) (readers p) (writers p - 1) else p), RNone)
  end.

Lemma do_kop_call pool o :
  o <> KAlloc ->
  do_kop pool o = p ← pool !! Z.to_nat (index_of o);
                  let '(p, r) := c_call p o in Some (<[Z.to_nat (index_of o) := p]> pool, r).
Proof.
  intros Ho. destruct o; try done; cbn [do_kop index_of];
    unfold read, write, pop_back, has_data, has_writers, add_reader, add_writer, close_reader, close_writer, on_pipe;
    destruct (pool !! _) as [p|] eqn:E; cbn [mbind option_bind c_call]; try done;
    try (by rewrite list_insert_id by done).
  - by destruct (Pipe.read _ _ _) as [[b buf] n].
  - by destruct (readers p =? 0).
  - by destruct (Pipe.pop_back _).
Qed.

Lemma call_rel k c a o :
  pipe_rel k c a -> o <> KAlloc -> 0 <= data_len o < 2 ^ 31 -> k + data_len o < 2 ^ 32 - 2 ->
  pipe_rel (k + data_len o + 1) (fst (c_call c o)) (fst (a_call a o)) /\ snd (c_call c o) = snd (a_call a o).
Proof.
  intros Hrel Ho Hd Hk. pose proof Hrel as (Hok & Hq & Hr & Hw & Hr0 & Hw0). pose proof (pipe_rel_nil k c a Hrel) as Hnil.
  pose proof (pipe_rel_mono k (k + data_len o + 1) c a ltac:(lia) Hrel) as Hrel'.
  assert (forall r, 0 <= u16 r) as H16 by (intros; apply wrap_fits; lia).
  destruct a as [q r w]. cbn in Hq, Hr, Hw, Hnil. destruct o as [|i len|i data|i|i|i|i|i|i|i]; try done;
    cbn [c_call a_call data_len] in *.
  - pose proof (op_refines PIPE_BUF_SIZE eq_refl 0 (buffer c) k (Read len) Hok ltac:(lia) eq_refl) as [O1 O2].
    cbn [do_op q_op] in O1, O2. rewrite Hq in O2. destruct (Pipe.read _ _ _) as [[b buf] n]. cbn in *.
    injection O2 as E1 E2. rewrite E2. split; [|done]. rewrite Z.add_0_r. by split.
  - rewrite Hr. destruct (r =? 0); [done|]. cbn [fst snd].
    destruct (push_all (buffer c) k data Hok ltac:(lia)) as [P1 P2]. rewrite Hq in P2. split.
    + apply (pipe_rel_mono (k + Z.of_nat (length data))); [lia|]. by split_and!.
    + unfold i32. rewrite (wrap_small 32) by (split; lia). by rewrite (proj2 (Z.ltb_lt _ _)) by lia.
  - pose proof (op_refines PIPE_BUF_SIZE eq_refl 0 (buffer c) k PopBack Hok ltac:(lia) eq_refl) as [O1 O2].
    cbn [do_op q_op] in O1, O2. rewrite Hq in O2. rewrite <- Hnil.
    assert (snd (Pipe.pop_back (buffer c)) = negb (Pipe.is_empty (buffer c))) as Hb.
    { unfold Pipe.pop_back, Pipe.is_empty. destruct Hok as (P1 & P2 & _).
      destruct (Z.ltb_spec (Pipe.read_pos (buffer c)) (Pipe.write_pos (buffer c))),
        (Z.eqb_spec (Pipe.read_pos (buffer c)) (Pipe.write_pos (buffer c))); done || lia. }
    destruct (Pipe.pop_back (buffer c)) as [b x]. cbn in *. injection O2 as E1. subst x. split; [|done].
    rewrite Z.add_0_r. by split.
  - by rewrite Hnil.
  - by rewrite Hw.
  - rewrite Hr. split; [|done]. destruct Hrel' as (R1 & R2 & R3 & R4 & R5 & R6). split; [done|]. cbn. by split_and!.
  - rewrite Hw. split; [|done]. destruct Hrel' as (R1 & R2 & R3 & R4 & R5 & R6). split; [done|]. cbn. by split_and!.
  - split; [|done]. destruct Hrel' as (R1 & R2 & R3 & R4 & R5 & R6). cbn in R3.
    destruct (Z.ltb_spec 0 (readers c)); (split; [done|]); split_and!; cbn; done || lia.
  - split; [|done]. destruct Hrel' as (R1 & R2 & R3 & R4 & R5 & R6). cbn in R4.
    destruct (Z.ltb_spec 0 (writers c)); (split; [done|]); split_and!; cbn; done || lia.
Qed.

Section Run.
Context {S : Type} (step : S -> kop -> option (S * kres)).

(** The results of a sequence of calls, [None] when one panics. *)
Fixpoint run (s : S) (os : list kop) : option (S * list kres) :=
  match os with
  | [] => Some (s, [])
  | o :: os => '(s, r) ← step s o; '(s, rs) ← run s os; Some (s, r :: rs)
  end.
End Run.

(** What the calls push through the pipes, with one to spare for each. *)
Definition traffic (os : list kop) : Z := foldr (fun o n => data_len o + 1 + n) 0 os.

Lemma data_len_nonneg o : 0 <= data_len o.
Proof. destruct o; cbn; lia. Qed.

Lemma traffic_nonneg os : 0 <= traffic os.
Proof. induction os as [|o os IH]; [done|]. cbn. pose proof (data_len_nonneg o). unfold traffic in IH. lia. Qed.

Lemma step_rel k cs as_ o :
  Forall2 (pipe_rel k) cs as_ -> 0 <= k -> Z.of_nat (length cs) = MAX_PIPES ->
  data_len o < 2 ^ 31 -> k + data_len o < 2 ^ 32 - 2 ->
  match do_kop cs o, a_kop as_ o with
  | Some (cs', r), Some (as', r') =>
      r = r' /\ Forall2 (pipe_rel (k + data_len o + 1)) cs' as' /\ length cs' = length cs
  | None, None => True
  | _, _ => False
  end.
Proof.
  intros Hrel Hk0 Hlen Hd Hk. pose proof (data_len_nonneg o) as Hd0.
  assert (Forall2 (pipe_rel (k + data_len o + 1)) cs as_) as Hrel'.
  { revert Hrel. apply Forall2_impl. intros c a. apply pipe_rel_mono. lia. }
  assert (o = KAlloc \/ o <> KAlloc) as [-> | Ho] by (destruct o; (by left) || by right).
  - cbn [do_kop a_kop]. unfold alloc.
    assert (length (fst (alloc_loop cs 0)) = length cs) as Hl.
    { clear. generalize 0 as i. induction cs as [|c cs IH]; intros i; [done|]. cbn. destruct (is_free c); [done|].
      specialize (IH (i + 1)). destruct (alloc_loop cs (i + 1)). cbn in *. lia. }
    pose proof (alloc_rel (k + data_len KAlloc + 1) cs as_ 0 ltac:(cbn; lia) ltac:(lia) ltac:(unfold MAX_PIPES in *; lia) Hrel')
      as Ha.
    destruct (alloc_loop cs 0) as [cs' r], (a_alloc as_ 0) as [as' r']. destruct Ha as [-> Ha]. done.
  - rewrite do_kop_call by done.
    assert (a_kop as_ o = p ← as_ !! Z.to_nat (index_of o);
      let '(p, r) := a_call p o in Some (<[Z.to_nat (index_of o) := p]> as_, r)) as -> by by destruct o.
    destruct (cs !! Z.to_nat (index_of o)) as [c|] eqn:Ec.
    + destruct (Forall2_lookup_l _ _ _ _ _ Hrel Ec) as (a & -> & Hca). cbn [mbind option_bind].
      destruct (call_rel k c a o Hca Ho ltac:(lia) Hk) as [R1 R2].
      destruct (c_call c o) as [c' r], (a_call a o) as [a' r']. cbn in R1, R2. split; [done|]. split.
      * by apply Forall2_insert.
      * by rewrite length_insert.
    + apply lookup_ge_None in Ec. rewrite (lookup_ge_None_2 as_) by (by rewrite <- (Forall2_length Hrel)). done.
Qed.

Lemma run_rel os k cs as_ :
  Forall2 (pipe_rel k) cs as_ -> 0 <= k -> Z.of_nat (length cs) = MAX_PIPES ->
  Forall (fun o => data_len o < 2 ^ 31) os -> k + traffic os < 2 ^ 32 - 2 ->
  snd <$> run do_kop cs os = snd <$> run a_kop as_ os.
Proof.
  revert k cs as_; induction os as [|o os IH]; intros k cs as_ Hrel Hk Hlen Hd Ht; [done|].
  apply Forall_cons_1 in Hd as [Hd Hds]. cbn [traffic foldr] in Ht. fold (traffic os) in Ht.
  pose proof (traffic_nonneg os). pose proof (data_len_nonneg o). cbn [run].
  pose proof (step_rel k cs as_ o Hrel Hk Hlen Hd ltac:(lia)) as Hs.
  destruct (do_kop cs o) as [[cs' r]|], (a_kop as_ o) as [[as' r']|]; try done. destruct Hs as (-> & Hrel' & Hl).
  cbn [mbind option_bind]. specialize (IH _ cs' as' Hrel' ltac:(lia) ltac:(lia) Hds ltac:(lia)).
  destruct (run do_kop cs' os) as [[? ?]|], (run a_kop as' os) as [[? ?]|]; cbn in *; congruence.
Qed.

(** C33: the pipe pool keeps its promise to processes, for the first 4 GB.  For
    any sequence of calls from boot that writes fewer than 2^32 - 2 bytes in
    all and fewer than 2^31 in one call, every result, end-of-file and broken-pipe conditions
    included, is the one a table of 64 independent byte queues with reader
    and writer counts gives: a read takes the oldest bytes, a write to a
    pipe without readers fails with -1 and changes nothing, any other write
    appends and keeps the last 1024 bytes, and alloc returns the first pipe
    with no end open, emptied. *)
Theorem kpipe_refines os :
  Forall (fun o => data_len o < 2 ^ 31) os -> traffic os < 2 ^ 32 - 2 ->
  snd <$> run do_kop PIPES os = snd <$> run a_kop (replicate 64 (mkA [] 0 0)) os.
Proof.
  intros Hd Ht. apply (run_rel os 0); try done. unfold PIPES, MAX_PIPES.
  change (Z.to_nat 64) with 64%nat. apply Forall2_replicate. by apply fresh_rel.
Qed.

Lemma kpipe_refines_witness :
  snd <$> run do_kop PIPES [KAlloc; KWrite 0 [1; 2; 3]; KAlloc; KRead 0 2; KCloseReader 0; KWrite 0 [9]; KHasData 0; KRead 64 1]
    = None /\
  snd <$> run do_kop PIPES [KAlloc; KWrite 0 [1; 2; 3]; KAlloc; KRead 0 2; KCloseReader 0; KWrite 0 [9]; KHasData 0]
    = Some [RIndex (Some 0); RInt 3; RIndex (Some 1); RBytes [1; 2]; RNone; RInt (-1); RBool true].
Proof.
  split; (rewrite kpipe_refines; [by vm_compute|repeat constructor; cbn; lia|cbn; lia]).
Defined.

(** A write reports all its bytes even when the ring drops older ones: after
    1024 bytes and two more, the first two are gone. *)
Theorem kpipe_write_overruns :
  snd <$> run do_kop PIPES [KAlloc; KWrite 0 (5 :: 6 :: replicate 1022 1); KWrite 0 [2; 3]; KRead 0 2]
    = Some [RIndex (Some 0); RInt 1024; RInt 2; RBytes [1; 1]].
Proof. by vm_compute. Qed.
