(* ===== verification/Frame.v ===== *)
(** HostFS framing (kernel/src/kernel/fs/hostfs/frame.rs): byte-stuffed
    frames with a CRC over a serial line that may drop, add or corrupt
    bytes.

    The sender's sink is a state with a function that offers it one byte;
    the receiver's source is the list of the bytes its closure returns
    before it first returns [None].  A byte is a [Z] in [0, 256). *)

From Stdlib Require Import ZArith Lia Bool.
From stdpp Require Import base option list numbers.
From S2P Require Import Prelude.

Module HostFsFrame.

Definition FLAG : Z := 0x7e.
Definition ESC : Z := 0x7d.
Definition ESC_FLAG : Z := 0x5e.
Definition ESC_ESC : Z := 0x5d.
Definition MAX_BODY : nat := 4096.
Definition MAX_FRAME_PAYLOAD : nat := MAX_BODY - 3.

(** One turn of the inner loop. *)
Definition crc_bit (crc : Z) : Z :=
  if negb ((crc .& 0x8000) =? 0) then Z.lxor (u16 (crc ≪ 1)) 0x1021 else u16 (crc ≪ 1).

Definition crc16_update (crc : Z) (data : list Z) : Z :=
  foldl (fun crc byte => Nat.iter 8 crc_bit (Z.lxor crc (byte ≪ 8))) crc data.

Definition crc16 (data : list Z) : Z := crc16_update 0xffff data.

Definition crc16_parts (first second : list Z) : Z := crc16_update (crc16_update 0xffff first) second.

Section Send.
Context {S : Type} (send_raw : S -> Z -> S * bool).

(** [a && b] on senders. *)
Definition and_then (r : S * bool) (k : S -> S * bool) : S * bool :=
  let '(s, ok) := r in if ok then k s else (s, false).

Definition send_escaped (s : S) (byte : Z) : S * bool :=
  if byte =? FLAG then and_then (send_raw s ESC) (fun s => send_raw s ESC_FLAG)
  else if byte =? ESC then and_then (send_raw s ESC) (fun s => send_raw s ESC_ESC)
  else send_raw s byte.

(** [for &byte in ..] with an early return. *)
Fixpoint send_all (s : S) (l : list Z) : S * bool :=
  match l with
  | [] => (s, true)
  | byte :: l => and_then (send_escaped s byte) (fun s => send_all s l)
  end.

Definition send_frame (frame_type : Z) (payload : list Z) (s : S) : S * bool :=
  if (MAX_FRAME_PAYLOAD <? length payload)%nat then (s, false)
  else
    and_then (send_raw s FLAG) (fun s =>
    and_then (send_escaped s frame_type) (fun s =>
    and_then (send_all s payload) (fun s =>
    and_then (send_all s (to_le_bytes 2 (crc16_parts [frame_type] payload))) (fun s =>
    send_raw s FLAG)))).

End Send.

(** The receiver's locals, and the caller's buffer. *)
Record Rx := mkRx { in_frame : bool; escaped : bool; len : nat; body : list Z }.

(** A frame is complete: the unescaped flag after a body of a possible
    length whose CRC matches. *)
Definition complete (r : Rx) : bool :=
  in_frame r && negb (escaped r) && (3 <=? len r)%nat && (len r <=? MAX_BODY)%nat &&
  (crc16 (take (len r - 2) (body r)) =? from_le_bytes [body r !!! (len r - 2)%nat; body r !!! (len r - 1)%nat]).

Definition store (r : Rx) (byte : Z) : Rx :=
  if (len r <? length (body r))%nat
  then mkRx (in_frame r) (escaped r) (S (len r)) (<[len r := byte]> (body r))
  else mkRx false (escaped r) 0 (body r).

(** One turn of the loop: the frame returned, or the state to go on with. *)
Definition rx_byte (r : Rx) (byte : Z) : Rx * option (Z * nat) :=
  if byte =? FLAG then
    if complete r then (r, Some (body r !!! 0%nat, (len r - 3)%nat)) else (mkRx true false 0 (body r), None)
  else if negb (in_frame r) then (r, None)
  else if escaped r then
    if byte =? ESC_FLAG then (store (mkRx (in_frame r) false (len r) (body r)) FLAG, None)
    else if byte =? ESC_ESC then (store (mkRx (in_frame r) false (len r) (body r)) ESC, None)
    else (mkRx false false 0 (body r), None)
  else if byte =? ESC then (mkRx (in_frame r) true (len r) (body r), None)
  else (store r byte, None).

(** The frame, the buffer and what is left of the input. *)
Fixpoint recv_loop (r : Rx) (input : list Z) : option (Z * nat) * list Z * list Z :=
  match input with
  | [] => (None, body r, [])
  | byte :: input =>
      match rx_byte r byte with
      | (r, Some f) => (Some f, body r, input)
      | (r, None) => recv_loop r input
      end
  end.

Definition recv_frame (input buf : list Z) : option (Z * nat) * list Z * list Z :=
  recv_loop (mkRx false false 0 buf) input.

End HostFsFrame.

Import HostFsFrame.

(** * The bytes of a frame *)

Definition is_byte (x : Z) : Prop := 0 <= x < 256.

(** A sink that takes everything. *)
Definition collect (s : list Z) (b : Z) : list Z * bool := (s ++ [b], true).

Definition escape (b : Z) : list Z :=
  if b =? FLAG then [ESC; ESC_FLAG] else if b =? ESC then [ESC; ESC_ESC] else [b].

(** What a frame carries between its flags, before stuffing. *)
Definition frame_body (ty : Z) (payload : list Z) : list Z :=
  ty :: payload ++ to_le_bytes 2 (crc16 (ty :: payload)).

Definition frame_bytes (ty : Z) (payload : list Z) : list Z :=
  FLAG :: concat (map escape (frame_body ty payload)) ++ [FLAG].

Lemma crc16_parts_cons ty payload : crc16_parts [ty] payload = crc16 (ty :: payload).
Proof. done. Qed.

Lemma send_escaped_collect s b : send_escaped collect s b = (s ++ escape b, true).
Proof.
  unfold send_escaped, escape, collect, and_then. destruct (b =? FLAG); [by rewrite <- app_assoc|].
  destruct (b =? ESC); [by rewrite <- app_assoc|done].
Qed.

Lemma send_all_collect s l : send_all collect s l = (s ++ concat (map escape l), true).
Proof.
  revert s; induction l as [|b l IH]; intros s; cbn [send_all map concat]; [by rewrite app_nil_r|].
  rewrite send_escaped_collect. cbn [and_then]. by rewrite IH, app_assoc.
Qed.

Lemma send_frame_collect ty payload s :
  (length payload <= MAX_FRAME_PAYLOAD)%nat ->
  send_frame collect ty payload s = (s ++ frame_bytes ty payload, true).
Proof.
  intros Hp. unfold send_frame. rewrite (proj2 (Nat.ltb_ge _ _) Hp). unfold collect at 1. cbn [and_then].
  rewrite send_escaped_collect. cbn [and_then]. rewrite send_all_collect. cbn [and_then].
  rewrite send_all_collect. cbn [and_then]. unfold collect, frame_bytes, frame_body.
  rewrite crc16_parts_cons. cbn [map concat]. rewrite map_app, concat_app. f_equal.
  rewrite <- !app_assoc. done.
Qed.

(** * Receiving *)

(** Feeding bytes that complete no frame. *)
Definition feed (r : Rx) (l : list Z) : Rx := foldl (fun r b => fst (rx_byte r b)) r l.

Lemma rx_other r b : b <> FLAG -> snd (rx_byte r b) = None.
Proof.
  intros Hb. unfold rx_byte. rewrite (proj2 (Z.eqb_neq _ _) Hb). destruct (in_frame r); [cbn [negb]|done].
  destruct (escaped r); repeat (destruct (_ =? _)); done.
Qed.

Lemma recv_skip r l rest :
  Forall (fun b => b <> FLAG) l -> recv_loop r (l ++ rest) = recv_loop (feed r l) rest.
Proof.
  revert r; induction l as [|b l IH]; intros r Hl; [done|]. apply Forall_cons_1 in Hl as [Hb Hl].
  cbn [app recv_loop feed foldl]. pose proof (rx_other r b Hb) as Hn. destruct (rx_byte r b) as [r' o]. cbn in Hn. subst o.
  by apply IH.
Qed.

Lemma escape_no_flag b : Forall (fun x => x <> FLAG) (escape b).
Proof.
  unfold escape. destruct (Z.eqb_spec b FLAG); [by repeat constructor|].
  destruct (Z.eqb_spec b ESC); by repeat constructor.
Qed.

(** A receiver inside a frame, with the bytes it has collected. *)
Definition holding (r : Rx) (got : list Z) : Prop :=
  in_frame r = true /\ escaped r = false /\ len r = length got /\ take (len r) (body r) = got /\
  length (body r) = MAX_BODY.

Lemma store_holding r got b :
  holding r got -> (length got < MAX_BODY)%nat -> holding (store r b) (got ++ [b]).
Proof.
  intros (H1 & H2 & H3 & H4 & H5) Hl. unfold store. rewrite H5, H3, (proj2 (Nat.ltb_lt _ _) Hl).
  unfold holding. cbn. rewrite length_insert, length_app. cbn. split_and!; try done; [lia|].
  rewrite (take_S_r _ _ b) by (apply list_lookup_insert_eq; lia).
  rewrite take_insert_ge by lia. by rewrite <- H3, H4.
Qed.

Lemma feed_escape r got b :
  holding r got -> (length got < MAX_BODY)%nat -> holding (feed r (escape b)) (got ++ [b]).
Proof.
  intros Hh Hl. pose proof Hh as (H1 & H2 & H3 & H4 & H5). unfold escape, feed.
  destruct r as [inf esc n bd]. cbn in H1, H2, H3, H4, H5. subst inf esc.
  destruct (Z.eqb_spec b FLAG) as [->|Hf]; [|destruct (Z.eqb_spec b ESC) as [->|He]].
  - cbn. by apply (store_holding (mkRx true false n bd)).
  - cbn. by apply (store_holding (mkRx true false n bd)).
  - cbn [foldl]. unfold rx_byte. cbn [in_frame escaped negb].
    rewrite (proj2 (Z.eqb_neq _ _) Hf), (proj2 (Z.eqb_neq _ _) He). cbn [fst]. by apply store_holding.
Qed.

Lemma feed_body r got l :
  holding r got -> (length got + length l <= MAX_BODY)%nat -> holding (feed r (concat (map escape l))) (got ++ l).
Proof.
  revert r got; induction l as [|b l IH]; intros r got Hh Hl; cbn [map concat]; [by rewrite app_nil_r|].
  cbn [length] in Hl. unfold feed. rewrite foldl_app. fold (feed r (escape b)).
  replace (got ++ b :: l) with ((got ++ [b]) ++ l) by by rewrite <- app_assoc.
  apply IH; [apply feed_escape; [done|lia]|rewrite length_app; cbn; lia].
Qed.

Lemma crc_bit_fits c : fits 16 c -> fits 16 (crc_bit c).
Proof.
  intros Hc. unfold crc_bit. pose proof (wrap_fits 16 (c ≪ 1) ltac:(lia)) as Hs. destruct (negb _); [|done].
  apply fits_testbit; [lia|]. split; [apply Z.lxor_nonneg; destruct Hs; split; lia|].
  intros i Hi. rewrite Z.lxor_spec, (fits_high 16 (u16 (c ≪ 1))), (fits_high 16 0x1021) by (done || lia). done.
Qed.

Lemma crc16_update_fits data c : Forall is_byte data -> fits 16 c -> fits 16 (crc16_update c data).
Proof.
  unfold crc16_update. revert c; induction data as [|b data IH]; intros c Hd Hc; [done|].
  apply Forall_cons_1 in Hd as [Hb Hd]. cbn [foldl]. apply IH; [done|].
  assert (fits 16 (Z.lxor c (b ≪ 8))) as H0.
  { assert (fits 16 (b ≪ 8)) as Hs by (rewrite Z.shiftl_mul_pow2 by lia; unfold is_byte in Hb; split; lia).
    apply fits_testbit; [lia|]. split; [apply Z.lxor_nonneg; destruct Hc, Hs; split; lia|].
    intros i Hi. by rewrite Z.lxor_spec, (fits_high 16 c), (fits_high 16 (b ≪ 8)) by (done || lia). }
  revert H0. generalize (Z.lxor c (b ≪ 8)). generalize 8%nat.
  induction n as [|n IHn]; intros z Hz; [done|]. rewrite Nat.iter_succ. by apply crc_bit_fits, IHn.
Qed.

Lemma crc16_fits data : Forall is_byte data -> fits 16 (crc16 data).
Proof. intros Hd. by apply crc16_update_fits. Qed.

(** A body that was framed is recognised. *)
Lemma complete_frame r ty payload :
  holding r (frame_body ty payload) -> (length payload <= MAX_FRAME_PAYLOAD)%nat ->
  Forall is_byte (ty :: payload) ->
  rx_byte r FLAG = (r, Some (ty, length payload)) /\ take (length payload) (drop 1 (body r)) = payload.
Proof.
  intros (H1 & H2 & H3 & H4 & H5) Hp Hb. pose proof (crc16_fits _ Hb) as Hc. unfold MAX_FRAME_PAYLOAD in Hp.
  assert (3 <= MAX_BODY)%nat as H3M by (apply Nat.leb_le; by vm_compute).
  set (m := S (length payload)) in *.
  assert (length (frame_body ty payload) = (m + 2)%nat) as Hl
    by (unfold frame_body; cbn [length]; rewrite length_app; cbn; unfold m; lia).
  assert (forall i, (i < m + 2)%nat -> body r !! i = frame_body ty payload !! i) as Hlook.
  { intros i Hi. rewrite <- H4, lookup_take_lt by lia. done. }
  assert (take m (body r) = ty :: payload) as Htake.
  { apply list_eq; intros i. destruct (decide (i < m)%nat).
    - rewrite lookup_take_lt, Hlook by lia. unfold frame_body. rewrite app_comm_cons, lookup_app_l by (cbn; lia). done.
    - rewrite !lookup_ge_None_2; [done|cbn; lia|rewrite length_take; lia]. }
  assert (forall j, (j < 2)%nat -> body r !!! (m + j)%nat = to_le_bytes 2 (crc16 (ty :: payload)) !!! j) as Hcrc.
  { intros j Hj. rewrite !list_lookup_total_alt, Hlook by lia. unfold frame_body.
    rewrite app_comm_cons, lookup_app_r by (cbn; lia). f_equal. f_equal. unfold m. cbn. lia. }
  split.
  - unfold rx_byte. rewrite Z.eqb_refl. unfold complete.
    rewrite H1, H2, H3, Hl. replace (m + 2 - 2)%nat with m by lia. rewrite Htake.
    replace (m + 2 - 1)%nat with (m + 1)%nat by lia.
    pose proof (Hcrc 0%nat ltac:(lia)) as C0. rewrite Nat.add_0_r in C0. rewrite C0, (Hcrc 1%nat ltac:(lia)).
    replace [_; _] with (to_le_bytes 2 (crc16 (ty :: payload))) by done.
    rewrite from_to_le_bytes by exact Hc. rewrite Z.eqb_refl.
    rewrite (proj2 (Nat.leb_le 3 (m + 2))), (proj2 (Nat.leb_le (m + 2) MAX_BODY)) by (unfold m in *; lia). cbn [andb negb].
    do 3 f_equal; [|unfold m; lia].
    rewrite list_lookup_total_alt, Hlook by lia. done.
  - rewrite take_drop_commute. change (1 + length payload)%nat with m. by rewrite Htake.
Qed.

(** The state in which a flag leaves the receiver, when it completes no
    frame. *)
Lemma rx_flag_reset r : complete r = false -> rx_byte r FLAG = (mkRx true false 0 (body r), None).
Proof. intros H. unfold rx_byte. by rewrite Z.eqb_refl, H. Qed.

Lemma length_store r b : length (body (store r b)) = length (body r).
Proof. unfold store. destruct (_ <? _)%nat; cbn; [apply length_insert|done]. Qed.

Lemma rx_byte_body r b : length (body (fst (rx_byte r b))) = length (body r).
Proof.
  unfold rx_byte. destruct (b =? FLAG); [by destruct (complete r)|]. destruct (in_frame r); cbn [negb]; [|done].
  destruct (escaped r).
  - destruct (b =? ESC_FLAG); [apply (length_store (mkRx _ _ _ _))|].
    destruct (b =? ESC_ESC); [apply (length_store (mkRx _ _ _ _))|done].
  - destruct (b =? ESC); [done|]. apply length_store.
Qed.

(** A sent frame is received from any state that its opening flag does not
    complete. *)
Lemma recv_sent r ty payload rest :
  length (body r) = MAX_BODY -> complete r = false ->
  (length payload <= MAX_FRAME_PAYLOAD)%nat -> Forall is_byte (ty :: payload) ->
  exists buf, recv_loop r (frame_bytes ty payload ++ rest) = (Some (ty, length payload), buf, rest) /\
    take (length payload) (drop 1 buf) = payload.
Proof.
  intros Hlen Hc Hp Hb. unfold frame_bytes. cbn [app recv_loop]. rewrite (rx_flag_reset r Hc).
  rewrite <- app_assoc, recv_skip.
  - set (r1 := feed _ _).
    assert (3 <= MAX_BODY)%nat by (apply Nat.leb_le; by vm_compute).
    assert (holding r1 (frame_body ty payload)) as Hh.
    { apply (feed_body _ []); [by split_and!|].
      unfold frame_body. cbn [length]. rewrite length_app. unfold MAX_FRAME_PAYLOAD in Hp. cbn. lia. }
    destruct (complete_frame r1 ty payload Hh Hp Hb) as [E1 E2].
    cbn [app recv_loop]. rewrite E1. by exists (body r1).
  - apply Forall_concat, Forall_fmap. apply Forall_forall. intros b _. apply escape_no_flag.
Qed.

Lemma recv_app r l1 l2 :
  recv_loop r (l1 ++ l2) =
  match recv_loop r l1 with
  | (Some f, buf, rest) => (Some f, buf, rest ++ l2)
  | (None, _, _) => recv_loop (feed r l1) l2
  end.
Proof.
  revert r; induction l1 as [|b l1 IH]; intros r; [done|]. cbn [app recv_loop feed foldl].
  destruct (rx_byte r b) as [r' [f|]]; [done|]. cbn [fst]. apply IH.
Qed.

Lemma feed_body_length r l : length (body (feed r l)) = length (body r).
Proof.
  unfold feed. revert r; induction l as [|b l IH]; intros r; [done|]. cbn [foldl]. by rewrite IH, rx_byte_body.
Qed.

(** The buffer holds a checked frame of type [ty] with [n] payload bytes. *)
Definition checked (buf : list Z) (ty : Z) (n : nat) : Prop :=
  ty = buf !!! 0%nat /\ (n <= MAX_FRAME_PAYLOAD)%nat /\
  crc16 (take (S n) buf) = from_le_bytes [buf !!! S n; buf !!! S (S n)].

Lemma recv_checked r l ty n buf rest : recv_loop r l = (Some (ty, n), buf, rest) -> checked buf ty n.
Proof.
  revert r; induction l as [|b l IH]; intros r E; [done|]. cbn [recv_loop] in E.
  destruct (rx_byte r b) as [r' [f|]] eqn:Eb; [|by eapply IH].
  injection E as -> <- _. unfold rx_byte in Eb. destruct (b =? FLAG) eqn:Ef.
  - destruct (complete r) eqn:Ec; [|done]. injection Eb as <- <- <-. unfold complete in Ec.
    rewrite !andb_true_iff, !Nat.leb_le, Z.eqb_eq in Ec. destruct Ec as ((((_ & _) & C3) & C4) & C5).
    unfold checked, MAX_FRAME_PAYLOAD. split; [done|]. split; [lia|].
    replace (S (len r - 3)) with (len r - 2)%nat by lia.
    replace (S (len r - 2)) with (len r - 1)%nat by lia. done.
  - pose proof (rx_other r b) as Ho. unfold rx_byte in Ho. rewrite Ef, Eb in Ho.
    apply Z.eqb_neq in Ef. by specialize (Ho Ef).
Qed.

(** C32: HostFS frames survive a noisy line.  A frame sent after any noise
    is received whole, with its type and payload and nothing read past its
    closing flag, unless the receiver found a complete frame with a valid
    CRC in the noise itself; and nothing is ever returned whose CRC does
    not match. *)
Theorem frame_resync noise ty payload rest buf :
  length buf = MAX_BODY -> (length payload <= MAX_FRAME_PAYLOAD)%nat -> Forall is_byte (ty :: payload) ->
  let '(sent, ok) := send_frame collect ty payload [] in
  ok = true /\
  ((exists f buf' left, recv_frame (noise ++ [FLAG]) buf = (Some f, buf', left)) \/
   exists buf', recv_frame (noise ++ sent ++ rest) buf = (Some (ty, length payload), buf', rest) /\
     take (length payload) (drop 1 buf') = payload) /\
  (forall input f n buf' left, recv_frame input buf = (Some (f, n), buf', left) -> checked buf' f n).
Proof.
  intros Hbuf Hp Hb. rewrite send_frame_collect by done. cbn [app]. split; [done|]. split.
  - unfold recv_frame. rewrite (recv_app _ noise [FLAG]), (recv_app _ noise (frame_bytes ty payload ++ rest)). set (r := mkRx false false 0 buf).
    destruct (recv_loop r noise) as [[[f|] b1] l1] eqn:E; [by left; eexists _, _, _|].
    destruct (complete (feed r noise)) eqn:Ec.
    + left. cbn [recv_loop]. unfold rx_byte. rewrite Z.eqb_refl, Ec. by eexists _, _, _.
    + right. apply recv_sent; [by rewrite feed_body_length|done..].
  - intros input f n buf' left E. by eapply recv_checked.
Qed.

Lemma frame_resync_witness :
  let buf := replicate MAX_BODY 0 in
  let noise := [FLAG; 0x41; ESC; 0x00; 0x11] in
  let '(sent, ok) := send_frame collect 0x42 [0x7e; 0x7d; 0; 255] [] in
  exists buf', recv_frame (noise ++ sent ++ [1; 2]) buf = (Some (0x42, 4%nat), buf', [1; 2]) /\
    take 4 (drop 1 buf') = [0x7e; 0x7d; 0; 255].
Proof.
  intros buf noise.
  assert (length buf = MAX_BODY) as Hl by apply length_replicate.
  assert (length [0x7e; 0x7d; 0; 255] <= MAX_FRAME_PAYLOAD)%nat as Hp by (apply Nat.leb_le; by vm_compute).
  assert (Forall is_byte (0x42 :: [0x7e; 0x7d; 0; 255])) as Hb by (repeat constructor; lia).
  pose proof (frame_resync noise 0x42 [0x7e; 0x7d; 0; 255] [1; 2] buf Hl Hp Hb) as H.
  destruct (send_frame collect 0x42 [0x7e; 0x7d; 0; 255] []) as [sent ok]. destruct H as (_ & [H|H] & _); [|exact H].
  exfalso. destruct H as (f & b & l & E). vm_compute in E. discriminate E.
Defined.
