(* ===== verification/Phys.v ===== *)
(** The physical page allocator of the metal backend
    (arch-metal/src/phys_mm.rs): reference counts of physical pages, the
    general allocator, contiguous runs, and the buffers reserved for ISA DMA.

    The table [PAGE_REFS] is a function of the page number; an index outside
    it is a panic, [None].  Page numbers are [u64] and are cut to the 32 bits
    of [usize] where the source casts them. *)

From Stdlib Require Import ZArith Lia Bool.
From stdpp Require Import base option list numbers sets relations.
From S2P Require Import Prelude.

Module Phys.

Definition PAGE_SIZE : Z := 4096.
Definition MAX_PAGES : Z := 64 * 1024.
Definition RESERVED : Z := 255.
(** Pages below this one, the first MB, are never allocated. *)
Definition LOW_PAGES : Z := 256.

Definition DMA_MAX_PAGE : Z := 0x1000000 / PAGE_SIZE.
Definition DMA_POOL_PAGES : Z := 0x10000 / PAGE_SIZE.
Definition DMA_BUF_8BIT_PAGES : Z := 0x10000 / PAGE_SIZE.
Definition DMA_BUF_16BIT_PAGES : Z := 0x20000 / PAGE_SIZE.
Definition DMA_BUFS_PAGES : Z := 4 * DMA_BUF_16BIT_PAGES + 4 * DMA_BUF_8BIT_PAGES.

Record PhysMm := mk {
  page_refs : Z -> Z; next_free : Z; dma_pool_start : Z; dma_pool_busy : bool; dma_bufs_base : Z
}.

Definition upd (r : Z -> Z) (p v : Z) : Z -> Z := fun q => if q =? p then v else r q.
Definition set_refs (s : PhysMm) r := mk r (next_free s) (dma_pool_start s) (dma_pool_busy s) (dma_bufs_base s).
Definition set_ref (s : PhysMm) (p v : Z) : PhysMm := set_refs s (upd (page_refs s) p v).

(** [for page in low..high { if (page as usize) < MAX_PAGES { PAGE_REFS[..] = v } }] *)
Definition mark_pages (v low high : Z) (r : Z -> Z) : Z -> Z :=
  foldl (fun r page => if u32 page <? MAX_PAGES then upd r (u32 page) v else r) r (seqZ low (high - low)).

(** [iter_mut().skip(start).take(n)] set to [v]. *)
Definition fill_pages (v start n : Z) (r : Z -> Z) : Z -> Z :=
  fun p => if (start <=? p) && (p <? Z.min (start + n) MAX_PAGES) then v else r p.

Record MultibootMmapEntry := mkEntry { base : Z; length_ : Z; typ : Z }.

Definition init_entry (r : Z -> Z) (e : MultibootMmapEntry) : Z -> Z :=
  if negb (typ e =? 1) then r
  else mark_pages 0 (div_ceil (base e) PAGE_SIZE) (u64 (base e + length_ e) / PAGE_SIZE) r.

Definition init_phys_mm (s : PhysMm) (mmap_entries : list MultibootMmapEntry) (mmap_count kernel_low kernel_high : Z) : PhysMm :=
  let r := fun _ : Z => RESERVED in
  let r := foldl init_entry r (take (Z.to_nat mmap_count) mmap_entries) in
  let r := fill_pages RESERVED 0 LOW_PAGES r in
  let r := mark_pages 1 kernel_low kernel_high r in
  mk r (u32 kernel_high) (dma_pool_start s) (dma_pool_busy s) (dma_bufs_base s).

(** [(p..p + n).all(|i| PAGE_REFS[i] == 0)] *)
Definition all_free (r : Z -> Z) (p n : Z) : bool := forallb (fun i => r i =? 0) (seqZ p n).

(** The [while] loops of [reserve_dma_regions]: [pages] free pages at a
    multiple of [align], below 16 MB. *)
Fixpoint find_dma (fuel : nat) (r : Z -> Z) (pages align p : Z) : option Z :=
  match fuel with
  | O => None
  | S n =>
      if p + pages <=? Z.min DMA_MAX_PAGE MAX_PAGES then
        if negb (p mod align =? 0) then find_dma n r pages align (p + 1)
        else if all_free r p pages then Some p
        else find_dma n r pages align (p + align)
      else None
  end.

Definition reserve (r : Z -> Z) (pages align : Z) : Z * (Z -> Z) :=
  match find_dma (Z.to_nat DMA_MAX_PAGE) r pages align LOW_PAGES with
  | Some p => (p, fill_pages RESERVED p pages r)
  | None => (0, r)
  end.

Definition reserve_dma_regions (s : PhysMm) : PhysMm :=
  let '(pool, r) := reserve (page_refs s) DMA_POOL_PAGES DMA_POOL_PAGES in
  let '(bufs, r) := reserve r DMA_BUFS_PAGES DMA_BUF_16BIT_PAGES in
  mk r (next_free s) pool false bufs.

Definition mark_reserved (s : PhysMm) (low_page high_page : Z) : PhysMm :=
  set_refs s (mark_pages RESERVED low_page high_page (page_refs s)).
Definition mark_used (s : PhysMm) (low_page high_page : Z) : PhysMm :=
  set_refs s (mark_pages 1 low_page high_page (page_refs s)).

(** The loop of [alloc_phys_page]; [None] when the fuel is used up, [Some
    None] when every page was tried. *)
Fixpoint alloc_loop (fuel : nat) (r : Z -> Z) (start page : Z) : option (option Z) :=
  match fuel with
  | O => None
  | S n =>
      let page := if MAX_PAGES <=? page then LOW_PAGES else page in
      if r page =? 0 then Some (Some page)
      else let page := page + 1 in if page =? start then Some None else alloc_loop n r start page
  end.

Definition alloc_phys_page (s : PhysMm) : option (PhysMm * option Z) :=
  found ← alloc_loop (Z.to_nat MAX_PAGES) (page_refs s) (next_free s) (next_free s);
  Some match found with
       | Some page =>
           (mk (upd (page_refs s) page 1) (page + 1) (dma_pool_start s) (dma_pool_busy s) (dma_bufs_base s), Some page)
       | None => (s, None)
       end.

Section zero_page.

(** The page of the kernel's [ZERO_PAGE]. *)
Context (zero_page : Z).

Definition is_zero_page (page : Z) : bool := page =? zero_page.

Definition free_phys_page (s : PhysMm) (page : Z) : option PhysMm :=
  if negb (u32 page <? MAX_PAGES) then None
  else if is_zero_page page then Some s
  else
    let count := page_refs s (u32 page) in
    if negb (0 <? count) then None
    else if count =? RESERVED then Some s
    else Some (set_ref s (u32 page) (count - 1)).

Definition inc_shared_count (s : PhysMm) (page : Z) : option (PhysMm * bool) :=
  if is_zero_page page then Some (s, true)
  else if MAX_PAGES <=? u32 page then Some (s, false)
  else
    let count := page_refs s (u32 page) in
    if (count =? 0) || (count =? RESERVED) then Some (s, false)
    else if u8 (count + 1) =? RESERVED then None
    else Some (set_ref s (u32 page) (count + 1), true).

Definition get_ref_count (s : PhysMm) (page : Z) : Z :=
  if is_zero_page page then RESERVED
  else if MAX_PAGES <=? u32 page then RESERVED else page_refs s (u32 page).

End zero_page.

Definition is_shared (s : PhysMm) (page : Z) : bool :=
  if MAX_PAGES <=? u32 page then false
  else let count := page_refs s (u32 page) in (1 <? count) && negb (count =? RESERVED).

Definition dma_channel_buf (s : PhysMm) (ch : Z) : Z :=
  if (dma_bufs_base s =? 0) || (8 <=? ch) then 0
  else
    let off := if 4 <=? ch then (ch - 4) * DMA_BUF_16BIT_PAGES
               else 4 * DMA_BUF_16BIT_PAGES + ch * DMA_BUF_8BIT_PAGES in
    dma_bufs_base s + off.

(** The [while] loop of [alloc_contig]. *)
Fixpoint contig_loop (fuel : nat) (r : Z -> Z) (num_pages start : Z) : option Z :=
  match fuel with
  | O => None
  | S n =>
      if u32 (start + num_pages) <=? MAX_PAGES then
        if all_free r start (u32 (start + num_pages) - start) then Some start
        else contig_loop n r num_pages (start + 1)
      else None
  end.

Definition alloc_contig (s : PhysMm) (num_pages : Z) : PhysMm * option Z :=
  if num_pages =? 0 then (s, None)
  else
    match contig_loop (Z.to_nat (MAX_PAGES + 1)) (page_refs s) num_pages LOW_PAGES with
    | Some start => (set_refs s (fill_pages RESERVED start num_pages (page_refs s)), Some start)
    | None => (s, None)
    end.

Definition alloc_phys_contig (s : PhysMm) (num_pages boundary_log2 : Z) : PhysMm * option Z :=
  if boundary_log2 =? 0 then alloc_contig s num_pages
  else if (dma_pool_start s =? 0) || dma_pool_busy s || (num_pages =? 0) || (DMA_POOL_PAGES <? num_pages) then (s, None)
  else (mk (page_refs s) (next_free s) (dma_pool_start s) true (dma_bufs_base s), Some (dma_pool_start s)).

Definition free_phys_contig (s : PhysMm) (start_page num_pages : Z) : PhysMm :=
  if u32 start_page =? dma_pool_start s then mk (page_refs s) (next_free s) (dma_pool_start s) false (dma_bufs_base s)
  else if (LOW_PAGES <=? u32 start_page) && (sat_add U32_MAX (u32 start_page) num_pages <=? MAX_PAGES) then
    set_refs s (fill_pages 0 (u32 start_page) num_pages (page_refs s))
  else s.

Definition free_page_count (s : PhysMm) : Z :=
  Z.of_nat (length (List.filter (fun p => page_refs s p =? 0) (seqZ 0 MAX_PAGES))).

End Phys.

Import Phys.

(** * The search for a page *)

Ltac pages := unfold MAX_PAGES, LOW_PAGES, DMA_MAX_PAGE, DMA_POOL_PAGES, DMA_BUFS_PAGES, DMA_BUF_16BIT_PAGES,
  DMA_BUF_8BIT_PAGES, PAGE_SIZE in *; change (0x1000000 / 4096) with 4096 in *; change (0x10000 / 4096) with 16 in *;
  change (0x20000 / 4096) with 32 in *.

(** The second half of the search, below the page it started from. *)
Lemma alloc_loop_low n r start page :
  LOW_PAGES <= page < start -> start <= MAX_PAGES -> start - page <= Z.of_nat n ->
  match alloc_loop n r start page with
  | Some (Some p) => page <= p < start /\ r p = 0
  | Some None => forall q, page <= q < start -> r q <> 0
  | None => False
  end.
Proof.
  revert page. induction n as [|n IH]; intros page Hp Hs Hn; [lia|]. cbn [alloc_loop].
  rewrite (proj2 (Z.leb_gt MAX_PAGES page)) by lia. destruct (Z.eqb_spec (r page) 0); [lia|].
  destruct (Z.eqb_spec (page + 1) start).
  - intros q Hq. assert (q = page) as -> by lia. done.
  - specialize (IH (page + 1) ltac:(lia) Hs ltac:(lia)). destruct (alloc_loop _ _ _ _) as [[p|]|]; [lia| |done].
    intros q Hq. destruct (decide (q = page)) as [->|]; [done|apply IH; lia].
Qed.

(** The whole search. *)
Lemma page_loop_spec n r start page :
  LOW_PAGES < start -> start <= page <= MAX_PAGES -> MAX_PAGES - page + (start - LOW_PAGES) <= Z.of_nat n ->
  match alloc_loop n r start page with
  | Some (Some p) => LOW_PAGES <= p < MAX_PAGES /\ r p = 0
  | Some None => forall q, page <= q < MAX_PAGES \/ LOW_PAGES <= q < start -> r q <> 0
  | None => False
  end.
Proof.
  revert page. induction n as [|n IH]; intros page Hlow Hp Hn; [lia|].
  destruct (decide (page = MAX_PAGES)) as [->|].
  - assert (alloc_loop (S n) r start MAX_PAGES = alloc_loop (S n) r start LOW_PAGES) as -> by done.
    pose proof (alloc_loop_low (S n) r start LOW_PAGES ltac:(lia) ltac:(lia) ltac:(lia)) as Hl.
    destruct (alloc_loop _ _ _ _) as [[p|]|]; [split; [lia|apply Hl]| |done]. intros q [?|?]; [lia|by apply Hl].
  - cbn [alloc_loop]. rewrite (proj2 (Z.leb_gt MAX_PAGES page)) by lia. destruct (Z.eqb_spec (r page) 0); [split; [lia|done]|].
    destruct (Z.eqb_spec (page + 1) start); [lia|].
    specialize (IH (page + 1) Hlow ltac:(lia) ltac:(lia)). destruct (alloc_loop _ _ _ _) as [[p|]|]; [done| |done].
    intros q Hq. destruct (decide (q = page)) as [->|]; [done|apply IH; lia].
Qed.

Lemma alloc_page_spec s :
  LOW_PAGES < next_free s <= MAX_PAGES ->
  exists s' found, alloc_phys_page s = Some (s', found) /\ LOW_PAGES < next_free s' <= MAX_PAGES /\
  match found with
  | Some p => LOW_PAGES <= p < MAX_PAGES /\ page_refs s p = 0 /\ page_refs s' p = 1 /\
      (forall q, q <> p -> page_refs s' q = page_refs s q)
  | None => s' = s /\ forall q, LOW_PAGES <= q < MAX_PAGES -> page_refs s q <> 0
  end.
Proof.
  intros Hn. pose proof (page_loop_spec (Z.to_nat MAX_PAGES) (page_refs s) (next_free s) (next_free s)
    ltac:(lia) ltac:(lia) ltac:(pages; lia)) as Hl.
  unfold alloc_phys_page. destruct (alloc_loop _ _ _ _) as [[p|]|]; [| |done]; cbn [mbind option_bind];
    (eexists _, _; split; [reflexivity|]); cbn.
  - destruct Hl as [Hp H0]. split; [pages; lia|]. split; [done|]. split; [done|]. unfold upd. rewrite Z.eqb_refl. split; [done|].
    intros q Hq. by destruct (Z.eqb_spec q p).
  - split; [done|]. split; [done|]. intros q Hq. apply Hl. lia.
Qed.

Lemma alloc_page_pool s s' found :
  alloc_phys_page s = Some (s', found) -> dma_pool_start s' = dma_pool_start s /\ dma_pool_busy s' = dma_pool_busy s.
Proof.
  unfold alloc_phys_page. generalize (alloc_loop (Z.to_nat MAX_PAGES) (page_refs s) (next_free s) (next_free s)) as o.
  intros [[p|]|]; cbn; intros Ha; by simplify_eq.
Qed.

(** A page is found whenever there is one.  With the search position the
    boot code and every allocation leave behind it, [alloc_phys_page] ends; it
    gives a page above the first MB that had no references and now has one,
    changes no other count, and reports exhaustion only when no page above the
    first MB is free. *)
Theorem alloc_page_complete s :
  LOW_PAGES < next_free s <= MAX_PAGES ->
  exists s' found, alloc_phys_page s = Some (s', found) /\ LOW_PAGES < next_free s' <= MAX_PAGES /\
  match found with
  | Some p => LOW_PAGES <= p < MAX_PAGES /\ page_refs s p = 0 /\ page_refs s' p = 1 /\
      (forall q, q <> p -> page_refs s' q = page_refs s q)
  | None => s' = s /\ forall q, LOW_PAGES <= q < MAX_PAGES -> page_refs s q <> 0
  end.
Proof. apply alloc_page_spec. Qed.

Definition booted : PhysMm :=
  init_phys_mm (mk (fun _ => 0) 0 0 false 0) [mkEntry 0x100000 0x500000 1] 1 256 0x200.

Lemma alloc_page_complete_witness :
  exists s', alloc_phys_page booted = Some (s', Some 0x200) /\ page_refs s' 0x200 = 1.
Proof.
  destruct (alloc_page_complete booted ltac:(vm_compute; split; [reflexivity|discriminate])) as (s'&found&Ha&_&Hf).
  assert (found = Some 0x200) as ->.
  { apply (f_equal (fmap snd)) in Ha. cbn [fmap option_fmap option_map snd] in Ha.
    transitivity (default None (snd <$> alloc_phys_page booted)); [by rewrite Ha|vm_compute; reflexivity]. }
  exists s'. split; [exact Ha|]. apply Hf.
Defined.

(** * Who holds a page *)

Lemma u32_page p : 0 <= p < MAX_PAGES -> u32 p = p.
Proof. intros Hp. pages. pow2. apply Z.mod_small. lia. Qed.

Lemma all_free_spec r p n : all_free r p n = true <-> forall i, p <= i < p + n -> r i = 0.
Proof.
  unfold all_free. rewrite forallb_forall. split.
  - intros H i Hi. apply Z.eqb_eq, H. apply list_elem_of_In, elem_of_seqZ. lia.
  - intros H i Hi%list_elem_of_In%elem_of_seqZ. apply Z.eqb_eq, H. lia.
Qed.

Lemma all_free_false r p n : all_free r p n = false -> exists i, p <= i < p + n /\ r i <> 0.
Proof.
  intros Ha%not_true_iff_false. unfold all_free in Ha. rewrite forallb_forall in Ha.
  destruct (Exists_dec (fun i => r i <> 0) (seqZ p n)) as [(i&Hi%elem_of_seqZ&Hne)%Exists_exists|Hno].
  - exists i. split; [lia|done].
  - exfalso. apply Ha. intros i Hi%list_elem_of_In. apply Z.eqb_eq.
    destruct (decide (r i = 0)); [done|]. exfalso. apply Hno, Exists_exists. by exists i.
Qed.

Lemma contig_loop_spec fuel r n start :
  0 < n <= MAX_PAGES -> LOW_PAGES <= start <= MAX_PAGES -> MAX_PAGES + 1 - start <= Z.of_nat fuel ->
  match contig_loop fuel r n start with
  | Some p => start <= p /\ p + n <= MAX_PAGES /\ (forall i, p <= i < p + n -> r i = 0)
  | None => forall p, start <= p -> p + n <= MAX_PAGES -> exists i, p <= i < p + n /\ r i <> 0
  end.
Proof.
  intros Hn. revert start. induction fuel as [|fuel IH]; intros start Hs Hf; [lia|]. cbn [contig_loop].
  assert (u32 (start + n) = start + n) as -> by (pages; pow2; apply Z.mod_small; lia).
  destruct (Z.leb_spec (start + n) MAX_PAGES); [|intros p ? ?; lia].
  replace (start + n - start) with n by lia. destruct (all_free r start n) eqn:Ha.
  - split; [lia|]. split; [lia|]. by apply all_free_spec.
  - apply all_free_false in Ha as Hbad.
    specialize (IH (start + 1) ltac:(pages; lia) ltac:(lia)). destruct (contig_loop _ _ _ _) as [p|]; [split; [lia|tauto]|].
    intros p Hp Hpn. destruct (decide (p = start)) as [->|]; [done|]. apply IH; lia.
Qed.

Lemma fill_pages_spec v start n r p :
  0 <= start -> start + n <= MAX_PAGES ->
  fill_pages v start n r p = if bool_decide (start <= p < start + n) then v else r p.
Proof.
  intros H0 Hn. unfold fill_pages. destruct (Z.leb_spec start p), (Z.ltb_spec p (Z.min (start + n) MAX_PAGES));
    case_bool_decide; cbn [andb]; done || lia.
Qed.

(** A run of physically contiguous pages, by its first page and its length. *)
Definition run_pages (r : Z * Z) : list Z := seqZ r.1 r.2.
Definition in_runs (runs : list (Z * Z)) (p : Z) : Prop := p ∈ runs ≫= run_pages.

Lemma in_runs_cons r runs p : in_runs (r :: runs) p <-> r.1 <= p < r.1 + r.2 \/ in_runs runs p.
Proof. unfold in_runs. cbn [mbind list_bind]. rewrite elem_of_app. unfold run_pages. rewrite elem_of_seqZ. done. Qed.

Lemma in_runs_perm runs runs' p : runs ≡ₚ runs' -> in_runs runs p <-> in_runs runs' p.
Proof. intros H. unfold in_runs. by rewrite H. Qed.

Section ownership.

(** The page of [ZERO_PAGE], and the allocator as the boot code leaves it. *)
Context (zero_page : Z) (b : PhysMm).

(** Clients in the metal kernel: [h p] is the number of references to page [p]
    that the kernel and the address spaces hold, [runs] are the contiguous runs
    that drivers hold. *)
Definition clients : Type := PhysMm * (Z -> Z) * list (Z * Z).

(** A holder of a page may share or release it; anyone may try to share or
    release a reserved page or the zero page, which has no effect; a driver
    returns a run it holds, whole. *)
Inductive phys_step : clients -> clients -> Prop :=
  | step_alloc s h rs s' p : alloc_phys_page s = Some (s', Some p) -> phys_step (s, h, rs) (s', upd h p (h p + 1), rs)
  | step_exhausted s h rs s' : alloc_phys_page s = Some (s', None) -> phys_step (s, h, rs) (s', h, rs)
  | step_share s h rs s' p : 0 <= p < MAX_PAGES -> p <> zero_page -> 0 < h p ->
      inc_shared_count zero_page s p = Some (s', true) -> phys_step (s, h, rs) (s', upd h p (h p + 1), rs)
  | step_share_reserved s h rs s' p : 0 <= p < MAX_PAGES -> page_refs s p = RESERVED \/ p = zero_page ->
      fst <$> inc_shared_count zero_page s p = Some s' -> phys_step (s, h, rs) (s', h, rs)
  | step_free s h rs s' p : 0 <= p < MAX_PAGES -> p <> zero_page -> 0 < h p ->
      free_phys_page zero_page s p = Some s' -> phys_step (s, h, rs) (s', upd h p (h p - 1), rs)
  | step_free_reserved s h rs s' p : 0 <= p < MAX_PAGES -> page_refs s p = RESERVED \/ p = zero_page ->
      free_phys_page zero_page s p = Some s' -> phys_step (s, h, rs) (s', h, rs)
  | step_contig s h rs n bd s' start : 0 <= n <= MAX_PAGES -> alloc_phys_contig s n bd = (s', Some start) ->
      phys_step (s, h, rs) (s', h, (start, n) :: rs)
  | step_contig_fails s h rs n bd s' : 0 <= n <= MAX_PAGES -> alloc_phys_contig s n bd = (s', None) ->
      phys_step (s, h, rs) (s', h, rs)
  | step_free_contig s h rs rs' start n : rs ≡ₚ (start, n) :: rs' ->
      phys_step (s, h, rs) (free_phys_contig s start n, h, rs').

(** A run a driver holds: pages above the first MB that were not reserved at
    boot, or the front of the pool. *)
Definition run_ok (s : PhysMm) (r : Z * Z) : Prop :=
  LOW_PAGES <= r.1 /\ 0 < r.2 /\ r.1 + r.2 <= MAX_PAGES /\
  if r.1 =? dma_pool_start b then r.2 <= DMA_POOL_PAGES /\ dma_pool_busy s = true
  else forall p, r.1 <= p < r.1 + r.2 -> page_refs b p <> RESERVED.

(** What is true of the pool the boot code reserved. *)
Definition pool_ok : Prop :=
  dma_pool_start b <> 0 -> LOW_PAGES <= dma_pool_start b /\ dma_pool_start b + DMA_POOL_PAGES <= MAX_PAGES /\
  forall p, dma_pool_start b <= p < dma_pool_start b + DMA_POOL_PAGES -> page_refs b p = RESERVED.

(** A page's count is the number of its holders; it is marked reserved exactly
    when it was at boot or lies in a held run, and then nobody else holds it;
    the held runs do not overlap. *)
Record owned (s : PhysMm) (h : Z -> Z) (runs : list (Z * Z)) : Prop := {
  own_next : LOW_PAGES < next_free s <= MAX_PAGES;
  own_pool : dma_pool_start s = dma_pool_start b;
  own_count p : 0 <= p < MAX_PAGES ->
    0 <= page_refs s p <= RESERVED /\ h p = (if page_refs s p =? RESERVED then 0 else page_refs s p);
  own_reserved p : 0 <= p < MAX_PAGES -> page_refs s p = RESERVED <-> page_refs b p = RESERVED \/ in_runs runs p;
  own_runs : Forall (run_ok s) runs;
  own_disjoint : NoDup (runs ≫= run_pages);
  own_zero : 0 <= zero_page < MAX_PAGES -> page_refs s zero_page = page_refs b zero_page }.

Lemma run_ok_same s s' runs : dma_pool_busy s' = dma_pool_busy s -> Forall (run_ok s) runs -> Forall (run_ok s') runs.
Proof. intros Hb Hok. eapply Forall_impl; [exact Hok|]. intros r (?&?&?&Hr). unfold run_ok. rewrite Hb. done. Qed.

(** One count and one holder's number change together. *)
Lemma owned_upd s s' h runs p v :
  owned s h runs -> LOW_PAGES < next_free s' <= MAX_PAGES -> dma_pool_start s' = dma_pool_start s ->
  dma_pool_busy s' = dma_pool_busy s -> 0 <= v < RESERVED -> 0 <= p < MAX_PAGES -> page_refs s p <> RESERVED -> p <> zero_page ->
  (forall q, page_refs s' q = upd (page_refs s) p v q) -> owned s' (upd h p v) runs.
Proof.
  intros [Hn Hpl Hc Hr Hok Hd Hz] Hn' Hpl' Hb Hv Hp Hne Hpz Hs.
  assert (forall q, q <> p -> page_refs s' q = page_refs s q) as Hother.
  { intros q Hq. rewrite Hs. unfold upd. by rewrite (proj2 (Z.eqb_neq q p) Hq). }
  assert (page_refs s' p = v) as Hself by (rewrite Hs; unfold upd; by rewrite Z.eqb_refl).
  constructor; [done|by rewrite Hpl'| | |by eapply run_ok_same|done|].
  - intros q Hq. unfold upd. destruct (Z.eqb_spec q p) as [->|Hqp]; [|rewrite Hother by done; by apply Hc].
    rewrite Hself. destruct (Z.eqb_spec v RESERVED); lia.
  - intros q Hq. destruct (decide (q = p)) as [->|Hqp]; [|rewrite Hother by done; by apply Hr].
    rewrite Hself. rewrite <-Hr by done. lia.
  - intros Hzr. rewrite Hother by done. by apply Hz.
Qed.

Lemma own_free_page s h runs p :
  owned s h runs -> 0 <= p < MAX_PAGES -> page_refs s p = 0 -> h p = 0 /\ page_refs b p <> RESERVED /\ ~ in_runs runs p.
Proof.
  intros Ho Hp H0. destruct (own_count s h runs Ho p Hp) as [_ ->]. pose proof (own_reserved s h runs Ho p Hp) as Hr. rewrite H0 in *.
  split; [done|]. unfold RESERVED in *. split; intros Hx; [assert (0 = 255) by tauto|assert (0 = 255) by tauto]; done.
Qed.

Hypothesis Hpool : pool_ok.

Lemma owned_contig s h runs n bd s' start :
  owned s h runs -> 0 <= n <= MAX_PAGES -> alloc_phys_contig s n bd = (s', Some start) -> 0 <= zero_page < MAX_PAGES ->
  page_refs b zero_page <> 0 ->
  (forall p, start <= p < start + n -> LOW_PAGES <= p < MAX_PAGES /\ h p = 0 /\ ~ in_runs runs p) /\
  (bd = 0 -> forall p, start <= p < start + n -> page_refs b p <> RESERVED /\ p <> zero_page) /\
  0 < n /\ owned s' h ((start, n) :: runs).
Proof.
  intros Ho Hn. pose proof Ho as [Hnf Hpl Hc Hr Hok Hd Hz]. unfold alloc_phys_contig, alloc_contig. intros Ha Hzr Hzb.
  destruct (Z.eqb_spec bd 0) as [->|Hbd].
  - destruct (Z.eqb_spec n 0); [done|].
    pose proof (contig_loop_spec (Z.to_nat (MAX_PAGES + 1)) (page_refs s) n LOW_PAGES ltac:(lia) ltac:(pages; lia) ltac:(pages; lia)) as Hl.
    destruct (contig_loop _ _ _ _) as [p0|]; [|done]. injection Ha as <- ->. destruct Hl as (Hlow&Hend&Hfree).
    assert (forall p, start <= p < start + n -> h p = 0 /\ page_refs b p <> RESERVED /\ ~ in_runs runs p) as Hf.
    { intros p Hp. apply (own_free_page s); [done|pages; lia|by apply Hfree]. }
    assert (~ start <= zero_page < start + n) as Hzo.
    { intros Hin. rewrite <-Hz in Hzb by done. by rewrite Hfree in Hzb. }
    split_and!; [|intros _ p Hp; split; [by apply Hf|lia]|lia|].
    { intros p Hp. destruct (Hf p Hp) as (?&_&?). split; [lia|done]. }
    assert (forall q, page_refs (set_refs s (fill_pages RESERVED start n (page_refs s))) q =
      if bool_decide (start <= q < start + n) then RESERVED else page_refs s q) as Hrefs.
    { intros q. cbn [set_refs page_refs]. apply fill_pages_spec; pages; lia. }
    constructor; [done|done| | | | |].
    + intros q Hq. rewrite Hrefs. case_bool_decide as Hin; [|by apply Hc]. rewrite Z.eqb_refl. split; [unfold RESERVED; lia|by apply Hf].
    + intros q Hq. rewrite Hrefs, in_runs_cons; cbn [fst snd]. case_bool_decide as Hin; [tauto|]. rewrite Hr by done. tauto.
    + constructor; [|by eapply run_ok_same]. split_and!; cbn [fst snd]; [done|lia|done|].
      destruct (Z.eqb_spec start (dma_pool_start b)) as [He|]; [|intros p Hp; by apply Hf].
      exfalso. destruct (Hpool ltac:(pages; lia)) as (_&_&Hres). destruct (Hf start ltac:(lia)) as (_&Hne&_). apply Hne, Hres.
      rewrite <-He. pages. lia.
    + cbn [mbind list_bind]. apply NoDup_app. split_and!; [apply NoDup_seqZ| |done].
      intros p Hp Hp'. apply elem_of_seqZ in Hp. by apply (Hf p Hp).
    + intros _. rewrite Hrefs, bool_decide_eq_false_2 by done. by apply Hz.
  - destruct (Z.eqb_spec (dma_pool_start s) 0) as [|Hne]; [done|]. destruct (dma_pool_busy s) eqn:Hbusy; [done|].
    destruct (Z.eqb_spec n 0); [done|]. destruct (Z.ltb_spec DMA_POOL_PAGES n); [done|]. cbn [orb] in Ha. injection Ha as <- <-.
    rewrite Hpl in Hne. destruct (Hpool Hne) as (HL&HE&Hres).
    assert (forall p, dma_pool_start s <= p < dma_pool_start s + n -> h p = 0 /\ ~ in_runs runs p) as Hf.
    { intros p Hp. rewrite Hpl in Hp. assert (page_refs b p = RESERVED) as Hb by (apply Hres; lia). split.
      - destruct (Hc p ltac:(pages; lia)) as [_ ->]. rewrite (proj2 (Hr p ltac:(pages; lia)) (or_introl Hb)). done.
      - intros ([rs0 rn0]&Hin&Hrun)%list_elem_of_bind. apply elem_of_seqZ in Hin; cbn [fst snd] in Hin.
        rewrite Forall_forall in Hok. destruct (Hok _ Hrun) as (_&_&_&Hk). cbn [fst snd] in Hk.
        destruct (_ =? _); [destruct Hk; congruence|by apply (Hk p)]. }
    split_and!; [|done|lia|].
    { intros p Hp. destruct (Hf p Hp). rewrite Hpl in Hp. split; [lia|done]. }
    constructor; [done|done|done| | | |done].
    + intros q Hq. rewrite in_runs_cons; cbn [fst snd page_refs]. rewrite Hr by done. split; [tauto|].
      intros [?|[Hin|?]]; [tauto| |tauto]. left. apply Hres. lia.
    + constructor.
      * split_and!; cbn [fst snd]; [lia|lia|lia|]. rewrite Hpl, Z.eqb_refl. done.
      * eapply Forall_impl; [exact Hok|]. intros r (?&?&?&Hk). split_and!; try done. destruct (_ =? _); [|done]. destruct Hk; congruence.
    + cbn [mbind list_bind]. apply NoDup_app. split_and!; [apply NoDup_seqZ| |done].
      intros p Hp Hp'. apply elem_of_seqZ in Hp. by apply (Hf p Hp).
Qed.

Lemma owned_free_contig s h runs rest start n :
  owned s h runs -> runs ≡ₚ (start, n) :: rest ->
  owned (free_phys_contig s start n) h rest /\
  (start <> dma_pool_start b -> forall p, start <= p < start + n -> page_refs (free_phys_contig s start n) p = 0).
Proof.
  intros [Hnf Hpl Hc Hr Hok Hd Hz] Hp. rewrite Hp in Hok, Hd. apply Forall_cons in Hok as [(HL&H0&HE&Hk) Hok].
  cbn [fst snd mbind list_bind] in *. apply NoDup_app in Hd as (_&Hd1&Hd). change (list_bind _ _ run_pages rest) with (rest ≫= run_pages) in *.
  assert (forall q, 0 <= q < MAX_PAGES -> page_refs s q = RESERVED <-> page_refs b q = RESERVED \/ start <= q < start + n \/ in_runs rest q) as Hr'.
  { intros q Hq. rewrite (Hr q Hq), (in_runs_perm _ _ q Hp), in_runs_cons. done. }
  unfold free_phys_contig. rewrite u32_page by (pages; lia). rewrite Hpl.
  destruct (Z.eqb_spec start (dma_pool_start b)) as [He|Hne].
  - split; [|done]. destruct (Hpool ltac:(pages; lia)) as (_&_&Hres). constructor; [done|done|done| | |done|done].
    + intros q Hq. cbn [page_refs]. rewrite Hr' by done. split; [|tauto]. intros [?|[Hin|?]]; [tauto| |tauto]. left. apply Hres. lia.
    + rewrite Forall_forall in Hok |- *. intros r Hin. destruct (Hok r Hin) as (H1&H2&H3&H4). split_and!; try done.
      destruct (Z.eqb_spec r.1 (dma_pool_start b)) as [He'|]; [|done]. exfalso. apply (Hd1 start).
      * apply elem_of_seqZ. cbn. lia.
      * apply list_elem_of_bind. exists r. split; [|done]. apply elem_of_seqZ. lia.
  - rewrite (proj2 (Z.leb_le LOW_PAGES start) HL). unfold sat_add. rewrite (proj2 (Z.leb_le _ MAX_PAGES)) by lia. cbn [andb].
    assert (forall q, page_refs (set_refs s (fill_pages 0 start n (page_refs s))) q =
      if bool_decide (start <= q < start + n) then 0 else page_refs s q) as Hrefs.
    { intros q. cbn [set_refs page_refs]. apply fill_pages_spec; pages; lia. }
    split; [|intros _ p Hin; by rewrite Hrefs, bool_decide_eq_true_2].
    constructor; [done|done| | |by eapply run_ok_same|done|].
    + intros q Hq. rewrite Hrefs. case_bool_decide as Hin; [|by apply Hc]. destruct (Hc q Hq) as [_ ->].
      rewrite (proj2 (Hr' q Hq)) by tauto. done.
    + intros q Hq. rewrite Hrefs. case_bool_decide as Hin; [|rewrite Hr' by done; tauto]. split; [done|].
      intros [Hb|Hb]; [by destruct (Hk q Hin)|]. exfalso. apply (Hd1 q); [apply elem_of_seqZ; cbn; lia|done].
    + intros Hzr. rewrite Hrefs. case_bool_decide as Hin; [|by apply Hz]. exfalso. apply (Hk zero_page Hin). rewrite <-Hz by done.
      apply Hr'; [done|tauto].
Qed.

Hypothesis Hzero : 0 <= zero_page < MAX_PAGES /\ page_refs b zero_page <> 0.

Lemma owned_alloc s h runs s' p : owned s h runs -> alloc_phys_page s = Some (s', Some p) ->
  owned s' (upd h p (h p + 1)) runs /\ LOW_PAGES <= p < MAX_PAGES /\
  h p = 0 /\ p <> zero_page /\ page_refs b p <> RESERVED /\ ~ in_runs runs p.
Proof.
  intros Ho Ha. pose proof (own_next _ _ _ Ho) as Hn. destruct (alloc_page_spec s Hn) as (s1&f&Ha'&Hn'&Hf). rewrite Ha in Ha'. injection Ha' as <- <-.
  destruct Hf as (Hp&H0&H1&Hrest). destruct (own_free_page s h runs p Ho ltac:(pages; lia) H0) as (Hh&Hb&Hr).
  destruct Hzero as [Hzr Hzb]. assert (p <> zero_page) as Hz.
  { intros ->. apply Hzb. by rewrite <-(own_zero _ _ _ Ho). }
  destruct (alloc_page_pool s s' _ Ha) as [Hpl Hbs]. split; [|done]. rewrite Hh. apply (owned_upd s); try done; [pages; lia|by rewrite H0|].
  intros q. unfold upd. destruct (Z.eqb_spec q p) as [->|]; [done|by apply Hrest].
Qed.

Lemma owned_free s h runs p : owned s h runs -> 0 <= p < MAX_PAGES -> p <> zero_page -> 0 < h p ->
  exists s', free_phys_page zero_page s p = Some s' /\ page_refs s' p = h p - 1 /\ owned s' (upd h p (h p - 1)) runs.
Proof.
  intros Ho Hp Hz Hh. destruct (own_count _ _ _ Ho p Hp) as [Hran Hhp]. unfold free_phys_page, is_zero_page. rewrite u32_page by done.
  rewrite (proj2 (Z.ltb_lt p MAX_PAGES)), (proj2 (Z.eqb_neq p zero_page) Hz) by lia. cbn [negb].
  destruct (Z.eqb_spec (page_refs s p) RESERVED); [lia|]. rewrite (proj2 (Z.ltb_lt 0 _)) by lia. cbn [negb].
  eexists. split; [done|]. split; [cbn; unfold upd; rewrite Z.eqb_refl; lia|]. rewrite Hhp.
  apply (owned_upd s); try done; [apply Ho|unfold RESERVED in *; lia].
Qed.

Lemma owned_step x y : phys_step x y -> owned x.1.1 x.1.2 x.2 -> owned y.1.1 y.1.2 y.2.
Proof.
  intros Hs Ho. destruct Hs as [s h rs s' p Ha|s h rs s' Ha|s h rs s' p Hp Hz Hh Ha|s h rs s' p Hp Hr Ha|s h rs s' p Hp Hz Hh Ha
    |s h rs s' p Hp Hr Ha|s h rs n bd s' start Hn Ha|s h rs n bd s' Hn Ha|s h rs rs' start n Hperm];
    cbn [fst snd] in *.
  - by eapply owned_alloc.
  - destruct (alloc_page_spec s (own_next _ _ _ Ho)) as (s1&f&Ha'&_&Hf). rewrite Ha in Ha'. injection Ha' as <- <-. by destruct Hf as [-> _].
  - destruct (own_count _ _ _ Ho p Hp) as [Hr Hhp]. unfold inc_shared_count, is_zero_page in Ha. rewrite (proj2 (Z.eqb_neq p zero_page) Hz) in Ha.
    rewrite u32_page in Ha by done. rewrite (proj2 (Z.leb_gt MAX_PAGES p)) in Ha by lia.
    destruct (Z.eqb_spec (page_refs s p) 0); [done|]. destruct (Z.eqb_spec (page_refs s p) RESERVED); [done|]. cbn [orb] in Ha.
    destruct (Z.eqb_spec (u8 (page_refs s p + 1)) RESERVED) as [|Hne]; [done|]. injection Ha as <-. rewrite Hhp.
    assert (u8 (page_refs s p + 1) = page_refs s p + 1) as Hu by (unfold RESERVED in *; pow2; apply Z.mod_small; lia).
    apply (owned_upd s); try done; [apply Ho|unfold RESERVED in *; lia].
  - enough (s' = s) as -> by done. unfold inc_shared_count, is_zero_page in Ha. destruct (Z.eqb_spec p zero_page); [by injection Ha|].
    destruct Hr as [Hr|]; [|done]. rewrite u32_page in Ha by done. rewrite Hr in Ha. destruct (MAX_PAGES <=? p); by injection Ha.
  - destruct (owned_free s h rs p Ho Hp Hz Hh) as (s1&Ha'&_&Ho'). rewrite Ha in Ha'. by injection Ha' as <-.
  - enough (s' = s) as -> by done. unfold free_phys_page, is_zero_page in Ha. rewrite u32_page in Ha by done.
    rewrite (proj2 (Z.ltb_lt p MAX_PAGES)) in Ha by lia. cbn [negb] in Ha. destruct (Z.eqb_spec p zero_page); [by injection Ha|].
    destruct Hr as [Hr|]; [|done]. rewrite Hr in Ha. by injection Ha.
  - destruct Hzero. by eapply owned_contig.
  - enough (s' = s) as -> by done. unfold alloc_phys_contig, alloc_contig in Ha.
    repeat case_match; simplify_eq; done.
  - by apply (owned_free_contig s h rs).
Qed.

End ownership.

(** * Boot *)

(** The order of kernel/src/arch/boot.rs: the memory map, the pages of the
    boot modules, the DMA regions. *)
Definition boot (entries : list MultibootMmapEntry) (kernel_low kernel_high : Z) (modules : list (Z * Z)) : PhysMm :=
  let s := init_phys_mm (mk (fun _ => 0) 0 0 false 0) entries (Z.of_nat (length entries)) kernel_low kernel_high in
  reserve_dma_regions (foldl (fun s m => mark_reserved s m.1 m.2) s modules).

Lemma mark_list v l r p :
  Forall (fun q => 0 <= q < 2 ^ 32) l ->
  foldl (fun r page => if u32 page <? MAX_PAGES then upd r (u32 page) v else r) r l p =
    if bool_decide (p ∈ l /\ p < MAX_PAGES) then v else r p.
Proof.
  intros Hall. revert r. induction Hall as [|q l Hq _ IH]; intros r; cbn [foldl].
  - rewrite bool_decide_eq_false_2; [done|]. intros [Hx _]. by apply elem_of_nil in Hx.
  - rewrite IH. assert (u32 q = q) as Hu by (apply Z.mod_small; lia). rewrite Hu.
    assert (p ∈ q :: l <-> p = q \/ p ∈ l) as Hcons by apply elem_of_cons.
    destruct (Z.ltb_spec q MAX_PAGES); unfold upd; repeat case_bool_decide; destruct (Z.eqb_spec p q) as [->|]; try done;
      exfalso; intuition lia.
Qed.

Lemma mark_pages_spec v low high r p :
  0 <= low -> high <= 2 ^ 32 ->
  mark_pages v low high r p = if bool_decide (low <= p < high /\ p < MAX_PAGES) then v else r p.
Proof.
  intros Hl Hh. unfold mark_pages. rewrite mark_list.
  - assert (bool_decide (p ∈ seqZ low (high - low) /\ p < MAX_PAGES) = bool_decide (low <= p < high /\ p < MAX_PAGES)) as ->; [|done].
    apply bool_decide_ext. rewrite elem_of_seqZ. lia.
  - apply Forall_forall. intros q Hq%elem_of_seqZ. lia.
Qed.

(** ** The DMA regions *)

Lemma find_dma_spec fuel r pages_ align p :
  0 < align -> 0 < pages_ -> 0 <= p -> DMA_MAX_PAGE - p < Z.of_nat fuel ->
  match find_dma fuel r pages_ align p with
  | Some q => p <= q /\ q + pages_ <= DMA_MAX_PAGE /\ q mod align = 0 /\ (forall i, q <= i < q + pages_ -> r i = 0)
  | None => forall q, p <= q -> q mod align = 0 -> q + pages_ <= DMA_MAX_PAGE -> exists i, q <= i < q + pages_ /\ r i <> 0
  end.
Proof.
  intros Hal Hpg. assert (Z.min DMA_MAX_PAGE MAX_PAGES = DMA_MAX_PAGE) as Hmin by done.
  revert p. induction fuel as [|fuel IH]; intros p Hp Hf; cbn [find_dma]; [intros q ? ? ?; pages; lia|].
  rewrite Hmin. destruct (Z.leb_spec (p + pages_) DMA_MAX_PAGE); [|intros q ? ? ?; lia].
  destruct (Z.eqb_spec (p mod align) 0) as [Hm|Hm]; cbn [negb].
  - destruct (all_free r p pages_) eqn:Ha; [split; [lia|]; split; [done|]; split; [done|by apply all_free_spec]|].
    specialize (IH (p + align) ltac:(lia) ltac:(lia)). destruct (find_dma _ _ _ _ _) as [q|]; [split; [lia|tauto]|].
    intros q Hq Hqm Hqe. destruct (decide (q = p)) as [->|Hne].
    + by apply all_free_false.
    + apply IH; try done. apply Z.mod_divide in Hm as [k Hk], Hqm as [k' Hk']; try lia.
      assert (k < k') by (apply (Z.mul_lt_mono_pos_r align); lia).
      assert ((k + 1) * align <= k' * align) by (apply Z.mul_le_mono_nonneg_r; lia). lia.
  - specialize (IH (p + 1) ltac:(lia) ltac:(lia)). destruct (find_dma _ _ _ _ _) as [q|]; [split; [lia|tauto]|].
    intros q Hq Hqm Hqe. apply IH; try done. destruct (decide (q = p)) as [->|]; [done|lia].
Qed.

Lemma reserve_spec r pages_ align p r' :
  0 < align -> 0 < pages_ -> reserve r pages_ align = (p, r') ->
  (p <> 0 -> LOW_PAGES <= p /\ p + pages_ <= DMA_MAX_PAGE /\ p mod align = 0 /\
    (forall q, p <= q < p + pages_ -> r q = 0 /\ r' q = RESERVED) /\ (forall q, ~ p <= q < p + pages_ -> r' q = r q)) /\
  (p = 0 -> r' = r /\
    forall q, LOW_PAGES <= q -> q mod align = 0 -> q + pages_ <= DMA_MAX_PAGE -> exists i, q <= i < q + pages_ /\ r i <> 0).
Proof.
  intros Hal Hpg. unfold reserve.
  pose proof (find_dma_spec (Z.to_nat DMA_MAX_PAGE) r pages_ align LOW_PAGES Hal Hpg ltac:(pages; lia) ltac:(pages; lia)) as Hf.
  destruct (find_dma _ _ _ _ _) as [q|]; intros [= <- <-]; split; intros Hp; try done.
  - destruct Hf as (?&?&?&Hfree). split_and!; try done.
    + intros i Hi. split; [by apply Hfree|]. unfold fill_pages.
      rewrite (proj2 (Z.leb_le q i)), (proj2 (Z.ltb_lt i _)) by (pages; lia). done.
    + intros i Hi. unfold fill_pages. destruct (Z.leb_spec q i), (Z.ltb_spec i (Z.min (q + pages_) MAX_PAGES)); cbn [andb]; done || lia.
  - destruct Hf as (?&_). pages. lia.
Qed.

Lemma reserve_keeps r pages_ align p r' q :
  0 < align -> 0 < pages_ -> reserve r pages_ align = (p, r') -> r q <> 0 -> r' q = r q.
Proof.
  intros Hal Hpg Hr Hq. destruct (reserve_spec _ _ _ _ _ Hal Hpg Hr) as [P1 P0].
  destruct (decide (p = 0)) as [Hz|Hz]; [by destruct (P0 Hz) as [-> _]|].
  destruct (P1 Hz) as (_&_&_&Hin&Hout). apply Hout. intros Hr'. by destruct (Hin q Hr').
Qed.

Lemma reserve_regions_keep s q : page_refs s q <> 0 -> page_refs (reserve_dma_regions s) q = page_refs s q.
Proof.
  intros Hq. unfold reserve_dma_regions. destruct (reserve (page_refs s) _ _) as [pool r1] eqn:E1.
  destruct (reserve r1 _ _) as [bufs r2] eqn:E2. cbn [page_refs].
  apply (reserve_keeps _ _ _ _ _ q) in E1; [|pages; lia..|done].
  rewrite (reserve_keeps r1 DMA_BUFS_PAGES DMA_BUF_16BIT_PAGES _ _ q ltac:(pages; lia) ltac:(pages; lia) E2) by (by rewrite E1). done.
Qed.

(** The pages of channel [ch]'s buffer. *)
Definition buf_pages (ch : Z) : Z := if 4 <=? ch then DMA_BUF_16BIT_PAGES else DMA_BUF_8BIT_PAGES.

(** C37: every DMA channel has a buffer ISA DMA can reach.  When the block is
    reserved, the buffers of the eight channels lie below 16 MB, each starts at
    a multiple of its own size (64 KB for the byte channels, 128 KB for the
    word channels), so that no transfer crosses a boundary; they are pairwise
    disjoint and disjoint from the shared pool, which is aligned too; all of
    them were free pages when they were taken and are reserved now, and no
    other count changed. *)
Theorem dma_buffers_legal s :
  let s' := reserve_dma_regions s in
  let pool := dma_pool_start s' in
  let buf := dma_channel_buf s' in
  (dma_bufs_base s' <> 0 -> forall ch, 0 <= ch < 8 ->
     LOW_PAGES <= buf ch /\ buf ch + buf_pages ch <= DMA_MAX_PAGE /\ buf ch mod buf_pages ch = 0 /\
     (forall q, buf ch <= q < buf ch + buf_pages ch -> page_refs s q = 0 /\ page_refs s' q = RESERVED) /\
     (forall ch', 0 <= ch' < 8 -> ch' <> ch -> buf ch + buf_pages ch <= buf ch' \/ buf ch' + buf_pages ch' <= buf ch) /\
     (pool <> 0 -> buf ch + buf_pages ch <= pool \/ pool + DMA_POOL_PAGES <= buf ch)) /\
  (pool <> 0 -> LOW_PAGES <= pool /\ pool + DMA_POOL_PAGES <= DMA_MAX_PAGE /\ pool mod DMA_POOL_PAGES = 0 /\
     forall q, pool <= q < pool + DMA_POOL_PAGES -> page_refs s q = 0 /\ page_refs s' q = RESERVED) /\
  (forall q, page_refs s q <> 0 -> page_refs s' q = page_refs s q).
Proof.
  cbn zeta. unfold reserve_dma_regions.
  destruct (reserve (page_refs s) DMA_POOL_PAGES DMA_POOL_PAGES) as [pool r1] eqn:E1.
  destruct (reserve r1 DMA_BUFS_PAGES DMA_BUF_16BIT_PAGES) as [bufs r2] eqn:E2.
  pose proof (fun q => reserve_keeps _ DMA_POOL_PAGES DMA_POOL_PAGES _ _ q ltac:(pages; lia) ltac:(pages; lia) E1) as K1.
  pose proof (fun q => reserve_keeps _ DMA_BUFS_PAGES DMA_BUF_16BIT_PAGES _ _ q ltac:(pages; lia) ltac:(pages; lia) E2) as K2.
  apply reserve_spec in E1 as [P1 _]; [|pages; lia..]. apply reserve_spec in E2 as [B1 _]; [|pages; lia..].
  cbn [page_refs dma_pool_start dma_bufs_base].
  assert (forall q, r1 q = 0 -> page_refs s q = 0) as K3.
  { intros q Hq. destruct (decide (page_refs s q = 0)); [done|]. by rewrite K1 in Hq. }
  split_and!.
  - intros Hb ch Hch. destruct (B1 Hb) as (HbL&HbE&HbM&HbIn&HbOut).
    unfold dma_channel_buf; cbn [dma_bufs_base]. rewrite (proj2 (Z.eqb_neq bufs 0) Hb).
    assert (forall c, 0 <= c < 8 -> (false || (8 <=? c)) = false) as H8 by (intros c Hc; cbn [orb]; by apply Z.leb_gt; lia).
    rewrite (H8 ch Hch). apply Z.mod_divide in HbM as [k ->]; [|pages; lia].
    assert (LOW_PAGES <= k * DMA_BUF_16BIT_PAGES) as HbL' by done.
    split_and!.
    + destruct (Z.leb_spec 4 ch); pages; lia.
    + unfold buf_pages. destruct (Z.leb_spec 4 ch); pages; lia.
    + unfold buf_pages. apply Z.mod_divide; [destruct (4 <=? ch); pages; lia|].
      destruct (Z.leb_spec 4 ch); pages; [exists (k + (ch - 4)); lia|exists (2 * k + 8 + ch); lia].
    + intros q Hq. destruct (HbIn q) as [H1 H2]; [unfold buf_pages in Hq; destruct (Z.leb_spec 4 ch); pages; lia|]. split; [by apply K3|done].
    + intros ch' Hch' Hne. rewrite (H8 ch' Hch'). unfold buf_pages. destruct (Z.leb_spec 4 ch), (Z.leb_spec 4 ch'); pages; lia.
    + intros Hpool. destruct (P1 Hpool) as (?&?&?&HpIn&_).
      destruct (decide (pool + DMA_POOL_PAGES <= k * DMA_BUF_16BIT_PAGES \/ k * DMA_BUF_16BIT_PAGES + DMA_BUFS_PAGES <= pool)) as [Hd|Hd].
      * unfold buf_pages. destruct (Z.leb_spec 4 ch); pages; lia.
      * exfalso. set (q := Z.max pool (k * DMA_BUF_16BIT_PAGES)). destruct (HpIn q) as [_ Hr]; [pages; lia|].
        destruct (HbIn q) as [Hr' _]; [pages; lia|]. rewrite Hr in Hr'. done.
  - intros Hpool. destruct (P1 Hpool) as (?&?&?&HpIn&_). split_and!; try done. intros q Hq. destruct (HpIn q Hq) as [Hf Hr].
    split; [done|]. rewrite K2 by (by rewrite Hr). done.
  - intros q Hq. rewrite K2, K1; try done. by rewrite K1.
Qed.

Lemma dma_buffers_legal_witness :
  dma_bufs_base (reserve_dma_regions booted) <> 0 /\ dma_channel_buf (reserve_dma_regions booted) 1 = 0x2B0.
Proof.
  assert (dma_bufs_base (reserve_dma_regions booted) <> 0) as Hb by (vm_compute; discriminate).
  destruct (dma_buffers_legal booted) as (H&_). destruct (H Hb 1 ltac:(lia)) as (_&_&Hal&_).
  split; [exact Hb|]. vm_compute. reflexivity.
Defined.

(** ** What is free after boot *)

Definition in_range (r : Z -> Z) : Prop := forall p, 0 <= r p <= RESERVED.

Lemma in_range_mark v low high r : 0 <= v <= RESERVED -> in_range r -> in_range (mark_pages v low high r).
Proof.
  intros Hv. unfold mark_pages. generalize (seqZ low (high - low)) as l. intros l. revert r.
  induction l as [|q l IH]; intros r Hr; cbn [foldl]; [done|]. apply IH. destruct (_ <? _); [|done].
  intros p. unfold upd. by destruct (p =? u32 q).
Qed.

Lemma in_range_fill v start n r : 0 <= v <= RESERVED -> in_range r -> in_range (fill_pages v start n r).
Proof. intros Hv Hr p. unfold fill_pages. by destruct (_ && _). Qed.

Lemma in_range_reserve r pages_ align : in_range r -> in_range (reserve r pages_ align).2.
Proof. intros Hr. unfold reserve. destruct (find_dma _ _ _ _ _); [|done]. apply in_range_fill; [unfold RESERVED; lia|done]. Qed.

Lemma boot_counts entries kl kh modules :
  in_range (page_refs (boot entries kl kh modules)) /\ next_free (boot entries kl kh modules) = u32 kh.
Proof.
  unfold boot. set (s0 := init_phys_mm _ _ _ _ _).
  assert (in_range (page_refs s0)) as H0.
  { unfold s0, init_phys_mm; cbn [page_refs]. apply in_range_mark; [unfold RESERVED; lia|].
    apply in_range_fill; [unfold RESERVED; lia|]. assert (in_range (fun _ => RESERVED)) as Hr by (intros p; unfold RESERVED; lia).
    revert Hr. generalize (fun _ : Z => RESERVED) as r. generalize (take (Z.to_nat (Z.of_nat (length entries))) entries) as es.
    induction es as [|e es IH]; intros r Hr; cbn [foldl]; [done|]. apply IH. unfold init_entry. destruct (negb _); [done|].
    apply in_range_mark; [unfold RESERVED; lia|done]. }
  assert (next_free s0 = u32 kh) as Hn by done. clearbody s0.
  assert (in_range (page_refs (foldl (fun s m => mark_reserved s m.1 m.2) s0 modules)) /\
          next_free (foldl (fun s m => mark_reserved s m.1 m.2) s0 modules) = u32 kh) as [H1 Hn1].
  { revert s0 H0 Hn. induction modules as [|m ms IH]; intros s0 H0 Hn; cbn [foldl]; [done|].
    apply IH; [|done]. apply in_range_mark; [unfold RESERVED; lia|done]. }
  set (s1 := foldl _ s0 modules) in *.
  clearbody s1. unfold reserve_dma_regions.
  pose proof (in_range_reserve (page_refs s1) DMA_POOL_PAGES DMA_POOL_PAGES H1) as H2. destruct (reserve _ _ _) as [pool r1].
  pose proof (in_range_reserve r1 DMA_BUFS_PAGES DMA_BUF_16BIT_PAGES H2) as H3. destruct (reserve r1 _ _) as [bufs r2]. done.
Qed.

(** The kernel's pages are counted at boot, and the pool is reserved. *)
Lemma boot_nonzero entries kl kh modules p :
  0 <= kl -> kl <= p < kh -> kh <= MAX_PAGES -> page_refs (boot entries kl kh modules) p <> 0.
Proof.
  intros Hkl Hp Hkh. unfold boot. set (s0 := init_phys_mm _ _ _ _ _).
  assert (page_refs s0 p <> 0) as H0.
  { unfold s0, init_phys_mm; cbn [page_refs]. rewrite mark_pages_spec, bool_decide_eq_true_2 by (pages; lia). done. }
  clearbody s0. enough (page_refs (foldl (fun s m => mark_reserved s m.1 m.2) s0 modules) p <> 0) as H1
    by (by rewrite reserve_regions_keep).
  revert s0 H0. induction modules as [|m ms IH]; intros s0 H0; cbn [foldl]; [done|]. apply IH.
  cbn [mark_reserved set_refs page_refs]. revert H0. unfold mark_pages. generalize (page_refs s0) as r.
  induction (seqZ m.1 (m.2 - m.1)) as [|q l IHl]; intros r Hr; cbn [foldl]; [done|]. apply IHl.
  destruct (_ <? _); [|done]. unfold upd. by destruct (_ =? _).
Qed.

Lemma boot_pool entries kl kh modules :
  pool_ok (boot entries kl kh modules).
Proof.
  unfold boot, pool_ok. generalize (foldl (fun s m => mark_reserved s m.1 m.2)
    (init_phys_mm (mk (fun _ => 0) 0 0 false 0) entries (Z.of_nat (length entries)) kl kh) modules) as s. intros s.
  unfold reserve_dma_regions. destruct (reserve (page_refs s) _ _) as [pool r1] eqn:E1.
  destruct (reserve r1 _ _) as [bufs r2] eqn:E2. cbn [dma_pool_start page_refs]. intros Hne.
  apply reserve_spec in E1 as [P1 _]; [|pages; lia..]. destruct (P1 Hne) as (HL&HE&_&Hin&_).
  split; [done|]. split; [pages; lia|]. intros p Hp. destruct (Hin p Hp) as [_ Hr].
  rewrite (reserve_keeps r1 DMA_BUFS_PAGES DMA_BUF_16BIT_PAGES bufs r2 p) by (done || (by rewrite Hr) || (pages; lia)). done.
Qed.

(** At boot a count above zero is the kernel's own reference. *)
Definition boot_held (s : PhysMm) (p : Z) : Z := if page_refs s p =? RESERVED then 0 else page_refs s p.

Lemma boot_owned zero_page entries kl kh modules :
  LOW_PAGES < kh <= MAX_PAGES ->
  owned zero_page (boot entries kl kh modules) (boot entries kl kh modules) (boot_held (boot entries kl kh modules)) [].
Proof.
  intros Hk. destruct (boot_counts entries kl kh modules) as [Hran Hn]. constructor; [|done| | |constructor|constructor|done].
  - rewrite Hn. unfold wrap. rewrite Z.mod_small; [lia|pages; lia].
  - intros p _. split; [apply Hran|done].
  - intros p _. unfold in_runs. cbn. rewrite elem_of_nil. tauto.
Qed.

(** C14: no page is given out while someone has it.  From boot on, however
    pages are allocated, shared and released by the clients that hold
    references to them, and contiguous runs of at most 256 MB are taken and
    returned by the drivers that hold them: an allocation ends, and the page it
    gives is above the first MB, held by nobody, in no run a driver holds, not
    reserved at boot and not the zero page of the kernel image; it gives none
    only when there is no such page.  A contiguous run consists of pages nobody
    holds, in no other held run.  A release by a holder never panics and lowers
    the count by one; a returned run, but for the ISA DMA pool that stays
    reserved, is free again.  A page is free exactly when it has no holder, is
    in no held run and was not reserved at boot. *)
Theorem pages_owned zero_page entries kl kh modules s h runs :
  LOW_PAGES < kh <= MAX_PAGES -> 0 <= kl <= zero_page -> zero_page < kh ->
  let s0 := boot entries kl kh modules in
  rtc (phys_step zero_page) (s0, boot_held s0, []) (s, h, runs) ->
  (exists s' found, alloc_phys_page s = Some (s', found) /\
     match found with
     | Some p => LOW_PAGES <= p < MAX_PAGES /\ h p = 0 /\ ~ in_runs runs p /\ page_refs s0 p <> RESERVED /\ p <> zero_page
     | None => forall p, LOW_PAGES <= p < MAX_PAGES -> 0 < h p \/ in_runs runs p \/ page_refs s0 p = RESERVED
     end) /\
  (forall n bd s' start, 0 <= n <= MAX_PAGES -> alloc_phys_contig s n bd = (s', Some start) ->
     forall p, start <= p < start + n -> LOW_PAGES <= p < MAX_PAGES /\ h p = 0 /\ ~ in_runs runs p /\
       (bd = 0 -> page_refs s0 p <> RESERVED /\ p <> zero_page)) /\
  (forall p, 0 <= p < MAX_PAGES -> p <> zero_page -> 0 < h p ->
     exists s', free_phys_page zero_page s p = Some s' /\ page_refs s' p = h p - 1) /\
  (forall start n, (start, n) ∈ runs -> start <> dma_pool_start s0 ->
     forall p, start <= p < start + n -> page_refs (free_phys_contig s start n) p = 0) /\
  (forall p, 0 <= p < MAX_PAGES -> page_refs s p = 0 <-> h p = 0 /\ ~ in_runs runs p /\ page_refs s0 p <> RESERVED).
Proof.
  intros Hk Hkl Hkh s0 Hr. pose proof (boot_pool entries kl kh modules) as Hpool.
  assert (0 <= zero_page < MAX_PAGES /\ page_refs s0 zero_page <> 0) as Hzero by (split; [lia|apply boot_nonzero; lia]).
  assert (owned zero_page s0 s h runs) as Ho.
  { refine (rtc_invariant (phys_step zero_page) (fun x => owned zero_page s0 x.1.1 x.1.2 x.2) _ (s, h, runs) Hr _ _).
    - by apply boot_owned.
    - intros x y Hs. by apply owned_step. }
  assert (forall p, 0 <= p < MAX_PAGES -> page_refs s p = 0 <-> h p = 0 /\ ~ in_runs runs p /\ page_refs s0 p <> RESERVED) as Hfree.
  { intros p Hp. destruct (own_count _ _ _ _ _ Ho p Hp) as [Hran Hhp]. pose proof (own_reserved _ _ _ _ _ Ho p Hp) as Hres.
    split; [intros H0; destruct (own_free_page _ _ s h runs p Ho Hp H0); tauto|]. intros (H0&Hin&Hb).
    destruct (Z.eqb_spec (page_refs s p) RESERVED); [tauto|lia]. }
  split_and!; [| | | |done].
  - destruct (alloc_page_spec s (own_next _ _ _ _ _ Ho)) as (s'&found&Ha&_&Hf). exists s', found. split; [done|]. destruct found as [p|].
    + destruct (owned_alloc _ _ Hzero s h runs s' p Ho Ha) as (_&?). tauto.
    + intros p Hp. destruct Hf as [_ Hf]. specialize (Hf p Hp). destruct (own_count _ _ _ _ _ Ho p ltac:(pages; lia)) as [Hran Hhp].
      pose proof (own_reserved _ _ _ _ _ Ho p ltac:(pages; lia)) as Hres. destruct (Z.eqb_spec (page_refs s p) RESERVED); [tauto|lia].
  - intros n bd s' start Hn Ha p Hp. destruct Hzero. destruct (owned_contig _ _ Hpool s h runs n bd s' start Ho Hn Ha) as (H1&H2&_); try done.
    destruct (H1 p Hp) as (?&?&?). split; [done|]. split; [done|]. split; [done|]. intros Hbd. by apply H2.
  - intros p Hp Hz Hh. destruct (owned_free _ _ s h runs p Ho Hp Hz Hh) as (s'&?&?&_). by exists s'.
  - intros start n [rest Hrest]%elem_of_Permutation. by apply (owned_free_contig _ _ Hpool s h runs rest start n Ho).
Qed.

(** A machine of 6 MB whose kernel has 1 MB, with a module. *)
Definition small_map : list MultibootMmapEntry := [mkEntry 0x100000 0x500000 1].

Lemma pages_owned_witness :
  let s0 := boot small_map 256 0x200 [(0x240, 0x250)] in
  exists s h start, rtc (phys_step 0x100) (s0, boot_held s0, []) (s, h, [(start, 2)]) /\ 0 < h 0x210 /\
  (exists s', free_phys_page 0x100 s 0x210 = Some s' /\ page_refs s' 0x210 = h 0x210 - 1) /\
  (exists s' found, alloc_phys_page s = Some (s', found) /\ forall p, found = Some p -> ~ start <= p < start + 2) /\
  page_refs (free_phys_contig s start 2) start = 0.
Proof.
  intros s0. assert ((x ← alloc_phys_page s0; Some (x.2, (alloc_phys_contig x.1 2 0).2)) = Some (Some 0x210, Some 0x211)) as E
    by (vm_compute; reflexivity).
  assert (0 <= boot_held s0 0x210 /\ dma_pool_start s0 = 0x200) as [H0 Hpool] by (vm_compute; split; [discriminate|reflexivity]).
  destruct (alloc_phys_page s0) as [[s1 found]|] eqn:Ha; [|discriminate E]. cbn [mbind option_bind fst snd] in E.
  destruct (alloc_phys_contig s1 2 0) as [s2 run] eqn:Hc. cbn [fst snd] in E. injection E as -> ->.
  exists s2, (upd (boot_held s0) 0x210 (boot_held s0 0x210 + 1)), 0x211.
  assert (rtc (phys_step 0x100) (s0, boot_held s0, [])
    (s2, upd (boot_held s0) 0x210 (boot_held s0 0x210 + 1), [(0x211, 2)])) as Hr.
  { eapply rtc_l; [apply step_alloc; exact Ha|]. eapply rtc_l; [|apply rtc_refl].
    apply (step_contig _ _ _ _ 2 0); [unfold MAX_PAGES; lia|exact Hc]. }
  assert (0 < upd (boot_held s0) 0x210 (boot_held s0 0x210 + 1) 0x210) as Hh by (unfold upd; cbn; lia).
  destruct (pages_owned 0x100 small_map 256 0x200 [(0x240, 0x250)] s2 _ _ ltac:(unfold LOW_PAGES, MAX_PAGES; lia)
    ltac:(lia) ltac:(lia) Hr) as ((s'&found&Ha'&Hf)&_&Hfree&Hrun&_).
  split; [exact Hr|]. split; [exact Hh|]. split; [apply Hfree; [unfold MAX_PAGES; lia|lia|exact Hh]|]. split.
  - exists s', found. split; [exact Ha'|]. intros p -> Hp. destruct Hf as (_&_&Hf&_). apply Hf, in_runs_cons. left. exact Hp.
  - apply (Hrun 0x211 2); [left|change (0x211 <> dma_pool_start s0); rewrite Hpool; lia|lia].
Defined.

(** The memory map's regions, whole pages of them, below 16 TB. *)
Definition entry_ok (e : MultibootMmapEntry) : Prop := 0 <= base e /\ 0 <= length_ e /\ base e + length_ e <= 2 ^ 44.

Definition available (p : Z) (e : MultibootMmapEntry) : Prop :=
  typ e = 1 /\ base e <= p * PAGE_SIZE /\ (p + 1) * PAGE_SIZE <= base e + length_ e.

Lemma init_entry_free r e p :
  entry_ok e -> 0 <= p -> init_entry r e p = 0 -> r p <> 0 -> available p e.
Proof.
  intros (Hb&Hl&He) Hp. unfold init_entry, available. destruct (Z.eqb_spec (typ e) 1) as [->|]; cbn [negb]; [|done].
  assert (u64 (base e + length_ e) = base e + length_ e) as -> by (apply Z.mod_small; lia).
  rewrite mark_pages_spec.
  - case_bool_decide as Hin; [|done]. intros _ _. destruct Hin as [[H1 H2] _]. unfold div_ceil, PAGE_SIZE in *.
    pose proof (Z.div_mod (base e + 4096 - 1) 4096 ltac:(lia)). pose proof (Z.mod_pos_bound (base e + 4096 - 1) 4096 ltac:(lia)).
    pose proof (Z.div_mod (base e + length_ e) 4096 ltac:(lia)). pose proof (Z.mod_pos_bound (base e + length_ e) 4096 ltac:(lia)). lia.
  - unfold div_ceil, PAGE_SIZE. apply Z.div_pos; lia.
  - unfold PAGE_SIZE. apply Z.div_le_upper_bound; lia.
Qed.

(** A page that is free after boot lies wholly in an available region of the
    memory map, above the first MB, and is not the kernel's nor a module's. *)
Lemma boot_free entries kl kh modules p :
  Forall entry_ok entries -> 0 <= kl -> kh <= MAX_PAGES ->
  Forall (fun m => 0 <= m.1 /\ m.2 <= 2 ^ 32) modules -> 0 <= p < MAX_PAGES ->
  page_refs (boot entries kl kh modules) p = 0 ->
  LOW_PAGES <= p /\ ~ kl <= p < kh /\ (forall m, m ∈ modules -> ~ m.1 <= p < m.2) /\ Exists (available p) entries.
Proof.
  intros He Hkl Hkh Hm Hp. unfold boot. set (s0 := init_phys_mm _ _ _ _ _).
  intros Hfree. destruct (decide (page_refs (foldl (fun s m => mark_reserved s m.1 m.2) s0 modules) p = 0)) as [Hz|Hz];
    [|by rewrite reserve_regions_keep in Hfree]. clear Hfree.
  assert (page_refs s0 p = 0 /\ forall m, m ∈ modules -> ~ m.1 <= p < m.2) as [Hz0 Hmod].
  { clearbody s0. revert s0 Hz. induction Hm as [|m ms [Hm1 Hm2] _ IH]; intros s0 Hz; cbn [foldl] in Hz; [split; [done|]; by intros m ?%elem_of_nil|].
    apply IH in Hz as [Hz Hms]. cbn [mark_reserved page_refs set_refs] in Hz. rewrite mark_pages_spec in Hz by done.
    case_bool_decide as Hin; [done|]. split; [done|]. intros m' [->|?]%elem_of_cons; [lia|by apply Hms]. }
  clear Hz. unfold s0, init_phys_mm in Hz0; cbn [page_refs] in Hz0. rewrite mark_pages_spec in Hz0 by (pages; lia).
  case_bool_decide as Hkern; [done|]. unfold fill_pages in Hz0.
  destruct (Z.leb_spec 0 p), (Z.ltb_spec p (Z.min (0 + LOW_PAGES) MAX_PAGES)); cbn [andb] in Hz0; try done; try lia.
  split_and!; [pages; lia|lia|done|].
  rewrite Nat2Z.id, firstn_all in Hz0. assert ((fun _ : Z => RESERVED) p <> 0) as Hne by done.
  revert Hz0 Hne. generalize (fun _ : Z => RESERVED) as r. induction He as [|e es He Hes IH]; intros r Hz Hne; cbn [foldl] in Hz; [done|].
  destruct (decide (init_entry r e p = 0)) as [Hi|Hi]; [left; by eapply init_entry_free; [done|lia|..]|right; by apply (IH (init_entry r e))].
Qed.

(** The sum in [alloc_contig] wraps: a request for nearly 2^32 pages passes
    the check on an empty range and reserves every page above the first MB. *)
Lemma alloc_contig_wraps s p :
  LOW_PAGES <= p < MAX_PAGES ->
  snd (alloc_contig s 0xFFFFFFFF) = Some LOW_PAGES /\ page_refs (fst (alloc_contig s 0xFFFFFFFF)) p = RESERVED.
Proof.
  intros Hp. unfold alloc_contig. cbn [Z.eqb].
  assert (contig_loop (Z.to_nat (MAX_PAGES + 1)) (page_refs s) 0xFFFFFFFF LOW_PAGES = Some LOW_PAGES) as ->.
  { destruct (Z.to_nat (MAX_PAGES + 1)) as [|n] eqn:En; [pages; lia|]. reflexivity. }
  split; [done|]. cbn. unfold fill_pages. rewrite (proj2 (Z.leb_le _ _)), (proj2 (Z.ltb_lt _ _)) by (pages; lia). done.
Qed.

(** The 255th holder of a page stops the kernel. *)
Lemma share_254_panics zero_page s p :
  0 <= p < MAX_PAGES -> p <> zero_page -> page_refs s p = 254 -> inc_shared_count zero_page s p = None.
Proof.
  intros Hp Hz H254. unfold inc_shared_count, is_zero_page. rewrite (proj2 (Z.eqb_neq p zero_page) Hz), u32_page by done.
  rewrite (proj2 (Z.leb_gt MAX_PAGES p)), H254 by lia. done.
Qed.
