(* ===== verification/Paging.v ===== *)
(** Address spaces of the interpreter backend (arch-interp/src/paging.rs):
    two-level page tables in guest physical memory (phys.rs), copy-on-write
    fork, demand paging, and the kernel's access to guest memory (vcpu.rs).

    The generation that [write_entry] counts and the tables [space_destroy] drops
    with a space belong to 4-level tables that nothing enters yet; they are left
    out.

    Physical memory is a map from frames to their bytes; a byte that was never
    written, or whose frame was given back, reads zero.  [None] is a failed
    assertion of the source.  Reference counts are not wrapped: 131072 frames
    hold at most 2^27 entries. *)

From Stdlib Require Import ZArith Lia Bool.
From stdpp Require Import base option list numbers gmap.
From S2P Require Import Prelude.
Local Open Scope machine_scope.

(** * Physical memory *)

Definition PAGE : Z := 4096.
Definition PHYS_SIZE : Z := 512 ≪ 20.

(** [free_list] with the frame given back last first; [spaces] from space to
    page directory, all below [next]; [windows] as (page, frame, count). *)
Record St := mkSt {
  ram : gmap Z (gmap Z Z); next_frame : Z; free_list : list Z; shared : gmap Z Z;
  spaces : gmap Z Z; active : Z; next : Z; windows : list (Z * Z * Z)
}.

Definition set_ram (s : St) r := mkSt r (next_frame s) (free_list s) (shared s) (spaces s) (active s) (next s) (windows s).
Definition set_next_frame (s : St) n := mkSt (ram s) n (free_list s) (shared s) (spaces s) (active s) (next s) (windows s).
Definition set_free_list (s : St) l := mkSt (ram s) (next_frame s) l (shared s) (spaces s) (active s) (next s) (windows s).
Definition set_shared (s : St) m := mkSt (ram s) (next_frame s) (free_list s) m (spaces s) (active s) (next s) (windows s).
Definition set_spaces (s : St) m := mkSt (ram s) (next_frame s) (free_list s) (shared s) m (active s) (next s) (windows s).
Definition set_active (s : St) a := mkSt (ram s) (next_frame s) (free_list s) (shared s) (spaces s) a (next s) (windows s).
Definition set_next (s : St) n := mkSt (ram s) (next_frame s) (free_list s) (shared s) (spaces s) (active s) n (windows s).
Definition set_windows (s : St) l := mkSt (ram s) (next_frame s) (free_list s) (shared s) (spaces s) (active s) (next s) l.

Definition empty : St := mkSt ∅ 1 [] ∅ ∅ 0 0 [].

Definition frame_ptr (ppage : Z) : option Z := if ppage * PAGE <? PHYS_SIZE then Some ppage else None.

Definition frame (s : St) (p : Z) : gmap Z Z := default ∅ (ram s !! p).
Definition byte (s : St) (p o : Z) : Z := default 0 (frame s p !! o).
Definition set_byte (p o : Z) (s : St) (v : Z) : St := set_ram s (<[p := <[o := v]> (frame s p)]> (ram s)).

Fixpoint set_bytes (p o : Z) (l : list Z) (s : St) : St :=
  match l with [] => s | b :: l => set_bytes p (o + 1) l (set_byte p o s b) end.

Definition alloc_frames (s : St) (count : Z) : option (Z * St) :=
  match (if count =? 1 then head (free_list s) else None) with
  | Some f => Some (f, set_free_list s (tail (free_list s)))
  | None =>
      let start := next_frame s in
      if (start + count) * PAGE <=? PHYS_SIZE then Some (start, set_next_frame s (start + count)) else None
  end.

Definition inc_ref (s : St) (f : Z) : St := set_shared s (<[f := default 1 (shared s !! f) + 1]> (shared s)).
Definition is_shared (s : St) (f : Z) : bool := match shared s !! f with Some _ => true | None => false end.

Definition free_one (s : St) (f : Z) : St :=
  if f =? 0 then s else
  match shared s !! f with
  | Some rc => let rc := rc - 1 in set_shared s (if rc <=? 1 then delete f (shared s) else <[f := rc]> (shared s))
  | None => set_free_list (set_ram s (delete f (ram s))) (f :: free_list s)
  end.

Definition free_frames (s : St) (start count : Z) : St := foldl (fun s i => free_one s (start + i)) s (seqZ 0 count).

(** * Page tables *)

Definition PRESENT : Z := bit 0.
Definition WRITABLE : Z := bit 1.
Definition USER : Z := bit 2.
Definition ENTRY_FLAGS : Z := PRESENT .| WRITABLE .| USER.
Definition COW : Z := bit 9.
Definition REDIRECTED_ALIAS : Z := bit 10.
Definition CACHE_DISABLE : Z := bit 4.

(** [e & FLAG != 0] *)
Definition has_flag (e flag : Z) : bool := negb ((e .& flag) =? 0).
Definition is_present (e : Z) : bool := has_flag e PRESENT.

Definition pde_index (vaddr : Z) : Z := vaddr ≫ 22.
Definition pte_index (vaddr : Z) : Z := (vaddr ≫ 12) .& 0x3FF.

(** [((ppage as u32) << 12) | flags] *)
Definition make_entry (ppage flags : Z) : Z := u32 (u32 ppage ≪ 12) .| flags.

Definition read_entry (s : St) (ppage i : Z) : option Z :=
  p ← frame_ptr ppage; Some (from_le_bytes (byte s p <$> seqZ (i * 4) 4)).

Definition write_entry (s : St) (ppage i v : Z) : option St :=
  p ← frame_ptr ppage; Some (set_bytes p (i * 4) (to_le_bytes 4 v) s).

Definition alloc_table (s : St) : option (Z * St) :=
  r ← alloc_frames s 1;
  p ← frame_ptr (fst r);
  Some (fst r, set_ram (snd r) (<[p := ∅]> (ram (snd r)))).

Definition new_page_dir (s : St) : option (Z * St) := alloc_table s.

(** The page table of an address, allocated on first use. *)
Definition table_for (s : St) (pd vaddr : Z) : option (Z * St) :=
  pde ← read_entry s pd (pde_index vaddr);
  if is_present pde then Some (pde ≫ 12, s) else
  r ← alloc_table s;
  s ← write_entry (snd r) pd (pde_index vaddr) (make_entry (fst r) ENTRY_FLAGS);
  Some (fst r, s).

Definition map_page (s : St) (pd vaddr paddr : Z) (writable : bool) : option St :=
  r ← table_for s pd vaddr;
  let flags := if writable then ENTRY_FLAGS else PRESENT .| USER in
  write_entry (snd r) (fst r) (pte_index vaddr) (make_entry paddr flags).

Definition map_page_cow (s : St) (pd vaddr f : Z) : option St :=
  r ← table_for s pd vaddr;
  write_entry (snd r) (fst r) (pte_index vaddr) (make_entry f (PRESENT .| USER .| COW)).

Definition pte_raw (s : St) (pd vaddr : Z) : option Z :=
  pde ← read_entry s pd (pde_index vaddr);
  if negb (is_present pde) then Some 0 else read_entry s (pde ≫ 12) (pte_index vaddr).

Definition unmap_page (s : St) (pd vaddr : Z) : option St :=
  pde ← read_entry s pd (pde_index vaddr);
  if is_present pde then write_entry s (pde ≫ 12) (pte_index vaddr) 0 else Some s.

(** The physical address, or [None] in the inner option for an absent page. *)
Definition translate (s : St) (pd vaddr : Z) : option (option Z) :=
  pde ← read_entry s pd (pde_index vaddr);
  if negb (is_present pde) then Some None else
  pte ← read_entry s (pde ≫ 12) (pte_index vaddr);
  if negb (is_present pte) then Some None else
  Some (Some ((pte .& bnot 32 0xFFF) .| (vaddr .& 0xFFF))).

(** * Address spaces *)

(** The body of a [for] loop over the numbers of a list. *)
Fixpoint for_each (l : list Z) (f : Z -> St -> option St) (s : St) : option St :=
  match l with [] => Some s | i :: l => s ← f i s; for_each l f s end.

Definition active_pd (s : St) : option Z := spaces s !! active s.

(** [((vpage + i) * 4096) as u32] *)
Definition page_addr (vpage i : Z) : Z := u32 ((vpage + i) * 4096).

Definition map_window (pd : Z) (w : Z * Z * Z) (s : St) : option St :=
  let '(vpage, ppage, count) := w in
  for_each (seqZ 0 count) (fun i s => map_page s pd (u32 (u32 (vpage + i) * 4096)) (ppage + i) true) s.

Fixpoint map_windows (pd : Z) (ws : list (Z * Z * Z)) (s : St) : option St :=
  match ws with [] => Some s | w :: ws => s ← map_window pd w s; map_windows pd ws s end.

Definition map_kernel_windows (pd : Z) (s : St) : option St := map_windows pd (windows s) s.

Definition space_init (s : St) : option St :=
  if bool_decide (spaces s = ∅) then
    r ← new_page_dir s;
    s ← map_kernel_windows (fst r) (snd r);
    Some (set_next (set_active (set_spaces s {[0 := fst r]}) 0) 1)
  else Some s.

Definition space_new (s : St) : option (Z * St) :=
  let id := next s in
  let s := set_next s (id + 1) in
  r ← new_page_dir s;
  s ← map_kernel_windows (fst r) (snd r);
  Some (id, set_spaces s (<[id := fst r]> (spaces s))).

Definition space_switch (s : St) (id : Z) : St := set_active s id.

Definition register_kernel_window (s : St) (vpage ppage count : Z) : option St :=
  let s := set_windows s (windows s ++ [(u32 vpage, ppage, count)]) in
  for_each (omap (fun id => spaces s !! id) (seqZ 0 (next s)))
    (fun pd s => for_each (seqZ 0 count) (fun i s => map_page s pd (page_addr vpage i) (ppage + i) true) s) s.

Definition space_map_fresh (s : St) (vpage count : Z) : option St :=
  pd ← active_pd s;
  for_each (seqZ 0 count) (fun i s => r ← alloc_frames s 1; map_page (snd r) pd (page_addr vpage i) (fst r) true) s.

Definition space_map_phys (s : St) (vpage count ppage : Z) (writable : bool) : option St :=
  pd ← active_pd s;
  for_each (seqZ 0 count) (fun i s => map_page s pd (page_addr vpage i) (ppage + i) writable) s.

Definition map_mmio_one (pd vaddr : Z) (s : St) : option St :=
  r ← table_for s pd vaddr;
  let '(pt, s) := r in
  old ← read_entry s pt (pte_index vaddr);
  let s := if is_present old then free_frames s (old ≫ 12) 1 else s in
  write_entry s pt (pte_index vaddr) CACHE_DISABLE.

Definition space_map_mmio (s : St) (vpage count : Z) : option St :=
  pd ← active_pd s;
  for_each (seqZ 0 count) (fun i s => map_mmio_one pd (page_addr vpage i) s) s.

Definition set_writable_one (pd v : Z) (writable : bool) (s : St) : option St :=
  pde ← read_entry s pd (pde_index v);
  if negb (is_present pde) then Some s else
  let pt := pde ≫ 12 in
  pte ← read_entry s pt (pte_index v);
  if negb (is_present pte) then Some s else
  write_entry s pt (pte_index v) (if writable then pte .| WRITABLE else pte .& bnot 32 WRITABLE).

Definition space_set_writable (s : St) (vpage count : Z) (writable : bool) : option St :=
  pd ← active_pd s;
  for_each (seqZ 0 count) (fun i s => set_writable_one pd (page_addr vpage i) writable s) s.

Definition space_unmap (s : St) (vpage count : Z) : option St :=
  pd ← active_pd s;
  for_each (seqZ 0 count) (fun i s => unmap_page s pd (page_addr vpage i)) s.

Definition space_translate (s : St) (vaddr : Z) : option (option Z) := pd ← active_pd s; translate s pd vaddr.

(** One entry of the parent's tables. *)
Definition fork_entry (src_pt dst_pd pde_i pte_i : Z) (s : St) : option St :=
  pte ← read_entry s src_pt pte_i;
  if negb (is_present pte) then Some s else
  let v := u32 ((pde_i ≪ 22) .| (pte_i ≪ 12)) in
  t ← translate s dst_pd v;
  match t with
  | Some _ => Some s
  | None =>
      let f := pte ≫ 12 in
      s ← (if has_flag pte WRITABLE || has_flag pte COW
           then s ← write_entry s src_pt pte_i (make_entry f (PRESENT .| USER .| COW)); map_page_cow s dst_pd v f
           else map_page s dst_pd v f false);
      Some (inc_ref s f)
  end.

Definition fork_table (src_pd dst_pd pde_i : Z) (s : St) : option St :=
  pde ← read_entry s src_pd pde_i;
  if negb (is_present pde) then Some s else
  for_each (seqZ 0 1024) (fork_entry (pde ≫ 12) dst_pd pde_i) s.

Definition space_fork (s : St) (src : Z) : option (Z * St) :=
  src_pd ← spaces s !! src;
  r ← space_new s;
  dst_pd ← spaces (snd r) !! fst r;
  s ← for_each (seqZ 0 1024) (fork_table src_pd dst_pd) (snd r);
  Some (fst r, s).

Definition space_cow_fault (s : St) (vaddr : Z) : option (bool * St) :=
  pd ← active_pd s;
  pde ← read_entry s pd (pde_index vaddr);
  if negb (is_present pde) then Some (false, s) else
  let pt := pde ≫ 12 in
  let pte_i := pte_index vaddr in
  pte ← read_entry s pt pte_i;
  if negb (is_present pte) || negb (has_flag pte COW) then Some (false, s) else
  let f := pte ≫ 12 in
  if is_shared s f then
    r ← alloc_frames s 1;
    from ← frame_ptr f;
    to ← frame_ptr (fst r);
    let s := set_ram (snd r) (<[to := frame (snd r) from]> (ram (snd r))) in
    s ← write_entry s pt pte_i (make_entry (fst r) ENTRY_FLAGS);
    Some (true, free_frames s f 1)
  else
    s ← write_entry s pt pte_i (make_entry f ENTRY_FLAGS);
    Some (true, s).

(** A host pointer, as frame and offset. *)
Definition resolve_in (s : St) (pd vaddr : Z) : option (Z * Z * St) :=
  t ← translate s pd vaddr;
  r ← (match t with
       | Some pa => Some (pa, s)
       | None =>
           r ← alloc_frames s 1;
           s ← map_page (snd r) pd (vaddr .& bnot 32 0xFFF) (fst r) true;
           Some (u32 (u32 (fst r) ≪ 12) .| (vaddr .& 0xFFF), s)
       end);
  p ← frame_ptr (fst r ≫ 12);
  Some (p, fst r .& 0xFFF, snd r).

Definition space_resolve (s : St) (vaddr : Z) : option (Z * Z * St) := pd ← active_pd s; resolve_in s pd vaddr.

Definition NULL_GUARD : Z := 0x10000.

Definition space_demand (s : St) (vaddr : Z) : option (bool * St) :=
  let page := vaddr .& bnot 32 0xFFF in
  pd ← active_pd s;
  t ← translate s pd vaddr;
  match t with
  | Some _ => Some (true, s)
  | None =>
      raw ← pte_raw s pd vaddr;
      if has_flag raw CACHE_DISABLE then Some (false, s) else
      if (vaddr <? NULL_GUARD) || (0xC0000000 <=? vaddr) then Some (false, s) else
      r ← alloc_frames s 1;
      s ← map_page (snd r) pd page (fst r) true;
      Some (true, s)
  end.

Definition copy_entry (pd sv dv : Z) (s : St) : option St :=
  old ← translate s pd dv;
  let s := match old with Some pa => free_frames s (pa ≫ 12) 1 | None => s end in
  t ← translate s pd sv;
  match t with
  | Some spa =>
      let f := spa ≫ 12 in
      pde ← read_entry s pd (pde_index sv);
      pte ← read_entry s (pde ≫ 12) (pte_index sv);
      s ← map_page s pd dv f (has_flag pte WRITABLE);
      Some (inc_ref s f)
  | None => unmap_page s pd dv
  end.

Definition space_copy_entries (s : St) (src dst count : Z) : option St :=
  pd ← active_pd s;
  for_each (seqZ 0 count) (fun i s => copy_entry pd (page_addr src i) (page_addr dst i) s) s.

Definition swap_entry (pd av bv : Z) (s : St) : option St :=
  apde ← read_entry s pd (pde_index av);
  bpde ← read_entry s pd (pde_index bv);
  a ← (if is_present apde then Some (apde ≫ 12, s) else
       r ← alloc_table s; s ← write_entry (snd r) pd (pde_index av) (make_entry (fst r) ENTRY_FLAGS); Some (fst r, s));
  b ← (if is_present bpde then Some (bpde ≫ 12, snd a) else
       r ← alloc_table (snd a); s ← write_entry (snd r) pd (pde_index bv) (make_entry (fst r) ENTRY_FLAGS); Some (fst r, s));
  let s := snd b in
  ae ← read_entry s (fst a) (pte_index av);
  be ← read_entry s (fst b) (pte_index bv);
  s ← write_entry s (fst a) (pte_index av) be;
  write_entry s (fst b) (pte_index bv) ae.

Definition space_swap_entries (s : St) (a b count : Z) : option St :=
  pd ← active_pd s;
  for_each (seqZ 0 count) (fun i s => swap_entry pd (page_addr a i) (page_addr b i) s) s.

Definition space_map_low_mem (s : St) : option St := space_map_fresh s 0 0x100.

Definition free_entry (pt pte_i : Z) (s : St) : option St :=
  pte ← read_entry s pt pte_i;
  if is_present pte then write_entry (free_frames s (pte ≫ 12) 1) pt pte_i 0 else Some s.

Definition free_table (pd pde_i : Z) (s : St) : option St :=
  pde ← read_entry s pd pde_i;
  if negb (is_present pde) then Some s else for_each (seqZ 0 1024) (free_entry (pde ≫ 12)) s.

Definition free_user_frames (pd : Z) (s : St) : option St := for_each (seqZ 0 (0xC0000000 ≫ 22)) (free_table pd) s.

Definition space_clean (s : St) : option St := pd ← active_pd s; free_user_frames pd s.

Definition space_destroy (s : St) (id : Z) : option St :=
  if id =? 0 then Some s else
  s ← (match spaces s !! id with Some pd => free_user_frames pd s | None => Some s end);
  let s := if active s =? id then set_active s 0 else s in
  Some (set_spaces s (delete id (spaces s))).

(** * Device aliases *)

(** The page of the shadow an entry stands for. *)
Definition alias_offset (physical_ppage count : Z) (shadow : list Z) (redirect : bool) (old : Z) : option Z :=
  let old_page := old ≫ 12 in
  if redirect then
    if (physical_ppage <=? old_page) && (old_page - physical_ppage <? count) then Some (old_page - physical_ppage) else None
  else if has_flag old REDIRECTED_ALIAS then
    (fun x => Z.of_nat (fst x)) <$> list_find (fun e => is_present e && (e ≫ 12 =? old_page) = true) shadow
  else None.

Definition redirect_entry (physical_ppage shadow_vpage count : Z) (shadow : list Z) (redirect : bool) (pt pde_i pte_i : Z) (s : St)
    : option St :=
  let vpage := pde_i * 1024 + pte_i in
  if (shadow_vpage <=? vpage) && (vpage <? shadow_vpage + count) then Some s else
  old ← read_entry s pt pte_i;
  if negb (is_present old) then Some s else
  match alias_offset physical_ppage count shadow redirect old with
  | None => Some s
  | Some offset =>
      sh ← shadow !! Z.to_nat offset;
      if redirect then
        if negb (is_present sh) then Some s else
        let f := sh ≫ 12 in
        write_entry (inc_ref s f) pt pte_i ((old .& 0xFFF) .| u32 (u32 f ≪ 12) .| REDIRECTED_ALIAS)
      else
        s ← write_entry s pt pte_i ((old .& 0xFFF .& bnot 32 REDIRECTED_ALIAS) .| u32 (u32 (physical_ppage + offset) ≪ 12));
        Some (free_frames s (old ≫ 12) 1)
  end.

Definition redirect_table physical_ppage shadow_vpage count shadow redirect (pd pde_i : Z) (s : St) : option St :=
  pde ← read_entry s pd pde_i;
  if negb (is_present pde) then Some s else
  for_each (seqZ 0 1024) (redirect_entry physical_ppage shadow_vpage count shadow redirect (pde ≫ 12) pde_i) s.

Definition space_redirect_physical_aliases (s : St) (physical_ppage shadow_vpage count : Z) (redirect : bool) : option St :=
  pd ← active_pd s;
  shadow ← mapM (fun i => pte_raw s pd (page_addr shadow_vpage i)) (seqZ 0 count);
  for_each (seqZ 0 768) (redirect_table physical_ppage shadow_vpage count shadow redirect pd) s.

(** * The kernel's access to guest memory *)

(** The chunks of a request, none across a page: address, offset, length. *)
Fixpoint chunks (fuel : nat) (addr off len : Z) : list (Z * Z * Z) :=
  match fuel with
  | O => []
  | S fuel =>
      if off <? len then
        let a := addr + off in
        let chunk := Z.min (len - off) (4096 - (a .& 0xFFF)) in
        (a, off, chunk) :: chunks fuel addr (off + chunk) len
      else []
  end.

Definition for_chunks (addr len : Z) : list (Z * Z * Z) := chunks (Z.to_nat len) addr 0 len.

Fixpoint copy_from_chunks (cs : list (Z * Z * Z)) (s : St) : option (list Z * St) :=
  match cs with
  | [] => Some ([], s)
  | (a, _, n) :: cs =>
      r ← space_resolve s (u32 a);
      let '(p, o, s) := r in
      r ← copy_from_chunks cs s;
      Some ((byte s p <$> seqZ o n) ++ fst r, snd r)
  end.

Definition copy_from (s : St) (addr len : Z) : option (list Z * St) := copy_from_chunks (for_chunks addr len) s.

Fixpoint copy_to_chunks (src : list Z) (cs : list (Z * Z * Z)) (s : St) : option St :=
  match cs with
  | [] => Some s
  | (a, off, n) :: cs =>
      r ← space_resolve s (u32 a);
      let '(p, o, s) := r in
      copy_to_chunks src cs (set_bytes p o (take (Z.to_nat n) (drop (Z.to_nat off) src)) s)
  end.

Definition copy_to (s : St) (addr : Z) (src : list Z) : option St := copy_to_chunks src (for_chunks addr (Z.of_nat (length src))) s.

Definition zero (s : St) (addr len : Z) : option St := copy_to s addr (replicate (Z.to_nat len) 0).

(** The bytes up to the NUL, [max] at most. *)
Fixpoint copy_cstr (max : nat) (addr : Z) (s : St) : option (list Z * St) :=
  match max with
  | O => Some ([], s)
  | S max =>
      r ← space_resolve s (u32 addr);
      let '(p, o, s) := r in
      let b := byte s p o in
      if b =? 0 then Some ([], s) else
      r ← copy_cstr max (addr + 1) s;
      Some (b :: fst r, snd r)
  end.

Definition copy_byte (src dst i : Z) (s : St) : option St :=
  r ← space_resolve s (u32 (src + i));
  let '(p, o, s) := r in
  let b := byte s p o in
  r ← space_resolve s (u32 (dst + i));
  let '(p, o, s) := r in
  Some (set_byte p o s b).

Definition copy_within (s : St) (src dst len : Z) : option St :=
  for_each (if src <? dst then reverse (seqZ 0 len) else seqZ 0 len) (copy_byte src dst) s.

(** * Page faults *)

(** What the interpreter does with a page fault of the guest (cpu.rs). *)
Definition page_fault (s : St) (cr2 : Z) : option (bool * St) :=
  t ← space_translate s cr2;
  match t with None => space_demand s cr2 | Some _ => space_cow_fault s cr2 end.
