(* ===== verification/PagingFacts.v ===== *)
(** Facts on address spaces: the entries of page tables in physical memory, the
    structure of the tables, and the count of the mappings of a frame. *)

From Stdlib Require Import ZArith Lia Bool.
From stdpp Require Import base option list numbers gmap.
From S2P Require Import Prelude Paging.
Local Open Scope machine_scope.

Definition FRAMES : Z := 131072.

(** The pages of the user's part of an address space, and all pages. *)
Definition UPAGES : Z := 786432.
Definition VPAGES : Z := 1048576.

(** Division and remainder by constants. *)
Ltac zdiv := Z.to_euclidean_division_equations; lia.

(** * Bytes and entries *)

Lemma byte_set_byte p o s v p' o' : byte (set_byte p o s v) p' o' = if bool_decide (p' = p /\ o' = o) then v else byte s p' o'.
Proof.
  unfold byte, frame, set_byte. cbn [ram set_ram]. case_bool_decide as E.
  - destruct E as [-> ->]. by rewrite lookup_insert_eq; cbn; rewrite lookup_insert_eq.
  - destruct (decide (p' = p)) as [->|Hp]; [|by rewrite lookup_insert_ne by done].
    rewrite lookup_insert_eq. cbn. rewrite lookup_insert_ne; [done|]. intros ->. by apply E.
Qed.

(** An entry, and its update, in a frame that exists. *)
Definition ent (s : St) (p i : Z) : Z := from_le_bytes (byte s p <$> seqZ (i * 4) 4).
Definition set_ent (s : St) (p i v : Z) : St := set_bytes p (i * 4) (to_le_bytes 4 v) s.
#[global] Arguments set_ent : simpl never.
#[global] Arguments ent : simpl never.

Lemma frame_ptr_ok p : p < FRAMES -> frame_ptr p = Some p.
Proof. intros Hp. unfold frame_ptr. change PHYS_SIZE with (FRAMES * PAGE). by rewrite (proj2 (Z.ltb_lt _ _)) by (unfold FRAMES, PAGE in *; lia). Qed.

Lemma read_entry_ok s p i : p < FRAMES -> read_entry s p i = Some (ent s p i).
Proof. intros Hp. unfold read_entry. by rewrite frame_ptr_ok. Qed.
Lemma write_entry_ok s p i v : p < FRAMES -> write_entry s p i v = Some (set_ent s p i v).
Proof. intros Hp. unfold write_entry. by rewrite frame_ptr_ok. Qed.

Lemma set_ent_unfold s p i v :
  set_ent s p i v = set_byte p (i * 4 + 1 + 1 + 1) (set_byte p (i * 4 + 1 + 1) (set_byte p (i * 4 + 1) (set_byte p (i * 4) s
    (u8 v)) (u8 (v / 256))) (u8 (v / 256 / 256))) (u8 (v / 256 / 256 / 256)).
Proof. reflexivity. Qed.

Lemma seqZ_4 x : seqZ x 4 = [x; x + 1; x + 1 + 1; x + 1 + 1 + 1].
Proof. rewrite (seqZ_cons x 4), (seqZ_cons (Z.succ x)), (seqZ_cons (Z.succ (Z.succ x))), (seqZ_cons (Z.succ (Z.succ (Z.succ x)))) by lia. cbn. repeat f_equal; lia. Qed.

Lemma byte_set_ent s p i v p' o : p' <> p -> byte (set_ent s p i v) p' o = byte s p' o.
Proof. intros Hp. rewrite set_ent_unfold, !byte_set_byte. by rewrite !bool_decide_eq_false_2 by tauto. Qed.

Lemma ent_set_eq s p i v : fits 32 v -> ent (set_ent s p i v) p i = v.
Proof.
  intros Hv. unfold ent. transitivity (from_le_bytes (to_le_bytes 4 v)); [f_equal|apply from_to_le_bytes; unfold fits in Hv; cbn; lia].
  rewrite seqZ_4. cbn [fmap list_fmap]. rewrite set_ent_unfold, !byte_set_byte. cbn [to_le_bytes].
  repeat (case_bool_decide; try (exfalso; lia)); done.
Qed.

Lemma ent_set_ne s p i v p' i' : p' <> p \/ i' <> i -> ent (set_ent s p i v) p' i' = ent s p' i'.
Proof.
  intros Hne. unfold ent. f_equal. rewrite seqZ_4. cbn [fmap list_fmap]. rewrite set_ent_unfold, !byte_set_byte.
  rewrite !bool_decide_eq_false_2 by lia. done.
Qed.

Lemma set_ent_rest s p i v : next_frame (set_ent s p i v) = next_frame s /\ free_list (set_ent s p i v) = free_list s /\
  shared (set_ent s p i v) = shared s /\ spaces (set_ent s p i v) = spaces s /\ active (set_ent s p i v) = active s /\
  next (set_ent s p i v) = next s /\ windows (set_ent s p i v) = windows s.
Proof. done. Qed.

Lemma ram_set_ent s p i v f : f <> p -> ram (set_ent s p i v) !! f = ram s !! f.
Proof. intros Hf. rewrite set_ent_unfold. unfold set_byte. cbn [ram set_ram]. by rewrite !lookup_insert_ne by done. Qed.

Lemma ent_fits s p i : fits 32 (ent s p i).
Proof. unfold ent. pose proof (from_le_bytes_range (byte s p <$> seqZ (i * 4) 4)) as Hr. rewrite length_fmap, length_seqZ in Hr. exact Hr. Qed.

Lemma entry_value f flags : 0 <= f < FRAMES -> fits 12 flags -> make_entry f flags = f * 4096 + flags.
Proof.
  intros Hf Hl. unfold make_entry, FRAMES in *. rewrite (wrap_small 32 f) by (unfold fits; lia). rewrite wrap_small.
  - rewrite lor_shiftl by (done || lia). lia.
  - rewrite Z.shiftl_mul_pow2 by lia. unfold fits in *. lia.
Qed.

Lemma entry_frame f flags : 0 <= f < FRAMES -> fits 12 flags -> make_entry f flags ≫ 12 = f.
Proof. intros Hf Hl. rewrite entry_value, Z.shiftr_div_pow2 by (done || lia). unfold fits in Hl. rewrite Z.div_add_l, Z.div_small by lia. lia. Qed.

Lemma entry_fits f flags : fits 12 flags -> fits 32 (make_entry f flags).
Proof.
  intros Hl. unfold make_entry. apply fits_lor; [lia|apply wrap_fits; lia|]. unfold fits in *. lia.
Qed.

(** The flags of an entry are its low bits. *)
Lemma entry_flag f flags k : 0 <= k < 12 -> has_flag (make_entry f flags) (bit k) = has_flag flags (bit k).
Proof.
  intros Hk. unfold has_flag. rewrite !land_bit_eqb by lia. unfold make_entry. rewrite Z.lor_spec. unfold wrap.
  rewrite Z.mod_pow2_bits_low by lia. by rewrite Z.shiftl_spec_low by lia.
Qed.

(** * The structure of the tables *)

(** What an allocated frame is used for. *)
Inductive kind := Dir (id : Z) | Tab (id i : Z) | Data | Kernel.

(** The entry of page [v] in the tables of directory [pd]. *)
Definition pte (s : St) (pd v : Z) : Z :=
  let e := ent s pd (v / 1024) in if is_present e then ent s (e ≫ 12) (v mod 1024) else 0.

(** The entry of page [v] in space [id]. *)
Definition page (s : St) (D : gmap Z Z) (id v : Z) : Z := match D !! id with Some pd => pte s pd v | None => 0 end.

(** [K] says what every allocated frame is for, [D] has the directories. *)
Record tables (K : gmap Z kind) (D : gmap Z Z) (s : St) : Prop := {
  t_dir : forall id pd, D !! id = Some pd -> K !! pd = Some (Dir id);
  t_tab : forall id pd i, D !! id = Some pd -> 0 <= i < 1024 -> is_present (ent s pd i) = true -> K !! (ent s pd i ≫ 12) = Some (Tab id i);
  t_alloc : forall f k, K !! f = Some k -> 1 <= f < next_frame s;
  t_next : 1 <= next_frame s <= FRAMES;
  t_free : forall f, f ∈ free_list s -> K !! f = None /\ 1 <= f < next_frame s;
  t_once : NoDup (free_list s);
  t_zero : forall f, 1 <= f -> K !! f = None -> ram s !! f = None
}.

Section Tables.
Context (K : gmap Z kind) (D : gmap Z Z) (s : St) (HT : tables K D s).

Lemma kind_frame f k : K !! f = Some k -> 0 <= f < FRAMES.
Proof. intros Hk. pose proof (t_alloc _ _ _ HT f k Hk). pose proof (t_next _ _ _ HT). lia. Qed.

Lemma read_dir id pd i : D !! id = Some pd -> read_entry s pd i = Some (ent s pd i).
Proof. intros Hd. apply read_entry_ok. eapply kind_frame. by eapply t_dir. Qed.

Lemma tab_frame id pd i : D !! id = Some pd -> 0 <= i < 1024 -> is_present (ent s pd i) = true -> 0 <= ent s pd i ≫ 12 < FRAMES.
Proof. intros Hd Hi Hp. eapply kind_frame. by eapply t_tab. Qed.

(** Writing one entry of a page table changes one page of one space. *)
Lemma set_pte_page id pd v e id' v' :
  D !! id = Some pd -> 0 <= v < VPAGES -> 0 <= v' < VPAGES -> is_present (ent s pd (v / 1024)) = true -> fits 32 e ->
  page (set_ent s (ent s pd (v / 1024) ≫ 12) (v mod 1024) e) D id' v' = if bool_decide (id' = id /\ v' = v) then e else page s D id' v'.
Proof.
  intros Hd Hv Hv' Hp He. unfold VPAGES in *. assert (0 <= v / 1024 < 1024) as Hi by zdiv. pose proof (t_tab _ _ _ HT id pd _ Hd Hi Hp) as Hk.
  set (pt := ent s pd (v / 1024) ≫ 12) in *. unfold page. destruct (D !! id') as [pd'|] eqn:Hd'.
  2: { rewrite bool_decide_eq_false_2; [done|]. intros [-> _]. congruence. }
  pose proof (t_dir _ _ _ HT id' pd' Hd') as Hk'. assert (pd' <> pt) as Hne by (intros E; rewrite E in Hk'; congruence). unfold pte.
  rewrite (ent_set_ne s pt _ _ pd') by tauto. destruct (is_present (ent s pd' (v' / 1024))) eqn:Hp'.
  - pose proof (t_tab _ _ _ HT id' pd' (v' / 1024) Hd' ltac:(zdiv) Hp') as Hk2. case_bool_decide as E.
    + destruct E as [-> ->]. assert (pd' = pd) as -> by congruence. fold pt. by apply ent_set_eq.
    + apply ent_set_ne. destruct (decide (ent s pd' (v' / 1024) ≫ 12 = pt)) as [E2|E2]; [|by left]. rewrite E2 in Hk2. right. intros Em. apply E.
      assert (id' = id /\ v' / 1024 = v / 1024) as [-> Hq] by (split; congruence). split; [done|]. zdiv.
  - rewrite bool_decide_eq_false_2; [done|]. intros [-> ->]. assert (pd' = pd) as -> by congruence. congruence.
Qed.

Lemma set_pte_tables id pd v e :
  D !! id = Some pd -> 0 <= v < VPAGES -> is_present (ent s pd (v / 1024)) = true ->
  tables K D (set_ent s (ent s pd (v / 1024) ≫ 12) (v mod 1024) e).
Proof.
  intros Hd Hv Hp. unfold VPAGES in *. pose proof (t_tab _ _ _ HT id pd (v / 1024) Hd ltac:(zdiv) Hp) as Hk. set (pt := ent s pd (v / 1024) ≫ 12) in *.
  assert (forall id' pd' i, D !! id' = Some pd' -> ent (set_ent s pt (v mod 1024) e) pd' i = ent s pd' i) as Hdir.
  { intros id' pd' i Hd'. apply ent_set_ne. left. intros ->. pose proof (t_dir _ _ _ HT id' _ Hd'). congruence. }
  destruct HT as [T1 T2 T3 T4 T5 T6 T7]. split; try done.
  - intros id' pd' i Hd' Hi. rewrite (Hdir id' pd' i Hd'). by apply T2.
  - intros f Hf1 Hf. rewrite ram_set_ent; [by apply T7|]. intros ->. congruence.
Qed.

Lemma set_pte_byte id pd v e f o k :
  D !! id = Some pd -> 0 <= v < VPAGES -> is_present (ent s pd (v / 1024)) = true -> K !! f = Some k -> (forall a b, k <> Tab a b) ->
  byte (set_ent s (ent s pd (v / 1024) ≫ 12) (v mod 1024) e) f o = byte s f o.
Proof.
  intros Hd Hv Hp Hf Hk. apply byte_set_ent. intros ->. unfold VPAGES in *.
  pose proof (t_tab _ _ _ HT id pd (v / 1024) Hd ltac:(zdiv) Hp). apply (Hk id (v / 1024)). congruence.
Qed.

End Tables.

(** The part of the state that says which spaces there are. *)
Definition rest (s : St) := (spaces s, active s, next s, windows s).

(** A frame taken from the allocator. *)
Lemma alloc_one K D s f s' : tables K D s -> alloc_frames s 1 = Some (f, s') ->
  K !! f = None /\ 1 <= f < FRAMES /\ ram s' = ram s /\ shared s' = shared s /\ rest s' = rest s /\ forall k, tables (<[f := k]> K) D s'.
Proof.
  intros HT Ha. pose proof HT as [T1 T2 T3 T4 T5 T6 T7]. unfold alloc_frames in Ha. change (1 =? 1) with true in Ha. cbv iota in Ha.
  assert (K !! f = None /\ 1 <= f < FRAMES /\ ram s' = ram s /\ shared s' = shared s /\ rest s' = rest s /\
    (forall x, x ∈ free_list s' -> x <> f /\ x ∈ free_list s) /\ NoDup (free_list s') /\
    1 <= f < next_frame s' /\ next_frame s <= next_frame s' <= FRAMES) as (H1 & H2 & Hr & Hsh & Hre & Hf & Hn & Hfn & Hnn).
  { destruct (free_list s) as [|g l] eqn:El; cbn [head tail] in Ha.
    - destruct (_ <=? _) eqn:Eb; [|done]. injection Ha as <- <-. change PHYS_SIZE with (FRAMES * PAGE) in Eb. unfold FRAMES, PAGE in *. cbn.
      split; [destruct (K !! next_frame s) as [k|] eqn:Ek; [|done]; apply T3 in Ek; lia|]. rewrite El.
      split; [lia|]. do 3 (split; [done|]). split; [intros x Hx; by apply not_elem_of_nil in Hx|]. split; [constructor|]. lia.
    - injection Ha as <- <-. destruct (T5 g ltac:(left)) as [Hg1 Hg2]. apply list.NoDup_cons in T6 as [Hni Hnd]. cbn.
      split; [done|]. split; [lia|]. do 3 (split; [done|]). split; [intros x Hx; split; [by intros ->|by right]|]. split; [done|]. lia. }
  do 5 (split; [done|]). intros k. split.
  - intros id pd Hd. rewrite lookup_insert_ne; [by apply T1|]. intros ->. rewrite (T1 _ _ Hd) in H1. done.
  - intros id pd i Hd Hi Hp. assert (forall p j, ent s' p j = ent s p j) as He by (intros; unfold ent, byte, frame; by rewrite Hr).
    rewrite He in *. pose proof (T2 id pd i Hd Hi Hp) as Hk. rewrite lookup_insert_ne; [done|]. intros E. rewrite <- E, H1 in Hk. done.
  - intros g k' Hk. destruct (decide (g = f)) as [->|Hg]; [lia|]. rewrite lookup_insert_ne in Hk by done. apply T3 in Hk. lia.
  - lia.
  - intros g Hg. apply Hf in Hg as [Hne Hg]. apply T5 in Hg. rewrite lookup_insert_ne by done. split; [apply Hg|lia].
  - done.
  - intros g Hg Hk. rewrite Hr. destruct (decide (g = f)) as [->|Hne]; [by apply T7|]. rewrite lookup_insert_ne in Hk by done. by apply T7.
Qed.

(** Pages do not depend on the rest of the state. *)
Lemma page_ram s s' D : ram s' = ram s -> forall id v, page s' D id v = page s D id v.
Proof. intros Hr id v. unfold page, pte, ent, byte, frame. by rewrite Hr. Qed.

(** The frame of a new table: zeroed, and nothing else changed. *)
Definition cleared (s : St) (f : Z) : St := set_ram s (<[f := ∅]> (ram s)).

Lemma byte_cleared s f f' o : byte (cleared s f) f' o = if bool_decide (f' = f) then 0 else byte s f' o.
Proof.
  unfold byte, frame, cleared. cbn [ram set_ram]. case_bool_decide as E; [subst; by rewrite lookup_insert_eq|]. by rewrite lookup_insert_ne.
Qed.

Lemma ent_cleared s f i : ent (cleared s f) f i = 0.
Proof. unfold ent. rewrite seqZ_4. cbn [fmap list_fmap]. rewrite !byte_cleared. by rewrite !bool_decide_eq_true_2. Qed.
Lemma ent_cleared_ne s f f' i : f' <> f -> ent (cleared s f) f' i = ent s f' i.
Proof. intros Hf. unfold ent. rewrite seqZ_4. cbn [fmap list_fmap]. rewrite !byte_cleared. by rewrite !bool_decide_eq_false_2. Qed.

Lemma tables_cleared K D s f k : tables (<[f := k]> K) D s -> (forall id pd, D !! id = Some pd -> pd <> f) -> tables (<[f := k]> K) D (cleared s f).
Proof.
  intros [T1 T2 T3 T4 T5 T6 T7] Hd. split; try done.
  - intros id pd i Hdi Hi. rewrite ent_cleared_ne by (by eapply Hd). by apply T2.
  - intros g Hg Hkg. unfold cleared. cbn [ram set_ram]. rewrite lookup_insert_ne; [by apply T7|]. intros ->. by rewrite lookup_insert_eq in Hkg.
Qed.

(** A new, empty table. *)
Lemma alloc_table_ok K D s f s' : tables K D s -> alloc_table s = Some (f, s') ->
  K !! f = None /\ 1 <= f < FRAMES /\ shared s' = shared s /\ rest s' = rest s /\ (forall i, ent s' f i = 0) /\
  (forall f' o, f' <> f -> byte s' f' o = byte s f' o) /\ (forall f' i, f' <> f -> ent s' f' i = ent s f' i) /\
  forall k, tables (<[f := k]> K) D s'.
Proof.
  intros HT Ha. unfold alloc_table in Ha. destruct (alloc_frames s 1) as [[g s1]|] eqn:E; [|done]. cbn [mbind option_bind fst snd] in Ha.
  destruct (alloc_one K D s g s1 HT E) as (H1 & H2 & Hr & Hsh & Hre & Hk). rewrite frame_ptr_ok in Ha by lia. cbn in Ha. injection Ha as <- <-. fold (cleared s1 g).
  assert (forall f' o, byte s1 f' o = byte s f' o) as Hb by (intros; unfold byte, frame; by rewrite Hr).
  assert (forall f' i, ent s1 f' i = ent s f' i) as He by (intros; unfold ent, byte, frame; by rewrite Hr).
  do 4 (split; [done|]). split; [intros; apply ent_cleared|]. split; [intros; rewrite byte_cleared, bool_decide_eq_false_2 by done; apply Hb|].
  split; [intros; rewrite ent_cleared_ne by done; apply He|]. intros k. apply tables_cleared; [apply Hk|].
  intros id pd Hd ->. pose proof (t_dir _ _ _ HT _ _ Hd). congruence.
Qed.

(** A new directory. *)
Lemma tables_dir K D s f id : tables (<[f := Dir id]> K) D s -> (forall i, ent s f i = 0) -> tables (<[f := Dir id]> K) (<[id := f]> D) s.
Proof.
  intros [T1 T2 T3 T4 T5 T6 T7] He. split; try done.
  - intros id' pd Hd. destruct (decide (id' = id)) as [->|Hne].
    + rewrite lookup_insert_eq in Hd. injection Hd as <-. by rewrite lookup_insert_eq.
    + rewrite lookup_insert_ne in Hd by done. by apply T1.
  - intros id' pd i Hd Hi Hp. destruct (decide (id' = id)) as [->|Hne].
    + rewrite lookup_insert_eq in Hd. injection Hd as <-. by rewrite He in Hp.
    + rewrite lookup_insert_ne in Hd by done. by apply T2.
Qed.

(** Flags that stay below the frame number. *)
Lemma fits_flags : fits 12 ENTRY_FLAGS /\ fits 12 (PRESENT .| USER) /\ fits 12 (PRESENT .| USER .| COW).
Proof. unfold fits. vm_compute. repeat split; done. Qed.

Lemma entry_present f flags : is_present (make_entry f flags) = is_present flags.
Proof. by apply (entry_flag f flags 0). Qed.

(** Addresses of pages. *)
Lemma page_index v : 0 <= v < VPAGES -> pde_index (v * 4096) = v / 1024 /\ pte_index (v * 4096) = v mod 1024.
Proof.
  intros Hv. unfold pde_index, pte_index, VPAGES in *. change 0x3FF with (Z.ones 10). rewrite Z.land_ones, !Z.shiftr_div_pow2 by lia. zdiv.
Qed.

(** What a change of the tables leaves alone: the pages, the bytes of frames
    that are no tables, the counts and the spaces. *)
Record quiet (K : gmap Z kind) (D : gmap Z Z) (s s' : St) : Prop := {
  q_page : forall id v, 0 <= v < VPAGES -> page s' D id v = page s D id v;
  q_byte : forall f o, K !! f = Some Data -> byte s' f o = byte s f o;
  q_shared : shared s' = shared s;
  q_rest : rest s' = rest s
}.

(** The page table of a page: found, or fresh and empty. *)
Lemma table_for_ok K D s id pd v pt s' : tables K D s -> D !! id = Some pd -> 0 <= v < VPAGES -> table_for s pd (v * 4096) = Some (pt, s') ->
  exists K', tables K' D s' /\ K ⊆ K' /\ (forall f, K' !! f = Some Data -> K !! f = Some Data) /\
    is_present (ent s' pd (v / 1024)) = true /\ pt = ent s' pd (v / 1024) ≫ 12 /\ quiet K D s s'.
Proof.
  intros HT Hd Hv Ht. unfold table_for in Ht. destruct (page_index v Hv) as [Hi _]. rewrite Hi, (read_dir K D s HT id pd _ Hd) in Ht. cbn [mbind option_bind] in Ht.
  destruct (is_present (ent s pd (v / 1024))) eqn:Ep.
  { injection Ht as <- <-. exists K. done. }
  destruct (alloc_table s) as [[f s1]|] eqn:Ea; [|done]. cbn [mbind option_bind fst snd] in Ht.
  destruct (alloc_table_ok K D s f s1 HT Ea) as (H1 & H2 & Hsh & Hre & Hz & Hb & He & Hk).
  pose proof (t_dir _ _ _ HT _ _ Hd) as Hkd. assert (pd <> f) as Hpf by (intros ->; congruence).
  pose proof (kind_frame _ _ _ HT _ _ Hkd) as Hpr. rewrite write_entry_ok in Ht by lia. cbn in Ht. injection Ht as <- <-.
  destruct fits_flags as (F1 & _ & _). unfold VPAGES in *. set (i := v / 1024) in *. set (e := make_entry f ENTRY_FLAGS).
  assert (fits 32 e) as Hfe by (by apply entry_fits). assert (e ≫ 12 = f) as Hef by (apply entry_frame; [lia|done]).
  specialize (Hk (Tab id i)). destruct Hk as [T1 T2 T3 T4 T5 T6 T7]. exists (<[f := Tab id i]> K). split_and!.
  - split; try done.
    + intros id' pd' j Hd' Hj. destruct (decide (pd' = pd /\ j = i)) as [[-> ->]|Hne].
      * rewrite ent_set_eq by done. intros _. rewrite Hef, lookup_insert_eq. do 2 f_equal. pose proof (t_dir _ _ _ HT _ _ Hd'). congruence.
      * rewrite ent_set_ne by (apply not_and_l in Hne; destruct Hne; tauto). by apply T2.
    + intros g Hg Hkg. rewrite ram_set_ent; [by apply T7|]. intros ->. rewrite lookup_insert_ne in Hkg by done. congruence.
  - by apply insert_subseteq.
  - intros g Hg. destruct (decide (g = f)) as [->|Hne]; [by rewrite lookup_insert_eq in Hg|]. by rewrite lookup_insert_ne in Hg.
  - rewrite ent_set_eq by done. unfold e. by rewrite entry_present.
  - rewrite ent_set_eq by done. done.
  - split; try done.
    + intros id' v' Hv'. unfold VPAGES in Hv'. unfold page. destruct (D !! id') as [pd'|] eqn:Hd'; [|done]. unfold pte.
      pose proof (t_dir _ _ _ HT _ _ Hd') as Hkd'. assert (pd' <> f) as Hpf' by (intros ->; congruence).
      destruct (decide (pd' = pd /\ v' / 1024 = i)) as [[-> Hvi]|Hne].
      * rewrite Hvi, ent_set_eq by done. unfold e at 1. rewrite entry_present. change (is_present ENTRY_FLAGS) with true. cbv iota.
        rewrite Hef, (ent_set_ne s1 pd) by (left; congruence). rewrite Hz. by rewrite Ep.
      * rewrite (ent_set_ne s1 pd i e pd') by (apply not_and_l in Hne; destruct Hne; tauto). rewrite He by done.
        destruct (is_present (ent s pd' (v' / 1024))) eqn:Ep'; [|done].
        pose proof (t_tab _ _ _ HT id' pd' (v' / 1024) Hd' ltac:(zdiv) Ep') as Hkt.
        rewrite ent_set_ne, He; [done| |left]; intros E; rewrite E in Hkt; congruence.
    + intros g o Hg. rewrite byte_set_ent by (intros ->; congruence). apply Hb. intros ->. congruence.
Qed.

(** Writing the entry of a page: one page of one space changes. *)
Definition upd (P : Z -> Z -> Z) (id v e id' v' : Z) : Z := if bool_decide (id' = id /\ v' = v) then e else P id' v'.

Record wrote (K : gmap Z kind) (D : gmap Z Z) (id v e : Z) (s s' : St) : Prop := {
  w_page : forall id' v', 0 <= v' < VPAGES -> page s' D id' v' = upd (page s D) id v e id' v';
  w_byte : forall f o, K !! f = Some Data -> byte s' f o = byte s f o;
  w_shared : shared s' = shared s;
  w_rest : rest s' = rest s
}.

Lemma set_pte_wrote K D s id pd v e : tables K D s -> D !! id = Some pd -> 0 <= v < VPAGES -> is_present (ent s pd (v / 1024)) = true -> fits 32 e ->
  let s' := set_ent s (ent s pd (v / 1024) ≫ 12) (v mod 1024) e in tables K D s' /\ wrote K D id v e s s'.
Proof.
  intros HT Hd Hv Hp He s'. split; [by apply (set_pte_tables K D s HT id)|]. split; [|..|done|done].
  - intros id' v' Hv'. by apply (set_pte_page K D s HT).
  - intros f o Hf. eapply (set_pte_byte K D s HT id pd v e f o Data); done.
Qed.

Lemma put_wrote K D s id pd v pt s1 e s' : tables K D s -> D !! id = Some pd -> 0 <= v < VPAGES -> fits 32 e ->
  table_for s pd (v * 4096) = Some (pt, s1) -> write_entry s1 pt (pte_index (v * 4096)) e = Some s' ->
  exists K', tables K' D s' /\ K ⊆ K' /\ (forall f, K' !! f = Some Data -> K !! f = Some Data) /\ wrote K D id v e s s'.
Proof.
  intros HT Hd Hv He Ht Hw. destruct (table_for_ok K D s id pd v pt s1 HT Hd Hv Ht) as (K' & HT' & Hsub & Hdata & Hp & -> & [Q1 Q2 Q3 Q4]).
  assert (0 <= v / 1024 < 1024) as Hi by (unfold VPAGES in Hv; zdiv).
  rewrite write_entry_ok in Hw by (apply (tab_frame K' D s1 HT' id pd _ Hd Hi Hp)). injection Hw as <-.
  destruct (page_index v Hv) as [_ ->]. destruct (set_pte_wrote K' D s1 id pd v e HT' Hd Hv Hp He) as [HT2 [W1 W2 W3 W4]].
  exists K'. do 3 (split; [done|]). split; [| |by rewrite W3|by rewrite W4].
  - intros id' v' Hv'. rewrite W1 by done. unfold upd. case_bool_decide; [done|]. by apply Q1.
  - intros f o Hf. rewrite W2, Q2; [done|done|]. by eapply lookup_weaken.
Qed.

(** * Which pages share a frame *)

Definition writable (e : Z) : bool := has_flag e WRITABLE.

Definition refs (P : Z -> Z -> Z) (f : Z) (x : Z * Z) : Prop := 0 <= snd x < UPAGES /\ is_present (P (fst x) (snd x)) = true /\ P (fst x) (snd x) ≫ 12 = f.

Definition count (sh : gmap Z Z) (f : Z) : Z := default 1 (sh !! f).

(** Every user page maps a data frame; no frame has more mappings than it is
    counted for; a frame that is writable through one space is mapped by no
    other, but for the pairs of pages [lim] allows. *)
Record mappings (lim : Z * Z -> Z * Z -> Prop) (K : gmap Z kind) (P : Z -> Z -> Z) (sh : gmap Z Z) : Prop := {
  m_data : forall f x, refs P f x -> K !! f = Some Data;
  m_shared : forall f c, sh !! f = Some c -> 2 <= c /\ K !! f = Some Data;
  m_count : forall f L, NoDup L -> Forall (refs P f) L -> Z.of_nat (length L) <= count sh f;
  m_write : forall f x y, refs P f x -> refs P f y -> writable (P (fst x) (snd x)) = true -> fst y = fst x \/ lim x y
}.

Lemma refs_ext P P' f x : (forall id v, 0 <= v < UPAGES -> P' id v = P id v) -> refs P f x -> refs P' f x.
Proof. intros He (Hr & Hp & Hf). unfold refs. by rewrite He. Qed.

Lemma mappings_ext lim K P P' sh : (forall id v, 0 <= v < UPAGES -> P' id v = P id v) -> mappings lim K P sh -> mappings lim K P' sh.
Proof.
  intros He [M1 M2 M3 M4]. assert (forall f x, refs P' f x -> refs P f x) as Hr by (intros f x; apply refs_ext; intros; by rewrite He).
  split; [by eauto|done| |].
  - intros f L Hn Hl. apply M3; [done|]. eapply List.Forall_impl; [|exact Hl]. apply Hr.
  - intros f x y Hx Hy Hw. rewrite He in Hw by apply Hx. apply (M4 f); auto.
Qed.

Lemma mappings_kinds lim K K' P sh : (forall f, K !! f = Some Data -> K' !! f = Some Data) -> mappings lim K P sh -> mappings lim K' P sh.
Proof. intros HK [M1 M2 M3 M4]. split; [eauto| |done|done]. intros f c Hc. destruct (M2 f c Hc). auto. Qed.

Lemma refs_upd P id v e f x : refs (upd P id v e) f x -> x = (id, v) /\ 0 <= v < UPAGES /\ is_present e = true /\ e ≫ 12 = f \/ x <> (id, v) /\ refs P f x.
Proof.
  destruct x as [id' v']. unfold refs, upd. cbn. case_bool_decide as E.
  - destruct E as [-> ->]. left. tauto.
  - right. split; [|done]. intros [= -> ->]. by apply E.
Qed.

Lemma upd_eq P id v e : upd P id v e id v = e.
Proof. unfold upd. by rewrite bool_decide_eq_true_2. Qed.
Lemma upd_ne P id v e id' v' : (id', v') <> (id, v) -> upd P id v e id' v' = P id' v'.
Proof. intros Hne. unfold upd. rewrite bool_decide_eq_false_2; [done|]. intros [-> ->]. done. Qed.

Lemma refs_upd_ne P id v e f x : x <> (id, v) -> refs P f x -> refs (upd P id v e) f x.
Proof. destruct x as [id' v']. intros Hne (H1 & H2 & H3). unfold refs in *. cbn in *. by rewrite !upd_ne. Qed.

Lemma writable_upd_ne P id v e x : x <> (id, v) -> upd P id v e (fst x) (snd x) = P (fst x) (snd x).
Proof. destruct x. apply upd_ne. Qed.

(** A list of mappings without one of them. *)
Lemma remove_one {A} `{EqDecision A} (Q R : A -> Prop) (a : A) L : NoDup L -> Forall (fun x => x = a \/ x <> a /\ Q x) L ->
  exists L', NoDup L' /\ Forall Q L' /\ (a ∉ L') /\ (length L <= S (length L'))%nat.
Proof.
  intros Hn Hf. destruct (decide (a ∈ L)) as [Hin|Hin].
  - apply elem_of_Permutation in Hin as [L' Hp]. exists L'. rewrite Hp in Hn, Hf. apply list.NoDup_cons in Hn as [Ha Hn]. inversion Hf as [|? ? _ Hf']; subst.
    split_and!; [done| |done|by rewrite Hp]. apply list.Forall_forall. intros x Hx. destruct (proj1 (list.Forall_forall _ _) Hf' x Hx) as [->|[_ ?]]; done.
  - exists L. split_and!; [done| |done|lia]. apply list.Forall_forall. intros x Hx. destruct (proj1 (list.Forall_forall _ _) Hf x Hx) as [->|[_ ?]]; done.
Qed.

Section Mappings.
Context (lim : Z * Z -> Z * Z -> Prop) (K : gmap Z kind) (P : Z -> Z -> Z) (sh : gmap Z Z) (HM : mappings lim K P sh).

Lemma count_pos f : 1 <= count sh f.
Proof. unfold count. destruct (sh !! f) as [c|] eqn:E; cbn; [|lia]. apply (m_shared _ _ _ _ HM) in E. lia. Qed.

(** The mappings of a frame but one, after that page changed. *)
Lemma count_upd f id v e L : NoDup L -> Forall (refs (upd P id v e) f) L ->
  exists L', NoDup L' /\ Forall (refs P f) L' /\ ((id, v) ∉ L') /\ (length L <= S (length L'))%nat.
Proof.
  intros Hn Hf. apply (remove_one (refs P f) (refs P f)); [done|]. eapply List.Forall_impl; [|exact Hf]. intros x Hx. apply refs_upd in Hx. tauto.
Qed.

(** ... and exactly those, where the page does not map the frame. *)
Lemma count_upd_other f id v e L : ~ (0 <= v < UPAGES /\ is_present e = true /\ e ≫ 12 = f) -> Forall (refs (upd P id v e) f) L -> Forall (refs P f) L.
Proof. intros Hno Hf. eapply List.Forall_impl; [|exact Hf]. intros x Hx. apply refs_upd in Hx as [[_ ?]|[_ ?]]; tauto. Qed.

Lemma map_clear id v e : is_present e = false -> mappings lim K (upd P id v e) sh.
Proof.
  intros He. assert (forall f x, refs (upd P id v e) f x -> x <> (id, v) /\ refs P f x) as Hr.
  { intros f x Hx. apply refs_upd in Hx as [(_ & _ & Hp & _)|Hx]; [congruence|done]. }
  destruct HM as [M1 M2 M3 M4]. split; [|done| |].
  - intros f x Hx. apply Hr in Hx as [_ Hx]. by eapply M1.
  - intros f L Hn Hf. apply M3; [done|]. eapply List.Forall_impl; [|exact Hf]. intros x Hx. by apply Hr in Hx as [_ ?].
  - intros f x y Hx Hy Hw. apply Hr in Hx as [Hx1 Hx2], Hy as [_ Hy]. rewrite writable_upd_ne in Hw by done. by apply (M4 f).
Qed.

(** A page outside the user's part. *)
Lemma map_kernel id v e : UPAGES <= v -> mappings lim K (upd P id v e) sh.
Proof. intros Hv. eapply mappings_ext; [|exact HM]. intros id' v' Hv'. apply upd_ne. intros [= -> ->]. lia. Qed.

(** A frame nobody had. *)
Lemma map_fresh f id v e : K !! f = None -> is_present e = true -> e ≫ 12 = f -> mappings lim (<[f := Data]> K) (upd P id v e) sh.
Proof.
  intros Hf Hp He. pose proof HM as [M1 M2 M3 M4].
  assert (forall g, K !! g = Some Data -> <[f := Data]> K !! g = Some Data) as HK by (intros g Hg; rewrite lookup_insert_ne; [done|congruence]).
  assert (forall x, ~ refs P f x) as Hno by (intros x Hx; apply M1 in Hx; congruence).
  split.
  - intros g x Hx. apply refs_upd in Hx as [(_ & _ & _ & <-)|[_ Hx]]; [rewrite He; apply lookup_insert_eq|]. by eapply HK, M1.
  - intros g c Hc. destruct (M2 g c Hc). auto.
  - intros g L Hn Hl. destruct (decide (g = f)) as [->|Hg].
    + destruct (count_upd f id v e L Hn Hl) as (L' & _ & Hf' & _ & Hlen). destruct L' as [|x L']; [pose proof (count_pos f); cbn in Hlen; lia|].
      inversion Hf' as [|? ? Hx _]; subst. by apply Hno in Hx.
    + apply M3; [done|]. eapply count_upd_other; [|exact Hl]. rewrite He. naive_solver.
  - intros g x y Hx Hy Hw. apply refs_upd in Hx as [(-> & _ & _ & Hg)|[Hx1 Hx]], Hy as [(-> & _ & _ & Hg')|[Hy1 Hy]]; [by left| | |].
    + exfalso. eapply Hno. rewrite <- He, Hg. exact Hy.
    + exfalso. eapply Hno. rewrite <- He, Hg'. exact Hx.
    + rewrite writable_upd_ne in Hw by done. by apply (M4 g).
Qed.

(** One more mapping of a frame. *)
Lemma map_alias f x0 id v e : refs P f x0 -> is_present (P id v) = false -> is_present e = true -> e ≫ 12 = f ->
  (writable e = true -> writable (P (fst x0) (snd x0)) = true /\ id = fst x0 /\ forall y, refs P f y -> fst y = id) ->
  (forall y, refs P f y -> writable (P (fst y) (snd y)) = true -> id = fst y \/ lim y (id, v)) ->
  mappings lim K (upd P id v e) (<[f := count sh f + 1]> sh).
Proof.
  intros Hx0 Hab Hp He Hwe Hwr. pose proof HM as [M1 M2 M3 M4]. pose proof (M1 f x0 Hx0) as HKf. split.
  - intros g x Hx. apply refs_upd in Hx as [(_ & _ & _ & <-)|[_ Hx]]; [by rewrite He|by eapply M1].
  - intros g c Hc. destruct (decide (g = f)) as [->|Hg].
    + rewrite lookup_insert_eq in Hc. injection Hc as <-. pose proof (count_pos f). split; [lia|done].
    + rewrite lookup_insert_ne in Hc by done. by apply M2.
  - intros g L Hn Hl. unfold count at 1. destruct (decide (g = f)) as [->|Hg].
    + rewrite lookup_insert_eq. cbn. destruct (count_upd f id v e L Hn Hl) as (L' & Hn' & Hf' & _ & Hlen). pose proof (M3 f L' Hn' Hf'). lia.
    + rewrite lookup_insert_ne by done. apply M3; [done|]. eapply count_upd_other; [|exact Hl]. rewrite He. naive_solver.
  - intros g x y Hx Hy Hw. apply refs_upd in Hx as [(-> & _ & _ & Hg)|[Hx1 Hx]], Hy as [(-> & _ & _ & Hg')|[Hy1 Hy]]; [by left| | |].
    + left. cbn [fst snd] in *. rewrite upd_eq in Hw. destruct (Hwe Hw) as (_ & _ & Hall). apply Hall. rewrite <- He, Hg. exact Hy.
    + rewrite writable_upd_ne in Hw by done. cbn [fst]. apply Hwr; [|done]. rewrite <- He, Hg'. exact Hx.
    + rewrite writable_upd_ne in Hw by done. by apply (M4 g).
Qed.

(** The same frame, no longer writable. *)
Lemma map_demote f id v e : refs P f (id, v) -> is_present e = true -> e ≫ 12 = f -> writable e = false -> mappings lim K (upd P id v e) sh.
Proof.
  intros Hr Hp He Hw0. pose proof HM as [M1 M2 M3 M4].
  assert (forall g x, refs (upd P id v e) g x -> refs P g x) as Hrr.
  { intros g x Hx. apply refs_upd in Hx as [(-> & _ & _ & <-)|[_ Hx]]; [by rewrite He|done]. }
  split; [|done| |].
  - intros g x Hx. eapply M1. by apply Hrr.
  - intros g L Hn Hl. apply M3; [done|]. eapply List.Forall_impl; [|exact Hl]. apply Hrr.
  - intros g x y Hx Hy Hw. destruct (decide (x = (id, v))) as [->|Hne]; [cbn in Hw; rewrite upd_eq in Hw; congruence|].
    rewrite writable_upd_ne in Hw by done. apply (M4 g); auto.
Qed.

(** The same frame, writable again, where it is not shared. *)
Lemma map_promote f id v e : refs P f (id, v) -> is_present e = true -> e ≫ 12 = f -> sh !! f = None -> mappings lim K (upd P id v e) sh.
Proof.
  intros Hr Hp He Hs. pose proof HM as [M1 M2 M3 M4].
  assert (forall g x, refs (upd P id v e) g x -> refs P g x) as Hrr.
  { intros g x Hx. apply refs_upd in Hx as [(-> & _ & _ & <-)|[_ Hx]]; [by rewrite He|done]. }
  split; [|done| |].
  - intros g x Hx. eapply M1. by apply Hrr.
  - intros g L Hn Hl. apply M3; [done|]. eapply List.Forall_impl; [|exact Hl]. apply Hrr.
  - intros g x y Hx Hy Hw. destruct (decide (x = (id, v))) as [->|Hne]; [|rewrite writable_upd_ne in Hw by done; apply (M4 g); auto].
    destruct (decide (y = (id, v))) as [->|Hny]; [by left|]. exfalso.
    assert (g = f) as -> by (apply Hrr in Hx; destruct Hx as (_ & _ & <-), Hr as (_ & _ & <-); done).
    pose proof (M3 f [(id, v); y]) as Hc. unfold count in Hc. rewrite Hs in Hc. cbn in Hc. enough (Z.of_nat 2 <= 1) by lia. apply Hc.
    + apply list.NoDup_cons. split; [rewrite list_elem_of_singleton; congruence|apply NoDup_singleton].
    + constructor; [done|]. constructor; [by apply Hrr|constructor].
Qed.

(** A mapping less, and its count. *)
Definition drop_count (sh : gmap Z Z) (f : Z) : gmap Z Z :=
  match sh !! f with Some rc => if rc - 1 <=? 1 then delete f sh else <[f := rc - 1]> sh | None => sh end.

Definition drop_kind (f : Z) : gmap Z kind := match sh !! f with Some _ => K | None => delete f K end.

Lemma count_drop f g : count (drop_count sh f) g = if bool_decide (g = f) then Z.max 1 (count sh f - 1) else count sh g.
Proof.
  unfold drop_count, count. case_bool_decide as E.
  - subst g. destruct (sh !! f) as [rc|] eqn:Es; cbn; [|by rewrite Es]. pose proof (m_shared _ _ _ _ HM f rc Es).
    destruct (Z.leb_spec (rc - 1) 1); [rewrite lookup_delete_eq|rewrite lookup_insert_eq]; cbn; lia.
  - destruct (sh !! f) as [rc|]; [|done]. destruct (_ <=? _); [by rewrite lookup_delete_ne|by rewrite lookup_insert_ne].
Qed.

Lemma map_drop f id v e : refs P f (id, v) -> is_present e = false -> mappings lim (drop_kind f) (upd P id v e) (drop_count sh f).
Proof.
  intros Hr He. pose proof HM as [M1 M2 M3 M4]. destruct (map_clear id v e He) as [C1 C2 C3 C4].
  assert (forall L, NoDup L -> Forall (refs (upd P id v e) f) L -> Z.of_nat (length L) + 1 <= count sh f) as Hone.
  { intros L Hn Hl. assert (Forall (refs P f) L /\ (id, v) ∉ L) as [Hl' Hni].
    { rewrite !list.Forall_forall in *. split; [intros x Hx; apply Hl in Hx; apply refs_upd in Hx; naive_solver congruence|].
      intros Hin. apply Hl, refs_upd in Hin. naive_solver congruence. }
    pose proof (M3 f ((id, v) :: L)) as Hc. cbn [length] in Hc. enough (Z.of_nat (S (length L)) <= count sh f) by lia. apply Hc; [by apply list.NoDup_cons|by constructor]. }
  assert (sh !! f = None -> forall x, ~ refs (upd P id v e) f x) as Hnone.
  { intros Hs x Hx. pose proof (Hone [x] ltac:(apply NoDup_singleton) ltac:(by constructor)) as H1. unfold count in H1. rewrite Hs in H1. cbn in H1. lia. }
  split; [| | |done].
  - intros g x Hx. pose proof (C1 g x Hx) as Hk. unfold drop_kind. destruct (sh !! f) eqn:Es; [done|]. rewrite lookup_delete_ne; [done|].
    intros ->. by eapply Hnone.
  - intros g c Hc. unfold drop_count, drop_kind in *. destruct (sh !! f) as [rc|] eqn:Es.
    + destruct (Z.leb_spec (rc - 1) 1).
      * apply lookup_delete_Some in Hc as [_ Hc]. by apply M2.
      * destruct (decide (g = f)) as [->|Hg]; [|rewrite lookup_insert_ne in Hc by done; by apply M2].
        rewrite lookup_insert_eq in Hc. injection Hc as <-. split; [lia|]. by eapply M1.
    + pose proof (M2 g c Hc) as [? ?]. split; [done|]. rewrite lookup_delete_ne; [done|]. intros ->. congruence.
  - intros g L Hn Hl. rewrite count_drop. case_bool_decide as E; [subst; specialize (Hone L Hn Hl); lia|by apply C3].
Qed.

(** Two pages of a space exchanged. *)
Definition swapped (id a b id' v : Z) : Z := if bool_decide (id' = id) then if bool_decide (v = a) then P id b else if bool_decide (v = b) then P id a else P id' v else P id' v.

Lemma map_swap id a b : 0 <= a < UPAGES -> 0 <= b < UPAGES -> mappings (fun _ _ => False) K P sh -> mappings (fun _ _ => False) K (swapped id a b) sh.
Proof.
  intros Ha Hb [M1 M2 M3 M4].
  set (sw := fun x : Z * Z => if bool_decide (fst x = id) then if bool_decide (snd x = a) then (id, b) else if bool_decide (snd x = b) then (id, a) else x else x).
  assert (forall x, swapped id a b (fst x) (snd x) = P (fst (sw x)) (snd (sw x))) as He.
  { intros [id' v]. unfold swapped, sw. cbn. repeat case_bool_decide; done. }
  assert (forall x, sw (sw x) = x) as Hinv.
  { intros [id' v]. unfold sw. cbn. repeat (case_bool_decide; cbn in *); try congruence. }
  assert (forall x, fst (sw x) = fst x) as Hid by (intros [id' v]; unfold sw; cbn; repeat case_bool_decide; done).
  assert (forall f x, refs (swapped id a b) f x -> refs P f (sw x)) as Hr.
  { intros f x (Hv & Hp & Hf). rewrite He in *. split; [|done]. unfold sw. repeat (case_bool_decide; cbn in *); lia. }
  split; [|done| |].
  - intros f x Hx. eapply M1, Hr, Hx.
  - intros f L Hn Hl. rewrite <- (length_fmap sw L). apply M3.
    + apply NoDup_fmap_2; [|done]. intros x y Hxy. by rewrite <- (Hinv x), Hxy, Hinv.
    + apply Forall_fmap. eapply List.Forall_impl; [|exact Hl]. apply Hr.
  - intros f x y Hx Hy Hw. rewrite He in Hw. destruct (M4 f (sw x) (sw y)) as [E|[]]; [by apply Hr|by apply Hr|done|]. left. by rewrite <- (Hid x), <- (Hid y).
Qed.

End Mappings.
