(* ===== verification/PagingSteps.v ===== *)
(** The operations on address spaces keep the invariant of the tables and of the
    counts, and change the memory of no space but the active one. *)

From Stdlib Require Import ZArith Lia Bool.
From stdpp Require Import base option list numbers gmap.
From S2P Require Import Prelude Paging PagingFacts.
Local Open Scope machine_scope.

Definition strict : Z * Z -> Z * Z -> Prop := fun _ _ => False.

(** The pages of the kernel windows. *)
Definition covered (ws : list (Z * Z * Z)) (v : Z) : bool := existsb (fun '(vp, _, c) => (vp <=? v) && (v <? vp + c)) ws.

Record inv (lim : Z * Z -> Z * Z -> Prop) (K : gmap Z kind) (D : gmap Z Z) (s : St) : Prop := {
  i_tables : tables K D s;
  i_map : mappings lim K (page s D) (shared s);
  i_kern : forall id pd v, D !! id = Some pd -> UPAGES <= v < VPAGES -> is_present (page s D id v) = covered (windows s) v
}.

Definition good (D : gmap Z Z) (s : St) : Prop := exists K, inv strict K D s.

(** Byte [o] of page [v], as space [id] sees it. *)
Definition view (D : gmap Z Z) (s : St) (x : Z * Z) (o : Z) : option Z :=
  let e := page s D (fst x) (snd x) in if is_present e then Some (byte s (e ≫ 12) o) else None.

Definition same (D : gmap Z Z) (s s' : St) (x : Z * Z) : Prop := forall o, view D s' x o = view D s x o.

Definition user (v : Z) : Prop := 0 <= v < UPAGES.

Ltac pages := unfold user, UPAGES, VPAGES in *; lia.

(** A step that changes one page of one space. *)
Record one_page (D : gmap Z Z) (id v : Z) (s s' : St) : Prop := {
  o_good : good D s';
  o_rest : rest s' = rest s;
  o_same : forall x, user (snd x) -> x <> (id, v) -> same D s s' x
}.

Lemma finish D s K K1 id v e s' :
  inv strict K D s -> user v -> tables K1 D s' -> mappings strict K1 (page s' D) (shared s') ->
  (forall id' v', 0 <= v' < VPAGES -> page s' D id' v' = upd (page s D) id v e id' v') ->
  (forall f o, K !! f = Some Data -> K1 !! f = Some Data -> byte s' f o = byte s f o) -> rest s' = rest s -> one_page D id v s s'.
Proof.
  intros [HT HM HK] Hv HT1 HM1 Hp Hb Hr. split; [|done|].
  - exists K1. split; [done|done|]. intros id' pd v' Hd Hv'. rewrite Hp by pages. rewrite upd_ne.
    + rewrite (HK id' pd v' Hd Hv'). unfold rest in Hr. by inversion Hr.
    + intros [= -> ->]. pages.
  - intros [id' v'] Hv' Hne o. cbn in Hv'. unfold view. cbn [fst snd]. rewrite Hp by pages. rewrite upd_ne by done.
    destruct (is_present (page s D id' v')) eqn:Ep; [|done]. f_equal. apply Hb.
    + apply (m_data _ _ _ _ HM _ (id', v')). done.
    + apply (m_data _ _ _ _ HM1 _ (id', v')). unfold refs. cbn. rewrite Hp by pages. by rewrite upd_ne.
Qed.

Lemma user_page v : user v -> 0 <= v < VPAGES.
Proof. pages. Qed.

(** Only the page of an address matters. *)
Lemma addr_index a : 0 <= a < 2 ^ 32 -> pde_index a = a / 4096 / 1024 /\ pte_index a = (a / 4096) mod 1024.
Proof. intros Ha. unfold pde_index, pte_index. change 0x3FF with (Z.ones 10). rewrite Z.land_ones, !Z.shiftr_div_pow2 by lia. zdiv. Qed.

Lemma table_for_addr s pd a : 0 <= a < 2 ^ 32 -> table_for s pd a = table_for s pd (a / 4096 * 4096).
Proof. intros Ha. unfold table_for. destruct (addr_index a Ha) as [-> _]. destruct (page_index (a / 4096)) as [-> _]; [unfold VPAGES; zdiv|done]. Qed.

Section Steps.
Context (D : gmap Z Z) (id pd : Z) (Hd : D !! id = Some pd).

(** The entry read through the directory. *)
Lemma read_pte K s v : tables K D s -> 0 <= v < VPAGES -> is_present (ent s pd (v / 1024)) = true ->
  read_entry s (ent s pd (v / 1024) ≫ 12) (v mod 1024) = Some (page s D id v).
Proof.
  intros HT Hv Hp. rewrite read_entry_ok by (apply (tab_frame K D s HT id pd _ Hd); [unfold VPAGES in Hv; zdiv|done]).
  f_equal. unfold page. rewrite Hd. unfold pte. by rewrite Hp.
Qed.

Lemma page_absent s v : is_present (ent s pd (v / 1024)) = false -> page s D id v = 0.
Proof. intros Hp. unfold page. rewrite Hd. unfold pte. by rewrite Hp. Qed.

Lemma page_fits s v : fits 32 (page s D id v).
Proof. unfold page. rewrite Hd. unfold pte. destruct (is_present _); [apply ent_fits|unfold fits; lia]. Qed.

(** [map_page] writes the entry. *)
Lemma map_page_wrote K s v f w s' : tables K D s -> 0 <= v < VPAGES -> map_page s pd (v * 4096) f w = Some s' ->
  exists K', tables K' D s' /\ K ⊆ K' /\ (forall f, K' !! f = Some Data -> K !! f = Some Data) /\
    wrote K D id v (make_entry f (if w then ENTRY_FLAGS else PRESENT .| USER)) s s'.
Proof.
  intros HT Hv Hm. unfold map_page in Hm. destruct (table_for s pd (v * 4096)) as [[pt s1]|] eqn:Et; [|done]. cbn [mbind option_bind fst snd] in Hm.
  destruct fits_flags as (F1 & F2 & _). eapply put_wrote; [done|exact Hd|done| |exact Et|exact Hm]. apply entry_fits. by destruct w.
Qed.

Lemma map_page_cow_wrote K s v f s' : tables K D s -> 0 <= v < VPAGES -> map_page_cow s pd (v * 4096) f = Some s' ->
  exists K', tables K' D s' /\ K ⊆ K' /\ (forall f, K' !! f = Some Data -> K !! f = Some Data) /\ wrote K D id v (make_entry f (PRESENT .| USER .| COW)) s s'.
Proof.
  intros HT Hv Hm. unfold map_page_cow in Hm. destruct (table_for s pd (v * 4096)) as [[pt s1]|] eqn:Et; [|done]. cbn [mbind option_bind fst snd] in Hm.
  destruct fits_flags as (_ & _ & F3). eapply put_wrote; [done|exact Hd|done| |exact Et|exact Hm]. by apply entry_fits.
Qed.

(** A page mapped to a fresh frame. *)
Lemma fresh_step K s v f s1 s' : inv strict K D s -> user v -> alloc_frames s 1 = Some (f, s1) -> map_page s1 pd (v * 4096) f true = Some s' ->
  one_page D id v s s' /\ is_present (page s' D id v) = true /\ writable (page s' D id v) = true /\ (forall o, view D s' (id, v) o = Some 0) /\
  (forall x, user (snd x) -> x <> (id, v) -> page s' D (fst x) (snd x) = page s D (fst x) (snd x)) /\ page s' D id v ≫ 12 = f.
Proof.
  intros HI Hv Ha Hm. pose proof HI as [HT HM HK]. destruct (alloc_one K D s f s1 HT Ha) as (Hkf & Hfr & Hr & Hsh & Hre & Hk).
  destruct (map_page_wrote (<[f := Data]> K) s1 v f true s' (Hk Data) (user_page v Hv) Hm) as (K' & HT' & Hsub & Hdata & [W1 W2 W3 W4]).
  set (e := make_entry f ENTRY_FLAGS) in *. assert (e ≫ 12 = f) as Hef by (apply entry_frame; [lia|apply fits_flags]).
  assert (is_present e = true) as Hpe by (unfold e; by rewrite entry_present).
  assert (forall id' v', 0 <= v' < VPAGES -> page s' D id' v' = upd (page s D) id v e id' v') as Hp.
  { intros id' v' Hv'. rewrite W1 by done. unfold upd. case_bool_decide; [done|]. by apply page_ram. }
  pose proof (map_fresh strict K (page s D) (shared s) HM f id v e Hkf Hpe Hef) as HM1.
  assert (page s' D id v = e) as Hpv by (rewrite Hp by (by apply user_page); apply upd_eq). split_and!.
  - apply (finish D s K K' id v e s'); try done.
    + rewrite W3, Hsh. eapply mappings_ext; [intros; apply Hp; by apply user_page|]. eapply mappings_kinds; [|exact HM1]. intros g Hg. by eapply lookup_weaken.
    + intros g o Hg _. rewrite W2; [unfold byte, frame; by rewrite Hr|]. rewrite lookup_insert_ne; [done|congruence].
    + by rewrite W4.
  - by rewrite Hpv.
  - rewrite Hpv. unfold writable, e, WRITABLE. by rewrite entry_flag.
  - intros o. unfold view. cbn [fst snd]. rewrite Hpv, Hpe, Hef. rewrite W2 by apply lookup_insert_eq. unfold byte, frame. rewrite Hr.
    by rewrite (t_zero _ _ _ HT f) by (done || lia).
  - intros [id' v'] Hx Hne. cbn [fst snd] in *. rewrite Hp by (by apply user_page). by apply upd_ne.
  - by rewrite Hpv.
Qed.

(** A page cleared. *)
Lemma clear_step K s v e : inv strict K D s -> user v -> is_present (ent s pd (v / 1024)) = true -> fits 32 e -> is_present e = false ->
  one_page D id v s (set_ent s (ent s pd (v / 1024) ≫ 12) (v mod 1024) e).
Proof.
  intros HI Hv Hp Hf He. pose proof HI as [HT HM HK]. destruct (set_pte_wrote K D s id pd v e HT Hd (user_page v Hv) Hp Hf) as [HT' [W1 W2 W3 W4]].
  apply (finish D s K K id v e); try done; [|intros; by apply W2]. rewrite W3. eapply mappings_ext; [intros; apply W1; by apply user_page|].
  by apply map_clear.
Qed.

(** A data frame given back. *)
Lemma free_one_ok K s f : tables K D s -> K !! f = Some Data ->
  let s' := free_frames s f 1 in
  tables (drop_kind K (shared s) f) D s' /\ (forall id' v, page s' D id' v = page s D id' v \/ ~ 0 <= v < VPAGES) /\
  (forall g o, drop_kind K (shared s) f !! g = Some Data -> byte s' g o = byte s g o) /\ shared s' = drop_count (shared s) f /\ rest s' = rest s /\
  (forall g i, g <> f -> ent s' g i = ent s g i).
Proof.
  intros HT Hk s'. pose proof HT as [T1 T2 T3 T4 T5 T6 T7]. pose proof (T3 f _ Hk) as Hf.
  assert (s' = match shared s !! f with
     | Some rc => set_shared s (if rc - 1 <=? 1 then delete f (shared s) else <[f := rc - 1]> (shared s))
     | None => set_free_list (set_ram s (delete f (ram s))) (f :: free_list s) end) as Es.
  { unfold s', free_frames. change (seqZ 0 1) with [0]. cbn [foldl]. rewrite Z.add_0_r. unfold free_one. by rewrite (proj2 (Z.eqb_neq f 0)) by lia. }
  unfold drop_kind, drop_count. rewrite Es. clear s' Es. destruct (shared s !! f) as [rc|] eqn:Ef.
  { split_and!; [split; done|by left|done|done|done|done]. }
  assert (forall g o, g <> f -> byte (set_free_list (set_ram s (delete f (ram s))) (f :: free_list s)) g o = byte s g o) as Hb.
  { intros g o Hg. unfold byte, frame. cbn. by rewrite lookup_delete_ne. }
  assert (forall g i, g <> f -> ent (set_free_list (set_ram s (delete f (ram s))) (f :: free_list s)) g i = ent s g i) as He.
  { intros g i Hg. unfold ent. f_equal. apply list_fmap_ext. intros j o _. by apply Hb. }
  split_and!.
  - split; cbn [next_frame free_list set_free_list set_ram].
    + intros id' pd' Hd'. rewrite lookup_delete_ne; [by apply T1|]. intros ->. pose proof (T1 _ _ Hd'). congruence.
    + intros id' pd' i Hd' Hi. rewrite He by (intros ->; pose proof (T1 _ _ Hd'); congruence). intros Hp. pose proof (T2 _ _ _ Hd' Hi Hp) as Hkt.
      rewrite lookup_delete_ne; [done|]. intros E. rewrite <- E in Hkt. congruence.
    + intros g k Hg. apply lookup_delete_Some in Hg as [_ Hg]. by eapply T3.
    + done.
    + intros g Hg. apply elem_of_cons in Hg as [->|Hg]; [split; [apply lookup_delete_eq|done]|]. destruct (T5 g Hg) as [Hg1 Hg2]. split; [|done].
      rewrite lookup_delete_None. by right.
    + apply list.NoDup_cons. split; [|done]. intros Hin. apply T5 in Hin as [Hin _]. congruence.
    + intros g Hg Hk0. cbn. destruct (decide (g = f)) as [->|Hne]; [apply lookup_delete_eq|]. rewrite lookup_delete_ne by done. apply T7; [done|]. rewrite lookup_delete_ne in Hk0 by done. done.
  - intros id' v. destruct (decide (0 <= v < VPAGES)) as [Hv|]; [left|by right]. unfold page. destruct (D !! id') as [pd'|] eqn:Hd'; [|done]. unfold pte.
    rewrite He by (intros ->; pose proof (T1 _ _ Hd'); congruence). destruct (is_present (ent s pd' (v / 1024))) eqn:Ep; [|done].
    apply He. intros E. pose proof (T2 id' pd' (v / 1024) Hd' ltac:(unfold VPAGES in Hv; zdiv) Ep) as Hkt. rewrite E in Hkt. congruence.
  - intros g o Hg. apply lookup_delete_Some in Hg as [Hne _]. by apply Hb.
  - done.
  - done.
  - done.
Qed.

(** A page given back: its frame dropped, and the entry cleared. *)
Lemma drop_step K s v e : inv strict K D s -> user v -> is_present (ent s pd (v / 1024)) = true -> is_present (page s D id v) = true ->
  fits 32 e -> is_present e = false ->
  one_page D id v s (set_ent (free_frames s (page s D id v ≫ 12) 1) (ent s pd (v / 1024) ≫ 12) (v mod 1024) e).
Proof.
  intros HI Hv Hp Hpp Hf He. pose proof HI as [HT HM HK]. set (f := page s D id v ≫ 12).
  assert (refs (page s D) f (id, v)) as Href by done. pose proof (m_data _ _ _ _ HM f _ Href) as Hkf.
  destruct (free_one_ok K s f HT Hkf) as (HT1 & Hpg & Hb & Hsh & Hre & Hent). set (s1 := free_frames s f 1) in *.
  assert (ent s1 pd (v / 1024) = ent s pd (v / 1024)) as Hpde by (apply Hent; intros ->; pose proof (t_dir _ _ _ HT _ _ Hd); congruence).
  rewrite <- Hpde in Hp |- *.
  destruct (set_pte_wrote (drop_kind K (shared s) f) D s1 id pd v e HT1 Hd (user_page v Hv) Hp Hf) as [HT' [W1 W2 W3 W4]].
  assert (forall id' v', 0 <= v' < VPAGES -> page (set_ent s1 (ent s1 pd (v / 1024) ≫ 12) (v mod 1024) e) D id' v' = upd (page s D) id v e id' v') as Hup.
  { intros id' v' Hv'. rewrite W1 by done. unfold upd. case_bool_decide; [done|]. destruct (Hpg id' v'); [done|lia]. }
  apply (finish D s K (drop_kind K (shared s) f) id v e); try done.
  - rewrite W3, Hsh. eapply mappings_ext; [intros; apply Hup; by apply user_page|]. by apply (map_drop strict).
  - intros g o _ Hg. rewrite W2 by done. by apply Hb.
Qed.

(** ** The operations on one page *)

Lemma read_pde K s i : tables K D s -> read_entry s pd i = Some (ent s pd i).
Proof. intros HT. by apply (read_dir K D s HT id). Qed.

Lemma write_pte K s v e : tables K D s -> 0 <= v < VPAGES -> is_present (ent s pd (v / 1024)) = true ->
  write_entry s (ent s pd (v / 1024) ≫ 12) (v mod 1024) e = Some (set_ent s (ent s pd (v / 1024) ≫ 12) (v mod 1024) e).
Proof. intros HT Hv Hp. apply write_entry_ok. apply (tab_frame K D s HT id pd _ Hd); [unfold VPAGES in Hv; zdiv|done]. Qed.

Lemma one_page_refl s v : good D s -> one_page D id v s s.
Proof. intros Hg. by split. Qed.

Lemma unmap_step s v s' : good D s -> user v -> unmap_page s pd (v * 4096) = Some s' -> one_page D id v s s'.
Proof.
  intros [K HI] Hv Hu. pose proof HI as [HT HM HK]. pose proof (user_page v Hv) as Hv'. unfold unmap_page in Hu. destruct (page_index v Hv') as [Hi Hj].
  rewrite Hi, Hj, (read_pde K) in Hu by done. cbn [mbind option_bind] in Hu. destruct (is_present _) eqn:Ep; [|injection Hu as <-; apply one_page_refl; by exists K].
  rewrite (write_pte K) in Hu by done. injection Hu as <-. by apply (clear_step K).
Qed.

Lemma free_entry_step s v s' : good D s -> user v -> is_present (ent s pd (v / 1024)) = true ->
  free_entry (ent s pd (v / 1024) ≫ 12) (v mod 1024) s = Some s' ->
  one_page D id v s s' /\ is_present (page s' D id v) = false /\ forall i, ent s' pd i = ent s pd i.
Proof.
  intros [K HI] Hv Ep Hu. pose proof HI as [HT HM HK]. pose proof (user_page v Hv) as Hv'. unfold free_entry in Hu.
  rewrite (read_pte K) in Hu by done. cbn [mbind option_bind] in Hu.
  destruct (is_present (page s D id v)) eqn:Epp; [|injection Hu as <-; split_and!; [apply one_page_refl; by exists K|done|done]].
  assert (K !! (page s D id v ≫ 12) = Some Data) as Hk by (apply (m_data _ _ _ _ HM _ (id, v)); done).
  rewrite write_entry_ok in Hu by (apply (tab_frame K D s HT id pd _ Hd); [unfold VPAGES in Hv'; zdiv|done]). injection Hu as <-.
  split; [by apply (drop_step K)|]. destruct (free_one_ok K s (page s D id v ≫ 12) HT Hk) as (HT1 & _ & _ & _ & _ & Hent).
  assert (forall i, ent (free_frames s (page s D id v ≫ 12) 1) pd i = ent s pd i) as Hpde
    by (intros i; apply Hent; intros E; pose proof (t_dir _ _ _ HT _ _ Hd); congruence).
  split; [|intros i; rewrite ent_set_ne; [apply Hpde|]; left; intros E; pose proof (t_dir _ _ _ HT _ _ Hd) as Hkd; rewrite E in Hkd;
    pose proof (t_tab _ _ _ HT id pd (v / 1024) Hd ltac:(unfold VPAGES in Hv'; zdiv) Ep); congruence].
  rewrite <- (Hpde (v / 1024)) in Ep |- *. rewrite (set_pte_page _ D _ HT1 id pd v 0 id v) by (done || unfold fits; lia). by rewrite bool_decide_eq_true_2.
Qed.

Lemma cd_absent : fits 32 CACHE_DISABLE /\ is_present CACHE_DISABLE = false.
Proof. by vm_compute. Qed.

Lemma mmio_step s v s' : good D s -> user v -> map_mmio_one pd (v * 4096) s = Some s' -> one_page D id v s s'.
Proof.
  intros [K HI] Hv Hm. pose proof HI as [HT HM HK]. pose proof (user_page v Hv) as Hv'. unfold map_mmio_one in Hm. destruct cd_absent as [C1 C2].
  destruct (table_for s pd (v * 4096)) as [[pt s1]|] eqn:Et; [|done]. cbn [mbind option_bind] in Hm. destruct (page_index v Hv') as [Hi Hj]. rewrite Hj in Hm.
  destruct (table_for_ok K D s id pd v pt s1 HT Hd Hv' Et) as (K' & HT' & Hsub & Hdata & Hp & -> & [Q1 Q2 Q3 Q4]).
  assert (inv strict K' D s1) as HI1.
  { split; [done| |].
    - rewrite Q3. eapply mappings_ext; [intros; apply Q1; by apply user_page|]. eapply mappings_kinds; [|exact HM]. intros f Hf. by eapply lookup_weaken.
    - intros id' pd' v2 Hd2 Hv2. rewrite Q1 by pages. rewrite (HK id' pd' v2 Hd2 Hv2). unfold rest in Q4. by inversion Q4. }
  assert (one_page D id v s1 s') as [G1 G2 G3].
  { rewrite (read_pte K') in Hm by done. cbn [mbind option_bind] in Hm. rewrite write_entry_ok in Hm by (apply (tab_frame K' D s1 HT' id pd _ Hd); [unfold VPAGES in Hv'; zdiv|done]).
    injection Hm as <-. destruct (is_present (page s1 D id v)) eqn:Epp; [by apply (drop_step K')|by apply (clear_step K')]. }
  split; [done|by rewrite G2|]. intros x Hx Hne o. rewrite (G3 x Hx Hne). unfold view. rewrite Q1 by (by apply user_page).
  destruct (is_present (page s D (fst x) (snd x))) eqn:Ex; [|done]. f_equal. apply Q2. by apply (m_data _ _ _ _ HM _ x).
Qed.

(** Write protection. *)
Lemma protect_step s v s' : good D s -> user v -> set_writable_one pd (v * 4096) false s = Some s' ->
  good D s' /\ rest s' = rest s /\ forall x, user (snd x) -> same D s s' x.
Proof.
  intros [K HI] Hv Hm. pose proof HI as [HT HM HK]. pose proof (user_page v Hv) as Hv'. unfold set_writable_one in Hm. destruct (page_index v Hv') as [Hi Hj].
  rewrite Hi, Hj, (read_pde K) in Hm by done. cbn [mbind option_bind] in Hm.
  assert (good D s /\ rest s = rest s /\ forall x, user (snd x) -> same D s s x) as Hid by (split_and!; [by exists K|done|done]).
  destruct (is_present _) eqn:Ep; cbn [negb] in Hm; [|by injection Hm as <-].
  rewrite (read_pte K) in Hm by done. cbn [mbind option_bind] in Hm. destruct (is_present (page s D id v)) eqn:Epp; cbn [negb] in Hm; [|by injection Hm as <-].
  rewrite (write_pte K) in Hm by done. injection Hm as <-. set (e := page s D id v .& bnot 32 WRITABLE).
  pose proof (page_fits s v) as Hfp. assert (fits 32 WRITABLE) as Hfw by (unfold fits; vm_compute; done).
  assert (fits 32 e) as Hfe by (apply fits_clear; [lia|done|apply Hfw]).
  assert (forall k, 0 <= k < 32 -> Z.testbit e k = Z.testbit (page s D id v) k && negb (Z.eqb k 1)) as Hbits.
  { intros k Hk. unfold e. rewrite Z.land_spec, testbit_bnot by lia. f_equal. unfold WRITABLE. rewrite testbit_bit by lia.
    destruct (Z.eqb_spec k 1); [rewrite bool_decide_eq_true_2 by done|rewrite bool_decide_eq_false_2 by done]; destruct (Z.ltb_spec k 32); try lia; done. }
  assert (is_present e = true) as Hpe.
  { unfold is_present, has_flag, PRESENT in *. rewrite land_bit_eqb in * by lia. rewrite Hbits by lia. by rewrite Epp. }
  assert (writable e = false) as Hwe.
  { unfold writable, has_flag, WRITABLE. rewrite land_bit_eqb by lia. rewrite Hbits by lia. apply andb_false_r. }
  assert (e ≫ 12 = page s D id v ≫ 12) as Hef.
  { apply Z.bits_inj'. intros k Hk. rewrite !Z.shiftr_spec by lia. destruct (Z.lt_ge_cases (k + 12) 32).
    - rewrite Hbits by lia. destruct (Z.eqb_spec (k + 12) 1); [lia|]. apply andb_true_r.
    - by rewrite !(fits_high 32) by (done || lia). }
  destruct (set_pte_wrote K D s id pd v e HT Hd Hv' Ep Hfe) as [HT' [W1 W2 W3 W4]].
  assert (refs (page s D) (page s D id v ≫ 12) (id, v)) as Href by done.
  assert (one_page D id v s (set_ent s (ent s pd (v / 1024) ≫ 12) (v mod 1024) e)) as [G1 G2 G3].
  { apply (finish D s K K id v e); try done; [|intros; by apply W2]. rewrite W3. eapply mappings_ext; [intros; apply W1; by apply user_page|].
    eapply map_demote; [exact HM|exact Href|done|done|done]. }
  split_and!; [done|done|]. intros x Hx. destruct (decide (x = (id, v))) as [->|Hne]; [|by apply G3].
  intros o. unfold view. cbn [fst snd]. rewrite W1, upd_eq, Hpe, Epp, Hef by (by apply user_page). f_equal. apply W2. by apply (m_data _ _ _ _ HM _ (id, v)).
Qed.

(** ** Data frames *)

(** New contents for a data frame. *)
Definition fill (s : St) (f : Z) (m : gmap Z Z) : St := set_ram s (<[f := m]> (ram s)).

Lemma byte_fill s f m g o : byte (fill s f m) g o = if bool_decide (g = f) then default 0 (m !! o) else byte s g o.
Proof. unfold byte, frame, fill. cbn [ram set_ram]. case_bool_decide as E; [subst; by rewrite lookup_insert_eq|]. by rewrite lookup_insert_ne. Qed.

Lemma ent_fill s f m g i : g <> f -> ent (fill s f m) g i = ent s g i.
Proof. intros Hg. unfold ent. f_equal. apply list_fmap_ext. intros j o _. rewrite byte_fill. by rewrite bool_decide_eq_false_2. Qed.

Lemma fill_ok K s f m : tables K D s -> K !! f = Some Data ->
  tables K D (fill s f m) /\ forall id' v, 0 <= v < VPAGES -> page (fill s f m) D id' v = page s D id' v.
Proof.
  intros HT Hk. pose proof HT as [T1 T2 T3 T4 T5 T6 T7].
  assert (forall id' pd' i, D !! id' = Some pd' -> ent (fill s f m) pd' i = ent s pd' i) as He.
  { intros id' pd' i Hd'. apply ent_fill. intros ->. pose proof (T1 _ _ Hd'). congruence. }
  split.
  - split; try done.
    + intros id' pd' i Hd' Hi. rewrite (He _ _ _ Hd'). by apply T2.
    + intros g Hg Hkg. unfold fill. cbn. rewrite lookup_insert_ne; [by apply T7|congruence].
  - intros id' v Hv. unfold page. destruct (D !! id') as [pd'|] eqn:Hd'; [|done]. unfold pte. rewrite (He _ _ _ Hd').
    destruct (is_present _) eqn:Ep; [|done]. apply ent_fill. intros E. pose proof (T2 id' pd' (v / 1024) Hd' ltac:(unfold VPAGES in Hv; zdiv) Ep) as Hkt.
    rewrite E in Hkt. congruence.
Qed.

(** A byte stored through a writable page. *)
Lemma store_step s v o b : good D s -> user v -> is_present (page s D id v) = true -> writable (page s D id v) = true ->
  let s' := set_byte (page s D id v ≫ 12) o s b in
  good D s' /\ rest s' = rest s /\ view D s' (id, v) o = Some b /\
  (forall x, user (snd x) -> fst x <> id -> same D s s' x) /\
  (forall x o', user (snd x) -> page s D (fst x) (snd x) ≫ 12 <> page s D id v ≫ 12 \/ o' <> o -> view D s' x o' = view D s x o') /\
  (forall id' v', 0 <= v' < VPAGES -> page s' D id' v' = page s D id' v').
Proof.
  intros [K HI] Hv Hp Hw s'. pose proof HI as [HT HM HK]. set (f := page s D id v ≫ 12) in *.
  assert (refs (page s D) f (id, v)) as Href by done. pose proof (m_data _ _ _ _ HM f _ Href) as Hkf.
  assert (s' = fill s f (<[o := b]> (frame s f))) as Es by reflexivity. clearbody s'. subst s'. set (s' := fill s f (<[o := b]> (frame s f))).
  destruct (fill_ok K s f (<[o := b]> (frame s f)) HT Hkf) as [HT' Hpg]. fold s' in HT', Hpg.
  assert (forall x o', user (snd x) -> page s D (fst x) (snd x) ≫ 12 <> f \/ o' <> o -> view D s' x o' = view D s x o') as Hother.
  { intros x o' Hx Hne. unfold view. rewrite Hpg by (by apply user_page). destruct (is_present _); [|done]. f_equal. unfold s'. rewrite byte_fill. case_bool_decide as E; [|done].
    rewrite lookup_insert_ne by (destruct Hne; congruence). by rewrite E. }
  split_and!; [|done| | |done|done].
  - exists K. split; [done| |].
    + eapply mappings_ext; [|exact HM]. intros. apply Hpg. by apply user_page.
    + intros id' pd' v' Hd' Hv'. rewrite Hpg by pages. by apply (HK id' pd').
  - unfold view. cbn [fst snd]. rewrite Hpg, Hp by (by apply user_page). fold f. unfold s'. rewrite byte_fill, bool_decide_eq_true_2 by done. by rewrite lookup_insert_eq.
  - intros x Hx Hne o'. destruct (is_present (page s D (fst x) (snd x))) eqn:Ex.
    + apply Hother; [done|]. left. intros E. destruct (m_write _ _ _ _ HM f (id, v) x) as [E'|[]]; done.
    + unfold view. rewrite Hpg by (by apply user_page). by rewrite Ex.
Qed.
End Steps.

(** * Translation *)

Definition phys_addr (e a : Z) : Z := (e .& bnot 32 0xFFF) .| (a .& 0xFFF).

Lemma testbit_low12 k : 0 <= k -> Z.testbit 0xFFF k = (k <? 12).
Proof. intros Hk. change 0xFFF with (Z.ones 12). rewrite Z.testbit_ones by lia. destruct (Z.leb_spec 0 k); [done|lia]. Qed.

Lemma phys_addr_frame e a : fits 32 e -> phys_addr e a ≫ 12 = e ≫ 12.
Proof.
  intros He. apply Z.bits_inj'. intros k Hk. rewrite !Z.shiftr_spec by lia. unfold phys_addr.
  rewrite Z.lor_spec, !Z.land_spec, (testbit_low12 (k + 12)) by lia. rewrite (proj2 (Z.ltb_ge (k + 12) 12)) by lia. rewrite andb_false_r, orb_false_r.
  destruct (Z.lt_ge_cases (k + 12) 32); [|by rewrite (fits_high 32 e) by (done || lia)].
  rewrite testbit_bnot, testbit_low12 by lia. rewrite (proj2 (Z.ltb_ge (k + 12) 12)) by lia. apply andb_true_r.
Qed.

Lemma translate_ok K D s id pd a : tables K D s -> D !! id = Some pd -> 0 <= a < 2 ^ 32 ->
  translate s pd a = Some (if is_present (page s D id (a / 4096)) then Some (phys_addr (page s D id (a / 4096)) a) else None).
Proof.
  intros HT Hd Ha. assert (0 <= a / 4096 < VPAGES) as Hv by (unfold VPAGES; zdiv). unfold translate. destruct (addr_index a Ha) as [-> ->].
  rewrite (read_pde D id pd Hd K) by done. cbn [mbind option_bind]. destruct (is_present (ent s pd (a / 4096 / 1024))) eqn:Ep; cbn [negb].
  - rewrite (read_pte D id pd Hd K) by done. cbn [mbind option_bind]. by destruct (is_present (page s D id (a / 4096))).
  - by rewrite (page_absent D id pd Hd) by done.
Qed.

Lemma page_of v : 0 <= v < VPAGES -> 0 <= v * 4096 < 2 ^ 32 /\ v * 4096 / 4096 = v.
Proof. unfold VPAGES. intros. rewrite Z.div_mul by lia. lia. Qed.

Lemma mask_page a : 0 <= a < 2 ^ 32 -> a .& bnot 32 0xFFF = a / 4096 * 4096.
Proof.
  intros Ha. change 4096 with (2 ^ 12). rewrite <- Z.shiftr_div_pow2, <- Z.shiftl_mul_pow2 by lia. apply Z.bits_inj'. intros k Hk.
  rewrite Z.land_spec, Z.shiftl_spec by lia. destruct (Z.lt_ge_cases k 32); [|rewrite (fits_high 32 a) by (done || lia);
    rewrite Z.shiftr_spec by lia; replace (k - 12 + 12) with k by lia; by rewrite (fits_high 32 a) by (done || lia)].
  rewrite testbit_bnot, testbit_low12 by lia. destruct (Z.ltb_spec k 12).
  - rewrite (Z.testbit_neg_r _ (k - 12)) by lia. apply andb_false_r.
  - rewrite Z.shiftr_spec by lia. replace (k - 12 + 12) with k by lia. apply andb_true_r.
Qed.

(** * Page faults and copies of entries *)

Section Active.
Context (s : St) (pd : Z) (Hact : spaces s !! active s = Some pd).
Notation D := (spaces s).
Notation id := (active s).

Definition all_same (s' : St) : Prop := forall x, user (snd x) -> same D s s' x.

(** The entry of a page the space has alone. *)
Lemma rw_entry g : 0 <= g < FRAMES ->
  fits 32 (make_entry g ENTRY_FLAGS) /\ make_entry g ENTRY_FLAGS ≫ 12 = g /\ is_present (make_entry g ENTRY_FLAGS) = true /\ writable (make_entry g ENTRY_FLAGS) = true.
Proof.
  intros Hg. destruct fits_flags as (F1 & _ & _). split_and!; [by apply entry_fits|by apply entry_frame|by rewrite entry_present|]. unfold writable, WRITABLE. by rewrite entry_flag.
Qed.

(** What becomes of a copy-on-write page: all memory reads as before and the page
    is writable. *)
Definition privatised (v : Z) (s' : St) : Prop :=
  good D s' /\ rest s' = rest s /\ all_same s' /\ is_present (page s' D id v) = true /\ writable (page s' D id v) = true.

(** Its frame is no longer shared: the page becomes writable. *)
Lemma cow_keep K v : inv strict K D s -> user v -> is_present (ent s pd (v / 1024)) = true -> is_present (page s D id v) = true ->
  shared s !! (page s D id v ≫ 12) = None -> privatised v (set_ent s (ent s pd (v / 1024) ≫ 12) (v mod 1024) (make_entry (page s D id v ≫ 12) ENTRY_FLAGS)).
Proof.
  intros HI Hv Ep Epp Ec. pose proof HI as [HT HM HK]. pose proof (user_page v Hv) as Hv'. set (f := page s D id v ≫ 12) in *.
  assert (refs (page s D) f (id, v)) as Href by done. pose proof (m_data _ _ _ _ HM f _ Href) as Hkf.
  destruct (rw_entry f (kind_frame K D s HT f _ Hkf)) as (E1 & E2 & E3 & E4).
  destruct (set_pte_wrote K D s id pd v (make_entry f ENTRY_FLAGS) HT Hact Hv' Ep E1) as [HT3 [W1 W2 W3 W4]]. set (s3 := set_ent s _ _ _) in *.
  assert (one_page D id v s s3) as [G1 G2 G3].
  { apply (finish D s K K id v (make_entry f ENTRY_FLAGS)); try done; [|intros; by apply W2]. rewrite W3.
    eapply mappings_ext; [intros; apply W1; by apply user_page|]. by eapply map_promote. }
  split_and!; [done|done| |by rewrite W1, upd_eq by done|by rewrite W1, upd_eq by done].
  intros x Hx. destruct (decide (x = (id, v))) as [->|Hne]; [|by apply G3]. intros o. unfold view. cbn [fst snd]. rewrite W1, upd_eq, E3, E2, Epp by done.
  f_equal. by apply W2.
Qed.

(** Its frame is shared: the page gets a copy of its own. *)
Lemma cow_copy K v g s1 c : inv strict K D s -> user v -> is_present (ent s pd (v / 1024)) = true -> is_present (page s D id v) = true ->
  let f := page s D id v ≫ 12 in
  shared s !! f = Some c -> alloc_frames s 1 = Some (g, s1) ->
  let s2 := fill s1 g (frame s1 f) in
  (forall i, ent s2 pd i = ent s pd i) /\ privatised v (free_frames (set_ent s2 (ent s2 pd (v / 1024) ≫ 12) (v mod 1024) (make_entry g ENTRY_FLAGS)) f 1).
Proof.
  intros HI Hv Ep Epp f Ec Ea s2. pose proof HI as [HT HM HK]. pose proof (user_page v Hv) as Hv'.
  assert (refs (page s D) f (id, v)) as Href by done. pose proof (m_data _ _ _ _ HM f _ Href) as Hkf.
  destruct (alloc_one K D s g s1 HT Ea) as (Hkg & Hgr & Hram & Hsh1 & Hre1 & Hk1). set (K1 := <[g := Data]> K) in *. destruct (rw_entry g ltac:(lia)) as (E1 & E2 & E3 & E4).
  assert (g <> f) as Hgf by congruence.
  assert (K1 !! g = Some Data) as Hk1g by apply lookup_insert_eq. assert (K1 !! f = Some Data) as Hk1f by (unfold K1; by rewrite lookup_insert_ne).
  destruct (fill_ok D K1 s1 g (frame s1 f) (Hk1 Data) Hk1g) as [HT2 Hpg2]. fold s2 in HT2, Hpg2.
  assert (forall i, ent s2 pd i = ent s pd i) as He2.
  { intros i. unfold s2. rewrite ent_fill; [unfold ent, byte, frame; by rewrite Hram|]. intros ->. pose proof (t_dir _ _ _ HT _ _ Hact). congruence. }
  split; [done|]. rewrite <- (He2 (v / 1024)) in Ep.
  destruct (set_pte_wrote K1 D s2 id pd v (make_entry g ENTRY_FLAGS) HT2 Hact Hv' Ep E1) as [HT3 [W1 W2 W3 W4]]. set (s3 := set_ent s2 _ _ _) in *.
  assert (shared s3 = shared s) as Hsh3 by (rewrite W3; exact Hsh1).
  destruct (free_one_ok D K1 s3 f HT3 Hk1f) as (HT4 & Hpg4 & Hb4 & Hsh4 & Hre4 & _).
  assert (drop_kind K1 (shared s3) f = K1) as Hdk by (unfold drop_kind; by rewrite Hsh3, Ec). rewrite Hdk in *.
  assert (forall id' v', 0 <= v' < VPAGES -> page (free_frames s3 f 1) D id' v' = upd (page s D) id v (make_entry g ENTRY_FLAGS) id' v') as Hup.
  { intros id' v' Hr. destruct (Hpg4 id' v') as [->|]; [|lia]. rewrite W1 by done. unfold upd. case_bool_decide; [done|]. rewrite Hpg2 by done. by apply page_ram. }
  assert (forall h o, K1 !! h = Some Data -> byte (free_frames s3 f 1) h o = if bool_decide (h = g) then byte s f o else byte s h o) as Hbyte.
  { intros h o Hh. rewrite Hb4, W2 by done. unfold s2. rewrite byte_fill. unfold byte, frame. by rewrite Hram. }
  assert (one_page D id v s (free_frames s3 f 1)) as [G1 G2 G3].
  { apply (finish D s K K1 id v (make_entry g ENTRY_FLAGS)); try done.
    - rewrite Hsh4, Hsh3. pose proof (map_drop strict K (page s D) (shared s) HM f id v 0 Href eq_refl) as HM1.
      unfold drop_kind in HM1. rewrite Ec in HM1. pose proof (map_fresh strict K _ _ HM1 g id v (make_entry g ENTRY_FLAGS) Hkg E3 E2) as HM2.
      eapply mappings_ext; [|exact HM2]. intros id' v' Hr. rewrite Hup by (by apply user_page). unfold upd. by case_bool_decide.
    - intros h o Hh _. rewrite Hbyte by (unfold K1; rewrite lookup_insert_ne; [done|congruence]). rewrite bool_decide_eq_false_2; [done|congruence].
    - rewrite Hre4, W4. exact Hre1. }
  split_and!; [done|done| |by rewrite Hup, upd_eq by done|by rewrite Hup, upd_eq by done].
  intros x Hx. destruct (decide (x = (id, v))) as [->|Hne]; [|by apply G3]. intros o. unfold view. cbn [fst snd]. rewrite Hup, upd_eq, E3, E2, Epp by done.
  f_equal. fold f. rewrite Hbyte by done. by rewrite bool_decide_eq_true_2.
Qed.

Lemma cow_step a r s' : good D s -> 0 <= a < 2 ^ 32 -> user (a / 4096) -> space_cow_fault s a = Some (r, s') ->
  good D s' /\ rest s' = rest s /\ all_same s' /\
  (r = true -> is_present (page s' D id (a / 4096)) = true /\ writable (page s' D id (a / 4096)) = true).
Proof.
  intros HG Ha Hv Hc. pose proof HG as [K HI]. pose proof HI as [HT HM HK]. set (v := a / 4096) in *. pose proof (user_page v Hv) as Hv'.
  unfold space_cow_fault, active_pd in Hc. rewrite Hact in Hc. cbn [mbind option_bind] in Hc. destruct (addr_index a Ha) as [Hi Hj]. rewrite Hi, Hj in Hc. fold v in Hc.
  rewrite (read_pde D id pd Hact K) in Hc by done. cbn [mbind option_bind] in Hc.
  assert (good D s /\ rest s = rest s /\ all_same s /\ (false = true -> is_present (page s D id v) = true /\ writable (page s D id v) = true)) as Hno by (split_and!; done).
  assert (privatised v s' -> good D s' /\ rest s' = rest s /\ all_same s' /\ (r = true -> is_present (page s' D id v) = true /\ writable (page s' D id v) = true)) as Hyes
    by (intros (P1 & P2 & P3 & P4 & P5); done).
  destruct (is_present (ent s pd (v / 1024))) eqn:Ep; cbn [negb] in Hc; [|by injection Hc as <- <-].
  assert (0 <= v / 1024 < 1024) as Hpi by (unfold VPAGES in Hv'; zdiv).
  rewrite (read_pte D id pd Hact K) in Hc by done. cbn [mbind option_bind] in Hc.
  destruct (is_present (page s D id v)) eqn:Epp; cbn [negb orb] in Hc; [|by injection Hc as <- <-].
  destruct (has_flag (page s D id v) COW); cbn [negb] in Hc; [|by injection Hc as <- <-].
  pose proof (m_data _ _ _ _ HM _ (id, v) (conj Hv (conj Epp eq_refl))) as Hkf. pose proof (kind_frame K D s HT _ _ Hkf) as Hfr. cbn [fst snd] in Hfr.
  apply Hyes. unfold is_shared in Hc. destruct (shared s !! (page s D id v ≫ 12)) as [c|] eqn:Ec.
  - destruct (alloc_frames s 1) as [[g s1]|] eqn:Ea; [|done]. cbn [mbind option_bind fst snd] in Hc. destruct (alloc_one K D s g s1 HT Ea) as (_ & Hgr & _).
    rewrite !frame_ptr_ok in Hc by lia. cbn [mbind option_bind] in Hc. fold (fill s1 g (frame s1 (page s D id v ≫ 12))) in Hc.
    destruct (cow_copy K v g s1 c HI Hv Ep Epp Ec Ea) as [He2 HP]. rewrite He2 in HP.
    rewrite write_entry_ok in Hc by (apply (tab_frame K D s HT id pd _ Hact Hpi Ep)). cbn [mbind option_bind] in Hc. by injection Hc as <- <-.
  - rewrite write_entry_ok in Hc by (apply (tab_frame K D s HT id pd _ Hact Hpi Ep)). cbn [mbind option_bind] in Hc. injection Hc as <- <-. by apply (cow_keep K).
Qed.

Lemma demand_step a r s' : good D s -> 0 <= a < 2 ^ 32 -> user (a / 4096) -> space_demand s a = Some (r, s') ->
  good D s' /\ rest s' = rest s /\ (forall x, user (snd x) -> x <> (id, a / 4096) -> same D s s' x) /\
  (is_present (page s D id (a / 4096)) = false -> r = true ->
     is_present (page s' D id (a / 4096)) = true /\ writable (page s' D id (a / 4096)) = true /\ forall o, view D s' (id, a / 4096) o = Some 0) /\
  (is_present (page s D id (a / 4096)) = true \/ r = false -> s' = s).
Proof.
  intros [K HI] Ha Hv Hc. pose proof HI as [HT HM HK]. set (v := a / 4096) in *. unfold space_demand, active_pd in Hc. rewrite Hact in Hc. cbn [mbind option_bind] in Hc.
  rewrite (translate_ok K D s id pd a HT Hact Ha) in Hc. cbn [mbind option_bind] in Hc. fold v in Hc.
  assert (good D s /\ rest s = rest s /\ (forall x, user (snd x) -> x <> (id, v) -> same D s s x)) as (N1 & N2 & N3) by (split_and!; [by exists K|done|done]).
  destruct (is_present (page s D id v)) eqn:Ep; [injection Hc as <- <-; split_and!; done|].
  destruct (pte_raw s pd a) as [raw|]; [|done]. cbn [mbind option_bind] in Hc.
  destruct (has_flag raw CACHE_DISABLE); [injection Hc as <- <-; split_and!; done|].
  destruct (_ || _); [injection Hc as <- <-; split_and!; done|].
  destruct (alloc_frames s 1) as [[f s1]|] eqn:Ea; [|done]. cbn [mbind option_bind fst snd] in Hc. rewrite (mask_page a Ha) in Hc. fold v in Hc.
  destruct (map_page s1 pd (v * 4096) f true) as [s2|] eqn:Em; [|done]. cbn [mbind option_bind] in Hc. injection Hc as <- <-.
  destruct (fresh_step D id pd Hact K s v f s1 s2 HI Hv Ea Em) as ([G1 G2 G3] & F1 & F2 & F3 & _). split_and!; try done. by intros [?|?].
Qed.

(** The state in which the frame of a page has been given back and the page is
    about to be written. *)
Record dropped (K1 : gmap Z kind) (v : Z) (s1 : St) : Prop := {
  d_tables : tables K1 D s1;
  d_page : forall id' v', 0 <= v' < VPAGES -> page s1 D id' v' = page s D id' v';
  d_map : mappings strict K1 (upd (page s D) id v 0) (shared s1);
  d_byte : forall f o, K1 !! f = Some Data -> byte s1 f o = byte s f o;
  d_rest : rest s1 = rest s
}.

Lemma drop_old K v a : inv strict K D s -> user v ->
  exists K1, dropped K1 v (match (if is_present (page s D id v) then Some (phys_addr (page s D id v) a) else None) with
                           | Some pa => free_frames s (pa ≫ 12) 1 | None => s end).
Proof.
  intros [HT HM HK] Hv. destruct (is_present (page s D id v)) eqn:Ed.
  - rewrite phys_addr_frame by (apply (page_fits D id pd Hact)). set (f := page s D id v ≫ 12). assert (refs (page s D) f (id, v)) as Href by done.
    destruct (free_one_ok D K s f HT (m_data _ _ _ _ HM f _ Href)) as (T1 & P1 & B1 & S1 & R1 & _).
    eexists. split; [exact T1| | |done|done].
    + intros id' v' Hr. destruct (P1 id' v'); [done|lia].
    + rewrite S1. by apply (map_drop strict K).
  - exists K. split; try done. by apply map_clear.
Qed.

Lemma tables_inc K s1 f : tables K D s1 -> tables K D (inc_ref s1 f).
Proof. intros []. by split. Qed.

(** The page then maps the frame of another page of the space. *)
Lemma alias_step K K1 s1 sv dv s2 : inv strict K D s -> user sv -> user dv -> sv <> dv -> dropped K1 dv s1 -> is_present (page s D id sv) = true ->
  map_page s1 pd (dv * 4096) (page s D id sv ≫ 12) (writable (page s D id sv)) = Some s2 -> one_page D id dv s (inc_ref s2 (page s D id sv ≫ 12)).
Proof.
  intros HI Hsv Hdv Hne [HT1 Hp1 HM1 Hb1 Hr1] Es Em. pose proof HI as [HT HM HK]. pose proof (user_page _ Hdv) as Hdv'.
  set (f := page s D id sv ≫ 12) in *. set (w := writable (page s D id sv)) in *.
  assert (refs (upd (page s D) id dv 0) f (id, sv)) as Href by (apply refs_upd_ne; [congruence|done]).
  pose proof (m_data _ _ _ _ HM1 f _ Href) as Hkf. pose proof (kind_frame K1 D s1 HT1 f _ Hkf) as Hfr.
  destruct (map_page_wrote D id pd Hact K1 s1 dv f w s2 HT1 Hdv' Em) as (K2 & HT2 & Hsub & Hdata & [W1 W2 W3 W4]).
  set (e := make_entry f (if w then ENTRY_FLAGS else PRESENT .| USER)) in *. destruct fits_flags as (F1 & F2 & _).
  assert (e ≫ 12 = f) as Hef by (apply entry_frame; [done|by destruct w]).
  assert (is_present e = true) as Hpe by (unfold e; rewrite entry_present; by destruct w).
  assert (writable e = w) as Hwe by (unfold e, writable, WRITABLE; rewrite entry_flag by lia; by destruct w).
  assert (forall id' v', 0 <= v' < VPAGES -> page (inc_ref s2 f) D id' v' = upd (page s D) id dv e id' v') as Hup.
  { intros id' v' Hr. rewrite (page_ram s2) by done. rewrite W1 by done. unfold upd. case_bool_decide; [done|]. by apply Hp1. }
  apply (finish D s K K2 id dv e); try done; [by apply tables_inc| | |].
  - assert (shared (inc_ref s2 f) = <[f := count (shared s1) f + 1]> (shared s1)) as -> by (unfold inc_ref; cbn [shared set_shared]; by rewrite W3).
    eapply mappings_ext; [|eapply mappings_kinds; [|eapply (map_alias strict K1 (upd (page s D) id dv 0) (shared s1) HM1 f (id, sv) id dv e Href)]]; try done.
    + intros id' v' Hr. rewrite (Hup id' v') by (by apply user_page). unfold upd. by case_bool_decide.
    + intros g Hg. by eapply lookup_weaken.
    + by rewrite upd_eq.
    + rewrite Hwe. intros Hw. cbn [fst snd]. rewrite upd_ne by congruence. split_and!; [done|done|]. intros y Hy.
      destruct (m_write _ _ _ _ HM1 f (id, sv) y) as [E|[]]; try done. cbn [fst snd]. by rewrite upd_ne by congruence.
    + intros y Hy Hw. left. destruct (m_write _ _ _ _ HM1 f y (id, sv) Hy Href Hw) as [E|[]]. done.
  - intros g o Hg Hg2. transitivity (byte s2 g o); [done|]. rewrite W2, Hb1; [done|by apply Hdata|by apply Hdata].
  - transitivity (rest s2); [done|]. by rewrite W4.
Qed.

(** Or it becomes absent. *)
Lemma unmap_dropped K K1 s1 v s2 : inv strict K D s -> user v -> dropped K1 v s1 -> unmap_page s1 pd (v * 4096) = Some s2 -> one_page D id v s s2.
Proof.
  intros HI Hv [HT1 Hp1 HM1 Hb1 Hr1] Hc. pose proof (user_page _ Hv) as Hv'. unfold unmap_page in Hc. destruct (page_index v Hv') as [Hi Hj].
  rewrite Hi, Hj, (read_pde D id pd Hact K1) in Hc by done. cbn [mbind option_bind] in Hc.
  assert (exists K2, tables K2 D s2 /\ (forall f o, K1 !! f = Some Data -> byte s2 f o = byte s1 f o) /\ shared s2 = shared s1 /\ rest s2 = rest s1 /\ K2 = K1 /\
    forall id' v', 0 <= v' < VPAGES -> page s2 D id' v' = upd (page s D) id v 0 id' v') as (K2 & HT2 & Hb2 & Hsh2 & Hr2 & -> & Hup).
  { exists K1. destruct (is_present (ent s1 pd (v / 1024))) eqn:Ep.
    - rewrite (write_pte D id pd Hact K1) in Hc by done. injection Hc as <-.
      destruct (set_pte_wrote K1 D s1 id pd v 0 HT1 Hact Hv' Ep ltac:(unfold fits; lia)) as [HT2 [W1 W2 W3 W4]]. split_and!; try done.
      intros id' v' Hr. rewrite W1 by done. unfold upd. case_bool_decide; [done|]. by apply Hp1.
    - injection Hc as <-. split_and!; try done. intros id' v' Hr. unfold upd. case_bool_decide as E; [|by apply Hp1].
      destruct E as [-> ->]. by apply (page_absent D id pd Hact). }
  apply (finish D s K K1 id v 0); try done.
  - rewrite Hsh2. eapply mappings_ext; [|exact HM1]. intros. apply Hup. by apply user_page.
  - intros g o _ Hg. by rewrite Hb2, Hb1.
  - by rewrite Hr2.
Qed.

Lemma copy_step sv dv s' : good D s -> user sv -> user dv -> sv <> dv -> copy_entry pd (sv * 4096) (dv * 4096) s = Some s' -> one_page D id dv s s'.
Proof.
  intros [K HI] Hsv Hdv Hne Hc. pose proof HI as [HT HM HK]. pose proof (user_page _ Hsv) as Hsv'. pose proof (user_page _ Hdv) as Hdv'.
  destruct (page_of sv Hsv') as [Hsa Hsq], (page_of dv Hdv') as [Hda Hdq]. destruct (page_index sv Hsv') as [Hi Hj]. unfold copy_entry in Hc.
  rewrite (translate_ok K D s id pd _ HT Hact Hda), Hdq in Hc. cbn [mbind option_bind] in Hc.
  destruct (drop_old K dv (dv * 4096) HI Hdv) as [K1 Hdr]. match type of Hdr with dropped _ _ ?x => set (s1 := x) in *; clearbody s1 end.
  pose proof Hdr as [HT1 Hp1 _ _ _]. rewrite (translate_ok K1 D s1 id pd _ HT1 Hact Hsa), Hsq in Hc. cbn [mbind option_bind] in Hc. rewrite !Hp1 in Hc by done.
  destruct (is_present (page s D id sv)) eqn:Es; [|by eapply unmap_dropped].
  rewrite Hi, Hj in Hc. rewrite (read_pde D id pd Hact K1) in Hc by done. cbn [mbind option_bind] in Hc.
  rewrite phys_addr_frame in Hc by (apply (page_fits D id pd Hact)).
  assert (is_present (ent s1 pd (sv / 1024)) = true) as Epde.
  { destruct (is_present (ent s1 pd (sv / 1024))) eqn:E; [done|]. pose proof (page_absent D id pd Hact s1 sv E) as E0. rewrite Hp1 in E0 by done. by rewrite E0 in Es. }
  rewrite (read_pte D id pd Hact K1) in Hc by done. cbn [mbind option_bind] in Hc. rewrite Hp1 in Hc by done. fold (writable (page s D id sv)) in Hc.
  destruct (map_page s1 pd (dv * 4096) _ _) as [s2|] eqn:Em; [|done]. cbn [mbind option_bind] in Hc. injection Hc as <-. by eapply alias_step.
Qed.
End Active.
