(* ===== verification/PagingSpaces.v ===== *)
(** Whole address spaces: ranges of pages, cleaning and destruction, new spaces
    and fork. *)

From Stdlib Require Import ZArith Lia Bool.
From stdpp Require Import base option list numbers gmap.
From S2P Require Import Prelude Paging PagingFacts PagingSteps.
Local Open Scope machine_scope.

(** * Exchanged pages *)

Section Swap.
Context (D : gmap Z Z) (id pd : Z) (Hd : D !! id = Some pd).

Lemma quiet_inv K K' s s' : inv strict K D s -> tables K' D s' -> K ⊆ K' -> quiet K D s s' -> inv strict K' D s' /\ forall x, user (snd x) -> same D s s' x.
Proof.
  intros [HT HM HK] HT' Hsub [Q1 Q2 Q3 Q4]. split.
  - split; [done| |].
    + rewrite Q3. eapply mappings_ext; [intros; apply Q1; by apply user_page|]. eapply mappings_kinds; [|exact HM]. intros f Hf. by eapply lookup_weaken.
    + intros id' pd' v Hd' Hv. rewrite Q1 by pages. rewrite (HK id' pd' v Hd' Hv). unfold rest in Q4. by inversion Q4.
  - intros x Hx o. unfold view. rewrite Q1 by (by apply user_page). destruct (is_present _) eqn:Ep; [|done]. f_equal. apply Q2.
    by apply (m_data _ _ _ _ HM _ x).
Qed.

(** A table made for one page leaves the other directory entries alone. *)
Lemma table_for_dir K s v pt s' i : tables K D s -> 0 <= v < VPAGES -> table_for s pd (v * 4096) = Some (pt, s') -> i <> v / 1024 -> ent s' pd i = ent s pd i.
Proof.
  intros HT Hv Et Hi. unfold table_for in Et. destruct (page_index v Hv) as [Hiv _]. rewrite Hiv, (read_pde D id pd Hd K) in Et by done. cbn [mbind option_bind] in Et.
  destruct (is_present _); [by injection Et as <- <-|]. destruct (alloc_table s) as [[f s0]|] eqn:Eal; [|done]. cbn [mbind option_bind fst snd] in Et.
  destruct (alloc_table_ok K D s f s0 HT Eal) as (Hkf & _ & _ & _ & _ & _ & He & _). pose proof (t_dir _ _ _ HT _ _ Hd) as Hkd.
  pose proof (kind_frame _ _ _ HT _ _ Hkd). rewrite write_entry_ok in Et by lia. injection Et as <- <-. rewrite ent_set_ne by (by right). apply He. congruence.
Qed.

Lemma table_for_read K s v : tables K D s -> 0 <= v < VPAGES ->
  table_for s pd (v * 4096) = (if is_present (ent s pd (v / 1024)) then Some (ent s pd (v / 1024) ≫ 12, s) else
    r ← alloc_table s; s ← write_entry (snd r) pd (v / 1024) (make_entry (fst r) ENTRY_FLAGS); Some (fst r, s)).
Proof. intros HT Hv. unfold table_for. destruct (page_index v Hv) as [-> _]. by rewrite (read_pde D id pd Hd K). Qed.

(** The tables of both pages, one after the other. *)
Lemma swap_tables K s a b s' : inv strict K D s -> user a -> user b -> a / 1024 <> b / 1024 -> swap_entry pd (a * 4096) (b * 4096) s = Some s' ->
  exists K2 s2, inv strict K2 D s2 /\ rest s2 = rest s /\ (forall x, user (snd x) -> same D s s2 x) /\
    is_present (ent s2 pd (a / 1024)) = true /\ is_present (ent s2 pd (b / 1024)) = true /\
    (ae ← read_entry s2 (ent s2 pd (a / 1024) ≫ 12) (a mod 1024); be ← read_entry s2 (ent s2 pd (b / 1024) ≫ 12) (b mod 1024);
     s3 ← write_entry s2 (ent s2 pd (a / 1024) ≫ 12) (a mod 1024) be; write_entry s3 (ent s2 pd (b / 1024) ≫ 12) (b mod 1024) ae) = Some s'.
Proof.
  intros HI Ha Hb Hab Hs. pose proof HI as [HT HM HK]. pose proof (user_page a Ha) as Ha'. pose proof (user_page b Hb) as Hb'.
  destruct (page_index a Ha') as [Hia Hja], (page_index b Hb') as [Hib Hjb]. unfold swap_entry in Hs.
  rewrite Hia, Hib, Hja, Hjb, !(read_pde D id pd Hd K) in Hs by done. cbn [mbind option_bind] in Hs.
  rewrite <- (table_for_read K s a) in Hs by done. destruct (table_for s pd (a * 4096)) as [[pa s1]|] eqn:Ea; [|done]. cbn [mbind option_bind fst snd] in Hs.
  destruct (table_for_ok K D s id pd a pa s1 HT Hd Ha' Ea) as (K1 & HT1 & Hs1 & _ & Hp1 & -> & Q1).
  rewrite <- (table_for_dir K s a _ s1 (b / 1024) HT Ha' Ea) in Hs by congruence. rewrite <- (table_for_read K1 s1 b) in Hs by done.
  destruct (table_for s1 pd (b * 4096)) as [[pb s2]|] eqn:Eb; [|done]. cbn [mbind option_bind fst snd] in Hs.
  destruct (table_for_ok K1 D s1 id pd b pb s2 HT1 Hd Hb' Eb) as (K2 & HT2 & Hs2 & _ & Hp2 & -> & Q2).
  pose proof (table_for_dir K1 s1 b _ s2 (a / 1024) HT1 Hb' Eb Hab) as Hpa. rewrite <- Hpa in Hs, Hp1.
  destruct (quiet_inv K K1 s s1 HI HT1 Hs1 Q1) as [HI1 S1]. destruct (quiet_inv K1 K2 s1 s2 HI1 HT2 Hs2 Q2) as [HI2 S2].
  exists K2, s2. split_and!; try done.
  - by rewrite (q_rest _ _ _ _ Q2), (q_rest _ _ _ _ Q1).
  - intros x Hx o. by rewrite (S2 x Hx o), (S1 x Hx o).
Qed.

(** The two entries change places. *)
Definition exchange (a b : Z) (x : Z * Z) : Z * Z := if bool_decide (x = (id, a)) then (id, b) else if bool_decide (x = (id, b)) then (id, a) else x.

Lemma swap_step s a b s' : good D s -> user a -> user b -> a / 1024 <> b / 1024 -> swap_entry pd (a * 4096) (b * 4096) s = Some s' ->
  good D s' /\ rest s' = rest s /\ forall x o, user (snd x) -> view D s' x o = view D s (exchange a b x) o.
Proof.
  intros [K HI] Ha Hb Hab Hs. pose proof (user_page a Ha) as Ha'. pose proof (user_page b Hb) as Hb'. assert (a <> b) as Hne by (intros ->; done).
  destruct (swap_tables K s a b s' HI Ha Hb Hab Hs) as (K2 & s2 & HI2 & Hr2 & S2 & Hpa & Hpb & Hrw). clear Hs. pose proof HI2 as [HT2 HM2 HK2].
  rewrite !(read_pte D id pd Hd K2) in Hrw by done. cbn [mbind option_bind] in Hrw. rewrite (write_pte D id pd Hd K2) in Hrw by done. cbn [mbind option_bind] in Hrw.
  destruct (set_pte_wrote K2 D s2 id pd a (page s2 D id b) HT2 Hd Ha' Hpa (page_fits D id pd Hd s2 b)) as [HT3 [A1 A2 A3 A4]].
  assert (forall i, ent (set_ent s2 (ent s2 pd (a / 1024) ≫ 12) (a mod 1024) (page s2 D id b)) pd i = ent s2 pd i) as Hdir.
  { intros i. apply ent_set_ne. left. intros E. pose proof (t_dir _ _ _ HT2 _ _ Hd) as Hkd. rewrite E in Hkd.
    pose proof (t_tab _ _ _ HT2 id pd (a / 1024) Hd ltac:(unfold VPAGES in Ha'; zdiv) Hpa). congruence. }
  set (s3 := set_ent s2 _ _ _) in *. rewrite <- (Hdir (b / 1024)) in Hrw, Hpb. rewrite (write_pte D id pd Hd K2) in Hrw by done. injection Hrw as <-.
  destruct (set_pte_wrote K2 D s3 id pd b (page s2 D id a) HT3 Hd Hb' Hpb (page_fits D id pd Hd s2 a)) as [HT4 [B1 B2 B3 B4]]. set (s4 := set_ent s3 _ _ _) in *.
  assert (forall id' v', 0 <= v' < VPAGES -> page s4 D id' v' = swapped (page s2 D) id a b id' v') as Hsw.
  { intros id' v' Hv'. rewrite B1 by done. unfold upd at 1. rewrite A1 by done. unfold upd, swapped. repeat case_bool_decide; naive_solver. }
  split_and!.
  - exists K2. split; [done| |].
    + rewrite B3, A3. eapply mappings_ext; [intros; apply Hsw; by apply user_page|]. by apply map_swap.
    + intros id' pd' v' Hd' Hv'. rewrite Hsw by pages. unfold swapped. rewrite !(bool_decide_eq_false_2 (v' = _)) by pages.
      assert (windows s4 = windows s2) as -> by (unfold rest in *; congruence). rewrite <- (HK2 id' pd' v' Hd' Hv'). by case_bool_decide.
  - by rewrite B4, A4.
  - intros x o Hx. assert (user (snd (exchange a b x))) as Hux by (unfold exchange; repeat case_bool_decide; done). rewrite <- (S2 _ Hux).
    assert (swapped (page s2 D) id a b (fst x) (snd x) = page s2 D (fst (exchange a b x)) (snd (exchange a b x))) as E.
    { destruct x as [id' v']. unfold swapped, exchange. cbn. repeat case_bool_decide; cbn; naive_solver. }
    unfold view. rewrite Hsw, E by (by apply user_page). set (y := exchange a b x) in *.
    destruct (is_present (page s2 D (fst y) (snd y))) eqn:Ex; [|done]. f_equal. rewrite B2, A2; try done; by apply (m_data _ _ _ _ HM2 _ y).
Qed.
End Swap.

(** * Loops *)

Lemma for_each_app f a : forall b s, for_each (a ++ b) f s = (s ← for_each a f s; for_each b f s).
Proof. induction a as [|i a IH]; intros b s; [done|]. cbn [for_each app]. destruct (f i s) as [s1|]; [|done]. apply IH. Qed.

Lemma for_each_inv (I : St -> Prop) f l : forall s s', (forall i s s', i ∈ l -> I s -> f i s = Some s' -> I s') -> I s -> for_each l f s = Some s' -> I s'.
Proof.
  induction l as [|i l IH]; intros s s' Hf Hs Hl; [by injection Hl as <-|]. cbn [for_each] in Hl. destruct (f i s) as [s1|] eqn:E; [|done].
  apply (IH s1 s'); [intros; eapply Hf; eauto; by right|eapply Hf; eauto; left|done].
Qed.

(** Over numbers in order. *)
Lemma for_each_range (I : Z -> St -> Prop) f n s s' : 0 <= n ->
  (forall i s s', 0 <= i < n -> I i s -> f i s = Some s' -> I (i + 1) s') -> I 0 s -> for_each (seqZ 0 n) f s = Some s' -> I n s'.
Proof.
  intros Hn Hf Hs Hl. assert (forall m k s s', (0 <= k)%Z -> k + Z.of_nat m <= n -> I k s -> for_each (seqZ k (Z.of_nat m)) f s = Some s' -> I (k + Z.of_nat m) s') as Hg.
  { clear s s' Hs Hl. induction m as [|m IH]; intros k s s' Hk Hkn Hs Hl; [injection Hl as <-; by rewrite Z.add_0_r|].
    rewrite seqZ_cons in Hl by lia. cbn [for_each] in Hl. destruct (f k s) as [s1|] eqn:E; [|done]. cbn [mbind option_bind] in Hl.
    replace (Z.pred (Z.of_nat (S m))) with (Z.of_nat m) in Hl by lia. replace (Z.succ k) with (k + 1) in Hl by lia.
    replace (k + Z.of_nat (S m)) with ((k + 1) + Z.of_nat m) by lia. apply (IH (k + 1) s1 s'); [lia|lia| |done]. apply (Hf k s s1); [lia|done|done]. }
  specialize (Hg (Z.to_nat n) 0 s s' ltac:(lia)). rewrite Z2Nat.id in Hg by done. by apply Hg.
Qed.

(** A step that leaves the memory of the other spaces alone. *)
Record active_only (D : gmap Z Z) (id : Z) (s s' : St) : Prop := {
  a_good : good D s';
  a_rest : rest s' = rest s;
  a_same : forall x, user (snd x) -> fst x <> id -> same D s s' x
}.

Lemma active_only_refl D id s : good D s -> active_only D id s s.
Proof. intros. by split. Qed.

Lemma active_only_trans D id s1 s2 s3 : active_only D id s1 s2 -> active_only D id s2 s3 -> active_only D id s1 s3.
Proof. intros [A1 A2 A3] [B1 B2 B3]. split; [done|by rewrite B2|]. intros x Hx Hne o. by rewrite (B3 x Hx Hne o), (A3 x Hx Hne o). Qed.

Lemma one_page_active D id v s s' : one_page D id v s s' -> active_only D id s s'.
Proof. intros [O1 O2 O3]. split; [done|done|]. intros x Hx Hne. apply O3; [done|]. intros ->. done. Qed.

(** A range of user pages. *)
Definition user_range (vpage count : Z) : Prop := 0 <= vpage /\ 0 <= count /\ vpage + count <= UPAGES.

Lemma page_addr_ok vpage count i : user_range vpage count -> 0 <= i < count -> page_addr vpage i = (vpage + i) * 4096 /\ user (vpage + i).
Proof. intros (H1 & H2 & H3) Hi. unfold user. split; [|pages]. unfold page_addr. apply wrap_small. unfold fits, UPAGES in *. lia. Qed.

Section Ranges.
Context (s : St) (pd : Z) (Hact : spaces s !! active s = Some pd).
Notation D := (spaces s).
Notation id := (active s).

(** Loops over the pages of a range whose steps stay in the space. *)
Lemma range_loop (f : Z -> St -> option St) vpage count s' : good D s -> user_range vpage count ->
  (forall i s1 s2, 0 <= i < count -> good D s1 -> rest s1 = rest s -> f i s1 = Some s2 -> active_only D id s1 s2) ->
  for_each (seqZ 0 count) f s = Some s' -> active_only D id s s'.
Proof.
  intros Hg Hr Hf Hl. apply (for_each_inv (active_only D id s) f (seqZ 0 count) s s'); [|by apply active_only_refl|done].
  intros i s1 s2 Hi%elem_of_seqZ H1 H2. eapply active_only_trans; [exact H1|]. apply (Hf i); [lia|apply H1|apply H1|done].
Qed.

Lemma rest_fields s1 : rest s1 = rest s -> spaces s1 = D /\ active s1 = id.
Proof. unfold rest. by intros [= -> -> _ _]. Qed.

Lemma map_fresh_ok vpage count s' : good D s -> user_range vpage count -> space_map_fresh s vpage count = Some s' -> active_only D id s s'.
Proof.
  intros Hg Hr Hm. unfold space_map_fresh, active_pd in Hm. rewrite Hact in Hm. cbn [mbind option_bind] in Hm. eapply range_loop; [done|exact Hr| |exact Hm].
  intros i s1 s2 Hi [K HI] _ Hf. cbn beta in Hf. destruct (alloc_frames s1 1) as [[g s0]|] eqn:Ea; [|done]. cbn [mbind option_bind fst snd] in Hf.
  destruct (page_addr_ok vpage count i Hr Hi) as [Hpa Hu]. rewrite Hpa in Hf. eapply one_page_active. by eapply fresh_step.
Qed.

Lemma unmap_ok vpage count s' : good D s -> user_range vpage count -> space_unmap s vpage count = Some s' -> active_only D id s s'.
Proof.
  intros Hg Hr Hm. unfold space_unmap, active_pd in Hm. rewrite Hact in Hm. cbn [mbind option_bind] in Hm. eapply range_loop; [done|exact Hr| |exact Hm].
  intros i s1 s2 Hi Hg1 _ Hf. cbn beta in Hf. destruct (page_addr_ok vpage count i Hr Hi) as [Hpa Hu]. rewrite Hpa in Hf. eapply one_page_active. by eapply unmap_step.
Qed.

Lemma mmio_ok vpage count s' : good D s -> user_range vpage count -> space_map_mmio s vpage count = Some s' -> active_only D id s s'.
Proof.
  intros Hg Hr Hm. unfold space_map_mmio, active_pd in Hm. rewrite Hact in Hm. cbn [mbind option_bind] in Hm. eapply range_loop; [done|exact Hr| |exact Hm].
  intros i s1 s2 Hi Hg1 _ Hf. cbn beta in Hf. destruct (page_addr_ok vpage count i Hr Hi) as [Hpa Hu]. rewrite Hpa in Hf. eapply one_page_active. by eapply mmio_step.
Qed.

Lemma protect_ok vpage count s' : good D s -> user_range vpage count -> space_set_writable s vpage count false = Some s' -> active_only D id s s'.
Proof.
  intros Hg Hr Hm. unfold space_set_writable, active_pd in Hm. rewrite Hact in Hm. cbn [mbind option_bind] in Hm. eapply range_loop; [done|exact Hr| |exact Hm].
  intros i s1 s2 Hi Hg1 _ Hf. cbn beta in Hf. destruct (page_addr_ok vpage count i Hr Hi) as [Hpa Hu]. rewrite Hpa in Hf.
  destruct (protect_step D id pd Hact s1 _ s2 Hg1 Hu Hf) as (P1 & P2 & P3). split; [done|done|]. intros x Hx _. by apply P3.
Qed.

Lemma copy_ok src dst count s' : good D s -> user_range src count -> user_range dst count -> src <> dst ->
  space_copy_entries s src dst count = Some s' -> active_only D id s s'.
Proof.
  intros Hg Hr Hr2 Hne Hm. unfold space_copy_entries, active_pd in Hm. rewrite Hact in Hm. cbn [mbind option_bind] in Hm. eapply range_loop; [done|exact Hr| |exact Hm].
  intros i s1 s2 Hi Hg1 Hre Hf. cbn beta in Hf. destruct (page_addr_ok src count i Hr Hi) as [Hpa Hu]. destruct (page_addr_ok dst count i Hr2 Hi) as [Hpb Hub].
  rewrite Hpa, Hpb in Hf. destruct (rest_fields s1 Hre) as [E1 E2]. assert (spaces s1 !! active s1 = Some pd) as Hact1 by congruence.
  pose proof (copy_step s1 pd Hact1 (src + i) (dst + i) s2) as Hc. rewrite E1, E2 in Hc. eapply one_page_active. apply Hc; [done|done|done|lia|done].
Qed.

Lemma swap_ok a b count s' : good D s -> user_range a count -> user_range b count -> (forall i, 0 <= i < count -> (a + i) / 1024 <> (b + i) / 1024) ->
  space_swap_entries s a b count = Some s' -> active_only D id s s'.
Proof.
  intros Hg Hr Hr2 Hne Hm. unfold space_swap_entries, active_pd in Hm. rewrite Hact in Hm. cbn [mbind option_bind] in Hm. eapply range_loop; [done|exact Hr| |exact Hm].
  intros i s1 s2 Hi Hg1 _ Hf. cbn beta in Hf. destruct (page_addr_ok a count i Hr Hi) as [Hpa Hu]. destruct (page_addr_ok b count i Hr2 Hi) as [Hpb Hub].
  rewrite Hpa, Hpb in Hf. destruct (swap_step D id pd Hact s1 _ _ s2 Hg1 Hu Hub (Hne i Hi) Hf) as (S1 & S2 & S3). split; [done|done|].
  intros x Hx Hnx o. rewrite S3 by done. f_equal. unfold exchange. rewrite !bool_decide_eq_false_2; [done|intros ->; done|intros ->; done].
Qed.
End Ranges.

(** * Cleaning *)

Lemma view_none D s x o : view D s x o = None <-> is_present (page s D (fst x) (snd x)) = false.
Proof. unfold view. by destruct (is_present _). Qed.

Section Clean.
Context (D : gmap Z Z) (id pd : Z) (Hd : D !! id = Some pd).

(** The pages below [n] have been given back. *)
Record emptied (n : Z) (s s1 : St) : Prop := {
  e_active : active_only D id s s1;
  e_dir : forall i, ent s1 pd i = ent s pd i;
  e_gone : forall v, 0 <= v < n -> is_present (page s1 D id v) = false
}.

Lemma free_entry_emptied s s1 s2 v : emptied v s s1 -> user v -> is_present (ent s pd (v / 1024)) = true ->
  free_entry (ent s pd (v / 1024) ≫ 12) (v mod 1024) s1 = Some s2 -> emptied (v + 1) s s2.
Proof.
  intros [HA Hdir Hgone] Hv Hp Hf. rewrite <- Hdir in Hp, Hf. destruct (free_entry_step D id pd Hd s1 v s2 (a_good _ _ _ _ HA) Hv Hp Hf) as (HO & Hpv & Hd2).
  split; [eapply active_only_trans; [exact HA|by eapply one_page_active]|intros i; by rewrite Hd2|].
  intros w Hw. destruct (decide (w = v)) as [->|Hne]; [done|]. apply (view_none D s2 (id, w) 0). rewrite (o_same _ _ _ _ _ HO (id, w)); [|cbn [snd]; pages|congruence].
  apply view_none. cbn [fst snd]. apply Hgone. lia.
Qed.

(** An absent table has no pages. *)
Lemma absent_table s i v : is_present (ent s pd i) = false -> v / 1024 = i -> is_present (page s D id v) = false.
Proof. intros Hp Hv. rewrite (page_absent D id pd Hd) by (by rewrite Hv). done. Qed.

Lemma free_table_emptied s s1 s2 i : 0 <= i < 768 -> emptied (i * 1024) s s1 -> free_table pd i s1 = Some s2 -> emptied ((i + 1) * 1024) s s2.
Proof.
  intros Hi HE Hf. pose proof HE as [HA Hdir Hgone]. destruct (a_good _ _ _ _ HA) as [K [HT _ _]]. unfold free_table in Hf. rewrite (read_pde D id pd Hd K) in Hf by done.
  cbn [mbind option_bind] in Hf. destruct (is_present (ent s1 pd i)) eqn:Ep; cbn [negb] in Hf.
  - replace ((i + 1) * 1024) with (i * 1024 + 1024) by lia.
    apply (for_each_range (fun j s => emptied (i * 1024 + j) s1 s) _ 1024 s1 s2) in Hf; [|lia| |].
    + destruct Hf as [F1 F2 F3]. split; [by eapply active_only_trans|intros j; by rewrite F2|done].
    + intros j t t' Hj Ht Hft. rewrite Z.add_assoc. apply (free_entry_emptied s1 t t'); [done|pages| |];
        replace ((i * 1024 + j) / 1024) with i by zdiv; [done|]. replace ((i * 1024 + j) mod 1024) with j by zdiv. done.
    + rewrite Z.add_0_r. split; [apply active_only_refl; by apply HA|done|exact Hgone].
  - injection Hf as <-. split; [done|done|]. intros v Hv. destruct (Z.lt_ge_cases v (i * 1024)); [apply Hgone; lia|]. apply (absent_table s1 i); [done|zdiv].
Qed.

Lemma free_user_frames_ok s s' : good D s -> free_user_frames pd s = Some s' -> emptied UPAGES s s'.
Proof.
  intros Hg Hf. unfold free_user_frames in Hf. change (0xC0000000 ≫ 22) with 768 in Hf. change UPAGES with (768 * 1024).
  apply (for_each_range (fun i t => emptied (i * 1024) s t) (free_table pd) 768 s s'); [lia| | |done].
  - intros i t t' Hi Ht Hft. by apply (free_table_emptied s t t').
  - split; [by apply active_only_refl|done|]. intros v Hv. lia.
Qed.
End Clean.

(** * Spaces removed and added *)

(** Fewer mappings. *)
Lemma mappings_sub lim K P P' sh : (forall id v, user v -> is_present (P' id v) = true -> P' id v = P id v) -> mappings lim K P sh -> mappings lim K P' sh.
Proof.
  intros He [M1 M2 M3 M4]. assert (forall f x, refs P' f x -> refs P f x) as Hr.
  { intros f x (Hv & Hp & Hf). pose proof (He _ _ Hv Hp) as E. unfold refs. by rewrite <- E. }
  split; [by eauto|done| |].
  - intros f L Hn Hl. apply M3; [done|]. eapply List.Forall_impl; [|exact Hl]. apply Hr.
  - intros f x y Hx Hy Hw. rewrite (He (fst x) (snd x)) in Hw by apply Hx. apply (M4 f); auto.
Qed.

Lemma page_delete s D id id' v : page s (delete id D) id' v = if bool_decide (id' = id) then 0 else page s D id' v.
Proof. unfold page. case_bool_decide as E; [subst; by rewrite lookup_delete_eq|]. by rewrite lookup_delete_ne. Qed.

Lemma good_delete D s id : good D s -> good (delete id D) s.
Proof.
  intros [K [HT HM HK]]. exists K. split.
  - destruct HT as [T1 T2 T3 T4 T5 T6 T7]. split; try done; intros *; rewrite lookup_delete_Some; intros [_ ?]; eauto.
  - eapply mappings_sub; [|exact HM]. intros id' v Hv. rewrite page_delete. by case_bool_decide.
  - intros id' pd v Hd Hv. apply lookup_delete_Some in Hd as [Hne Hd]. rewrite page_delete, bool_decide_eq_false_2 by done. by apply (HK id' pd).
Qed.

(** Pages of the kernel's part mapped: [cov] says in which spaces and which. *)
Record kmapped (D : gmap Z Z) (cov : Z -> Z -> bool) (K K' : gmap Z kind) (s s' : St) : Prop := {
  k_tables : tables K' D s';
  k_sub : K ⊆ K';
  k_user : forall id v, user v -> page s' D id v = page s D id v;
  k_kern : forall id v, is_Some (D !! id) -> UPAGES <= v < VPAGES -> is_present (page s' D id v) = is_present (page s D id v) || cov id v;
  k_byte : forall f o, K !! f = Some Data -> byte s' f o = byte s f o;
  k_shared : shared s' = shared s;
  k_rest : rest s' = rest s
}.

Lemma kmapped_refl D K s : tables K D s -> kmapped D (fun _ _ => false) K K s s.
Proof. intros HT. split; try done. intros. by rewrite orb_false_r. Qed.

Lemma kmapped_trans D c1 c2 K1 K2 K3 s1 s2 s3 : kmapped D c1 K1 K2 s1 s2 -> kmapped D c2 K2 K3 s2 s3 -> kmapped D (fun id v => c1 id v || c2 id v) K1 K3 s1 s3.
Proof.
  intros [A1 A2 A3 A4 A5 A6 A7] [B1 B2 B3 B4 B5 B6 B7]. split; [done|by etrans| | | |by rewrite B6|by rewrite B7].
  - intros id v Hv. by rewrite B3, A3.
  - intros id v Hd Hv. by rewrite B4, A4, orb_assoc by done.
  - intros f o Hf. rewrite B5, A5; [done|done|]. by eapply lookup_weaken.
Qed.

Lemma kmapped_ext D c1 c2 K K' s s' : (forall id v, is_Some (D !! id) -> UPAGES <= v < VPAGES -> c1 id v = c2 id v) -> kmapped D c1 K K' s s' -> kmapped D c2 K K' s s'.
Proof. intros He [A1 A2 A3 A4 A5 A6 A7]. split; try done. intros id' v Hd Hv. by rewrite <- He, A4. Qed.

Lemma map_page_kmapped D id pd K s v f w s' : D !! id = Some pd -> tables K D s -> UPAGES <= v < VPAGES -> map_page s pd (v * 4096) f w = Some s' ->
  exists K', kmapped D (fun i x => bool_decide (i = id) && bool_decide (x = v)) K K' s s'.
Proof.
  intros Hd HT Hv Hm. destruct (map_page_wrote D id pd Hd K s v f w s' HT ltac:(pages) Hm) as (K' & HT' & Hsub & _ & [W1 W2 W3 W4]). exists K'. split; try done.
  - intros id' v' Hv'. rewrite W1 by (by apply user_page). apply upd_ne. intros [= -> ->]. pages.
  - intros id' v' _ Hv'. rewrite W1 by pages. unfold upd. repeat case_bool_decide; try tauto; try (by rewrite ?andb_false_r, ?orb_false_r).
    cbn [andb]. rewrite entry_present, orb_true_r. by destruct w.
Qed.

Definition window_ok (w : Z * Z * Z) : Prop := let '(vp, _, c) := w in UPAGES <= vp /\ 0 <= c /\ vp + c <= VPAGES.

Lemma window_addr vp c i : UPAGES <= vp -> vp + c <= VPAGES -> 0 <= i < c -> u32 (u32 (vp + i) * 4096) = (vp + i) * 4096 /\ page_addr vp i = (vp + i) * 4096.
Proof. intros H1 H2 Hi. unfold page_addr, UPAGES, VPAGES in *. rewrite (wrap_small 32 (vp + i)) by (unfold fits; lia). by rewrite wrap_small by (unfold fits; lia). Qed.

(** The pages of one window. *)
Lemma window_pages D id pd K s vp pp c (addr : Z -> Z) s' : D !! id = Some pd -> tables K D s -> window_ok (vp, pp, c) -> (forall i, 0 <= i < c -> addr i = (vp + i) * 4096) ->
  for_each (seqZ 0 c) (fun i s => map_page s pd (addr i) (pp + i) true) s = Some s' ->
  exists K', kmapped D (fun i v => bool_decide (i = id) && ((vp <=? v) && (v <? vp + c))) K K' s s'.
Proof.
  intros Hd HT (H1 & H2 & H3) Ha Hl.
  apply (for_each_range (fun i t => exists K', kmapped D (fun x v => bool_decide (x = id) && ((vp <=? v) && (v <? vp + i))) K K' s t) _ c s s') in Hl; [done|done| |].
  - intros i t t' Hi [K1 HK1] Hm. rewrite Ha in Hm by done. destruct (map_page_kmapped D id pd K1 t (vp + i) (pp + i) true t' Hd (k_tables _ _ _ _ _ _ HK1) ltac:(pages) Hm) as [K2 HK2].
    exists K2. eapply kmapped_ext; [|eapply kmapped_trans; [exact HK1|exact HK2]]. intros x v _ _. cbn beta. destruct (bool_decide (x = id)); [cbn [andb]; case_bool_decide; lia|done].
  - exists K. eapply kmapped_ext; [|by apply kmapped_refl]. intros x v _ _. cbn beta. destruct (bool_decide (x = id)); [cbn [andb]; lia|done].
Qed.

(** All windows. *)
Lemma map_windows_ok D id pd ws : D !! id = Some pd -> Forall window_ok ws -> forall K s s', tables K D s -> map_windows pd ws s = Some s' ->
  exists K', kmapped D (fun x v => bool_decide (x = id) && covered ws v) K K' s s'.
Proof.
  intros Hd Hw. induction Hw as [|[[vp pp] c] ws Hok Hw IH]; intros K s s' HT Hm; [injection Hm as <-; exists K; eapply kmapped_ext; [|by apply kmapped_refl]; intros; by rewrite andb_false_r|].
  cbn [map_windows] in Hm. destruct (map_window pd (vp, pp, c) s) as [s1|] eqn:E1; [|done]. cbn [mbind option_bind] in Hm. unfold map_window in E1. pose proof Hok as (H1 & H2 & H3).
  destruct (window_pages D id pd K s vp pp c _ s1 Hd HT Hok (fun i Hi => proj1 (window_addr vp c i H1 H3 Hi)) E1) as [K1 HK1].
  destruct (IH K1 s1 s' (k_tables _ _ _ _ _ _ HK1) Hm) as [K2 HK2]. exists K2. eapply kmapped_ext; [|by eapply kmapped_trans].
  intros x v _ _. cbn beta. symmetry. apply andb_orb_distrib_r.
Qed.

(** The invariant of the whole state. *)
Record wf (s : St) : Prop := {
  wf_good : good (spaces s) s;
  wf_ids : forall id pd, spaces s !! id = Some pd -> 0 <= id < next s;
  wf_first : is_Some (spaces s !! 0);
  wf_windows : Forall window_ok (windows s)
}.

Lemma kmapped_view D cov K K' s s' x : mappings strict K (page s D) (shared s) -> kmapped D cov K K' s s' -> user (snd x) -> same D s s' x.
Proof.
  intros HM HK Hx o. unfold view. rewrite (k_user _ _ _ _ _ _ HK) by done. destruct (is_present _) eqn:Ep; [|done]. f_equal. apply (k_byte _ _ _ _ _ _ HK).
  by apply (m_data _ _ _ _ HM _ x).
Qed.

Lemma kmapped_map D cov K K' s s' lim : mappings lim K (page s D) (shared s) -> kmapped D cov K K' s s' -> mappings lim K' (page s' D) (shared s').
Proof.
  intros HM [A1 A2 A3 A4 A5 A6 A7]. rewrite A6. eapply mappings_ext; [intros; by apply A3|]. eapply mappings_kinds; [|exact HM]. intros f Hf. by eapply lookup_weaken.
Qed.

(** ** A new space *)

Lemma tables_rest K D s s' : ram s' = ram s -> next_frame s' = next_frame s -> free_list s' = free_list s -> tables K D s -> tables K D s'.
Proof.
  intros Hr Hn Hf [T1 T2 T3 T4 T5 T6 T7]. assert (forall p i, ent s' p i = ent s p i) as He by (intros; unfold ent, byte, frame; by rewrite Hr).
  split; rewrite ?Hn, ?Hf, ?Hr; try done. intros id pd i. rewrite He. apply T2.
Qed.

Lemma inv_rest lim K D s s' : ram s' = ram s -> next_frame s' = next_frame s -> free_list s' = free_list s -> shared s' = shared s -> windows s' = windows s ->
  inv lim K D s -> inv lim K D s'.
Proof.
  intros Hr Hn Hf Hs Hw [HT HM HK]. pose proof (page_ram s s' D Hr) as Hp. split; [by eapply tables_rest|rewrite Hs; eapply mappings_ext; [intros; apply Hp|done]|].
  intros id pd v. rewrite Hp, Hw. apply HK.
Qed.

Lemma view_ram D s s' x o : ram s' = ram s -> view D s' x o = view D s x o.
Proof. intros Hr. unfold view. rewrite (page_ram s s' D Hr). unfold byte, frame. by rewrite Hr. Qed.

(** A fresh frame changes no page. *)
Lemma page_fresh K D s s1 f : tables K D s -> K !! f = None -> (forall f' i, f' <> f -> ent s1 f' i = ent s f' i) ->
  forall id v, 0 <= v < VPAGES -> page s1 D id v = page s D id v.
Proof.
  intros HT Hf He id v Hv. unfold page. destruct (D !! id) as [pd|] eqn:Hd; [|done]. unfold pte. rewrite He by (intros ->; pose proof (t_dir _ _ _ HT _ _ Hd); congruence).
  destruct (is_present _) eqn:Ep; [|done]. apply He. intros E. pose proof (t_tab _ _ _ HT id pd (v / 1024) Hd ltac:(unfold VPAGES in Hv; zdiv) Ep) as Hk. congruence.
Qed.

Lemma page_insert s D id pd id' v : page s (<[id := pd]> D) id' v = if bool_decide (id' = id) then pte s pd v else page s D id' v.
Proof. unfold page. case_bool_decide as E; [subst; by rewrite lookup_insert_eq|]. by rewrite lookup_insert_ne. Qed.

(** An empty directory joins the spaces. *)
Lemma dir_step K D s id f s1 : inv strict K D s -> alloc_table s = Some (f, s1) ->
  let K1 := <[f := Dir id]> K in let D1 := <[id := f]> D in
  tables K1 D1 s1 /\ mappings strict K1 (page s1 D1) (shared s1) /\ rest s1 = rest s /\
  (forall id' v, 0 <= v < VPAGES -> page s1 D1 id' v = if bool_decide (id' = id) then 0 else page s D id' v) /\
  (forall g o, K !! g = Some Data -> byte s1 g o = byte s g o).
Proof.
  intros [HT HM HK] Ha K1 D1. destruct (alloc_table_ok K D s f s1 HT Ha) as (Hkf & Hfr & Hsh & Hre & Hz & Hb & He & Hk).
  assert (forall id' v, 0 <= v < VPAGES -> page s1 D1 id' v = if bool_decide (id' = id) then 0 else page s D id' v) as Hp.
  { intros id' v Hv. unfold D1. rewrite page_insert. case_bool_decide; [|by apply (page_fresh K D s s1 f)]. unfold pte. by rewrite Hz. }
  split_and!; [by apply tables_dir| |done|done|].
  - rewrite Hsh. eapply mappings_sub; [|eapply mappings_kinds; [|exact HM]].
    + intros id' v Hv. rewrite Hp by (by apply user_page). by case_bool_decide.
    + intros g Hg. unfold K1. rewrite lookup_insert_ne; [done|congruence].
  - intros g o Hg. apply Hb. congruence.
Qed.

(** What a new space is. *)
Record added (s : St) (id : Z) (s' : St) : Prop := {
  n_wf : wf s';
  n_id : id = next s /\ next s' = next s + 1;
  n_dir : exists pd, spaces s' = <[id := pd]> (spaces s);
  n_rest : active s' = active s /\ windows s' = windows s;
  n_same : forall x o, user (snd x) -> fst x <> id -> view (spaces s') s' x o = view (spaces s) s x o;
  n_empty : forall v, user v -> is_present (page s' (spaces s') id v) = false
}.

Lemma new_ok s id s' : wf s -> space_new s = Some (id, s') -> added s id s'.
Proof.
  intros [[K HI] Hids H0 Hw] Hn. unfold space_new, new_page_dir in Hn. set (s0 := set_next s (next s + 1)) in *.
  assert (inv strict K (spaces s) s0) as HI0 by (by apply (inv_rest strict K _ s)).
  destruct (alloc_table s0) as [[f s1]|] eqn:Ea; [|done]. cbn [mbind option_bind fst snd] in Hn.
  destruct (dir_step K (spaces s) s0 (next s) f s1 HI0 Ea) as (HT1 & HM1 & Hre & Hp1 & Hb1). set (D1 := <[next s := f]> (spaces s)) in *. set (K1 := <[f := Dir (next s)]> K) in *.
  assert (spaces s !! next s = None) as Hfr by (destruct (spaces s !! next s) eqn:E; [apply Hids in E; lia|done]).
  assert (windows s1 = windows s /\ spaces s1 = spaces s /\ active s1 = active s /\ next s1 = next s + 1) as (R1 & R2 & R3 & R4) by (unfold rest, s0 in Hre; injection Hre as -> -> -> ->; done).
  destruct (map_kernel_windows f s1) as [s2|] eqn:Ew; [|done]. cbn [mbind option_bind] in Hn. injection Hn as <- <-. unfold map_kernel_windows in Ew. rewrite R1 in Ew.
  destruct (map_windows_ok D1 (next s) f (windows s) ltac:(apply lookup_insert_eq) Hw K1 s1 s2 HT1 Ew) as [K2 HK2].
  assert (windows s2 = windows s /\ spaces s2 = spaces s /\ active s2 = active s /\ next s2 = next s + 1) as (S1 & S2 & S3 & S4)
    by (pose proof (k_rest _ _ _ _ _ _ HK2) as E; unfold rest in E; injection E as -> -> -> ->; done).
  set (s3 := set_spaces s2 _). assert (spaces s3 = D1) as HD3 by (unfold s3; cbn; by rewrite S2). assert (inv strict K2 D1 s2) as HI2.
  { split; [apply HK2|by eapply kmapped_map|]. intros id' pd' v Hd' Hv. rewrite (k_kern _ _ _ _ _ _ HK2), S1, Hp1 by (done || pages). case_bool_decide as E; [done|]. cbn [andb].
    rewrite orb_false_r. unfold D1 in Hd'. rewrite lookup_insert_ne in Hd' by done. by apply (i_kern _ _ _ _ HI id' pd'). }
  split; try (rewrite HD3).
  - split; rewrite ?HD3; [exists K2; by apply (inv_rest strict K2 D1 s2)| | |cbn; by rewrite S1].
    + intros id' pd' Hd'. cbn. rewrite S4. unfold D1 in Hd'. destruct (decide (id' = next s)) as [->|Hne].
      * destruct H0 as [pd0 H0]. apply Hids in H0. lia.
      * rewrite lookup_insert_ne in Hd' by done. apply Hids in Hd'. lia.
    + unfold D1. rewrite lookup_insert_ne; [done|]. intros E. rewrite E in Hfr. rewrite Hfr in H0. by destruct H0.
  - split; [done|]. cbn. by rewrite S4.
  - by exists f.
  - cbn. by rewrite S1, S3.
  - intros x o Hx Hne. rewrite (view_ram D1 s2 s3) by done. rewrite (kmapped_view D1 _ K1 K2 s1 s2 x HM1 HK2 Hx o). unfold view.
    rewrite Hp1 by (by apply user_page). rewrite bool_decide_eq_false_2 by done. rewrite (page_ram s s0) by done.
    destruct (is_present _) eqn:Ep; [|done]. f_equal. apply Hb1. by apply (m_data _ _ _ _ (i_map _ _ _ _ HI) _ x).
  - intros v Hv. rewrite (page_ram s2 s3) by done. rewrite (k_user _ _ _ _ _ _ HK2), Hp1 by (done || by apply user_page). by rewrite bool_decide_eq_true_2.
Qed.

(** ** The other operations on spaces *)

(** The first space, made when there is none. *)
Lemma space_init_ok s s' : good ∅ s -> spaces s = ∅ -> Forall window_ok (windows s) -> space_init s = Some s' -> wf s'.
Proof.
  intros [K HI] Hs Hw Hn. unfold space_init in Hn. rewrite bool_decide_eq_true_2 in Hn by done. unfold new_page_dir in Hn.
  destruct (alloc_table s) as [[f s1]|] eqn:Ea; [|done]. cbn [mbind option_bind fst snd] in Hn.
  destruct (dir_step K ∅ s 0 f s1 HI Ea) as (HT1 & HM1 & Hre & Hp1 & Hb1). set (D1 := <[0 := f]> ∅) in *. set (K1 := <[f := Dir 0]> K) in *.
  assert (windows s1 = windows s) as R1 by (unfold rest in Hre; congruence).
  destruct (map_kernel_windows f s1) as [s2|] eqn:Ew; [|done]. cbn [mbind option_bind] in Hn. injection Hn as <-. unfold map_kernel_windows in Ew. rewrite R1 in Ew.
  destruct (map_windows_ok D1 0 f (windows s) ltac:(apply lookup_insert_eq) Hw K1 s1 s2 HT1 Ew) as [K2 HK2].
  assert (windows s2 = windows s) as S1 by (pose proof (k_rest _ _ _ _ _ _ HK2) as E; unfold rest in E; congruence).
  assert (inv strict K2 D1 s2) as HI2.
  { split; [apply HK2|by eapply kmapped_map|]. intros id' pd' v Hd' Hv. apply lookup_insert_Some in Hd' as [[<- <-]|[_ Hd']]; [|done].
    rewrite (k_kern _ _ _ _ _ _ HK2), S1, Hp1 by (done || pages). done. }
  split; cbn [set_next set_active set_spaces spaces next windows].
  - exists K2. by apply (inv_rest strict K2 D1 s2).
  - intros id pd Hd. apply lookup_singleton_Some in Hd as [<- <-]. lia.
  - by rewrite lookup_singleton_eq.
  - by rewrite S1.
Qed.

(** What an operation of the active space, or of none, keeps. *)
Lemma wf_keep s s' : wf s -> good (spaces s) s' -> rest s' = rest s -> wf s'.
Proof. intros [H1 H2 H3 H4] Hg Hr. unfold rest in Hr. injection Hr as E1 E2 E3 E4. split; rewrite ?E1, ?E3, ?E4; done. Qed.

Lemma destroy_ok s id s' : wf s -> space_destroy s id = Some s' ->
  wf s' /\ spaces s' = (if id =? 0 then spaces s else delete id (spaces s)) /\
  forall x o, user (snd x) -> fst x <> id -> view (spaces s') s' x o = view (spaces s) s x o.
Proof.
  intros Hwf Hd. unfold space_destroy in Hd. destruct (Z.eqb_spec id 0) as [->|Hid]; [by injection Hd as <-|].
  destruct (match spaces s !! id with Some pd => free_user_frames pd s | None => Some s end) as [s1|] eqn:E1; [|done]. cbn [mbind option_bind] in Hd. injection Hd as <-.
  assert (active_only (spaces s) id s s1) as [A1 A2 A3].
  { destruct (spaces s !! id) as [pd|] eqn:Ep; [|injection E1 as <-; apply active_only_refl, Hwf]. apply (free_user_frames_ok (spaces s) id pd Ep s s1); [apply Hwf|done]. }
  destruct Hwf as [Hg Hids H0 Hw]. unfold rest in A2. injection A2 as S1 S2 S3 S4.
  set (s2 := set_spaces _ _). assert (ram s2 = ram s1 /\ next_frame s2 = next_frame s1 /\ free_list s2 = free_list s1 /\ shared s2 = shared s1 /\ windows s2 = windows s /\
    next s2 = next s /\ spaces s2 = delete id (spaces s)) as (R1 & R2 & R3 & R4 & R5 & R6 & R7) by (unfold s2; destruct (active s1 =? id); cbn; by rewrite ?S1, ?S3, ?S4).
  split_and!; [|done|].
  - split; rewrite ?R7.
    + destruct (good_delete _ _ id A1) as [K HK]. exists K. apply (inv_rest strict K _ s1); try done. by rewrite R5, S4.
    + intros id' pd' Hd'. apply lookup_delete_Some in Hd' as [_ Hd']. rewrite R6. by eapply Hids.
    + by rewrite lookup_delete_ne.
    + by rewrite R5.
  - intros x o Hx Hne. rewrite R7, (view_ram _ s1) by done. rewrite <- (A3 x Hx Hne o). unfold view. rewrite page_delete. by rewrite bool_decide_eq_false_2.
Qed.

(** A window mapped in the spaces of a list. *)
Lemma register_loop D vp pp c l : window_ok (vp, pp, c) -> Forall (fun pd => exists id, D !! id = Some pd) l -> forall K s s', tables K D s ->
  for_each l (fun pd s => for_each (seqZ 0 c) (fun i s => map_page s pd (page_addr vp i) (pp + i) true) s) s = Some s' ->
  exists K', kmapped D (fun id v => existsb (fun pd => bool_decide (D !! id = Some pd)) l && ((vp <=? v) && (v <? vp + c))) K K' s s'.
Proof.
  intros Hok Hl. pose proof Hok as (H1 & H2 & H3). induction Hl as [|pd l [id Hd] Hl IH]; intros K s s' HT Hf; [injection Hf as <-; exists K; by apply kmapped_refl|].
  cbn [for_each] in Hf. destruct (for_each (seqZ 0 c) _ s) as [s1|] eqn:E1; [|done]. cbn [mbind option_bind] in Hf.
  destruct (window_pages D id pd K s vp pp c _ s1 Hd HT Hok (fun i Hi => proj2 (window_addr vp c i H1 H3 Hi)) E1) as [K1 HK1].
  destruct (IH K1 s1 s' (k_tables _ _ _ _ _ _ HK1) Hf) as [K2 HK2]. exists K2. eapply kmapped_ext; [|by eapply kmapped_trans].
  intros x v _ _. cbn beta. cbn [existsb]. rewrite andb_orb_distrib_l. f_equal. f_equal. apply bool_decide_ext. split; [by intros ->|]. intros Hx.
  pose proof (t_dir _ _ _ HT _ _ Hx). pose proof (t_dir _ _ _ HT _ _ Hd). congruence.
Qed.

Lemma covered_app ws w v : covered (ws ++ [w]) v = covered ws v || covered [w] v.
Proof. unfold covered. by rewrite existsb_app. Qed.

Lemma register_ok s vp pp c s' : wf s -> window_ok (vp, pp, c) -> register_kernel_window s vp pp c = Some s' ->
  wf s' /\ spaces s' = spaces s /\ active s' = active s /\ forall x, user (snd x) -> same (spaces s) s s' x.
Proof.
  intros [[K [HT HM HK]] Hids H0 Hw] Hok Hr. pose proof Hok as (H1 & H2 & H3). unfold register_kernel_window in Hr. rewrite (wrap_small 32 vp) in Hr by (unfold fits; unfold UPAGES, VPAGES in *; lia).
  set (s0 := set_windows s (windows s ++ [(vp, pp, c)])) in *. set (l := omap _ _) in Hr.
  assert (Forall (fun pd => exists id, spaces s !! id = Some pd) l) as Hl.
  { apply list.Forall_forall. intros pd Hpd. apply list_elem_of_omap in Hpd as (id & _ & Hid). by exists id. }
  destruct (register_loop (spaces s) vp pp c l Hok Hl K s0 s' ltac:(by apply (tables_rest K _ s)) Hr) as [K2 HK2].
  pose proof (k_rest _ _ _ _ _ _ HK2) as E. unfold rest in E. injection E as E1 E2 E3 E4. cbn in E1, E2, E3, E4.
  assert (mappings strict K (page s0 (spaces s)) (shared s0)) as HM0 by done. split_and!; [|done|done|].
  - split; rewrite ?E1, ?E3, ?E4; [|done|done|by apply list.Forall_app; split; [|constructor; [|constructor]]].
    exists K2. split; [apply HK2|by eapply kmapped_map|]. intros id pd v Hd Hv. rewrite (k_kern _ _ _ _ _ _ HK2), E4, covered_app by (done || pages).
    rewrite (page_ram s s0), (HK id pd v Hd Hv) by done. f_equal. unfold covered. cbn [existsb]. rewrite orb_false_r. rewrite (proj2 (existsb_exists _ l)); [done|].
    exists pd. split; [|by rewrite bool_decide_eq_true_2]. apply list_elem_of_In, list_elem_of_omap. exists id. split; [|done]. apply elem_of_seqZ. cbn [next set_windows s0]. apply Hids in Hd. lia.
  - intros x Hx. apply (kmapped_view _ _ K K2 s0 s' x HM0 HK2 Hx).
Qed.
