(* ===== verification/PagingFork.v ===== *)
(** Fork: the child's memory is the parent's, shared page by page until one of
    them writes. *)

From Stdlib Require Import ZArith Lia Bool.
From stdpp Require Import base option list numbers gmap.
From S2P Require Import Prelude Paging PagingFacts PagingSteps PagingSpaces.
Local Open Scope machine_scope.

(** Entries that do not allow writes. *)
Record readonly (f e : Z) : Prop := {
  r_fits : fits 32 e;
  r_present : is_present e = true;
  r_frame : e ≫ 12 = f;
  r_writable : writable e = false
}.

Lemma readonly_cow f : 0 <= f < FRAMES -> readonly f (make_entry f (PRESENT .| USER .| COW)).
Proof.
  intros Hf. destruct fits_flags as (_ & _ & F). split; [by apply entry_fits|by rewrite entry_present|by apply entry_frame|].
  unfold writable, WRITABLE. by rewrite entry_flag.
Qed.

Lemma readonly_plain f : 0 <= f < FRAMES -> readonly f (make_entry f (PRESENT .| USER)).
Proof.
  intros Hf. destruct fits_flags as (_ & F & _). split; [by apply entry_fits|by rewrite entry_present|by apply entry_frame|].
  unfold writable, WRITABLE. by rewrite entry_flag.
Qed.

(** A table made for one space leaves the directories of the others alone. *)
Lemma table_for_other K D s id pd id' pd' v pt s' i : tables K D s -> D !! id = Some pd -> D !! id' = Some pd' -> id' <> id -> 0 <= v < VPAGES ->
  table_for s pd (v * 4096) = Some (pt, s') -> ent s' pd' i = ent s pd' i.
Proof.
  intros HT Hd Hd' Hne Hv Et. unfold table_for in Et. rewrite (read_pde D id pd Hd K) in Et by done. cbn [mbind option_bind] in Et.
  destruct (is_present _); [by injection Et as <- <-|]. destruct (alloc_table s) as [[f s0]|] eqn:Eal; [|done]. cbn [mbind option_bind fst snd] in Et.
  destruct (alloc_table_ok K D s f s0 HT Eal) as (Hkf & _ & _ & _ & _ & _ & He & _). pose proof (t_dir _ _ _ HT _ _ Hd) as Hkd. pose proof (t_dir _ _ _ HT _ _ Hd') as Hkd'.
  pose proof (kind_frame _ _ _ HT _ _ Hkd). rewrite write_entry_ok in Et by lia. injection Et as <- <-. rewrite ent_set_ne by (left; congruence). apply He. congruence.
Qed.

Lemma put_other K D s id pd id' pd' v pt s1 j e s' i : tables K D s -> D !! id = Some pd -> D !! id' = Some pd' -> id' <> id -> 0 <= v < VPAGES ->
  table_for s pd (v * 4096) = Some (pt, s1) -> write_entry s1 pt j e = Some s' -> ent s' pd' i = ent s pd' i.
Proof.
  intros HT Hd Hd' Hne Hv Et Hw. destruct (table_for_ok K D s id pd v pt s1 HT Hd Hv Et) as (K' & HT' & _ & _ & Hp & -> & _).
  assert (0 <= v / 1024 < 1024) as Hi by (unfold VPAGES in Hv; zdiv). rewrite write_entry_ok in Hw by (apply (tab_frame K' D s1 HT' id pd _ Hd Hi Hp)). injection Hw as <-.
  rewrite ent_set_ne; [by eapply (table_for_other K D s id pd id' pd' v)|]. left. intros E. pose proof (t_dir _ _ _ HT' _ _ Hd') as Hk. rewrite E in Hk.
  pose proof (t_tab _ _ _ HT' id pd _ Hd Hi Hp). congruence.
Qed.

Section Fork.
Context (D : gmap Z Z) (src dst spd dpd : Z) (Hs : D !! src = Some spd) (Hd : D !! dst = Some dpd) (Hne : src <> dst).

(** While the loop runs, pages the parent still has to give up may be writable. *)
Definition lim (x y : Z * Z) : Prop := fst x = src /\ fst y = dst.

Record forked (n : Z) (b t : St) : Prop := {
  f_inv : exists K, inv lim K D t;
  f_rest : rest t = rest b;
  f_same : forall x, user (snd x) -> fst x <> dst -> same D b t x;
  f_child : forall v o, user v -> v < n -> view D t (dst, v) o = view D b (src, v) o;
  f_todo : forall v, user v -> n <= v -> is_present (page t D dst v) = false;
  f_demoted : forall v, user v -> v < n -> is_present (page t D src v) = true -> writable (page t D src v) = false;
  f_dir : forall i, ent t spd i = ent b spd i
}.

Lemma forked_skip n m b t : n <= m -> forked n b t -> (forall v, user v -> n <= v < m -> is_present (page t D src v) = false) -> forked m b t.
Proof.
  intros Hnm [F1 F2 F3 F4 F5 F6 F7] Ha. split; [done|done|done| | | |done].
  - intros v o Hv Hvm. destruct (Z.lt_ge_cases v n); [by apply F4|]. rewrite <- (F3 (src, v) Hv Hne o).
    rewrite (proj2 (view_none D t (dst, v) o)) by (by apply F5). symmetry. apply view_none. cbn [fst snd]. apply Ha; [done|lia].
  - intros v Hv Hmv. apply F5; [done|lia].
  - intros v Hv Hvm Hp. destruct (Z.lt_ge_cases v n); [by apply F6|]. rewrite Ha in Hp by (done || lia). done.
Qed.

(** The parent's page, no longer writable. *)
Lemma fork_demote K t v e : inv lim K D t -> user v -> is_present (page t D src v) = true -> readonly (page t D src v ≫ 12) e ->
  is_present (ent t spd (v / 1024)) = true ->
  let t1 := set_ent t (ent t spd (v / 1024) ≫ 12) (v mod 1024) e in
  tables K D t1 /\ mappings lim K (upd (page t D) src v e) (shared t1) /\ wrote K D src v e t t1 /\ forall i, ent t1 spd i = ent t spd i.
Proof.
  intros [HT HM HK] Hv Hp [R1 R2 R3 R4] Hpd t1. pose proof (user_page v Hv) as Hv'. destruct (set_pte_wrote K D t src spd v e HT Hs Hv' Hpd R1) as [HT1 HW].
  split_and!; [done| |done|].
  - replace (shared t1) with (shared t) by (symmetry; apply HW). by eapply map_demote.
  - intros i. apply ent_set_ne. left. intros E. pose proof (t_dir _ _ _ HT _ _ Hs) as Hk. rewrite E in Hk.
    pose proof (t_tab _ _ _ HT src spd (v / 1024) Hs ltac:(unfold VPAGES in Hv'; zdiv) Hpd). congruence.
Qed.

(** The page shared: the parent's entry is [e1], the child's [e2]. *)
Lemma fork_share K K2 b t t2 v f e1 e2 : forked v b t -> inv lim K D t -> user v -> is_present (page t D src v) = true -> f = page t D src v ≫ 12 ->
  readonly f e1 -> readonly f e2 -> mappings lim K (upd (page t D) src v e1) (shared t) ->
  tables K2 D t2 -> K ⊆ K2 -> (forall id' v', 0 <= v' < VPAGES -> page t2 D id' v' = upd (upd (page t D) src v e1) dst v e2 id' v') ->
  (forall g o, K !! g = Some Data -> byte t2 g o = byte t g o) -> shared t2 = shared t -> rest t2 = rest t -> (forall i, ent t2 spd i = ent t spd i) ->
  forked (v + 1) b (inc_ref t2 f).
Proof.
  intros [F1 F2 F3 F4 F5 F6 F7] [HT HM HK] Hv Hp Hf R1 R2 HM1 HT2 Hsub Hpg Hb Hsh Hre Hdir. set (t3 := inc_ref t2 f).
  assert (forall id' v', 0 <= v' < VPAGES -> page t3 D id' v' = upd (upd (page t D) src v e1) dst v e2 id' v') as Hpg3 by (intros; rewrite (page_ram t2) by done; by apply Hpg).
  assert (refs (page t D) f (src, v)) as Href by (subst f; done). pose proof (m_data _ _ _ _ HM f _ Href) as Hkf.
  assert (refs (upd (page t D) src v e1) f (src, v)) as Href1 by (unfold refs; cbn [fst snd]; rewrite upd_eq; split; [exact Hv|split; apply R1]).
  assert (forall x, user (snd x) -> fst x <> dst \/ snd x <> v -> same D t t3 x) as Hsame.
  { intros [id' v'] Hx Hxd o. unfold view. cbn [fst snd] in *. rewrite Hpg3 by (by apply user_page). rewrite upd_ne by (intros [= -> ->]; tauto).
    destruct (decide ((id', v') = (src, v))) as [[= -> ->]|E].
    - rewrite upd_eq, (r_present _ _ R1), (r_frame _ _ R1), Hp, <- Hf. f_equal. by apply Hb.
    - rewrite upd_ne by done. destruct (is_present (page t D id' v')) eqn:Ep; [|done]. f_equal. apply Hb. by apply (m_data _ _ _ _ HM _ (id', v')). }
  assert (forall o, view D t3 (dst, v) o = view D t (src, v) o) as Hdv.
  { intros o. unfold view. cbn [fst snd]. rewrite Hpg3, upd_eq by (by apply user_page). rewrite (r_present _ _ R2), (r_frame _ _ R2), Hp, <- Hf. f_equal. by apply Hb. }
  split.
  - exists K2. split; [by apply (tables_rest K2 D t2)| |].
    + assert (shared t3 = <[f := count (shared t) f + 1]> (shared t)) as -> by (unfold t3, inc_ref; cbn [shared set_shared]; by rewrite Hsh).
      eapply mappings_ext; [intros; apply Hpg3; by apply user_page|]. eapply mappings_kinds; [intros g Hg; by eapply lookup_weaken|].
      eapply (map_alias lim K _ _ HM1 f (src, v) dst v e2 Href1).
      * rewrite upd_ne by congruence. apply F5; [done|lia].
      * apply R2.
      * apply R2.
      * rewrite (r_writable _ _ R2). done.
      * intros y Hy Hw. right. split; [|done]. destruct (m_write _ _ _ _ HM1 f y (src, v) Hy Href1 Hw) as [E|[E _]]; [by rewrite <- E|done].
    + intros id' pd' v' Hd' Hv'. rewrite Hpg3 by pages. rewrite !upd_ne by (intros [= -> ->]; pages). rewrite (HK id' pd' v' Hd' Hv').
      assert (windows t3 = windows t) as -> by (unfold rest in Hre; cbn; congruence). done.
  - transitivity (rest t2); [done|]. by rewrite Hre.
  - intros x Hx Hxd o. rewrite Hsame by tauto. by apply F3.
  - intros w o Hw Hwn. destruct (decide (w = v)) as [->|E]; [|rewrite (Hsame (dst, w)) by tauto; apply F4; [done|lia]]. rewrite Hdv. by apply (F3 (src, v)).
  - intros w Hw Hwn. rewrite Hpg3 by (by apply user_page). rewrite !upd_ne by (intros [=]; lia). apply F5; [done|lia].
  - intros w Hw Hwn. rewrite Hpg3 by (by apply user_page). rewrite (upd_ne _ dst) by congruence. destruct (decide (w = v)) as [->|E].
    + rewrite upd_eq. intros _. apply R1.
    + rewrite upd_ne by congruence. apply F6; [done|lia].
  - intros i. transitivity (ent t2 spd i); [done|]. by rewrite Hdir.
Qed.
(** The address of an entry. *)
Lemma fork_addr i j : 0 <= i < 1024 -> 0 <= j < 1024 -> u32 ((i ≪ 22) .| (j ≪ 12)) = (i * 1024 + j) * 4096.
Proof.
  intros Hi Hj. assert (fits 22 (j ≪ 12)) as Hf by (unfold fits; rewrite Z.shiftl_mul_pow2 by lia; lia).
  rewrite lor_shiftl by (done || lia). rewrite Z.shiftl_mul_pow2 by lia. rewrite wrap_small by (unfold fits; lia). lia.
Qed.

(** The child's page written over an absent one. *)
Lemma fork_put K b t t1 t2 v f e1 e2 : forked v b t -> inv lim K D t -> user v -> is_present (page t D src v) = true -> f = page t D src v ≫ 12 ->
  readonly f e1 -> readonly f e2 -> tables K D t1 -> mappings lim K (upd (page t D) src v e1) (shared t) -> wrote K D src v e1 t t1 -> (forall i, ent t1 spd i = ent t spd i) ->
  (r ← table_for t1 dpd (v * 4096); write_entry (snd r) (fst r) (pte_index (v * 4096)) e2) = Some t2 -> forked (v + 1) b (inc_ref t2 f).
Proof.
  intros HF HI Hv Hp Hf R1 R2 HT1 HM1 [W1 W2 W3 W4] Hdir Hm. pose proof (user_page v Hv) as Hv'.
  destruct (table_for t1 dpd (v * 4096)) as [[pt t']|] eqn:Et; [|done]. cbn [mbind option_bind fst snd] in Hm.
  destruct (put_wrote K D t1 dst dpd v pt t' e2 t2 HT1 Hd Hv' (r_fits _ _ R2) Et Hm) as (K2 & HT2 & Hsub & _ & [V1 V2 V3 V4]).
  apply (fork_share K K2 b t t2 v f e1 e2); try done.
  - intros id' v' Hr. rewrite V1 by done. unfold upd at 1 2. case_bool_decide; [done|]. by apply W1.
  - intros g o Hg. by rewrite V2, W2.
  - by rewrite V3.
  - by rewrite V4.
  - intros i. rewrite (put_other K D t1 dst dpd src spd v pt t' _ _ t2 i HT1 Hd Hs Hne Hv' Et Hm). apply Hdir.
Qed.

Lemma wrote_same K s v : tables K D s -> wrote K D src v (page s D src v) s s.
Proof. intros HT. split; try done. intros id' v' _. unfold upd. case_bool_decide as E; [by destruct E as [-> ->]|done]. Qed.

Lemma fork_user b t v t' : forked v b t -> user v -> is_present (ent t spd (v / 1024)) = true ->
  fork_entry (ent t spd (v / 1024) ≫ 12) dpd (v / 1024) (v mod 1024) t = Some t' -> forked (v + 1) b t'.
Proof.
  intros HF Hv Hpd Hfe. destruct (f_inv _ _ _ HF) as [K HI]. pose proof HI as [HT HM HK]. pose proof (user_page v Hv) as Hv'. unfold fork_entry in Hfe.
  assert (u32 (((v / 1024) ≪ 22) .| ((v mod 1024) ≪ 12)) = v * 4096) as Ha by (rewrite fork_addr by (unfold VPAGES in Hv'; zdiv); zdiv).
  rewrite (read_pte D src spd Hs K), Ha in Hfe by done. cbn [mbind option_bind] in Hfe. destruct (is_present (page t D src v)) eqn:Ep; cbn [negb] in Hfe.
  2: { injection Hfe as <-. apply (forked_skip v); [lia|done|]. intros w _ Hw. by replace w with v by lia. }
  destruct (page_of v Hv') as [Hr Hq]. rewrite (translate_ok K D t dst dpd _ HT Hd Hr), Hq, (f_todo _ _ _ HF) in Hfe by (done || lia). cbn [mbind option_bind] in Hfe.
  set (f := page t D src v ≫ 12) in *. assert (0 <= f < FRAMES) as Hfr by (eapply kind_frame; [exact HT|]; apply (m_data _ _ _ _ HM f (src, v)); done).
  pose proof (readonly_cow f Hfr) as RC. pose proof (readonly_plain f Hfr) as RP. destruct (has_flag (page t D src v) WRITABLE || has_flag (page t D src v) COW) eqn:Ew.
  - rewrite (write_pte D src spd Hs K) in Hfe by done. cbn [mbind option_bind] in Hfe. destruct (fork_demote K t v _ HI Hv Ep RC Hpd) as (HT1 & HM1 & HW & Hdir).
    rewrite (w_shared _ _ _ _ _ _ _ HW) in HM1. destruct (map_page_cow _ dpd (v * 4096) f) as [t2|] eqn:Em; [|done]. cbn [mbind option_bind] in Hfe. injection Hfe as <-.
    eapply (fork_put K b t _ t2 v f _ _ HF HI Hv Ep eq_refl RC RC HT1 HM1 HW Hdir). exact Em.
  - apply orb_false_elim in Ew as [Ew _]. assert (readonly f (page t D src v)) as RS by (split; [apply (page_fits D src spd Hs)|done|done|done]).
    destruct (map_page t dpd (v * 4096) f false) as [t2|] eqn:Em; [|done]. cbn [mbind option_bind] in Hfe. injection Hfe as <-.
    eapply (fork_put K b t t t2 v f _ _ HF HI Hv Ep eq_refl RS RP HT); [|by apply wrote_same|done|exact Em].
    eapply mappings_ext; [|exact HM]. intros id' v' _. unfold upd. case_bool_decide as E; [by destruct E as [-> ->]|done].
Qed.

(** Kernel pages are in the child already. *)
Lemma fork_kernel b t v t' : forked v b t -> UPAGES <= v < VPAGES -> is_present (ent t spd (v / 1024)) = true ->
  fork_entry (ent t spd (v / 1024) ≫ 12) dpd (v / 1024) (v mod 1024) t = Some t' -> forked (v + 1) b t'.
Proof.
  intros HF Hv Hpd Hfe. destruct (f_inv _ _ _ HF) as [K HI]. pose proof HI as [HT HM HK]. assert (0 <= v < VPAGES) as Hv' by pages. unfold fork_entry in Hfe.
  assert (u32 (((v / 1024) ≪ 22) .| ((v mod 1024) ≪ 12)) = v * 4096) as Ha by (rewrite fork_addr by (unfold VPAGES in Hv'; zdiv); zdiv).
  rewrite (read_pte D src spd Hs K), Ha in Hfe by done. cbn [mbind option_bind] in Hfe.
  assert (forked (v + 1) b t) as Hsk by (apply (forked_skip v); [lia|done|]; intros w Hw ?; pages).
  destruct (page_of v Hv') as [Hr Hq]. rewrite (translate_ok K D t dst dpd _ HT Hd Hr), Hq, (HK dst dpd v Hd Hv), (HK src spd v Hs Hv) in Hfe. cbn [mbind option_bind] in Hfe.
  destruct (covered (windows t) v); by injection Hfe as <-.
Qed.

Lemma fork_table_ok b t i t' : 0 <= i < 1024 -> forked (i * 1024) b t -> fork_table spd dpd i t = Some t' -> forked ((i + 1) * 1024) b t'.
Proof.
  intros Hi HF Hf. destruct (f_inv _ _ _ HF) as [K [HT _ _]]. unfold fork_table in Hf. rewrite (read_pde D src spd Hs K) in Hf by done. cbn [mbind option_bind] in Hf.
  replace ((i + 1) * 1024) with (i * 1024 + 1024) by lia. destruct (is_present (ent t spd i)) eqn:Ep; cbn [negb] in Hf.
  - apply (for_each_range (fun j t1 => forked (i * 1024 + j) b t1) _ 1024 t t') in Hf; [done|lia| |by rewrite Z.add_0_r].
    intros j t1 t2 Hj HF1 Hf1. rewrite Z.add_assoc. assert ((i * 1024 + j) / 1024 = i /\ (i * 1024 + j) mod 1024 = j) as [Eq Em] by (clear - Hj; split; zdiv).
    assert (ent t spd i = ent t1 spd i) as Ed by (by rewrite (f_dir _ _ _ HF), (f_dir _ _ _ HF1)). rewrite Ed in Ep, Hf1.
    pose proof (fork_user b t1 (i * 1024 + j) t2) as HU. pose proof (fork_kernel b t1 (i * 1024 + j) t2) as HV. rewrite Eq, Em in HU, HV.
    destruct (Z.lt_ge_cases (i * 1024 + j) UPAGES); [apply HU|apply HV]; try done; pages.
  - injection Hf as <-. apply (forked_skip (i * 1024)); [lia|done|]. intros v _ Hv. apply (absent_table D src spd Hs t i); [done|zdiv].
Qed.
End Fork.

(** What a fork is: a new space that reads as its parent. *)
Record forks (s : St) (src id : Z) (s' : St) : Prop := {
  fk_wf : wf s';
  fk_id : id = next s /\ next s' = next s + 1;
  fk_dir : exists pd, spaces s' = <[id := pd]> (spaces s);
  fk_rest : active s' = active s /\ windows s' = windows s;
  fk_same : forall x o, user (snd x) -> fst x <> id -> view (spaces s') s' x o = view (spaces s) s x o;
  fk_child : forall v o, user v -> view (spaces s') s' (id, v) o = view (spaces s) s (src, v) o
}.

Lemma fork_ok s src id s' : wf s -> space_fork s src = Some (id, s') -> forks s src id s'.
Proof.
  intros Hwf Hf. unfold space_fork in Hf. destruct (spaces s !! src) as [spd|] eqn:Es; [|done]. cbn [mbind option_bind] in Hf.
  destruct (space_new s) as [[id0 s1]|] eqn:En; [|done]. cbn [mbind option_bind fst snd] in Hf. destruct (new_ok s id0 s1 Hwf En) as [[Hg1 Hi1 H01 Hw1] N2 [pd N3] N4 N5 N6].
  assert (spaces s1 !! id0 = Some pd) as Hd1 by (rewrite N3; apply lookup_insert_eq). rewrite Hd1 in Hf. cbn [mbind option_bind] in Hf.
  destruct (for_each (seqZ 0 1024) (fork_table spd pd) s1) as [s2|] eqn:Ef; [|done]. cbn [mbind option_bind] in Hf. injection Hf as <- <-.
  assert (src <> id0) as Hne by (pose proof (wf_ids s Hwf src spd Es); lia).
  assert (spaces s1 !! src = Some spd) as Hs1 by (rewrite N3; by rewrite lookup_insert_ne).
  assert (forked (spaces s1) src id0 spd (1024 * 1024) s1 s2) as [F1 F2 F3 F4 F5 F6 F7].
  { apply (for_each_range (fun i t => forked (spaces s1) src id0 spd (i * 1024) s1 t) (fork_table spd pd) 1024 s1 s2); [lia| | |done].
    - intros i t t' Hi Ht Htt. by eapply fork_table_ok.
    - destruct Hg1 as [K [HT HM HK]]. split; try done; try (intros; pages); [|intros; by apply N6].
      exists K. split; [done| |done]. destruct HM as [M1 M2 M3 M4]. split; [done|done|done|]. intros f x y Hx Hy Hw. destruct (M4 f x y Hx Hy Hw) as [|[]]. by left. }
  unfold rest in F2. injection F2 as R1 R2 R3 R4. destruct N4 as [N41 N42]. destruct N2 as [N21 N22].
  split; rewrite ?R1; [|split; congruence|by exists pd|split; congruence| |].
  - split; rewrite ?R1, ?R3, ?R4; try done. destruct F1 as [K [HT HM HK]]. exists K. split; [done| |done]. destruct HM as [M1 M2 M3 M4]. split; [done|done|done|].
    intros f x y Hx Hy Hw. destruct (M4 f x y Hx Hy Hw) as [|[E _]]; [by left|]. exfalso. destruct x as [i v]. cbn [fst snd] in *. subst i.
    destruct Hx as (Hv & Hp & _). cbn [fst snd] in *. rewrite (F6 v) in Hw by (done || pages). done.
  - intros x o Hx Hxd. rewrite (F3 x Hx Hxd o). by apply N5.
  - intros v o Hv. rewrite F4 by (done || pages). by apply (N5 (src, v)).
Qed.
