(* ===== verification/PagingSafety.v ===== *)
(** Isolation of address spaces: whatever runs in the others, a space reads what
    it read before. *)

From Stdlib Require Import ZArith Lia Bool.
From stdpp Require Import base option list numbers gmap.
From S2P Require Import Prelude Paging PagingFacts PagingSteps PagingSpaces PagingFork.
Local Open Scope machine_scope.

(** * The kernel's access to guest memory *)

Lemma low12 a b : 0 <= a < 2 ^ 32 -> fits 32 b -> phys_addr b a .& 0xFFF = a mod 4096.
Proof.
  intros Ha Hb. change 4096 with (2 ^ 12). apply Z.bits_inj'. intros k Hk. unfold phys_addr. rewrite Z.land_spec, Z.lor_spec, !Z.land_spec, testbit_low12 by lia.
  destruct (Z.ltb_spec k 12).
  - rewrite Z.mod_pow2_bits_low by lia. rewrite testbit_bnot, testbit_low12 by lia. rewrite (proj2 (Z.ltb_lt k 12)) by lia. cbn [negb]. by rewrite andb_false_r, !andb_true_r.
  - rewrite Z.mod_pow2_bits_high by lia. by rewrite andb_false_r.
Qed.

(** Where a writable page or none may be written. *)
Definition guest_may_write (D : gmap Z Z) (s : St) (id v : Z) : Prop := is_present (page s D id v) = true -> writable (page s D id v) = true.

Section Access.
Context (s0 : St) (pd : Z) (Hact : spaces s0 !! active s0 = Some pd).
Notation D := (spaces s0).
Notation id := (active s0).

(** A page resolved for the kernel: absent pages get a fresh frame. *)
Lemma space_resolve_ok s a p o s1 : good D s -> rest s = rest s0 -> 0 <= a < 2 ^ 32 -> user (a / 4096) -> space_resolve s a = Some (p, o, s1) ->
  let v := a / 4096 in
  one_page D id v s s1 /\ is_present (page s1 D id v) = true /\ p = page s1 D id v ≫ 12 /\ o = a mod 4096 /\
  (is_present (page s D id v) = true -> s1 = s) /\ (is_present (page s D id v) = false -> writable (page s1 D id v) = true) /\
  (forall x, user (snd x) -> x <> (id, v) -> page s1 D (fst x) (snd x) = page s D (fst x) (snd x)).
Proof.
  intros [K HI] Hre Ha Hv Hr v. pose proof HI as [HT HM HK]. unfold rest in Hre. injection Hre as E1 E2 _ _. unfold space_resolve, active_pd in Hr. rewrite E1, E2, Hact in Hr.
  cbn [mbind option_bind] in Hr. unfold resolve_in in Hr. rewrite (translate_ok K D s id pd a HT Hact Ha) in Hr. cbn [mbind option_bind] in Hr. fold v in Hr.
  pose proof (page_fits D id pd Hact) as Hfit. destruct (is_present (page s D id v)) eqn:Ep.
  - cbn [mbind option_bind fst snd] in Hr. rewrite phys_addr_frame, (low12 a) in Hr by done. pose proof (m_data _ _ _ _ HM _ (id, v) (conj Hv (conj Ep eq_refl))) as Hk.
    rewrite frame_ptr_ok in Hr by (eapply kind_frame; [exact HT|exact Hk]). cbn [mbind option_bind] in Hr. injection Hr as <- <- <-.
    split_and!; try done. apply one_page_refl. by exists K.
  - destruct (alloc_frames s 1) as [[f s2]|] eqn:Ea; [|done]. cbn [mbind option_bind fst snd] in Hr. rewrite (mask_page a Ha) in Hr. fold v in Hr.
    destruct (map_page s2 pd (v * 4096) f true) as [s3|] eqn:Em; [|done]. cbn [mbind option_bind fst snd] in Hr.
    destruct (fresh_step D id pd Hact K s v f s2 s3 HI Hv Ea Em) as (HO & F1 & F2 & _ & F4 & F5). destruct (alloc_one K D s f s2 HT Ea) as (_ & Hfr & _).
    assert (u32 (u32 f ≪ 12) .| (a .& 0xFFF) = phys_addr (f * 4096) a /\ fits 32 (f * 4096)) as [Epa Hff].
    { unfold FRAMES in Hfr. assert (fits 32 (f * 4096)) as Hff by (unfold fits; lia). split; [|done]. unfold phys_addr. rewrite (wrap_small 32 f) by (unfold fits; lia).
      rewrite Z.shiftl_mul_pow2, wrap_small by (lia || exact Hff). f_equal. rewrite mask_page by exact Hff. change (2 ^ 12) with 4096. by rewrite Z.div_mul by lia. }
    rewrite Epa, phys_addr_frame, (low12 a) in Hr by done. rewrite Z.shiftr_div_pow2 in Hr by lia. change (2 ^ 12) with 4096 in Hr. rewrite Z.div_mul in Hr by lia.
    rewrite frame_ptr_ok in Hr by lia. cbn [mbind option_bind] in Hr. injection Hr as <- <- <-.
    split_and!; done.
Qed.

(** Bytes written through a page that may be written. *)
Lemma store_bytes v l : forall o s, good D s -> user v -> is_present (page s D id v) = true -> writable (page s D id v) = true ->
  let s' := set_bytes (page s D id v ≫ 12) o l s in
  active_only D id s s' /\ forall id' v', 0 <= v' < VPAGES -> page s' D id' v' = page s D id' v'.
Proof.
  induction l as [|b l IH]; intros o s Hg Hv Hp Hw; [by split; [apply active_only_refl|]|]. cbn [set_bytes].
  destruct (store_step D id s v o b Hg Hv Hp Hw) as (G1 & G2 & _ & G4 & _ & G6). set (s1 := set_byte (page s D id v ≫ 12) o s b) in *.
  rewrite <- (G6 id v) in Hp, Hw |- * by (by apply user_page). destruct (IH (o + 1) s1 G1 Hv Hp Hw) as [I1 I2].
  split; [|intros id' v' Hr; by rewrite I2, G6]. eapply active_only_trans; [|exact I1]. by split.
Qed.

Definition chunk_ok (s : St) (c : Z * Z * Z) : Prop := let a := fst (fst c) in 0 <= a < 2 ^ 32 /\ user (a / 4096) /\ guest_may_write D s id (a / 4096).

Lemma copy_to_loop src cs : forall s s', good D s -> rest s = rest s0 -> Forall (chunk_ok s) cs -> copy_to_chunks src cs s = Some s' -> active_only D id s s'.
Proof.
  induction cs as [|[[a off] n] cs IH]; intros s s' Hg Hre Hcs Hc; [injection Hc as <-; by apply active_only_refl|].
  inversion_clear Hcs as [|? ? (Ha & Hv & Hw) Hcs']. cbn [fst] in Ha, Hv, Hw. cbn [copy_to_chunks] in Hc. rewrite wrap_small in Hc by (unfold fits; lia).
  destruct (space_resolve s a) as [[[p o] s1]|] eqn:Er; [|done]. cbn [mbind option_bind] in Hc.
  destruct (space_resolve_ok s a p o s1 Hg Hre Ha Hv Er) as (HO & Hp1 & -> & -> & Hsame & Hnew & Hoth).
  assert (writable (page s1 D id (a / 4096)) = true) as Hw1.
  { destruct (is_present (page s D id (a / 4096))) eqn:Ep; [|by apply Hnew]. rewrite Hsame by done. by apply Hw. }
  destruct (store_bytes (a / 4096) (take (Z.to_nat n) (drop (Z.to_nat off) src)) (a mod 4096) s1 (o_good _ _ _ _ _ HO) Hv Hp1 Hw1) as [SA SP].
  set (s2 := set_bytes _ _ _ _) in *. pose proof (active_only_trans _ _ _ _ _ (one_page_active _ _ _ _ _ HO) SA) as S02. eapply active_only_trans; [exact S02|].
  apply (IH s2 s' (a_good _ _ _ _ S02)); [by rewrite (a_rest _ _ _ _ S02)| |done]. eapply List.Forall_impl; [|exact Hcs']. intros [[a' off'] n'] (Ha' & Hv' & Hw').
  split; [done|]. split; [done|]. cbn [fst] in *. intros Hp'. rewrite SP in Hp' |- * by (by apply user_page). destruct (decide (a' / 4096 = a / 4096)) as [->|Hne]; [done|].
  assert ((id, a' / 4096) <> (id, a / 4096)) as Hne2 by congruence. pose proof (Hoth (id, a' / 4096) Hv' Hne2) as Eo. cbn [fst snd] in Eo. rewrite Eo in Hp' |- *. by apply Hw'.
Qed.

Lemma copy_from_loop cs : forall s l s', good D s -> rest s = rest s0 -> Forall (fun c => 0 <= fst (fst c) < 2 ^ 32 /\ user (fst (fst c) / 4096)) cs ->
  copy_from_chunks cs s = Some (l, s') -> active_only D id s s'.
Proof.
  induction cs as [|[[a off] n] cs IH]; intros s l s' Hg Hre Hcs Hc; [injection Hc as <- <-; by apply active_only_refl|].
  inversion_clear Hcs as [|? ? (Ha & Hv) Hcs']. cbn [fst] in Ha, Hv. cbn [copy_from_chunks] in Hc. rewrite wrap_small in Hc by (unfold fits; lia).
  destruct (space_resolve s a) as [[[p o] s1]|] eqn:Er; [|done]. cbn [mbind option_bind] in Hc.
  destruct (space_resolve_ok s a p o s1 Hg Hre Ha Hv Er) as (HO & _). destruct (copy_from_chunks cs s1) as [[l' s2]|] eqn:Ec; [|done]. cbn [mbind option_bind fst snd] in Hc.
  injection Hc as <- <-. pose proof (one_page_active _ _ _ _ _ HO) as HA. eapply active_only_trans; [exact HA|]. apply (IH s1 l' s2); [apply HA| |done|done].
  by rewrite (a_rest _ _ _ _ HA).
Qed.
End Access.

(** The addresses of the chunks of a request. *)
Lemma chunks_in n addr len : forall off, Forall (fun c => addr + off <= fst (fst c) < addr + len) (chunks n addr off len).
Proof.
  induction n as [|n IH]; intros off; [constructor|]. cbn [chunks]. destruct (Z.ltb_spec off len); [|constructor]. constructor; [cbn; lia|].
  assert (0 <= (addr + off) .& 0xFFF < 4096) as Hl by (change 0xFFF with (Z.ones 12); rewrite Z.land_ones by lia; zdiv).
  eapply List.Forall_impl; [|apply IH]. cbn. intros [[a o] k] Ha. cbn in *. lia.
Qed.

(** A request for user memory. *)
Definition user_request (addr len : Z) : Prop := 0 <= addr /\ 0 <= len /\ addr + len <= UPAGES * 4096.

Lemma request_page addr len a : user_request addr len -> addr <= a < addr + len -> 0 <= a < 2 ^ 32 /\ user (a / 4096).
Proof. unfold user_request, user, UPAGES. intros (H1 & H2 & H3) Ha. split; [lia|]. zdiv. Qed.

Lemma copy_to_ok s pd addr src s' : good (spaces s) s -> spaces s !! active s = Some pd -> user_request addr (Z.of_nat (length src)) ->
  (forall v, addr / 4096 <= v <= (addr + Z.of_nat (length src) - 1) / 4096 -> guest_may_write (spaces s) s (active s) v) ->
  copy_to s addr src = Some s' -> active_only (spaces s) (active s) s s'.
Proof.
  intros Hg Hact Hr Hw Hc. unfold copy_to, for_chunks in Hc. eapply (copy_to_loop s pd Hact); [done|done| |exact Hc].
  eapply List.Forall_impl; [|apply chunks_in]. intros [[a off] n] Ha. cbn [fst] in Ha. rewrite Z.add_0_r in Ha. destruct (request_page addr _ a Hr Ha).
  split; [done|]. split; [done|]. apply Hw. cbn [fst]. split; apply Z.div_le_mono; lia.
Qed.

Lemma copy_from_ok s pd addr len l s' : good (spaces s) s -> spaces s !! active s = Some pd -> user_request addr len ->
  copy_from s addr len = Some (l, s') -> active_only (spaces s) (active s) s s'.
Proof.
  intros Hg Hact Hr Hc. unfold copy_from, for_chunks in Hc. eapply (copy_from_loop s pd Hact); [done|done| |exact Hc].
  eapply List.Forall_impl; [|apply chunks_in]. intros [[a off] n] Ha. cbn [fst] in *. rewrite Z.add_0_r in Ha. by destruct (request_page addr _ a Hr Ha).
Qed.

(** * Runs *)

(** A store of the guest's processor: through an entry that is present and
    writable, else it faults. *)
Definition stores (s : St) (a b : Z) (s' : St) : Prop :=
  exists pd e, spaces s !! active s = Some pd /\ pte_raw s pd a = Some e /\ is_present e = true /\ writable e = true /\
    s' = set_byte (e ≫ 12) (a mod 4096) s b.

Definition user_addr (a : Z) : Prop := 0 <= a < UPAGES * 4096.

(** A step, and the space it is for.  The operations are those that the kernel
    calls on ranges of user pages; exchanged ranges lie in different tables, a
    copy is not onto itself, and the kernel writes where the guest may. *)
Inductive step : St -> option Z -> St -> Prop :=
| St_new s id s' : space_new s = Some (id, s') -> step s (Some id) s'
| St_fork s src id s' : space_fork s src = Some (id, s') -> step s (Some id) s'
| St_destroy s id s' : space_destroy s id = Some s' -> step s (Some id) s'
| St_switch s id : step s None (space_switch s id)
| St_window s vp pp c s' : window_ok (vp, pp, c) -> register_kernel_window s vp pp c = Some s' -> step s None s'
| St_map_fresh s vp c s' : user_range vp c -> space_map_fresh s vp c = Some s' -> step s (Some (active s)) s'
| St_unmap s vp c s' : user_range vp c -> space_unmap s vp c = Some s' -> step s (Some (active s)) s'
| St_mmio s vp c s' : user_range vp c -> space_map_mmio s vp c = Some s' -> step s (Some (active s)) s'
| St_protect s vp c s' : user_range vp c -> space_set_writable s vp c false = Some s' -> step s (Some (active s)) s'
| St_copy s src dst c s' : user_range src c -> user_range dst c -> src <> dst -> space_copy_entries s src dst c = Some s' -> step s (Some (active s)) s'
| St_swap s a b c s' : user_range a c -> user_range b c -> (forall i, 0 <= i < c -> (a + i) / 1024 <> (b + i) / 1024) ->
    space_swap_entries s a b c = Some s' -> step s (Some (active s)) s'
| St_clean s s' : space_clean s = Some s' -> step s (Some (active s)) s'
| St_fault s a r s' : user_addr a -> page_fault s a = Some (r, s') -> step s (Some (active s)) s'
| St_store s a b s' : user_addr a -> stores s a b s' -> step s (Some (active s)) s'
| St_read s addr len l s' : user_request addr len -> copy_from s addr len = Some (l, s') -> step s (Some (active s)) s'
| St_write s addr src s' : user_request addr (Z.of_nat (length src)) ->
    (forall v, addr / 4096 <= v <= (addr + Z.of_nat (length src) - 1) / 4096 -> guest_may_write (spaces s) s (active s) v) ->
    copy_to s addr src = Some s' -> step s (Some (active s)) s'.

Inductive reachable : St -> Prop :=
| R_boot s : space_init empty = Some s -> reachable s
| R_step s w s' : reachable s -> step s w s' -> reachable s'.

(** Steps of other spaces than [id]. *)
Inductive others (id : Z) : St -> St -> Prop :=
| O_refl s : others id s s
| O_step s w s1 s2 : w <> Some id -> step s w s1 -> others id s1 s2 -> others id s s2.

(** The byte at address [a] of space [id], by the tables. *)
Definition read_byte (s : St) (id a : Z) : option (option Z) :=
  pd ← spaces s !! id; t ← translate s pd a; Some (pa ← t; Some (byte s (pa ≫ 12) (pa .& 0xFFF))).

Lemma read_byte_view s id a : wf s -> user_addr a -> read_byte s id a = _ ← spaces s !! id; Some (view (spaces s) s (id, a / 4096) (a mod 4096)).
Proof.
  intros [[K [HT HM HK]] _ _ _] Ha. unfold user_addr, UPAGES in Ha. unfold read_byte. destruct (spaces s !! id) as [pd|] eqn:Hd; [|done]. cbn [mbind option_bind].
  rewrite (translate_ok K (spaces s) s id pd a HT Hd) by lia. cbn [mbind option_bind]. unfold view. cbn [fst snd].
  destruct (is_present _); [|done]. cbn [mbind option_bind]. by rewrite phys_addr_frame, low12 by (lia || apply (page_fits (spaces s) id pd Hd)).
Qed.

Lemma boot_wf s : space_init empty = Some s -> wf s.
Proof.
  apply space_init_ok; [|done|constructor]. exists ∅. split.
  - split; cbn; try (intros *; by rewrite lookup_empty); [unfold FRAMES; lia| |constructor].
    intros f Hf. by apply not_elem_of_nil in Hf.
  - split.
    + intros f x (_ & Hp & _). unfold page in Hp; by rewrite lookup_empty in Hp.
    + intros f c. cbn. by rewrite lookup_empty.
    + intros f [|x L] Hn Hl; [cbn; unfold count; cbn; rewrite lookup_empty; cbn; lia|]. inversion_clear Hl as [|? ? (_ & Hp & _) _]. unfold page in Hp; by rewrite lookup_empty in Hp.
    + intros f x y (_ & Hp & _). unfold page in Hp; by rewrite lookup_empty in Hp.
  - intros id pd v. by rewrite lookup_empty.
Qed.

(** What a step for space [w] keeps. *)
Record keeps (w : option Z) (s s' : St) : Prop := {
  ks_wf : wf s';
  ks_dir : forall id, w <> Some id -> spaces s' !! id = spaces s !! id;
  ks_view : forall id v o, w <> Some id -> user v -> view (spaces s') s' (id, v) o = view (spaces s) s (id, v) o
}.

Lemma active_keeps s s' : wf s -> active_only (spaces s) (active s) s s' -> keeps (Some (active s)) s s'.
Proof.
  intros Hwf [A1 A2 A3]. pose proof A2 as E. unfold rest in E. injection E as E1 E2 E3 E4. split; [by eapply wf_keep|intros; by rewrite E1|].
  intros id v o Hid Hv. rewrite E1. apply (A3 (id, v)); [done|]. intros Ei. by rewrite <- Ei in Hid.
Qed.

(** The steps of the active space need one. *)
Lemma active_some {A} s (f : Z -> option A) r : (pd ← active_pd s; f pd) = Some r -> exists pd, spaces s !! active s = Some pd.
Proof. unfold active_pd. destruct (spaces s !! active s) as [pd|]; [by exists pd|done]. Qed.

Lemma clean_ok s s' : wf s -> space_clean s = Some s' -> active_only (spaces s) (active s) s s'.
Proof.
  intros Hwf Hc. destruct (active_some _ _ _ Hc) as [pd Hact]. unfold space_clean, active_pd in Hc. rewrite Hact in Hc.
  by apply (free_user_frames_ok _ _ pd Hact s s' (wf_good _ Hwf) Hc).
Qed.

Lemma user_addr_page a : user_addr a -> 0 <= a < 2 ^ 32 /\ user (a / 4096).
Proof. unfold user_addr, user, UPAGES. intros Ha. split; [lia|]. zdiv. Qed.

Lemma fault_ok s a r s' : wf s -> user_addr a -> page_fault s a = Some (r, s') -> active_only (spaces s) (active s) s s'.
Proof.
  intros Hwf Ha Hf. destruct (user_addr_page a Ha) as [Hr Hv]. unfold page_fault, space_translate in Hf. destruct (spaces s !! active s) as [pd|] eqn:Hact.
  2: { unfold active_pd in Hf. by rewrite Hact in Hf. }
  destruct (pd0 ← active_pd s; translate s pd0 a) as [[pa|]|]; [| |done]; cbn [mbind option_bind] in Hf.
  - destruct (cow_step s pd Hact a r s' (wf_good _ Hwf) Hr Hv Hf) as (C1 & C2 & C3 & _). split; [done|done|]. intros x Hx _. by apply C3.
  - destruct (demand_step s pd Hact a r s' (wf_good _ Hwf) Hr Hv Hf) as (C1 & C2 & C3 & _). split; [done|done|]. intros x Hx Hne. apply C3; [done|]. intros ->. done.
Qed.

Lemma pte_raw_ok K D s id pd a : tables K D s -> D !! id = Some pd -> 0 <= a < 2 ^ 32 -> pte_raw s pd a = Some (page s D id (a / 4096)).
Proof.
  intros HT Hd Ha. unfold pte_raw. destruct (addr_index a Ha) as [-> ->]. rewrite (read_pde D id pd Hd K) by done. cbn [mbind option_bind].
  destruct (is_present _) eqn:Ep; cbn [negb]; [|by rewrite (page_absent D id pd Hd)]. apply (read_pte D id pd Hd K); [done|unfold VPAGES; zdiv|done].
Qed.

Lemma store_ok s a b s' : wf s -> user_addr a -> stores s a b s' -> active_only (spaces s) (active s) s s'.
Proof.
  intros Hwf Ha (pd & e & Hact & He & Hp & Hw & ->). destruct (user_addr_page a Ha) as [Hr Hv]. destruct (wf_good _ Hwf) as [K [HT _ _]].
  rewrite (pte_raw_ok K _ _ _ _ _ HT Hact Hr) in He. injection He as <-.
  destruct (store_step (spaces s) (active s) s (a / 4096) (a mod 4096) b (wf_good _ Hwf) Hv Hp Hw) as (G1 & G2 & _ & G4 & _). by split.
Qed.

Ltac act H := let pd := fresh "pd" in let Hact := fresh "Hact" in destruct (active_some _ _ _ H) as [pd Hact].

Lemma step_keeps s w s' : wf s -> step s w s' -> keeps w s s'.
Proof.
  intros Hwf Hs. pose proof (wf_good _ Hwf) as Hg. destruct Hs as [s id s' H|s src id s' H|s id s' H|s id|s vp pp c s' Hw H|s vp c s' Hr H|s vp c s' Hr H|s vp c s' Hr H|
    s vp c s' Hr H|s src dst c s' Hr Hr2 Hne H|s a b c s' Hr Hr2 Hne H|s s' H|s a r s' Ha H|s a b s' Ha H|s addr len l s' Hr H|s addr src s' Hr Hw H].
  - destruct (new_ok s id s' Hwf H) as [N1 _ [pd N3] _ N5 _]. split; [done| |intros; apply N5; [done|naive_solver]].
    intros id' Hid. rewrite N3. apply lookup_insert_ne. congruence.
  - destruct (fork_ok s src id s' Hwf H) as [N1 _ [pd N3] _ N5 _]. split; [done| |intros; apply N5; [done|naive_solver]].
    intros id' Hid. rewrite N3. apply lookup_insert_ne. congruence.
  - destruct (destroy_ok s id s' Hwf H) as (N1 & N2 & N3). split; [done| |intros; apply N3; [done|naive_solver]].
    intros id' Hid. rewrite N2. destruct (id =? 0); [done|]. apply lookup_delete_ne. congruence.
  - split; [|done|done]. destruct Hwf as [[K HI] W2 W3 W4]. split; try done. exists K. by apply (inv_rest strict K _ s).
  - destruct (register_ok s vp pp c s' Hwf Hw H) as (N1 & N2 & _ & N4). split; [done|intros; by rewrite N2|]. intros id v o _ Hv. rewrite N2. by apply (N4 (id, v)).
  - act H. apply active_keeps; [done|]. by eapply map_fresh_ok.
  - act H. apply active_keeps; [done|]. by eapply unmap_ok.
  - act H. apply active_keeps; [done|]. by eapply mmio_ok.
  - act H. apply active_keeps; [done|]. by eapply protect_ok.
  - act H. apply active_keeps; [done|]. apply (copy_ok s pd Hact src dst c); try done.
  - act H. apply active_keeps; [done|]. apply (swap_ok s pd Hact a b c); try done.
  - apply active_keeps; [done|]. by apply clean_ok.
  - apply active_keeps; [done|]. by eapply fault_ok.
  - apply active_keeps; [done|]. by eapply store_ok.
  - destruct (spaces s !! active s) as [pd|] eqn:Hact; [apply active_keeps; [done|]; by eapply copy_from_ok|].
    unfold copy_from in H. destruct (for_chunks addr len) as [|[[a off] n] cs]; [injection H as <- <-; by split|].
    cbn [copy_from_chunks] in H. unfold space_resolve, active_pd in H. by rewrite Hact in H.
  - destruct (spaces s !! active s) as [pd|] eqn:Hact; [apply active_keeps; [done|]; by eapply copy_to_ok|].
    unfold copy_to in H. destruct (for_chunks addr _) as [|[[a off] n] cs]; [injection H as <-; by split|].
    cbn [copy_to_chunks] in H. unfold space_resolve, active_pd in H. by rewrite Hact in H.
Qed.

Lemma reachable_wf s : reachable s -> wf s.
Proof. induction 1 as [s H|s w s' H IH Hs]; [by apply boot_wf|]. by apply (step_keeps s w s'). Qed.

Lemma others_keeps id s s' : wf s -> others id s s' -> wf s' /\ spaces s' !! id = spaces s !! id /\
  forall v o, user v -> view (spaces s') s' (id, v) o = view (spaces s) s (id, v) o.
Proof.
  intros Hwf Ho. induction Ho as [s|s w s1 s2 Hw Hs Ho IH]; [done|]. destruct (step_keeps s w s1 Hwf Hs) as [K1 K2 K3]. destruct (IH K1) as (I1 & I2 & I3).
  split_and!; [done|by rewrite I2, K2|]. intros v o Hv. by rewrite I3, K3.
Qed.

(** * Page faults return *)

(** The frames that can still be allocated. *)
Definition avail (s : St) : Z := Z.of_nat (length (free_list s)) + (FRAMES - next_frame s).

Lemma alloc_some s : 1 <= avail s -> exists f s', alloc_frames s 1 = Some (f, s') /\ avail s' = avail s - 1.
Proof.
  intros Ha. unfold alloc_frames. change (1 =? 1) with true. cbv iota. unfold avail in *. destruct (free_list s) as [|g l] eqn:El; cbn [head tail].
  - change PHYS_SIZE with (FRAMES * PAGE). cbn [length] in Ha. rewrite (proj2 (Z.leb_le _ _)) by (unfold PAGE; lia). do 2 eexists. split; [done|]. cbn. rewrite El. cbn. lia.
  - do 2 eexists. split; [done|]. cbn [free_list set_free_list next_frame length]. lia.
Qed.

Lemma map_page_some K D s id pd v f w : tables K D s -> D !! id = Some pd -> 0 <= v < VPAGES -> 1 <= avail s -> exists s', map_page s pd (v * 4096) f w = Some s'.
Proof.
  intros HT Hd Hv Ha. unfold map_page. assert (exists pt s1, table_for s pd (v * 4096) = Some (pt, s1)) as (pt & s1 & Et).
  { rewrite (table_for_read D id pd Hd K) by done. destruct (is_present _); [by do 2 eexists|]. destruct (alloc_some s Ha) as (g & s1 & Eg & _).
    destruct (alloc_one K D s g s1 HT Eg) as (_ & Hg & _). unfold alloc_table. rewrite Eg. cbn [mbind option_bind fst snd]. rewrite frame_ptr_ok by lia. cbn [mbind option_bind fst snd].
    rewrite write_entry_ok by (eapply kind_frame; [exact HT|by eapply t_dir]). by do 2 eexists. }
  rewrite Et. cbn [mbind option_bind fst snd]. destruct (table_for_ok K D s id pd v pt s1 HT Hd Hv Et) as (K' & HT' & _ & _ & Hp & -> & _).
  rewrite write_entry_ok by (apply (tab_frame K' D s1 HT' id pd _ Hd); [unfold VPAGES in Hv; zdiv|done]). by eexists.
Qed.

Lemma cow_some s pd a : wf s -> spaces s !! active s = Some pd -> user_addr a -> 1 <= avail s ->
  is_present (page s (spaces s) (active s) (a / 4096)) = true -> has_flag (page s (spaces s) (active s) (a / 4096)) COW = true ->
  exists s', space_cow_fault s a = Some (true, s').
Proof.
  intros Hwf Hact Ha Hav Hp Hc. destruct (user_addr_page a Ha) as [Hr Hv]. destruct (wf_good _ Hwf) as [K [HT HM HK]]. unfold space_cow_fault, active_pd. rewrite Hact. cbn [mbind option_bind].
  set (v := a / 4096) in *. pose proof (user_page v Hv) as Hv'. destruct (addr_index a Hr) as [-> ->]. fold v. rewrite (read_pde (spaces s) (active s) pd Hact K) by done. cbn [mbind option_bind].
  destruct (is_present (ent s pd (v / 1024))) eqn:Ep; [|by rewrite (page_absent (spaces s) (active s) pd Hact s v Ep) in Hp]. cbn [negb].
  rewrite (read_pte (spaces s) (active s) pd Hact K) by done. cbn [mbind option_bind]. rewrite Hp, Hc. cbn [negb orb].
  assert (ent s pd (v / 1024) ≫ 12 < FRAMES) as Ht by (apply (tab_frame K (spaces s) s HT (active s) pd _ Hact); [unfold VPAGES in Hv'; zdiv|done]).
  pose proof (m_data _ _ _ _ HM _ (active s, v) (conj Hv (conj Hp eq_refl))) as Hk. pose proof (kind_frame _ _ _ HT _ _ Hk) as Hf.
  destruct (is_shared _ _); [|rewrite write_entry_ok by done; by eexists].
  destruct (alloc_some s Hav) as (g & s1 & Eg & _). destruct (alloc_one K _ s g s1 HT Eg) as (_ & Hg & _). rewrite Eg. cbn [mbind option_bind fst snd].
  rewrite !frame_ptr_ok by (cbn [fst snd] in *; lia). cbn [mbind option_bind]. rewrite write_entry_ok by done. by eexists.
Qed.

Lemma demand_some s pd a : wf s -> spaces s !! active s = Some pd -> user_addr a -> NULL_GUARD <= a -> 2 <= avail s ->
  is_present (page s (spaces s) (active s) (a / 4096)) = false -> has_flag (page s (spaces s) (active s) (a / 4096)) CACHE_DISABLE = false ->
  exists s', space_demand s a = Some (true, s').
Proof.
  intros Hwf Hact Ha Hnull Hav Hp Hc. destruct (user_addr_page a Ha) as [Hr Hv]. destruct (wf_good _ Hwf) as [K [HT HM HK]]. unfold space_demand, active_pd. rewrite Hact. cbn [mbind option_bind].
  rewrite (translate_ok K _ s _ pd a HT Hact Hr), Hp. cbn [mbind option_bind]. rewrite (pte_raw_ok K _ s _ pd a HT Hact Hr). cbn [mbind option_bind]. rewrite Hc.
  unfold user_addr, UPAGES in Ha. rewrite (proj2 (Z.ltb_ge _ _)), (proj2 (Z.leb_gt _ _)) by lia. cbn [orb].
  destruct (alloc_some s ltac:(lia)) as (g & s1 & Eg & Hav1). destruct (alloc_one K _ s g s1 HT Eg) as (_ & Hg & _ & _ & _ & Hk). rewrite Eg. cbn [mbind option_bind fst snd].
  rewrite (mask_page a Hr). destruct (map_page_some _ (spaces s) s1 (active s) pd (a / 4096) g true (Hk Data) Hact (user_page _ Hv) ltac:(lia)) as [s2 ->]. by eexists.
Qed.

(** * Claims *)

Lemma others_read id s s' a : wf s -> others id s s' -> user_addr a -> read_byte s' id a = read_byte s id a.
Proof.
  intros Hwf Ho Ha. destruct (others_keeps id s s' Hwf Ho) as (H1 & H2 & H3). destruct (user_addr_page a Ha) as [_ Hv].
  rewrite !read_byte_view by done. rewrite H2. destruct (spaces s !! id); [|done]. cbn [mbind option_bind]. by rewrite H3.
Qed.

(** C3: isolation.  From any reachable state, whatever sequence of steps the other
    spaces take - spaces made, forked, destroyed and switched, pages mapped,
    unmapped, trapped, protected, copied and exchanged, page faults, stores of the
    guest, and reads and writes of the kernel where the guest may write - every
    byte of a space's user memory reads as before.  The operations that make two
    places share a frame on purpose (mapping a given physical page, redirecting
    a page to another frame) are not among the steps. *)
Theorem spaces_isolated s id s' a : reachable s -> others id s s' -> user_addr a -> read_byte s' id a = read_byte s id a.
Proof. intros Hr. apply others_read. by apply reachable_wf. Qed.

(** C4: fork.  The child is a new space, reads at every user address what its
    parent read, and no space that was there reads anything else. *)
Theorem fork_copies s src id s' a : reachable s -> space_fork s src = Some (id, s') -> user_addr a ->
  spaces s !! id = None /\ read_byte s' id a = read_byte s src a /\ forall id', id' <> id -> read_byte s' id' a = read_byte s id' a.
Proof.
  intros Hr Hf Ha. pose proof (reachable_wf s Hr) as Hwf. destruct (fork_ok s src id s' Hwf Hf) as [K1 [-> _] [pd K3] _ K5 K6]. destruct (user_addr_page a Ha) as [_ Hv].
  split_and!.
  - destruct (spaces s !! next s) eqn:E; [apply (wf_ids s Hwf) in E; lia|done].
  - rewrite !read_byte_view, K6, K3, lookup_insert_eq by done. unfold space_fork in Hf. by destruct (spaces s !! src).
  - intros id' Hne. rewrite !read_byte_view by done. rewrite (K5 (id', a / 4096)) by done. by rewrite K3, lookup_insert_ne.
Qed.

(** What a resolved fault leaves: the page present and writable. *)
Lemma fault_view s pd a s' : wf s -> spaces s !! active s = Some pd -> user_addr a -> page_fault s a = Some (true, s') ->
  wf s' /\ rest s' = rest s /\
  (is_present (page s (spaces s) (active s) (a / 4096)) = true -> forall x, user (snd x) -> same (spaces s) s s' x) /\
  (is_present (page s (spaces s) (active s) (a / 4096)) = false -> (forall x, user (snd x) -> x <> (active s, a / 4096) -> same (spaces s) s s' x) /\
     forall o, view (spaces s) s' (active s, a / 4096) o = Some 0) /\
  is_present (page s' (spaces s) (active s) (a / 4096)) = true /\ writable (page s' (spaces s) (active s) (a / 4096)) = true.
Proof.
  intros Hwf Hact Ha Hf. destruct (user_addr_page a Ha) as [Hr Hv]. destruct (wf_good _ Hwf) as [K [HT _ _]].
  unfold page_fault, space_translate, active_pd in Hf. rewrite Hact in Hf. cbn [mbind option_bind] in Hf. rewrite (translate_ok K _ s _ pd a HT Hact Hr) in Hf. cbn [mbind option_bind] in Hf.
  destruct (is_present (page s (spaces s) (active s) (a / 4096))) eqn:Ep.
  - destruct (cow_step s pd Hact a true s' (wf_good _ Hwf) Hr Hv Hf) as (C1 & C2 & C3 & C4). destruct (C4 eq_refl). split_and!; try done. by eapply wf_keep.
  - destruct (demand_step s pd Hact a true s' (wf_good _ Hwf) Hr Hv Hf) as (C1 & C2 & C3 & C4 & _). destruct (C4 Ep eq_refl) as (C5 & C6 & C7).
    split_and!; try done. by eapply wf_keep.
Qed.

(** A page fault that has a remedy. *)
Definition remediable (e : Z) : Prop := if is_present e then has_flag e COW = true else has_flag e CACHE_DISABLE = false.

Lemma fault_returns s pd e a : wf s -> spaces s !! active s = Some pd -> user_addr a -> NULL_GUARD <= a -> 2 <= avail s -> pte_raw s pd a = Some e -> remediable e ->
  exists s', page_fault s a = Some (true, s').
Proof.
  intros Hwf Hact Ha Hn Hav He Hrem. destruct (user_addr_page a Ha) as [Hr Hv]. destruct (wf_good _ Hwf) as [K [HT _ _]].
  rewrite (pte_raw_ok K _ _ _ _ _ HT Hact Hr) in He. injection He as <-. unfold page_fault, space_translate. unfold active_pd at 1. rewrite Hact. cbn [mbind option_bind].
  rewrite (translate_ok K _ s _ pd a HT Hact Hr). cbn [mbind option_bind]. unfold remediable in Hrem. destruct (is_present _) eqn:Ep.
  - apply (cow_some s pd a); try done. lia.
  - by apply (demand_some s pd a).
Qed.

Lemma store_read s pd a b : wf s -> spaces s !! active s = Some pd -> user_addr a -> is_present (page s (spaces s) (active s) (a / 4096)) = true ->
  writable (page s (spaces s) (active s) (a / 4096)) = true -> exists s', stores s a b s' /\ read_byte s' (active s) a = Some (Some b).
Proof.
  intros Hwf Hact Ha Hp Hw. destruct (user_addr_page a Ha) as [Hr Hv]. destruct (wf_good _ Hwf) as [K [HT _ _]]. set (e := page s (spaces s) (active s) (a / 4096)) in *.
  exists (set_byte (e ≫ 12) (a mod 4096) s b). split.
  - exists pd, e. split_and!; try done. by apply (pte_raw_ok K _ _ _ _ _ HT Hact Hr).
  - destruct (store_step (spaces s) (active s) s (a / 4096) (a mod 4096) b (wf_good _ Hwf) Hv Hp Hw) as (G1 & G2 & G3 & _). fold e in G1, G2, G3.
    set (s' := set_byte _ _ _ _) in *. assert (wf s') as Hwf' by (by eapply wf_keep). rewrite read_byte_view by done.
    assert (spaces s' = spaces s) as -> by done. rewrite Hact. cbn [mbind option_bind]. by rewrite G3.
Qed.

(** C5: page faults.  A fault of the guest on a user page that is copy-on-write,
    or absent and no device aperture, above the null guard and with two frames
    left, is resolved: the handler returns and asks for a retry, the retried
    store succeeds and is read back, the page reads as before (zero where it was
    absent), and no other page of any space reads anything else. *)
Theorem fault_resolves s pd e a : reachable s -> spaces s !! active s = Some pd -> user_addr a -> NULL_GUARD <= a -> 2 <= avail s ->
  pte_raw s pd a = Some e -> remediable e ->
  exists s', page_fault s a = Some (true, s') /\
    (forall b, exists s'', stores s' a b s'' /\ read_byte s'' (active s) a = Some (Some b)) /\
    (forall a', user_addr a' -> a' / 4096 = a / 4096 ->
       read_byte s' (active s) a' = Some (Some (match read_byte s (active s) a' with Some (Some b) => b | _ => 0 end))) /\
    forall id a', user_addr a' -> (id, a' / 4096) <> (active s, a / 4096) -> read_byte s' id a' = read_byte s id a'.
Proof.
  intros Hre Hact Ha Hn Hav He Hrem. pose proof (reachable_wf s Hre) as Hwf. destruct (fault_returns s pd e a Hwf Hact Ha Hn Hav He Hrem) as [s' Hf].
  exists s'. destruct (fault_view s pd a s' Hwf Hact Ha Hf) as (Hwf' & Hrest & Hpres & Habs & Hp & Hw). unfold rest in Hrest. injection Hrest as E1 E2 _ _.
  split_and!; [done| | |].
  - intros b. pose proof (store_read s' pd a b Hwf') as Hs. rewrite E1, E2 in Hs. by apply Hs.
  - intros a' Ha' Hpg. rewrite !read_byte_view by done. rewrite E1, Hact. cbn [mbind option_bind]. rewrite Hpg. destruct (user_addr_page a Ha) as [_ Hv].
    destruct (is_present (page s (spaces s) (active s) (a / 4096))) eqn:Ep.
    + rewrite (Hpres eq_refl (active s, a / 4096) Hv). unfold view. cbn [fst snd]. by rewrite Ep.
    + destruct (Habs eq_refl) as [_ H0]. rewrite H0. unfold view. cbn [fst snd]. by rewrite Ep.
  - intros id a' Ha' Hne. rewrite !read_byte_view by done. rewrite E1. destruct (spaces s !! id); [|done]. cbn [mbind option_bind]. destruct (user_addr_page a' Ha') as [_ Hv'].
    destruct (is_present (page s (spaces s) (active s) (a / 4096))) eqn:Ep; [by rewrite (Hpres eq_refl (id, a' / 4096) Hv')|].
    destruct (Habs eq_refl) as [H0 _]. by rewrite (H0 (id, a' / 4096) Hv' Hne).
Qed.

(** * A run *)

Module Sample.
(** Space 0 maps a page and stores 5; it forks space 1, which runs, faults and
    stores 9. *)
Definition booted : St := default empty (space_init empty).
Definition mapped : St := default empty (space_map_fresh booted 16 1).
Definition stored (s : St) (a b : Z) : St := default empty (pd ← active_pd s; e ← pte_raw s pd a; Some (set_byte (e ≫ 12) (a mod 4096) s b)).
Definition parent : St := stored mapped 0x10000 5.
Definition child : St := default empty (snd <$> space_fork parent 0).
Definition running : St := space_switch child 1.
Definition resolved : St := default empty (snd <$> page_fault running 0x10000).
Definition written : St := stored resolved 0x10000 9.

Definition can_store (s : St) (a : Z) : bool :=
  match spaces s !! active s with
  | Some pd => match pte_raw s pd a with Some e => is_present e && writable e | None => false end
  | None => false
  end.

Lemma stored_ok s a b : can_store s a = true -> stores s a b (stored s a b).
Proof.
  unfold can_store, stored, active_pd. destruct (spaces s !! active s) as [pd|] eqn:Hact; [|done]. destruct (pte_raw s pd a) as [e|] eqn:He; [|done].
  intros [H1 H2]%andb_true_iff. exists pd, e. cbn [mbind option_bind default]. by rewrite He.
Qed.

Lemma ranges : user_range 16 1 /\ user_addr 0x10000.
Proof. unfold user_range, user_addr, UPAGES. lia. Qed.

Lemma parent_reachable : reachable parent.
Proof.
  destruct ranges as [R1 R2]. assert (reachable mapped) as Hm.
  { eapply R_step; [apply (R_boot booted); by vm_compute|]. apply (St_map_fresh booted 16 1 mapped R1). by vm_compute. }
  eapply R_step; [exact Hm|]. apply (St_store mapped 0x10000 5 parent R2), stored_ok. by vm_compute.
Qed.

Lemma child_reachable : space_fork parent 0 = Some (1, child) /\ reachable child.
Proof.
  assert (space_fork parent 0 = Some (1, child)) as Hf by (by vm_compute). split; [exact Hf|]. eapply R_step; [exact parent_reachable|]. by apply (St_fork parent 0 1 child).
Qed.

Lemma child_runs : others 0 child written.
Proof.
  destruct ranges as [R1 R2]. eapply O_step; [|apply (St_switch child 1)|]; [done|].
  eapply O_step; [|apply (St_fault running 0x10000 true resolved R2); by vm_compute|]; [by vm_compute|].
  eapply O_step; [|apply (St_store resolved 0x10000 9 written R2), stored_ok; by vm_compute|apply O_refl]. by vm_compute.
Qed.

Lemma spaces_isolated_witness : read_byte written 0 0x10000 = read_byte child 0 0x10000 /\ read_byte child 0 0x10000 = Some (Some 5) /\ read_byte written 1 0x10000 = Some (Some 9).
Proof.
  split; [|split; vm_compute; reflexivity]. apply (spaces_isolated child 0 written 0x10000 (proj2 child_reachable) child_runs (proj2 ranges)).
Defined.

Lemma fork_copies_witness : read_byte child 1 0x10000 = Some (Some 5).
Proof.
  destruct (fork_copies parent 0 1 child 0x10000 parent_reachable (proj1 child_reachable) (proj2 ranges)) as (_ & Hc & _).
  transitivity (read_byte parent 0 0x10000); [exact Hc|]. vm_compute. reflexivity.
Defined.

Lemma running_reachable : reachable running.
Proof. eapply R_step; [exact (proj2 child_reachable)|]. apply (St_switch child 1). Qed.

Lemma fault_resolves_witness : exists s', page_fault running 0x10000 = Some (true, s') /\ read_byte s' 1 0x10000 = Some (Some 5).
Proof.
  destruct (fault_resolves running (default 0 (spaces running !! 1)) (default 0 (pte_raw running (default 0 (spaces running !! 1)) 0x10000)) 0x10000 running_reachable)
    as (s' & Hf & _ & Hr & _).
  - vm_compute. reflexivity.
  - exact (proj2 ranges).
  - vm_compute. discriminate.
  - vm_compute. discriminate.
  - vm_compute. reflexivity.
  - vm_compute. reflexivity.
  - exists s'. split; [exact Hf|]. assert (active running = 1) as Ea by (vm_compute; reflexivity). rewrite Ea in Hr. rewrite (Hr 0x10000 (proj2 ranges) eq_refl).
    vm_compute. reflexivity.
Defined.

(** the kernel's writes do not resolve copy-on-write: in the reachable state
    after the fork, a write of the kernel for the child changes what the parent
    reads. *)
Theorem kernel_write_leaks : reachable running /\ active running = 1 /\ read_byte running 0 0x10000 = Some (Some 5) /\
  exists s', copy_to running 0x10000 [7] = Some s' /\ read_byte s' 0 0x10000 = Some (Some 7).
Proof.
  split; [exact running_reachable|]. split; [by vm_compute|]. split; [by vm_compute|].
  exists (default empty (copy_to running 0x10000 [7])). split; by vm_compute.
Qed.

(** Neither do pages made writable again after a fork: a store of the child then
    changes what the parent reads. *)
Lemma set_writable_leaks : exists s', space_set_writable running 16 1 true = Some s' /\ can_store s' 0x10000 = true /\
  read_byte (stored s' 0x10000 7) 0 0x10000 = Some (Some 7).
Proof. exists (default empty (space_set_writable running 16 1 true)). split; [|split]; by vm_compute. Qed.

(** A fork leaves the device apertures of the parent out of the child: its access
    gets memory instead of a trap. *)
Lemma fork_drops_traps : exists s1 s2 s3, space_map_mmio booted 0xA0 1 = Some s1 /\ fst <$> page_fault s1 0xA0000 = Some false /\
  space_fork s1 0 = Some (1, s2) /\ page_fault (space_switch s2 1) 0xA0000 = Some (true, s3).
Proof.
  exists (default empty (space_map_mmio booted 0xA0 1)), (default empty (snd <$> (s ← space_map_mmio booted 0xA0 1; space_fork s 0))).
  eexists. split; [by vm_compute|]. split; [by vm_compute|]. split; [by vm_compute|]. vm_compute. reflexivity.
Qed.
End Sample.
