(* ===== verification/Ldt.v ===== *)
(** The DPMI descriptor services (kernel/src/kernel/dos/dpmi/descriptors.rs
    and functions 0000h to 000Ch of INT 31h in dpmi/mod.rs).

    A protected-mode DOS program owns a local descriptor table of 8192
    entries with an allocation bitmap; these services let it allocate, read
    and change descriptors.  Guest memory is a function as in Guest; [Cpu]
    adds to its registers the ones these services touch. *)

From Stdlib Require Import ZArith Lia Bool.
From stdpp Require Import base option list numbers relations.
From S2P Require Import Prelude Guest.

Module Ldt.

Definition LDT_ENTRIES : Z := 8192.
Definition LOW_MEM_LDT_IDX : Z := 5.
Definition PSP_LDT_IDX : Z := 18.
Definition VECTOR_STUB_LDT_IDX : Z := 4.
Definition SPECIAL_STUB_LDT_IDX : Z := 7.
Definition HOST_STACK_PM16_LDT_IDX : Z := 8.
Definition HOST_STACK_PM32_LDT_IDX : Z := 9.

Definition idx_to_sel (idx : Z) : Z := u16 (idx ≪ 3) .| 4 .| 3.
Definition sel_to_idx (sel : Z) : Z := sel ≫ 3.

Definition client_dpl (access : Z) : Z := (access .& bnot 8 0x60) .| 0x60.

(** * Descriptors, 64 bits *)

Definition build_descriptor (base limit access flags : Z) : Z :=
  (limit .& 0xFFFF) .| ((base .& 0xFFFF) ≪ 16) .| (((base ≫ 16) .& 0xFF) ≪ 32) .| ((access .& 0xFF) ≪ 40)
  .| ((((limit ≫ 16) .& 0x0F) .| (flags .& 0xF0)) ≪ 48) .| (((base ≫ 24) .& 0xFF) ≪ 56).

(** The limit field and the granularity bit. *)
Definition scale (limit : Z) : Z * Z := if 0xFFFFF <? limit then (limit ≫ 12, 1) else (limit, 0).

Definition make_data_desc_ex (base limit : Z) (db : bool) : Z :=
  let '(limit_val, g) := scale limit in
  build_descriptor base limit_val 0xF2 ((g ≪ 7) .| (Z.b2z db ≪ 6)).

Definition make_data_desc (base limit : Z) : Z := make_data_desc_ex base limit true.

Definition make_code_desc_ex (base limit : Z) (db : bool) : Z :=
  let '(limit_val, g) := scale limit in
  build_descriptor base limit_val 0xFA ((g ≪ 7) .| (Z.b2z db ≪ 6)).

Definition desc_base (desc : Z) : Z :=
  ((desc ≫ 16) .& 0xFFFF) .| (((desc ≫ 32) .& 0xFF) ≪ 16) .| (((desc ≫ 56) .& 0xFF) ≪ 24).

Definition desc_limit (desc : Z) : Z :=
  let raw := (desc .& 0xFFFF) .| (((desc ≫ 48) .& 0x0F) ≪ 16) in
  if negb ((desc .& bit 55) =? 0) then (raw ≪ 12) .| 0xFFF else raw.

Definition set_desc_base (desc base : Z) : Z :=
  (desc .& bnot 64 0xFF0000FFFFFF0000) .| ((base .& 0xFFFF) ≪ 16) .| (((base ≫ 16) .& 0xFF) ≪ 32)
  .| (((base ≫ 24) .& 0xFF) ≪ 56).

Definition set_desc_limit (desc limit : Z) : Z :=
  let '(lim, g) := scale limit in
  let desc := (desc .& bnot 64 0x000F00000000FFFF) .& bnot 64 (bit 55) in
  let desc := desc .| (lim .& 0xFFFF) .| (((lim ≫ 16) .& 0x0F) ≪ 48) in
  if negb (g =? 0) then desc .| bit 55 else desc.

Definition desc_is_seg_alias (desc base : Z) : bool :=
  ((desc .& 0xFFFF) =? 0xFFFF) && (((desc ≫ 48) .& 0xFF) =? 0) && (((desc ≫ 56) .& 0xFF) =? 0)
  && (((desc ≫ 16) .& 0xFFFF) =? u16 base) && (((desc ≫ 32) .& 0xFF) =? u8 (base ≫ 16)).

(** * The allocation bitmap, 256 words of 32 bits *)

Definition ldt_bit (words : list Z) (idx : Z) : bool :=
  negb (((words !!! Z.to_nat (idx / 32)) .& bit (idx mod 32)) =? 0).

Definition mark (words : list Z) (idx : Z) : list Z :=
  <[Z.to_nat (idx / 32) := (words !!! Z.to_nat (idx / 32)) .| bit (idx mod 32)]> words.

Definition unmark (words : list Z) (idx : Z) : list Z :=
  <[Z.to_nat (idx / 32) := (words !!! Z.to_nat (idx / 32)) .& bnot 32 (bit (idx mod 32))]> words.

(** [for idx in 16..LDT_ENTRIES], [n] left from [idx]. *)
Fixpoint alloc_loop (n : nat) (idx : Z) (words : list Z) : option (list Z * Z) :=
  match n with
  | O => None
  | S n => if negb (ldt_bit words idx) then Some (mark words idx, idx) else alloc_loop n (idx + 1) words
  end.
Definition alloc_ldt (words : list Z) : option (list Z * Z) := alloc_loop (Z.to_nat (LDT_ENTRIES - 16)) 16 words.

(** [for first in 16..=(LDT_ENTRIES - count)]. *)
Fixpoint range_loop (n : nat) (first count : Z) (words : list Z) : option (list Z * Z) :=
  match n with
  | O => None
  | S n =>
      if forallb (fun idx => negb (ldt_bit words idx)) (seqZ first count)
      then Some (foldl mark words (seqZ first count), first)
      else range_loop n (first + 1) count words
  end.
Definition alloc_ldt_range (words : list Z) (count : Z) : option (list Z * Z) :=
  if (count =? 0) || (LDT_ENTRIES <=? count) then None
  else range_loop (Z.to_nat (LDT_ENTRIES - count + 1 - 16)) 16 count words.

Definition ldt_is_allocated (words : list Z) (idx : Z) : bool :=
  if LDT_ENTRIES <=? idx then false else ldt_bit words idx.

Definition valid_ldt_selector_idx (words : list Z) (sel : Z) : option Z :=
  if (sel .& 4) =? 0 then None
  else let idx := sel_to_idx sel in if ldt_is_allocated words idx then Some idx else None.

(** * The client *)

Record DpmiState := mkDpmi { client_use32 : bool; env_ldt_idx : Z }.
Record DosState := mk { ldt : list Z; ldt_alloc : list Z; dpmi : option DpmiState }.

Definition set_desc (d : DosState) (idx desc : Z) : DosState :=
  mk (<[Z.to_nat idx := desc]> (ldt d)) (ldt_alloc d) (dpmi d).
Definition set_alloc (d : DosState) (words : list Z) : DosState := mk (ldt d) words (dpmi d).
Definition get_desc (d : DosState) (idx : Z) : Z := ldt d !!! Z.to_nat idx.

Definition free_ldt (d : DosState) (idx : Z) : DosState :=
  if (0 <? idx) && (idx <? LDT_ENTRIES) then set_desc (set_alloc d (unmark (ldt_alloc d) idx)) idx 0 else d.

(** A kernel slot: its descriptor and its allocation bit. *)
Definition mark_slot (d : DosState) (slot : Z * Z) : DosState :=
  set_alloc (set_desc d (fst slot) (snd slot)) (mark (ldt_alloc d) (fst slot)).

Definition install_kernel_ldt_slots (host_base host_limit : Z) (d : DosState) : DosState :=
  let d := foldl mark_slot d
    [(VECTOR_STUB_LDT_IDX, make_code_desc_ex 0 0x0FFF false);
     (SPECIAL_STUB_LDT_IDX, make_code_desc_ex 0 0x0FFF false);
     (LOW_MEM_LDT_IDX, make_data_desc_ex 0 0xFFFFF false);
     (HOST_STACK_PM16_LDT_IDX, make_data_desc_ex host_base host_limit false);
     (HOST_STACK_PM32_LDT_IDX, make_data_desc_ex host_base host_limit true)] in
  set_alloc d (mark (ldt_alloc d) PSP_LDT_IDX).

Definition seg_base (d : DosState) (sel : Z) : Z :=
  if (sel .& 4) =? 0 then 0
  else let idx := sel ≫ 3 in
       if Z.of_nat (length (ldt d)) <=? idx then 0 else desc_base (get_desc d idx).

Definition flat_addr (d : DosState) (seg offset : Z) (cs_32 : bool) : Z :=
  let offset := if cs_32 then offset else offset .& 0xFFFF in
  u32 (seg_base d seg + offset).

(** * INT 31h *)

(** The registers of a call; [cf] is the carry flag. *)
Record Cpu := mkCpu { regs : Regs; fs : Z; gs : Z; cf : bool }.

Definition set_regs (c : Cpu) (r : Regs) : Cpu := mkCpu r (fs c) (gs c) (cf c).
Definition set_carry (c : Cpu) : Cpu := mkCpu (regs c) (fs c) (gs c) true.
Definition clear_carry (c : Cpu) : Cpu := mkCpu (regs c) (fs c) (gs c) false.
Definition ret_ax (c : Cpu) (v : Z) : Cpu := clear_carry (set_regs c (set_ax (regs c) v)).

Definition scrub_freed_selector (c : Cpu) (sel : Z) : Cpu :=
  let scrub x := if u16 x =? sel then 0 else x in
  let r := regs c in
  mkCpu (mkRegs (rax r) (rbx r) (rcx r) (rdx r) (rsi r) (rdi r) (scrub (ds r)) (scrub (es r)) (vm86 r))
    (scrub (fs c)) (scrub (gs c)) (cf c).

(** [CX:DX] *)
Definition cx_dx (r : Regs) : Z := ((u32 (rcx r) .& 0xFFFF) ≪ 16) .| (u32 (rdx r) .& 0xFFFF).

(** [for extra in idx..(idx + count)] *)
Definition fill_descs (d : DosState) (idx count desc : Z) : DosState :=
  foldl (fun d i => set_desc d i desc) d (seqZ idx count).

Definition alloc_0000 (d : DosState) (c : Cpu) : DosState * Cpu :=
  let count := rcx (regs c) .& 0xFFFF in
  if count =? 0 then (d, set_carry c)
  else
    let use32 := match dpmi d with Some p => client_use32 p | None => true end in
    match alloc_ldt_range (ldt_alloc d) count with
    | Some (words, idx) =>
        (fill_descs (set_alloc d words) idx count (make_data_desc_ex 0 0 use32), ret_ax c (idx_to_sel idx))
    | None => (d, set_carry c)
    end.

Definition free_0001 (d : DosState) (c : Cpu) : DosState * Cpu :=
  let sel := bx (regs c) in
  let idx := sel_to_idx sel in
  if ((sel .& 4) =? 0) || (idx <? 16) || negb (ldt_is_allocated (ldt_alloc d) idx) then (d, clear_carry c)
  else (free_ldt d idx, clear_carry (scrub_freed_selector c sel)).

(** The first selector that already maps [base]. *)
Definition find_alias (d : DosState) (base : Z) : option Z :=
  snd <$> list_find (fun idx => ldt_is_allocated (ldt_alloc d) idx && desc_is_seg_alias (get_desc d idx) base = true)
            (seqZ 1 (LDT_ENTRIES - 1)).

Definition segment_0002 (d : DosState) (c : Cpu) : DosState * Cpu :=
  let base := bx (regs c) ≪ 4 in
  match find_alias d base with
  | Some idx => (d, ret_ax c (idx_to_sel idx))
  | None =>
      match alloc_ldt (ldt_alloc d) with
      | Some (words, idx) =>
          (set_desc (set_alloc d words) idx (make_data_desc_ex base 0xFFFF false), ret_ax c (idx_to_sel idx))
      | None => (d, set_carry c)
      end
  end.

Definition get_base_0006 (d : DosState) (c : Cpu) : DosState * Cpu :=
  match valid_ldt_selector_idx (ldt_alloc d) (bx (regs c)) with
  | Some idx =>
      let base := desc_base (get_desc d idx) in
      (d, clear_carry (set_regs c (set_dx (set_cx (regs c) ((base ≫ 16) .& 0xFFFF)) (base .& 0xFFFF))))
  | None => (d, set_carry c)
  end.

(** A 16-bit client may pass the selector of its environment where a segment
    is meant. *)
Definition env_fixup (m : Mem) (d : DosState) (base : Z) : Z :=
  match dpmi d with
  | Some p =>
      if negb (client_use32 p) && negb (env_ldt_idx p =? 0) && ((base .& 0xF) =? 0) then
        let env_sel := read16 m (u32 (desc_base (get_desc d PSP_LDT_IDX) + 0x2C)) in
        if negb (env_sel =? 0) && ((env_sel ≪ 4) =? base) then
          let env_idx := sel_to_idx env_sel in
          if (env_idx <? LDT_ENTRIES) && ldt_is_allocated (ldt_alloc d) env_idx
          then desc_base (get_desc d env_idx) else base
        else base
      else base
  | None => base
  end.

Definition set_base_0007 (m : Mem) (d : DosState) (c : Cpu) : DosState * Cpu :=
  match valid_ldt_selector_idx (ldt_alloc d) (bx (regs c)) with
  | Some idx =>
      let base := env_fixup m d (cx_dx (regs c)) in
      (set_desc d idx (set_desc_base (get_desc d idx) base), clear_carry c)
  | None => (d, set_carry c)
  end.

Definition set_limit_0008 (d : DosState) (c : Cpu) : DosState * Cpu :=
  match valid_ldt_selector_idx (ldt_alloc d) (bx (regs c)) with
  | Some idx => (set_desc d idx (set_desc_limit (get_desc d idx) (cx_dx (regs c))), clear_carry c)
  | None => (d, set_carry c)
  end.

Definition with_rights (desc cl ch : Z) : Z :=
  (desc .& bnot 64 0x00F0FF0000000000) .| ((0x10 .| client_dpl cl) ≪ 40) .| ((ch .& 0xD0) ≪ 48).

Definition set_rights_0009 (d : DosState) (c : Cpu) : DosState * Cpu :=
  match valid_ldt_selector_idx (ldt_alloc d) (bx (regs c)) with
  | Some idx =>
      let cl := u8 (rcx (regs c)) in
      let ch := u8 (rcx (regs c) ≫ 8) in
      (set_desc d idx (with_rights (get_desc d idx) cl ch), clear_carry c)
  | None => (d, set_carry c)
  end.

Definition as_data (desc : Z) : Z := (desc .& bnot 64 (bit 43)) .| bit 41.

Definition alias_000A (d : DosState) (c : Cpu) : DosState * Cpu :=
  match valid_ldt_selector_idx (ldt_alloc d) (bx (regs c)) with
  | Some src_idx =>
      match alloc_ldt (ldt_alloc d) with
      | Some (words, new_idx) =>
          (set_desc (set_alloc d words) new_idx (as_data (get_desc d src_idx)), ret_ax c (idx_to_sel new_idx))
      | None => (d, set_carry c)
      end
  | None => (d, set_carry c)
  end.

(** [machine.write::<u64>] and [machine.read::<u64>] *)
Definition write64 (m : Mem) (a v : Z) : Mem :=
  fun x => if (a <=? x) && (x <? a + 8) then u8 (v ≫ (8 * (x - a))) else m x.
Definition read64 (m : Mem) (a : Z) : Z := from_le_bytes (map (fun i => m (a + Z.of_nat i)) (seq 0 8)).

Definition get_desc_000B (use32 : bool) (m : Mem) (d : DosState) (c : Cpu) : Mem * Cpu :=
  match valid_ldt_selector_idx (ldt_alloc d) (bx (regs c)) with
  | Some idx =>
      let dest := flat_addr d (u16 (es (regs c))) (u32 (rdi (regs c))) use32 in
      (write64 m dest (get_desc d idx), clear_carry c)
  | None => (m, set_carry c)
  end.

Definition confine (desc : Z) : Z :=
  let desc := desc .| bit 44 in
  let acc := client_dpl (u8 (desc ≫ 40)) in
  (desc .& bnot 64 (0xFF ≪ 40)) .| (acc ≪ 40).

Definition set_desc_000C (use32 : bool) (m : Mem) (d : DosState) (c : Cpu) : DosState * Cpu :=
  match valid_ldt_selector_idx (ldt_alloc d) (bx (regs c)) with
  | Some idx =>
      let src := flat_addr d (u16 (es (regs c))) (u32 (rdi (regs c))) use32 in
      (set_desc d idx (confine (read64 m src)), clear_carry c)
  | None => (d, set_carry c)
  end.

(** The descriptor services of [dpmi_api_inner]; [None] for the others. *)
Definition dpmi_api (m : Mem) (d : DosState) (c : Cpu) : option (Mem * DosState * Cpu) :=
  match dpmi d with
  | None => Some (m, d, set_carry c)
  | Some p =>
      let here r := Some (m, fst r, snd r) in
      let f := ax (regs c) in
      if f =? 0x0000 then here (alloc_0000 d c)
      else if f =? 0x0001 then here (free_0001 d c)
      else if f =? 0x0002 then here (segment_0002 d c)
      else if f =? 0x0003 then here (d, ret_ax c 8)
      else if f =? 0x0006 then here (get_base_0006 d c)
      else if f =? 0x0007 then here (set_base_0007 m d c)
      else if f =? 0x0008 then here (set_limit_0008 d c)
      else if f =? 0x0009 then here (set_rights_0009 d c)
      else if f =? 0x000A then here (alias_000A d c)
      else if f =? 0x000B then
        let '(m, c) := get_desc_000B (client_use32 p) m d c in Some (m, d, c)
      else if f =? 0x000C then here (set_desc_000C (client_use32 p) m d c)
      else None
  end.

End Ldt.

Import Ldt.

(** * Bits of descriptors *)

(** Evaluate the tests of constant bits and the index arithmetic of a goal
    about one concrete bit. *)
Ltac const_bits :=
  repeat match goal with
  | |- context [Z.testbit (Zpos ?c) ?k] =>
      let v := eval vm_compute in (Z.testbit (Zpos c) k) in
      change (Z.testbit (Zpos c) k) with v
  | |- context [Z.testbit (bnot 64 (Zpos ?c)) ?k] =>
      let v := eval vm_compute in (Z.testbit (bnot 64 (Zpos c)) k) in
      change (Z.testbit (bnot 64 (Zpos c)) k) with v
  end.

Ltac concrete_bit :=
  repeat first
    [ rewrite Z.lor_spec | rewrite Z.land_spec
    | rewrite Z.shiftl_spec by lia | rewrite Z.shiftr_spec by lia ];
  repeat match goal with
  | |- context [Z.testbit ?x (?a - ?b)] => let v := eval vm_compute in (a - b) in change (a - b) with v
  | |- context [Z.testbit ?x (?a + ?b)] => let v := eval vm_compute in (a + b) in change (a + b) with v
  end;
  rewrite ?Z.testbit_neg_r by lia; const_bits;
  rewrite ?andb_true_r, ?andb_false_r, ?orb_false_r, ?orb_true_r; cbn [andb orb].

(** A statement about every bit below [n], proved bit by bit. *)
Lemma below_64 (P : Z -> Prop) : Forall P (seqZ 0 64) -> forall i, 0 <= i < 64 -> P i.
Proof. rewrite Forall_seqZ. intros H i Hi. apply H. lia. Qed.

Lemma below_32 (P : Z -> Prop) : Forall P (seqZ 0 32) -> forall i, 0 <= i < 32 -> P i.
Proof. rewrite Forall_seqZ. intros H i Hi. apply H. lia. Qed.

Ltac each_bit :=
  cbv [seqZ Z.to_nat Pos.to_nat Pos.iter_op Nat.add seq fmap list_fmap map Z.of_nat Pos.of_succ_nat Pos.succ Z.add Pos.add];
  repeat constructor; concrete_bit; try done.

Lemma bit_desc_base d i :
  0 <= i < 32 -> Z.testbit (desc_base d) i = Z.testbit d (if i <? 24 then i + 16 else i + 32).
Proof. revert i. apply below_32. unfold desc_base. each_bit. Qed.

Lemma bit_set_desc_base d b i :
  0 <= i < 64 ->
  Z.testbit (set_desc_base d b) i =
    if (16 <=? i) && (i <? 40) then Z.testbit b (i - 16)
    else if 56 <=? i then Z.testbit b (i - 32) else Z.testbit d i.
Proof. revert i. apply below_64. unfold set_desc_base. each_bit. Qed.

(** The 20-bit limit field. *)
Definition limit_field (d : Z) : Z := (d .& 0xFFFF) .| (((d ≫ 48) .& 0x0F) ≪ 16).

Lemma bit_limit_field d i :
  0 <= i < 32 -> Z.testbit (limit_field d) i = (i <? 20) && Z.testbit d (if i <? 16 then i else i + 32).
Proof. revert i. apply below_32. unfold limit_field. each_bit. Qed.

(** [set_desc_limit] with a given field and granularity. *)
Definition put_limit (d lim : Z) : Z :=
  ((d .& bnot 64 0x000F00000000FFFF) .& bnot 64 0x80000000000000) .| (lim .& 0xFFFF) .| (((lim ≫ 16) .& 0x0F) ≪ 48).

Lemma bit_put_limit d lim i :
  0 <= i < 64 ->
  Z.testbit (put_limit d lim) i =
    if i <? 16 then Z.testbit lim i
    else if (48 <=? i) && (i <? 52) then Z.testbit lim (i - 32)
    else if i =? 55 then false else Z.testbit d i.
Proof. revert i. apply below_64. unfold put_limit. each_bit. Qed.

Lemma bit_put_limit_g d lim i :
  0 <= i < 64 ->
  Z.testbit (put_limit d lim .| 0x80000000000000) i = if i =? 55 then true else Z.testbit (put_limit d lim) i.
Proof.
  intros Hi. rewrite Z.lor_spec. change 0x80000000000000 with (bit 55). rewrite testbit_bit by lia.
  destruct (Z.eqb_spec i 55); [rewrite bool_decide_eq_true_2 by done; apply orb_true_r|].
  rewrite bool_decide_eq_false_2 by done. apply orb_false_r.
Qed.

Lemma set_desc_limit_eq d limit :
  set_desc_limit d limit =
    if 0xFFFFF <? limit then put_limit d (limit ≫ 12) .| 0x80000000000000 else put_limit d limit.
Proof. unfold set_desc_limit, scale, put_limit. by destruct (0xFFFFF <? limit). Qed.

Lemma desc_limit_eq d :
  desc_limit d = if Z.testbit d 55 then (limit_field d ≪ 12) .| 0xFFF else limit_field d.
Proof. unfold desc_limit. rewrite land_bit_eqb by lia. done. Qed.

Lemma fits_limit_field d : 0 <= d -> fits 20 (limit_field d).
Proof.
  intros Hd. unfold limit_field. apply fits_lor; [lia| |].
  - apply fits_testbit; [lia|]. split; [apply Z.land_nonneg; lia|]. intros i Hi.
    rewrite Z.land_spec, testbit_mask16 by lia. rewrite (proj2 (Z.ltb_ge _ _)) by lia. apply andb_false_r.
  - rewrite Z.shiftl_mul_pow2 by lia. change 0x0F with (Z.ones 4). rewrite Z.land_ones by lia.
    pose proof (Z.mod_pos_bound (d ≫ 48) (2 ^ 4) ltac:(lia)). split; lia.
Qed.

Lemma nonneg_set_base d b : 0 <= d -> 0 <= set_desc_base d b.
Proof.
  intros Hd. unfold set_desc_base. rewrite !Z.lor_nonneg, !Z.shiftl_nonneg. repeat split; apply Z.land_nonneg; (by left) || by right.
Qed.

Lemma nonneg_put_limit d lim : 0 <= d -> 0 <= put_limit d lim.
Proof.
  intros Hd. unfold put_limit. rewrite !Z.lor_nonneg, !Z.shiftl_nonneg. repeat split; apply Z.land_nonneg; by right.
Qed.

Lemma fits_desc_base d : fits 32 (desc_base d).
Proof.
  assert (forall x n, 0 <= n -> fits n (x .& Z.ones n)) as Hm.
  { intros x n Hn. rewrite Z.land_ones by lia. apply Z.mod_pos_bound. by apply pow2_pos. }
  assert (forall x n k w, 0 <= n -> 0 <= k -> n + k <= w -> fits n x -> fits w (x ≪ k)) as Hs.
  { intros x n k w Hn Hk Hw [H1 H2]. rewrite Z.shiftl_mul_pow2 by lia. split; [apply Z.mul_nonneg_nonneg; [done|apply Z.pow_nonneg; lia]|].
    apply Z.lt_le_trans with (2 ^ n * 2 ^ k).
    - apply Z.mul_lt_mono_pos_r; [by apply pow2_pos|done].
    - rewrite <- Z.pow_add_r by lia. apply Z.pow_le_mono_r; lia. }
  unfold desc_base. change 0xFFFF with (Z.ones 16). change 0xFF with (Z.ones 8).
  apply fits_lor; [lia|apply fits_lor; [lia| |]|].
  - destruct (Hm (d ≫ 16) 16 ltac:(lia)). split; [done|]. lia.
  - apply (Hs _ 8); [lia..|]. apply Hm. lia.
  - apply (Hs _ 8); [lia..|]. apply Hm. lia.
Qed.

Lemma limit_field_ext d e :
  0 <= d -> 0 <= e -> (forall i, 0 <= i < 16 \/ 48 <= i < 52 -> Z.testbit d i = Z.testbit e i) ->
  limit_field d = limit_field e.
Proof.
  intros Hd He Hb. apply (fits_bits_eq 20); [lia|by apply fits_limit_field|by apply fits_limit_field|].
  intros i Hi. rewrite !bit_limit_field by lia. f_equal. apply Hb. destruct (Z.ltb_spec i 16); lia.
Qed.

Lemma limit_field_put d lim : 0 <= d -> fits 20 lim -> limit_field (put_limit d lim) = lim.
Proof.
  intros Hd Hl. apply (fits_bits_eq 20); [lia|by apply fits_limit_field, nonneg_put_limit|done|].
  intros i Hi. rewrite bit_limit_field by lia. rewrite (proj2 (Z.ltb_lt i 20)) by lia. cbn [andb].
  destruct (Z.ltb_spec i 16); rewrite bit_put_limit by lia.
  - by rewrite (proj2 (Z.ltb_lt i 16)) by lia.
  - rewrite (proj2 (Z.ltb_ge (i + 32) 16)), (proj2 (Z.leb_le 48 (i + 32))), (proj2 (Z.ltb_lt (i + 32) 52)) by lia.
    cbn [andb]. f_equal. lia.
Qed.

Lemma desc_base_ext d e : (forall i, 16 <= i < 40 \/ 56 <= i < 64 -> Z.testbit d i = Z.testbit e i) -> desc_base d = desc_base e.
Proof.
  intros Hb. apply (fits_bits_eq 32); [lia|apply fits_desc_base..|]. intros i Hi. rewrite !bit_desc_base by lia.
  apply Hb. destruct (Z.ltb_spec i 24); lia.
Qed.

Lemma limit_low_bits limit : fits 32 limit -> ((limit ≫ 12) ≪ 12) .| 0xFFF = limit .| 0xFFF.
Proof.
  intros Hl. apply Z.bits_inj'; intros i Hi. rewrite !Z.lor_spec, Z.shiftl_spec by lia.
  destruct (Z.lt_ge_cases i 12).
  - rewrite Z.testbit_neg_r by lia. change 0xFFF with (Z.ones 12). rewrite Z.ones_spec_low by lia. cbn [orb]. by rewrite orb_true_r.
  - rewrite Z.shiftr_spec by lia. do 2 f_equal. lia.
Qed.

(** The bits of the access byte and the flag nibble, without granularity. *)
Definition same_rights (d e : Z) : Prop :=
  forall i, 40 <= i < 48 \/ 52 <= i < 55 -> Z.testbit d i = Z.testbit e i.

(** Setting a field of a descriptor sets that field only.  Function 0007h
    makes the base read back as given and leaves the limit and the rights;
    function 0008h makes the limit read back, rounded up to a page above 1 MB
    as the granularity bit requires, and leaves the base and the rights. *)
Theorem descriptor_fields d base limit :
  fits 64 d -> fits 32 base -> fits 32 limit ->
  (desc_base (set_desc_base d base) = base /\ desc_limit (set_desc_base d base) = desc_limit d /\
   same_rights (set_desc_base d base) d) /\
  (desc_limit (set_desc_limit d limit) = (if 0xFFFFF <? limit then limit .| 0xFFF else limit) /\
   desc_base (set_desc_limit d limit) = desc_base d /\ same_rights (set_desc_limit d limit) d).
Proof.
  intros [Hd _] Hb Hl.
  assert (forall i, 0 <= i < 64 -> ~ (16 <= i < 40 \/ 56 <= i < 64) ->
    Z.testbit (set_desc_base d base) i = Z.testbit d i) as Hbase.
  { intros i Hi Hn. rewrite bit_set_desc_base by lia.
    destruct (Z.leb_spec 16 i), (Z.ltb_spec i 40), (Z.leb_spec 56 i); cbn [andb]; done || lia. }
  assert (forall lim i, 0 <= i < 64 -> ~ (0 <= i < 16 \/ 48 <= i < 52 \/ i = 55) ->
    Z.testbit (put_limit d lim) i = Z.testbit d i /\
    Z.testbit (put_limit d lim .| 0x80000000000000) i = Z.testbit d i) as Hlim.
  { intros lim i Hi Hn. rewrite bit_put_limit_g, bit_put_limit by lia.
    destruct (Z.ltb_spec i 16), (Z.leb_spec 48 i), (Z.ltb_spec i 52), (Z.eqb_spec i 55); cbn [andb]; done || lia. }
  split.
  - split; [|split].
    + apply (fits_bits_eq 32); [lia|apply fits_desc_base|done|]. intros i Hi. rewrite bit_desc_base, bit_set_desc_base by (destruct (i <? 24); lia).
      destruct (Z.ltb_spec i 24);
        [destruct (Z.leb_spec 16 (i + 16)), (Z.ltb_spec (i + 16) 40)
        |destruct (Z.leb_spec 16 (i + 32)), (Z.ltb_spec (i + 32) 40), (Z.leb_spec 56 (i + 32))];
        cbn [andb]; try lia; f_equal; lia.
    + rewrite !desc_limit_eq, Hbase by lia. rewrite (limit_field_ext _ d); [done|by apply nonneg_set_base|done|].
      intros i Hi. apply Hbase; lia.
    + intros i Hi. apply Hbase; lia.
  - rewrite set_desc_limit_eq. destruct (Z.ltb_spec 0xFFFFF limit) as [Hbig|Hsm].
    + split; [|split]; [|apply desc_base_ext|]; [|intros i Hi; apply Hlim; lia..].
      rewrite desc_limit_eq, bit_put_limit_g by lia. rewrite Z.eqb_refl.
      rewrite (limit_field_ext _ (put_limit d (limit ≫ 12))).
      * rewrite limit_field_put; [by apply limit_low_bits|done|].
        rewrite Z.shiftr_div_pow2 by lia. destruct Hl. split; [apply Z.div_pos; lia|apply Z.div_lt_upper_bound; lia].
      * apply Z.lor_nonneg. split; [by apply nonneg_put_limit|lia].
      * by apply nonneg_put_limit.
      * intros i Hi. rewrite bit_put_limit_g by lia. destruct (Z.eqb_spec i 55); [lia|done].
    + split; [|split]; [|apply desc_base_ext|]; [|intros i Hi; apply Hlim; lia..].
      rewrite desc_limit_eq, bit_put_limit by lia. cbn. apply limit_field_put; [done|]. destruct Hl. split; lia.
Qed.

Lemma descriptor_fields_witness :
  desc_base (set_desc_base 0x00CFF2000000FFFF 0x12345678) = 0x12345678 /\
  desc_limit (set_desc_limit 0x00CFF2000000FFFF 0x100000) = 0x100FFF.
Proof.
  assert (fits 64 0x00CFF2000000FFFF) as Hd by (split; [done|by vm_compute]).
  assert (fits 32 0x12345678) as Hb by (split; [done|by vm_compute]).
  assert (fits 32 0x100000) as Hl by (split; [done|by vm_compute]).
  destruct (descriptor_fields 0x00CFF2000000FFFF 0x12345678 0x100000 Hd Hb Hl) as [(H1 & _) (H2 & _)].
  split; [exact H1|]. rewrite H2. by vm_compute.
Defined.

(** * Protection *)

(** A descriptor the CPU would load belongs to ring 3 and is a code or data
    segment, not a gate or another system descriptor: bit 47 is the present
    bit, bits 45 and 46 the privilege level, bit 44 the segment bit. *)
Definition ring3 (d : Z) : Prop :=
  Z.testbit d 47 = true -> Z.testbit d 44 = true /\ Z.testbit d 45 = true /\ Z.testbit d 46 = true.

Lemma ring3_0 : ring3 0.
Proof. unfold ring3. by rewrite Z.testbit_0_l. Qed.

Lemma ring3_same d e :
  (forall i, 44 <= i < 48 -> Z.testbit e i = Z.testbit d i) -> ring3 d -> ring3 e.
Proof. intros H Hd. unfold ring3. rewrite !H by lia. exact Hd. Qed.

Lemma ring3_build base limit access flags :
  Z.testbit access 4 = true -> Z.testbit access 5 = true -> Z.testbit access 6 = true ->
  ring3 (build_descriptor base limit access flags).
Proof.
  intros H4 H5 H6 _. unfold build_descriptor. split; [|split]; concrete_bit; by rewrite ?H4, ?H5, ?H6.
Qed.

Lemma ring3_data base limit db : ring3 (make_data_desc_ex base limit db).
Proof. unfold make_data_desc_ex. destruct (scale limit). by apply ring3_build. Qed.

Lemma ring3_code base limit db : ring3 (make_code_desc_ex base limit db).
Proof. unfold make_code_desc_ex. destruct (scale limit). by apply ring3_build. Qed.

Lemma ring3_set_base d base : ring3 d -> ring3 (set_desc_base d base).
Proof.
  apply ring3_same. intros i Hi. rewrite bit_set_desc_base by lia.
  destruct (Z.leb_spec 16 i), (Z.ltb_spec i 40), (Z.leb_spec 56 i); cbn [andb]; done || lia.
Qed.

Lemma ring3_set_limit d limit : ring3 d -> ring3 (set_desc_limit d limit).
Proof.
  apply ring3_same. intros i Hi. rewrite set_desc_limit_eq.
  destruct (0xFFFFF <? limit); rewrite ?bit_put_limit_g, bit_put_limit by lia;
    destruct (Z.ltb_spec i 16), (Z.leb_spec 48 i), (Z.ltb_spec i 52), (Z.eqb_spec i 55); cbn [andb]; done || lia.
Qed.

Lemma client_dpl_ring3 x : Z.testbit (client_dpl x) 5 = true /\ Z.testbit (client_dpl x) 6 = true.
Proof. unfold client_dpl. rewrite !Z.lor_spec. split; by rewrite orb_true_r. Qed.

Lemma ring3_rights d cl ch : ring3 (with_rights d cl ch).
Proof.
  destruct (client_dpl_ring3 cl) as [H5 H6]. intros _. unfold with_rights.
  split; [|split]; concrete_bit; by rewrite ?H5, ?H6, ?orb_true_r.
Qed.

Lemma ring3_as_data d : ring3 d -> ring3 (as_data d).
Proof.
  apply ring3_same. intros i Hi. unfold as_data. rewrite Z.lor_spec, Z.land_spec.
  rewrite testbit_bnot, !testbit_bit by lia. rewrite !bool_decide_eq_false_2 by lia.
  by rewrite andb_true_r, orb_false_r.
Qed.

Lemma ring3_confine d : ring3 (confine d).
Proof.
  intros _. unfold confine. set (e := d .| bit 44).
  destruct (client_dpl_ring3 (u8 (e ≫ 40))) as [H5 H6].
  assert (Z.testbit (client_dpl (u8 (e ≫ 40))) 4 = true) as H4.
  { unfold client_dpl. rewrite Z.lor_spec, Z.land_spec. unfold wrap.
    rewrite Z.mod_pow2_bits_low, Z.shiftr_spec by lia. unfold e. rewrite Z.lor_spec.
    rewrite (orb_true_intro (Z.testbit d (4 + 40))) by (right; done). done. }
  set (acc := client_dpl _) in *. clearbody acc e.
  split; [|split]; rewrite Z.lor_spec, Z.shiftl_spec by lia.
  - change (44 - 40) with 4. by rewrite H4, orb_true_r.
  - change (45 - 40) with 5. by rewrite H5, orb_true_r.
  - change (46 - 40) with 6. by rewrite H6, orb_true_r.
Qed.

(** The facts that make an operation on the table safe. *)
Create HintDb ldt.
#[local] Hint Resolve ring3_0 ring3_data ring3_code ring3_set_base ring3_set_limit ring3_rights ring3_as_data ring3_confine : ldt.

(** The table keeps its shape, and every descriptor in it is harmless. *)
Definition ldt_ok (d : DosState) : Prop :=
  length (ldt d) = Z.to_nat LDT_ENTRIES /\ length (ldt_alloc d) = Z.to_nat (LDT_ENTRIES / 32) /\ Forall ring3 (ldt d).

Lemma ring3_get d idx : Forall ring3 (ldt d) -> ring3 (get_desc d idx).
Proof.
  intros H. unfold get_desc. rewrite list_lookup_total_alt. destruct (ldt d !! Z.to_nat idx) as [x|] eqn:E; [|apply ring3_0].
  by apply (Forall_lookup_1 _ _ _ _ H E).
Qed.

Lemma ldt_ok_set d idx desc : ldt_ok d -> ring3 desc -> ldt_ok (set_desc d idx desc).
Proof.
  intros (H1 & H2 & H3) Hd. split_and!; cbn; [by rewrite length_insert|done|by apply Forall_insert].
Qed.

Lemma ldt_ok_alloc d words : ldt_ok d -> length words = length (ldt_alloc d) -> ldt_ok (set_alloc d words).
Proof. intros (H1 & H2 & H3) Hl. split_and!; cbn; [done|congruence|done]. Qed.

Lemma length_mark words idx : length (mark words idx) = length words.
Proof. apply length_insert. Qed.

Lemma length_marks words l : length (foldl mark words l) = length words.
Proof. revert words; induction l as [|x l IH]; intros words; [done|]. cbn. by rewrite IH, length_mark. Qed.

Lemma length_alloc_loop n idx words words' i :
  alloc_loop n idx words = Some (words', i) -> length words' = length words.
Proof.
  revert idx; induction n as [|n IH]; intros idx E; [done|]. cbn in E.
  destruct (negb _); [injection E as <- _; apply length_mark|by eapply IH].
Qed.

Lemma length_range_loop n first count words words' i :
  range_loop n first count words = Some (words', i) -> length words' = length words.
Proof.
  revert first; induction n as [|n IH]; intros first E; [done|]. cbn [range_loop] in E.
  destruct (forallb _ _); [injection E as <- _; apply length_marks|by eapply IH].
Qed.

Lemma length_alloc_range words count words' i :
  alloc_ldt_range words count = Some (words', i) -> length words' = length words.
Proof. unfold alloc_ldt_range. destruct (_ || _); [done|]. apply length_range_loop. Qed.

Lemma ldt_ok_fill d idx count desc : ldt_ok d -> ring3 desc -> ldt_ok (fill_descs d idx count desc).
Proof.
  intros Hd Hr. unfold fill_descs. revert d Hd. generalize (seqZ idx count) as l.
  induction l as [|i l IH]; intros d Hd; [done|]. cbn. by apply IH, ldt_ok_set.
Qed.

Lemma ldt_ok_free d idx : ldt_ok d -> ldt_ok (free_ldt d idx).
Proof.
  intros Hd. unfold free_ldt. destruct (_ && _); [|done]. apply ldt_ok_set; [|apply ring3_0].
  apply ldt_ok_alloc; [done|]. apply length_insert.
Qed.

Lemma ldt_ok_api m d c m' d' c' : ldt_ok d -> dpmi_api m d c = Some (m', d', c') -> ldt_ok d'.
Proof.
  intros Hd E. pose proof Hd as (_ & _ & Hr). unfold dpmi_api in E.
  destruct (dpmi d) as [p|]; [|by simplify_eq].
  assert (forall words i, alloc_ldt (ldt_alloc d) = Some (words, i) -> ldt_ok (set_alloc d words)) as Hal.
  { intros words i Ha. apply ldt_ok_alloc; [done|]. by eapply length_alloc_loop. }
  repeat match goal with H : context [if ?f =? ?n then _ else _] |- _ => destruct (f =? n) end;
    try done; try (simplify_eq; cbn [fst snd]).
  all: try (destruct (get_desc_000B _ _ _ _); by simplify_eq).
  all: unfold alloc_0000, free_0001, segment_0002, get_base_0006, set_base_0007, set_limit_0008, set_rights_0009,
    alias_000A, set_desc_000C; cbn [fst].
  all: repeat case_match; simplify_eq; cbn [fst]; try done.
  all: first [apply ldt_ok_set; [eauto|]; eauto using ring3_get with ldt | apply ldt_ok_free; done | idtac].
  all: apply ldt_ok_fill; [apply ldt_ok_alloc; [done|by eapply length_alloc_range]|auto with ldt].
Qed.

(** A call by the client, from any memory and registers. *)
Definition ldt_step (d d' : DosState) : Prop :=
  exists m c m' c', dpmi_api m d c = Some (m', d', c').

Definition fresh_dos (p : option DpmiState) : DosState :=
  mk (replicate (Z.to_nat LDT_ENTRIES) 0) (replicate (Z.to_nat (LDT_ENTRIES / 32)) 0) p.

Lemma ldt_ok_install hb hl d : ldt_ok d -> ldt_ok (install_kernel_ldt_slots hb hl d).
Proof.
  intros Hd. unfold install_kernel_ldt_slots.
  assert (forall slots d, Forall (fun s => ring3 (snd s)) slots -> ldt_ok d -> ldt_ok (foldl mark_slot d slots)) as Hm.
  { induction slots as [|s slots IH]; intros e Hs He; [done|]. apply Forall_cons_1 in Hs as [Hs Hss]. cbn [foldl].
    apply IH; [done|]. unfold mark_slot. apply ldt_ok_alloc; [by apply ldt_ok_set|]. apply length_mark. }
  apply ldt_ok_alloc; [|apply length_mark]. apply Hm; [|done].
  repeat (apply Forall_cons_2; [cbn [snd]; auto with ldt|]). constructor.
Qed.

Lemma fresh_dos_ok p : ldt_ok (fresh_dos p).
Proof.
  split; [apply length_replicate|]. split; [apply length_replicate|]. apply Forall_replicate, ring3_0.
Qed.

(** C22: a DPMI client can never forge privilege.  Whatever sequence of
    descriptor services it calls, with any registers and any memory
    contents, every present descriptor of its table stays a ring 3 code or
    data segment: no ring 0 segment, no gate, no system descriptor; and the
    table keeps its 8192 entries. *)
Theorem ldt_stays_ring3 hb hl p d :
  rtc ldt_step (install_kernel_ldt_slots hb hl (fresh_dos p)) d ->
  length (ldt d) = Z.to_nat LDT_ENTRIES /\ Forall ring3 (ldt d).
Proof.
  intros Hr. assert (ldt_ok d) as (H1 & _ & H3); [|done].
  eapply (rtc_invariant _ ldt_ok); [exact Hr|apply ldt_ok_install, fresh_dos_ok|].
  intros a b (m & c & m' & c' & E) Ha. by eapply ldt_ok_api.
Qed.

(** Registers of a call. *)
Definition ldt_call (ax bx cx dx : Z) : Cpu := mkCpu (mkRegs ax bx cx dx 0 0 0 0 false) 0 0 false.

Lemma ldt_stays_ring3_witness :
  let d0 := install_kernel_ldt_slots 0x10000 0xFFF (fresh_dos (Some (mkDpmi true 0))) in
  let d1 := fst (alloc_0000 d0 (ldt_call 0 0 1 0)) in
  let d2 := fst (set_rights_0009 d1 (ldt_call 9 (idx_to_sel 16) 0xC093 0)) in
  Forall ring3 (ldt d2) /\ get_desc d2 16 ≫ 40 = 0xC0F3.
Proof.
  intros d0 d1 d2. split; [|by vm_compute].
  assert (rtc ldt_step d0 d2) as Hr.
  { eapply rtc_l; [exists (fun _ => 0), (ldt_call 0 0 1 0); eexists _, _; reflexivity|].
    eapply rtc_l; [exists (fun _ => 0), (ldt_call 9 (idx_to_sel 16) 0xC093 0); eexists _, _; reflexivity|].
    apply rtc_refl. }
  exact (proj2 (ldt_stays_ring3 0x10000 0xFFF (Some (mkDpmi true 0)) d2 Hr)).
Defined.

(** * Allocation *)

Lemma ldt_bit_testbit words idx :
  ldt_bit words idx = Z.testbit (words !!! Z.to_nat (idx / 32)) (idx mod 32).
Proof. unfold ldt_bit. apply land_bit_eqb. apply Z.mod_pos_bound. lia. Qed.

Lemma ldt_bit_mark words idx j :
  0 <= idx < LDT_ENTRIES -> 0 <= j < LDT_ENTRIES -> length words = Z.to_nat (LDT_ENTRIES / 32) ->
  ldt_bit (mark words idx) j = ldt_bit words j || bool_decide (j = idx).
Proof.
  intros Hi Hj Hl. unfold LDT_ENTRIES in *. change (8192 / 32) with 256 in Hl. rewrite !ldt_bit_testbit. unfold mark.
  pose proof (Z.div_mod idx 32 ltac:(lia)). pose proof (Z.mod_pos_bound idx 32 ltac:(lia)).
  pose proof (Z.div_mod j 32 ltac:(lia)). pose proof (Z.mod_pos_bound j 32 ltac:(lia)).
  pose proof (Z.div_pos idx 32 ltac:(lia) ltac:(lia)). pose proof (Z.div_pos j 32 ltac:(lia) ltac:(lia)).
  destruct (Z.eq_dec (idx / 32) (j / 32)) as [E|E].
  - rewrite <- E, list_lookup_total_insert_eq by (rewrite Hl; lia). rewrite testbit_set by lia. f_equal.
    apply bool_decide_ext. lia.
  - rewrite list_lookup_total_insert_ne by lia. rewrite bool_decide_eq_false_2 by congruence. by rewrite orb_false_r.
Qed.

Lemma ldt_bit_marks words l j :
  Forall (fun i => 0 <= i < LDT_ENTRIES) l -> 0 <= j < LDT_ENTRIES -> length words = Z.to_nat (LDT_ENTRIES / 32) ->
  ldt_bit (foldl mark words l) j = ldt_bit words j || bool_decide (j ∈ l).
Proof.
  intros Hl Hj Hw. revert words Hw; induction Hl as [|i l Hi Hl IH]; intros words Hw.
  { cbn. by rewrite bool_decide_eq_false_2, orb_false_r by (by apply not_elem_of_nil). }
  cbn [foldl]. rewrite IH by (by rewrite length_mark). rewrite ldt_bit_mark by done. rewrite <- orb_assoc. f_equal.
  apply eq_true_iff_eq. rewrite orb_true_iff, !bool_decide_eq_true, elem_of_cons. done.
Qed.

Lemma range_loop_spec n first count words :
  match range_loop n first count words with
  | Some (words', f) =>
      first <= f < first + Z.of_nat n /\ words' = foldl mark words (seqZ f count) /\
      Forall (fun i => ldt_bit words i = false) (seqZ f count)
  | None => forall f, first <= f < first + Z.of_nat n -> exists i, f <= i < f + count /\ ldt_bit words i = true
  end.
Proof.
  revert first; induction n as [|n IH]; intros first; cbn [range_loop]; [intros f Hf; lia|].
  destruct (forallb _ _) eqn:E.
  - split; [lia|]. split; [done|].     apply Forall_forall. intros i Hi. apply forallb_forall with (x := i) in E; [by apply negb_true_iff|].
    by apply list_elem_of_In.
  - specialize (IH (first + 1)). destruct (range_loop n (first + 1) count words) as [[w f]|].
    + destruct IH as (H1 & H2 & H3). split; [lia|done].
    + intros f Hf. destruct (Z.eq_dec f first) as [->|Hne]; [|apply IH; lia].
      destruct (existsb (fun i => ldt_bit words i) (seqZ first count)) eqn:Ex.
      * apply existsb_exists in Ex as (i & Hi & Hb). apply list_elem_of_In, elem_of_seqZ in Hi. by exists i.
      * exfalso. apply not_true_iff_false in E. apply E. apply forallb_forall. intros i Hi. apply negb_true_iff.
        apply not_true_iff_false. intros Hb. apply not_true_iff_false in Ex. apply Ex. apply existsb_exists. by exists i.
Qed.

(** A single descriptor is a run of one. *)
Lemma alloc_ldt_range_1 words : alloc_ldt words = alloc_ldt_range words 1.
Proof.
  unfold alloc_ldt, alloc_ldt_range. change ((1 =? 0) || (LDT_ENTRIES <=? 1)) with false.
  replace (Z.to_nat (LDT_ENTRIES - 1 + 1 - 16)) with (Z.to_nat (LDT_ENTRIES - 16)) by (f_equal; lia).
  generalize (Z.to_nat (LDT_ENTRIES - 16)) as n. generalize 16 as i. intros i n; revert i.
  induction n as [|n IH]; intros i; [done|]. cbn [alloc_loop range_loop].
  change (seqZ i 1) with [i + Z.of_nat 0] || (rewrite seqZ_cons by lia). cbn.
  replace (i + 0) with i by lia. destruct (ldt_bit words i); cbn; [apply IH|done].
Qed.

(** Allocating descriptors is fresh and complete.  A run of [count]
    descriptors starts at index 16 or above, lies in the table, was wholly
    free and is now taken, and no other allocation bit changes; the request
    fails only when no run of that length is free.  The single allocation of
    functions 0002h and 000Ah is the run of one. *)
Theorem ldt_alloc_fresh words count :
  length words = Z.to_nat (LDT_ENTRIES / 32) -> 0 < count < LDT_ENTRIES ->
  alloc_ldt words = alloc_ldt_range words 1 /\
  match alloc_ldt_range words count with
  | Some (words', first) =>
      16 <= first /\ first + count <= LDT_ENTRIES /\
      (forall i, first <= i < first + count -> ldt_is_allocated words i = false) /\
      (forall i, 0 <= i < LDT_ENTRIES ->
         ldt_is_allocated words' i = ldt_is_allocated words i || ((first <=? i) && (i <? first + count)))
  | None => forall first, 16 <= first -> first + count <= LDT_ENTRIES ->
      exists i, first <= i < first + count /\ ldt_is_allocated words i = true
  end.
Proof.
  intros Hl Hc. split; [apply alloc_ldt_range_1|]. unfold alloc_ldt_range.
  destruct (Z.eqb_spec count 0), (Z.leb_spec LDT_ENTRIES count); try lia. cbn [orb].
  pose proof (range_loop_spec (Z.to_nat (LDT_ENTRIES - count + 1 - 16)) 16 count words) as Hr.
  assert (forall w i, 0 <= i < LDT_ENTRIES -> ldt_is_allocated w i = ldt_bit w i) as Hin.
  { intros w i Hi. unfold ldt_is_allocated. by rewrite (proj2 (Z.leb_gt _ _)) by lia. }
  destruct (range_loop _ 16 count words) as [[words' f]|].
  - destruct Hr as (Hf & -> & Hfree). rewrite Forall_forall in Hfree. split; [lia|]. split; [lia|]. split.
    + intros i Hi. rewrite Hin by lia. apply Hfree, elem_of_seqZ. lia.
    + intros i Hi. rewrite !Hin by lia. rewrite ldt_bit_marks; [|apply Forall_forall; intros j Hj%elem_of_seqZ; lia|done|done].
      f_equal. apply eq_true_iff_eq. rewrite bool_decide_eq_true, elem_of_seqZ, andb_true_iff, Z.leb_le, Z.ltb_lt. done.
  - intros f H16 Hf. destruct (Hr f ltac:(lia)) as (i & Hi & Hb). exists i. split; [done|]. by rewrite Hin by lia.
Qed.

Lemma ldt_alloc_fresh_witness :
  let words := ldt_alloc (install_kernel_ldt_slots 0 0 (fresh_dos None)) in
  exists words', alloc_ldt_range words 3 = Some (words', 19) /\ ldt_is_allocated words 19 = false.
Proof.
  intros words.
  assert (length words = Z.to_nat (LDT_ENTRIES / 32)) as Hl by by vm_compute.
  destruct (ldt_alloc_fresh words 3 Hl ltac:(by vm_compute)) as [_ H].
  assert (exists words', alloc_ldt_range words 3 = Some (words', 19)) as (words' & E) by (eexists; by vm_compute).
  rewrite E in H. destruct H as (_ & _ & H & _). exists words'. split; [exact E|]. apply H. lia.
Defined.
