(* ===== verification/Mcb.v ===== *)
(** The conventional memory blocks of a DOS program: the allocator of
    kernel/src/kernel/dos/mod.rs and the calls that reach it (INT 21h
    functions 48h, 49h, 4Ah and 52h in dos.rs, INT 31h functions 0100h to
    0102h in dpmi/mod.rs).

    The kernel keeps the blocks in a list of its own and writes a chain of
    memory control blocks to guest memory from it after every change.
    [Module Mcb] has the operations; the lemmas relate them to the free runs
    of paragraphs of the arena, and [walk_chain] reads a chain the way a
    program does. *)

From Stdlib Require Import ZArith Lia Bool.
From stdpp Require Import base option list numbers sets sorting relations.
From S2P Require Import Prelude Guest Ldt.

Module Mcb.

(** The end of conventional memory, A000h. *)
Definition TOP : Z := 0xA000.

Record DosMemBlock := mkBlock { seg : Z; paras : Z; owner : Z }.

(** The fields of [DosState] the allocator uses. *)
Record DosMem := mkMem {
  heap_base_seg : Z; heap_seg : Z; dos_blocks : list DosMemBlock; current_psp : Z
}.

Definition set_heap_seg (d : DosMem) v := mkMem (heap_base_seg d) v (dos_blocks d) (current_psp d).
Definition set_blocks (d : DosMem) l := mkMem (heap_base_seg d) (heap_seg d) l (current_psp d).
Definition set_psp (d : DosMem) v := mkMem (heap_base_seg d) (heap_seg d) (dos_blocks d) v.

(** [sort_by_key(|b| b.seg)], a stable sort. *)
Fixpoint insert_block (b : DosMemBlock) (l : list DosMemBlock) : list DosMemBlock :=
  match l with
  | [] => [b]
  | c :: l' => if seg b <=? seg c then b :: l else c :: insert_block b l'
  end.
Definition sort_blocks (l : list DosMemBlock) : list DosMemBlock := foldr insert_block [] l.

(** ** The chain in guest memory *)

(** Low memory: the stubs and the boot PSP lie below [first_mcb_seg], the list
    of lists above it. *)
Definition LOW_MEM_BASE : Z := 0x500.
Definition FIRST_MCB_ADDR : Z := LOW_MEM_BASE + 2 * 256 + 256.
Definition LOL_ADDR : Z := FIRST_MCB_ADDR + 2.
(** The sizes of the fields of [LowMem], in order. *)
Definition low_mem_fields : list Z :=
  [2 * 256; 256; 2; 0x40; 4 + 2 + 20 * 59; 8 * 81; 22; 1; 11; 4096; 0x1000; 16; 256 * 8; 256 * 14; 256 * 16].
Definition heap_start : Z := u16 ((LOW_MEM_BASE + foldr Z.add 0 low_mem_fields + 15) ≫ 4).

Definition set_first_mcb_seg (m : Mem) (v : Z) : Mem := write16 m FIRST_MCB_ADDR v.

(** A header: its segment, its owner and the paragraphs that follow it. *)
Definition Entry : Type := Z * Z * Z.

Fixpoint chain_entries (walk : Z) (blocks : list DosMemBlock) : list Entry :=
  match blocks with
  | [] => if walk <? TOP then [(walk, 0, TOP - walk - 1)] else []
  | b :: bs =>
      let block_mcb := sat_sub (seg b) 1 in
      (if walk <? block_mcb then [(walk, 0, block_mcb - walk - 1)] else [])
      ++ (block_mcb, owner b, paras b) :: chain_entries (sat_add U16_MAX (seg b) (paras b)) bs
  end.

Definition SIG_M : Z := 77.
Definition SIG_Z : Z := 90.

Definition write_entry (m : Mem) (sig : Z) (e : Entry) : Mem :=
  let '(mcb_seg, ow, n) := e in
  let addr := mcb_seg ≪ 4 in
  write16 (write16 (write8 m addr sig) (addr + 1) ow) (addr + 3) n.

Fixpoint write_entries (m : Mem) (es : list Entry) : Mem :=
  match es with
  | [] => m
  | e :: es' => write_entries (write_entry m (match es' with [] => SIG_Z | _ => SIG_M end) e) es'
  end.

Definition sync_mcb_chain (m : Mem) (d : DosMem) : Mem :=
  write_entries (set_first_mcb_seg m (heap_base_seg d))
    (chain_entries (heap_base_seg d) (sort_blocks (dos_blocks d))).

(** ** The allocator *)

Definition next_dos_block_limit (d : DosMem) (sg : Z) (skip_seg : option Z) : Z :=
  foldl (fun limit b =>
    if bool_decide (Some (seg b) = skip_seg) || (seg b <? sg) then limit
    else if seg b <? limit then seg b else limit) TOP (dos_blocks d).

(** The loop of [sync_heap_seg]; [None] when the fuel is used up. *)
Fixpoint heap_loop (fuel : nat) (blocks : list DosMemBlock) (first_free : Z) : option Z :=
  match fuel with
  | O => None
  | S n =>
      match List.find (fun b => seg b =? sat_add U16_MAX first_free 1) blocks with
      | Some b => heap_loop n blocks (sat_add U16_MAX (seg b) (paras b))
      | None => Some first_free
      end
  end.

Definition sync_heap_seg (d : DosMem) : option DosMem :=
  first_free ← heap_loop (S (length (dos_blocks d))) (dos_blocks d) (heap_base_seg d);
  Some (set_heap_seg d (Z.min first_free TOP)).

Fixpoint largest_scan (blocks : list DosMemBlock) (cur largest_data : Z) : Z :=
  match blocks with
  | [] =>
      if cur <? TOP then Z.max largest_data (sat_sub (TOP - cur) 1) else largest_data
  | b :: bs =>
      let block_mcb := sat_sub (seg b) 1 in
      let largest_data :=
        if cur <? block_mcb then Z.max largest_data (sat_sub (block_mcb - cur) 1) else largest_data in
      let end_ := sat_add U16_MAX (seg b) (paras b) in
      largest_scan bs (if cur <? end_ then end_ else cur) largest_data
  end.

Definition largest_dos_block (d : DosMem) : Z :=
  largest_scan (sort_blocks (dos_blocks d)) (heap_base_seg d) 0.

Definition dos_reset_blocks (m : Mem) (d : DosMem) (base_seg : Z) : Mem * DosMem :=
  let d := mkMem base_seg base_seg [] (current_psp d) in
  (sync_mcb_chain m d, d).

Definition current_mcb_owner (d : DosMem) : Z := current_psp d.

(** The search of [dos_alloc_block]: the data segment of the first region that
    holds [total] paragraphs, or the most data paragraphs a region has. *)
Fixpoint alloc_scan (total : Z) (blocks : list DosMemBlock) (cur max_data : Z) : Z + Z :=
  match blocks with
  | [] =>
      if cur <? TOP then
        let region := TOP - cur in
        if total <=? region then inl (sat_add U16_MAX cur 1)
        else inr (Z.max max_data (sat_sub region 1))
      else inr max_data
  | b :: bs =>
      let block_mcb := sat_sub (seg b) 1 in
      let next := sat_add U16_MAX (seg b) (paras b) in
      if cur <? block_mcb then
        let region := block_mcb - cur in
        if total <=? region then inl (sat_add U16_MAX cur 1)
        else alloc_scan total bs next (Z.max max_data (sat_sub region 1))
      else alloc_scan total bs next max_data
  end.

(** Both [sync_]s after a change of the blocks.  [None]: the loop of
    [sync_heap_seg] does not end. *)
Definition resync (m : Mem) (d : DosMem) : option (Mem * DosMem) :=
  d ← sync_heap_seg d; Some (sync_mcb_chain m d, d).

Definition dos_alloc_block (m : Mem) (d : DosMem) (need : Z) : option (Mem * DosMem * (Z + Z)) :=
  let total := if need =? 0 then 1 else sat_add U16_MAX need 1 in
  if negb (need =? 0) && (total <? need) then Some (m, d, inr 0)
  else
    match alloc_scan total (sort_blocks (dos_blocks d)) (heap_base_seg d) 0 with
    | inl data_seg =>
        let d := if need =? 0 then d
                 else set_blocks d (dos_blocks d ++ [mkBlock data_seg need (current_mcb_owner d)]) in
        '(m, d) ← resync m d; Some (m, d, inl data_seg)
    | inr max_data => Some (m, d, inr max_data)
    end.

(** [iter().position(|b| b.seg == seg)] *)
Definition position (sg : Z) (l : list DosMemBlock) : option nat :=
  fst <$> list_find (fun b => seg b = sg) l.

Definition dos_free_block (m : Mem) (d : DosMem) (sg : Z) : option (Mem * DosMem * (unit + Z)) :=
  match position sg (dos_blocks d) with
  | Some idx =>
      '(m, d) ← resync m (set_blocks d (delete idx (dos_blocks d))); Some (m, d, inl tt)
  | None => Some (m, d, inr 9)
  end.

Definition dos_set_program_block_owner (m : Mem) (d : DosMem) (env_seg psp_seg ow : Z) : Mem * DosMem :=
  let d := set_blocks d (map (fun b =>
    if (seg b =? env_seg) || (seg b =? psp_seg) then mkBlock (seg b) (paras b) ow else b) (dos_blocks d)) in
  (sync_mcb_chain m d, d).

Definition dos_keep_resident_block (m : Mem) (d : DosMem) (sg n ow : Z) : option (Mem * DosMem) :=
  let n := Z.min n (sat_sub TOP sg) in
  if n =? 0 then Some (sync_mcb_chain m d, d)
  else resync m (set_blocks d (dos_blocks d ++ [mkBlock sg n ow])).

Definition dos_resize_block (m : Mem) (d : DosMem) (sg n : Z) : option (Mem * DosMem * (unit + Z * Z)) :=
  match position sg (dos_blocks d) with
  | Some idx =>
      let next_limit := next_dos_block_limit d sg (Some sg) in
      let max := if next_limit <? TOP then sat_sub (sat_sub next_limit sg) 1 else sat_sub next_limit sg in
      if n <=? max then
        '(m, d) ← resync m (set_blocks d (alter (fun b => mkBlock (seg b) n (owner b)) idx (dos_blocks d)));
        Some (m, d, inl tt)
      else Some (m, d, inr (8, max))
  | None => Some (m, d, inr (9, 0))
  end.

(** ** INT 21h *)

Definition alloc_48 (m : Mem) (d : DosMem) (c : Ldt.Cpu) : option (Mem * DosMem * Ldt.Cpu) :=
  let r := Ldt.regs c in
  '(m, d, res) ← dos_alloc_block m d (bx r);
  Some (m, d, match res with
    | inl sg => Ldt.clear_carry (Ldt.set_regs c (set_ax r sg))
    | inr avail => Ldt.set_carry (Ldt.set_regs c (set_bx (set_ax r 8) avail))
    end).

Definition free_49 (m : Mem) (d : DosMem) (c : Ldt.Cpu) : option (Mem * DosMem * Ldt.Cpu) :=
  let r := Ldt.regs c in
  '(m, d, res) ← dos_free_block m d (u16 (es r));
  Some (m, d, match res with
    | inl _ => Ldt.clear_carry c
    | inr err => Ldt.set_carry (Ldt.set_regs c (set_ax r err))
    end).

Definition resize_4A (m : Mem) (d : DosMem) (c : Ldt.Cpu) : option (Mem * DosMem * Ldt.Cpu) :=
  let r := Ldt.regs c in
  '(m, d, res) ← dos_resize_block m d (u16 (es r)) (bx r);
  Some (m, d, match res with
    | inl _ => Ldt.clear_carry c
    | inr (err, max) => Ldt.set_carry (Ldt.set_regs c (set_bx (set_ax r err) max))
    end).

Definition set_es (r : Regs) v := mkRegs (rax r) (rbx r) (rcx r) (rdx r) (rsi r) (rdi r) (ds r) v (vm86 r).

(** [LOW_MEM_SEL] of dpmi *)
Definition LOW_MEM_SEL : Z := Ldt.idx_to_sel Ldt.LOW_MEM_LDT_IDX.

Definition lists_52 (dpmi : bool) (c : Ldt.Cpu) : Ldt.Cpu :=
  let r := Ldt.regs c in
  Ldt.clear_carry (Ldt.set_regs c
    (if dpmi && negb (vm86 r) then set_rbx (set_es r LOW_MEM_SEL) LOL_ADDR
     else set_bx (set_es r (LOL_ADDR ≫ 4)) (LOL_ADDR .& 0xF))).

(** ** INT 31h *)

Definition alloc_0100 (m : Mem) (d : DosMem) (l : Ldt.DosState) (c : Ldt.Cpu)
    : option (Mem * DosMem * Ldt.DosState * Ldt.Cpu) :=
  let r := Ldt.regs c in
  let paragraphs := bx r in
  '(m, d, res) ← dos_alloc_block m d paragraphs;
  match res with
  | inl sg =>
      match Ldt.alloc_ldt (Ldt.ldt_alloc l) with
      | Some (words, idx) =>
          let base := u32 (sg * 16) in
          let limit := sat_sub (sat_mul U32_MAX paragraphs 16) 1 in
          let l := Ldt.set_desc (Ldt.set_alloc l words) idx (Ldt.make_data_desc base limit) in
          Some (m, d, l, Ldt.clear_carry (Ldt.set_regs c (set_dx (set_ax r sg) (Ldt.idx_to_sel idx))))
      | None =>
          '(m, d, _) ← dos_free_block m d sg;
          Some (m, d, l, Ldt.set_carry (Ldt.set_regs c (set_ax r 8)))
      end
  | inr max => Some (m, d, l, Ldt.set_carry (Ldt.set_regs c (set_bx (set_ax r 8) max)))
  end.

Definition free_0101 (m : Mem) (d : DosMem) (l : Ldt.DosState) (c : Ldt.Cpu)
    : option (Mem * DosMem * Ldt.DosState * Ldt.Cpu) :=
  let r := Ldt.regs c in
  let sel := dx r in
  let idx := Ldt.sel_to_idx sel in
  if negb (Ldt.ldt_is_allocated (Ldt.ldt_alloc l) idx) then
    Some (m, d, l, Ldt.set_carry (Ldt.set_regs c (set_ax r 9)))
  else
    let base := Ldt.desc_base (Ldt.get_desc l idx) in
    '(m, d, res) ← dos_free_block m d (u16 (base ≫ 4));
    match res with
    | inl _ => Some (m, d, Ldt.free_ldt l idx, Ldt.clear_carry (Ldt.scrub_freed_selector c sel))
    | inr err => Some (m, d, l, Ldt.set_carry (Ldt.set_regs c (set_ax r err)))
    end.

Definition resize_0102 (m : Mem) (d : DosMem) (l : Ldt.DosState) (c : Ldt.Cpu)
    : option (Mem * DosMem * Ldt.DosState * Ldt.Cpu) :=
  let r := Ldt.regs c in
  let paragraphs := bx r in
  let idx := Ldt.sel_to_idx (dx r) in
  if negb (Ldt.ldt_is_allocated (Ldt.ldt_alloc l) idx) then
    Some (m, d, l, Ldt.set_carry (Ldt.set_regs c (set_ax r 9)))
  else
    let base := Ldt.desc_base (Ldt.get_desc l idx) in
    '(m, d, res) ← dos_resize_block m d (u16 (base ≫ 4)) paragraphs;
    match res with
    | inl _ =>
        let limit := sat_sub (sat_mul U32_MAX paragraphs 16) 1 in
        Some (m, d, Ldt.set_desc l idx (Ldt.make_data_desc base limit), Ldt.clear_carry c)
    | inr (err, max) => Some (m, d, l, Ldt.set_carry (Ldt.set_regs c (set_bx (set_ax r err) max)))
    end.

End Mcb.

Import Mcb.

(** * Free runs *)

(** Sorted blocks with their headers, one after the other from [cur] up to the
    end of conventional memory. *)
Fixpoint arranged (cur : Z) (bs : list DosMemBlock) : Prop :=
  match bs with
  | [] => cur <= TOP
  | b :: bs => cur < seg b < TOP /\ 0 <= paras b /\ fits 16 (owner b) /\ arranged (seg b + paras b) bs
  end.

(** The invariant: the arena is not empty and the blocks can be arranged in
    it, so with their headers they are disjoint. *)
Definition wf (d : DosMem) : Prop :=
  heap_start <= heap_base_seg d < TOP /\ fits 16 (current_psp d) /\
  exists bs, bs ≡ₚ dos_blocks d /\ arranged (heap_base_seg d) bs.

(** The free regions between the blocks, headers included. *)
Fixpoint gaps (cur : Z) (bs : list DosMemBlock) : list (Z * Z) :=
  match bs with
  | [] => [(cur, TOP - cur)]
  | b :: bs => (cur, seg b - 1 - cur) :: gaps (seg b + paras b) bs
  end.

(** [n] paragraphs from [s] that no block nor its header covers. *)
Definition free_run (base : Z) (l : list DosMemBlock) (s n : Z) : Prop :=
  base <= s /\ s + n <= TOP /\ forall b, b ∈ l -> s + n <= seg b - 1 \/ seg b + paras b <= s.

Lemma arranged_top cur bs : arranged cur bs -> cur <= TOP.
Proof. revert cur. induction bs as [|b bs IH]; intros cur; cbn; [done|]. intros (?&?&?&?%IH). lia. Qed.

Lemma arranged_in cur bs b :
  arranged cur bs -> b ∈ bs -> cur < seg b < TOP /\ 0 <= paras b /\ seg b + paras b <= TOP /\ fits 16 (owner b).
Proof.
  revert cur. induction bs as [|c bs IH]; intros cur; [by intros _ ?%elem_of_nil|].
  cbn. intros (?&?&?&Ha) [->|Hin]%elem_of_cons.
  - pose proof (arranged_top _ _ Ha). repeat split; try apply H1; lia.
  - destruct (IH _ Ha Hin) as (?&?&?&?). repeat split; try apply H5; lia.
Qed.

Lemma arranged_pre cur pre b post :
  arranged cur (pre ++ b :: post) -> Forall (fun c => seg c + paras c < seg b) pre.
Proof.
  revert cur. induction pre as [|c pre IH]; intros cur; [constructor|].
  cbn. intros (?&?&?&Ha). constructor; [|eauto].
  destruct (arranged_in _ _ b Ha) as (?&?&?&?); [set_solver|lia].
Qed.

Lemma arranged_app cur pre post :
  arranged cur (pre ++ post) <->
  arranged cur pre /\ arranged (foldl (fun _ b => seg b + paras b) cur pre) post.
Proof.
  revert cur. induction pre as [|c pre IH]; intros cur; cbn.
  - split; [|tauto]. intros Ha. split; [by eapply arranged_top|done].
  - rewrite IH. tauto.
Qed.

Lemma gaps_free cur bs s n :
  arranged cur bs -> 0 < n ->
  (free_run cur bs s n <-> exists g len, (g, len) ∈ gaps cur bs /\ g <= s /\ s + n <= g + len).
Proof.
  revert cur. induction bs as [|b bs IH]; intros cur Ha Hn; cbn in Ha |- *; unfold free_run in *.
  - split.
    + intros (?&?&_). exists cur, (TOP - cur). split; [set_solver|lia].
    + intros (g&len&[=->->]%list_elem_of_singleton&?&?). split; [lia|]. split; [lia|]. by intros b ?%elem_of_nil.
  - destruct Ha as (?&?&?&Ha). specialize (IH _ Ha Hn). pose proof (arranged_top _ _ Ha). split.
    + intros (?&?&Hb). destruct (Hb b) as [?|?]; [set_solver| |].
      * exists cur, (seg b - 1 - cur). split; [set_solver|lia].
      * destruct (proj1 IH) as (g&len&?&?&?); [set_solver|]. exists g, len. set_solver.
    + intros (g&len&[[=->->]|Hin]%elem_of_cons&?&?).
      * split; [lia|]. split; [lia|]. intros c [->|Hc]%elem_of_cons; [lia|].
        destruct (arranged_in _ _ _ Ha Hc) as (?&?&?&?). lia.
      * destruct (proj2 IH) as (?&?&Hb); [by eauto|]. split; [lia|]. split; [lia|].
        intros c [->|Hc]%elem_of_cons; [lia|]. by apply Hb.
Qed.

(** ** Sorting *)

Lemma insert_block_perm b l : insert_block b l ≡ₚ b :: l.
Proof.
  induction l as [|c l IH]; cbn; [done|]. destruct (_ <=? _); [done|].
  rewrite IH. apply perm_swap.
Qed.

Lemma sort_blocks_perm l : sort_blocks l ≡ₚ l.
Proof. induction l as [|b l IH]; cbn; [done|]. by rewrite insert_block_perm, IH. Qed.

Lemma insert_block_sorted b l :
  StronglySorted (fun a b => seg a <= seg b) l -> StronglySorted (fun a b => seg a <= seg b) (insert_block b l).
Proof.
  induction 1 as [|c l Hs IH Hc]; cbn.
  - constructor; [constructor|by apply Forall_nil].
  - destruct (Z.leb_spec (seg b) (seg c)).
    + constructor; [by constructor|]. constructor; [done|]. eapply Forall_impl; [exact Hc|]. cbn. lia.
    + constructor; [done|]. rewrite insert_block_perm. constructor; [lia|done].
Qed.

Lemma sort_blocks_sorted l : StronglySorted (fun a b => seg a <= seg b) (sort_blocks l).
Proof. induction l as [|b l IH]; [constructor|by apply insert_block_sorted]. Qed.

Lemma arranged_sorted cur bs : arranged cur bs -> StronglySorted (fun a b => seg a < seg b) bs.
Proof.
  revert cur. induction bs as [|b bs IH]; intros cur; cbn; [constructor|].
  intros (?&?&?&Ha). constructor; [eauto|]. apply Forall_forall. intros c Hc.
  destruct (arranged_in _ _ _ Ha Hc) as (?&?&?&?). lia.
Qed.

(** Blocks have one arrangement, the sorted list. *)
Lemma sort_arranged cur bs l : arranged cur bs -> bs ≡ₚ l -> sort_blocks l = bs.
Proof.
  intros Ha Hp. pose proof (arranged_sorted _ _ Ha) as Hlt.
  pose proof (sort_blocks_sorted l) as Hle. rewrite <- (sort_blocks_perm l) in Hp.
  revert Hp Hle. generalize (sort_blocks l). clear Ha. induction Hlt as [|b bs Hlt IH Hb]; intros l' Hp Hle.
  - by apply Permutation_nil_l in Hp.
  - destruct l' as [|c l']; [by apply Permutation_sym, Permutation_nil_l in Hp|].
    inversion Hle as [|? ? Hle' Hc]; subst.
    assert (c = b) as ->.
    { assert (c ∈ b :: bs) as [->|Hcb]%elem_of_cons by (rewrite Hp; set_solver); [done|].
      assert (b ∈ c :: l') as [->|Hbc]%elem_of_cons by (rewrite <- Hp; set_solver); [done|].
      rewrite Forall_forall in Hb, Hc. specialize (Hb _ Hcb). specialize (Hc _ Hbc). cbn in *. lia. }
    f_equal. apply IH; [|done]. by apply Permutation_cons_inv in Hp.
Qed.

Lemma wf_base d : wf d -> 0x55A <= heap_base_seg d < TOP.
Proof. intros (Hb & _). change heap_start with 0x55A in Hb. exact Hb. Qed.

Lemma wf_sort d : wf d -> arranged (heap_base_seg d) (sort_blocks (dos_blocks d)).
Proof. intros (_ & _ & bs & Hp & Ha). by rewrite (sort_arranged _ _ _ Ha Hp). Qed.

(** ** The scans *)

Fixpoint best (gs : list (Z * Z)) : Z :=
  match gs with [] => 0 | g :: gs => Z.max (g.2 - 1) (best gs) end.

Lemma best_nonneg gs : 0 <= best gs.
Proof. induction gs; cbn; lia. Qed.

Lemma best_in gs g len : (g, len) ∈ gs -> len - 1 <= best gs.
Proof. induction gs as [|h gs IH]; [by intros ?%elem_of_nil|]. cbn. intros [<-|?%IH]%elem_of_cons; cbn; lia. Qed.

Lemma best_attained gs : best gs = 0 \/ exists g, (g, best gs + 1) ∈ gs.
Proof.
  induction gs as [|[g len] gs IH]; cbn; [by left|].
  destruct (Z.max_spec (len - 1) (best gs)) as [[? ->]|[? ->]].
  - destruct IH as [->|[h Hh]]; [by left|]. right. exists h. set_solver.
  - pose proof (best_nonneg gs). right. exists g. rewrite Z.sub_add. set_solver.
Qed.

Ltac arena := unfold sat_add, sat_sub, TOP, U16_MAX in *; pow2.

Lemma largest_scan_gaps bs cur mx :
  0 <= cur -> 0 <= mx -> arranged cur bs -> largest_scan bs cur mx = Z.max mx (best (gaps cur bs)).
Proof.
  revert cur mx. induction bs as [|b bs IH]; intros cur mx Hc Hm Ha; cbn.
  - cbn in Ha. destruct (Z.ltb_spec cur TOP); arena; lia.
  - destruct Ha as (?&?&?&Ha). pose proof (arranged_top _ _ Ha).
    pose proof (best_nonneg (gaps (seg b + paras b) bs)).
    replace (sat_add U16_MAX (seg b) (paras b)) with (seg b + paras b) by (arena; lia).
    destruct (Z.ltb_spec cur (seg b + paras b)); [|lia].
    replace (sat_sub (seg b) 1) with (seg b - 1) by (arena; lia).
    destruct (Z.ltb_spec cur (seg b - 1)); rewrite IH by (done || lia || (arena; lia));
      unfold sat_sub; lia.
Qed.

(** What a scan finds: the place where the block list splits, after which
    there is room, and before which no gap had any. *)
Definition found (total cur : Z) (bs : list DosMemBlock) (s : Z) : Prop :=
  (exists pre post, bs = pre ++ post /\ foldl (fun _ b => seg b + paras b) cur pre = s - 1 /\
     arranged (s - 1 + total) post) /\
  (forall g len, (g, len) ∈ gaps cur bs -> g < s - 1 -> len < total).

Lemma gaps_start cur bs g len : arranged cur bs -> (g, len) ∈ gaps cur bs -> cur <= g /\ 0 <= len.
Proof.
  revert cur. induction bs as [|b bs IH]; intros cur Ha; cbn.
  - intros [=->->]%list_elem_of_singleton. cbn in Ha. lia.
  - destruct Ha as (?&?&?&Ha). intros [[=->->]|Hin]%elem_of_cons; [lia|].
    destruct (IH _ Ha Hin). lia.
Qed.

Lemma alloc_scan_spec total bs cur mx :
  0 <= cur -> 1 <= total -> 0 <= mx -> arranged cur bs ->
  match alloc_scan total bs cur mx with
  | inl s => found total cur bs s
  | inr r => r = Z.max mx (best (gaps cur bs)) /\ forall g len, (g, len) ∈ gaps cur bs -> len < total
  end.
Proof.
  intros Hc Ht. revert cur mx Hc. induction bs as [|b bs IH]; intros cur mx Hc Hm Ha; cbn.
  - cbn in Ha. unfold found; cbn. destruct (Z.ltb_spec cur TOP); [destruct (Z.leb_spec total (TOP - cur))|].
    + split; [exists [], []; repeat split; cbn; arena; lia|].
      intros g len [=->->]%list_elem_of_singleton. arena. lia.
    + split; [arena; lia|]. intros g len [=->->]%list_elem_of_singleton. lia.
    + split; [lia|]. intros g len [=->->]%list_elem_of_singleton. lia.
  - destruct Ha as (?&?&Ho&Ha). pose proof (arranged_top _ _ Ha) as Htop.
    pose proof (best_nonneg (gaps (seg b + paras b) bs)).
    replace (sat_add U16_MAX (seg b) (paras b)) with (seg b + paras b) by (arena; lia).
    replace (sat_sub (seg b) 1) with (seg b - 1) by (arena; lia).
    assert (Hskip : forall mx', 0 <= mx' -> seg b - 1 - cur < total -> mx' = Z.max mx (seg b - 1 - cur - 1) ->
      match alloc_scan total bs (seg b + paras b) mx' with
      | inl s => found total cur (b :: bs) s
      | inr r => r = Z.max mx (Z.max (seg b - 1 - cur - 1) (best (gaps (seg b + paras b) bs))) /\
                 forall g len, (g, len) ∈ (cur, seg b - 1 - cur) :: gaps (seg b + paras b) bs -> len < total
      end).
    { intros mx' Hm' Hlen ->. specialize (IH (seg b + paras b) _ ltac:(lia) Hm' Ha).
      destruct (alloc_scan _ _ _ _) as [s|r].
      - destruct IH as [(pre&post&->&Hf&Hp) Hg]. split.
        + exists (b :: pre), post. by repeat split.
        + cbn. intros g len [[=->->]|Hin]%elem_of_cons ?; eauto.
      - destruct IH as [-> Hg]. split; [lia|]. intros g len [[=->->]|Hin]%elem_of_cons; eauto. }
    destruct (Z.ltb_spec cur (seg b - 1)); [destruct (Z.leb_spec total (seg b - 1 - cur))|].
    + unfold found. replace (sat_add U16_MAX cur 1 - 1) with cur by (arena; lia). split.
      * exists [], (b :: bs). cbn. split_and!; try done; lia.
      * cbn. intros g len [[=->->]|Hin]%elem_of_cons ?; [lia|].
        destruct (gaps_start _ _ _ _ Ha Hin). lia.
    + apply Hskip; unfold sat_sub; lia.
    + apply Hskip; lia.
Qed.

(** ** The end of the first run of blocks *)

Fixpoint run_end (cur : Z) (bs : list DosMemBlock) : Z :=
  match bs with
  | [] => cur
  | b :: bs => if seg b =? cur + 1 then run_end (seg b + paras b) bs else cur
  end.

Lemma heap_loop_run fuel l pre bs cur :
  l ≡ₚ pre ++ bs -> 0 <= cur -> Forall (fun b => seg b <= cur) pre -> arranged cur bs ->
  (length bs < fuel)%nat -> heap_loop fuel l cur = Some (run_end cur bs).
Proof.
  intros Hp Hc Hpre Ha. revert pre cur fuel Hp Hc Hpre Ha.
  induction bs as [|b bs IH]; intros pre cur [|fuel] Hp Hc Hpre Ha Hf; try (cbn in Hf; lia); cbn [heap_loop run_end].
  all: pose proof (arranged_top _ _ Ha); replace (sat_add U16_MAX cur 1) with (cur + 1) by (arena; lia).
  all: destruct (List.find _ l) as [c|] eqn:Hfind;
    [apply List.find_some in Hfind as [Hin%list_elem_of_In Heq%Z.eqb_eq]; rewrite Hp in Hin
    |pose proof (List.find_none _ _ Hfind) as Hnone].
  - rewrite app_nil_r in Hin. rewrite Forall_forall in Hpre. apply Hpre in Hin. lia.
  - done.
  - pose proof Ha as (?&?&?&Ha'). assert (c = b) as ->.
    { apply elem_of_app in Hin as [Hin|[->|Hin]%elem_of_cons]; [|done|].
      - rewrite Forall_forall in Hpre. apply Hpre in Hin. lia.
      - destruct (arranged_in _ _ _ Ha' Hin) as (?&?&?&?). lia. }
    rewrite Heq, Z.eqb_refl. pose proof (arranged_top _ _ Ha').
    replace (sat_add U16_MAX (cur + 1) (paras b)) with (seg b + paras b) by (arena; lia).
    rewrite <- Heq. apply (IH (pre ++ [b])); [by rewrite Hp, <- app_assoc|lia| |done|cbn in Hf; lia].
    apply Forall_app. split; [eapply Forall_impl; [exact Hpre|]; cbn; lia|]. apply Forall_singleton. lia.
  - destruct (Z.eqb_spec (seg b) (cur + 1)) as [He|]; [|done].
    specialize (Hnone b). rewrite <- list_elem_of_In, Hp in Hnone. apply Z.eqb_neq in Hnone; [lia|set_solver].
Qed.

Lemma run_end_top cur bs : arranged cur bs -> cur <= run_end cur bs <= TOP.
Proof.
  revert cur. induction bs as [|b bs IH]; intros cur Ha; cbn; [cbn in Ha; lia|].
  pose proof (arranged_top _ _ Ha). destruct Ha as (?&?&?&Ha). destruct (_ =? _); [|lia].
  specialize (IH _ Ha). lia.
Qed.

(** The loop of [sync_heap_seg] ends, at the end of the first run. *)
Lemma sync_heap_seg_spec d :
  wf d -> sync_heap_seg d = Some (set_heap_seg d (run_end (heap_base_seg d) (sort_blocks (dos_blocks d)))).
Proof.
  intros Hw. pose proof (wf_sort d Hw) as Ha. pose proof (wf_base d Hw) as Hb. unfold sync_heap_seg.
  rewrite (heap_loop_run _ _ [] (sort_blocks (dos_blocks d))); cbn; try done; try lia.
  - do 2 f_equal. pose proof (run_end_top _ _ Ha). lia.
  - by rewrite sort_blocks_perm.
  - rewrite (Permutation_length (sort_blocks_perm _)). lia.
Qed.

(** * The chain *)

(** The list of headers a program reads from [mcb] on. *)
Fixpoint walk_chain (fuel : nat) (m : Mem) (mcb : Z) : option (list Entry) :=
  match fuel with
  | O => None
  | S n =>
      let a := mcb * 16 in
      let e := (mcb, read16 m (a + 1), read16 m (a + 3)) in
      if m a =? SIG_Z then Some [e]
      else if m a =? SIG_M then es ← walk_chain n m (mcb + 1 + read16 m (a + 3)); Some (e :: es)
      else None
  end.

(** Headers that follow each other from [cur] and cover the arena. *)
Fixpoint tiles (cur : Z) (es : list Entry) : Prop :=
  match es with
  | [] => cur = TOP
  | (mcb, ow, n) :: es => mcb = cur /\ fits 16 ow /\ 0 <= n /\ tiles (cur + 1 + n) es
  end.

Lemma tiles_top cur es : tiles cur es -> cur <= TOP.
Proof. revert cur. induction es as [|[[? ?] ?] es IH]; cbn; intros cur; [lia|]. intros (_&_&?&?%IH). lia. Qed.

Lemma chain_entries_tiles cur bs : 0 <= cur -> arranged cur bs -> tiles cur (chain_entries cur bs).
Proof.
  revert cur. induction bs as [|b bs IH]; intros cur Hc Ha; cbn.
  - cbn in Ha. destruct (Z.ltb_spec cur TOP); cbn; [|lia]. split_and!; [done|arena; lia..].
  - destruct Ha as (?&?&?&Ha). pose proof (arranged_top _ _ Ha).
    replace (sat_add U16_MAX (seg b) (paras b)) with (seg b + paras b) by (arena; lia).
    replace (sat_sub (seg b) 1) with (seg b - 1) by (arena; lia). specialize (IH (seg b + paras b) ltac:(lia) Ha).
    destruct (Z.ltb_spec cur (seg b - 1)); cbn; split_and!; try done; try lia; try (arena; lia).
    + by replace (cur + 1 + _ + 1 + _) with (seg b + paras b) by lia.
    + by replace (cur + 1 + _) with (seg b + paras b) by lia.
Qed.

Lemma write_entry_other m sig mcb ow n a :
  a < 16 * mcb \/ 16 * mcb + 5 <= a -> write_entry m sig (mcb, ow, n) a = m a.
Proof.
  unfold write_entry, write16, write8. rewrite Z.shiftl_mul_pow2 by lia. change (2 ^ 4) with 16. intros Ha.
  repeat (case Z.eqb_spec; intros; [lia|]). done.
Qed.

Lemma write_entry_fields m sig mcb ow n :
  fits 16 ow -> fits 16 n ->
  write_entry m sig (mcb, ow, n) (mcb * 16) = sig /\
  read16 (write_entry m sig (mcb, ow, n)) (mcb * 16 + 1) = ow /\
  read16 (write_entry m sig (mcb, ow, n)) (mcb * 16 + 3) = n.
Proof.
  intros Ho Hn. unfold write_entry, read16, write16, write8.
  rewrite Z.shiftl_mul_pow2, !Z.shiftr_div_pow2 by lia. change (2 ^ 4) with 16. change (2 ^ 8) with 256.
  split_and!; repeat (case Z.eqb_spec; intros; try lia); pow2; rewrite ?Z.mod_small with (a := _ / 256) by (split; [apply Z.div_pos|apply Z.div_lt_upper_bound]; lia); pose proof (Z.div_mod ow 256); pose proof (Z.div_mod n 256); lia.
Qed.

Lemma write_entries_below m cur es a : tiles cur es -> a < 16 * cur -> write_entries m es a = m a.
Proof.
  revert m cur. induction es as [|[[mcb ow] n] es IH]; intros m cur Ht Ha; cbn [write_entries]; [done|].
  destruct Ht as (->&?&?&Ht). rewrite (IH _ _ Ht) by lia. rewrite write_entry_other by lia. done.
Qed.

(** Reading back a chain gives the headers written. *)
Lemma walk_written m cur es fuel :
  es <> [] -> 0 <= cur -> tiles cur es -> (length es <= fuel)%nat ->
  walk_chain fuel (write_entries m es) cur = Some es.
Proof.
  revert m cur fuel. induction es as [|[[mcb ow] n] es IH]; intros m cur [|fuel] Hne Hc Ht Hf; try done; try (cbn in Hf; lia).
  pose proof Ht as (->&Ho&Hn&Ht'). pose proof (tiles_top _ _ Ht').
  assert (fits 16 n) as Hn' by (arena; lia).
  set (sig := match es with [] => SIG_Z | _ => SIG_M end).
  destruct (write_entry_fields m sig cur ow n Ho Hn') as (Hs&H1&H2).
  assert (Hsame : forall a, a < 16 * (cur + 1 + n) -> write_entries m ((cur, ow, n) :: es) a = write_entry m sig (cur, ow, n) a).
  { intros a Ha. cbn [write_entries]. by rewrite (write_entries_below _ _ _ _ Ht' Ha). }
  cbn [walk_chain]. unfold read16 in *. rewrite !Hsame by lia. rewrite Hs, H1, H2. unfold sig.
  destruct es as [|e es]; [done|]. cbn [Z.eqb SIG_M SIG_Z].
  change (write_entries m ((cur, ow, n) :: e :: es)) with (write_entries (write_entry m SIG_M (cur, ow, n)) (e :: es)).
  rewrite IH; [done|done|lia|done|cbn in *; lia].
Qed.

(** What a program finds in [m]: the head pointer, and behind it the headers of
    the blocks with free headers in the gaps. *)
Definition mirrors (m : Mem) (d : DosMem) : Prop :=
  read16 m FIRST_MCB_ADDR = heap_base_seg d /\
  walk_chain (Z.to_nat TOP) m (heap_base_seg d) = Some (chain_entries (heap_base_seg d) (sort_blocks (dos_blocks d))).

Lemma tiles_length cur es : 0 <= cur -> tiles cur es -> Z.of_nat (length es) <= TOP - cur.
Proof.
  revert cur. induction es as [|[[? ?] n] es IH]; cbn; intros cur Hc; [lia|].
  intros (_&_&?&Ht). pose proof (IH (cur + 1 + n) ltac:(lia) Ht). lia.
Qed.

Lemma sync_mirrors m d : wf d -> mirrors (sync_mcb_chain m d) d.
Proof.
  intros Hw. pose proof (wf_base d Hw) as Hb. pose proof (wf_sort d Hw) as Ha.
  pose proof (chain_entries_tiles (heap_base_seg d) _ ltac:(lia) Ha) as Ht.
  unfold mirrors, sync_mcb_chain. set (m0 := set_first_mcb_seg _ _). split.
  - unfold read16. rewrite !(write_entries_below _ _ _ _ Ht) by (change FIRST_MCB_ADDR with 0x800; lia).
    unfold m0, set_first_mcb_seg, write16, write8. rewrite Z.eqb_refl.
    destruct (Z.eqb_spec FIRST_MCB_ADDR (FIRST_MCB_ADDR + 1)); [lia|].
    rewrite Z.eqb_refl, Z.shiftr_div_pow2 by lia. change (2 ^ 8) with 256. arena.
    rewrite (Z.mod_small (_ / 256)) by (split; [apply Z.div_pos|apply Z.div_lt_upper_bound]; lia).
    pose proof (Z.div_mod (heap_base_seg d) 256). lia.
  - apply walk_written; [|lia|done|].
    + intros Hn. rewrite Hn in Ht. cbn in Ht. lia.
    + pose proof (tiles_length (heap_base_seg d) _ ltac:(lia) Ht). lia.
Qed.

(** The headers are those of the blocks and of the gaps. *)
Lemma chain_entries_iff cur bs e :
  0 <= cur -> arranged cur bs ->
  (e ∈ chain_entries cur bs <->
   (exists b, b ∈ bs /\ e = (seg b - 1, owner b, paras b)) \/
   (exists g len, (g, len) ∈ gaps cur bs /\ 0 < len /\ e = (g, 0, len - 1))).
Proof.
  revert cur. induction bs as [|b bs IH]; intros cur Hc Ha; cbn.
  - cbn in Ha. destruct (Z.ltb_spec cur TOP).
    + rewrite list_elem_of_singleton. split; [|set_solver]. intros ->. right. exists cur, (TOP - cur). set_solver by lia.
    + split; [by intros ?%elem_of_nil|]. intros [(?&?&_)|(g&len&[=->->]%list_elem_of_singleton&?&_)]; [set_solver|lia].
  - destruct Ha as (?&?&?&Ha). pose proof (arranged_top _ _ Ha).
    replace (sat_add U16_MAX (seg b) (paras b)) with (seg b + paras b) by (arena; lia).
    replace (sat_sub (seg b) 1) with (seg b - 1) by (arena; lia).
    rewrite elem_of_app, elem_of_cons, (IH (seg b + paras b)) by (done || lia).
    assert (e ∈ (if cur <? seg b - 1 then [(cur, 0, seg b - 1 - cur - 1)] else []) <->
            0 < seg b - 1 - cur /\ e = (cur, 0, seg b - 1 - cur - 1)) as ->.
    { destruct (Z.ltb_spec cur (seg b - 1)); [rewrite list_elem_of_singleton|rewrite elem_of_nil]; intuition lia. }
    split.
    + intros [[? ->]|[->|[(c&?&->)|(g&len&?&?&->)]]].
      * right. exists cur, (seg b - 1 - cur). set_solver.
      * left. exists b. set_solver.
      * left. exists c. set_solver.
      * right. exists g, len. set_solver.
    + intros [(c&[->|?]%elem_of_cons&->)|(g&len&[[=->->]|?]%elem_of_cons&?&->)]; eauto 10.
Qed.

(** * Operations keep the invariant *)

Lemma wf_intro base hs l psp bs :
  heap_start <= base < TOP -> fits 16 psp -> bs ≡ₚ l -> arranged base bs -> wf (mkMem base hs l psp).
Proof. intros ? ? ? ?. split_and!; cbn; eauto; tauto. Qed.

Lemma resync_ok m d :
  wf d -> exists m' hs, resync m d = Some (m', set_heap_seg d hs) /\ wf (set_heap_seg d hs) /\
    mirrors m' (set_heap_seg d hs) /\ hs = run_end (heap_base_seg d) (sort_blocks (dos_blocks d)).
Proof.
  intros Hw. unfold resync. rewrite sync_heap_seg_spec by done. cbn [mbind option_bind].
  eexists _, _. split; [reflexivity|]. split; [exact Hw|]. split; [|done]. by apply sync_mirrors.
Qed.

Lemma found_insert total cur bs s n ow :
  arranged cur bs -> found total cur bs s -> 0 < n -> total = n + 1 -> fits 16 ow ->
  exists bs', bs' ≡ₚ bs ++ [mkBlock s n ow] /\ arranged cur bs'.
Proof.
  intros Ha [(pre&post&->&Hf&Hp) _] Hn -> Ho. apply arranged_app in Ha as [Hpre _].
  exists (pre ++ mkBlock s n ow :: post). split.
  - rewrite <- app_assoc. f_equiv. apply Permutation_cons_append.
  - apply arranged_app. split; [done|]. rewrite Hf. pose proof (arranged_top _ _ Hp). cbn. split_and!; [lia|lia|lia|done|].
    by replace (s + n) with (s - 1 + (n + 1)) by lia.
Qed.

Lemma found_free total cur bs s :
  0 < total -> arranged cur bs -> found total cur bs s -> free_run cur bs (s - 1) total.
Proof.
  intros Ht Ha [(pre&post&->&Hf&Hp) _]. apply arranged_app in Ha as [Hpre Hpost]. rewrite Hf in Hpost.
  assert (cur <= s - 1 /\ Forall (fun b => seg b + paras b <= s - 1) pre) as [Hs Hall].
  { rewrite <- Hf. clear -Hpre. revert cur Hpre. induction pre as [|b pre IH]; intros cur; cbn; [split; [lia|constructor]|].
    intros (?&?&_&Ha). destruct (IH _ Ha). split; [lia|]. constructor; [done|done]. }
  split; [lia|]. split; [pose proof (arranged_top _ _ Hp); lia|].
  intros b [Hb|Hb]%elem_of_app; [right; rewrite Forall_forall in Hall; auto|].
  destruct (arranged_in _ _ _ Hp Hb) as (?&?&?&?). lia.
Qed.

Lemma gaps_len cur bs g len : 0 <= cur -> arranged cur bs -> (g, len) ∈ gaps cur bs -> len <= TOP.
Proof.
  intros Hc Ha Hin. destruct (gaps_start _ _ _ _ Ha Hin) as [? Hl].
  destruct (decide (len = 0)) as [->|]; [unfold TOP; lia|].
  destruct (proj2 (gaps_free cur bs g len Ha ltac:(lia))) as (?&?&_); [|lia]. exists g, len. split; [done|lia].
Qed.

Lemma free_run_perm base l l' s n : l ≡ₚ l' -> free_run base l s n -> free_run base l' s n.
Proof. intros Hp (?&?&Hb). split_and!; try done. intros b. rewrite <- Hp. apply Hb. Qed.

(** No gap holds [total] paragraphs: there is no free run as long. *)
Lemma no_gap_no_run d total :
  wf d -> 0 < total -> (forall g len, (g, len) ∈ gaps (heap_base_seg d) (sort_blocks (dos_blocks d)) -> len < total) ->
  forall s, ~ free_run (heap_base_seg d) (dos_blocks d) s total.
Proof.
  intros Hw Ht Hg s Hs. apply (free_run_perm _ _ (sort_blocks (dos_blocks d))) in Hs; [|by rewrite sort_blocks_perm].
  apply gaps_free in Hs as (g&len&Hin&?&?); [|by apply wf_sort|done]. specialize (Hg _ _ Hin). lia.
Qed.

Lemma largest_best d :
  wf d -> largest_dos_block d = best (gaps (heap_base_seg d) (sort_blocks (dos_blocks d))).
Proof.
  intros Hw. pose proof (wf_base d Hw). unfold largest_dos_block.
  rewrite largest_scan_gaps by (lia || by apply wf_sort).
  pose proof (best_nonneg (gaps (heap_base_seg d) (sort_blocks (dos_blocks d)))). lia.
Qed.

(** [largest_dos_block] is the size of the largest block that can be had. *)
Lemma largest_spec d n :
  wf d -> 0 < n -> (n <= largest_dos_block d <-> exists s, free_run (heap_base_seg d) (dos_blocks d) s (n + 1)).
Proof.
  intros Hw Hn. rewrite largest_best by done. pose proof (wf_sort d Hw) as Ha.
  set (gs := gaps _ _). split.
  - intros Hle. destruct (best_attained gs) as [Hz|[g Hg]]; [lia|]. exists g.
    apply (free_run_perm _ (sort_blocks (dos_blocks d))); [by rewrite sort_blocks_perm|].
    apply gaps_free; [done|lia|]. exists g, (best gs + 1). split; [done|lia].
  - intros [s Hs]. apply (free_run_perm _ _ (sort_blocks (dos_blocks d))) in Hs; [|by rewrite sort_blocks_perm].
    apply gaps_free in Hs as (g&len&Hin&?&?); [|done|lia]. pose proof (best_in gs g len Hin). lia.
Qed.

(** A request of [need] paragraphs, and how the code answers it. *)
Lemma mcb_alloc_spec m d need :
  wf d -> 0 < need < 0x10000 ->
  exists m' d' r, dos_alloc_block m d need = Some (m', d', r) /\ wf d' /\
  match r with
  | inl s =>
      free_run (heap_base_seg d) (dos_blocks d) (s - 1) (need + 1) /\
      (forall s', free_run (heap_base_seg d) (dos_blocks d) s' (need + 1) -> s - 1 <= s') /\
      dos_blocks d' = dos_blocks d ++ [mkBlock s need (current_psp d)] /\
      heap_base_seg d' = heap_base_seg d /\ current_psp d' = current_psp d /\ mirrors m' d'
  | inr avail => m' = m /\ d' = d /\ avail = largest_dos_block d /\ avail < need
  end.
Proof.
  intros Hw Hn. pose proof (wf_sort d Hw) as Ha. pose proof (wf_base d Hw) as Hb.
  unfold dos_alloc_block. destruct (Z.eqb_spec need 0); [lia|]. cbn [negb andb].
  set (total := sat_add U16_MAX need 1). destruct (Z.ltb_spec total need); [unfold total in *; arena; lia|].
  pose proof (alloc_scan_spec total _ (heap_base_seg d) 0 ltac:(lia) ltac:(lia) ltac:(lia) Ha) as Hspec.
  destruct (alloc_scan _ _ _ _) as [s|avail].
  - pose proof (found_free total _ _ _ ltac:(lia) Ha Hspec) as Hfree.
    assert (total = need + 1) as Ht by (destruct Hfree as (?&?&_); unfold total in *; arena; lia).
    rewrite Ht in *.
    destruct (found_insert _ _ _ _ need (current_psp d) Ha Hspec ltac:(lia) eq_refl ltac:(apply Hw)) as (bs&Hp&Ha').
    set (d1 := set_blocks d _).
    assert (wf d1) as Hw1.
    { apply (wf_intro _ _ _ _ bs); [apply Hw|apply Hw| |done]. by rewrite Hp, sort_blocks_perm. }
    destruct (resync_ok m d1 Hw1) as (m'&hs&->&Hw'&Hm&_). cbn [mbind option_bind].
    eexists _, _, (inl s). split; [reflexivity|]. split; [done|]. split_and!; try done.
    + eapply free_run_perm; [|exact Hfree]. by rewrite sort_blocks_perm.
    + intros s' Hs'. apply (free_run_perm _ _ (sort_blocks (dos_blocks d))) in Hs'; [|by rewrite sort_blocks_perm].
      apply gaps_free in Hs' as (g&len&Hin&?&?); [|done|lia]. destruct Hspec as [_ Hg].
      destruct (Z.lt_ge_cases g (s - 1)); [specialize (Hg _ _ Hin ltac:(lia))|]; lia.
  - destruct Hspec as [-> Hg]. eexists _, _, (inr _). split; [reflexivity|]. split; [done|].
    split_and!; try done; rewrite ?largest_best by done.
    + pose proof (best_nonneg (gaps (heap_base_seg d) (sort_blocks (dos_blocks d)))). lia.
    + destruct (best_attained (gaps (heap_base_seg d) (sort_blocks (dos_blocks d)))) as [->|[g Hin]]; [lia|].
      pose proof (Hg _ _ Hin). pose proof (gaps_len (heap_base_seg d) _ _ _ ltac:(lia) Ha Hin). unfold total in *. arena. lia.
Qed.

Lemma alloc_zero_spec m d :
  wf d -> exists m' d' r, dos_alloc_block m d 0 = Some (m', d', r) /\ wf d' /\ dos_blocks d' = dos_blocks d.
Proof.
  intros Hw. unfold dos_alloc_block. cbn [Z.eqb negb andb].
  destruct (alloc_scan _ _ _ _); [|by eauto 10].
  destruct (resync_ok m d Hw) as (m'&hs&->&Hw'&_). cbn [mbind option_bind]. by eauto 10.
Qed.

(** Where a segment is found: the blocks around it in the list and in its
    arrangement. *)
Lemma position_split base l bs sg idx :
  position sg l = Some idx -> bs ≡ₚ l -> arranged base bs ->
  exists b l1 l2 pre post, seg b = sg /\ length l1 = idx /\ l = l1 ++ b :: l2 /\
    bs = pre ++ b :: post /\ pre ++ post ≡ₚ l1 ++ l2.
Proof.
  unfold position. intros Hp Hperm Ha. destruct (list_find _ l) as [[i b]|] eqn:Hf; [|done].
  injection Hp as ->. apply list_find_Some in Hf as (Hl&Hs&_).
  assert (b ∈ bs) as (pre&post&->)%list_elem_of_split by (rewrite Hperm; by eapply list_elem_of_lookup_2).
  exists b, (take idx l), (drop (S idx) l), pre, post.
  pose proof (take_drop_middle l idx b Hl) as Hm. split_and!; try done.
  - apply length_take_le. apply lookup_lt_Some in Hl. lia.
  - apply (Permutation_cons_inv (a := b)). rewrite !Permutation_middle, Hm. done.
Qed.

Lemma position_none sg l : position sg l = None -> forall b, b ∈ l -> seg b <> sg.
Proof.
  unfold position. destruct (list_find _ l) as [[i b]|] eqn:Hf; [done|]. intros _ b Hb.
  apply list_find_None in Hf. rewrite Forall_forall in Hf. auto.
Qed.

Lemma arranged_delete cur pre b post : arranged cur (pre ++ b :: post) -> arranged cur (pre ++ post).
Proof.
  rewrite !arranged_app. cbn. intros [Hp (?&?&_&Ha)]. split; [done|].
  destruct post as [|c post]; cbn in *; [lia|]. destruct Ha as (?&?&?&?). split_and!; try done; lia.
Qed.

Lemma free_spec m d sg :
  wf d ->
  exists m' d' r, dos_free_block m d sg = Some (m', d', r) /\ wf d' /\
  match r with
  | inl _ => exists b l1 l2, dos_blocks d = l1 ++ b :: l2 /\ seg b = sg /\ dos_blocks d' = l1 ++ l2 /\
      heap_base_seg d' = heap_base_seg d /\ current_psp d' = current_psp d /\ mirrors m' d'
  | inr err => err = 9 /\ m' = m /\ d' = d /\ forall b, b ∈ dos_blocks d -> seg b <> sg
  end.
Proof.
  intros Hw. unfold dos_free_block. destruct (position sg _) as [idx|] eqn:Hpos.
  - pose proof Hw as (Hb&Ho&bs&Hp&Ha).
    destruct (position_split _ _ _ _ _ Hpos Hp Ha) as (b&l1&l2&pre&post&Hs&<-&Hl&->&Hrest).
    rewrite Hl, delete_middle. set (d1 := set_blocks d _).
    assert (wf d1) as Hw1 by (by apply (wf_intro _ _ _ _ (pre ++ post)); [..|eapply arranged_delete]).
    destruct (resync_ok m d1 Hw1) as (m'&hs&->&Hw'&Hm&_). cbn [mbind option_bind].
    eexists _, _, (inl tt). split; [reflexivity|]. split; [done|]. exists b, l1, l2. by split_and!.
  - eexists _, _, (inr 9). split; [reflexivity|]. split; [done|]. split_and!; try done. by apply position_none.
Qed.

(** The limit of a block is the next block's segment. *)
Lemma next_limit_spec l sg lim :
  let f := fun limit b => if bool_decide (Some (seg b) = Some sg) || (seg b <? sg) then limit
                          else if seg b <? limit then seg b else limit in
  let r := foldl f lim l in
  r <= lim /\ (forall b, b ∈ l -> sg < seg b -> r <= seg b) /\
  (r = lim \/ exists b, b ∈ l /\ sg < seg b /\ r = seg b).
Proof.
  cbn zeta. revert lim. induction l as [|b l IH]; intros lim; cbn [foldl].
  - split_and!; [done|by intros b ?%elem_of_nil|by left].
  - set (lim' := if _ || _ then _ else _). destruct (IH lim') as (H1&H2&H3).
    assert (lim' <= lim /\ (sg < seg b -> lim' <= seg b) /\ (lim' = lim \/ sg < seg b /\ lim' = seg b)) as (L1&L2&L3).
    { unfold lim'. case_bool_decide as Hd; cbn [orb]; [injection Hd as ->; lia|].
      destruct (Z.ltb_spec (seg b) sg); [lia|]. assert (seg b <> sg) by congruence.
      destruct (Z.ltb_spec (seg b) lim); lia. }
    split_and!; [lia| |].
    + intros c [->|Hc]%elem_of_cons ?; [lia|]. by apply H2.
    + destruct H3 as [->|(c&?&?&->)]; [|right; set_solver].
      destruct L3 as [->|[? ->]]; [by left|right; set_solver].
Qed.

(** A block can grow up to the next block's header, or the end of memory. *)
Definition can_resize (d : DosMem) (sg n : Z) : Prop :=
  sg + n <= TOP /\ forall b, b ∈ dos_blocks d -> sg < seg b -> sg + n <= seg b - 1.

Lemma arranged_resize cur pre b post n :
  arranged cur (pre ++ b :: post) -> 0 <= n -> seg b + n <= TOP ->
  (forall c, c ∈ post -> seg b + n < seg c) ->
  arranged cur (pre ++ mkBlock (seg b) n (owner b) :: post).
Proof.
  rewrite !arranged_app. cbn. intros [Hp (?&?&?&Ha)] Hn Ht Hpost. split_and!; try done; try lia.
  destruct post as [|c post]; cbn in *; [lia|]. destruct Ha as (?&?&?&?).
  pose proof (Hpost c ltac:(set_solver)). split_and!; try done; lia.
Qed.

Lemma resize_spec m d sg n :
  wf d -> 0 <= n ->
  exists m' d' r, dos_resize_block m d sg n = Some (m', d', r) /\ wf d' /\
  match r with
  | inl _ => can_resize d sg n /\ exists b l1 l2, dos_blocks d = l1 ++ b :: l2 /\ seg b = sg /\
      dos_blocks d' = l1 ++ mkBlock sg n (owner b) :: l2 /\
      heap_base_seg d' = heap_base_seg d /\ current_psp d' = current_psp d /\ mirrors m' d'
  | inr (err, max) => m' = m /\ d' = d /\
      (err = 8 /\ (exists b, b ∈ dos_blocks d /\ seg b = sg) /\ max < n /\ (forall k, 0 <= k -> (can_resize d sg k <-> k <= max))
       \/ err = 9 /\ max = 0 /\ forall b, b ∈ dos_blocks d -> seg b <> sg)
  end.
Proof.
  intros Hw Hn. unfold dos_resize_block. destruct (position sg _) as [idx|] eqn:Hpos.
  2:{ eexists _, _, (inr (9, 0)). split; [reflexivity|]. split; [done|]. split_and!; try done.
      right. split_and!; try done. by apply position_none. }
  pose proof Hw as (Hb&Ho&bs&Hp&Ha).
  destruct (position_split _ _ _ _ _ Hpos Hp Ha) as (b&l1&l2&pre&post&Hs&<-&Hl&->&Hrest).
  assert (b ∈ dos_blocks d) as Hbin by (rewrite Hl; set_solver).
  destruct (next_limit_spec (dos_blocks d) sg TOP) as (N1&N2&N3).
  fold (next_dos_block_limit d sg (Some sg)) in N1, N2, N3. set (lim := next_dos_block_limit d sg (Some sg)) in *.
  set (mx := if lim <? TOP then _ else _).
  destruct (arranged_in _ _ b Ha ltac:(set_solver)) as (?&?&?&?).
  pose proof (wf_base d Hw).
  assert (forall k, 0 <= k -> (can_resize d sg k <-> k <= mx)) as Hmx.
  { intros k Hk. unfold can_resize, mx. destruct N3 as [Hlim|(c&Hc&?&Hlim)].
    - rewrite Hlim, Z.ltb_irrefl. unfold sat_sub. split; [lia|]. intros ?. split; [lia|].
      intros c Hc Hlt. pose proof (N2 c Hc Hlt). rewrite <- Hp in Hc. destruct (arranged_in _ _ _ Ha Hc). lia.
    - assert (lim < TOP) as ->%Z.ltb_lt by (rewrite <- Hp in Hc; destruct (arranged_in _ _ _ Ha Hc); lia).
      assert (seg c < TOP) by (rewrite <- Hp in Hc; destruct (arranged_in _ _ _ Ha Hc); lia).
      unfold sat_sub. split.
      + intros [_ Hk']. specialize (Hk' c Hc ltac:(lia)). lia.
      + intros ?. split; [lia|]. intros c' Hc' Hlt. pose proof (N2 c' Hc' Hlt). 
        lia. }
  destruct (Z.leb_spec n mx) as [Hle|Hlt].
  2:{ eexists _, _, (inr (8, mx)). split; [reflexivity|]. split; [done|]. split_and!; try done. left. split_and!; [done|by exists b|lia|done]. }
  apply Hmx in Hle as Hcan; [|done].
  replace (alter _ _ _) with (l1 ++ mkBlock (seg b) n (owner b) :: l2)
    by (by rewrite Hl, alter_app_r_alt, Nat.sub_diag by done).
  set (d1 := set_blocks d _).
  assert (wf d1) as Hw1.
  { apply (wf_intro _ _ _ _ (pre ++ mkBlock (seg b) n (owner b) :: post)); try done.
    - by rewrite <- !Permutation_middle, Hrest.
    - destruct Hcan as [? Hall]. apply arranged_resize; try done; [lia|].
      intros c Hc. assert (c ∈ dos_blocks d) as Hcd by (rewrite <- Hp; set_solver).
      rewrite arranged_app in Ha. cbn in Ha. destruct Ha as [_ (?&?&?&Ha)]. destruct (arranged_in _ _ _ Ha Hc) as (?&?&?&?).
      specialize (Hall c Hcd ltac:(lia)). lia. }
  destruct (resync_ok m d1 Hw1) as (m'&hs&->&Hw'&Hm&_). cbn [mbind option_bind].
  eexists _, _, (inl tt). split; [reflexivity|]. split; [done|]. split; [done|].
  exists b, l1, l2. subst sg. by split_and!.
Qed.

Lemma owner_spec m d e p ow :
  wf d -> fits 16 ow ->
  wf (dos_set_program_block_owner m d e p ow).2 /\
  mirrors (dos_set_program_block_owner m d e p ow).1 (dos_set_program_block_owner m d e p ow).2.
Proof.
  intros Hw Ho. unfold dos_set_program_block_owner; cbn [fst snd]. set (f := fun b => _). set (d1 := set_blocks d _).
  assert (wf d1) as Hw1; [|split; [done|by apply sync_mirrors]].
  destruct Hw as (Hb&Hpsp&bs&Hp&Ha). apply (wf_intro _ _ _ _ (f <$> bs)); try done.
  - by rewrite Hp.
  - clear Hp. revert Ha. generalize (heap_base_seg d). induction bs as [|b bs IH]; intros cur Ha; cbn in *; [done|].
    destruct Ha as (?&?&?&Ha). assert (seg (f b) = seg b /\ paras (f b) = paras b) as [-> ->] by (unfold f; by destruct (_ || _)).
    split_and!; try done; try lia; [|by apply IH]. unfold f. by destruct (_ || _).
Qed.

Lemma reset_spec m d base :
  heap_start <= base < TOP -> fits 16 (current_psp d) ->
  wf (dos_reset_blocks m d base).2 /\ mirrors (dos_reset_blocks m d base).1 (dos_reset_blocks m d base).2.
Proof.
  intros Hb Ho. unfold dos_reset_blocks; cbn [fst snd]. set (d1 := mkMem _ _ _ _).
  assert (wf d1) as Hw1; [|split; [done|by apply sync_mirrors]].
  apply (wf_intro _ _ _ _ []); try done. cbn. lia.
Qed.

(** A free place stays arranged when a block is put there. *)
Lemma arranged_place base bs b :
  arranged base bs -> free_run base bs (seg b - 1) (paras b + 1) -> 0 < paras b -> fits 16 (owner b) ->
  exists bs', bs' ≡ₚ bs ++ [b] /\ arranged base bs'.
Proof.
  intros Ha Hf Hn Ho. exists (sort_blocks (bs ++ [b])). split; [by rewrite sort_blocks_perm|].
  enough (exists bs', bs' ≡ₚ bs ++ [b] /\ arranged base bs') as (bs'&Hp&Ha').
  { by rewrite (sort_arranged _ _ _ Ha' Hp). }
  revert base Ha Hf. induction bs as [|c bs IH]; intros base Ha (H1&H2&H3).
  - exists [b]. split; [done|]. cbn. split_and!; try done; lia.
  - cbn in Ha. destruct Ha as (?&?&?&Ha). destruct (H3 c ltac:(set_solver)) as [?|?].
    + exists (b :: c :: bs). split; [by rewrite <- Permutation_cons_append|]. cbn. split_and!; try done; lia.
    + destruct (IH _ Ha) as (bs'&Hp&Ha').
      { split_and!; [lia|lia|]. intros e He. apply H3. set_solver. }
      exists (c :: bs'). split; [by rewrite Hp|]. cbn. by split_and!; try lia.
Qed.

(** Keeping a resident block: sound when the place is free. *)
Lemma keep_spec m d sg n ow :
  wf d -> 0 < sg -> 0 <= n -> fits 16 ow ->
  free_run (heap_base_seg d) (dos_blocks d) (sg - 1) (Z.min n (sat_sub TOP sg) + 1) ->
  exists m' d', dos_keep_resident_block m d sg n ow = Some (m', d') /\ wf d' /\ mirrors m' d'.
Proof.
  intros Hw Hsg Hn Ho Hf. unfold dos_keep_resident_block. set (k := Z.min _ _) in *.
  destruct (Z.eqb_spec k 0); [eexists _, _; split; [done|]; split; [done|by apply sync_mirrors]|].
  set (d1 := set_blocks d _). pose proof Hw as (Hb&Hpsp&bs&Hp&Ha).
  assert (wf d1) as Hw1.
  { destruct (arranged_place _ bs (mkBlock sg k ow) Ha) as (bs'&Hp'&Ha'); cbn; [|unfold k, sat_sub in *; lia|done|].
    - eapply free_run_perm; [by symmetry|done].
    - apply (wf_intro _ _ _ _ bs'); try done. by rewrite Hp', Hp. }
  destruct (resync_ok m d1 Hw1) as (m'&hs&->&Hw'&Hm&_). by eauto.
Qed.

Lemma arranged_ordered base bs b c : arranged base bs -> b ∈ bs -> c ∈ bs -> seg b < seg c -> seg b + paras b <= seg c - 1.
Proof.
  intros Ha Hb Hc Hlt. apply list_elem_of_split in Hc as (pre&post&->).
  apply elem_of_app in Hb as [Hb|[->|Hb]%elem_of_cons]; [|lia|].
  - pose proof (arranged_pre _ _ _ _ Ha) as Hpre. rewrite Forall_forall in Hpre. specialize (Hpre _ Hb). cbn in Hpre. lia.
  - apply arranged_app in Ha as [_ Ha]. cbn in Ha. destruct Ha as (?&?&?&Ha).
    destruct (arranged_in _ _ _ Ha Hb) as (?&?&?&?). lia.
Qed.

Lemma arranged_nodup base bs : arranged base bs -> NoDup (seg <$> bs).
Proof.
  intros Ha%arranged_sorted. induction Ha as [|b bs Hs IH Hb]; cbn; constructor; [|done].
  intros (c&Heq&Hc)%list_elem_of_fmap. rewrite Forall_forall in Hb. specialize (Hb _ Hc). cbn in Hb. lia.
Qed.

(** ** What the operations write *)

(** The bytes of a block. *)
Definition in_block (b : DosMemBlock) (a : Z) : Prop := 16 * seg b <= a < 16 * (seg b + paras b).

(** The memory of the blocks of [d] is as it was, and so is all memory outside
    the arena but the head pointer. *)
Definition keeps (d : DosMem) (m m' : Mem) : Prop :=
  (forall b a, b ∈ dos_blocks d -> in_block b a -> m' a = m a) /\
  (forall a, a < 16 * heap_base_seg d \/ 16 * TOP <= a -> a <> FIRST_MCB_ADDR -> a <> FIRST_MCB_ADDR + 1 -> m' a = m a).

Lemma keeps_refl d m : keeps d m m.
Proof. done. Qed.

Lemma keeps_trans d m m' m'' : keeps d m m' -> keeps d m' m'' -> keeps d m m''.
Proof. intros [H1 H2] [H3 H4]. split; intros; [by rewrite (H3 b), (H1 b)|rewrite H4, H2 by done]; done. Qed.

(** More blocks are a stronger promise. *)
Lemma keeps_sub d d' m m' :
  keeps d' m m' -> heap_base_seg d = heap_base_seg d' ->
  (forall b, b ∈ dos_blocks d -> exists c, c ∈ dos_blocks d' /\ seg c = seg b /\ paras c = paras b) -> keeps d m m'.
Proof.
  intros [H1 H2] Hb Hs. split; [|by rewrite Hb]. intros b a Hb' Hin. destruct (Hs b Hb') as (c&Hc&Hseg&Hp). apply (H1 c); [done|].
  unfold in_block. by rewrite Hseg, Hp.
Qed.

Lemma write_entries_data m cur es s ow n a :
  tiles cur es -> (s, ow, n) ∈ es -> 16 * (s + 1) <= a < 16 * (s + 1 + n) -> write_entries m es a = m a.
Proof.
  revert m cur. induction es as [|[[mcb ow'] n'] es IH]; intros m cur Ht Hin Ha; [by apply elem_of_nil in Hin|].
  destruct Ht as (->&?&?&Ht). cbn [write_entries]. apply elem_of_cons in Hin as [[=->->->]|Hin].
  - rewrite (write_entries_below _ _ _ _ Ht) by lia. apply write_entry_other. lia.
  - rewrite (IH _ _ Ht Hin Ha). apply write_entry_other. right.
    assert (cur + 1 + n' <= s) as Hs; [|lia]. clear -Ht Hin. revert Ht. generalize (cur + 1 + n') as c.
    induction es as [|[[mcb o] k] es IH]; intros c Ht; [by apply elem_of_nil in Hin|]. destruct Ht as (->&_&?&Ht).
    apply elem_of_cons in Hin as [[=->->->]|Hin]; [lia|]. specialize (IH Hin _ Ht). lia.
Qed.

Lemma write_entries_above m cur es a : tiles cur es -> 16 * TOP <= a -> write_entries m es a = m a.
Proof.
  revert m cur. induction es as [|[[mcb ow] n] es IH]; intros m cur Ht Ha; [done|]. destruct Ht as (->&?&?&Ht).
  pose proof (tiles_top _ _ Ht). cbn [write_entries]. rewrite (IH _ _ Ht Ha). apply write_entry_other. lia.
Qed.

Lemma sync_keeps m d : wf d -> keeps d m (sync_mcb_chain m d).
Proof.
  intros Hw. pose proof (wf_base d Hw) as Hb. pose proof (wf_sort d Hw) as Ha.
  pose proof (chain_entries_tiles (heap_base_seg d) _ ltac:(lia) Ha) as Ht. unfold sync_mcb_chain.
  assert (forall a, a <> FIRST_MCB_ADDR -> a <> FIRST_MCB_ADDR + 1 -> set_first_mcb_seg m (heap_base_seg d) a = m a) as Hf.
  { intros a ? ?. unfold set_first_mcb_seg, write16, write8. repeat (case Z.eqb_spec; intros; [lia|]). done. }
  split.
  - intros b a Hin Hab. assert (b ∈ sort_blocks (dos_blocks d)) as Hin' by (by rewrite sort_blocks_perm).
    destruct (arranged_in _ _ _ Ha Hin') as (?&?&?&?). unfold in_block in Hab.
    rewrite (write_entries_data _ _ _ (seg b - 1) (owner b) (paras b) a Ht); [|apply chain_entries_iff; [lia|done|]; left; by exists b|lia].
    apply Hf; change FIRST_MCB_ADDR with 0x800; lia.
  - intros a [Ho|Ho] ? ?.
    + rewrite (write_entries_below _ _ _ _ Ht) by lia. by apply Hf.
    + rewrite (write_entries_above _ _ _ _ Ht) by lia. by apply Hf.
Qed.

Lemma resync_keeps m d m' d' : wf d -> resync m d = Some (m', d') -> keeps d m m'.
Proof.
  intros Hw. unfold resync. rewrite sync_heap_seg_spec by done. cbn [mbind option_bind]. intros [= <- <-].
  eapply keeps_sub; [by apply sync_keeps|done|]. intros b Hb. by exists b.
Qed.

Lemma resync_shape m d m' d' : resync m d = Some (m', d') -> d' = set_heap_seg d (heap_seg d').
Proof. unfold resync, sync_heap_seg. destruct (heap_loop _ _ _); [|done]. cbn [mbind option_bind]. by intros [= _ <-]. Qed.

Lemma alloc_keeps m d need m' d' r :
  wf d -> 0 < need < 0x10000 -> dos_alloc_block m d need = Some (m', d', r) ->
  keeps d m m' /\ wf d' /\ heap_base_seg d' = heap_base_seg d.
Proof.
  intros Hw Hn Ha. destruct (mcb_alloc_spec m d need Hw Hn) as (m1&d1&r1&Ha1&Hw1&_).
  assert (d1 = d') as -> by congruence. clear Ha1 m1 r1.
  unfold dos_alloc_block in Ha. destruct (Z.eqb_spec need 0); [lia|]. cbn [negb andb] in Ha.
  destruct (_ <? need); [by injection Ha as <- <- <-|].
  destruct (alloc_scan _ _ _ _) as [sg|]; [|by injection Ha as <- <- <-].
  set (d1 := set_blocks _ _) in Ha. destruct (resync m d1) as [[m2 d2]|] eqn:Hr; [|done].
  cbn [mbind option_bind] in Ha. injection Ha as -> -> <-.
  pose proof (resync_shape _ _ _ _ Hr) as Hd.
  assert (wf d1) as Hwf1 by (rewrite Hd in Hw1; exact Hw1). split_and!; [|done|by rewrite Hd].
  apply resync_keeps in Hr; [|done]. eapply keeps_sub; [exact Hr|done|].
  intros b Hb. exists b. cbn. set_solver.
Qed.

Lemma free_keeps m d sg m' d' r :
  wf d -> dos_free_block m d sg = Some (m', d', r) ->
  keeps d' m m' /\ forall b, b ∈ dos_blocks d -> seg b <> sg -> b ∈ dos_blocks d'.
Proof.
  intros Hw Hf. destruct (free_spec m d sg Hw) as (m1&d1&r1&Hf1&Hw1&Hr). rewrite Hf in Hf1. injection Hf1 as <- <- <-.
  unfold dos_free_block in Hf. destruct (position sg _) as [idx|].
  - destruct (resync m _) as [[m2 d2]|] eqn:Hs; [|done]. cbn [mbind option_bind] in Hf. injection Hf as -> -> <-.
    pose proof (resync_shape _ _ _ _ Hs) as Hd. split.
    + eapply keeps_sub; [eapply resync_keeps; [|exact Hs]|by rewrite Hd|intros b Hb; exists b; by rewrite Hd in Hb].
      rewrite Hd in Hw1. exact Hw1.
    + destruct Hr as (b&l1&l2&Hbl&Hb&Hbl'&_). rewrite Hbl, Hbl'. intros c Hc Hne. set_solver.
  - injection Hf as -> -> <-. split; [apply keeps_refl|done].
Qed.

Lemma blocks_apart d b c :
  wf d -> b ∈ dos_blocks d -> c ∈ dos_blocks d -> seg b <> seg c -> seg b + paras b < seg c \/ seg c + paras c < seg b.
Proof.
  intros (_&_&bs&Hp&Ha) Hb Hc Hne. rewrite <- Hp in Hb, Hc. destruct (Z.lt_total (seg b) (seg c)) as [?|[?|?]]; [|done|].
  - pose proof (arranged_ordered _ _ _ _ Ha Hb Hc). lia.
  - pose proof (arranged_ordered _ _ _ _ Ha Hc Hb). lia.
Qed.

Lemma in_blocks_disjoint d b c a :
  wf d -> b ∈ dos_blocks d -> c ∈ dos_blocks d -> seg b <> seg c -> in_block b a -> ~ in_block c a.
Proof. intros Hw Hb Hc Hne. pose proof (blocks_apart d b c Hw Hb Hc Hne). unfold in_block. lia. Qed.

(** * Sequences of calls *)

Inductive call :=
  | Alloc (need : Z) | Free (sg : Z) | Resize (sg n : Z)
  | SetOwner (env_seg psp_seg ow : Z) | SetPsp (psp : Z) | Scribble (m : Mem).

(** A call of the program, or a change of the memory it can write. *)
Definition do_call (m : Mem) (d : DosMem) (c : call) : option (Mem * DosMem) :=
  match c with
  | Alloc need => fst <$> dos_alloc_block m d need
  | Free sg => fst <$> dos_free_block m d sg
  | Resize sg n => fst <$> dos_resize_block m d sg n
  | SetOwner e p ow => Some (dos_set_program_block_owner m d e p ow)
  | SetPsp psp => Some (m, set_psp d psp)
  | Scribble m => Some (m, d)
  end.

(** The arguments are 16-bit registers. *)
Definition call_ok (c : call) : Prop :=
  match c with
  | Alloc need => fits 16 need
  | Free sg => fits 16 sg
  | Resize sg n => fits 16 sg /\ fits 16 n
  | SetOwner e p ow => fits 16 ow
  | SetPsp psp => fits 16 psp
  | Scribble _ => True
  end.

Definition mcb_step (a b : Mem * DosMem) : Prop :=
  exists c, call_ok c /\ do_call a.1 a.2 c = Some b.

Lemma call_returns m d c : wf d -> call_ok c -> exists m' d', do_call m d c = Some (m', d') /\ wf d'.
Proof.
  intros Hw. destruct c as [need|sg|sg n|e p ow|psp|m0]; cbn [call_ok do_call]; intros Hc.
  - destruct (decide (need = 0)) as [->|].
    + destruct (alloc_zero_spec m d Hw) as (m'&d'&r&->&?&_). by eauto.
    + destruct (mcb_alloc_spec m d need Hw) as (m'&d'&r&->&?&_); [pow2; lia|]. by eauto.
  - destruct (free_spec m d sg Hw) as (m'&d'&r&->&?&_). by eauto.
  - destruct (resize_spec m d sg n Hw) as (m'&d'&r&->&?&_); [pow2; lia|]. by eauto.
  - eexists _, _. split; [by rewrite (surjective_pairing (dos_set_program_block_owner _ _ _ _ _))|]. by apply owner_spec.
  - eexists _, _. split; [done|]. destruct Hw as (?&_&?). split; [done|]. by split.
  - by eauto.
Qed.

(** * Theorems *)

(** C12: memory blocks never overlap.  From a reset arena, whatever sequence of
    allocations, frees and resizes (functions 48h, 49h and 4Ah with any
    arguments), changes of owner and of current program a DOS program and its
    loader make, and whatever the program writes over the chain in its own
    memory, the blocks and their headers stay disjoint and inside the arena,
    and every further such call returns (the loop that looks for the end of the
    first run of blocks ends).  Function 31h is not among the calls: it does
    not check the size it keeps ([resident_block_overlaps]). *)
Theorem mcb_blocks_disjoint m0 psp m d :
  fits 16 psp -> rtc mcb_step (dos_reset_blocks m0 (mkMem 0 0 [] psp) heap_start) (m, d) ->
  NoDup (seg <$> dos_blocks d) /\
  (forall b c, b ∈ dos_blocks d -> c ∈ dos_blocks d -> seg b < seg c -> seg b + paras b <= seg c - 1) /\
  (forall b, b ∈ dos_blocks d -> heap_start <= seg b - 1 /\ 0 <= paras b /\ seg b + paras b <= TOP) /\
  (forall c, call_ok c -> is_Some (do_call m d c)).
Proof.
  intros Ho Hr. assert (wf d /\ heap_start <= heap_base_seg d) as [Hw Hbase].
  { refine (rtc_invariant mcb_step (fun s => wf s.2 /\ heap_start <= heap_base_seg s.2) _ (m, d) Hr _ _); cycle 1.
    - intros [m1 d1] [m2 d2] (c&Hc&Hd) [Hw _]. destruct (call_returns m1 d1 c Hw Hc) as (m'&d'&Hd'&Hw').
      assert (d' = d2) as <- by (cbn in *; congruence). split; [done|]. apply Hw'.
    - assert (wf (dos_reset_blocks m0 (mkMem 0 0 [] psp) heap_start).2) as Hw by (by apply reset_spec).
      split; [done|]. apply Hw. }
  pose proof Hw as (_&_&bs&Hp&Ha). split_and!.
  - rewrite <- Hp. by eapply arranged_nodup.
  - intros b c. rewrite <- Hp. by eapply arranged_ordered.
  - intros b. rewrite <- Hp. intros Hb. destruct (arranged_in _ _ _ Ha Hb) as (?&?&?&?). lia.
  - intros c Hc. destruct (call_returns m d c Hw Hc) as (m'&d'&->&_). done.
Qed.

Definition zero_mem : Mem := fun _ => 0.

Fixpoint run_allocs (s : Mem * DosMem) (needs : list Z) : option (Mem * DosMem) :=
  match needs with [] => Some s | n :: ns => s' ← do_call s.1 s.2 (Alloc n); run_allocs s' ns end.

Lemma run_allocs_rtc s s' needs : run_allocs s needs = Some s' -> Forall (fits 16) needs -> rtc mcb_step s s'.
Proof.
  revert s. induction needs as [|n ns IH]; intros s Hr Hf; cbn in Hr; [by injection Hr as ->|].
  inversion Hf; subst. destruct (dos_alloc_block _ _ _) as [[s1 r]|] eqn:E; [|done].
  eapply rtc_l; [exists (Alloc n); split; [done|]; cbn; by rewrite E|]. by apply IH.
Qed.

Lemma mcb_blocks_disjoint_witness : exists m d,
  rtc mcb_step (dos_reset_blocks zero_mem (mkMem 0 0 [] 0x70) heap_start) (m, d) /\
  seg <$> dos_blocks d = [0x55B; 0x57C] /\ NoDup (seg <$> dos_blocks d).
Proof.
  destruct (run_allocs (dos_reset_blocks zero_mem (mkMem 0 0 [] 0x70) heap_start) [32; 0x100]) as [[m d]|] eqn:E; [|by vm_compute in E].
  assert (seg <$> dos_blocks d = [0x55B; 0x57C]) as Hs.
  { apply (f_equal (fmap (fun s => seg <$> dos_blocks s.2))) in E. vm_compute in E. by injection E. }
  apply run_allocs_rtc in E; [|by repeat constructor]. exists m, d. split; [done|]. split; [done|].
  by apply (mcb_blocks_disjoint zero_mem 0x70 m d ltac:(by vm_compute) E).
Defined.

(** The chain a program walks is the kernel's list of blocks.  After a
    change the word below the list of lists names the first header, and
    following the headers to the one marked Z visits consecutive regions that
    fill the arena: one for every block, with its size and owner, and in every
    gap a free one, whatever the memory held before. *)
Theorem mcb_chain_reads_back m d :
  wf d ->
  let m' := sync_mcb_chain m d in
  read16 m' FIRST_MCB_ADDR = heap_base_seg d /\
  exists es, walk_chain (Z.to_nat TOP) m' (heap_base_seg d) = Some es /\ tiles (heap_base_seg d) es /\
    (forall b, b ∈ dos_blocks d -> (seg b - 1, owner b, paras b) ∈ es) /\
    (forall s ow n, (s, ow, n) ∈ es ->
       (exists b, b ∈ dos_blocks d /\ (s, ow, n) = (seg b - 1, owner b, paras b)) \/
       (ow = 0 /\ free_run (heap_base_seg d) (dos_blocks d) s (n + 1))).
Proof.
  intros Hw m'. destruct (sync_mirrors m d Hw) as [Hf Hwalk]. split; [done|].
  pose proof (wf_base d Hw). pose proof (wf_sort d Hw) as Ha.
  eexists. split; [exact Hwalk|]. split; [apply chain_entries_tiles; [lia|done]|].
  pose proof (fun e => chain_entries_iff (heap_base_seg d) _ e ltac:(lia) Ha) as Hiff. split.
  - intros b Hb. apply Hiff. left. exists b. by rewrite sort_blocks_perm.
  - intros s ow n He. apply Hiff in He as [(b&Hb&Heq)|(g&len&Hg&?&[=->->->])].
    + left. exists b. by rewrite sort_blocks_perm in Hb.
    + right. split; [done|]. apply (free_run_perm _ (sort_blocks (dos_blocks d))); [by rewrite sort_blocks_perm|].
      apply gaps_free; [done|lia|]. exists g, len. split; [done|lia].
Qed.

Definition sample : DosMem := mkMem heap_start 0x57C [mkBlock 0x55B 32 0x57C; mkBlock 0x800 0x1000 0x70] 0x70.

Lemma sample_wf : wf sample.
Proof.
  apply (wf_intro _ _ _ _ [mkBlock 0x55B 32 0x57C; mkBlock 0x800 0x1000 0x70]); try done; by vm_compute.
Qed.

Lemma mcb_chain_reads_back_witness : wf sample /\
  walk_chain (Z.to_nat TOP) (sync_mcb_chain zero_mem sample) heap_start <> None.
Proof.
  split; [exact sample_wf|].
  destruct (mcb_chain_reads_back zero_mem sample sample_wf) as (_&es&Hes&_). intros Hn.
  change (heap_base_seg sample) with heap_start in Hes. by rewrite Hes in Hn.
Defined.

(** function 48h is first fit and honest about failure.  A request is
    answered with the lowest place where the block and its header fit, which
    becomes a block of the current program; when nothing fits it fails with
    error 8, BX has the size of the largest block that can be had (no larger
    request would fit, and that one does), and nothing changes. *)
Theorem alloc_48_first_fit m d c :
  wf d -> bx (Ldt.regs c) <> 0 ->
  exists m' d' c', alloc_48 m d c = Some (m', d', c') /\
  let need := bx (Ldt.regs c) in
  let s := ax (Ldt.regs c') in
  let free := free_run (heap_base_seg d) (dos_blocks d) in
  if Ldt.cf c' then
    s = 8 /\ m' = m /\ d' = d /\ bx (Ldt.regs c') < need /\
    forall n, 0 < n -> (n <= bx (Ldt.regs c') <-> exists s', free s' (n + 1))
  else
    free (s - 1) (need + 1) /\ (forall s', free s' (need + 1) -> s - 1 <= s') /\
    dos_blocks d' = dos_blocks d ++ [mkBlock s need (current_psp d)] /\ mirrors m' d'.
Proof.
  intros Hw Hn. assert (fits 16 (bx (Ldt.regs c))) as Hf by (apply wrap_fits; lia).
  destruct (mcb_alloc_spec m d (bx (Ldt.regs c)) Hw ltac:(pow2; lia)) as (m'&d'&r&Ha&Hw'&Hr).
  unfold alloc_48. rewrite Ha. cbn [mbind option_bind]. destruct r as [s|avail]; eexists _, _, _; (split; [reflexivity|]); cbn.
  - destruct Hr as (Hfree&Hfirst&Hbl&_&_&Hm). pose proof (wf_base d Hw).
    assert (ax (set_ax (Ldt.regs c) s) = s) as ->.
    { apply low16_read. destruct Hfree as (?&?&_). arena. lia. }
    done.
  - destruct Hr as (->&->&->&Hlt).
    assert (fits 16 (largest_dos_block d)) as Hl.
    { split; [rewrite largest_best by done; apply best_nonneg|]. pow2. lia. }
    assert (bx (set_bx (set_ax (Ldt.regs c) 8) (largest_dos_block d)) = largest_dos_block d) as -> by (by apply low16_read).
    split_and!; try done.
    + change (u16 (low16 (rax (Ldt.regs c)) 8) = 8). apply low16_read. by vm_compute.
    + intros n Hn'. by apply largest_spec.
Qed.

Definition call_48 (need : Z) : Ldt.Cpu := Ldt.mkCpu (mkRegs 0x4800 need 0 0 0 0 0 0 true) 0 0 false.

(** A component of a computed result. *)
Lemma some_component {A B} (f : A -> B) (r : option A) a v : r = Some a -> f <$> r = Some v -> f a = v.
Proof. intros -> [=]. done. Qed.

Lemma alloc_48_first_fit_witness : wf sample /\
  (exists m' d' c', alloc_48 zero_mem sample (call_48 0x300) = Some (m', d', c') /\ ax (Ldt.regs c') = 0x1801) /\
  exists m' d' c', alloc_48 zero_mem sample (call_48 0x9000) = Some (m', d', c') /\ Ldt.cf c' = true /\ d' = sample.
Proof.
  split; [exact sample_wf|]. split.
  - destruct (alloc_48_first_fit zero_mem sample (call_48 0x300) sample_wf) as (m'&d'&c'&Ha&_); [by vm_compute|].
    exists m', d', c'. split; [exact Ha|].
    exact (some_component (fun r => ax (Ldt.regs r.2)) _ _ 0x1801 Ha ltac:(vm_compute; reflexivity)).
  - destruct (alloc_48_first_fit zero_mem sample (call_48 0x9000) sample_wf) as (m'&d'&c'&Ha&Hc); [by vm_compute|].
    exists m', d', c'. split; [exact Ha|].
    pose proof (some_component (fun r => Ldt.cf r.2) _ _ true Ha ltac:(vm_compute; reflexivity)) as Hcf.
    cbn [snd] in Hcf. split; [exact Hcf|]. rewrite Hcf in Hc. apply Hc.
Defined.

(** function 4Ah resizes in place, exactly.  It succeeds when the new size
    ends before the next block's header and before A000h, and changes only
    that block's size; error 8 reports in BX the largest size that would have
    succeeded, error 9 a segment that is not a block's; on an error nothing
    changes. *)
Theorem resize_4A_exact m d c :
  wf d ->
  exists m' d' c', resize_4A m d c = Some (m', d', c') /\
  let sg := u16 (es (Ldt.regs c)) in
  let n := bx (Ldt.regs c) in
  if Ldt.cf c' then
    m' = m /\ d' = d /\
    (ax (Ldt.regs c') = 8 /\ (exists b, b ∈ dos_blocks d /\ seg b = sg) /\ ~ can_resize d sg n /\
     (forall k, 0 <= k -> (can_resize d sg k <-> k <= bx (Ldt.regs c'))) \/
     ax (Ldt.regs c') = 9 /\ forall b, b ∈ dos_blocks d -> seg b <> sg)
  else
    can_resize d sg n /\ mirrors m' d' /\
    exists b l1 l2, seg b = sg /\ dos_blocks d = l1 ++ b :: l2 /\ dos_blocks d' = l1 ++ mkBlock sg n (owner b) :: l2.
Proof.
  intros Hw. assert (fits 16 (bx (Ldt.regs c))) as Hf by (apply wrap_fits; lia).
  destruct (resize_spec m d (u16 (es (Ldt.regs c))) (bx (Ldt.regs c)) Hw ltac:(pow2; lia)) as (m'&d'&r&Ha&Hw'&Hr).
  unfold resize_4A. rewrite Ha. cbn [mbind option_bind]. destruct r as [[]|[err mx]]; eexists _, _, _; (split; [reflexivity|]); cbn.
  - destruct Hr as (Hcan&b&l1&l2&?&?&?&_&_&?). split_and!; try done. by exists b, l1, l2.
  - destruct Hr as (->&->&Hr). split_and!; try done. destruct Hr as [(->&Hb&Hlt&Hk)|(->&->&Hnone)].
    + left. assert (~ mx < 0) as Hneg.
      { destruct Hb as (b&Hb&Hs). enough (0 <= mx) by lia. apply Hk; [lia|].
        pose proof Hw as (_&_&bs&Hp&Hbs). rewrite <- Hp in Hb. destruct (arranged_in _ _ _ Hbs Hb) as (?&?&?&?).
        split; [lia|]. intros c' _ ?. lia. }
      assert (bx (set_bx (set_ax (Ldt.regs c) 8) mx) = mx) as -> by (apply low16_read; pow2; lia).
      split_and!; try done.
      * change (u16 (low16 (rax (Ldt.regs c)) 8) = 8). apply low16_read. by vm_compute.
      * rewrite Hk by (pow2; lia). lia.
    + right. split; [|done]. change (u16 (low16 (rax (Ldt.regs c)) 9) = 9). apply low16_read. by vm_compute.
Qed.

Definition call_4A (sg n : Z) : Ldt.Cpu := Ldt.mkCpu (mkRegs 0x4A00 n 0 0 0 0 0 sg true) 0 0 false.

Lemma resize_4A_exact_witness : wf sample /\
  exists m' d' c', resize_4A zero_mem sample (call_4A 0x55B 0x2A5) = Some (m', d', c') /\
    Ldt.cf c' = true /\ bx (Ldt.regs c') = 0x2A4 /\ d' = sample.
Proof.
  split; [exact sample_wf|].
  destruct (resize_4A_exact zero_mem sample (call_4A 0x55B 0x2A5) sample_wf) as (m'&d'&c'&Ha&Hc).
  exists m', d', c'. split; [exact Ha|].
  pose proof (some_component (fun r => (Ldt.cf r.2, bx (Ldt.regs r.2))) _ _ (true, 0x2A4) Ha ltac:(vm_compute; reflexivity)) as Hcf.
  cbn [snd] in Hcf. injection Hcf as Hcf Hbx. split; [exact Hcf|]. split; [exact Hbx|]. rewrite Hcf in Hc. apply Hc.
Defined.

(** ** Blocks behind a descriptor *)

Lemma bit_build base limit access flags i :
  0 <= i < 64 ->
  Z.testbit (Ldt.build_descriptor base limit access flags) i =
    if i <? 16 then Z.testbit limit i
    else if i <? 40 then Z.testbit base (i - 16)
    else if i <? 48 then Z.testbit access (i - 40)
    else if i <? 52 then Z.testbit limit (i - 32)
    else if i <? 56 then Z.testbit flags (i - 48)
    else Z.testbit base (i - 32).
Proof. revert i. apply below_64. unfold Ldt.build_descriptor. each_bit. Qed.

Lemma build_nonneg base limit access flags : 0 <= Ldt.build_descriptor base limit access flags.
Proof. unfold Ldt.build_descriptor. rewrite !Z.lor_nonneg, !Z.shiftl_nonneg, Z.lor_nonneg. repeat split; apply Z.land_nonneg; by right. Qed.

(** A data descriptor below 1 MB reads back. *)
Lemma data_desc_fields base limit :
  fits 32 base -> fits 20 limit ->
  Ldt.desc_base (Ldt.make_data_desc base limit) = base /\ Ldt.desc_limit (Ldt.make_data_desc base limit) = limit.
Proof.
  intros Hb Hl. unfold Ldt.make_data_desc, Ldt.make_data_desc_ex, Ldt.scale.
  destruct (Z.ltb_spec 0xFFFFF limit); [exfalso; destruct Hl; lia|].
  set (desc := Ldt.build_descriptor _ _ _ _). split.
  - apply (fits_bits_eq 32); [lia|apply fits_desc_base|done|]. intros i Hi.
    rewrite bit_desc_base by lia. unfold desc. rewrite bit_build by (destruct (i <? 24); lia).
    destruct (Z.ltb_spec i 24);
      repeat match goal with |- context [?a <? ?b] => destruct (Z.ltb_spec a b); try lia end; f_equal; lia.
  - assert (Z.testbit desc 55 = false) as H55 by (unfold desc; by rewrite bit_build by lia).
    rewrite desc_limit_eq, H55.
    apply (fits_bits_eq 20); [lia|apply fits_limit_field, build_nonneg|done|]. intros i Hi.
    rewrite bit_limit_field by lia. rewrite (proj2 (Z.ltb_lt i 20)) by lia. cbn [andb]. unfold desc. rewrite bit_build by (destruct (i <? 16); lia).
    destruct (Z.ltb_spec i 16);
      repeat match goal with |- context [?a <? ?b] => destruct (Z.ltb_spec a b); try lia end; f_equal; lia.
Qed.

Lemma sel_of_idx idx : 0 <= idx < Ldt.LDT_ENTRIES -> Ldt.sel_to_idx (Ldt.idx_to_sel idx) = idx /\ fits 16 (Ldt.idx_to_sel idx).
Proof.
  intros Hi. unfold Ldt.LDT_ENTRIES in Hi. unfold Ldt.sel_to_idx, Ldt.idx_to_sel.
  assert (u16 (idx ≪ 3) = idx ≪ 3) as ->.
  { apply Z.mod_small. rewrite Z.shiftl_mul_pow2 by lia. change (2 ^ 3) with 8. pow2. lia. }
  split.
  - rewrite !Z.shiftr_lor, Z.shiftr_shiftl_l by lia. cbn. by rewrite !Z.lor_0_r.
  - repeat apply fits_lor; try lia; try by vm_compute. rewrite Z.shiftl_mul_pow2 by lia. change (2 ^ 3) with 8. pow2. lia.
Qed.

Lemma ldt_bit_unmark words idx j :
  0 <= idx < Ldt.LDT_ENTRIES -> 0 <= j < Ldt.LDT_ENTRIES -> length words = Z.to_nat (Ldt.LDT_ENTRIES / 32) ->
  Ldt.ldt_bit (Ldt.unmark words idx) j = Ldt.ldt_bit words j && negb (bool_decide (j = idx)).
Proof.
  intros Hi Hj Hl. unfold Ldt.LDT_ENTRIES in *. change (8192 / 32) with 256 in Hl. rewrite !ldt_bit_testbit. unfold Ldt.unmark.
  pose proof (Z.div_mod idx 32 ltac:(lia)). pose proof (Z.mod_pos_bound idx 32 ltac:(lia)).
  pose proof (Z.div_mod j 32 ltac:(lia)). pose proof (Z.mod_pos_bound j 32 ltac:(lia)).
  pose proof (Z.div_pos idx 32 ltac:(lia) ltac:(lia)). pose proof (Z.div_pos j 32 ltac:(lia) ltac:(lia)).
  destruct (Z.eq_dec (idx / 32) (j / 32)) as [E|E].
  - rewrite <- E, list_lookup_total_insert_eq by (rewrite Hl; lia).
    rewrite Z.land_spec, testbit_bnot, testbit_bit by lia. do 2 f_equal. apply bool_decide_ext. lia.
  - rewrite list_lookup_total_insert_ne by lia. rewrite bool_decide_eq_false_2 by congruence. by rewrite andb_true_r.
Qed.

(** A block at the end of a list without duplicates is found there. *)
Lemma split_last (l l1 l2 : list DosMemBlock) b c :
  NoDup (seg <$> l ++ [c]) -> l ++ [c] = l1 ++ b :: l2 -> seg b = seg c -> l1 ++ l2 = l.
Proof.
  intros Hn He Hs. destruct l2 as [|x l2 _] using rev_ind.
  - apply app_inj_tail in He as [-> _]. by rewrite app_nil_r.
  - exfalso. assert (l1 ++ b :: l2 ++ [x] = (l1 ++ b :: l2) ++ [x]) as Hx by (by rewrite <- app_assoc).
    rewrite Hx in He. apply app_inj_tail in He as [-> ->].
    rewrite fmap_app, NoDup_app in Hn. destruct Hn as (_&Hn&_). apply (Hn (seg b)); [|set_solver].
    rewrite fmap_app. set_solver.
Qed.

Lemma wf_nodup d : wf d -> NoDup (seg <$> dos_blocks d).
Proof. intros (_&_&bs&Hp&Ha). rewrite <- Hp. by eapply arranged_nodup. Qed.

Lemma alloc_loop_one n i words words' idx :
  Ldt.alloc_loop n i words = Some (words', idx) ->
  i <= idx < i + Z.of_nat n /\ words' = Ldt.mark words idx /\ Ldt.ldt_bit words idx = false.
Proof.
  revert i. induction n as [|n IH]; intros i Ha; cbn [Ldt.alloc_loop] in Ha; [done|].
  destruct (Ldt.ldt_bit words i) eqn:Hb; cbn [negb] in Ha; [apply IH in Ha as (?&?&?)|injection Ha as <- <-]; split_and!; try done; lia.
Qed.

Lemma alloc_ldt_one words words' idx :
  Ldt.alloc_ldt words = Some (words', idx) ->
  16 <= idx < Ldt.LDT_ENTRIES /\ words' = Ldt.mark words idx /\ Ldt.ldt_bit words idx = false.
Proof. intros (?&?&?)%alloc_loop_one. unfold Ldt.LDT_ENTRIES in *. split_and!; try done; lia. Qed.

(** A successful 0100h: the block, the selector and its descriptor. *)
Lemma alloc_0100_spec m d l c m1 d1 l1 c1 :
  wf d -> bx (Ldt.regs c) <> 0 -> alloc_0100 m d l c = Some (m1, d1, l1, c1) -> Ldt.cf c1 = false ->
  exists sg idx, let need := bx (Ldt.regs c) in
    wf d1 /\ free_run (heap_base_seg d) (dos_blocks d) (sg - 1) (need + 1) /\
    dos_blocks d1 = dos_blocks d ++ [mkBlock sg need (current_psp d)] /\
    16 <= idx < Ldt.LDT_ENTRIES /\ Ldt.ldt_bit (Ldt.ldt_alloc l) idx = false /\
    0 < sg < TOP /\ fits 16 need /\ sg + need <= TOP /\
    l1 = Ldt.set_desc (Ldt.set_alloc l (Ldt.mark (Ldt.ldt_alloc l) idx)) idx (Ldt.make_data_desc (16 * sg) (16 * need - 1)) /\
    ax (Ldt.regs c1) = sg /\ dx (Ldt.regs c1) = Ldt.idx_to_sel idx.
Proof.
  intros Hw Hn Ha Hcf. assert (fits 16 (bx (Ldt.regs c))) as Hf by (apply wrap_fits; lia).
  destruct (mcb_alloc_spec m d (bx (Ldt.regs c)) Hw ltac:(pow2; lia)) as (m'&d'&r&Hd&Hw'&Hr).
  unfold alloc_0100 in Ha. rewrite Hd in Ha. cbn [mbind option_bind] in Ha.
  destruct r as [sg|avail]; [|injection Ha as <- <- <- <-; by cbn in Hcf].
  destruct (Ldt.alloc_ldt _) as [[words idx]|] eqn:Hldt.
  2:{ destruct (free_spec m' d' sg Hw') as (m2&d2&r2&Hfr&_). rewrite Hfr in Ha. cbn [mbind option_bind] in Ha.
      injection Ha as <- <- <- <-. by cbn in Hcf. }
  destruct (alloc_ldt_one _ _ _ Hldt) as (Hidx&->&Hfresh).
  destruct (sel_of_idx idx ltac:(lia)) as [_ Hself]. destruct Hr as (Hfree&_&Hbl&_&_&_).
  pose proof (wf_base d Hw).
  assert (0 < sg < TOP /\ sg + bx (Ldt.regs c) <= TOP) as [Hsg Hend] by (destruct Hfree as (?&?&_); pow2; lia).
  replace (u32 (sg * 16)) with (16 * sg) in Ha by (arena; rewrite Z.mod_small; lia).
  replace (sat_sub (sat_mul U32_MAX (bx (Ldt.regs c)) 16) 1) with (16 * bx (Ldt.regs c) - 1) in Ha by (unfold sat_mul; arena; lia).
  injection Ha as <- <- <- <-. exists sg, idx. split_and!; try done; try lia.
  - apply (low16_read (rax (Ldt.regs c))). arena. lia.
  - by apply (low16_read (rdx (Ldt.regs c))).
Qed.

(** 0101h on a selector that spans the last block. *)
Lemma free_0101_spec m d l c sg n ow bl idx :
  wf d -> dos_blocks d = bl ++ [mkBlock sg n ow] -> 0 < sg < TOP -> 16 <= idx < Ldt.LDT_ENTRIES ->
  dx (Ldt.regs c) = Ldt.idx_to_sel idx -> Ldt.ldt_bit (Ldt.ldt_alloc l) idx = true ->
  Ldt.desc_base (Ldt.get_desc l idx) = 16 * sg ->
  exists m' d' c', free_0101 m d l c = Some (m', d', Ldt.free_ldt l idx, c') /\ Ldt.cf c' = false /\ dos_blocks d' = bl.
Proof.
  intros Hw Hbl Hsg Hidx Hdx Hbit Hbase. destruct (sel_of_idx idx ltac:(lia)) as [Hsel _].
  unfold free_0101, Ldt.ldt_is_allocated. rewrite Hdx, Hsel, (proj2 (Z.leb_gt _ _)), Hbit, Hbase by lia. cbn [negb].
  assert (u16 ((16 * sg) ≫ 4) = sg) as ->.
  { rewrite Z.shiftr_div_pow2 by lia. change (2 ^ 4) with 16. rewrite Z.mul_comm, Z.div_mul by lia. arena. apply Z.mod_small. lia. }
  destruct (free_spec m d sg Hw) as (m3&d3&r3&->&_&Hr3). cbn [mbind option_bind]. destruct r3 as [[]|err].
  - destruct Hr3 as (b&k1&k2&Hsplit&Hb&Hbl3&_). eexists _, _, _. split; [reflexivity|]. split; [done|].
    rewrite Hbl3. pose proof (wf_nodup _ Hw) as Hnd. rewrite Hbl in Hsplit, Hnd.
    eapply split_last; [exact Hnd|exact Hsplit|done].
  - exfalso. destruct Hr3 as (_&_&_&Hnone). apply (Hnone (mkBlock sg n ow)); [rewrite Hbl; set_solver|done].
Qed.

(** DOS memory through DPMI comes back.  Function 0100h gives a
    protected-mode client a fresh selector that spans exactly the block it was
    allocated, and function 0101h with that selector, whatever the client did
    to its memory and other registers, succeeds and leaves the blocks and the
    allocated selectors as they were. *)
Theorem dpmi_block_roundtrip m d l c m1 d1 l1 c1 :
  wf d -> ldt_ok l -> bx (Ldt.regs c) <> 0 -> alloc_0100 m d l c = Some (m1, d1, l1, c1) -> Ldt.cf c1 = false ->
  let s := ax (Ldt.regs c1) in
  let idx := Ldt.sel_to_idx (dx (Ldt.regs c1)) in
  let need := bx (Ldt.regs c) in
  free_run (heap_base_seg d) (dos_blocks d) (s - 1) (need + 1) /\
  Ldt.ldt_is_allocated (Ldt.ldt_alloc l) idx = false /\ Ldt.ldt_is_allocated (Ldt.ldt_alloc l1) idx = true /\
  Ldt.desc_base (Ldt.get_desc l1 idx) = 16 * s /\ Ldt.desc_limit (Ldt.get_desc l1 idx) = 16 * need - 1 /\
  forall m' c2, dx (Ldt.regs c2) = dx (Ldt.regs c1) ->
  exists m2 d2 l2 c3, free_0101 m' d1 l1 c2 = Some (m2, d2, l2, c3) /\ Ldt.cf c3 = false /\
    dos_blocks d2 = dos_blocks d /\
    forall j, 0 <= j < Ldt.LDT_ENTRIES -> Ldt.ldt_bit (Ldt.ldt_alloc l2) j = Ldt.ldt_bit (Ldt.ldt_alloc l) j.
Proof.
  intros Hw (Hlen&Hal&_) Hn Ha Hcf.
  destruct (alloc_0100_spec _ _ _ _ _ _ _ _ Hw Hn Ha Hcf) as (sg&idx&Hw1&Hfree&Hbl&Hidx&Hfresh&Hsg&Hf&Hend&->&Hax&Hdx).
  destruct (sel_of_idx idx ltac:(lia)) as [Hsel _]. rewrite Hax, Hdx, Hsel. set (need := bx (Ldt.regs c)) in *. clearbody need. clear Ha.
  assert (forall w, Ldt.ldt_is_allocated w idx = Ldt.ldt_bit w idx) as Hin.
  { intros w. unfold Ldt.ldt_is_allocated. by rewrite (proj2 (Z.leb_gt _ _)) by lia. }
  set (desc := Ldt.make_data_desc _ _).
  destruct (data_desc_fields (16 * sg) (16 * need - 1)) as [Hbase Hlim]; [arena; lia|unfold fits; change (2 ^ 20) with 0x100000; arena; lia|].
  fold desc in Hbase, Hlim. clearbody desc.
  assert (Ldt.get_desc (Ldt.set_desc (Ldt.set_alloc l (Ldt.mark (Ldt.ldt_alloc l) idx)) idx desc) idx = desc) as Hget.
  { unfold Ldt.get_desc. apply list_lookup_total_insert_eq. cbn. rewrite Hlen. lia. }
  assert (Ldt.ldt_bit (Ldt.mark (Ldt.ldt_alloc l) idx) idx = true) as Hmark.
  { by rewrite ldt_bit_mark, bool_decide_eq_true_2, orb_true_r by (done || lia). }
  cbn zeta. rewrite Hget, Hbase, Hlim, !Hin. split_and!; try done.
  intros m2 c2 Hdx2.
  destruct (free_0101_spec m2 d1 (Ldt.set_desc (Ldt.set_alloc l (Ldt.mark (Ldt.ldt_alloc l) idx)) idx desc) c2 sg need (current_psp d) (dos_blocks d) idx Hw1 Hbl Hsg Hidx Hdx2 Hmark ltac:(by rewrite Hget))
    as (m3&d3&c3&->&Hcf3&Hbl3).
  eexists _, _, _, _. split; [reflexivity|]. split_and!; try done. intros j Hj. unfold Ldt.free_ldt.
  rewrite (proj2 (Z.ltb_lt 0 idx)), (proj2 (Z.ltb_lt idx _)) by lia. cbn [andb Ldt.set_desc Ldt.set_alloc Ldt.ldt_alloc].
  rewrite ldt_bit_unmark, ldt_bit_mark by (done || lia || (rewrite length_mark; done)).
  destruct (decide (j = idx)) as [->|].
  - by rewrite bool_decide_eq_true_2, andb_false_r by done.
  - by rewrite bool_decide_eq_false_2, orb_false_r, andb_true_r by done.
Qed.

Definition client : Ldt.DosState := Ldt.install_kernel_ldt_slots 0 0 (fresh_dos (Some (Ldt.mkDpmi true 0))).

Lemma dpmi_block_roundtrip_witness :
  exists m1 d1 l1 c1, alloc_0100 zero_mem sample client (call_48 0x20) = Some (m1, d1, l1, c1) /\
  Ldt.desc_base (Ldt.get_desc l1 (Ldt.sel_to_idx (dx (Ldt.regs c1)))) = 16 * ax (Ldt.regs c1).
Proof.
  assert (ldt_ok client) as Hl by (apply ldt_ok_install, fresh_dos_ok).
  destruct (alloc_0100 zero_mem sample client (call_48 0x20)) as [[[[m1 d1] l1] c1]|] eqn:E.
  - pose proof (some_component (fun r => Ldt.cf r.2) _ _ false E ltac:(vm_compute; reflexivity)) as Hcf. cbn [snd] in Hcf.
    destruct (dpmi_block_roundtrip zero_mem sample client (call_48 0x20) m1 d1 l1 c1 sample_wf Hl ltac:(by vm_compute) E Hcf)
      as (_&_&_&Hb&_).
    exists m1, d1, l1, c1. split; [reflexivity|exact Hb].
  - pose proof (f_equal (fun o => match o with Some _ => true | None => false end) E) as Hs.
    vm_compute in Hs. discriminate Hs.
Defined.

(** Function 31h clips the resident block to A000h only, not to the next
    block.  A program that keeps more than it owns below a live block gets a
    block over that one, and the search for free memory, which restarts at the
    end of the inner block, hands out memory of the resident program. *)
Lemma resident_block_overlaps :
  ('(m, d) ← dos_keep_resident_block zero_mem sample 0x600 0x8000 0x600; snd <$> dos_alloc_block m d 0x100)
  = Some (inl 0x1801).
Proof. vm_compute. reflexivity. Qed.

(** A request for no memory is granted a segment but no block, so the next
    request is granted the same one. *)
Lemma alloc_zero_reuses :
  ('(m, d, r) ← dos_alloc_block zero_mem sample 0; '(_, _, r') ← dos_alloc_block m d 0x10; Some (r, r'))
  = Some (inl 0x57C, inl 0x57C).
Proof. vm_compute. reflexivity. Qed.
