(* ===== verification/Exe.v ===== *)
(** Loading DOS programs: the program segment prefix, the environment and the
    .COM and MZ loaders of kernel/src/kernel/dos/dos.rs, with the environment
    snapshot of dos/mod.rs, over the memory blocks of Mcb.

    A file is the list of its bytes.  [None] is a panic of the kernel, except
    in [load_exe] and [load_overlay], where a refused file is [Refused]. *)

From Stdlib Require Import ZArith Lia Bool.
From stdpp Require Import base option list numbers sets relations.
From S2P Require Import Prelude Guest Ldt Mcb.

Module Exe.

Import Mcb.

(** * Guest memory *)

Definition copy_to (m : Mem) (addr : Z) (bytes : list Z) : Mem :=
  fun a => if (addr <=? a) && (a <? addr + Z.of_nat (length bytes)) then bytes !!! Z.to_nat (a - addr) else m a.

Definition zero (m : Mem) (addr len : Z) : Mem :=
  fun a => if (addr <=? a) && (a <? addr + len) then 0 else m a.

(** [seg << 4] *)
Definition para (sg : Z) : Z := u32 (sg ≪ 4).

(** * The environment *)

Definition ENV_PARAS : Z := 32.
Definition COM_OFFSET : Z := 0x100.
Definition COM_SP : Z := 0xFFFE.

(** [env[off] = b] *)
Definition set_at (env : list Z) (off : nat) (b : Z) : option (list Z) :=
  if (off <? length env)%nat then Some (<[off := b]> env) else None.

(** The loop over the parent's variables; [parent] is what is left of them. *)
Fixpoint copy_vars (parent : list Z) (vars_cap off : nat) (prev_was_nul : bool) (env : list Z) : option (list Z * nat) :=
  match parent with
  | [] => Some (env, off)
  | b :: rest =>
      if (off <? vars_cap)%nat then
        env ← set_at env off b;
        if (b =? 0) && prev_was_nul then Some (env, S off)
        else copy_vars rest vars_cap (S off) (b =? 0) env
      else Some (env, off)
  end.

(** The loop over the program's name. *)
Fixpoint copy_name (name : list Z) (off : nat) (env : list Z) : option (list Z * nat) :=
  match name with
  | [] => Some (env, off)
  | b :: rest =>
      if (length env <=? off + 1)%nat then Some (env, off)
      else env ← set_at env off b; copy_name rest (S off) env
  end.

Definition fill_env (env parent_env prog_name : list Z) : option (list Z) :=
  let env := replicate (length env) 0 in
  let suffix_need := (2 + length prog_name + 1)%nat in
  let vars_cap := (length env - suffix_need)%nat in
  '(env, off) ← copy_vars parent_env vars_cap 0 false env;
  env ← set_at env off 1;
  env ← set_at env (off + 1) 0;
  '(env, off) ← copy_name prog_name (off + 2) env;
  set_at env off 0.

(** The loop of [snapshot_env], [n] bytes left of its 32768. *)
Fixpoint snapshot_loop (n : nat) (m : Mem) (a : Z) (prev_was_nul : bool) : list Z :=
  match n with
  | O => []
  | S n =>
      let b := m a in
      if (b =? 0) && prev_was_nul then [b] else b :: snapshot_loop n m (a + 1) (b =? 0)
  end.

Definition snapshot_env (m : Mem) (env_seg : Z) : list Z := snapshot_loop (Z.to_nat 32768) m (env_seg ≪ 4) false.

Definition is_ws (b : Z) : bool := (b =? 32) || (b =? 9) || (b =? 13).

Fixpoint skip_ws (s : list Z) : list Z :=
  match s with [] => [] | b :: rest => if is_ws b then skip_ws rest else s end.

Definition trim_ws (s : list Z) : list Z := rev (skip_ws (rev (skip_ws s))).

(** [config.split(|&b| b == b'\n')] *)
Fixpoint split_lines (s : list Z) : list (list Z) :=
  match s with
  | [] => [[]]
  | b :: rest =>
      match split_lines rest with
      | l :: ls => if b =? 10 then [] :: l :: ls else (b :: l) :: ls
      | [] => [[b]]
      end
  end.

(** What a line of the configuration adds to the environment. *)
Definition config_entry (line : list Z) : list Z :=
  let line := trim_ws line in
  match line with
  | [] => []
  | b :: _ =>
      if (b =? 35) || (b =? 59) then []
      else
        match list_find (fun b => b = 61) line with
        | None => []
        | Some (eq, _) =>
            let key := trim_ws (take eq line) in
            match key with
            | [] => []
            | _ => key ++ [61] ++ trim_ws (drop (S eq) line) ++ [0]
            end
        end
  end.

Definition parse_config_env (config : list Z) : list Z :=
  mjoin (config_entry <$> split_lines config) ++ [0].

(** * The program segment prefix *)

Definition PSP_TOP_OF_MEM : Z := 0x02.
Definition PSP_PARENT : Z := 0x16.
Definition PSP_JFT : Z := 0x18.
Definition PSP_ENV : Z := 0x2C.
Definition PSP_MAX_FILES : Z := 0x32.
Definition PSP_JFT_OFF : Z := 0x34.
Definition PSP_JFT_SEG : Z := 0x36.
Definition PSP_CMDLINE_LEN : Z := 0x80.
Definition PSP_CMDLINE : Z := 0x81.
Definition PSP_JFT_LEN : Z := 20.

(** The 256 bytes of a [Psp]; the fields without a name here are zero. *)
Record Psp := mkPsp {
  int_20 : list Z; top_of_mem : Z; parent_psp : Z; jft : list Z; env_seg : Z; max_files : Z;
  jft_far_off : Z; jft_far_seg : Z; cmdline_len : Z; cmdline : list Z
}.

Definition le16 (v : Z) : list Z := [u8 v; u8 (v ≫ 8)].

Definition psp_bytes (p : Psp) : list Z :=
  int_20 p ++ le16 (top_of_mem p) ++ replicate 18 0 ++ le16 (parent_psp p) ++ jft p ++ le16 (env_seg p)
  ++ replicate 4 0 ++ le16 (max_files p) ++ le16 (jft_far_off p) ++ le16 (jft_far_seg p)
  ++ replicate 72 0 ++ [cmdline_len p] ++ cmdline p.

Definition psp_base (psp_seg : Z) : Z := para psp_seg.
Definition psp_store (m : Mem) (psp_seg : Z) (p : Psp) : Mem := copy_to m (psp_base psp_seg) (psp_bytes p).
Definition psp_env_seg (m : Mem) (psp_seg : Z) : Z := read16 m (psp_base psp_seg + PSP_ENV).

Definition jft_addr (m : Mem) (psp_seg : Z) : Z :=
  let base := psp_base psp_seg in
  u32 ((read16 m (base + PSP_JFT_SEG) ≪ 4) + read16 m (base + PSP_JFT_OFF)).

Definition psp_max_files (m : Mem) (psp_seg : Z) : Z := read16 m (psp_base psp_seg + PSP_MAX_FILES).

Definition external_jft_seg (m : Mem) (psp_seg : Z) : option Z :=
  let base := psp_base psp_seg in
  let off := read16 m (base + PSP_JFT_OFF) in
  let sg := read16 m (base + PSP_JFT_SEG) in
  if (off =? 0x18) && (sg =? psp_seg) then None else Some sg.

Definition set_jft_location (m : Mem) (psp_seg count off sg : Z) : Mem :=
  let base := psp_base psp_seg in
  write16 (write16 (write16 m (base + PSP_MAX_FILES) count) (base + PSP_JFT_OFF) off) (base + PSP_JFT_SEG) sg.

(** [Err(JftFull)] is [None]. *)
Definition set_jft (m : Mem) (psp_seg idx val : Z) : option Mem :=
  if psp_max_files m psp_seg <=? idx then None else Some (write8 m (jft_addr m psp_seg + idx) val).

Definition clear_jft (m : Mem) (psp_seg idx : Z) : Mem := default m (set_jft m psp_seg idx 0xFF).

Definition set_cmdline (m : Mem) (psp_seg : Z) (tail : list Z) : Mem :=
  let n := Nat.min (length tail) 126 in
  let base := psp_base psp_seg in
  let m := write8 m (base + PSP_CMDLINE_LEN) (u8 (Z.of_nat n)) in
  let cmd := base + PSP_CMDLINE in
  write8 (copy_to m cmd (take n tail)) (cmd + Z.of_nat n) 0x0D.

Definition new_psp (psp_seg env_sg parent : Z) : Psp :=
  mkPsp [0xCD; 0x20] 0xA000 parent ([0; 1; 2] ++ replicate 17 0xFF) env_sg 20 0x18 psp_seg 0 (0x0D :: replicate 126 0).

Definition init_psp (m : Mem) (psp_seg env_sg parent : Z) : Mem := psp_store m psp_seg (new_psp psp_seg env_sg parent).

(** ** Function 67h: set handle count *)

(** [MAX_FDS] of the kernel thread *)
Definition MAX_FDS : Z := 64.

(** [for i in 0..n] *)
Fixpoint fill_ff (n : nat) (m : Mem) (addr : Z) : Mem :=
  match n with O => m | S n => write8 (fill_ff n m addr) (addr + Z.of_nat n) 0xFF end.

Fixpoint copy_jft (n : nat) (m : Mem) (old_addr new_addr : Z) : Mem :=
  match n with
  | O => m
  | S n => let m := copy_jft n m old_addr new_addr in
      write8 m (new_addr + Z.of_nat n) (m (old_addr + Z.of_nat n))
  end.

Definition handles_67 (m : Mem) (d : DosMem) (c : Ldt.Cpu) : option (Mem * DosMem * Ldt.Cpu) :=
  let r := Ldt.regs c in
  let requested := bx r in
  let psp_seg := current_psp d in
  if requested <=? PSP_JFT_LEN then Some (m, d, Ldt.clear_carry c)
  else if requested <=? MAX_FDS then
    let old_count := psp_max_files m psp_seg in
    let old_addr := jft_addr m psp_seg in
    let old_external_seg := external_jft_seg m psp_seg in
    '(m, d, res) ← dos_alloc_block m d (div_ceil requested 16);
    match res with
    | inl new_seg =>
        let new_addr := u32 (new_seg ≪ 4) in
        let m := fill_ff (Z.to_nat requested) m new_addr in
        let m := copy_jft (Z.to_nat (Z.min old_count requested)) m old_addr new_addr in
        let m := set_jft_location m psp_seg requested 0 new_seg in
        '(m, d) ← match old_external_seg with
                  | Some old_seg => fst <$> dos_free_block m d old_seg
                  | None => Some (m, d)
                  end;
        Some (m, d, Ldt.clear_carry c)
    | inr _ => Some (m, d, Ldt.set_carry (Ldt.set_regs c (set_ax r 8)))
    end
  else Some (m, d, Ldt.set_carry (Ldt.set_regs c (set_ax r 8))).

(** * The loaders *)

Record ParentRef := mkParent { p_psp_seg : Z; p_env : list Z }.

Record Loaded := mkLoaded {
  l_env_seg : Z; l_psp_seg : Z; l_cs : Z; l_ip : Z; l_ss : Z; l_sp : Z; l_end_seg : Z
}.

Definition is_mz_exe (data : list Z) : bool :=
  (28 <=? length data)%nat && (data !!! 0%nat =? 77) && (data !!! 1%nat =? 90).

Definition alloc_program_blocks (m : Mem) (d : DosMem) (prog_paras : Z) : option (Mem * DosMem * (Z * Z * Z + unit)) :=
  '(m, d, res) ← dos_alloc_block m d ENV_PARAS;
  match res with
  | inr _ => Some (m, d, inr tt)
  | inl env_sg =>
      '(m, d, res) ← dos_alloc_block m d prog_paras;
      match res with
      | inr _ => Some (m, d, inr tt)
      | inl psp_seg => Some (m, d, inl (env_sg, psp_seg, u16 (psp_seg + prog_paras)))
      end
  end.

(** The environment, the prefix and the owner of the new blocks.  The sound
    cards read their settings from the same environment; their state is not
    part of the memory. *)
Definition populate_program (m : Mem) (d : DosMem) (env_sg psp_seg : Z) (parent : ParentRef) (prog_name : list Z)
    : option (Mem * DosMem) :=
  env ← fill_env (replicate (Z.to_nat (ENV_PARAS * 16)) 0) (p_env parent) prog_name;
  let m := copy_to m (para env_sg) env in
  let m := init_psp m psp_seg env_sg (p_psp_seg parent) in
  Some (dos_set_program_block_owner m (set_psp d psp_seg) env_sg psp_seg psp_seg).

Definition load_com (m : Mem) (d : DosMem) (parent : ParentRef) (data prog_name : list Z) : option (Mem * DosMem * Loaded) :=
  '(m, d, res) ← alloc_program_blocks m d 0x1000;
  match res with
  | inr _ => None
  | inl (env_sg, psp_seg, end_seg) =>
      '(m, d) ← populate_program m d env_sg psp_seg parent prog_name;
      let load_addr := u32 (para psp_seg + COM_OFFSET) in
      Some (copy_to m load_addr data, d, mkLoaded env_sg psp_seg psp_seg COM_OFFSET psp_seg COM_SP end_seg)
  end.

(** The word of a file at [off]. *)
Definition w (data : list Z) (off : Z) : Z := data !!! Z.to_nat off + 256 * (data !!! Z.to_nat (off + 1)).

(** The size of the file and of the header, as the header gives them. *)
Definition mz_file_size (data : list Z) : Z :=
  let last_page_bytes := w data 0x02 in
  let total_pages := w data 0x04 in
  if last_page_bytes =? 0 then u32 (total_pages * 512)
  else u32 (u32 (u32 (total_pages - 1) * 512) + last_page_bytes).
Definition mz_header_size (data : list Z) : Z := u32 (w data 0x08 * 16).
Definition mz_load_size (data : list Z) : Z := sat_sub (mz_file_size data) (mz_header_size data).

(** One relocation: [add] is added to the word the entry names. *)
Definition relocate_one (data : list Z) (load_base add : Z) (m : Mem) (i : Z) : Mem :=
  let entry := w data 0x18 + i * 4 in
  let addr := u32 (u32 (load_base + (w data (entry + 2) ≪ 4)) + w data entry) in
  write16 m addr (u16 (read16 m addr + add)).

(** [for i in 0..reloc_count] *)
Fixpoint relocate (data : list Z) (load_base add : Z) (n : nat) (m : Mem) : Mem :=
  match n with
  | O => m
  | S n => relocate_one data load_base add (relocate data load_base add n m) (Z.of_nat n)
  end.

Definition slice (data : list Z) (off len : Z) : list Z := take (Z.to_nat len) (drop (Z.to_nat off) data).

(** [Ok(Some _)], or the state a refused file leaves behind. *)
Inductive LoadResult := Done (m : Mem) (d : DosMem) (l : Loaded) | Refused (m : Mem) (d : DosMem).

Definition load_exe (m : Mem) (d : DosMem) (parent : ParentRef) (data prog_name : list Z) : option LoadResult :=
  let len := Z.of_nat (length data) in
  if len <? 28 then Some (Refused m d)
  else
    let header_size := mz_header_size data in
    let load_size := mz_load_size data in
    if (len <? header_size) || (len - header_size <? load_size) then Some (Refused m d)
    else
      let load_paras := u16 (div_ceil load_size 16) in
      '(m, d, res) ← dos_alloc_block m d ENV_PARAS;
      match res with
      | inr _ => Some (Refused m d)
      | inl env_sg =>
          let avail := largest_dos_block d in
          let base_paras := sat_add U16_MAX 0x10 load_paras in
          let floor := sat_add U16_MAX base_paras (w data 0x0A) in
          if avail <? floor then Some (Refused m d)
          else
            let prog_paras := Z.max (Z.min (sat_add U16_MAX base_paras (w data 0x0C)) avail) floor in
            '(m, d, res) ← dos_alloc_block m d prog_paras;
            match res with
            | inr _ => Some (Refused m d)
            | inl psp_seg =>
                let end_seg := u16 (psp_seg + prog_paras) in
                '(m, d) ← populate_program m d env_sg psp_seg parent prog_name;
                let load_segment := u16 (psp_seg + 0x10) in
                let load_base := para load_segment in
                let m := copy_to m load_base (slice data header_size load_size) in
                let bss_start := u32 (load_base + load_size) in
                let bss_end := para end_seg in
                let m := if bss_start <? bss_end then zero m bss_start (bss_end - bss_start) else m in
                let reloc_count := w data 0x06 in
                if len <? w data 0x18 + reloc_count * 4 then Some (Refused m d)
                else
                  let m := relocate data load_base load_segment (Z.to_nat reloc_count) m in
                  Some (Done m d (mkLoaded env_sg psp_seg (u16 (w data 0x16 + load_segment)) (w data 0x14)
                                    (u16 (w data 0x0E + load_segment)) (w data 0x10) end_seg))
            end
      end.

(** The image part of function 4B03h: the file is placed at the caller's
    segment; [None] is error 11. *)
Definition load_overlay (m : Mem) (load_seg reloc_factor : Z) (buf : list Z) : option Mem :=
  let load_base := para load_seg in
  if is_mz_exe buf then
    let len := Z.of_nat (length buf) in
    let header_size := mz_header_size buf in
    let load_size := mz_load_size buf in
    if (len <? header_size) || (len - header_size <? load_size) || (len <? w buf 0x18 + w buf 0x06 * 4) then None
    else
      let m := copy_to m load_base (slice buf header_size load_size) in
      Some (relocate buf load_base reloc_factor (Z.to_nat (w buf 0x06)) m)
  else Some (copy_to m load_base buf).

End Exe.

Import Mcb Exe.

(** * The environment *)

(** The bytes of [parent] that fit in [room] bytes, up to the end of the block. *)
Fixpoint vars_taken (parent : list Z) (room : nat) (prev : bool) : list Z :=
  match parent, room with
  | b :: rest, S r => b :: (if (b =? 0) && prev then [] else vars_taken rest r (b =? 0))
  | _, _ => []
  end.

(** An environment block: it ends at its first double NUL. *)
Fixpoint terminated (vars : list Z) (prev : bool) : bool :=
  match vars with
  | [] => false
  | b :: rest => if (b =? 0) && prev then bool_decide (rest = []) else terminated rest (b =? 0)
  end.

Lemma set_at_pad pre k b : set_at (pre ++ replicate (S k) 0) (length pre) b = Some (pre ++ b :: replicate k 0).
Proof.
  unfold set_at. rewrite length_app, length_replicate. rewrite (proj2 (Nat.ltb_lt _ _)) by lia. f_equal.
  rewrite insert_app_r_alt, Nat.sub_diag by done. done.
Qed.

Lemma vars_taken_length parent room prev : (length (vars_taken parent room prev) <= room)%nat.
Proof.
  revert room prev. induction parent as [|b rest IH]; intros [|r] prev; cbn; try lia.
  destruct (_ && _); cbn; [lia|]. specialize (IH r (b =? 0)). lia.
Qed.

Lemma copy_vars_spec parent cap pre k prev :
  (cap <= length pre + k)%nat ->
  let t := vars_taken parent (cap - length pre) prev in
  copy_vars parent cap (length pre) prev (pre ++ replicate k 0) =
    Some (pre ++ t ++ replicate (k - length t) 0, (length pre + length t)%nat).
Proof.
  revert pre k prev. induction parent as [|b rest IH]; intros pre k prev Hc; cbn [copy_vars]; cbn zeta.
  - cbn. by rewrite Nat.sub_0_r, Nat.add_0_r.
  - destruct (Nat.ltb_spec (length pre) cap).
    + destruct k as [|k]; [lia|]. rewrite set_at_pad. cbn [mbind option_bind].
      replace (cap - length pre)%nat with (S (cap - S (length pre))) by lia.
      cbn [vars_taken]. destruct ((b =? 0) && prev) eqn:E.
      * cbn. rewrite Nat.sub_0_r. do 2 f_equal. lia.
      * specialize (IH (pre ++ [b]) k (b =? 0)). rewrite length_app in IH. cbn [length] in IH.
        rewrite Nat.add_1_r in IH. rewrite <- app_assoc in IH. cbn [app] in IH. rewrite IH by lia.
        cbn. rewrite <- app_assoc. cbn. do 2 f_equal. lia.
    + replace (cap - length pre)%nat with O by lia. cbn. by rewrite Nat.sub_0_r, Nat.add_0_r.
Qed.

Lemma copy_name_spec name pre k :
  (1 <= k)%nat ->
  let t := take (k - 1) name in
  copy_name name (length pre) (pre ++ replicate k 0) =
    Some (pre ++ t ++ replicate (k - length t) 0, (length pre + length t)%nat).
Proof.
  revert pre k. induction name as [|b rest IH]; intros pre k Hk; cbn [copy_name]; cbn zeta.
  - rewrite take_nil. cbn. by rewrite Nat.sub_0_r, Nat.add_0_r.
  - rewrite length_app, length_replicate. destruct (Nat.leb_spec (length pre + k) (length pre + 1)).
    + replace (k - 1)%nat with O by lia. cbn. by rewrite Nat.sub_0_r, Nat.add_0_r.
    + destruct k as [|[|k]]; [lia..|]. rewrite set_at_pad. cbn [mbind option_bind].
      specialize (IH (pre ++ [b]) (S k) ltac:(lia)). rewrite length_app in IH. cbn [length] in IH.
      rewrite Nat.add_1_r in IH. rewrite <- app_assoc in IH. cbn [app] in IH. rewrite IH.
      cbn. rewrite <- app_assoc. cbn. rewrite Nat.sub_0_r. do 2 f_equal. lia.
Qed.

(** The child's environment: the variables that fit, the word 1, the name. *)
Lemma fill_env_spec env pe name :
  (3 <= length env)%nat ->
  let t := vars_taken pe (length env - (2 + length name + 1)) false in
  let nm := take (length env - 3 - length t) name in
  let r := t ++ [1; 0] ++ nm ++ replicate (length env - 2 - length t - length nm) 0 in
  fill_env env pe name = Some r /\ length r = length env.
Proof.
  intros Hl. set (cap := (length env - (2 + length name + 1))%nat). cbn zeta.
  pose proof (vars_taken_length pe cap false) as Ht. set (t := vars_taken pe cap false) in *.
  assert (length t + 3 <= length env)%nat as Htl by lia.
  set (nm := take _ name). assert (length nm <= length env - 3 - length t)%nat as Hnm.
  { unfold nm. rewrite length_take. lia. }
  split.
  2:{ rewrite !length_app, length_replicate. cbn. lia. }
  unfold fill_env. rewrite length_replicate. fold cap.
  pose proof (copy_vars_spec pe cap [] (length env) false ltac:(cbn; lia)) as Hc. cbn [length app] in Hc.
  rewrite Nat.sub_0_r in Hc. cbn zeta in Hc. rewrite Hc. fold t. cbn [mbind option_bind]. rewrite Nat.add_0_l.
  replace (length env - length t)%nat with (S (S (length env - 2 - length t))) by lia.
  rewrite set_at_pad. cbn [mbind option_bind].
  replace (t ++ 1 :: replicate (S (length env - 2 - length t)) 0)
    with ((t ++ [1]) ++ replicate (S (length env - 2 - length t)) 0) by (by rewrite <- app_assoc).
  replace (length t + 1)%nat with (length (t ++ [1])) by (rewrite length_app; cbn; lia).
  rewrite set_at_pad. cbn [mbind option_bind].
  replace ((t ++ [1]) ++ 0 :: replicate (length env - 2 - length t) 0)
    with ((t ++ [1; 0]) ++ replicate (length env - 2 - length t) 0) by (by rewrite <- !app_assoc).
  replace (length t + 2)%nat with (length (t ++ [1; 0])) by (rewrite length_app; cbn; lia).
  rewrite copy_name_spec by lia. cbn [mbind option_bind].
  replace (length env - 2 - length t - 1)%nat with (length env - 3 - length t)%nat by lia. fold nm.
  replace (length env - 2 - length t - length nm)%nat with (S (length env - 3 - length t - length nm)) by lia.
  rewrite app_assoc, <- length_app. rewrite set_at_pad. f_equal. cbn [replicate]. by rewrite <- !app_assoc.
Qed.

Lemma taken_terminated vars room prev : terminated vars prev = true -> (length vars <= room)%nat -> vars_taken vars room prev = vars.
Proof.
  revert room prev. induction vars as [|b rest IH]; intros [|r] prev Ht Hl; cbn in *; try done; try lia.
  destruct (_ && _); [by apply bool_decide_eq_true in Ht as ->|]. f_equal. apply IH; [done|lia].
Qed.

Lemma snapshot_terminated vars n m a prev :
  terminated vars prev = true -> (length vars <= n)%nat ->
  (forall i : nat, (i < length vars)%nat -> m (a + Z.of_nat i) = vars !!! i) -> snapshot_loop n m a prev = vars.
Proof.
  revert n a prev. induction vars as [|b rest IH]; intros [|n] a prev Ht Hl Hm; cbn in *; try done; try lia.
  pose proof (Hm 0%nat ltac:(lia)) as H0. rewrite Z.add_0_r in H0. cbn in H0. rewrite H0.
  destruct (_ && _); [by apply bool_decide_eq_true in Ht as ->|]. f_equal. apply IH; [done|lia|].
  intros i Hi. etransitivity; [|exact (Hm (S i) ltac:(lia))]. f_equal. lia.
Qed.

(** * Memory *)

Lemma copy_to_in m addr bytes i :
  (i < length bytes)%nat -> copy_to m addr bytes (addr + Z.of_nat i) = bytes !!! i.
Proof.
  intros Hi. unfold copy_to. rewrite (proj2 (Z.leb_le _ _)), (proj2 (Z.ltb_lt _ _)) by lia. cbn [andb].
  f_equal. lia.
Qed.

Lemma copy_to_out m addr bytes a :
  a < addr \/ addr + Z.of_nat (length bytes) <= a -> copy_to m addr bytes a = m a.
Proof.
  intros Ha. unfold copy_to. destruct (Z.leb_spec addr a), (Z.ltb_spec a (addr + Z.of_nat (length bytes))); cbn [andb]; done || lia.
Qed.

Lemma zero_out m addr len a : a < addr \/ addr + len <= a -> zero m addr len a = m a.
Proof. intros Ha. unfold zero. destruct (Z.leb_spec addr a), (Z.ltb_spec a (addr + len)); cbn [andb]; done || lia. Qed.

Lemma write16_out m addr v a : a <> addr -> a <> addr + 1 -> write16 m addr v a = m a.
Proof. intros. unfold write16, write8. repeat (case Z.eqb_spec; intros; [lia|]). done. Qed.

Lemma le16_read v : fits 16 v -> u8 v + 256 * u8 (v ≫ 8) = v.
Proof.
  intros Hv. rewrite Z.shiftr_div_pow2 by lia. change (2 ^ 8) with 256. pow2.
  rewrite (Z.mod_small (_ / 256)) by (split; [apply Z.div_pos|apply Z.div_lt_upper_bound]; lia).
  pose proof (Z.div_mod v 256). lia.
Qed.

Lemma read16_write16 m addr v : fits 16 v -> read16 (write16 m addr v) addr = v.
Proof.
  intros Hv. unfold read16, write16, write8. rewrite !Z.eqb_refl. destruct (Z.eqb_spec addr (addr + 1)); [lia|].
  by apply le16_read.
Qed.

Lemma para_eq sg : fits 16 sg -> para sg = 16 * sg.
Proof. intros Hs. unfold para. rewrite Z.shiftl_mul_pow2 by lia. change (2 ^ 4) with 16. pow2. rewrite Z.mod_small; lia. Qed.

Lemma word_of_bytes m base (bytes : list Z) k v :
  (forall i, (i < 256)%nat -> m (base + Z.of_nat i) = bytes !!! i) -> (S k < 256)%nat ->
  bytes !!! k = u8 v -> bytes !!! S k = u8 (v ≫ 8) -> fits 16 v -> read16 m (base + Z.of_nat k) = v.
Proof.
  intros Hm Hk H1 H2 Hv. unfold read16. replace (base + Z.of_nat k + 1) with (base + Z.of_nat (S k)) by lia.
  rewrite !Hm, H1, H2 by lia. by apply le16_read.
Qed.

Lemma psp_bytes_length p : length (int_20 p) = 2%nat -> length (jft p) = 20%nat -> length (cmdline p) = 127%nat -> length (psp_bytes p) = 256%nat.
Proof. intros H1 H2 H3. unfold psp_bytes. rewrite !length_app, !length_replicate, H1, H2, H3. done. Qed.

(** Changes confined to the blocks [e] and [p]. *)
Definition keeps_but (d : DosMem) (e p : Z) (m m' : Mem) : Prop :=
  (forall b a, b ∈ dos_blocks d -> seg b <> e -> seg b <> p -> in_block b a -> m' a = m a) /\
  (forall a, a < 16 * heap_base_seg d \/ 16 * TOP <= a -> a <> FIRST_MCB_ADDR -> a <> FIRST_MCB_ADDR + 1 -> m' a = m a).

Lemma keeps_but_trans d e p m m' m'' : keeps_but d e p m m' -> keeps_but d e p m' m'' -> keeps_but d e p m m''.
Proof. intros [H1 H2] [H3 H4]. split; intros; [by rewrite (H3 b), (H1 b)|by rewrite H4, H2]. Qed.

Lemma keeps_keeps_but d e p m m' : keeps d m m' -> keeps_but d e p m m'.
Proof. intros [H1 H2]. split; eauto. Qed.

(** Blocks up to their owners. *)
Definition shape (l : list DosMemBlock) : list (Z * Z) := (fun b => (seg b, paras b)) <$> l.

Lemma shape_in l l' b : shape l = shape l' -> b ∈ l -> exists c, c ∈ l' /\ seg c = seg b /\ paras c = paras b.
Proof.
  intros Hs Hb. assert ((seg b, paras b) ∈ shape l') as (c&[=]&?)%list_elem_of_fmap; [|by exists c].
  rewrite <- Hs. apply list_elem_of_fmap. by exists b.
Qed.

Lemma keeps_but_shape d d' e p m m' :
  shape (dos_blocks d) = shape (dos_blocks d') -> heap_base_seg d = heap_base_seg d' ->
  keeps_but d' e p m m' -> keeps_but d e p m m'.
Proof.
  intros Hs Hb [H1 H2]. split; [|by rewrite Hb]. intros b a Hin He Hp Ha.
  destruct (shape_in _ _ _ Hs Hin) as (c&?&Hc&Hpc). apply (H1 c); try done; [congruence..|].
  unfold in_block. by rewrite Hc, Hpc.
Qed.

(** A write inside one of the two blocks. *)
Lemma write_inside d e p b m m' :
  wf d -> b ∈ dos_blocks d -> seg b = e \/ seg b = p -> (forall a, ~ in_block b a -> m' a = m a) -> keeps_but d e p m m'.
Proof.
  intros Hw Hb Hep Ho. split.
  - intros c a Hc He Hp Ha. apply Ho. apply (in_blocks_disjoint d c b); try done. intros Heq. destruct Hep; congruence.
  - intros a Ha _ _. apply Ho. pose proof (wf_base d Hw). destruct Hw as (_&_&bs&Hperm&Harr). rewrite <- Hperm in Hb.
    destruct (arranged_in _ _ _ Harr Hb) as (?&?&?&?). unfold in_block. lia.
Qed.

Lemma owner_shape m d e p ow :
  shape (dos_blocks (dos_set_program_block_owner m d e p ow).2) = shape (dos_blocks d).
Proof.
  unfold dos_set_program_block_owner, shape; cbn. induction (dos_blocks d) as [|b l IH]; cbn; [done|].
  f_equal; [by destruct (_ || _)|exact IH].
Qed.

Lemma block_bounds d b : wf d -> b ∈ dos_blocks d -> 0x55A < seg b < TOP /\ 0 <= paras b /\ seg b + paras b <= TOP.
Proof.
  intros Hw Hb. pose proof (wf_base d Hw). destruct Hw as (_&_&bs&Hp&Ha). rewrite <- Hp in Hb.
  destruct (arranged_in _ _ _ Ha Hb) as (?&?&?&?). lia.
Qed.

Lemma populate_spec m d be bp parent name :
  wf d -> be ∈ dos_blocks d -> bp ∈ dos_blocks d -> seg be <> seg bp -> paras be = ENV_PARAS -> 16 <= paras bp ->
  exists env m' d',
    fill_env (replicate (Z.to_nat (ENV_PARAS * 16)) 0) (p_env parent) name = Some env /\ length env = 512%nat /\
    populate_program m d (seg be) (seg bp) parent name = Some (m', d') /\
    wf d' /\ shape (dos_blocks d') = shape (dos_blocks d) /\ heap_base_seg d' = heap_base_seg d /\
    keeps_but d (seg be) (seg bp) m m' /\
    (forall i, (i < 512)%nat -> m' (16 * seg be + Z.of_nat i) = env !!! i) /\
    (forall i, (i < 256)%nat -> m' (16 * seg bp + Z.of_nat i) = psp_bytes (new_psp (seg bp) (seg be) (p_psp_seg parent)) !!! i) /\
    (forall a, in_block bp a -> 16 * seg bp + 256 <= a -> m' a = m a).
Proof.
  intros Hw Hbe Hbp Hne He Hp. unfold ENV_PARAS in He.
  destruct (block_bounds d be Hw Hbe) as (?&?&?). destruct (block_bounds d bp Hw Hbp) as (?&?&?).
  destruct (fill_env_spec (replicate (Z.to_nat (ENV_PARAS * 16)) 0) (p_env parent) name) as [Hf Hl]; [rewrite length_replicate; unfold ENV_PARAS; lia|].
  match type of Hf with _ = Some ?x => set (env := x) in * end. clearbody env. rewrite length_replicate in Hl.
  change (length env = 512%nat) in Hl. exists env.
  unfold populate_program. rewrite Hf. cbn [mbind option_bind].
  set (d1 := set_psp d (seg bp)). set (psp := new_psp _ _ _).
  assert (wf d1) as Hw1 by (destruct Hw as (?&_&?); split; [done|]; split; [cbn; arena; lia|done]).
  assert (length (psp_bytes psp) = 256%nat) as Hpl by (by apply psp_bytes_length).
  set (m2 := init_psp (copy_to m (para (seg be)) env) (seg bp) (seg be) (p_psp_seg parent)).
  assert (forall a, m2 a = copy_to (copy_to m (16 * seg be) env) (16 * seg bp) (psp_bytes psp) a) as Hm2.
  { intros a. unfold m2, init_psp, psp_store, psp_base. by rewrite !para_eq by (arena; lia). }
  destruct (owner_spec m2 d1 (seg be) (seg bp) (seg bp) Hw1 ltac:(arena; lia)) as [Hw2 _].
  pose proof (owner_shape m2 d1 (seg be) (seg bp) (seg bp)) as Hsh.
  set (r := dos_set_program_block_owner _ _ _ _ _) in *. exists r.1, r.2.
  assert (keeps r.2 m2 r.1) as Hk by (by apply sync_keeps).
  assert (forall b a, b ∈ dos_blocks d -> in_block b a -> r.1 a = m2 a) as Hdata.
  { intros b a Hb Ha. destruct (shape_in _ (dos_blocks r.2) b (eq_sym Hsh) Hb) as (c&Hc&Hs&Hpc).
    apply (proj1 Hk c); [done|]. unfold in_block. by rewrite Hs, Hpc. }
  split_and!; try done.
  - apply (keeps_but_trans _ _ _ _ m2).
    + apply (keeps_but_trans _ _ _ _ (copy_to m (16 * seg be) env)).
      * apply (write_inside d _ _ be); try done; [by left|]. intros a Ha. apply copy_to_out. unfold in_block in Ha. lia.
      * apply (write_inside d _ _ bp); try done; [by right|]. intros a Ha. rewrite Hm2. apply copy_to_out. unfold in_block in Ha. lia.
    + split; [by intros; eapply Hdata|]. apply Hk.
  - intros i Hi. rewrite (Hdata be), Hm2 by (done || (unfold in_block; lia)).
    rewrite copy_to_out; [apply copy_to_in; lia|].
    assert (~ in_block bp (16 * seg be + Z.of_nat i)) as Hout by (apply (in_blocks_disjoint d be bp); try done; unfold in_block; lia).
    unfold in_block in Hout. lia.
  - intros i Hi. rewrite (Hdata bp), Hm2 by (done || (unfold in_block; lia)). apply copy_to_in. lia.
  - intros a Ha Hge. rewrite (Hdata bp), Hm2 by done. rewrite copy_to_out by lia. apply copy_to_out.
    pose proof (in_blocks_disjoint d bp be a Hw Hbp Hbe (not_eq_sym Hne) Ha) as Hout. unfold in_block in Hout. lia.
Qed.

(** * Loading *)

(** Two allocations, the environment's and the program's. *)
Lemma two_allocs m d n1 n2 m1 d1 e m2 d2 p :
  wf d -> 0 < n1 < 0x10000 -> 0 < n2 < 0x10000 ->
  dos_alloc_block m d n1 = Some (m1, d1, inl e) -> dos_alloc_block m1 d1 n2 = Some (m2, d2, inl p) ->
  let be := mkBlock e n1 (current_psp d) in
  let bp := mkBlock p n2 (current_psp d) in
  wf d2 /\ keeps d m m2 /\ heap_base_seg d2 = heap_base_seg d /\
  dos_blocks d2 = dos_blocks d ++ [be; bp] /\ e <> p /\
  (forall b, b ∈ dos_blocks d -> seg b <> e /\ seg b <> p).
Proof.
  intros Hw H1 H2 E1 E2.
  destruct (mcb_alloc_spec m d n1 Hw H1) as (m1'&d1'&r1&E1'&Hw1&Hr1). rewrite E1' in E1. injection E1 as -> -> ->.
  destruct Hr1 as (_&_&Hb1&Hbase1&Hpsp1&_).
  destruct (alloc_keeps _ _ _ _ _ _ Hw H1 E1') as (Hk1&_&_).
  destruct (mcb_alloc_spec m1 d1 n2 Hw1 H2) as (m2'&d2'&r2&E2'&Hw2&Hr2). rewrite E2' in E2. injection E2 as -> -> ->.
  destruct Hr2 as (_&_&Hb2&Hbase2&Hpsp2&_).
  destruct (alloc_keeps _ _ _ _ _ _ Hw1 H2 E2') as (Hk2&_&_).
  assert (dos_blocks d2 = dos_blocks d ++ [mkBlock e n1 (current_psp d); mkBlock p n2 (current_psp d)]) as Hb.
  { rewrite Hb2, Hb1, Hpsp1. by rewrite <- app_assoc. }
  pose proof (wf_nodup d2 Hw2) as Hnd. rewrite Hb, fmap_app in Hnd. cbn in Hnd.
  apply NoDup_app in Hnd as (_&Hout&Hnd). cbn zeta. split_and!; try done.
  - eapply keeps_trans; [exact Hk1|]. eapply keeps_sub; [exact Hk2|by rewrite Hbase1|].
    intros b Hin. exists b. rewrite Hb1. set_solver.
  - congruence.
  - inversion Hnd as [|? ? Hni]; subst. set_solver.
  - intros b Hin. assert (seg b ∈ seg <$> dos_blocks d) as Hs by (apply list_elem_of_fmap; by exists b).
    specialize (Hout _ Hs). set_solver.
Qed.

(** Writes to the new blocks keep the old ones. *)
Lemma keeps_new_blocks d d2 e p m m2 m' l :
  keeps d m m2 -> keeps_but d2 e p m2 m' -> heap_base_seg d2 = heap_base_seg d -> dos_blocks d2 = dos_blocks d ++ l ->
  (forall b, b ∈ dos_blocks d -> seg b <> e /\ seg b <> p) -> keeps d m m'.
Proof.
  intros Hk [K1 K2] Hbase Hbl Hold. eapply keeps_trans; [exact Hk|]. split.
  - intros b a Hb Ha. destruct (Hold b Hb). apply (K1 b); try done. rewrite Hbl. set_solver.
  - intros a. rewrite <- Hbase. apply K2.
Qed.

(** The place of relocation [i], relative to the image. *)
Definition reloc_off (data : list Z) (i : Z) : Z :=
  16 * w data (w data 0x18 + i * 4 + 2) + w data (w data 0x18 + i * 4).

Definition byte_list (data : list Z) : Prop := Forall (fits 8) data.

Lemma w_fits data off : byte_list data -> fits 16 (w data off).
Proof.
  intros Hd. assert (forall i, fits 8 (data !!! i)) as Hb.
  { intros i. rewrite list_lookup_total_alt. destruct (data !! i) as [x|] eqn:E; [by apply (Forall_lookup_1 _ _ _ _ Hd E)|by vm_compute]. }
  unfold w. pose proof (Hb (Z.to_nat off)). pose proof (Hb (Z.to_nat (off + 1))). pow2. lia.
Qed.

Lemma relocate_one_addr data base add m i :
  byte_list data -> 0 <= base <= 0xFFFF0 ->
  relocate_one data base add m i =
    write16 m (base + reloc_off data i) (u16 (read16 m (base + reloc_off data i) + add)).
Proof.
  intros Hd Hb. unfold relocate_one, reloc_off. set (en := w data 0x18 + i * 4).
  pose proof (w_fits data en Hd). pose proof (w_fits data (en + 2) Hd).
  rewrite Z.shiftl_mul_pow2 by lia. change (2 ^ 4) with 16.
  assert (u32 (u32 (base + w data (en + 2) * 16) + w data en) = base + (16 * w data (en + 2) + w data en)) as ->; [|done].
  pow2. rewrite (Z.mod_small (base + _)) by lia. rewrite Z.mod_small; lia.
Qed.

(** Bytes no relocation names stay. *)
Lemma relocate_other data base add n m a :
  byte_list data -> 0 <= base <= 0xFFFF0 ->
  (forall i, 0 <= i < Z.of_nat n -> a <> base + reloc_off data i /\ a <> base + reloc_off data i + 1) ->
  relocate data base add n m a = m a.
Proof.
  intros Hd Hb. induction n as [|n IH]; intros Ha; cbn [relocate]; [done|].
  rewrite relocate_one_addr by done. destruct (Ha (Z.of_nat n) ltac:(lia)).
  rewrite write16_out by done. apply IH. intros i Hi. apply Ha. lia.
Qed.

(** A word only one relocation names is relocated once. *)
Lemma relocate_word data base add n m k :
  byte_list data -> 0 <= base <= 0xFFFF0 -> 0 <= k < Z.of_nat n ->
  (forall i, 0 <= i < Z.of_nat n -> i <> k -> 2 <= Z.abs (reloc_off data i - reloc_off data k)) ->
  read16 (relocate data base add n m) (base + reloc_off data k) = u16 (read16 m (base + reloc_off data k) + add).
Proof.
  intros Hd Hb. revert k. induction n as [|n IH]; intros k Hk Hsep; [lia|]. cbn [relocate].
  rewrite relocate_one_addr by done. destruct (decide (k = Z.of_nat n)) as [->|Hne].
  - rewrite read16_write16 by (apply wrap_fits; lia). unfold read16 at 1.
    rewrite !relocate_other; [done|done|lia| |done|lia|];
      intros i Hi; pose proof (Hsep i ltac:(lia) ltac:(lia)); lia.
  - unfold read16 at 1. pose proof (Hsep (Z.of_nat n) ltac:(lia) ltac:(lia)).
    rewrite !write16_out by lia. apply IH; [lia|]. intros i Hi. apply Hsep. lia.
Qed.

(** The image and the zeroed rest of the block. *)
Definition place (m : Mem) (data : list Z) (base hdr ls fin : Z) : Mem :=
  let m := copy_to m base (slice data hdr ls) in
  if base + ls <? fin then zero m (base + ls) (fin - (base + ls)) else m.

Lemma load_place_spec m data base hdr ls fin :
  0 <= hdr -> 0 <= ls -> hdr + ls <= Z.of_nat (length data) -> base + ls <= fin ->
  (forall a, base <= a < base + ls -> place m data base hdr ls fin a = data !!! Z.to_nat (hdr + (a - base))) /\
  (forall a, base + ls <= a < fin -> place m data base hdr ls fin a = 0) /\
  (forall a, a < base \/ fin <= a -> place m data base hdr ls fin a = m a).
Proof.
  intros Hh Hl Hlen Hfin. assert (Z.of_nat (length (slice data hdr ls)) = ls) as Hs.
  { unfold slice. rewrite length_take, length_drop. lia. }
  unfold place. split_and!; intros a Ha.
  - assert (copy_to m base (slice data hdr ls) a = data !!! Z.to_nat (hdr + (a - base))) as Hc.
    { replace a with (base + Z.of_nat (Z.to_nat (a - base))) at 1 by lia. rewrite copy_to_in by lia.
      unfold slice. rewrite !list_lookup_total_alt, lookup_take_lt, lookup_drop by lia. do 2 f_equal. lia. }
    destruct (_ <? fin); [|done]. rewrite zero_out by lia. done.
  - rewrite (proj2 (Z.ltb_lt _ _)) by lia. unfold zero. by rewrite (proj2 (Z.leb_le _ _)), (proj2 (Z.ltb_lt _ _)) by lia.
  - assert (copy_to m base (slice data hdr ls) a = m a) as Hc by (apply copy_to_out; lia).
    destruct (Z.ltb_spec (base + ls) fin); [|done]. by rewrite zero_out by lia.
Qed.

(** A file whose image is below 1 MB and whose relocations lie in the image. *)
Definition exe_ok (data : list Z) : Prop :=
  byte_list data /\ mz_load_size data <= 0xFFFF0 /\
  forall i, 0 <= i < w data 0x06 -> reloc_off data i + 2 <= mz_load_size data.

(** The state of a loaded program. *)
Record loaded_ok (m : Mem) (d : DosMem) (parent : ParentRef) (data name : list Z) (m' : Mem) (d' : DosMem) (l : Loaded) (n : Z) : Prop := {
  lo_wf : wf d';
  lo_keeps : keeps d m m';
  lo_blocks : shape (dos_blocks d') = shape (dos_blocks d) ++ [(l_env_seg l, ENV_PARAS); (l_psp_seg l, n)];
  lo_size : 16 * 16 + mz_load_size data + 16 * w data 0x0A <= 16 * n;
  lo_env : exists env, fill_env (replicate (Z.to_nat (ENV_PARAS * 16)) 0) (p_env parent) name = Some env /\
    length env = 512%nat /\ forall i, (i < 512)%nat -> m' (16 * l_env_seg l + Z.of_nat i) = env !!! i;
  lo_psp : forall i, (i < 256)%nat ->
    m' (16 * l_psp_seg l + Z.of_nat i) = psp_bytes (new_psp (l_psp_seg l) (l_env_seg l) (p_psp_seg parent)) !!! i;
  lo_image : exists m0,
    (forall a, 0 <= a < mz_load_size data -> m0 (16 * (l_psp_seg l + 16) + a) = data !!! Z.to_nat (mz_header_size data + a)) /\
    (forall a, 16 * (l_psp_seg l + 16) + mz_load_size data <= a < 16 * (l_psp_seg l + n) -> m0 a = 0) /\
    m' = relocate data (16 * (l_psp_seg l + 16)) (l_psp_seg l + 16) (Z.to_nat (w data 0x06)) m0;
  lo_bounds : 0 < l_psp_seg l /\ l_psp_seg l + n <= TOP;
  lo_entry : l = mkLoaded (l_env_seg l) (l_psp_seg l) (u16 (w data 0x16 + (l_psp_seg l + 16))) (w data 0x14)
    (u16 (w data 0x0E + (l_psp_seg l + 16))) (w data 0x10) (l_psp_seg l + n)
}.

(** The body of the loader after the two allocations. *)
Lemma load_body m d data parent name m1 d1 e m2 d2 p n :
  wf d -> exe_ok data -> dos_alloc_block m d ENV_PARAS = Some (m1, d1, inl e) -> 
  dos_alloc_block m1 d1 n = Some (m2, d2, inl p) -> 0 < n < 0x10000 ->
  16 * 16 + mz_load_size data + 16 * w data 0x0A <= 16 * n -> 
  mz_header_size data + mz_load_size data <= Z.of_nat (length data) ->
  exists m3 d3, populate_program m2 d2 e p parent name = Some (m3, d3) /\ wf d3 /\
  let base := 16 * (p + 16) in
  let m4 := place m3 data base (mz_header_size data) (mz_load_size data) (16 * (p + n)) in
  keeps d m m4 /\ 0 < p /\ p + n <= TOP /\
  forall cs ip ss sp, mkLoaded e p cs ip ss sp (p + n) =
    mkLoaded e p (u16 (w data 0x16 + (p + 16))) (w data 0x14) (u16 (w data 0x0E + (p + 16))) (w data 0x10) (p + n) ->
  loaded_ok m d parent data name (relocate data base (p + 16) (Z.to_nat (w data 0x06)) m4) d3
    (mkLoaded e p cs ip ss sp (p + n)) n.
Proof.
  intros Hw (Hd&Hls&Hrel) E1 E2 Hn Hsz Hlen.
  destruct (two_allocs m d ENV_PARAS n _ _ _ _ _ _ Hw ltac:(unfold ENV_PARAS; lia) Hn E1 E2) as (Hw2&Hk&Hbase&Hbl&Hne&Hold).
  set (be := mkBlock e ENV_PARAS (current_psp d)) in *. set (bp := mkBlock p n (current_psp d)) in *.
  assert (be ∈ dos_blocks d2) as Hbe by (rewrite Hbl; set_solver).
  assert (bp ∈ dos_blocks d2) as Hbp by (rewrite Hbl; set_solver).
  pose proof (w_fits data 0x0A Hd) as H0A.
  assert (0 <= mz_load_size data) as Hls0 by (unfold mz_load_size, sat_sub; lia).
  assert (0 <= mz_header_size data) as Hh0 by (apply wrap_fits; lia).
  destruct (populate_spec m2 d2 be bp parent name Hw2 Hbe Hbp Hne eq_refl ltac:(cbn; pow2; lia))
    as (env&m3&d3&Henv&Hel&Hpop&Hw3&Hsh&Hb3&Hkb&Hmenv&Hmpsp&Hmrest).
  change (seg be) with e in *. change (seg bp) with p in *.
  exists m3, d3. split; [done|]. split; [done|].
  destruct (block_bounds d2 bp Hw2 Hbp) as (?&?&?). cbn [seg paras bp] in *.
  set (base := 16 * (p + 16)). set (fin := 16 * (p + n)). cbn zeta.
  destruct (load_place_spec m3 data base (mz_header_size data) (mz_load_size data) fin Hh0 Hls0 Hlen ltac:(unfold base, fin; pow2; lia)) as (P1&P2&P3).
  set (m4 := place _ _ _ _ _ _) in *.
  set (m5 := relocate _ _ _ _ m4).
  assert (forall a, a < base \/ base + mz_load_size data <= a -> m5 a = m4 a) as Hreloc.
  { intros a Ha. apply relocate_other; [done|unfold base; unfold TOP in *; lia|]. intros i Hi.
    assert (0 <= i < w data 0x06) as Hi' by (pose proof (w_fits data 0x06 Hd); pow2; lia).
    specialize (Hrel i Hi'). assert (0 <= reloc_off data i).
    { unfold reloc_off. set (en := w data 0x18 + i * 4). pose proof (w_fits data en Hd). pose proof (w_fits data (en + 2) Hd). pow2. lia. }
    lia. }
  assert (forall mx, (forall a, a < base \/ fin <= a -> mx a = m3 a) -> keeps d m mx) as Hkeep.
  { intros mx Hmx. eapply keeps_new_blocks; [exact Hk| |exact Hbase|exact Hbl|exact Hold].
    eapply keeps_but_trans; [exact Hkb|]. apply (write_inside d2 _ _ bp); try done; [by right|].
    intros a Ha. apply Hmx. unfold in_block in Ha. cbn [seg paras bp] in Ha. unfold base, fin. lia. }
  split_and!; [by apply Hkeep|lia|lia|].
  intros cs ip ss sp Hl. split; cbn [l_env_seg l_psp_seg].
  - done.
  - apply Hkeep. intros a Ha. rewrite Hreloc by (unfold base, fin in *; pow2; lia). apply P3. done.
  - rewrite Hsh, Hbl. unfold shape. by rewrite fmap_app.
  - done.
  - exists env. split_and!; try done. intros i Hi. assert (in_block be (16 * e + Z.of_nat i)) as Hin by (unfold in_block, be, ENV_PARAS; cbn; lia).
    pose proof (in_blocks_disjoint d2 be bp _ Hw2 Hbe Hbp Hne Hin) as Hout. unfold in_block in Hout. cbn [seg paras bp] in Hout.
    rewrite Hreloc by (unfold base, fin in *; pow2; lia). rewrite P3 by (unfold base, fin; lia). by apply Hmenv.
  - intros i Hi. rewrite Hreloc by (unfold base; lia). rewrite P3 by (unfold base; lia). by apply Hmpsp.
  - exists m4. split_and!; [|exact P2|done]. intros a Ha. rewrite P1 by (unfold base; lia). do 2 f_equal. unfold base. lia.
  - lia.
  - exact Hl.
Qed.

Lemma largest_le_top d : wf d -> 0 <= largest_dos_block d <= TOP.
Proof.
  intros Hw. rewrite largest_best by done. split; [apply best_nonneg|].
  destruct (best_attained (gaps (heap_base_seg d) (sort_blocks (dos_blocks d)))) as [->|[g Hg]]; [unfold TOP; lia|].
  pose proof (wf_base d Hw). pose proof (gaps_len (heap_base_seg d) _ _ _ ltac:(lia) (wf_sort d Hw) Hg). lia.
Qed.

Lemma load_exe_spec m d parent data name :
  wf d -> exe_ok data ->
  exists r, load_exe m d parent data name = Some r /\
  match r with
  | Done m' d' l => exists n, loaded_ok m d parent data name m' d' l n
  | Refused m' d' => wf d' /\ keeps d m m'
  end.
Proof.
  intros Hw Hok. pose proof Hok as (Hd&Hls&_). unfold load_exe. set (len := Z.of_nat (length data)).
  assert (0 <= mz_load_size data) as Hls0 by (unfold mz_load_size, sat_sub; lia).
  destruct (len <? 28); [eexists; split; [done|]; by split; [|apply keeps_refl]|].
  destruct ((len <? mz_header_size data) || (len - mz_header_size data <? mz_load_size data)) eqn:Hchk;
    [eexists; split; [done|]; by split; [|apply keeps_refl]|].
  apply orb_false_iff in Hchk as [Hh%Z.ltb_ge Hl%Z.ltb_ge].
  set (lp := u16 (div_ceil (mz_load_size data) 16)).
  assert (mz_load_size data <= 16 * lp /\ 0 <= lp < 65536) as [Hlp Hlp'].
  { unfold lp, div_ceil. pow2. pose proof (Z.div_mod (mz_load_size data + 16 - 1) 16 ltac:(lia)).
    pose proof (Z.mod_pos_bound (mz_load_size data + 16 - 1) 16 ltac:(lia)). rewrite Z.mod_small; lia. }
  clearbody lp. pose proof (w_fits data 0x0A Hd) as HA. pose proof (w_fits data 0x0C Hd) as HC.
  destruct (mcb_alloc_spec m d ENV_PARAS Hw ltac:(unfold ENV_PARAS; lia)) as (m1&d1&r1&E1&Hw1&Hr1). rewrite E1. cbn [mbind option_bind].
  destruct (alloc_keeps m d ENV_PARAS m1 d1 r1 Hw ltac:(unfold ENV_PARAS; lia) E1) as (Hk1&_&_).
  destruct r1 as [e|]; [|eexists; split; [done|]; by split].
  pose proof (largest_le_top d1 Hw1) as Hlt. set (avail := largest_dos_block d1) in *.
  set (floor := sat_add _ (sat_add _ _ _) _).
  destruct (Z.ltb_spec avail floor); [eexists; split; [done|]; by split|].
  set (n := Z.max _ floor).
  assert (16 + lp + w data 0x0A <= n /\ 0 < n <= avail) as [Hnl Hn].
  { unfold n, floor, sat_add in *. pow2. unfold TOP in *. lia. }
  clearbody n.
  destruct (mcb_alloc_spec m1 d1 n Hw1 ltac:(unfold TOP in *; lia)) as (m2&d2&r2&E2&Hw2&Hr2). rewrite E2. cbn [mbind option_bind].
  destruct r2 as [p|]; [|destruct Hr2 as (_&_&Hav&?); fold avail in Hav; lia].
  destruct (load_body m d data parent name m1 d1 e m2 d2 p n Hw Hok E1 E2 ltac:(unfold TOP in *; lia) ltac:(lia) ltac:(unfold len in *; lia))
    as (m3&d3&->&Hw3&Hk4&Hp0&Hp1&Hdone). cbn [mbind option_bind].
  assert (u16 (p + 0x10) = p + 16) as -> by (unfold TOP in *; pow2; apply Z.mod_small; lia).
  assert (u16 (p + n) = p + n) as -> by (unfold TOP in *; pow2; apply Z.mod_small; lia).
  rewrite !para_eq by (unfold TOP in *; pow2; lia).
  assert (u32 (16 * (p + 16) + mz_load_size data) = 16 * (p + 16) + mz_load_size data) as -> by (unfold TOP in *; pow2; apply Z.mod_small; lia).
  fold (place m3 data (16 * (p + 16)) (mz_header_size data) (mz_load_size data) (16 * (p + n))).
  destruct (len <? _); eexists; (split; [done|]); [by split|]. exists n. by apply Hdone.
Qed.

(** * Theorems *)

(** C13: loading a program cannot damage a live one.  For an MZ file whose image
    has at most 0xFFFF0 bytes and whose relocations lie in the image, the loader never panics; whether it loads
    the file or refuses it, at whatever point, every byte of every block that
    was allocated before is as it was, and outside the arena only the pointer
    to the first header is written; the blocks stay disjoint. *)
Theorem load_exe_confined m d parent data name :
  wf d -> exe_ok data ->
  exists m' d', (load_exe m d parent data name = Some (Refused m' d') \/
                 exists l, load_exe m d parent data name = Some (Done m' d' l)) /\
    wf d' /\
    (forall b a, b ∈ dos_blocks d -> 16 * seg b <= a < 16 * (seg b + paras b) -> m' a = m a) /\
    (forall a, a < 16 * heap_base_seg d \/ 16 * TOP <= a -> a <> FIRST_MCB_ADDR -> a <> FIRST_MCB_ADDR + 1 -> m' a = m a).
Proof.
  intros Hw Hok. destruct (load_exe_spec m d parent data name Hw Hok) as ([m' d' l|m' d']&Hr&Hs).
  - destruct Hs as (n&[]). exists m', d'. split; [right; by exists l|]. by split.
  - destruct Hs as [Hw' Hk]. exists m', d'. split; [by left|]. by split.
Qed.

(** A small program: a header of two paragraphs, a word to relocate, a
    paragraph of image. *)
Definition hello (reloc_seg : Z) : list Z :=
  [77; 90; 48; 0; 1; 0; 1; 0; 2; 0; 0; 0; 0; 0; 0; 0; 0; 1; 0; 0; 4; 0; 0; 0; 28; 0; 0; 0]
  ++ [2; 0] ++ le16 reloc_seg ++ [0xB8; 0; 0x10; 0; 0x8E; 0xD8; 0xB4; 0x4C; 0xCD; 0x21; 0; 0; 0; 0; 0; 0].

Definition shell : ParentRef := mkParent 0x70 [80; 61; 67; 0; 0].

Lemma hello_ok : exe_ok (hello 0).
Proof.
  split; [by repeat constructor|]. split; [by vm_compute|]. intros i Hi.
  assert (i = 0) as -> by (change (w (hello 0) 0x06) with 1 in Hi; lia). by vm_compute.
Qed.

Lemma hello_facts : mz_load_size (hello 0) = 16 /\ w (hello 0) 0x06 = 1 /\ reloc_off (hello 0) 0 = 2 /\ fits 16 (p_psp_seg shell).
Proof. split_and!; by vm_compute. Qed.

Lemma load_exe_confined_witness : wf sample /\ exe_ok (hello 0) /\
  exists m' d', (load_exe zero_mem sample shell (hello 0) [65] = Some (Refused m' d') \/
                 exists l, load_exe zero_mem sample shell (hello 0) [65] = Some (Done m' d' l)) /\
    forall a, 16 * 0x800 <= a < 16 * 0x1800 -> m' a = zero_mem a.
Proof.
  split; [exact sample_wf|]. split; [exact hello_ok|].
  destruct (load_exe_confined zero_mem sample shell (hello 0) [65] sample_wf hello_ok) as (m'&d'&Hr&_&Hk&_).
  exists m', d'. split; [exact Hr|]. intros a Ha. apply (Hk (mkBlock 0x800 0x1000 0x70)); [right; left|exact Ha].
Defined.

(** C36: what a loaded program finds, when the image has at most 0xFFFF0 bytes and
    the relocations lie in it.  Behind its prefix is the file's image; every
    byte that no relocation names is the file's, a word that exactly one
    relocation names, and no other overlaps, has the load segment added, the
    rest of the block is zero; CS and SS are relative to the load segment; the prefix names the
    environment and the parent, and has room for 20 handles. *)
Theorem load_exe_image m d parent data name m' d' l :
  wf d -> exe_ok data -> fits 16 (p_psp_seg parent) -> load_exe m d parent data name = Some (Done m' d' l) ->
  let base := 16 * (l_psp_seg l + 16) in
  let size := mz_load_size data in
  let count := w data 0x06 in
  (forall a, 0 <= a < size ->
     (forall i, 0 <= i < count -> a <> reloc_off data i /\ a <> reloc_off data i + 1) ->
     m' (base + a) = data !!! Z.to_nat (mz_header_size data + a)) /\
  (forall k, 0 <= k < count ->
     (forall i, 0 <= i < count -> i <> k -> 2 <= Z.abs (reloc_off data i - reloc_off data k)) ->
     read16 m' (base + reloc_off data k) =
       u16 (w data (mz_header_size data + reloc_off data k) + (l_psp_seg l + 16))) /\
  (forall a, base + size <= a < 16 * l_end_seg l -> m' a = 0) /\
  (l_cs l = u16 (w data 0x16 + (l_psp_seg l + 16)) /\ l_ip l = w data 0x14 /\
   l_ss l = u16 (w data 0x0E + (l_psp_seg l + 16)) /\ l_sp l = w data 0x10) /\
  (psp_env_seg m' (l_psp_seg l) = l_env_seg l /\ psp_max_files m' (l_psp_seg l) = 20 /\
   read16 m' (psp_base (l_psp_seg l) + PSP_PARENT) = p_psp_seg parent).
Proof.
  intros Hw Hok Hpar Hr. destruct (load_exe_spec m d parent data name Hw Hok) as (r&Hr'&Hs).
  assert (r = Done m' d' l) as -> by congruence. destruct Hs as (n&[Hw' _ Hbl Hsz _ Hpsp (m0&I1&I2&Hm) [Hp0 Hp1] Hl]).
  destruct Hok as (Hd&Hls&Hrel). cbn zeta. pose proof (w_fits data 0x06 Hd) as H6. pose proof (w_fits data 0x0A Hd) as HA.
  assert (forall i, 0 <= reloc_off data i) as Hpos.
  { intros i. unfold reloc_off. set (en := w data 0x18 + i * 4). pose proof (w_fits data en Hd). pose proof (w_fits data (en + 2) Hd). pow2. lia. }
  assert (0 <= mz_load_size data) as Hls0 by (unfold mz_load_size, sat_sub; lia).
  assert (0 <= 16 * (l_psp_seg l + 16) <= 0xFFFF0) as Hb by (unfold TOP in *; pow2; lia).
  assert (0 <= mz_header_size data) as Hh0 by (apply wrap_fits; lia).
  assert (l_end_seg l = l_psp_seg l + n) as Hend by (by rewrite Hl).
  assert (fits 16 (l_psp_seg l)) as Hpf by (unfold TOP in *; pow2; lia).
  assert (fits 16 (l_env_seg l)) as Hef.
  { assert ((l_env_seg l, ENV_PARAS) ∈ shape (dos_blocks d')) as (b&[= Hbe _]&Hin)%list_elem_of_fmap by (rewrite Hbl; set_solver).
    destruct (block_bounds d' b Hw' Hin) as (?&_&_). unfold TOP in *. rewrite Hbe. pow2. lia. }
  split_and!.
  - intros a Ha Hno. rewrite Hm, relocate_other; [by apply I1|done|done|].
    intros i Hi. destruct (Hno i ltac:(pow2; lia)). lia.
  - intros k Hk Hsep. rewrite Hm, relocate_word; [|done|done|pow2; lia|intros i Hi; apply Hsep; pow2; lia].
    specialize (Hrel k Hk). pose proof (Hpos k). do 2 f_equal. set (off := reloc_off data k) in *.
    unfold read16, w. rewrite <- (Z.add_assoc (16 * _) off 1), !I1 by lia. do 4 f_equal. lia.
  - intros a Ha. rewrite Hm, relocate_other; [apply I2; lia|done|done|].
    intros i Hi. specialize (Hrel i ltac:(pow2; lia)). lia.
  - by rewrite Hl.
  - by rewrite Hl.
  - by rewrite Hl.
  - by rewrite Hl.
  - unfold psp_env_seg, psp_base. rewrite para_eq by done. by apply (word_of_bytes _ _ _ 44%nat _ Hpsp); [lia|..].
  - unfold psp_max_files, psp_base. rewrite para_eq by done. by apply (word_of_bytes _ _ _ 50%nat _ Hpsp); [lia|..].
  - unfold psp_base. rewrite para_eq by done. by apply (word_of_bytes _ _ _ 22%nat _ Hpsp); [lia|..].
Qed.

(** The outcome of a load, without the memory. *)
Definition outcome (r : option LoadResult) : option (option Loaded) :=
  match r with Some (Done _ _ l) => Some (Some l) | Some (Refused _ _) => Some None | None => None end.

Lemma outcome_done r l : outcome r = Some (Some l) -> exists m' d', r = Some (Done m' d' l).
Proof. destruct r as [[m' d' l'|]|]; cbn; intros [=]; subst; eauto. Qed.

Lemma load_exe_image_witness : exists m' d' l,
  load_exe zero_mem sample shell (hello 0) [65] = Some (Done m' d' l) /\
  m' (16 * 0x5AD) = 0xB8 /\ read16 m' (16 * 0x5AD + 2) = 0x10 + 0x5AD /\ psp_env_seg m' 0x59D = 0x57C.
Proof.
  destruct (outcome_done (load_exe zero_mem sample shell (hello 0) [65])
    (mkLoaded 0x57C 0x59D 0x5AD 4 0x5AD 0x100 0x5AE) ltac:(vm_compute; reflexivity)) as (m'&d'&E).
  destruct hello_facts as (Hs&Hc&Ho&Hp).
  destruct (load_exe_image zero_mem sample shell (hello 0) [65] m' d' _ sample_wf hello_ok Hp E) as (H1&H2&_&_&H3&_).
  exists m', d', (mkLoaded 0x57C 0x59D 0x5AD 4 0x5AD 0x100 0x5AE). split; [exact E|]. clear E.
  split; [|split; [|exact H3]].
  - refine (H1 0 _ _); [rewrite Hs; lia|]. intros i Hi. rewrite Hc in Hi.
    assert (i = 0) as -> by lia. rewrite Ho. lia.
  - refine (H2 0 _ _); [rewrite Hc; lia|]. intros i Hi Hne. rewrite Hc in Hi. exfalso. lia.
Defined.

(** A child inherits its parent's environment.  When the parent's
    variables, up to their double NUL, and the program's name fit the 512
    bytes of the block, a snapshot of the child's environment is the parent's,
    so that it passes unchanged from generation to generation, and the
    program's own path follows it. *)
Theorem environment_inherited m d parent data name m' d' l :
  wf d -> exe_ok data -> load_exe m d parent data name = Some (Done m' d' l) ->
  terminated (p_env parent) false = true -> (length (p_env parent) + 3 + length name <= 512)%nat ->
  snapshot_env m' (l_env_seg l) = p_env parent /\
  let at_ i := m' (16 * l_env_seg l + Z.of_nat (length (p_env parent) + i)) in
  at_ 0%nat = 1 /\ at_ 1%nat = 0 /\ (forall i, (i < length name)%nat -> at_ (2 + i)%nat = name !!! i) /\ at_ (2 + length name)%nat = 0.
Proof.
  intros Hw Hok Hr Ht Hlen. destruct (load_exe_spec m d parent data name Hw Hok) as (r&Hr'&Hs).
  assert (r = Done m' d' l) as -> by congruence. destruct Hs as (n&[_ _ _ _ (env&Hf&Hel&Hm) _ _ _ _]).
  set (e := replicate (Z.to_nat (ENV_PARAS * 16)) 0) in Hf.
  assert (length e = 512%nat) as He by (unfold e; by rewrite length_replicate). clearbody e.
  destruct (fill_env_spec e (p_env parent) name ltac:(lia)) as [Hf' _]. rewrite Hf in Hf'. injection Hf' as Henv. clear Hf.
  rewrite He in Henv. rewrite taken_terminated in Henv by (done || lia).
  rewrite (take_ge name) in Henv by lia. set (vars := p_env parent) in *.
  assert (forall i, (i < 512)%nat -> m' (16 * l_env_seg l + Z.of_nat i) = env !!! i) as Hm' by done. subst env.
  split.
  - unfold snapshot_env. rewrite Z.shiftl_mul_pow2 by lia. change (2 ^ 4) with 16. rewrite Z.mul_comm.
    apply snapshot_terminated; [done|lia|]. intros i Hi. rewrite Hm' by lia. by rewrite lookup_total_app_l.
  - cbn zeta. split_and!; intros; rewrite Hm' by lia; rewrite lookup_total_app_r by lia.
    + by replace (_ - _)%nat with 0%nat by lia.
    + by replace (_ - _)%nat with 1%nat by lia.
    + replace (_ - _)%nat with (S (S i)) by lia. set (z := replicate _ _).
      change ((name ++ z) !!! i = name !!! i). by rewrite lookup_total_app_l.
    + replace (_ - _)%nat with (S (S (length name))) by lia. set (z := replicate _ _).
      change ((name ++ z) !!! length name = 0). rewrite lookup_total_app_r, Nat.sub_diag by lia.
      unfold z. rewrite list_lookup_total_alt, lookup_replicate_2 by lia. done.
Qed.

Lemma environment_inherited_witness : exists m' d' l,
  load_exe zero_mem sample shell (hello 0) [65] = Some (Done m' d' l) /\ snapshot_env m' (l_env_seg l) = p_env shell.
Proof.
  destruct (outcome_done (load_exe zero_mem sample shell (hello 0) [65])
    (mkLoaded 0x57C 0x59D 0x5AD 4 0x5AD 0x100 0x5AE) ltac:(vm_compute; reflexivity)) as (m'&d'&E).
  exists m', d', (mkLoaded 0x57C 0x59D 0x5AD 4 0x5AD 0x100 0x5AE). split; [exact E|].
  apply (environment_inherited zero_mem sample shell (hello 0) [65] m' d' _ sample_wf hello_ok E); [reflexivity|cbn; lia].
Defined.

(** A .COM file of at most FF00h bytes is confined to its block too: the
    loader writes the file behind the prefix and leaves every live block. *)
Lemma load_com_confined m d parent data name m' d' l :
  wf d -> Z.of_nat (length data) <= 0xFF00 -> load_com m d parent data name = Some (m', d', l) ->
  wf d' /\ keeps d m m' /\
  (forall i, (i < length data)%nat -> m' (16 * l_psp_seg l + 0x100 + Z.of_nat i) = data !!! i) /\
  l_cs l = l_psp_seg l /\ l_ip l = 0x100 /\ l_ss l = l_psp_seg l /\ l_sp l = 0xFFFE.
Proof.
  intros Hw Hlen Hr. unfold load_com, alloc_program_blocks in Hr.
  destruct (dos_alloc_block m d ENV_PARAS) as [[[m1 d1] [e|]]|] eqn:E1; [|done..]. cbn [mbind option_bind] in Hr.
  destruct (dos_alloc_block m1 d1 0x1000) as [[[m2 d2] [p|]]|] eqn:E2; [|done..]. cbn [mbind option_bind] in Hr.
  destruct (two_allocs m d ENV_PARAS 0x1000 _ _ _ _ _ _ Hw ltac:(unfold ENV_PARAS; lia) ltac:(lia) E1 E2) as (Hw2&Hk&Hbase&Hbl&Hne&Hold).
  set (be := mkBlock e ENV_PARAS (current_psp d)) in *. set (bp := mkBlock p 0x1000 (current_psp d)) in *.
  assert (be ∈ dos_blocks d2) as Hbe by (rewrite Hbl; set_solver).
  assert (bp ∈ dos_blocks d2) as Hbp by (rewrite Hbl; set_solver).
  destruct (populate_spec m2 d2 be bp parent name Hw2 Hbe Hbp Hne eq_refl ltac:(cbn; lia))
    as (env&m3&d3&_&_&Hpop&Hw3&_&_&Hkb&_).
  change (seg be) with e in *. change (seg bp) with p in *. rewrite Hpop in Hr. cbn [mbind option_bind] in Hr.
  destruct (block_bounds d2 bp Hw2 Hbp) as (?&?&?). cbn [seg paras bp] in *.
  assert (u32 (para p + COM_OFFSET) = 16 * p + 0x100) as Hu.
  { rewrite para_eq by (unfold TOP in *; pow2; lia). unfold COM_OFFSET, TOP in *. pow2. apply Z.mod_small. lia. }
  rewrite Hu in Hr. injection Hr as <- <- <-. cbn [l_psp_seg l_cs l_ip l_ss l_sp]. split_and!; try done.
  - eapply keeps_new_blocks; [exact Hk| |exact Hbase|exact Hbl|exact Hold].
    eapply keeps_but_trans; [exact Hkb|]. apply (write_inside d2 _ _ bp); try done; [by right|].
    intros a Ha. apply copy_to_out. unfold in_block in Ha. cbn [seg paras bp] in Ha. lia.
  - intros i Hi. by apply copy_to_in.
Qed.

(** ** Function 67h *)

Lemma fill_ff_spec n m addr a :
  fill_ff n m addr a = if (addr <=? a) && (a <? addr + Z.of_nat n) then 0xFF else m a.
Proof.
  induction n as [|n IH]; cbn [fill_ff].
  - destruct (Z.leb_spec addr a), (Z.ltb_spec a (addr + Z.of_nat 0)); cbn [andb]; done || lia.
  - unfold write8. rewrite IH. destruct (Z.eqb_spec a (addr + Z.of_nat n)), (Z.leb_spec addr a),
      (Z.ltb_spec a (addr + Z.of_nat n)), (Z.ltb_spec a (addr + Z.of_nat (S n))); cbn [andb]; done || lia.
Qed.

Lemma copy_jft_spec n m old new a :
  old + Z.of_nat n <= new \/ new + Z.of_nat n <= old ->
  copy_jft n m old new a = if (new <=? a) && (a <? new + Z.of_nat n) then m (old + (a - new)) else m a.
Proof.
  revert a. induction n as [|n IH]; intros a Hd; cbn [copy_jft].
  - destruct (Z.leb_spec new a), (Z.ltb_spec a (new + Z.of_nat 0)); cbn [andb]; done || lia.
  - unfold write8. rewrite !IH by lia.
    destruct (Z.leb_spec new (old + Z.of_nat n)), (Z.ltb_spec (old + Z.of_nat n) (new + Z.of_nat n)); cbn [andb]; try lia.
    all: destruct (Z.eqb_spec a (new + Z.of_nat n)), (Z.leb_spec new a),
      (Z.ltb_spec a (new + Z.of_nat n)), (Z.ltb_spec a (new + Z.of_nat (S n))); cbn [andb]; try lia; f_equal; lia.
Qed.

Lemma set_jft_location_out m psp count off sg a :
  a < psp_base psp + 0x32 \/ psp_base psp + 0x38 <= a -> set_jft_location m psp count off sg a = m a.
Proof.
  intros Ha. unfold set_jft_location, PSP_MAX_FILES, PSP_JFT_OFF, PSP_JFT_SEG. rewrite !write16_out by lia. done.
Qed.

Lemma set_jft_location_read m psp count off sg :
  fits 16 count -> fits 16 off -> fits 16 sg ->
  let m' := set_jft_location m psp count off sg in
  psp_max_files m' psp = count /\ jft_addr m' psp = u32 (sg * 16 + off).
Proof.
  intros Hc Ho Hs m'. unfold psp_max_files, jft_addr, m', set_jft_location, PSP_MAX_FILES, PSP_JFT_OFF, PSP_JFT_SEG.
  assert (forall mm x v, read16 (write16 mm x v) (x - 2) = read16 mm (x - 2)) as Hlow.
  { intros mm x v. unfold read16. by rewrite !write16_out by lia. }
  set (b := psp_base psp). rewrite Z.shiftl_mul_pow2 by lia. change (2 ^ 4) with 16. split.
  - replace (b + 50) with (b + 52 - 2) at 2 by lia. unfold read16 at 1. rewrite (write16_out _ (b + 54)), (write16_out _ (b + 54)) by lia.
    change (read16 (write16 (write16 m (b + 50) count) (b + 52) off) (b + 52 - 2) = count). rewrite Hlow.
    replace (b + 52 - 2) with (b + 50) by lia. by apply read16_write16.
  - rewrite read16_write16 by done. do 2 f_equal. replace (b + 52) with (b + 54 - 2) at 2 by lia. rewrite Hlow.
    replace (b + 54 - 2) with (b + 52) by lia. by apply read16_write16.
Qed.

(** The new table: the old entries, then free ones. *)
Lemma new_table m m1 sg old cnt req psp i :
  0 <= i < req ->
  cnt <= 0 \/ old + Z.min cnt req <= 16 * sg \/ 16 * sg + req <= old ->
  psp_base psp + 0x38 <= 16 * sg \/ 16 * sg + req <= psp_base psp + 0x32 ->
  (forall j, 0 <= j < Z.min cnt req -> m1 (old + j) = m (old + j)) ->
  set_jft_location (copy_jft (Z.to_nat (Z.min cnt req)) (fill_ff (Z.to_nat req) m1 (16 * sg)) old (16 * sg)) psp req 0 sg (16 * sg + i)
  = if i <? cnt then m (old + i) else 0xFF.
Proof.
  intros Hi Hold Hpsp Hm1. rewrite set_jft_location_out by lia.
  rewrite copy_jft_spec by lia. rewrite (proj2 (Z.leb_le (16 * sg) _)) by lia. cbn [andb]. rewrite !fill_ff_spec.
  destruct (Z.ltb_spec (16 * sg + i) (16 * sg + Z.of_nat (Z.to_nat (Z.min cnt req)))), (Z.ltb_spec i cnt); try lia.
  - replace (old + (16 * sg + i - 16 * sg)) with (old + i) by lia.
    destruct (Z.leb_spec (16 * sg) (old + i)), (Z.ltb_spec (old + i) (16 * sg + Z.of_nat (Z.to_nat req)));
      cbn [andb]; try lia; apply Hm1; lia.
  - rewrite (proj2 (Z.leb_le _ _)), (proj2 (Z.ltb_lt _ _)) by lia. done.
Qed.

(** What a program sees through its prefix, when its block and the new one
    are as they were. *)
Lemma table_through_psp m4 m' bp sg n req psp :
  psp_base psp = 16 * seg bp -> 16 <= paras bp -> req <= 16 * n ->
  psp_max_files m4 psp = req -> jft_addr m4 psp = 16 * sg ->
  (forall a, in_block (mkBlock sg n psp) a \/ in_block bp a -> m' a = m4 a) ->
  psp_max_files m' psp = req /\ forall i, 0 <= i < req -> m' (jft_addr m' psp + i) = m4 (16 * sg + i).
Proof.
  intros Hpb Hpar Hfit Hread Haddr Hsame.
  assert (forall j, 0 <= j < 256 -> m' (psp_base psp + j) = m4 (psp_base psp + j)) as Hpsp.
  { intros j Hj. apply Hsame. right. unfold in_block. rewrite Hpb. lia. }
  assert (psp_max_files m' psp = req) as Hmf.
  { rewrite <- Hread. unfold psp_max_files, read16, PSP_MAX_FILES. rewrite <- !Z.add_assoc, !Hpsp by lia. done. }
  assert (jft_addr m' psp = 16 * sg) as Hja.
  { rewrite <- Haddr. unfold jft_addr, read16, PSP_JFT_OFF, PSP_JFT_SEG. rewrite <- !Z.add_assoc, !Hpsp by lia. done. }
  split; [done|]. intros i Hi. rewrite Hja. apply Hsame. left. unfold in_block. cbn [seg paras]. lia.
Qed.

(** Growing the handle table keeps the handles.  When function 67h succeeds,
    the prefix has the size asked for and points to a table whose entries are
    the old ones, the new ones being free.  The old table has to lie in a live
    block, and if it is not in the prefix, its segment has to be a block's
    other than the program's. *)
Lemma handles_67_kept m d c bp bo m' d' c' :
  let psp := current_psp d in
  wf d -> bp ∈ dos_blocks d -> seg bp = psp -> 16 <= paras bp ->
  PSP_JFT_LEN < bx (Ldt.regs c) <= MAX_FDS -> bo ∈ dos_blocks d ->
  (forall i, 0 <= i < psp_max_files m psp -> in_block bo (jft_addr m psp + i)) ->
  (forall s, external_jft_seg m psp = Some s -> s <> psp /\ exists b, b ∈ dos_blocks d /\ seg b = s) ->
  handles_67 m d c = Some (m', d', c') -> Ldt.cf c' = false ->
  psp_max_files m' psp = bx (Ldt.regs c) /\
  forall i, 0 <= i < bx (Ldt.regs c) ->
    m' (jft_addr m' psp + i) = if i <? psp_max_files m psp then m (jft_addr m psp + i) else 0xFF.
Proof.
  intros psp Hw Hbp Hseg Hpar Hreq Hbo Hold Hext Hr Hcf. set (req := bx (Ldt.regs c)) in *.
  unfold PSP_JFT_LEN, MAX_FDS in Hreq. unfold handles_67 in Hr. fold req psp in Hr.
  rewrite (proj2 (Z.leb_gt req PSP_JFT_LEN)), (proj2 (Z.leb_le req MAX_FDS)) in Hr by (unfold PSP_JFT_LEN, MAX_FDS; lia).
  assert (2 <= div_ceil req 16 <= 4 /\ req <= 16 * div_ceil req 16) as [Hn Hfit].
  { unfold div_ceil. pose proof (Z.div_mod (req + 16 - 1) 16 ltac:(lia)). pose proof (Z.mod_pos_bound (req + 16 - 1) 16 ltac:(lia)). lia. }
  set (n := div_ceil req 16) in *. clearbody n.
  destruct (dos_alloc_block m d n) as [[[m1 d1] [sg|]]|] eqn:E1; cbn [mbind option_bind] in Hr; [|injection Hr as <- <- <-; done|done].
  destruct (mcb_alloc_spec m d n Hw ltac:(lia)) as (m1'&d1'&r1&E1'&Hw1&Hr1). rewrite E1' in E1. injection E1 as -> -> ->.
  destruct (alloc_keeps m d n m1 d1 _ Hw ltac:(lia) E1') as (Hk1&_&_). destruct Hr1 as (_&_&Hbl&_).
  set (nb := mkBlock sg n (current_psp d)) in *.
  assert (nb ∈ dos_blocks d1) as Hnb by (rewrite Hbl; set_solver).
  assert (forall b, b ∈ dos_blocks d -> b ∈ dos_blocks d1 /\ seg b <> sg) as Hin1.
  { intros b Hb. split; [rewrite Hbl; set_solver|]. pose proof (wf_nodup d1 Hw1) as Hnd. rewrite Hbl, fmap_app in Hnd.
    apply NoDup_app in Hnd as (_&Hnd&_). intros Heq. apply (Hnd (seg b)); [apply list_elem_of_fmap; by exists b|rewrite Heq; set_solver]. }
  destruct (block_bounds d1 nb Hw1 Hnb) as (Bn1&_&Bn2). cbn [seg paras nb] in Bn1, Bn2.
  destruct (block_bounds d bp Hw Hbp) as (Bp1&_&_).
  assert (u32 (sg ≪ 4) = 16 * sg) as Hsg by (rewrite Z.shiftl_mul_pow2 by lia; change (2 ^ 4) with 16; unfold TOP in *; pow2; rewrite Z.mod_small; lia).
  rewrite Hsg in Hr. set (cnt := psp_max_files m psp) in *. set (old := jft_addr m psp) in *.
  set (k := Z.to_nat (Z.min cnt req)) in *.
  destruct (Hin1 bo Hbo) as [Hbo1 Hbo2]. destruct (Hin1 bp Hbp) as [Hbp1 Hbp2].
  pose proof (blocks_apart d1 bo nb Hw1 Hbo1 Hnb Hbo2) as Hapart. cbn [seg paras nb] in Hapart.
  pose proof (blocks_apart d1 bp nb Hw1 Hbp1 Hnb Hbp2) as Hapart'. cbn [seg paras nb] in Hapart'.
  assert (psp_base psp = 16 * seg bp) as Hpb by (unfold psp_base; rewrite Hseg; apply para_eq; unfold TOP in *; pow2; lia).
  set (m4 := set_jft_location _ psp req 0 sg) in Hr.
  destruct (set_jft_location_read (copy_jft k (fill_ff (Z.to_nat req) m1 (16 * sg)) old (16 * sg)) psp req 0 sg
    ltac:(pow2; lia) ltac:(by vm_compute) ltac:(unfold TOP in *; pow2; lia)) as [Hread Haddr].
  fold m4 in Hread, Haddr. replace (u32 (sg * 16 + 0)) with (16 * sg) in Haddr by (unfold TOP in *; pow2; rewrite Z.mod_small; lia).
  assert (cnt <= 0 \/ old + Z.min cnt req <= 16 * sg \/ 16 * sg + req <= old) as Hfar.
  { destruct (Z.le_gt_cases cnt 0); [by left|right]. pose proof (Hold 0 ltac:(lia)) as H0.
    pose proof (Hold (Z.min cnt req - 1) ltac:(lia)) as H1. unfold in_block in H0, H1. lia. }
  enough (forall a, in_block nb a \/ in_block bp a -> m' a = m4 a) as Hsame.
  { destruct (table_through_psp m4 m' bp sg n req psp Hpb Hpar Hfit Hread Haddr Hsame) as [Hmf Htab].
    split; [done|]. intros i Hi. rewrite Htab by done. apply new_table; try done; [rewrite Hpb; lia|].
    intros j Hj. apply (proj1 Hk1 bo); [done|]. apply Hold. lia. }
  intros a Ha. destruct (external_jft_seg m psp) as [s|] eqn:Hes; cbn [mbind option_bind] in Hr; [|injection Hr as <- <- <-; done].
  destruct (dos_free_block m4 d1 s) as [[[m5 d5] r5]|] eqn:E5; [|done]. cbn in Hr. injection Hr as <- <- <-.
  destruct (free_keeps m4 d1 s m5 d5 r5 Hw1 E5) as [[Hk5 _] Hin5]. destruct (Hext s eq_refl) as (Hs1&b&Hb&Hsb).
  destruct Ha as [Ha|Ha]; [apply (Hk5 nb)|apply (Hk5 bp)]; try done; apply Hin5; try done; cbn [seg nb]; [|congruence].
  destruct (Hin1 b Hb). congruence.
Qed.


(** A program whose table lies in its own segment but not at the prefix's
    inline place, as a .COM program's does, has its own block freed by
    function 67h. *)
Lemma own_table_frees_program :
  let d := mkMem heap_start 0x157C [mkBlock 0x57C 0x1000 0x57C] 0x57C in
  let m := set_jft_location zero_mem 0x57C 40 0x200 0x57C in
  match handles_67 m d (call_48 50) with
  | Some (_, d', c') => Some (seg <$> dos_blocks d', Ldt.cf c')
  | None => None
  end = Some ([0x55B], false).
Proof. vm_compute. reflexivity. Qed.

(** ** Where the loaders go wrong *)

(** A relocation outside the image is applied all the same: this file changes
    a word of another program's block. *)
Lemma reloc_outside_image :
  match load_exe zero_mem sample shell (hello 0x253) [65] with
  | Some (Done m' _ _) => Some (m' (16 * 0x800 + 2))
  | _ => None
  end = Some 0xAD.
Proof. vm_compute. reflexivity. Qed.

(** The size of the image in paragraphs is cut to 16 bits: for an image of
    1 MB the block is sized as for none. *)
Lemma large_image_small_block data : mz_load_size data = 0x100000 -> u16 (div_ceil (mz_load_size data) 16) = 0.
Proof. intros ->. reflexivity. Qed.

(** A .COM file is not compared with its 64 KB block: the last byte of this
    one lands in the next program's block. *)
Lemma com_overruns_block :
  let d := mkMem heap_start 0x57C [mkBlock 0x1600 0x1000 0x70] 0x70 in
  let data := replicate (Z.to_nat 0x11000) 0x90 in
  match load_com zero_mem d shell data [65] with
  | Some (m', _, l) => Some (l_psp_seg l, m' (16 * 0x1600))
  | None => None
  end = Some (0x57C, 0x90).
Proof. vm_compute. reflexivity. Qed.

(** A .COM program started when less than 64 KB is free panics the kernel. *)
Lemma com_without_memory_panics :
  load_com zero_mem (mkMem heap_start TOP [mkBlock 0x55B (TOP - 0x55B) 0x55B] 0x55B) shell [0xC3] [65] = None.
Proof. vm_compute. reflexivity. Qed.

(** An environment too large for the block is cut without its terminator. *)
Lemma large_environment_unterminated :
  let vars := replicate 600 65 ++ [0; 0] in
  match fill_env (replicate 512 0) vars [66] with
  | Some env => Some (take 3 (drop 507 env), bool_decide (take 508 env = replicate 508 65))
  | None => None
  end = Some ([65; 1; 0], true).
Proof. vm_compute. reflexivity. Qed.

(** A configuration without variables is one NUL, not two, and the block built
    from it is read back past its end. *)
Lemma empty_config_environment :
  parse_config_env [] = [0] /\
  (env ← fill_env (replicate 512 0) (parse_config_env []) [66]; Some (snapshot_loop 600 (copy_to zero_mem 0 env) 0 false))
  = Some [0; 1; 0; 66; 0; 0].
Proof. split; vm_compute; reflexivity. Qed.
