(* ===== verification/Path.v ===== *)
(** Paths as byte strings: the pure helpers of kernel/src/kernel/vfs.rs,
    [parent_of] of fs/grant.rs and [basename] of thread.rs.

    A path is the list of its bytes.  Splitting and joining components is
    what symbolic-link resolution stands on; the lemmas here are the round
    trip between the two and the meaning of a prefix match. *)

From Stdlib Require Import ZArith Lia Bool.
From stdpp Require Import base option list numbers.
From S2P Require Import Prelude.

Abbreviation Path := (list Z).

Definition SLASH : Z := 47.
Definition BACKSLASH : Z := 92.
Definition DOT : Path := [46].
Definition DOTDOT : Path := [46; 46].

(** [u8::to_ascii_lowercase] *)
Definition to_ascii_lowercase (b : Z) : Z := if (65 <=? b) && (b <=? 90) then b + 32 else b.

Definition fold_case (p : Path) : Path := to_ascii_lowercase <$> p.

(** [a.len() == b.len() && a.iter().zip(b).all(|(x, y)| x.eq_ignore_ascii_case(y))] *)
Fixpoint eq_ignore_case (a b : Path) : bool :=
  match a, b with
  | [], [] => true
  | x :: a, y :: b => (to_ascii_lowercase x =? to_ascii_lowercase y) && eq_ignore_case a b
  | _, _ => false
  end.

(** [slice.iter().rposition(p)] *)
Fixpoint rposition (p : Z -> bool) (l : list Z) : option nat :=
  match l with
  | [] => None
  | x :: l => match rposition p l with
              | Some i => Some (S i)
              | None => if p x then Some 0%nat else None
              end
  end.

Definition ends_with_slash (p : Path) : bool :=
  match p !! (length p - 1)%nat with Some b => b =? SLASH | None => false end.

(** [path.strip_suffix(b"/").unwrap_or(path)] *)
Definition strip_slash (p : Path) : Path := if ends_with_slash p then take (length p - 1) p else p.

Definition match_prefix (prefix path : Path) : option nat :=
  let plen := length prefix in
  if (plen =? 0)%nat then Some 0%nat
  else if (plen <=? length path)%nat && eq_ignore_case (take plen path) prefix then Some plen
  else if ends_with_slash prefix && (length path =? plen - 1)%nat
          && eq_ignore_case path (take (plen - 1) prefix)
  then Some (length path)
  else None.

Definition join_path_components (components : list Path) : Path :=
  foldl (fun path c => (match path with [] => [] | _ => path ++ [SLASH] end) ++ c) [] components.

Definition split_parent_bytes (path : Path) : option (Path * Path) :=
  match path with
  | [] => None
  | _ => Some match rposition (fun b => b =? SLASH) path with
              | Some separator => (take separator path, drop (separator + 1) path)
              | None => ([], path)
              end
  end.

Definition is_nil (p : Path) : bool := match p with [] => true | _ => false end.

Definition child_in_dir (name dir : Path) : option Path :=
  let dir := strip_slash dir in
  '(parent, name) ← split_parent_bytes name;
  if negb (is_nil name) && eq_ignore_case parent dir then Some name else None.

Definition mount_child_in_dir (prefix dir : Path) : option Path := child_in_dir (strip_slash prefix) dir.
Definition entry_in_ram_dir (entry_name dir : Path) : option Path := child_in_dir entry_name dir.

(** [path.split(|byte| *byte == b'/')] *)
Fixpoint split_slash (path : Path) : list Path :=
  match path with
  | [] => [[]]
  | b :: rest =>
      if b =? SLASH then [] :: split_slash rest
      else match split_slash rest with
           | c :: cs => (b :: c) :: cs
           | [] => [[b]]
           end
  end.

(** [.filter(|component| !component.is_empty() && *component != b".")] *)
Definition kept (component : Path) : bool := negb (is_nil component) && negb (bool_decide (component = DOT)).

Definition path_components (path : Path) : list Path := filter (fun c => kept c = true) (split_slash path).

(** grant.rs: the directory whose permissions govern creating and deleting. *)
Definition parent_of (path : Path) : option Path :=
  let path := strip_slash path in
  if is_nil path then None
  else Some match rposition (fun b => b =? SLASH) path with
            | Some i => take i path
            | None => []
            end.

(** thread.rs: the name after the last slash of either kind. *)
Definition basename (path : Path) : Path :=
  match rposition (fun b => (b =? SLASH) || (b =? BACKSLASH)) path with
  | Some i => drop (i + 1) path
  | None => path
  end.

(** vfs.rs [path_ino] and thread.rs [hash_regs]: FNV-1a over bytes. *)
Definition fnv_step (h b : Z) : Z := u64 (Z.lxor h b * 0x100000001b3).
Definition fnv1a (bytes : list Z) : Z := foldl fnv_step 0xcbf29ce484222325 bytes.
Definition path_ino (path : Path) : Z := fnv1a path .| 1.

(** * Lemmas *)

Lemma eq_ignore_case_fold a b : eq_ignore_case a b = true <-> fold_case a = fold_case b.
Proof.
  revert b; induction a as [|x a IH]; intros [|y b]; cbn; try done.
  rewrite andb_true_iff, Z.eqb_eq, IH. unfold fold_case. cbn. split; [intros [-> E]; by f_equal|]. by intros [= -> ->].
Qed.

Lemma eq_ignore_case_refl a : eq_ignore_case a a = true.
Proof. by apply eq_ignore_case_fold. Qed.

Lemma eq_ignore_case_length a b : eq_ignore_case a b = true -> length a = length b.
Proof. intros H%eq_ignore_case_fold%(f_equal length). unfold fold_case in H. by rewrite !length_fmap in H. Qed.

Lemma rposition_spec p l i :
  rposition p l = Some i ->
  exists a x b, l = a ++ x :: b /\ length a = i /\ p x = true /\ Forall (fun y => p y = false) b.
Proof.
  revert i; induction l as [|y l IH]; intros i; cbn; [done|].
  destruct (rposition p l) as [j|] eqn:E.
  - intros [= <-]. destruct (IH j eq_refl) as (a & x & b & -> & <- & Hx & Hb). by exists (y :: a), x, b.
  - destruct (p y) eqn:Ey; intros [= <-]. exists [], y, l. split_and!; try done.
    clear IH. induction l as [|z l IH]; [done|]. cbn in E. destruct (rposition p l); [done|].
    destruct (p z) eqn:Ez; [done|]. constructor; auto.
Qed.

Lemma rposition_none p l : rposition p l = None <-> Forall (fun y => p y = false) l.
Proof.
  induction l as [|x l IH]; cbn; [by split|]. destruct (rposition p l) as [i|].
  - split; [done|]. intros H. inversion H as [|? ? _ Hl]; subst. by apply IH in Hl.
  - destruct (p x) eqn:E; split; try done.
    + intros H. inversion H; congruence.
    + intros _. constructor; [done|]. by apply IH.
Qed.

(** A binding matches the paths below it and its own directory without the
    slash; what is left over is a suffix of the path. *)
Lemma match_prefix_length prefix path n : match_prefix prefix path = Some n -> (n <= length path)%nat.
Proof.
  unfold match_prefix. destruct (_ =? 0)%nat; [intros [= <-]; lia|].
  destruct (Nat.leb_spec (length prefix) (length path)); cbn [andb].
  - destruct (eq_ignore_case _ _); [by intros [= <-]|]. destruct (_ && _ && _); [intros [= <-]; lia|done].
  - destruct (_ && _ && _); [intros [= <-]; lia|done].
Qed.

Definition no_slash (c : Path) : Prop := Forall (fun b => b <> SLASH) c.

Lemma split_slash_cons path : exists c cs, split_slash path = c :: cs.
Proof.
  induction path as [|b path (c & cs & IH)]; cbn; [eauto|]. destruct (b =? SLASH); [eauto|]. rewrite IH. eauto.
Qed.

Lemma split_slash_no_slash path : Forall no_slash (split_slash path).
Proof.
  induction path as [|b path IH]; cbn; [by repeat constructor|]. destruct (Z.eqb_spec b SLASH); [by repeat constructor|].
  destruct (split_slash path) as [|c cs]; [by repeat constructor|]. inversion IH; subst. constructor; [by constructor|done].
Qed.

(** The components of a path: no slash, not empty, not ".". *)
Definition component_ok (c : Path) : Prop := no_slash c /\ c <> [] /\ c <> DOT.

Lemma kept_true c : kept c = true <-> c <> [] /\ c <> DOT.
Proof.
  unfold kept. rewrite andb_true_iff, !negb_true_iff, bool_decide_eq_false. destruct c; cbn; naive_solver.
Qed.

Lemma path_components_ok path : Forall component_ok (path_components path).
Proof.
  unfold path_components. pose proof (split_slash_no_slash path) as H. induction H as [|c cs Hc Hcs IH]; [constructor|].
  rewrite filter_cons. destruct (decide (kept c = true)) as [K|K]; [|done]. constructor; [|done].
  split; [done|]. by apply kept_true.
Qed.

(** Splitting gives a path no more components than it has bytes plus one. *)
Lemma length_split_slash path : (length (split_slash path) <= length path + 1)%nat.
Proof.
  induction path as [|b path IH]; cbn; [lia|]. destruct (b =? SLASH); cbn; [lia|].
  destruct (split_slash path); cbn in *; lia.
Qed.

Lemma length_path_components path : (length (path_components path) <= length path + 1)%nat.
Proof.
  unfold path_components. pose proof (length_filter (fun c => kept c = true) (split_slash path)).
  pose proof (length_split_slash path). lia.
Qed.

Lemma split_slash_app_no_slash c path : no_slash c -> split_slash (c ++ SLASH :: path) = c :: split_slash path.
Proof.
  induction 1 as [|b c Hb Hc IH]; cbn.
  - done.
  - destruct (Z.eqb_spec b SLASH); [done|]. by rewrite IH.
Qed.

Lemma split_slash_no_slash_id c : no_slash c -> split_slash c = [c].
Proof.
  induction 1 as [|b c Hb Hc IH]; cbn; [done|]. destruct (Z.eqb_spec b SLASH); [done|]. by rewrite IH.
Qed.

(** [join_path_components], one component at a time from the left. *)
Fixpoint join_right (cs : list Path) : Path :=
  match cs with
  | [] => []
  | [c] => c
  | c :: cs => c ++ SLASH :: join_right cs
  end.

Lemma join_right_cons c cs : cs <> [] -> join_right (c :: cs) = c ++ SLASH :: join_right cs.
Proof. by destruct cs. Qed.

Definition join_onto (path c : Path) : Path := (match path with [] => [] | _ => path ++ [SLASH] end) ++ c.

Lemma join_onto_right acc cs :
  acc <> [] -> foldl join_onto acc cs = match cs with [] => acc | _ => acc ++ SLASH :: join_right cs end.
Proof.
  revert acc; induction cs as [|c cs IH]; intros acc Hacc; [done|]. cbn [foldl].
  assert (join_onto acc c = acc ++ SLASH :: c) as -> by (destruct acc as [|a acc]; [done|]; unfold join_onto; by rewrite <- (app_assoc (a :: acc) [SLASH] c)).
  rewrite IH by (by destruct acc). destruct cs as [|d cs]; [done|]. rewrite (join_right_cons c) by done.
  by rewrite <- app_assoc.
Qed.

Lemma join_path_components_right cs : Forall (fun c => c <> []) cs -> join_path_components cs = join_right cs.
Proof.
  intros H. change (foldl join_onto [] cs = join_right cs). destruct H as [|c cs Hc Hcs]; [done|].
  change (foldl join_onto [] (c :: cs)) with (foldl join_onto c cs). rewrite join_onto_right by done. by destruct cs.
Qed.

(** Joining components and splitting the result gives them back. *)
Lemma components_of_join cs : Forall component_ok cs -> path_components (join_path_components cs) = cs.
Proof.
  intros H. rewrite join_path_components_right; [|eapply Forall_impl; [|exact H]; by intros c (_ & Hc & _)].
  unfold path_components. induction H as [|c cs (Hn & He & Hd) Hcs IH]; [done|].
  assert (kept c = true) as K by by apply kept_true.
  destruct cs as [|d cs]; [cbn [join_right]; rewrite split_slash_no_slash_id by done|
                           rewrite join_right_cons, split_slash_app_no_slash by done].
  - rewrite filter_cons. by destruct (decide _).
  - rewrite filter_cons. destruct (decide _); [|done]. by rewrite IH.
Qed.

(** A path is its parent, a slash and its last component, which holds none. *)
Lemma split_parent_spec path parent name :
  split_parent_bytes path = Some (parent, name) ->
  no_slash name /\ (path = parent ++ SLASH :: name \/ path = name /\ parent = []).
Proof.
  unfold split_parent_bytes. destruct path as [|b path]; [done|].
  assert (forall l, Forall (fun y => (y =? SLASH) = false) l -> no_slash l) as Hn.
  { intros l Hl. eapply Forall_impl; [|exact Hl]. intros y Hy%Z.eqb_neq. done. }
  destruct (rposition _ _) as [i|] eqn:E; intros [= <- <-].
  - apply rposition_spec in E as (a & x & c & -> & <- & Hx%Z.eqb_eq & Hc). subst x.
    rewrite take_app_length, drop_app_ge by lia.
    replace (length a + 1 - length a)%nat with 1%nat by lia. cbn [drop]. split; [by apply Hn|]. by left.
  - apply rposition_none in E. split; [by apply Hn|]. by right.
Qed.

Lemma fnv1a_fits bytes : fits 64 (fnv1a bytes).
Proof.
  unfold fnv1a. assert (fits 64 0xcbf29ce484222325) as H by by vm_compute.
  revert H. generalize 0xcbf29ce484222325. induction bytes as [|b bytes IH]; intros h Hh; cbn; [done|].
  apply IH. by apply wrap_fits.
Qed.
