(* ===== verification/Effect.v ===== *)
(** The monad of the kernel code that threads state through many calls.

    A computation takes the state it mutates and ends with a value and the
    new state, with a panic, or - only where the model gives a loop fuel -
    without having ended.  [triple] is a Hoare triple over it. *)

From Stdlib Require Import ZArith Lia Bool.
From stdpp Require Import base option list numbers.
From S2P Require Import Prelude.

Inductive Res (A : Type) := Val (a : A) | Panic | Diverge.
Arguments Val {_} _.
Arguments Panic {_}.
Arguments Diverge {_}.

Definition M (S A : Type) : Type := S -> Res (S * A).

#[export] Instance M_ret {S} : MRet (M S) := fun A a s => Val (s, a).
#[export] Instance M_bind {S} : MBind (M S) := fun A B k m s =>
  match m s with Val (s, a) => k a s | Panic => Panic | Diverge => Diverge end.
#[export] Instance M_fmap {S} : FMap (M S) := fun A B f m s =>
  match m s with Val (s, a) => Val (s, f a) | Panic => Panic | Diverge => Diverge end.

Section Operations.
Context {S : Type}.

Definition get : M S S := fun s => Val (s, s).
Definition gets {A} (f : S -> A) : M S A := fun s => Val (s, f s).
Definition modify (f : S -> S) : M S () := fun s => Val (f s, ()).
Definition panic {A} : M S A := fun _ => Panic.
Definition diverge {A} : M S A := fun _ => Diverge.

(** An index or [unwrap] that panics. *)
Definition expect {A} (o : option A) : M S A := match o with Some a => mret a | None => panic end.

(** A computation on a part of the state. *)
Definition zoom {T A} (g : S -> T) (put : T -> S -> S) (m : M T A) : M S A := fun s =>
  match m (g s) with Val (t, a) => Val (put t s, a) | Panic => Panic | Diverge => Diverge end.

(** * Hoare triples *)

(** Nothing is claimed of a panic; [D] says whether running out of fuel is
    allowed ([True]: partial correctness, [False]: the computation ends). *)
Definition triple {A} (D : Prop) (P : S -> Prop) (m : M S A) (Q : A -> S -> Prop) : Prop :=
  forall s, P s -> match m s with Val (s, a) => Q a s | Panic => True | Diverge => D end.

(** [I] is kept by [m]. *)
Definition keeps {A} (D : Prop) (I : S -> Prop) (m : M S A) : Prop := triple D I m (fun _ => I).

Context (D : Prop).

Lemma triple_ret {A} (P : S -> Prop) (a : A) (Q : A -> S -> Prop) :
  (forall s, P s -> Q a s) -> triple D P (mret a) Q.
Proof. intros H s Hs. by apply H. Qed.

Lemma triple_bind {A B} P (m : M S A) (k : A -> M S B) R Q :
  triple D P m R -> (forall a, triple D (R a) (k a) Q) -> triple D P (m ≫= k) Q.
Proof.
  intros Hm Hk s Hs. specialize (Hm s Hs). unfold mbind, M_bind.
  destruct (m s) as [[s' a]| |]; [|done|done]. by apply Hk.
Qed.

Lemma triple_conseq {A} (P P' : S -> Prop) (m : M S A) (Q Q' : A -> S -> Prop) :
  triple D P' m Q' -> (forall s, P s -> P' s) -> (forall a s, Q' a s -> Q a s) -> triple D P m Q.
Proof. intros H HP HQ s Hs. specialize (H s (HP s Hs)). destruct (m s) as [[s' a]| |]; auto. Qed.

(** A fact about the result that holds whenever the invariant does. *)
Lemma triple_fact_bind {A B} I (m : M S A) (F : A -> Prop) (k : A -> M S B) :
  triple D I m (fun a s => I s /\ F a) -> (forall a, F a -> keeps D I (k a)) -> keeps D I (m ≫= k).
Proof. intros Hm Hk. eapply triple_bind; [exact Hm|]. intros a s [Hs Ha]. by apply Hk. Qed.

Lemma keeps_ret {A} I (a : A) : keeps D I (mret a).
Proof. by apply triple_ret. Qed.

Lemma keeps_bind {A B} I (m : M S A) (k : A -> M S B) :
  keeps D I m -> (forall a, keeps D I (k a)) -> keeps D I (m ≫= k).
Proof. intros Hm Hk. eapply triple_bind; [exact Hm|]. exact Hk. Qed.

(** What is read of the state is known afterwards. *)
Lemma keeps_gets_bind {A B} I (f : S -> A) (k : A -> M S B) :
  (forall s, I s -> match k (f s) s with Val (s, _) => I s | Panic => True | Diverge => D end) ->
  keeps D I (gets f ≫= k).
Proof. intros H s Hs. by apply H. Qed.

Lemma keeps_gets {A} I (f : S -> A) : keeps D I (gets f).
Proof. intros s Hs. done. Qed.

Lemma keeps_modify I f : (forall s, I s -> I (f s)) -> keeps D I (modify f).
Proof. intros H s Hs. by apply H. Qed.

Lemma keeps_panic {A} I : keeps D I (panic : M S A).
Proof. intros s Hs. done. Qed.

Lemma keeps_expect {A} I (o : option A) : keeps D I (expect o).
Proof. destruct o; [apply keeps_ret|apply keeps_panic]. Qed.

Lemma keeps_expect_bind {A B} I (o : option A) (k : A -> M S B) :
  (forall a, o = Some a -> keeps D I (k a)) -> keeps D I (expect o ≫= k).
Proof. intros H. destruct o as [a|]; [intros s Hs; by apply (H a)|intros s Hs; done]. Qed.

Lemma bind_val {A B} (m : M S A) (k : A -> M S B) s s' b :
  (m ≫= k) s = Val (s', b) <-> exists t a, m s = Val (t, a) /\ k a t = Val (s', b).
Proof.
  unfold mbind, M_bind. destruct (m s) as [[t a]| |]; split; try done.
  - intros H. by exists t, a.
  - by intros (t' & a' & [= -> ->] & H).
  - by intros (t' & a' & H & _).
  - by intros (t' & a' & H & _).
Qed.

Lemma run_bind {A B} (m : M S A) (k : A -> M S B) s t a : m s = Val (t, a) -> (m ≫= k) s = k a t.
Proof. intros H. unfold mbind, M_bind. by rewrite H. Qed.

End Operations.

Create HintDb keeps.
#[export] Hint Resolve keeps_ret keeps_gets keeps_panic keeps_expect : keeps.

(** Walk down a computation that keeps an invariant: binds, case splits and
    the lemmas of the database; what is left are the assignments. *)
Ltac keeps_step :=
  match goal with
  | |- keeps _ _ (mret _) => apply keeps_ret
  | |- keeps _ _ _ => solve [eauto with keeps nocore]
  | |- keeps _ _ (expect _ ≫= _) => apply keeps_expect_bind; intros ? ?
  | |- keeps _ _ (_ ≫= _) => apply keeps_bind; [|intros ?]
  | |- keeps _ _ (match ?x with _ => _ end) => destruct x
  end.
Ltac keeps_go := repeat keeps_step.

(** Unfold the monad in a concrete run. *)
Ltac run := cbv [mbind M_bind mret M_ret expect panic gets modify] in *; cbn beta iota zeta in *.
