(* ===== verification/Vfs.v ===== *)
(** The virtual filesystem (kernel/src/kernel/vfs.rs) with the write rule it
    enforces (kernel/src/kernel/fs/grant.rs): the mount table, the directory
    cache, symbolic-link resolution, the RAM overlay, the table of open files
    with its byte-range locks and share modes, and the directory handles.

    The backends are behind the [Filesystem] trait: a record of its methods
    over a world [W] they mutate.  Every method of [Vfs] is a computation
    over the [Vfs] value and that world; the lock around the singleton is
    held for the whole of each.  [fuel] bounds the batches one directory
    enumeration may take; [Diverge] is running out of it.  [usize] is the 32
    bits of the machine the kernel boots on. *)

From Stdlib Require Import ZArith Lia Bool.
From stdpp Require Import base option list numbers gmap.
From S2P Require Import Prelude Path Effect.

Definition MAX_OPEN_FILES : nat := 128.
Definition FIRST_FD : nat := 3.
Definition MAX_FDS : nat := 64.
Definition RAM_SENTINEL : Z := U64_MAX.
Definition PATH_KEY_MAX : nat := 164.
Definition MAX_UNION : nat := 8.
Definition ALIAS_DEPTH : nat := 8.
Definition READDIR_START : Z := 0.
Definition READDIR_BATCH : nat := 64.
Definition DIR_HANDLES : nat := 32.
Definition DIR_PATH_MAX : nat := 164.

Definition usize (x : Z) : Z := u32 x.

(** [x as i32] *)
Definition i32 (x : Z) : Z := let y := u32 x in if y <? 2 ^ 31 then y else y - 2 ^ 32.

(** thread.rs [FdKind] *)
Inductive FdKind :=
  | FdNone | FdVfs (idx : Z) | FdPipeRead (idx : Z) | FdPipeWrite (idx : Z) | FdConsoleOut
  | FdDir (handle next : Z) | FdSocket (handle : Z).

Definition fd_is_none (k : FdKind) : bool := match k with FdNone => true | _ => false end.

Module Meta.
Record t := mk { uid : Z; gid : Z; mode : Z }.
End Meta.

Module Vnode.
Record t := mk { handle : Z; size : Z; mode : Z }.
End Vnode.

Module Stat.
Record t := mk { size : Z; mode : Z; is_dir : bool; is_symlink : bool; ino : Z }.
End Stat.

Module DirEntry.
Record t := mk { name : Path; name_len : nat; size : Z; is_dir : bool; is_symlink : bool;
                 mode : Z; mtime : Z; node : Z; mount_idx : Z }.
Definition set_mount (e : t) (i : Z) : t :=
  mk (name e) (name_len e) (size e) (is_dir e) (is_symlink e) (mode e) (mtime e) (node e) i.
End DirEntry.

(** The trait.  A method that fills a buffer takes it and returns it. *)
Module Filesystem.
Record t (W : Type) := mk {
  open : Path -> W -> W * option Vnode.t;
  open_node : Z -> W -> W * option Vnode.t;
  readlink_node : Z -> list Z -> W -> W * (list Z * option Z);
  root_node : W -> W * option Z;
  readdir_node : Z -> Z -> nat -> W -> W * (list DirEntry.t * option Z);
  readlink : Path -> list Z -> W -> W * (list Z * option Z);
  stat : Path -> bool -> W -> W * option Stat.t;
  read : Z -> Z -> list Z -> Z -> W -> W * (list Z * Z);
  readdir : Path -> Z -> nat -> W -> W * (list DirEntry.t * option Z);
  dir_exists : Path -> W -> W * bool;
  create : Path -> W -> W * option Vnode.t;
  supports_create : bool;
  mkdir : Path -> W -> W * Z;
  supports_mkdir : bool;
  rmdir : Path -> W -> W * Z;
  rename : Path -> Path -> W -> W * Z;
  supports_directory_mutation : bool;
  flush : Path -> W -> W * Z;
  mtime : Path -> W -> W * option Z;
  set_mtime : Path -> Z -> W -> W * bool;
  write : Z -> Z -> list Z -> W -> W * Z;
  clunk : Z -> W -> W;
  remove : Path -> W -> W * Z;
  meta : Path -> W -> W * option Meta.t;
  set_meta : Path -> Z -> Z -> Z -> W -> W * bool }.
Arguments mk {_}. Arguments open {_}. Arguments open_node {_}. Arguments readlink_node {_}. Arguments root_node {_}.
Arguments readdir_node {_}. Arguments readlink {_}. Arguments stat {_}. Arguments read {_}. Arguments readdir {_}.
Arguments dir_exists {_}. Arguments create {_}. Arguments supports_create {_}. Arguments mkdir {_}.
Arguments supports_mkdir {_}. Arguments rmdir {_}. Arguments rename {_}. Arguments supports_directory_mutation {_}.
Arguments flush {_}. Arguments mtime {_}. Arguments set_mtime {_}. Arguments write {_}. Arguments clunk {_}.
Arguments remove {_}. Arguments meta {_}. Arguments set_meta {_}.

(** The trait's default methods, over the ones a backend must give. *)
Section Default.
Context {W : Type} (open : Path -> W -> W * option Vnode.t) (read : Z -> Z -> list Z -> Z -> W -> W * (list Z * Z))
  (readdir : Path -> Z -> nat -> W -> W * (list DirEntry.t * option Z)) (dir_exists : Path -> W -> W * bool).

Definition default_stat (readlink : Path -> list Z -> W -> W * (list Z * option Z)) (clunk : Z -> W -> W)
    (path : Path) (follow_final : bool) (w : W) : W * option Stat.t :=
  let '(w, link) := if follow_final then (w, None)
                    else let '(w, (_, n)) := readlink path (replicate DIR_PATH_MAX 0) w in (w, n) in
  match link with
  | Some size => (w, Some (Stat.mk (u32 size) 511 false true 0))
  | None =>
      let '(w, d) := dir_exists path w in
      if d then (w, Some (Stat.mk 0 493 true false 0))
      else match open path w with
           | (w, None) => (w, None)
           | (w, Some v) => (clunk (Vnode.handle v) w, Some (Stat.mk (Vnode.size v) (Vnode.mode v) false false 0))
           end
  end.

(** What a backend that only reads inherits. *)
Definition read_only : t W :=
  mk open (fun _ w => (w, None)) (fun _ out w => (w, (out, None))) (fun w => (w, None)) (fun _ _ _ w => (w, ([], None)))
     (fun _ out w => (w, (out, None))) (default_stat (fun _ out w => (w, (out, None))) (fun _ w => w)) read readdir
     dir_exists (fun _ w => (w, None)) false (fun _ w => (w, -38)) false (fun _ w => (w, -38)) (fun _ _ w => (w, -38))
     false (fun _ w => (w, 0)) (fun _ w => (w, None)) (fun _ _ w => (w, false))
     (fun _ _ data w => (w, i32 (Z.of_nat (length data)))) (fun _ w => w) (fun _ w => (w, -1))
     (fun _ w => (w, None)) (fun _ _ _ _ w => (w, false)).
End Default.

Definition EMPTY_FS {W} : t W :=
  read_only (fun _ w => (w, None)) (fun _ _ b _ w => (w, (b, -2))) (fun _ _ _ w => (w, ([], None)))
            (fun _ w => (w, false)).
End Filesystem.

(** * The write rule *)

Module Grant.
Definition S_IWGRP : Z := 16.
Definition S_IRGRP : Z := 32.

Record t := mk { gid : Z }.

Definition from_home {W} (fs : Filesystem.t W) (home : Path) (w : W) : W * option t :=
  let '(w, m) := Filesystem.meta fs (strip_slash home) w in (w, m ← m; Some (mk (Meta.gid m))).

Definition allows (g : t) (m : Meta.t) : bool := (Meta.gid m =? gid g) && negb (Meta.mode m .& S_IWGRP =? 0).

Definition claim_mode (current : Z) : Z := current .| S_IWGRP .| S_IRGRP.
End Grant.

Inductive WriteAccess := ANone | Granted (g : Grant.t) | Delegated.

(** * The state *)

Inductive OpenAccess := ARead | AWrite | AReadWrite.
Inductive SharePolicy := Compatibility | DenyAll | DenyWrite | DenyRead | DenyNone.
Inductive MountMode := Replace | Union.

Module FileEntry.
Record t := mk { vnode : Vnode.t; offset : Z; refcount : Z; ino : Z; mount_idx : Z; writable : bool;
                 access : OpenAccess; share : SharePolicy; ram_key : Path }.
Definition set_offset (e : t) (o : Z) : t :=
  mk (vnode e) o (refcount e) (ino e) (mount_idx e) (writable e) (access e) (share e) (ram_key e).
Definition set_refcount (e : t) (r : Z) : t :=
  mk (vnode e) (offset e) r (ino e) (mount_idx e) (writable e) (access e) (share e) (ram_key e).
Definition set_size (e : t) (n : Z) : t :=
  mk (Vnode.mk (Vnode.handle (vnode e)) n (Vnode.mode (vnode e))) (offset e) (refcount e) (ino e) (mount_idx e)
     (writable e) (access e) (share e) (ram_key e).
Definition set_modes (e : t) (a : OpenAccess) (s : SharePolicy) : t :=
  mk (vnode e) (offset e) (refcount e) (ino e) (mount_idx e) (writable e) a s (ram_key e).
Definition set_key (e : t) (k : Path) : t :=
  mk (vnode e) (offset e) (refcount e) (ino e) (mount_idx e) (writable e) (access e) (share e) k.

Definition EMPTY : t := mk (Vnode.mk 0 0 0) 0 0 0 0 false ARead DenyNone [].
End FileEntry.

(** [ram_key] above is the source's pair of a 164-byte array and a length:
    the bytes in use. *)
Definition path_key (path : Path) : Path := take (Nat.min (length path) PATH_KEY_MAX) path.

Module FileLock.
Record t := mk { ino : Z; owner : Z; start : Z; len : Z }.
End FileLock.

Module DirCache.
Record t := mk { dir : Path; entries : list DirEntry.t; names : gmap Path nat }.
End DirCache.

Inductive BindTarget (W : Type) := Server (fs : Filesystem.t W) | Alias (src_prefix : Path).
Arguments Server {_}. Arguments Alias {_}.

Module Binding.
Record t (W : Type) := mk { prefix : Path; target : BindTarget W; access : WriteAccess; seq : Z }.
Arguments mk {_}. Arguments prefix {_}. Arguments target {_}. Arguments access {_}. Arguments seq {_}.
End Binding.

Record Vfs (W : Type) := mkVfs {
  mounts : list (Binding.t W); next_seq : Z;
  ram_files : gmap Path (list Z); ram_dirs : gset Path; modes : gmap Path Z; mtimes : gmap Path Z;
  locks : list FileLock.t; file_table : list FileEntry.t; dir_cache : list DirCache.t; dir_generation : Z }.
Arguments mkVfs {_}. Arguments mounts {_}. Arguments next_seq {_}. Arguments ram_files {_}. Arguments ram_dirs {_}.
Arguments modes {_}. Arguments mtimes {_}. Arguments locks {_}. Arguments file_table {_}. Arguments dir_cache {_}.
Arguments dir_generation {_}.

Definition new {W} : Vfs W :=
  mkVfs [] 0 ∅ ∅ ∅ ∅ [] (replicate MAX_OPEN_FILES FileEntry.EMPTY) [] 0.

Section Setters.
Context {W : Type}.
Implicit Type v : Vfs W.
Definition set_mounts v m n : Vfs W := mkVfs m n (ram_files v) (ram_dirs v) (modes v) (mtimes v) (locks v) (file_table v) (dir_cache v) (dir_generation v).
Definition set_ram_files v r : Vfs W := mkVfs (mounts v) (next_seq v) r (ram_dirs v) (modes v) (mtimes v) (locks v) (file_table v) (dir_cache v) (dir_generation v).
Definition set_ram_dirs v d : Vfs W := mkVfs (mounts v) (next_seq v) (ram_files v) d (modes v) (mtimes v) (locks v) (file_table v) (dir_cache v) (dir_generation v).
Definition set_vmodes v m : Vfs W := mkVfs (mounts v) (next_seq v) (ram_files v) (ram_dirs v) m (mtimes v) (locks v) (file_table v) (dir_cache v) (dir_generation v).
Definition set_mtimes v m : Vfs W := mkVfs (mounts v) (next_seq v) (ram_files v) (ram_dirs v) (modes v) m (locks v) (file_table v) (dir_cache v) (dir_generation v).
Definition set_locks v l : Vfs W := mkVfs (mounts v) (next_seq v) (ram_files v) (ram_dirs v) (modes v) (mtimes v) l (file_table v) (dir_cache v) (dir_generation v).
Definition set_table v t : Vfs W := mkVfs (mounts v) (next_seq v) (ram_files v) (ram_dirs v) (modes v) (mtimes v) (locks v) t (dir_cache v) (dir_generation v).
Definition set_cache v c g : Vfs W := mkVfs (mounts v) (next_seq v) (ram_files v) (ram_dirs v) (modes v) (mtimes v) (locks v) (file_table v) c g.

Definition set_entry v (i : nat) (e : FileEntry.t) : Vfs W := set_table v (<[i := e]> (file_table v)).
End Setters.

Record St (W : Type) := mkSt { vfs : Vfs W; world : W }.
Arguments mkSt {_}. Arguments vfs {_}. Arguments world {_}.

(** A BTreeMap's entries in key order. *)
Fixpoint path_leb (a b : Path) : bool :=
  match a, b with
  | [], _ => true
  | _ :: _, [] => false
  | x :: a, y :: b => if x =? y then path_leb a b else x <? y
  end.

Section Iter.
Context {A : Type} (leb : A -> A -> bool).
Fixpoint insert_sorted (x : A) (l : list A) : list A :=
  match l with
  | [] => [x]
  | y :: l => if leb x y then x :: y :: l else y :: insert_sorted x l
  end.
Definition isort (l : list A) : list A := foldr insert_sorted [] l.
End Iter.

Definition btree_iter {A} (m : gmap Path A) : list (Path * A) :=
  isort (fun a b => path_leb (fst a) (fst b)) (map_to_list m).
Definition btree_keys (s : gset Path) : list Path := isort path_leb (elements s).

(** * The namespace *)

Section Namespace.
Context {W : Type}.

(** The length of the longest prefix that matches. *)
Definition best_prefix (ms : list (Binding.t W)) (path : Path) : option nat :=
  foldl (fun best b => match match_prefix (Binding.prefix b) path with
                       | Some _ => Some (match best with None => length (Binding.prefix b)
                                         | Some x => Nat.max x (length (Binding.prefix b)) end)
                       | None => best
                       end) None ms.

(** The scratch array of a group: indices and sequence numbers of the
    bindings at the best prefix, as far as the array goes. *)
Definition group (ms : list (Binding.t W)) (path : Path) (best : nat) : list (nat * Z) :=
  take MAX_UNION
    (omap (fun ib : nat * Binding.t W =>
             if (length (Binding.prefix ib.2) =? best)%nat && bool_decide (is_Some (match_prefix (Binding.prefix ib.2) path))
             then Some (ib.1, Binding.seq ib.2) else None)
          (imap pair ms)).

(** [sort_by_key(|&(_, seq)| Reverse(seq))], a stable sort. *)
Definition by_seq (a b : nat * Z) : bool := b.2 <=? a.2.

Section Resolve.
Context {S R : Type} (ms : list (Binding.t W)) (f : Z -> Filesystem.t W -> Path -> M S (option R)).

Fixpoint resolve_members (depth : nat) (path : Path) : M S (option R) :=
  match best_prefix ms path with
  | None => mret None
  | Some best =>
      (fix visit (members : list (nat * Z)) : M S (option R) :=
         match members with
         | [] => mret None
         | (i, _) :: rest =>
             b ← expect (ms !! i);
             start ← expect (match_prefix (Binding.prefix b) path);
             let subpath := drop start path in
             r ← match Binding.target b with
                 | Server fs => f (u8 (Z.of_nat i)) fs subpath
                 | Alias src_prefix =>
                     match depth with
                     | O => mret None
                     | Datatypes.S depth =>
                         if (PATH_KEY_MAX <? length src_prefix + length subpath)%nat then mret None
                         else resolve_members depth (src_prefix ++ subpath)
                     end
                 end;
             match r with Some r => mret (Some r) | None => visit rest end
         end) (isort by_seq (group ms path best))
  end.
End Resolve.

(** The best [Server] binding: its index and where the subpath starts. *)
Definition head_step (path : Path) (best : option (nat * Z * nat * nat)) (ib : nat * Binding.t W)
  : option (nat * Z * nat * nat) :=
  let '(i, b) := ib in
  match Binding.target b with
  | Server _ =>
      match match_prefix (Binding.prefix b) path with
      | Some start =>
          let plen := length (Binding.prefix b) in
          let better := match best with
                        | None => true
                        | Some (bl, bseq, _, _) => (bl <? plen)%nat || ((plen =? bl)%nat && (bseq <? Binding.seq b))
                        end in
          if better then Some (plen, Binding.seq b, i, start) else best
      | None => best
      end
  | Alias _ => best
  end.

Definition resolve_head (ms : list (Binding.t W)) (path : Path) : Z * Filesystem.t W * Path :=
  match foldl (head_step path) None (imap pair ms) with
  | Some (_, _, i, start) =>
      match ms !! i with
      | Some (Binding.mk _ (Server fs) _ _) => (u8 (Z.of_nat i), fs, drop start path)
      | _ => (0, Filesystem.EMPTY_FS, path)
      end
  | None => (0, Filesystem.EMPTY_FS, path)
  end.

Fixpoint trim_slashes (p : Path) : Path :=
  match p with b :: rest => if b =? SLASH then trim_slashes rest else p | [] => [] end.

Definition mount_child (ms : list (Binding.t W)) (parent name : Path) : option Path :=
  let par := reverse (trim_slashes (reverse (trim_slashes parent))) in
  head (omap (fun b =>
    let p := strip_slash (Binding.prefix b) in
    if is_nil p then None
    else let '(dir, last) := match rposition (fun b => b =? SLASH) p with
                             | Some idx => (take idx p, drop (idx + 1) p)
                             | None => ([], p)
                             end in
         if eq_ignore_case dir par && eq_ignore_case last name then Some last else None) ms).

Implicit Type v : Vfs W.

Definition add_binding v (prefix : Path) (target : BindTarget W) (mode : MountMode) : Vfs W :=
  let ms := match mode with
            | Replace => filter (fun b => eq_ignore_case (Binding.prefix b) prefix = false) (mounts v)
            | Union => mounts v
            end in
  set_mounts v (ms ++ [Binding.mk prefix target Delegated (next_seq v)]) (u32 (next_seq v + 1)).

Definition mount v prefix fs : Vfs W := add_binding v prefix (Server fs) Replace.
Definition mount_union v prefix fs : Vfs W := add_binding v prefix (Server fs) Union.
Definition bind v prefix src_prefix mode : Vfs W := add_binding v prefix (Alias src_prefix) mode.

(** [find] the binding at the prefix and assign its access. *)
Fixpoint set_access (ms : list (Binding.t W)) (prefix : Path) (a : WriteAccess) : list (Binding.t W) :=
  match ms with
  | [] => []
  | b :: ms => if decide (Binding.prefix b = prefix)
               then Binding.mk (Binding.prefix b) (Binding.target b) a (Binding.seq b) :: ms
               else b :: set_access ms prefix a
  end.

Definition mount_writable (s : St W) (prefix : Path) (fs : Filesystem.t W) (home : Path) : St W :=
  let v := mount (vfs s) prefix fs in
  let '(w, g) := Grant.from_home fs home (world s) in
  let access := match g with Some g => Granted g | None => ANone end in
  mkSt (set_mounts v (set_access (mounts v) prefix access) (next_seq v)) w.

End Namespace.

(** * The methods of [Vfs] *)

Section Methods.
Context {W : Type} (fuel : nat).

Local Abbreviation K := (M (St W)).

(** A backend call. *)
Definition call {A} (f : W -> W * A) : K A := fun s => let '(w, a) := f (world s) in Val (mkSt (vfs s) w, a).
Definition self : K (Vfs W) := gets vfs.
Definition update (f : Vfs W -> Vfs W) : K () := modify (fun s => mkSt (f (vfs s)) (world s)).

(** [resolve_members] with a closure that mutates the backends and the
    locals it captures. *)
Definition resolve_with {T R} (path : Path) (f : Z -> Filesystem.t W -> Path -> M (W * T) (option R)) (t : T)
  : K (T * option R) := fun s =>
  match resolve_members (mounts (vfs s)) f ALIAS_DEPTH path (world s, t) with
  | Val ((w, t), r) => Val (mkSt (vfs s) w, (t, r))
  | Panic => Panic
  | Diverge => Diverge
  end.

(** The same with no captured locals. *)
Definition resolve {R} (path : Path) (f : Z -> Filesystem.t W -> Path -> M W (option R)) : K (option R) :=
  fun s => match resolve_members (mounts (vfs s)) f ALIAS_DEPTH path (world s) with
           | Val (w, r) => Val (mkSt (vfs s) w, r)
           | Panic => Panic
           | Diverge => Diverge
           end.

Definition on_world {A} (f : W -> W * A) : M W A := fun w => Val (f w).

Definition mount_fs (idx : Z) : K (Filesystem.t W) :=
  v ← self;
  b ← expect (mounts v !! Z.to_nat idx);
  match Binding.target b with Server fs => mret fs | Alias _ => panic end.

Definition may_write (midx : Z) (subpath : Path) : K bool :=
  v ← self;
  b ← expect (mounts v !! Z.to_nat midx);
  match Binding.access b with
  | ANone => mret false
  | Delegated => mret true
  | Granted grant =>
      fs ← mount_fs midx;
      m ← call (Filesystem.meta fs subpath);
      mret (match m with Some m => Grant.allows grant m | None => false end)
  end.

Definition may_write_parent (midx : Z) (subpath : Path) : K bool :=
  match parent_of subpath with Some parent => may_write midx parent | None => mret false end.

Definition claim (midx : Z) (subpath : Path) : K () :=
  v ← self;
  b ← expect (mounts v !! Z.to_nat midx);
  match Binding.access b with
  | Granted grant =>
      fs ← mount_fs midx;
      m ← call (Filesystem.meta fs subpath);
      match m with
      | Some m =>
          _ ← call (Filesystem.set_meta fs subpath (Meta.uid m) (Grant.gid grant) (Grant.claim_mode (Meta.mode m)));
          mret ()
      | None => mret ()
      end
  | _ => mret ()
  end.

(** ** The file table *)

Definition alloc_file_entry (v : Vfs W) : option nat :=
  fst <$> list_find (fun e => FileEntry.refcount e = 0) (file_table v).

(** [file_table[i]] for an [i] the caller has checked. *)
Definition entry (v : Vfs W) (i : Z) : FileEntry.t :=
  default FileEntry.EMPTY (file_table v !! Z.to_nat i).

Definition in_table (idx : Z) : bool := (0 <=? idx) && (idx <? Z.of_nat MAX_OPEN_FILES).

(** [file_table.get(handle as usize)] with its reference count not zero. *)
Definition live (v : Vfs W) (handle : Z) : bool := in_table handle && negb (FileEntry.refcount (entry v handle) =? 0).

Definition close_handle (idx : Z) : K () :=
  v ← self;
  if negb (live v idx) then mret ()
  else
    let e := entry v idx in
    let e' := FileEntry.set_refcount e (FileEntry.refcount e - 1) in
    _ ← update (fun v => set_entry v (Z.to_nat idx) e');
    if negb (FileEntry.refcount e' =? 0) then mret ()
    else
      _ ← update (fun v => set_locks v (filter (fun l => FileLock.owner l <> idx) (locks v)));
      if Vnode.handle (FileEntry.vnode e) =? RAM_SENTINEL then mret ()
      else
        fs ← mount_fs (FileEntry.mount_idx e);
        call (fun w => (Filesystem.clunk fs (Vnode.handle (FileEntry.vnode e)) w, ())).

Definition add_ref (idx : Z) : K () :=
  if in_table idx
  then update (fun v => let e := entry v idx in
                        set_entry v (Z.to_nat idx) (FileEntry.set_refcount e (u16 (FileEntry.refcount e + 1))))
  else mret ().

(** ** The directory cache *)

Definition invalidate_dir_cache : K () := update (fun v => set_cache v [] (u64 (dir_generation v + 1))).

Definition find_cached (v : Vfs W) (dir : Path) : option DirCache.t :=
  snd <$> list_find (fun c => DirCache.dir c = dir) (dir_cache v).

Definition cached_directory_node (v : Vfs W) (dir : Path) (mount_idx : Z) : option Z :=
  '(parent, name) ← split_parent_bytes dir;
  cached ← find_cached v parent;
  i ← DirCache.names cached !! name;
  e ← DirCache.entries cached !! i;
  if (DirEntry.mount_idx e =? mount_idx) && negb (DirEntry.node e =? 0) && DirEntry.is_dir e
  then Some (DirEntry.node e) else None.

(** [entry.name[..entry.name_len]] *)
Definition entry_name (e : DirEntry.t) : option Path :=
  if (DirEntry.name_len e <=? length (DirEntry.name e))%nat then Some (take (DirEntry.name_len e) (DirEntry.name e))
  else None.

(** An entry the namespace itself makes: the first 100 bytes of the name. *)
Definition synth_entry (basename : Path) (size : Z) (is_dir : bool) (mode : Z) : DirEntry.t :=
  let len := Nat.min (length basename) 100 in
  DirEntry.mk (take len basename ++ replicate (100 - len) 0) len size is_dir false mode 0 0 0.

(** A listing in the making: the entries so far and the folded names taken. *)
Definition Listing : Type := list DirEntry.t * gset Path.

Definition claim_visible_name (names : gset Path) (name : Path) : gset Path * bool :=
  (names ∪ {[fold_case name]}, bool_decide (fold_case name ∉ names)).

Definition add_entry (l : Listing) (name : Path) (e : DirEntry.t) : Listing :=
  let '(names, fresh) := claim_visible_name l.2 name in (if fresh then l.1 ++ [e] else l.1, names).

Fixpoint add_batch (idx : Z) (batch : list DirEntry.t) (l : Listing) : option Listing :=
  match batch with
  | [] => Some l
  | e :: batch => name ← entry_name e; add_batch idx batch (add_entry l name (DirEntry.set_mount e idx))
  end.

(** The closure over one member of the group. *)
Fixpoint enumerate (fuel : nat) (idx : Z) (fs : Filesystem.t W) (directory_node : option Z) (subpath : Path)
    (cookie : Z) : M (W * Listing) () :=
  match fuel with
  | O => diverge
  | S fuel => fun '(w, l) =>
      let '(w, (batch, next)) :=
        match directory_node with
        | Some node => Filesystem.readdir_node fs node cookie READDIR_BATCH w
        | None => Filesystem.readdir fs subpath cookie READDIR_BATCH w
        end in
      match add_batch idx batch l with
      | None => Panic
      | Some l =>
          match next with
          | Some c => if c =? cookie then Val ((w, l), ()) else enumerate fuel idx fs directory_node subpath c (w, l)
          | None => Val ((w, l), ())
          end
      end
  end.

Definition list_member (v : Vfs W) (dir : Path) (idx : Z) (fs : Filesystem.t W) (subpath : Path)
  : M (W * Listing) (option ()) :=
  directory_node ← (if is_nil subpath
                    then (fun '(w, l) => let '(w, n) := Filesystem.root_node fs w in Val ((w, l), n))
                    else mret (cached_directory_node v dir idx));
  _ ← enumerate fuel idx fs directory_node subpath READDIR_START;
  mret None.

(** The layers of the overlay above the backends, and the mount points below. *)
Definition ram_layer (v : Vfs W) (dir : Path) : Listing :=
  let l := foldl (fun l kd => match entry_in_ram_dir kd.1 dir with
                              | Some b => add_entry l b (synth_entry b (u32 (Z.of_nat (length kd.2))) false 420)
                              | None => l
                              end) ([], ∅) (btree_iter (ram_files v)) in
  foldl (fun l key => match entry_in_ram_dir key dir with
                      | Some b => add_entry l b (synth_entry b 0 true 493)
                      | None => l
                      end) l (btree_keys (ram_dirs v)).

Definition mount_layer (v : Vfs W) (dir : Path) (l : Listing) : Listing :=
  foldl (fun l b => match mount_child_in_dir (Binding.prefix b) dir with
                    | Some name => add_entry l name (synth_entry name 0 true 493)
                    | None => l
                    end) l (mounts v).

Definition dir_cache_new (dir : Path) (entries : list DirEntry.t) : option DirCache.t :=
  names ← foldl (fun acc ie => m ← acc; name ← entry_name ie.2; Some (<[name := ie.1]> m)) (Some ∅) (imap pair entries);
  Some (DirCache.mk dir entries names).

Definition populate_dir_cache (dir : Path) : K () :=
  v ← self;
  '(l, _) ← resolve_with dir (list_member v dir) (ram_layer v dir);
  c ← expect (dir_cache_new dir (mount_layer v dir l).1);
  update (fun v => set_cache v (dir_cache v ++ [c]) (dir_generation v)).

Definition ensure_cached (dir : Path) : K () :=
  v ← self; if find_cached v dir is Some _ then mret () else populate_dir_cache dir.

Definition readdir (dir : Path) (index : nat) : K (option DirEntry.t) :=
  _ ← ensure_cached dir;
  v ← self;
  mret (c ← find_cached v dir; DirCache.entries c !! index).

Definition cached_child (parent name : Path) : K (option DirEntry.t) :=
  _ ← ensure_cached parent;
  v ← self;
  mret (c ← find_cached v parent; i ← DirCache.names c !! name; DirCache.entries c !! i).

(** ** Symbolic links *)

Definition readlink_entry (path : Path) (e : DirEntry.t) (out : list Z) : K (list Z * option Z) :=
  '(out, n) ← (if DirEntry.node e =? 0 then mret (out, None)
               else fs ← mount_fs (DirEntry.mount_idx e); call (Filesystem.readlink_node fs (DirEntry.node e) out));
  match n with
  | Some len => mret (out, Some len)
  | None =>
      resolve_with path (fun _ fs subpath '(w, out) =>
        let '(w, (out, n)) := Filesystem.readlink fs subpath out w in Val ((w, out), n)) out
  end.

(** [target[..len]] *)
Definition slice_to (buf : list Z) (len : Z) : option (list Z) :=
  if (0 <=? len) && (len <=? Z.of_nat (length buf)) then Some (take (Z.to_nat len) buf) else None.

Definition contains_nul (p : Path) : bool := existsb (fun b => b =? 0) p.

(** Where one component leads: nowhere, one step further, or into a link. *)
Fixpoint resolve_loop (n : nat) (follow_final : bool) (resolved pending : list Path) (links : nat)
  : K (option Path) :=
  match n with
  | O => diverge
  | S n =>
      match pending with
      | [] => mret (Some (join_path_components resolved))
      | component :: pending =>
          if decide (component = DOTDOT)
          then resolve_loop n follow_final (take (length resolved - 1) resolved) pending links
          else
            let parent := join_path_components resolved in
            e ← cached_child parent component;
            match e with
            | None => mret None
            | Some e =>
                let is_final := match pending with [] => true | _ => false end in
                if DirEntry.is_symlink e && (follow_final || negb is_final) then
                  let links := (links + 1)%nat in
                  if (40 <? links)%nat then mret None
                  else
                    name ← expect (entry_name e);
                    let candidate := (if is_nil parent then parent else parent ++ [SLASH]) ++ name in
                    '(target, len) ← readlink_entry candidate e (replicate DIR_PATH_MAX 0);
                    match len with
                    | None => mret None
                    | Some len =>
                        if len =? 0 then mret None
                        else
                          target ← expect (slice_to target len);
                          if contains_nul target then mret None
                          else
                            let resolved := if bool_decide (head target = Some SLASH) then [] else resolved in
                            resolve_loop n follow_final resolved (path_components target ++ pending) links
                    end
                else
                  name ← expect (entry_name e);
                  resolve_loop n follow_final (resolved ++ [name]) pending links
            end
      end
  end.

(** Enough turns: every link followed adds the components of at most 164
    bytes, and at most 40 are followed. *)
Definition link_fuel (path : Path) : nat := S (length (path_components path) + 40 * (DIR_PATH_MAX + 2)).

Definition resolve_symlinks (path : Path) (follow_final : bool) : K (option Path) :=
  if contains_nul path then mret None
  else resolve_loop (link_fuel path) follow_final [] (path_components path) 0.

Definition resolve_parent_symlinks (path : Path) : K (option Path) :=
  match split_parent_bytes path with
  | None => mret None
  | Some (parent, name) =>
      if is_nil name || bool_decide (name = DOT) || bool_decide (name = DOTDOT) then mret None
      else
        r ← resolve_symlinks parent true;
        mret (resolved ← r; Some ((if is_nil resolved then resolved else resolved ++ [SLASH]) ++ name))
  end.

Definition mount_fs_open (idx : Z) (node : Z) : K (option Vnode.t) :=
  fs ← mount_fs idx; call (Filesystem.open_node fs node).

Definition open_cached_node (path : Path) : K (option (Z * Vnode.t * Path)) :=
  let '(parent, name) := match rposition (fun b => b =? SLASH) path with
                         | Some separator => (take separator path, drop (separator + 1) path)
                         | None => ([], path)
                         end in
  if is_nil name then mret None
  else
    e ← cached_child parent name;
    match e with
    | None => mret None
    | Some e =>
        if (DirEntry.node e =? 0) || DirEntry.is_dir e || DirEntry.is_symlink e then mret None
        else
          sub ← resolve path (fun idx _ subpath => mret (if idx =? DirEntry.mount_idx e then Some subpath else None));
          match sub with
          | None => mret None
          | Some sub =>
              vn ← mount_fs_open (DirEntry.mount_idx e) (DirEntry.node e);
              mret (vn ← vn; Some (DirEntry.mount_idx e, vn, sub))
          end
    end.

(** The entry of the last component, in its parent's listing. *)
Definition lookup_child (path : Path) : K (option DirEntry.t) :=
  match split_parent_bytes path with
  | Some (parent, name) => cached_child parent name
  | None => mret None
  end.

Definition dir_exists (path : Path) : K bool :=
  r ← resolve_symlinks path true;
  match r with
  | None => mret false
  | Some path =>
      v ← self;
      if bool_decide (path ∈ ram_dirs v) then mret true
      else
        e ← lookup_child path;
        match e with
        | Some e => mret (DirEntry.is_dir e)
        | None =>
            r ← resolve path (fun _ fs subpath =>
              if is_nil subpath then mret (Some ())
              else b ← on_world (Filesystem.dir_exists fs subpath); mret (if b : bool then Some () else None));
            mret (bool_decide (is_Some r))
        end
  end.

Definition readlink (path : Path) (out : list Z) : K (list Z * option Z) :=
  r ← resolve_symlinks path false;
  match r with
  | None => mret (out, None)
  | Some resolved =>
      e ← lookup_child resolved;
      match e with
      | Some e => if DirEntry.is_symlink e then readlink_entry resolved e out else mret (out, None)
      | None => mret (out, None)
      end
  end.

Definition stat (path : Path) (follow_final : bool) : K (option Stat.t) :=
  r ← resolve_symlinks path follow_final;
  match r with
  | None => mret None
  | Some path =>
      v ← self;
      match ram_files v !! path with
      | Some data =>
          mret (Some (Stat.mk (Z.min (Z.of_nat (length data)) U32_MAX) (u16 (default 420 (modes v !! path)))
                              false false (path_ino path)))
      | None =>
          if bool_decide (path ∈ ram_dirs v)
          then mret (Some (Stat.mk 0 (u16 (default 493 (modes v !! path))) true false (path_ino path)))
          else
            let override_mode := modes v !! path in
            e ← lookup_child path;
            match e with
            | Some e =>
                mret (Some (Stat.mk (DirEntry.size e) (u16 (default (DirEntry.mode e) override_mode))
                                    (DirEntry.is_dir e) (DirEntry.is_symlink e) (path_ino path)))
            | None =>
                resolve path (fun _ fs subpath =>
                  st ← (if is_nil subpath then mret (Some (Stat.mk 0 493 true false 0))
                        else on_world (Filesystem.stat fs subpath false));
                  mret (st ← st;
                        let mode := match override_mode with Some m => u16 m | None => Stat.mode st end in
                        let ino := if Stat.ino st =? 0 then path_ino path else Stat.ino st in
                        Some (Stat.mk (Stat.size st) mode (Stat.is_dir st) (Stat.is_symlink st) ino)))
            end
      end
  end.

Definition head_of (path : Path) : K (Z * Filesystem.t W * Path) :=
  v ← self; mret (resolve_head (mounts v) path).

Definition mkdir (path : Path) : K Z :=
  d ← dir_exists path;
  if d : bool then mret (-17)
  else
    r ← resolve_parent_symlinks path;
    match r with
    | None => mret (-2)
    | Some path =>
        '(midx, fs, subpath) ← head_of path;
        if Filesystem.supports_mkdir fs then
          ok ← may_write_parent midx subpath;
          if negb ok then mret (-13)
          else
            rc ← call (Filesystem.mkdir fs subpath);
            if rc <? 0 then mret rc
            else
              _ ← claim midx subpath;
              _ ← invalidate_dir_cache; mret 0
        else
          _ ← update (fun v => set_ram_dirs v (ram_dirs v ∪ {[path]}));
          _ ← invalidate_dir_cache; mret 0
    end.

(** [alloc_file_entry] and the assignment of the entry. *)
Definition install (e : FileEntry.t) : K Z :=
  v ← self;
  match alloc_file_entry v with
  | None => mret (-24)
  | Some i => _ ← update (fun v => set_entry v i e); mret (Z.of_nat i)
  end.

Definition ram_entry (size ino : Z) (path : Path) : FileEntry.t :=
  FileEntry.mk (Vnode.mk RAM_SENTINEL size 420) 0 1 ino 0 true ARead DenyNone (path_key path).

Definition open_to_handle (path : Path) : K Z :=
  let original_ino := path_ino path in
  r ← resolve_symlinks path true;
  match r with
  | None => mret (-2)
  | Some path =>
      v ← self;
      match ram_files v !! path with
      | Some data => install (ram_entry (u32 (Z.of_nat (length data))) original_ino path)
      | None =>
          r ← open_cached_node path;
          r ← match r with
              | Some x => mret (Some x)
              | None => resolve path (fun idx fs subpath =>
                          vn ← on_world (Filesystem.open fs subpath);
                          mret (vn ← vn; Some (idx, vn, subpath)))
              end;
          match r with
          | None => mret (-2)
          | Some (midx, vnode, sub) =>
              v ← self;
              match alloc_file_entry v with
              | None => mret (-24)
              | Some i =>
                  writable ← may_write midx sub;
                  _ ← update (fun v => set_entry v i
                        (FileEntry.mk vnode 0 1 original_ino midx writable ARead DenyNone (path_key path)));
                  mret (Z.of_nat i)
              end
          end
      end
  end.

Definition create_to_handle (path : Path) : K Z :=
  let original_ino := path_ino path in
  r ← resolve_symlinks path true;
  r ← match r with Some p => mret (Some p) | None => resolve_parent_symlinks path end;
  match r with
  | None => mret (-2)
  | Some path =>
      '(midx, fs, subpath) ← head_of path;
      m ← call (Filesystem.meta fs subpath);
      let existed := bool_decide (is_Some m) in
      permitted ← (if Filesystem.supports_create fs
                   then (if existed then may_write midx subpath else may_write_parent midx subpath)
                   else mret true);
      if negb permitted then mret (-13)
      else
        vn ← call (Filesystem.create fs subpath);
        match vn with
        | Some vnode =>
            _ ← (if existed then mret () else claim midx subpath);
            v ← self;
            match alloc_file_entry v with
            | None => mret (-24)
            | Some i =>
                _ ← update (fun v => set_entry v i
                      (FileEntry.mk vnode 0 1 original_ino midx true ARead DenyNone (path_key path)));
                _ ← invalidate_dir_cache;
                mret (Z.of_nat i)
            end
        | None =>
            if Filesystem.supports_create fs then mret (-13)
            else
              _ ← update (fun v => set_ram_files v (<[path := []]> (ram_files v)));
              _ ← invalidate_dir_cache;
              install (ram_entry 0 original_ino path)
        end
  end.

(** [p.starts_with(&prefix)] *)
Fixpoint starts_with (prefix p : Path) : bool :=
  match prefix, p with
  | [], _ => true
  | x :: prefix, y :: p => (x =? y) && starts_with prefix p
  | _ :: _, [] => false
  end.

Definition forget_meta (path : Path) (v : Vfs W) : Vfs W :=
  set_mtimes (set_vmodes v (delete path (modes v))) (delete path (mtimes v)).

Definition rmdir (path : Path) : K Z :=
  r ← resolve_parent_symlinks path;
  match r with
  | None => mret (-2)
  | Some path =>
      v ← self;
      if bool_decide (path ∈ ram_dirs v) then
        let prefix := path ++ [SLASH] in
        if existsb (starts_with prefix) (btree_keys (ram_dirs v))
           || existsb (fun kd => starts_with prefix kd.1) (btree_iter (ram_files v))
        then mret (-39)
        else
          _ ← update (fun v => set_ram_dirs v (ram_dirs v ∖ {[path]}));
          _ ← update (forget_meta path);
          _ ← invalidate_dir_cache; mret 0
      else
        '(midx, fs, subpath) ← head_of path;
        if negb (Filesystem.supports_directory_mutation fs) then mret (-38)
        else
          parent_ok ← may_write_parent midx subpath;
          ok ← (if parent_ok : bool then may_write midx subpath else mret false);
          if negb ok then mret (-13)
          else
            rc ← call (Filesystem.rmdir fs subpath);
            if 0 <=? rc then
              _ ← update (forget_meta path);
              _ ← invalidate_dir_cache; mret rc
            else mret rc
  end.

Definition rekey (old new : Path) (e : FileEntry.t) : FileEntry.t :=
  if negb (FileEntry.refcount e =? 0) && bool_decide (FileEntry.ram_key e = old) && (length new <=? PATH_KEY_MAX)%nat
  then FileEntry.set_key e new else e.

Definition rekey_open_paths (old new : Path) : K () :=
  update (fun v => set_table v (rekey old new <$> file_table v)).

Definition path_exists (path : Path) : K bool :=
  r ← resolve_symlinks path true;
  match r with
  | None => mret false
  | Some path =>
      v ← self;
      if bool_decide (is_Some (ram_files v !! path)) || bool_decide (path ∈ ram_dirs v) then mret true
      else
        e ← lookup_child path;
        match e with
        | Some _ => mret true
        | None =>
            if is_nil path then mret true
            else
              r ← resolve path (fun _ fs subpath w =>
                    match Filesystem.open fs subpath w with
                    | (w, Some vn) => Val (Filesystem.clunk fs (Vnode.handle vn) w, Some ())
                    | (w, None) => Val (w, None)
                    end);
              mret (bool_decide (is_Some r))
        end
  end.

(** Moving the files and directories of a RAM directory. *)
Definition move_ram_dir (old new : Path) : K () :=
  v ← self;
  let old_prefix := old ++ [SLASH] in
  let new_prefix := new ++ [SLASH] in
  let dst src := new_prefix ++ drop (length old_prefix) src in
  let dirs := filter (fun p => p = old \/ starts_with old_prefix p = true) (btree_keys (ram_dirs v)) in
  let files := filter (fun p => starts_with old_prefix p = true) (fst <$> btree_iter (ram_files v)) in
  _ ← update (fun v => foldl (fun v src =>
        set_ram_dirs v ((ram_dirs v ∖ {[src]}) ∪ {[if decide (src = old) then new else dst src]})) v dirs);
  (fix move (files : list Path) : K () :=
     match files with
     | [] => mret ()
     | src :: files =>
         v ← self;
         data ← expect (ram_files v !! src);
         _ ← update (fun v => set_ram_files v (<[dst src := data]> (delete src (ram_files v))));
         _ ← rekey_open_paths src (dst src);
         move files
     end) files.

Definition move_key {A} (old new : Path) (m : gmap Path A) : gmap Path A :=
  match m !! old with Some x => <[new := x]> (delete old m) | None => m end.

(** The end of a rename that went through. *)
Definition rename_done (old new : Path) : K Z :=
  _ ← update (fun v => set_mtimes (set_vmodes v (move_key old new (modes v))) (move_key old new (mtimes v)));
  _ ← invalidate_dir_cache; mret 0.

Definition rename (old new : Path) : K Z :=
  o ← resolve_parent_symlinks old;
  match o with
  | None => mret (-2)
  | Some old =>
      n ← resolve_parent_symlinks new;
      match n with
      | None => mret (-2)
      | Some new =>
          ex ← path_exists new;
          if ex : bool then mret (-17)
          else
            v ← self;
            match ram_files v !! old with
            | Some data =>
                _ ← update (fun v => set_ram_files v (<[new := data]> (delete old (ram_files v))));
                _ ← rekey_open_paths old new;
                rename_done old new
            | None =>
                if bool_decide (old ∈ ram_dirs v) then
                  _ ← move_ram_dir old new;
                  rename_done old new
                else
                  '(old_idx, old_fs, old_sub) ← head_of old;
                  '(new_idx, _, new_sub) ← head_of new;
                  if negb (old_idx =? new_idx) then mret (-18)
                  else if negb (Filesystem.supports_directory_mutation old_fs) then mret (-38)
                  else
                    a ← may_write old_idx old_sub;
                    b ← (if a : bool then may_write_parent old_idx old_sub else mret false);
                    c ← (if b : bool then may_write_parent new_idx new_sub else mret false);
                    if negb c then mret (-13)
                    else
                      rc ← call (Filesystem.rename old_fs old_sub new_sub);
                      if rc <? 0 then mret rc
                      else
                        _ ← rekey_open_paths old new;
                        rename_done old new
            end
      end
  end.

Definition path_mode (path : Path) : K (option (Z * bool)) :=
  ex ← path_exists path;
  if negb ex then mret None
  else
    r ← resolve_symlinks path true;
    match r with
    | None => mret None
    | Some path =>
        is_dir ← dir_exists path;
        v ← self;
        match modes v !! path with
        | Some mode => mret (Some (mode, is_dir))
        | None =>
            if bool_decide (is_Some (ram_files v !! path)) then mret (Some (420, false))
            else if bool_decide (path ∈ ram_dirs v) then mret (Some (493, true))
            else
              '(_, fs, subpath) ← head_of path;
              m ← call (Filesystem.meta fs subpath);
              match m with
              | Some m => mret (Some (Meta.mode m, is_dir))
              | None =>
                  if is_dir : bool then mret (Some (365, true))
                  else
                    resolve path (fun _ fs subpath w =>
                      match Filesystem.open fs subpath w with
                      | (w, Some vn) => Val (Filesystem.clunk fs (Vnode.handle vn) w, Some (Vnode.mode vn, false))
                      | (w, None) => Val (w, None)
                      end)
              end
        end
    end.

(** The guard of the operations that change an object a backend has facts
    about: no facts, or a permitted write. *)
Definition guard_meta (midx : Z) (fs : Filesystem.t W) (subpath : Path) : K bool :=
  m ← call (Filesystem.meta fs subpath);
  match m with Some _ => may_write midx subpath | None => mret true end.

Definition set_path_mode (path : Path) (mode : Z) : K Z :=
  ex ← path_exists path;
  if negb ex then mret (-2)
  else
    r ← resolve_symlinks path true;
    match r with
    | None => mret (-2)
    | Some path =>
        '(midx, fs, subpath) ← head_of path;
        ok ← guard_meta midx fs subpath;
        if negb ok then mret (-13)
        else
          m ← call (Filesystem.meta fs subpath);
          ok ← match m with
               | Some m => call (Filesystem.set_meta fs subpath (Meta.uid m) (Meta.gid m) mode)
               | None => mret true
               end;
          if negb ok then mret (-13)
          else
            _ ← update (fun v => set_vmodes v (<[path := mode]> (modes v)));
            _ ← invalidate_dir_cache; mret 0
    end.

Definition handle_path (v : Vfs W) (handle : Z) : option Path :=
  if live v handle then Some (FileEntry.ram_key (entry v handle)) else None.

Definition flush_handle (handle : Z) : K Z :=
  v ← self;
  match handle_path v handle with
  | None => mret (-9)
  | Some path => '(_, fs, subpath) ← head_of path; call (Filesystem.flush fs subpath)
  end.

Definition handle_mtime (handle : Z) : K (option Z) :=
  v ← self;
  match handle_path v handle with
  | None => mret None
  | Some path =>
      match mtimes v !! path with
      | Some t => mret (Some t)
      | None => '(_, fs, subpath) ← head_of path; call (Filesystem.mtime fs subpath)
      end
  end.

Definition set_handle_mtime (handle mtime : Z) : K Z :=
  v ← self;
  match handle_path v handle with
  | None => mret (-9)
  | Some path =>
      '(midx, fs, subpath) ← head_of path;
      ok ← guard_meta midx fs subpath;
      if negb ok then mret (-13)
      else
        m ← call (Filesystem.meta fs subpath);
        ok ← match m with Some _ => call (Filesystem.set_mtime fs subpath mtime) | None => mret true end;
        if negb ok then mret (-13)
        else
          _ ← update (fun v => set_mtimes v (<[path := mtime]> (mtimes v)));
          _ ← invalidate_dir_cache; mret 0
  end.

Definition vdelete (path : Path) : K Z :=
  r ← resolve_parent_symlinks path;
  match r with
  | None => mret (-2)
  | Some path =>
      v ← self;
      match ram_files v !! path with
      | Some _ =>
          _ ← update (fun v => set_ram_files v (delete path (ram_files v)));
          _ ← invalidate_dir_cache; mret 0
      | None =>
          '(midx, fs, subpath) ← head_of path;
          m ← call (Filesystem.meta fs subpath);
          ok ← match m with
               | Some _ => p ← may_write_parent midx subpath; if p : bool then may_write midx subpath else mret false
               | None => mret true
               end;
          if negb ok then mret (-13)
          else
            r ← call (Filesystem.remove fs subpath);
            if 0 <=? r then _ ← invalidate_dir_cache; mret r else mret r
      end
  end.

(** ** Reading, writing, seeking *)

Definition advance (handle : Z) (n : Z) (v : Vfs W) : Vfs W :=
  let e := entry v handle in
  set_entry v (Z.to_nat handle) (FileEntry.set_offset e (u32 (FileEntry.offset e + n))).

(** [buf[..n].copy_from_slice(data)] *)
Definition splice (buf data : list Z) : list Z := data ++ drop (length data) buf.

Definition read_by_handle (handle : Z) (buf : list Z) : K (list Z * Z) :=
  v ← self;
  if negb (live v handle) then mret (buf, -9)
  else
    let e := entry v handle in
    if Vnode.handle (FileEntry.vnode e) =? RAM_SENTINEL then
      match ram_files v !! FileEntry.ram_key e with
      | Some data =>
          let off := Z.to_nat (FileEntry.offset e) in
          if (length data <=? off)%nat then mret (buf, 0)
          else
            let n := Nat.min (length buf) (length data - off) in
            _ ← update (advance handle (Z.of_nat n));
            mret (splice buf (take n (drop off data)), i32 (Z.of_nat n))
      | None => mret (buf, 0)
      end
    else
      fs ← mount_fs (FileEntry.mount_idx e);
      '(buf, n) ← call (Filesystem.read fs (Vnode.handle (FileEntry.vnode e)) (FileEntry.offset e) buf
                                        (Vnode.size (FileEntry.vnode e)));
      _ ← (if 0 <? n then update (advance handle (u32 n)) else mret ());
      mret (buf, n).

(** [file_data.resize(end, 0)] when it is shorter, and the copy into it. *)
Definition overwrite (file : list Z) (off end_ : Z) (data : list Z) : option (list Z) :=
  let file := if Z.of_nat (length file) <? end_ then file ++ replicate (Z.to_nat end_ - length file) 0 else file in
  if (off <=? end_) && (end_ <=? Z.of_nat (length file)) && (end_ - off =? Z.of_nat (length data))
  then Some (take (Z.to_nat off) file ++ data ++ drop (Z.to_nat end_) file)
  else None.

Definition write_by_handle (handle : Z) (data : list Z) : K Z :=
  v ← self;
  if negb (live v handle) then mret (-9)
  else
    let e := entry v handle in
    if Vnode.handle (FileEntry.vnode e) =? RAM_SENTINEL then
      match ram_files v !! FileEntry.ram_key e with
      | Some file_data =>
          let off := FileEntry.offset e in
          let end_ := usize (off + Z.of_nat (length data)) in
          file_data ← expect (overwrite file_data off end_ data);
          _ ← update (fun v => set_ram_files v (<[FileEntry.ram_key e := file_data]> (ram_files v)));
          _ ← update (fun v => set_entry v (Z.to_nat handle)
                (FileEntry.set_size (FileEntry.set_offset e end_) (u32 (Z.of_nat (length file_data)))));
          _ ← invalidate_dir_cache;
          mret (i32 (Z.of_nat (length data)))
      | None => mret (-9)
      end
    else if negb (FileEntry.writable e) then mret (-30)
    else
      fs ← mount_fs (FileEntry.mount_idx e);
      n ← call (Filesystem.write fs (Vnode.handle (FileEntry.vnode e)) (FileEntry.offset e) data);
      if 0 <? n then
        _ ← update (fun v =>
              let e := entry v handle in
              let e := FileEntry.set_offset e (u32 (FileEntry.offset e + n)) in
              set_entry v (Z.to_nat handle)
                (if Vnode.size (FileEntry.vnode e) <? FileEntry.offset e then FileEntry.set_size e (FileEntry.offset e)
                 else e));
        _ ← invalidate_dir_cache; mret n
      else mret n.

Definition file_size_by_handle (v : Vfs W) (handle : Z) : Z :=
  if negb (live v handle) then 0
  else
    let e := entry v handle in
    if Vnode.handle (FileEntry.vnode e) =? RAM_SENTINEL
    then match ram_files v !! FileEntry.ram_key e with Some d => u32 (Z.of_nat (length d)) | None => 0 end
    else Vnode.size (FileEntry.vnode e).

Definition seek_by_handle (handle offset whence : Z) : K Z :=
  v ← self;
  if negb (live v handle) then mret (-9)
  else
    let size := file_size_by_handle v handle in
    let cur := FileEntry.offset (entry v handle) in
    let go new_offset :=
      if new_offset <? 0 then mret (-22)
      else
        _ ← update (fun v => set_entry v (Z.to_nat handle)
                               (FileEntry.set_offset (entry v handle) (u32 new_offset)));
        mret (i32 (u32 new_offset)) in
    if whence =? 0 then go offset
    else if whence =? 1 then go (cur + offset)
    else if whence =? 2 then go (size + offset)
    else mret (-22).

Definition handle_writable (v : Vfs W) (handle : Z) : bool :=
  live v handle && ((Vnode.handle (FileEntry.vnode (entry v handle)) =? RAM_SENTINEL) || FileEntry.writable (entry v handle)).

Definition file_ino_by_handle (v : Vfs W) (handle : Z) : Z :=
  if live v handle then FileEntry.ino (entry v handle) else 0.

Definition file_mode_by_handle (v : Vfs W) (handle : Z) : Z :=
  if live v handle then Vnode.mode (FileEntry.vnode (entry v handle)) else 0.

(** ** Share modes and locks *)

Definition reads (a : OpenAccess) : bool := match a with AWrite => false | _ => true end.
Definition writes (a : OpenAccess) : bool := match a with ARead => false | _ => true end.
Definition denied (s : SharePolicy) (a : OpenAccess) : bool :=
  match s with
  | DenyAll => reads a || writes a
  | DenyWrite => writes a
  | DenyRead => reads a
  | Compatibility | DenyNone => false
  end.

(** Another open of the file that one of the two does not tolerate. *)
Definition share_conflict (ino : Z) (access : OpenAccess) (share : SharePolicy) (other : FileEntry.t) : bool :=
  negb (FileEntry.refcount other =? 0) && (FileEntry.ino other =? ino)
  && (denied (FileEntry.share other) access || denied share (FileEntry.access other)).

Definition configure_open (handle : Z) (access : OpenAccess) (share : SharePolicy) (v : Vfs W) : Vfs W * Z :=
  if negb (live v handle) then (v, -9)
  else
    let e := entry v handle in
    if existsb (fun io => negb (io.1 =? Z.to_nat handle)%nat && share_conflict (FileEntry.ino e) access share io.2)
               (imap pair (file_table v))
    then (v, -13)
    else (set_entry v (Z.to_nat handle) (FileEntry.set_modes e access share), 0).

Definition lock_end (l : FileLock.t) : Z := sat_add U32_MAX (FileLock.start l) (FileLock.len l).

Definition lock_conflict (ino handle start end_ : Z) (l : FileLock.t) : bool :=
  (FileLock.ino l =? ino) && negb (FileLock.owner l =? handle) && (start <? lock_end l) && (FileLock.start l <? end_).

Definition lock_range (handle : Z) (unlock : bool) (start len : Z) (v : Vfs W) : Vfs W * Z :=
  if negb (live v handle) then (v, -9)
  else
    let ino := FileEntry.ino (entry v handle) in
    if unlock then
      match list_find (fun l => FileLock.owner l = handle /\ FileLock.start l = start /\ FileLock.len l = len) (locks v) with
      | Some (i, _) => (set_locks v (delete i (locks v)), 0)
      | None => (v, -33)
      end
    else if existsb (lock_conflict ino handle start (sat_add U32_MAX start len)) (locks v) then (v, -33)
    else (set_locks v (locks v ++ [FileLock.mk ino handle start len]), 0).

Definition on_vfs {A} (f : Vfs W -> Vfs W * A) : K A := fun s =>
  let '(v, a) := f (vfs s) in Val (mkSt v (world s), a).

(** ** Descriptors *)

Abbreviation Fds := (list FdKind).

Definition alloc_fd (fds : Fds) : option nat :=
  (fun p => (FIRST_FD + fst p)%nat) <$> list_find (fun k => fd_is_none k = true) (drop FIRST_FD fds).

Definition vfs_handle (fds : Fds) (fd : Z) : Z + Z :=
  if (fd <? 0) || (Z.of_nat MAX_FDS <=? fd) then inr (-9)
  else match fds !! Z.to_nat fd with
       | Some (FdVfs idx) => inl idx
       | _ => inr (-9)
       end.

(** The end of [open] and [create]: a slot for the handle, or give it back. *)
Definition publish (handle : Z) (fds : Fds) : K (Fds * Z) :=
  if handle <? 0 then mret (fds, handle)
  else match alloc_fd fds with
       | Some fd => mret (<[fd := FdVfs handle]> fds, Z.of_nat fd)
       | None => _ ← close_handle handle; mret (fds, -24)
       end.

Definition fd_open (path : Path) (fds : Fds) : K (Fds * Z) := handle ← open_to_handle path; publish handle fds.
Definition fd_create (path : Path) (fds : Fds) : K (Fds * Z) := handle ← create_to_handle path; publish handle fds.

Definition fd_close (fd : Z) (fds : Fds) : K (Fds * Z) :=
  match vfs_handle fds fd with
  | inl handle => _ ← close_handle handle; mret (<[Z.to_nat fd := FdNone]> fds, 0)
  | inr e => mret (fds, e)
  end.

Definition fd_read (fd : Z) (buf : list Z) (fds : Fds) : K (list Z * Z) :=
  match vfs_handle fds fd with inl handle => read_by_handle handle buf | inr e => mret (buf, e) end.
Definition fd_write (fd : Z) (data : list Z) (fds : Fds) : K Z :=
  match vfs_handle fds fd with inl handle => write_by_handle handle data | inr e => mret e end.
Definition fd_seek (fd offset whence : Z) (fds : Fds) : K Z :=
  match vfs_handle fds fd with inl handle => seek_by_handle handle offset whence | inr e => mret e end.
Definition fd_configure (fd : Z) (access : OpenAccess) (share : SharePolicy) (fds : Fds) : K Z :=
  match vfs_handle fds fd with inl handle => on_vfs (configure_open handle access share) | inr e => mret e end.
Definition fd_lock_range (fd : Z) (unlock : bool) (start len : Z) (fds : Fds) : K Z :=
  match vfs_handle fds fd with inl handle => on_vfs (lock_range handle unlock start len) | inr e => mret e end.

(** A file opened on its backing mount for use as a medium: no table entry. *)
Definition open_backing (path : Path) : K (option (Filesystem.t W * Z * Z)) :=
  r ← resolve_symlinks path true;
  match r with
  | None => mret None
  | Some resolved =>
      n ← open_cached_node resolved;
      match n with
      | Some (mount_idx, vnode, _) =>
          fs ← mount_fs mount_idx; mret (Some (fs, Vnode.handle vnode, Vnode.size vnode))
      | None =>
          '(_, fs, subpath) ← head_of resolved;
          vn ← call (Filesystem.open fs subpath);
          mret (vn ← vn; Some (fs, Vnode.handle vn, Vnode.size vn))
      end
  end.

Definition mount_prefix (v : Vfs W) (fd : Z) (fds : Fds) : option Path :=
  match vfs_handle fds fd with
  | inl handle =>
      if live v handle
      then Binding.prefix <$> mounts v !! Z.to_nat (FileEntry.mount_idx (entry v handle)) else None
  | inr _ => None
  end.

Definition fs_readdir (dir : Path) (index : nat) : K (option DirEntry.t) :=
  r ← resolve_symlinks dir true;
  match r with Some dir => readdir dir index | None => mret None end.

End Methods.

(** * Directory handles *)

Module DirHandle.
Record t := mk { path : Path; refcount : Z }.

Definition TABLE : list t := replicate DIR_HANDLES (mk [] 0).

Fixpoint open_loop (path : Path) (t : list DirHandle.t) (i : Z) : list DirHandle.t * Z :=
  match t with
  | [] => ([], -24)
  | e :: t =>
      if refcount e =? 0 then (mk (take (Nat.min (length path) DIR_PATH_MAX) path) 1 :: t, i)
      else let '(t, r) := open_loop path t (i + 1) in (e :: t, r)
  end.
Definition open_dir_handle (path : Path) (t : list DirHandle.t) : list DirHandle.t * Z := open_loop path t 0.

(** The path, or nothing for a handle that is not open. *)
Definition dir_handle_path (idx : Z) (t : list DirHandle.t) : option Path :=
  if (0 <=? idx) && (idx <? Z.of_nat DIR_HANDLES)
  then e ← t !! Z.to_nat idx; if refcount e =? 0 then None else Some (path e)
  else None.

(** [get_mut(idx as usize)] *)
Definition on_entry (idx : Z) (f : DirHandle.t -> DirHandle.t) (t : list DirHandle.t) : list DirHandle.t :=
  if 0 <=? idx then alter f (Z.to_nat idx) t else t.

Definition add_dir_ref (idx : Z) (t : list DirHandle.t) : list DirHandle.t :=
  on_entry idx (fun e => if 0 <? refcount e then mk (path e) (u8 (refcount e + 1)) else e) t.

Definition close_dir_handle (idx : Z) (t : list DirHandle.t) : list DirHandle.t :=
  on_entry idx (fun e => mk (path e) (sat_sub (refcount e) 1)) t.
End DirHandle.
