(* ===== verification/VfsInv.v ===== *)
(** What every operation of the virtual filesystem keeps.

    One invariant, proved once for all operations, with two parameters: [obs]
    is any observation of the backends' world and [D] says whether a
    directory enumeration may run out of fuel.  Its instances are the safety
    of byte-range locks, the rule that a mount without a write grant is never
    written, and termination of every operation. *)

From Stdlib Require Import ZArith Lia Bool.
From stdpp Require Import base option list numbers gmap.
From S2P Require Import Prelude Path Effect Vfs.

(** * The operations as one alphabet *)

Inductive vop :=
  | VOpen (p : Path) | VCreate (p : Path) | VRead (h : Z) (buf : list Z) | VWrite (h : Z) (data : list Z)
  | VSeek (h offset whence : Z) | VClose (h : Z) | VAddRef (h : Z)
  | VMkdir (p : Path) | VRmdir (p : Path) | VRename (old new : Path) | VDelete (p : Path)
  | VStat (p : Path) (follow : bool) | VReadlink (p : Path) (out : list Z) | VReaddir (p : Path) (index : nat)
  | VDirExists (p : Path) | VPathExists (p : Path) | VPathMode (p : Path) | VSetPathMode (p : Path) (mode : Z)
  | VFlush (h : Z) | VMtime (h : Z) | VSetMtime (h mtime : Z)
  | VConfigure (h : Z) (a : OpenAccess) (s : SharePolicy) | VLock (h : Z) (unlock : bool) (start len : Z)
  | VMediaChanged.

Section Run.
Context {W : Type} (fuel : nat).

Definition run_op (o : vop) : M (St W) () :=
  match o with
  | VOpen p => _ ← open_to_handle fuel p; mret ()
  | VCreate p => _ ← create_to_handle fuel p; mret ()
  | VRead h buf => _ ← read_by_handle h buf; mret ()
  | VWrite h data => _ ← write_by_handle h data; mret ()
  | VSeek h o w => _ ← seek_by_handle h o w; mret ()
  | VClose h => close_handle h
  | VAddRef h => add_ref h
  | VMkdir p => _ ← mkdir fuel p; mret ()
  | VRmdir p => _ ← rmdir fuel p; mret ()
  | VRename old new => _ ← rename fuel old new; mret ()
  | VDelete p => _ ← vdelete fuel p; mret ()
  | VStat p b => _ ← stat fuel p b; mret ()
  | VReadlink p out => _ ← readlink fuel p out; mret ()
  | VReaddir p i => _ ← fs_readdir fuel p i; mret ()
  | VDirExists p => _ ← dir_exists fuel p; mret ()
  | VPathExists p => _ ← path_exists fuel p; mret ()
  | VPathMode p => _ ← path_mode fuel p; mret ()
  | VSetPathMode p m => _ ← set_path_mode fuel p m; mret ()
  | VFlush h => _ ← flush_handle h; mret ()
  | VMtime h => _ ← handle_mtime h; mret ()
  | VSetMtime h t => _ ← set_handle_mtime h t; mret ()
  | VConfigure h a s => _ ← on_vfs (configure_open h a s); mret ()
  | VLock h u st len => _ ← on_vfs (lock_range h u st len); mret ()
  | VMediaChanged => invalidate_dir_cache
  end.

(** A reference can only be added while the 16-bit count has room. *)
Definition op_pre (s : St W) (o : vop) : Prop :=
  match o with VAddRef h => FileEntry.refcount (entry (vfs s) h) < U16_MAX | _ => True end.

Inductive vstep (s s' : St W) : Prop :=
  vstep_op o : op_pre s o -> run_op o s = Val (s', ()) -> vstep s s'.
End Run.

(** * Backends *)

Section Laws.
Context {W X : Type} (obs : W -> X).

Record queries_keep (fs : Filesystem.t W) : Prop := {
  q_open p w : obs (Filesystem.open fs p w).1 = obs w;
  q_open_node n w : obs (Filesystem.open_node fs n w).1 = obs w;
  q_readlink_node n b w : obs (Filesystem.readlink_node fs n b w).1 = obs w;
  q_root_node w : obs (Filesystem.root_node fs w).1 = obs w;
  q_readdir_node n c m w : obs (Filesystem.readdir_node fs n c m w).1 = obs w;
  q_readlink p b w : obs (Filesystem.readlink fs p b w).1 = obs w;
  q_stat p b w : obs (Filesystem.stat fs p b w).1 = obs w;
  q_read h o b n w : obs (Filesystem.read fs h o b n w).1 = obs w;
  q_readdir p c m w : obs (Filesystem.readdir fs p c m w).1 = obs w;
  q_dir_exists p w : obs (Filesystem.dir_exists fs p w).1 = obs w;
  q_flush p w : obs (Filesystem.flush fs p w).1 = obs w;
  q_mtime p w : obs (Filesystem.mtime fs p w).1 = obs w;
  q_clunk h w : obs (Filesystem.clunk fs h w) = obs w;
  q_meta p w : obs (Filesystem.meta fs p w).1 = obs w }.

(** A method cannot change the length of the slice it fills. *)
Record buffers_keep (fs : Filesystem.t W) : Prop := {
  b_readlink_node n b w : length (Filesystem.readlink_node fs n b w).2.1 = length b;
  b_readlink p b w : length (Filesystem.readlink fs p b w).2.1 = length b }.

Record mutators_keep (fs : Filesystem.t W) : Prop := {
  m_create p w : obs (Filesystem.create fs p w).1 = obs w;
  m_mkdir p w : obs (Filesystem.mkdir fs p w).1 = obs w;
  m_rmdir p w : obs (Filesystem.rmdir fs p w).1 = obs w;
  m_rename p q w : obs (Filesystem.rename fs p q w).1 = obs w;
  m_set_mtime p t w : obs (Filesystem.set_mtime fs p t w).1 = obs w;
  m_write h o d w : obs (Filesystem.write fs h o d w).1 = obs w;
  m_remove p w : obs (Filesystem.remove fs p w).1 = obs w;
  m_set_meta p u g m w : obs (Filesystem.set_meta fs p u g m w).1 = obs w }.

(** What is left to a backend whose mount denies writing: [create] does
    nothing where it is not supported, and an object it has no facts about
    is not there to remove. *)
Record denied_keep (fs : Filesystem.t W) : Prop := {
  n_create p w : Filesystem.supports_create fs = false ->
    obs (Filesystem.create fs p w).1 = obs w /\ (Filesystem.create fs p w).2 = None;
  n_remove p w w' : Filesystem.meta fs p w = (w', None) -> obs (Filesystem.remove fs p w').1 = obs w';
  n_meta p w w' : Filesystem.meta fs p w = (w', None) -> (Filesystem.meta fs p w').2 = None }.

Definition mount_ok (D : Prop) (fuel : nat) (b : Binding.t W) : Prop :=
  match Binding.target b with
  | Server fs =>
      (queries_keep fs /\ buffers_keep fs) /\
      (forall i node sub s, enumerate fuel i fs node sub READDIR_START s = Diverge -> D) /\
      (mutators_keep fs \/ Binding.access b = ANone /\ denied_keep fs)
  | Alias _ => True
  end.

Lemma empty_queries : queries_keep Filesystem.EMPTY_FS.
Proof. constructor; intros; try done. cbn. by destruct b. Qed.

Lemma empty_mutators : mutators_keep Filesystem.EMPTY_FS.
Proof. by constructor. Qed.
End Laws.

(** * The invariant *)

Definition locks_ok {W} (v : Vfs W) : Prop :=
  (forall l, l ∈ locks v -> live v (FileLock.owner l) = true /\
             FileEntry.ino (entry v (FileLock.owner l)) = FileLock.ino l) /\
  (forall l l', l ∈ locks v -> l' ∈ locks v -> FileLock.ino l = FileLock.ino l' ->
     FileLock.owner l <> FileLock.owner l' -> lock_end l <= FileLock.start l' \/ lock_end l' <= FileLock.start l).

Section Invariant.
Context {W X : Type} (obs : W -> X) (D : Prop) (fuel : nat) (ms : list (Binding.t W)) (x : X).
Context (Hms : Forall (mount_ok obs D fuel) ms).

(** The backend at an index of the mount table changes nothing observed. *)
Definition writable_mount (i : Z) : Prop :=
  forall b fs, ms !! Z.to_nat i = Some b -> Binding.target b = Server fs -> mutators_keep obs fs.

(** A handle that may be written leads to such a backend. *)
Definition entry_good (e : FileEntry.t) : Prop :=
  FileEntry.writable e = true -> Vnode.handle (FileEntry.vnode e) <> RAM_SENTINEL -> writable_mount (FileEntry.mount_idx e).

Definition table_ok (v : Vfs W) : Prop :=
  length (file_table v) = MAX_OPEN_FILES /\
  Forall (fun e => 0 <= FileEntry.refcount e /\ entry_good e) (file_table v) /\
  locks_ok v.

Definition Inv (s : St W) : Prop := mounts (vfs s) = ms /\ table_ok (vfs s) /\ obs (world s) = x.

Local Abbreviation ok := (keeps D Inv).

(** ** Backend calls *)

Lemma call_ok {A} (f : W -> W * A) : (forall w, obs (f w).1 = obs w) -> ok (call f).
Proof.
  intros Hf s (Hm & Ht & Hx). unfold call. specialize (Hf (world s)). destruct (f (world s)) as [w a]. cbn in *.
  split_and!; cbn; try done. by rewrite Hf.
Qed.

Lemma mount_ok_at i b fs : ms !! i = Some b -> Binding.target b = Server fs ->
  (queries_keep obs fs /\ buffers_keep fs) /\ (forall j node sub s, enumerate fuel j fs node sub READDIR_START s = Diverge -> D) /\
  (mutators_keep obs fs \/ Binding.access b = ANone /\ denied_keep obs fs).
Proof. intros Hb Ht. pose proof (Forall_lookup_1 _ _ _ _ Hms Hb) as H. unfold mount_ok in H. by rewrite Ht in H. Qed.

Lemma mount_fs_ok i :
  triple D Inv (mount_fs i) (fun fs s => Inv s /\ exists b, ms !! Z.to_nat i = Some b /\ Binding.target b = Server fs).
Proof.
  intros s Hs. unfold mount_fs. rewrite (run_bind _ _ s s (vfs s)) by done.
  pose proof Hs as (Hm & _). rewrite Hm. destruct (ms !! Z.to_nat i) as [b|] eqn:E; run; [|done].
  destruct (Binding.target b) as [fs|] eqn:Et; [|done]. by split; [|exists b].
Qed.

Lemma mount_fs_bind {B} i (k : Filesystem.t W -> M (St W) B) :
  (forall b fs, ms !! Z.to_nat i = Some b -> Binding.target b = Server fs -> queries_keep obs fs -> buffers_keep fs -> ok (k fs)) ->
  ok (mount_fs i ≫= k).
Proof.
  intros Hk. eapply triple_fact_bind; [apply mount_fs_ok|]. intros fs (b & Hb & Ht).
  apply (Hk b fs Hb Ht); by apply (mount_ok_at _ _ _ Hb Ht).
Qed.

Lemma may_write_ok i sub :
  triple D Inv (may_write i sub) (fun r s => Inv s /\ (r = true -> writable_mount i)).
Proof.
  intros s Hs. unfold may_write. rewrite (run_bind _ _ s s (vfs s)) by done.
  pose proof Hs as (Hm & _). rewrite Hm. destruct (ms !! Z.to_nat i) as [b|] eqn:E; [|done].
  rewrite (run_bind _ _ s s b) by done.
  assert (Binding.access b <> ANone -> writable_mount i) as Hw.
  { intros Ha b' fs Hb' Ht. rewrite E in Hb'. injection Hb' as <-.
    by destruct (mount_ok_at _ _ _ E Ht) as (_ & _ & [?|[? _]]). }
  destruct (Binding.access b) as [|g|]; cbn; [done| |by split; [|intros; apply Hw]].
  pose proof (mount_fs_ok i s Hs) as Hf. unfold mbind, M_bind.
  destruct (mount_fs i s) as [[s1 fs]| |]; [|done|done]. destruct Hf as (Hs1 & b1 & Hb1 & Ht1).
  pose proof (call_ok (Filesystem.meta fs sub) (q_meta _ _ (proj1 (proj1 (mount_ok_at _ _ _ Hb1 Ht1))) sub) s1 Hs1) as Hc.
  destruct (call _ s1) as [[s2 m]| |]; [|done|done]. cbn. split; [done|]. intros _. by apply Hw.
Qed.

Lemma may_write_bind {B} i sub (k : bool -> M (St W) B) :
  (forall r, (r = true -> writable_mount i) -> ok (k r)) -> ok (may_write i sub ≫= k).
Proof. intros Hk. eapply triple_fact_bind; [apply may_write_ok|]. exact Hk. Qed.

Lemma may_write_parent_ok i sub :
  triple D Inv (may_write_parent i sub) (fun r s => Inv s /\ (r = true -> writable_mount i)).
Proof. unfold may_write_parent. destruct (parent_of sub); [apply may_write_ok|]. intros s Hs. by split. Qed.

Lemma may_write_keeps i sub : ok (may_write i sub).
Proof. eapply triple_conseq; [apply may_write_ok|done|]. by intros r s [? _]. Qed.

(** ** The namespace *)

Lemma resolve_members_ok {S R} (J : S -> Prop) (f : Z -> Filesystem.t W -> Path -> M S (option R)) depth path :
  (forall i b fs sub, ms !! i = Some b -> Binding.target b = Server fs -> keeps D J (f (u8 (Z.of_nat i)) fs sub)) ->
  keeps D J (resolve_members ms f depth path).
Proof.
  intros Hf. revert path. induction depth as [|depth IH]; intros path; cbn [resolve_members];
    (destruct (best_prefix ms path) as [best|]; [|apply keeps_ret]);
    generalize (isort by_seq (group ms path best)); intros members;
    (induction members as [|[i q] members IHm]; [apply keeps_ret|]);
    apply keeps_expect_bind; intros b Hb; apply keeps_expect_bind; intros start Hstart;
    (apply keeps_bind; [|by intros [r|]; [apply keeps_ret|]]);
    destruct (Binding.target b) as [fs|src] eqn:Et; try (by eapply Hf); try apply keeps_ret.
  destruct (_ <? _)%nat; [apply keeps_ret|apply IH].
Qed.

(** The state of a closure: the world and its locals. *)
Lemma resolve_with_ok {T R} (F : T -> Prop) path (f : Z -> Filesystem.t W -> Path -> M (W * T) (option R)) (t : T) :
  (forall i b fs sub, ms !! i = Some b -> Binding.target b = Server fs ->
     keeps D (fun '(w, t) => obs w = x /\ F t) (f (u8 (Z.of_nat i)) fs sub)) ->
  F t -> triple D Inv (resolve_with path f t) (fun r s => Inv s /\ F r.1).
Proof.
  intros Hf HF s (Hm & Ht & Hx). unfold resolve_with. rewrite Hm.
  pose proof (resolve_members_ok _ f ALIAS_DEPTH path Hf (world s, t) (conj Hx HF)) as H.
  destruct (resolve_members _ _ _ _ _) as [[[w t'] r]| |]; [|done|done]. destruct H. by split_and!.
Qed.

Lemma resolve_ok {R} path (f : Z -> Filesystem.t W -> Path -> M W (option R)) :
  (forall i b fs sub, ms !! i = Some b -> Binding.target b = Server fs -> queries_keep obs fs ->
     keeps D (fun w => obs w = x) (f (u8 (Z.of_nat i)) fs sub)) ->
  ok (resolve path f).
Proof.
  intros Hf s (Hm & Ht & Hx). unfold resolve. rewrite Hm.
  pose proof (resolve_members_ok (fun w => obs w = x) f ALIAS_DEPTH path) as H.
  specialize (H (fun i b fs sub Hb Ht => Hf i b fs sub Hb Ht (proj1 (proj1 (mount_ok_at _ _ _ Hb Ht)))) (world s) Hx).
  destruct (resolve_members _ _ _ _ _) as [[w r]| |]; [|done|done]. by split_and!.
Qed.

Lemma on_world_ok {A} (f : W -> W * A) : (forall w, obs (f w).1 = obs w) -> keeps D (fun w => obs w = x) (on_world f).
Proof. intros Hf w Hw. unfold on_world. specialize (Hf w). destruct (f w) as [w' a]. cbn in *. congruence. Qed.

(** The backend [resolve_head] answers with. *)
Definition head_ok (midx : Z) (fs : Filesystem.t W) : Prop :=
  fs = Filesystem.EMPTY_FS \/ exists b, ms !! Z.to_nat midx = Some b /\ Binding.target b = Server fs.

Context (Hlen : (length ms <= 256)%nat).

Lemma resolve_head_ok path midx fs sub : resolve_head ms path = (midx, fs, sub) -> head_ok midx fs.
Proof.
  unfold resolve_head. destruct (foldl _ _ _) as [[[[pl q] i] start]|]; [|by intros [= <- <- <-]; left].
  destruct (ms !! i) as [[pre [fs'|src] acc seq]|] eqn:E; intros [= <- <- <-]; try (by left).
  right. exists (Binding.mk pre (Server fs') acc seq). split; [|done]. rewrite wrap_small, Nat2Z.id; [done|].
  pose proof (lookup_lt_Some _ _ _ E). split; [lia|]. change (2 ^ 8) with 256. lia.
Qed.

Lemma head_of_bind {B} path (k : Z * Filesystem.t W * Path -> M (St W) B) :
  (forall midx fs sub, head_ok midx fs -> queries_keep obs fs -> ok (k (midx, fs, sub))) -> ok (head_of path ≫= k).
Proof.
  intros Hk. eapply (triple_fact_bind _ _ _ (fun r => head_ok r.1.1 r.1.2)).
  - intros s Hs. unfold head_of, self. run. split; [done|]. pose proof Hs as (Hm & _). rewrite Hm.
    destruct (resolve_head ms path) as [[midx fs] sub] eqn:E. by eapply resolve_head_ok.
  - intros [[midx fs] sub] H. cbn in H. apply Hk; [done|]. destruct H as [->|(b & Hb & Ht)]; [apply empty_queries|].
    by apply (mount_ok_at _ _ _ Hb Ht).
Qed.

Lemma head_mutators midx fs : head_ok midx fs -> writable_mount midx -> mutators_keep obs fs.
Proof. intros [->|(b & Hb & Ht)] Hw; [apply empty_mutators|]. by apply (Hw b fs). Qed.

Lemma head_denied midx fs : head_ok midx fs -> mutators_keep obs fs \/ denied_keep obs fs.
Proof.
  intros [->|(b & Hb & Ht)]; [left; apply empty_mutators|]. destruct (mount_ok_at _ _ _ Hb Ht) as (_ & _ & [?|[_ ?]]); auto.
Qed.

(** ** The file table *)

Lemma frame_ok (f : Vfs W -> Vfs W) :
  (forall v, mounts (f v) = mounts v /\ file_table (f v) = file_table v /\ locks (f v) = locks v) -> ok (update f).
Proof.
  intros Hf s (Hm & Ht & Hx). cbn. destruct (Hf (vfs s)) as (F1 & F2 & F3). split_and!; cbn; [congruence| |done].
  unfold table_ok, locks_ok, live, entry in *. by rewrite F2, F3.
Qed.

Lemma entry_lookup (v : Vfs W) h : length (file_table v) = MAX_OPEN_FILES -> in_table h = true ->
  file_table v !! Z.to_nat h = Some (entry v h).
Proof.
  intros Hl Hin. unfold entry. apply andb_true_iff in Hin as [H1%Z.leb_le H2%Z.ltb_lt].
  destruct (lookup_lt_is_Some_2 (file_table v) (Z.to_nat h)) as [e He]; [lia|]. by rewrite He.
Qed.

Lemma live_in_table (v : Vfs W) h : live v h = true -> in_table h = true /\ FileEntry.refcount (entry v h) <> 0.
Proof. unfold live. rewrite andb_true_iff, negb_true_iff, Z.eqb_neq. done. Qed.

Lemma entry_insert (v : Vfs W) (i : nat) e h : (i < length (file_table v))%nat -> 0 <= h ->
  entry (set_entry v i e) h = if decide (Z.to_nat h = i) then e else entry v h.
Proof.
  intros Hi Hh. unfold entry, set_entry. cbn. destruct (decide (Z.to_nat h = i)) as [->|Hne].
  - by rewrite list_lookup_insert_eq.
  - by rewrite list_lookup_insert_ne.
Qed.

(** An entry replaced by one that is open if the old one was, on the same
    inode, keeps the table. *)
Lemma set_entry_ok (v : Vfs W) (i : nat) e0 e :
  table_ok v -> file_table v !! i = Some e0 -> 0 <= FileEntry.refcount e -> entry_good e ->
  (FileEntry.refcount e0 <> 0 -> FileEntry.refcount e <> 0 /\ FileEntry.ino e = FileEntry.ino e0) ->
  table_ok (set_entry v i e).
Proof.
  intros (Hl & Ht & Ha & Hb) He0 Hr Hg Hk. pose proof (lookup_lt_Some _ _ _ He0) as Hi. split; [|split; [|split]].
  - cbn. by rewrite length_insert.
  - cbn. by apply Forall_insert.
  - intros l Hin. destruct (Ha l Hin) as [Hlive Hino]. apply live_in_table in Hlive as [Hin' Hrc].
    assert (0 <= FileLock.owner l) as H0 by (apply andb_true_iff in Hin' as [?%Z.leb_le _]; done).
    unfold live. rewrite Hin', entry_insert by done. destruct (decide _) as [<-|]; [|by rewrite (proj2 (Z.eqb_neq _ _))].
    rewrite entry_lookup in He0 by done. injection He0 as <-. destruct (Hk Hrc) as [K1 K2].
    rewrite (proj2 (Z.eqb_neq _ _) K1). split; [done|congruence].
  - exact Hb.
Qed.

Lemma new_vfs_ok s v' : Inv s -> mounts v' = mounts (vfs s) -> table_ok v' -> Inv (mkSt v' (world s)).
Proof. intros (Hm & _ & Hx) Hf Ht. split_and!; cbn; [|done|done]. by rewrite Hf. Qed.

Lemma self_ok : ok self.
Proof. apply keeps_gets. Qed.

Lemma invalidate_ok : ok invalidate_dir_cache.
Proof. by apply frame_ok. Qed.

Lemma resolve_query_ok {R} path (f : Z -> Filesystem.t W -> Path -> M W (option R)) :
  (forall idx fs sub, queries_keep obs fs -> keeps D (fun w => obs w = x) (f idx fs sub)) -> ok (resolve path f).
Proof. intros Hf. apply resolve_ok. intros. by apply Hf. Qed.

#[local] Hint Resolve self_ok invalidate_ok may_write_keeps call_ok resolve_query_ok frame_ok on_world_ok : keeps.
#[local] Hint Resolve q_open q_open_node q_readlink_node q_root_node q_readdir_node q_readlink q_stat q_read q_readdir
  q_dir_exists q_flush q_mtime q_clunk q_meta : keeps.

Lemma may_write_parent_keeps i sub : ok (may_write_parent i sub).
Proof. unfold may_write_parent. keeps_go. Qed.
#[local] Hint Resolve may_write_parent_keeps : keeps.

(** ** Listings *)

Lemma enumerate_obs n idx fs node sub cookie w l w' l' :
  queries_keep obs fs -> enumerate n idx fs node sub cookie (w, l) = Val ((w', l'), ()) -> obs w' = obs w.
Proof.
  intros Hq. revert cookie w l; induction n as [|n IH]; intros cookie w l; [done|]. cbn [enumerate].
  assert (obs (match node with Some k => Filesystem.readdir_node fs k cookie READDIR_BATCH w
               | None => Filesystem.readdir fs sub cookie READDIR_BATCH w end).1 = obs w) as Hobs.
  { destruct node; [apply q_readdir_node|apply q_readdir]; done. }
  destruct (match node with Some _ => _ | None => _ end) as [w1 [batch next]]. cbn in Hobs. rewrite <- Hobs.
  destruct (add_batch idx batch l) as [l1|]; [|done]. destruct next as [c|]; [|by intros [= -> _]].
  destruct (c =? cookie); [by intros [= -> _]|]. apply IH.
Qed.

Lemma list_member_ok v dir i b fs sub idx :
  ms !! i = Some b -> Binding.target b = Server fs ->
  keeps D (fun '(w, l) => obs w = x /\ True) (list_member fuel v dir idx fs sub).
Proof.
  intros Hb Ht. destruct (mount_ok_at _ _ _ Hb Ht) as ((Hq & _) & Hd & _). unfold list_member.
  apply keeps_bind; [|intros node; apply keeps_bind; [|intros ?; apply keeps_ret]].
  - destruct (is_nil sub); [|apply keeps_ret]. intros [w l] [Hw _]. pose proof (q_root_node _ _ Hq w) as Hr.
    destruct (Filesystem.root_node fs w). cbn in *. split; [congruence|done].
  - intros [w l] [Hw _]. destruct (enumerate _ _ _ _ _ _ _) as [[[w' l'] []]| |] eqn:E; [|done|by eapply Hd].
    split; [|done]. rewrite <- Hw. by eapply enumerate_obs.
Qed.

Lemma populate_ok dir : ok (populate_dir_cache fuel dir).
Proof.
  unfold populate_dir_cache. apply keeps_bind; [keeps_go|]. intros v.
  eapply (triple_fact_bind _ _ _ (fun _ => True)).
  - apply (resolve_with_ok (fun _ => True)); [|done]. intros i b fs sub Hb Ht. by eapply list_member_ok.
  - intros [l ?] _. keeps_go.
Qed.
#[local] Hint Resolve populate_ok : keeps.

Lemma cached_child_ok parent name : ok (cached_child fuel parent name).
Proof. unfold cached_child, ensure_cached. keeps_go. Qed.
#[local] Hint Resolve cached_child_ok : keeps.

Lemma lookup_child_ok path : ok (lookup_child fuel path).
Proof. unfold lookup_child. keeps_go. Qed.
#[local] Hint Resolve lookup_child_ok : keeps.

(** ** Links *)

Lemma readlink_entry_ok path e out :
  triple D Inv (readlink_entry path e out) (fun r s => Inv s /\ length r.1 = length out).
Proof.
  unfold readlink_entry. apply (triple_bind _ _ _ _ (fun r s => Inv s /\ length r.1 = length out)).
  - destruct (_ =? 0); [by apply triple_ret|]. eapply triple_bind; [apply mount_fs_ok|]. intros fs s [Hs (b & Hb & Ht)].
    destruct (mount_ok_at _ _ _ Hb Ht) as ((Hq & Hbuf) & _).
    pose proof (call_ok _ (q_readlink_node _ _ Hq (DirEntry.node e) out) s Hs) as Hc.
    unfold call in *. pose proof (b_readlink_node _ Hbuf (DirEntry.node e) out (world s)) as Hl.
    destruct (Filesystem.readlink_node fs _ out (world s)) as [w [o n]]. done.
  - intros [out' [n|]]; [apply triple_ret; done|]. intros s [Hs Hl]. cbn in Hl. rewrite <- Hl.
    apply (resolve_with_ok (fun o => length o = length out') path); [|done|done].
    intros i b fs sub Hb Ht [w o] [Hw Ho]. destruct (mount_ok_at _ _ _ Hb Ht) as ((Hq & Hbuf) & _).
    pose proof (q_readlink _ _ Hq sub o w) as Hr. pose proof (b_readlink _ Hbuf sub o w) as Hb'.
    destruct (Filesystem.readlink fs sub o w) as [w' [o' n']]. cbn in *. split; congruence.
Qed.

Lemma readlink_entry_keeps path e out : ok (readlink_entry path e out).
Proof. eapply triple_conseq; [apply readlink_entry_ok|done|]. by intros r s [? _]. Qed.
#[local] Hint Resolve readlink_entry_keeps : keeps.

Lemma slice_to_length buf len t : slice_to buf len = Some t -> (length t <= length buf)%nat.
Proof. unfold slice_to. destruct (_ && _); [|done]. intros [= <-]. rewrite length_take. lia. Qed.

(** Every turn of the loop uses up a component, or a link and the
    components it may add. *)
Lemma resolve_loop_ok n follow resolved pending links :
  (length pending + (40 - links) * (DIR_PATH_MAX + 2) < n)%nat ->
  ok (resolve_loop fuel n follow resolved pending links).
Proof.
  revert resolved pending links. induction n as [|n IH]; intros resolved pending links Hn; [by apply Nat.nlt_0_r in Hn|]. cbn [resolve_loop].
  destruct pending as [|c pending]; [apply keeps_ret|]. cbn [length] in Hn.
  destruct (decide _); [apply IH; lia|].
  apply keeps_bind; [apply cached_child_ok|]. intros [e|]; [|apply keeps_ret].
  destruct (_ && _) eqn:Hlink.
  2:{ apply keeps_expect_bind. intros name _. apply IH. lia. }
  destruct (Nat.ltb_spec 40 (links + 1)); [apply keeps_ret|].
  apply keeps_expect_bind. intros name _.
  eapply (triple_fact_bind _ _ _ (fun r : list Z * option Z => length r.1 = DIR_PATH_MAX)).
  { eapply triple_conseq; [apply readlink_entry_ok|done|]. intros r s [Hs Hr]. split; [done|].
    by rewrite Hr, length_replicate. }
  intros [target [len|]] Ht; [|apply keeps_ret]. destruct (len =? 0); [apply keeps_ret|].
  apply keeps_expect_bind. intros t Hs%slice_to_length. cbn in Ht. destruct (contains_nul t); [apply keeps_ret|].
  apply IH. rewrite length_app. pose proof (length_path_components t). unfold DIR_PATH_MAX in *. lia.
Qed.

Lemma resolve_symlinks_ok path follow : ok (resolve_symlinks fuel path follow).
Proof.
  unfold resolve_symlinks. destruct (contains_nul path); [apply keeps_ret|]. apply resolve_loop_ok.
  unfold link_fuel. lia.
Qed.
#[local] Hint Resolve resolve_symlinks_ok : keeps.

Lemma resolve_parent_ok path : ok (resolve_parent_symlinks fuel path).
Proof. unfold resolve_parent_symlinks. keeps_go. Qed.
#[local] Hint Resolve resolve_parent_ok : keeps.

(** ** The operations *)

(** The steps that learn something of the backend they reach. *)
Ltac vfs_step :=
  match goal with
  | |- keeps _ _ (mount_fs _ ≫= _) => apply mount_fs_bind; intros ? ? ? ? ? ?
  | |- keeps _ _ (head_of _ ≫= _) => apply head_of_bind; intros ? ? ? ? ?
  | |- keeps _ _ (resolve _ _) => apply resolve_query_ok; intros ? ? ? ?
  end.
Ltac vfs_go := repeat first [vfs_step | keeps_step].

(** Up to the backend an operation is about to change. *)
Ltac vfs_to_head :=
  repeat lazymatch goal with |- keeps _ _ (head_of _ ≫= _) => fail | |- _ => keeps_step end;
  apply head_of_bind.

Lemma open_cached_node_ok path : ok (open_cached_node fuel path).
Proof.
  unfold open_cached_node, mount_fs_open. destruct (match rposition _ _ with Some _ => _ | None => _ end) as [parent name].
  vfs_go.
Qed.
#[local] Hint Resolve open_cached_node_ok : keeps.

Lemma dir_exists_ok path : ok (dir_exists fuel path).
Proof. unfold dir_exists. vfs_go. Qed.
#[local] Hint Resolve dir_exists_ok : keeps.

Lemma readlink_ok path out : ok (readlink fuel path out).
Proof. unfold readlink. keeps_go. Qed.

Lemma stat_ok path follow : ok (stat fuel path follow).
Proof. unfold stat. vfs_go. Qed.

(** Opening and clunking again, as the probes do. *)
Lemma probe_ok {R} fs sub (r : Vnode.t -> R) :
  queries_keep obs fs ->
  keeps D (fun w => obs w = x) (fun w => match Filesystem.open fs sub w with
    | (w, Some vn) => Val (Filesystem.clunk fs (Vnode.handle vn) w, Some (r vn))
    | (w, None) => Val (w, None) end).
Proof.
  intros Hq w Hw. pose proof (q_open _ _ Hq sub w) as Ho. destruct (Filesystem.open fs sub w) as [w' [vn|]]; cbn in *.
  - by rewrite (q_clunk _ _ Hq), Ho.
  - congruence.
Qed.

Lemma path_exists_ok path : ok (path_exists fuel path).
Proof.
  unfold path_exists. vfs_go. by apply (probe_ok _ _ (fun _ => ())).
Qed.
#[local] Hint Resolve path_exists_ok : keeps.

Lemma path_mode_ok path : ok (path_mode fuel path).
Proof.
  unfold path_mode. vfs_go. by apply (probe_ok _ _ (fun vn => (Vnode.mode vn, false))).
Qed.

Lemma claim_ok midx sub : writable_mount midx -> ok (claim midx sub).
Proof.
  intros Hw. unfold claim. vfs_go. apply call_ok. intros w. by eapply m_set_meta, Hw.
Qed.

Lemma mkdir_ok path : ok (mkdir fuel path).
Proof.
  unfold mkdir. vfs_to_head. intros midx fs sub Hh Hq. destruct (Filesystem.supports_mkdir fs); [|keeps_go].
  eapply triple_fact_bind; [apply may_write_parent_ok|]. intros [|] Hw; [|keeps_go]. specialize (Hw eq_refl). cbn [negb].
  pose proof (head_mutators _ _ Hh Hw) as Hm. keeps_go; [apply call_ok; intros; by apply m_mkdir|by apply claim_ok].
Qed.

Lemma rmdir_ok path : ok (rmdir fuel path).
Proof.
  unfold rmdir. vfs_to_head. intros midx fs sub Hh Hq. destruct (negb _); [keeps_go|].
  eapply triple_fact_bind; [apply may_write_parent_ok|]. intros [|] Hw; cbn [negb]; [|keeps_go]. specialize (Hw eq_refl).
  pose proof (head_mutators _ _ Hh Hw) as Hm. keeps_go. apply call_ok; intros; by apply m_rmdir.
Qed.

Lemma rekey_ok old new : ok (rekey_open_paths old new).
Proof.
  intros s Hs. cbn. destruct Hs as (Hm & (Hl & Ht & Ha & Hb) & Hx).
  assert (forall e, FileEntry.refcount (rekey old new e) = FileEntry.refcount e /\
                    FileEntry.ino (rekey old new e) = FileEntry.ino e /\ (entry_good e -> entry_good (rekey old new e))) as Hr.
  { intros e. unfold rekey. by destruct (_ && _ && _). }
  assert (forall h, FileEntry.refcount (entry (set_table (vfs s) (rekey old new <$> file_table (vfs s))) h)
                    = FileEntry.refcount (entry (vfs s) h) /\
                    FileEntry.ino (entry (set_table (vfs s) (rekey old new <$> file_table (vfs s))) h)
                    = FileEntry.ino (entry (vfs s) h)) as He.
  { intros h. unfold entry. cbn. rewrite list_lookup_fmap. destruct (_ !! _) as [e|]; [|done]. cbn. split; apply (Hr e). }
  split; [done|]. split; [|done]. split; [|split; [|split; [|done]]].
  - cbn. by rewrite length_fmap.
  - cbn. apply Forall_fmap. eapply Forall_impl; [exact Ht|]. intros e [H1 H2]. cbn. destruct (Hr e) as (R1 & _ & R3).
    split; [by rewrite R1|by apply R3].
  - intros l Hl'. destruct (Ha l Hl') as [H1 H2]. destruct (He (FileLock.owner l)) as [E1 E2]. cbn [vfs]. split; [|congruence].
    unfold live in *. by rewrite E1.
Qed.
#[local] Hint Resolve rekey_ok : keeps.

Lemma ram_dirs_frame (v : Vfs W) (f : Vfs W -> Path -> gset Path) l :
  let v' := foldl (fun v src => set_ram_dirs v (f v src)) v l in
  mounts v' = mounts v /\ file_table v' = file_table v /\ locks v' = locks v.
Proof. cbv zeta. revert v; induction l as [|p l IH]; intros v; [done|]. cbn [foldl]. destruct (IH (set_ram_dirs v (f v p))) as (-> & -> & ->). done. Qed.

Lemma move_ram_dir_ok old new : ok (move_ram_dir old new).
Proof.
  unfold move_ram_dir. apply keeps_bind; [keeps_go|]. intros v. apply keeps_bind.
  - apply frame_ok. intros v'. apply (ram_dirs_frame v' (fun v src => _)).
  - intros ?. generalize (filter (fun p => starts_with (old ++ [SLASH]) p = true) (fst <$> btree_iter (ram_files v))).
    intros l. induction l as [|src l IH]; keeps_go; by apply frame_ok.
Qed.

Lemma rename_done_ok old new : ok (rename_done old new).
Proof. unfold rename_done. keeps_go. Qed.

Lemma rename_ok old new : ok (rename fuel old new).
Proof.
  pose proof rename_done_ok. pose proof move_ram_dir_ok.
  unfold rename. vfs_to_head; [done..|]. intros oi ofs osub Hh Hq. apply head_of_bind. intros ni nfs nsub _ _.
  destruct (negb _); [keeps_go|]. destruct (negb _); [keeps_go|].
  apply may_write_bind. intros [|] Hw; keeps_go; try done.
  apply call_ok. intros. apply m_rename. by apply (head_mutators oi), Hw.
Qed.

(** A new entry goes into a slot that was free. *)
Lemma set_free_ok i e :
  0 < FileEntry.refcount e -> entry_good e ->
  triple D (fun s => Inv s /\ alloc_file_entry (vfs s) = Some i) (update (fun v => set_entry v i e)) (fun _ => Inv).
Proof.
  intros Hr Hg s [Hs Ha]. apply new_vfs_ok; [done|done|].
  unfold alloc_file_entry in Ha. apply fmap_Some in Ha as ([j e0] & Hf & ->).
  apply list_find_Some in Hf as (Hj & H0 & _). cbn. destruct Hs as (_ & Ht & _).
  apply (set_entry_ok _ _ e0); try done; lia.
Qed.

Lemma alloc_bind {B} (k : option nat -> M (St W) B) :
  (forall o, triple D (fun s => Inv s /\ alloc_file_entry (vfs s) = o) (k o) (fun _ => Inv)) ->
  ok (v ← self; k (alloc_file_entry v)).
Proof. intros Hk s Hs. by apply (Hk (alloc_file_entry (vfs s))). Qed.

Lemma set_free_bind {B} i e (k : () -> M (St W) B) :
  0 < FileEntry.refcount e -> entry_good e -> (forall u, ok (k u)) ->
  triple D (fun s => Inv s /\ alloc_file_entry (vfs s) = Some i) (update (fun v => set_entry v i e) ≫= k) (fun _ => Inv).
Proof. intros Hr Hg Hk. eapply triple_bind; [by apply set_free_ok|]. exact Hk. Qed.

Lemma weaken {A} i (m : M (St W) A) : ok m -> triple D (fun s => Inv s /\ alloc_file_entry (vfs s) = i) m (fun _ => Inv).
Proof. intros H. eapply triple_conseq; [exact H| |done]. by intros s [? _]. Qed.

Lemma install_ok e : 0 < FileEntry.refcount e -> entry_good e -> ok (install e).
Proof.
  intros Hr Hg. unfold install.
  apply (alloc_bind (fun o => match o with None => mret (-24) | Some i => _ end)). intros [i|]; [|apply weaken; keeps_go].
  apply set_free_bind; [done|done|]. intros _. keeps_go.
Qed.

Lemma ram_entry_good size ino path : entry_good (ram_entry size ino path).
Proof. done. Qed.

(** Asking for permission leaves the filesystem's own state alone. *)
Lemma may_write_vfs i sub (s s' : St W) r : may_write i sub s = Val (s', r) -> vfs s' = vfs s.
Proof.
  unfold may_write, mount_fs, call, self. run. destruct (mounts (vfs s) !! Z.to_nat i) as [b|] eqn:E; [|done].
  destruct (Binding.access b); [by intros [= <- _]| |by intros [= <- _]]. rewrite E.
  destruct (Binding.target b) as [fs|]; cbn; [|done]. destruct (Filesystem.meta fs sub (world s)). by intros [= <- _].
Qed.

Lemma may_write_alloc {B} o i sub (k : bool -> M (St W) B) :
  (forall r, (r = true -> writable_mount i) ->
     triple D (fun s => Inv s /\ alloc_file_entry (vfs s) = o) (k r) (fun _ => Inv)) ->
  triple D (fun s => Inv s /\ alloc_file_entry (vfs s) = o) (may_write i sub ≫= k) (fun _ => Inv).
Proof.
  intros Hk s [Hs Ha]. pose proof (may_write_ok i sub s Hs) as Hm. pose proof (may_write_vfs i sub s) as Hv.
  unfold mbind, M_bind. destruct (may_write i sub s) as [[s' r]| |]; [|done|done]. destruct Hm as [Hs' Hw].
  apply (Hk r Hw). split; [done|]. by rewrite (Hv s' r eq_refl).
Qed.

Lemma open_to_handle_ok path : ok (open_to_handle fuel path).
Proof.
  unfold open_to_handle. apply keeps_bind; [keeps_go|]. intros [p|]; [|keeps_go].
  apply keeps_bind; [keeps_go|]. intros v. destruct (ram_files v !! p); [by apply install_ok|].
  apply keeps_bind; [keeps_go|]. intros r. apply keeps_bind; [vfs_go|]. intros [[[midx vn] sub]|]; [|keeps_go].
  apply (alloc_bind (fun o => match o with None => mret (-24) | Some i => _ end)). intros [i|]; [|apply weaken; keeps_go].
  apply may_write_alloc. intros wr Hw. apply set_free_bind; [done|by intros ? _; apply Hw|]. intros _. keeps_go.
Qed.

Lemma create_to_handle_ok path : ok (create_to_handle fuel path).
Proof.
  unfold create_to_handle. apply keeps_bind; [keeps_go|]. intros r. apply keeps_bind; [keeps_go|]. intros [p|]; [|keeps_go].
  apply head_of_bind. intros midx fs sub Hh Hq. apply keeps_bind; [keeps_go|]. intros m.
  eapply (triple_fact_bind _ _ _ (fun r => r = true -> Filesystem.supports_create fs = true -> writable_mount midx)).
  { destruct (Filesystem.supports_create fs); [|by apply triple_ret].
    eapply triple_conseq; [|intros s Hs; exact Hs|].
    - destruct (bool_decide _); [apply may_write_ok|apply may_write_parent_ok].
    - intros a s [Hs Hw]. split; [done|]. intros Ha _. by apply Hw. }
  intros [|] Hw; cbn [negb]; [|keeps_go]. specialize (Hw eq_refl).
  eapply (triple_fact_bind _ _ _ (fun o => is_Some o -> writable_mount midx)).
  { intros s Hs. pose proof Hs as (Hm & Ht & Hx). unfold call.
    assert (obs (Filesystem.create fs sub (world s)).1 = x /\
            (is_Some (Filesystem.create fs sub (world s)).2 -> writable_mount midx)) as [H1 H2].
    { rewrite <- Hx. destruct (Filesystem.supports_create fs) eqn:Es.
      - specialize (Hw eq_refl). split; [|done]. by apply (m_create _ _ (head_mutators _ _ Hh Hw)).
      - destruct Hh as [->|(b & Hb & Htg)]; [split; [done|by intros [? ?]]|].
        destruct (mount_ok_at _ _ _ Hb Htg) as (_ & _ & [Hmu|[_ Hd]]).
        + split; [by apply m_create|]. intros _ b' fs' Hb' Ht'. congruence.
        + destruct (n_create _ _ Hd sub (world s) Es) as [-> ->]. split; [done|by intros [? ?]]. }
    destruct (Filesystem.create fs sub (world s)) as [w o]. cbn in *. split; [by split_and!|done]. }
  intros [vn|] Hc.
  - specialize (Hc ltac:(eauto)). apply keeps_bind.
    { destruct (bool_decide _); [keeps_go|by apply claim_ok]. }
    intros _. apply (alloc_bind (fun o => match o with None => mret (-24) | Some i => _ end)).
    intros [i|]; [|apply weaken; keeps_go]. apply set_free_bind; [done|by intros _ _|]. intros _. keeps_go.
  - keeps_go. by apply install_ok.
Qed.

Lemma guard_meta_ok midx fs sub :
  head_ok midx fs -> queries_keep obs fs ->
  triple D Inv (guard_meta midx fs sub) (fun r s => Inv s /\
    (r = true -> mutators_keep obs fs \/ (Filesystem.meta fs sub (world s)).2 = None)).
Proof.
  intros Hh Hq. unfold guard_meta. intros s Hs. pose proof (call_ok _ (q_meta _ _ Hq sub) s Hs) as Hc.
  unfold mbind, M_bind. unfold call in *. destruct (Filesystem.meta fs sub (world s)) as [w m] eqn:E.
  destruct m as [m|].
  - pose proof (may_write_ok midx sub _ Hc) as Hm. destruct (may_write _ _ _) as [[s' r]| |]; [|done|done].
    destruct Hm as [Hs' Hw]. split; [done|]. intros Hr. left. by apply (head_mutators midx), Hw.
  - split; [done|]. intros _. destruct (head_denied _ _ Hh) as [?|Hd]; [by left|]. right. by apply (n_meta _ _ Hd sub (world s)).
Qed.

(** A change guarded by [guard_meta], made only where there are facts. *)
Lemma guarded_bind {A B} midx fs sub (g : Meta.t -> W -> W * A) (d : A) (k : A -> M (St W) B) (bad : M (St W) B) :
  head_ok midx fs -> queries_keep obs fs -> (mutators_keep obs fs -> forall m w, obs (g m w).1 = obs w) ->
  ok bad -> (forall a, ok (k a)) ->
  ok (ok ← guard_meta midx fs sub;
      if negb ok then bad
      else m ← call (Filesystem.meta fs sub); a ← match m with Some m => call (g m) | None => mret d end; k a).
Proof.
  intros Hh Hq Hg Hb Hk s Hs. pose proof (guard_meta_ok midx fs sub Hh Hq s Hs) as H.
  unfold mbind at 1, M_bind at 1. destruct (guard_meta midx fs sub s) as [[s1 r]| |]; [|done|done].
  destruct H as [Hs1 Hr]. destruct r; [|by apply Hb]. specialize (Hr eq_refl). cbn [negb].
  unfold mbind at 1, M_bind at 1. pose proof (call_ok _ (q_meta _ _ Hq sub) s1 Hs1) as Hc. unfold call at 1.
  unfold call in Hc. destruct (Filesystem.meta fs sub (world s1)) as [w m]. cbn in Hr.
  assert (ok (a ← match m with Some m => call (g m) | None => mret d end; k a)) as Hok; [|by apply Hok].
  destruct m as [m|]; [|keeps_go; apply Hk]. destruct Hr as [Hmu|?]; [|done].
  apply keeps_bind; [|done]. apply call_ok. intros w'. by apply Hg.
Qed.

Lemma set_path_mode_ok path mode : ok (set_path_mode fuel path mode).
Proof.
  unfold set_path_mode. vfs_to_head. intros midx fs sub Hh Hq.
  apply (guarded_bind midx fs sub
           (fun m w => Filesystem.set_meta fs sub (Meta.uid m) (Meta.gid m) mode w) true); try done; [|keeps_go|].
  - intros Hm m w. by apply m_set_meta.
  - intros ?. keeps_go.
Qed.

Lemma set_handle_mtime_ok h t : ok (set_handle_mtime h t).
Proof.
  unfold set_handle_mtime. apply keeps_bind; [keeps_go|]. intros v. destruct (handle_path v h) as [p|]; [|keeps_go].
  apply head_of_bind. intros midx fs sub Hh Hq.
  apply (guarded_bind midx fs sub (fun _ w => Filesystem.set_mtime fs sub t w) true); try done; [|keeps_go|].
  - intros Hm m w. by apply m_set_mtime.
  - intros ?. keeps_go.
Qed.

Lemma vdelete_ok path : ok (vdelete fuel path).
Proof.
  unfold vdelete. apply keeps_bind; [keeps_go|]. intros [p|]; [|keeps_go]. apply keeps_bind; [keeps_go|]. intros v.
  destruct (ram_files v !! p); [keeps_go|]. apply head_of_bind. intros midx fs sub Hh Hq s Hs.
  pose proof (call_ok _ (q_meta _ _ Hq sub) s Hs) as Hc. unfold mbind at 1, M_bind at 1. unfold call at 1. unfold call in Hc.
  destruct (Filesystem.meta fs sub (world s)) as [w [m|]] eqn:E.
  - enough (ok (ok ← (p0 ← may_write_parent midx sub; if p0 : bool then may_write midx sub else mret false);
                if negb ok then mret (-13)
                else r ← call (Filesystem.remove fs sub); if 0 <=? r then _ ← invalidate_dir_cache; mret r else mret r))
      as Hok by (by apply Hok).
    eapply (triple_fact_bind _ _ _ (fun r => r = true -> writable_mount midx)).
    + eapply triple_bind; [apply may_write_parent_ok|]. intros [|] s' [Hs' Hw].
      * by apply may_write_ok.
      * by split.
    + intros [|] Hw; cbn [negb]; [|keeps_go]. pose proof (head_mutators _ _ Hh (Hw eq_refl)) as Hm.
      keeps_go. apply call_ok. intros. by apply m_remove.
  - rewrite (run_bind _ _ _ _ true) by done. cbn [negb].
    assert (Inv (mkSt (vfs s) (Filesystem.remove fs sub w).1)) as Hr.
    { destruct Hc as (H1 & H2 & H3). split_and!; try done. rewrite <- H3. cbn.
      destruct (head_denied _ _ Hh) as [?|Hd]; [by apply m_remove|by apply (n_remove _ _ Hd sub (world s))]. }
    unfold mbind at 1, M_bind at 1. unfold call. cbn [vfs world].
    destruct (Filesystem.remove fs sub w) as [w' r].
    enough (ok (if 0 <=? r then _ ← invalidate_dir_cache; mret r else mret r)) as Hok by (by apply Hok). keeps_go.
Qed.

(** ** Open files *)

(** Assigning to an open entry what leaves it open on the same inode. *)
Lemma set_live_ok s h e :
  Inv s -> live (vfs s) h = true -> FileEntry.refcount e = FileEntry.refcount (entry (vfs s) h) ->
  FileEntry.ino e = FileEntry.ino (entry (vfs s) h) -> (entry_good (entry (vfs s) h) -> entry_good e) ->
  Inv (mkSt (set_entry (vfs s) (Z.to_nat h) e) (world s)).
Proof.
  intros Hs [Hin Hrc]%live_in_table Hr Hi Hg. apply new_vfs_ok; [done|done|]. destruct Hs as (_ & Ht & _).
  pose proof Ht as (Hl & Hall & _). pose proof (entry_lookup _ _ Hl Hin) as He.
  destruct (Forall_lookup_1 _ _ _ _ Hall He) as [H0 H1].
  apply (set_entry_ok _ _ _ _ Ht He); [by rewrite Hr|by apply Hg|by rewrite Hr].
Qed.

(** What follows a test for an open handle. *)
Lemma live_bind {B} h (bad : M (St W) B) (k : Vfs W -> M (St W) B) :
  ok bad -> (forall v, triple D (fun s => Inv s /\ vfs s = v /\ live v h = true) (k v) (fun _ => Inv)) ->
  ok (v ← self; if negb (live v h) then bad else k v).
Proof.
  intros Hb Hk s Hs. unfold self. run. destruct (live (vfs s) h) eqn:E; cbn [negb]; [|by apply Hb].
  by apply (Hk (vfs s)).
Qed.

Lemma live_forget {A} v h (m : M (St W) A) : ok m -> triple D (fun s => Inv s /\ vfs s = v /\ live v h = true) m (fun _ => Inv).
Proof. intros H. eapply triple_conseq; [exact H| |done]. by intros s [? _]. Qed.

Lemma then_ok {A B} P (m : M (St W) A) (k : A -> M (St W) B) :
  triple D P m (fun _ => Inv) -> (forall a, ok (k a)) -> triple D P (m ≫= k) (fun _ => Inv).
Proof. intros Hm Hk. eapply triple_bind; [exact Hm|]. exact Hk. Qed.

Lemma advance_ok v h n : triple D (fun s => Inv s /\ vfs s = v /\ live v h = true) (update (advance h n)) (fun _ => Inv).
Proof. intros s (Hs & <- & Hl). by apply set_live_ok. Qed.

(** A backend query leaves the filesystem's own state alone. *)
Lemma call_live {A} v h (f : W -> W * A) :
  (forall w, obs (f w).1 = obs w) ->
  triple D (fun s => Inv s /\ vfs s = v /\ live v h = true) (call f) (fun _ s => Inv s /\ vfs s = v /\ live v h = true).
Proof.
  intros Hf s (Hs & Hv & Hl). pose proof (call_ok f Hf s Hs) as H. unfold call in *. destruct (f (world s)) as [w a].
  by split.
Qed.

Lemma mount_fs_live v h i :
  triple D (fun s => Inv s /\ vfs s = v /\ live v h = true) (mount_fs i) (fun fs s =>
    (Inv s /\ vfs s = v /\ live v h = true) /\ exists b, ms !! Z.to_nat i = Some b /\ Binding.target b = Server fs).
Proof.
  intros s (Hs & Hv & Hl). pose proof (mount_fs_ok i s Hs) as H.
  assert (forall s' fs, mount_fs i s = Val (s', fs) -> s' = s) as E.
  { unfold mount_fs, self. run. intros s' fs. destruct (mounts (vfs s) !! _) as [b|]; [|done].
    destruct (Binding.target b); [|done]. by intros [= <- _]. }
  destruct (mount_fs i s) as [[s' fs]| |]; [|done|done]. rewrite (E s' fs eq_refl). destruct H as [_ H]. by split.
Qed.

Lemma read_ok h buf : ok (read_by_handle h buf).
Proof.
  unfold read_by_handle. apply live_bind; [keeps_go|]. intros v. destruct (_ =? RAM_SENTINEL).
  - destruct (ram_files v !! _) as [data|]; [|apply live_forget; keeps_go].
    destruct (_ <=? _)%nat; [apply live_forget; keeps_go|].
    apply then_ok; [apply advance_ok|]. intros ?. keeps_go.
  - eapply triple_bind; [apply mount_fs_live|]. intros fs s [Hs (b & Hb & Ht)]. revert s Hs.
    destruct (mount_ok_at _ _ _ Hb Ht) as ((Hq & _) & _).
    eapply triple_bind; [apply call_live; intros; by apply q_read|]. intros [buf' n].
    destruct (0 <? n); [|apply live_forget; keeps_go].
    apply then_ok; [apply advance_ok|]. intros ?. keeps_go.
Qed.

Lemma seek_ok h o w : ok (seek_by_handle h o w).
Proof.
  unfold seek_by_handle. apply live_bind; [keeps_go|]. intros v.
  assert (forall n, triple D (fun s => Inv s /\ vfs s = v /\ live v h = true)
    (if n <? 0 then mret (-22)
     else _ ← update (fun v => set_entry v (Z.to_nat h) (FileEntry.set_offset (entry v h) (u32 n))); mret (i32 (u32 n)))
    (fun _ => Inv)) as Hgo.
  { intros n. destruct (n <? 0); [apply live_forget; keeps_go|].
    apply then_ok; [|intros ?; keeps_go].
    intros s (Hs & <- & Hl). by apply set_live_ok. }
  destruct (w =? 0); [apply Hgo|]. destruct (w =? 1); [apply Hgo|]. destruct (w =? 2); [apply Hgo|].
  apply live_forget. keeps_go.
Qed.

Lemma entry_good_at s h : Inv s -> live (vfs s) h = true -> entry_good (entry (vfs s) h).
Proof.
  intros (_ & (Hl & Ht & _) & _) [Hin _]%live_in_table. by apply (Forall_lookup_1 _ _ _ _ Ht (entry_lookup _ _ Hl Hin)).
Qed.

Lemma write_ok h data : ok (write_by_handle h data).
Proof.
  unfold write_by_handle. apply live_bind; [keeps_go|]. intros v. destruct (Z.eqb_spec (Vnode.handle (FileEntry.vnode (entry v h))) RAM_SENTINEL) as [E|E].
  - destruct (ram_files v !! _) as [file|]; [|apply live_forget; keeps_go].
    destruct (overwrite _ _ _ _) as [file'|]; [|by intros s _].
    intros s (Hs & Hv & Hl). subst v. rewrite (run_bind _ _ s s file') by done.
    rewrite (run_bind _ _ s (mkSt (set_ram_files (vfs s) (<[FileEntry.ram_key (entry (vfs s) h) := file']> (ram_files (vfs s)))) (world s)) ())
      by done.
    set (s1 := mkSt _ _). assert (Inv s1) as Hs1 by (by apply (frame_ok (fun v => set_ram_files v _))).
    apply (then_ok (fun t => t = s1)); [|intros ?; keeps_go|done].
    intros t ->. apply (set_live_ok s1 h); try done.
  - destruct (FileEntry.writable (entry v h)) eqn:Ew; cbn [negb]; [|apply live_forget; keeps_go].
    intros s (Hs & Hv & Hl). assert (writable_mount (FileEntry.mount_idx (entry v h))) as Hw.
    { subst v. by apply (entry_good_at s h). }
    revert s Hs Hv Hl.
    enough (triple D (fun s => Inv s /\ vfs s = v /\ live v h = true)
      (fs ← mount_fs (FileEntry.mount_idx (entry v h));
       n ← call (Filesystem.write fs (Vnode.handle (FileEntry.vnode (entry v h))) (FileEntry.offset (entry v h)) data);
       if 0 <? n then _ ← update (fun v => let e := entry v h in
              let e := FileEntry.set_offset e (u32 (FileEntry.offset e + n)) in
              set_entry v (Z.to_nat h)
                (if Vnode.size (FileEntry.vnode e) <? FileEntry.offset e then FileEntry.set_size e (FileEntry.offset e) else e));
         _ ← invalidate_dir_cache; mret n else mret n) (fun _ => Inv)) as H by (intros s Hs Hv Hl; by apply H).
    eapply triple_bind; [apply mount_fs_live|]. intros fs s [Hs (b & Hb & Ht)]. revert s Hs.
    pose proof (Hw b fs Hb Ht) as Hm.
    eapply triple_bind; [apply call_live; intros; by apply m_write|]. intros n.
    destruct (0 <? n); [|apply live_forget; keeps_go].
    apply then_ok; [|intros ?; keeps_go].
    intros s (Hs & Hv & Hl). subst v. apply set_live_ok; [done|done|..]; by destruct (_ <? _).
Qed.

(** Dropping the last reference takes the handle's locks with it. *)
Lemma release_ok (v : Vfs W) h e :
  table_ok v -> live v h = true -> FileEntry.refcount e = 0 -> entry_good e ->
  table_ok (set_locks (set_entry v (Z.to_nat h) e) (filter (fun l => FileLock.owner l <> h) (locks v))).
Proof.
  intros (Hl & Ht & Ha & Hb) [Hin Hrc]%live_in_table Hr Hg. pose proof (entry_lookup _ _ Hl Hin) as He.
  pose proof (lookup_lt_Some _ _ _ He) as Hlt.
  assert (0 <= h) as Hh by (apply andb_true_iff in Hin as [?%Z.leb_le _]; done).
  split; [cbn; by rewrite length_insert|]. split; [cbn; apply Forall_insert; [done|split; [lia|done]]|]. split; cbn.
  - intros l [Hne Hl']%list_elem_of_filter. destruct (Ha l Hl') as [H1 H2]. pose proof (live_in_table _ _ H1) as [H3 H4].
    change (entry (set_locks ?a _) ?o) with (entry a o).
    assert (0 <= FileLock.owner l) by (apply andb_true_iff in H3 as [?%Z.leb_le _]; done).
    unfold live. change (entry (set_locks ?a _) ?o) with (entry a o). rewrite entry_insert by done.
    rewrite decide_False by lia. rewrite H3. by rewrite (proj2 (Z.eqb_neq _ _) H4).
  - intros l l' [_ H1]%list_elem_of_filter [_ H2]%list_elem_of_filter. by apply Hb.
Qed.

Lemma close_ok h : ok (close_handle h).
Proof.
  unfold close_handle. apply live_bind; [keeps_go|]. intros v. set (e := entry v h).
  set (e' := FileEntry.set_refcount e (FileEntry.refcount e - 1)). intros s (Hs & Hv & Hl). subst v.
  pose proof (live_in_table _ _ Hl) as [Hin Hrc]. pose proof Hs as (_ & Ht & _). pose proof Ht as (Htl & Hall & _).
  destruct (Forall_lookup_1 _ _ _ _ Hall (entry_lookup _ _ Htl Hin)) as [H0 Hg].
  rewrite (run_bind _ _ s (mkSt (set_entry (vfs s) (Z.to_nat h) e') (world s)) ()) by done.
  destruct (Z.eqb_spec (FileEntry.refcount e') 0) as [Ez|Ez]; cbn [negb].
  - rewrite (run_bind _ _ _ (mkSt (set_locks (set_entry (vfs s) (Z.to_nat h) e')
        (filter (fun l => FileLock.owner l <> h) (locks (vfs s)))) (world s)) ()) by done.
    set (s1 := mkSt (set_locks _ _) _).
    assert (Inv s1) as Hs1 by (apply new_vfs_ok; [done|done|]; by apply release_ok).
    destruct (_ =? RAM_SENTINEL); [done|].
    enough (ok (fs ← mount_fs (FileEntry.mount_idx e);
                call (fun w => (Filesystem.clunk fs (Vnode.handle (FileEntry.vnode e)) w, ())))) as Hok by (by apply Hok).
    vfs_go.
  - apply new_vfs_ok; [done|done|]. apply (set_entry_ok _ _ _ _ Ht (entry_lookup _ _ Htl Hin)); [|done|done].
    cbn. fold e in H0, Hrc. lia.
Qed.

Lemma add_ref_ok h :
  triple D (fun s => Inv s /\ FileEntry.refcount (entry (vfs s) h) < U16_MAX) (add_ref h) (fun _ => Inv).
Proof.
  unfold add_ref. intros s [Hs Hr]. destruct (in_table h) eqn:Hin; [|done].
  apply new_vfs_ok; [done|done|]. pose proof Hs as (_ & Ht & _). pose proof Ht as (Htl & Hall & _).
  destruct (Forall_lookup_1 _ _ _ _ Hall (entry_lookup _ _ Htl Hin)) as [H0 Hg].
  assert (u16 (FileEntry.refcount (entry (vfs s) h) + 1) = FileEntry.refcount (entry (vfs s) h) + 1) as Hw.
  { apply wrap_small. split; [lia|]. unfold U16_MAX in Hr. lia. }
  apply (set_entry_ok _ _ _ _ Ht (entry_lookup _ _ Htl Hin)); cbn; rewrite ?Hw; [lia|done|]. lia.
Qed.

Lemma on_vfs_ok {A} (f : Vfs W -> Vfs W * A) :
  (forall v, table_ok v -> mounts (f v).1 = mounts v /\ table_ok (f v).1) -> ok (on_vfs f).
Proof.
  intros Hf s Hs. unfold on_vfs. pose proof Hs as (_ & Ht & _). destruct (Hf _ Ht) as [H1 H2].
  destruct (f (vfs s)) as [v a]. by apply new_vfs_ok.
Qed.

Lemma configure_ok h a sh : ok (on_vfs (configure_open h a sh)).
Proof.
  apply on_vfs_ok. intros v Ht. unfold configure_open. destruct (live v h) eqn:Hl; cbn [negb]; [|done].
  destruct (existsb _ _); [done|]. split; [done|]. pose proof (live_in_table _ _ Hl) as [Hin Hrc].
  pose proof Ht as (Htl & Hall & _). destruct (Forall_lookup_1 _ _ _ _ Hall (entry_lookup _ _ Htl Hin)) as [H0 Hg].
  by apply (set_entry_ok _ _ _ _ Ht (entry_lookup _ _ Htl Hin)).
Qed.

Lemma set_locks_ok (v : Vfs W) ls :
  table_ok v -> (forall l, l ∈ ls -> l ∈ locks v) -> table_ok (set_locks v ls).
Proof.
  intros (Hl & Ht & Ha & Hb) Hsub. split; [done|]. split; [done|]. split.
  - intros l Hin. by apply Ha, Hsub.
  - intros l l' H1 H2. apply Hb; by apply Hsub.
Qed.

Lemma lock_range_ok h u st len : ok (on_vfs (lock_range h u st len)).
Proof.
  apply on_vfs_ok. intros v Ht. unfold lock_range. destruct (live v h) eqn:Hl; cbn [negb]; [|done].
  destruct u.
  - destruct (list_find _ _) as [[i l]|]; [|done]. split; [done|]. apply set_locks_ok; [done|]. intros l' H.
    apply list_elem_of_lookup in H as [j Hj]. destruct (decide (j < i)%nat).
    + rewrite list_lookup_delete_lt in Hj by done. by eapply list_elem_of_lookup_2.
    + rewrite list_lookup_delete_ge in Hj by lia. by eapply list_elem_of_lookup_2.
  - destruct (existsb _ _) eqn:Hc; [done|]. split; [done|]. destruct Ht as (Htl & Hall & Ha & Hb).
    assert (forall l, l ∈ locks v -> FileLock.ino l = FileEntry.ino (entry v h) -> FileLock.owner l <> h ->
      lock_end l <= st \/ sat_add U32_MAX st len <= FileLock.start l) as Hfree.
    { intros l Hin Hi Ho. destruct (lock_conflict (FileEntry.ino (entry v h)) h st (sat_add U32_MAX st len) l) eqn:E.
      - assert (existsb (lock_conflict (FileEntry.ino (entry v h)) h st (sat_add U32_MAX st len)) (locks v) = true) as E1; [|congruence].
        apply existsb_exists. exists l. split; [by apply list_elem_of_In|done].
      - unfold lock_conflict in E. rewrite (proj2 (Z.eqb_eq _ _) Hi), (proj2 (Z.eqb_neq _ _) Ho) in E. cbn in E.
        apply andb_false_iff in E as [E%Z.ltb_ge|E%Z.ltb_ge]; lia. }
    split; [done|]. split; [done|]. split.
    + intros l [Hin| ->%list_elem_of_singleton]%elem_of_app; [by apply Ha|]. by cbn.
    + intros l l' [H1| ->%list_elem_of_singleton]%elem_of_app [H2| ->%list_elem_of_singleton]%elem_of_app Hi Ho; cbn in *.
      * by apply Hb.
      * by apply Hfree.
      * destruct (Hfree l' H2 (eq_sym Hi)); [congruence|by right|by left].
      * done.
Qed.

Lemma flush_ok h : ok (flush_handle h).
Proof. unfold flush_handle. vfs_go. Qed.

Lemma handle_mtime_ok h : ok (handle_mtime h).
Proof. unfold handle_mtime. vfs_go. Qed.

Lemma fs_readdir_ok p i : ok (fs_readdir fuel p i).
Proof. unfold fs_readdir, readdir, ensure_cached. vfs_go. Qed.

#[local] Hint Resolve open_to_handle_ok create_to_handle_ok read_ok write_ok seek_ok close_ok mkdir_ok rmdir_ok rename_ok
  vdelete_ok stat_ok readlink_ok path_mode_ok set_path_mode_ok flush_ok handle_mtime_ok set_handle_mtime_ok
  configure_ok lock_range_ok fs_readdir_ok : keeps.

(** Every operation keeps the invariant. *)
Lemma run_op_ok o : triple D (fun s => Inv s /\ op_pre s o) (run_op fuel o) (fun _ => Inv).
Proof.
  assert (forall m : M (St W) (), ok m -> triple D (fun s => Inv s /\ True) m (fun _ => Inv)) as Hw.
  { intros m H. eapply triple_conseq; [exact H| |done]. by intros s [? _]. }
  destruct o; try apply add_ref_ok; apply Hw; cbn [run_op]; keeps_go.
Qed.

End Invariant.

(** * Lookups touch only the directory cache *)

Section Lookups.
Context {W : Type} (fuel : nat) (P : Vfs W -> Prop) (HP : forall v c g, P v -> P (set_cache v c g)).

Local Abbreviation look := (keeps True (fun s : St W => P (vfs s))).

Lemma look_call {A} (f : W -> W * A) : look (call f).
Proof. intros s Hs. unfold call. by destruct (f (world s)). Qed.

Lemma look_self : look self.
Proof. apply keeps_gets. Qed.

Lemma look_resolve {R} path (f : Z -> Filesystem.t W -> Path -> M W (option R)) : look (resolve path f).
Proof. intros s Hs. unfold resolve. by destruct (resolve_members _ _ _ _ _) as [[w r]| |]. Qed.

Lemma look_resolve_with {T R} path (f : Z -> Filesystem.t W -> Path -> M (W * T) (option R)) t : look (resolve_with path f t).
Proof. intros s Hs. unfold resolve_with. by destruct (resolve_members _ _ _ _ _) as [[[w t'] r]| |]. Qed.

#[local] Hint Resolve look_call look_self look_resolve look_resolve_with : keeps.

Lemma look_mount_fs i : look (mount_fs i).
Proof. unfold mount_fs. keeps_go. Qed.
#[local] Hint Resolve look_mount_fs : keeps.

Lemma look_may_write i sub : look (may_write i sub).
Proof. unfold may_write. keeps_go. Qed.

Lemma look_cached_child parent name : look (cached_child fuel parent name).
Proof.
  unfold cached_child, ensure_cached, populate_dir_cache. keeps_go. intros s Hs. by apply HP.
Qed.
#[local] Hint Resolve look_cached_child : keeps.

Lemma look_readlink_entry path e out : look (readlink_entry path e out).
Proof. unfold readlink_entry. keeps_go. Qed.
#[local] Hint Resolve look_readlink_entry : keeps.

Lemma look_resolve_loop n follow resolved pending links : look (resolve_loop fuel n follow resolved pending links).
Proof.
  revert resolved pending links; induction n as [|n IH]; intros resolved pending links; cbn [resolve_loop]; [by intros s Hs|].
  keeps_go; apply IH.
Qed.

Lemma look_resolve_symlinks path follow : look (resolve_symlinks fuel path follow).
Proof. unfold resolve_symlinks. destruct (contains_nul path); [apply keeps_ret|apply look_resolve_loop]. Qed.
#[local] Hint Resolve look_resolve_symlinks : keeps.

Lemma look_open_cached_node path : look (open_cached_node fuel path).
Proof. unfold open_cached_node, mount_fs_open. destruct (match rposition _ _ with Some _ => _ | None => _ end). keeps_go. Qed.

Lemma look_dir_exists path : look (dir_exists fuel path).
Proof. unfold dir_exists, lookup_child. keeps_go. Qed.

End Lookups.

(** Opening a file takes a free slot of the table, or leaves it alone. *)
Lemma open_to_handle_table {W} fuel path (s : St W) :
  match open_to_handle fuel path s with
  | Val (s', h) =>
      (h < 0 /\ file_table (vfs s') = file_table (vfs s)) \/
      (exists i e0 e, h = Z.of_nat i /\ file_table (vfs s) !! i = Some e0 /\ FileEntry.refcount e0 = 0 /\
         FileEntry.refcount e = 1 /\ file_table (vfs s') = <[i := e]> (file_table (vfs s)))
  | _ => True
  end.
Proof.
  set (ft := file_table (vfs s)). set (P := fun v : Vfs W => file_table v = ft).
  set (Q := fun (h : Z) (s' : St W) => (h < 0 /\ file_table (vfs s') = ft) \/
      (exists i e0 e, h = Z.of_nat i /\ ft !! i = Some e0 /\ FileEntry.refcount e0 = 0 /\ FileEntry.refcount e = 1 /\
         file_table (vfs s') = <[i := e]> ft)).
  assert (forall v c g, P v -> P (set_cache v c g)) as HP by done.
  assert (forall h, h < 0 -> triple True (fun s => P (vfs s)) (mret h : M (St W) Z) Q) as Hfail by (intros h Hh s' Hs'; by left).
  assert (forall s' e i, P (vfs s') -> FileEntry.refcount e = 1 -> alloc_file_entry (vfs s') = Some i ->
            Q (Z.of_nat i) (mkSt (set_entry (vfs s') i e) (world s'))) as Hset.
  { intros s' e i Hs' He Ha. right. unfold alloc_file_entry in Ha. apply fmap_Some in Ha as ([j e0] & Hf & ->).
    apply list_find_Some in Hf as (Hj & H0 & _). rewrite Hs' in Hj. exists j, e0, e. split_and!; try done. cbn. by rewrite Hs'. }
  assert (triple True (fun s => P (vfs s)) (open_to_handle fuel path) Q) as H; [|by apply (H s)].
  unfold open_to_handle. eapply triple_bind; [apply (look_resolve_symlinks fuel P HP)|]. intros [p|]; [|by apply Hfail].
  eapply triple_bind; [apply look_self|]. intros v. destruct (ram_files v !! p).
  - unfold install. intros s' Hs'. unfold self. run. destruct (alloc_file_entry (vfs s')) as [i|] eqn:E; [|by left]. by apply Hset.
  - eapply triple_bind; [apply (look_open_cached_node fuel P HP)|]. intros r.
    eapply (triple_bind _ _ _ _ (fun _ s => P (vfs s))); [destruct r; [apply keeps_ret|apply look_resolve]|].
    intros [[[midx vn] sub]|]; [|by apply Hfail]. intros s' Hs'. unfold self at 1. rewrite (run_bind _ _ s' s' (vfs s')) by done.
    destruct (alloc_file_entry (vfs s')) as [i|] eqn:E; [|by left]. unfold mbind at 1, M_bind at 1.
    pose proof (may_write_vfs midx sub s') as Hv. destruct (may_write midx sub s') as [[s2 w]| |]; [|done|done].
    specialize (Hv s2 w eq_refl). unfold update. run. apply Hset; [by rewrite Hv|done|by rewrite Hv].
Qed.
