(* ===== verification/VfsFacts.v ===== *)
(** Theorems about the virtual filesystem: locks, write protection,
    termination, the namespace, directory listings, and files in the RAM
    overlay; and the runs that show where the code leaves its own rules. *)

From Stdlib Require Import ZArith Lia Bool.
From stdpp Require Import base option list numbers gmap relations.
From S2P Require Import Prelude Path Effect Vfs VfsInv.

(** The state after the mounts of startup: nothing is open yet. *)
Definition fresh {W} (s : St W) : Prop :=
  file_table (vfs s) = replicate MAX_OPEN_FILES FileEntry.EMPTY /\ locks (vfs s) = [].

Definition backends {W} (P : Binding.t W -> Filesystem.t W -> Prop) (s : St W) : Prop :=
  (length (mounts (vfs s)) <= 256)%nat /\
  Forall (fun b => forall fs, Binding.target b = Server fs -> buffers_keep fs /\ P b fs) (mounts (vfs s)).

(** A directory enumeration moves its cookie forward and stops by [N]. *)
Definition progress {W} (N : Z) (fs : Filesystem.t W) : Prop :=
  forall node sub cookie w w' batch next,
    (Filesystem.readdir_node fs node cookie READDIR_BATCH w = (w', (batch, Some next)) ->
     cookie < next <= N \/ next = cookie) /\
    (Filesystem.readdir fs sub cookie READDIR_BATCH w = (w', (batch, Some next)) ->
     cookie < next <= N \/ next = cookie).

Section Instances.
Context {W X : Type} (obs : W -> X) (D : Prop) (fuel : nat).

Lemma fresh_inv (ms : list (Binding.t W)) s : fresh s -> mounts (vfs s) = ms -> Inv obs ms (obs (world s)) s.
Proof.
  intros [Ht Hl] Hm. split; [done|]. split; [|done]. split; [by rewrite Ht, length_replicate|]. split.
  - rewrite Ht. apply Forall_replicate. split; [done|]. by intros ?.
  - split; rewrite Hl; [by intros l ?%not_elem_of_nil|by intros l l' ?%not_elem_of_nil].
Qed.

Lemma reachable_inv (ms : list (Binding.t W)) x s s' :
  Forall (mount_ok obs D fuel) ms -> (length ms <= 256)%nat -> Inv obs ms x s -> rtc (vstep fuel) s s' -> Inv obs ms x s'.
Proof.
  intros Hms Hlen Hs Hr. induction Hr as [s|s1 s2 s3 [o Hp Ho] Hr IH]; [done|]. apply IH.
  pose proof (run_op_ok obs D fuel ms x Hms Hlen o s1 (conj Hs Hp)) as H. by rewrite Ho in H.
Qed.

(** Nothing is observed of the backends. *)
Lemma trivial_mount_ok b :
  (forall fs, Binding.target b = Server fs -> buffers_keep fs /\
     forall i node sub s, enumerate fuel i fs node sub READDIR_START s = Diverge -> D) ->
  mount_ok (fun _ : W => ()) D fuel b.
Proof.
  intros H. unfold mount_ok. destruct (Binding.target b) as [fs|]; [|done]. destruct (H fs eq_refl) as [H1 H2].
  split_and!; [|by destruct H1|done|left]; by constructor.
Qed.
End Instances.

Lemma progress_enumerates {W} N (fs : Filesystem.t W) i node sub :
  progress N fs -> forall fuel cookie s, (Z.to_nat (N - cookie) + 2 <= fuel)%nat ->
  enumerate fuel i fs node sub cookie s <> Diverge.
Proof.
  intros Hp fuel. induction fuel as [|fuel IH]; intros cookie [w l] Hf; [lia|]. cbn [enumerate].
  destruct (match node with Some k => _ | None => _ end) as [w' [batch next]] eqn:E.
  destruct (add_batch i batch l) as [l'|]; [|done]. destruct next as [c|]; [|done].
  destruct (Z.eqb_spec c cookie) as [->|Hc]; [done|].
  assert (cookie < c <= N) by (destruct node as [k|];
    [destruct (proj1 (Hp k sub cookie w w' batch c) E)|destruct (proj2 (Hp 0 sub cookie w w' batch c) E)]; lia).
  apply IH. lia.
Qed.

(** C19: two handles with the same lock key never hold overlapping locks,
    however files are opened, shared, renamed, deleted and closed; and a lock is
    always held by an open handle with that key, so none is left behind by a
    close.  The key of a handle is the hash of the path it was opened by, not
    the identity of the file: handles opened by different paths are not kept
    apart.  It starts with nothing open and at most 256 mounts, and no handle
    is shared more than 65535 times. *)
Theorem locks_exclusive {W} fuel (s s' : St W) l l' :
  fresh s -> backends (fun _ _ => True) s -> rtc (vstep fuel) s s' ->
  l ∈ locks (vfs s') -> l' ∈ locks (vfs s') ->
  (live (vfs s') (FileLock.owner l) = true /\ FileEntry.ino (entry (vfs s') (FileLock.owner l)) = FileLock.ino l) /\
  (FileLock.ino l = FileLock.ino l' -> FileLock.owner l <> FileLock.owner l' ->
   lock_end l <= FileLock.start l' \/ lock_end l' <= FileLock.start l).
Proof.
  intros Hf [Hlen Hb] Hr Hl Hl'.
  assert (Forall (mount_ok (fun _ : W => ()) True fuel) (mounts (vfs s))) as Hms.
  { eapply Forall_impl; [exact Hb|]. intros b H. apply trivial_mount_ok. intros fs Ht. by destruct (H fs Ht). }
  pose proof (reachable_inv _ True fuel _ _ s s' Hms Hlen (fresh_inv _ _ s Hf eq_refl) Hr) as (_ & (_ & _ & Ha & Hx) & _).
  split; [by apply Ha|]. by apply Hx.
Qed.

(** What reaches a mount without a write grant: queries, creations, and the
    removal of names it has no facts about.  Whatever is observed of a backend
    ([obs]) is the same after any sequence of operations, when its queries
    leave it alone and every backend that could change it is mounted with no
    access - provided it creates nothing where it says it cannot, and has
    nothing to remove under a name it has no facts about. *)
Theorem unwritable_mount_untouched {W X} (obs : W -> X) fuel (s s' : St W) :
  fresh s ->
  backends (fun b fs => queries_keep obs fs /\
                        (mutators_keep obs fs \/ Binding.access b = ANone /\ denied_keep obs fs)) s ->
  rtc (vstep fuel) s s' -> obs (world s') = obs (world s).
Proof.
  intros Hf [Hlen Hb] Hr.
  assert (Forall (mount_ok obs True fuel) (mounts (vfs s))) as Hms.
  { eapply Forall_impl; [exact Hb|]. intros b H. unfold mount_ok. destruct (Binding.target b) as [fs|] eqn:Ht; [|done].
    destruct (H fs Ht) as (H1 & H2 & H3). by split_and!. }
  by destruct (reachable_inv obs True fuel _ _ s s' Hms Hlen (fresh_inv _ _ s Hf eq_refl) Hr) as (_ & _ & ?).
Qed.

(** C20: every operation ends.  If the backends' enumerations advance their
    cookie up to some bound, no operation on any reachable state runs out of
    fuel: chains of symbolic links, however they loop, are cut off after
    forty. *)
Theorem operations_end {W} N (s s' : St W) o :
  fresh s -> backends (fun _ fs => progress N fs) s ->
  let fuel := (Z.to_nat N + 2)%nat in
  rtc (vstep fuel) s s' -> op_pre s' o -> run_op fuel o s' <> Diverge.
Proof.
  intros Hf [Hlen Hb] fuel Hr Hp.
  assert (Forall (mount_ok (fun _ : W => ()) False fuel) (mounts (vfs s))) as Hms.
  { eapply Forall_impl; [exact Hb|]. intros b H. apply trivial_mount_ok. intros fs Ht. destruct (H fs Ht) as [H1 H2].
    split; [done|]. intros i node sub st. apply (progress_enumerates N); [done|]. unfold fuel, READDIR_START.
    rewrite Z.sub_0_r. lia. }
  pose proof (reachable_inv _ False fuel _ _ s s' Hms Hlen (fresh_inv _ _ s Hf eq_refl) Hr) as Hs.
  pose proof (run_op_ok _ False fuel _ _ Hms Hlen o s' (conj Hs Hp)) as H. by destruct (run_op fuel o s').
Qed.

(** * The namespace *)

Definition server_at {W} (ms : list (Binding.t W)) (path : Path) (i : nat) (b : Binding.t W) (fs : Filesystem.t W)
    (start : nat) : Prop :=
  ms !! i = Some b /\ Binding.target b = Server fs /\ match_prefix (Binding.prefix b) path = Some start.

(** Longer prefix first, then the later mount. *)
Definition outranks {W} (b b' : Binding.t W) : Prop :=
  (length (Binding.prefix b') < length (Binding.prefix b))%nat \/
  (length (Binding.prefix b') = length (Binding.prefix b) /\ Binding.seq b' <= Binding.seq b).

(** What the scan holds: nothing when no server matches, the best otherwise. *)
Definition head_best {W} (ms : list (Binding.t W)) (path : Path) (r : option (nat * Z * nat * nat)) : Prop :=
  match r with
  | None => forall i b fs start, ~ server_at ms path i b fs start
  | Some (pl, q, i, start) =>
      exists b fs, server_at ms path i b fs start /\ pl = length (Binding.prefix b) /\ q = Binding.seq b /\
      forall j b' fs' start', server_at ms path j b' fs' start' -> outranks b b'
  end.

Lemma server_at_snoc {W} (ms : list (Binding.t W)) c path i b fs start :
  server_at (ms ++ [c]) path i b fs start <->
  server_at ms path i b fs start \/
  (i = length ms /\ b = c /\ Binding.target c = Server fs /\ match_prefix (Binding.prefix c) path = Some start).
Proof.
  unfold server_at. split.
  - intros ([Hi|[Hlen Hi]]%lookup_app_Some & Ht & Hm); [by left|]. right.
    apply list_lookup_singleton_Some in Hi as [Hi <-]. split_and!; try done. lia.
  - intros [(Hi & H)|(-> & -> & Ht & Hm)]; [split; [by apply lookup_app_l_Some|done]|].
    split_and!; try done. by rewrite lookup_app_r, Nat.sub_diag.
Qed.

Lemma head_scan {W} (ms : list (Binding.t W)) path : head_best ms path (foldl (head_step path) None (imap pair ms)).
Proof.
  induction ms as [|c ms IH] using rev_ind; [by intros i b fs start [? _]|].
  rewrite imap_app, foldl_app. cbn [imap foldl]. cbn. rewrite Nat.add_0_r.
  destruct (foldl (head_step path) None (imap pair ms)) as [[[[pl q] i] start]|]; unfold head_step.
  - destruct IH as (b & fs & Hb & -> & -> & Hbest).
    assert (forall j b' fs' st, server_at (ms ++ [c]) path j b' fs' st -> outranks b b' \/
              (b' = c /\ Binding.target c = Server fs' /\ match_prefix (Binding.prefix c) path = Some st)) as Hany.
    { intros j b' fs' st [H|(-> & -> & H)]%server_at_snoc; [left; by eapply Hbest|by right]. }
    assert ((forall fs' st, Binding.target c = Server fs' -> match_prefix (Binding.prefix c) path = Some st -> outranks b c) ->
            head_best (ms ++ [c]) path (Some (length (Binding.prefix b), Binding.seq b, i, start))) as Hkeep.
    { intros Hc. exists b, fs. split_and!; try done; [apply server_at_snoc; by left|].
      intros j b' fs' st [H|(-> & H1 & H2)]%Hany; [done|by eapply Hc]. }
    destruct (Binding.target c) as [fs'|] eqn:Ht; [|by apply Hkeep].
    destruct (match_prefix (Binding.prefix c) path) as [st|] eqn:Em; [|by apply Hkeep].
    destruct (_ || _) eqn:Hbet; [|apply Hkeep; intros; unfold outranks].
    + exists c, fs'. split_and!; try done; [apply server_at_snoc; by right|].
      intros j b' fs'' st' [H|(-> & _)]%Hany; [|right; lia].
      apply orb_true_iff in Hbet as [?%Nat.ltb_lt|[?%Nat.eqb_eq ?%Z.ltb_lt]%andb_true_iff]; destruct H as [?|[? ?]];
        unfold outranks; [left; lia..|left; lia|right; lia].
    + apply orb_false_iff in Hbet as [?%Nat.ltb_ge Hbet].
      apply andb_false_iff in Hbet as [?%Nat.eqb_neq|?%Z.ltb_ge]; [left; lia|].
      destruct (decide (length (Binding.prefix c) = length (Binding.prefix b))); [right; lia|left; lia].
  - assert (forall j b' fs' st, server_at (ms ++ [c]) path j b' fs' st ->
      j = length ms /\ b' = c /\ Binding.target c = Server fs' /\ match_prefix (Binding.prefix c) path = Some st) as Hany.
    { intros j b' fs' st [H|H]%server_at_snoc; [by apply IH in H|done]. }
    destruct (Binding.target c) as [fs'|] eqn:Ht; [|intros j b' fs' st (_ & _ & ? & _)%Hany; done].
    destruct (match_prefix (Binding.prefix c) path) as [st|] eqn:Em; [|intros j b' fs'' st' (_ & _ & _ & ?)%Hany; done].
    exists c, fs'. split_and!; try done; [apply server_at_snoc; by right|].
    intros j b' fs'' st' (_ & -> & _)%Hany. right. lia.
Qed.

(** The backend that writes go to.  [resolve_head] answers with a server
    whose prefix matches, such that every other matching server has a shorter
    prefix or an earlier mount; the subpath is the rest of the path; with no
    matching server it is the empty filesystem and the whole path. *)
Theorem resolve_head_best {W} (ms : list (Binding.t W)) path midx fs sub :
  (length ms <= 256)%nat -> resolve_head ms path = (midx, fs, sub) ->
  (exists b start, server_at ms path (Z.to_nat midx) b fs start /\ sub = drop start path /\
     forall j b' fs' start', server_at ms path j b' fs' start' -> outranks b b') \/
  (fs = Filesystem.EMPTY_FS /\ sub = path /\ forall j b' fs' start', ~ server_at ms path j b' fs' start').
Proof.
  intros Hlen. unfold resolve_head. pose proof (head_scan ms path) as H.
  destruct (foldl _ _ _) as [[[[pl q] i] start]|]; [|by intros [= <- <- <-]; right].
  destruct H as (b & fs' & Hb & _ & _ & Hbest). pose proof Hb as (Hi & Ht & _). rewrite Hi.
  destruct b as [pre tgt acc sq]. cbn in Ht. subst tgt. intros [= <- <- <-]. left.
  exists (Binding.mk pre (Server fs') acc sq), start. rewrite wrap_small, Nat2Z.id; [done|].
  apply lookup_lt_Some in Hi. split; [lia|]. change (2 ^ 8) with 256. lia.
Qed.

(** * Directory listings *)

Definition folded (e : DirEntry.t) : option Path := fold_case <$> entry_name e.

(** The names of a listing, folded, are pairwise distinct and all claimed. *)
Definition listing_ok (l : Listing) : Prop :=
  NoDup (folded <$> l.1) /\ forall e, e ∈ l.1 -> exists n, folded e = Some n /\ n ∈ l.2.

Lemma add_entry_ok l name e : listing_ok l -> entry_name e = Some name -> listing_ok (add_entry l name e).
Proof.
  intros [Hn Hc] He. unfold add_entry, claim_visible_name. destruct (bool_decide _) eqn:E; cbn.
  - apply bool_decide_eq_true in E. split; cbn.
    + rewrite fmap_app. apply NoDup_app. split; [done|]. split; [|apply NoDup_singleton].
      intros o (e' & -> & He')%list_elem_of_fmap Ho%list_elem_of_singleton. destruct (Hc e' He') as (n & Hf & Hin).
      unfold folded in Ho at 2. rewrite He in Ho. rewrite Hf in Ho. injection Ho as ->. done.
    + intros e' [He'| ->%list_elem_of_singleton]%elem_of_app.
      * destruct (Hc e' He') as (n & ? & ?). exists n. set_solver.
      * exists (fold_case name). unfold folded. rewrite He. split; [done|set_solver].
  - split; cbn; [done|]. intros e' He'. destruct (Hc e' He') as (n & ? & ?). exists n. set_solver.
Qed.

Lemma add_batch_ok idx batch l l' : listing_ok l -> add_batch idx batch l = Some l' -> listing_ok l'.
Proof.
  revert l; induction batch as [|e batch IH]; intros l Hl; cbn; [by intros [= <-]|].
  destruct (entry_name e) as [n|] eqn:E; cbn; [|done]. apply IH. by apply add_entry_ok.
Qed.

Lemma synth_name basename size d m : (length basename <= 100)%nat -> entry_name (synth_entry basename size d m) = Some basename.
Proof.
  intros H. unfold entry_name, synth_entry. cbn. rewrite Nat.min_l by lia.
  rewrite length_app, length_replicate, firstn_all. rewrite (proj2 (Nat.leb_le _ _)) by lia. by rewrite take_app_length.
Qed.

Lemma child_in_dir_short key dir b : child_in_dir key dir = Some b -> (length b <= length key)%nat.
Proof.
  unfold child_in_dir. destruct (split_parent_bytes key) as [[p n]|] eqn:E; cbn; [|done].
  destruct (_ && _); [|done]. intros [= <-]. apply split_parent_spec in E as [_ [->|[-> _]]]; rewrite ?length_app; cbn; lia.
Qed.

Lemma strip_slash_short p : (length (strip_slash p) <= length p)%nat.
Proof. unfold strip_slash. destruct (ends_with_slash p); [rewrite length_take|]; lia. Qed.

(** One layer of names the namespace makes itself. *)
Lemma fold_layer_ok {A} (child : A -> option Path) (size : A -> Z) d m (items : list A) l :
  (forall a b, a ∈ items -> child a = Some b -> (length b <= 100)%nat) -> listing_ok l ->
  listing_ok (foldl (fun l a => match child a with
                                | Some b => add_entry l b (synth_entry b (size a) d m)
                                | None => l end) l items).
Proof.
  revert l; induction items as [|a items IH]; intros l Hc Hl; cbn; [done|]. apply IH.
  - intros a' b Ha'. apply Hc. set_solver.
  - destruct (child a) as [b|] eqn:E; [|done]. apply add_entry_ok; [done|]. apply synth_name, (Hc a); set_solver.
Qed.

Lemma enumerate_listing {W} n idx (fs : Filesystem.t W) node sub cookie :
  keeps True (fun wl : W * Listing => listing_ok wl.2) (enumerate n idx fs node sub cookie).
Proof.
  revert cookie; induction n as [|n IH]; intros cookie [w l] Hl; cbn [enumerate]; [done|].
  destruct (match node with Some _ => _ | None => _ end) as [w' [batch next]].
  destruct (add_batch idx batch l) as [l'|] eqn:E; [|done]. apply add_batch_ok in E; [|done].
  destruct next as [c|]; [|done]. destruct (c =? cookie); [done|]. by apply (IH c (w', l')).
Qed.

Lemma elem_of_isort {A} (leb : A -> A -> bool) x l : x ∈ isort leb l <-> x ∈ l.
Proof.
  assert (forall y l, x ∈ insert_sorted leb y l <-> x = y \/ x ∈ l) as Hi.
  { intros y l'. induction l' as [|z l' IH]; cbn; [set_solver|]. destruct (leb y z); set_solver. }
  induction l as [|y l IH]; cbn; [done|]. rewrite Hi, IH. set_solver.
Qed.

(** The names the namespace itself lists in a directory fit an entry. *)
Definition names_fit {W} (v : Vfs W) (dir : Path) : Prop :=
  (forall k b, is_Some (ram_files v !! k) \/ k ∈ ram_dirs v -> entry_in_ram_dir k dir = Some b -> (length b <= 100)%nat) /\
  (forall m b, m ∈ mounts v -> mount_child_in_dir (Binding.prefix m) dir = Some b -> (length b <= 100)%nat).

Lemma ram_layer_ok {W} (v : Vfs W) dir : names_fit v dir -> listing_ok (ram_layer v dir).
Proof.
  intros [Hr _]. unfold ram_layer.
  apply (fold_layer_ok (fun key => entry_in_ram_dir key dir) (fun _ => 0)).
  - intros k b Hk%elem_of_isort%elem_of_elements. apply Hr. by right.
  - apply (fold_layer_ok (fun kd : Path * list Z => entry_in_ram_dir kd.1 dir) (fun kd => u32 (Z.of_nat (length kd.2)))).
    + intros [k d] b Hk%elem_of_isort%elem_of_map_to_list. apply Hr. left. by exists d.
    + split; cbn; [constructor|by intros e ?%not_elem_of_nil].
Qed.

Lemma list_member_listing {W} fuel (v : Vfs W) dir idx fs sub :
  keeps True (fun wl : W * Listing => listing_ok wl.2) (list_member fuel v dir idx fs sub).
Proof.
  unfold list_member. apply keeps_bind; [|intros node; apply keeps_bind; [apply enumerate_listing|intros ?; apply keeps_ret]].
  destruct (is_nil sub); [|apply keeps_ret]. intros [w l] Hl. by destruct (Filesystem.root_node fs w).
Qed.

(** C28: a directory listing shows no name twice.  However the RAM overlay,
    the layers of a union and the mount points below compose, the entries of
    a listing have pairwise different names, also when case is ignored: an
    upper layer hides a lower one.  The names of the overlay and of the mount
    points in that directory have at most 100 bytes, the size of an entry;
    longer ones are cut off there, and two of them can become one name. *)
Theorem listing_names_distinct {W} fuel dir (s s' : St W) :
  names_fit (vfs s) dir -> populate_dir_cache fuel dir s = Val (s', ()) ->
  exists c, dir_cache (vfs s') = dir_cache (vfs s) ++ [c] /\ DirCache.dir c = dir /\ NoDup (folded <$> DirCache.entries c).
Proof.
  intros Hn Hp. unfold populate_dir_cache in Hp. apply bind_val in Hp as (s0 & v & [= <- <-] & Hp).
  apply bind_val in Hp as (s1 & [l r] & Hl & Hp). unfold resolve_with in Hl.
  pose proof (resolve_members_ok True (mounts (vfs s)) (fun wl : W * Listing => listing_ok wl.2)
    (list_member fuel (vfs s) dir) ALIAS_DEPTH dir (fun i b fs sub _ _ => list_member_listing _ _ _ _ _ _)
    (world s, ram_layer (vfs s) dir) (ram_layer_ok _ _ Hn)) as Hok.
  destruct (resolve_members _ _ _ _ _) as [[[w l'] r']| |]; [|done|done]. injection Hl as <- <- <-.
  apply bind_val in Hp as (s2 & c & Hc & Hu). injection Hu as <-.
  unfold expect in Hc. destruct (dir_cache_new _ _) as [c'|] eqn:E; [|done]. injection Hc as <- <-. exists c'. cbn. split; [done|].
  unfold dir_cache_new in E. destruct (foldl _ _ _) as [names|]; [|done]. injection E as <-. cbn. split; [done|].
  apply (fold_layer_ok (fun b => mount_child_in_dir (Binding.prefix b) dir) (fun _ => 0)); [|done].
  intros m b Hm. by apply Hn.
Qed.

(** * Files in the overlay *)

(** A handle open on a file of the overlay, and the bytes of that file. *)
Definition ram_file {W} (v : Vfs W) (h : Z) (data : list Z) : Prop :=
  live v h = true /\ length (file_table v) = MAX_OPEN_FILES /\
  Vnode.handle (FileEntry.vnode (entry v h)) = RAM_SENTINEL /\ ram_files v !! FileEntry.ram_key (entry v h) = Some data.

Lemma live_bound {W} (v : Vfs W) h : live v h = true -> 0 <= h < Z.of_nat MAX_OPEN_FILES.
Proof. intros [[?%Z.leb_le ?%Z.ltb_lt]%andb_true_iff _]%live_in_table. done. Qed.

Lemma entry_at {W} (v : Vfs W) h e :
  length (file_table v) = MAX_OPEN_FILES -> live v h = true -> entry (set_entry v (Z.to_nat h) e) h = e.
Proof. intros Hl Hh%live_bound. rewrite entry_insert by lia. by rewrite decide_True. Qed.

Lemma live_at {W} (v : Vfs W) h e :
  length (file_table v) = MAX_OPEN_FILES -> live v h = true -> FileEntry.refcount e = FileEntry.refcount (entry v h) ->
  live (set_entry v (Z.to_nat h) e) h = true.
Proof.
  intros Hl Hh Hr. pose proof (live_in_table _ _ Hh) as [Hin Hrc]. unfold live. rewrite Hin, entry_at by done.
  rewrite Hr. by rewrite (proj2 (Z.eqb_neq _ _) Hrc).
Qed.

(** Writing at [off]: what was before and after stays, and a hole is zeros. *)
Definition patched (data : list Z) (off : nat) (bytes : list Z) : list Z :=
  take off (data ++ replicate (off - length data) 0) ++ bytes ++ drop (off + length bytes) data.

Lemma overwrite_patched file off data :
  0 <= off -> overwrite file off (off + Z.of_nat (length data)) data = Some (patched file (Z.to_nat off) data).
Proof.
  intros Hoff. unfold overwrite, patched. destruct (Z.ltb_spec (Z.of_nat (length file)) (off + Z.of_nat (length data))) as [Hlt|Hge].
  - rewrite length_app, length_replicate.
    rewrite (proj2 (Z.leb_le _ _)), (proj2 (Z.leb_le _ _)), (proj2 (Z.eqb_eq _ _)) by lia. cbn [andb]. do 2 f_equal.
    + destruct (decide (Z.to_nat off <= length file)%nat) as [Hle|Hgt].
      * rewrite !take_app_le by lia. done.
      * rewrite !take_app_ge by lia. f_equal. rewrite !take_replicate. f_equal. lia.
    + f_equal. rewrite !drop_ge; [done| |]; [lia|]. rewrite length_app, length_replicate. lia.
  - rewrite (proj2 (Z.leb_le _ _)), (proj2 (Z.leb_le _ _)), (proj2 (Z.eqb_eq _ _)) by lia. cbn [andb]. do 2 f_equal.
    + rewrite take_app_le by lia. done.
    + do 2 f_equal. lia.
Qed.

Lemma length_patched data off bytes : (off + length bytes <= length (patched data off bytes))%nat.
Proof. unfold patched. rewrite !length_app, length_take, length_app, length_replicate, length_drop. lia. Qed.

Lemma patched_slice data off bytes : take (length bytes) (drop off (patched data off bytes)) = bytes.
Proof.
  unfold patched. assert (length (take off (data ++ replicate (off - length data) 0)) = off) as H.
  { rewrite length_take, length_app, length_replicate. lia. }
  rewrite drop_app_ge by lia. rewrite H, Nat.sub_diag, drop_0, take_app_le, firstn_all by lia. done.
Qed.

Lemma write_ram {W} (s : St W) h data bytes :
  ram_file (vfs s) h data -> 0 <= FileEntry.offset (entry (vfs s) h) ->
  FileEntry.offset (entry (vfs s) h) + Z.of_nat (length bytes) < 2 ^ 32 ->
  let off := FileEntry.offset (entry (vfs s) h) in
  let file := patched data (Z.to_nat off) bytes in
  exists s', write_by_handle h bytes s = Val (s', i32 (Z.of_nat (length bytes))) /\ ram_file (vfs s') h file /\
    FileEntry.offset (entry (vfs s') h) = off + Z.of_nat (length bytes) /\
    ram_files (vfs s') = <[FileEntry.ram_key (entry (vfs s) h) := file]> (ram_files (vfs s)) /\ world s' = world s.
Proof.
  intros (Hlive & Hlen & Hram & Hdata) H0 Hb off file. unfold write_by_handle, self. run. rewrite Hlive. cbn [negb].
  rewrite Hram, Z.eqb_refl, Hdata. unfold usize. rewrite (wrap_small 32) by (split; lia).
  rewrite overwrite_patched by done. fold off. fold file. unfold update, invalidate_dir_cache, update. run. cbn [vfs world].
  eexists. split; [done|]. cbn [vfs world].
  match goal with |- context [set_cache (set_entry ?v _ ?e) _ _] => set (v1 := v); set (e1 := e) end.
  assert (entry (set_entry v1 (Z.to_nat h) e1) h = e1) as He by by apply entry_at.
  change (entry (set_cache ?v _ _) h) with (entry v h). unfold ram_file.
  change (live (set_cache ?v _ _) h) with (live v h). change (entry (set_cache ?v _ _) h) with (entry v h).
  rewrite He. split_and!; try done.
  - by apply live_at.
  - cbn. by rewrite length_insert.
  - cbn. by rewrite lookup_insert_eq.
Qed.

Lemma seek_set {W} (s : St W) h o :
  live (vfs s) h = true -> 0 <= o < 2 ^ 31 ->
  seek_by_handle h o 0 s =
  Val (mkSt (set_entry (vfs s) (Z.to_nat h) (FileEntry.set_offset (entry (vfs s) h) o)) (world s), o).
Proof.
  intros Hl Ho. unfold seek_by_handle, self. run. rewrite Hl. cbn [negb]. change (0 =? 0) with true. cbv iota.
  rewrite (proj2 (Z.ltb_ge _ _)) by lia. unfold update. run. rewrite (wrap_small 32) by (split; lia).
  unfold i32. rewrite (wrap_small 32) by (split; lia). by rewrite (proj2 (Z.ltb_lt _ _)) by lia.
Qed.

Lemma read_ram {W} (s : St W) h data n :
  ram_file (vfs s) h data -> 0 <= FileEntry.offset (entry (vfs s) h) -> Z.of_nat n < 2 ^ 31 ->
  let off := Z.to_nat (FileEntry.offset (entry (vfs s) h)) in
  (off + n <= length data)%nat -> (0 < n)%nat ->
  exists s', read_by_handle h (replicate n 0) s = Val (s', (take n (drop off data), Z.of_nat n)) /\ world s' = world s /\
             ram_files (vfs s') = ram_files (vfs s).
Proof.
  intros (Hlive & Hlen & Hram & Hdata) H0 Hn off Hle Hpos. unfold read_by_handle, self. run. rewrite Hlive. cbn [negb].
  rewrite Hram, Z.eqb_refl, Hdata. fold off. rewrite (proj2 (Nat.leb_gt _ _)) by lia.
  rewrite length_replicate, Nat.min_l by lia. unfold update. run.
  assert (splice (replicate n 0) (take n (drop off data)) = take n (drop off data)) as ->.
  { unfold splice. rewrite (drop_ge (replicate n 0)), app_nil_r; [done|]. rewrite length_replicate, length_take, length_drop. lia. }
  assert (i32 (Z.of_nat n) = Z.of_nat n) as ->.
  { unfold i32. rewrite (wrap_small 32) by (split; lia). by rewrite (proj2 (Z.ltb_lt _ _)) by lia. }
  by eexists.
Qed.

(** C29: what is written to a file of the overlay is read back, up to offset
    2^31.  A write of one or more bytes at the handle's offset, which is not
    negative, that ends below 2 GB answers the length; after seeking back, a read of that
    length gives the bytes written, and the file is the old one with them
    in place - a hole in between filled with zeros - while every other file
    of the overlay and the backends are as before. *)
Theorem ram_write_read {W} (s : St W) h data bytes :
  let off := FileEntry.offset (entry (vfs s) h) in
  ram_file (vfs s) h data -> 0 <= off -> off + Z.of_nat (length bytes) < 2 ^ 31 -> bytes <> [] ->
  exists s1 s2 s3,
    write_by_handle h bytes s = Val (s1, Z.of_nat (length bytes)) /\
    seek_by_handle h off 0 s1 = Val (s2, off) /\
    read_by_handle h (replicate (length bytes) 0) s2 = Val (s3, (bytes, Z.of_nat (length bytes))) /\
    ram_files (vfs s3) = <[FileEntry.ram_key (entry (vfs s) h) := patched data (Z.to_nat off) bytes]> (ram_files (vfs s)) /\
    world s3 = world s.
Proof.
  intros off Hr H0 Hb Hne.
  destruct (write_ram s h data bytes Hr H0) as (s1 & Hw & Hr1 & Ho1 & Hf1 & Hw1); [lia|]. fold off in Hr1, Ho1, Hf1.
  assert (i32 (Z.of_nat (length bytes)) = Z.of_nat (length bytes)) as Hi.
  { unfold i32. rewrite (wrap_small 32) by (split; lia). by rewrite (proj2 (Z.ltb_lt _ _)) by lia. }
  rewrite Hi in Hw. pose proof Hr1 as (Hlive1 & Hlen1 & Hram1 & Hdata1).
  pose proof (seek_set s1 h off Hlive1 ltac:(lia)) as Hs.
  set (s2 := mkSt _ _) in Hs.
  assert (entry (vfs s2) h = FileEntry.set_offset (entry (vfs s1) h) off) as He by by apply entry_at.
  assert (ram_file (vfs s2) h (patched data (Z.to_nat off) bytes)) as Hr2.
  { unfold ram_file. rewrite He. split_and!; try done; [by apply live_at|]. cbn. by rewrite length_insert. }
  pose proof (length_patched data (Z.to_nat off) bytes) as Hl.
  destruct (read_ram s2 h _ (length bytes) Hr2) as (s3 & Hrd & Hw3 & Hf3); rewrite ?He; cbn; try lia.
  { destruct bytes; [done|cbn; lia]. }
  rewrite He in Hrd. cbn in Hrd. rewrite patched_slice in Hrd. exists s1, s2, s3. split_and!; try done.
  - by rewrite Hf3.
  - by rewrite Hw3.
Qed.

(** Operations on a handle that is not open fail with EBADF and change
    nothing; a write through a handle that may not be written fails with
    EROFS before any backend is reached, and a seek to a negative position or
    with an unknown origin with EINVAL. *)
Theorem handle_errors {W} (s : St W) h buf data o whence :
  (live (vfs s) h = false ->
     read_by_handle h buf s = Val (s, (buf, -9)) /\ write_by_handle h data s = Val (s, -9) /\
     seek_by_handle h o whence s = Val (s, -9) /\ close_handle h s = Val (s, ()) /\
     lock_range h false o 1 (vfs s) = (vfs s, -9) /\ configure_open h ARead DenyNone (vfs s) = (vfs s, -9)) /\
  (live (vfs s) h = true -> handle_writable (vfs s) h = false -> write_by_handle h data s = Val (s, -30)) /\
  (live (vfs s) h = true -> (o < 0 /\ whence = 0) \/ ~ 0 <= whence <= 2 -> seek_by_handle h o whence s = Val (s, -22)).
Proof.
  split_and!.
  - intros Hl. unfold read_by_handle, write_by_handle, seek_by_handle, close_handle, lock_range, configure_open, self. run.
    by rewrite Hl.
  - intros Hl Hw. unfold write_by_handle, self. run. rewrite Hl. cbn [negb]. unfold handle_writable in Hw. rewrite Hl in Hw.
    apply orb_false_iff in Hw as [-> ->]. done.
  - intros Hl Hbad. unfold seek_by_handle, self. run. rewrite Hl. cbn [negb].
    destruct Hbad as [[Ho ->]|Hbad]; [change (0 =? 0) with true; cbv iota; by rewrite (proj2 (Z.ltb_lt _ _) Ho)|].
    rewrite !(proj2 (Z.eqb_neq _ _)) by lia. done.
Qed.

(** * A backend for the runs below *)

(** A disk with one file "a": its world is the bytes of the file, or nothing
    after it was removed, and the number of fids handed out. *)
Definition A : Path := [97].
Record Disk := mkDisk { bytes : option (list Z); fids : Z }.

Definition a_entry (node : Z) : DirEntry.t := DirEntry.mk (97 :: replicate 99 0) 1 0 false false 420 0 node 0.

Definition disk_open (p : Path) (d : Disk) : Disk * option Vnode.t :=
  match bytes d with
  | Some b => if decide (p = A) then (mkDisk (Some b) (fids d + 1), Some (Vnode.mk 7 (Z.of_nat (length b)) 420)) else (d, None)
  | None => (d, None)
  end.
Definition disk_meta (p : Path) (d : Disk) : Disk * option Meta.t :=
  (d, if decide (p = A) then Some (Meta.mk 0 5 420) else if decide (p = []) then Some (Meta.mk 0 5 493) else None).
Definition disk : Filesystem.t Disk :=
  let r := Filesystem.read_only disk_open (fun _ _ b _ d => (d, (b, 0)))
             (fun _ _ _ d => (d, (match bytes d with Some _ => [a_entry 0] | None => [] end, None)))
             (fun p d => (d, is_nil p)) in
  Filesystem.mk (Filesystem.open r) (Filesystem.open_node r) (Filesystem.readlink_node r) (Filesystem.root_node r)
    (Filesystem.readdir_node r) (Filesystem.readlink r) (fun _ _ d => (d, None)) (Filesystem.read r) (Filesystem.readdir r)
    (Filesystem.dir_exists r)
    (fun p d => if decide (p = A) then (mkDisk (Some []) (fids d + 1), Some (Vnode.mk 7 0 420)) else (d, None)) true
    (Filesystem.mkdir r) false (Filesystem.rmdir r) (Filesystem.rename r) false (Filesystem.flush r) (Filesystem.mtime r)
    (Filesystem.set_mtime r) (fun _ _ data d => (mkDisk (Some data) (fids d), Z.of_nat (length data)))
    (fun _ d => mkDisk (bytes d) (fids d - 1))
    (fun p d => if decide (p = A) then (mkDisk None (fids d), 0) else (d, -1)) disk_meta
    (fun _ _ _ _ d => (d, true)).

(** Mounted as the root: with its grant (the group of "missing" cannot be
    read, so none), or plainly. *)
Definition boot : St Disk := mkSt new (mkDisk (Some [1; 2; 3]) 0).
Definition no_grant : St Disk := mount_writable boot [] disk [109].
Definition plain : St Disk := mkSt (mount (vfs boot) [] disk) (world boot).

Definition result {S A} (r : Res (S * A)) : option A := match r with Val (_, a) => Some a | _ => None end.
Definition state {S A} (d : S) (r : Res (S * A)) : S := match r with Val (s, _) => s | _ => d end.

Lemma disk_buffers : buffers_keep disk.
Proof. by constructor. Qed.

Lemma disk_queries : queries_keep bytes disk.
Proof.
  constructor; intros; try done. cbn. unfold disk_open. destruct w as [[b|] n]; [|done]. cbn. by destruct (decide _).
Qed.

Lemma disk_denied : denied_keep bytes disk.
Proof.
  constructor; [done| |].
  - intros p w w'. cbn. unfold disk_meta. destruct (decide (p = A)); [done|]. by intros [= <- _].
  - intros p w w'. cbn. unfold disk_meta. intros [= <- H]. exact H.
Qed.

(** One step of a concrete run. *)
Lemma run_step {W} fuel (s s' : St W) o : op_pre s o -> run_op fuel o s = Val (s', ()) -> rtc (vstep fuel) s s'.
Proof. intros Hp Ho. apply rtc_once. by exists o. Qed.

Definition after (o : vop) (s : St Disk) : St Disk := state boot (run_op 3 o s).

Lemma no_grant_fresh : fresh no_grant.
Proof. by split. Qed.

Lemma no_grant_backends (P : Binding.t Disk -> Filesystem.t Disk -> Prop) :
  (forall b, Binding.access b = ANone -> P b disk) -> backends P no_grant.
Proof.
  intros HP. split; [apply Nat.leb_le; by vm_compute|]. constructor; [|constructor]. intros fs [= <-].
  split; [apply disk_buffers|]. by apply HP.
Qed.

(** The file is opened, locked, written and deleted on a mount without a
    grant: the lock holds, the disk is as it was. *)
Definition locked : St Disk := after (VLock 0 false 10 5) (after (VOpen A) no_grant).
Definition attacked : St Disk := after (VDelete A) (after (VWrite 0 [9]) locked).

Lemma to_locked : rtc (vstep 3) no_grant locked.
Proof.
  etrans; [apply (run_step 3 no_grant (after (VOpen A) no_grant) (VOpen A)); [done|by vm_compute]|].
  apply (run_step 3 _ _ (VLock 0 false 10 5)); [done|by vm_compute].
Qed.

Lemma to_attacked : rtc (vstep 3) no_grant attacked.
Proof.
  etrans; [apply to_locked|].
  etrans; [apply (run_step 3 locked (after (VWrite 0 [9]) locked) (VWrite 0 [9])); [done|by vm_compute]|].
  apply (run_step 3 _ _ (VDelete A)); [done|by vm_compute].
Qed.

(** A second handle on the file asks for a range inside the lock, which is
    refused, and for one behind it, which is granted. *)
Definition refused : St Disk := after (VLock 1 false 12 2) (after (VOpen A) locked).
Definition shared : St Disk := after (VLock 1 false 20 5) refused.

Lemma to_shared : rtc (vstep 3) no_grant shared.
Proof.
  etrans; [apply to_locked|].
  etrans; [apply (run_step 3 locked (after (VOpen A) locked) (VOpen A)); [done|by vm_compute]|].
  etrans; [apply (run_step 3 (after (VOpen A) locked) refused (VLock 1 false 12 2)); [done|by vm_compute]|].
  apply (run_step 3 _ _ (VLock 1 false 20 5)); [done|by vm_compute].
Qed.

Lemma locks_exclusive_witness :
  let l := FileLock.mk (path_ino A) 0 10 5 in
  let l' := FileLock.mk (path_ino A) 1 20 5 in
  locks (vfs refused) = [l] /\ locks (vfs shared) = [l; l'] /\
  (live (vfs shared) 0 = true /\ FileEntry.ino (entry (vfs shared) 0) = path_ino A) /\
  (path_ino A = path_ino A -> 0 <> 1 -> 15 <= 20 \/ 25 <= 10).
Proof.
  split; [by vm_compute|]. split; [by vm_compute|]. set (l := FileLock.mk (path_ino A) 0 10 5).
  set (l' := FileLock.mk (path_ino A) 1 20 5).
  assert (l ∈ locks (vfs shared) /\ l' ∈ locks (vfs shared)) as [Hl Hl'].
  { replace (locks (vfs shared)) with [l; l'] by (by vm_compute). split; [by left|by right; left]. }
  apply (locks_exclusive 3 no_grant shared l l' no_grant_fresh); [|exact to_shared|exact Hl|exact Hl'].
  by apply no_grant_backends.
Defined.

Lemma unwritable_mount_untouched_witness : bytes (world attacked) = Some [1; 2; 3].
Proof.
  apply (unwritable_mount_untouched bytes 3 no_grant attacked no_grant_fresh); [|exact to_attacked].
  apply no_grant_backends. intros b Hb. split; [apply disk_queries|]. right. split; [done|apply disk_denied].
Defined.

Lemma operations_end_witness : run_op 3 (VOpen A) locked <> Diverge.
Proof.
  apply (operations_end 1 no_grant locked (VOpen A) no_grant_fresh); [|exact to_locked|done].
  apply no_grant_backends. intros b Hb node sub cookie w w' batch next. by split.
Defined.

Lemma resolve_head_best_witness :
  exists b start, server_at (mounts (vfs no_grant)) A 0 b disk start /\ A = drop start A /\
    forall j b' fs' start', server_at (mounts (vfs no_grant)) A j b' fs' start' -> outranks b b'.
Proof.
  destruct (resolve_head_best (mounts (vfs no_grant)) A 0 disk A) as [H|(H & _)].
  - apply Nat.leb_le. by vm_compute.
  - reflexivity.
  - exact H.
  - exfalso. assert (Filesystem.supports_create disk = false) by (by rewrite H). done.
Defined.

Lemma listing_names_distinct_witness :
  let s' := state boot (populate_dir_cache 3 [] no_grant) in
  exists c, dir_cache (vfs s') = [c] /\ DirCache.dir c = [] /\ NoDup (folded <$> DirCache.entries c).
Proof.
  apply (listing_names_distinct 3 [] no_grant); [|by vm_compute].
  split; [intros k b [[? ?]|?]; [done|set_solver]|]. intros m b Hm. apply list_elem_of_In in Hm as [<-|[]]. by vm_compute.
Defined.

(** A file of the overlay: the name "x" on a filesystem that creates nothing. *)
Definition X : Path := [120].
Definition rom : St Disk := mkSt (mount (vfs boot) [] Filesystem.EMPTY_FS) (world boot).
Definition scratch : St Disk := state boot (create_to_handle 3 X rom).

Lemma ram_write_read_witness :
  exists s1 s2 s3,
    write_by_handle 0 [5; 6] scratch = Val (s1, 2) /\ seek_by_handle 0 0 0 s1 = Val (s2, 0) /\
    read_by_handle 0 (replicate 2 0) s2 = Val (s3, ([5; 6], 2)) /\
    ram_files (vfs s3) = <[X := [5; 6]]> (ram_files (vfs scratch)) /\ world s3 = world scratch.
Proof. apply (ram_write_read scratch 0 [] [5; 6]); [|by vm_compute..|done]. by vm_compute. Defined.

(** * Where the code leaves its rules *)

(** The layers a union keeps.  A group holds at most eight layers, and the
    ones it drops are the newest: with more bindings at the root than that,
    the last one mounted is never consulted. *)
Theorem union_drops_newest {W} (ms : list (Binding.t W)) path :
  (MAX_UNION < length ms)%nat -> Forall (fun b => Binding.prefix b = []) ms ->
  Forall (fun m => m.1 < length ms - 1)%nat (group ms path 0).
Proof.
  intros Hlen Hpre. unfold group. set (f := fun ib : nat * Binding.t W => _).
  assert (omap f (imap pair ms) = imap (fun i b => (i, Binding.seq b)) ms) as ->.
  { assert (forall off l, Forall (fun b => Binding.prefix b = []) l ->
      omap f (imap (fun i b => (off + i, b)%nat) l) = imap (fun i b => (off + i, Binding.seq b)%nat) l) as H.
    { intros off l Hl. revert off; induction Hl as [|b l Hb Hl IH]; intros off; [done|].
      rewrite !imap_cons. cbn [omap list_omap]. unfold f at 1. cbn [fst snd]. rewrite Hb. cbn.
      f_equal. specialize (IH (S off)). rewrite (imap_ext _ (fun i b => (S off + i, b)%nat)), IH by (intros; cbn; f_equal; lia).
      apply imap_ext. intros. cbn. f_equal. lia. }
    apply (H 0%nat ms Hpre). }
  apply Forall_forall. intros m Hm. apply list_elem_of_lookup in Hm as [i Hi].
  rewrite lookup_take_Some in Hi. destruct Hi as [Hi Hlt]. rewrite list_lookup_imap in Hi.
  destruct (ms !! i); [|done]. injection Hi as <-. cbn. lia.
Qed.

Definition nine : list (Binding.t Disk) :=
  imap (fun i _ => Binding.mk [] (Server disk) Delegated (Z.of_nat i)) (replicate 9 ()).

Lemma union_drops_newest_witness : Forall (fun m => m.1 < length nine - 1)%nat (group nine A 0).
Proof. apply (union_drops_newest nine A); [apply Nat.ltb_lt; by vm_compute|]. by repeat constructor. Defined.

(** A write that would end past 4 GiB panics the kernel: the end offset
    wraps below the start and the slice is out of order.  Two relative seeks
    take a guest there. *)
Theorem ram_write_wrap_panics {W} (s : St W) h file data :
  ram_file (vfs s) h file -> 0 <= FileEntry.offset (entry (vfs s) h) < 2 ^ 32 -> Z.of_nat (length data) < 2 ^ 32 ->
  2 ^ 32 <= FileEntry.offset (entry (vfs s) h) + Z.of_nat (length data) ->
  write_by_handle h data s = Panic.
Proof.
  intros (Hlive & Hlen & Hram & Hdata) Ho Hd Hw. unfold write_by_handle, self. run. rewrite Hlive. cbn [negb].
  rewrite Hram, Z.eqb_refl, Hdata. set (off := FileEntry.offset _) in *. unfold overwrite.
  assert (usize (off + Z.of_nat (length data)) = off + Z.of_nat (length data) - 2 ^ 32) as ->.
  { unfold usize, wrap. symmetry. apply (Z.mod_unique_pos _ _ 1); lia. }
  rewrite (proj2 (Z.leb_gt off _)) by lia. done.
Qed.

Definition far : St Disk :=
  state boot ((_ ← seek_by_handle 0 (2 ^ 31 - 1) 0; seek_by_handle 0 (2 ^ 31 - 1) 1) scratch).

Lemma ram_write_wrap_panics_witness : write_by_handle 0 [1; 2] far = Panic.
Proof. by apply (ram_write_wrap_panics far 0 []); vm_compute. Defined.

(** With the table of open files full, creating a file that exists in the
    overlay fails with EMFILE and has truncated it; opening a file of a
    backend fails and has taken a fid that nobody holds. *)
Definition full (s : St Disk) : St Disk :=
  mkSt (set_table (vfs s) (replicate MAX_OPEN_FILES (FileEntry.set_refcount FileEntry.EMPTY 1))) (world s).
Definition with_x (s : St Disk) : St Disk := mkSt (set_ram_files (vfs s) {[ X := [1; 2; 3] ]}) (world s).

Lemma full_table_create_truncates :
  let r := create_to_handle 3 X (full (with_x rom)) in
  result r = Some (-24) /\ ram_files (vfs (state boot r)) !! X = Some [].
Proof. by vm_compute. Qed.

Lemma full_table_open_leaks_fid :
  let r := open_to_handle 3 A (full no_grant) in result r = Some (-24) /\ fids (world (state boot r)) = 1.
Proof. by vm_compute. Qed.

(** A file deleted and created again keeps the mode of the one deleted. *)
Lemma delete_keeps_mode :
  let s := state boot ((_ ← create_to_handle 3 X; _ ← set_path_mode 3 X 292; _ ← vdelete 3 X; create_to_handle 3 X) rom) in
  (Stat.mode <$> (result (stat 3 X true s) ≫= id)) = Some 292.
Proof. by vm_compute. Qed.

(** The count of a directory handle is eight bits: at 256 references it is
    free again and the next open takes its slot. *)
Lemma dir_handle_count_wraps :
  let t := Nat.iter 255 (DirHandle.add_dir_ref 0) (DirHandle.open_dir_handle A DirHandle.TABLE).1 in
  DirHandle.dir_handle_path 0 t = None /\ (DirHandle.open_dir_handle X t).2 = 0.
Proof. by vm_compute. Qed.
