(* ===== verification/Fd.v ===== *)
(** File descriptors: the tables of kernel/src/kernel/thread.rs
    ([alloc_fd], [close_fd], [close_all_fds], [close_cloexec],
    [dup_all_fds]) and the system calls of kernel/src/kernel/linux/mod.rs
    that move them ([sys_open], [sys_close], [sys_pipe], [sys_dup2],
    [sys_fcntl]).

    A descriptor names a pipe end, an open file, a directory handle or a
    socket; the objects live in the kernel-wide tables of KPipe and Vfs and
    carry reference counts.  [Globals] is those tables together. *)

From Stdlib Require Import ZArith Lia Bool.
From stdpp Require Import base option list numbers gmap.
From S2P Require Import Prelude Path Effect Pipe KPipe Vfs VfsInv.
Import KernelPipe.

Record FdTable := mkTable { fds : list FdKind; cloexec : Z }.

Definition no_fds : FdTable := mkTable (replicate MAX_FDS FdNone) 0.

Record Globals (W N : Type) := mkG { pipes : Pool; files : St W; dirs : list DirHandle.t; net : N }.
Arguments mkG {_ _}. Arguments pipes {_ _}. Arguments files {_ _}. Arguments dirs {_ _}. Arguments net {_ _}.

Section Descriptors.
Context {W N : Type} (fuel : nat) (net_close : Z -> N -> N).

Local Abbreviation K := (M (Globals W N)).

Definition on_pipes (f : Pool -> option (Pool * ())) : K () := fun g =>
  match f (pipes g) with Some (p, u) => Val (mkG p (files g) (dirs g) (net g), u) | None => Panic end.
Definition on_files {A} (m : M (St W) A) : K A :=
  zoom files (fun s g => mkG (pipes g) s (dirs g) (net g)) m.
Definition on_dirs (f : list DirHandle.t -> list DirHandle.t) : K () :=
  modify (fun g => mkG (pipes g) (files g) (f (dirs g)) (net g)).
Definition on_net (f : N -> N) : K () := modify (fun g => mkG (pipes g) (files g) (dirs g) (f (net g))).

Definition open_dir (path : Path) : K Z := fun g =>
  let '(ds, h) := DirHandle.open_dir_handle path (dirs g) in Val (mkG (pipes g) (files g) ds (net g), h).
Definition pipe_alloc : K (option Z) := fun g =>
  let '(p, i) := alloc (pipes g) in Val (mkG p (files g) (dirs g) (net g), i).

(** What closing a descriptor does to the object it names. *)
Definition release (k : FdKind) : K () :=
  match k with
  | FdVfs idx => on_files (close_handle idx)
  | FdPipeRead idx => on_pipes (fun p => close_reader p idx)
  | FdPipeWrite idx => on_pipes (fun p => close_writer p idx)
  | FdSocket h => on_net (net_close h)
  | FdDir handle _ => on_dirs (DirHandle.close_dir_handle handle)
  | FdConsoleOut | FdNone => mret ()
  end.

(** What fork does to it. *)
Definition share (k : FdKind) : K () :=
  match k with
  | FdVfs idx => on_files (add_ref idx)
  | FdPipeRead idx => on_pipes (fun p => add_reader p idx)
  | FdPipeWrite idx => on_pipes (fun p => add_writer p idx)
  | FdSocket _ => mret ()
  | FdDir handle _ => on_dirs (DirHandle.add_dir_ref handle)
  | FdConsoleOut | FdNone => mret ()
  end.

(** What dup2 and fcntl do to it. *)
Definition duplicate (k : FdKind) : K () :=
  match k with
  | FdVfs idx => on_files (add_ref idx)
  | FdPipeRead idx => on_pipes (fun p => add_reader p idx)
  | FdPipeWrite idx => on_pipes (fun p => add_writer p idx)
  | FdSocket _ | FdDir _ _ | FdConsoleOut | FdNone => mret ()
  end.

(** ** KernelThread *)

Definition alloc_fd (t : FdTable) (from : nat) : option nat :=
  (fun p => (from + fst p)%nat) <$> list_find (fun k => fd_is_none k = true) (drop from (fds t)).

Definition set_fd (t : FdTable) (fd : nat) (k : FdKind) : FdTable := mkTable (<[fd := k]> (fds t)) (cloexec t).
Definition set_cloexec (t : FdTable) (fd : nat) : FdTable := mkTable (fds t) (cloexec t .| bit (Z.of_nat fd)).
Definition clear_cloexec (t : FdTable) (fd : nat) : FdTable :=
  mkTable (fds t) (cloexec t .& bnot 64 (bit (Z.of_nat fd))).
Definition has_cloexec (t : FdTable) (fd : nat) : bool := negb (cloexec t .& bit (Z.of_nat fd) =? 0).

Definition close_fd (t : FdTable) (fd : nat) : K FdTable :=
  match fds t !! fd with
  | None => mret t
  | Some k => _ ← release k; mret (clear_cloexec (set_fd t fd FdNone) fd)
  end.

(** [for i in 0..MAX_FDS { if p(i) { self.close_fd(i) } }] *)
Fixpoint close_where (p : nat -> bool) (l : list nat) (t : FdTable) : K FdTable :=
  match l with
  | [] => mret t
  | i :: l => t ← (if p i then close_fd t i else mret t); close_where p l t
  end.

Definition close_all_fds (t : FdTable) : K FdTable := close_where (fun _ => true) (seq 0 MAX_FDS) t.
Definition close_cloexec (t : FdTable) : K FdTable := close_where (has_cloexec t) (seq 0 MAX_FDS) t.

Fixpoint share_all (ks : list FdKind) : K () :=
  match ks with [] => mret () | k :: ks => _ ← share k; share_all ks end.

(** The table the child gets. *)
Definition dup_all_fds (t : FdTable) : K FdTable := _ ← share_all (fds t); mret t.

(** ** System calls *)

Definition EBADF : Z := 9.
Definition EINVAL : Z := 22.
Definition EMFILE : Z := 24.

Definition sys_open (t : FdTable) (resolved : Path) : K (FdTable * Z) :=
  d ← on_files (dir_exists fuel resolved);
  if d : bool then
    match alloc_fd t 3 with
    | Some fd =>
        handle ← open_dir resolved;
        if handle <? 0 then mret (t, handle) else mret (set_fd t fd (FdDir handle 0), Z.of_nat fd)
    | None => mret (t, - EMFILE)
    end
  else
    handle ← on_files (open_to_handle fuel resolved);
    if handle <? 0 then mret (t, handle)
    else match alloc_fd t 3 with
         | Some fd => mret (set_fd t fd (FdVfs handle), Z.of_nat fd)
         | None => _ ← on_files (close_handle handle); mret (t, - EMFILE)
         end.

Definition sys_close (t : FdTable) (fd : Z) : K (FdTable * Z) :=
  if (fd <? 0) || (Z.of_nat MAX_FDS <=? fd) then mret (t, - EBADF)
  else match fds t !! Z.to_nat fd with
       | Some FdNone | None => mret (t, - EBADF)
       | Some _ => t ← close_fd t (Z.to_nat fd); mret (t, 0)
       end.

(** The two descriptors are what the call writes to the caller's array. *)
Definition sys_pipe (t : FdTable) (flag_cloexec : bool) : K (FdTable * Z * option (nat * nat)) :=
  idx ← pipe_alloc;
  match idx with
  | None => mret (t, - EMFILE, None)
  | Some idx =>
      match alloc_fd t 0 with
      | None =>
          _ ← on_pipes (fun p => close_reader p idx);
          _ ← on_pipes (fun p => close_writer p idx);
          mret (t, - EMFILE, None)
      | Some read_fd =>
          let t := set_fd t read_fd (FdPipeRead idx) in
          match alloc_fd t 0 with
          | None =>
              t ← close_fd t read_fd;
              _ ← on_pipes (fun p => close_writer p idx);
              mret (t, - EMFILE, None)
          | Some write_fd =>
              let t := set_fd t write_fd (FdPipeWrite idx) in
              let t := if flag_cloexec then set_cloexec (set_cloexec t read_fd) write_fd else t in
              mret (t, 0, Some (read_fd, write_fd))
          end
      end
  end.

Definition in_range (fd : Z) : bool := (0 <=? fd) && (fd <? Z.of_nat MAX_FDS).

Definition sys_dup2 (t : FdTable) (oldfd newfd : Z) : K (FdTable * Z) :=
  if negb (in_range oldfd && in_range newfd) then mret (t, - EBADF)
  else match fds t !! Z.to_nat oldfd with
       | Some FdNone | None => mret (t, - EBADF)
       | Some _ =>
           if oldfd =? newfd then mret (t, newfd)
           else
             t ← (match fds t !! Z.to_nat newfd with
                  | Some FdNone | None => mret t
                  | Some _ => close_fd t (Z.to_nat newfd)
                  end);
             kind ← expect (fds t !! Z.to_nat oldfd);
             _ ← duplicate kind;
             mret (clear_cloexec (set_fd t (Z.to_nat newfd) kind) (Z.to_nat newfd), newfd)
       end.

Definition F_DUPFD : Z := 0.
Definition F_GETFD : Z := 1.
Definition F_SETFD : Z := 2.
Definition F_GETFL : Z := 3.
Definition F_SETFL : Z := 4.
Definition F_DUPFD_CLOEXEC : Z := 1030.
Definition FD_CLOEXEC : Z := 1.

Definition sys_fcntl (t : FdTable) (fd cmd arg : Z) : K (FdTable * Z) :=
  if negb (in_range fd) then mret (t, - EBADF)
  else match fds t !! Z.to_nat fd with
       | Some FdNone | None => mret (t, - EBADF)
       | Some kind =>
           let fd := Z.to_nat fd in
           if (cmd =? F_DUPFD) || (cmd =? F_DUPFD_CLOEXEC) then
             match alloc_fd t (Z.to_nat (Z.min (u32 arg) (Z.of_nat MAX_FDS))) with
             | None => mret (t, -24)
             | Some newfd =>
                 _ ← duplicate kind;
                 let t := set_fd t newfd kind in
                 mret (if cmd =? F_DUPFD_CLOEXEC then set_cloexec t newfd else clear_cloexec t newfd, Z.of_nat newfd)
             end
           else if cmd =? F_GETFD then mret (t, if has_cloexec t fd then FD_CLOEXEC else 0)
           else if cmd =? F_SETFD then
             mret (if negb (Z.land arg FD_CLOEXEC =? 0) then set_cloexec t fd else clear_cloexec t fd, 0)
           else if (cmd =? F_GETFL) || (cmd =? F_SETFL) then mret (t, 0)
           else mret (t, - EINVAL)
       end.

End Descriptors.

(** * Reference counts *)

Inductive ref := RRead (i : Z) | RWrite (i : Z) | RFile (h : Z).

#[export] Instance ref_eq_dec : EqDecision ref.
Proof. solve_decision. Defined.

(** The counted object a descriptor names. *)
Definition kref (k : FdKind) : option ref :=
  match k with
  | FdVfs idx => Some (RFile idx)
  | FdPipeRead idx => Some (RRead idx)
  | FdPipeWrite idx => Some (RWrite idx)
  | _ => None
  end.

Definition pipe_at (p : Pool) (i : Z) : KernelPipe := default KernelPipe.empty (p !! Z.to_nat i).

(** The count an object carries. *)
Definition rc {W N} (g : Globals W N) (r : ref) : Z :=
  match r with
  | RRead i => readers (pipe_at (pipes g) i)
  | RWrite i => writers (pipe_at (pipes g) i)
  | RFile h => FileEntry.refcount (entry (vfs (files g)) h)
  end.

Definition valid_ref (r : ref) : Prop :=
  match r with
  | RRead i | RWrite i => 0 <= i < MAX_PIPES
  | RFile h => 0 <= h < Z.of_nat MAX_OPEN_FILES
  end.

Definition names (r : ref) (k : FdKind) : Z := if decide (kref k = Some r) then 1 else 0.

(** How many descriptors of a table name an object. *)
Fixpoint count (r : ref) (ks : list FdKind) : Z :=
  match ks with [] => 0 | k :: ks => names r k + count r ks end.

Definition table_wf (t : FdTable) : Prop :=
  length (fds t) = MAX_FDS /\ Forall (fun k => forall r, kref k = Some r -> valid_ref r) (fds t).

Lemma names_range r k : 0 <= names r k <= 1.
Proof. unfold names. destruct (decide _); lia. Qed.

Lemma count_app r ks ks' : count r (ks ++ ks') = count r ks + count r ks'.
Proof. induction ks as [|k ks IH]; cbn; [done|]. rewrite IH. lia. Qed.

Lemma count_range r ks : 0 <= count r ks <= Z.of_nat (length ks).
Proof. induction ks as [|k ks IH]; cbn; [lia|]. pose proof (names_range r k). lia. Qed.

Lemma count_insert r ks i k k' :
  ks !! i = Some k -> count r (<[i := k']> ks) = count r ks - names r k + names r k'.
Proof.
  revert i; induction ks as [|k0 ks IH]; intros [|i]; [done|done|intros [= ->]; cbn; lia|].
  intros H. change (<[S i := k']> (k0 :: ks)) with (k0 :: <[i := k']> ks). cbn [count]. rewrite (IH i H). lia.
Qed.

Lemma count_lookup r ks i k : ks !! i = Some k -> names r k <= count r ks.
Proof.
  revert i; induction ks as [|k0 ks IH]; intros [|i]; cbn; [done|done|intros [= ->]|].
  - pose proof (count_range r ks). lia.
  - intros H%IH. pose proof (names_range r k0). lia.
Qed.

Lemma count_none r n : count r (replicate n FdNone) = 0.
Proof. induction n as [|n IH]; cbn; [done|]. rewrite IH. done. Qed.

Lemma count_zero_names r ks : count r ks = 0 -> forall k, k ∈ ks -> kref k <> Some r.
Proof.
  intros H k Hk Hr. apply list_elem_of_lookup in Hk as [i Hi]. pose proof (count_lookup r ks i k Hi) as Hc.
  unfold names in Hc. rewrite decide_True in Hc by done. lia.
Qed.

(** * What the operations do to the counts *)

Section Counts.
Context {W N : Type} (fuel : nat) (net_close : Z -> N -> N).
Implicit Types (g : Globals W N).

(** The tables have their size and no count is negative. *)
Definition gwf g : Prop :=
  Z.of_nat (length (pipes g)) = MAX_PIPES /\ length (file_table (vfs (files g))) = MAX_OPEN_FILES /\
  forall r, 0 <= rc g r.

(** The counts of [g'] are those of [g], changed by [d]. *)
Definition moved (d : ref -> Z) g g' : Prop := gwf g' /\ forall r, valid_ref r -> rc g' r = rc g r + d r.

Definition effect {A} (m : M (Globals W N) A) (pre : Globals W N -> Prop) (d : ref -> Z) : Prop :=
  forall g, gwf g -> pre g -> match m g with Val (g', _) => moved d g g' | _ => True end.

Lemma moved_refl g : gwf g -> moved (fun _ => 0) g g.
Proof. intros H. split; [done|]. intros r _. lia. Qed.

Lemma moved_trans d d' g g' g'' : moved d g g' -> moved d' g' g'' -> moved (fun r => d r + d' r) g g''.
Proof. intros [_ H] [H1 H2]. split; [done|]. intros r Hr. rewrite H2, H by done. lia. Qed.

Lemma moved_ext d d' g g' : moved d g g' -> (forall r, valid_ref r -> d r = d' r) -> moved d' g g'.
Proof. intros [H1 H2] H. split; [done|]. intros r Hr. by rewrite H2, H. Qed.

Lemma names_self k r : kref k = Some r -> names r k = 1.
Proof. intros H. unfold names. by rewrite decide_True. Qed.

Lemma names_other k r r' : kref k = Some r -> r <> r' -> names r' k = 0.
Proof. intros H Hr. unfold names. rewrite decide_False; [done|]. congruence. Qed.

Lemma names_none k r : kref k = None -> names r k = 0.
Proof. intros H. unfold names. by rewrite decide_False by (by rewrite H). Qed.

(** Directory handles and sockets are not counted here. *)
Lemma moved_side k g ds n : gwf g -> kref k = None -> moved (fun r => - names r k) g (mkG (pipes g) (files g) ds n).
Proof. intros H Hk. split; [done|]. intros r _. rewrite names_none by done. cbn. destruct r; cbn; lia. Qed.

(** ** Pipes *)

Lemma pipe_at_insert (p : Pool) i q j :
  0 <= i < Z.of_nat (length p) -> 0 <= j -> pipe_at (<[Z.to_nat i := q]> p) j = if decide (j = i) then q else pipe_at p j.
Proof.
  intros Hi Hj. unfold pipe_at. destruct (decide (j = i)) as [->|Hne].
  - rewrite list_lookup_insert_eq by lia. done.
  - by rewrite list_lookup_insert_ne by lia.
Qed.

(** Replacing pipe [i] by one with other counts. *)
Lemma moved_pipe g i q :
  gwf g -> 0 <= i < MAX_PIPES -> 0 <= readers q -> 0 <= writers q ->
  moved (fun r => if decide (r = RRead i) then readers q - rc g r
                  else if decide (r = RWrite i) then writers q - rc g r else 0)
        g (mkG (<[Z.to_nat i := q]> (pipes g)) (files g) (dirs g) (net g)).
Proof.
  intros (Hp & Hf & Hr) Hi Hq1 Hq2.
  assert (forall r, valid_ref r \/ 0 <= match r with RRead j | RWrite j => j | RFile _ => 0 end ->
    rc (mkG (<[Z.to_nat i := q]> (pipes g)) (files g) (dirs g) (net g)) r =
    rc g r + (if decide (r = RRead i) then readers q - rc g r
              else if decide (r = RWrite i) then writers q - rc g r else 0)) as H.
  { intros [j|j|h] Hj; cbn; try (rewrite pipe_at_insert; [|lia|destruct Hj as [Hj|Hj]; cbn in Hj; lia]);
      repeat case_decide; simplify_eq; lia. }
  split; [|intros r Hv; apply H; by left]. split; [cbn; by rewrite length_insert|]. split; [done|].
  assert (forall j, 0 <= readers (pipe_at (<[Z.to_nat i := q]> (pipes g)) j) /\
                    0 <= writers (pipe_at (<[Z.to_nat i := q]> (pipes g)) j)) as Hall.
  { intros j. unfold pipe_at. destruct (decide (Z.to_nat j = Z.to_nat i)) as [->|Hne].
    - rewrite list_lookup_insert_eq by lia. done.
    - rewrite list_lookup_insert_ne by done. split; [apply (Hr (RRead j))|apply (Hr (RWrite j))]. }
  intros [j|j|h]; [apply Hall|apply Hall|apply (Hr (RFile h))].
Qed.

Lemma pool_lookup g i : gwf g -> 0 <= i < MAX_PIPES -> pipes g !! Z.to_nat i = Some (pipe_at (pipes g) i).
Proof.
  intros (Hp & _) Hi. unfold pipe_at. destruct (lookup_lt_is_Some_2 (pipes g) (Z.to_nat i)) as [p E]; [lia|]. by rewrite E.
Qed.

(** An operation on pipe [i] that changes its counts by [dr] and [dw]. *)
Lemma on_pipe_moves g i (f : KernelPipe -> KernelPipe * ()) dr dw :
  gwf g -> 0 <= i < MAX_PIPES ->
  let p := pipe_at (pipes g) i in
  readers (f p).1 = readers p + dr -> writers (f p).1 = writers p + dw -> 0 <= readers p + dr -> 0 <= writers p + dw ->
  match on_pipes (fun p => on_pipe p i f) g with
  | Val (g', _) => moved (fun r => if decide (r = RRead i) then dr else if decide (r = RWrite i) then dw else 0) g g'
  | _ => False
  end.
Proof.
  intros Hg Hi p Hr Hw H1 H2. unfold on_pipes, on_pipe. rewrite (pool_lookup g i Hg Hi). cbn [mbind option_bind].
  fold p. destruct (f p) as [q u]. cbn in *. rewrite <- Hr in H1. rewrite <- Hw in H2.
  eapply moved_ext; [by apply moved_pipe|]. intros r _. cbn.
  destruct (decide (r = RRead i)) as [->|]; [cbn; fold p; lia|]. destruct (decide (r = RWrite i)) as [->|]; [cbn; fold p; lia|done].
Qed.

(** ** Files *)

Lemma moved_file g (v : Vfs W) w i e :
  gwf g -> 0 <= i < Z.of_nat MAX_OPEN_FILES -> 0 <= FileEntry.refcount e ->
  file_table v = <[Z.to_nat i := e]> (file_table (vfs (files g))) ->
  moved (fun r => if decide (r = RFile i) then FileEntry.refcount e - rc g r else 0)
        g (mkG (pipes g) (mkSt v w) (dirs g) (net g)).
Proof.
  intros (Hp & Hf & Hr) Hi He Ht.
  assert (forall h, FileEntry.refcount (entry v h) =
    if decide (Z.to_nat h = Z.to_nat i) then FileEntry.refcount e else FileEntry.refcount (entry (vfs (files g)) h)) as H.
  { intros h. unfold entry. rewrite Ht. destruct (decide _) as [->|]; [by rewrite list_lookup_insert_eq by lia|].
    by rewrite list_lookup_insert_ne. }
  split.
  - split; [done|]. split; [cbn; by rewrite Ht, length_insert|]. intros [j|j|h]; [apply (Hr (RRead j))|apply (Hr (RWrite j))|].
    cbn. rewrite H. destruct (decide _); [done|apply (Hr (RFile h))].
  - intros [j|j|h] Hv; cbn; try (rewrite decide_False by congruence; lia). rewrite H.
    destruct (decide (h = i)) as [->|Hne]; [rewrite !decide_True by done; lia|].
    cbn in Hv. rewrite !decide_False by (congruence || lia). lia.
Qed.

Lemma moved_same_table g (s : St W) :
  gwf g -> file_table (vfs s) = file_table (vfs (files g)) -> moved (fun _ => 0) g (mkG (pipes g) s (dirs g) (net g)).
Proof.
  intros (Hp & Hf & Hr) Ht.
  assert (forall r, rc (mkG (pipes g) s (dirs g) (net g)) r = rc g r) as H by (intros [j|j|h]; cbn; unfold entry; by rewrite ?Ht).
  split; [|intros r _; rewrite H; lia]. split; [done|]. split; [cbn; by rewrite Ht|]. intros r. by rewrite H.
Qed.

Lemma close_handle_table (s : St W) h :
  0 < FileEntry.refcount (entry (vfs s) h) -> 0 <= h < Z.of_nat MAX_OPEN_FILES ->
  match close_handle h s with
  | Val (s', _) => file_table (vfs s') = <[Z.to_nat h := FileEntry.set_refcount (entry (vfs s) h)
                     (FileEntry.refcount (entry (vfs s) h) - 1)]> (file_table (vfs s))
  | _ => True
  end.
Proof.
  intros Hrc Hh. set (P := fun v : Vfs W => file_table v = <[Z.to_nat h := FileEntry.set_refcount (entry (vfs s) h)
    (FileEntry.refcount (entry (vfs s) h) - 1)]> (file_table (vfs s))).
  assert (live (vfs s) h = true) as Hl.
  { unfold live, in_table. rewrite (proj2 (Z.leb_le _ _)), (proj2 (Z.ltb_lt h _)), (proj2 (Z.eqb_neq _ 0)) by lia. done. }
  unfold close_handle, self. rewrite (run_bind _ _ s s (vfs s)) by done. rewrite Hl. cbn [negb].
  unfold update at 1. rewrite (run_bind _ _ s (mkSt (set_entry (vfs s) (Z.to_nat h) (FileEntry.set_refcount (entry (vfs s) h)
    (FileEntry.refcount (entry (vfs s) h) - 1))) (world s)) ()) by done.
  destruct (negb _); [done|]. unfold update. rewrite (run_bind _ _ _ _ ()) by done.
  destruct (_ =? RAM_SENTINEL); [done|].
  match goal with |- match ?m ?s1 with _ => _ end => assert (keeps True (fun s => P (vfs s)) m) as Hk; [|by apply (Hk s1)] end.
  apply keeps_bind; [apply (look_mount_fs P)|]. intros fs. apply (look_call P).
Qed.

(** Closing drops one reference of the object. *)
Lemma release_effect k :
  effect (release net_close k) (fun g => forall r, kref k = Some r -> valid_ref r /\ 0 < rc g r) (fun r => - names r k).
Proof.
  intros g Hg Hpre.
  destruct k as [|h|i|i| |h n|h]; cbn [release kref] in *;
    try (destruct g; by apply (moved_side _ (mkG _ _ _ _))).
  - destruct (Hpre _ eq_refl) as [Hv Hrc]. cbn in Hv, Hrc. unfold on_files, zoom.
    pose proof (close_handle_table (files g) h Hrc Hv) as Ht. destruct (close_handle h (files g)) as [[[v w] u]| |]; [|done|done].
    set (e := FileEntry.set_refcount _ _) in Ht. assert (0 <= FileEntry.refcount e) as He by (cbn; lia).
    eapply moved_ext; [exact (moved_file g v w h e Hg Hv He Ht)|].
    intros r _. cbn beta. case_decide as Hne; [subst r; rewrite (names_self _ (RFile h)) by done; unfold e; cbn; lia|].
    rewrite (names_other _ (RFile h)) by (done || congruence). done.
  - destruct (Hpre _ eq_refl) as [Hv Hrc]. cbn in Hv, Hrc.
    pose proof (on_pipe_moves g i (fun p => ((if 0 <? readers p then mk (buffer p) (readers p - 1) (writers p) else p), ())) (-1) 0 Hg Hv) as H.
    cbn in H. rewrite (proj2 (Z.ltb_lt _ _) Hrc) in H. pose proof (proj2 (proj2 Hg) (RWrite i)) as Hw. cbn in Hw.
    specialize (H ltac:(cbn; lia) ltac:(cbn; lia) ltac:(lia) ltac:(lia)). unfold close_reader.
    destruct (on_pipes _ g) as [[g' u]| |]; [|done|done]. eapply moved_ext; [exact H|]. intros r _. cbn.
    case_decide as Hne; [subst r; by rewrite (names_self _ (RRead i))|].
    rewrite (names_other _ (RRead i)) by (done || congruence). by case_decide.
  - destruct (Hpre _ eq_refl) as [Hv Hrc]. cbn in Hv, Hrc.
    pose proof (on_pipe_moves g i (fun p => ((if 0 <? writers p then mk (buffer p) (readers p) (writers p - 1) else p), ())) 0 (-1) Hg Hv) as H.
    cbn in H. rewrite (proj2 (Z.ltb_lt _ _) Hrc) in H. pose proof (proj2 (proj2 Hg) (RRead i)) as Hw. cbn in Hw.
    specialize (H ltac:(cbn; lia) ltac:(cbn; lia) ltac:(lia) ltac:(lia)). unfold close_writer.
    destruct (on_pipes _ g) as [[g' u]| |]; [|done|done]. eapply moved_ext; [exact H|]. intros r _. cbn.
    case_decide; [subst r; by rewrite (names_other _ (RWrite i))|].
    case_decide; [subst r; by rewrite (names_self _ (RWrite i))|]. rewrite (names_other _ (RWrite i)) by (done || congruence). done.
Qed.

(** ** Taking references *)

Lemma duplicate_effect k :
  effect (duplicate k : M (Globals W N) ()) (fun g => forall r, kref k = Some r -> valid_ref r /\ rc g r < U16_MAX) (fun r => names r k).
Proof.
  intros g Hg Hpre.
  destruct k as [|h|i|i| |h n|h]; cbn [duplicate kref] in *;
    try (destruct g; eapply moved_ext; [by apply (moved_side FdNone (mkG _ _ _ _))|];
         intros r _; by rewrite !names_none).
  - destruct (Hpre _ eq_refl) as [Hv Hrc]. cbn in Hv, Hrc. unfold on_files, zoom, add_ref.
    assert (in_table h = true) as ->.
    { unfold in_table. by rewrite (proj2 (Z.leb_le _ _)), (proj2 (Z.ltb_lt h _)) by lia. }
    pose proof (proj2 (proj2 Hg) (RFile h)) as H0. cbn in H0.
    set (e := entry (vfs (files g)) h) in *.
    assert (u16 (FileEntry.refcount e + 1) = FileEntry.refcount e + 1) as Hw.
    { apply wrap_small. split; [lia|]. unfold U16_MAX in Hrc. lia. }
    cbv [update modify]. fold e. rewrite Hw.
    set (e' := FileEntry.set_refcount e _). assert (0 <= FileEntry.refcount e') as He by (cbn; lia).
    eapply moved_ext; [exact (moved_file g (set_entry (vfs (files g)) (Z.to_nat h) e') (world (files g)) h e' Hg Hv He eq_refl)|].
    intros r _. cbn beta. case_decide as Hne; [subst r; rewrite (names_self _ (RFile h)) by done; unfold e', e; cbn; lia|].
    rewrite (names_other _ (RFile h)) by (done || congruence). done.
  - destruct (Hpre _ eq_refl) as [Hv Hrc]. cbn in Hv, Hrc.
    pose proof (proj2 (proj2 Hg) (RRead i)) as H0. pose proof (proj2 (proj2 Hg) (RWrite i)) as H1. cbn in H0, H1.
    pose proof (on_pipe_moves g i (fun p => (mk (buffer p) (u16 (readers p + 1)) (writers p), ())) 1 0 Hg Hv) as H.
    cbn in H. rewrite wrap_small in H by (split; [lia|unfold U16_MAX in Hrc; lia]).
    specialize (H ltac:(lia) ltac:(lia) ltac:(lia) ltac:(lia)). unfold add_reader.
    destruct (on_pipes _ g) as [[g' u]| |]; [|done|done]. eapply moved_ext; [exact H|]. intros r _. cbn beta.
    case_decide as Hne; [subst r; by rewrite (names_self _ (RRead i))|].
    rewrite (names_other _ (RRead i)) by (done || congruence). by case_decide.
  - destruct (Hpre _ eq_refl) as [Hv Hrc]. cbn in Hv, Hrc.
    pose proof (proj2 (proj2 Hg) (RRead i)) as H0. pose proof (proj2 (proj2 Hg) (RWrite i)) as H1. cbn in H0, H1.
    pose proof (on_pipe_moves g i (fun p => (mk (buffer p) (readers p) (u16 (writers p + 1)), ())) 0 1 Hg Hv) as H.
    cbn in H. rewrite wrap_small in H by (split; [lia|unfold U16_MAX in Hrc; lia]).
    specialize (H ltac:(lia) ltac:(lia) ltac:(lia) ltac:(lia)). unfold add_writer.
    destruct (on_pipes _ g) as [[g' u]| |]; [|done|done]. eapply moved_ext; [exact H|]. intros r _. cbn beta.
    case_decide; [subst r; by rewrite (names_other _ (RWrite i))|].
    case_decide; [subst r; by rewrite (names_self _ (RWrite i))|]. rewrite (names_other _ (RWrite i)) by (done || congruence). done.
Qed.

Lemma share_effect k :
  effect (share k : M (Globals W N) ()) (fun g => forall r, kref k = Some r -> valid_ref r /\ rc g r < U16_MAX) (fun r => names r k).
Proof.
  destruct k as [|h|i|i| |h n|h]; try apply duplicate_effect; intros g Hg _; destruct g;
    (eapply moved_ext; [by apply (moved_side FdNone (mkG _ _ _ _))|]); intros r _; by rewrite !names_none.
Qed.

(** ** A table and the rest of the system *)

(** The counts are the descriptors of this table and [b], the references
    from elsewhere. *)
Definition balanced (b : ref -> Z) g (t : FdTable) : Prop :=
  gwf g /\ table_wf t /\ forall r, valid_ref r -> rc g r = b r + count r (fds t).

(** There is room for this table and one more reference in the 16 bits. *)
Definition roomy (b : ref -> Z) : Prop := forall r, 0 <= b r /\ b r + Z.of_nat MAX_FDS + 1 < U16_MAX.

Lemma balanced_rc b g t r :
  roomy b -> balanced b g t -> valid_ref r -> count r (fds t) <= rc g r /\ rc g r < U16_MAX - 1.
Proof.
  intros Hb (_ & [Hl _] & H) Hv. rewrite H by done. destruct (Hb r). pose proof (count_range r (fds t)). lia.
Qed.

Lemma table_wf_lookup t i k r : table_wf t -> fds t !! i = Some k -> kref k = Some r -> valid_ref r.
Proof. intros [_ H] Hi. apply (Forall_lookup_1 _ _ _ _ H Hi). Qed.

Lemma table_wf_insert t i k c : table_wf t -> (forall r, kref k = Some r -> valid_ref r) -> table_wf (mkTable (<[i := k]> (fds t)) c).
Proof. intros [Hl H] Hk. split; cbn; [by rewrite length_insert|]. by apply Forall_insert. Qed.

Lemma close_fd_balanced b g t fd :
  roomy b -> balanced b g t ->
  match close_fd net_close t fd g with
  | Val (g', t') => balanced b g' t' /\ fds t' = <[fd := FdNone]> (fds t)
  | _ => True
  end.
Proof.
  intros Hb Hbal. pose proof Hbal as (Hg & Ht & Hc). unfold close_fd. destruct (fds t !! fd) as [k|] eqn:E.
  2:{ cbn. split; [done|]. by rewrite list_insert_ge by (by apply lookup_ge_None). }
  unfold mbind, M_bind. pose proof (release_effect k g Hg) as Hr.
  destruct (release net_close k g) as [[g' u]| |]; [|done|done]. destruct Hr as [Hg' Hrc].
  { intros r Hk. pose proof (table_wf_lookup _ _ _ _ Ht E Hk) as Hv. split; [done|].
    pose proof (balanced_rc b g t r Hb Hbal Hv) as [H1 _]. pose proof (count_lookup r _ _ _ E). rewrite names_self in H by done. lia. }
  cbn. split; [|done]. split; [done|]. split; [by apply table_wf_insert|]. intros r Hv. cbn. rewrite Hrc, Hc by done.
  rewrite (count_insert r _ _ _ FdNone E), (names_none FdNone) by done. lia.
Qed.

Lemma close_where_balanced b p l g t :
  roomy b -> balanced b g t ->
  match close_where net_close p l t g with
  | Val (g', t') => balanced b g' t' /\
                    (forall i, i ∈ l -> p i = true -> (i < MAX_FDS)%nat -> fds t' !! i = Some FdNone) /\
                    (forall i, fds t !! i = Some FdNone -> fds t' !! i = Some FdNone)
  | _ => True
  end.
Proof.
  intros Hb. revert g t; induction l as [|i l IH]; intros g t Hbal; cbn [close_where].
  { cbn. split_and!; [done| |done]. by intros i ?%not_elem_of_nil. }
  unfold mbind, M_bind.
  assert (match (if p i then close_fd net_close t i else mret t) g with
          | Val (g1, t1) => balanced b g1 t1 /\ (p i = true -> (i < MAX_FDS)%nat -> fds t1 !! i = Some FdNone) /\
                            (forall j, fds t !! j = Some FdNone -> fds t1 !! j = Some FdNone)
          | _ => True end) as H1.
  { destruct (p i); [|by split_and!]. pose proof (close_fd_balanced b g t i Hb Hbal) as H.
    destruct (close_fd net_close t i g) as [[g1 t1]| |]; [|done|done]. destruct H as [H ->]. split; [done|].
    destruct Hbal as (_ & [Hl _] & _). split.
    - intros _ Hi. rewrite list_lookup_insert_eq by lia. done.
    - intros j Hj. destruct (decide (i = j)) as [->|]; [|by rewrite list_lookup_insert_ne].
      rewrite list_lookup_insert_eq; [done|]. by eapply lookup_lt_Some. }
  destruct ((if p i then close_fd net_close t i else mret t) g) as [[g1 t1]| |]; [|done|done]. destruct H1 as (Hb1 & Hi & Hk).
  specialize (IH g1 t1 Hb1). destruct (close_where net_close p l t1 g1) as [[g2 t2]| |]; [|done|done].
  destruct IH as (Hb2 & Hl & Hk2). split_and!; [done| |auto].
  intros j [->|Hj]%elem_of_cons Hp Hlt; [by apply Hk2, Hi|by apply Hl].
Qed.

Lemma share_all_effect ks b g :
  roomy b -> gwf g -> Forall (fun k => forall r, kref k = Some r -> valid_ref r) ks ->
  (forall r, valid_ref r -> rc g r + count r ks < U16_MAX) ->
  match share_all ks g with Val (g', _) => moved (fun r => count r ks) g g' | _ => True end.
Proof.
  intros Hb. revert g; induction ks as [|k ks IH]; intros g Hg Hks Hroom; cbn [share_all]; [by apply moved_refl|].
  inversion Hks as [|? ? Hk Hks']; subst. unfold mbind, M_bind. pose proof (share_effect k g Hg) as Hs.
  destruct (share k g) as [[g1 u]| |]; [|done|done].
  destruct Hs as [Hg1 Hrc1].
  { intros r Hr. pose proof (Hk r Hr) as Hv. split; [done|]. specialize (Hroom r Hv). cbn in Hroom.
    pose proof (count_range r ks). rewrite names_self in Hroom by done. lia. }
  assert (forall r, valid_ref r -> rc g1 r + count r ks < U16_MAX) as Hroom1.
  { intros r Hv. rewrite Hrc1 by done. specialize (Hroom r Hv). cbn in Hroom. lia. }
  specialize (IH g1 Hg1 Hks' Hroom1). destruct (share_all ks g1) as [[g2 u2]| |]; [|done|done].
  exact (moved_trans _ _ _ _ _ (conj Hg1 Hrc1) IH).
Qed.

(** ** System calls keep the balance *)

Lemma alloc_fd_free t from fd : alloc_fd t from = Some fd -> fds t !! fd = Some FdNone.
Proof.
  unfold alloc_fd. intros ([i k] & Hf & ->)%fmap_Some. apply list_find_Some in Hf as (Hi & Hk & _).
  cbn. rewrite lookup_drop in Hi. destruct k; done.
Qed.

(** A descriptor put into a free slot, with the reference it stands for. *)
Lemma set_fd_balanced b g g' t fd k c :
  balanced b g t -> fds t !! fd = Some FdNone -> (forall r, kref k = Some r -> valid_ref r) ->
  moved (fun r => names r k) g g' -> balanced b g' (mkTable (<[fd := k]> (fds t)) c).
Proof.
  intros (Hg & Ht & Hc) Hfd Hk [Hg' Hm]. split; [done|]. split; [by apply table_wf_insert|].
  intros r Hv. cbn. rewrite Hm, Hc by done. rewrite (count_insert r _ _ _ k Hfd), (names_none FdNone) by done. lia.
Qed.

Lemma balanced_cloexec b g t c : balanced b g t -> balanced b g (mkTable (fds t) c).
Proof. done. Qed.

Lemma balanced_side b g t ds n : balanced b g t -> balanced b (mkG (pipes g) (files g) ds n) t.
Proof.
  intros (Hg & Ht & Hc). split; [done|]. split; [done|]. intros r Hv. rewrite <- Hc by done. by destruct r.
Qed.

Lemma balanced_files b g t (s : St W) :
  balanced b g t -> file_table (vfs s) = file_table (vfs (files g)) -> balanced b (mkG (pipes g) s (dirs g) (net g)) t.
Proof.
  intros (Hg & Ht & Hc) Hs. destruct (moved_same_table g s Hg Hs) as [Hg' Hm]. split; [done|]. split; [done|].
  intros r Hv. rewrite Hm, Hc by done. lia.
Qed.

Lemma sys_open_balanced b g t path :
  roomy b -> balanced b g t ->
  match sys_open fuel t path g with Val (g', (t', _)) => balanced b g' t' | _ => True end.
Proof.
  intros Hb Hbal. unfold sys_open. unfold mbind at 1, M_bind at 1. unfold on_files at 1, zoom at 1.
  pose proof (look_dir_exists fuel (fun v => file_table v = file_table (vfs (files g))) (fun _ _ _ H => H) path (files g) eq_refl) as Hd.
  destruct (dir_exists fuel path (files g)) as [[s1 d]| |]; [|done|done].
  pose proof (balanced_files b g t s1 Hbal Hd) as Hbal1. set (g1 := mkG (pipes g) s1 (dirs g) (net g)) in *. destruct d.
  - destruct (alloc_fd t 3) as [fd|] eqn:Ea; [|done]. unfold mbind, M_bind, open_dir.
    destruct (DirHandle.open_dir_handle path (dirs g1)) as [ds h]. pose proof (balanced_side b g1 t ds (net g1) Hbal1) as Hbal2.
    destruct (h <? 0); [done|]. eapply set_fd_balanced; [exact Hbal2|by eapply alloc_fd_free|done|].
    eapply moved_ext; [apply moved_refl; apply Hbal2|]. intros r _. by rewrite names_none.
  - unfold mbind at 1, M_bind at 1. unfold on_files at 1, zoom at 1.
    pose proof (open_to_handle_table fuel path (files g1)) as Ho.
    destruct (open_to_handle fuel path (files g1)) as [[s2 h]| |]; [|done|done].
    destruct Ho as [[Hh Hs2]|(i & e0 & e & -> & Hi & H0 & H1 & Hs2)].
    { rewrite (proj2 (Z.ltb_lt _ _) Hh). by apply (balanced_files b g1 t s2). }
    rewrite (proj2 (Z.ltb_ge (Z.of_nat i) 0)) by lia.
    pose proof Hbal1 as (Hg1 & Ht & Hc). pose proof (lookup_lt_Some _ _ _ Hi) as Hlt.
    assert (0 <= Z.of_nat i < Z.of_nat MAX_OPEN_FILES) as Hv by (destruct Hg1 as (_ & Hl & _); lia).
    assert (rc g1 (RFile (Z.of_nat i)) = 0) as Hz by (unfold rc, entry; by rewrite Nat2Z.id, Hi).
    assert (moved (fun r => names r (FdVfs (Z.of_nat i))) g1 (mkG (pipes g1) s2 (dirs g1) (net g1))) as Hm.
    { destruct s2 as [v2 w2]. eapply moved_ext;
        [apply (moved_file g1 v2 w2 (Z.of_nat i) e Hg1 Hv); [lia|by rewrite Nat2Z.id]|].
      intros r _. cbn beta. case_decide as Hne; [subst r; rewrite (names_self _ (RFile (Z.of_nat i))) by done; lia|].
      by rewrite (names_other _ (RFile (Z.of_nat i))) by (done || congruence). }
    destruct (alloc_fd t 3) as [fd|] eqn:Ea.
    + cbn. eapply set_fd_balanced; [exact Hbal1|by eapply alloc_fd_free|by intros r [= <-]|exact Hm].
    + set (g2 := mkG (pipes g1) s2 (dirs g1) (net g1)) in *. unfold mbind, M_bind.
      pose proof (release_effect (FdVfs (Z.of_nat i)) g2 (proj1 Hm)) as Hr. cbn [release] in Hr.
      destruct (on_files (close_handle (Z.of_nat i)) g2) as [[g3 u]| |]; [|done|done]. cbn.
      destruct Hr as [Hg3 Hr].
      { intros r [= <-]. split; [done|]. rewrite (proj2 Hm) by done. rewrite Hz, names_self by done. lia. }
      split; [done|]. split; [done|]. intros r Hvr. rewrite Hr, (proj2 Hm), Hc by done. lia.
Qed.

Lemma sys_close_balanced b g t fd :
  roomy b -> balanced b g t ->
  match sys_close net_close t fd g with Val (g', (t', _)) => balanced b g' t' | _ => True end.
Proof.
  intros Hb Hbal. unfold sys_close. destruct (_ || _); [done|].
  pose proof (close_fd_balanced b g t (Z.to_nat fd) Hb Hbal) as H.
  assert (match (t0 ← close_fd net_close t (Z.to_nat fd); mret (t0, 0)) g with
          | Val (g', (t', _)) => balanced b g' t' | _ => True end) as Hgo.
  { unfold mbind, M_bind. destruct (close_fd net_close t (Z.to_nat fd) g) as [[g' t']| |]; [|done|done]. apply H. }
  destruct (fds t !! Z.to_nat fd) as [[]|]; done.
Qed.

(** Duplicating a descriptor of the table into a free slot. *)
Lemma duplicate_balanced b g t old k new c :
  roomy b -> balanced b g t -> fds t !! old = Some k -> fds t !! new = Some FdNone ->
  match duplicate k g with Val (g', _) => balanced b g' (mkTable (<[new := k]> (fds t)) c) | _ => True end.
Proof.
  intros Hb Hbal Hold Hnew. pose proof Hbal as (Hg & Ht & Hc).
  assert (forall r, kref k = Some r -> valid_ref r) as Hk by (intros r; by apply (table_wf_lookup t old)).
  pose proof (duplicate_effect k g Hg) as Hd. destruct (duplicate k g) as [[g' u]| |]; [|done|done].
  eapply set_fd_balanced; [exact Hbal|done|done|]. apply Hd. intros r Hr. specialize (Hk r Hr). split; [done|].
  pose proof (balanced_rc b g t r Hb Hbal Hk). lia.
Qed.

Lemma sys_dup2_balanced b g t oldfd newfd :
  roomy b -> balanced b g t ->
  match sys_dup2 net_close t oldfd newfd g with Val (g', (t', _)) => balanced b g' t' | _ => True end.
Proof.
  intros Hb Hbal. unfold sys_dup2. destruct (in_range oldfd && in_range newfd) eqn:Hr; cbn [negb]; [|done].
  apply andb_true_iff in Hr as [Ho Hn]. unfold in_range in *. apply andb_true_iff in Ho as [?%Z.leb_le ?%Z.ltb_lt].
  apply andb_true_iff in Hn as [?%Z.leb_le ?%Z.ltb_lt]. set (o := Z.to_nat oldfd). set (n := Z.to_nat newfd).
  set (rest := if oldfd =? newfd then _ else _).
  assert (match rest g with Val (g', (t', _)) => balanced b g' t' | _ => True end) as Hgo;
    [|by destruct (fds t !! o) as [[]|]].
  unfold rest. destruct (Z.eqb_spec oldfd newfd) as [|Hne]; [done|]. unfold mbind at 1, M_bind at 1.
  assert (match (match fds t !! n with Some FdNone | None => mret t | Some _ => close_fd net_close t n end) g with
          | Val (g1, t1) => balanced b g1 t1 /\ fds t1 !! n = Some FdNone | _ => True end) as Hclose.
  { destruct Hbal as (Hg & [Hl Hw] & Hc). destruct (lookup_lt_is_Some_2 (fds t) n) as [k Hk]; [unfold n; lia|].
    pose proof (close_fd_balanced b g t n Hb (conj Hg (conj (conj Hl Hw) Hc))) as Hcl.
    assert (match close_fd net_close t n g with
            | Val (g1, t1) => balanced b g1 t1 /\ fds t1 !! n = Some FdNone | _ => True end) as Hcl1.
    { destruct (close_fd net_close t n g) as [[g1 t1]| |]; [|done|done]. destruct Hcl as [Hcl2 Hcl3]. split; [done|].
      rewrite Hcl3, list_lookup_insert_eq; [done|]. by eapply lookup_lt_Some. }
    rewrite Hk. destruct k; try exact Hcl1. cbn. by split. }
  destruct ((match fds t !! n with Some FdNone | None => mret t | Some _ => close_fd net_close t n end) g)
    as [[g1 t1]| |]; [|done|done]. destruct Hclose as [Hb1 Hn1].
  unfold mbind at 1, M_bind at 1. destruct (fds t1 !! o) as [k|] eqn:Ek; [|done]. cbn [expect mret M_ret].
  unfold mbind, M_bind. pose proof (duplicate_balanced b g1 t1 o k n (cloexec (clear_cloexec (set_fd t1 n k) n)) Hb Hb1 Ek Hn1) as Hd.
  by destruct (duplicate k g1) as [[g2 u]| |].
Qed.

Lemma sys_fcntl_balanced b g t fd cmd arg :
  roomy b -> balanced b g t ->
  match sys_fcntl t fd cmd arg g with Val (g', (t', _)) => balanced b g' t' | _ => True end.
Proof.
  intros Hb Hbal. unfold sys_fcntl. destruct (negb _); [done|]. destruct (fds t !! Z.to_nat fd) as [k|] eqn:Ek; [|done].
  set (rest := if (cmd =? F_DUPFD) || _ then _ else _).
  assert (match rest g with Val (g', (t', _)) => balanced b g' t' | _ => True end) as Hgo; [|by destruct k].
  unfold rest. destruct (_ || _).
  - destruct (alloc_fd t _) as [newfd|] eqn:Ea; [|done]. apply alloc_fd_free in Ea. unfold mbind, M_bind.
    pose proof (duplicate_balanced b g t (Z.to_nat fd) k newfd (cloexec t) Hb Hbal Ek Ea) as Hd.
    destruct (duplicate k g) as [[g' u]| |]; [|done|done]. cbn. by destruct (cmd =? F_DUPFD_CLOEXEC).
  - destruct (cmd =? F_GETFD); [done|]. destruct (cmd =? F_SETFD); [by destruct (negb _)|]. by destruct (_ || _).
Qed.

Lemma pool_alloc_spec (p : Pool) i p' r :
  alloc_loop p i = (p', r) ->
  (r = None /\ p' = p) \/
  (exists k q, r = Some (u8 (i + Z.of_nat k)) /\ p !! k = Some q /\ readers q = 0 /\ writers q = 0 /\
               p' = <[k := mk (Pipe.new PIPE_BUF_SIZE 0) 1 1]> p).
Proof.
  revert i p' r; induction p as [|q p IH]; intros i p' r; cbn; [intros [= <- <-]; by left|].
  unfold is_free. destruct ((readers q =? 0) && (writers q =? 0)) eqn:E.
  - intros [= <- <-]. right. apply andb_true_iff in E as [?%Z.eqb_eq ?%Z.eqb_eq]. exists 0%nat, q. rewrite Z.add_0_r. done.
  - destruct (alloc_loop p (i + 1)) as [p1 r1] eqn:E1. intros [= <- <-].
    destruct (IH _ _ _ E1) as [[-> ->]|(k & q' & -> & Hk & H1 & H2 & ->)]; [by left|].
    right. exists (S k), q'. replace (i + Z.of_nat (S k)) with (i + 1 + Z.of_nat k) by lia. done.
Qed.

(** A pipe is given out only when both its counts are zero. *)
Lemma pipe_alloc_effect g :
  gwf g ->
  match pipe_alloc g with
  | Val (g', None) => g' = g
  | Val (g', Some i) => (0 <= i < MAX_PIPES) /\ rc g (RRead i) = 0 /\ rc g (RWrite i) = 0 /\
                        moved (fun r => names r (FdPipeRead i) + names r (FdPipeWrite i)) g g'
  | _ => False
  end.
Proof.
  intros Hg. pose proof Hg as (Hp & _). unfold pipe_alloc, alloc. destruct (alloc_loop (pipes g) 0) as [p' r] eqn:E.
  destruct (pool_alloc_spec _ _ _ _ E) as [[-> ->]|(k & q & -> & Hk & H1 & H2 & ->)]; [by destruct g|].
  pose proof (lookup_lt_Some _ _ _ Hk) as Hlt. unfold MAX_PIPES in *.
  assert (u8 (0 + Z.of_nat k) = Z.of_nat k) as -> by (apply wrap_small; split; [lia|]; change (2 ^ 8) with 256; lia).
  assert (pipe_at (pipes g) (Z.of_nat k) = q) as Hq by (unfold pipe_at; by rewrite Nat2Z.id, Hk).
  split; [lia|]. split; [cbn; by rewrite Hq|]. split; [cbn; by rewrite Hq|].
  pose proof (moved_pipe g (Z.of_nat k) (mk (Pipe.new PIPE_BUF_SIZE 0) 1 1) Hg) as Hm. rewrite Nat2Z.id in Hm.
  eapply moved_ext; [apply Hm; cbn; unfold MAX_PIPES; lia|]. intros r _. cbn beta.
  case_decide; [subst r; cbn; rewrite Hq, (names_self _ (RRead (Z.of_nat k))), (names_other _ (RWrite (Z.of_nat k))) by done; lia|].
  rewrite (names_other (FdPipeRead _) (RRead (Z.of_nat k))) by (done || congruence).
  case_decide; [subst r; cbn; rewrite Hq, names_self by done; lia|].
  by rewrite (names_other _ (RWrite (Z.of_nat k))) by (done || congruence).
Qed.


Lemma sys_pipe_balanced b g t flag :
  roomy b -> balanced b g t ->
  match sys_pipe net_close t flag g with Val (g', (t', _, _)) => balanced b g' t' | _ => True end.
Proof.
  intros Hb Hbal. pose proof Hbal as (Hg & Ht & Hc). unfold sys_pipe. unfold mbind at 1, M_bind at 1.
  pose proof (pipe_alloc_effect g Hg) as Ha. destruct (pipe_alloc g) as [[g1 [i|]]| |]; [|by subst|done|done].
  destruct Ha as (Hi & Hr0 & Hw0 & Hm). pose proof Hm as [Hg1 Hrc1].
  destruct (alloc_fd t 0) as [rfd|] eqn:Er.
  - apply alloc_fd_free in Er. set (t1 := set_fd t rfd (FdPipeRead i)).
    (* the write end is still held by the call *)
    set (b1 := fun r => b r + names r (FdPipeWrite i)).
    assert (roomy b1) as Hb1.
    { intros r. destruct (Hb r). unfold b1. unfold names. case_decide as E; [|lia]. injection E as <-.
      pose proof (count_range (RWrite i) (fds t)). specialize (Hc (RWrite i) Hi). unfold U16_MAX. change (Z.of_nat MAX_FDS) with 64. lia. }
    assert (balanced b1 g1 t1) as Hbal1.
    { split; [done|]. split; [apply table_wf_insert; [done|]; by intros r [= <-]|]. intros r Hv. unfold b1, t1, set_fd. cbn [fds].
      rewrite Hrc1, Hc, (count_insert r _ _ _ _ Er), (names_none FdNone) by done. lia. }
    destruct (alloc_fd t1 0) as [wfd|] eqn:Ew.
    + apply alloc_fd_free in Ew.
      assert (balanced b g1 (set_fd t1 wfd (FdPipeWrite i))) as H.
      { destruct Hbal1 as (H1 & H2 & H3). split; [done|]. split; [apply table_wf_insert; [done|]; by intros r [= <-]|].
        intros r Hv. cbn [fds set_fd]. rewrite H3, (count_insert r _ _ _ _ Ew), (names_none FdNone) by done. unfold b1. lia. }
      by destruct flag.
    + unfold mbind at 1, M_bind at 1. pose proof (close_fd_balanced b1 g1 t1 rfd Hb1 Hbal1) as H.
      destruct (close_fd net_close t1 rfd g1) as [[g2 t2]| |]; [|done|done]. destruct H as [(Hg2 & Ht2 & Hc2) _].
      unfold mbind, M_bind. pose proof (release_effect (FdPipeWrite i) g2 Hg2) as Hr. cbn [release] in Hr.
      destruct (on_pipes (fun p => close_writer p i) g2) as [[g3 u]| |]; [|done|done]. cbn.
      destruct Hr as [Hg3 Hr].
      { intros r [= <-]. split; [done|]. rewrite Hc2 by done. destruct (Hb (RWrite i)).
        pose proof (count_range (RWrite i) (fds t2)). unfold b1. rewrite names_self by done. lia. }
      split; [done|]. split; [done|]. intros r Hv. rewrite Hr, Hc2 by done. unfold b1. lia.
  - unfold mbind at 1, M_bind at 1. pose proof (release_effect (FdPipeRead i) g1 Hg1) as Hr. cbn [release] in Hr.
    destruct (on_pipes (fun p => close_reader p i) g1) as [[g2 u]| |]; [|done|done]. destruct Hr as [Hg2 Hr].
    { intros r [= <-]. split; [done|]. rewrite Hrc1 by done. rewrite Hr0, names_self, (names_other _ (RWrite i)) by done. lia. }
    unfold mbind, M_bind. pose proof (release_effect (FdPipeWrite i) g2 Hg2) as Hw. cbn [release] in Hw.
    destruct (on_pipes (fun p => close_writer p i) g2) as [[g3 u']| |]; [|done|done]. cbn. destruct Hw as [Hg3 Hw].
    { intros r [= <-]. split; [done|]. rewrite Hr, Hrc1 by done.
      rewrite Hw0, (names_self (FdPipeWrite i)), (names_other (FdPipeRead i) (RRead i)) by done. lia. }
    split; [done|]. split; [done|]. intros r Hv. rewrite Hw, Hr, Hrc1, Hc by done. lia.
Qed.

End Counts.
