(* ===== verification/Thread.v ===== *)
(** Threads, processes and the scheduler: kernel/src/kernel/thread.rs,
    sched.rs, exec_ctx.rs and the process handlers of linux/mod.rs
    ([handle_fork], [handle_wait], [LinuxState::on_resume],
    [complete_pending_io] on a pipe) and dos/mod.rs ([handle_synth_child]).

    The architecture (register frames apart) and the DOS personality's
    hardware hand-over are interfaces: the record [Arch] of the calls the
    code makes on the machine and [DosOps] of the calls it makes on a DOS
    thread.  [Kern] is what the event loop owns and the statics: the thread
    table, the machine, the kernel-wide tables of Fd, the console focus, the
    scheduler's seed, the pending switch and the execution context.

    The handlers of the two program loads, [ForkExec] and [Exec], run the
    loaders, which are not modelled: they are parameters. *)

From Stdlib Require Import ZArith Lia Bool.
From stdpp Require Import base option list numbers gmap.
From S2P Require Import Prelude Path Effect Pipe KPipe Vfs VfsInv Fd.

Definition MAX_THREADS : nat := 1024.

(** * Registers *)

(** arch-abi/src/lib.rs [Regs], with its [Frame64] at the end. *)
Record Regs := mkRegs {
  gs : Z; fs : Z; es : Z; ds : Z; r15 : Z; r14 : Z; r13 : Z; r12 : Z; r11 : Z; r10 : Z; r9 : Z; r8 : Z;
  rdi : Z; rsi : Z; rbp : Z; rsp_dummy : Z; rbx : Z; rdx : Z; rcx : Z; rax : Z; int_num : Z; err_code : Z;
  rip : Z; cs : Z; rflags : Z; rsp : Z; ss : Z }.

Definition empty_regs : Regs := mkRegs 0 0 0 0 0 0 0 0 0 0 0 0 0 0 0 0 0 0 0 0 0 0 0 0 0 0 0.

Definition set_rax (r : Regs) (x : Z) : Regs :=
  mkRegs (gs r) (fs r) (es r) (ds r) (r15 r) (r14 r) (r13 r) (r12 r) (r11 r) (r10 r) (r9 r) (r8 r) (rdi r) (rsi r) (rbp r)
    (rsp_dummy r) (rbx r) (rdx r) (rcx r) x (int_num r) (err_code r) (rip r) (cs r) (rflags r) (rsp r) (ss r).
Definition set_rsp (r : Regs) (x : Z) : Regs :=
  mkRegs (gs r) (fs r) (es r) (ds r) (r15 r) (r14 r) (r13 r) (r12 r) (r11 r) (r10 r) (r9 r) (r8 r) (rdi r) (rsi r) (rbp r)
    (rsp_dummy r) (rbx r) (rdx r) (rcx r) (rax r) (int_num r) (err_code r) (rip r) (cs r) (rflags r) x (ss r).

Definition set_rbx (r : Regs) (x : Z) : Regs :=
  mkRegs (gs r) (fs r) (es r) (ds r) (r15 r) (r14 r) (r13 r) (r12 r) (r11 r) (r10 r) (r9 r) (r8 r) (rdi r) (rsi r) (rbp r)
    (rsp_dummy r) x (rdx r) (rcx r) (rax r) (int_num r) (err_code r) (rip r) (cs r) (rflags r) (rsp r) (ss r).
Definition set_rflags (r : Regs) (x : Z) : Regs :=
  mkRegs (gs r) (fs r) (es r) (ds r) (r15 r) (r14 r) (r13 r) (r12 r) (r11 r) (r10 r) (r9 r) (r8 r) (rdi r) (rsi r) (rbp r)
    (rsp_dummy r) (rbx r) (rdx r) (rcx r) (rax r) (int_num r) (err_code r) (rip r) (cs r) x (rsp r) (ss r).

(** The accessors of 32-bit code drop the high half. *)
Definition set_flag32 (r : Regs) (mask : Z) : Regs := set_rflags r (u32 (rflags r) .| mask).
Definition clear_flag32 (r : Regs) (mask : Z) : Regs := set_rflags r (u32 (rflags r) .& bnot 32 mask).

Definition USER_CS : Z := 0x20 .| 3.
Definition USER_DS : Z := 0x28 .| 3.
Definition USER_CS64 : Z := 0x30 .| 3.

(** [IF_FLAG | VIF_FLAG] *)
Definition user_flags : Z := Z.shiftl 1 9 .| Z.shiftl 1 19.

Definition init_user_process (entry stack : Z) : Regs :=
  mkRegs USER_DS USER_DS USER_DS USER_DS 0 0 0 0 0 0 0 0 0 0 0 0 0 0 0 0 0 0 entry USER_CS user_flags stack USER_DS.
Definition init_user_process_64 (entry stack : Z) : Regs :=
  mkRegs 0 0 USER_DS USER_DS 0 0 0 0 0 0 0 0 0 0 0 0 0 0 0 0 0 0 entry USER_CS64 user_flags stack USER_DS.

(** The raw bytes of the struct. *)
Definition regs_bytes (r : Regs) : list Z :=
  concat (to_le_bytes 8 <$> [gs r; fs r; es r; ds r; r15 r; r14 r; r13 r; r12 r; r11 r; r10 r; r9 r; r8 r; rdi r; rsi r;
    rbp r; rsp_dummy r; rbx r; rdx r; rcx r; rax r; int_num r; err_code r; rip r; cs r; rflags r; rsp r; ss r]).

Definition hash_regs (r : Regs) : Z := fnv1a (regs_bytes r).

(** [x as i64 as u64] of an i32 *)
Definition sext (x : Z) : Z := u64 x.

(** * Threads *)

Inductive ThreadState := Unused | Running | Ready | Blocked | Zombie.

#[export] Instance ThreadState_eq_dec : EqDecision ThreadState.
Proof. solve_decision. Defined.

Record PendingRead := mkRead { fd_kind : FdKind; buf_ptr : Z; buf_len : nat }.

(** linux/mod.rs [LinuxState]; a poll is recorded as its array and timeout. *)
Record LinuxState := mkLinux {
  heap_base : Z; heap_end : Z; mmap_cursor : Z; tls_entry : Z; tls_base : Z; tls_limit : Z; tls_limit_in_pages : bool;
  pending_read : option PendingRead; pending_poll : option (Z * Z * Z);
  wait_status_ptr : Z; wait_exit_code : Z; cwd : Path; exec_path : Path }.

Definition USER_STACK_TOP : Z := 0xC0000000.

Definition new_linux : LinuxState :=
  mkLinux 0 0 (USER_STACK_TOP - 0x01000000) (-1) 0 0 false None None 0 0 [] [].

Definition set_wait (l : LinuxState) (ptr code : Z) : LinuxState :=
  mkLinux (heap_base l) (heap_end l) (mmap_cursor l) (tls_entry l) (tls_base l) (tls_limit l) (tls_limit_in_pages l)
    (pending_read l) (pending_poll l) ptr code (cwd l) (exec_path l).
Definition set_pending (l : LinuxState) (pr : option PendingRead) : LinuxState :=
  mkLinux (heap_base l) (heap_end l) (mmap_cursor l) (tls_entry l) (tls_base l) (tls_limit l) (tls_limit_in_pages l)
    pr (pending_poll l) (wait_status_ptr l) (wait_exit_code l) (cwd l) (exec_path l).

(** What a fork copies of the parent's state. *)
Definition inherit (pl cl : LinuxState) : LinuxState :=
  mkLinux (heap_base pl) (heap_end pl) (mmap_cursor pl) (tls_entry pl) (tls_base pl) (tls_limit pl) (tls_limit_in_pages pl)
    (pending_read cl) (pending_poll cl) (wait_status_ptr cl) (wait_exit_code cl) (cwd pl) (exec_path cl).

Section Threads.
(** The machine, its address spaces and FPU images; a DOS thread's state, the
    states of the other personalities, and the things handed over. *)
Context {Mach Space Fx Dos Os2 Win Sym Vga Handoff Card : Type}.

Record Arch := mkArch {
  get_ticks : Mach -> Z;
  clean_fx_template : Mach -> Fx;
  default_fx : Fx;
  empty_space : Space;
  user_fork : Mach -> Mach * Space;
  free_user_pages : Mach -> Mach;
  destroy_space : Space -> Mach -> Mach * Space;
  write_i32 : Z -> Z -> Mach -> Mach;
  copy_to : Z -> list Z -> Mach -> Mach;
  activate : Space -> Fx -> Mach -> Mach * Space * Fx;
  set_tls_entry : Z -> Z -> Z -> bool -> Mach -> Mach;
  (* a store through a raw pointer *)
  store_i32 : Z -> Z -> Mach -> Mach }.

Record DosOps := mkDosOps {
  release_for_parent_replace : Dos -> Mach -> Dos * Mach * Vga;
  dos_release_display : Dos -> Mach -> Dos * Mach * Handoff;
  dos_release_card : Dos -> Mach -> Dos * Mach * option Card;
  dos_on_exit : Dos -> Regs -> Mach -> bool -> Dos * Regs * Mach;
  set_last_child_exit_status : Dos -> Z -> Dos;
  dos_on_resume : Dos -> Mach -> Dos * Mach;
  os2_on_resume : Os2 -> Mach -> Os2 * Mach;
  win_on_resume : Win -> Mach -> Win * Mach }.

Inductive Personality := PDos (d : Dos) | PLinux (l : LinuxState) | POs2 (o : Os2) | PWindows (w : Win).

Inductive ExitDisplay := DosReplace (v : Vga) | Restore (h : Handoff).

Record KernelThread := mkThread {
  tid : Z; pid : Z; priority : Z; parent_tid : Z; state : ThreadState; time : Z;
  regs : Regs; space : Space; fx_state : Fx; exit_code : Z; addr_hash : Z; cpu_hash : Z;
  symbols : option Sym; table : FdTable; comm : Path }.

Record Thread := mkT { kernel : KernelThread; personality : Personality }.

Implicit Types (k : KernelThread) (t : Thread).
Definition set_state k s := mkThread (tid k) (pid k) (priority k) (parent_tid k) s (time k) (regs k) (space k) (fx_state k) (exit_code k) (addr_hash k) (cpu_hash k) (symbols k) (table k) (comm k).
Definition set_regs k r := mkThread (tid k) (pid k) (priority k) (parent_tid k) (state k) (time k) r (space k) (fx_state k) (exit_code k) (addr_hash k) (cpu_hash k) (symbols k) (table k) (comm k).
Definition set_space k s := mkThread (tid k) (pid k) (priority k) (parent_tid k) (state k) (time k) (regs k) s (fx_state k) (exit_code k) (addr_hash k) (cpu_hash k) (symbols k) (table k) (comm k).
Definition set_table k f := mkThread (tid k) (pid k) (priority k) (parent_tid k) (state k) (time k) (regs k) (space k) (fx_state k) (exit_code k) (addr_hash k) (cpu_hash k) (symbols k) f (comm k).
Definition set_cpu_hash k h := mkThread (tid k) (pid k) (priority k) (parent_tid k) (state k) (time k) (regs k) (space k) (fx_state k) (exit_code k) (addr_hash k) h (symbols k) (table k) (comm k).
Definition set_symbols k s := mkThread (tid k) (pid k) (priority k) (parent_tid k) (state k) (time k) (regs k) (space k) (fx_state k) (exit_code k) (addr_hash k) (cpu_hash k) s (table k) (comm k).
Definition set_exit k c := mkThread (tid k) (pid k) (priority k) (parent_tid k) (state k) (time k) (regs k) (space k) (fx_state k) c (addr_hash k) (cpu_hash k) (symbols k) (table k) (comm k).
Definition set_comm_field k c := mkThread (tid k) (pid k) (priority k) (parent_tid k) (state k) (time k) (regs k) (space k) (fx_state k) (exit_code k) (addr_hash k) (cpu_hash k) (symbols k) (table k) c.

Definition on_kernel (f : KernelThread -> KernelThread) t : Thread := mkT (f (kernel t)) (personality t).

(** [comm] is the sixteen bytes of the array. *)
Definition set_comm k (path : Path) : KernelThread :=
  let base := basename path in
  let n := Nat.min (length base) 16 in
  set_comm_field k (take n base ++ replicate (16 - n) 0).
Definition comm_str k : Path :=
  match list_find (fun b => b = 0) (comm k) with Some (i, _) => take i (comm k) | None => comm k end.

Definition refresh_cpu_hash t : Thread := on_kernel (fun k => set_cpu_hash k (hash_regs (regs k))) t.

Context (A : Arch) (D : DosOps).

Definition empty_thread : Thread :=
  mkT (mkThread 0 0 0 (-1) Unused 0 empty_regs (empty_space A) (default_fx A) 0 0 0 None no_fds (replicate 16 0))
      (PLinux new_linux).

Definition init_threading : list Thread :=
  on_kernel (fun k => mkThread 0 0 0 (-1) Running (time k) (regs k) (space k) (fx_state k) (exit_code k) (addr_hash k)
                        (cpu_hash k) (symbols k) (table k) (comm k)) empty_thread
  :: replicate (MAX_THREADS - 1) empty_thread.

Abbreviation Table := (list Thread).

Definition state_of (ts : Table) (i : nat) : option ThreadState := (fun t => state (kernel t)) <$> ts !! i.

(** ** Creating *)

(** [for (i, t) in threads.iter_mut().enumerate().take(MAX_THREADS)]: the
    first unused slot. *)
Definition find_unused (ts : Table) : option nat :=
  fst <$> list_find (fun t => state (kernel t) = Unused) (take MAX_THREADS ts).

(** The fields both ways of creating assign. *)
Definition fresh_kernel k (i : nat) (pid' prio ptid ticks : Z) (space' : Space) (fx : Fx) : KernelThread :=
  mkThread (Z.of_nat i) pid' prio ptid Ready (u32 ticks) empty_regs space' fx 0 0 0 (symbols k) (table k) (comm k).

(** [None] is the panic of a parent out of range; the inner option the slot. *)
Definition create_thread (ts : Table) (m : Mach) (parent : option nat) (root : Space) (is_process : bool)
  : option (Table * option nat) :=
  '(ppid, pprio, ptid) ← match parent with
                         | Some p => t ← ts !! p; Some (pid (kernel t), priority (kernel t), tid (kernel t))
                         | None => Some (0, 0, -1)
                         end;
  Some match find_unused ts with
       | Some i =>
           (alter (fun t => mkT (fresh_kernel (kernel t) i (if is_process then Z.of_nat i else ppid) pprio ptid (get_ticks A m)
                                   root (clean_fx_template A m)) (PLinux new_linux)) i ts, Some i)
       | None => (ts, None)
       end.

Definition reserve_live_child (ts : Table) (m : Mach) (parent : nat) : option (Table * option nat) :=
  p ← ts !! parent;
  Some match find_unused ts with
       | Some i =>
           (alter (fun t => mkT (fresh_kernel (kernel t) i (Z.of_nat i) (priority (kernel p)) (tid (kernel p)) (get_ticks A m)
                                   (space (kernel t)) (clean_fx_template A m)) (PLinux new_linux)) i ts, Some i)
       | None => (ts, None)
       end.

Definition init_process_thread t (entry stack : Z) : Thread :=
  on_kernel (fun k => set_regs k (init_user_process entry stack)) t.
Definition init_process_thread_64 t (entry stack : Z) : Thread :=
  on_kernel (fun k => set_regs k (init_user_process_64 entry stack)) t.

(** ** Access *)

(** The outer option is the panic of the index. *)
Definition get_thread (ts : Table) (i : nat) : option (option Thread) :=
  if (MAX_THREADS <=? i)%nat then Some None
  else t ← ts !! i; Some (if bool_decide (state (kernel t) = Unused) then None else Some t).

(** [get_thread(..).unwrap()] *)
Definition used_thread (ts : Table) (i : nat) : option Thread :=
  match get_thread ts i with Some (Some t) => Some t | _ => None end.

Definition get_two_threads (ts : Table) (a b : nat) : option (Thread * Thread) :=
  if negb (a =? b)%nat && (a <? MAX_THREADS)%nat && (b <? MAX_THREADS)%nat
  then x ← ts !! a; y ← ts !! b; Some (x, y) else None.

(** [threads[i].kernel = f(..)], with the panic of the index. *)
Definition update (ts : Table) (i : nat) (f : KernelThread -> KernelThread) : option Table :=
  t ← ts !! i; Some (<[i := on_kernel f t]> ts).

(** ** States *)

Definition save_state t (r : Regs) : Thread := on_kernel (fun k => set_regs k r) t.
Definition set_return t (ret : Z) : Thread := on_kernel (fun k => set_regs k (set_rax (regs k) (sext ret))) t.

Definition block_thread (ts : Table) (i : nat) : option Table := update ts i (fun k => set_state k Blocked).

Definition unblock_thread (ts : Table) (i : nat) : option Table :=
  if (i <? MAX_THREADS)%nat then
    t ← ts !! i;
    if bool_decide (state (kernel t) = Blocked) then update ts i (fun k => set_state k Ready) else Some ts
  else Some ts.

(** ** The scheduler *)

Definition prng_step (seed : Z) : Z := u64 (0xdeadbeed * seed + 0x12345679).
Definition SEED : Z := 0xcafebabedeadbeef.

(** One candidate: [count += 1; if prng().is_multiple_of(count) { next_idx = i }] *)
Fixpoint schedule_loop (ts : Table) (i current : nat) (seed count : Z) (next : option nat) : Z * option nat :=
  match ts with
  | [] => (seed, next)
  | t :: ts =>
      if (i =? current)%nat || negb (bool_decide (state (kernel t) = Ready))
      then schedule_loop ts (S i) current seed count next
      else
        let count := u64 (count + 1) in
        let seed := prng_step seed in
        schedule_loop ts (S i) current seed count
          (if (if count =? 0 then seed =? 0 else seed mod count =? 0) then Some i else next)
  end.

Definition schedule (ts : Table) (current : nat) (seed : Z) : Z * option nat :=
  schedule_loop (drop 1 (take MAX_THREADS ts)) 1 current seed 0 None.

Definition yield_thread (ts : Table) (i : nat) (r : Regs) (seed : Z) : option (Table * (Z * option nat)) :=
  ts ← update ts i (fun k => set_state (set_regs k r) Ready);
  Some (ts, schedule ts i seed).

(** The swap of [SWITCH_TO] leaves -1. *)
Definition take_switch_target (switch_to : Z) : Z * option nat :=
  (-1, if 0 <=? switch_to then Some (Z.to_nat switch_to) else None).

(** sched.rs: the pending target of the task picker. *)
Definition active (s : option ThreadState) : bool :=
  match s with Some Ready | Some Running | Some Blocked => true | _ => false end.
Definition focus_request (ts : Table) (current focused : nat) (switch_to : Z) : Z * option nat :=
  let '(sw, target) := take_switch_target switch_to in
  (sw, target ← target;
       if (negb (target =? current)%nat || negb (focused =? target)%nat) && active (state_of ts target)
       then Some target else None).

Definition with_target_dos (ts : Table) (target : Z) (f : Dos -> Dos * Z) : option (Table * Z) :=
  if (target <? 0) || (Z.of_nat MAX_THREADS <=? target) then Some (ts, -22)
  else
    t ← ts !! Z.to_nat target;
    Some (if bool_decide (state (kernel t) = Unused) then (ts, -3)
          else match personality t with
               | PDos d => let '(d, r) := f d in (<[Z.to_nat target := mkT (kernel t) (PDos d)]> ts, r)
               | _ => (ts, -22)
               end).

(** ** Exited children *)

(** [k.parent_tid == current_tid && k.state != Unused] *)
Definition child_of (ptid : Z) t : bool :=
  (parent_tid (kernel t) =? ptid) && negb (bool_decide (state (kernel t) = Unused)).
Definition reapable (ptid pid' : Z) t : bool :=
  child_of ptid t && bool_decide (state (kernel t) = Zombie) && ((pid' =? -1) || (tid (kernel t) =? pid')).

Definition peek_zombie_child (ts : Table) (current : nat) (pid' : Z) : option (Z * Z) :=
  c ← ts !! current;
  let ptid := tid (kernel c) in
  let rest := drop 1 (take MAX_THREADS ts) in
  Some match list_find (fun t => reapable ptid pid' t = true) rest with
       | Some (_, t) => (tid (kernel t), exit_code (kernel t))
       | None => if existsb (child_of ptid) rest then (-11, 0) else (-10, 0)
       end.

(** Out of range of the vector is the panic of the index. *)
Definition reap (ts : Table) (m : Mach) (i : Z) : option (Table * Mach) :=
  if (i <? 0) || (Z.of_nat MAX_THREADS <=? i) then Some (ts, m)
  else
    t ← ts !! Z.to_nat i;
    if bool_decide (state (kernel t) = Zombie)
    then let '(m, s) := destroy_space A (space (kernel t)) m in
         Some (<[Z.to_nat i := mkT (set_state (set_space (kernel t) s) Unused) (PLinux new_linux)]> ts, m)
    else Some (ts, m).

Fixpoint reap_each (slots : list nat) (ts : Table) (m : Mach) : option (Table * Mach) :=
  match slots with
  | [] => Some (ts, m)
  | i :: slots =>
      t ← ts !! i;
      '(ts, m) ← (if bool_decide (state (kernel t) = Zombie) then reap ts m (Z.of_nat i) else Some (ts, m));
      reap_each slots ts m
  end.
Definition reap_all_zombies (ts : Table) (m : Mach) : option (Table * Mach) := reap_each (seq 1 (MAX_THREADS - 1)) ts m.

Definition waitpid (ts : Table) (m : Mach) (current : nat) (pid' : Z) : option (Table * Mach * (Z * Z)) :=
  r ← peek_zombie_child ts current pid';
  '(ts, m) ← (if 0 <=? r.1 then reap ts m r.1 else Some (ts, m));
  Some (ts, m, r).

(** * The kernel's state *)

Context {W N : Type} (net_close : Z -> N -> N).

Record Kern := mkKern {
  threads : Table; mach : Mach; glob : Globals W N; focus : nat; seed : Z; switch_to : Z;
  exiting_display : option ExitDisplay; sb_handoff : option Card; event_display : bool;
  (* the execution context: whose registers are live *)
  cur : nat; live : Regs }.

Local Abbreviation K := (M Kern).

Implicit Types (kn : Kern).
Definition set_threads kn ts := mkKern ts (mach kn) (glob kn) (focus kn) (seed kn) (switch_to kn) (exiting_display kn) (sb_handoff kn) (event_display kn) (cur kn) (live kn).
Definition set_mach kn m := mkKern (threads kn) m (glob kn) (focus kn) (seed kn) (switch_to kn) (exiting_display kn) (sb_handoff kn) (event_display kn) (cur kn) (live kn).
Definition set_glob kn g := mkKern (threads kn) (mach kn) g (focus kn) (seed kn) (switch_to kn) (exiting_display kn) (sb_handoff kn) (event_display kn) (cur kn) (live kn).
Definition set_focus kn f := mkKern (threads kn) (mach kn) (glob kn) f (seed kn) (switch_to kn) (exiting_display kn) (sb_handoff kn) (event_display kn) (cur kn) (live kn).
Definition set_seed kn s := mkKern (threads kn) (mach kn) (glob kn) (focus kn) s (switch_to kn) (exiting_display kn) (sb_handoff kn) (event_display kn) (cur kn) (live kn).
Definition set_exiting kn e := mkKern (threads kn) (mach kn) (glob kn) (focus kn) (seed kn) (switch_to kn) e (sb_handoff kn) (event_display kn) (cur kn) (live kn).
Definition set_card kn c := mkKern (threads kn) (mach kn) (glob kn) (focus kn) (seed kn) (switch_to kn) (exiting_display kn) c (event_display kn) (cur kn) (live kn).

Definition set_switch kn s := mkKern (threads kn) (mach kn) (glob kn) (focus kn) (seed kn) s (exiting_display kn) (sb_handoff kn) (event_display kn) (cur kn) (live kn).
Definition set_cpu kn c r := mkKern (threads kn) (mach kn) (glob kn) (focus kn) (seed kn) (switch_to kn) (exiting_display kn) (sb_handoff kn) (event_display kn) c r.

Definition on_mach (f : Mach -> Mach) : K () := modify (fun kn => set_mach kn (f (mach kn))).
Definition on_glob {B} (m : M (Globals W N) B) : K B := zoom glob (fun g kn => set_glob kn g) m.

(** [threads[i]], the panic of the index included. *)
Definition thread_at (i : nat) : K Thread := kn ← gets threads; expect (kn !! i).
Definition put_thread (i : nat) (t : Thread) : K () := modify (fun kn => set_threads kn (<[i := t]> (threads kn))).
Definition on_thread (i : nat) (f : KernelThread -> KernelThread) : K () := t ← thread_at i; put_thread i (on_kernel f t).

Definition run_schedule (current : nat) : K (option nat) := fun kn =>
  let '(sd, r) := schedule (threads kn) current (seed kn) in Val (set_seed kn sd, r).

Definition is_dos (t : Thread) : bool := match personality t with PDos _ => true | _ => false end.

(** [assert!(x.is_none())] *)
Definition assert_none {B} (o : option B) : K () := match o with None => mret () | Some _ => panic end.

(** ** exit_thread *)

Definition term_type (code : Z) : Z := Z.land (Z.shiftr code 8) 0xFF.

Definition valid_parent (p : Z) : bool := (0 <=? p) && (p <? Z.of_nat MAX_THREADS).

(** A DOS child that ended normally hands its live adapter to its parent. *)
Definition hand_back_vga (i : nat) (ptid : Z) : K () :=
  kn ← gets (fun kn => kn);
  t ← thread_at i;
  match personality t with
  | PDos d =>
      let '(d, m, v) := release_for_parent_replace D d (mach kn) in
      _ ← on_mach (fun _ => m);
      _ ← put_thread i (mkT (kernel t) (PDos d));
      _ ← assert_none (exiting_display kn);
      _ ← modify (fun kn => set_exiting kn (Some (DosReplace v)));
      if (i =? focus kn)%nat then modify (fun kn => set_focus kn (Z.to_nat ptid)) else mret ()
  | _ => panic
  end.

(** [thread.personality.release_display(..)] *)
Definition give_up_display (i : nat) : K () :=
  kn ← gets (fun kn => kn);
  t ← thread_at i;
  match personality t with
  | PDos d =>
      let '(d, m, h) := dos_release_display D d (mach kn) in
      _ ← on_mach (fun _ => m);
      _ ← put_thread i (mkT (kernel t) (PDos d));
      _ ← assert_none (exiting_display kn);
      modify (fun kn => set_exiting kn (Some (Restore h)))
  | _ => panic
  end.

(** [thread.personality.release_sb(..)] and [dos.on_exit(..)] *)
Definition give_up_card (i : nat) : K () :=
  kn ← gets (fun kn => kn);
  t ← thread_at i;
  match personality t with
  | PDos d =>
      let '(d, m, c) := dos_release_card D d (mach kn) in
      _ ← on_mach (fun _ => m);
      _ ← put_thread i (mkT (kernel t) (PDos d));
      match c with
      | Some c => _ ← assert_none (sb_handoff kn); modify (fun kn => set_card kn (Some c))
      | None => mret ()
      end
  | _ => mret ()
  end.
Definition dos_exit (i : nat) (capture_vga : bool) : K () :=
  kn ← gets (fun kn => kn);
  t ← thread_at i;
  match personality t with
  | PDos d =>
      let '(d, r, m) := dos_on_exit D d (regs (kernel t)) (mach kn) capture_vga in
      _ ← on_mach (fun _ => m);
      put_thread i (mkT (set_regs (kernel t) r) (PDos d))
  | _ => mret ()
  end.

Definition close_thread_fds (i : nat) : K () :=
  t ← thread_at i;
  tb ← on_glob (close_all_fds net_close (table (kernel t)));
  put_thread i (on_kernel (fun k => set_table k tb) t).

(** What the exit leaves in the parent's frame and state. *)
Definition woken (child : Thread) (code : Z) (p : Thread) : Thread :=
  let ctid := u64 (tid (kernel child)) in
  let k := set_state (kernel p) Ready in
  refresh_cpu_hash
    match personality p with
    | PDos d => mkT (set_regs k (set_rax (regs k) (rax (regs k) .& bnot 64 0xFFFF))) (PDos d)
    | PLinux l => mkT (set_regs k (set_rax (regs k) ctid)) (PLinux (set_wait l (wait_status_ptr l) code))
    | POs2 o => mkT (set_regs k (set_rax (regs k) ctid)) (POs2 o)
    | PWindows w => mkT (set_regs k (set_rax (regs k) ctid)) (PWindows w)
    end.
Definition note_child_status (code : Z) (p : Thread) : Thread :=
  match personality p with
  | PDos d => mkT (kernel p) (PDos (set_last_child_exit_status D d (u16 code)))
  | _ => p
  end.

(** Wake a blocked parent; tells whether it was. *)
Definition wake_parent (i : nat) (ptid code : Z) : K bool :=
  if valid_parent ptid && negb (Z.to_nat ptid =? i)%nat then
    c ← thread_at i;
    p ← thread_at (Z.to_nat ptid);
    let was_waiting := bool_decide (state (kernel p) = Blocked) in
    _ ← put_thread (Z.to_nat ptid) (note_child_status code (if was_waiting then woken c code p else p));
    mret was_waiting
  else mret false.

Definition exit_thread (i : nat) (code : Z) : K nat :=
  t ← thread_at i;
  let ptid := parent_tid (kernel t) in
  parent_dos ← (if valid_parent ptid then (p ← thread_at (Z.to_nat ptid); mret (is_dos p)) else mret false);
  let return_dos_vga := ((term_type code =? 0) || (term_type code =? 3)) && is_dos t && valid_parent ptid && parent_dos in
  _ ← (if return_dos_vga then hand_back_vga i ptid else mret ());
  kn ← gets (fun kn => kn);
  _ ← (if (i =? focus kn)%nat && negb (event_display kn) then give_up_display i else mret ());
  _ ← give_up_card i;
  _ ← dos_exit i (negb return_dos_vga);
  _ ← close_thread_fds i;
  _ ← on_thread i (fun k => set_exit (set_symbols k None) code);
  woke_parent ← wake_parent i ptid code;
  _ ← on_mach (free_user_pages A);
  _ ← on_thread i (fun k => set_state k Zombie);
  to_parent ← (if valid_parent ptid
               then p ← thread_at (Z.to_nat ptid);
                    mret (woke_parent || match state (kernel p) with Ready | Running => true | _ => false end)
               else mret false);
  if to_parent : bool then mret (Z.to_nat ptid)
  else next ← run_schedule i; mret (default 0%nat next).

(** ** The Linux handlers *)

Definition ENOMEM : Z := 12.
Definition ECHILD : Z := 10.

(** [on_done] writes the parent's return value into the live frame. *)
Definition handle_fork (r : Regs) (parent : nat) (child_stack : Z) (on_done : Regs -> Z -> Regs)
  : K (Regs * option nat) :=
  kn ← gets (fun kn => kn);
  let '(m, root) := user_fork A (mach kn) in
  _ ← on_mach (fun _ => m);
  '(ts, c) ← expect (create_thread (threads kn) m (Some parent) root true);
  match c with
  | None => mret (on_done r (- ENOMEM), None)
  | Some c =>
      _ ← modify (fun kn => set_threads kn ts);
      '(p, ct) ← expect (get_two_threads ts parent c);
      let cr := set_rax r 0 in
      let cr := if child_stack =? 0 then cr else set_rsp cr (u64 child_stack) in
      tb ← on_glob (dup_all_fds (table (kernel p)));
      let cp := match personality p, personality ct with
                | PLinux pl, PLinux cl => PLinux (inherit pl cl)
                | _, cp => cp
                end in
      _ ← put_thread c (mkT (set_table (set_regs (kernel ct) cr) tb) cp);
      _ ← on_thread parent (fun k => set_state k Ready);
      mret (on_done r (Z.of_nat c), Some c)
  end.

Definition handle_wait (r : Regs) (i : nat) (pid' status_ptr : Z) : K (Regs * option nat) :=
  kn ← gets (fun kn => kn);
  '(ts, m, (ctid, code)) ← expect (waitpid (threads kn) (mach kn) i pid');
  _ ← modify (fun kn => set_mach (set_threads kn ts) m);
  if 0 <=? ctid then
    _ ← (if status_ptr =? 0 then mret () else on_mach (write_i32 A status_ptr (Z.shiftl (code .& 0xFF) 8)));
    mret (set_rax r (sext ctid), None)
  else if ctid =? -10 then mret (set_rax r (sext (- ECHILD)), None)
  else
    t ← expect (used_thread ts i);
    _ ← (match personality t with
         | PLinux l => put_thread i (mkT (kernel t) (PLinux (set_wait l status_ptr (wait_exit_code l))))
         | _ => mret ()
         end);
    ts ← gets threads;
    ts ← expect (block_thread ts i);
    _ ← modify (fun kn => set_threads kn ts);
    next ← run_schedule i;
    mret (r, Some (default 0%nat next)).

(** The pending pipe read of a blocked thread; [r] is its live frame. *)
Definition complete_pending_read (i : nat) (r : Regs) : K Regs :=
  t ← thread_at i;
  match personality t with
  | PLinux l =>
      match pending_read l with
      | Some (mkRead (FdPipeRead idx) ptr len) =>
          kn ← gets (fun kn => kn);
          '(p, (buf, n)) ← expect (KernelPipe.read (pipes (glob kn)) idx (replicate len 0));
          _ ← modify (fun kn => set_glob kn (mkG p (files (glob kn)) (dirs (glob kn)) (net (glob kn))));
          if 0 <? n then
            _ ← on_mach (copy_to A ptr (take (Z.to_nat n) buf));
            _ ← put_thread i (mkT (set_state (kernel t) Ready) (PLinux (set_pending l None)));
            mret (set_rax r (u64 n))
          else mret r
      | _ => mret r
      end
  | _ => mret r
  end.

(** [LinuxState::on_resume] *)
Definition linux_on_resume (l : LinuxState) (m : Mach) : LinuxState * Mach :=
  let m := if 0 <=? tls_entry l then set_tls_entry A (tls_entry l) (tls_base l) (tls_limit l) (tls_limit_in_pages l) m else m in
  if wait_status_ptr l =? 0 then (l, m)
  else (set_wait l 0 (wait_exit_code l), store_i32 A (wait_status_ptr l) (Z.shiftl (wait_exit_code l .& 0xFF) 8) m).

Definition on_resume (p : Personality) (m : Mach) : Personality * Mach :=
  match p with
  | PDos d => let '(d, m) := dos_on_resume D d m in (PDos d, m)
  | PLinux l => let '(l, m) := linux_on_resume l m in (PLinux l, m)
  | POs2 o => let '(o, m) := os2_on_resume D o m in (POs2 o, m)
  | PWindows w => let '(w, m) := win_on_resume D w m in (PWindows w, m)
  end.

(** ** The execution context *)

(** What [verify_kernel_cpu_hash] reports on. *)
Definition cpu_hash_ok k : bool := (cpu_hash k =? 0) || (hash_regs (regs k) =? cpu_hash k).

Definition exec_switch_to (new : nat) : K () :=
  kn ← gets (fun kn => kn);
  if (new =? cur kn)%nat then mret ()
  else
    '(o, n) ← expect (get_two_threads (threads kn) (cur kn) new);
    let '(m, old_space, fx) := activate A (space (kernel n)) (fx_state (kernel n)) (mach kn) in
    let '(np, m) := on_resume (personality n) m in
    let ko := kernel o in
    let o := mkT (mkThread (tid ko) (pid ko) (priority ko) (parent_tid ko) (state ko) (time ko) (live kn) old_space fx
                    (exit_code ko) (addr_hash ko) (hash_regs (live kn)) (symbols ko) (table ko) (comm ko)) (personality o) in
    let n' := mkT (set_space (kernel n) (empty_space A)) np in
    modify (fun kn => set_cpu (set_mach (set_threads kn (<[new := n']> (<[cur kn := o]> (threads kn)))) m)
                        new (regs (kernel n))).

Definition continue_as (new : nat) : K () :=
  kn ← gets (fun kn => kn);
  t ← expect (used_thread (threads kn) new);
  let '(p, m) := on_resume (personality t) (mach kn) in
  _ ← put_thread new (mkT (kernel t) p);
  modify (fun kn => set_cpu (set_mach kn m) new (live kn)).

(** ** The verdict *)

Inductive DosChildOp := OpReap | OpWaitpid.

(** dos/mod.rs *)
Definition handle_synth_child (r : Regs) (i : nat) (pid' : Z) (op : DosChildOp) : K (Regs * option nat) :=
  kn ← gets (fun kn => kn);
  let low16 := bnot 64 0xFFFF in
  match op with
  | OpReap =>
      '(ts, m) ← expect (reap (threads kn) (mach kn) pid');
      _ ← modify (fun kn => set_mach (set_threads kn ts) m);
      mret (clear_flag32 (set_rax r (rax r .& low16)) 1, None)
  | OpWaitpid =>
      '(ctid, _) ← expect (peek_zombie_child (threads kn) i pid');
      mret (if 0 <=? ctid then clear_flag32 (set_rbx (set_rax r (rax r .& low16)) ((rbx r .& low16) .| u16 ctid)) 1
            else if ctid =? -11 then clear_flag32 (set_rax r ((rax r .& low16) .| 1)) 1
            else set_flag32 (set_rax r ((rax r .& low16) .| u64 (- ctid))) 1, None)
  end.

Inductive PersonalityName := NDos | NLinux | NOs2 | NWindows.

Inductive KernelAction :=
| Done | Yield | Exit (code : Z) | Fork (on_done : Regs -> Z -> Regs) (child_stack : Z) | Switch (next : nat)
| ForkExec (path cmdtail : Path) (personality_name : option PersonalityName) (viopl : Z) (on_error on_success : Regs -> Z -> Regs)
| Exec (buffer path : Path) (args : list Path) (cwd : Path)
| Wait (pid status_ptr : Z) | DosSynthChild (pid : Z) (op : DosChildOp).

Inductive Verdict := Stay | VSwitch (i : nat) | ContinueAs (i : nat) | AllDead.

(** [handle_fork_exec] of startup.rs and [handle_exec] of linux/mod.rs *)
Context (handle_fork_exec : Path -> Path -> option PersonalityName -> Z -> (Regs -> Z -> Regs) -> (Regs -> Z -> Regs) ->
                            nat -> Regs -> K (Regs * option nat))
        (handle_exec : Path -> Path -> list Path -> Path -> nat -> Regs -> K (Regs * option nat)).

(** Runs [m] on the live frame. *)
Definition with_live {B} (m : Regs -> K (Regs * B)) : K B :=
  r ← gets live;
  '(r, b) ← m r;
  _ ← modify (fun kn => set_cpu kn (cur kn) r);
  mret b.

Definition next_after (i : nat) (a : KernelAction) : K (option Verdict) :=
  match a with
  | Done => mret None
  | Yield =>
      kn ← gets (fun kn => kn);
      '(ts, (sd, next)) ← expect (yield_thread (threads kn) i (live kn) (seed kn));
      _ ← modify (fun kn => set_seed (set_threads kn ts) sd);
      mret (VSwitch <$> next)
  | Exit code => next ← exit_thread i code; mret (Some (VSwitch next))
  | Switch next => mret (Some (VSwitch next))
  | ForkExec path cmdtail name viopl on_error on_success =>
      next ← with_live (handle_fork_exec path cmdtail name viopl on_error on_success i); mret (ContinueAs <$> next)
  | Fork on_done child_stack => next ← with_live (fun r => handle_fork r i child_stack on_done); mret (VSwitch <$> next)
  | Exec buffer path args cwd => next ← with_live (handle_exec buffer path args cwd i); mret (VSwitch <$> next)
  | Wait pid' status_ptr => next ← with_live (fun r => handle_wait r i pid' status_ptr); mret (VSwitch <$> next)
  | DosSynthChild pid' op => next ← with_live (fun r => handle_synth_child r i pid' op); mret (VSwitch <$> next)
  end.

Definition verdict (i : nat) (a : KernelAction) : K Verdict :=
  next ← next_after i a;
  match next with
  | Some (VSwitch 0%nat) => mret AllDead
  | Some v => mret v
  | None =>
      kn ← gets (fun kn => kn);
      let '(sw, next) := focus_request (threads kn) i (focus kn) (switch_to kn) in
      _ ← modify (fun kn => set_switch kn sw);
      mret match next with None => Stay | Some 0%nat => AllDead | Some n => VSwitch n end
  end.

End Threads.
