(* ===== verification/ThreadInv.v ===== *)
(** The thread table's invariant and that every turn of the event loop keeps
    it.

    A turn is a system call of the running thread on its descriptors, the
    completion of its pending read, or an action with the verdict and the
    switch that follow.  [Inv] says that the table is well formed (each used
    slot carries its own number, exited and unused slots hold no
    descriptor), that every reference count of the kernel-wide tables is
    the number of descriptors, over all threads, that name the object (plus
    what the kernel itself holds), and that the saved registers of every
    thread that may be switched to are those its hash was taken of. *)

From Stdlib Require Import ZArith Lia Bool.
From stdpp Require Import base option list numbers gmap.
From S2P Require Import Prelude Path Effect Pipe KPipe Vfs VfsInv Fd Thread.

Section Turns.
Context {Mach Space Fx Dos Os2 Win Sym Vga Handoff Card : Type}.
Local Abbreviation Arch := (@Arch Mach Space Fx).
Local Abbreviation DosOps := (@DosOps Mach Dos Os2 Win Vga Handoff Card).
Local Abbreviation Thread := (@Thread Space Fx Dos Os2 Win Sym).
Context (A : Arch) (D : DosOps).
Context {W N : Type} (net_close : Z -> N -> N) (fuel : nat).
Local Abbreviation Kern := (@Kern Mach Space Fx Dos Os2 Win Sym Vga Handoff Card W N).
Local Abbreviation K := (M Kern).
Context (fork_exec : Path -> Path -> option PersonalityName -> Z -> (Regs -> Z -> Regs) -> (Regs -> Z -> Regs) ->
                     nat -> Regs -> K (Regs * option nat))
        (exec_image : Path -> Path -> list Path -> Path -> nat -> Regs -> K (Regs * option nat)).

(** * Turns *)

Inductive kop :=
| OpenFile (path : Path) | CloseFd (fd : Z) | MakePipe (flag_cloexec : bool) | Dup2 (oldfd newfd : Z)
| Fcntl (fd cmd arg : Z) | AfterInput | Act (a : KernelAction).

(** A system call on the running thread's table; rax gets its result. *)
Definition on_table (m : FdTable -> M (Globals W N) (FdTable * Z)) : K () :=
  i ← gets cur;
  t ← thread_at i;
  '(tb, r) ← on_glob (m (table (kernel t)));
  _ ← put_thread i (on_kernel (fun k => set_table k tb) t);
  modify (fun kn => set_cpu kn (cur kn) (set_rax (live kn) (u64 r))).

(** [Personality::after_input] of a blocked Linux thread *)
Definition after_input : K () :=
  i ← gets cur;
  t ← thread_at i;
  if bool_decide (state (kernel t) = Blocked)
  then with_live (fun r => r ← complete_pending_read A i r; mret (r, ()))
  else mret ().

(** The loop's last act. *)
Definition finish : K () :=
  kn ← gets (fun kn => kn);
  '(ts, m) ← expect (reap_all_zombies A (threads kn) (mach kn));
  modify (fun kn => set_mach (set_threads kn ts) m).

(** Tells whether the loop goes on. *)
Definition turn (op : kop) : K bool :=
  match op with
  | OpenFile path => _ ← on_table (fun t => sys_open fuel t path); mret true
  | CloseFd fd => _ ← on_table (fun t => sys_close net_close t fd); mret true
  | MakePipe flag => _ ← on_table (fun t => '(t, r, _) ← sys_pipe net_close t flag; mret (t, r)); mret true
  | Dup2 o n => _ ← on_table (fun t => sys_dup2 net_close t o n); mret true
  | Fcntl fd cmd arg => _ ← on_table (fun t => sys_fcntl t fd cmd arg); mret true
  | AfterInput => _ ← after_input; mret true
  | Act a =>
      i ← gets cur;
      v ← verdict A D net_close fork_exec exec_image i a;
      match v with
      | Stay => mret true
      | VSwitch n => _ ← exec_switch_to A D n; mret true
      | ContinueAs n => _ ← continue_as A D n; mret true
      | AllDead => _ ← finish; mret false
      end
  end.

(** The turns considered.  The two program loads, [ForkExec] and [Exec], are
    left out: they build a new process image.  [Switch] is left out because no
    handler asks for it: each one leaves the field [switch_to] of its result
    empty. *)
Definition op_ok (op : kop) : Prop :=
  match op with
  | Act (Switch _) | Act (ForkExec _ _ _ _ _ _) | Act (Exec _ _ _ _) => False
  | _ => True
  end.

Inductive kstep : Kern -> Kern -> Prop :=
| kstep_turn kn op kn' : op_ok op -> turn op kn = Val (kn', true) -> kstep kn kn'.

(** * The invariant *)

Fixpoint total (r : ref) (ts : list Thread) : Z :=
  match ts with [] => 0 | t :: ts => count r (fds (table (kernel t))) + total r ts end.

Definition idle (t : Thread) : Prop := fds (table (kernel t)) = replicate MAX_FDS FdNone.

(** [slot_ok i t]: thread [t] is a legal content of slot [i]. *)
Record slot_ok (i : nat) (t : Thread) : Prop := mkSlot {
  slot_table : table_wf (table (kernel t));
  slot_tid : state (kernel t) <> Unused -> tid (kernel t) = Z.of_nat i;
  slot_idle : state (kernel t) = Unused \/ state (kernel t) = Zombie -> idle t;
  slot_init : i = 0%nat -> state (kernel t) = Running /\ idle t }.

Definition hash_ok (i c : nat) (t : Thread) : Prop :=
  i <> c -> active (Some (state (kernel t))) = true -> cpu_hash_ok (kernel t) = true.

(** What the kernel itself holds leaves room in the 16-bit counts. *)
Definition held_ok (b : ref -> Z) : Prop := forall r, 0 <= b r <= 60.

Record Inv (b : ref -> Z) (kn : Kern) : Prop := mkInv {
  inv_len : length (threads kn) = MAX_THREADS;
  inv_slots : forall i t, threads kn !! i = Some t -> slot_ok i t;
  inv_gwf : gwf (glob kn);
  inv_counts : forall r, valid_ref r -> rc (glob kn) r = b r + total r (threads kn);
  inv_hash : forall i t, threads kn !! i = Some t -> hash_ok i (cur kn) t;
  inv_cur : (0 < cur kn)%nat }.

(** The processor is lent to a thread that can run. *)
Definition runs (kn : Kern) : Prop := active (state_of (threads kn) (cur kn)) = true.

(** ** Sums over the table *)

Lemma total_insert r (ts : list Thread) i t t' :
  ts !! i = Some t -> total r (<[i := t']> ts) = total r ts - count r (fds (table (kernel t))) + count r (fds (table (kernel t'))).
Proof.
  revert i; induction ts as [|t0 ts IH]; intros [|i]; [done|done|intros [= ->]; cbn; lia|].
  intros H. change (<[S i := t']> (t0 :: ts)) with (t0 :: <[i := t']> ts). cbn [total]. rewrite (IH i H). lia.
Qed.

Definition tables_wf (ts : list Thread) : Prop := Forall (fun t => length (fds (table (kernel t))) = MAX_FDS) ts.

Lemma total_bound r ts : tables_wf ts -> 0 <= total r ts <= 64 * Z.of_nat (length ts).
Proof.
  induction 1 as [|t ts Ht _ IH]; cbn [total]; [cbn; lia|]. pose proof (count_range r (fds (table (kernel t)))) as H.
  rewrite Ht in H. change (Z.of_nat MAX_FDS) with 64 in H. cbn [length]. lia.
Qed.

Lemma total_others r ts i t :
  tables_wf ts -> ts !! i = Some t ->
  0 <= total r ts - count r (fds (table (kernel t))) <= 64 * (Z.of_nat (length ts) - 1).
Proof.
  intros H; revert i; induction H as [|t0 ts Ht Hts IH]; intros [|i]; [done|done|intros [= ->]|].
  - cbn [total length]. pose proof (total_bound r ts Hts). lia.
  - cbn [lookup list_lookup]. intros Hi. specialize (IH i Hi). cbn [total length].
    pose proof (count_range r (fds (table (kernel t0)))) as H. rewrite Ht in H. change (Z.of_nat MAX_FDS) with 64 in H. lia.
Qed.

Lemma idle_count r t : idle t -> count r (fds (table (kernel t))) = 0.
Proof. intros ->. apply count_none. Qed.

Lemma inv_tables b kn : Inv b kn -> tables_wf (threads kn).
Proof. intros HI. apply Forall_lookup_2. intros i t Hi. apply (slot_table _ _ (inv_slots _ _ HI _ _ Hi)). Qed.

(** All threads but [i], and the kernel. *)
Definition others (b : ref -> Z) (kn : Kern) (t : Thread) (r : ref) : Z :=
  b r + (total r (threads kn) - count r (fds (table (kernel t)))).

Lemma others_bound b kn i t r :
  held_ok b -> Inv b kn -> threads kn !! i = Some t -> (0 < i)%nat -> 0 <= others b kn t r <= 60 + 64 * 1022.
Proof.
  intros Hb HI Hi Hpos. pose proof (inv_tables _ _ HI) as Hw. pose proof (inv_len _ _ HI) as Hl.
  unfold others. destruct (Hb r). destruct (threads kn) as [|t0 ts] eqn:E; [done|].
  assert (idle t0) as Hz by (by apply (slot_init _ _ (inv_slots _ _ HI 0%nat t0 ltac:(by rewrite E)))).
  inversion Hw as [|? ? _ Hts]; subst. destruct i as [|i]; [lia|]. pose proof (total_others r ts i t Hts Hi).
  cbn [total]. rewrite (idle_count r t0 Hz). cbn [length] in Hl. injection Hl as Hl. rewrite Hl in *.
  change (Z.of_nat 1023) with 1023 in *. lia.
Qed.

Lemma others_roomy b kn i t :
  held_ok b -> Inv b kn -> threads kn !! i = Some t -> (0 < i)%nat -> roomy (others b kn t).
Proof.
  intros Hb HI Hi Hpos r. pose proof (others_bound b kn i t r Hb HI Hi Hpos).
  unfold U16_MAX. change (Z.of_nat MAX_FDS) with 64. lia.
Qed.

Lemma inv_balanced b kn i t :
  Inv b kn -> threads kn !! i = Some t -> balanced (others b kn t) (glob kn) (table (kernel t)).
Proof.
  intros HI Hi. split; [apply (inv_gwf _ _ HI)|]. split; [apply (slot_table _ _ (inv_slots _ _ HI _ _ Hi))|].
  intros r Hv. unfold others. rewrite (inv_counts _ _ HI r Hv). lia.
Qed.

(** ** Assignments *)

Lemma lookup_put (ts : list Thread) i t t' j u :
  ts !! i = Some t -> <[i := t']> ts !! j = Some u -> (j = i /\ u = t') \/ (j <> i /\ ts !! j = Some u).
Proof.
  intros Hi. destruct (decide (i = j)) as [<-|Hne].
  - rewrite list_lookup_insert_eq by (by eapply lookup_lt_Some). intros [= <-]. by left.
  - rewrite list_lookup_insert_ne by done. intros H. by right.
Qed.

(** A slot rewritten with another table and the counts that go with it. *)
Lemma inv_assign b kn g i t t' :
  Inv b kn -> threads kn !! i = Some t -> slot_ok i t' -> hash_ok i (cur kn) t' ->
  balanced (others b kn t) g (table (kernel t')) -> Inv b (set_glob (set_threads kn (<[i := t']> (threads kn))) g).
Proof.
  intros HI Hi Hs Hh (Hg & _ & Hc). destruct HI as [Hl Hsl _ _ Hha Hcur].
  split; cbn; [by rewrite length_insert| |done| | |done].
  - intros j u [[-> ->]|[_ Hj]]%(lookup_put _ _ t); [done|by apply Hsl|done].
  - intros r Hv. rewrite Hc, (total_insert r _ _ _ t' Hi) by done. unfold others. lia.
  - intros j u [[-> ->]|[_ Hj]]%(lookup_put _ _ t); [done|by apply Hha|done].
Qed.

Lemma set_glob_same (kn : Kern) : set_glob kn (glob kn) = kn.
Proof. by destruct kn. Qed.

(** A slot rewritten with the same table. *)
Lemma inv_put b kn i t t' :
  Inv b kn -> threads kn !! i = Some t -> slot_ok i t' -> hash_ok i (cur kn) t' ->
  table (kernel t') = table (kernel t) -> Inv b (set_threads kn (<[i := t']> (threads kn))).
Proof.
  intros HI Hi Hs Hh Ht. pose proof (inv_assign b kn (glob kn) i t t' HI Hi Hs Hh) as H.
  rewrite Ht in H. exact (H (inv_balanced b kn i t HI Hi)).
Qed.

(** What a slot may become while its table and number stay. *)
Lemma slot_same i t t' :
  slot_ok i t -> table (kernel t') = table (kernel t) -> tid (kernel t') = tid (kernel t) ->
  (state (kernel t') = state (kernel t) \/
   state (kernel t) <> Unused /\ (state (kernel t') = Unused \/ state (kernel t') = Zombie -> idle t) /\ (0 < i)%nat) ->
  slot_ok i t'.
Proof.
  intros [H1 H2 H3 H4] Ht Hi Hs. unfold idle in *. destruct Hs as [Hs|(Hu & Hz & Hpos)].
  - split; unfold idle; rewrite ?Ht, ?Hs, ?Hi; done.
  - split; unfold idle; rewrite ?Ht, ?Hi; auto. intros ->. lia.
Qed.

Lemma runs_thread kn t : runs kn -> threads kn !! cur kn = Some t -> active (Some (state (kernel t))) = true.
Proof. unfold runs, state_of. intros H E. by rewrite E in H. Qed.

Lemma active_not_dead (s : ThreadState) : active (Some s) = true -> ~ (s = Unused \/ s = Zombie).
Proof. destruct s; cbn; intuition congruence. Qed.

Lemma runs_put kn i t' :
  (forall t, i = cur kn -> threads kn !! i = Some t -> active (Some (state (kernel t'))) = true) ->
  runs kn -> runs (set_threads kn (<[i := t']> (threads kn))).
Proof.
  unfold runs, state_of. cbn. intros H Hr. destruct (threads kn !! cur kn) as [t|] eqn:E; [|done].
  destruct (decide (i = cur kn)) as [->|Hne].
  - rewrite list_lookup_insert_eq by (by eapply lookup_lt_Some). by apply (H t).
  - by rewrite list_lookup_insert_ne, E.
Qed.

(** Only the table, the counts and the running thread matter. *)
Lemma inv_side b kn kn' :
  Inv b kn -> threads kn' = threads kn -> glob kn' = glob kn -> cur kn' = cur kn -> Inv b kn'.
Proof. intros [? ? ? ? ? ?] Ht Hg Hc. split; rewrite ?Ht, ?Hg, ?Hc; done. Qed.

(** The live frame of the running thread is nobody's saved frame. *)
Lemma inv_live b kn r : Inv b kn -> Inv b (set_cpu kn (cur kn) r).
Proof. intros HI. by eapply inv_side. Qed.

(** * System calls *)

Definition balances (m : FdTable -> M (Globals W N) (FdTable * Z)) : Prop :=
  forall b g t, roomy b -> balanced b g t -> match m t g with Val (g', (t', _)) => balanced b g' t' | _ => True end.

Lemma on_table_ok b m :
  held_ok b -> balances m -> keeps True (fun kn => Inv b kn /\ runs kn) (on_table m).
Proof.
  intros Hb Hm kn [HI Hr]. unfold on_table, thread_at, on_glob, zoom, put_thread. run.
  destruct (threads kn !! cur kn) as [t|] eqn:E; [|done].
  pose proof (inv_balanced b kn _ t HI E) as Hbal. pose proof (others_roomy b kn _ t Hb HI E (inv_cur _ _ HI)) as Hro.
  specialize (Hm _ _ _ Hro Hbal). destruct (m (table (kernel t)) (glob kn)) as [[g [tb r]]| |]; [|done|done].
  pose proof (runs_thread _ _ Hr E) as Hact. split.
  - apply inv_live. apply (inv_assign b kn g (cur kn) t (on_kernel (fun k => set_table k tb) t) HI E); [|by intros []|done].
    destruct (inv_slots _ _ HI _ _ E) as [_ H2 _ _]. pose proof (inv_cur _ _ HI).
    split; [by destruct Hm as (_ & ? & _)|done|by intros ?%active_not_dead|lia].
  - by apply (runs_put kn).
Qed.

Lemma sys_pipe_balances flag :
  balances (fun t => '(t, r, _) ← sys_pipe net_close t flag; mret (t, r)).
Proof.
  intros b g t Hb Hbal. pose proof (sys_pipe_balanced net_close b g t flag Hb Hbal) as H. unfold mbind, M_bind.
  destruct (sys_pipe net_close t flag g) as [[g' [[t' r] o]]| |]; done.
Qed.

(** A read moves bytes, not references. *)
Lemma inv_pipe_read b kn i buf p o :
  Inv b kn -> KernelPipe.read (pipes (glob kn)) i buf = Some (p, o) ->
  Inv b (set_glob kn (mkG p (files (glob kn)) (dirs (glob kn)) (net (glob kn)))).
Proof.
  intros [H1 H2 Hg Hc H5 H6] Hrd. unfold KernelPipe.read, KernelPipe.on_pipe in Hrd.
  apply bind_Some in Hrd as (q & Hq & Hrd). destruct (Pipe.read _ _ _) as [[bf bu] n]. injection Hrd as <- <-.
  set (g' := mkG _ _ _ _). assert (forall r, rc g' r = rc (glob kn) r) as Hrc.
  { intros [j|j|h]; [| |done]; unfold g', rc, pipe_at; cbn;
      (destruct (decide (Z.to_nat i = Z.to_nat j)) as [e|Hne];
       [rewrite <- e, list_lookup_insert_eq by (by eapply lookup_lt_Some); by rewrite Hq|by rewrite list_lookup_insert_ne]). }
  split; cbn; [done|done| | |done|done].
  - destruct Hg as (Hp & Hf & Hr). split; [cbn; by rewrite length_insert|]. split; [done|]. intros r. by rewrite Hrc.
  - intros r Hv. by rewrite Hrc, Hc.
Qed.

Lemma after_input_ok b : keeps True (fun kn => Inv b kn /\ runs kn) after_input.
Proof.
  intros kn [HI Hr]. unfold after_input, thread_at. run. destruct (threads kn !! cur kn) as [t|] eqn:E; [|done].
  case_bool_decide as Hbl; [|done]. unfold with_live, complete_pending_read, thread_at, put_thread, on_mach. run. rewrite E.
  destruct (personality t) as [d|l|o|w] eqn:Ep; try (split; [by apply inv_live|done]).
  destruct (pending_read l) as [[[] ptr len]|]; try (split; [by apply inv_live|done]).
  destruct (KernelPipe.read _ _ _) as [[p [buf n]]|] eqn:Erd; [|done].
  pose proof (inv_pipe_read b kn _ _ _ _ HI Erd) as HI'. destruct (0 <? n); [|split; [by apply inv_live|done]]. split.
  - apply inv_live. eapply (inv_put b _ (cur kn) t); [by eapply inv_side|done| |by intros []|done].
    eapply slot_same; [by apply (inv_slots _ _ HI)|done|done|]. right. rewrite Hbl.
    split; [done|]. split; [by intros []|apply (inv_cur _ _ HI)].
  - by apply (runs_put kn).
Qed.

(** * The scheduler *)

Lemma schedule_loop_ready (ts : list Thread) i c sd n next sd' j :
  schedule_loop ts i c sd n next = (sd', Some j) ->
  next = Some j \/ exists k, j = (i + k)%nat /\ j <> c /\ state_of ts k = Some Ready.
Proof.
  revert i sd n next; induction ts as [|t ts IH]; intros i sd n next; cbn [schedule_loop]; [intros [= _ ->]; by left|].
  destruct ((i =? c)%nat || _) eqn:E.
  - intros [->|(k & -> & Hc & Hk)]%IH; [by left|]. right. exists (S k). split; [lia|]. by split.
  - apply orb_false_iff in E as [Hic%Nat.eqb_neq Hst]. apply negb_false_iff, bool_decide_eq_true_1 in Hst.
    intros [Hn|(k & -> & Hc & Hk)]%IH.
    + destruct (if u64 (n + 1) =? 0 then _ else _); [|by left]. injection Hn as <-. right. exists 0%nat.
      split; [lia|]. split; [done|]. unfold state_of. cbn. by rewrite Hst.
    + right. exists (S k). split; [lia|]. by split.
Qed.

(** What is scheduled is ready and not the caller. *)
Lemma schedule_ready (ts : list Thread) c sd sd' j :
  schedule ts c sd = (sd', Some j) -> (0 < j)%nat /\ j <> c /\ state_of ts j = Some Ready.
Proof.
  unfold schedule. intros [?|(k & -> & Hc & Hk)]%schedule_loop_ready; [done|]. split; [lia|]. split; [done|].
  unfold state_of in *. destruct (drop 1 (take MAX_THREADS ts) !! k) as [t|] eqn:E; [|done].
  rewrite lookup_drop in E. apply lookup_take_Some in E as [E _]. by rewrite E.
Qed.

(** What an action leaves: [next] is the thread it asks for. *)
Definition after (b : ref -> Z) (next : option nat) (kn : Kern) : Prop :=
  Inv b kn /\ match next with
              | None => runs kn
              | Some 0%nat => True
              | Some n => active (state_of (threads kn) n) = true
              end.

(** The same of the verdict an action asks for. *)
Definition after_verdict (b : ref -> Z) (v : option Verdict) (kn : Kern) : Prop :=
  match v with
  | None => after b None kn
  | Some (VSwitch n) => after b (Some n) kn
  | Some _ => False
  end.

Lemma after_map b (m : K (option nat)) P :
  triple True P m (fun next kn => after b next kn) ->
  triple True P (next ← m; mret (VSwitch <$> next)) (fun v kn => after_verdict b v kn).
Proof. intros Hm. eapply triple_bind; [exact Hm|]. by intros [n|] kn. Qed.

Lemma run_schedule_after b c :
  triple True (Inv b) (run_schedule c) (fun next kn => after b (Some (default 0%nat next)) kn).
Proof.
  intros kn HI. unfold run_schedule. destruct (schedule (threads kn) c (seed kn)) as [sd [j|]] eqn:E; cbn.
  - apply schedule_ready in E as (_ & _ & Hj). split; [by eapply inv_side|]. destruct j; [done|]. cbn. by rewrite Hj.
  - split; [by eapply inv_side|done].
Qed.

Lemma update_ok b kn f t :
  Inv b kn -> threads kn !! cur kn = Some t -> state (kernel t) <> Unused ->
  table (f (kernel t)) = table (kernel t) -> tid (f (kernel t)) = tid (kernel t) ->
  ~ (state (f (kernel t)) = Unused \/ state (f (kernel t)) = Zombie) ->
  update (threads kn) (cur kn) f = Some (<[cur kn := on_kernel f t]> (threads kn)) /\
  Inv b (set_threads kn (<[cur kn := on_kernel f t]> (threads kn))).
Proof.
  intros HI E Hu Ht Hi Hs. split; [unfold update; by rewrite E|].
  eapply inv_put; [done|exact E| |by intros []|done]. eapply slot_same; [by apply (inv_slots _ _ HI)|done|done|].
  right. split; [done|]. split; [done|]. apply (inv_cur _ _ HI).
Qed.

Lemma runs_current kn : runs kn -> exists t, threads kn !! cur kn = Some t /\ ~ (state (kernel t) = Unused \/ state (kernel t) = Zombie).
Proof.
  intros Hr. destruct (threads kn !! cur kn) as [t|] eqn:E.
  - exists t. split; [done|]. by apply active_not_dead, (runs_thread kn).
  - unfold runs, state_of in Hr. by rewrite E in Hr.
Qed.

Lemma yield_after b :
  triple True (fun kn => Inv b kn /\ runs kn)
    (i ← gets cur; next_after A D net_close fork_exec exec_image i Yield) (fun v kn => after_verdict b v kn).
Proof.
  intros kn [HI Hr]. destruct (runs_current kn Hr) as (t & E & Hd). unfold next_after. run. unfold yield_thread.
  set (f := fun k => set_state (set_regs k (live kn)) Ready).
  destruct (update_ok b kn f t HI E) as [-> HI1]; [tauto|done|done|by intros []|]. cbn [mbind option_bind].
  destruct (schedule (<[cur kn := on_kernel f t]> (threads kn)) (cur kn) (seed kn)) as [sd next] eqn:Es.
  destruct next as [j|]; (split; [by eapply inv_side|]).
  - apply schedule_ready in Es as (Hj & _ & Hs). cbn. destruct j; [lia|]. by rewrite Hs.
  - unfold runs, state_of. cbn. by rewrite list_lookup_insert_eq by (by eapply lookup_lt_Some).
Qed.

(** * Reaping *)

Lemma reap_ok b kn m i ts m' :
  Inv b kn -> reap A (threads kn) m i = Some (ts, m') ->
  Inv b (set_threads kn ts) /\ (runs kn -> runs (set_threads kn ts)).
Proof.
  intros HI. unfold reap. destruct (_ || _) eqn:Eb; [intros [= <- <-]; split; [by eapply inv_side|done]|].
  destruct (threads kn !! Z.to_nat i) as [t|] eqn:E; [|done]. cbn. case_bool_decide as Hz.
  2:{ intros [= <- <-]; split; [by eapply inv_side|done]. }
  destruct (destroy_space A (space (kernel t)) m) as [m1 sp]. intros [= <- <-].
  pose proof (inv_slots _ _ HI _ _ E) as Hs. pose proof Hs as [_ _ H3 H4]. split.
  - eapply inv_put; [done|exact E| |by intros ??|done]. eapply slot_same; [exact Hs|done|done|]. right.
    rewrite Hz. split; [done|]. split; [intros _; apply H3; by right|]. destruct (decide (Z.to_nat i = 0%nat)) as [H0|]; [|lia]. destruct (H4 H0); congruence.
  - intros Hr. apply runs_put; [|done]. intros t1 Hc E1. pose proof (runs_thread kn t Hr). rewrite <- Hc in H.
    specialize (H E). by rewrite Hz in H.
Qed.

Lemma reap_each_ok b slots kn m ts m' :
  Inv b kn -> reap_each A slots (threads kn) m = Some (ts, m') -> Inv b (set_threads kn ts).
Proof.
  revert kn m; induction slots as [|i slots IH]; intros kn m HI; cbn [reap_each]; [intros [= <- <-]; by eapply inv_side|].
  destruct (threads kn !! i) as [t|] eqn:E; [|done]. cbn. case_bool_decide.
  - intros ([ts1 m1] & Hr & Hrest)%bind_Some. destruct (reap_ok b kn m _ _ _ HI Hr) as [HI1 _].
    specialize (IH (set_threads kn ts1) m1 HI1 Hrest). by apply (inv_side _ _ _ IH).
  - cbn. intros Hr. exact (IH kn m HI Hr).
Qed.

Lemma finish_ok b : keeps True (Inv b) (finish).
Proof.
  intros kn HI. unfold finish. run. destruct (reap_all_zombies A (threads kn) (mach kn)) as [[ts m]|] eqn:E; [|done].
  by apply (inv_side _ _ _ (reap_each_ok b _ kn _ _ _ HI E)).
Qed.

(** * Waiting *)

Lemma waitpid_ok b kn i pid' ts m r :
  Inv b kn -> waitpid A (threads kn) (mach kn) i pid' = Some (ts, m, r) ->
  Inv b (set_threads kn ts) /\ (runs kn -> runs (set_threads kn ts)).
Proof.
  intros HI. unfold waitpid. destruct (peek_zombie_child (threads kn) i pid') as [[c code]|]; [|done]. cbn.
  destruct (0 <=? c).
  - intros ([ts1 m1] & Hr & [= <- <- <-])%bind_Some. by apply (reap_ok b kn _ _ _ _ HI Hr).
  - cbn. intros [= <- <- <-]. split; [by eapply inv_side|done].
Qed.

(** A handler run on the running thread and the live frame. *)
Lemma with_live_after b c (m : Regs -> K (Regs * option nat)) :
  (forall r, triple True (fun kn => cur kn = c /\ Inv b kn /\ runs kn) (m r) (fun '(_, next) kn => after b next kn)) ->
  triple True (fun kn => cur kn = c /\ Inv b kn /\ runs kn) (with_live m) (fun next kn => after b next kn).
Proof.
  intros Hm kn H. unfold with_live. run. specialize (Hm (live kn) kn H).
  destruct (m (live kn) kn) as [[kn' [r next]]| |]; [|done|done]. destruct Hm as [HI Hn]. split; [by apply inv_live|].
  by destruct next as [[]|].
Qed.

Lemma used_thread_spec (ts : list Thread) i t :
  used_thread ts i = Some t -> ts !! i = Some t /\ state (kernel t) <> Unused.
Proof.
  unfold used_thread, get_thread. destruct (MAX_THREADS <=? i)%nat; [done|]. destruct (ts !! i) as [t1|]; [|done]. cbn.
  case_bool_decide; [done|]. by intros [= ->].
Qed.

Lemma handle_wait_after b pid' ptr r c :
  triple True (fun kn => cur kn = c /\ Inv b kn /\ runs kn) (handle_wait A r c pid' ptr) (fun '(_, next) kn => after b next kn).
Proof.
  intros kn (<- & HI & Hr). unfold handle_wait. run.
  destruct (waitpid A (threads kn) (mach kn) (cur kn) pid') as [[[ts m] [c code]]|] eqn:Ew; [|done].
  destruct (waitpid_ok b kn _ _ _ _ _ HI Ew) as [HI1 Hr1]. specialize (Hr1 Hr).
  set (kn1 := set_mach (set_threads kn ts) m). assert (Inv b kn1) as HI2 by (by apply (inv_side _ _ _ HI1)).
  destruct (0 <=? c). { destruct (ptr =? 0); cbn; split; try done; by apply (inv_side _ _ _ HI1). }
  destruct (c =? -10); [by split|]. destruct (used_thread ts (cur kn)) as [t0|] eqn:Eg; cbn; [|done].
  apply used_thread_spec in Eg as [E Hu]. destruct (runs_current kn1 Hr1) as (t' & E' & Hd). assert (t' = t0) as -> by (cbn in E'; congruence).
  set (kn2 := match personality t0 with
              | PLinux l => set_threads kn1 (<[cur kn := mkT (kernel t0) (PLinux (set_wait l ptr (wait_exit_code l)))]> (threads kn1))
              | _ => kn1 end).
  assert (Inv b kn2 /\ exists t2, threads kn2 !! cur kn2 = Some t2 /\ kernel t2 = kernel t0) as (HI3 & t2 & E2 & Hk).
  { unfold kn2. destruct (personality t0) as [d|l|o|w]; try (split; [done|by exists t0]). split.
    - eapply inv_put; [done|exact E'| |by intros []|done].
      eapply slot_same; [by apply (inv_slots _ _ HI2)|done|done|by left].
    - eexists. cbn. by rewrite list_lookup_insert_eq by (by eapply lookup_lt_Some). }
  destruct (update_ok b kn2 (fun k => set_state k Blocked) t2 HI3 E2) as [Hup HI4];
    [rewrite Hk; tauto|done|done|by intros []|].
  pose proof (run_schedule_after b (cur kn) _ HI4) as Hsch.
  assert (cur kn2 = cur kn) as Hcur by (unfold kn2; by destruct (personality t0)).
  unfold kn2 in *. destruct (personality t0); cbn in Hup, Hcur, Hsch |- *; unfold block_thread; rewrite Hup; cbn;
    match goal with |- context [run_schedule ?c ?k] => destruct (run_schedule c k) as [[kn3 [j|]]| |]; done end.
Qed.

Lemma handle_synth_after b pid' op r c :
  triple True (fun kn => cur kn = c /\ Inv b kn /\ runs kn) (handle_synth_child A r c pid' op) (fun '(_, next) kn => after b next kn).
Proof.
  intros kn (<- & HI & Hr). unfold handle_synth_child. run. destruct op.
  - destruct (reap A (threads kn) (mach kn) pid') as [[ts m]|] eqn:E; [|done].
    destruct (reap_ok b kn _ _ _ _ HI E) as [HI1 Hr1]. split; [by apply (inv_side _ _ _ HI1)|by apply Hr1].
  - by destruct (peek_zombie_child (threads kn) (cur kn) pid') as [[c code]|].
Qed.

(** * Forking *)

Lemma find_unused_spec (ts : list Thread) i :
  find_unused ts = Some i -> exists t, ts !! i = Some t /\ state (kernel t) = Unused.
Proof.
  unfold find_unused. intros ([j t] & Hf & ->)%fmap_Some. apply list_find_Some in Hf as (Hj & Hu & _).
  apply lookup_take_Some in Hj as [Hj _]. by exists t.
Qed.

Lemma alter_put (ts : list Thread) i t f : ts !! i = Some t -> alter f i ts = <[i := f t]> ts.
Proof.
  intros Hi. apply list_eq. intros j. destruct (decide (i = j)) as [<-|Hne].
  - rewrite list_lookup_alter_eq, Hi, list_lookup_insert_eq by (by eapply lookup_lt_Some). done.
  - by rewrite list_lookup_alter_ne, list_lookup_insert_ne.
Qed.

(** A created thread is ready, holds no descriptor, and is not the caller. *)
Lemma create_ok b kn m root ts c :
  Inv b kn -> runs kn -> create_thread A (threads kn) m (Some (cur kn)) root true = Some (ts, Some c) ->
  Inv b (set_threads kn ts) /\ runs (set_threads kn ts) /\ (0 < c)%nat /\ c <> cur kn /\
  exists t, ts !! c = Some t /\ idle t /\ state (kernel t) = Ready /\ cpu_hash (kernel t) = 0 /\ tid (kernel t) = Z.of_nat c.
Proof.
  intros HI Hr. unfold create_thread. destruct (runs_current kn Hr) as (p & Ep & Hp). rewrite Ep. cbn [mbind option_bind].
  destruct (find_unused (threads kn)) as [i|] eqn:E; [|done]. apply find_unused_spec in E as (t & Et & Hu).
  rewrite (alter_put _ _ _ _ Et). intros [= <- ->]. set (t' := mkT _ _).
  pose proof (inv_slots _ _ HI _ _ Et) as [H1 H2 H3 H4]. assert (idle t) as Hid by (apply H3; by left).
  assert (c <> cur kn) as Hc by (intros ->; rewrite Ep in Et; injection Et as ->; tauto).
  assert (0 < c)%nat as H0.
  { destruct (decide (c = 0%nat)) as [->|]; [|lia]. destruct (H4 eq_refl); congruence. }
  split; [|split; [|split; [done|split; [done|]]]].
  - apply (inv_put b kn c t t'); [done|done| |by intros ??|done].
    split; [done|done|by intros []|lia].
  - apply runs_put; [by intros ? ->|done].
  - exists t'. split; [by rewrite list_lookup_insert_eq by (by eapply lookup_lt_Some)|]. done.
Qed.

(** The child's table is the parent's, each entry with one more reference. *)
Lemma dup_ok b kn c (p t : Thread) :
  held_ok b -> Inv b kn -> threads kn !! c = Some t -> idle t -> (0 < c)%nat -> table_wf (table (kernel p)) ->
  match dup_all_fds (table (kernel p)) (glob kn) with
  | Val (g, tb) => balanced (others b kn t) g tb /\ tb = table (kernel p)
  | _ => True
  end.
Proof.
  intros Hb HI Hc Hid H0 Hp. unfold dup_all_fds. unfold mbind, M_bind.
  pose proof (others_bound b kn c t) as Hob. pose proof (others_roomy b kn c t Hb HI Hc H0) as Hro.
  pose proof (share_all_effect (fds (table (kernel p))) _ (glob kn) Hro (inv_gwf _ _ HI) (proj2 Hp)) as Hs.
  destruct (share_all (fds (table (kernel p))) (glob kn)) as [[g u]| |]; [|done|done]. cbn. split; [|done].
  destruct Hs as [Hg Hm].
  { intros r Hv. rewrite (inv_counts _ _ HI r Hv). specialize (Hob r Hb HI Hc H0). unfold others in Hob.
    rewrite (idle_count r t Hid) in Hob. pose proof (count_range r (fds (table (kernel p)))) as Hcr.
    rewrite (proj1 Hp) in Hcr. change (Z.of_nat MAX_FDS) with 64 in Hcr. unfold U16_MAX. lia. }
  split; [done|]. split; [done|]. intros r Hv. rewrite Hm, (inv_counts _ _ HI r Hv) by done. unfold others.
  rewrite (idle_count r t Hid). lia.
Qed.

Lemma two_threads (ts : list Thread) i j x y :
  get_two_threads ts i j = Some (x, y) -> i <> j /\ ts !! i = Some x /\ ts !! j = Some y.
Proof.
  unfold get_two_threads. destruct (_ && _) eqn:E; [|done]. apply andb_true_iff in E as [[E%negb_true_iff _]%andb_true_iff _].
  apply Nat.eqb_neq in E. intros (x' & Hx & (y' & Hy & [= <- <-])%bind_Some)%bind_Some. done.
Qed.

Lemma handle_fork_after b r c child_stack on_done :
  held_ok b ->
  triple True (fun kn => cur kn = c /\ Inv b kn /\ runs kn) (handle_fork A r c child_stack on_done)
    (fun '(_, next) kn => after b next kn).
Proof.
  intros Hb kn (<- & HI & Hr). unfold handle_fork. run. destruct (user_fork A (mach kn)) as [m root].
  unfold on_mach. run. destruct (create_thread A (threads kn) m (Some (cur kn)) root true) as [[ts [c|]]|] eqn:Ec; [| |done].
  2:{ split; [by eapply inv_side|done]. }
  destruct (create_ok b kn m root ts c HI Hr Ec) as (HI1 & Hr1 & H0 & Hc & ct & Ect & Hid & Hst & Hh & Ht).
  set (kn1 := set_threads kn ts) in *. cbn.
  destruct (get_two_threads ts (cur kn) c) as [[p ct']|] eqn:E2; [|done]. apply two_threads in E2 as (_ & Ep & Ect').
  rewrite Ect in Ect'. injection Ect' as <-. unfold on_glob, zoom. cbn.
  pose proof (dup_ok b kn1 c p ct Hb HI1 Ect Hid H0 (slot_table _ _ (inv_slots _ _ HI1 _ _ Ep))) as Hdup.
  change (glob kn1) with (glob kn) in Hdup.
  destruct (dup_all_fds (table (kernel p)) (glob kn)) as [[g tb]| |]; [|done|done]. destruct Hdup as [Hbal ->].
  set (ct' := mkT (set_table (set_regs (kernel ct) _) _) _).
  assert (Inv b (set_glob (set_threads kn1 (<[c := ct']> ts)) g)) as HI2.
  { apply (inv_assign b kn1 g c ct ct'); [done|done| | |done].
    - split; [apply Hbal|done|cbn; rewrite Hst; by intros []|lia].
    - intros _ _. unfold cpu_hash_ok. cbn. by rewrite Hh. }
  unfold on_thread, thread_at, put_thread. run. cbn. rewrite list_lookup_insert_ne, Ep by done.
  destruct (update_ok b _ (fun k => set_state k Ready) p HI2) as [_ HI3].
  { cbn. by rewrite list_lookup_insert_ne. }
  { pose proof (runs_thread kn1 p Hr1 Ep) as Hd. apply active_not_dead in Hd. tauto. }
  { done. } { done. } { by intros []. }
  split; [by apply (inv_side _ _ _ HI3)|]. destruct c as [|c]; [lia|]. unfold state_of. cbn [threads set_threads set_glob].
  rewrite list_lookup_insert_ne, list_lookup_insert_eq by (done || by eapply lookup_lt_Some). cbn. by rewrite Hst.
Qed.

(** * Exiting *)

(** Replacing the personality, the registers or the exit code of the running
    thread. *)
Definition harmless (t t' : Thread) : Prop :=
  table (kernel t') = table (kernel t) /\ tid (kernel t') = tid (kernel t) /\ state (kernel t') = state (kernel t).

Lemma inv_harmless b kn t t' :
  Inv b kn -> threads kn !! cur kn = Some t -> harmless t t' -> Inv b (set_threads kn (<[cur kn := t']> (threads kn))).
Proof.
  intros HI E (Ht & Hi & Hs). eapply inv_put; [done|exact E| |by intros []|done].
  eapply slot_same; [by apply (inv_slots _ _ HI)|done|done|by left].
Qed.

(** The running thread is a used one, though it may be on its way out. *)
Definition exiting (b : ref -> Z) (c : nat) (kn : Kern) : Prop :=
  cur kn = c /\ Inv b kn /\ state_of (threads kn) c <> Some Unused.

Lemma exiting_side b c kn kn' :
  exiting b c kn -> threads kn' = threads kn -> glob kn' = glob kn -> cur kn' = cur kn -> exiting b c kn'.
Proof. intros (Hc & HI & Hs) Ht Hg Hcur. split; [congruence|]. split; [by apply (inv_side _ _ _ HI)|by rewrite Ht]. Qed.

Lemma exiting_put b c kn kn' t t' :
  exiting b c kn -> threads kn !! c = Some t -> threads kn' = <[c := t']> (threads kn) -> glob kn' = glob kn ->
  cur kn' = cur kn -> harmless t t' -> exiting b c kn'.
Proof.
  intros (Hc & HI & Hs) E Ht Hg Hcur Hh. split; [congruence|]. subst c. split.
  - by apply (inv_side _ _ _ (inv_harmless b kn t t' HI E Hh)).
  - unfold state_of in *. rewrite Ht, list_lookup_insert_eq by (by eapply lookup_lt_Some). cbn. rewrite E in Hs. cbn in Hs.
    by destruct Hh as (_ & _ & ->).
Qed.

Ltac put_same H E := by eapply (exiting_put _ _ _ _ _ _ H E).

Lemma hand_back_vga_ok b c ptid : keeps True (exiting b c) (hand_back_vga D c ptid).
Proof.
  intros kn H. unfold hand_back_vga, thread_at, on_mach, put_thread, assert_none. run.
  destruct (threads kn !! c) as [t|] eqn:E; [|done]. destruct (personality t) as [d|l|o|w]; try done.
  destruct (release_for_parent_replace D d (mach kn)) as [[d' m] v]. cbn. destruct (exiting_display kn); [done|]. cbn.
  destruct (c =? focus kn)%nat; cbn; put_same H E.
Qed.

Lemma give_up_display_ok b c : keeps True (exiting b c) (give_up_display D c).
Proof.
  intros kn H. unfold give_up_display, thread_at, on_mach, put_thread, assert_none. run.
  destruct (threads kn !! c) as [t|] eqn:E; [|done]. destruct (personality t) as [d|l|o|w]; try done.
  destruct (dos_release_display D d (mach kn)) as [[d' m] v]. cbn. destruct (exiting_display kn); [done|]. put_same H E.
Qed.

Lemma give_up_card_ok b c : keeps True (exiting b c) (give_up_card D c).
Proof.
  intros kn H. unfold give_up_card, thread_at, on_mach, put_thread, assert_none. run.
  destruct (threads kn !! c) as [t|] eqn:E; [|done]. destruct (personality t) as [d|l|o|w]; try done.
  destruct (dos_release_card D d (mach kn)) as [[d' m] [v|]]; cbn; [destruct (sb_handoff kn); [done|]|]; cbn; put_same H E.
Qed.

Lemma dos_exit_ok b c cap : keeps True (exiting b c) (dos_exit D c cap).
Proof.
  intros kn H. unfold dos_exit, thread_at, on_mach, put_thread. run.
  destruct (threads kn !! c) as [t|] eqn:E; [|done]. destruct (personality t) as [d|l|o|w]; try done.
  destruct (dos_on_exit D d (regs (kernel t)) (mach kn) cap) as [[d' r] m]. cbn. put_same H E.
Qed.

Definition idle_at (c : nat) (kn : Kern) : Prop := exists t, threads kn !! c = Some t /\ idle t.

Lemma close_thread_fds_ok b c :
  held_ok b -> triple True (exiting b c) (close_thread_fds net_close c) (fun _ kn => exiting b c kn /\ idle_at c kn).
Proof.
  intros Hb kn (<- & HI & Hs). unfold close_thread_fds, thread_at, on_glob, zoom, put_thread. run.
  destruct (threads kn !! cur kn) as [t|] eqn:E; [|done].
  pose proof (close_where_balanced net_close (others b kn t) (fun _ => true) (seq 0 MAX_FDS) (glob kn) (table (kernel t))
                (others_roomy b kn _ t Hb HI E (inv_cur _ _ HI)) (inv_balanced b kn _ t HI E)) as Hcl.
  unfold close_all_fds. destruct (close_where _ _ _ _ _) as [[g tb]| |]; [|done|done]. destruct Hcl as (Hbal & Hno & _).
  set (t' := on_kernel (fun k => set_table k tb) t).
  assert (idle t') as Hid.
  { apply list_eq. intros i. destruct (decide (i < MAX_FDS)%nat) as [Hi|Hi].
    - rewrite lookup_replicate_2 by done. apply Hno; [|done|done]. apply elem_of_seq. lia.
    - rewrite (lookup_ge_None_2 (replicate _ _)) by (rewrite length_replicate; lia). apply lookup_ge_None. destruct Hbal as (_ & [Hl _] & _). cbn. lia. }
  pose proof (inv_slots _ _ HI _ _ E) as [H1 H2 H3 H4]. pose proof (inv_cur _ _ HI) as Hpos. split; [split; [done|split]|].
  - apply (inv_assign b kn g (cur kn) t t' HI E); [|by intros []|done].
    split; [apply Hbal|done|done|lia].
  - unfold state_of in *. cbn. rewrite list_lookup_insert_eq by (by eapply lookup_lt_Some). by rewrite E in Hs.
  - exists t'. split; [|done]. cbn. by rewrite list_lookup_insert_eq by (by eapply lookup_lt_Some).
Qed.

(** [w] tells that thread [q] was woken by the exit of [c]. *)
Definition woke_ok (c q : nat) (w : bool) (kn : Kern) : Prop :=
  w = true -> q <> c /\ state_of (threads kn) q = Some Ready.

(** A thread other than the one that exits, woken or told of the exit. *)
Lemma wake_parent_ok b c ptid code :
  triple True (fun kn => exiting b c kn /\ idle_at c kn) (wake_parent D c ptid code)
    (fun w kn => exiting b c kn /\ idle_at c kn /\ woke_ok c (Z.to_nat ptid) w kn).
Proof.
  intros kn [(<- & HI & Hs) Hid]. unfold wake_parent. destruct (valid_parent ptid && _) eqn:Ev; [|by split_and!].
  apply andb_true_iff in Ev as [_ Hne%negb_true_iff%Nat.eqb_neq]. set (q := Z.to_nat ptid) in *.
  unfold thread_at, put_thread. run. destruct (threads kn !! cur kn) as [t|] eqn:E; [|done]. cbn.
  destruct (threads kn !! q) as [p|] eqn:Ep; [|done]. cbn.
  set (p' := note_child_status D code _). cbn.
  assert (Inv b (set_threads kn (<[q := p']> (threads kn)))) as HI'.
  { pose proof (inv_slots _ _ HI _ _ Ep) as Hslot. unfold p', note_child_status, woken. case_bool_decide as Hb.
    - assert (0 < q)%nat as Hq.
      { destruct (decide (q = 0%nat)) as [e|]; [|lia]. destruct (slot_init _ _ Hslot e). congruence. }
      destruct (personality p); cbn; (eapply inv_put; [done|exact Ep| | |done]);
        try (eapply slot_same; [exact Hslot|done|done|right; rewrite Hb; split; [done|split; [by intros []|done]]]);
        intros _ _; unfold cpu_hash_ok; cbn; by rewrite Z.eqb_refl, orb_true_r.
    - destruct (personality p); (eapply inv_put; [done|exact Ep| | |done]);
        try (eapply slot_same; [exact Hslot|done|done|by left]); apply (inv_hash _ _ HI _ _ Ep). }
  split; [split; [done|split; [done|]]|split].
  - unfold state_of in *. cbn. by rewrite list_lookup_insert_ne.
  - destruct Hid as (t0 & Ht0 & Hid). exists t0. cbn. by rewrite list_lookup_insert_ne.
  - intros Hw%bool_decide_eq_true_1. split; [done|]. unfold state_of. cbn.
    rewrite list_lookup_insert_eq by (by eapply lookup_lt_Some). cbn. unfold p', note_child_status, woken.
    rewrite bool_decide_eq_true_2 by done. by destruct (personality p).
Qed.

(** The last assignment: exited, with nothing left open. *)
Lemma become_zombie b c q w :
  triple True (fun kn => exiting b c kn /\ idle_at c kn /\ woke_ok c q w kn) (on_thread c (fun k => set_state k Zombie))
    (fun _ kn => Inv b kn /\ woke_ok c q w kn).
Proof.
  intros kn ((<- & HI & Hs) & (t & E & Hid) & Hw). unfold on_thread, thread_at, put_thread. run. rewrite E. cbn. split.
  2:{ intros [Hq Hr]%Hw. split; [done|]. unfold state_of in *. cbn. by rewrite list_lookup_insert_ne. }
  eapply inv_put; [done|exact E| |by intros []|done]. eapply slot_same; [by apply (inv_slots _ _ HI)|done|done|].
  right. unfold state_of in Hs. rewrite E in Hs. split; [intros Hu; apply Hs; cbn; by rewrite Hu|].
  split; [done|apply (inv_cur _ _ HI)].
Qed.

(** An assignment to the thread that exits. *)
Lemma on_thread_exiting b c f :
  (forall k, table (f k) = table k /\ tid (f k) = tid k /\ state (f k) = state k) ->
  keeps True (fun kn => exiting b c kn /\ idle_at c kn) (@on_thread Mach Space Fx Dos Os2 Win Sym Vga Handoff Card W N c f).
Proof.
  intros Hf kn [Hex (t & E & Hid)]. unfold on_thread, thread_at, put_thread. run. rewrite E. cbn.
  destruct (Hf (kernel t)) as (Ht & Hi & Hst). split.
  - by eapply (exiting_put _ _ _ _ _ _ Hex E).
  - exists (on_kernel f t). cbn. rewrite list_lookup_insert_eq by (by eapply lookup_lt_Some). split; [done|].
    unfold idle. cbn. by rewrite Ht.
Qed.

Lemma exit_thread_after b c code :
  held_ok b ->
  triple True (fun kn => exiting b c kn) (exit_thread A D net_close c code) (fun n kn => after b (Some n) kn).
Proof.
  intros Hb. unfold exit_thread.
  eapply triple_bind with (R := fun _ => exiting b c).
  { intros kn H. unfold thread_at. run. by destruct (threads kn !! c). }
  intros t. eapply triple_bind with (R := fun _ => exiting b c).
  { intros kn H. destruct (valid_parent _); [|done]. unfold thread_at. run. by destruct (threads kn !! Z.to_nat (parent_tid (kernel t))). }
  intros parent_dos. eapply triple_bind with (R := fun _ => exiting b c).
  { destruct (_ && _); [apply hand_back_vga_ok|apply keeps_ret]. }
  intros _. eapply triple_bind with (R := fun _ => exiting b c); [by intros kn H|].
  intros kn0. eapply triple_bind with (R := fun _ => exiting b c).
  { destruct (_ && _); [apply give_up_display_ok|apply keeps_ret]. }
  intros ?. eapply triple_bind; [apply give_up_card_ok|].
  intros ?. eapply triple_bind; [apply dos_exit_ok|].
  intros ?. eapply triple_bind; [by apply close_thread_fds_ok|].
  intros ?. eapply triple_bind; [by apply on_thread_exiting|].
  intros ?. eapply triple_bind; [apply wake_parent_ok|].
  intros w. set (q := Z.to_nat (parent_tid (kernel t))).
  eapply triple_bind with (R := fun _ kn => exiting b c kn /\ idle_at c kn /\ woke_ok c q w kn).
  { intros kn (Hex & Hid & Hw). split; [by apply (exiting_side _ _ _ _ Hex)|done]. }
  intros ?. eapply triple_bind; [apply become_zombie|]. intros ?. cbn beta.
  eapply triple_bind with (R := fun to kn => Inv b kn /\ (to = true -> active (state_of (threads kn) q) = true)).
  - intros kn [HI Hw]. destruct (valid_parent _); [|done]. unfold thread_at. run. fold q.
    destruct (threads kn !! q) as [p|] eqn:Ep; [|done]. cbn. split; [done|]. unfold state_of. rewrite Ep. cbn.
    intros [->|Hst]%orb_true_iff; [|by destruct (state (kernel p))]. destruct (Hw eq_refl) as [_ Hr].
    unfold state_of in Hr. rewrite Ep in Hr. by injection Hr as ->.
  - intros [] kn [HI Hto]; [split; [done|]; fold q; destruct q; [done|by apply Hto]|].
    pose proof (run_schedule_after b c kn HI) as Hs. unfold mbind, M_bind. by destruct (run_schedule c kn) as [[kn' [j|]]| |].
Qed.

(** * Switching *)

Lemma exec_switch_ok b n :
  triple True (fun kn => Inv b kn /\ (0 < n)%nat /\ active (state_of (threads kn) n) = true)
    (exec_switch_to A D n) (fun _ kn => Inv b kn /\ runs kn).
Proof.
  intros kn (HI & Hn & Hact). unfold exec_switch_to. run. destruct (Nat.eqb_spec n (cur kn)) as [->|Hne]; [done|].
  destruct (get_two_threads (threads kn) (cur kn) n) as [[o t]|] eqn:E; [|done]. apply two_threads in E as (_ & Eo & En).
  destruct (activate A (space (kernel t)) (fx_state (kernel t)) (mach kn)) as [[m sp] fx].
  destruct (on_resume A D (personality t) m) as [np m']. cbn. set (n' := mkT _ np). set (o' := mkT _ (personality o)).
  pose proof (inv_len _ _ HI) as Hl. pose proof (lookup_lt_Some _ _ _ En) as Hlt.
  assert (Inv b (set_threads kn (<[cur kn := o']> (threads kn)))) as HI1.
  { eapply inv_put; [done|exact Eo| |by intros []|done]. eapply slot_same; [by apply (inv_slots _ _ HI)|done|done|by left]. }
  assert (threads (set_threads kn (<[cur kn := o']> (threads kn))) !! n = Some t) as En1 by (cbn; by rewrite list_lookup_insert_ne).
  assert (Inv b (set_threads kn (<[n := n']> (<[cur kn := o']> (threads kn))))) as HI2.
  { apply (inv_side b (set_threads (set_threads kn (<[cur kn := o']> (threads kn))) (<[n := n']> (<[cur kn := o']> (threads kn)))));
      [|done|done|done].
    eapply inv_put; [done|exact En1| | |done].
    - eapply slot_same; [by apply (inv_slots _ _ HI)|done|done|by left].
    - apply (inv_hash _ _ HI _ _ En). }
  destruct HI2 as [H1 H2 H3 H4 H5 H6]. split.
  - split; cbn; [done|done|done|done| |done]. intros j u Hj. destruct (decide (j = cur kn)) as [->|Hj'].
    + rewrite list_lookup_insert_ne, list_lookup_insert_eq in Hj by (done || by eapply lookup_lt_Some). injection Hj as <-.
      intros _ _. unfold cpu_hash_ok. cbn. by rewrite Z.eqb_refl, orb_true_r.
    + intros _. by apply (H5 j u Hj).
  - unfold runs, state_of. cbn. rewrite list_lookup_insert_eq by (by rewrite length_insert). cbn.
    unfold state_of in Hact. by rewrite En in Hact.
Qed.

(** * Turns *)

Lemma next_after_ok b c a :
  held_ok b ->
  triple True (fun kn => cur kn = c /\ Inv b kn /\ runs kn /\ op_ok (Act a)) (next_after A D net_close fork_exec exec_image c a)
    (fun v kn => after_verdict b v kn).
Proof.
  intros Hb kn (<- & HI & Hr & Hop).
  assert (cur kn = cur kn /\ Inv b kn /\ runs kn) as Hk by done.
  destruct a as [| |code|on_done stack|n|path tail nm v e su|bf path args cwd|pid' ptr|pid' op]; cbn [next_after]; try done.
  - exact (yield_after b kn (conj HI Hr)).
  - assert (exiting b (cur kn) kn) as Hex.
    { split; [done|]. split; [done|]. unfold runs in Hr. intros E. by rewrite E in Hr. }
    pose proof (exit_thread_after b (cur kn) code Hb kn Hex) as H. unfold mbind, M_bind.
    by destruct (exit_thread A D net_close (cur kn) code kn) as [[kn' n]| |].
  - apply (after_map b _ (fun k => cur k = cur kn /\ Inv b k /\ runs k)); [|done]. apply with_live_after. intros r. by apply handle_fork_after.
  - apply (after_map b _ (fun k => cur k = cur kn /\ Inv b k /\ runs k)); [|done]. apply with_live_after. intros r. apply handle_wait_after.
  - apply (after_map b _ (fun k => cur k = cur kn /\ Inv b k /\ runs k)); [|done]. apply with_live_after. intros r. apply handle_synth_after.
Qed.

(** What the verdict asks for can be done. *)
Definition verdict_ok (v : Verdict) (kn : Kern) : Prop :=
  match v with
  | Stay => runs kn
  | VSwitch n => (0 < n)%nat /\ active (state_of (threads kn) n) = true
  | ContinueAs _ => False
  | AllDead => True
  end.

Lemma verdict_after b c a :
  held_ok b ->
  triple True (fun kn => cur kn = c /\ Inv b kn /\ runs kn /\ op_ok (Act a)) (verdict A D net_close fork_exec exec_image c a)
    (fun v kn => Inv b kn /\ verdict_ok v kn).
Proof.
  intros Hb. unfold verdict. eapply triple_bind; [by apply next_after_ok|]. intros [[|[|n]|n|]|]; cbn beta; [by intros kn []|by intros kn []| |by intros kn []|by intros kn []|].
  - intros kn [HI Ha]. split; [done|]. split; [lia|exact Ha].
  - intros kn [HI Hr]. run. unfold focus_request, take_switch_target. destruct (0 <=? switch_to kn); cbn; [|split; [by eapply inv_side|done]].
    destruct (_ && active _) eqn:Ef; [|split; [by eapply inv_side|done]]. apply andb_true_iff in Ef as [_ Ha].
    destruct (Z.to_nat (switch_to kn)) eqn:En; (split; [by eapply inv_side|]); [done|]. split; [lia|exact Ha].
Qed.

Theorem turn_ok b op :
  held_ok b ->
  triple True (fun kn => Inv b kn /\ runs kn /\ op_ok op) (turn op)
    (fun go kn => Inv b kn /\ (go = true -> runs kn)).
Proof.
  intros Hb. assert (forall (m : K ()), keeps True (fun kn => Inv b kn /\ runs kn) m ->
    triple True (fun kn => Inv b kn /\ runs kn /\ op_ok op) (_ ← m; mret true) (fun go kn => Inv b kn /\ (go = true -> runs kn))) as Hgo.
  { intros m Hm. eapply triple_bind; [eapply triple_conseq; [exact Hm|by intros kn (? & ? & _)|by intros ? kn H; exact H]|].
    intros ? kn [HI Hr]. by split. }
  destruct op as [path|fd|flag|o n|fd cmd arg| |a]; cbn [turn]; [apply Hgo..|].
  - apply on_table_ok; [done|]. intros b' g t. by apply sys_open_balanced.
  - apply on_table_ok; [done|]. intros b' g t. apply sys_close_balanced.
  - apply on_table_ok; [done|]. apply sys_pipe_balances.
  - apply on_table_ok; [done|]. intros b' g t. apply sys_dup2_balanced.
  - apply on_table_ok; [done|]. intros b' g t. apply sys_fcntl_balanced.
  - apply after_input_ok.
  - intros kn (HI & Hr & Hop). unfold mbind at 1, M_bind at 1. cbn [gets].
    assert (triple True (fun kn => Inv b kn /\ verdict_ok AllDead kn) (_ ← finish; mret false) (fun go kn => Inv b kn /\ (go = true -> runs kn))) as Hfin.
    { eapply triple_bind; [eapply triple_conseq; [apply (finish_ok b)|by intros ? []|by intros ? ? H; exact H]|]. intros ? kn' HI'. by split. }
    apply (triple_bind True (fun kn' => cur kn' = cur kn /\ Inv b kn' /\ runs kn' /\ op_ok (Act a)) _ _
             (fun v kn => Inv b kn /\ verdict_ok v kn)); [by apply verdict_after| |done].
    intros [|n|n|]; [by intros kn' []| |by intros kn' []|exact Hfin].
    eapply triple_bind; [eapply triple_conseq; [apply (exec_switch_ok b n)|by intros ? (? & ? & ?)|by intros ? ? H; exact H]|].
    intros ? kn' [HI' Hr']. by split.
Qed.

End Turns.
