(* ===== verification/ThreadFacts.v ===== *)
(** What the thread table promises: the claims about the scheduler, fork,
    exit and wait, and the execution context, with a small machine they are
    run on. *)

From Stdlib Require Import ZArith Lia Bool.
From stdpp Require Import base option list numbers gmap relations.
From S2P Require Import Prelude Path Effect Pipe KPipe Vfs VfsInv Fd Thread ThreadInv.

Section Claims.
Context {Mach Space Fx Dos Os2 Win Sym Vga Handoff Card : Type}.
Local Abbreviation Arch := (@Arch Mach Space Fx).
Local Abbreviation DosOps := (@DosOps Mach Dos Os2 Win Vga Handoff Card).
Local Abbreviation Thread := (@Thread Space Fx Dos Os2 Win Sym).
Context (A : Arch) (D : DosOps).
Context {W N : Type} (net_close : Z -> N -> N) (fuel : nat).
Local Abbreviation Kern := (@Kern Mach Space Fx Dos Os2 Win Sym Vga Handoff Card W N).
Implicit Types (kn : Kern) (ts : list Thread) (t : Thread).
Context (fork_exec : Path -> Path -> option PersonalityName -> Z -> (Regs -> Z -> Regs) -> (Regs -> Z -> Regs) ->
                     nat -> Regs -> M Kern (Regs * option nat))
        (exec_image : Path -> Path -> list Path -> Path -> nat -> Regs -> M Kern (Regs * option nat)).

Local Abbreviation reaches := (rtc (kstep A D net_close fuel fork_exec exec_image)).

Lemma steps_inv b kn kn' : held_ok b -> Inv b kn -> runs kn -> reaches kn kn' -> Inv b kn' /\ runs kn'.
Proof.
  intros Hb HI Hr Hs. revert HI Hr. induction Hs as [|kn kn1 kn' [kn0 op kn2 Hop Ht] _ IH]; [done|]. intros HI Hr.
  pose proof (turn_ok A D net_close fuel fork_exec exec_image b op Hb kn0 (conj HI (conj Hr Hop))) as H. rewrite Ht in H.
  destruct H as [HI1 Hr1]. by apply IH; [|apply Hr1].
Qed.

(** * The table *)

(** C18: the thread table stays well formed.  From a state with the invariant,
    whatever turns of these kinds the event loop takes - Linux open, close,
    pipe, dup2 and fcntl, a read completed by input, yield, fork, wait, exit
    and the child calls of a DOS program, not the loads of a program - the table
    keeps its 1024 slots; a used slot carries its own number; every descriptor
    table has 64 entries that name pipes and files in range; exited and unused
    slots hold no descriptor at all (the contract of [reap]); slot 0 stays the
    idle thread; and the processor is lent to a thread that is ready, running
    or blocked, never to an exited one. *)
Theorem thread_table_wf b kn kn' :
  held_ok b -> Inv b kn -> runs kn -> reaches kn kn' ->
  length (threads kn') = MAX_THREADS /\ (forall i t, threads kn' !! i = Some t -> slot_ok i t) /\
  (0 < cur kn')%nat /\ active (state_of (threads kn') (cur kn')) = true.
Proof.
  intros Hb HI Hr Hs. destruct (steps_inv b kn kn' Hb HI Hr Hs) as [[Hl Hsl _ _ _ Hc] Hr']. done.
Qed.

(** C1: references are counted exactly.  From a state with the invariant,
    whatever turns of these kinds the event loop takes - Linux open, close,
    pipe, dup2 and fcntl, a read completed by input, yield, fork, wait, exit
    and the child calls of a DOS program, not the loads of a program - the count
    of every pipe end and open file is the number of descriptors, over the
    whole table, that name it, plus what the kernel holds (at most 60); so a
    pipe end or open file that a descriptor names has a positive count, and
    neither a pipe nor a file slot is given out again while a descriptor names
    it.  Directory and socket handles are not covered: duplicating and forking
    do not count them ([dup2_dir_dangles]). *)
Theorem references_counted b kn kn' :
  held_ok b -> Inv b kn -> runs kn -> reaches kn kn' ->
  (forall r, valid_ref r -> rc (glob kn') r = b r + total r (threads kn')) /\
  (forall i t k r, threads kn' !! i = Some t -> k ∈ fds (table (kernel t)) -> kref k = Some r -> 0 < rc (glob kn') r).
Proof.
  intros Hb HI Hr Hs. destruct (steps_inv b kn kn' Hb HI Hr Hs) as [HI' _]. split; [apply (inv_counts _ _ HI')|].
  intros i t k r Hi Hk Hr0. apply list_elem_of_lookup in Hk as [j Hj].
  pose proof (slot_table _ _ (inv_slots _ _ HI' _ _ Hi)) as Hwf. pose proof (table_wf_lookup _ _ _ _ Hwf Hj Hr0) as Hv.
  rewrite (inv_counts _ _ HI' r Hv). pose proof (count_lookup r _ _ _ Hj) as Hc. rewrite names_self in Hc by done.
  pose proof (total_others r _ _ _ (inv_tables _ _ HI') Hi). destruct (Hb r). lia.
Qed.

(** Saved registers stay as they were saved.  In every state those turns reach,
    the check made at a switch passes for every thread that can be switched
    to: its saved registers hash to what was recorded (or nothing was recorded
    yet).  The wake-up of a waiting parent, which does write into a parked
    frame, renews the hash; a program load, which is not among the turns, does
    not. *)
Theorem switch_in_unmodified b kn kn' i t :
  held_ok b -> Inv b kn -> runs kn -> reaches kn kn' ->
  threads kn' !! i = Some t -> i <> cur kn' -> active (Some (state (kernel t))) = true -> cpu_hash_ok (kernel t) = true.
Proof.
  intros Hb HI Hr Hs Hi. destruct (steps_inv b kn kn' Hb HI Hr Hs) as [HI' _]. apply (inv_hash _ _ HI' _ _ Hi).
Qed.

(** * The scheduler *)

Definition candidate (c i : nat) t : bool := negb (i =? c)%nat && bool_decide (state (kernel t) = Ready).

Lemma schedule_loop_some ts i c sd n next :
  0 <= n -> n + Z.of_nat (length ts) < 2 ^ 64 ->
  (next <> None \/ (n = 0 /\ exists k t, ts !! k = Some t /\ candidate c (i + k) t = true)) ->
  exists sd' j, schedule_loop ts i c sd n next = (sd', Some j).
Proof.
  revert i sd n next; induction ts as [|t ts IH]; intros i sd n next Hn Hl H; cbn [schedule_loop length] in *.
  { destruct H as [H|(_ & k & t & Hk & _)]; [|done]. destruct next as [j|]; [|done]. by exists sd, j. }
  assert (u64 (n + 1) = n + 1) as Hu by (apply wrap_small; unfold fits; lia).
  change ((i =? c)%nat || negb _) with ((i =? c)%nat || negb (bool_decide (state (kernel t) = Ready))).
  destruct (candidate c i t) eqn:Ec; unfold candidate in Ec.
  - apply andb_true_iff in Ec as [E1%negb_true_iff E2]. rewrite E1, E2. cbn [orb negb]. rewrite Hu. apply IH; [lia|lia|].
    left. rewrite (proj2 (Z.eqb_neq (n + 1) 0)) by lia. destruct H as [H|(-> & _)]; [by destruct (_ =? 0)|].
    by rewrite Z.mod_1_r.
  - assert ((i =? c)%nat || negb (bool_decide (state (kernel t) = Ready)) = true) as ->.
    { apply andb_false_iff in Ec as [E%negb_false_iff|E]; rewrite E; [done|]. by destruct (i =? c)%nat. }
    apply IH; [lia|lia|]. destruct H as [H|(-> & k & t' & Hk & Hc)]; [by left|]. right. split; [done|].
    destruct k as [|k]; [injection Hk as ->; rewrite Nat.add_0_r in Hc; unfold candidate in Hc; congruence|].
    exists k, t'. by rewrite Nat.add_succ_r in Hc.
Qed.

(** The scheduler finds a thread when there is one.  A choice is a ready
    thread other than the caller, never slot 0, and [None] is returned only
    when every other thread is not ready. *)
Theorem schedule_complete ts c sd :
  length ts = MAX_THREADS ->
  match snd (schedule ts c sd) with
  | Some j => (0 < j)%nat /\ j <> c /\ state_of ts j = Some Ready
  | None => forall j, (0 < j)%nat -> j <> c -> state_of ts j <> Some Ready
  end.
Proof.
  intros Hl. destruct (schedule ts c sd) as [sd' [j|]] eqn:E; cbn [snd]; [by apply schedule_ready in E|].
  intros j H0 Hc Hj. unfold state_of in Hj. apply fmap_Some in Hj as (t & Hj & Hst). unfold schedule in E.
  destruct (schedule_loop_some (drop 1 (take MAX_THREADS ts)) 1 c sd 0 None) as (sd1 & j1 & Hs); [lia| | |congruence].
  { rewrite length_drop, length_take, Hl. by vm_compute. }
  right. split; [done|]. exists (j - 1)%nat, t. replace (1 + (j - 1))%nat with j by lia.
  rewrite lookup_drop. replace (1 + (j - 1))%nat with j by lia.
  rewrite take_ge by lia. split; [done|]. unfold candidate. rewrite bool_decide_eq_true_2 by done.
  by rewrite (proj2 (Nat.eqb_neq j c)).
Qed.

(** ** The generator *)

(** Both constants of the generator are odd: its lowest bit alternates. *)
Lemma prng_parity sd : Z.odd (prng_step sd) = negb (Z.odd sd).
Proof.
  unfold prng_step, u64, wrap. rewrite <- Z.bit0_odd, Z.mod_pow2_bits_low, Z.bit0_odd by lia.
  rewrite Z.odd_add, Z.odd_mul. by destruct (Z.odd sd).
Qed.

(** The ready threads other than the caller are exactly [i] and [j]. *)
Definition two_ready ts (c i j : nat) : Prop :=
  (0 < i < j)%nat /\ forall k t, (0 < k)%nat -> ts !! k = Some t -> candidate c k t = bool_decide (k = i \/ k = j).

Lemma schedule_loop_step t ts i c sd n next :
  schedule_loop (t :: ts) i c sd n next =
  if candidate c i t
  then schedule_loop ts (S i) c (prng_step sd) (u64 (n + 1))
         (if (if u64 (n + 1) =? 0 then prng_step sd =? 0 else prng_step sd mod u64 (n + 1) =? 0) then Some i else next)
  else schedule_loop ts (S i) c sd n next.
Proof.
  cbn [schedule_loop]. unfold candidate. destruct (i =? c)%nat; cbn [orb negb andb]; [done|].
  by destruct (bool_decide (state (kernel t) = Ready)).
Qed.

Lemma schedule_loop_skip ts i c sd n next :
  (forall k t, ts !! k = Some t -> candidate c (i + k) t = false) -> schedule_loop ts i c sd n next = (sd, next).
Proof.
  revert i; induction ts as [|t ts IH]; intros i H; [done|]. rewrite schedule_loop_step.
  pose proof (H 0%nat t eq_refl) as Ht. rewrite Nat.add_0_r in Ht. rewrite Ht. apply IH. intros k t' Hk. rewrite Nat.add_succ_comm.
  by apply (H (S k)).
Qed.

(** The first candidate at [i + k]: what comes before is passed over. *)
Lemma schedule_loop_to ts i k t c sd n next :
  ts !! k = Some t -> (forall k' t', (k' < k)%nat -> ts !! k' = Some t' -> candidate c (i + k') t' = false) ->
  schedule_loop ts i c sd n next = schedule_loop (t :: drop (S k) ts) (i + k) c sd n next.
Proof.
  revert i k; induction ts as [|t0 ts IH]; intros i k Hk H; [done|]. destruct k as [|k].
  - injection Hk as ->. by rewrite Nat.add_0_r.
  - rewrite schedule_loop_step. pose proof (H 0%nat t0 ltac:(lia) eq_refl) as Ht. rewrite Nat.add_0_r in Ht. rewrite Ht.
    rewrite (IH (S i) k Hk); [by rewrite Nat.add_succ_comm|]. intros k' t' Hk' Ht'. rewrite Nat.add_succ_comm.
    apply (H (S k')); [lia|done].
Qed.

(** The scheduler is not random.  With an odd seed - and the seed starts
    odd - a choice between exactly two ready threads always takes the one in
    the lower slot, and leaves the seed odd: of three threads that only
    yield to each other, the one in the highest slot never runs. *)
Theorem schedule_starves ts c i j sd :
  length ts = MAX_THREADS -> (j < MAX_THREADS)%nat -> two_ready ts c i j -> Z.odd sd = true ->
  exists sd', schedule ts c sd = (sd', Some i) /\ Z.odd sd' = true.
Proof.
  intros Hl Hj [[Hi Hij] H] Hodd. unfold schedule. rewrite take_ge by lia.
  assert (forall k, (k < length ts)%nat -> exists t, ts !! k = Some t) as Hat by (intros k Hk; by apply lookup_lt_is_Some_2).
  destruct (Hat i) as [ti Hti]; [lia|]. destruct (Hat j) as [tj Htj]; [lia|].
  rewrite (schedule_loop_to _ 1 (i - 1) ti).
  2:{ rewrite lookup_drop. by replace (1 + (i - 1))%nat with i by lia. }
  2:{ intros k t Hk Ht. rewrite lookup_drop in Ht. rewrite (H _ t) by (lia || done). apply bool_decide_eq_false_2. lia. }
  replace (1 + (i - 1))%nat with i by lia. rewrite schedule_loop_step, (H i ti), bool_decide_eq_true_2 by (auto || lia).
  change (u64 (0 + 1)) with 1. change (1 =? 0) with false. cbn iota. rewrite Z.mod_1_r. cbn [Z.eqb].
  rewrite drop_drop. replace (1 + S (i - 1))%nat with (S i) by lia.
  rewrite (schedule_loop_to _ (S i) (j - S i) tj).
  2:{ rewrite lookup_drop. by replace (S i + (j - S i))%nat with j by lia. }
  2:{ intros k t Hk Ht. rewrite lookup_drop in Ht. rewrite (H _ t) by (lia || done). apply bool_decide_eq_false_2. lia. }
  replace (S i + (j - S i))%nat with j by lia. rewrite schedule_loop_step, (H j tj), bool_decide_eq_true_2 by (auto || lia).
  change (u64 (1 + 1)) with 2. change (2 =? 0) with false. cbn iota.
  assert (Z.odd (prng_step (prng_step sd)) = true) as Hodd2 by (by rewrite !prng_parity, Hodd).
  assert ((prng_step (prng_step sd) mod 2 =? 0) = false) as ->.
  { rewrite Zmod_odd, Hodd2. done. }
  eexists. split; [|exact Hodd2]. rewrite schedule_loop_skip; [done|]. intros k t Hk. rewrite drop_drop, lookup_drop in Hk.
  rewrite (H (S j + k)%nat t); [apply bool_decide_eq_false_2; lia|lia|]. rewrite <- Hk. f_equal. lia.
Qed.

(** * Waiting *)

Lemma lookup_slots ts k t : drop 1 (take MAX_THREADS ts) !! k = Some t -> ts !! S k = Some t.
Proof. rewrite lookup_drop. intros Hk. apply lookup_take_Some in Hk as [Hk _]. exact Hk. Qed.

(** A child of the thread with number [ptid], in any slot but 0. *)
Definition child_at ts (ptid : Z) (i : nat) t : Prop :=
  (0 < i < MAX_THREADS)%nat /\ ts !! i = Some t /\ child_of ptid t = true.

Lemma child_in_slots ts ptid i t :
  child_at ts ptid i t -> drop 1 (take MAX_THREADS ts) !! (i - 1)%nat = Some t.
Proof.
  intros ([H0 H1] & Hi & _). rewrite lookup_drop. replace (1 + (i - 1))%nat with i by lia. by rewrite lookup_take_lt.
Qed.

(** C26: the three answers of a wait.  [waitpid] answers -ECHILD exactly when
    the caller has no child, -EAGAIN when it has some but none that has
    exited and fits, and changes nothing in either case; otherwise it
    answers with the number and exit code of an exited child that fits and
    frees that slot, whose personality is reset, and no other. *)
Theorem waitpid_answers ts m c pid' ct ts' m' r code :
  length ts = MAX_THREADS -> (forall i t, ts !! i = Some t -> slot_ok i t) -> ts !! c = Some ct ->
  waitpid A ts m c pid' = Some (ts', m', (r, code)) ->
  let ptid := tid (kernel ct) in
  let fits t := reapable ptid pid' t = true in
  (r = -10 /\ code = 0 /\ ts' = ts /\ m' = m /\ (forall i t, ~ child_at ts ptid i t)) \/
  (r = -11 /\ code = 0 /\ ts' = ts /\ m' = m /\ (exists i t, child_at ts ptid i t) /\ (forall i t, child_at ts ptid i t -> ~ fits t)) \/
  (exists i t s, child_at ts ptid i t /\ fits t /\ r = Z.of_nat i /\ code = exit_code (kernel t) /\
     destroy_space A (space (kernel t)) m = (m', s) /\
     ts' = <[i := mkT (set_state (set_space (kernel t) s) Unused) (PLinux new_linux)]> ts).
Proof.
  intros Hl Hslot Hc Hw ptid fits. unfold waitpid, peek_zombie_child in Hw. rewrite Hc in Hw. cbn [mbind option_bind] in Hw.
  fold ptid in Hw. set (rest := drop 1 (take MAX_THREADS ts)) in *.
  destruct (list_find (fun t => reapable ptid pid' t = true) rest) as [[k t]|] eqn:Ef; cbn [fst] in Hw.
  - right. right. apply list_find_Some in Ef as (Hk & Hf & _). apply lookup_slots in Hk.
    assert (S k < MAX_THREADS)%nat as Hlt by (rewrite <- Hl; by eapply lookup_lt_Some).
    pose proof Hf as Hf'. unfold reapable in Hf'. apply andb_true_iff in Hf' as [[Hch Hz%bool_decide_eq_true_1]%andb_true_iff _].
    assert (tid (kernel t) = Z.of_nat (S k)) as Ht by (apply (slot_tid _ _ (Hslot _ _ Hk)); by rewrite Hz).
    rewrite Ht in Hw. rewrite (proj2 (Z.leb_le 0 (Z.of_nat (S k)))) in Hw by lia.
    unfold reap in Hw. rewrite (proj2 (Z.ltb_ge (Z.of_nat (S k)) 0)), (proj2 (Z.leb_gt (Z.of_nat MAX_THREADS) _)) in Hw by lia.
    rewrite Nat2Z.id, Hk in Hw. cbn [orb mbind option_bind] in Hw. rewrite bool_decide_eq_true_2 in Hw by done.
    destruct (destroy_space A (space (kernel t)) m) as [m1 s] eqn:Ed. injection Hw as <- <- <- <-.
    exists (S k), t, s. repeat split; (done || lia).
  - apply list_find_None in Ef. destruct (existsb (child_of ptid) rest) eqn:Ex; cbn in Hw; injection Hw as <- <- <- <-.
    + right. left. split; [done|]. split; [done|]. split; [done|]. split; [done|]. split.
      * apply existsb_exists in Ex as (t & Ht & Hch). apply list_elem_of_In, list_elem_of_lookup in Ht as [k Hk].
        apply lookup_slots in Hk. exists (S k), t. split; [|done]. split; [lia|]. rewrite <- Hl. by eapply lookup_lt_Some.
      * intros i t Hi Hf. apply (Forall_lookup_1 _ _ _ _ Ef (child_in_slots _ _ _ _ Hi)). exact Hf.
    + left. split_and!; [done..|]. intros i t Hi. pose proof (child_in_slots _ _ _ _ Hi) as Hk.
      apply not_true_iff_false in Ex. apply Ex, existsb_exists. exists t. split; [|apply Hi].
      apply list_elem_of_In, list_elem_of_lookup. by exists (i - 1)%nat.
Qed.

(** An exited child asked for by its number is what a wait finds. *)
Lemma peek_finds ts p pt c ct :
  length ts = MAX_THREADS -> (forall i t, ts !! i = Some t -> slot_ok i t) -> ts !! p = Some pt -> (0 < c)%nat ->
  ts !! c = Some ct -> state (kernel ct) = Zombie -> parent_tid (kernel ct) = tid (kernel pt) ->
  peek_zombie_child ts p (Z.of_nat c) = Some (Z.of_nat c, exit_code (kernel ct)).
Proof.
  intros Hl Hslot Hp H0 Hc Hz Hpt. unfold peek_zombie_child. rewrite Hp. cbn [mbind option_bind]. f_equal.
  assert (forall i t, ts !! i = Some t -> reapable (tid (kernel pt)) (Z.of_nat c) t = true -> i = c) as Huniq.
  { intros i t Hi Hr. unfold reapable in Hr. apply andb_true_iff in Hr as [[_ Hzt%bool_decide_eq_true_1]%andb_true_iff Ht].
    rewrite (slot_tid _ _ (Hslot _ _ Hi)) in Ht by (by rewrite Hzt). destruct (Z.of_nat c =? -1) eqn:E; [lia|]. cbn in Ht. lia. }
  assert (reapable (tid (kernel pt)) (Z.of_nat c) ct = true) as Hrc.
  { unfold reapable, child_of. rewrite Hpt, Z.eqb_refl, bool_decide_eq_false_2 by (by rewrite Hz). rewrite bool_decide_eq_true_2 by done.
    rewrite (slot_tid _ _ (Hslot _ _ Hc)) by (by rewrite Hz). cbn. by rewrite Z.eqb_refl, orb_true_r. }
  destruct (list_find _ _) as [[k t]|] eqn:Ef.
  - apply list_find_Some in Ef as (Hk & Hr & _). apply lookup_slots in Hk. pose proof (Huniq _ _ Hk Hr) as Hkc.
    rewrite Hkc, Hc in Hk. injection Hk as <-. by rewrite (slot_tid _ _ (Hslot _ _ Hc)) by (by rewrite Hz).
  - apply list_find_None in Ef. exfalso. eapply (Forall_lookup_1 _ _ (c - 1)%nat ct Ef); [|exact Hrc].
    rewrite lookup_drop. replace (1 + (c - 1))%nat with c by lia. rewrite take_ge by lia. exact Hc.
Qed.

(** * Exiting *)

Lemma at_thread kn i t : threads kn !! i = Some t -> thread_at i kn = Val (kn, t).
Proof. intros H. unfold thread_at. by rewrite (run_bind _ _ kn kn (threads kn)), H by done. Qed.

(** A Linux thread that exits without owning the display hands nothing over. *)
Lemma exit_linux kn c t l p pt code g tb :
  threads kn !! c = Some t -> personality t = PLinux l -> parent_tid (kernel t) = Z.of_nat p -> (p < MAX_THREADS)%nat ->
  p <> c -> threads kn !! p = Some pt -> (focus kn = c -> event_display kn = true) ->
  close_all_fds net_close (table (kernel t)) (glob kn) = Val (g, tb) ->
  active (Some (state (kernel pt))) = true ->
  let dead := mkT (set_state (set_exit (set_symbols (set_table (kernel t) tb) None) code) Zombie) (personality t) in
  let blocked := bool_decide (state (kernel pt) = Blocked) in
  exists child, kernel child = set_exit (set_symbols (set_table (kernel t) tb) None) code /\
  exit_thread A D net_close c code kn =
    Val (set_mach (set_glob (set_threads kn
           (<[c := dead]> (<[p := note_child_status D code (if blocked then woken child code pt else pt)]> (threads kn)))) g)
           (free_user_pages A (mach kn)), p).
Proof.
  intros Ht Hl Hpt Hp Hne Hpl Hf Hcl Hact dead blocked.
  set (child := mkT (set_exit (set_symbols (set_table (kernel t) tb) None) code) (personality t)).
  exists child. split; [done|]. pose proof (lookup_lt_Some _ _ _ Ht) as Hlt. pose proof (lookup_lt_Some _ _ _ Hpl) as Hplt.
  assert (valid_parent (Z.of_nat p) = true) as Hv by (unfold valid_parent; apply andb_true_iff; lia).
  assert ((c =? focus kn)%nat && negb (event_display kn) = false) as Hfoc.
  { destruct (Nat.eqb_spec c (focus kn)) as [->|]; [|done]. by rewrite Hf. }
  unfold exit_thread. rewrite (run_bind _ _ _ _ _ (at_thread _ _ _ Ht)). rewrite Hpt, Hv, Nat2Z.id.
  rewrite (run_bind _ _ kn kn (is_dos pt)) by (by rewrite (run_bind _ _ _ _ _ (at_thread _ _ _ Hpl))).
  assert (is_dos t = false) as Hd by (unfold is_dos; by rewrite Hl).
  rewrite Hd, andb_false_r. cbn [andb negb]. rewrite (run_bind _ _ kn kn ()) by done. rewrite (run_bind _ _ kn kn kn) by done.
  rewrite Hfoc. rewrite (run_bind _ _ kn kn ()) by done.
  rewrite (run_bind _ _ kn kn ()) by (unfold give_up_card; rewrite (run_bind _ _ kn kn kn) by done;
    rewrite (run_bind _ _ _ _ _ (at_thread _ _ _ Ht)); by rewrite Hl).
  rewrite (run_bind _ _ kn kn ()) by (unfold dos_exit; rewrite (run_bind _ _ kn kn kn) by done;
    rewrite (run_bind _ _ _ _ _ (at_thread _ _ _ Ht)); by rewrite Hl).
  set (t1 := on_kernel (fun k => set_table k tb) t). set (kn1 := set_threads (set_glob kn g) (<[c := t1]> (threads kn))).
  rewrite (run_bind _ _ kn kn1 ()).
  2:{ unfold close_thread_fds. rewrite (run_bind _ _ _ _ _ (at_thread _ _ _ Ht)).
      rewrite (run_bind _ _ kn (set_glob kn g) tb) by (unfold on_glob, zoom; by rewrite Hcl). done. }
  set (kn2 := set_threads (set_glob kn g) (<[c := child]> (threads kn))).
  rewrite (run_bind _ _ kn1 kn2 ()).
  2:{ unfold on_thread. rewrite (run_bind _ _ kn1 kn1 t1) by (apply at_thread; by apply list_lookup_insert_eq).
      unfold put_thread, modify, kn2, kn1. cbn [threads set_threads]. by rewrite list_insert_insert_eq. }
  set (p' := note_child_status D code (if blocked then woken child code pt else pt)).
  set (kn3 := set_threads (set_glob kn g) (<[p := p']> (<[c := child]> (threads kn)))).
  rewrite (run_bind _ _ kn2 kn3 blocked).
  2:{ unfold wake_parent. rewrite Hv, Nat2Z.id, (proj2 (Nat.eqb_neq p c)) by done. cbn [andb negb].
      rewrite (run_bind _ _ kn2 kn2 child) by (apply at_thread; by apply list_lookup_insert_eq).
      rewrite (run_bind _ _ kn2 kn2 pt) by (apply at_thread; unfold kn2; cbn [threads set_threads]; by rewrite list_lookup_insert_ne). done. }
  set (kn4 := set_mach kn3 (free_user_pages A (mach kn))). rewrite (run_bind _ _ kn3 kn4 ()) by done.
  set (kn5 := set_threads kn4 (<[c := dead]> (<[p := p']> (threads kn)))).
  rewrite (run_bind _ _ kn4 kn5 ()).
  2:{ unfold on_thread. rewrite (run_bind _ _ kn4 kn4 child).
      2:{ apply at_thread. unfold kn4, kn3. cbn [threads set_mach set_threads]. rewrite list_lookup_insert_ne by done. by apply list_lookup_insert_eq. }
      unfold put_thread, modify, kn5, kn4, kn3. cbn [threads set_mach set_threads].
      rewrite (list_insert_insert_ne _ p c) by done. by rewrite list_insert_insert_eq. }
  rewrite (run_bind _ _ kn5 kn5 true); [done|].
  rewrite (run_bind _ _ kn5 kn5 p').
  2:{ apply at_thread. unfold kn5. cbn [threads set_threads]. rewrite list_lookup_insert_ne by done. by apply list_lookup_insert_eq. }
  unfold mret, M_ret. do 2 f_equal. unfold p', note_child_status, blocked. case_bool_decide as Hb; [done|]. cbn [orb].
  destruct (personality pt); cbn [kernel]; destruct (state (kernel pt)); done.
Qed.

(** ** Closing always succeeds *)

(** Every open file that is not in the overlay names a filesystem. *)
Definition files_mounted (v : Vfs W) : Prop :=
  Forall (fun e => FileEntry.refcount e <> 0 -> Vnode.handle (FileEntry.vnode e) <> RAM_SENTINEL ->
    exists b fs, mounts v !! Z.to_nat (FileEntry.mount_idx e) = Some b /\ Binding.target b = Server fs) (file_table v).

Lemma close_handle_succeeds (s : St W) h :
  files_mounted (vfs s) -> exists s', close_handle h s = Val (s', ()) /\ files_mounted (vfs s').
Proof.
  intros Hm. unfold close_handle, self. rewrite (run_bind _ _ s s (vfs s)) by done.
  destruct (Vfs.live (vfs s) h) eqn:El; cbn [negb]; [|by exists s]. unfold Vfs.live in El. apply andb_true_iff in El as [_ Hrc].
  apply negb_true_iff, Z.eqb_neq in Hrc. unfold entry in *. destruct (file_table (vfs s) !! Z.to_nat h) as [e|] eqn:Ee; [|done].
  cbn [default id] in *. set (e' := FileEntry.set_refcount e _).
  pose proof (Forall_lookup_1 _ _ _ _ Hm Ee Hrc) as He.
  assert (files_mounted (set_entry (vfs s) (Z.to_nat h) e')) as Hm' by (apply Forall_insert; [exact Hm|by intros _]).
  rewrite (run_bind _ _ s (mkSt (set_entry (vfs s) (Z.to_nat h) e') (world s)) ()) by done.
  destruct (negb _); [by eexists|]. rewrite (run_bind _ _ _ _ ()) by done.
  destruct (Z.eqb_spec (Vnode.handle (FileEntry.vnode e)) RAM_SENTINEL) as [|Hne]; [by eexists|].
  destruct (He Hne) as (b & fs & Hb & Ht). unfold mount_fs, self.
  erewrite run_bind; [|erewrite run_bind by done; cbn; rewrite Hb; cbn; erewrite run_bind by done; by rewrite Ht]. by eexists.
Qed.

Lemma release_succeeds k g :
  Z.of_nat (length (pipes g)) = MAX_PIPES -> files_mounted (vfs (files g)) -> (forall r, kref k = Some r -> valid_ref r) ->
  exists g', release net_close k g = Val (g', ()) /\ Z.of_nat (length (pipes g')) = MAX_PIPES /\ files_mounted (vfs (files g')).
Proof.
  intros Hp Hm Hv.
  assert (forall i f, valid_ref (RRead i) -> exists p, (fun q => KernelPipe.on_pipe q i f) (pipes g) = Some (p, ()) /\ length p = length (pipes g)) as Hpipe.
  { intros i f Hi. cbn in Hi. unfold KernelPipe.on_pipe. destruct (lookup_lt_is_Some_2 (pipes g) (Z.to_nat i)) as [p Ep]; [lia|].
    rewrite Ep. cbn. destruct (f p) as [q []]. eexists. split; [done|]. by rewrite length_insert. }
  destruct k as [|h|i|i| |h n|h]; cbn [release]; try by eexists.
  - unfold on_files, zoom. destruct (close_handle_succeeds (files g) h Hm) as (s' & -> & Hs'). by eexists.
  - destruct (Hpipe i (fun p => ((if 0 <? KernelPipe.readers p then KernelPipe.mk (KernelPipe.buffer p) (KernelPipe.readers p - 1) (KernelPipe.writers p) else p), ()))
      (Hv _ eq_refl)) as (p & Ep & Hl). unfold on_pipes, KernelPipe.close_reader. rewrite Ep. eexists. split; [done|]. cbn. by rewrite Hl.
  - destruct (Hpipe i (fun p => ((if 0 <? KernelPipe.writers p then KernelPipe.mk (KernelPipe.buffer p) (KernelPipe.readers p) (KernelPipe.writers p - 1) else p), ()))
      (Hv _ eq_refl)) as (p & Ep & Hl). unfold on_pipes, KernelPipe.close_writer. rewrite Ep. eexists. split; [done|]. cbn. by rewrite Hl.
Qed.

Lemma close_all_succeeds tb g :
  gwf g -> files_mounted (vfs (files g)) -> table_wf tb -> exists g' tb', close_all_fds net_close tb g = Val (g', tb').
Proof.
  intros (Hp & _ & _) Hm [_ Hv]. unfold close_all_fds. generalize (seq 0 MAX_FDS) as l. intros l.
  revert g tb Hp Hm Hv; induction l as [|i l IH]; intros g tb Hp Hm Hv; cbn [close_where]; [by eexists _, _|].
  unfold close_fd. destruct (fds tb !! i) as [k|] eqn:Ek.
  - destruct (release_succeeds k g Hp Hm) as (g' & Hr & Hp' & Hm'); [by apply (Forall_lookup_1 _ _ _ _ Hv Ek)|].
    erewrite run_bind; [|erewrite run_bind by exact Hr; done]. apply IH; [done|done|].
    cbn. apply Forall_insert; [exact Hv|]. by intros r.
  - erewrite run_bind by done. by apply IH.
Qed.

(** C25: an exit reaches the waiting parent.  When a Linux thread exits whose
    parent, a Linux thread too, is blocked (in a wait or in any other call),
    the exit succeeds, the parent runs next and is ready, the call it was
    blocked in returns the child's number, the child's descriptors are closed,
    and it can be waited for with the code it exited with.  The exiting thread
    does not own the display, or an event screen does, and every open file
    belongs to a mounted filesystem or to the overlay. *)
Theorem exit_wakes_parent b kn t l p pt pl code :
  held_ok b -> Inv b kn -> runs kn ->
  threads kn !! cur kn = Some t -> personality t = PLinux l -> parent_tid (kernel t) = Z.of_nat p -> p <> cur kn ->
  threads kn !! p = Some pt -> personality pt = PLinux pl -> state (kernel pt) = Blocked ->
  (focus kn = cur kn -> event_display kn = true) -> files_mounted (vfs (files (glob kn))) ->
  exists kn' pt' ct, exit_thread A D net_close (cur kn) code kn = Val (kn', p) /\
    threads kn' !! p = Some pt' /\ state (kernel pt') = Ready /\ rax (regs (kernel pt')) = Z.of_nat (cur kn) /\
    threads kn' !! cur kn = Some ct /\ state (kernel ct) = Zombie /\ idle ct /\
    peek_zombie_child (threads kn') p (Z.of_nat (cur kn)) = Some (Z.of_nat (cur kn), code).
Proof.
  intros Hb HI Hr Ht Hl Hpt Hne Hpl Hplx Hst Hf Hmt.
  destruct (close_all_succeeds (table (kernel t)) (glob kn) (inv_gwf _ _ HI) Hmt (slot_table _ _ (inv_slots _ _ HI _ _ Ht))) as (g & tb & Hcl).
  pose proof (inv_len _ _ HI) as Hlen. pose proof (inv_cur _ _ HI) as H0.
  assert (p < MAX_THREADS)%nat as Hp by (rewrite <- Hlen; by eapply lookup_lt_Some).
  destruct (exit_linux kn (cur kn) t l p pt code g tb Ht Hl Hpt Hp Hne Hpl Hf Hcl) as (child & Hck & Hex); [by rewrite Hst|].
  assert (exiting b (cur kn) kn) as Hexi.
  { split; [done|]. split; [done|]. unfold runs in Hr. intros E. by rewrite E in Hr. }
  pose proof (exit_thread_after A D net_close b (cur kn) code Hb kn Hexi) as Haf. rewrite Hex in *.
  destruct Haf as [HI' _]. set (dead := mkT (set_state (set_exit _ _) _) _) in *. set (p' := note_child_status _ _ _) in *.
  set (ts' := <[cur kn := dead]> (<[p := p']> (threads kn))) in *.
  assert (ts' !! p = Some p') as Ep by (unfold ts'; rewrite list_lookup_insert_ne, list_lookup_insert_eq by (done || by eapply lookup_lt_Some); done).
  assert (ts' !! cur kn = Some dead) as Ec
    by (unfold ts'; rewrite list_lookup_insert_eq by (rewrite length_insert; by eapply lookup_lt_Some); done).
  assert (p' = woken child code pt) as Hp'.
  { unfold p', note_child_status, woken. rewrite bool_decide_eq_true_2 by done. rewrite Hplx. done. }
  pose proof (runs_thread kn t Hr Ht) as Hact%active_not_dead.
  assert (tid (kernel t) = Z.of_nat (cur kn)) as Htid by (apply (slot_tid _ _ (inv_slots _ _ HI _ _ Ht)); tauto).
  eexists _, p', dead. split; [done|]. split; [exact Ep|]. rewrite Hp' at 1 2. unfold woken. rewrite Hplx. cbn.
  split; [done|]. split.
  { rewrite Hck. cbn. rewrite Htid. apply wrap_small. unfold fits. pose proof (lookup_lt_Some _ _ _ Ht).
    rewrite Hlen in H. change (2 ^ 64) with 18446744073709551616. unfold MAX_THREADS in *. lia. }
  split; [exact Ec|]. split; [done|]. split; [apply (slot_idle _ _ (inv_slots _ _ HI' _ _ Ec)); by right|].
  apply (peek_finds ts' p p' (cur kn) dead (inv_len _ _ HI') (inv_slots _ _ HI') Ep H0 Ec); [done|].
  cbn. rewrite Hpt, Hp'. unfold woken. rewrite Hplx. cbn. symmetry. apply (slot_tid _ _ (inv_slots _ _ HI _ _ Hpl)). by rewrite Hst.
Qed.

(** * The execution context *)

(** [activate] makes the given space and FPU image live and returns the ones
    that were; resuming a thread leaves them live. *)
Record swaps (space_of : Mach -> Space) (fx_of : Mach -> Fx) : Prop := {
  swap_out : forall s f m, (activate A s f m).1.2 = space_of m /\ (activate A s f m).2 = fx_of m;
  swap_in : forall s f m, space_of (activate A s f m).1.1 = s /\ fx_of (activate A s f m).1.1 = f;
  resume_keeps : forall (p : @Personality Dos Os2 Win) m,
    space_of (on_resume A D p m).2 = space_of m /\ fx_of (on_resume A D p m).2 = fx_of m }.

(** The saved context of a thread. *)
Definition context t : Regs * Space * Fx := (regs (kernel t), space (kernel t), fx_state (kernel t)).
(** The live one. *)
Definition live_context (space_of : Mach -> Space) (fx_of : Mach -> Fx) kn : Regs * Space * Fx :=
  (live kn, space_of (mach kn), fx_of (mach kn)).

Lemma exec_switch_spec space_of fx_of kn kn' n :
  swaps space_of fx_of -> n <> cur kn -> exec_switch_to A D n kn = Val (kn', ()) ->
  exists o t o' t', threads kn !! cur kn = Some o /\ threads kn !! n = Some t /\
    threads kn' = <[n := t']> (<[cur kn := o']> (threads kn)) /\ cur kn' = n /\
    context o' = live_context space_of fx_of kn /\ live_context space_of fx_of kn' = context t /\ fx_state (kernel t') = fx_state (kernel t).
Proof.
  intros Hsw Hne. unfold exec_switch_to. rewrite (run_bind _ _ kn kn kn) by done.
  rewrite (proj2 (Nat.eqb_neq n (cur kn))) by done. destruct (get_two_threads (threads kn) (cur kn) n) as [[o t]|] eqn:E; [|done].
  apply two_threads in E as (_ & Ho & Ht). rewrite (run_bind _ _ kn kn (o, t)) by done.
  pose proof (swap_out _ _ Hsw (space (kernel t)) (fx_state (kernel t)) (mach kn)) as [Ho1 Ho2].
  pose proof (swap_in _ _ Hsw (space (kernel t)) (fx_state (kernel t)) (mach kn)) as [Hi1 Hi2].
  destruct (activate A (space (kernel t)) (fx_state (kernel t)) (mach kn)) as [[m s] f]. cbn in Ho1, Ho2, Hi1, Hi2.
  pose proof (resume_keeps _ _ Hsw (personality t) m) as [Hr1 Hr2]. destruct (on_resume A D (personality t) m) as [np m'].
  cbn in Hr1, Hr2. intros [= <-]. eexists o, t, _, _. split; [done|]. split; [done|]. split; [done|]. split; [done|].
  unfold context, live_context. cbn. rewrite Ho1, Ho2, Hr1, Hr2, Hi1, Hi2. done.
Qed.

(** switching away and back changes nothing.  After a switch to another
    thread and back, the live registers, address space and FPU image are the
    ones before, the other thread's saved ones too, and no third thread was
    touched. *)
Theorem switch_roundtrip space_of fx_of kn kn1 kn2 n t :
  swaps space_of fx_of -> n <> cur kn -> threads kn !! n = Some t ->
  exec_switch_to A D n kn = Val (kn1, ()) -> exec_switch_to A D (cur kn) kn1 = Val (kn2, ()) ->
  cur kn2 = cur kn /\ live_context space_of fx_of kn2 = live_context space_of fx_of kn /\
  (exists t2, threads kn2 !! n = Some t2 /\ context t2 = context t) /\
  (forall i, i <> n -> i <> cur kn -> threads kn2 !! i = threads kn !! i).
Proof.
  intros Hsw Hne Ht H1 H2.
  destruct (exec_switch_spec _ _ _ _ _ Hsw Hne H1) as (o & t0 & o1 & t1 & Ho & Ht0 & Hts1 & Hc1 & Hco & Hcl1 & Hfx).
  rewrite Ht in Ht0. injection Ht0 as <-.
  destruct (exec_switch_spec _ _ kn1 kn2 (cur kn) Hsw) as (n1 & o0 & n2 & o2 & Hn1 & Ho0 & Hts2 & Hc2 & Hcn & Hcl2 & _);
    [congruence|done|]. rewrite Hc1 in *. rewrite Hts1 in Hn1, Ho0.
  pose proof (lookup_lt_Some _ _ _ Ho) as Hlo. pose proof (lookup_lt_Some _ _ _ Ht) as Hln.
  rewrite list_lookup_insert_ne, list_lookup_insert_eq in Ho0 by done. injection Ho0 as <-.
  split; [done|]. split; [congruence|]. split.
  - exists n2. rewrite Hts2, Hts1. rewrite list_lookup_insert_ne, list_lookup_insert_eq by (rewrite ?length_insert; done).
    split; [done|congruence].
  - intros i Hi Hi'. by rewrite Hts2, Hts1, !list_lookup_insert_ne by done.
Qed.

(** * Where the code leaves its rules *)

(** A pending read of an empty pipe stays pending also when the last writer
    is gone: the thread is never told of the end of the file. *)
Lemma pending_read_no_eof kn i t l idx ptr len r :
  threads kn !! i = Some t -> personality t = PLinux l -> pending_read l = Some (mkRead (FdPipeRead idx) ptr len) ->
  (exists p buf, KernelPipe.read (pipes (glob kn)) idx (replicate len 0) = Some (p, (buf, 0))) ->
  exists kn', complete_pending_read A i r kn = Val (kn', r) /\ threads kn' = threads kn.
Proof.
  intros Ht Hl Hp (p & buf & Hrd). unfold complete_pending_read. rewrite (run_bind _ _ _ _ _ (at_thread _ _ _ Ht)), Hl, Hp.
  rewrite (run_bind _ _ kn kn kn) by done. rewrite Hrd. eexists. split; [by run|done].
Qed.

(** A waiter that is switched to before a child exits - the task picker does
    that - stores a status at once and forgets where the real one goes. *)
Lemma resume_forgets_status l m :
  wait_status_ptr l <> 0 ->
  let '(l', m') := linux_on_resume A l m in
  wait_status_ptr l' = 0 /\ forall code m2, linux_on_resume A (set_wait l' (wait_status_ptr l') code) m2 =
    (set_wait l' 0 code, if 0 <=? tls_entry l then set_tls_entry A (tls_entry l) (tls_base l) (tls_limit l) (tls_limit_in_pages l) m2 else m2).
Proof. intros H. unfold linux_on_resume. by rewrite (proj2 (Z.eqb_neq _ 0) H). Qed.

End Claims.

(** * A small machine *)

Module Sample.

(** Memory is the list of words stored to it. *)
Record Machine := mkM { stores : list (Z * Z); active_space : nat; active_fx : nat }.

Definition arch : @Arch Machine nat nat := {|
  get_ticks _ := 5; clean_fx_template _ := 0%nat; default_fx := 0%nat; empty_space := 0%nat;
  user_fork m := (m, S (active_space m)); free_user_pages m := m; destroy_space _ m := (m, 0%nat);
  write_i32 a v m := mkM ((a, v) :: stores m) (active_space m) (active_fx m);
  copy_to a bs m := mkM (imap (fun i v => (a + Z.of_nat i, v)) bs ++ stores m) (active_space m) (active_fx m);
  activate s f m := (mkM (stores m) s f, active_space m, active_fx m);
  set_tls_entry _ _ _ _ m := m;
  store_i32 a v m := mkM ((a, v) :: stores m) (active_space m) (active_fx m) |}.

Definition dos : @DosOps Machine () () () () () () := {|
  release_for_parent_replace d m := (d, m, ()); dos_release_display d m := (d, m, ()); dos_release_card d m := (d, m, None);
  dos_on_exit d r m _ := (d, r, m); set_last_child_exit_status d _ := d;
  dos_on_resume d m := (d, m); os2_on_resume o m := (o, m); win_on_resume w m := (w, m) |}.

Definition close_socket (_ : Z) (u : ()) : () := u.

Abbreviation Kern := (@Kern Machine nat nat () () () () () () () () ()).
Abbreviation Thread := (@Thread nat nat () () () ()).

(** The first process: slot 1, reading the console pipe. *)
Definition first : Thread :=
  mkT (mkThread 1 1 0 0 Ready 0 empty_regs 0%nat 0%nat 0 0 0 None (mkTable (FdPipeRead 0 :: FdConsoleOut :: replicate 62 FdNone) 0)
         (replicate 16 0)) (PLinux new_linux).

Definition globals : Globals () () :=
  mkG (KernelPipe.mk (Pipe.new PIPE_BUF_SIZE 0) 1 1 :: replicate 63 KernelPipe.empty) (mkSt Vfs.new ()) [] ().

Definition boot : Kern :=
  mkKern (<[1%nat := first]> (init_threading arch)) (mkM [] 9 0) globals 0 SEED (-1) None None true 1 empty_regs.

(** The kernel writes the keyboard into the console pipe. *)
Definition held (r : ref) : Z := if decide (r = RWrite 0) then 1 else 0.

(** No program is loaded. *)
Definition no_load (_ _ : Path) (_ : option PersonalityName) (_ : Z) (_ _ : Regs -> Z -> Regs) (_ : nat) (r : Regs)
  : M Kern (Regs * option nat) := mret (r, None).
Definition no_image (_ _ : Path) (_ : list Path) (_ : Path) (_ : nat) (r : Regs) : M Kern (Regs * option nat) := mret (r, None).

Definition next (op : kop) (kn : Kern) : Kern := match turn arch dos close_socket 3 no_load no_image op kn with Val (kn, _) => kn | _ => kn end.
Definition goes_on (op : kop) (kn : Kern) : bool := match turn arch dos close_socket 3 no_load no_image op kn with Val (_, b) => b | _ => false end.

Lemma next_step op kn : op_ok op -> goes_on op kn = true -> kstep arch dos close_socket 3 no_load no_image kn (next op kn).
Proof.
  unfold goes_on, next. intros Hop H. apply (kstep_turn _ _ _ _ _ _ kn op _ Hop).
  destruct (turn arch dos close_socket 3 no_load no_image op kn) as [[kn' []]| |]; done.
Qed.

(** The process forks, runs again when its child yields, and waits for it. *)
Definition forked : Kern := next (Act (Fork set_rax 0)) boot.
Definition waiting : Kern := next (Act (Wait (-1) 0x100)) (next (Act Yield) forked).

Lemma held_small : held_ok held.
Proof. intros r. unfold held. case_decide; lia. Qed.

Lemma total_idle r n t : idle t -> total r (replicate n (t : Thread)) = 0.
Proof. intros H. induction n as [|n IH]; cbn; [done|]. by rewrite IH, (idle_count r t H). Qed.

Lemma boot_lookup i t :
  threads boot !! i = Some t -> (i = 0%nat /\ t = on_kernel (fun k => set_state k Running) (empty_thread arch)) \/ (i = 1%nat /\ t = first) \/
  ((1 < i)%nat /\ t = empty_thread arch).
Proof.
  intros Hi. destruct i as [|[|i]]; [left|right; left|right; right].
  - by injection Hi as <-.
  - by injection Hi as <-.
  - change (replicate 1022 (empty_thread arch : Thread) !! i = Some t) in Hi. apply lookup_replicate in Hi as [-> _]. split; [lia|done].
Qed.

Lemma empty_wf : table_wf no_fds.
Proof. split; [by vm_compute|]. apply Forall_replicate. by intros r. Qed.

Lemma globals_rc r : rc globals r = match r with RRead i | RWrite i => if (Z.to_nat i =? 0)%nat then 1 else 0 | RFile _ => 0 end.
Proof.
  destruct r as [i|i|h]; cbn [rc].
  1-2: unfold pipe_at, globals; cbn [pipes]; destruct (Z.to_nat i) as [|k]; [done|];
    change ((_ :: ?l) !! S k) with (l !! k);
    destruct (replicate 63 KernelPipe.empty !! k) as [q|] eqn:E; [apply lookup_replicate in E as [-> _]|]; done.
  unfold entry. change (file_table _) with (replicate MAX_OPEN_FILES FileEntry.EMPTY).
  destruct (_ !! Z.to_nat h) as [e|] eqn:E; [apply lookup_replicate in E as [-> _]|]; done.
Qed.

Lemma globals_wf : gwf globals.
Proof.
  split; [done|]. split; [by vm_compute|]. intros r. rewrite globals_rc. by destruct r as [i|i|h]; [destruct (_ =? _)%nat..|].
Qed.

Lemma boot_inv : Inv held boot.
Proof.
  split.
  - by vm_compute.
  - intros i t [(-> & ->)|[(-> & ->)|(Hi & ->)]]%boot_lookup.
    + split; [apply empty_wf|done|by intros []|done].
    + split; [|done|by intros []|done]. split; [by vm_compute|]. apply Forall_cons. split; [by intros r [= <-]|].
      apply Forall_cons. split; [by intros r|]. apply Forall_replicate. by intros r.
    + split; [apply empty_wf|done|done|lia].
  - apply globals_wf.
  - intros r Hv. change (threads boot) with (on_kernel (fun k => set_state k Running) (empty_thread arch) :: first :: replicate 1022 (empty_thread arch : Thread)).
    cbn [total]. rewrite total_idle by done. rewrite (idle_count r (on_kernel _ _)) by done.
    change (fds (table (kernel first))) with (FdPipeRead 0 :: FdConsoleOut :: replicate 62 FdNone). cbn [count].
    change (glob boot) with globals. rewrite count_none, globals_rc. unfold held, names. cbn [kref].
    destruct r as [i|i|h]; cbn in Hv; repeat case_decide; simplify_eq; try done; destruct (Nat.eqb_spec (Z.to_nat i) 0); try done;
      exfalso; assert (i = 0) by lia; congruence.
  - intros i t [(-> & ->)|[(-> & ->)|(Hi & ->)]]%boot_lookup; done.
  - cbn. lia.
Qed.

Lemma boot_runs : runs boot.
Proof. by vm_compute. Qed.

Lemma to_forked : rtc (kstep arch dos close_socket 3 no_load no_image) boot forked.
Proof. apply rtc_once, next_step; [done|by vm_compute]. Qed.

Lemma to_waiting : rtc (kstep arch dos close_socket 3 no_load no_image) boot waiting.
Proof.
  etrans; [apply to_forked|]. eapply rtc_l; [apply (next_step (Act Yield)); by vm_compute|].
  apply rtc_once, next_step; [done|by vm_compute].
Qed.

(** After the fork, the child holds the console too. *)
Lemma references_counted_witness :
  rc (glob forked) (RRead 0) = 2 /\ held (RRead 0) + total (RRead 0) (threads forked) = 2 /\
  forall i t k r, threads forked !! i = Some t -> k ∈ fds (table (kernel t)) -> kref k = Some r -> 0 < rc (glob forked) r.
Proof.
  split; [by vm_compute|]. split; [by vm_compute|].
  apply (references_counted arch dos close_socket 3 no_load no_image held boot forked held_small boot_inv boot_runs to_forked).
Defined.

Lemma thread_table_wf_witness : cur waiting = 2%nat /\ forall t, threads waiting !! 2%nat = Some t -> slot_ok 2 t.
Proof.
  split; [by vm_compute|]. intros t.
  apply (thread_table_wf arch dos close_socket 3 no_load no_image held boot waiting held_small boot_inv boot_runs to_waiting).
Defined.

Lemma switch_in_unmodified_witness :
  exists t, threads waiting !! 1%nat = Some t /\ cpu_hash (kernel t) <> 0 /\ cpu_hash_ok (kernel t) = true.
Proof.
  destruct (threads waiting !! 1%nat) as [t|] eqn:E; [|by vm_compute in E]. exists t. split; [done|].
  assert (option_map (fun t => (state (kernel t), negb (cpu_hash (kernel t) =? 0))) (threads waiting !! 1%nat) = Some (Blocked, true)) as H
    by (by vm_compute).
  rewrite E in H. cbn in H. injection H as Hst Hh. apply negb_true_iff, Z.eqb_neq in Hh. split; [done|].
  apply (switch_in_unmodified arch dos close_socket 3 no_load no_image held boot waiting 1 t held_small boot_inv boot_runs to_waiting E); [done|by rewrite Hst].
Defined.

Lemma schedule_complete_witness : (schedule (threads forked) 1 SEED).2 = Some 2%nat /\ state_of (threads forked) 2 = Some Ready.
Proof.
  split; [by vm_compute|]. pose proof (schedule_complete (threads forked) 1 SEED ltac:(by vm_compute)) as H.
  assert ((schedule (threads forked) 1 SEED).2 = Some 2%nat) as E by (by vm_compute). rewrite E in H. apply H.
Defined.

(** Three processes that are all ready; the second and third wait for their
    turn. *)
Definition three : list Thread :=
  let spare := on_kernel (fun k => set_table k no_fds) first in <[3%nat := spare]> (<[2%nat := spare]> (threads boot)).

Lemma schedule_starves_witness : exists sd, schedule three 1 SEED = (sd, Some 2%nat) /\ Z.odd sd = true.
Proof.
  apply (schedule_starves three 1 2 3 SEED); [by vm_compute|apply Nat.ltb_lt; by vm_compute| |by vm_compute].
  split; [lia|]. intros k t Hk Ht. destruct k as [|[|[|[|k]]]]; [lia|by injection Ht as <-|by injection Ht as <-|by injection Ht as <-|].
  change (replicate 1020 (empty_thread arch : Thread) !! k = Some t) in Ht. apply lookup_replicate in Ht as [-> _].
  rewrite bool_decide_eq_false_2 by lia. unfold candidate. by rewrite andb_false_r.
Defined.

(** The child's exit, and the parent told. *)
Lemma exit_wakes_parent_witness :
  exists kn' pt' ct, exit_thread arch dos close_socket 2 7 waiting = Val (kn', 1%nat) /\
    threads kn' !! 1%nat = Some pt' /\ state (kernel pt') = Ready /\ rax (regs (kernel pt')) = 2 /\
    threads kn' !! 2%nat = Some ct /\ state (kernel ct) = Zombie /\ idle ct /\
    peek_zombie_child (threads kn') 1 2 = Some (2, 7).
Proof.
  destruct (steps_inv arch dos close_socket 3 no_load no_image held boot waiting held_small boot_inv boot_runs to_waiting) as [HI Hr].
  pose (t := default first (threads waiting !! 2%nat)). pose (pt := default first (threads waiting !! 1%nat)).
  apply (exit_wakes_parent arch dos close_socket held waiting t (match personality t with PLinux l => l | _ => new_linux end)
           1 pt (match personality pt with PLinux l => l | _ => new_linux end) 7 held_small HI Hr);
    [by vm_compute..|]. unfold files_mounted.
  assert (file_table (vfs (files (glob waiting))) = replicate MAX_OPEN_FILES FileEntry.EMPTY) as -> by (by vm_compute).
  apply Forall_forall. intros e [-> _]%elem_of_replicate Hrc. exfalso. apply Hrc. reflexivity.
Defined.

(** The child has exited: the parent's wait takes it, its own finds nothing. *)
Definition exited : Kern := next (Act (Exit 7)) waiting.

Lemma to_exited : rtc (kstep arch dos close_socket 3 no_load no_image) boot exited.
Proof. etrans; [apply to_waiting|]. apply rtc_once, next_step; [done|by vm_compute]. Qed.

Lemma waitpid_answers_witness :
  exists ts m i t, waitpid arch (threads exited) (mach exited) 1 (-1) = Some (ts, m, (2, 7)) /\
    child_at (threads exited) 1 i t /\ state (kernel t) = Zombie /\ 2 = Z.of_nat i /\ 7 = exit_code (kernel t) /\
    state_of ts i = Some Unused.
Proof.
  assert (option_map snd (waitpid arch (threads exited) (mach exited) 1 (-1)) = Some (2, 7)) as E by (by vm_compute).
  destruct (waitpid arch (threads exited) (mach exited) 1 (-1)) as [[[ts m] [r code]]|] eqn:H; [|done]. cbn in E. injection E as -> ->.
  destruct (steps_inv arch dos close_socket 3 no_load no_image held boot exited held_small boot_inv boot_runs to_exited) as [HI _].
  destruct (waitpid_answers arch (threads exited) (mach exited) 1 (-1) (default first (threads exited !! 1%nat))
    _ _ _ _ (inv_len _ _ HI) (inv_slots _ _ HI) ltac:(by vm_compute) H) as [(Hr & _)|[(Hr & _)|(i & t & s & Hch & Hf & Hr & Hc & _ & Hts)]];
    [done|done|].
  exists ts, m, i, t. split; [done|]. split; [exact Hch|]. unfold reapable in Hf.
  apply andb_true_iff in Hf as [[_ Hz%bool_decide_eq_true_1]%andb_true_iff _].
  split; [exact Hz|]. split; [exact Hr|]. split; [exact Hc|]. rewrite Hts. unfold state_of.
  rewrite list_lookup_insert_eq; [done|]. rewrite (inv_len _ _ HI). apply Hch.
Defined.

Lemma sample_swaps : swaps arch dos active_space active_fx.
Proof.
  split; [done|done|]. intros [d|l|o|w] m; cbn; try done. unfold linux_on_resume.
  destruct (0 <=? tls_entry l), (wait_status_ptr l =? 0); done.
Qed.

Lemma switch_roundtrip_witness :
  exists kn1 kn2, exec_switch_to arch dos 1 forked = Val (kn1, ()) /\ exec_switch_to arch dos 2 kn1 = Val (kn2, ()) /\
    live kn2 = live forked /\ active_space (mach kn2) = active_space (mach forked).
Proof.
  destruct (exec_switch_to arch dos 1 forked) as [[kn1 []]| |] eqn:E1; [|by vm_compute in E1..].
  assert (match exec_switch_to arch dos 1 forked with Val (k, _) => match exec_switch_to arch dos 2 k with Val _ => true | _ => false end | _ => false end = true)
    as E by (by vm_compute). rewrite E1 in E.
  destruct (exec_switch_to arch dos 2 kn1) as [[kn2 []]| |] eqn:E2; [|done..]. exists kn1, kn2. split; [done|]. split; [done|].
  destruct (switch_roundtrip arch dos active_space active_fx forked kn1 kn2 1 (default first (threads forked !! 1%nat)) sample_swaps) as (_ & H & _);
    [done|by vm_compute|exact E1|exact E2|]. by injection H as -> -> _.
Defined.

(** A child that exited while its parent waited is reported twice: the wait
    that was woken returns it, and leaves it to be found by the next one. *)
Lemma blocked_wait_reports_twice :
  let kn := next (Act (Exit 7)) waiting in
  cur kn = 1%nat /\ rax (live kn) = 2 /\
  option_map snd (waitpid arch (threads kn) (mach kn) 1 (-1)) = Some (2, 7).
Proof. by vm_compute. Qed.

(** A duplicated directory descriptor shares one reference: closing either
    frees the handle the other names. *)
Lemma dup2_dir_dangles :
  let t := mkTable (FdDir 0 0 :: replicate 63 FdNone) 0 in
  let g := mkG (pipes globals) (files globals) [DirHandle.mk [47] 1] () in
  exists g' t', (x ← sys_dup2 close_socket t 0 1; sys_close close_socket x.1 0) g = Val (g', (t', 0)) /\
    fds t' !! 1%nat = Some (FdDir 0 0) /\ DirHandle.dir_handle_path 0 (dirs g') = None.
Proof. do 2 eexists. split; [by vm_compute|]. by vm_compute. Qed.

End Sample.
