(* ===== verification/Elf.v ===== *)
(** ELF programs: the parser of lib/src/elf.rs and the loader of
    kernel/src/kernel/elf.rs.

    A file is the list of its bytes.  [W] is the width of [usize], 32 on the
    i686 kernel and 64 in the hosted build.  [None] is a panic, or a read
    through a pointer that leaves the file. *)

From Stdlib Require Import ZArith Lia Bool.
From stdpp Require Import base option list numbers.
From S2P Require Import Prelude Guest Exe.

Module Elf.

(** * The file format *)

Definition ELF_MAGIC : Z := 0x464C457F.
Definition SHT_SYMTAB : Z := 2.
Definition SHT_STRTAB : Z := 3.
Definition STT_NOTYPE : Z := 0.
Definition STT_FUNC : Z := 2.
Definition PT_LOAD : Z := 1.
Definition PT_DYNAMIC : Z := 2.
Definition PT_INTERP : Z := 3.
Definition PF_EXEC : Z := 1.
Definition PF_WRITE : Z := 2.
Definition PAGE_SIZE : Z := 4096.

Inductive ElfClass := Elf32 | Elf64.

Inductive ElfError := InvalidMagic | InvalidClass | InvalidEndian | InvalidType | InvalidMachine | OutOfMemory.

Definition len (b : list Z) : Z := Z.of_nat (length b).

(** A field of [n] bytes of a structure laid over the file. *)
Definition field (b : list Z) (off : Z) (n : nat) : option Z :=
  if (0 <=? off) && (off + Z.of_nat n <=? len b) then Some (from_le_bytes (take n (drop (Z.to_nat off) b))) else None.

(** [&b[start..fin]] *)
Definition slice (b : list Z) (start fin : Z) : option (list Z) :=
  if (start <=? fin) && (fin <=? len b) then Some (take (Z.to_nat (fin - start)) (drop (Z.to_nat start) b)) else None.

Record ElfHeader := mkHeader {
  h_typ : Z; h_machine : Z; h_entry : Z; h_phoff : Z; h_shoff : Z; h_phentsize : Z; h_phnum : Z; h_shnum : Z; h_shstrndx : Z }.

Definition ElfHeader32 (b : list Z) : option ElfHeader :=
  typ ← field b 16 2; machine ← field b 18 2; entry ← field b 24 4; phoff ← field b 28 4; shoff ← field b 32 4;
  phentsize ← field b 42 2; phnum ← field b 44 2; shnum ← field b 48 2; shstrndx ← field b 50 2;
  Some (mkHeader typ machine entry phoff shoff phentsize phnum shnum shstrndx).

Definition ElfHeader64 (b : list Z) : option ElfHeader :=
  typ ← field b 16 2; machine ← field b 18 2; entry ← field b 24 8; phoff ← field b 32 8; shoff ← field b 40 8;
  phentsize ← field b 54 2; phnum ← field b 56 2; shnum ← field b 60 2; shstrndx ← field b 62 2;
  Some (mkHeader typ machine entry phoff shoff phentsize phnum shnum shstrndx).

(** [size_of] of the headers of a class. *)
Definition header_size (c : ElfClass) : Z := match c with Elf32 => 52 | Elf64 => 64 end.
Definition program_header_size (c : ElfClass) : Z := match c with Elf32 => 32 | Elf64 => 56 end.

Record ProgramHeader := mkPhdr {
  ph_typ : Z; ph_flags : Z; ph_off : Z; ph_vaddr : Z; ph_paddr : Z; ph_filesz : Z; ph_memsz : Z }.

Definition ProgramHeader32 (b : list Z) (at_ : Z) : option ProgramHeader :=
  typ ← field b at_ 4; off ← field b (at_ + 4) 4; vaddr ← field b (at_ + 8) 4; paddr ← field b (at_ + 12) 4;
  filesz ← field b (at_ + 16) 4; memsz ← field b (at_ + 20) 4; flags ← field b (at_ + 24) 4;
  Some (mkPhdr typ flags off vaddr paddr filesz memsz).

Definition ProgramHeader64 (b : list Z) (at_ : Z) : option ProgramHeader :=
  typ ← field b at_ 4; flags ← field b (at_ + 4) 4; off ← field b (at_ + 8) 8; vaddr ← field b (at_ + 16) 8;
  paddr ← field b (at_ + 24) 8; filesz ← field b (at_ + 32) 8; memsz ← field b (at_ + 40) 8;
  Some (mkPhdr typ flags off vaddr paddr filesz memsz).

(** * The parser *)

Record Elf := mkElf { data : list Z; class : ElfClass }.

Definition header_of (c : ElfClass) (b : list Z) : option ElfHeader :=
  match c with Elf32 => ElfHeader32 b | Elf64 => ElfHeader64 b end.
Definition header (e : Elf) : option ElfHeader := header_of (class e) (data e).

Definition expected_machine (c : ElfClass) : Z := match c with Elf32 => 3 | Elf64 => 0x3E end.

Definition parse (b : list Z) : option (ElfError + Elf) :=
  if len b <? 16 then Some (inl InvalidMagic) else
  magic ← field b 0 4;
  if negb (magic =? ELF_MAGIC) then Some (inl InvalidMagic) else
  endian ← field b 5 1;
  if negb (endian =? 1) then Some (inl InvalidEndian) else
  cls ← field b 4 1;
  match (if cls =? 1 then Some Elf32 else if cls =? 2 then Some Elf64 else None) with
  | None => Some (inl InvalidClass)
  | Some c =>
      if len b <? header_size c then Some (inl InvalidMagic) else
      h ← header_of c b;
      if negb (h_typ h =? 2) && negb (h_typ h =? 3) then Some (inl InvalidType) else
      if negb (h_machine h =? expected_machine c) then Some (inl InvalidMachine) else
      Some (inr (mkElf b c))
  end.

Definition entry (e : Elf) : option Z := h ← header e; Some (h_entry h).
Definition elf_type (e : Elf) : option Z := h ← header e; Some (h_typ h).

Section Width.
Context (W : Z).
Abbreviation usize := (wrap W).

Definition ph_table (e : Elf) : option (Z * Z * Z) :=
  h ← header e; Some (usize (h_phoff h), usize (h_phentsize h), usize (h_phnum h)).

Definition cast (p : ProgramHeader) : ProgramHeader :=
  mkPhdr (ph_typ p) (ph_flags p) (usize (ph_off p)) (usize (ph_vaddr p)) (usize (ph_paddr p)) (usize (ph_filesz p)) (usize (ph_memsz p)).

(** The header of index [i] of a table, unless it would end past the file. *)
Definition program_header (e : Elf) (offset size i : Z) : option (option ProgramHeader) :=
  let ph_start := usize (offset + usize (i * size)) in
  if len (data e) <? usize (ph_start + program_header_size (class e)) then Some None else
  p ← match class e with Elf32 => ProgramHeader32 (data e) ph_start | Elf64 => ProgramHeader64 (data e) ph_start end;
  Some (Some (cast p)).

(** The loop of [dynamic], [n] headers left. *)
Fixpoint dynamic_from (n : nat) (i : Z) (e : Elf) (offset size : Z) : option (option (Z * Z)) :=
  match n with
  | O => Some None
  | S n =>
      p ← program_header e offset size i;
      match p with
      | Some p => if ph_typ p =? PT_DYNAMIC then Some (Some (ph_vaddr p, ph_memsz p)) else dynamic_from n (i + 1) e offset size
      | None => dynamic_from n (i + 1) e offset size
      end
  end.

Definition dynamic (e : Elf) : option (option (Z * Z)) :=
  '(offset, size, count) ← ph_table e; dynamic_from (Z.to_nat count) 0 e offset size.

(** [while s.last() == Some(&0) { s = &s[..s.len() - 1]; }] *)
Fixpoint strip_nul (s : list Z) : list Z :=
  match s with
  | [] => []
  | b :: s => match strip_nul s with [] => if b =? 0 then [] else [b] | s => b :: s end
  end.

(** The bytes of a header's part of the file, when it has some in the file. *)
Definition file_data (e : Elf) (p : ProgramHeader) : option (option (list Z)) :=
  if (0 <? ph_filesz p) && (usize (ph_off p + ph_filesz p) <=? len (data e))
  then s ← slice (data e) (ph_off p) (usize (ph_off p + ph_filesz p)); Some (Some s)
  else Some None.

Fixpoint interp_from (n : nat) (i : Z) (e : Elf) (offset size : Z) : option (option (list Z)) :=
  match n with
  | O => Some None
  | S n =>
      p ← program_header e offset size i;
      match p with
      | Some p =>
          if ph_typ p =? PT_INTERP then
            d ← file_data e p;
            match d with
            | Some s => Some (Some (strip_nul s))
            | None => interp_from n (i + 1) e offset size
            end
          else interp_from n (i + 1) e offset size
      | None => interp_from n (i + 1) e offset size
      end
  end.

Definition interp (e : Elf) : option (option (list Z)) :=
  '(offset, size, count) ← ph_table e; interp_from (Z.to_nat count) 0 e offset size.

(** ** Segments *)

Record Segment := mkSegment {
  sg_vaddr : Z; sg_paddr : Z; sg_memsz : Z; sg_flags : Z; sg_data : option (list Z); sg_file_offset : Z; sg_filesz : Z }.

Definition is_writable (s : Segment) : bool := negb (Z.land (sg_flags s) PF_WRITE =? 0).
Definition is_executable (s : Segment) : bool := negb (Z.land (sg_flags s) PF_EXEC =? 0).

Record SegmentIter := mkIter { it_elf : Elf; it_offset : Z; it_size : Z; it_count : Z; it_index : Z }.

Definition segments (e : Elf) : option SegmentIter :=
  '(offset, size, count) ← ph_table e; Some (mkIter e offset size count 0).

(** The segment of a header of type PT_LOAD. *)
Definition to_segment (e : Elf) (p : ProgramHeader) : option Segment :=
  d ← file_data e p;
  Some (mkSegment (ph_vaddr p) (ph_paddr p) (ph_memsz p) (ph_flags p) d (ph_off p) (ph_filesz p)).

(** The loop of [next]; a step for each header left. *)
Fixpoint next_from (fuel : nat) (it : SegmentIter) : option (option Segment * SegmentIter) :=
  match fuel with
  | O => Some (None, it)
  | S fuel =>
      if it_index it <? it_count it then
        p ← program_header (it_elf it) (it_offset it) (it_size it) (it_index it);
        let it := mkIter (it_elf it) (it_offset it) (it_size it) (it_count it) (it_index it + 1) in
        match p with
        | Some p =>
            if ph_typ p =? PT_LOAD then s ← to_segment (it_elf it) p; Some (Some s, it)
            else next_from fuel it
        | None => next_from fuel it
        end
      else Some (None, it)
  end.

Definition next (it : SegmentIter) : option (option Segment * SegmentIter) := next_from (Z.to_nat (it_count it - it_index it)) it.

(** What [for seg in it] runs over; every turn but the last uses a header up. *)
Fixpoint collect (fuel : nat) (it : SegmentIter) : option (list Segment) :=
  match fuel with
  | O => Some []
  | S fuel =>
      '(s, it) ← next it;
      match s with
      | None => Some []
      | Some s => rest ← collect fuel it; Some (s :: rest)
      end
  end.

Definition each_segment (e : Elf) : option (list Segment) :=
  it ← segments e; collect (S (Z.to_nat (it_count it))) it.

(** * The loader *)

Definition is_class64 (b : list Z) : bool := match b !! 4%nat with Some c => c =? 2 | None => false end.

Definition dyn_info (b : list Z) : option (ElfError + bool * option (list Z)) :=
  r ← parse b;
  match r with
  | inl err => Some (inl err)
  | inr e => t ← elf_type e; i ← interp e; Some (inr (t =? 3, i))
  end.

Record LoadedElf := mkLoaded {
  l_entry : Z; l_class : ElfClass; l_max_vaddr : Z; l_phdr_vaddr : Z; l_phentsize : Z; l_phnum : Z }.

(** The active address space: its bytes, and the permissions (writable,
    executable) last asked for a page. *)
Record Space := mkSpace { bytes : Mem; asked : Z -> option (bool * bool) }.

Definition on_bytes (f : Mem -> Mem) (s : Space) : Space := mkSpace (f (bytes s)) (asked s).

Definition set_page_flags (start count : Z) (w x : bool) (s : Space) : Space :=
  mkSpace (bytes s) (fun p => if (start <=? p) && (p <? start + count) then Some (w, x) else asked s p).

(** A turn of the first pass, with the highest end so far. *)
Definition place (load_bias : Z) (st : Space * Z) (seg : Segment) : Space * Z :=
  let '(s, max_vaddr) := st in
  let vaddr := usize (sg_vaddr seg + load_bias) in
  let fin := usize (vaddr + sg_memsz seg) in
  let max_vaddr := if max_vaddr <? fin then fin else max_vaddr in
  match sg_data seg with
  | Some d =>
      let s := on_bytes (fun m => Exe.copy_to m vaddr d) s in
      (if len d <? sg_memsz seg then on_bytes (fun m => Exe.zero m (usize (vaddr + len d)) (sg_memsz seg - len d)) s else s, max_vaddr)
  | None => (s, max_vaddr)
  end.

(** A turn of a pass over the permissions. *)
Definition protect (load_bias : Z) (executable_pass : bool) (s : Space) (seg : Segment) : Space :=
  if negb (eqb (is_executable seg) executable_pass) then s else
  let vaddr := usize (sg_vaddr seg + load_bias) in
  let start_page := vaddr / PAGE_SIZE in
  let end_page := div_ceil (usize (vaddr + sg_memsz seg)) PAGE_SIZE in
  let count := usize (end_page - start_page) in
  if 0 <? count then set_page_flags start_page count (is_writable seg) executable_pass s else s.

Definition load_elf (s : Space) (b : list Z) (load_bias : Z) : option (ElfError + LoadedElf * Space) :=
  r ← parse b;
  match r with
  | inl err => Some (inl err)
  | inr e =>
      segs ← each_segment e;
      let '(s, max_vaddr) := foldl (place load_bias) (s, 0) segs in
      let s := foldl (fun s pass => foldl (protect load_bias pass) s segs) s [false; true] in
      let max_vaddr := Z.land (usize (max_vaddr + PAGE_SIZE - 1)) (bnot W (PAGE_SIZE - 1)) in
      '(phoff, phentsize, phnum) ← ph_table e;
      ent ← entry e;
      Some (inr (mkLoaded (u64 (ent + load_bias)) (class e) max_vaddr (usize (load_bias + phoff)) phentsize phnum, s))
  end.

End Width.
End Elf.
