(* ===== verification/ElfFacts.v ===== *)
(** ELF files by their contents: the reference encoder of a program image
    and what the parser reads of its files. *)

From Stdlib Require Import ZArith Lia Bool.
From stdpp Require Import base option list numbers.
From S2P Require Import Prelude Guest Exe Elf.

Module ElfFacts.

Import Elf.

(** * A reference encoder

    A program image is its class, type, entry and parts; a part is a program
    header with the bytes it has in the file.  The file has the header, the
    table of program headers and the bytes of the parts, in order. *)

Record Part := mkPart {
  p_typ : Z; p_flags : Z; p_vaddr : Z; p_paddr : Z; p_memsz : Z; p_align : Z; p_bytes : list Z }.

Record Image := mkImage { im_class : ElfClass; im_type : Z; im_entry : Z; im_parts : list Part }.

(** The bytes of an address of the class. *)
Definition aw (c : ElfClass) : nat := match c with Elf32 => 4 | Elf64 => 8 end.

Definition table_end (c : ElfClass) (n : nat) : Z := header_size c + Z.of_nat n * program_header_size c.

Definition enc_header (c : ElfClass) (typ ent : Z) (n : nat) : list Z :=
  to_le_bytes 4 ELF_MAGIC ++ to_le_bytes 1 (match c with Elf32 => 1 | Elf64 => 2 end) ++ to_le_bytes 1 1 ++ to_le_bytes 1 1 ++
  replicate 9 0 ++ to_le_bytes 2 typ ++ to_le_bytes 2 (expected_machine c) ++ to_le_bytes 4 1 ++
  to_le_bytes (aw c) ent ++ to_le_bytes (aw c) (header_size c) ++ to_le_bytes (aw c) 0 ++ to_le_bytes 4 0 ++
  to_le_bytes 2 (header_size c) ++ to_le_bytes 2 (program_header_size c) ++ to_le_bytes 2 (Z.of_nat n) ++
  to_le_bytes 2 0 ++ to_le_bytes 2 0 ++ to_le_bytes 2 0.

Definition enc_phdr (c : ElfClass) (off : Z) (p : Part) : list Z :=
  let a := aw c in
  to_le_bytes 4 (p_typ p) ++ (match c with Elf32 => [] | Elf64 => to_le_bytes 4 (p_flags p) end) ++
  to_le_bytes a off ++ to_le_bytes a (p_vaddr p) ++ to_le_bytes a (p_paddr p) ++
  to_le_bytes a (len (p_bytes p)) ++ to_le_bytes a (p_memsz p) ++
  (match c with Elf32 => to_le_bytes 4 (p_flags p) | Elf64 => [] end) ++ to_le_bytes a (p_align p).

Fixpoint enc_table (c : ElfClass) (off : Z) (ps : list Part) : list (list Z) :=
  match ps with
  | [] => []
  | p :: ps => enc_phdr c off p :: enc_table c (off + len (p_bytes p)) ps
  end.

Definition encode (im : Image) : list Z :=
  let c := im_class im in
  let ps := im_parts im in
  enc_header c (im_type im) (im_entry im) (length ps) ++
  concat (enc_table c (table_end c (length ps)) ps) ++ concat (p_bytes <$> ps).

(** * Alignment *)

(** [x & !(2^k - 1)] *)
Lemma land_bnot_ones w k x : 0 <= k <= w -> fits w x -> Z.land x (bnot w (Z.ones k)) = x / 2 ^ k * 2 ^ k.
Proof.
  intros Hk Hx. rewrite <- Z.shiftr_div_pow2, <- Z.shiftl_mul_pow2 by lia.
  apply Z.bits_inj'. intros i Hi. rewrite Z.land_spec. destruct (Z.lt_ge_cases i w) as [Hlow|Hhigh].
  - rewrite testbit_bnot by lia. destruct (Z.lt_ge_cases i k).
    + rewrite Z.shiftl_spec_low, Z.ones_spec_low by lia. by rewrite andb_false_r.
    + rewrite Z.shiftl_spec, Z.shiftr_spec, Z.ones_spec_high by lia. rewrite andb_true_r. f_equal. lia.
  - rewrite (fits_high w x) by (done || lia). rewrite Z.shiftl_spec, Z.shiftr_spec by lia.
    rewrite (fits_high w x) by (done || lia). done.
Qed.

(** * Fields of composed bytes *)

Lemma len_app a b : len (a ++ b) = len a + len b.
Proof. unfold len. rewrite length_app. lia. Qed.

Lemma len_nonneg b : 0 <= len b.
Proof. unfold len. lia. Qed.

Lemma len_le n x : len (to_le_bytes n x) = Z.of_nat n.
Proof. unfold len. by rewrite length_to_le_bytes. Qed.

Lemma len_replicate n (x : Z) : len (replicate n x) = Z.of_nat n.
Proof. unfold len. by rewrite length_replicate. Qed.

Lemma field_skip a b off n : len a <= off -> field (a ++ b) off n = field b (off - len a) n.
Proof.
  intros H. unfold field. rewrite len_app. pose proof (len_nonneg a).
  destruct (Z.leb_spec 0 off), (Z.leb_spec 0 (off - len a)), (Z.leb_spec (off + Z.of_nat n) (len a + len b)),
    (Z.leb_spec (off - len a + Z.of_nat n) (len b)); cbn [andb]; try lia; try done.
  rewrite drop_app_ge by (unfold len in *; lia). repeat f_equal. unfold len in *. lia.
Qed.

Lemma field_keep a b off n : off + Z.of_nat n <= len a -> field (a ++ b) off n = field a off n.
Proof.
  intros H. unfold field. rewrite len_app. pose proof (len_nonneg b).
  destruct (Z.leb_spec 0 off), (Z.leb_spec (off + Z.of_nat n) (len a + len b)), (Z.leb_spec (off + Z.of_nat n) (len a));
    cbn [andb]; try lia; try done.
  rewrite drop_app_le, take_app_le by (try rewrite length_drop; unfold len in *; lia). done.
Qed.

Lemma field_here n x b off : off = 0 -> 0 <= x < 256 ^ Z.of_nat n -> field (to_le_bytes n x ++ b) off n = Some x.
Proof.
  intros -> H. unfold field. rewrite len_app, len_le. pose proof (len_nonneg b).
  rewrite (proj2 (Z.leb_le _ _)) by lia. cbn [andb]. rewrite (proj2 (Z.leb_le _ _)) by lia.
  rewrite drop_0, take_app_length' by (by rewrite length_to_le_bytes). by rewrite from_to_le_bytes.
Qed.

Ltac size := rewrite ?len_le, ?len_replicate; cbn [Z.of_nat Pos.of_succ_nat Pos.succ]; lia.
(** Read a field: skip the pieces before it. *)
Ltac field_read :=
  repeat rewrite field_skip by size;
  rewrite field_here; [cbn [mbind option_bind] | size | first [eassumption | cbn [Z.of_nat Pos.of_succ_nat Pos.succ]; lia]].

(** * The header *)

Definition fits_class (c : ElfClass) (x : Z) : Prop := 0 <= x < 256 ^ Z.of_nat (aw c).

Lemma len_enc_header c typ ent n : len (enc_header c typ ent n) = header_size c.
Proof. unfold enc_header. rewrite !len_app, !len_le, !len_replicate. by destruct c. Qed.

Lemma header_read c typ ent n rest :
  fits 16 typ -> fits_class c ent -> Z.of_nat n < 65536 ->
  header_of c (enc_header c typ ent n ++ rest) =
    Some (mkHeader typ (expected_machine c) ent (header_size c) 0 (program_header_size c) (Z.of_nat n) 0 0).
Proof.
  intros Ht He Hn. unfold header_of, enc_header. unfold fits_class in He. pow2.
  destruct c; cbn [aw expected_machine header_size program_header_size] in *;
    unfold ElfHeader32, ElfHeader64; rewrite <- !app_assoc;
    repeat field_read; done.
Qed.


Lemma parse_encoded c typ ent n rest :
  (typ = 2 \/ typ = 3) -> fits_class c ent -> Z.of_nat n < 65536 ->
  parse (enc_header c typ ent n ++ rest) = Some (inr (mkElf (enc_header c typ ent n ++ rest) c)).
Proof.
  intros Ht He Hn. set (b := enc_header c typ ent n ++ rest).
  assert (header_size c <= len b) as Hl by (unfold b; rewrite len_app, len_enc_header; pose proof (len_nonneg rest); lia).
  assert (field b 0 4 = Some ELF_MAGIC) as H0.
  { unfold b, enc_header, ELF_MAGIC. rewrite <- !app_assoc. by field_read. }
  assert (field b 5 1 = Some 1) as H5.
  { unfold b, enc_header, ELF_MAGIC. rewrite <- !app_assoc. by field_read. }
  assert (field b 4 1 = Some (match c with Elf32 => 1 | Elf64 => 2 end)) as H4.
  { unfold b, enc_header. rewrite <- !app_assoc. destruct c; by field_read. }
  assert (header_of c b = _) as Hh by (apply header_read; [destruct Ht; subst; pow2; lia|done..]).
  unfold parse. rewrite H0, H5, H4. cbn [mbind option_bind].
  rewrite (proj2 (Z.ltb_ge _ _)) by (destruct c; cbn [header_size] in Hl; lia).
  destruct c; cbn [Z.eqb Pos.eqb negb]; rewrite (proj2 (Z.ltb_ge _ _)) by lia;
    rewrite Hh; cbn [mbind option_bind h_typ h_machine]; destruct Ht as [-> | ->]; done.
Qed.

(** * Program headers *)

Definition part_fits (c : ElfClass) (p : Part) : Prop :=
  fits 32 (p_typ p) /\ fits 32 (p_flags p) /\ fits_class c (p_vaddr p) /\ fits_class c (p_paddr p) /\
  fits_class c (len (p_bytes p)) /\ fits_class c (p_memsz p).

Definition phdr_of (off : Z) (p : Part) : ProgramHeader :=
  mkPhdr (p_typ p) (p_flags p) off (p_vaddr p) (p_paddr p) (len (p_bytes p)) (p_memsz p).

Lemma len_enc_phdr c off p : len (enc_phdr c off p) = program_header_size c.
Proof. unfold enc_phdr. destruct c; rewrite !len_app, !len_le; reflexivity. Qed.

Lemma phdr_read c pre off p rest :
  part_fits c p -> fits_class c off ->
  match c with
  | Elf32 => ProgramHeader32 (pre ++ enc_phdr c off p ++ rest) (len pre)
  | Elf64 => ProgramHeader64 (pre ++ enc_phdr c off p ++ rest) (len pre)
  end = Some (phdr_of off p).
Proof.
  intros (Ht & Hf & Hv & Hp & Hs & Hm) Ho. unfold fits_class in *. pow2. pose proof (len_nonneg pre).
  destruct c; cbn [aw] in *; unfold ProgramHeader32, ProgramHeader64, enc_phdr; cbn [aw];
    rewrite <- ?app_assoc; repeat rewrite (field_skip pre) by lia;
    rewrite ?Z.add_simpl_l, ?Z.sub_diag; cbn [app]; repeat field_read; done.
Qed.

Lemma enc_table_app c ps1 : forall off ps2,
  enc_table c off (ps1 ++ ps2) = enc_table c off ps1 ++ enc_table c (off + len (concat (p_bytes <$> ps1))) ps2.
Proof.
  induction ps1 as [|p ps1 IH]; intros off ps2; [cbn; by rewrite Z.add_0_r|].
  cbn [app enc_table fmap list_fmap concat]. rewrite IH, len_app. do 3 f_equal. lia.
Qed.

Lemma len_enc_table c ps : forall off, len (concat (enc_table c off ps)) = Z.of_nat (length ps) * program_header_size c.
Proof.
  induction ps as [|p ps IH]; intros off; [done|].
  cbn [enc_table concat length]. rewrite len_app, len_enc_phdr, IH. lia.
Qed.

(** * Iteration *)

Section Width.
Context (W : Z).

Definition loadable (h : option ProgramHeader) : option ProgramHeader :=
  h ← h; if ph_typ h =? PT_LOAD then Some h else None.

(** The iterator yields the segments of the loadable headers of its table. *)
Lemma collect_headers e off sz count hs : forall fuel i,
  i + Z.of_nat (length hs) = count -> (length hs < fuel)%nat ->
  (forall k h, hs !! k = Some h -> program_header W e off sz (i + Z.of_nat k) = Some h) ->
  collect W fuel (mkIter e off sz count i) = mapM (to_segment W e) (omap loadable hs).
Proof.
  induction hs as [|h hs IH]; intros fuel i Hc Hf Hh; destruct fuel as [|fuel]; cbn [length] in *; try lia.
  - cbn [collect]. unfold next. cbn [it_count it_index].
    replace (Z.to_nat (count - i)) with 0%nat by lia. done.
  - pose proof (Hh 0%nat h eq_refl) as H0. rewrite Z.add_0_r in H0.
    assert (forall fuel', (length hs < fuel')%nat ->
              collect W fuel' (mkIter e off sz count (i + 1)) = mapM (to_segment W e) (omap loadable hs)) as IH'.
    { intros fuel' Hf'. apply IH; [lia|done|]. intros k h' Hk.
      replace (i + 1 + Z.of_nat k) with (i + Z.of_nat (S k)) by lia. by apply Hh. }
    assert (next W (mkIter e off sz count i) =
              match loadable h with
              | Some p => s ← to_segment W e p; Some (Some s, mkIter e off sz count (i + 1))
              | None => next W (mkIter e off sz count (i + 1))
              end) as Hn.
    { unfold next at 1. cbn [it_count it_index]. replace (Z.to_nat (count - i)) with (S (length hs)) by lia.
      cbn [next_from it_count it_index it_elf it_offset it_size]. rewrite (proj2 (Z.ltb_lt _ _)) by lia. rewrite H0.
      unfold next. cbn [mbind option_bind it_count it_index]. replace (Z.to_nat (count - (i + 1))) with (length hs) by lia.
      destruct h as [p|]; cbn [loadable mbind option_bind]; [|done]. by destruct (_ =? _). }
    cbn [omap list_omap]. destruct (loadable h) as [p|] eqn:Hl.
    + cbn [collect]. rewrite Hn. cbn [mapM]. destruct (to_segment W e p) as [s|]; cbn [mbind option_bind]; [|done].
      rewrite IH' by lia. done.
    + rewrite <- (IH' (S fuel)) by lia. cbn [collect]. by rewrite Hn.
Qed.

(** * The encoded image *)

Implicit Types im : Image.

(** Every field fits its place in the file and [usize], and so do the offsets. *)
Definition part_ok (c : ElfClass) (p : Part) : Prop :=
  part_fits c p /\ fits W (p_vaddr p) /\ fits W (p_paddr p) /\ fits W (p_memsz p).

Definition image_ok im : Prop :=
  (im_type im = 2 \/ im_type im = 3) /\ fits_class (im_class im) (im_entry im) /\
  Z.of_nat (length (im_parts im)) < 65536 /\ Forall (part_ok (im_class im)) (im_parts im) /\
  len (encode im) < 2 ^ W /\ fits_class (im_class im) (len (encode im)).

Fixpoint hdrs (off : Z) (ps : list Part) : list ProgramHeader :=
  match ps with
  | [] => []
  | p :: ps => phdr_of off p :: hdrs (off + len (p_bytes p)) ps
  end.

Lemma length_hdrs ps : forall off, length (hdrs off ps) = length ps.
Proof. induction ps as [|p ps IH]; intros off; [done|]. cbn [hdrs length]. by rewrite IH. Qed.

Lemma hdrs_lookup ps : forall off k h, hdrs off ps !! k = Some h ->
  exists ps1 p ps2, ps = ps1 ++ p :: ps2 /\ k = length ps1 /\ h = phdr_of (off + len (concat (p_bytes <$> ps1))) p.
Proof.
  induction ps as [|p ps IH]; intros off k h Hk; [done|]. destruct k as [|k]; cbn [hdrs lookup list_lookup] in Hk.
  - injection Hk as <-. exists [], p, ps. split_and!; [done|done|]. cbn. by rewrite Z.add_0_r.
  - apply IH in Hk as (ps1 & q & ps2 & -> & -> & ->). exists (p :: ps1), q, ps2. split_and!; [done|done|].
    cbn [fmap list_fmap concat]. rewrite len_app. f_equal. lia.
Qed.

Section Encoded.
Context (im : Image) (HW : 16 <= W) (Hok : image_ok im).

Abbreviation c := (im_class im).
Abbreviation parts := (im_parts im).
Abbreviation base := (table_end c (length parts)).
Definition file : Elf := mkElf (encode im) c.

Lemma file_header : header file = Some (mkHeader (im_type im) (expected_machine c) (im_entry im) (header_size c) 0
                                       (program_header_size c) (Z.of_nat (length parts)) 0 0).
Proof.
  destruct Hok as (Ht & He & Hn & _). unfold header, file, encode. cbn [class data].
  apply header_read; [destruct Ht as [-> | ->]; pow2; lia|done|done].
Qed.

Lemma parse_file : parse (encode im) = Some (inr file).
Proof. destruct Hok as (Ht & He & Hn & _). by apply parse_encoded. Qed.

Lemma small_fits x : 0 <= x < 65536 -> fits W x.
Proof. intros Hx. unfold fits. change 65536 with (2 ^ 16) in Hx. pose proof (Z.pow_le_mono_r 2 16 W). lia. Qed.

Lemma file_table : ph_table W file = Some (header_size c, program_header_size c, Z.of_nat (length parts)).
Proof.
  destruct Hok as (_ & _ & Hn & _). unfold ph_table. rewrite file_header.
  cbn [mbind option_bind h_phoff h_phentsize h_phnum].
  rewrite !wrap_small; [done|..]; apply small_fits; try lia; by destruct c.
Qed.

(** The file around the header and the bytes of a part. *)
Lemma file_split ps1 p ps2 : parts = ps1 ++ p :: ps2 ->
  let off := base + len (concat (p_bytes <$> ps1)) in
  exists pre rest before after,
    encode im = pre ++ enc_phdr c off p ++ rest /\
    len pre = header_size c + Z.of_nat (length ps1) * program_header_size c /\
    encode im = before ++ p_bytes p ++ after /\ len before = off.
Proof.
  intros Hp off.
  assert (encode im = enc_header c (im_type im) (im_entry im) (length parts) ++
            concat (enc_table c base (ps1 ++ p :: ps2)) ++ concat (p_bytes <$> ps1 ++ p :: ps2)) as ->
    by (unfold encode; by rewrite <- Hp).
  rewrite enc_table_app, concat_app. cbn [enc_table concat].
  rewrite fmap_app, concat_app. cbn [fmap list_fmap concat]. rewrite <- !app_assoc.
  set (H := enc_header _ _ _ _). set (T1 := concat (enc_table c base ps1)). set (T2 := concat (enc_table _ _ ps2)).
  set (B1 := concat (p_bytes <$> ps1)). set (B2 := concat (p_bytes <$> ps2)).
  exists (H ++ T1), (T2 ++ B1 ++ p_bytes p ++ B2), (H ++ T1 ++ enc_phdr c off p ++ T2 ++ B1), B2.
  rewrite <- !app_assoc. split_and!; [done| |done|]; unfold H, T1, T2, B1.
  - by rewrite len_app, len_enc_header, len_enc_table.
  - rewrite !len_app, len_enc_header, !len_enc_table, len_enc_phdr. unfold off, table_end.
    rewrite Hp, length_app. cbn [length]. lia.
Qed.

Lemma file_program_header k h : hdrs base parts !! k = Some h ->
  program_header W file (header_size c) (program_header_size c) (Z.of_nat k) = Some (Some h).
Proof.
  intros Hk. apply hdrs_lookup in Hk as (ps1 & p & ps2 & Hp & -> & ->).
  destruct (file_split _ _ _ Hp) as (pre & rest & before & after & He & Hpre & He' & Hb).
  destruct Hok as (_ & _ & Hn & Hps & HlW & Hlc).
  assert (part_ok c p) as (Hf & Hv & Ha & Hm) by (apply (List.Forall_elt _ ps1 ps2); by rewrite <- Hp).
  set (off := base + len (concat (p_bytes <$> ps1))) in *.
  assert (len pre + program_header_size c <= len (encode im)) as Hin.
  { rewrite He, !len_app, len_enc_phdr. pose proof (len_nonneg rest). lia. }
  assert (0 <= off /\ off + len (p_bytes p) <= len (encode im)) as [Hoff Hend].
  { rewrite He', !len_app. pose proof (len_nonneg before). pose proof (len_nonneg after). lia. }
  pose proof (len_nonneg (p_bytes p)). pose proof (len_nonneg pre).
  assert (0 <= program_header_size c <= 56) as Hsz by (by destruct c).
  unfold program_header. unfold fits in *.
  assert (0 <= Z.of_nat (length ps1) * program_header_size c) by nia. assert (0 <= header_size c) by (by destruct c).
  rewrite (wrap_small W (Z.of_nat _ * _)), (wrap_small W (header_size c + _)) by (unfold fits; lia).
  rewrite <- Hpre. cbn [data class file]. rewrite wrap_small by (unfold fits; lia).
  rewrite (proj2 (Z.ltb_ge _ _)) by lia. rewrite He, phdr_read; [|done|unfold fits_class in *; lia].
  cbn [mbind option_bind]. unfold cast. cbn [phdr_of ph_typ ph_flags ph_off ph_vaddr ph_paddr ph_filesz ph_memsz].
  by rewrite !wrap_small by (unfold fits; lia).
Qed.

Definition part_data (p : Part) : option (list Z) := match p_bytes p with [] => None | l => Some l end.

Lemma file_part_data ps1 p ps2 : parts = ps1 ++ p :: ps2 ->
  file_data W file (phdr_of (base + len (concat (p_bytes <$> ps1))) p) = Some (part_data p).
Proof.
  intros Hp. destruct (file_split _ _ _ Hp) as (_ & _ & before & after & _ & _ & He & Hb).
  destruct Hok as (_ & _ & _ & _ & HlW & _). rewrite He, !len_app in HlW.
  pose proof (len_nonneg before). pose proof (len_nonneg (p_bytes p)). pose proof (len_nonneg after).
  unfold file_data, part_data. cbn [phdr_of ph_filesz ph_off data file]. rewrite <- Hb, He, !len_app.
  rewrite wrap_small by (unfold fits; lia). destruct (p_bytes p) as [|x l] eqn:Hl; [done|].
  assert (0 < len (x :: l)) by (unfold len; cbn [length]; lia).
  rewrite (proj2 (Z.ltb_lt _ _)), (proj2 (Z.leb_le _ (len before + _))) by lia. cbn [andb].
  unfold slice. rewrite !len_app, (proj2 (Z.leb_le _ _)), (proj2 (Z.leb_le _ _)) by lia. cbn [andb mbind option_bind].
  rewrite drop_app_length' by (unfold len; lia). by rewrite take_app_length' by (unfold len; lia).
Qed.

End Encoded.
End Width.

End ElfFacts.
