(* ===== verification/ElfSpec.v ===== *)
(** The ELF loader on the files of the reference encoder: the memory, the
    permissions and the answer of [load_elf] are those of the program image. *)

From Stdlib Require Import ZArith Lia Bool.
From stdpp Require Import base option list numbers.
From S2P Require Import Prelude Guest Exe Elf ElfFacts.

Module ElfSpec.

Import Elf ElfFacts.

(** * The passes of the loader, address by address *)

Section Passes.
Context (W : Z) (bias : Z).

(** A segment ends inside the address space. *)
Definition seg_fits (s : Segment) : Prop :=
  0 <= sg_vaddr s + bias /\ 0 <= sg_memsz s /\
  sg_vaddr s + bias + sg_memsz s + PAGE_SIZE <= 2 ^ W /\ sg_vaddr s + bias + len (default [] (sg_data s)) <= 2 ^ W.

(** What a segment puts at an address. *)
Definition seg_byte (a : Z) (s : Segment) : option Z :=
  d ← sg_data s;
  let i := a - (sg_vaddr s + bias) in
  if (0 <=? i) && (i <? Z.max (len d) (sg_memsz s)) then Some (if i <? len d then d !!! Z.to_nat i else 0) else None.

(** The end of a segment, and the permissions it asks for a page. *)
Definition seg_end (s : Segment) : Z := sg_vaddr s + bias + sg_memsz s.
Definition seg_perm (exec : bool) (p : Z) (s : Segment) : option (bool * bool) :=
  if eqb (is_executable s) exec && ((sg_vaddr s + bias) / PAGE_SIZE <=? p) && (p <? div_ceil (seg_end s) PAGE_SIZE)
  then Some (is_writable s, exec) else None.

Lemma last_default {A} (x : A) o l : default x (list.last (option_list o ++ l)) = default (default x o) (list.last l).
Proof. destruct o as [y|]; [|done]. change (option_list (Some y) ++ l) with (y :: l). rewrite list.last_cons. by destruct (list.last l). Qed.

Lemma omap_cons_list {A B} (f : A -> option B) x l : omap f (x :: l) = option_list (f x) ++ omap f l.
Proof. cbn. by destruct (f x). Qed.

Lemma place_byte s mx seg a : seg_fits seg ->
  bytes (fst (place W bias (s, mx) seg)) a = default (bytes s a) (seg_byte a seg).
Proof.
  intros (Hv & Hm & He & Hd). unfold place, seg_byte. cbn [fst snd]. unfold PAGE_SIZE in He.
  rewrite !(wrap_small W (sg_vaddr seg + bias)) by (unfold fits; lia).
  destruct (sg_data seg) as [d|]; cbn [mbind option_bind default fst] in *; [|done].
  pose proof (len_nonneg d). set (v := sg_vaddr seg + bias) in *.
  assert (Exe.copy_to (bytes s) v d a = if (0 <=? a - v) && (a - v <? len d) then d !!! Z.to_nat (a - v) else bytes s a) as Hc.
  { unfold Exe.copy_to, len. by destruct (Z.leb_spec v a), (Z.leb_spec 0 (a - v)), (Z.ltb_spec a (v + Z.of_nat (length d))),
      (Z.ltb_spec (a - v) (Z.of_nat (length d))); try lia. }
  destruct (Z.ltb_spec (len d) (sg_memsz seg)) as [Hlt|Hge]; cbn [fst on_bytes bytes].
  - rewrite (wrap_small W (v + len d)) by (unfold fits; lia). unfold Exe.zero. rewrite Hc.
    destruct (Z.leb_spec (v + len d) a), (Z.ltb_spec a (v + len d + (sg_memsz seg - len d))),
      (Z.leb_spec 0 (a - v)), (Z.ltb_spec (a - v) (len d)), (Z.ltb_spec (a - v) (Z.max (len d) (sg_memsz seg))); cbn; done || lia.
  - rewrite Hc. destruct (Z.leb_spec 0 (a - v)), (Z.ltb_spec (a - v) (len d)), (Z.ltb_spec (a - v) (Z.max (len d) (sg_memsz seg)));
      cbn; done || lia.
Qed.

Lemma place_rest s mx seg : seg_fits seg ->
  asked (fst (place W bias (s, mx) seg)) = asked s /\ snd (place W bias (s, mx) seg) = Z.max mx (seg_end seg).
Proof.
  intros (Hv & Hm & He & Hd). unfold place, seg_end, PAGE_SIZE in *.
  rewrite !(wrap_small W (sg_vaddr seg + bias)), (wrap_small W (_ + sg_memsz seg)) by (unfold fits; lia).
  split.
  - destruct (sg_data seg); [|done]. by destruct (_ <? _).
  - destruct (sg_data seg); cbn [snd]; destruct (Z.ltb_spec mx (sg_vaddr seg + bias + sg_memsz seg)); lia.
Qed.

Lemma place_all segs : forall s mx, Forall seg_fits segs ->
  let r := foldl (place W bias) (s, mx) segs in
  (forall a, bytes (fst r) a = default (bytes s a) (list.last (omap (seg_byte a) segs))) /\
  asked (fst r) = asked s /\ snd r = foldl Z.max mx (seg_end <$> segs).
Proof.
  induction segs as [|seg segs IH]; intros s mx Hs; [done|]. inversion_clear Hs as [|? ? Hg Hs'].
  cbn [foldl]. destruct (place W bias (s, mx) seg) as [s' mx'] eqn:Hp.
  destruct (IH s' mx' Hs') as (Hb & Ha & Hm). pose proof (place_rest s mx seg Hg) as [Ha' Hm'].
  rewrite Hp in Ha', Hm'. cbn [fst snd] in Ha', Hm'. split_and!.
  - intros a. rewrite Hb, omap_cons_list, last_default. f_equal. rewrite <- (place_byte s mx seg a Hg). by rewrite Hp.
  - by rewrite Ha.
  - rewrite Hm, Hm'. done.
Qed.

Lemma protect_page pass s seg p : seg_fits seg ->
  asked (protect W bias pass s seg) p = match seg_perm pass p seg with Some w => Some w | None => asked s p end /\
  bytes (protect W bias pass s seg) = bytes s.
Proof.
  intros (Hv & Hm & He & Hd). unfold protect, seg_perm, seg_end, PAGE_SIZE in *.
  destruct (eqb (is_executable seg) pass); cbn [negb andb]; [|done].
  rewrite !(wrap_small W (sg_vaddr seg + bias)), (wrap_small W (_ + sg_memsz seg)) by (unfold fits; lia).
  set (v := sg_vaddr seg + bias) in *. unfold div_ceil.
  assert (0 <= v / 4096 /\ v / 4096 <= (v + sg_memsz seg + 4096 - 1) / 4096 /\ (v + sg_memsz seg + 4096 - 1) / 4096 < 2 ^ W).
  { Z.to_euclidean_division_equations; lia. }
  rewrite wrap_small by (unfold fits; lia). set (e := (v + sg_memsz seg + 4096 - 1) / 4096) in *.
  destruct (Z.ltb_spec 0 (e - v / 4096)); cbn [set_page_flags asked bytes]; (split; [|done]).
  - replace (v / 4096 + (e - v / 4096)) with e by lia. by destruct ((v / 4096 <=? p) && (p <? e)).
  - destruct (Z.leb_spec (v / 4096) p), (Z.ltb_spec p e); cbn [andb]; done || lia.
Qed.

Lemma protect_all pass segs : forall s, Forall seg_fits segs ->
  let r := foldl (protect W bias pass) s segs in
  (forall p, asked r p = match list.last (omap (seg_perm pass p) segs) with Some w => Some w | None => asked s p end) /\ bytes r = bytes s.
Proof.
  induction segs as [|seg segs IH]; intros s Hs; [done|]. inversion_clear Hs as [|? ? Hg Hs'].
  cbn [foldl]. destruct (IH (protect W bias pass s seg) Hs') as [Ha Hb]. split.
  - intros p. rewrite Ha, omap_cons_list. destruct (protect_page pass s seg p Hg) as [-> _].
    destruct (seg_perm pass p seg) as [w|]; [|done]. change (option_list (Some w) ++ ?l) with (w :: l). rewrite list.last_cons. by destruct (list.last _).
  - rewrite Hb. by destruct (protect_page pass s seg 0 Hg).
Qed.

End Passes.

(** * Loading an image *)

(** What a part of the image puts at an address: its bytes, then zeros up to
    its size in memory; a part without bytes leaves memory as it was. *)
Definition part_byte (bias a : Z) (p : Part) : option Z :=
  let i := a - (p_vaddr p + bias) in
  if (p_typ p =? PT_LOAD) && (0 <? len (p_bytes p)) && (0 <=? i) && (i <? Z.max (len (p_bytes p)) (p_memsz p))
  then Some (if i <? len (p_bytes p) then p_bytes p !!! Z.to_nat i else 0) else None.

Definition part_end (bias : Z) (p : Part) : Z := if p_typ p =? PT_LOAD then p_vaddr p + bias + p_memsz p else 0.

(** The permissions a part asks for a page, when it is executable as [exec] says. *)
Definition part_perm (bias : Z) (exec : bool) (pg : Z) (p : Part) : option (bool * bool) :=
  if (p_typ p =? PT_LOAD) && eqb (Z.testbit (p_flags p) 0) exec &&
     ((p_vaddr p + bias) / PAGE_SIZE <=? pg) && (pg <? div_ceil (p_vaddr p + bias + p_memsz p) PAGE_SIZE)
  then Some (Z.testbit (p_flags p) 1, exec) else None.

(** The last part of an address decides its byte; the last executable part of
    a page its permissions, or the last part when none is executable. *)
Definition image_byte (parts : list Part) (bias : Z) (m : Mem) (a : Z) : Z :=
  default (m a) (list.last (omap (part_byte bias a) parts)).
Definition image_perm (parts : list Part) (bias : Z) (asked : Z -> option (bool * bool)) (pg : Z) : option (bool * bool) :=
  match list.last (omap (part_perm bias true pg) parts), list.last (omap (part_perm bias false pg) parts) with
  | Some w, _ => Some w
  | None, Some w => Some w
  | None, None => asked pg
  end.

(** The first page boundary at or after every part. *)
Definition image_end (parts : list Part) (bias : Z) : Z :=
  div_ceil (foldl Z.max 0 (part_end bias <$> parts)) PAGE_SIZE * PAGE_SIZE.

Definition placed (W bias : Z) (p : Part) : Prop :=
  p_vaddr p + bias + p_memsz p + PAGE_SIZE <= 2 ^ W /\ p_vaddr p + bias + len (p_bytes p) <= 2 ^ W.

Definition seg_of (off : Z) (p : Part) : Segment :=
  mkSegment (p_vaddr p) (p_paddr p) (p_memsz p) (p_flags p) (part_data p) off (len (p_bytes p)).

Fixpoint segs (off : Z) (ps : list Part) : list Segment :=
  match ps with
  | [] => []
  | p :: ps => (if p_typ p =? PT_LOAD then [seg_of off p] else []) ++ segs (off + len (p_bytes p)) ps
  end.

(** A function of the segment of a part, over all segments. *)
Lemma omap_segs {A} (f : Segment -> option A) (g : Part -> option A) ps : forall off,
  (forall off p, In p ps -> g p = if p_typ p =? PT_LOAD then f (seg_of off p) else None) -> omap f (segs off ps) = omap g ps.
Proof.
  induction ps as [|p ps IH]; intros off Hg; [done|]. cbn [segs]. rewrite omap_app, omap_cons_list, (Hg off p) by (by left).
  rewrite (IH _ (fun off q Hq => Hg off q (or_intror Hq))). f_equal.
  destruct (p_typ p =? PT_LOAD); [|done]. cbn. by destruct (f _).
Qed.

Lemma segs_forall (P : Segment -> Prop) ps : forall off, (forall off p, In p ps -> P (seg_of off p)) -> Forall P (segs off ps).
Proof.
  induction ps as [|p ps IH]; intros off Hp; [constructor|]. cbn [segs]. apply Forall_app_2.
  - destruct (_ =? _); repeat constructor. apply Hp. by left.
  - apply IH. intros off' q Hq. apply Hp. by right.
Qed.

Lemma test_flag x k : 0 <= k -> negb (Z.land x (2 ^ k) =? 0) = Z.testbit x k.
Proof. intros Hk. rewrite <- (land_bit_eqb x k Hk). unfold bit. by rewrite Z.shiftl_1_l. Qed.

Section Image.
Context (W : Z) (HW : 16 <= W) (im : Image) (Hok : image_ok W im) (bias : Z) (Hbias : fits W bias)
        (Hpl : Forall (placed W bias) (im_parts im)).

Abbreviation c := (im_class im).
Abbreviation parts := (im_parts im).
Abbreviation base := (table_end c (length parts)).

Lemma segments_of_file : each_segment W (file im) = Some (segs base parts).
Proof.
  unfold each_segment, segments. rewrite (file_table W im HW Hok). cbn [mbind option_bind it_count].
  rewrite Nat2Z.id, (collect_headers W _ _ _ _ (Some <$> hdrs base parts)).
  - assert (forall ps1 ps2, parts = ps1 ++ ps2 ->
      mapM (to_segment W (file im)) (omap loadable (Some <$> hdrs (base + len (concat (p_bytes <$> ps1))) ps2)) =
      Some (segs (base + len (concat (p_bytes <$> ps1))) ps2)) as H.
    { intros ps1 ps2. revert ps1. induction ps2 as [|p ps2 IH]; intros ps1 Hp; [done|].
      specialize (IH (ps1 ++ [p])). rewrite <- app_assoc, fmap_app, concat_app, len_app in IH. specialize (IH Hp).
      cbn [fmap list_fmap concat app] in IH. rewrite app_nil_r, Z.add_assoc in IH.
      cbn [hdrs fmap list_fmap segs]. rewrite omap_cons_list. cbn [loadable mbind option_bind].
      pose proof (file_part_data W im HW Hok ps1 p ps2 Hp) as Hd.
      set (o := base + len (concat (p_bytes <$> ps1))) in *. change (ph_typ (phdr_of o p)) with (p_typ p).
      destruct (p_typ p =? PT_LOAD); [|exact IH].
      change (option_list (Some (phdr_of o p)) ++ ?l) with (phdr_of o p :: l). cbn [mapM].
      assert (to_segment W (file im) (phdr_of o p) = Some (seg_of o p)) as -> by (unfold to_segment; by rewrite Hd).
      change (list_fmap ProgramHeader (option ProgramHeader) Some ?l) with (Some <$> l) in *.
      cbn [mbind option_bind]. rewrite IH. done. }
    specialize (H [] parts eq_refl). cbn [fmap list_fmap concat] in H. change (len []) with 0 in H. by rewrite Z.add_0_r in H.
  - rewrite length_fmap, length_hdrs. lia.
  - rewrite length_fmap, length_hdrs. lia.
  - intros k h Hk. rewrite list_lookup_fmap in Hk. destruct (hdrs base parts !! k) as [h'|] eqn:Hh; [|done].
    cbn in Hk. injection Hk as <-. by apply (file_program_header W im HW Hok).
Qed.

Lemma parts_ok p : In p parts -> part_ok W c p /\ placed W bias p.
Proof.
  intros Hp. destruct Hok as (_ & _ & _ & Hps & _). rewrite List.Forall_forall in Hps, Hpl. by split; [apply Hps|apply Hpl].
Qed.

Lemma segs_fit : Forall (seg_fits W bias) (segs base parts).
Proof.
  apply segs_forall. intros off p Hp. destruct (parts_ok p Hp) as [(_ & Hv & _ & Hm) (He & Hd)]. unfold fits in *.
  unfold seg_fits. cbn [seg_of sg_vaddr sg_memsz sg_data]. split_and!; try lia.
  unfold part_data. destruct (p_bytes p) as [|x l]; cbn [default]; [|done]. unfold len, PAGE_SIZE in *. cbn [length] in *. lia.
Qed.

Lemma bytes_of_segs a : omap (seg_byte bias a) (segs base parts) = omap (part_byte bias a) parts.
Proof.
  apply omap_segs. intros off p _. unfold part_byte, seg_byte. destruct (p_typ p =? PT_LOAD); [|done].
  cbn [seg_of sg_data sg_vaddr sg_memsz andb]. unfold part_data. destruct (p_bytes p) as [|x l]; [done|].
  by rewrite (proj2 (Z.ltb_lt 0 _)) by (unfold len; cbn [length]; lia).
Qed.

Lemma perms_of_segs exec pg : omap (seg_perm bias exec pg) (segs base parts) = omap (part_perm bias exec pg) parts.
Proof.
  apply omap_segs. intros off p _. unfold part_perm, seg_perm, seg_end, is_executable, is_writable.
  destruct (p_typ p =? PT_LOAD); [|done]. cbn [seg_of sg_flags sg_vaddr sg_memsz andb].
  rewrite <- (test_flag (p_flags p) 0), <- (test_flag (p_flags p) 1) by lia. done.
Qed.

Lemma max_of_segs mx : 0 <= mx -> foldl Z.max mx (seg_end bias <$> segs base parts) = foldl Z.max mx (part_end bias <$> parts).
Proof.
  intros Hmx. assert (forall p, In p parts -> 0 <= p_vaddr p + bias + p_memsz p) as Hnn.
  { intros p Hp. destruct (parts_ok p Hp) as [(_ & Hv & _ & Hm) _]. unfold fits in *. lia. }
  clear - Hmx Hnn. revert mx Hmx. generalize base. induction parts as [|p ps IH]; intros off mx Hmx; [done|].
  cbn [segs]. rewrite fmap_app, foldl_app. cbn [fmap list_fmap foldl]. unfold part_end at 1.
  destruct (p_typ p =? PT_LOAD); cbn [fmap list_fmap foldl app].
  - apply IH; [intros q Hq; apply Hnn; by right|unfold seg_end; cbn [seg_of sg_vaddr sg_memsz]; lia].
  - rewrite Z.max_l by done. apply IH; [intros q Hq; apply Hnn; by right|done].
Qed.

Lemma page_align x : 0 <= x -> x + PAGE_SIZE <= 2 ^ W ->
  Z.land (wrap W (x + PAGE_SIZE - 1)) (bnot W (PAGE_SIZE - 1)) = div_ceil x PAGE_SIZE * PAGE_SIZE.
Proof.
  intros Hx Hlt. unfold PAGE_SIZE in *. rewrite wrap_small by (unfold fits; lia). unfold div_ceil.
  change (4096 - 1) with (Z.ones 12). by rewrite land_bnot_ones by (unfold fits; lia).
Qed.

Lemma foldl_max_bound (l : list Z) b : forall mx, mx <= b -> Forall (fun x => x <= b) l -> foldl Z.max mx l <= b /\ mx <= foldl Z.max mx l.
Proof.
  induction l as [|x l IH]; intros mx Hmx Hl; [cbn; lia|]. inversion_clear Hl as [|? ? Hx Hl']. cbn [foldl].
  destruct (IH (Z.max mx x)); [lia|done|lia].
Qed.

Lemma end_bound : 0 <= foldl Z.max 0 (part_end bias <$> parts) /\ foldl Z.max 0 (part_end bias <$> parts) + PAGE_SIZE <= 2 ^ W.
Proof.
  assert (2 ^ 16 <= 2 ^ W) by (apply Z.pow_le_mono_r; lia).
  destruct (foldl_max_bound (part_end bias <$> parts) (2 ^ W - PAGE_SIZE) 0) as [H1 H2]; [unfold PAGE_SIZE; lia| |lia].
  apply List.Forall_forall. intros x (p & <- & Hp)%List.in_map_iff. destruct (parts_ok p Hp) as [_ (He & _)].
  unfold part_end. destruct (_ =? _); unfold PAGE_SIZE in *; lia.
Qed.

End Image.

Lemma load_elf_ok W im bias s :
  16 <= W -> image_ok W im -> fits W bias -> Forall (placed W bias) (im_parts im) -> fits 64 (im_entry im + bias) ->
  exists s', load_elf W s (encode im) bias =
      Some (inr (mkLoaded (im_entry im + bias) (im_class im) (image_end (im_parts im) bias) (wrap W (bias + header_size (im_class im)))
                   (program_header_size (im_class im)) (Z.of_nat (length (im_parts im))), s')) /\
    (forall a, bytes s' a = image_byte (im_parts im) bias (bytes s) a) /\
    (forall pg, asked s' pg = image_perm (im_parts im) bias (asked s) pg).
Proof.
  intros HW Hok Hb Hpl He. unfold load_elf.
  rewrite (parse_file W im Hok). cbn [mbind option_bind]. rewrite (segments_of_file W HW im Hok). cbn [mbind option_bind].
  rewrite (file_table W im HW Hok). unfold entry. rewrite (file_header W im Hok). cbn [mbind option_bind h_entry file class].
  pose proof (segs_fit W HW im Hok bias Hb Hpl) as Hfit.
  destruct (place_all W bias _ s 0 Hfit) as (Hby & Has & Hmx). destruct (foldl (place W bias) _ _) as [s1 mx]. cbn [fst snd] in *.
  cbn [foldl]. destruct (protect_all W bias false _ s1 Hfit) as [Hp1 Hb1]. set (s2 := foldl (protect W bias false) s1 _) in *.
  destruct (protect_all W bias true _ s2 Hfit) as [Hp2 Hb2]. set (s3 := foldl (protect W bias true) s2 _) in *.
  exists s3. rewrite Hmx, (max_of_segs W HW im Hok bias Hb Hpl) by lia.
  destruct (end_bound W HW im Hok bias Hpl). rewrite page_align, (wrap_small 64) by done. split_and!; [done|..].
  - intros a. rewrite Hb2, Hb1, Hby. unfold image_byte. by rewrite (bytes_of_segs im).
  - intros pg. rewrite Hp2, Hp1, Has, !(perms_of_segs im). unfold image_perm. by repeat destruct (list.last _).
Qed.


(** * A program with code, and data that shares its last page *)

Module Sample.

Definition code : Part := mkPart PT_LOAD 5 0x1000 0x1000 3 0x1000 [0x90; 0xCD; 0x80].
Definition vars : Part := mkPart PT_LOAD 6 0x1800 0x1800 0x1000 0x1000 [7; 8].
Definition prog : Image := mkImage Elf32 2 0x1000 [code; vars].
Definition clean : Space := mkSpace (fun _ => 0xAA) (fun _ => None).

Lemma prog_ok : image_ok 32 prog.
Proof.
  split; [by left|]. split; [by vm_compute|]. split; [by vm_compute|]. split; [|by vm_compute].
  repeat apply Forall_cons_2; try apply Forall_nil_2; by vm_compute.
Qed.

Lemma prog_placed bias : 0 <= bias <= 0x10000000 -> Forall (placed 32 bias) (im_parts prog).
Proof.
  intros Hb. repeat apply Forall_cons_2; try apply Forall_nil_2; unfold placed, PAGE_SIZE, len;
    cbn [code vars p_vaddr p_memsz p_bytes length]; lia.
Qed.


(** ** Files the parser does not survive *)

(** A part of 32 bytes at the top of the offsets of 32 bits: its end wraps,
    the test for the end of the file passes, and taking the slice panics. *)
Definition header_only (typ off : Z) : list Z :=
  enc_header Elf32 2 0x1000 1 ++ enc_phdr Elf32 off (mkPart typ 5 0x1000 0x1000 0x20 0x1000 (replicate 32 0)).

Lemma offset_wraps_panics : dyn_info 32 (header_only PT_INTERP 0xFFFFFFF0) = None /\ load_elf 32 clean (header_only PT_LOAD 0xFFFFFFF0) 0 = None.
Proof. by vm_compute. Qed.

(** A table of program headers there is read outside the file. *)
Lemma table_wraps_reads_outside :
  ph_table 32 (mkElf (list_inserts 28 [0xF0; 0xFF; 0xFF; 0xFF] (encode prog)) Elf32) = Some (0xFFFFFFF0, 32, 2) /\
  load_elf 32 clean (list_inserts 28 [0xF0; 0xFF; 0xFF; 0xFF] (encode prog)) 0 = None.
Proof. by vm_compute. Qed.

(** A file cut off before the bytes of its parts is loaded, without them. *)
Lemma truncated_file_loads :
  (fun r => match r with Some (inr (l, s)) => Some (l_entry l, bytes s 0x1000) | _ => None end)
    (load_elf 32 clean (take 116 (encode prog)) 0) = Some (0x1000, 0xAA).
Proof. by vm_compute. Qed.

End Sample.

End ElfSpec.
