(* ===== verification/ElfSym.v ===== *)
(** The symbol table of an ELF file: [SymbolTable] of lib/src/elf.rs and
    [SymbolData] of kernel/src/kernel/stacktrace.rs, by which the kernel names
    addresses.

    The lookup gives the best of the symbols that may contain an address. *)

From Stdlib Require Import ZArith Lia Bool.
From stdpp Require Import base option list numbers.
From S2P Require Import Prelude Guest Exe Elf ElfFacts.

Module ElfSym.

Import Elf.

(** * Names *)

(** [start.iter().position(|&c| c == 0).unwrap_or(start.len())] bytes. *)
Fixpoint until_nul (s : list Z) : list Z :=
  match s with [] => [] | b :: s => if b =? 0 then [] else b :: until_nul s end.

Definition get_str (d : list Z) (offset : Z) : list Z :=
  if len d <=? offset then [] else until_nul (drop (Z.to_nat offset) d).

Definition SYMTAB : list Z := [46; 115; 121; 109; 116; 97; 98].
Definition STRTAB : list Z := [46; 115; 116; 114; 116; 97; 98].

(** * Section headers *)

Definition section_header_size (c : ElfClass) : Z := match c with Elf32 => 40 | Elf64 => 64 end.
Definition sym_size (c : ElfClass) : Z := match c with Elf32 => 16 | Elf64 => 24 end.

(** A symbol; the two layouts have the same fields in different orders. *)
Record Sym := mkSym { s_name : Z; s_value : Z; s_size : Z; s_info : Z }.
Definition typ (s : Sym) : Z := Z.land (s_info s) 0xF.

Section Width.
Context (W : Z).
Abbreviation usize := (wrap W).

(** The name, type, offset and size of a section header at the start of [s];
    the header is read through a pointer into the rest of the file. *)
Definition section (c : ElfClass) (s : list Z) : option (Z * Z * Z * Z) :=
  name ← field s 0 4; t ← field s 4 4;
  match c with
  | Elf32 => off ← field s 16 4; size ← field s 20 4; Some (name, t, usize off, usize size)
  | Elf64 => off ← field s 24 8; size ← field s 32 8; Some (name, t, usize off, usize size)
  end.

(** The loop over the section headers, [n] left, with the tables found. *)
Fixpoint find_sections (n : nat) (i : Z) (c : ElfClass) (b : list Z) (shoff : Z) (names : list Z) (sym str : option (Z * Z))
  : option (option (Z * Z) * option (Z * Z)) :=
  match n with
  | O => Some (sym, str)
  | S n =>
      sh ← slice b (usize (shoff + usize (i * section_header_size c))) (len b);
      '(name_offset, t, off, size) ← section c sh;
      if len names <=? usize name_offset then find_sections n (i + 1) c b shoff names sym str else
      let name := get_str names (usize name_offset) in
      if bool_decide (name = SYMTAB) && (t =? SHT_SYMTAB)
      then find_sections n (i + 1) c b shoff names (Some (off, size)) str
      else if bool_decide (name = STRTAB) && (t =? SHT_STRTAB)
      then find_sections n (i + 1) c b shoff names sym (Some (off, size))
      else find_sections n (i + 1) c b shoff names sym str
  end.

(** [None] is a panic, [Some None] the answer [None]. *)
Definition find_symtab_strtab (c : ElfClass) (b : list Z) (shoff shnum shstrndx : Z) : option (option (Z * Z * Z * Z)) :=
  if (shoff =? 0) || (shnum =? 0) || (shnum <=? shstrndx) then Some None else
  if len b <? usize (shoff + usize (shnum * section_header_size c)) then Some None else
  raw ← slice b (usize (shoff + usize (shstrndx * section_header_size c))) (len b);
  '(_, _, off, size) ← section c raw;
  if len b <? usize (off + size) then Some None else
  names ← slice b off (usize (off + size));
  '(sym, str) ← find_sections (Z.to_nat shnum) 0 c b shoff names None None;
  Some match sym, str with
       | Some (so, ss), Some (ro, rs) => Some (so, ss, ro, rs)
       | _, _ => None
       end.

(** * The table *)

Record SymbolTable := mkTable { t_class : ElfClass; t_syms : list Sym; t_strtab : list Z }.

Definition sym_at (c : ElfClass) (b : list Z) (at_ : Z) : option Sym :=
  match c with
  | Elf32 => name ← field b at_ 4; value ← field b (at_ + 4) 4; size ← field b (at_ + 8) 4; info ← field b (at_ + 12) 1;
             Some (mkSym name value size info)
  | Elf64 => name ← field b at_ 4; info ← field b (at_ + 4) 1; value ← field b (at_ + 8) 8; size ← field b (at_ + 16) 8;
             Some (mkSym name value size info)
  end.

Definition parse_class (c : ElfClass) (b : list Z) : option (option SymbolTable) :=
  if len b <? header_size c then Some None else
  h ← header_of c b;
  r ← find_symtab_strtab c b (usize (h_shoff h)) (h_shnum h) (h_shstrndx h);
  match r with
  | None => Some None
  | Some (sym_off, sym_len, str_off, str_len) =>
      if (len b <? usize (sym_off + sym_len)) || (len b <? usize (str_off + str_len)) then Some None else
      syms ← mapM (fun i => sym_at c b (sym_off + i * sym_size c)) (seqZ 0 (sym_len / sym_size c));
      strtab ← slice b str_off (usize (str_off + str_len));
      Some (Some (mkTable c syms strtab))
  end.

Definition parse_symbols (b : list Z) : option (option SymbolTable) :=
  if len b <? 16 then Some None else
  magic ← field b 0 4;
  if negb (magic =? ELF_MAGIC) then Some None else
  cls ← field b 4 1;
  if cls =? 1 then parse_class Elf32 b else if cls =? 2 then parse_class Elf64 b else Some None.

Definition symbol_count (t : SymbolTable) : nat := length (t_syms t).
Definition func_count (t : SymbolTable) : nat := length (filter (fun s => typ s = STT_FUNC) (t_syms t)).

(** [SymbolData::new]: the file is kept when its symbols can be read. *)
Definition symbol_data (b : list Z) : option (option (list Z)) :=
  r ← parse_symbols b; Some (match r with Some _ => Some b | None => None end).

End Width.

(** * Lookup *)

(** The width of the addresses of a table. *)
Definition addr_width (c : ElfClass) : Z := match c with Elf32 => 32 | Elf64 => 64 end.

(** The tests of the loop that pass a symbol over. *)
Definition skipped (w addr : Z) (s : Sym) : bool :=
  (negb (typ s =? STT_FUNC) && negb (typ s =? STT_NOTYPE)) || ((s_value s =? 0) || (s_name s =? 0)) || (addr <? s_value s) ||
  ((0 <? s_size s) && (wrap w (s_value s + s_size s) <? addr)).

Definition lookup_step (w addr : Z) (best : option Sym * Z * bool) (s : Sym) : option Sym * Z * bool :=
  let '(b, best_addr, best_has_size) := best in
  if skipped w addr s then best else
  let has_size := 0 <? s_size s in
  if (has_size && negb best_has_size) || (eqb has_size best_has_size && (best_addr <? s_value s))
  then (Some s, s_value s, has_size) else best.

(** The symbol found and the offset of the address in it. *)
Definition lookup_symbol (t : SymbolTable) (addr : Z) : option (Sym * Z) :=
  let w := addr_width (t_class t) in
  let addr := wrap w addr in
  match foldl (lookup_step w addr) (None, 0, false) (t_syms t) with
  | (Some s, _, _) => Some (s, wrap w (addr - s_value s))
  | (None, _, _) => None
  end.

(** The bytes of its name; a name that is not UTF-8 is answered as empty. *)
Definition lookup (utf8 : list Z -> bool) (t : SymbolTable) (addr : Z) : list Z * Z :=
  match lookup_symbol t addr with
  | Some (s, off) => let n := get_str (t_strtab t) (s_name s) in (if utf8 n then n else [], off)
  | None => ([], 0)
  end.

(** ** The best symbol *)

(** A symbol that may contain the address, and the order in which symbols
    are preferred: those of known size first, then the highest. *)
Definition candidate (w addr : Z) (s : Sym) : bool := negb (skipped w addr s).
Definition preferred (s t : Sym) : bool :=
  if eqb (0 <? s_size s) (0 <? s_size t) then s_value t <=? s_value s else 0 <? s_size s.

Definition best_of (w addr : Z) (best : option Sym * Z * bool) (seen : list Sym) : Prop :=
  match best with
  | (None, a, h) => a = 0 /\ h = false /\ Forall (fun s => candidate w addr s = false) seen
  | (Some s, a, h) => a = s_value s /\ h = (0 <? s_size s) /\ In s seen /\ candidate w addr s = true /\
                      Forall (fun t => candidate w addr t = true -> preferred s t = true) seen
  end.

Lemma preferred_trans s t u : preferred s t = true -> preferred t u = true -> preferred s u = true.
Proof.
  unfold preferred. destruct (0 <? s_size s), (0 <? s_size t), (0 <? s_size u); cbn [eqb]; bool_prop; done || lia.
Qed.

Lemma preferred_refl s : preferred s s = true.
Proof. unfold preferred. rewrite eqb_reflx. by apply Z.leb_le. Qed.

Lemma lookup_step_best w addr best seen s : 0 <= s_value s ->
  best_of w addr best seen -> best_of w addr (lookup_step w addr best s) (seen ++ [s]).
Proof.
  intros Hs. destruct best as [[b a] h]. unfold lookup_step. destruct (skipped w addr s) eqn:Hk.
  - assert (candidate w addr s = false) as Hc by (unfold candidate; by rewrite Hk).
    destruct b as [b|]; cbn [best_of].
    + intros (Ha & Hh & Hin & Hcb & Hall). split_and!; try done; [apply in_or_app; by left|].
      apply Forall_app_2; [done|]. repeat constructor. congruence.
    + intros (Ha & Hh & Hall). split_and!; try done. apply Forall_app_2; [done|]. by repeat constructor.
  - assert (candidate w addr s = true) as Hc by (unfold candidate; by rewrite Hk).
    assert (s_value s <> 0) as Hv.
    { unfold skipped in Hk. destruct (Z.eqb_spec (s_value s) 0); [|done]. by rewrite orb_true_r in Hk. }
    destruct b as [b|]; cbn [best_of].
    + intros (-> & -> & Hin & Hcb & Hall).
      assert (((0 <? s_size s) && negb (0 <? s_size b)) || (eqb (0 <? s_size s) (0 <? s_size b) && (s_value b <? s_value s))
                = negb (preferred b s)) as ->.
      { unfold preferred. destruct (0 <? s_size s), (0 <? s_size b); cbn [eqb negb andb orb]; bool_prop; done || lia. }
      destruct (preferred b s) eqn:Hp; cbn [negb best_of].
      * split_and!; try done; [apply in_or_app; by left|]. apply Forall_app_2; [done|]. repeat constructor. by intros.
      * assert (preferred s b = true) as Hsb.
        { unfold preferred in *. destruct (0 <? s_size s), (0 <? s_size b); cbn [eqb] in *; bool_prop; done || lia. }
        split_and!; try done; [apply in_or_app; right; by left|]. apply Forall_app_2.
        -- eapply List.Forall_impl; [|exact Hall]. intros t Ht Hct. eapply preferred_trans; [exact Hsb|by apply Ht].
        -- repeat constructor. intros _. apply preferred_refl.
    + intros (-> & -> & Hall).
      assert (((0 <? s_size s) && negb false) || (eqb (0 <? s_size s) false && (0 <? s_value s)) = true) as ->.
      { destruct (0 <? s_size s); [done|]. cbn [andb eqb orb]. apply Z.ltb_lt. lia. }
      cbn [best_of]. split_and!; try done; [apply in_or_app; right; by left|]. apply Forall_app_2.
      * eapply List.Forall_impl; [|exact Hall]. cbn beta. intros t Ht Hct. congruence.
      * repeat constructor. intros _. apply preferred_refl.
Qed.

Lemma lookup_loop_best w addr syms : forall best seen, Forall (fun s => 0 <= s_value s) syms ->
  best_of w addr best seen -> best_of w addr (foldl (lookup_step w addr) best syms) (seen ++ syms).
Proof.
  induction syms as [|s syms IH]; intros best seen Hv Hb; [by rewrite app_nil_r|]. inversion_clear Hv as [|? ? Hs Hv'].
  cbn [foldl]. replace (seen ++ s :: syms) with ((seen ++ [s]) ++ syms) by (by rewrite <- app_assoc).
  apply IH; [done|]. by apply lookup_step_best.
Qed.

(** A symbol is found when there is a candidate; it is a candidate that is
    preferred to every other, and the offset is the distance to it. *)
Theorem lookup_finds_best t addr : Forall (fun s => 0 <= s_value s) (t_syms t) ->
  let w := addr_width (t_class t) in
  match lookup_symbol t addr with
  | Some (s, off) => In s (t_syms t) /\ candidate w (wrap w addr) s = true /\ s_value s + off = wrap w addr /\
                     Forall (fun u => candidate w (wrap w addr) u = true -> preferred s u = true) (t_syms t)
  | None => Forall (fun s => candidate w (wrap w addr) s = false) (t_syms t)
  end.
Proof.
  intros Hv w. unfold lookup_symbol. fold w.
  pose proof (lookup_loop_best w (wrap w addr) (t_syms t) (None, 0, false) [] Hv) as H. cbn [app best_of] in H.
  specialize (H (conj eq_refl (conj eq_refl (Forall_nil_2 _)))).
  destruct (foldl _ _ _) as [[[s|] a] h]; cbn [best_of] in H; [|by destruct H as (_ & _ & H)].
  destruct H as (_ & _ & Hin & Hc & Hall). split_and!; try done.
  rewrite List.Forall_forall in Hv. specialize (Hv s Hin).
  assert (0 <= w) by (unfold w; by destruct (t_class t)).
  destruct (wrap_fits w addr ltac:(lia)) as [H0 H1].
  assert (s_value s <= wrap w addr).
  { unfold candidate, skipped in Hc. apply negb_true_iff, orb_false_iff in Hc as [Hc _]. apply orb_false_iff in Hc as [_ Hc].
    by apply Z.ltb_ge in Hc. }
  rewrite (wrap_small w (wrap w addr - s_value s)) by (unfold fits; lia). lia.
Qed.

(** A section table near the top of the offsets of 32 bits: its end wraps, the
    test for the end of the file passes, and taking the slice panics. *)
Lemma section_table_wraps :
  parse_symbols 32 (list_inserts 48 [1; 0] (list_inserts 32 [0xF0; 0xFF; 0xFF; 0xFF] (ElfFacts.enc_header Elf32 2 0x1000 0))) = None.
Proof. by vm_compute. Qed.

(** The address just past the last byte of a function is still attributed to it. *)
Lemma lookup_includes_end :
  lookup_symbol (mkTable Elf32 [mkSym 1 0x1000 0x10 2] []) 0x1010 = Some (mkSym 1 0x1000 0x10 2, 0x10).
Proof. by vm_compute. Qed.

End ElfSym.
