(* ===== verification/ElfExec.v ===== *)
(** Starting a Linux program: [setup_user_stack], [read_c_argv] and
    [exec_elf_into] of kernel/src/kernel/linux/mod.rs over the loader of Elf.

    The file an interpreter path names and whether the backend runs 64-bit
    code are arguments.  [None] is a panic. *)

From Stdlib Require Import ZArith Lia Bool.
From stdpp Require Import base option list numbers.
From S2P Require Import Prelude Guest Exe Elf ElfSym Path Thread.

Module ElfExec.

Import Elf.

(** * The initial stack *)

Definition word (want_64 : bool) : Z := if want_64 then 8 else 4.

Definition write_word (m : Mem) (addr val : Z) (want_64 : bool) : Mem :=
  Exe.copy_to m addr (to_le_bytes (Z.to_nat (word want_64)) val).

(** A word of guest memory. *)
Definition read_word (m : Mem) (addr : Z) (wide : bool) : Z := from_le_bytes (m <$> seqZ addr (word wide)).

Definition env_strings : list (list Z) :=
  [ [80; 65; 84; 72; 61; 47; 117; 115; 114; 47; 98; 105; 110; 58; 47; 98; 105; 110; 58;
     47; 117; 115; 114; 47; 115; 98; 105; 110; 58; 47; 115; 98; 105; 110];   (* PATH=/usr/bin:/bin:/usr/sbin:/sbin *)
    [72; 79; 77; 69; 61; 47];                                                (* HOME=/ *)
    [84; 69; 82; 77; 61; 108; 105; 110; 117; 120] ].                         (* TERM=linux *)

Section Width.
Context (W : Z).
Abbreviation usize := (wrap W).

(** A turn of the loops that push strings: memory, stack pointer, addresses. *)
Definition push_string (st : Mem * Z * list Z) (s : list Z) : Mem * Z * list Z :=
  let '(m, sp, addrs) := st in
  let sp := usize (sp - (len s + 1)) in
  let m := Exe.copy_to m sp s in
  (write8 m (usize (sp + len s)) 0, sp, addrs ++ [sp]).

Definition push_strings (m : Mem) (sp : Z) (ss : list (list Z)) : Mem * Z * list Z :=
  let '(m, sp, addrs) := foldl push_string (m, sp, []) (reverse ss) in (m, sp, reverse addrs).

(** Words written one after the other from [pos]. *)
Fixpoint write_words (m : Mem) (pos : Z) (ws : list Z) (want_64 : bool) : Mem * Z :=
  match ws with
  | [] => (m, pos)
  | w :: ws => write_words (write_word m pos w want_64) (usize (pos + word want_64)) ws want_64
  end.

(** The four words of AT_RANDOM, with the generator of the scheduler. *)
Fixpoint write_random (n : nat) (m : Mem) (addr seed : Z) : Mem * Z :=
  match n with
  | O => (m, seed)
  | S n => let seed := prng_step seed in write_random n (Exe.copy_to m addr (to_le_bytes 4 seed)) (usize (addr + 4)) seed
  end.

Definition auxv_of (extra : list (Z * Z)) (random_addr : Z) (string_addrs : list Z) : list (Z * Z) :=
  extra ++ [(6, 4096); (25, random_addr)] ++ match string_addrs with a0 :: _ => [(31, a0)] | [] => [] end ++ [(0, 0)].

Definition flat (auxv : list (Z * Z)) : list Z := concat ((fun '(tag, val) => [tag; val]) <$> auxv).

(** The words of the header but argc, in the source's order of writing. *)
Definition setup_user_stack (m : Mem) (seed : Z) (args : list (list Z)) (want_64 : bool) (extra_auxv : list (Z * Z)) : Mem * Z * Z :=
  let w := word want_64 in
  let '(m, sp, env_addrs) := push_strings m USER_STACK_TOP env_strings in
  let '(m, sp, string_addrs) := push_strings m sp args in
  let sp := Z.land sp (bnot W (w - 1)) in
  let sp := usize (sp - 16) in
  let random_addr := sp in
  let '(m, seed) := write_random 4 m sp seed in
  let auxv := auxv_of extra_auxv random_addr string_addrs in
  let header_words := 1 + Z.of_nat (length args) + 1 + Z.of_nat (length env_addrs) + 1 + Z.of_nat (length auxv) * 2 in
  let sp := usize (sp - usize (header_words * w)) in
  let sp := Z.land sp (bnot W 0xF) in
  let '(m, pos) := write_words m sp [Z.of_nat (length args)] want_64 in
  let '(m, pos) := write_words m pos string_addrs want_64 in
  let '(m, pos) := write_words m pos [0] want_64 in
  let '(m, pos) := write_words m pos env_addrs want_64 in
  let '(m, pos) := write_words m pos [0] want_64 in
  let '(m, pos) := write_words m pos (flat auxv) want_64 in
  (m, sp, seed).

(** [copy_cstr] into a buffer of [max] bytes. *)
Fixpoint copy_cstr (max : nat) (m : Mem) (addr : Z) : list Z :=
  match max with
  | O => []
  | S max => let b := m addr in if b =? 0 then [] else b :: copy_cstr max m (usize (addr + 1))
  end.

(** The loop of [read_c_argv] from the pointer at [at_]; [None] when it has
    not met the null pointer in [fuel] turns. *)
Fixpoint read_argv_from (fuel : nat) (m : Mem) (at_ : Z) (wide : bool) : option (list (list Z)) :=
  match fuel with
  | O => None
  | S fuel =>
      let arg_ptr := usize (read_word m at_ wide) in
      if arg_ptr =? 0 then Some [] else
      rest ← read_argv_from fuel m (usize (at_ + word wide)) wide;
      Some (copy_cstr 4096 m arg_ptr :: rest)
  end.

Definition read_c_argv (fuel : nat) (m : Mem) (ptr : Z) (wide : bool) : option (list (list Z)) :=
  if ptr =? 0 then Some [] else read_argv_from fuel m ptr wide.

(** * Starting a program *)

Definition PIE_BASE : Z := 0x08000000.
Definition INTERP_BASE : Z := 0x40000000.
Definition ENOEXEC : Z := 8.

Fixpoint strip_slashes (p : Path) : Path :=
  match p with b :: q => if b =? 47 then strip_slashes q else p | [] => [] end.

(** What is assigned to the state of a Linux thread. *)
Definition exec_state (l : LinuxState) (max_vaddr : Z) (path : Path) : LinuxState :=
  mkLinux max_vaddr max_vaddr (USER_STACK_TOP - 0x01000000) (tls_entry l) (tls_base l) (tls_limit l) (tls_limit_in_pages l)
    (pending_read l) (pending_poll l) (wait_status_ptr l) (wait_exit_code l) (cwd l) (take 128 path).

Section Exec.
(** The parts of a thread of other components. *)
Context {Sp Fx Dos Os2 Win : Type}.
Abbreviation T := (Thread.Thread (Space := Sp) (Fx := Fx) (Dos := Dos) (Os2 := Os2) (Win := Win) (Sym := list Z)).
Context (load_file_resolved : Path -> option (list Z)) (user_64_supported : bool).

(** [.map_err(|_| 8)?] of a call that may panic, and of a file not found. *)
Definition or_8 {A B : Type} (r : option (ElfError + A)) (k : A -> option (Z + B)) : option (Z + B) :=
  r ← r; match r with inl _ => Some (inl 8) | inr x => k x end.

Definition dynamic_auxv (l : LoadedElf) : list (Z * Z) :=
  [(3, l_phdr_vaddr l); (4, l_phentsize l); (5, l_phnum l); (7, INTERP_BASE); (9, usize (l_entry l)); (16, 0); (17, 100); (23, 0);
   (11, 0); (12, 0); (13, 0); (14, 0)].

(** After the images are in memory: the symbols, the stack, the registers and
    the state of the thread. *)
Definition start_program (s : Space) (seed : Z) (current : T) (file : list Z) (path : Path) (args : list (list Z))
  (loaded : LoadedElf) (cpu_entry : Z) (extra_auxv : list (Z * Z)) : option (Z + Space * Z * T) :=
  let want_64 := match l_class loaded with Elf64 => true | Elf32 => false end in
  syms ← ElfSym.symbol_data W file;
  let '(m, sp, seed) := setup_user_stack (bytes s) seed args want_64 extra_auxv in
  let t := if want_64 then init_process_thread_64 current (u64 cpu_entry) (u64 sp) else init_process_thread current (u32 cpu_entry) (u32 sp) in
  let t := on_kernel (fun k => set_symbols k syms) t in
  let t := match personality t with
           | PLinux l => mkT (kernel t) (PLinux (exec_state l (l_max_vaddr loaded) path))
           | _ => t
           end in
  Some (inr (mkSpace m (asked s), seed, t)).

(** The memory, the generator and the thread [current] afterwards; the
    thread keeps the file for its symbols. *)
Definition exec_elf_into (s : Space) (seed : Z) (current : T) (file : list Z) (path : Path) (args : list (list Z))
  : option (Z + Space * Z * T) :=
  if is_class64 file && negb user_64_supported then Some (inl ENOEXEC) else
  or_8 (dyn_info W file) (fun '(is_pie, interp_path) =>
  let main_bias := if is_pie && (if interp_path is Some _ then true else false) then PIE_BASE else 0 in
  or_8 (load_elf W s file main_bias) (fun '(loaded, s) =>
  match interp_path with
  | Some ip =>
      match load_file_resolved (strip_slashes ip) with
      | None => Some (inl 8)
      | Some interp_data =>
          or_8 (load_elf W s interp_data INTERP_BASE) (fun '(interp_loaded, s) =>
          start_program s seed current file path args loaded (l_entry interp_loaded) (dynamic_auxv loaded))
      end
  | None => start_program s seed current file path args loaded (l_entry loaded) []
  end)).

End Exec.
End Width.
End ElfExec.
