(* ===== verification/ElfStack.v ===== *)
(** The initial stack of a Linux program: what [setup_user_stack] writes is
    what the program, and the kernel's own [read_c_argv], reads back. *)

From Stdlib Require Import ZArith Lia Bool.
From stdpp Require Import base option list numbers.
From S2P Require Import Prelude Guest Exe Elf ElfFacts ElfSym Path Thread ElfExec.

Module ElfStack.

Import Elf ElfFacts ElfExec.

(** * Writes confined to a range *)

Definition agree (lo hi : Z) (m m' : Mem) : Prop := forall a, a < lo \/ hi <= a -> m' a = m a.

Lemma agree_chain lo hi m1 m2 m3 : agree lo hi m1 m2 -> agree lo hi m2 m3 -> agree lo hi m1 m3.
Proof. intros H1 H2 a Ha. rewrite H2, H1 by done. done. Qed.

Lemma agree_wider lo hi lo' hi' m m' : lo' <= lo -> hi <= hi' -> agree lo hi m m' -> agree lo' hi' m m'.
Proof. intros Hl Hh H a Ha. apply H. lia. Qed.

Lemma copy_to_agree m a l : agree a (a + len l) m (Exe.copy_to m a l).
Proof. intros x Hx. apply Exe.copy_to_out. unfold len in Hx. lia. Qed.

Definition string_at (m : Mem) (a : Z) (s : list Z) : Prop :=
  (forall i b, s !! i = Some b -> m (a + Z.of_nat i) = b) /\ m (a + len s) = 0.

Lemma string_at_agree lo hi m m' a s : agree lo hi m m' -> hi <= a \/ a + len s < lo -> string_at m a s -> string_at m' a s.
Proof.
  intros Hm Ha [Hs H0]. pose proof (len_nonneg s). split.
  - intros i b Hi. rewrite Hm; [by apply Hs|]. apply lookup_lt_Some in Hi. unfold len in *. lia.
  - rewrite Hm; [done|]. lia.
Qed.

Section Width.
Context (W : Z) (HW : 32 <= W).

Lemma top_fits x : 0 <= x <= USER_STACK_TOP -> fits W x.
Proof. intros Hx. unfold fits, USER_STACK_TOP in *. pose proof (Z.pow_le_mono_r 2 32 W). lia. Qed.

(** * Strings *)

Definition total (ss : list (list Z)) : Z := foldr (fun s n => len s + 1 + n) 0 ss.

Lemma total_strings_nonneg ss : 0 <= total ss.
Proof. induction ss as [|s ss IH]; cbn [total foldr]; [done|]. fold (total ss). pose proof (len_nonneg s). lia. Qed.

Lemma push_string_spec m sp addrs s : len s + 1 <= sp <= USER_STACK_TOP ->
  exists m', push_string W (m, sp, addrs) s = (m', sp - (len s + 1), addrs ++ [sp - (len s + 1)]) /\
    agree (sp - (len s + 1)) sp m m' /\ string_at m' (sp - (len s + 1)) s.
Proof.
  intros Hs. pose proof (len_nonneg s). unfold push_string.
  rewrite !(wrap_small W (sp - (len s + 1))), wrap_small by (apply top_fits; lia). set (b := sp - (len s + 1)) in *.
  eexists. split; [done|]. split; [|split].
  - intros a Ha. unfold write8. destruct (Z.eqb_spec a (b + len s)); [lia|]. apply copy_to_agree. lia.
  - intros i x Hi. unfold write8. pose proof (lookup_lt_Some _ _ _ Hi).
    destruct (Z.eqb_spec (b + Z.of_nat i) (b + len s)); [unfold len in *; lia|].
    rewrite Exe.copy_to_in by done. by apply list_lookup_total_correct.
  - unfold write8. by rewrite Z.eqb_refl.
Qed.

Lemma push_strings_spec m sp ss : total ss <= sp <= USER_STACK_TOP ->
  exists m' addrs, push_strings W m sp ss = (m', sp - total ss, addrs) /\ agree (sp - total ss) sp m m' /\
    Forall2 (fun a s => string_at m' a s /\ sp - total ss <= a /\ a + len s < sp) addrs ss.
Proof.
  intros Hs. unfold push_strings.
  assert (exists m' addrs, foldl (push_string W) (m, sp, []) (reverse ss) = (m', sp - total ss, reverse addrs) /\
    agree (sp - total ss) sp m m' /\ Forall2 (fun a s => string_at m' a s /\ sp - total ss <= a /\ a + len s < sp) addrs ss)
    as (m' & addrs & Hf & Ha & Hall).
  { induction ss as [|s ss IH].
    - exists m, []. cbn. rewrite Z.sub_0_r. split_and!; [done|done|constructor].
    - cbn [total foldr] in *. fold (total ss) in *. pose proof (len_nonneg s). pose proof (total_strings_nonneg ss).
      destruct IH as (m1 & addrs & Hf & Ha & Hall); [lia|]. rewrite reverse_cons, foldl_app, Hf. cbn [foldl].
      destruct (push_string_spec m1 (sp - total ss) (reverse addrs) s) as (m2 & -> & Ha2 & Hs2); [lia|].
      replace (sp - total ss - (len s + 1)) with (sp - (len s + 1 + total ss)) in * by lia.
      exists m2, (sp - (len s + 1 + total ss) :: addrs). split_and!.
      + by rewrite reverse_cons.
      + eapply agree_chain; eapply agree_wider; [..|exact Ha| | |exact Ha2]; lia.
      + constructor; [split_and!; [done|lia|lia]|]. eapply List.Forall2_impl; [|exact Hall].
        intros a t (Hst & Hlo & Hhi). split_and!; [|lia|lia]. eapply string_at_agree; [exact Ha2|lia|done]. }
  rewrite Hf, reverse_involutive. by exists m', addrs.
Qed.

(** A string of the stack, as [copy_cstr] reads it. *)
Lemma copy_cstr_string s : forall max m a, string_at m a s -> Forall (fun b => 0 < b) s -> (length s <= max)%nat ->
  0 <= a -> a + len s < USER_STACK_TOP -> copy_cstr W max m a = s.
Proof.
  induction s as [|b s IH]; intros max m a [Hs H0] Hb Hm Ha Htop.
  - destruct max as [|max]; [done|]. cbn [copy_cstr]. change (len []) with 0 in H0. rewrite Z.add_0_r in H0. by rewrite H0.
  - destruct max as [|max]; cbn [length] in Hm; [lia|]. inversion_clear Hb as [|? ? Hb0 Hb']. cbn [copy_cstr].
    pose proof (Hs 0%nat b eq_refl) as Hm0. rewrite Z.add_0_r in Hm0. rewrite Hm0. destruct (Z.eqb_spec b 0); [lia|].
    assert (len (b :: s) = 1 + len s) as Hl by (unfold len; cbn [length]; lia). rewrite Hl in *. pose proof (len_nonneg s).
    rewrite wrap_small by (apply top_fits; lia). f_equal. apply IH; [|done|lia..]. split.
    + intros i x Hi. specialize (Hs (S i) x Hi). rewrite <- Hs. f_equal. lia.
    + rewrite <- H0. f_equal. lia.
Qed.

(** * Words *)

Context (wide : bool).
Abbreviation w := (word wide).

Definition fits_word (x : Z) : Prop := 0 <= x < 256 ^ w.

Lemma word_range : 4 <= w <= 8.
Proof. by destruct wide. Qed.

Lemma read_word_agree lo hi m m' a : agree lo hi m m' -> a + w <= lo \/ hi <= a -> read_word m' a wide = read_word m a wide.
Proof.
  intros Hm Ha. unfold read_word. f_equal. apply list_fmap_ext. intros i x Hx. apply Hm.
  apply list_elem_of_lookup_2, elem_of_seqZ in Hx. lia.
Qed.

Lemma read_write_word m a x : fits_word x -> read_word (write_word m a x wide) a wide = x.
Proof.
  intros Hx. unfold read_word, write_word. set (n := Z.to_nat w). pose proof word_range.
  replace (Exe.copy_to m a (to_le_bytes n x) <$> seqZ a w) with (to_le_bytes n x).
  - apply from_to_le_bytes. unfold n. by rewrite Z2Nat.id by lia.
  - apply list_eq_same_length with n; [by rewrite length_fmap, length_seqZ|by rewrite length_to_le_bytes|].
    intros i y z Hi Hy Hz. rewrite list_lookup_fmap in Hz. destruct (seqZ a w !! i) as [v|] eqn:Hv; [|done]. cbn in Hz.
    apply lookup_seqZ in Hv as [-> _]. injection Hz as <-. rewrite Exe.copy_to_in by (by rewrite length_to_le_bytes).
    symmetry. by apply list_lookup_total_correct.
Qed.

Definition words_at (m : Mem) (pos : Z) (ws : list Z) : Prop :=
  forall k x, ws !! k = Some x -> read_word m (pos + Z.of_nat k * w) wide = x.

Lemma words_at_agree lo hi m m' pos ws : agree lo hi m m' -> pos + Z.of_nat (length ws) * w <= lo \/ hi <= pos ->
  words_at m pos ws -> words_at m' pos ws.
Proof.
  intros Hm Hp Hw k x Hk. pose proof (lookup_lt_Some _ _ _ Hk). pose proof word_range.
  rewrite (read_word_agree lo hi m m') by (done || nia). by apply Hw.
Qed.

Lemma words_at_app m pos l1 l2 : words_at m pos (l1 ++ l2) <-> words_at m pos l1 /\ words_at m (pos + Z.of_nat (length l1) * w) l2.
Proof.
  split.
  - intros H. split; intros k x Hk.
    + apply H. by apply lookup_app_l_Some.
    + rewrite <- (H (length l1 + k)%nat x); [f_equal; lia|]. rewrite lookup_app_r by lia. by replace (length l1 + k - length l1)%nat with k by lia.
  - intros [H1 H2] k x [Hk|[Hk Hx]]%lookup_app_Some; [by apply H1|]. rewrite <- (H2 _ _ Hx). f_equal. rewrite Nat2Z.inj_sub by lia. ring.
Qed.

Lemma write_words_spec ws : forall m pos, Forall fits_word ws -> 0 <= pos -> pos + Z.of_nat (length ws) * w <= USER_STACK_TOP ->
  exists m', write_words W m pos ws wide = (m', pos + Z.of_nat (length ws) * w) /\
    agree pos (pos + Z.of_nat (length ws) * w) m m' /\ words_at m' pos ws.
Proof.
  pose proof word_range as Hw. induction ws as [|x ws IH]; intros m pos Hx Hp Htop.
  - exists m. cbn. rewrite Z.add_0_r. split_and!; [done|done|]. by intros k y.
  - inversion_clear Hx as [|? ? Hx0 Hx']. cbn [write_words length] in *. rewrite wrap_small by (apply top_fits; lia).
    destruct (IH (write_word m pos x wide) (pos + w)) as (m' & -> & Ha & Hws); [done|lia|lia|].
    exists m'. split_and!; [f_equal; lia|..].
    + eapply agree_chain; [|eapply agree_wider; [| |exact Ha]; lia].
      eapply agree_wider; [..|apply copy_to_agree]; rewrite ?len_le; lia.
    + intros [|k] y Hk; cbn in Hk.
      * injection Hk as ->. rewrite (read_word_agree _ _ _ _ _ Ha) by lia. rewrite Z.add_0_r. by apply read_write_word.
      * rewrite <- (Hws k y Hk). f_equal. lia.
Qed.

Lemma write_words_app m pos l1 l2 :
  write_words W m pos (l1 ++ l2) wide = let '(m, pos) := write_words W m pos l1 wide in write_words W m pos l2 wide.
Proof. revert m pos. induction l1 as [|x l1 IH]; intros m pos; [done|]. cbn [app write_words]. by rewrite IH. Qed.

Lemma write_random_spec n : forall m a seed, 0 <= a -> a + Z.of_nat n * 4 <= USER_STACK_TOP ->
  agree a (a + Z.of_nat n * 4) m (fst (write_random W n m a seed)).
Proof.
  induction n as [|n IH]; intros m a seed Ha Htop; [done|]. cbn [write_random]. rewrite wrap_small by (apply top_fits; lia).
  eapply agree_chain; [|eapply agree_wider; [| |apply IH]; lia].
  eapply agree_wider; [..|apply copy_to_agree]; rewrite ?len_le; lia.
Qed.

(** * Reading the stack *)

Lemma read_argv_words m ss : forall addrs pos fuel,
  Forall2 (fun a s => string_at m a s /\ 0 < a /\ a + len s < USER_STACK_TOP) addrs ss ->
  Forall (fun s => Forall (fun b => 0 < b) s /\ len s <= 4096) ss ->
  words_at m pos (addrs ++ [0]) -> 0 <= pos -> pos + Z.of_nat (length addrs + 1) * w <= USER_STACK_TOP ->
  (length addrs < fuel)%nat -> read_argv_from W fuel m pos wide = Some ss.
Proof.
  pose proof word_range as Hw. induction ss as [|s ss IH]; intros addrs pos fuel Hall Hss Hws Hp Htop Hf;
    inversion Hall as [|a s' addrs' ss' (Hs & Ha & He) Hall']; subst; (destruct fuel as [|fuel]; [cbn [length] in Hf; lia|]); cbn [read_argv_from].
  - pose proof (Hws 0%nat 0 eq_refl) as H0. rewrite Z.add_0_r in H0. rewrite H0. done.
  - inversion_clear Hss as [|? ? [Hb Hl] Hss']. pose proof (Hws 0%nat a eq_refl) as H0. rewrite Z.add_0_r in H0. rewrite H0.
    cbn [length] in *. pose proof (len_nonneg s).
    rewrite (wrap_small W a), (wrap_small W (pos + w)) by (apply top_fits; lia). destruct (Z.eqb_spec a 0); [lia|].
    rewrite (IH addrs' (pos + w) fuel); try done; try lia.
    + cbn [mbind option_bind]. do 2 f_equal. apply copy_cstr_string; try done; [|lia]. unfold len in Hl. lia.
    + intros k y Hk. rewrite <- (Hws (S k) y Hk). f_equal. lia.
Qed.

(** The entries of the auxiliary vector up to AT_NULL, as a program start-up
    reads them. *)
Fixpoint read_auxv (fuel : nat) (m : Mem) (pos : Z) : option (list (Z * Z)) :=
  match fuel with
  | O => None
  | S fuel =>
      let tag := read_word m pos wide in
      if tag =? 0 then Some [] else
      rest ← read_auxv fuel m (pos + 2 * w);
      Some ((tag, read_word m (pos + w) wide) :: rest)
  end.

Lemma read_auxv_words m aux : forall pos fuel,
  Forall (fun e => 0 < fst e) aux -> words_at m pos (flat (aux ++ [(0, 0)])) -> (length aux < fuel)%nat ->
  read_auxv fuel m pos = Some aux.
Proof.
  induction aux as [|[t v] aux IH]; intros pos fuel Ht Hw Hf; (destruct fuel as [|fuel]; [cbn [length] in Hf; lia|]); cbn [read_auxv].
  - pose proof (Hw 0%nat 0 eq_refl) as H0. rewrite Z.add_0_r in H0. by rewrite H0.
  - inversion_clear Ht as [|? ? Ht0 Ht']. cbn [fst length] in *.
    pose proof (Hw 0%nat t eq_refl) as H0. rewrite Z.add_0_r in H0. pose proof (Hw 1%nat v eq_refl) as H1.
    change (Z.of_nat 1 * w) with (1 * w) in H1. rewrite Z.mul_1_l in H1.
    rewrite H0, H1. destruct (Z.eqb_spec t 0); [lia|]. rewrite IH; [done|done| |lia].
    intros k y Hk. rewrite <- (Hw (S (S k)) y Hk). f_equal. lia.
Qed.

Lemma length_flat aux : Z.of_nat (length (flat aux)) = Z.of_nat (length aux) * 2.
Proof. induction aux as [|[t v] aux IH]; [done|]. unfold flat in *. cbn [fmap list_fmap concat length app]. lia. Qed.

(** * The whole stack *)

(** The words before the strings, and a bound on the bytes of the stack. *)
Definition header_words (args : list (list Z)) (extra : list (Z * Z)) : Z :=
  6 + Z.of_nat (length args) + (Z.of_nat (length extra) + (match args with [] => 3 | _ => 4 end)) * 2.
Definition stack_need (args : list (list Z)) (extra : list (Z * Z)) : Z :=
  total env_strings + total args + 8 + 16 + header_words args extra * w + 16.

(** What a new program finds: the words of the header, and the strings. *)
Record stack_ok (m : Mem) (args : list (list Z)) (extra : list (Z * Z)) (m' : Mem) (sp : Z) : Prop := {
  so_aligned : sp mod 16 = 0;
  so_room : 0 < sp < USER_STACK_TOP /\ USER_STACK_TOP - stack_need args extra <= sp;
  so_confined : agree sp USER_STACK_TOP m m';
  so_argc : read_word m' sp wide = Z.of_nat (length args);
  so_argv : read_c_argv W (S (length args)) m' (sp + w) wide = Some args;
  so_envp : read_c_argv W 4 m' (sp + (Z.of_nat (length args) + 2) * w) wide = Some env_strings;
  so_auxv : exists random a0,
    read_auxv (length extra + 4) m' (sp + (Z.of_nat (length args) + 6) * w) =
      Some (extra ++ [(6, 4096); (25, random)] ++ match args with [] => [] | _ => [(31, a0)] end) /\
    sp < random <= USER_STACK_TOP - 16 /\ (forall s, head args = Some s -> copy_cstr W 4096 m' a0 = s) }.

Definition arg_ok (s : list Z) : Prop := Forall (fun b => 0 < b) s /\ len s <= 4096.

Lemma env_ok : Forall arg_ok env_strings.
Proof. repeat constructor; try (unfold len; cbn [length]; lia); done. Qed.

(** The strings at the top of the stack. *)
Lemma strings_written m args :
  total env_strings + total args < USER_STACK_TOP ->
  let sp := USER_STACK_TOP - total env_strings - total args in
  exists m1 m2 env_addrs str_addrs,
    push_strings W m USER_STACK_TOP env_strings = (m1, USER_STACK_TOP - total env_strings, env_addrs) /\
    push_strings W m1 (USER_STACK_TOP - total env_strings) args = (m2, sp, str_addrs) /\ agree sp USER_STACK_TOP m m2 /\
    Forall2 (fun a s => string_at m2 a s /\ sp <= a /\ a + len s < USER_STACK_TOP) env_addrs env_strings /\
    Forall2 (fun a s => string_at m2 a s /\ sp <= a /\ a + len s < USER_STACK_TOP) str_addrs args.
Proof.
  intros Hneed sp. pose proof (total_strings_nonneg args). pose proof (total_strings_nonneg env_strings).
  destruct (push_strings_spec m USER_STACK_TOP env_strings) as (m1 & env_addrs & H1 & A1 & F1); [lia|].
  destruct (push_strings_spec m1 (USER_STACK_TOP - total env_strings) args) as (m2 & str_addrs & H2 & A2 & F2); [lia|].
  exists m1, m2, env_addrs, str_addrs. split_and!; [done|done|..].
  - eapply agree_chain; (eapply agree_wider; [..|eassumption]); lia.
  - eapply List.Forall2_impl; [|exact F1]. intros a s (Hs & Hlo & Hhi). split_and!; [|lia|lia].
    eapply string_at_agree; [exact A2|lia|done].
  - eapply List.Forall2_impl; [|exact F2]. intros a s (Hs & Hlo & Hhi). split_and!; [done|lia|lia].
Qed.

(** The header is one run of words. *)
Definition header_list (n : Z) (str_addrs env_addrs : list Z) (auxv : list (Z * Z)) : list Z :=
  [n] ++ str_addrs ++ [0] ++ env_addrs ++ [0] ++ flat auxv.

Lemma align_word x : fits W x -> Z.land x (bnot W (w - 1)) = x / w * w.
Proof.
  intros Hx. destruct wide; [change (word true - 1) with (Z.ones 3)|change (word false - 1) with (Z.ones 2)];
    by rewrite land_bnot_ones by (lia || done).
Qed.

Lemma align_16 x : fits W x -> Z.land x (bnot W 0xF) = x / 16 * 16.
Proof. intros Hx. change 0xF with (Z.ones 4). by rewrite land_bnot_ones by (lia || done). Qed.

(** [setup_user_stack] as the strings, the random bytes and the header. *)
Lemma setup_user_stack_eq m seed args extra m1 m2 env_addrs str_addrs :
  stack_need args extra < USER_STACK_TOP ->
  let top := USER_STACK_TOP - total env_strings - total args in
  let random := top / w * w - 16 in
  let sp := (random - header_words args extra * w) / 16 * 16 in
  let aux := auxv_of extra random str_addrs in
  push_strings W m USER_STACK_TOP env_strings = (m1, USER_STACK_TOP - total env_strings, env_addrs) ->
  push_strings W m1 (USER_STACK_TOP - total env_strings) args = (m2, top, str_addrs) ->
  length str_addrs = length args -> length env_addrs = 3%nat ->
  let '(m3, seed') := write_random W 4 m2 random seed in
  setup_user_stack W m seed args wide extra =
    (fst (write_words W m3 sp (header_list (Z.of_nat (length args)) str_addrs env_addrs aux) wide), sp, seed') /\
  Z.of_nat (length (header_list (Z.of_nat (length args)) str_addrs env_addrs aux)) = header_words args extra.
Proof.
  intros Hneed top random sp aux H1 H2 Hn He. pose proof word_range as Hw.
  pose proof (total_strings_nonneg args). pose proof (total_strings_nonneg env_strings).
  assert (0 <= header_words args extra) by (unfold header_words; destruct args; lia).
  assert (0 < top <= USER_STACK_TOP) by (unfold stack_need in Hneed; unfold top; nia).
  assert (top - 8 < top / w * w <= top) by (Z.to_euclidean_division_equations; nia).
  assert (0 < random - header_words args extra * w) by (unfold stack_need in Hneed; unfold random, top in *; nia).
  assert (Z.of_nat (length aux) = Z.of_nat (length extra) + match args with [] => 3 | _ => 4 end) as Haux.
  { unfold aux, auxv_of. rewrite !length_app. destruct str_addrs, args; cbn [length] in *; lia. }
  destruct (write_random W 4 m2 random seed) as [m3 seed'] eqn:Hr. split.
  - unfold setup_user_stack. rewrite H1, H2, align_word by (apply top_fits; lia).
    rewrite (wrap_small W (top / w * w - 16)) by (apply top_fits; lia). fold random. rewrite Hr. fold aux.
    replace (1 + Z.of_nat (length args) + 1 + Z.of_nat (length env_addrs) + 1 + Z.of_nat (length aux) * 2) with (header_words args extra)
      by (unfold header_words; lia).
    rewrite (wrap_small W (header_words args extra * w)) by (apply top_fits; unfold random in *; nia).
    rewrite (wrap_small W (random - _)) by (apply top_fits; unfold random in *; nia).
    rewrite align_16 by (apply top_fits; unfold random in *; nia). fold sp.
    unfold header_list. do 5 (rewrite write_words_app; destruct (write_words W _ _ _ wide) as [? ?]).
    by destruct (write_words W _ _ _ wide) as [? ?].
  - unfold header_list. rewrite !length_app, !Nat2Z.inj_add, length_flat. cbn [length]. unfold header_words. lia.
Qed.

(** Every word of the header fits. *)
Lemma header_fits n str_addrs env_addrs aux :
  0 <= n <= USER_STACK_TOP -> Forall (fun a => 0 <= a <= USER_STACK_TOP) str_addrs -> Forall (fun a => 0 <= a <= USER_STACK_TOP) env_addrs ->
  Forall (fun e => fits_word (fst e) /\ fits_word (snd e)) aux -> Forall fits_word (header_list n str_addrs env_addrs aux).
Proof.
  assert (forall a, 0 <= a <= USER_STACK_TOP -> fits_word a) as Ht.
  { intros a Ha. unfold fits_word, USER_STACK_TOP in *. destruct wide; cbn; lia. }
  assert (fits_word 0) as H0 by (apply Ht; unfold USER_STACK_TOP; lia).
  intros Hn Hs He Ha. unfold header_list.
  assert (forall l, Forall (fun a => 0 <= a <= USER_STACK_TOP) l -> Forall fits_word l) as Hl
    by (intros l Hl; eapply List.Forall_impl; [exact Ht|done]).
  assert (Forall fits_word (flat aux)) as Hf.
  { clear Hs He. induction Ha as [|[t v] aux [H1 H2] _ IH]; [constructor|]. unfold flat. cbn [fmap list_fmap concat app].
    constructor; [done|]. constructor; [done|]. exact IH. }
  repeat apply Forall_app_2; try (by repeat first [done | apply Forall_cons_2 | apply Forall_nil_2]); auto.
Qed.

Lemma addrs_bound (P : Z -> list Z -> Prop) lo addrs ss : 0 <= lo ->
  Forall2 (fun a s => P a s /\ lo <= a /\ a + len s < USER_STACK_TOP) addrs ss -> Forall (fun a => lo <= a <= USER_STACK_TOP) addrs.
Proof.
  intros Hlo. induction 1 as [|a s addrs ss (_ & Ha & He) _ IH]; constructor; [|done]. pose proof (len_nonneg s). lia.
Qed.

Lemma strings_later m m' lo hi top addrs ss : agree lo hi m m' -> hi <= top -> 0 < top ->
  Forall2 (fun a s => string_at m a s /\ top <= a /\ a + len s < USER_STACK_TOP) addrs ss ->
  Forall2 (fun a s => string_at m' a s /\ 0 < a /\ a + len s < USER_STACK_TOP) addrs ss.
Proof.
  intros Hm Hh Ht. apply List.Forall2_impl. intros a s (Hs & Hlo & Hhi). split_and!; [|lia|lia].
  eapply string_at_agree; [exact Hm|lia|done].
Qed.

Lemma auxv_fits extra random str_addrs : 0 <= random <= USER_STACK_TOP -> Forall (fun a => 0 <= a <= USER_STACK_TOP) str_addrs ->
  Forall (fun e => 0 < fst e /\ fits_word (fst e) /\ fits_word (snd e)) extra ->
  Forall (fun e => fits_word (fst e) /\ fits_word (snd e)) (auxv_of extra random str_addrs).
Proof.
  assert (forall a, 0 <= a <= USER_STACK_TOP -> fits_word a) as Ht.
  { intros a Ha. unfold fits_word, USER_STACK_TOP in *. destruct wide; cbn; lia. }
  intros Hr Hs He. unfold auxv_of, USER_STACK_TOP in *. repeat apply Forall_app_2.
  - eapply List.Forall_impl; [|exact He]. tauto.
  - repeat apply Forall_cons_2; try apply Forall_nil_2; cbn [fst snd]; split; apply Ht; lia.
  - destruct Hs as [|a l Ha _]; [constructor|]. repeat apply Forall_cons_2; try apply Forall_nil_2; cbn [fst snd]; split; apply Ht; lia.
  - repeat apply Forall_cons_2; try apply Forall_nil_2; cbn [fst snd]; split; apply Ht; lia.
Qed.

Lemma words_at_eq m pos pos' ws : words_at m pos ws -> pos = pos' -> words_at m pos' ws.
Proof. by intros H <-. Qed.

Lemma header_parts m pos n strs envs aux : words_at m pos (header_list n strs envs aux) ->
  read_word m pos wide = n /\ words_at m (pos + w) (strs ++ [0]) /\
  words_at m (pos + (Z.of_nat (length strs) + 2) * w) (envs ++ [0]) /\
  words_at m (pos + (Z.of_nat (length strs) + Z.of_nat (length envs) + 3) * w) (flat aux).
Proof.
  intros H. assert (header_list n strs envs aux = [n] ++ (strs ++ [0]) ++ (envs ++ [0]) ++ flat aux) as Heq
    by (unfold header_list; by rewrite <- !app_assoc).
  rewrite Heq in H. apply words_at_app in H as [H0 H]. apply words_at_app in H as [H1 H]. apply words_at_app in H as [H2 H3].
  rewrite !length_app in H2, H3. cbn [length] in *. split_and!.
  - rewrite <- (H0 0%nat n eq_refl). f_equal. lia.
  - apply (words_at_eq _ _ _ _ H1). lia.
  - apply (words_at_eq _ _ _ _ H2). lia.
  - apply (words_at_eq _ _ _ _ H3). rewrite length_app. cbn [length]. lia.
Qed.

(** What the words of the header read as, over the strings. *)
Lemma header_reads m sp args extra random str_addrs env_addrs :
  Forall arg_ok args -> Forall (fun e => 0 < fst e /\ fits_word (fst e) /\ fits_word (snd e)) extra ->
  Forall2 (fun a s => string_at m a s /\ 0 < a /\ a + len s < USER_STACK_TOP) str_addrs args ->
  Forall2 (fun a s => string_at m a s /\ 0 < a /\ a + len s < USER_STACK_TOP) env_addrs env_strings ->
  words_at m sp (header_list (Z.of_nat (length args)) str_addrs env_addrs (auxv_of extra random str_addrs)) ->
  0 < sp -> sp + header_words args extra * w <= USER_STACK_TOP ->
  read_word m sp wide = Z.of_nat (length args) /\
  read_c_argv W (S (length args)) m (sp + w) wide = Some args /\
  read_c_argv W 4 m (sp + (Z.of_nat (length args) + 2) * w) wide = Some env_strings /\
  exists a0, read_auxv (length extra + 4) m (sp + (Z.of_nat (length args) + 6) * w) =
      Some (extra ++ [(6, 4096); (25, random)] ++ match args with [] => [] | _ => [(31, a0)] end) /\
    (forall s, head args = Some s -> copy_cstr W 4096 m a0 = s).
Proof.
  intros Hargs Hextra Fstr Fenv Hws Hsp Htop. pose proof word_range as Hw.
  pose proof (Forall2_length Fenv) as Lenv. pose proof (Forall2_length Fstr) as Lstr.
  apply header_parts in Hws as (W0 & W1 & W2 & W3). rewrite Lstr in W2, W3. rewrite Lenv in W3. change (length env_strings) with 3%nat in *.
  assert (6 + Z.of_nat (length args) <= header_words args extra) by (unfold header_words; destruct args; lia).
  assert ((6 + Z.of_nat (length args)) * w <= header_words args extra * w) as Hin by nia.
  split_and!; [done|..].
  - unfold read_c_argv. destruct (Z.eqb_spec (sp + w) 0); [lia|]. apply (read_argv_words m args str_addrs); try done; rewrite ?Lstr; nia.
  - unfold read_c_argv. destruct (Z.eqb_spec (sp + (Z.of_nat (length args) + 2) * w) 0); [nia|].
    apply (read_argv_words m env_strings env_addrs); try done; rewrite ?Lenv; first [apply env_ok | nia].
  - exists (default 0 (head str_addrs)). split.
    + apply read_auxv_words.
      * repeat apply Forall_app_2; [|by repeat constructor|destruct args; by repeat constructor].
        eapply List.Forall_impl; [|exact Hextra]. tauto.
      * assert (auxv_of extra random str_addrs = (extra ++ [(6, 4096); (25, random)] ++
                  match args with [] => [] | _ => [(31, default 0 (head str_addrs))] end) ++ [(0, 0)]) as Haux.
        { unfold auxv_of. rewrite <- !app_assoc. by destruct Fstr. }
        rewrite <- Haux. apply (words_at_eq _ _ _ _ W3). lia.
      * rewrite !length_app. destruct args; cbn [length]; lia.
    + intros s Hs. destruct Fstr as [|a t addrs ss (Hst & Ha & He) _]; [done|]. cbn in Hs. injection Hs as ->.
      inversion_clear Hargs as [|? ? [Hb Hl] _]. change (copy_cstr W 4096 m a = s). apply copy_cstr_string; try done; [|lia]. unfold len in Hl. lia.
Qed.

Lemma setup_user_stack_ok m seed args extra :
  Forall arg_ok args -> Forall (fun e => 0 < fst e /\ fits_word (fst e) /\ fits_word (snd e)) extra ->
  stack_need args extra < USER_STACK_TOP ->
  exists m' sp seed', setup_user_stack W m seed args wide extra = (m', sp, seed') /\ stack_ok m args extra m' sp.
Proof.
  intros Hargs Hextra Hneed. pose proof word_range as Hw. pose proof (total_strings_nonneg args). pose proof (total_strings_nonneg env_strings).
  assert (6 <= header_words args extra) by (unfold header_words; destruct args; lia).
  assert (0 < header_words args extra * w) by nia.
  assert (total env_strings + total args < USER_STACK_TOP) as Htot by (unfold stack_need in Hneed; nia).
  destruct (strings_written m args Htot) as (m1 & m2 & env_addrs & str_addrs & E1 & E2 & Astr & Fenv & Fstr).
  pose proof (Forall2_length Fenv) as Lenv. pose proof (Forall2_length Fstr) as Lstr.
  pose proof (setup_user_stack_eq m seed args extra m1 m2 env_addrs str_addrs Hneed E1 E2 Lstr Lenv) as Heq. cbv zeta in Heq.
  set (top := USER_STACK_TOP - total env_strings - total args) in *. set (random := top / w * w - 16) in *.
  set (sp := (random - header_words args extra * w) / 16 * 16) in *. set (aux := auxv_of extra random str_addrs) in *.
  assert (top - 8 < top / w * w <= top) by (Z.to_euclidean_division_equations; nia).
  assert (sp <= random - header_words args extra * w < sp + 16) by (unfold sp; Z.to_euclidean_division_equations; lia).
  assert (0 < sp < USER_STACK_TOP /\ USER_STACK_TOP - stack_need args extra <= sp) as Hroom
    by (unfold stack_need in *; unfold random, top in *; lia).
  pose proof (write_random_spec 4 m2 random seed ltac:(lia) ltac:(unfold random, top in *; lia)) as Arnd.
  destruct (write_random W 4 m2 random seed) as [m3 seed']. cbn [fst] in Arnd. destruct Heq as [Heq Hlen].
  assert (random = top / w * w - 16) as Hrnd by done. assert (top <= USER_STACK_TOP) by (unfold top; lia).
  assert (0 < top) as Htop by nia.
  set (ws := header_list (Z.of_nat (length args)) str_addrs env_addrs aux) in *.
  pose proof (addrs_bound _ top _ _ ltac:(lia) Fstr) as Bstr. pose proof (addrs_bound _ top _ _ ltac:(lia) Fenv) as Benv.
  assert (forall l, Forall (fun a => top <= a <= USER_STACK_TOP) l -> Forall (fun a => 0 <= a <= USER_STACK_TOP) l) as Hb.
  { intros l. apply List.Forall_impl. intros a Ha. lia. }
  assert (Forall fits_word ws) as Hws.
  { apply header_fits; [unfold header_words in *; destruct args; nia|by apply Hb..|].
    apply auxv_fits; [lia|by apply Hb|done]. }
  destruct (write_words_spec ws m3 sp Hws) as (m4 & Hm4 & A4 & Hw4); [lia|rewrite Hlen; lia|]. rewrite Hlen in *.
  rewrite Hm4 in Heq. cbn [fst] in Heq. exists m4, sp, seed'. split; [done|].
  assert (agree sp top m2 m4) as A24.
  { eapply agree_chain; (eapply agree_wider; [..|eassumption]); lia. }
  pose proof (strings_later _ _ _ _ _ _ _ A24 (Z.le_refl top) Htop Fstr) as Fstr'.
  pose proof (strings_later _ _ _ _ _ _ _ A24 (Z.le_refl top) Htop Fenv) as Fenv'.
  destruct (header_reads m4 sp args extra random str_addrs env_addrs Hargs Hextra Fstr' Fenv' Hw4) as (R0 & R1 & R2 & a0 & R3 & R4); [lia|lia|].
  split; [|done| |done|done|done|].
  - unfold sp. by rewrite Z.mod_mul by lia.
  - eapply agree_chain; [eapply agree_wider; [..|exact Astr]|eapply agree_wider; [..|exact A24]]; lia.
  - exists random, a0. split_and!; [done|lia|lia|done].
Qed.

End Width.
End ElfStack.
