(* ===== verification/ElfStart.v ===== *)
(** Starting a program from the file of an image: [exec_elf_into] leaves the
    image, and that of its interpreter, in memory below a stack that holds the
    arguments, with the thread at the entry. *)

From Stdlib Require Import ZArith Lia Bool.
From stdpp Require Import base option list numbers.
From S2P Require Import Prelude Guest Exe Elf ElfFacts ElfSpec ElfSym Path Fd Thread ElfExec ElfStack.

Module ElfStart.

Import Elf ElfFacts ElfSpec ElfExec ElfStack.

(** * What the kernel reads of an image before loading it *)

(** The path of the interpreter: the first part of its type with bytes. *)
Definition interp_of (p : Part) : option (list Z) := if p_typ p =? PT_INTERP then strip_nul <$> part_data p else None.
Definition interp_path (im : Image) : option (list Z) := head (omap interp_of (im_parts im)).

Section Image.
Context (W : Z) (HW : 16 <= W) (im : Image) (Hok : image_ok W im).

Lemma interp_of_file : interp W (file im) = Some (interp_path im).
Proof.
  unfold interp. rewrite (file_table W im HW Hok). cbn [mbind option_bind]. rewrite Nat2Z.id. unfold interp_path.
  set (c := im_class im). set (base := table_end c (length (im_parts im))).
  assert (forall ps2 ps1, im_parts im = ps1 ++ ps2 ->
    interp_from W (length ps2) (Z.of_nat (length ps1)) (file im) (header_size c) (program_header_size c) = Some (head (omap interp_of ps2))) as H.
  { induction ps2 as [|p ps2 IH]; intros ps1 Hp; [done|].
    specialize (IH (ps1 ++ [p])). rewrite <- app_assoc, length_app in IH. specialize (IH Hp). cbn [length] in *.
    assert (hdrs base (im_parts im) !! length ps1 = Some (phdr_of (base + len (concat (p_bytes <$> ps1))) p)) as Hh.
    { rewrite Hp. clear. generalize base. induction ps1 as [|q ps1 IH]; intros b; cbn [app hdrs length lookup list_lookup fmap list_fmap concat].
      - by rewrite Z.add_0_r.
      - rewrite IH, len_app. do 2 f_equal. lia. }
    apply (file_program_header W im HW Hok) in Hh. pose proof (file_part_data W im HW Hok ps1 p ps2 Hp) as Hd. fold c base in Hh, Hd.
    rewrite omap_cons_list. replace (Z.of_nat (length ps1 + 1)) with (Z.of_nat (length ps1) + 1) in IH by lia.
    cbn [interp_from]. rewrite Hh. cbn [mbind option_bind]. change (ph_typ (phdr_of ?o p)) with (p_typ p).
    unfold interp_of at 1. destruct (p_typ p =? PT_INTERP); [|exact IH]. rewrite Hd. cbn [mbind option_bind].
    by destruct (part_data p). }
  by apply (H (im_parts im) []).
Qed.

Lemma dyn_info_of_file : dyn_info W (encode im) = Some (inr (im_type im =? 3, interp_path im)).
Proof.
  unfold dyn_info. rewrite (parse_file W im Hok). cbn [mbind option_bind]. unfold elf_type.
  rewrite (file_header W im Hok). cbn [mbind option_bind h_typ]. by rewrite interp_of_file.
Qed.

(** The encoder writes no section headers, hence no symbols. *)
Lemma symbols_of_file : ElfSym.symbol_data W (encode im) = Some None.
Proof.
  unfold ElfSym.symbol_data, ElfSym.parse_symbols.
  pose proof (parse_file W im Hok) as Hp. unfold parse in Hp. destruct (len (encode im) <? 16); [done|].
  destruct (field (encode im) 0 4) as [mg|]; [|done]. cbn [mbind option_bind] in *. destruct (mg =? ELF_MAGIC); [|done]. cbn [negb] in *.
  destruct (field (encode im) 5 1) as [en|]; [|done]. cbn [mbind option_bind] in Hp. destruct (negb (en =? 1)); [done|].
  destruct (field (encode im) 4 1) as [cl|]; [|done]. cbn [mbind option_bind] in *.
  pose proof (file_header W im Hok) as Hh. unfold header, file in Hh. cbn [class data] in Hh.
  assert (forall c, im_class im = c -> ElfSym.parse_class W c (encode im) = Some None) as Hc.
  { intros c <-. unfold ElfSym.parse_class. destruct (len (encode im) <? header_size _); [done|]. rewrite Hh. cbn [mbind option_bind h_shoff].
    unfold ElfSym.find_symtab_strtab. rewrite wrap_small by (apply small_fits; lia). done. }
  destruct (cl =? 1); [|destruct (cl =? 2); [|done]]; (destruct (len (encode im) <? header_size _); [done|]);
    destruct (header_of _ (encode im)) as [h|]; try done; cbn [mbind option_bind] in Hp;
    (destruct (negb _ && negb _); [done|]); (destruct (negb _); [done|]);
    rewrite Hc; try done; unfold file in Hp; congruence.
Qed.

Lemma class64_of_file : is_class64 (encode im) = match im_class im with Elf64 => true | Elf32 => false end.
Proof. unfold encode, enc_header. by destruct (im_class im). Qed.

End Image.

(** * The start *)

Definition wide_of (c : ElfClass) : bool := match c with Elf64 => true | Elf32 => false end.
Definition main_bias (im : Image) : Z :=
  if (im_type im =? 3) && (if interp_path im is Some _ then true else false) then PIE_BASE else 0.

(** What [load_elf] answers for an image. *)
Definition loaded_image (W : Z) (im : Image) (bias : Z) : LoadedElf :=
  mkLoaded (im_entry im + bias) (im_class im) (image_end (im_parts im) bias) (wrap W (bias + header_size (im_class im)))
    (program_header_size (im_class im)) (Z.of_nat (length (im_parts im))).

(** An image that can be loaded at a bias. *)
Definition placeable (W : Z) (im : Image) (bias : Z) : Prop :=
  image_ok W im /\ Forall (placed W bias) (im_parts im) /\ fits 64 (im_entry im + bias).

(** The program with the interpreter its path names, if it has one. *)
Definition linked (load_file_resolved : Path -> option (list Z)) (im : Image) (ld : option Image) : Prop :=
  match interp_path im, ld with
  | None, None => True
  | Some ip, Some im2 => load_file_resolved (strip_slashes ip) = Some (encode im2)
  | _, _ => False
  end.

Definition start_address (im : Image) (ld : option Image) : Z :=
  match ld with None => im_entry im + main_bias im | Some im2 => im_entry im2 + INTERP_BASE end.
Definition start_auxv (W : Z) (im : Image) (ld : option Image) : list (Z * Z) :=
  match ld with None => [] | Some _ => dynamic_auxv W (loaded_image W im (main_bias im)) end.
Definition start_memory (im : Image) (ld : option Image) (m : Mem) : Mem :=
  let m := image_byte (im_parts im) (main_bias im) m in
  match ld with None => m | Some im2 => image_byte (im_parts im2) INTERP_BASE m end.

Lemma stack_ok_ext W wide m1 m2 args extra m' sp : (forall a, m1 a = m2 a) ->
  stack_ok W wide m1 args extra m' sp -> stack_ok W wide m2 args extra m' sp.
Proof. intros Hm [H1 H2 H3 H4 H5 H6 H7]. split; try done. intros a Ha. rewrite <- Hm. by apply H3. Qed.

Lemma image_byte_ext ps bias m1 m2 a : (forall a, m1 a = m2 a) -> image_byte ps bias m1 a = image_byte ps bias m2 a.
Proof. intros Hm. unfold image_byte. by rewrite Hm. Qed.

Lemma main_bias_fits W im : 32 <= W -> fits W (main_bias im).
Proof.
  intros HW. unfold main_bias, PIE_BASE. pose proof (Z.pow_le_mono_r 2 32 W). unfold fits. destruct (_ && _); lia.
Qed.

(** The entries for the interpreter fit the words of the program. *)
Lemma dynamic_auxv_fits W im : 32 <= W -> image_ok W im -> 0 <= im_entry im + main_bias im < 256 ^ word (wide_of (im_class im)) ->
  Forall (fun e => 0 < fst e /\ fits_word (wide_of (im_class im)) (fst e) /\ fits_word (wide_of (im_class im)) (snd e))
    (dynamic_auxv W (loaded_image W im (main_bias im))).
Proof.
  intros HW (_ & _ & Hn & _) He. set (wd := wide_of (im_class im)) in *.
  assert (256 ^ 4 <= 256 ^ word wd) as Hw by (apply Z.pow_le_mono_r; [lia|by destruct wd]). change (256 ^ 4) with 4294967296 in Hw.
  assert (forall x, 0 <= x < 4294967296 -> fits_word wd x) as Hs by (unfold fits_word; intros; lia).
  assert (0 <= main_bias im <= PIE_BASE) as Hb by (unfold main_bias, PIE_BASE; destruct (_ && _); lia). unfold PIE_BASE in Hb.
  assert (2 ^ 32 <= 2 ^ W) by (apply Z.pow_le_mono_r; lia).
  unfold dynamic_auxv, loaded_image. cbn [l_phdr_vaddr l_phentsize l_phnum l_entry].
  assert (fits_word wd (wrap W (im_entry im + main_bias im))) as Hent.
  { unfold fits_word, wrap. pose proof (Z.mod_pos_bound (im_entry im + main_bias im) (2 ^ W) ltac:(lia)).
    pose proof (Z.mod_le (im_entry im + main_bias im) (2 ^ W)). lia. }
  assert (fits_word wd (wrap W (main_bias im + header_size (im_class im)))) as Hph.
  { rewrite wrap_small by (unfold fits; destruct (im_class im); cbn [header_size]; lia). apply Hs. destruct (im_class im); cbn [header_size]; lia. }
  unfold INTERP_BASE.
  repeat apply Forall_cons_2; try apply Forall_nil_2; cbn [fst snd]; split_and!; try lia; try done; apply Hs; try lia;
    destruct (im_class im); cbn [program_header_size]; lia.
Qed.

Section Start.
Context {Sp Fx Dos Os2 Win : Type}.
Abbreviation T := (Thread.Thread (Space := Sp) (Fx := Fx) (Dos := Dos) (Os2 := Os2) (Win := Win) (Sym := list Z)).
Implicit Types (s : Space) (current : T).

Lemma start_program_ok W s2 s seed current l im ld path args :
  32 <= W -> image_ok W im -> 0 <= im_entry im + main_bias im < 256 ^ word (wide_of (im_class im)) ->
  0 <= start_address im ld < 256 ^ word (wide_of (im_class im)) -> Forall arg_ok args ->
  stack_need (wide_of (im_class im)) args (start_auxv W im ld) < USER_STACK_TOP -> personality current = PLinux l ->
  (forall a, bytes s2 a = start_memory im ld (bytes s) a) ->
  exists s' seed' t sp,
    start_program W s2 seed current (encode im) path args (loaded_image W im (main_bias im)) (start_address im ld) (start_auxv W im ld)
      = Some (inr (s', seed', t)) /\
    regs (kernel t) = (if wide_of (im_class im) then init_user_process_64 else init_user_process) (start_address im ld) sp /\
    stack_ok W (wide_of (im_class im)) (start_memory im ld (bytes s)) args (start_auxv W im ld) (bytes s') sp /\
    personality t = PLinux (exec_state l (image_end (im_parts im) (main_bias im)) path).
Proof.
  intros HW Hok Hent Hst Hargs Hneed Hpers Hs2. unfold start_program. cbn [loaded_image l_class l_max_vaddr]. fold (wide_of (im_class im)).
  rewrite (symbols_of_file W ltac:(lia) im Hok). cbn [mbind option_bind].
  assert (Forall (fun e => 0 < fst e /\ fits_word (wide_of (im_class im)) (fst e) /\ fits_word (wide_of (im_class im)) (snd e)) (start_auxv W im ld)) as Hx.
  { destruct ld; [by apply dynamic_auxv_fits|constructor]. }
  destruct (setup_user_stack_ok W HW (wide_of (im_class im)) (bytes s2) seed args (start_auxv W im ld) Hargs Hx Hneed) as (m' & sp & seed' & -> & Hsk).
  pose proof (so_room _ _ _ _ _ _ _ Hsk) as [Hr _]. unfold USER_STACK_TOP in Hr.
  rewrite !(wrap_small 64 sp), !(wrap_small 32 sp) by (pow2; lia).
  apply (stack_ok_ext _ _ _ _ _ _ _ _ Hs2) in Hsk.
  destruct (wide_of (im_class im)); cbn [word] in Hst; rewrite !(wrap_small _ (start_address im ld)) by (pow2; lia);
    cbn [init_process_thread init_process_thread_64 on_kernel personality kernel]; rewrite Hpers;
    do 3 eexists; exists sp; (split; [done|]); (split; [done|]); by split.
Qed.


End Start.

(** * A program and its interpreter *)

Module Sample.

(** The path "/ld", and code that is loaded with it. *)
Definition path_part : Part := mkPart PT_INTERP 4 0x200 0x200 4 1 [47; 108; 100; 0].
Definition code_part : Part := mkPart PT_LOAD 5 0x1000 0x1000 3 0x1000 [0x90; 0xCD; 0x80].
Definition prog : Image := mkImage Elf32 3 0x1000 [path_part; code_part].
Definition ld_so : Image := mkImage Elf32 3 0x1002 [code_part].

Definition ld : Path := [108; 100].
Definition files (p : Path) : option (list Z) := if decide (p = ld) then Some (encode ld_so) else None.

Abbreviation T := (Thread.Thread (Space := ()) (Fx := ()) (Dos := ()) (Os2 := ()) (Win := ()) (Sym := list Z)).
Definition caller : T :=
  mkT (mkThread 1 1 0 0 Ready 0 empty_regs () () 0 0 0 None no_fds (replicate 16 0)) (PLinux new_linux).

Lemma prog_linked : linked files prog (Some ld_so).
Proof. unfold linked. by vm_compute. Qed.

Lemma sample_placeable bias : 0 <= bias <= 0x60000000 -> placeable 32 prog bias /\ placeable 32 ld_so bias.
Proof.
  intros Hb. assert (Forall (placed 32 bias) [path_part; code_part]) as Hp.
  { repeat apply Forall_cons_2; try apply Forall_nil_2; unfold placed, PAGE_SIZE, len;
      cbn [path_part code_part p_vaddr p_memsz p_bytes length]; lia. }
  assert (forall im, im_parts im = [path_part; code_part] \/ im_parts im = [code_part] -> Forall (placed 32 bias) (im_parts im)) as Hpl.
  { intros im [-> | ->]; [exact Hp|]. by inversion_clear Hp. }
  split; (split; [|split; [apply Hpl; (by left) || (by right)|unfold fits; cbn; lia]]).
  - split; [by right|]. split; [by vm_compute|]. split; [by vm_compute|]. split; [|by vm_compute].
    repeat apply Forall_cons_2; try apply Forall_nil_2; by vm_compute.
  - split; [by right|]. split; [by vm_compute|]. split; [by vm_compute|]. split; [|by vm_compute].
    repeat apply Forall_cons_2; try apply Forall_nil_2; by vm_compute.
Qed.


End Sample.
End ElfStart.
